(* ===== verification/_CoqProject ===== *)
-Q . S2P
Prelude.v
Math.v
MathBits.v
ByteOrder.v
Memory.v
ByteBuf.v
ByteBufSpec.v
ByteBufCache.v
ByteCursorSpec.v
ByteCursorText.v
ByteCursorOrder.v
Encoding.v
EncodingSpec.v
Base64Spec.v
Base64Decode.v
ArrayList.v
ArrayItems.v
ArrayListSpec.v
ArrayListSwap.v
PriorityQueue.v
PriorityQueueSpec.v
PriorityQueueOps.v
PriorityQueueClaims.v
LinkedList.v
LinkedListSpec.v
LinkedListOps.v
LinkedListMove.v
LinkedLists.v
RingBuffer.v
RingBufferSpec.v
RingBufferThreads.v
HashTable.v
HashTableRing.v
HashTableInv.v
HashTableOps.v
HashTableSpec.v
HashTableHistory.v
HashTableIter.v
LinkedHashTable.v
LinkedHashTableSpec.v
CacheSpec.v
TaskScheduler.v
TaskSchedulerSpec.v
TaskSchedulerCalls.v
TaskSchedulerRun.v
TaskSchedulerClaims.v
Calendar.v
DateTime.v
DateTimeParse.v
DateTimeRfc.v
DateTimeSpec.v
DateTimePrint.v
AwsString.v
AwsStringSpec.v
Lookup3.v
Lookup3Spec.v
KeyHashes.v
Sba.v
SbaSpec.v
SbaOps.v
SbaState.v
SbaCalls.v
SbaClaims.v
Xml.v
XmlSpec.v
XmlTree.v
XmlRun.v
XmlClaims.v
Bus.v
BusSync.v
BusAsync.v
BusClaims.v
Promise.v
PromiseClaims.v
CommandLine.v
LogChannel.v
Registries.v
Memtrace.v
MemtraceReport.v
ThreadScheduler.v
