(* ===== verification/Prelude.v ===== *)
(** * A verification of aws-c-common

    aws-c-common is the base library of the AWS SDKs in C: containers, byte
    buffers, encodings, allocators, and portable wrappers of the platform. This
    library models its containers and its byte handling as Rocq functions and
    proves what callers rely on. File names below are relative to the
    repository: [source/], [include/aws/common/].

    ** The program's parts and how they interact

    [math] gives checked and saturating arithmetic to everything else. The
    [allocator] hands out blocks; [byte_buf] keeps a growable buffer in one
    block and cursors that point into any memory; [encoding] reads cursors and
    writes buffers. [string] makes immutable strings, [date_time] prints dates
    into buffers and parses them from cursors, [xml_parser] walks through a
    document in a cursor and calls back. [array_list] keeps fixed-size items in one block;
    [priority_queue] is a binary heap in an array list, with a second array
    list of pointers back to nodes of the caller. [hash_table] keeps its slots
    in a block of its own and takes hash, equality and destructor functions
    from the caller; those for strings, cursors and pointers are built on
    [lookup3]. [ring_buffer] vends parts of one block to a thread that
    acquires and takes them back from a thread that releases. [linked_list]
    links nodes embedded in objects of the caller. [linked_hash_table] keeps
    the elements of a hash table in the order of a linked list; the LRU, FIFO
    and LIFO caches evict along that list. [task_scheduler] keeps tasks in two
    linked lists and a priority queue, and calls back into the functions of the
    tasks; [thread_scheduler] runs one in a thread of its own. The small block
    allocator [allocator_sba] vends chunks of equal size
    from pages and leaves larger blocks to a parent allocator. The message [bus]
    keeps lists of listeners in a hash table; it delivers at once, or from queues
    in a thread of its own, as the background log channel does with its
    lines. A promise is shared by reference counts ([ref_count]) and waited for.
    [command_line_parser] goes through the arguments of a program. Errors are
    reported by return code and error number.

    ** Files

    - [Prelude.v]: machine words, [aws_common_error] of [error.h], results,
      lists indexed by integers, slices of lists, bits; tactics and the hint
      database [aws].
    - [Math.v]: [math.inl], [math.gcc_overflow.inl], [math.fallback.inl],
      [math.c]. [MathBits.v]: leading and trailing zeros in
      [math.gcc_builtin.inl] and [math.fallback.inl], minima and maxima.
    - [ByteOrder.v]: [byte_order.inl], for a host of either byte order.
    - [Memory.v]: memory as blocks of bytes, the functions of [string.h], and
      the default allocator of [allocator.c]. Computations return a value, stop
      the process, or fault: a theorem that a call returns is a memory-safety
      theorem. Memory that is released keeps a record of its last content.
    - [ByteBuf.v]: all of [byte_buf.c]. [ByteBufSpec.v]: appending, growing and
      secure clean-up. [ByteBufCache.v]: reserving, and caching cursors in one
      buffer. [ByteCursorSpec.v]: advancing with and without speculation
      barriers, big-endian integers. [ByteCursorText.v]: splitting, searching,
      trimming. [ByteCursorOrder.v]: equality, hashing, comparing, parsing.
    - [Encoding.v]: [encoding.c] and [encoding.inl]. [EncodingSpec.v]:
      hexadecimal. [Base64Spec.v], [Base64Decode.v]: base64.
    - [ArrayList.v]: [array_list.c] and [array_list.inl] on bytes.
      [ArrayItems.v]: the same list on items, the interface the priority queue
      uses, and its operations against plain lists. [ArrayListSpec.v],
      [ArrayListSwap.v]: the byte level implements the item level.
    - [PriorityQueue.v]: [priority_queue.c]. [PriorityQueueSpec.v]: heap order
      under one exchange, the sifting loops. [PriorityQueueOps.v]:
      push, pop and remove. [PriorityQueueClaims.v]: their theorems.
    - [LinkedList.v]: [linked_list.inl], on a store of nodes indexed by address.
      [LinkedListSpec.v]: what a well-formed list is and how it changes when
      links change. [LinkedListOps.v]: histories on one list.
      [LinkedListMove.v]: exchanging and moving whole lists, the deep check.
      [LinkedLists.v]: several lists in one store.
    - [RingBuffer.v]: [ring_buffer.c], [ring_buffer.inl]. [RingBufferSpec.v]:
      the layout of the vended spans and each operation on it.
      [RingBufferThreads.v]: the interleavings of two threads.
    - [HashTable.v]: [hash_table.c], [hash_table.h], [hash_table_impl.h].
      [HashTableRing.v]: probe distances on the ring of slots.
      [HashTableInv.v]: the robin-hood invariant. [HashTableOps.v],
      [HashTableSpec.v]: each operation against an abstract map.
      [HashTableHistory.v]: histories of operations, destructor events,
      equality. [HashTableIter.v]: iteration with deletion.
    - [LinkedHashTable.v]: [linked_hash_table.c], [cache.c], [lru_cache.c],
      [fifo_cache.c], [lifo_cache.c]. [LinkedHashTableSpec.v]: nodes and elements
      in memory, each operation on an ordered list of pairs. [CacheSpec.v]: the eviction policies.
    - [TaskScheduler.v]: [task_scheduler.c]; what the functions of the tasks do
      is a function of all that ran before. [TaskSchedulerSpec.v]: a class of
      programs that keep memory, and the state.
      [TaskSchedulerCalls.v]: scheduling and cancelling. [TaskSchedulerRun.v]:
      collecting the due tasks; plans, and that a run carries one out.
      [TaskSchedulerClaims.v]: the theorems.
    - [Calendar.v]: the proleptic Gregorian calendar, [aws_timegm] and
      [aws_gmtime] of [posix/time.c]. [DateTime.v]: [date_time.c] and the unit
      conversion of [clock.inl]. [DateTimeParse.v], [DateTimeRfc.v]: the three
      parsers. [DateTimeSpec.v]: what they accept.
      [DateTimePrint.v]: printing, the round trip, unit conversion.
    - [AwsString.v]: [string.c], [string.h], [string.inl]. [AwsStringSpec.v]:
      the life of a string, comparisons.
    - [Lookup3.v]: [lookup3.inl] and the key hashes of [hash_table.c].
      [Lookup3Spec.v]: the paths for aligned and other keys agree.
      [KeyHashes.v]: hashes and equality callbacks of each kind of key.
    - [Sba.v]: [allocator_sba.c]. [SbaSpec.v]: the invariant of a bin.
      [SbaOps.v]: taking and giving back a chunk. [SbaState.v], [SbaCalls.v]:
      all bins, blocks in use, and each call.
      [SbaClaims.v]: the theorems.
    - [Xml.v]: [xml_parser.c], [xml_parser_impl.h]; callbacks are programs.
      [XmlSpec.v]: where the body of a node ends. [XmlTree.v]: trees, their
      printed form, and scanning it. [XmlRun.v]: callbacks on a tree, and the
      parser as a refinement, also on whole documents.
      [XmlClaims.v]: the theorems.
    - [Bus.v]: [bus.c], [bus.h]; what is called is a list of events.
      [BusSync.v]: the slots against lists of listeners by address, histories of
      the synchronous bus, and listeners that call the bus. [BusAsync.v]: interleavings of calls and the dispatch thread.
      [BusClaims.v]: the theorems.
    - [Promise.v]: [ref_count.c], [promise.c], [condition_variable.c].
      [PromiseClaims.v]: interleavings of the threads that share a promise.
    - [LogChannel.v]: [log_channel.c], and interleavings with its thread.
    - [CommandLine.v]: [command_line_parser.c].
    - [Registries.v]: [error.c] and, of [logging.c], the log subjects and levels.
    - [Memtrace.v]: [memtrace.c], over the hash table. [MemtraceReport.v]: its
      report, over tables, their iteration and priority queues.
    - [ThreadScheduler.v]: [thread_scheduler.c], over the task scheduler and the
      reference count: interleavings of its callers with its thread.

    ** What the theorems show

    - Hash table: from [aws_hash_table_init] on, any history of find, put,
      remove and clear is one of an abstract partial map up to key equality;
      every value put in is exactly once still there, returned, or destroyed;
      [aws_hash_table_foreach] visits each entry once even when deletions wrap
      around the table; [aws_hash_table_eq] decides equality of the maps.
    - Byte buffers and cursors: each function runs without undefined behaviour
      on valid arguments, also when a cursor points into the buffer that is
      appended to; contents, capacities and errors on every branch; growing takes
      one block and releases the old one; the secure
      functions release only zeroed memory; text functions against definitions
      on lists; round trips of big-endian integers on either host.
    - Encodings: hexadecimal and base64 against definitions on lists, errors,
      and decoding after encoding.
    - Array list: any history of operations refines the same history on a plain
      list, for items of any size and any growth, also when an item is set far
      beyond the end.
    - Priority queue: heap order, exactly the pushed entries, node indices
      always correct, pops in order.
    - Linked lists: any permitted history refines plain lists of addresses,
      swapping and moving lists included, without touching other nodes; the
      deep check ends on any links and decides well-formedness.
    - Ring buffer: buffers vended in any interleaving of the two threads never
      overlap and stay in the block; a request is refused only when no
      admissible placement exists, and no space is lost.
    - Caches: any history on an LRU, FIFO or LIFO cache is one of its policy on a
      list of pairs, the calls of the destructors included; values are destroyed
      exactly once, and nodes and the cache itself are released.
    - Task scheduler: a run executes the tasks for now and then the due ones in
      time order, whatever tasks schedule or cancel meanwhile; when tasks at
      most reschedule themselves it ends and runs each exactly once; cleaning
      up cancels the waiting tasks in rounds, with those that cancelled tasks
      schedule, until none waits; the next task's time is the earliest.
    - Dates: the texts that the parsers of RFC 822 and ISO 8601 accept, which are
      more than the formats allow, and their fields; printing and parsing is the
      identity in UTC; timestamps are converted exactly or saturate.
    - Strings: copies, terminated, released once and zeroed when secure; the
      comparisons decide the lexicographic order and equality.
    - Hash functions: the hash of a key is a function of its bytes, on any host
      and alignment; keys that are equal have the same hash.
    - Small block allocator: in any history of calls blocks in use never overlap
      and keep their contents, whatever the parent returns, as long as nobody else
      writes the two tags of a page; a page that empties is given back with its
      tags erased; the statistics are exact, and all pages are returned.
    - XML: the parser gives callbacks what a printed tree has; this covers all
      callbacks that take a node once and ask for its attributes before its
      elements, if no name begins with that of an element around it. Parsing after
      printing is the identity on trees with text in the leaves; the depth is
      limited.
    - Message bus: messages go to the listeners of all addresses and then to
      those of theirs, in order of subscription, at once or, in every
      interleaving with the dispatch thread, in the order of sending; each is
      delivered and destroyed once; closing drains the queues, calls every
      listener that is left once and leaves no block of the bus in use.
    - Promises, in every interleaving: the count is exact, the memory is released
      with the last reference, the value has one owner unless takes overlap, no
      wake-up is lost.
    - Log channels: every line is written once, in order, and the thread ends.
    - Command lines: options printed as words are parsed back; parsing any words
      ends, and reads nothing beyond them where the options permit it.
    - Registries: what was registered for a code or a subject is what is found.
    - Memory tracer: the count and the bytes are those of the blocks in use; the
      report lists each of them once, oldest first, and sums up each stack;
      destroying releases what the tracer kept and the tracer.
    - Thread scheduler, in every interleaving: each task handed over is queued,
      waits, or has run or been cancelled, exactly once; while the scheduler is
      held the thread notices what it is asked for.
    - Arithmetic: exact or reported overflow, and the portable variants equal
      the ones with compiler builtins.

    ** Choices and bounds

    Integers are [Z] with the wrap-around of [size_t] (64 bits) written out
    where the code computes. Loops with a counter recurse on it; loops without
    one take fuel, and the theorems show that the fuel the functions give
    themselves is enough (the number of slots for probing, the length for
    sifting, searching and splitting). The release build is modelled:
    AWS_PRECONDITION checks nothing, AWS_FATAL_PRECONDITION stops the process.
    An allocation that cannot be served stops the process, as
    AWS_PANIC_OOM does. Theorems about the priority queue assume fewer than
    2^60 entries, those about base64 texts shorter than 2^62, those about the
    task scheduler fewer than 2^58 tasks. The loops of the scheduler end within
    the number of tasks; the calls that the functions of tasks make are counted,
    and the theorems say for which functions a count is enough.

    Parameters of the model, because their code is the caller's or the
    platform's: hash, equality, comparison and trimming functions, the host
    byte order, [qsort], the list that collects split pieces, the functions of
    tasks, the callbacks of the XML parser, listeners of the bus and destructors
    of messages; the local time zone, its name and
    [mktime]; what [strftime] leaves in a buffer that is too small; the bytes
    behind a key, and its address; the pages of the operating system, the blocks
    of a parent allocator, the memory at the start and what clients write there;
    for the memory
    tracer, what the traced allocator returns, the time, the frames of a stack,
    their hash and their names; for the thread scheduler, the clock.

    ** Not modelled

    Threads, locks and condition variables themselves, atomics, clocks, files,
    processes and devices (operating system); formatting and writing log lines,
    the banners of the report of the memory tracer, [uuid.c] (formats of the C
    library); vendored cJSON and [json.c] around it; alignment of allocations; the
    storage of the XML parser itself, and of [struct aws_bus]. SIMD and assembly
    variants: [encoding.c] is modelled as it is built without them, with the
    branches on [aws_common_private_has_avx2] and the stubs they call; in a build
    with them [encoding_avx2.c] runs instead, which does not take NUL for a
    character of base64. The block of slots is part of the model of the hash table,
    but not counted in the memory of its users: the caches, the bus and the tracer.
    Where a theorem of theirs says that memory is released, it says so of their own
    blocks. *)

From Stdlib Require Export ZArith Lia.
From stdpp Require Export base numbers list gmap.

Declare Scope aws_scope.
Delimit Scope aws_scope with aws.

Local Open Scope Z_scope.

(** ** Machine integers

    The model is of the 64-bit build ([SIZE_BITS == 64]): a [size_t], a
    [uint64_t] and a [uintptr_t] are [Z] in [0, 2^64); unsigned arithmetic
    wraps with [u64], [u32], [u8]. *)

Definition u8 (x : Z) : Z := x mod 2 ^ 8.
Definition u32 (x : Z) : Z := x mod 2 ^ 32.
Definition u64 (x : Z) : Z := x mod 2 ^ 64.

Definition SIZE_MAX : Z := 2 ^ 64 - 1.

Definition is_u8 (x : Z) : Prop := 0 <= x < 2 ^ 8.
Definition is_u32 (x : Z) : Prop := 0 <= x < 2 ^ 32.
Definition is_u64 (x : Z) : Prop := 0 <= x < 2 ^ 64.

(** ** Error codes and results

    [aws_raise_error e] stores [e] as the thread's last error and returns
    [AWS_OP_ERR]; the model returns the code with the failure. *)

Inductive aws_common_error :=
| AWS_ERROR_SUCCESS
| AWS_ERROR_OOM
| AWS_ERROR_NO_SPACE
| AWS_ERROR_UNKNOWN
| AWS_ERROR_SHORT_BUFFER
| AWS_ERROR_OVERFLOW_DETECTED
| AWS_ERROR_UNSUPPORTED_OPERATION
| AWS_ERROR_INVALID_BUFFER_SIZE
| AWS_ERROR_INVALID_HEX_STR
| AWS_ERROR_INVALID_BASE64_STR
| AWS_ERROR_INVALID_INDEX
| AWS_ERROR_THREAD_INVALID_SETTINGS
| AWS_ERROR_THREAD_INSUFFICIENT_RESOURCE
| AWS_ERROR_THREAD_NO_PERMISSIONS
| AWS_ERROR_THREAD_NOT_JOINABLE
| AWS_ERROR_THREAD_NO_SUCH_THREAD_ID
| AWS_ERROR_THREAD_DEADLOCK_DETECTED
| AWS_ERROR_MUTEX_NOT_INIT
| AWS_ERROR_MUTEX_TIMEOUT
| AWS_ERROR_MUTEX_CALLER_NOT_OWNER
| AWS_ERROR_MUTEX_FAILED
| AWS_ERROR_COND_VARIABLE_INIT_FAILED
| AWS_ERROR_COND_VARIABLE_TIMED_OUT
| AWS_ERROR_COND_VARIABLE_ERROR_UNKNOWN
| AWS_ERROR_CLOCK_FAILURE
| AWS_ERROR_LIST_EMPTY
| AWS_ERROR_DEST_COPY_TOO_SMALL
| AWS_ERROR_LIST_EXCEEDS_MAX_SIZE
| AWS_ERROR_LIST_STATIC_MODE_CANT_SHRINK
| AWS_ERROR_PRIORITY_QUEUE_FULL
| AWS_ERROR_PRIORITY_QUEUE_EMPTY
| AWS_ERROR_PRIORITY_QUEUE_BAD_NODE
| AWS_ERROR_HASHTBL_ITEM_NOT_FOUND
| AWS_ERROR_INVALID_DATE_STR
| AWS_ERROR_INVALID_ARGUMENT
| AWS_ERROR_RANDOM_GEN_FAILED
| AWS_ERROR_MALFORMED_INPUT_STRING
| AWS_ERROR_UNIMPLEMENTED
| AWS_ERROR_INVALID_STATE
| AWS_ERROR_ENVIRONMENT_GET
| AWS_ERROR_ENVIRONMENT_SET
| AWS_ERROR_ENVIRONMENT_UNSET
| AWS_ERROR_STREAM_UNSEEKABLE
| AWS_ERROR_NO_PERMISSION
| AWS_ERROR_FILE_INVALID_PATH
| AWS_ERROR_MAX_FDS_EXCEEDED
| AWS_ERROR_SYS_CALL_FAILURE
| AWS_ERROR_C_STRING_BUFFER_NOT_NULL_TERMINATED
| AWS_ERROR_STRING_MATCH_NOT_FOUND
| AWS_ERROR_DIVIDE_BY_ZERO
| AWS_ERROR_INVALID_FILE_HANDLE
| AWS_ERROR_OPERATION_INTERUPTED
| AWS_ERROR_DIRECTORY_NOT_EMPTY
| AWS_ERROR_PLATFORM_NOT_SUPPORTED.

#[export] Instance aws_common_error_eq_dec : EqDecision aws_common_error.
Proof. solve_decision. Defined.

(** The [int] of a function whose outputs are the state it updates. *)
Inductive op_result :=
| AWS_OP_SUCCESS
| AWS_OP_ERR (e : aws_common_error).

#[export] Instance op_result_eq_dec : EqDecision op_result.
Proof. solve_decision. Defined.

Definition aws_raise_error (e : aws_common_error) : op_result := AWS_OP_ERR e.

(** The [int] of a function that writes one out-parameter on success and
    nothing on failure. *)
Inductive result (A : Type) :=
| Ok (a : A)
| Err (e : aws_common_error).
Arguments Ok {A} a.
Arguments Err {A} e.

#[export] Instance result_eq_dec `{EqDecision A} : EqDecision (result A).
Proof. solve_decision. Defined.

(** ** Lists indexed by machine integers *)

Definition zlength {A} (l : list A) : Z := Z.of_nat (length l).

Definition zlookup {A} (l : list A) (i : Z) : option A :=
  if 0 <=? i then l !! Z.to_nat i else None.

(** Update in place; [None] when the index is out of range. *)
Definition zupdate {A} (l : list A) (i : Z) (x : A) : option (list A) :=
  if (0 <=? i) && (i <? zlength l) then Some (<[Z.to_nat i := x]> l) else None.

(** [n] elements from offset [o]; [None] when the range leaves the list. *)
Definition slice {A} (l : list A) (o n : Z) : option (list A) :=
  if (0 <=? o) && (0 <=? n) && (o + n <=? zlength l)
  then Some (take (Z.to_nat n) (drop (Z.to_nat o) l)) else None.

(** Overwrite the elements from offset [o] with [x]; [None] when they do not
    all fit. *)
Definition splice {A} (l : list A) (o : Z) (x : list A) : option (list A) :=
  if (0 <=? o) && (o + zlength x <=? zlength l)
  then Some (take (Z.to_nat o) l ++ x ++ drop (Z.to_nat o + length x) l)
  else None.

(** ** Tactics *)

(** Case on the integer comparisons of the goal, closing absurd cases. *)
Ltac zcase :=
  repeat match goal with
  | |- context [Z.ltb ?a ?b] => destruct (Z.ltb_spec a b); cbn [andb orb negb]; try lia
  | |- context [Z.leb ?a ?b] => destruct (Z.leb_spec a b); cbn [andb orb negb]; try lia
  | |- context [Z.eqb ?a ?b] => destruct (Z.eqb_spec a b); cbn [andb orb negb]; try lia
  | |- context [Z.gtb ?a ?b] => rewrite (Z.gtb_ltb a b)
  | |- context [Z.geb ?a ?b] => rewrite (Z.geb_leb a b)
  end.

(** The same in a hypothesis. *)
Ltac zcase_in H :=
  repeat match type of H with
  | context [Z.ltb ?a ?b] => destruct (Z.ltb_spec a b); cbn [andb orb negb] in H; try lia
  | context [Z.leb ?a ?b] => destruct (Z.leb_spec a b); cbn [andb orb negb] in H; try lia
  | context [Z.eqb ?a ?b] => destruct (Z.eqb_spec a b); cbn [andb orb negb] in H; try lia
  | context [Z.gtb ?a ?b] => rewrite (Z.gtb_ltb a b) in H
  | context [Z.geb ?a ?b] => rewrite (Z.geb_leb a b) in H
  end.

Ltac unfold_words :=
  unfold is_u8, is_u32, is_u64, u8, u32, u64, SIZE_MAX in *.

Create HintDb aws discriminated.

(** ** Generic lemmas *)

Lemma u64_small x : is_u64 x -> u64 x = x.
Proof. unfold u64, is_u64. apply Z.mod_small. Qed.

Lemma u32_small x : is_u32 x -> u32 x = x.
Proof. unfold u32, is_u32. apply Z.mod_small. Qed.

Lemma u8_small x : is_u8 x -> u8 x = x.
Proof. unfold u8, is_u8. apply Z.mod_small. Qed.

Lemma u64_range x : is_u64 (u64 x).
Proof. unfold u64, is_u64. apply Z.mod_pos_bound. lia. Qed.

Lemma u32_range x : is_u32 (u32 x).
Proof. unfold u32, is_u32. apply Z.mod_pos_bound. lia. Qed.

Lemma u8_range x : is_u8 (u8 x).
Proof. unfold u8, is_u8. apply Z.mod_pos_bound. lia. Qed.

#[export] Hint Resolve u64_range u32_range u8_range : aws.

(** Masking with [2^k - 1] is the remainder by [2^k], also after a wrap to
    64 bits. *)
Lemma land_pow2_mask x k : 0 <= k -> Z.land x (2 ^ k - 1) = x mod 2 ^ k.
Proof.
  intros Hk. rewrite <- Z.land_ones by lia. f_equal.
  rewrite Z.ones_equiv. lia.
Qed.

Lemma land_u64_mask x k :
  0 <= k <= 64 -> Z.land (u64 x) (2 ^ k - 1) = x mod 2 ^ k.
Proof.
  intros Hk. rewrite land_pow2_mask by lia. unfold u64.
  replace (2 ^ 64) with (2 ^ k * 2 ^ (64 - k)).
  - rewrite Z.rem_mul_r by lia. rewrite Z.mul_comm, Z.mod_add by lia.
    rewrite Zmod_mod. reflexivity.
  - rewrite <- Z.pow_add_r by lia. f_equal. lia.
Qed.

Lemma zlength_nonneg {A} (l : list A) : 0 <= zlength l.
Proof. unfold zlength. lia. Qed.

Lemma zlength_app {A} (l k : list A) : zlength (l ++ k) = zlength l + zlength k.
Proof. unfold zlength. rewrite length_app. lia. Qed.

Lemma zlength_nil {A} : zlength (@nil A) = 0.
Proof. reflexivity. Qed.

Lemma zlength_cons {A} (x : A) l : zlength (x :: l) = 1 + zlength l.
Proof. unfold zlength. cbn [length]. lia. Qed.

Lemma zlength_zero_inv {A} (l : list A) : zlength l = 0 -> l = [].
Proof. destruct l; [reflexivity | rewrite zlength_cons]. pose proof (zlength_nonneg l). lia. Qed.

Lemma zlookup_Some {A} (l : list A) i x :
  zlookup l i = Some x <-> 0 <= i /\ l !! Z.to_nat i = Some x.
Proof. unfold zlookup. zcase; intuition (congruence || lia). Qed.

Lemma zlookup_lt {A} (l : list A) i x : zlookup l i = Some x -> 0 <= i < zlength l.
Proof.
  rewrite zlookup_Some. intros [Hi Hl]. apply lookup_lt_Some in Hl.
  unfold zlength. lia.
Qed.

Lemma zlookup_is_Some {A} (l : list A) i :
  0 <= i < zlength l -> exists x, zlookup l i = Some x.
Proof.
  unfold zlength. intros H.
  destruct (lookup_lt_is_Some_2 l (Z.to_nat i)) as [x Hx]; [lia |].
  exists x. apply zlookup_Some. split; [lia | assumption].
Qed.

Lemma zupdate_Some {A} (l : list A) i x :
  0 <= i < zlength l -> zupdate l i x = Some (<[Z.to_nat i := x]> l).
Proof. intros H. unfold zupdate. zcase. reflexivity. Qed.

Lemma zlength_insert {A} (l : list A) n x : zlength (<[n := x]> l) = zlength l.
Proof. unfold zlength. now rewrite length_insert. Qed.

Lemma zlookup_insert {A} (l : list A) i j x :
  0 <= i < zlength l -> 0 <= j ->
  zlookup (<[Z.to_nat i := x]> l) j = if i =? j then Some x else zlookup l j.
Proof.
  unfold zlength. intros Hi Hj. unfold zlookup. zcase.
  - subst. apply list_lookup_insert_eq. lia.
  - apply list_lookup_insert_ne. lia.
Qed.

Lemma slice_Some {A} (l : list A) o n :
  0 <= o -> 0 <= n -> o + n <= zlength l ->
  slice l o n = Some (take (Z.to_nat n) (drop (Z.to_nat o) l)).
Proof. intros. unfold slice. zcase. reflexivity. Qed.

Lemma slice_inv {A} (l : list A) o n x :
  slice l o n = Some x ->
  0 <= o /\ 0 <= n /\ o + n <= zlength l /\ x = take (Z.to_nat n) (drop (Z.to_nat o) l)
  /\ zlength x = n.
Proof.
  unfold slice. intros H. zcase_in H; try discriminate. injection H as <-.
  repeat split; try lia. unfold zlength in *. rewrite length_take, length_drop. lia.
Qed.

Lemma slice_full {A} (l : list A) : slice l 0 (zlength l) = Some l.
Proof.
  rewrite slice_Some; try (pose proof (zlength_nonneg l); lia).
  unfold zlength. rewrite Nat2Z.id, drop_0, firstn_all. reflexivity.
Qed.

Lemma splice_Some {A} (l : list A) o x :
  0 <= o -> o + zlength x <= zlength l ->
  splice l o x = Some (take (Z.to_nat o) l ++ x ++ drop (Z.to_nat o + length x) l).
Proof. intros. unfold splice. zcase. reflexivity. Qed.

Lemma splice_inv {A} (l : list A) o x l' :
  splice l o x = Some l' ->
  0 <= o /\ o + zlength x <= zlength l
  /\ l' = take (Z.to_nat o) l ++ x ++ drop (Z.to_nat o + length x) l
  /\ zlength l' = zlength l.
Proof.
  unfold splice. intros H. zcase_in H; try discriminate. injection H as <-.
  repeat split; try lia. unfold zlength in *.
  rewrite !length_app, length_take, length_drop. lia.
Qed.

(** Replacing an element exchanges it with the new one. *)
Lemma insert_exchange {A} (l : list A) i x y :
  l !! i = Some y -> y :: <[i := x]> l ≡ₚ x :: l.
Proof.
  intros H. pose proof (lookup_lt_Some _ _ _ H).
  rewrite (insert_take_drop l i x) by assumption.
  rewrite <- (take_drop_middle l i y H) at 3.
  rewrite <- !Permutation_middle. apply perm_swap.
Qed.

(** Moving an element to another index and overwriting its old place is, as
    a multiset, overwriting the other place. *)
Lemma insert_move_perm {A} (l : list A) i j x y z :
  i <> j -> l !! j = Some y -> l !! i = Some z ->
  <[j := x]> (<[i := y]> l) ≡ₚ <[i := x]> l.
Proof.
  intros Hij Hj Hi. apply (Permutation_cons_inv (a := y)), (Permutation_cons_inv (a := z)).
  rewrite (insert_exchange (<[i := y]> l) j x y)
    by (rewrite list_lookup_insert_ne by congruence; assumption).
  rewrite (perm_swap x z), (insert_exchange l i y z Hi).
  rewrite (perm_swap y z), (insert_exchange l i x z Hi). apply perm_swap.
Qed.

(** ** Slices *)

Lemma slice_lookup {A} (l : list A) o n x i :
  slice l o n = Some x -> (Z.of_nat i < n) -> x !! i = l !! (Z.to_nat o + i)%nat.
Proof.
  intros H Hi. apply slice_inv in H as (Ho & Hn & _ & -> & _).
  rewrite lookup_take_lt by lia. apply lookup_drop.
Qed.

Lemma slice_ext {A} (l l' : list A) o o' n :
  0 <= o -> 0 <= o' -> o + n <= zlength l -> o' + n <= zlength l' ->
  (forall i, 0 <= i < n -> l !! Z.to_nat (o + i) = l' !! Z.to_nat (o' + i)) ->
  slice l o n = slice l' o' n.
Proof.
  intros Ho Ho' Hl Hl' H. destruct (Z.le_gt_cases 0 n) as [Hn | Hn].
  2: { unfold slice. zcase; reflexivity. }
  rewrite !slice_Some by lia. f_equal. apply list_eq. intros i.
  destruct (Nat.lt_ge_cases i (Z.to_nat n)).
  - rewrite !lookup_take_lt, !lookup_drop by lia. specialize (H (Z.of_nat i) ltac:(lia)).
    replace (Z.to_nat (o + Z.of_nat i)) with (Z.to_nat o + i)%nat in H by lia.
    now replace (Z.to_nat (o' + Z.of_nat i)) with (Z.to_nat o' + i)%nat in H by lia.
  - rewrite !lookup_take_ge by lia. reflexivity.
Qed.

(** Reading back what was written, and reading beside it. *)
Lemma slice_splice_same {A} (l : list A) o x l' :
  splice l o x = Some l' -> slice l' o (zlength x) = Some x.
Proof.
  intros H. apply splice_inv in H as (Ho & Hl & -> & Hlen).
  pose proof (zlength_nonneg x). rewrite slice_Some by lia.
  f_equal. rewrite drop_app_ge by (rewrite length_take; lia).
  rewrite length_take. unfold zlength in *.
  replace (Z.to_nat o - _)%nat with O by lia. rewrite drop_0.
  rewrite take_app_le by lia. apply firstn_all2. lia.
Qed.

Lemma splice_lookup_out {A} (l : list A) o x l' i :
  splice l o x = Some l' -> (Z.of_nat i < o \/ o + zlength x <= Z.of_nat i) -> l' !! i = l !! i.
Proof.
  intros H Hi. apply splice_inv in H as (Ho & Hl & -> & _). unfold zlength in *.
  destruct Hi as [Hi | Hi].
  - rewrite lookup_app_l by (rewrite length_take; lia). apply lookup_take_lt. lia.
  - rewrite lookup_app_r by (rewrite length_take; lia).
    rewrite lookup_app_r by (rewrite length_take; lia).
    rewrite lookup_drop, length_take. f_equal. lia.
Qed.

Lemma slice_splice_out {A} (l : list A) o x l' o2 n :
  splice l o x = Some l' -> (o2 + n <= o \/ o + zlength x <= o2) ->
  slice l' o2 n = slice l o2 n.
Proof.
  intros H Hd. pose proof H as (_ & _ & _ & Hlen)%splice_inv.
  destruct (Z.le_gt_cases 0 o2); [| unfold slice; zcase; reflexivity].
  destruct (Z.le_gt_cases 0 n); [| unfold slice; zcase; reflexivity].
  destruct (Z.le_gt_cases (o2 + n) (zlength l));
    [| unfold slice; rewrite Hlen; zcase; reflexivity].
  apply slice_ext; try lia. intros i Hi. apply (splice_lookup_out l o x); [exact H | lia].
Qed.

Lemma slice_is_Some {A} (l : list A) o n :
  0 <= o -> 0 <= n -> o + n <= zlength l -> is_Some (slice l o n).
Proof. intros. rewrite slice_Some by lia. eauto. Qed.

Lemma slice_app {A} (l : list A) o n1 n2 a b :
  slice l o n1 = Some a -> slice l (o + n1) n2 = Some b -> slice l o (n1 + n2) = Some (a ++ b).
Proof.
  intros H1 H2. apply slice_inv in H1 as (Ho & Hn1 & Hl1 & -> & _).
  apply slice_inv in H2 as (_ & Hn2 & Hl2 & -> & _). rewrite slice_Some by lia.
  f_equal. rewrite Z2Nat.inj_add, Z2Nat.inj_add by lia. rewrite <- drop_drop.
  symmetry. rewrite <- (firstn_skipn (Z.to_nat n1) (drop (Z.to_nat o) l)) at 3.
  rewrite take_app. rewrite take_take, length_take, length_drop. unfold zlength in *.
  f_equal; [f_equal; lia |]. f_equal. lia.
Qed.

(** A part of a slice. *)
Lemma slice_sub {A} (l : list A) o n a i k :
  slice l o n = Some a -> 0 <= i -> 0 <= k -> i + k <= n -> slice l (o + i) k = slice a i k.
Proof.
  intros H Hi Hk Hik. pose proof H as (Ho & Hn & Hl & _ & Ha)%slice_inv.
  apply slice_ext; try lia. intros j Hj.
  rewrite (slice_lookup l o n a (Z.to_nat (i + j)) H) by lia. f_equal. lia.
Qed.

Lemma splice_is_Some {A} (l : list A) o x :
  0 <= o -> o + zlength x <= zlength l -> is_Some (splice l o x).
Proof. intros. rewrite splice_Some by lia. eauto. Qed.

Lemma splice_lookup_in {A} (l : list A) o x l' i :
  splice l o x = Some l' -> 0 <= i < zlength x -> l' !! Z.to_nat (o + i) = x !! Z.to_nat i.
Proof.
  intros H Hi. apply splice_inv in H as (Ho & Hl & -> & _). unfold zlength in *.
  rewrite lookup_app_r by (rewrite length_take; lia).
  rewrite length_take, lookup_app_l by lia. f_equal. lia.
Qed.

(** Overwriting a range of a range just written is writing it once. *)
Lemma splice_splice {A} (l : list A) o x l1 i y x' l2 :
  splice l o x = Some l1 -> splice x i y = Some x' -> splice l1 (o + i) y = Some l2 ->
  splice l o x' = Some l2.
Proof.
  intros H1 Hx H2. pose proof H1 as (Ho & Hl & _ & Hl1)%splice_inv.
  pose proof Hx as (Hi & Hy & _ & Hx')%splice_inv. pose proof H2 as (_ & Hl1' & _ & Hl2)%splice_inv.
  destruct (splice_is_Some l o x') as [l' H']; [lia | lia |]. rewrite H'. f_equal.
  pose proof H' as (_ & _ & _ & Hl')%splice_inv. apply list_eq. intros k.
  destruct (Z.lt_ge_cases (Z.of_nat k) o); [| destruct (Z.lt_ge_cases (Z.of_nat k) (o + zlength x))].
  1, 3: rewrite (splice_lookup_out _ _ _ _ _ H'), (splice_lookup_out _ _ _ _ _ H2),
    (splice_lookup_out _ _ _ _ _ H1) by lia; reflexivity.
  replace k with (Z.to_nat (o + (Z.of_nat k - o))) by lia.
  rewrite (splice_lookup_in _ _ _ _ _ H') by lia.
  destruct (Z.le_gt_cases i (Z.of_nat k - o));
    [destruct (Z.lt_ge_cases (Z.of_nat k - o) (i + zlength y)) |].
  - replace (Z.of_nat k - o) with (i + (Z.of_nat k - o - i)) by lia. rewrite Z.add_assoc.
    rewrite (splice_lookup_in _ _ _ _ _ Hx), (splice_lookup_in _ _ _ _ _ H2) by lia. reflexivity.
  - rewrite (splice_lookup_out _ _ _ _ _ H2), (splice_lookup_in _ _ _ _ _ H1),
      (splice_lookup_out _ _ _ _ _ Hx) by lia. reflexivity.
  - rewrite (splice_lookup_out _ _ _ _ _ H2), (splice_lookup_in _ _ _ _ _ H1),
      (splice_lookup_out _ _ _ _ _ Hx) by lia. reflexivity.
Qed.

(** Adjacent writes are one write. *)
Lemma splice_app {A} (l : list A) o x l1 y l2 :
  splice l o x = Some l1 -> splice l1 (o + zlength x) y = Some l2 -> splice l o (x ++ y) = Some l2.
Proof.
  intros H1 H2. apply splice_inv in H1 as (Ho & Hl & -> & Hl1).
  pose proof H2 as (_ & Hy & -> & _)%splice_inv. rewrite Hl1 in Hy.
  rewrite splice_Some by (rewrite ?zlength_app; lia). f_equal. unfold zlength in *.
  rewrite (app_assoc (take _ l) x).
  rewrite take_app_length' by (rewrite length_app, length_take; lia).
  rewrite drop_app_ge by (rewrite length_app, length_take; lia).
  rewrite drop_drop, <- !app_assoc. do 3 f_equal.
  rewrite !length_app, length_take. f_equal. lia.
Qed.

Lemma zlength_replicate {A} n (x : A) : 0 <= n -> zlength (replicate (Z.to_nat n) x) = n.
Proof. intros. unfold zlength. rewrite length_replicate. lia. Qed.

Lemma zlength_map {A B} (f : A -> B) l : zlength (map f l) = zlength l.
Proof. unfold zlength. now rewrite length_map. Qed.

(** ** Bits *)

(** Joining a high part and a low part of [n] bits. *)
Lemma land_shiftl_low a b n : 0 <= n -> 0 <= b < 2 ^ n -> Z.land (Z.shiftl a n) b = 0.
Proof.
  intros Hn Hb. rewrite <- (Z.mod_small b (2 ^ n)) by lia. apply Z.bits_inj'. intros i Hi.
  rewrite Z.land_spec, Z.bits_0, Z.shiftl_spec by lia. destruct (Z.lt_ge_cases i n).
  - rewrite Z.testbit_neg_r by lia. reflexivity.
  - rewrite Z.mod_pow2_bits_high by lia. apply andb_false_r.
Qed.

Lemma lor_shiftl_add a b n : 0 <= n -> 0 <= b < 2 ^ n -> Z.lor (Z.shiftl a n) b = a * 2 ^ n + b.
Proof.
  intros Hn Hb. pose proof (land_shiftl_low a b n Hn Hb) as H.
  rewrite <- Z.lxor_lor, <- Z.add_nocarry_lxor by exact H. now rewrite Z.shiftl_mul_pow2 by lia.
Qed.

Lemma zlength_perm_rev {A} (l : list A) : zlength (rev l) = zlength l.
Proof. unfold zlength. now rewrite length_rev. Qed.

(** ** Characters

    Texts are lists of bytes in ASCII; these are the reference definitions
    that the lookup tables and range tests of the code are compared with. *)

Definition ascii_lower (c : Z) : Z := if (65 <=? c) && (c <=? 90) then c + 32 else c.

(** The value of a digit of base 16 or less, of either case. *)
Definition ascii_digit (c : Z) : option Z :=
  if (48 <=? c) && (c <=? 57) then Some (c - 48)
  else if (97 <=? ascii_lower c) && (ascii_lower c <=? 102) then Some (ascii_lower c - 97 + 10)
  else None.

Definition digit_ascii (v : Z) : Z := if v <? 10 then 48 + v else 97 + (v - 10).

(** A decidable fact on bytes by cases. *)
Lemma range_cases (n : nat) (P : Z -> bool) :
  forallb (fun i => P (Z.of_nat i)) (seq 0 n) = true -> forall v, 0 <= v < Z.of_nat n -> P v = true.
Proof.
  intros H v Hv. rewrite forallb_forall in H.
  rewrite <- (Z2Nat.id v) by lia. apply H, in_seq. lia.
Qed.

Lemma range_eq `{EqDecision B} (n : nat) (F G : Z -> B) :
  forallb (fun i => bool_decide (F (Z.of_nat i) = G (Z.of_nat i))) (seq 0 n) = true ->
  forall v, 0 <= v < Z.of_nat n -> F v = G v.
Proof.
  intros H v Hv. apply (bool_decide_eq_true_1 _).
  exact (range_cases n (fun v => bool_decide (F v = G v)) H v Hv).
Qed.

(** Prove [lhs = rhs] about a byte or a small number [v] by evaluation. *)
Ltac by_cases n v :=
  match goal with |- ?l = ?r =>
    let f := eval pattern v in l in
    let g := eval pattern v in r in
    match f with ?F _ => match g with ?G _ =>
      apply (range_eq n F G); [vm_compute; reflexivity | lia]
    end end
  end.
