(* ===== verification/Math.v ===== *)
(** * Checked and saturating arithmetic

    [include/aws/common/math.inl] with the two families behind it: the
    compiler builtins ([math.gcc_overflow.inl]) used by GCC and clang builds
    and the portable division-based [math.fallback.inl]; the power-of-two
    helpers; [source/math.c]. *)

From S2P Require Import Prelude.

Local Open Scope Z_scope.

(** ** The compiler builtins: the wrapped result and the overflow flag *)

Definition builtin_add_overflow (w a b : Z) : bool * Z :=
  (2 ^ w <=? a + b, (a + b) mod 2 ^ w).

Definition builtin_mul_overflow (w a b : Z) : bool * Z :=
  (2 ^ w <=? a * b, (a * b) mod 2 ^ w).

Definition aws_mul_u64_saturating (a b : Z) : Z :=
  let '(overflow, res) := builtin_mul_overflow 64 a b in
  if overflow then 2 ^ 64 - 1 else res.

Definition aws_mul_u64_checked (a b : Z) : result Z :=
  let '(overflow, res) := builtin_mul_overflow 64 a b in
  if overflow then Err AWS_ERROR_OVERFLOW_DETECTED else Ok res.

Definition aws_mul_u32_saturating (a b : Z) : Z :=
  let '(overflow, res) := builtin_mul_overflow 32 a b in
  if overflow then 2 ^ 32 - 1 else res.

Definition aws_mul_u32_checked (a b : Z) : result Z :=
  let '(overflow, res) := builtin_mul_overflow 32 a b in
  if overflow then Err AWS_ERROR_OVERFLOW_DETECTED else Ok res.

Definition aws_add_u64_checked (a b : Z) : result Z :=
  let '(overflow, res) := builtin_add_overflow 64 a b in
  if overflow then Err AWS_ERROR_OVERFLOW_DETECTED else Ok res.

Definition aws_add_u64_saturating (a b : Z) : Z :=
  let '(overflow, res) := builtin_add_overflow 64 a b in
  if overflow then 2 ^ 64 - 1 else res.

Definition aws_add_u32_checked (a b : Z) : result Z :=
  let '(overflow, res) := builtin_add_overflow 32 a b in
  if overflow then Err AWS_ERROR_OVERFLOW_DETECTED else Ok res.

Definition aws_add_u32_saturating (a b : Z) : Z :=
  let '(overflow, res) := builtin_add_overflow 32 a b in
  if overflow then 2 ^ 32 - 1 else res.

(** ** The portable fallback *)

Definition aws_mul_u64_saturating_fallback (a b : Z) : Z :=
  if (0 <? a) && (0 <? b) && ((2 ^ 64 - 1) / b <? a) then 2 ^ 64 - 1 else u64 (a * b).

Definition aws_mul_u64_checked_fallback (a b : Z) : result Z :=
  if (0 <? a) && (0 <? b) && ((2 ^ 64 - 1) / b <? a)
  then Err AWS_ERROR_OVERFLOW_DETECTED else Ok (u64 (a * b)).

Definition aws_mul_u32_saturating_fallback (a b : Z) : Z :=
  if (0 <? a) && (0 <? b) && ((2 ^ 32 - 1) / b <? a) then 2 ^ 32 - 1 else u32 (a * b).

Definition aws_mul_u32_checked_fallback (a b : Z) : result Z :=
  if (0 <? a) && (0 <? b) && ((2 ^ 32 - 1) / b <? a)
  then Err AWS_ERROR_OVERFLOW_DETECTED else Ok (u32 (a * b)).

Definition aws_add_u64_saturating_fallback (a b : Z) : Z :=
  if (0 <? b) && (u64 (2 ^ 64 - 1 - b) <? a) then 2 ^ 64 - 1 else u64 (a + b).

Definition aws_add_u64_checked_fallback (a b : Z) : result Z :=
  if (0 <? b) && (u64 (2 ^ 64 - 1 - b) <? a)
  then Err AWS_ERROR_OVERFLOW_DETECTED else Ok (u64 (a + b)).

Definition aws_add_u32_saturating_fallback (a b : Z) : Z :=
  if (0 <? b) && (u32 (2 ^ 32 - 1 - b) <? a) then 2 ^ 32 - 1 else u32 (a + b).

Definition aws_add_u32_checked_fallback (a b : Z) : result Z :=
  if (0 <? b) && (u32 (2 ^ 32 - 1 - b) <? a)
  then Err AWS_ERROR_OVERFLOW_DETECTED else Ok (u32 (a + b)).

(** ** [math.inl] *)

Definition aws_sub_u64_saturating (a b : Z) : Z := if a <=? b then 0 else u64 (a - b).

Definition aws_sub_u64_checked (a b : Z) : result Z :=
  if a <? b then Err AWS_ERROR_OVERFLOW_DETECTED else Ok (u64 (a - b)).

(** [SIZE_BITS == 64]: the size variants are the 64-bit ones. *)
Definition aws_mul_size_saturating : Z -> Z -> Z := aws_mul_u64_saturating.
Definition aws_mul_size_checked : Z -> Z -> result Z := aws_mul_u64_checked.
Definition aws_add_size_saturating : Z -> Z -> Z := aws_add_u64_saturating.
Definition aws_add_size_checked : Z -> Z -> result Z := aws_add_u64_checked.
Definition aws_sub_size_saturating : Z -> Z -> Z := aws_sub_u64_saturating.
Definition aws_sub_size_checked : Z -> Z -> result Z := aws_sub_u64_checked.

Definition aws_min_size (a b : Z) : Z := if a <? b then a else b.

Definition aws_max_size (a b : Z) : Z := if b <? a then a else b.

Definition aws_is_power_of_two (x : Z) : bool :=
  negb (x =? 0) && (Z.land x (u64 (x - 1)) =? 0).

Definition SIZE_MAX_POWER_OF_TWO : Z := 2 ^ 63.

(** [n |= n >> s] *)
Definition smear (s n : Z) : Z := Z.lor n (Z.shiftr n s).

Definition aws_round_up_to_power_of_two (n : Z) : result Z :=
  if n =? 0 then Ok 1
  else if SIZE_MAX_POWER_OF_TWO <? n then Err AWS_ERROR_OVERFLOW_DETECTED
  else
    let n := u64 (n - 1) in
    let n := smear 1 n in
    let n := smear 2 n in
    let n := smear 4 n in
    let n := smear 8 n in
    let n := smear 16 n in
    let n := smear 32 n in
    Ok (u64 (n + 1)).

(** [source/math.c]: the sum of the variadic arguments. *)
Fixpoint add_size_varargs_loop (accum : Z) (args : list Z) : result Z :=
  match args with
  | [] => Ok accum
  | next :: rest =>
      match aws_add_size_checked accum next with
      | Err e => Err e
      | Ok accum => add_size_varargs_loop accum rest
      end
  end.

Definition aws_add_size_checked_varargs (args : list Z) : result Z :=
  add_size_varargs_loop 0 args.

(** ** Arithmetic lemmas *)

Lemma add_size_checked_spec a b :
  0 <= a -> 0 <= b ->
  aws_add_size_checked a b =
  if a + b <=? SIZE_MAX then Ok (a + b) else Err AWS_ERROR_OVERFLOW_DETECTED.
Proof.
  intros. unfold aws_add_size_checked, aws_add_u64_checked, builtin_add_overflow, SIZE_MAX.
  zcase; [reflexivity |]. rewrite Z.mod_small by lia. reflexivity.
Qed.

Lemma mul_size_checked_spec a b :
  0 <= a -> 0 <= b ->
  aws_mul_size_checked a b =
  if a * b <=? SIZE_MAX then Ok (a * b) else Err AWS_ERROR_OVERFLOW_DETECTED.
Proof.
  intros. unfold aws_mul_size_checked, aws_mul_u64_checked, builtin_mul_overflow, SIZE_MAX.
  zcase; [reflexivity |]. rewrite Z.mod_small by nia. reflexivity.
Qed.

Lemma add_size_saturating_spec a b :
  0 <= a -> 0 <= b -> aws_add_size_saturating a b = Z.min (a + b) SIZE_MAX.
Proof.
  intros. unfold aws_add_size_saturating, aws_add_u64_saturating, builtin_add_overflow, SIZE_MAX.
  zcase. rewrite Z.mod_small by lia. lia.
Qed.

(** The division test of the fallback decides overflow exactly. *)
Lemma div_test_overflow m a b :
  0 <= m -> 0 <= a -> 0 <= b ->
  (0 <? a) && (0 <? b) && (m / b <? a) = (m <? a * b).
Proof.
  intros Hm Ha Hb.
  destruct (Z.ltb_spec 0 a); cbn [andb]; [| zcase; solve [reflexivity | nia]].
  destruct (Z.ltb_spec 0 b); cbn [andb]; [| zcase; solve [reflexivity | nia]].
  pose proof (Z.mul_div_le m b ltac:(lia)). pose proof (Z.mul_succ_div_gt m b ltac:(lia)).
  destruct (Z.ltb_spec (m / b) a), (Z.ltb_spec m (a * b)); try reflexivity; nia.
Qed.

Lemma add_test_overflow m a b :
  0 <= a <= m -> 0 <= b <= m -> (0 <? b) && (m - b <? a) = (m <? a + b).
Proof. intros. zcase; reflexivity. Qed.

(** ** Smearing the top bit down *)

(** Bit [i] of [x] is set iff one of the bits [i .. i+k-1] of [m] is. *)
Definition smeared (k m x : Z) : Prop :=
  forall i, 0 <= i ->
    Z.testbit x i = true <-> exists j, i <= j < i + k /\ Z.testbit m j = true.

Lemma smeared_one m : smeared 1 m m.
Proof.
  intros i Hi. split.
  - intros H. exists i. split; [lia | assumption].
  - intros (j & Hj & H). replace i with j by lia. assumption.
Qed.

Lemma smear_doubles k m x : 0 <= k -> smeared k m x -> smeared (2 * k) m (smear k x).
Proof.
  intros Hk H i Hi. unfold smear.
  rewrite Z.lor_spec, Z.shiftr_spec, orb_true_iff by lia.
  rewrite (H i), (H (i + k)) by lia. split.
  - intros [(j & ? & ?) | (j & ? & ?)]; exists j; split; auto; lia.
  - intros (j & ? & ?). destruct (Z.lt_ge_cases j (i + k)); [left | right];
      exists j; split; auto; lia.
Qed.

Lemma smeared_all m x :
  0 < m < 2 ^ 63 -> 0 <= x -> smeared 64 m x -> x = 2 ^ (Z.log2 m + 1) - 1.
Proof.
  intros Hm Hx H. pose proof (Z.log2_spec m ltac:(lia)) as Hl.
  assert (0 <= Z.log2 m < 63) as Hlog.
  { split; [apply Z.log2_nonneg |]. apply Z.log2_lt_pow2; lia. }
  replace (2 ^ (Z.log2 m + 1) - 1) with (Z.ones (Z.log2 m + 1)) by (rewrite Z.ones_equiv; lia).
  apply Z.bits_inj'. intros i Hi. rewrite Z.testbit_ones_nonneg by lia.
  apply eq_true_iff_eq. rewrite (H i Hi), Z.ltb_lt. split.
  - intros (j & Hj & Hb). destruct (Z.le_gt_cases j (Z.log2 m)); [lia |].
    rewrite Z.bits_above_log2 in Hb by lia. discriminate.
  - intros. exists (Z.log2 m). split; [lia |]. apply Z.bit_log2. lia.
Qed.

Lemma smear_nonneg k x : 0 <= x -> 0 <= smear k x.
Proof. intros. unfold smear. apply Z.lor_nonneg. split; [lia | apply Z.shiftr_nonneg; lia]. Qed.

Lemma smear_chain m :
  0 < m < 2 ^ 63 ->
  smear 32 (smear 16 (smear 8 (smear 4 (smear 2 (smear 1 m))))) = 2 ^ (Z.log2 m + 1) - 1.
Proof.
  intros Hm. apply smeared_all; [lia | repeat apply smear_nonneg; lia |].
  apply (smear_doubles 32), (smear_doubles 16), (smear_doubles 8), (smear_doubles 4),
    (smear_doubles 2), (smear_doubles 1), smeared_one; lia.
Qed.

(** The result of [aws_round_up_to_power_of_two] in closed form. *)
Lemma round_up_pow2_log n :
  1 < n <= 2 ^ 63 -> aws_round_up_to_power_of_two n = Ok (2 ^ (Z.log2 (n - 1) + 1)).
Proof.
  intros Hn. unfold aws_round_up_to_power_of_two, SIZE_MAX_POWER_OF_TWO. zcase.
  rewrite (u64_small (n - 1)) by (unfold is_u64; lia).
  rewrite smear_chain by lia.
  assert (2 ^ (Z.log2 (n - 1) + 1) <= 2 ^ 63).
  { apply Z.pow_le_mono_r; [lia |].
    enough (Z.log2 (n - 1) < 63) by lia. apply Z.log2_lt_pow2; lia. }
  pose proof (Z.pow_pos_nonneg 2 (Z.log2 (n - 1) + 1) ltac:(lia)
                (Z.le_le_succ_r _ _ (Z.log2_nonneg (n - 1)))).
  rewrite u64_small by (unfold is_u64; lia). f_equal. lia.
Qed.

(** A power of two in [size_t] range is recognised by the bit trick. *)
Lemma is_power_of_two_pow k :
  0 <= k < 64 -> aws_is_power_of_two (2 ^ k) = true.
Proof.
  intros Hk. unfold aws_is_power_of_two.
  pose proof (Z.pow_pos_nonneg 2 k ltac:(lia) ltac:(lia)).
  assert (2 ^ k < 2 ^ 64) by (apply Z.pow_lt_mono_r; lia).
  rewrite u64_small by (unfold is_u64; lia).
  rewrite land_pow2_mask by lia. rewrite Z.mod_same by lia. zcase; reflexivity.
Qed.

(** And nothing else is. *)
Lemma is_power_of_two_inv x :
  is_u64 x -> aws_is_power_of_two x = true -> x = 2 ^ Z.log2 x.
Proof.
  unfold is_u64, aws_is_power_of_two. intros Hx H.
  apply andb_prop in H as [H0 H1]. apply negb_true_iff, Z.eqb_neq in H0. apply Z.eqb_eq in H1.
  rewrite u64_small in H1 by (unfold is_u64; lia).
  pose proof (Z.log2_spec x ltac:(lia)) as [Hlo Hhi].
  destruct (Z.eq_dec x (2 ^ Z.log2 x)) as [| Hne]; [assumption | exfalso].
  assert (Z.log2 (x - 1) = Z.log2 x) as Hlog.
  { apply Z.log2_unique; [apply Z.log2_nonneg | lia]. }
  pose proof (Z.bit_log2 x ltac:(lia)) as B1.
  pose proof (Z.bit_log2 (x - 1) ltac:(pose proof (Z.pow_pos_nonneg 2 (Z.log2 x) ltac:(lia) (Z.log2_nonneg x)); lia)) as B2.
  rewrite Hlog in B2.
  assert (Z.testbit (Z.land x (x - 1)) (Z.log2 x) = true) as B.
  { rewrite Z.land_spec, B1, B2. reflexivity. }
  rewrite H1, Z.bits_0 in B. discriminate.
Qed.

Lemma add_varargs_loop_sum args : forall accum,
  0 <= accum -> Forall (fun x => 0 <= x) args ->
  add_size_varargs_loop accum args =
  if accum + foldr Z.add 0 args <=? SIZE_MAX
  then Ok (accum + foldr Z.add 0 args)
  else if decide (args = []) then Ok accum else Err AWS_ERROR_OVERFLOW_DETECTED.
Proof.
  induction args as [| x args IH]; intros accum Ha HF; cbn [add_size_varargs_loop foldr].
  - rewrite Z.add_0_r. destruct (accum <=? SIZE_MAX); reflexivity.
  - apply Forall_cons in HF as [Hx HF].
    assert (0 <= foldr Z.add 0 args) by (clear IH; induction HF; cbn [foldr]; lia).
    rewrite add_size_checked_spec by lia. rewrite decide_False by discriminate.
    zcase.
    + rewrite IH by (auto; lia). rewrite Z.add_assoc. zcase. reflexivity.
    + rewrite IH by (auto; lia). zcase. case_decide as Ha'; [| reflexivity].
      subst. cbn [foldr] in *. lia.
    + reflexivity.
Qed.

(** ** Properties *)

(** the portable fallback and the compiler-builtin variants of the checked
    and saturating 64-bit and 32-bit operations are the same functions on
    machine integers. *)
Theorem fallback_equiv_builtin (a b : Z) :
  (is_u64 a -> is_u64 b ->
     aws_mul_u64_checked_fallback a b = aws_mul_u64_checked a b
     /\ aws_mul_u64_saturating_fallback a b = aws_mul_u64_saturating a b
     /\ aws_add_u64_checked_fallback a b = aws_add_u64_checked a b
     /\ aws_add_u64_saturating_fallback a b = aws_add_u64_saturating a b)
  /\ (is_u32 a -> is_u32 b ->
     aws_mul_u32_checked_fallback a b = aws_mul_u32_checked a b
     /\ aws_mul_u32_saturating_fallback a b = aws_mul_u32_saturating a b
     /\ aws_add_u32_checked_fallback a b = aws_add_u32_checked a b
     /\ aws_add_u32_saturating_fallback a b = aws_add_u32_saturating a b).
Proof.
  unfold is_u64, is_u32. split; intros Ha Hb.
  - unfold aws_mul_u64_checked_fallback, aws_mul_u64_saturating_fallback,
      aws_add_u64_checked_fallback, aws_add_u64_saturating_fallback,
      aws_mul_u64_checked, aws_mul_u64_saturating, aws_add_u64_checked, aws_add_u64_saturating,
      builtin_add_overflow, builtin_mul_overflow.
    rewrite div_test_overflow by lia.
    rewrite (u64_small (2 ^ 64 - 1 - b)) by (unfold is_u64; lia).
    rewrite add_test_overflow by lia. unfold u64. repeat split; zcase; reflexivity.
  - unfold aws_mul_u32_checked_fallback, aws_mul_u32_saturating_fallback,
      aws_add_u32_checked_fallback, aws_add_u32_saturating_fallback,
      aws_mul_u32_checked, aws_mul_u32_saturating, aws_add_u32_checked, aws_add_u32_saturating,
      builtin_add_overflow, builtin_mul_overflow.
    rewrite div_test_overflow by lia.
    rewrite (u32_small (2 ^ 32 - 1 - b)) by (unfold is_u32; lia).
    rewrite add_test_overflow by lia. unfold u32. repeat split; zcase; reflexivity.
Qed.

Lemma fallback_equiv_builtin_witness :
  aws_mul_u64_checked_fallback (2 ^ 40) (2 ^ 23) = Ok (2 ^ 63)
  /\ aws_add_u64_saturating_fallback SIZE_MAX 7 = SIZE_MAX.
Proof.
  destruct (fallback_equiv_builtin (2 ^ 40) (2 ^ 23)) as [H _].
  destruct (fallback_equiv_builtin SIZE_MAX 7) as [H' _].
  destruct H as (-> & _); [unfold is_u64; lia | unfold is_u64; lia |].
  destruct H' as (_ & _ & _ & ->); [unfold is_u64, SIZE_MAX; lia | unfold is_u64; lia |].
  split; reflexivity.
Defined.

(** [aws_round_up_to_power_of_two] returns the least power of two that is
    at least [n] and reports overflow exactly when there is none in a
    [size_t]; [aws_is_power_of_two] recognises exactly the powers of two. *)
Theorem round_up_to_power_of_two_correct (n : Z) :
  is_u64 n ->
  (if n <=? 2 ^ 63 then
     exists k, aws_round_up_to_power_of_two n = Ok (2 ^ k) /\ 0 <= k < 64 /\ n <= 2 ^ k
       /\ forall j, 0 <= j -> n <= 2 ^ j -> k <= j
   else aws_round_up_to_power_of_two n = Err AWS_ERROR_OVERFLOW_DETECTED)
  /\ (aws_is_power_of_two n = true <-> exists k, 0 <= k /\ n = 2 ^ k).
Proof.
  intros Hu. pose proof Hu as Hn. unfold is_u64 in Hn. split.
  2: { split.
       - intros H. exists (Z.log2 n). split; [apply Z.log2_nonneg | now apply is_power_of_two_inv].
       - intros (k & Hk & ->). apply is_power_of_two_pow. split; [exact Hk |].
         apply (Z.pow_lt_mono_r_iff 2); lia. }
  destruct (Z.leb_spec n (2 ^ 63)) as [Hle | Hgt].
  2: { unfold aws_round_up_to_power_of_two, SIZE_MAX_POWER_OF_TWO. zcase. reflexivity. }
  destruct (Z.le_gt_cases n 1) as [H1 | H1].
  { exists 0. assert (n = 0 \/ n = 1) as [-> | ->] by lia; repeat split; try lia. }
  exists (Z.log2 (n - 1) + 1).
  assert (0 <= Z.log2 (n - 1) < 63) as Hlog
    by (split; [apply Z.log2_nonneg | apply Z.log2_lt_pow2; lia]).
  pose proof (Z.log2_spec (n - 1) ltac:(lia)) as [Hlo Hhi].
  split; [apply round_up_pow2_log; lia |]. repeat split; try lia.
  intros j Hj Hnj. enough (Z.log2 (n - 1) < j) by lia. apply Z.log2_lt_pow2; lia.
Qed.

Lemma round_up_to_power_of_two_correct_witness :
  exists k, aws_round_up_to_power_of_two 5 = Ok (2 ^ k) /\ 0 <= k < 64 /\ 5 <= 2 ^ k
    /\ forall j, 0 <= j -> 5 <= 2 ^ j -> k <= j.
Proof. apply (round_up_to_power_of_two_correct 5). unfold is_u64. lia. Defined.

(** [aws_add_size_checked_varargs] returns the exact sum of its arguments
    or reports overflow, and it reports overflow only when the sum leaves
    [size_t]. *)
Theorem add_size_checked_varargs_correct (args : list Z) :
  Forall is_u64 args ->
  aws_add_size_checked_varargs args =
  if foldr Z.add 0 args <=? SIZE_MAX then Ok (foldr Z.add 0 args)
  else Err AWS_ERROR_OVERFLOW_DETECTED.
Proof.
  intros HF. unfold aws_add_size_checked_varargs.
  rewrite add_varargs_loop_sum; [| lia | eapply Forall_impl; [exact HF | unfold is_u64; intros; lia]].
  rewrite Z.add_0_l. destruct (Z.leb_spec (foldr Z.add 0 args) SIZE_MAX); [reflexivity |].
  case_decide; [subst; cbn in *; unfold SIZE_MAX in *; lia | reflexivity].
Qed.

Lemma add_size_checked_varargs_correct_witness :
  aws_add_size_checked_varargs [3; 4; 5] = Ok 12.
Proof.
  rewrite (add_size_checked_varargs_correct [3; 4; 5]); [reflexivity |].
  repeat constructor; unfold is_u64; lia.
Defined.
