(* ===== verification/MathBits.v ===== *)
(** * Counting zeroes, least and greatest

    [include/aws/common/math.gcc_builtin.inl], the same functions in
    [math.fallback.inl], and the minima and maxima of [math.inl]. The builtins of
    the compiler have no result for zero. *)

From S2P Require Import Prelude Math.

Local Open Scope Z_scope.

Module MathBits.

(** A [w]-bit pattern as a signed number. *)
Definition signed (w x : Z) : Z := let x := x mod 2 ^ w in if x <? 2 ^ (w - 1) then x else x - 2 ^ w.

(** The index of the lowest bit of [x] that is set, from [i] on. *)
Fixpoint lowest_bit (fuel : nat) (x i : Z) : Z :=
  match fuel with
  | O => i
  | S fuel => if Z.testbit x i then i else lowest_bit fuel x (i + 1)
  end.

(** [__builtin_clz], [__builtin_ctz] on [w] bits: 32 for [int], 64 for [long]
    and [long long]; a negative argument is converted. *)
Definition builtin_clz (w n : Z) : option Z := if n mod 2 ^ w =? 0 then None else Some (w - 1 - Z.log2 (n mod 2 ^ w)).
Definition builtin_ctz (w n : Z) : option Z :=
  if n mod 2 ^ w =? 0 then None else Some (lowest_bit (Z.to_nat w) (n mod 2 ^ w) 0).

Definition aws_clz_u32 (n : Z) : option Z := builtin_clz 64 n.
Definition aws_clz_i32 (n : Z) : option Z := builtin_clz 32 n.
Definition aws_clz_u64 (n : Z) : option Z := builtin_clz 64 n.
Definition aws_clz_i64 (n : Z) : option Z := builtin_clz 64 n.
Definition aws_clz_size (n : Z) : option Z := aws_clz_u64 n.
Definition aws_ctz_u32 (n : Z) : option Z := builtin_ctz 64 n.
Definition aws_ctz_i32 (n : Z) : option Z := builtin_ctz 32 n.
Definition aws_ctz_u64 (n : Z) : option Z := builtin_ctz 64 n.
Definition aws_ctz_i64 (n : Z) : option Z := builtin_ctz 64 n.
Definition aws_ctz_size (n : Z) : option Z := aws_ctz_u64 n.

(** ** The portable variants *)

(** [while (n >= 0) { ++idx; n <<= 1; }] *)
Fixpoint clz_loop (fuel : nat) (w n idx : Z) : Z :=
  match fuel with
  | O => idx
  | S fuel => if 0 <=? n then clz_loop fuel w (signed w (Z.shiftl n 1)) (idx + 1) else idx
  end.

Definition clz_fallback (w n : Z) : Z :=
  if n =? 0 then w
  else if n <? 0 then 0
  else clz_loop (Z.to_nat w) w n 0.

Definition aws_clz_i32_fallback (n : Z) : Z := clz_fallback 32 n.
Definition aws_clz_u32_fallback (n : Z) : Z := aws_clz_i32_fallback (signed 32 n).
Definition aws_clz_i64_fallback (n : Z) : Z := clz_fallback 64 n.
Definition aws_clz_u64_fallback (n : Z) : Z := aws_clz_i64_fallback (signed 64 n).
Definition aws_clz_size_fallback (n : Z) : Z := aws_clz_u64_fallback n.

(** [while (idx < max_bits)], with [max_bits - idx] turns left. *)
Fixpoint ctz_loop (turns : nat) (w n idx : Z) : Z :=
  match turns with
  | O => idx
  | S turns => if negb (Z.land (n mod 2 ^ w) (Z.shiftl 1 idx mod 2 ^ w) =? 0) then idx else ctz_loop turns w n (idx + 1)
  end.

Definition max_bits : nat := 64.

Definition ctz_fallback (w n : Z) : Z := if n =? 0 then w else ctz_loop max_bits w n 0.

Definition aws_ctz_i32_fallback (n : Z) : Z := ctz_fallback 32 n.
Definition aws_ctz_u32_fallback (n : Z) : Z := aws_ctz_i32_fallback (signed 32 n).
Definition aws_ctz_i64_fallback (n : Z) : Z := ctz_fallback 64 n.
Definition aws_ctz_u64_fallback (n : Z) : Z := aws_ctz_i64_fallback (signed 64 n).
Definition aws_ctz_size_fallback (n : Z) : Z := aws_ctz_u64_fallback n.

(** ** Minima and maxima *)

Definition min_of (a b : Z) : Z := if a <? b then a else b.
Definition max_of (a b : Z) : Z := if b <? a then a else b.

Definition aws_min_u8 := min_of.
Definition aws_max_u8 := max_of.
Definition aws_min_i8 := min_of.
Definition aws_max_i8 := max_of.
Definition aws_min_u16 := min_of.
Definition aws_max_u16 := max_of.
Definition aws_min_i16 := min_of.
Definition aws_max_i16 := max_of.
Definition aws_min_u32 := min_of.
Definition aws_max_u32 := max_of.
Definition aws_min_i32 := min_of.
Definition aws_max_i32 := max_of.
Definition aws_min_u64 := min_of.
Definition aws_max_u64 := max_of.
Definition aws_min_i64 := min_of.
Definition aws_max_i64 := max_of.
Definition aws_min_int := min_of.
Definition aws_max_int := max_of.

End MathBits.

Import MathBits.

(** ** Lemmas *)

(** A mask of the most significant bits. *)
Lemma land_high w n x : 0 <= n <= w -> 0 <= x < 2 ^ w -> Z.land x (2 ^ w - 2 ^ n) = x - x mod 2 ^ n.
Proof.
  intros Hn Hx.
  replace (2 ^ w - 2 ^ n) with (Z.shiftl (Z.ones (w - n)) n).
  2: { rewrite Z.shiftl_mul_pow2, Z.ones_equiv by lia. replace (2 ^ w) with (2 ^ (w - n) * 2 ^ n) by (rewrite <- Z.pow_add_r by lia; f_equal; lia). lia. }
  replace (x - x mod 2 ^ n) with (Z.shiftl (Z.shiftr x n) n).
  2: { rewrite Z.shiftl_mul_pow2, Z.shiftr_div_pow2 by lia. pose proof (Z.div_mod x (2 ^ n)). assert (0 < 2 ^ n) by (apply Z.pow_pos_nonneg; lia). lia. }
  apply Z.bits_inj'. intros i Hi. rewrite Z.land_spec. destruct (Z.lt_ge_cases i n) as [Hlt | Hge].
  - rewrite !(Z.shiftl_spec_low _ n i) by lia. apply andb_false_r.
  - rewrite !Z.shiftl_spec_high, Z.shiftr_spec by lia. replace (i - n + n) with i by ring.
    destruct (Z.lt_ge_cases i w) as [Hlt | Hge2]; [rewrite Z.ones_spec_low by lia; apply andb_true_r |].
    rewrite Z.ones_spec_high by lia. rewrite andb_false_r. symmetry. destruct (Z.eq_dec x 0) as [-> |]; [apply Z.bits_0 |].
    apply Z.bits_above_log2; [lia |]. apply Z.lt_le_trans with w; [apply Z.log2_lt_pow2; lia | lia].
Qed.

Lemma signed_mod w x : 0 < w -> signed w x mod 2 ^ w = x mod 2 ^ w.
Proof.
  intros Hw. unfold signed. cbv zeta. assert (0 < 2 ^ w) by (apply Z.pow_pos_nonneg; lia).
  destruct (_ <? _); [apply Z.mod_mod; lia |]. rewrite Zminus_mod, Z_mod_same_full, Z.sub_0_r, !Z.mod_mod by lia. reflexivity.
Qed.

Lemma signed_range w x : 0 < w -> - 2 ^ (w - 1) <= signed w x < 2 ^ (w - 1).
Proof.
  intros Hw. unfold signed. cbv zeta. assert (2 ^ w = 2 * 2 ^ (w - 1)) as E by (rewrite <- Z.pow_succ_r by lia; f_equal; lia).
  assert (0 < 2 ^ (w - 1)) by (apply Z.pow_pos_nonneg; lia). pose proof (Z.mod_pos_bound x (2 ^ w)). zcase; lia.
Qed.

Lemma clz_loop_spec w fuel : forall n idx, 0 < w -> 0 < n < 2 ^ (w - 1) -> w - 1 - Z.log2 n < Z.of_nat fuel ->
  clz_loop fuel w n idx = idx + (w - 1 - Z.log2 n).
Proof.
  induction fuel as [| fuel IH]; intros n idx Hw Hn Hf.
  { assert (Z.log2 n < w - 1) by (apply Z.log2_lt_pow2; lia). lia. }
  cbn [clz_loop]. rewrite (proj2 (Z.leb_le 0 n)), Z.shiftl_mul_pow2 by lia. change (2 ^ 1) with 2.
  assert (2 ^ w = 2 * 2 ^ (w - 1)) as E by (rewrite <- Z.pow_succ_r by lia; f_equal; lia).
  assert (Z.log2 (n * 2) = Z.log2 n + 1) as El by (rewrite Z.mul_comm, Z.log2_double by lia; lia).
  unfold signed. cbv zeta. rewrite Z.mod_small by lia. destruct (Z.ltb_spec (n * 2) (2 ^ (w - 1))).
  - rewrite IH by lia. lia.
  - assert (Z.log2 n = w - 2) as E2.
    { assert (Z.log2 (n * 2) = w - 1) by (apply Z.log2_unique; [lia |]; replace (Z.succ (w - 1)) with w by ring; lia). lia. }
    rewrite E2. destruct fuel; cbn [clz_loop]; [lia |]. rewrite (proj2 (Z.leb_gt 0 _)) by lia. lia.
Qed.

Lemma clz_fallback_spec w n : 0 < w -> - 2 ^ (w - 1) <= n < 2 ^ (w - 1) -> n <> 0 -> builtin_clz w n = Some (clz_fallback w n).
Proof.
  intros Hw Hn H0. assert (2 ^ w = 2 * 2 ^ (w - 1)) as E by (rewrite <- Z.pow_succ_r by lia; f_equal; lia).
  unfold builtin_clz, clz_fallback. rewrite (proj2 (Z.eqb_neq n 0)) by exact H0. destruct (Z.ltb_spec n 0) as [Hneg | Hpos].
  - assert (n mod 2 ^ w = n + 2 ^ w) as ->.
    { symmetry. apply (Z.mod_unique n (2 ^ w) (-1)); lia. }
    rewrite (proj2 (Z.eqb_neq (n + 2 ^ w) 0)) by lia. f_equal.
    assert (Z.log2 (n + 2 ^ w) = w - 1); [| lia]. apply Z.log2_unique; [lia |]. replace (Z.succ (w - 1)) with w by ring. lia.
  - rewrite Z.mod_small by lia. rewrite (proj2 (Z.eqb_neq n 0)) by exact H0. f_equal.
    rewrite clz_loop_spec by (try lia; pose proof (Z.log2_nonneg n); lia). ring.
Qed.

Lemma testbit_land x i w : 0 <= i < w -> (Z.land (x mod 2 ^ w) (Z.shiftl 1 i mod 2 ^ w) =? 0) = negb (Z.testbit (x mod 2 ^ w) i).
Proof.
  intros Hi. rewrite Z.shiftl_1_l, (Z.mod_small (2 ^ i)).
  2: { split; [apply Z.pow_nonneg; lia | apply Z.pow_lt_mono_r; lia]. }
  destruct (Z.testbit (x mod 2 ^ w) i) eqn:E; cbn [negb].
  - apply Z.eqb_neq. intros H. apply (f_equal (fun z => Z.testbit z i)) in H. rewrite Z.land_spec, Z.bits_0, E, Z.pow2_bits_true in H by lia. discriminate.
  - apply Z.eqb_eq. apply Z.bits_inj'. intros j Hj. rewrite Z.land_spec, Z.bits_0. destruct (Z.eq_dec j i) as [-> | Hne]; [now rewrite E |].
    rewrite Z.pow2_bits_false by lia. apply andb_false_r.
Qed.

(** A number that is not zero has a bit, and both loops stop at the lowest. *)
Lemma ctz_loop_spec w x turns fuel : forall i, 0 <= i -> x mod 2 ^ w <> 0 -> (forall j, 0 <= j < i -> Z.testbit (x mod 2 ^ w) j = false) ->
  w - i <= Z.of_nat fuel -> w - i <= Z.of_nat turns -> 0 < w ->
  ctz_loop turns w x i = lowest_bit fuel (x mod 2 ^ w) i.
Proof.
  revert fuel. induction turns as [| turns IH]; intros fuel i Hi H0 Hlow Hf Ht Hw.
  all: assert (i < w) as Hiw.
  1, 3: destruct (Z.lt_ge_cases i w) as [| Hge]; [assumption |]; exfalso; apply H0; apply Z.bits_inj'; intros j Hj; rewrite Z.bits_0;
    destruct (Z.lt_ge_cases j i); [now apply Hlow |]; rewrite Z.mod_pow2_bits_high by lia; reflexivity.
  - lia.
  - destruct fuel as [| fuel]; [lia |]. cbn [ctz_loop lowest_bit]. rewrite testbit_land, negb_involutive by lia.
    destruct (Z.testbit (x mod 2 ^ w) i) eqn:E; [reflexivity |]. apply IH; try lia; try exact H0.
    intros j Hj. destruct (Z.eq_dec j i) as [-> |]; [exact E | apply Hlow; lia].
Qed.

Lemma ctz_fallback_spec w n : 0 < w <= 64 -> n mod 2 ^ w <> 0 -> builtin_ctz w n = Some (ctz_fallback w n).
Proof.
  intros Hw H0. unfold builtin_ctz, ctz_fallback. rewrite (proj2 (Z.eqb_neq _ 0)) by exact H0.
  destruct (Z.eqb_spec n 0) as [-> | Hn]; [now rewrite Z.mod_0_l in H0 by (apply Z.pow_nonzero; lia) |].
  f_equal. symmetry. apply ctz_loop_spec; try lia; exact H0 || (unfold max_bits; lia) || (intros; lia).
Qed.

(** A wider builtin counts the zeroes of the extension, too. *)
Lemma builtin_clz_wider n : 0 < n < 2 ^ 32 -> builtin_clz 64 n = option_map (Z.add 32) (builtin_clz 32 n).
Proof.
  intros Hn. unfold builtin_clz. rewrite !Z.mod_small by lia. destruct (Z.eqb_spec n 0); [lia |]. cbn. f_equal. ring.
Qed.

(** The builtin and the portable variants of counting zeroes agree on all
    numbers but zero, where the builtins are undefined, with one exception that
    the theorem states: [aws_clz_u32] of the builtins counts the zeroes of a 64-bit
    number, so it returns 32 more than the portable one. *)
Theorem bit_counts_agree (n : Z) :
  n <> 0 ->
  (- 2 ^ 31 <= n < 2 ^ 31 -> aws_clz_i32 n = Some (aws_clz_i32_fallback n) /\ aws_ctz_i32 n = Some (aws_ctz_i32_fallback n))
  /\ (- 2 ^ 63 <= n < 2 ^ 63 -> aws_clz_i64 n = Some (aws_clz_i64_fallback n) /\ aws_ctz_i64 n = Some (aws_ctz_i64_fallback n))
  /\ (0 <= n < 2 ^ 64 -> aws_clz_u64 n = Some (aws_clz_u64_fallback n) /\ aws_ctz_u64 n = Some (aws_ctz_u64_fallback n))
  /\ (0 <= n < 2 ^ 32 -> aws_ctz_u32 n = Some (aws_ctz_u32_fallback n) /\ aws_clz_u32 n = Some (32 + aws_clz_u32_fallback n)).
Proof.
  intros H0.
  assert (forall w, 0 < w -> - 2 ^ (w - 1) <= n < 2 ^ w -> n mod 2 ^ w <> 0) as Hmod.
  { intros w Hw Hn E. assert (2 ^ w = 2 * 2 ^ (w - 1)) by (rewrite <- Z.pow_succ_r by lia; f_equal; lia).
    apply Z.mod_divide in E as [k Hk]; [| lia]. assert (0 < 2 ^ (w - 1)) by (apply Z.pow_pos_nonneg; lia).
    rewrite H in *. clear H. generalize dependent (2 ^ (w - 1)). intros. destruct (Z.lt_trichotomy k 0) as [| [-> |]]; nia. }
  assert (forall w, 0 < w -> 0 <= n < 2 ^ w -> signed w n <> 0) as Hsigned.
  { intros w Hw Hn E. apply (f_equal (fun z => z mod 2 ^ w)) in E. rewrite signed_mod, Z.mod_0_l in E by (lia || (apply Z.pow_nonzero; lia)).
    now apply (Hmod w Hw ltac:(pose proof (Z.pow_nonneg 2 (w - 1) ltac:(lia)); lia)). }
  split; [| split; [| split]]; intros Hn; split.
  - apply clz_fallback_spec; lia.
  - apply ctz_fallback_spec; [lia | apply Hmod; lia].
  - apply clz_fallback_spec; lia.
  - apply ctz_fallback_spec; [lia | apply Hmod; lia].
  - unfold aws_clz_u64, aws_clz_u64_fallback, aws_clz_i64_fallback. rewrite <- clz_fallback_spec; [| lia | apply (signed_range 64); lia | apply Hsigned; lia].
    unfold builtin_clz. now rewrite signed_mod by lia.
  - unfold aws_ctz_u64, aws_ctz_u64_fallback, aws_ctz_i64_fallback. rewrite <- ctz_fallback_spec; [| lia | rewrite signed_mod by lia; apply Hmod; lia].
    unfold builtin_ctz. now rewrite signed_mod by lia.
  - unfold aws_ctz_u32, aws_ctz_u32_fallback, aws_ctz_i32_fallback. rewrite <- ctz_fallback_spec; [| lia | rewrite signed_mod by lia; apply Hmod; lia].
    unfold builtin_ctz. rewrite signed_mod, !Z.mod_small by lia. destruct (n =? 0); [reflexivity |]. apply (f_equal Some).
    assert (n mod 2 ^ 32 = n) as E by (apply Z.mod_small; lia).
    transitivity (ctz_loop 64 32 n 0); [symmetry |]; rewrite <- E at 2; apply ctz_loop_spec; try lia; exact (Hmod 32 ltac:(lia) ltac:(lia)) || (intros; lia).
  - unfold aws_clz_u32, aws_clz_u32_fallback, aws_clz_i32_fallback. rewrite builtin_clz_wider by lia.
    assert (builtin_clz 32 n = builtin_clz 32 (signed 32 n)) as -> by (unfold builtin_clz; now rewrite signed_mod by lia).
    rewrite (clz_fallback_spec 32 (signed 32 n)); [reflexivity | lia | apply (signed_range 32); lia | apply Hsigned; lia].
Qed.

Lemma bit_counts_agree_witness : aws_clz_u32 1 = Some (32 + aws_clz_u32_fallback 1) /\ aws_clz_u32_fallback 1 = 31.
Proof.
  split; [| reflexivity]. apply (proj2 (proj2 (proj2 (bit_counts_agree 1 ltac:(lia))))). lia.
Defined.
