(* ===== verification/ByteOrder.v ===== *)
(** * Byte order

    [include/aws/common/byte_order.inl], for a host of either byte order: the
    section variable [big_endian] is what [aws_is_big_endian] answers. Floats
    are their bit patterns. *)

From S2P Require Import Prelude.

Local Open Scope Z_scope.

(** The [n] bytes of [x], least significant first, and back. *)
Fixpoint le_split (n : nat) (x : Z) : list Z :=
  match n with
  | O => []
  | S n => x mod 256 :: le_split n (x / 256)
  end.

Fixpoint le_combine (l : list Z) : Z :=
  match l with
  | [] => 0
  | b :: l => b + 256 * le_combine l
  end.

Definition be_split (n : nat) (x : Z) : list Z := rev (le_split n x).

Section host.
Context (big_endian : bool).

(** How an [n]-byte integer lies in memory, and the integer such bytes are. *)
Definition host_bytes (n : nat) (x : Z) : list Z :=
  if big_endian then be_split n x else le_split n x.

Definition host_value (l : list Z) : Z :=
  if big_endian then le_combine (rev l) else le_combine l.

(** The first byte of the [uint16_t] 0x100. *)
Definition aws_is_big_endian : Z := default 0 (host_bytes 2 256 !! 0%nat).

(** [htons] and [htonl] of the C library: swap the bytes unless the host is
    big endian. *)
Definition hton (n : nat) (x : Z) : Z :=
  if big_endian then x else le_combine (be_split n x).

Definition aws_hton16 (x : Z) : Z := hton 2 x.
Definition aws_ntoh16 (x : Z) : Z := hton 2 x.
Definition aws_hton32 (x : Z) : Z := hton 4 x.
Definition aws_ntoh32 (x : Z) : Z := hton 4 x.

(** The portable branch: swap the halves of the swapped halves. *)
Definition aws_hton64 (x : Z) : Z :=
  if negb (aws_is_big_endian =? 0) then x
  else
    let low := Z.land x (2 ^ 32 - 1) in
    let high := u32 (Z.shiftr x 32) in
    Z.lor (Z.shiftl (hton 4 low) 32) (hton 4 high).

Definition aws_ntoh64 (x : Z) : Z := aws_hton64 x.

(** The storage of the float, byte for byte in reverse. *)
Definition aws_htonf32 (x : Z) : Z :=
  if negb (aws_is_big_endian =? 0) then x
  else
    match host_bytes 4 x with
    | [f0; f1; f2; f3] => host_value [f3; f2; f1; f0]
    | _ => 0
    end.

Definition aws_ntohf32 (x : Z) : Z := aws_htonf32 x.

Definition aws_htonf64 (x : Z) : Z :=
  if negb (aws_is_big_endian =? 0) then x
  else
    match host_bytes 8 x with
    | [f0; f1; f2; f3; f4; f5; f6; f7] => host_value [f7; f6; f5; f4; f3; f2; f1; f0]
    | _ => 0
    end.

Definition aws_ntohf64 (x : Z) : Z := aws_htonf64 x.

End host.

(** ** Lemmas *)

Lemma le_split_length n x : length (le_split n x) = n.
Proof. revert x. induction n; intros x; cbn; [reflexivity | now rewrite IHn]. Qed.

Lemma le_split_bytes n x : Forall is_u8 (le_split n x).
Proof.
  revert x. induction n; intros x; cbn [le_split]; constructor; auto.
  unfold is_u8. apply Z.mod_pos_bound. lia.
Qed.

Lemma le_combine_split n x : le_combine (le_split n x) = x mod 2 ^ (8 * Z.of_nat n).
Proof.
  revert x. induction n as [| n IH]; intros x; cbn [le_split le_combine].
  - symmetry. apply Z.mod_1_r.
  - rewrite IH. replace (8 * Z.of_nat (S n)) with (8 + 8 * Z.of_nat n) by lia.
    rewrite Z.pow_add_r by lia. symmetry. apply Z.rem_mul_r; lia.
Qed.

Lemma le_combine_app a b :
  le_combine (a ++ b) = le_combine a + 2 ^ (8 * zlength a) * le_combine b.
Proof.
  induction a as [| x a IH]; cbn [app le_combine].
  - change (2 ^ (8 * zlength [])) with 1. lia.
  - rewrite IH, zlength_cons. pose proof (zlength_nonneg a).
    replace (8 * (1 + zlength a)) with (8 + 8 * zlength a) by lia.
    rewrite Z.pow_add_r by lia. lia.
Qed.

Lemma le_combine_bound l : Forall is_u8 l -> 0 <= le_combine l < 2 ^ (8 * zlength l).
Proof.
  induction 1 as [| x l Hx Hl IH]; [split; reflexivity || discriminate |]. cbn [le_combine]. rewrite zlength_cons.
  pose proof (zlength_nonneg l). replace (8 * (1 + zlength l)) with (8 + 8 * zlength l) by lia.
  rewrite Z.pow_add_r by lia. unfold is_u8 in Hx. lia.
Qed.

Lemma le_split_combine l : Forall is_u8 l -> le_split (length l) (le_combine l) = l.
Proof.
  induction 1 as [| x l Hx Hl IH]; [reflexivity |]. cbn [length le_combine le_split].
  unfold is_u8 in Hx. rewrite (Z.mul_comm 256), Z.mod_add, Z.div_add by lia.
  rewrite Z.mod_small, Z.div_small, Z.add_0_l, IH by lia. reflexivity.
Qed.

Lemma be_split_length n x : length (be_split n x) = n.
Proof. unfold be_split. now rewrite length_rev, le_split_length. Qed.

Lemma be_split_bytes n x : Forall is_u8 (be_split n x).
Proof. unfold be_split. apply Forall_rev, le_split_bytes. Qed.

Lemma host_bytes_length be n x : length (host_bytes be n x) = n.
Proof. destruct be; [apply be_split_length | apply le_split_length]. Qed.

Lemma host_value_bytes be n x :
  0 <= x < 2 ^ (8 * Z.of_nat n) -> host_value be (host_bytes be n x) = x.
Proof.
  intros Hx. unfold host_value, host_bytes, be_split. destruct be; rewrite ?rev_involutive;
    rewrite le_combine_split; now apply Z.mod_small.
Qed.

(** Converting to network order puts the most significant byte first in
    memory, whatever the host. *)
Lemma host_bytes_hton be n x : host_bytes be n (hton be n x) = be_split n x.
Proof.
  unfold host_bytes, hton. destruct be; [reflexivity |].
  rewrite <- (be_split_length n x) at 1. apply le_split_combine, be_split_bytes.
Qed.

Lemma hton_involutive be n x : 0 <= x < 2 ^ (8 * Z.of_nat n) -> hton be n (hton be n x) = x.
Proof.
  intros Hx. unfold hton. destruct be; [reflexivity |]. unfold be_split at 1.
  rewrite <- (be_split_length n x) at 1.
  rewrite le_split_combine by apply be_split_bytes. unfold be_split. rewrite rev_involutive.
  rewrite le_combine_split. now apply Z.mod_small.
Qed.

Lemma hton_bound be n x : 0 <= x < 2 ^ (8 * Z.of_nat n) -> 0 <= hton be n x < 2 ^ (8 * Z.of_nat n).
Proof.
  intros Hx. unfold hton. destruct be; [exact Hx |].
  pose proof (le_combine_bound _ (be_split_bytes n x)) as H. unfold zlength in H.
  now rewrite be_split_length in H.
Qed.

(** What the memory of a host holds as big-endian bytes is the value after
    conversion from network order. *)
Lemma hton_host_value be l :
  Forall is_u8 l -> hton be (length l) (host_value be l) = le_combine (rev l).
Proof.
  intros Hl. unfold hton, host_value. destruct be; [reflexivity |].
  unfold be_split. now rewrite le_split_combine.
Qed.

Lemma is_big_endian_spec be : aws_is_big_endian be = if be then 1 else 0.
Proof. destruct be; reflexivity. Qed.

Lemma le_split_app n m x :
  le_split (n + m) x = le_split n x ++ le_split m (x / 2 ^ (8 * Z.of_nat n)).
Proof.
  revert x. induction n as [| n IH]; intros x; cbn [Nat.add le_split app].
  - cbn [Z.of_nat Z.mul]. now rewrite Z.div_1_r.
  - rewrite IH. do 3 f_equal. replace (8 * Z.of_nat (S n)) with (8 + 8 * Z.of_nat n) by lia.
    rewrite Z.pow_add_r by lia. apply Z.div_div; lia.
Qed.

Lemma le_split_mod n x k :
  8 * Z.of_nat n <= k -> le_split n (x mod 2 ^ k) = le_split n x.
Proof.
  revert x k. induction n as [| n IH]; intros x k Hk; [reflexivity |]. cbn [le_split].
  assert (2 ^ k = 256 * 2 ^ (k - 8)) as E by (rewrite <- (Z.pow_add_r 2 8) by lia; f_equal; lia).
  f_equal.
  - rewrite E, Z.rem_mul_r by lia. rewrite Z.mul_comm, Z.mod_add by lia. apply Zmod_mod.
  - rewrite <- (IH (x / 256) (k - 8)) by lia. f_equal. rewrite E, Z.rem_mul_r by lia.
    rewrite (Z.mul_comm 256), Z.div_add by lia. rewrite Z.div_small; [lia |].
    apply Z.mod_pos_bound. lia.
Qed.

(** The portable 64-bit conversion swaps all eight bytes. *)
Lemma hton64_spec be x : is_u64 x -> aws_hton64 be x = hton be 8 x.
Proof.
  intros Hx. unfold aws_hton64. rewrite is_big_endian_spec. destruct be; [reflexivity |].
  cbn [Z.eqb negb]. unfold hton.
  assert (be_split 8 x = be_split 4 (x / 2 ^ 32) ++ be_split 4 x) as E.
  { unfold be_split. rewrite <- rev_app_distr. f_equal. apply (le_split_app 4 4). }
  rewrite E, le_combine_app. unfold zlength. rewrite be_split_length.
  change (8 * Z.of_nat 4) with 32.
  change (2 ^ 32 - 1) with (Z.ones 32). rewrite Z.land_ones, Z.shiftr_div_pow2 by lia.
  unfold u32, be_split. rewrite !(le_split_mod 4) by lia.
  set (a := le_combine (rev (le_split 4 x))). set (b := le_combine (rev (le_split 4 (x / 2 ^ 32)))).
  assert (0 <= b < 2 ^ 32) as Hb by apply (le_combine_bound _ (be_split_bytes 4 (x / 2 ^ 32))).
  rewrite (lor_shiftl_add a b 32) by lia. lia.
Qed.

Lemma htonf32_spec be x : is_u32 x -> aws_htonf32 be x = hton be 4 x.
Proof.
  intros Hx. unfold aws_htonf32. rewrite is_big_endian_spec. destruct be; reflexivity.
Qed.

Lemma htonf64_spec be x : is_u64 x -> aws_htonf64 be x = hton be 8 x.
Proof.
  intros Hx. unfold aws_htonf64. rewrite is_big_endian_spec. destruct be; reflexivity.
Qed.
