(* ===== verification/Memory.v ===== *)
(** * Memory and the default allocator

    The C memory the library works on, as blocks of bytes, and the allocator
    functions of [source/allocator.c] over it.

    A computation is [M A]: from a memory it returns a value and a memory,
    stops the process ([Abort]: a fatal precondition), or has undefined
    behaviour ([Fault]: an access out of bounds, through NULL, to released
    memory, a [memcpy] of overlapping ranges, a release of something that was
    not acquired). A theorem that a function returns [Ret] therefore is a
    memory-safety theorem. Accesses of length zero touch nothing.

    [aws_mem_acquire] never returns NULL: when the system is out of memory
    [AWS_PANIC_OOM] ends the process, and the model follows the executions in
    which it does not. The contents of fresh memory are arbitrary: the field
    [garbage] of the memory. [released] records what each block held when it
    was given back, which is what the secure functions are about. *)

From S2P Require Import Prelude Math.

Local Open Scope Z_scope.

Inductive ptr :=
| NULL
| Ptr (block : positive) (offset : Z)
| Static (data : list Z) (offset : Z).
(** [Static] points into read-only data: a literal, a constant table, or a
    local variable whose address is only read through. *)

#[export] Instance ptr_eq_dec : EqDecision ptr.
Proof. solve_decision. Defined.

Record mem := mk_mem {
  blocks : gmap positive (list Z);
  garbage : positive -> nat -> Z;
  released : list (list Z)
}.

Inductive outcome (A : Type) :=
| Ret (a : A) (m : mem)
| Abort
| Fault.
Arguments Ret {A} a m.
Arguments Abort {A}.
Arguments Fault {A}.

Definition M (A : Type) : Type := mem -> outcome A.

#[export] Instance M_ret : MRet M := fun A a m => Ret a m.

#[export] Instance M_bind : MBind M := fun A B f e m =>
  match e m with
  | Ret a m' => f a m'
  | Abort => Abort
  | Fault => Fault
  end.

Definition fault {A} : M A := fun _ => Fault.
Definition abort {A} : M A := fun _ => Abort.

(** ** Pointers *)

Definition ptr_add (p : ptr) (n : Z) : ptr :=
  match p with
  | NULL => NULL
  | Ptr b o => Ptr b (o + n)
  | Static d o => Static d (o + n)
  end.

Definition is_NULL (p : ptr) : bool := match p with NULL => true | _ => false end.

(** [p - q]; pointers into different objects cannot be subtracted or
    compared. *)
Definition ptr_sub (p q : ptr) : option Z :=
  match p, q with
  | Ptr b o, Ptr b' o' => if decide (b = b') then Some (o - o') else None
  | Static d o, Static d' o' => if decide (d = d') then Some (o - o') else None
  | _, _ => None
  end.

Definition ptr_diff (p q : ptr) : M Z := fun m =>
  match ptr_sub p q with Some d => Ret d m | None => Fault end.

(** ** Loads and stores *)

(** The [n] bytes at [p]. *)
Definition bytes_at (m : mem) (p : ptr) (n : Z) : option (list Z) :=
  if n =? 0 then Some []
  else
    match p with
    | NULL => None
    | Ptr b o => blocks m !! b ≫= fun data => slice data o n
    | Static data o => slice data o n
    end.

Definition set_block (m : mem) (b : positive) (data : list Z) : mem :=
  mk_mem (<[b := data]> (blocks m)) (garbage m) (released m).

Definition load (p : ptr) (n : Z) : M (list Z) := fun m =>
  match bytes_at m p n with Some bs => Ret bs m | None => Fault end.

Definition load_u8 (p : ptr) : M Z := fun m =>
  match bytes_at m p 1 with Some [b] => Ret b m | _ => Fault end.

Definition store (p : ptr) (bs : list Z) : M unit := fun m =>
  match bs with
  | [] => Ret tt m
  | _ =>
      match p with
      | Ptr b o =>
          match blocks m !! b ≫= fun data => splice data o bs with
          | Some data => Ret tt (set_block m b data)
          | None => Fault
          end
      | _ => Fault
      end
  end.

(** ** The functions of [string.h] the library calls *)

Definition overlapping (p q : ptr) (n : Z) : bool :=
  match ptr_sub p q with
  | Some d => (Z.abs d <? n)
  | None => false
  end.

Definition memcpy (dst src : ptr) (n : Z) : M unit :=
  if overlapping dst src n then fault
  else bs ← load src n; store dst bs.

Definition memmove (dst src : ptr) (n : Z) : M unit :=
  bs ← load src n; store dst bs.

Definition memset (dst : ptr) (c n : Z) : M unit := store dst (replicate (Z.to_nat n) c).

(** The difference of the first bytes that differ; the C standard fixes only
    its sign. *)
Fixpoint compare_bytes (a b : list Z) : Z :=
  match a, b with
  | x :: a, y :: b => if x =? y then compare_bytes a b else x - y
  | _, _ => 0
  end.

Definition memcmp (p q : ptr) (n : Z) : M Z :=
  a ← load p n; b ← load q n; mret (compare_bytes a b).

(** The index of the first byte equal to [c]. *)
Fixpoint index_of (c : Z) (l : list Z) : option Z :=
  match l with
  | [] => None
  | x :: l => if x =? c then Some 0 else Z.succ <$> index_of c l
  end.

Definition memchr (p : ptr) (c n : Z) : M ptr :=
  bs ← load p n;
  mret (match index_of c bs with Some i => ptr_add p i | None => NULL end).

(** The bytes from [p] to the end of its block. *)
Definition rest_of_block (m : mem) (p : ptr) : option (list Z) :=
  match p with
  | NULL => None
  | Ptr b o => blocks m !! b ≫= fun data => slice data o (zlength data - o)
  | Static data o => slice data o (zlength data - o)
  end.

Definition strlen (p : ptr) : M Z := fun m =>
  match rest_of_block m p ≫= index_of 0 with
  | Some n => Ret n m
  | None => Fault
  end.

Definition aws_secure_zero (pBuf : ptr) (bufsize : Z) : M unit := memset pBuf 0 bufsize.

(** ** The allocator *)

(** An allocator may lack [mem_realloc]; when it has one it is the default
    allocator's. *)
Record aws_allocator := mk_allocator { mem_realloc : bool }.

#[export] Instance aws_allocator_eq_dec : EqDecision aws_allocator.
Proof. solve_decision. Defined.

Definition fresh_block (m : mem) (size : Z) : positive * mem :=
  let b := fresh (dom (blocks m) : gset positive) in
  (b, set_block m b (map (fun i => u8 (garbage m b i)) (seq 0 (Z.to_nat size)))).

Definition s_default_malloc (size : Z) : M ptr := fun m =>
  let '(b, m') := fresh_block m size in Ret (Ptr b 0) m'.

Definition s_default_free (p : ptr) : M unit := fun m =>
  match p with
  | NULL => Ret tt m
  | Ptr b 0 =>
      match blocks m !! b with
      | Some data => Ret tt (mk_mem (delete b (blocks m)) (garbage m) (data :: released m))
      | None => Fault
      end
  | _ => Fault
  end.

Definition s_default_realloc (p : ptr) (oldsize newsize : Z) : M ptr :=
  if newsize =? 0 then abort
  else if newsize <=? oldsize then mret p
  else
    new_mem ← s_default_malloc newsize;
    if is_NULL p then mret new_mem
    else
      _ ← memcpy new_mem p oldsize;
      _ ← s_default_free p;
      mret new_mem.

Definition aws_mem_acquire (al : aws_allocator) (size : Z) : M ptr :=
  if size =? 0 then abort else s_default_malloc size.

Definition aws_mem_calloc (al : aws_allocator) (num size : Z) : M ptr :=
  if (num =? 0) || (size =? 0) then abort
  else
    match aws_mul_size_checked num size with
    | Err _ => abort
    | Ok required_bytes =>
        p ← s_default_malloc required_bytes;
        _ ← memset p 0 required_bytes;
        mret p
    end.

Definition aws_mem_release (al : aws_allocator) (p : ptr) : M unit :=
  if is_NULL p then mret tt else s_default_free p.

(** The status is always [AWS_OP_SUCCESS]; the new value of [*ptr]. *)
Definition aws_mem_realloc (al : aws_allocator) (p : ptr) (oldsize newsize : Z) : M ptr :=
  if newsize =? 0 then
    _ ← aws_mem_release al p; mret NULL
  else if mem_realloc al then s_default_realloc p oldsize newsize
  else if newsize <=? oldsize then mret p
  else
    newptr ← s_default_malloc newsize;
    _ ← memcpy newptr p oldsize;
    _ ← memset (ptr_add newptr oldsize) 0 (newsize - oldsize);
    _ ← aws_mem_release al p;
    mret newptr.

(** [AWS_ALIGN_ROUND_UP(value, 8)] and the offsets [aws_mem_acquire_many]
    hands out. *)
Definition align_round_up_8 (value : Z) : Z := Z.land (u64 (value + 7)) (SIZE_MAX - 7).

Definition acquire_many_total (sizes : list Z) : Z :=
  foldl (fun total s => u64 (total + align_round_up_8 s)) 0 sizes.

Fixpoint acquire_many_offsets (current : Z) (sizes : list Z) : list Z :=
  match sizes with
  | [] => []
  | s :: sizes => current :: acquire_many_offsets (current + align_round_up_8 s) sizes
  end.

Definition aws_mem_acquire_many (al : aws_allocator) (sizes : list Z) : M (ptr * list ptr) :=
  let total_size := acquire_many_total sizes in
  if 0 <? total_size then
    allocation ← aws_mem_acquire al total_size;
    mret (allocation, map (ptr_add allocation) (acquire_many_offsets 0 sizes))
  else mret (NULL, []).

(** ** Reading and writing ranges *)

Definition ptr_block (p : ptr) : option positive :=
  match p with Ptr b _ => Some b | _ => None end.

(** The ranges [p, p+n) and [q, q+k) share no writable byte. *)
Definition disjoint_ranges (p : ptr) (n : Z) (q : ptr) (k : Z) : Prop :=
  match p, q with
  | Ptr b o, Ptr b' o' => b = b' -> o + n <= o' \/ o' + k <= o
  | _, _ => True
  end.

(** [n] bytes at [p] can be written. *)
Definition writable (m : mem) (p : ptr) (n : Z) : Prop :=
  n = 0 \/ exists b o data, p = Ptr b o /\ blocks m !! b = Some data
                            /\ 0 <= o /\ 0 < n /\ o + n <= zlength data.

(** [m'] is [m] with the bytes [bs] written at [p]. *)
Definition written (m : mem) (p : ptr) (bs : list Z) (m' : mem) : Prop :=
  (bs = [] /\ m' = m)
  \/ exists b o data data', p = Ptr b o /\ blocks m !! b = Some data
       /\ splice data o bs = Some data' /\ m' = set_block m b data'.

Lemma ptr_add_add p a b : ptr_add (ptr_add p a) b = ptr_add p (a + b).
Proof. destruct p; cbn; f_equal; lia. Qed.

Lemma ptr_add_0 p : ptr_add p 0 = p.
Proof. destruct p; cbn; f_equal; lia. Qed.

Lemma bytes_at_zero m p : bytes_at m p 0 = Some [].
Proof. reflexivity. Qed.

Lemma bytes_at_length m p n bs : bytes_at m p n = Some bs -> zlength bs = n /\ 0 <= n.
Proof.
  unfold bytes_at. destruct (Z.eqb_spec n 0) as [-> | Hn]; [now intros [= <-] |].
  destruct p as [| b o | d o]; [discriminate | |].
  - destruct (blocks m !! b); [cbn | discriminate]. intros H%slice_inv. intuition.
  - intros H%slice_inv. intuition.
Qed.

Lemma load_ok m p n bs : bytes_at m p n = Some bs -> load p n m = Ret bs m.
Proof. intros H. unfold load. now rewrite H. Qed.

Lemma load_u8_ok m p b : bytes_at m p 1 = Some [b] -> load_u8 p m = Ret b m.
Proof. intros H. unfold load_u8. now rewrite H. Qed.

Lemma bytes_at_writable m p n : writable m p n -> exists bs, bytes_at m p n = Some bs.
Proof.
  intros [-> | (b & o & data & -> & Hb & Ho & Hn & Hl)]; [eauto |].
  unfold bytes_at. rewrite (proj2 (Z.eqb_neq _ _)), Hb by lia. cbn.
  apply slice_is_Some; lia.
Qed.

Lemma store_ok m p bs :
  writable m p (zlength bs) -> exists m', store p bs m = Ret tt m' /\ written m p bs m'.
Proof.
  intros [H | (b & o & data & -> & Hb & Ho & Hn & Hl)].
  { apply zlength_zero_inv in H as ->. exists m. split; [reflexivity | now left]. }
  destruct (splice_is_Some data o bs Ho Hl) as [data' Hs].
  exists (set_block m b data'). split.
  - unfold store. rewrite Hb. cbn. rewrite Hs. destruct bs; [| reflexivity]. unfold zlength in Hn; cbn in Hn; lia.
  - right. eauto 10.
Qed.

(** A part of a readable range. *)
Lemma bytes_at_sub m p n bs i k :
  bytes_at m p n = Some bs -> 0 <= i -> 0 <= k -> i + k <= n ->
  bytes_at m (ptr_add p i) k = slice bs i k.
Proof.
  intros H Hi Hk Hik. unfold bytes_at in *. destruct (Z.eqb_spec k 0) as [-> | Hk0].
  { destruct (Z.eqb_spec n 0); [assert (i = 0) as -> by lia; now injection H as <- |].
    assert (zlength bs = n) as Hl.
    { destruct p as [| b o | d o]; [discriminate | |];
        [destruct (blocks m !! b); [cbn in H | discriminate] |]; apply slice_inv in H; intuition. }
    rewrite slice_Some by lia. reflexivity. }
  rewrite (proj2 (Z.eqb_neq n 0)) in H by lia. destruct p as [| b o | d o]; [discriminate | |]; cbn.
  - destruct (blocks m !! b); [cbn in * | discriminate]. now apply (slice_sub _ _ n).
  - now apply (slice_sub _ _ n).
Qed.

Lemma bytes_at_prefix m p n bs k :
  bytes_at m p n = Some bs -> 0 <= k <= n -> bytes_at m p k = slice bs 0 k.
Proof.
  intros H Hk. rewrite <- (bytes_at_sub m p n bs 0 k H) by lia.
  destruct p as [| b o | d o]; cbn [ptr_add]; rewrite ?Z.add_0_r; reflexivity.
Qed.

Lemma bytes_at_app m p n1 n2 a b :
  bytes_at m p n1 = Some a -> bytes_at m (ptr_add p n1) n2 = Some b ->
  bytes_at m p (n1 + n2) = Some (a ++ b).
Proof.
  intros H1 H2. pose proof (bytes_at_length _ _ _ _ H1). pose proof (bytes_at_length _ _ _ _ H2).
  destruct (Z.eq_dec n1 0) as [-> | E1].
  - rewrite ptr_add_0 in H2. injection H1 as <-. exact H2.
  - unfold bytes_at in *. rewrite (proj2 (Z.eqb_neq n1 0)) in H1 by lia.
    rewrite (proj2 (Z.eqb_neq (n1 + n2) 0)) by lia.
    destruct (Z.eqb_spec n2 0) as [-> | E2];
      [injection H2 as <-; rewrite app_nil_r, Z.add_0_r; exact H1 |].
    destruct p as [| bl o | d o]; [discriminate | |]; cbn [ptr_add] in H2.
    + destruct (blocks m !! bl); [cbn in * | discriminate]. now apply slice_app.
    + now apply slice_app.
Qed.

Lemma bytes_at_set_block_ne m b data p n :
  ptr_block p <> Some b -> bytes_at (set_block m b data) p n = bytes_at m p n.
Proof.
  intros H. unfold bytes_at. destruct (n =? 0); [reflexivity |].
  destruct p as [| b' o | d o]; try reflexivity. cbn in *. rewrite lookup_insert_ne; congruence.
Qed.

(** After a write the written range holds the new bytes, and ranges disjoint
    from it hold what they held. *)
Lemma written_same m p bs m' : written m p bs m' -> bytes_at m' p (zlength bs) = Some bs.
Proof.
  intros [[-> ->] | (b & o & data & data' & -> & Hb & Hs & ->)]; [reflexivity |].
  unfold bytes_at. destruct (Z.eqb_spec (zlength bs) 0) as [E | E].
  - now apply zlength_zero_inv in E as ->.
  - cbn. rewrite lookup_insert_eq. cbn. now apply (slice_splice_same data).
Qed.

Lemma written_frame m p bs m' q n :
  written m p bs m' -> disjoint_ranges q n p (zlength bs) -> bytes_at m' q n = bytes_at m q n.
Proof.
  intros [[-> ->] | (b & o & data & data' & -> & Hb & Hs & ->)] Hd; [reflexivity |].
  destruct q as [| b' o' | d o']; try reflexivity. cbn [disjoint_ranges] in Hd.
  destruct (decide (b' = b)) as [-> | Hne].
  - unfold bytes_at. destruct (n =? 0); [reflexivity |]. cbn.
    rewrite lookup_insert_eq, Hb. cbn. apply (slice_splice_out data o bs); [exact Hs | auto].
  - apply bytes_at_set_block_ne. cbn. congruence.
Qed.

(** Writing changes no block's size and no other part of the memory. *)
Lemma written_blocks m p bs m' b :
  written m p bs m' -> zlength <$> blocks m' !! b = zlength <$> blocks m !! b.
Proof.
  intros [[-> ->] | (b' & o & data & data' & -> & Hb & Hs & ->)]; [reflexivity |]. cbn.
  destruct (decide (b' = b)) as [-> | Hne].
  - rewrite lookup_insert_eq, Hb. cbn. apply splice_inv in Hs as (_ & _ & _ & ->). reflexivity.
  - now rewrite lookup_insert_ne.
Qed.

Lemma written_dom m p bs m' : written m p bs m' -> dom (blocks m') = dom (blocks m).
Proof.
  intros Hw. apply set_eq. intros b. rewrite !elem_of_dom. pose proof (written_blocks m p bs m' b Hw) as E.
  destruct (blocks m' !! b), (blocks m !! b); try discriminate E; split; intros H;
    solve [eauto | destruct H; discriminate].
Qed.

Lemma written_rest m p bs m' :
  written m p bs m' -> garbage m' = garbage m /\ released m' = released m.
Proof. now intros [[-> ->] | (b & o & data & data' & -> & Hb & Hs & ->)]. Qed.

Lemma written_writable m p bs m' q n : written m p bs m' -> writable m q n -> writable m' q n.
Proof.
  intros Hw [-> | (b & o & data & -> & Hb & Ho & Hn & Hl)]; [now left | right].
  pose proof (written_blocks _ _ _ _ b Hw) as E. rewrite Hb in E. cbn in E.
  destruct (blocks m' !! b) as [data' |] eqn:Hb'; [| discriminate]. injection E as E.
  exists b, o, data'. split_and!; auto. lia.
Qed.

Lemma set_block_twice m b d1 d2 : set_block (set_block m b d1) b d2 = set_block m b d2.
Proof. unfold set_block. cbn. now rewrite insert_insert_eq. Qed.

(** Adjacent writes are one write; a write inside a written range changes
    what was written. *)
Lemma written_app m p a m1 b m2 :
  written m p a m1 -> written m1 (ptr_add p (zlength a)) b m2 -> written m p (a ++ b) m2.
Proof.
  intros [[-> ->] | (bl & o & d & d1 & -> & Hb & Hs & ->)] H2.
  { change (zlength []) with 0 in H2. now rewrite ptr_add_0 in H2. }
  destruct H2 as [[-> ->] | (bl' & o' & d' & d2 & E & Hb' & Hs' & ->)].
  { rewrite app_nil_r. right. eauto 10. }
  injection E as <- <-. cbn in Hb'. rewrite lookup_insert_eq in Hb'. injection Hb' as <-.
  right. exists bl, o, d, d2. rewrite set_block_twice. split_and!; auto. now apply (splice_app _ _ _ d1).
Qed.

Lemma written_over m p a m1 i b a' m2 :
  written m p a m1 -> splice a i b = Some a' -> written m1 (ptr_add p i) b m2 -> written m p a' m2.
Proof.
  intros H1 Ha H2. pose proof Ha as (Hi & Hl & Ea & _)%splice_inv.
  destruct H2 as [[-> ->] | (bl' & o' & d' & d2 & E & Hb' & Hs' & ->)].
  { subst a'. cbn. rewrite Nat.add_0_r, take_drop. exact H1. }
  destruct H1 as [[-> ->] | (bl & o & d & d1 & -> & Hb & Hs & ->)].
  { pose proof (zlength_nonneg b). change (zlength []) with 0 in Hl.
    assert (b = []) as -> by (apply zlength_zero_inv; lia). cbn in Ea. rewrite firstn_nil, skipn_nil in Ea. subst a'.
    assert (i = 0) as -> by (change (zlength []) with 0 in Hl; lia). rewrite ptr_add_0 in E.
    right. exists bl', o', d', d2. auto. }
  injection E as <- <-. cbn in Hb'. rewrite lookup_insert_eq in Hb'. injection Hb' as <-.
  right. exists bl, o, d, d2. rewrite set_block_twice. split_and!; auto.
  now apply (splice_splice _ _ a d1 i b).
Qed.

Lemma disjoint_sub p n q k i n' j k' :
  disjoint_ranges p n q k -> 0 <= i -> i + n' <= n -> 0 <= j -> j + k' <= k ->
  disjoint_ranges (ptr_add p i) n' (ptr_add q j) k'.
Proof. destruct p, q; cbn; auto. intros H Hi Hn Hj Hk E. specialize (H E). lia. Qed.

(** ** The memory functions on valid ranges *)

Lemma disjoint_not_overlapping p q n b o :
  p = Ptr b o -> disjoint_ranges p n q n -> overlapping p q n = false.
Proof.
  intros -> Hd. unfold overlapping, ptr_sub. destruct q as [| b' o' | d o']; try reflexivity.
  case_decide; [| reflexivity]. cbn in Hd. specialize (Hd H). apply Z.ltb_ge. lia.
Qed.

Lemma memcpy_ok m dst src n bs :
  bytes_at m src n = Some bs -> writable m dst n -> disjoint_ranges dst n src n ->
  exists m', memcpy dst src n m = Ret tt m' /\ written m dst bs m'.
Proof.
  intros Hs Hw Hd. pose proof (bytes_at_length _ _ _ _ Hs) as [Hl Hn]. unfold memcpy.
  destruct (overlapping dst src n) eqn:E.
  - exfalso. destruct Hw as [-> | (b & o & data & -> & _)].
    + unfold overlapping in E. destruct (ptr_sub dst src); [| discriminate].
      apply Z.ltb_lt in E. lia.
    + rewrite (disjoint_not_overlapping _ src n b o eq_refl Hd) in E. discriminate.
  - unfold mbind, M_bind. rewrite (load_ok _ _ _ _ Hs). apply store_ok. now rewrite Hl.
Qed.

Lemma memset_ok m dst c n :
  0 <= n -> writable m dst n ->
  exists m', memset dst c n m = Ret tt m' /\ written m dst (replicate (Z.to_nat n) c) m'.
Proof. intros Hn Hw. apply store_ok. now rewrite zlength_replicate. Qed.

(** ** The allocator's functions *)

Lemma malloc_ok m n :
  0 <= n ->
  exists b m' data, s_default_malloc n m = Ret (Ptr b 0) m'
    /\ blocks m !! b = None /\ m' = set_block m b data /\ zlength data = n.
Proof.
  intros Hn. unfold s_default_malloc, fresh_block. eexists _, _, _. split; [reflexivity |].
  split_and!; [| reflexivity |].
  - apply not_elem_of_dom. apply is_fresh.
  - unfold zlength. rewrite length_map, length_seq. lia.
Qed.

Lemma acquire_ok al m n :
  0 < n ->
  exists b m' data, aws_mem_acquire al n m = Ret (Ptr b 0) m'
    /\ blocks m !! b = None /\ m' = set_block m b data /\ zlength data = n.
Proof.
  intros Hn. unfold aws_mem_acquire. rewrite (proj2 (Z.eqb_neq _ _)) by lia.
  apply malloc_ok. lia.
Qed.

(** What was readable stays so after an allocation. *)
Lemma bytes_at_fresh m b data p n bs :
  blocks m !! b = None -> bytes_at m p n = Some bs -> bytes_at (set_block m b data) p n = Some bs.
Proof.
  intros Hb H. destruct (decide (ptr_block p = Some b)) as [E | E].
  - destruct p; try discriminate. injection E as ->. unfold bytes_at in *.
    destruct (n =? 0); [exact H |]. now rewrite Hb in H.
  - now rewrite bytes_at_set_block_ne.
Qed.

Lemma fresh_writable m b data n :
  0 <= n <= zlength data -> writable (set_block m b data) (Ptr b 0) n.
Proof.
  intros Hn. destruct (Z.eq_dec n 0) as [-> | H0]; [now left | right].
  exists b, 0, data. cbn. rewrite lookup_insert_eq. split_and!; auto; lia.
Qed.

(** [m] without the block [b]. *)
Definition without_block (m : mem) (b : positive) (data : list Z) : mem :=
  mk_mem (delete b (blocks m)) (garbage m) (data :: released m).

Lemma release_ok al m b data :
  blocks m !! b = Some data ->
  aws_mem_release al (Ptr b 0) m = Ret tt (without_block m b data).
Proof. intros H. unfold aws_mem_release. cbn. now rewrite H. Qed.

Lemma bytes_at_without m b data p n :
  ptr_block p <> Some b -> bytes_at (without_block m b data) p n = bytes_at m p n.
Proof.
  intros H. unfold bytes_at. destruct (n =? 0); [reflexivity |].
  destruct p as [| b' o | d o]; try reflexivity. cbn in *. rewrite lookup_delete_ne; congruence.
Qed.
