(* ===== verification/ByteBuf.v ===== *)
(** * Byte buffers and byte cursors: definitions

    [source/byte_buf.c]. A buffer or a cursor is a record passed and returned
    by value; the bytes it points to are in the memory of [Memory.v], so that
    cursors that alias a buffer see its updates. A function that may fail
    returns its status with the updated structures; in-out structures are
    returned also on failure, as the code leaves them.

    Only release-build behaviour is modelled: [AWS_PRECONDITION] and
    [AWS_POSTCONDITION] are no-ops, [AWS_ERROR_PRECONDITION] returns
    [AWS_ERROR_INVALID_ARGUMENT]. *)

From S2P Require Import Prelude Math ByteOrder Memory.

Local Open Scope Z_scope.

Module ByteBuf.

Record aws_byte_buf := mk_buf {
  buf_len : Z;
  buf_buffer : ptr;
  buf_capacity : Z;
  buf_allocator : option aws_allocator
}.

Record aws_byte_cursor := mk_cursor { cur_len : Z; cur_ptr : ptr }.

(** [AWS_ZERO_STRUCT] *)
Definition zero_buf : aws_byte_buf := mk_buf 0 NULL 0 None.
Definition zero_cursor : aws_byte_cursor := mk_cursor 0 NULL.

Definition set_len (buf : aws_byte_buf) (n : Z) : aws_byte_buf :=
  mk_buf n (buf_buffer buf) (buf_capacity buf) (buf_allocator buf).

Definition AWS_MEM_IS_READABLE (p : ptr) (n : Z) : bool := (n =? 0) || negb (is_NULL p).

Definition aws_byte_buf_is_valid (buf : aws_byte_buf) : bool :=
  ((buf_capacity buf =? 0) && (buf_len buf =? 0) && is_NULL (buf_buffer buf))
  || ((0 <? buf_capacity buf) && (buf_len buf <=? buf_capacity buf)
      && AWS_MEM_IS_READABLE (buf_buffer buf) (buf_capacity buf)).

Definition aws_byte_cursor_is_valid (cursor : aws_byte_cursor) : bool :=
  (cur_len cursor =? 0)
  || ((0 <? cur_len cursor) && negb (is_NULL (cur_ptr cursor))
      && AWS_MEM_IS_READABLE (cur_ptr cursor) (cur_len cursor)).

(** ** Creating and releasing buffers *)

Definition aws_byte_buf_init (al : aws_allocator) (capacity : Z) : M (op_result * aws_byte_buf) :=
  buffer ← (if capacity =? 0 then mret NULL else aws_mem_acquire al capacity);
  if negb (capacity =? 0) && is_NULL buffer then mret (AWS_OP_ERR AWS_ERROR_OOM, zero_buf)
  else mret (AWS_OP_SUCCESS, mk_buf 0 buffer capacity (Some al)).

Definition aws_byte_buf_init_copy (al : aws_allocator) (dest src : aws_byte_buf)
    : M (op_result * aws_byte_buf) :=
  if negb (aws_byte_buf_is_valid src)
  then mret (aws_raise_error AWS_ERROR_INVALID_ARGUMENT, dest)
  else if is_NULL (buf_buffer src) then mret (AWS_OP_SUCCESS, mk_buf 0 NULL 0 (Some al))
  else
    buffer ← aws_mem_acquire al (buf_capacity src);
    if is_NULL buffer then mret (AWS_OP_ERR AWS_ERROR_OOM, zero_buf)
    else
      _ ← memcpy buffer (buf_buffer src) (buf_len src);
      mret (AWS_OP_SUCCESS, mk_buf (buf_len src) buffer (buf_capacity src) (Some al)).

Definition aws_byte_buf_init_copy_from_cursor (al : aws_allocator) (dest : aws_byte_buf)
    (src : aws_byte_cursor) : M (op_result * aws_byte_buf) :=
  if negb (aws_byte_cursor_is_valid src)
  then mret (aws_raise_error AWS_ERROR_INVALID_ARGUMENT, dest)
  else
    buffer ← (if 0 <? cur_len src then aws_mem_acquire al (cur_len src) else mret NULL);
    if negb (cur_len src =? 0) && is_NULL buffer then mret (AWS_OP_ERR AWS_ERROR_OOM, zero_buf)
    else
      _ ← (if 0 <? cur_len src then memcpy buffer (cur_ptr src) (cur_len src) else mret tt);
      mret (AWS_OP_SUCCESS, mk_buf (cur_len src) buffer (cur_len src) (Some al)).

Definition aws_byte_buf_secure_zero (buf : aws_byte_buf) : M aws_byte_buf :=
  _ ← (if is_NULL (buf_buffer buf) then mret tt
       else aws_secure_zero (buf_buffer buf) (buf_capacity buf));
  mret (set_len buf 0).

Definition aws_byte_buf_reset (buf : aws_byte_buf) (zero_contents : bool) : M aws_byte_buf :=
  buf ← (if zero_contents then aws_byte_buf_secure_zero buf else mret buf);
  mret (set_len buf 0).

Definition aws_byte_buf_clean_up (buf : aws_byte_buf) : M aws_byte_buf :=
  _ ← match buf_allocator buf with
      | Some al => if is_NULL (buf_buffer buf) then mret tt else aws_mem_release al (buf_buffer buf)
      | None => mret tt
      end;
  mret zero_buf.

Definition aws_byte_buf_clean_up_secure (buf : aws_byte_buf) : M aws_byte_buf :=
  buf ← aws_byte_buf_secure_zero buf;
  aws_byte_buf_clean_up buf.

(** ** Views *)

Definition aws_byte_buf_from_c_str (c_str : ptr) : M aws_byte_buf :=
  n ← (if is_NULL c_str then mret 0 else strlen c_str);
  mret (mk_buf n (if n =? 0 then NULL else c_str) n None).

Definition aws_byte_buf_from_array (bytes : ptr) (n : Z) : aws_byte_buf :=
  mk_buf n (if 0 <? n then bytes else NULL) n None.

Definition aws_byte_buf_from_empty_array (bytes : ptr) (cap : Z) : aws_byte_buf :=
  mk_buf 0 (if 0 <? cap then bytes else NULL) cap None.

Definition aws_byte_cursor_from_buf (buf : aws_byte_buf) : aws_byte_cursor :=
  mk_cursor (buf_len buf) (buf_buffer buf).

Definition aws_byte_cursor_from_c_str (c_str : ptr) : M aws_byte_cursor :=
  n ← (if is_NULL c_str then mret 0 else strlen c_str);
  mret (mk_cursor n c_str).

Definition aws_byte_cursor_from_array (bytes : ptr) (n : Z) : aws_byte_cursor :=
  mk_cursor n bytes.

(** ** Comparing *)

(** The table [s_tolower_table]. *)
Definition s_tolower_table : list Z :=
  map Z.of_nat (seq 0 65) ++ map Z.of_nat (seq 97 26) ++ map Z.of_nat (seq 91 165).

(** [table[c]] of a 256-byte table. *)
Definition table_get (table : list Z) (c : Z) : Z := default 0 (table !! Z.to_nat c).

Definition to_lower (c : Z) : Z := table_get s_tolower_table c.

Definition aws_array_eq (array_a : ptr) (len_a : Z) (array_b : ptr) (len_b : Z) : M bool :=
  if negb (len_a =? len_b) then mret false
  else if len_a =? 0 then mret true
  else r ← memcmp array_a array_b len_a; mret (r =? 0).

(** The loop [for (i = ...; i < len; ++i)] with [n] iterations left. *)
Fixpoint eq_ignore_case_loop (n : nat) (i : Z) (a b : ptr) : M bool :=
  match n with
  | O => mret true
  | S n =>
      x ← load_u8 (ptr_add a i);
      y ← load_u8 (ptr_add b i);
      if to_lower x =? to_lower y then eq_ignore_case_loop n (i + 1) a b else mret false
  end.

Definition aws_array_eq_ignore_case (array_a : ptr) (len_a : Z) (array_b : ptr) (len_b : Z)
    : M bool :=
  if negb (len_a =? len_b) then mret false
  else eq_ignore_case_loop (Z.to_nat len_a) 0 array_a array_b.

(** The loop of [aws_array_eq_c_str] and of its case-insensitive variant:
    [fold] is what both bytes are mapped through before they are compared. *)
Fixpoint eq_c_str_loop (fold : Z -> Z) (n : nat) (i : Z) (array c_str : ptr) : M bool :=
  match n with
  | O => s ← load_u8 (ptr_add c_str i); mret (s =? 0)
  | S n =>
      s ← load_u8 (ptr_add c_str i);
      if s =? 0 then mret false
      else
        x ← load_u8 (ptr_add array i);
        if fold x =? fold s then eq_c_str_loop fold n (i + 1) array c_str else mret false
  end.

Definition aws_array_eq_c_str (array : ptr) (array_len : Z) (c_str : ptr) : M bool :=
  eq_c_str_loop (fun x => x) (Z.to_nat array_len) 0 array c_str.

Definition aws_array_eq_c_str_ignore_case (array : ptr) (array_len : Z) (c_str : ptr) : M bool :=
  eq_c_str_loop to_lower (Z.to_nat array_len) 0 array c_str.

Definition aws_byte_buf_eq (a b : aws_byte_buf) : M bool :=
  aws_array_eq (buf_buffer a) (buf_len a) (buf_buffer b) (buf_len b).
Definition aws_byte_buf_eq_ignore_case (a b : aws_byte_buf) : M bool :=
  aws_array_eq_ignore_case (buf_buffer a) (buf_len a) (buf_buffer b) (buf_len b).
Definition aws_byte_buf_eq_c_str (buf : aws_byte_buf) (c_str : ptr) : M bool :=
  aws_array_eq_c_str (buf_buffer buf) (buf_len buf) c_str.
Definition aws_byte_buf_eq_c_str_ignore_case (buf : aws_byte_buf) (c_str : ptr) : M bool :=
  aws_array_eq_c_str_ignore_case (buf_buffer buf) (buf_len buf) c_str.
Definition aws_byte_cursor_eq (a b : aws_byte_cursor) : M bool :=
  aws_array_eq (cur_ptr a) (cur_len a) (cur_ptr b) (cur_len b).
Definition aws_byte_cursor_eq_ignore_case (a b : aws_byte_cursor) : M bool :=
  aws_array_eq_ignore_case (cur_ptr a) (cur_len a) (cur_ptr b) (cur_len b).
Definition aws_byte_cursor_eq_byte_buf (a : aws_byte_cursor) (b : aws_byte_buf) : M bool :=
  aws_array_eq (cur_ptr a) (cur_len a) (buf_buffer b) (buf_len b).
Definition aws_byte_cursor_eq_byte_buf_ignore_case (a : aws_byte_cursor) (b : aws_byte_buf)
    : M bool :=
  aws_array_eq_ignore_case (cur_ptr a) (cur_len a) (buf_buffer b) (buf_len b).
Definition aws_byte_cursor_eq_c_str (cursor : aws_byte_cursor) (c_str : ptr) : M bool :=
  aws_array_eq_c_str (cur_ptr cursor) (cur_len cursor) c_str.
Definition aws_byte_cursor_eq_c_str_ignore_case (cursor : aws_byte_cursor) (c_str : ptr) : M bool :=
  aws_array_eq_c_str_ignore_case (cur_ptr cursor) (cur_len cursor) c_str.

Definition aws_byte_cursor_starts_with (input prefix : aws_byte_cursor) : M bool :=
  if cur_len input <? cur_len prefix then mret false
  else aws_byte_cursor_eq (mk_cursor (cur_len prefix) (cur_ptr input)) prefix.

Definition aws_byte_cursor_starts_with_ignore_case (input prefix : aws_byte_cursor) : M bool :=
  if cur_len input <? cur_len prefix then mret false
  else aws_byte_cursor_eq_ignore_case (mk_cursor (cur_len prefix) (cur_ptr input)) prefix.

Definition aws_byte_cursor_compare_lexical (lhs rhs : aws_byte_cursor) : M Z :=
  let comparison_length :=
    if cur_len rhs <? cur_len lhs then cur_len rhs else cur_len lhs in
  result ← memcmp (cur_ptr lhs) (cur_ptr rhs) comparison_length;
  mret (if negb (result =? 0) then result
        else if negb (cur_len lhs =? cur_len rhs)
        then (if comparison_length =? cur_len lhs then -1 else 1)
        else 0).

(** The loop of [aws_byte_cursor_compare_lookup], with the bytes left on each
    side. *)
Fixpoint compare_lookup_loop (table : list Z) (l r : nat) (lp rp : ptr) : M Z :=
  match l, r with
  | S l, S r =>
      x ← load_u8 lp;
      y ← load_u8 rp;
      let lhc := table_get table x in
      let rhc := table_get table y in
      if lhc <? rhc then mret (-1)
      else if rhc <? lhc then mret 1
      else compare_lookup_loop table l r (ptr_add lp 1) (ptr_add rp 1)
  | S _, O => mret 1
  | O, S _ => mret (-1)
  | O, O => mret 0
  end.

Definition aws_byte_cursor_compare_lookup (lhs rhs : aws_byte_cursor) (lookup_table : list Z)
    : M Z :=
  if (cur_len lhs =? 0) && (cur_len rhs =? 0) then mret 0
  else if cur_len lhs =? 0 then mret (-1)
  else if cur_len rhs =? 0 then mret 1
  else compare_lookup_loop lookup_table (Z.to_nat (cur_len lhs)) (Z.to_nat (cur_len rhs))
         (cur_ptr lhs) (cur_ptr rhs).

(** FNV-1a over the lower-cased bytes. *)
Fixpoint hash_ignore_case_loop (n : nat) (i : ptr) (hash : Z) : M Z :=
  match n with
  | O => mret hash
  | S n =>
      c ← load_u8 i;
      hash_ignore_case_loop n (ptr_add i 1) (u64 (Z.lxor hash (to_lower c) * 0x100000001b3))
  end.

Definition aws_hash_array_ignore_case (array : ptr) (n : Z) : M Z :=
  if is_NULL array then mret 0xcbf29ce484222325
  else hash_ignore_case_loop (Z.to_nat n) array 0xcbf29ce484222325.

Definition aws_hash_byte_cursor_ptr_ignore_case (item : aws_byte_cursor) : M Z :=
  aws_hash_array_ignore_case (cur_ptr item) (cur_len item).

(** ** Appending *)

Definition aws_byte_buf_append (to : aws_byte_buf) (from : aws_byte_cursor)
    : M (op_result * aws_byte_buf) :=
  if u64 (buf_capacity to - buf_len to) <? cur_len from
  then mret (aws_raise_error AWS_ERROR_DEST_COPY_TOO_SMALL, to)
  else if 0 <? cur_len from then
    _ ← memcpy (ptr_add (buf_buffer to) (buf_len to)) (cur_ptr from) (cur_len from);
    mret (AWS_OP_SUCCESS, set_len to (u64 (buf_len to + cur_len from)))
  else mret (AWS_OP_SUCCESS, to).

Fixpoint append_lookup_loop (table : list Z) (n : nat) (i : Z) (dst src : ptr) : M unit :=
  match n with
  | O => mret tt
  | S n =>
      c ← load_u8 (ptr_add src i);
      _ ← store (ptr_add dst i) [table_get table c];
      append_lookup_loop table n (i + 1) dst src
  end.

Definition aws_byte_buf_append_with_lookup (to : aws_byte_buf) (from : aws_byte_cursor)
    (lookup_table : list Z) : M (op_result * aws_byte_buf) :=
  if u64 (buf_capacity to - buf_len to) <? cur_len from
  then mret (aws_raise_error AWS_ERROR_DEST_COPY_TOO_SMALL, to)
  else
    _ ← append_lookup_loop lookup_table (Z.to_nat (cur_len from)) 0
          (ptr_add (buf_buffer to) (buf_len to)) (cur_ptr from);
    mret (match aws_add_size_checked (buf_len to) (cur_len from) with
          | Err e => (AWS_OP_ERR e, to)
          | Ok n => (AWS_OP_SUCCESS, set_len to n)
          end).

(** The capacity [s_aws_byte_buf_append_dynamic] grows to. *)
Definition grown_capacity (capacity required_capacity : Z) : Z :=
  let growth_capacity := aws_add_size_saturating capacity capacity in
  if required_capacity <? growth_capacity then growth_capacity else required_capacity.

(** [aws_mem_acquire] does not return NULL, so the smaller request the code
    falls back to is never made. *)
Definition s_aws_byte_buf_append_dynamic (to : aws_byte_buf) (from : aws_byte_cursor)
    (clear_released_memory : bool) : M (op_result * aws_byte_buf) :=
  match buf_allocator to with
  | None => mret (aws_raise_error AWS_ERROR_INVALID_ARGUMENT, to)
  | Some al =>
      let available := u64 (buf_capacity to - buf_len to) in
      if available <? cur_len from then
        let missing_capacity := u64 (cur_len from - available) in
        match aws_add_size_checked (buf_capacity to) missing_capacity with
        | Err e => mret (AWS_OP_ERR e, to)
        | Ok required_capacity =>
            let new_capacity := grown_capacity (buf_capacity to) required_capacity in
            new_buffer ← aws_mem_acquire al new_capacity;
            _ ← (if 0 <? buf_len to then memcpy new_buffer (buf_buffer to) (buf_len to)
                 else mret tt);
            _ ← (if 0 <? cur_len from
                 then memcpy (ptr_add new_buffer (buf_len to)) (cur_ptr from) (cur_len from)
                 else mret tt);
            _ ← (if clear_released_memory
                 then aws_secure_zero (buf_buffer to) (buf_capacity to) else mret tt);
            _ ← aws_mem_release al (buf_buffer to);
            mret (AWS_OP_SUCCESS,
                  mk_buf (u64 (buf_len to + cur_len from)) new_buffer new_capacity (Some al))
        end
      else
        _ ← (if 0 <? cur_len from
             then memcpy (ptr_add (buf_buffer to) (buf_len to)) (cur_ptr from) (cur_len from)
             else mret tt);
        mret (AWS_OP_SUCCESS, set_len to (u64 (buf_len to + cur_len from)))
  end.

Definition aws_byte_buf_append_dynamic (to : aws_byte_buf) (from : aws_byte_cursor) :=
  s_aws_byte_buf_append_dynamic to from false.
Definition aws_byte_buf_append_dynamic_secure (to : aws_byte_buf) (from : aws_byte_cursor) :=
  s_aws_byte_buf_append_dynamic to from true.

(** The cursor is on the parameter [value]. *)
Definition s_aws_byte_buf_append_byte_dynamic (buffer : aws_byte_buf) (value : Z)
    (clear_released_memory : bool) : M (op_result * aws_byte_buf) :=
  s_aws_byte_buf_append_dynamic buffer (mk_cursor 1 (Static [value] 0)) clear_released_memory.

Definition aws_byte_buf_append_byte_dynamic (buffer : aws_byte_buf) (value : Z) :=
  s_aws_byte_buf_append_byte_dynamic buffer value false.
Definition aws_byte_buf_append_byte_dynamic_secure (buffer : aws_byte_buf) (value : Z) :=
  s_aws_byte_buf_append_byte_dynamic buffer value true.

Definition s_null_terminator_cursor : aws_byte_cursor := mk_cursor 1 (Static [0; 0] 0).

Definition aws_byte_buf_append_null_terminator (buf : aws_byte_buf) :=
  aws_byte_buf_append_dynamic buf s_null_terminator_cursor.

Definition aws_byte_buf_reserve (buffer : aws_byte_buf) (requested_capacity : Z)
    : M (op_result * aws_byte_buf) :=
  match buf_allocator buffer with
  | None => mret (aws_raise_error AWS_ERROR_INVALID_ARGUMENT, buffer)
  | Some al =>
      if negb (aws_byte_buf_is_valid buffer)
      then mret (aws_raise_error AWS_ERROR_INVALID_ARGUMENT, buffer)
      else if requested_capacity <=? buf_capacity buffer then mret (AWS_OP_SUCCESS, buffer)
      else if is_NULL (buf_buffer buffer) && (buf_capacity buffer =? 0)
              && (buf_capacity buffer <? requested_capacity)
      then aws_byte_buf_init al requested_capacity
      else
        p ← aws_mem_realloc al (buf_buffer buffer) (buf_capacity buffer) requested_capacity;
        mret (AWS_OP_SUCCESS, mk_buf (buf_len buffer) p requested_capacity (Some al))
  end.

Definition aws_byte_buf_reserve_relative (buffer : aws_byte_buf) (additional_length : Z)
    : M (op_result * aws_byte_buf) :=
  match buf_allocator buffer with
  | None => mret (aws_raise_error AWS_ERROR_INVALID_ARGUMENT, buffer)
  | Some _ =>
      if negb (aws_byte_buf_is_valid buffer)
      then mret (aws_raise_error AWS_ERROR_INVALID_ARGUMENT, buffer)
      else
        match aws_add_size_checked (buf_len buffer) additional_length with
        | Err e => mret (AWS_OP_ERR e, buffer)
        | Ok requested_capacity => aws_byte_buf_reserve buffer requested_capacity
        end
  end.

Fixpoint aws_byte_buf_cat (dest : aws_byte_buf) (args : list aws_byte_buf)
    : M (op_result * aws_byte_buf) :=
  match args with
  | [] => mret (AWS_OP_SUCCESS, dest)
  | buffer :: args =>
      '(rv, dest) ← aws_byte_buf_append dest (aws_byte_cursor_from_buf buffer);
      match rv with
      | AWS_OP_SUCCESS => aws_byte_buf_cat dest args
      | AWS_OP_ERR e => mret (AWS_OP_ERR e, dest)
      end
  end.

Definition aws_byte_buf_append_and_update (to : aws_byte_buf) (from : aws_byte_cursor)
    : M (op_result * aws_byte_buf * aws_byte_cursor) :=
  '(rv, to) ← aws_byte_buf_append to from;
  mret (match rv with
        | AWS_OP_SUCCESS =>
            (rv, to, mk_cursor (cur_len from)
                       (ptr_add (buf_buffer to) (buf_len to - cur_len from)))
        | AWS_OP_ERR _ => (rv, to, from)
        end).

(** The first pass of [aws_byte_buf_init_cache_and_update_cursors]: the total
    length of the cursors. *)
Fixpoint cursors_total_len (total_len : Z) (cursors : list aws_byte_cursor) : result Z :=
  match cursors with
  | [] => Ok total_len
  | c :: cursors =>
      match aws_add_size_checked total_len (cur_len c) with
      | Err e => Err e
      | Ok total_len => cursors_total_len total_len cursors
      end
  end.

(** The second pass: append each cursor and point it into the buffer; the
    status of the appends is ignored. *)
Fixpoint cache_cursors (dest : aws_byte_buf) (cursors : list aws_byte_cursor)
    : M (aws_byte_buf * list aws_byte_cursor) :=
  match cursors with
  | [] => mret (dest, [])
  | c :: cursors =>
      '(_, dest, c) ← aws_byte_buf_append_and_update dest c;
      '(dest, cursors) ← cache_cursors dest cursors;
      mret (dest, c :: cursors)
  end.

Definition aws_byte_buf_init_cache_and_update_cursors (al : aws_allocator)
    (cursors : list aws_byte_cursor) : M (op_result * aws_byte_buf * list aws_byte_cursor) :=
  match cursors_total_len 0 cursors with
  | Err e => mret (AWS_OP_ERR e, zero_buf, cursors)
  | Ok total_len =>
      '(rv, dest) ← aws_byte_buf_init al total_len;
      match rv with
      | AWS_OP_ERR e => mret (AWS_OP_ERR e, dest, cursors)
      | AWS_OP_SUCCESS =>
          '(dest, cursors) ← cache_cursors dest cursors;
          mret (AWS_OP_SUCCESS, dest, cursors)
      end
  end.

(** ** Moving cursors *)

(** [~x] on 64 bits. *)
Definition not64 (x : Z) : Z := SIZE_MAX - x.

Definition aws_nospec_mask (index bound : Z) : Z :=
  let negative_mask := Z.lor index bound in
  let toobig_mask := u64 (bound - index - 1) in
  let combined_mask := Z.lor negative_mask toobig_mask in
  let combined_mask := not64 combined_mask / (SIZE_MAX - Z.shiftr SIZE_MAX 1) in
  u64 (combined_mask * SIZE_MAX).

(** The returned cursor and the advanced one. *)
Definition aws_byte_cursor_advance (cursor : aws_byte_cursor) (n : Z)
    : aws_byte_cursor * aws_byte_cursor :=
  if (Z.shiftr SIZE_MAX 1 <? cur_len cursor) || (Z.shiftr SIZE_MAX 1 <? n) || (cur_len cursor <? n)
  then (zero_cursor, cursor)
  else
    (mk_cursor n (cur_ptr cursor),
     mk_cursor (u64 (cur_len cursor - n))
       (if is_NULL (cur_ptr cursor) then NULL else ptr_add (cur_ptr cursor) n)).

(** [(uint8_t * )((uintptr_t)p & mask)] for a mask of all zeros or all ones. *)
Definition ptr_and (p : ptr) (mask : Z) : ptr := if mask =? SIZE_MAX then p else NULL.

Definition aws_byte_cursor_advance_nospec (cursor : aws_byte_cursor) (n : Z)
    : aws_byte_cursor * aws_byte_cursor :=
  if (n <=? cur_len cursor) && (n <=? Z.shiftr SIZE_MAX 1)
     && (cur_len cursor <=? Z.shiftr SIZE_MAX 1)
  then
    let mask := aws_nospec_mask n (u64 (cur_len cursor + 1)) in
    let n := Z.land n mask in
    let p := ptr_and (cur_ptr cursor) mask in
    let l := Z.land (cur_len cursor) mask in
    (mk_cursor (Z.land n mask) p,
     mk_cursor (u64 (l - n)) (if is_NULL p then NULL else ptr_add p n))
  else (zero_cursor, cursor).

(** ** Reading from cursors *)

Definition aws_byte_cursor_read (cur : aws_byte_cursor) (dest : ptr) (n : Z)
    : M (bool * aws_byte_cursor) :=
  if n =? 0 then mret (true, cur)
  else
    let '(slice, cur) := aws_byte_cursor_advance_nospec cur n in
    if is_NULL (cur_ptr slice) then mret (false, cur)
    else _ ← memcpy dest (cur_ptr slice) n; mret (true, cur).

Definition aws_byte_cursor_read_and_fill_buffer (cur : aws_byte_cursor) (dest : aws_byte_buf)
    : M (bool * aws_byte_cursor * aws_byte_buf) :=
  '(ok, cur) ← aws_byte_cursor_read cur (buf_buffer dest) (buf_capacity dest);
  mret (ok, cur, if ok : bool then set_len dest (buf_capacity dest) else dest).

Definition aws_byte_cursor_read_u8 (cur : aws_byte_cursor) (var : ptr) : M (bool * aws_byte_cursor) :=
  aws_byte_cursor_read cur var 1.

Section host.
Context (big_endian : bool).

(** [*var = convert( *var)] for an [n]-byte object. *)
Definition convert_in_place (n : nat) (convert : Z -> Z) (var : ptr) : M unit :=
  bs ← load var (Z.of_nat n);
  store var (host_bytes big_endian n (convert (host_value big_endian bs))).

Definition read_and_convert (n : nat) (convert : Z -> Z) (cur : aws_byte_cursor) (var : ptr)
    : M (bool * aws_byte_cursor) :=
  '(rv, cur) ← aws_byte_cursor_read cur var (Z.of_nat n);
  _ ← (if rv : bool then convert_in_place n convert var else mret tt);
  mret (rv, cur).

Definition aws_byte_cursor_read_be16 (cur : aws_byte_cursor) (var : ptr) :=
  read_and_convert 2 (aws_ntoh16 big_endian) cur var.
Definition aws_byte_cursor_read_be32 (cur : aws_byte_cursor) (var : ptr) :=
  read_and_convert 4 (aws_ntoh32 big_endian) cur var.
Definition aws_byte_cursor_read_be64 (cur : aws_byte_cursor) (var : ptr) :=
  read_and_convert 8 (aws_ntoh64 big_endian) cur var.
Definition aws_byte_cursor_read_float_be32 (cur : aws_byte_cursor) (var : ptr) :=
  read_and_convert 4 (aws_ntohf32 big_endian) cur var.
Definition aws_byte_cursor_read_float_be64 (cur : aws_byte_cursor) (var : ptr) :=
  read_and_convert 8 (aws_ntohf64 big_endian) cur var.

Definition aws_byte_cursor_read_be24 (cur : aws_byte_cursor) (var : ptr)
    : M (bool * aws_byte_cursor) :=
  '(rv, cur) ← aws_byte_cursor_read cur (ptr_add var 1) 3;
  _ ← (if rv : bool then
         _ ← store var [0]; convert_in_place 4 (aws_ntoh32 big_endian) var
       else mret tt);
  mret (rv, cur).

(** ** Writing to buffers *)

Definition aws_byte_buf_write (buf : aws_byte_buf) (src : ptr) (n : Z) : M (bool * aws_byte_buf) :=
  if n =? 0 then mret (true, buf)
  else if (Z.shiftr SIZE_MAX 1 <? buf_len buf) || (Z.shiftr SIZE_MAX 1 <? n)
          || (buf_capacity buf <? u64 (buf_len buf + n))
  then mret (false, buf)
  else
    _ ← memcpy (ptr_add (buf_buffer buf) (buf_len buf)) src n;
    mret (true, set_len buf (u64 (buf_len buf + n))).

Definition aws_byte_buf_write_from_whole_buffer (buf src : aws_byte_buf) :=
  aws_byte_buf_write buf (buf_buffer src) (buf_len src).
Definition aws_byte_buf_write_from_whole_cursor (buf : aws_byte_buf) (src : aws_byte_cursor) :=
  aws_byte_buf_write buf (cur_ptr src) (cur_len src).

(** The cursor written, the buffer and the advanced cursor. *)
Definition aws_byte_buf_write_to_capacity (buf : aws_byte_buf) (advancing_cursor : aws_byte_cursor)
    : M (aws_byte_cursor * aws_byte_buf * aws_byte_cursor) :=
  let available := u64 (buf_capacity buf - buf_len buf) in
  let write_size := aws_min_size available (cur_len advancing_cursor) in
  let '(write_cursor, advancing_cursor) := aws_byte_cursor_advance advancing_cursor write_size in
  '(_, buf) ← aws_byte_buf_write_from_whole_cursor buf write_cursor;
  mret (write_cursor, buf, advancing_cursor).

Definition aws_byte_buf_write_u8 (buf : aws_byte_buf) (c : Z) :=
  aws_byte_buf_write buf (Static [c] 0) 1.

Definition aws_byte_buf_write_u8_n (buf : aws_byte_buf) (c count : Z) : M (bool * aws_byte_buf) :=
  if (Z.shiftr SIZE_MAX 1 <? buf_len buf) || (Z.shiftr SIZE_MAX 1 <? count)
     || (buf_capacity buf <? u64 (buf_len buf + count))
  then mret (false, buf)
  else
    _ ← memset (ptr_add (buf_buffer buf) (buf_len buf)) c count;
    mret (true, set_len buf (u64 (buf_len buf + count))).

Definition aws_byte_buf_write_be16 (buf : aws_byte_buf) (x : Z) :=
  aws_byte_buf_write buf (Static (host_bytes big_endian 2 (aws_hton16 big_endian x)) 0) 2.
Definition aws_byte_buf_write_be32 (buf : aws_byte_buf) (x : Z) :=
  aws_byte_buf_write buf (Static (host_bytes big_endian 4 (aws_hton32 big_endian x)) 0) 4.
Definition aws_byte_buf_write_be64 (buf : aws_byte_buf) (x : Z) :=
  aws_byte_buf_write buf (Static (host_bytes big_endian 8 (aws_hton64 big_endian x)) 0) 8.
Definition aws_byte_buf_write_float_be32 (buf : aws_byte_buf) (x : Z) :=
  aws_byte_buf_write buf (Static (host_bytes big_endian 4 (aws_htonf32 big_endian x)) 0) 4.
Definition aws_byte_buf_write_float_be64 (buf : aws_byte_buf) (x : Z) :=
  aws_byte_buf_write buf (Static (host_bytes big_endian 8 (aws_htonf64 big_endian x)) 0) 8.

Definition aws_byte_buf_write_be24 (buf : aws_byte_buf) (x : Z) : M (bool * aws_byte_buf) :=
  if 0x00FFFFFF <? x then mret (false, buf)
  else
    aws_byte_buf_write buf (Static (host_bytes big_endian 4 (aws_hton32 big_endian x)) 1) 3.

End host.

(** The status, the buffer and the sub-buffer. *)
Definition aws_byte_buf_advance (buffer : aws_byte_buf) (n : Z)
    : bool * aws_byte_buf * aws_byte_buf :=
  if n <=? u64 (buf_capacity buffer - buf_len buffer) then
    let output :=
      aws_byte_buf_from_array
        (if is_NULL (buf_buffer buffer) then NULL
         else ptr_add (buf_buffer buffer) (buf_len buffer)) n in
    (true, set_len buffer (u64 (buf_len buffer + n)), set_len output 0)
  else (false, buffer, zero_buf).

(** ** Splitting and searching *)

(** The literal [""]: a pointer that is not NULL to a terminating zero. *)
Definition empty_literal : ptr := Static [0] 0.

Definition aws_byte_cursor_next_split (input_str : aws_byte_cursor) (split_on : Z)
    (substr : aws_byte_cursor) : M (bool * aws_byte_cursor) :=
  let first_run := is_NULL (cur_ptr substr) in
  if is_NULL (cur_ptr input_str) then
    mret (if first_run then (true, mk_cursor 0 empty_literal) else (false, zero_cursor))
  else
    (* the remainder of the string, None when the input is used up *)
    remainder ←
      (if first_run then mret (Some input_str)
       else
         let p := ptr_add (cur_ptr substr) (u64 (cur_len substr + 1)) in
         d ← ptr_diff p (cur_ptr input_str);
         mret (if (cur_len input_str <? d) || (d <? 0) then None
               else Some (mk_cursor (u64 (cur_len input_str - d)) p)));
    match remainder with
    | None => mret (false, zero_cursor)
    | Some substr =>
        new_location ← memchr (cur_ptr substr) split_on (cur_len substr);
        if is_NULL new_location then mret (true, substr)
        else
          n ← ptr_diff new_location (cur_ptr substr);
          mret (true, mk_cursor n (cur_ptr substr))
    end.

(** What the splitting functions need of their output list. *)
Class PushBack (L A : Type) := {
  push_back : L -> A -> op_result * L;
  items : L -> list A;
  push_back_ok : forall l x l', push_back l x = (AWS_OP_SUCCESS, l') -> items l' = items l ++ [x];
  push_back_err : forall l x e l', push_back l x = (AWS_OP_ERR e, l') -> items l' = items l
}.

Section split.
Context {L : Type} `{PushBack L aws_byte_cursor}.

Fixpoint split_loop (fuel : nat) (input_str : aws_byte_cursor) (split_on max_splits : Z)
    (split_count : Z) (substr : aws_byte_cursor) (output : L) : M (op_result * L) :=
  match fuel with
  | O => fault
  | S fuel =>
      if split_count <=? max_splits then
        '(more, substr) ← aws_byte_cursor_next_split input_str split_on substr;
        if more : bool then
          substr ← (if split_count =? max_splits then
                      d ← ptr_diff (cur_ptr substr) (cur_ptr input_str);
                      mret (mk_cursor (u64 (cur_len input_str - d)) (cur_ptr substr))
                    else mret substr);
          match push_back output substr with
          | (AWS_OP_ERR e, output) => mret (AWS_OP_ERR e, output)
          | (AWS_OP_SUCCESS, output) =>
              split_loop fuel input_str split_on max_splits (u64 (split_count + 1)) substr output
          end
        else mret (AWS_OP_SUCCESS, output)
      else mret (AWS_OP_SUCCESS, output)
  end.

(** There are at most [len + 1] pieces, then a call that finds no more. *)
Definition aws_byte_cursor_split_on_char_n (input_str : aws_byte_cursor) (split_on n : Z)
    (output : L) : M (op_result * L) :=
  let max_splits := if 0 <? n then n else SIZE_MAX in
  split_loop (Z.to_nat (cur_len input_str + 2)) input_str split_on max_splits 0 zero_cursor output.

Definition aws_byte_cursor_split_on_char (input_str : aws_byte_cursor) (split_on : Z)
    (output : L) : M (op_result * L) :=
  aws_byte_cursor_split_on_char_n input_str split_on 0 output.

End split.

(** The [while (working_cur.len)] loop of [aws_byte_cursor_find_exact]. *)
Fixpoint find_exact_loop (fuel : nat) (working_cur to_find : aws_byte_cursor)
    : M (result aws_byte_cursor) :=
  if cur_len working_cur =? 0 then mret (Err AWS_ERROR_STRING_MATCH_NOT_FOUND)
  else
    match fuel with
    | O => fault
    | S fuel =>
        c ← load_u8 (cur_ptr to_find);
        first_char_location ← memchr (cur_ptr working_cur) c (cur_len working_cur);
        if is_NULL first_char_location then mret (Err AWS_ERROR_STRING_MATCH_NOT_FOUND)
        else
          d ← ptr_diff first_char_location (cur_ptr working_cur);
          let working_cur := snd (aws_byte_cursor_advance working_cur d) in
          if cur_len working_cur <? cur_len to_find
          then mret (Err AWS_ERROR_STRING_MATCH_NOT_FOUND)
          else
            r ← memcmp (cur_ptr working_cur) (cur_ptr to_find) (cur_len to_find);
            if r =? 0 then mret (Ok working_cur)
            else find_exact_loop fuel (snd (aws_byte_cursor_advance working_cur 1)) to_find
    end.

Definition aws_byte_cursor_find_exact (input_str to_find : aws_byte_cursor)
    : M (result aws_byte_cursor) :=
  if cur_len input_str <? cur_len to_find then mret (Err AWS_ERROR_STRING_MATCH_NOT_FOUND)
  else if cur_len to_find <? 1 then mret (Err AWS_ERROR_SHORT_BUFFER)
  else find_exact_loop (Z.to_nat (cur_len input_str)) input_str to_find.

(** ** Trimming *)

Fixpoint right_trim_loop (n : nat) (predicate : Z -> bool) (trimmed : aws_byte_cursor)
    : M aws_byte_cursor :=
  match n with
  | O => mret trimmed
  | S n =>
      c ← load_u8 (ptr_add (cur_ptr trimmed) (cur_len trimmed - 1));
      if predicate c
      then right_trim_loop n predicate (mk_cursor (cur_len trimmed - 1) (cur_ptr trimmed))
      else mret trimmed
  end.

Definition aws_byte_cursor_right_trim_pred (source : aws_byte_cursor) (predicate : Z -> bool) :=
  right_trim_loop (Z.to_nat (cur_len source)) predicate source.

Fixpoint left_trim_loop (n : nat) (predicate : Z -> bool) (trimmed : aws_byte_cursor)
    : M aws_byte_cursor :=
  match n with
  | O => mret trimmed
  | S n =>
      c ← load_u8 (cur_ptr trimmed);
      if predicate c
      then left_trim_loop n predicate
             (mk_cursor (cur_len trimmed - 1) (ptr_add (cur_ptr trimmed) 1))
      else mret trimmed
  end.

Definition aws_byte_cursor_left_trim_pred (source : aws_byte_cursor) (predicate : Z -> bool) :=
  left_trim_loop (Z.to_nat (cur_len source)) predicate source.

Definition aws_byte_cursor_trim_pred (source : aws_byte_cursor) (predicate : Z -> bool)
    : M aws_byte_cursor :=
  left_trimmed ← aws_byte_cursor_left_trim_pred source predicate;
  aws_byte_cursor_right_trim_pred left_trimmed predicate.

Definition aws_byte_cursor_satisfies_pred (source : aws_byte_cursor) (predicate : Z -> bool)
    : M bool :=
  trimmed ← aws_byte_cursor_left_trim_pred source predicate;
  mret (cur_len trimmed =? 0).

(** ** Characters and numbers *)

Definition between (lo c hi : Z) : bool := (lo <=? c) && (c <=? hi).

Definition aws_isalnum (ch : Z) : bool :=
  between 97 ch 122 || between 65 ch 90 || between 48 ch 57.
Definition aws_isalpha (ch : Z) : bool := between 97 ch 122 || between 65 ch 90.
Definition aws_isdigit (ch : Z) : bool := between 48 ch 57.
Definition aws_isxdigit (ch : Z) : bool :=
  between 48 ch 57 || between 97 ch 102 || between 65 ch 70.
Definition aws_isspace (ch : Z) : bool :=
  existsb (Z.eqb ch) [0x20; 0x09; 0x0A; 0x0B; 0x0C; 0x0D].

(** The table [s_hex_to_num_table]. *)
Definition s_hex_to_num_table : list Z :=
  replicate 48 255 ++ [0; 1; 2; 3; 4; 5; 6; 7; 8; 9] ++ replicate 7 255
  ++ [10; 11; 12; 13; 14; 15] ++ replicate 26 255 ++ [10; 11; 12; 13; 14; 15]
  ++ replicate 153 255.

Definition hex_to_num (c : Z) : Z := table_get s_hex_to_num_table c.

Definition aws_byte_cursor_read_hex_u8 (cur : aws_byte_cursor) (var : ptr)
    : M (bool * aws_byte_cursor) :=
  if 2 <=? cur_len cur then
    c0 ← load_u8 (cur_ptr cur);
    c1 ← load_u8 (ptr_add (cur_ptr cur) 1);
    let hi := hex_to_num c0 in
    let lo := hex_to_num c1 in
    if negb (hi =? 255) && negb (lo =? 255) then
      _ ← store var [u8 (Z.lor (Z.shiftl hi 4) lo)];
      mret (true, mk_cursor (cur_len cur - 2) (ptr_add (cur_ptr cur) 2))
    else mret (false, cur)
  else mret (false, cur).

(** The value of [*dst] is [0] on failure. *)
Fixpoint read_unsigned_loop (n : nat) (p : ptr) (val base : Z) : M (result Z) :=
  match n with
  | O => mret (Ok val)
  | S n =>
      c ← load_u8 p;
      let cval := hex_to_num c in
      if base <=? cval then mret (Err AWS_ERROR_INVALID_ARGUMENT)
      else
        match aws_mul_u64_checked val base with
        | Err _ => mret (Err AWS_ERROR_OVERFLOW_DETECTED)
        | Ok val =>
            match aws_add_u64_checked val cval with
            | Err _ => mret (Err AWS_ERROR_OVERFLOW_DETECTED)
            | Ok val => read_unsigned_loop n (ptr_add p 1) val base
            end
        end
  end.

Definition s_read_unsigned (cursor : aws_byte_cursor) (base : Z) : M (result Z) :=
  if cur_len cursor =? 0 then mret (Err AWS_ERROR_INVALID_ARGUMENT)
  else read_unsigned_loop (Z.to_nat (cur_len cursor)) (cur_ptr cursor) 0 base.

Definition aws_byte_cursor_utf8_parse_u64 (cursor : aws_byte_cursor) := s_read_unsigned cursor 10.
Definition aws_byte_cursor_utf8_parse_u64_hex (cursor : aws_byte_cursor) :=
  s_read_unsigned cursor 16.

End ByteBuf.
