(* ===== verification/ByteBufSpec.v ===== *)
(** * Byte buffers: correctness

    [buf_ok m buf bs] says that in memory [m] the buffer is well formed and
    holds the bytes [bs]; [cursor_ok m cur cs] that the cursor reads [cs]. The
    theorems say that each function terminates without undefined behaviour
    and what the bytes are afterwards, also when cursor and buffer alias. *)

From S2P Require Import Prelude Math ByteOrder Memory ByteBuf.
Import ByteBuf.

Local Open Scope Z_scope.

(** ** Representation *)

Record buf_ok (m : mem) (buf : aws_byte_buf) (bs : list Z) : Prop := {
  bo_len : 0 <= buf_len buf <= buf_capacity buf;
  bo_cap : buf_capacity buf <= SIZE_MAX;
  bo_null : buf_capacity buf = 0 -> buf_buffer buf = NULL;
  bo_data : bytes_at m (buf_buffer buf) (buf_len buf) = Some bs;
  bo_room : writable m (buf_buffer buf) (buf_capacity buf)
}.

(** The buffer owns a whole block. *)
Definition buf_owned (m : mem) (buf : aws_byte_buf) : Prop :=
  is_Some (buf_allocator buf)
  /\ (buf_capacity buf = 0
      \/ exists b data, buf_buffer buf = Ptr b 0 /\ blocks m !! b = Some data
                        /\ zlength data = buf_capacity buf).

Record cursor_ok (m : mem) (cur : aws_byte_cursor) (cs : list Z) : Prop := {
  co_data : bytes_at m (cur_ptr cur) (cur_len cur) = Some cs;
  co_len : cur_len cur <= SIZE_MAX
}.

Lemma run_bind {A B} (e : M A) (f : A -> M B) m a m' :
  e m = Ret a m' -> (e ≫= f) m = f a m'.
Proof. intros H. unfold mbind, M_bind. now rewrite H. Qed.

(** Run the first step of a computation with the equation [H]. *)
Ltac run H := rewrite (run_bind _ _ _ _ _ H); cbn beta iota.

Lemma writable_sub m p n i k :
  writable m p n -> 0 <= i -> 0 <= k -> i + k <= n -> writable m (ptr_add p i) k.
Proof.
  intros [-> | (b & o & data & -> & Hb & Ho & Hn & Hl)] Hi Hk Hik; [left; lia |].
  destruct (Z.eq_dec k 0); [now left | right]. exists b, (o + i), data. split_and!; auto; lia.
Qed.

Lemma cursor_len m cur cs : cursor_ok m cur cs -> 0 <= cur_len cur <= SIZE_MAX /\ zlength cs = cur_len cur.
Proof. intros [Hd Hl]. pose proof (bytes_at_length _ _ _ _ Hd). lia. Qed.

Lemma buf_zlength m buf bs : buf_ok m buf bs -> zlength bs = buf_len buf.
Proof. intros H. apply (bytes_at_length _ _ _ _ (bo_data _ _ _ H)). Qed.

Lemma available_eq m buf bs :
  buf_ok m buf bs -> u64 (buf_capacity buf - buf_len buf) = buf_capacity buf - buf_len buf.
Proof.
  intros [Hl Hc _ _ _]. apply u64_small. unfold is_u64, SIZE_MAX in *. lia.
Qed.

Lemma buf_ok_valid m buf bs : buf_ok m buf bs -> aws_byte_buf_is_valid buf = true.
Proof.
  intros [Hl Hc Hn _ Hr]. unfold aws_byte_buf_is_valid, AWS_MEM_IS_READABLE.
  destruct (Z.eqb_spec (buf_capacity buf) 0) as [E | E].
  - rewrite (Hn E), (proj2 (Z.eqb_eq (buf_len buf) 0)) by lia. reflexivity.
  - rewrite (proj2 (Z.ltb_lt 0 (buf_capacity buf))), (proj2 (Z.leb_le _ _)) by lia.
    destruct Hr as [Hr | (b & o & data & -> & _)]; [lia |].
    cbn. now rewrite ?orb_true_r.
Qed.

Lemma cursor_ok_valid m cur cs : cursor_ok m cur cs -> aws_byte_cursor_is_valid cur = true.
Proof.
  intros H. pose proof (cursor_len _ _ _ H). destruct H as [Hd Hl].
  unfold aws_byte_cursor_is_valid, AWS_MEM_IS_READABLE.
  destruct (Z.eqb_spec (cur_len cur) 0) as [E | E]; [reflexivity |].
  rewrite (proj2 (Z.ltb_lt 0 (cur_len cur))) by lia. unfold bytes_at in Hd.
  rewrite (proj2 (Z.eqb_neq _ _)) in Hd by lia. now destruct (cur_ptr cur).
Qed.

(** Bytes written right after the content extend it. *)
Lemma buf_ok_extend m buf bs cs m' :
  buf_ok m buf bs -> buf_len buf + zlength cs <= buf_capacity buf ->
  written m (ptr_add (buf_buffer buf) (buf_len buf)) cs m' ->
  buf_ok m' (set_len buf (buf_len buf + zlength cs)) (bs ++ cs).
Proof.
  intros [Hl Hc Hn Hd Hr] Hfit Hw. pose proof (zlength_nonneg cs).
  constructor; cbn [buf_len buf_capacity buf_buffer set_len]; auto; try lia.
  - apply bytes_at_app; [| now apply (written_same m)].
    rewrite (written_frame _ _ _ _ _ _ Hw); [exact Hd |].
    destruct (buf_buffer buf) as [| b o | d o]; cbn; auto. lia.
  - exact (written_writable _ _ _ _ _ _ Hw Hr).
Qed.

(** ** Appending within the capacity *)

Section append.
Context (m : mem) (to : aws_byte_buf) (from : aws_byte_cursor) (bs cs : list Z).
Hypothesis (Hto : buf_ok m to bs) (Hfrom : cursor_ok m from cs).

(** The source does not reach into the unused part of the buffer. *)
Hypothesis (Hdisj : disjoint_ranges (ptr_add (buf_buffer to) (buf_len to))
                      (buf_capacity to - buf_len to) (cur_ptr from) (cur_len from)).

Lemma append_copy :
  cur_len from <= buf_capacity to - buf_len to ->
  exists m', memcpy (ptr_add (buf_buffer to) (buf_len to)) (cur_ptr from) (cur_len from) m
             = Ret tt m'
    /\ written m (ptr_add (buf_buffer to) (buf_len to)) cs m'
    /\ buf_ok m' (set_len to (buf_len to + cur_len from)) (bs ++ cs).
Proof.
  intros Hfit. pose proof (cursor_len _ _ _ Hfrom) as [Hcl Hz]. pose proof (bo_len _ _ _ Hto).
  destruct (memcpy_ok m (ptr_add (buf_buffer to) (buf_len to)) (cur_ptr from) (cur_len from) cs)
    as (m' & Heq & Hw).
  - apply (co_data _ _ _ Hfrom).
  - apply (writable_sub _ _ (buf_capacity to)); try lia. apply (bo_room _ _ _ Hto).
  - unfold disjoint_ranges in *. destruct (ptr_add _ _), (cur_ptr from); auto. intros E.
    specialize (Hdisj E). lia.
  - exists m'. split_and!; auto. rewrite <- Hz. apply (buf_ok_extend m); auto. lia.
Qed.

Lemma append_spec :
  exists rv to' m', aws_byte_buf_append to from m = Ret (rv, to') m'
    /\ if buf_capacity to - buf_len to <? cur_len from
       then rv = AWS_OP_ERR AWS_ERROR_DEST_COPY_TOO_SMALL /\ to' = to /\ m' = m
       else rv = AWS_OP_SUCCESS /\ to' = set_len to (buf_len to + cur_len from)
            /\ buf_ok m' to' (bs ++ cs)
            /\ written m (ptr_add (buf_buffer to) (buf_len to)) cs m'.
Proof.
  unfold aws_byte_buf_append. rewrite (available_eq _ _ _ Hto).
  pose proof (cursor_len _ _ _ Hfrom) as [Hcl Hz]. pose proof (bo_len _ _ _ Hto).
  pose proof (bo_cap _ _ _ Hto).
  destruct (Z.ltb_spec (buf_capacity to - buf_len to) (cur_len from)) as [Hbig | Hfit].
  { eexists _, _, _. split; [reflexivity |]. auto. }
  destruct (Z.ltb_spec 0 (cur_len from)) as [Hpos | Hzero].
  - destruct (append_copy Hfit) as (m' & Heq & Hw & Hok). run Heq.
    rewrite u64_small by (unfold is_u64, SIZE_MAX in *; lia).
    eexists _, _, m'. split; [reflexivity |]. auto.
  - assert (cur_len from = 0) as E by lia. rewrite E in *.
    apply zlength_zero_inv in Hz as ->. rewrite app_nil_r, Z.add_0_r.
    assert (set_len to (buf_len to) = to) as -> by now destruct to.
    eexists _, _, m. split; [reflexivity |]. split_and!; auto. now left.
Qed.

End append.

(** ** Appending with growth *)

Lemma grown_capacity_spec cap req :
  0 <= cap <= SIZE_MAX -> cap <= req <= SIZE_MAX ->
  grown_capacity cap req = Z.max req (Z.min (2 * cap) SIZE_MAX)
  /\ req <= grown_capacity cap req <= SIZE_MAX.
Proof.
  intros Hc Hr. unfold grown_capacity. rewrite add_size_saturating_spec by lia.
  zcase; lia.
Qed.

(** Everything readable outside the block of [buf] is untouched. *)
Definition preserves_others (m m' : mem) (buf : aws_byte_buf) : Prop :=
  forall p n x, ptr_block p = None \/ ptr_block p <> ptr_block (buf_buffer buf) ->
    bytes_at m p n = Some x -> bytes_at m' p n = Some x.

Lemma preserves_refl m buf : preserves_others m m buf.
Proof. now intros p n x _. Qed.

(** Filling a fresh block changes nothing but that block. *)
Lemma copy_to_fresh m b data o src n xs :
  blocks m !! b = None -> bytes_at m src n = Some xs -> 0 <= o -> o + n <= zlength data ->
  exists data', (if 0 <? n then memcpy (Ptr b o) src n else mret tt) (set_block m b data)
                = Ret tt (set_block m b data')
    /\ splice data o xs = Some data'.
Proof.
  intros Hb Hs Ho Hl. pose proof (bytes_at_length _ _ _ _ Hs) as [Hz Hn].
  destruct (splice_is_Some data o xs Ho ltac:(lia)) as [data' Hsp]. exists data'.
  split; [| exact Hsp]. destruct (Z.ltb_spec 0 n) as [Hpos | H0].
  - destruct (memcpy_ok (set_block m b data) (Ptr b o) src n xs) as (m' & Heq & Hw).
    + now apply bytes_at_fresh.
    + right. exists b, o, data. cbn. rewrite lookup_insert_eq. split_and!; auto.
    + destruct src as [| b' o' | d o']; cbn; auto. intros <-. unfold bytes_at in Hs.
      rewrite (proj2 (Z.eqb_neq _ _)), Hb in Hs by lia. discriminate.
    + rewrite Heq. f_equal.
      destruct Hw as [[-> _] | (b' & o' & d1 & d2 & [= <- <-] & Hb' & Hs' & ->)].
      { rewrite zlength_nil in Hz. lia. }
      cbn in Hb'. rewrite lookup_insert_eq in Hb'. injection Hb' as <-.
      rewrite Hsp in Hs'. injection Hs' as <-. unfold set_block. cbn. now rewrite insert_insert_eq.
  - assert (n = 0) as -> by lia. apply zlength_zero_inv in Hz as ->.
    apply splice_inv in Hsp as (_ & _ & -> & _). cbn [length app].
    rewrite Nat.add_0_r, take_drop. reflexivity.
Qed.

(** Releasing the block of an owned buffer, cleared first when asked to. *)
Definition drop_buffer (m : mem) (buf : aws_byte_buf) (clear : bool) : mem :=
  match buf_buffer buf with
  | Ptr b _ =>
      match blocks m !! b with
      | Some data =>
          let held := if clear then replicate (length data) 0 else data in
          mk_mem (delete b (blocks m)) (garbage m) (held :: released m)
      | None => m
      end
  | _ => m
  end.

Lemma drop_buffer_ok al m buf (clear : bool) :
  buf_owned m buf -> (buf_capacity buf = 0 -> buf_buffer buf = NULL) -> 0 <= buf_capacity buf ->
  (_ ← (if clear then aws_secure_zero (buf_buffer buf) (buf_capacity buf) else mret tt);
   aws_mem_release al (buf_buffer buf)) m = Ret tt (drop_buffer m buf clear).
Proof.
  intros [_ Hown] Hnull Hc. unfold drop_buffer.
  destruct Hown as [E | (b & data & Hp & Hb & Hz)].
  { rewrite (Hnull E), E. now destruct clear. }
  rewrite Hp, Hb. destruct clear.
  - destruct (memset_ok m (Ptr b 0) 0 (buf_capacity buf)) as (m' & Heq & Hw); [lia | |].
    { destruct (Z.eq_dec (buf_capacity buf) 0); [left; lia | right].
      exists b, 0, data. split_and!; auto; lia. }
    unfold aws_secure_zero. run Heq.
    assert (m' = set_block m b (replicate (length data) 0)) as ->.
    { replace (Z.to_nat (buf_capacity buf)) with (length data) in Hw by (unfold zlength in Hz; lia).
      destruct Hw as [[E ->] | (b' & o' & d1 & d2 & [= <- <-] & Hb' & Hs & ->)].
      - destruct data; [| discriminate]. unfold set_block. cbn. destruct m as [bl g r]. cbn in *.
        now rewrite insert_id.
      - assert (d1 = data) as -> by congruence. apply splice_inv in Hs as (_ & _ & -> & _).
        cbn [Z.to_nat take app]. rewrite length_replicate, Nat.add_0_l, drop_all.
        now rewrite app_nil_r. }
    unfold aws_mem_release. cbn. rewrite lookup_insert_eq. cbn. now rewrite delete_insert_eq.
  - unfold mbind, M_bind. cbn. now rewrite Hb.
Qed.

Lemma drop_buffer_frame m buf clear :
  preserves_others m (drop_buffer m buf clear) buf.
Proof.
  intros p n x Hp Hx. unfold drop_buffer. destruct (buf_buffer buf) as [| b o | d o]; auto.
  destruct (blocks m !! b) as [data |]; [| exact Hx].
  unfold bytes_at in *. destruct (n =? 0); [exact Hx |].
  destruct p as [| b' o' | d o']; auto. cbn in *. rewrite lookup_delete_ne; [exact Hx |].
  destruct Hp as [Hp | Hp]; congruence.
Qed.

Lemma bind_assoc {A B C} (e : M A) (f : M B) (g : B -> M C) m :
  (_ ← e; x ← f; g x) m = (x ← (_ ← e; f); g x) m.
Proof. unfold mbind, M_bind. now destruct (e m). Qed.

(** The blocks without that of a buffer, and what that block holds when it is
    given back. *)
Definition blocks_without (m : mem) (buf : aws_byte_buf) : gmap positive (list Z) :=
  match buf_buffer buf with Ptr b _ => delete b (blocks m) | _ => blocks m end.

Definition given_back (m : mem) (buf : aws_byte_buf) (clear : bool) : list (list Z) :=
  match buf_buffer buf with
  | Ptr b _ =>
      match blocks m !! b with
      | Some data => [if clear then replicate (length data) 0 else data]
      | None => []
      end
  | _ => []
  end.

(** The blocks and the released ones after an append: growing takes one fresh
    block and gives the old one back, once, and nothing else. *)
Definition blocks_moved (m : mem) (to : aws_byte_buf) (grows clear : bool)
    (to' : aws_byte_buf) (m' : mem) : Prop :=
  if grows
  then exists b data, blocks m !! b = None /\ buf_buffer to' = Ptr b 0
         /\ blocks m' = <[b := data]> (blocks_without m to)
         /\ released m' = given_back m to clear ++ released m
  else buf_buffer to' = buf_buffer to /\ dom (blocks m') = dom (blocks m)
       /\ released m' = released m.

Lemma drop_buffer_moved m buf b data clear :
  blocks m !! b = None ->
  (forall b0 o, buf_buffer buf = Ptr b0 o -> is_Some (blocks m !! b0)) ->
  blocks (drop_buffer (set_block m b data) buf clear) = <[b := data]> (blocks_without m buf)
  /\ released (drop_buffer (set_block m b data) buf clear) = given_back m buf clear ++ released m.
Proof.
  intros Hb Hin. unfold drop_buffer, blocks_without, given_back.
  destruct (buf_buffer buf) as [| b0 o | d o]; [auto | | auto].
  destruct (Hin b0 o eq_refl) as [d0 Hd]. assert (b <> b0) by congruence.
  cbn. rewrite lookup_insert_ne, Hd by done. cbn. split; [now apply delete_insert_ne | reflexivity].
Qed.

(** What [s_aws_byte_buf_append_dynamic] promises. *)
Definition append_dynamic_post (m : mem) (to : aws_byte_buf) (from : aws_byte_cursor)
    (bs cs : list Z) (clear : bool) (rv : op_result) (to' : aws_byte_buf) (m' : mem) : Prop :=
  if SIZE_MAX <? buf_len to + cur_len from
  then rv = AWS_OP_ERR AWS_ERROR_OVERFLOW_DETECTED /\ to' = to /\ m' = m
  else
    rv = AWS_OP_SUCCESS /\ buf_ok m' to' (bs ++ cs) /\ buf_owned m' to'
    /\ buf_allocator to' = buf_allocator to /\ preserves_others m m' to
    /\ buf_capacity to'
       = (if buf_capacity to - buf_len to <? cur_len from
          then Z.max (buf_len to + cur_len from) (Z.min (2 * buf_capacity to) SIZE_MAX)
          else buf_capacity to)
    /\ blocks_moved m to (buf_capacity to - buf_len to <? cur_len from) clear to' m'.

Section append_dynamic.
Context (m : mem) (to : aws_byte_buf) (from : aws_byte_cursor) (bs cs : list Z).
Context (al : aws_allocator) (clear : bool).
Hypothesis (Hto : buf_ok m to bs) (Hown : buf_owned m to) (Hal : buf_allocator to = Some al).
Hypothesis (Hfrom : cursor_ok m from cs).

(** The new block, filled with the old content and the appended bytes. *)
Lemma fill_new_block new_cap :
  0 < new_cap -> buf_len to + cur_len from <= new_cap ->
  exists b data, blocks m !! b = None /\ zlength data = new_cap
    /\ slice data 0 (buf_len to + cur_len from) = Some (bs ++ cs)
    /\ forall (f : ptr -> M (op_result * aws_byte_buf)),
         (new_buffer ← aws_mem_acquire al new_cap;
          _ ← (if 0 <? buf_len to then memcpy new_buffer (buf_buffer to) (buf_len to) else mret tt);
          _ ← (if 0 <? cur_len from
               then memcpy (ptr_add new_buffer (buf_len to)) (cur_ptr from) (cur_len from)
               else mret tt);
          f new_buffer) m = f (Ptr b 0) (set_block m b data).
Proof.
  intros Hpos Hcap. pose proof (bo_len _ _ _ Hto). pose proof (cursor_len _ _ _ Hfrom) as [Hcl Hzc].
  pose proof (buf_zlength _ _ _ Hto) as Hzb.
  destruct (acquire_ok al m new_cap Hpos) as (b & m1 & d0 & Hacq & Hb & -> & Hz0).
  destruct (copy_to_fresh m b d0 0 (buf_buffer to) (buf_len to) bs Hb (bo_data _ _ _ Hto))
    as (d1 & Hc1 & Hs1); [lia | lia |].
  pose proof Hs1 as (_ & _ & _ & Hz1)%splice_inv.
  destruct (copy_to_fresh m b d1 (buf_len to) (cur_ptr from) (cur_len from) cs Hb (co_data _ _ _ Hfrom))
    as (d2 & Hc2 & Hs2); [lia | lia |].
  pose proof Hs2 as (_ & _ & _ & Hz2)%splice_inv.
  exists b, d2. split_and!; auto; try lia.
  - apply slice_app; [| rewrite Z.add_0_l, <- Hzc; now apply (slice_splice_same d1)].
    rewrite (slice_splice_out d1 (buf_len to) cs d2 0 (buf_len to) Hs2) by lia.
    rewrite <- Hzb. now apply (slice_splice_same d0).
  - intros f. run Hacq. run Hc1. change (ptr_add (Ptr b 0) (buf_len to)) with (Ptr b (0 + buf_len to)).
    rewrite Z.add_0_l. run Hc2. reflexivity.
Qed.

Lemma append_grow :
  buf_capacity to - buf_len to < cur_len from -> buf_len to + cur_len from <= SIZE_MAX ->
  exists to' m', s_aws_byte_buf_append_dynamic to from clear m = Ret (AWS_OP_SUCCESS, to') m'
    /\ append_dynamic_post m to from bs cs clear AWS_OP_SUCCESS to' m'.
Proof.
  intros Hbig Hfit. unfold s_aws_byte_buf_append_dynamic, append_dynamic_post. rewrite Hal.
  pose proof (bo_len _ _ _ Hto). pose proof (bo_cap _ _ _ Hto).
  pose proof (cursor_len _ _ _ Hfrom) as [Hcl Hzc].
  rewrite (available_eq _ _ _ Hto), (proj2 (Z.ltb_lt _ _) Hbig).
  rewrite u64_small by (unfold is_u64, SIZE_MAX in *; lia).
  rewrite add_size_checked_spec by lia. rewrite (proj2 (Z.leb_le _ _)) by lia.
  replace (buf_capacity to + _) with (buf_len to + cur_len from) by lia.
  destruct (grown_capacity_spec (buf_capacity to) (buf_len to + cur_len from)) as [Hg Hgb]; [lia | lia |].
  set (new_cap := grown_capacity _ _) in *.
  destruct (fill_new_block new_cap) as (b & data & Hb & Hz & Hsl & Hfill); [lia | lia |].
  rewrite Hfill, bind_assoc.
  assert (buf_owned (set_block m b data) to) as Hown'.
  { destruct Hown as [Ha [E | (b0 & d0 & Hp & Hb0 & Hz0)]]; split; auto. right.
    exists b0, d0. cbn. rewrite lookup_insert_ne by congruence. auto. }
  run (drop_buffer_ok al _ to clear Hown' (bo_null _ _ _ Hto) ltac:(lia)).
  rewrite u64_small by (unfold is_u64, SIZE_MAX in *; lia).
  set (m' := drop_buffer _ to clear).
  assert (blocks m' !! b = Some data) as Hb'.
  { unfold m', drop_buffer. destruct (buf_buffer to) as [| b0 o0 | d0 o0] eqn:Hp;
      try (cbn; now rewrite lookup_insert_eq).
    destruct (blocks (set_block m b data) !! b0) eqn:E; [| cbn; now rewrite lookup_insert_eq].
    cbn. rewrite lookup_delete_ne; [now rewrite lookup_insert_eq |]. intros ->.
    destruct (bo_room _ _ _ Hto) as [E0 | (b1 & o1 & d1 & Hp1 & Hb1 & _)];
      [rewrite (bo_null _ _ _ Hto E0) in Hp; discriminate | congruence]. }
  eexists _, m'. split; [reflexivity |]. rewrite (proj2 (Z.ltb_ge _ _)) by lia.
  split_and!; auto.
  - constructor; cbn [buf_len buf_capacity buf_buffer]; try lia.
    + unfold bytes_at. rewrite (proj2 (Z.eqb_neq _ _)), Hb' by lia. exact Hsl.
    + right. exists b, 0, data. split_and!; auto; lia.
  - split; cbn; [eauto |]. right. exists b, data. auto.
  - intros p n x Hp Hx. apply drop_buffer_frame; [exact Hp |]. now apply bytes_at_fresh.
  - exists b, data. split; [exact Hb |]. split; [reflexivity |].
    apply drop_buffer_moved; [exact Hb |]. intros b0 o0 Hp. destruct Hown as [_ [E | (b1 & d1 & Hp1 & Hb1 & _)]].
    + rewrite (bo_null _ _ _ Hto E) in Hp. discriminate.
    + rewrite Hp in Hp1. injection Hp1 as <- _. eauto.
Qed.

Lemma append_dynamic_spec :
  disjoint_ranges (ptr_add (buf_buffer to) (buf_len to)) (buf_capacity to - buf_len to)
    (cur_ptr from) (cur_len from) ->
  exists rv to' m', s_aws_byte_buf_append_dynamic to from clear m = Ret (rv, to') m'
    /\ append_dynamic_post m to from bs cs clear rv to' m'.
Proof.
  intros Hdisj. pose proof (bo_len _ _ _ Hto). pose proof (bo_cap _ _ _ Hto).
  pose proof (cursor_len _ _ _ Hfrom) as [Hcl Hzc].
  destruct (Z.lt_ge_cases (buf_capacity to - buf_len to) (cur_len from)) as [Hbig | Hfit].
  - destruct (Z.le_gt_cases (buf_len to + cur_len from) SIZE_MAX) as [Hle | Hgt].
    + destruct (append_grow Hbig Hle) as (to' & m' & Heq & Hpost). eauto.
    + unfold s_aws_byte_buf_append_dynamic, append_dynamic_post. rewrite Hal.
      rewrite (available_eq _ _ _ Hto), (proj2 (Z.ltb_lt _ _) Hbig).
      rewrite u64_small by (unfold is_u64, SIZE_MAX in *; lia).
      rewrite add_size_checked_spec by lia. rewrite (proj2 (Z.leb_gt _ _)) by lia.
      rewrite (proj2 (Z.ltb_lt _ _)) by lia. eexists _, _, _. split; [reflexivity |]. auto.
  - unfold s_aws_byte_buf_append_dynamic, append_dynamic_post. rewrite Hal.
    rewrite (available_eq _ _ _ Hto). rewrite (proj2 (Z.ltb_ge _ (cur_len from))) by lia.
    rewrite (proj2 (Z.ltb_ge SIZE_MAX _)) by lia.
    destruct (append_copy m to from bs cs Hto Hfrom Hdisj Hfit) as (m' & Heq & Hw & Hok).
    assert ((if 0 <? cur_len from
             then memcpy (ptr_add (buf_buffer to) (buf_len to)) (cur_ptr from) (cur_len from)
             else mret tt) m = Ret tt m') as Heq'.
    { destruct (Z.ltb_spec 0 (cur_len from)); [exact Heq |]. assert (cur_len from = 0) as E by lia.
      rewrite E in Heq. unfold memcpy in Heq. rewrite <- Heq.
      destruct (overlapping _ _ 0) eqn:Ho; [| reflexivity]. unfold overlapping in Ho.
      destruct (ptr_sub _ _); [apply Z.ltb_lt in Ho; lia | discriminate]. }
    run Heq'. rewrite u64_small by (unfold is_u64, SIZE_MAX in *; lia).
    eexists _, _, m'. split; [reflexivity |]. split_and!; auto.
    + destruct Hown as [Ha [E | (b & data & Hp & Hb & Hz)]]; split; auto. right.
      pose proof (written_blocks _ _ _ _ b Hw) as E. rewrite Hb in E. cbn in E.
      destruct (blocks m' !! b) as [data' |] eqn:Hb'; [| discriminate]. injection E as E.
      exists b, data'. split_and!; auto. cbn. lia.
    + intros p n x Hp Hx. rewrite (written_frame _ _ _ _ _ _ Hw); [exact Hx |].
      destruct p as [| b o | d o]; try exact I. destruct (buf_buffer to) as [| b' o' | d' o']; try exact I.
      cbn in *. intros ->. destruct Hp; congruence.
    + split; [reflexivity |]. split; [exact (written_dom _ _ _ _ Hw) | exact (proj2 (written_rest _ _ _ _ Hw))].
Qed.

End append_dynamic.

(** C2: [aws_byte_buf_append_dynamic] (and its secure variant, [clear]) on a
    buffer that owns its memory runs without undefined behaviour, also when
    the source is part of the buffer itself. It reports overflow exactly when
    the lengths do not add up in a [size_t], and otherwise the buffer holds
    the old content followed by the source, the capacity grown to the larger
    of what is needed and twice the old one, other memory untouched. When it
    grows, it takes one fresh block and releases the old block, exactly once,
    zeroed over its whole capacity in the secure variant; otherwise no block is
    taken or released. *)
Theorem append_dynamic_correct (m : mem) (to : aws_byte_buf) (from : aws_byte_cursor)
    (bs cs : list Z) (clear : bool) :
  buf_ok m to bs -> buf_owned m to -> cursor_ok m from cs ->
  disjoint_ranges (ptr_add (buf_buffer to) (buf_len to)) (buf_capacity to - buf_len to)
    (cur_ptr from) (cur_len from) ->
  exists rv to' m', s_aws_byte_buf_append_dynamic to from clear m = Ret (rv, to') m'
    /\ append_dynamic_post m to from bs cs clear rv to' m'.
Proof.
  intros Hto Hown Hfrom Hd. destruct (proj1 Hown) as [al Hal].
  now apply (append_dynamic_spec m to from bs cs al).
Qed.

(** A full buffer of four bytes, and a cursor on two of its own bytes. *)
Definition demo_mem : mem := mk_mem {[1%positive := [10; 20; 30; 40]]} (fun _ _ => 7) [].
Definition demo_buf : aws_byte_buf := mk_buf 4 (Ptr 1 0) 4 (Some (mk_allocator true)).
Definition demo_cursor : aws_byte_cursor := mk_cursor 2 (Ptr 1 1).

Lemma demo_buf_ok : buf_ok demo_mem demo_buf [10; 20; 30; 40] /\ buf_owned demo_mem demo_buf.
Proof.
  split; [constructor; cbn; try reflexivity; try (unfold SIZE_MAX; lia) |].
  - right. exists 1%positive, 0, [10; 20; 30; 40]. unfold zlength. cbn. split_and!; auto; lia.
  - split; [now exists (mk_allocator true) | right]. now exists 1%positive, [10; 20; 30; 40].
Qed.

Lemma append_dynamic_correct_witness :
  exists to' m', aws_byte_buf_append_dynamic_secure demo_buf demo_cursor demo_mem
                 = Ret (AWS_OP_SUCCESS, to') m'
    /\ buf_ok m' to' [10; 20; 30; 40; 20; 30] /\ buf_capacity to' = 8
    /\ released m' = [[0; 0; 0; 0]] /\ blocks m' !! 1%positive = None.
Proof.
  destruct demo_buf_ok as [Hok Hown].
  assert (cursor_ok demo_mem demo_cursor [20; 30]) as Hc
    by (constructor; [reflexivity | unfold SIZE_MAX; cbn; lia]).
  destruct (append_dynamic_correct demo_mem demo_buf demo_cursor _ _ true Hok Hown Hc)
    as (rv & to' & m' & Heq & -> & Hok' & _ & _ & _ & Hcap & b & data & Hb & _ & Hbl & Hfr); [cbn; lia |].
  exists to', m'. split; [exact Heq |]. split; [exact Hok' |]. split; [exact Hcap |].
  split; [exact Hfr |]. rewrite Hbl, lookup_insert_ne; [reflexivity |].
  intros ->. discriminate Hb.
Defined.

(** [aws_byte_buf_append] copies exactly the source after the content when
    it fits, even from the buffer's own content, and otherwise reports
    [AWS_ERROR_DEST_COPY_TOO_SMALL] and changes nothing. *)
Theorem append_correct (m : mem) (to : aws_byte_buf) (from : aws_byte_cursor) (bs cs : list Z) :
  buf_ok m to bs -> cursor_ok m from cs ->
  disjoint_ranges (ptr_add (buf_buffer to) (buf_len to)) (buf_capacity to - buf_len to)
    (cur_ptr from) (cur_len from) ->
  exists rv to' m', aws_byte_buf_append to from m = Ret (rv, to') m'
    /\ if buf_capacity to - buf_len to <? cur_len from
       then rv = AWS_OP_ERR AWS_ERROR_DEST_COPY_TOO_SMALL /\ to' = to /\ m' = m
       else rv = AWS_OP_SUCCESS /\ to' = set_len to (buf_len to + cur_len from)
            /\ buf_ok m' to' (bs ++ cs)
            /\ written m (ptr_add (buf_buffer to) (buf_len to)) cs m'.
Proof. intros Hto Hfrom Hd. now apply append_spec. Qed.

Lemma append_correct_witness :
  aws_byte_buf_append demo_buf demo_cursor demo_mem
  = Ret (AWS_OP_ERR AWS_ERROR_DEST_COPY_TOO_SMALL, demo_buf) demo_mem.
Proof.
  destruct demo_buf_ok as [Hok _].
  assert (cursor_ok demo_mem demo_cursor [20; 30]) as Hc
    by (constructor; [reflexivity | unfold SIZE_MAX; cbn; lia]).
  destruct (append_correct demo_mem demo_buf demo_cursor _ _ Hok Hc)
    as (rv & to' & m' & Heq & -> & -> & ->); [cbn; lia | exact Heq].
Defined.

(** ** Releasing *)

Lemma clean_up_secure_spec m buf bs :
  buf_ok m buf bs -> buf_owned m buf ->
  aws_byte_buf_clean_up_secure buf m = Ret zero_buf (drop_buffer m buf true).
Proof.
  intros Hok Hown. destruct (proj1 Hown) as [al Hal]. pose proof (bo_len _ _ _ Hok).
  pose proof (drop_buffer_ok al m buf true Hown (bo_null _ _ _ Hok) ltac:(lia)) as Hd.
  unfold aws_byte_buf_clean_up_secure, aws_byte_buf_secure_zero, aws_byte_buf_clean_up.
  unfold mbind, M_bind in *.
  destruct (buf_buffer buf) eqn:Hp; cbn [is_NULL] in *.
  - cbn. rewrite Hal, Hp. cbn. f_equal. unfold drop_buffer. now rewrite Hp.
  - destruct (aws_secure_zero _ _ m); try discriminate. cbn. rewrite Hal, Hp.
    cbn [is_NULL]. now rewrite Hd.
  - now destruct (aws_secure_zero _ _ m).
Qed.

(** cleaning a buffer up securely gives its memory back holding only zeros
    (all of its capacity, not only its length), leaves the zeroed buffer
    structure, and the block can no longer be accessed. *)
Theorem clean_up_secure_correct (m : mem) (buf : aws_byte_buf) (bs : list Z) (b : positive) :
  buf_ok m buf bs -> buf_owned m buf -> buf_buffer buf = Ptr b 0 ->
  exists m', aws_byte_buf_clean_up_secure buf m = Ret zero_buf m'
    /\ released m' = replicate (Z.to_nat (buf_capacity buf)) 0 :: released m
    /\ blocks m' = delete b (blocks m).
Proof.
  intros Hok Hown Hp. rewrite (clean_up_secure_spec m buf bs Hok Hown).
  eexists. split; [reflexivity |]. unfold drop_buffer. rewrite Hp.
  destruct Hown as [_ [E | (b0 & data & Hp0 & Hb & Hz)]].
  { rewrite (bo_null _ _ _ Hok E) in Hp. discriminate. }
  rewrite Hp in Hp0. injection Hp0 as <-. rewrite Hb, <- Hz. unfold zlength. now rewrite Nat2Z.id.
Qed.

Lemma clean_up_secure_correct_witness :
  exists m', aws_byte_buf_clean_up_secure demo_buf demo_mem = Ret zero_buf m'
    /\ released m' = [[0; 0; 0; 0]].
Proof.
  destruct demo_buf_ok as [Hok Hown].
  destruct (clean_up_secure_correct demo_mem demo_buf _ 1%positive Hok Hown eq_refl)
    as (m' & Heq & Hr & _).
  exists m'. split; [exact Heq | exact Hr].
Defined.
