(* ===== verification/ByteBufCache.v ===== *)
(** * Byte buffers: reserving space and caching cursors

    [aws_byte_buf_reserve] over both kinds of allocator, and
    [aws_byte_buf_init_cache_and_update_cursors], which copies the targets of
    several cursors into one new buffer and points the cursors there. *)

From S2P Require Import Prelude Math ByteOrder Memory ByteBuf ByteBufSpec.
Import ByteBuf.

Local Open Scope Z_scope.

(** ** Reallocating *)

(** Writing into a block that was just added. *)
Lemma set_block_written m b data o xs data' :
  splice data o xs = Some data' -> store (Ptr b o) xs (set_block m b data) = Ret tt (set_block m b data').
Proof.
  intros Hs. destruct xs as [| x xs].
  - apply splice_inv in Hs as (_ & _ & -> & _). cbn [length app]. now rewrite Nat.add_0_r, take_drop.
  - unfold store. cbn [blocks set_block]. rewrite lookup_insert_eq. cbn [mbind option_bind].
    rewrite Hs. unfold set_block. cbn. now rewrite insert_insert_eq.
Qed.

(** Growing a block, whichever way the allocator does it: a new block that
    starts with the old content replaces the old one. *)
Lemma realloc_grow al m b data n :
  blocks m !! b = Some data -> 0 < zlength data < n ->
  exists b' data', aws_mem_realloc al (Ptr b 0) (zlength data) n m
                   = Ret (Ptr b' 0) (without_block (set_block m b' data') b data)
    /\ blocks m !! b' = None /\ zlength data' = n /\ slice data' 0 (zlength data) = Some data.
Proof.
  intros Hb Hn. unfold aws_mem_realloc. rewrite (proj2 (Z.eqb_neq n 0)) by lia.
  destruct (malloc_ok m n ltac:(lia)) as (b' & m1 & d0 & Hacq & Hb' & -> & Hz0).
  assert (bytes_at m (Ptr b 0) (zlength data) = Some data) as Hread.
  { unfold bytes_at. rewrite (proj2 (Z.eqb_neq _ _)), Hb by lia. apply slice_full. }
  destruct (copy_to_fresh m b' d0 0 (Ptr b 0) (zlength data) data Hb' Hread)
    as (d1 & Hc & Hs); [lia | lia |].
  rewrite (proj2 (Z.ltb_lt 0 (zlength data))) in Hc by lia.
  pose proof Hs as (_ & _ & _ & Hz1)%splice_inv. pose proof (slice_splice_same _ _ _ _ Hs) as Hpre.
  assert (forall d, blocks (set_block m b' d) !! b = Some data) as Hkeep
    by (intros d; cbn; rewrite lookup_insert_ne; congruence).
  destruct (mem_realloc al).
  - unfold s_default_realloc. rewrite (proj2 (Z.eqb_neq n 0)), (proj2 (Z.leb_gt _ _)) by lia.
    run Hacq. cbn [is_NULL]. run Hc. exists b', d1. split_and!; auto; try lia.
    unfold mbind, M_bind, s_default_free. now rewrite Hkeep.
  - rewrite (proj2 (Z.leb_gt _ _)) by lia. run Hacq. run Hc. cbn [ptr_add]. rewrite Z.add_0_l.
    destruct (splice_is_Some d1 (zlength data) (replicate (Z.to_nat (n - zlength data)) 0))
      as [d2 Hs2]; [lia | rewrite zlength_replicate; lia |].
    unfold memset. run (set_block_written m b' _ _ _ _ Hs2).
    pose proof Hs2 as (_ & _ & _ & Hz2)%splice_inv.
    exists b', d2. split_and!; auto; try lia.
    + unfold mbind, M_bind, aws_mem_release. cbn [is_NULL]. unfold s_default_free. now rewrite Hkeep.
    + now rewrite (slice_splice_out d1 _ _ d2 0 (zlength data) Hs2) by lia.
Qed.

Lemma buf_reserve_spec m buf bs n :
  buf_ok m buf bs -> buf_owned m buf -> 0 <= n <= SIZE_MAX ->
  exists buf' m', aws_byte_buf_reserve buf n m = Ret (AWS_OP_SUCCESS, buf') m'
    /\ buf_ok m' buf' bs /\ buf_owned m' buf' /\ buf_len buf' = buf_len buf
    /\ buf_capacity buf' = Z.max (buf_capacity buf) n /\ preserves_others m m' buf.
Proof.
  intros Hok Hown Hn. destruct (proj1 Hown) as [al Hal]. unfold aws_byte_buf_reserve.
  rewrite Hal, (buf_ok_valid _ _ _ Hok). cbn [negb].
  pose proof (bo_len _ _ _ Hok) as Hl. pose proof (bo_cap _ _ _ Hok) as Hc.
  destruct (Z.leb_spec n (buf_capacity buf)) as [Hle | Hgt].
  { eexists _, m. split; [reflexivity |]. split_and!; auto; [lia | apply preserves_refl]. }
  destruct (proj2 Hown) as [E | (b & data & Hp & Hb & Hz)].
  - rewrite (bo_null _ _ _ Hok E), E, (proj2 (Z.ltb_lt 0 n)) by lia. cbn [is_NULL Z.eqb andb].
    unfold aws_byte_buf_init. rewrite (proj2 (Z.eqb_neq n 0)) by lia.
    destruct (acquire_ok al m n ltac:(lia)) as (b & m1 & data & Hacq & Hb & -> & Hz). run Hacq.
    assert (buf_len buf = 0) as E0 by lia. pose proof (bo_data _ _ _ Hok) as Hd.
    rewrite E0 in Hd. injection Hd as <-.
    eexists _, _. split; [reflexivity |].
    split_and!; cbn [buf_len buf_capacity]; try lia.
    + constructor; cbn; auto; try lia. apply fresh_writable. lia.
    + split; cbn; [eauto |]. right. exists b, data. rewrite lookup_insert_eq. auto.
    + intros p k x _ Hx. now apply bytes_at_fresh.
  - rewrite Hp. cbn [is_NULL andb]. assert (0 < zlength data) as Hpos.
    { pose proof (zlength_nonneg data). destruct (Z.eq_dec (zlength data) 0) as [E |]; [| lia].
      rewrite (bo_null _ _ _ Hok) in Hp by lia. discriminate. }
    rewrite <- Hz. destruct (realloc_grow al m b data n Hb ltac:(lia))
      as (b' & data' & Heq & Hb' & Hz' & Hpre).
    run Heq. assert (b' <> b) as Hne by congruence.
    assert (blocks (without_block (set_block m b' data') b data) !! b' = Some data') as Hnew
      by (cbn; rewrite lookup_delete_ne, lookup_insert_eq by congruence; reflexivity).
    eexists _, _. split; [reflexivity |].
    split_and!; cbn [buf_len buf_capacity]; try lia.
    + constructor; cbn [buf_len buf_capacity buf_buffer]; try lia.
      * pose proof (bo_data _ _ _ Hok) as Hd. rewrite Hp in Hd. unfold bytes_at in *.
        destruct (buf_len buf =? 0); [exact Hd |]. rewrite Hb in Hd. rewrite Hnew.
        cbn [mbind option_bind] in *. rewrite <- Hd.
        rewrite <- (Z.add_0_r 0), (slice_sub data' 0 (zlength data) data 0) by (auto; lia).
        reflexivity.
      * right. exists b', 0, data'. split_and!; auto; lia.
    + split; cbn [buf_allocator buf_capacity buf_buffer]; [eauto |]. right. exists b', data'. auto.
    + intros p k x Hpp Hx. rewrite bytes_at_without; [now apply bytes_at_fresh |].
      rewrite Hp in Hpp. cbn in Hpp. destruct Hpp as [Hpp | Hpp]; congruence.
Qed.

(** [aws_byte_buf_reserve] never fails on an owned buffer, keeps its
    content and its ownership, gives it at least the requested capacity and
    never less than it had, and touches no other memory; with either kind of
    allocator. *)
Theorem reserve_correct (m : mem) (buf : aws_byte_buf) (bs : list Z) (n : Z) :
  buf_ok m buf bs -> buf_owned m buf -> 0 <= n <= SIZE_MAX ->
  exists buf' m', aws_byte_buf_reserve buf n m = Ret (AWS_OP_SUCCESS, buf') m'
    /\ buf_ok m' buf' bs /\ buf_owned m' buf' /\ buf_len buf' = buf_len buf
    /\ buf_capacity buf' = Z.max (buf_capacity buf) n /\ preserves_others m m' buf.
Proof. exact (buf_reserve_spec m buf bs n). Qed.

Lemma reserve_correct_witness :
  exists buf' m', aws_byte_buf_reserve demo_buf 9 demo_mem = Ret (AWS_OP_SUCCESS, buf') m'
    /\ buf_ok m' buf' [10; 20; 30; 40] /\ buf_capacity buf' = 9.
Proof.
  destruct demo_buf_ok as [Hok Hown]. assert (0 <= 9 <= SIZE_MAX) as Hn by (unfold SIZE_MAX; lia).
  destruct (reserve_correct demo_mem demo_buf _ 9 Hok Hown Hn)
    as (buf' & m' & Heq & Hok' & _ & _ & Hc & _).
  exists buf', m'. split; [exact Heq |]. split; [exact Hok' | exact Hc].
Defined.

(** ** Caching cursors *)

Lemma cursors_total_len_spec cursors : forall total,
  0 <= total -> Forall (fun c => 0 <= cur_len c) cursors ->
  cursors_total_len total cursors
  = (if total + foldr Z.add 0 (map cur_len cursors) <=? SIZE_MAX
     then Ok (total + foldr Z.add 0 (map cur_len cursors))
     else if decide (cursors = []) then Ok total else Err AWS_ERROR_OVERFLOW_DETECTED).
Proof.
  induction cursors as [| c cursors IH]; intros total Ht HF; cbn [cursors_total_len map foldr].
  - rewrite Z.add_0_r. destruct (_ <=? _); reflexivity.
  - apply Forall_cons in HF as [Hc HF].
    assert (0 <= foldr Z.add 0 (map cur_len cursors)) by (clear IH; induction HF; cbn; lia).
    rewrite add_size_checked_spec by lia. rewrite decide_False by discriminate. zcase.
    + rewrite IH by (auto; lia). rewrite Z.add_assoc. zcase. reflexivity.
    + rewrite IH by (auto; lia). zcase. case_decide; [subst; cbn in *; lia | reflexivity].
    + reflexivity.
Qed.

(** Memory outside the unused part of the buffer is untouched, and no block
    changes its size. *)
Record only_room_written (m m' : mem) (buf : aws_byte_buf) : Prop := {
  room_frame : forall q n,
    disjoint_ranges q n (ptr_add (buf_buffer buf) (buf_len buf))
      (buf_capacity buf - buf_len buf) -> bytes_at m' q n = bytes_at m q n;
  room_blocks : forall b, zlength <$> blocks m' !! b = zlength <$> blocks m !! b
}.

Lemma room_refl m buf : only_room_written m m buf.
Proof. now constructor. Qed.

(** The target of the cursor lies outside the buffer's block. *)
Definition outside (buf : aws_byte_buf) (c : aws_byte_cursor) : Prop :=
  cur_len c = 0 \/ ptr_block (cur_ptr c) = None
  \/ ptr_block (cur_ptr c) <> ptr_block (buf_buffer buf).

Lemma outside_readable m buf c cs q k :
  cursor_ok m c cs -> outside buf c -> ptr_block q = ptr_block (buf_buffer buf) ->
  cur_len c = 0 \/ disjoint_ranges q k (cur_ptr c) (cur_len c).
Proof.
  intros _ [H | H] Hq; [now left | right].
  destruct q as [| b o | d o], (cur_ptr c) as [| b' o' | d' o']; cbn in *; auto.
  intros ->. destruct H as [H | H]; congruence.
Qed.

(** The cursor points into the buffer and reads what it read before. *)
Definition cached (m : mem) (buf : aws_byte_buf) (c c' : aws_byte_cursor) (cs : list Z) : Prop :=
  cursor_ok m c' cs /\ cur_len c' = cur_len c
  /\ exists i, 0 <= i <= buf_len buf - cur_len c /\ cur_ptr c' = ptr_add (buf_buffer buf) i.

Lemma ptr_block_add p i : ptr_block (ptr_add p i) = ptr_block p.
Proof. now destruct p. Qed.

Lemma append_and_update_spec m dest bs c cs :
  buf_ok m dest bs -> cursor_ok m c cs -> outside dest c ->
  buf_len dest + cur_len c <= buf_capacity dest ->
  exists c' m', aws_byte_buf_append_and_update dest c m
      = Ret (AWS_OP_SUCCESS, set_len dest (buf_len dest + cur_len c), c') m'
    /\ buf_ok m' (set_len dest (buf_len dest + cur_len c)) (bs ++ cs)
    /\ cached m' (set_len dest (buf_len dest + cur_len c)) c c' cs
    /\ only_room_written m m' dest.
Proof.
  intros Hok Hc Hout Hfit. pose proof (cursor_len _ _ _ Hc) as [Hcl Hz]. pose proof (bo_len _ _ _ Hok).
  destruct (outside_readable m dest c cs (ptr_add (buf_buffer dest) (buf_len dest))
              (buf_capacity dest - buf_len dest) Hc Hout (ptr_block_add _ _)) as [E0 | Hd].
  - (* an empty cursor is not copied *)
    unfold aws_byte_buf_append_and_update, aws_byte_buf_append.
    rewrite (available_eq _ _ _ Hok), E0, (proj2 (Z.ltb_ge _ 0)) by lia.
    cbn [Z.ltb Z.compare mbind M_bind mret M_ret]. rewrite E0 in Hz.
    apply zlength_zero_inv in Hz as ->. rewrite app_nil_r, Z.add_0_r.
    assert (set_len dest (buf_len dest) = dest) as -> by now destruct dest.
    eexists _, m. split; [reflexivity |]. split; [exact Hok |]. split; [| apply room_refl].
    split; [constructor; cbn; [reflexivity | unfold SIZE_MAX; lia] |].
    split; [symmetry; exact E0 |]. exists (buf_len dest - 0). cbn. split; [lia | reflexivity].
  - destruct (append_spec m dest c bs cs Hok Hc Hd) as (rv & to' & m' & Heq & Hpost).
    rewrite (proj2 (Z.ltb_ge _ _)) in Hpost by lia. destruct Hpost as (-> & -> & Hok' & Hw).
    unfold aws_byte_buf_append_and_update. run Heq. cbn [buf_buffer buf_len set_len].
    replace (buf_len dest + cur_len c - cur_len c) with (buf_len dest) by lia.
    eexists _, m'. split; [reflexivity |]. split; [exact Hok' |]. split.
    + split; [constructor; cbn; [rewrite <- Hz; now apply (written_same m) | lia] |].
      split; [reflexivity |]. exists (buf_len dest). cbn. split; [lia | reflexivity].
    + constructor; [| intros b0; exact (written_blocks _ _ _ _ b0 Hw)].
      intros q n Hq. apply (written_frame _ _ _ _ _ _ Hw).
      destruct q as [| b o | d o], (ptr_add (buf_buffer dest) _); cbn in *; auto. lia.
Qed.

(** A cached cursor survives later appends to the same buffer. *)
Lemma cached_stable m m' buf buf' c c' cs :
  cached m buf c c' cs -> only_room_written m m' buf ->
  buf_buffer buf' = buf_buffer buf -> buf_len buf <= buf_len buf' -> cached m' buf' c c' cs.
Proof.
  intros ([Hd Hcl] & Hl & i & Hi & Hp) Hroom Hb Hlen.
  split; [constructor; [| exact Hcl] |].
  - rewrite (room_frame _ _ _ Hroom); [exact Hd |]. rewrite Hp. destruct (buf_buffer buf); cbn; auto. lia.
  - split; [exact Hl |]. exists i. rewrite Hb. split; [lia | exact Hp].
Qed.

(** Cursors elsewhere are not disturbed. *)
Lemma cursors_stable m m' dest cursors css :
  Forall2 (cursor_ok m) cursors css -> Forall (outside dest) cursors ->
  only_room_written m m' dest -> Forall2 (cursor_ok m') cursors css.
Proof.
  intros HF Hout Hroom. induction HF as [| c cs cursors css Hc HF IH]; constructor;
    apply Forall_cons in Hout as [Ho Hout]; [| auto].
  constructor; [| apply (co_len _ _ _ Hc)].
  destruct (outside_readable m dest c cs (ptr_add (buf_buffer dest) (buf_len dest))
              (buf_capacity dest - buf_len dest) Hc Ho (ptr_block_add _ _)) as [E | Hd].
  - pose proof (co_data _ _ _ Hc) as Hdx. rewrite E in *. exact Hdx.
  - rewrite (room_frame _ _ _ Hroom); [apply (co_data _ _ _ Hc) |].
    destruct (cur_ptr c), (ptr_add (buf_buffer dest) _); cbn in *; auto. intros ->.
    specialize (Hd eq_refl). lia.
Qed.

Lemma cache_cursors_spec cursors : forall m dest bs css,
  buf_ok m dest bs -> Forall2 (cursor_ok m) cursors css -> Forall (outside dest) cursors ->
  buf_len dest + foldr Z.add 0 (map cur_len cursors) <= buf_capacity dest ->
  exists dest' cursors' m', cache_cursors dest cursors m = Ret (dest', cursors') m'
    /\ buf_ok m' dest' (bs ++ concat css) /\ buf_buffer dest' = buf_buffer dest
    /\ buf_allocator dest' = buf_allocator dest /\ buf_capacity dest' = buf_capacity dest
    /\ buf_len dest <= buf_len dest'
    /\ Forall3 (cached m' dest') cursors cursors' css
    /\ only_room_written m m' dest.
Proof.
  induction cursors as [| c cursors IH]; intros m dest bs css Hok HF Hout Hfit.
  - inversion HF; subst. exists dest, [], m. cbn [concat]. rewrite app_nil_r.
    split_and!; auto; try lia; [constructor | apply room_refl].
  - inversion HF as [| ? cs ? css' Hc HF']; subst. apply Forall_cons in Hout as [Ho Hout].
    cbn [map foldr] in Hfit. pose proof (cursor_len _ _ _ Hc) as [Hcl _].
    assert (0 <= foldr Z.add 0 (map cur_len cursors)) as Hsum.
    { clear -HF'. induction HF' as [| x y l l' Hx _ IHl]; cbn; [lia |].
      pose proof (cursor_len _ _ _ Hx). lia. }
    destruct (append_and_update_spec m dest bs c cs Hok Hc Ho ltac:(lia))
      as (c1 & m1 & Heq & Hok1 & Hcached & Hroom).
    set (dest1 := set_len dest (buf_len dest + cur_len c)) in *.
    pose proof (cursors_stable m m1 dest cursors css' HF' Hout Hroom) as HF1.
    destruct (IH m1 dest1 (bs ++ cs) css' Hok1 HF1)
      as (dest' & cursors' & m' & Heq' & Hok' & Hb & Ha & Hcap & Hlen & H3 & Hroom').
    { eapply Forall_impl; [exact Hout |]. auto. }
    { cbn. lia. }
    cbn [cache_cursors]. run Heq. run Heq'. exists dest', (c1 :: cursors'), m'.
    cbn [concat]. rewrite app_assoc. split_and!; auto.
    + cbn in Hlen. lia.
    + constructor; [| exact H3]. now apply (cached_stable m1 m' dest1).
    + constructor; [| intros b; now rewrite (room_blocks _ _ _ Hroom'), (room_blocks _ _ _ Hroom)].
      intros q n Hq. rewrite (room_frame _ _ _ Hroom'); [now apply Hroom |].
      destruct q, (buf_buffer dest) eqn:E; cbn in *; auto; rewrite ?E in *; cbn in *; auto. lia.
Qed.

(** The buffer [aws_byte_buf_init] makes, in the memory it leaves: what was
    readable before is so still, and is not in the buffer. *)
Lemma buf_init_spec al m n :
  0 <= n <= SIZE_MAX ->
  exists buf m', aws_byte_buf_init al n m = Ret (AWS_OP_SUCCESS, buf) m'
    /\ buf_ok m' buf [] /\ buf_owned m' buf /\ buf_len buf = 0 /\ buf_capacity buf = n
    /\ forall p k x, bytes_at m p k = Some x ->
         bytes_at m' p k = Some x /\ outside buf (mk_cursor k p).
Proof.
  intros Hn. unfold aws_byte_buf_init. destruct (Z.eqb_spec n 0) as [-> | H0].
  - eexists _, m. split; [reflexivity |]. split_and!; auto; try (cbn; lia).
    + constructor; cbn; auto; try lia. now left.
    + split; cbn; eauto.
    + intros p k x Hx. split; [exact Hx | right]. now destruct p; cbn; auto.
  - destruct (acquire_ok al m n ltac:(lia)) as (b & m1 & data & Hacq & Hb & -> & Hz). run Hacq.
    eexists _, _. split; [reflexivity |]. split_and!; auto.
    + constructor; cbn; auto; try lia. apply fresh_writable. lia.
    + split; cbn; [eauto |]. right. exists b, data. rewrite lookup_insert_eq. auto.
    + intros p k x Hx. split; [now apply bytes_at_fresh |]. unfold outside, bytes_at in *. cbn.
      destruct (Z.eqb_spec k 0) as [E | E]; [now left | right].
      destruct p as [| b' o | d o]; cbn; auto. right. intros [= ->]. now rewrite Hb in Hx.
Qed.

(** Ownership survives writes that keep the block sizes. *)
Lemma owned_stable m m' buf buf' :
  buf_owned m buf -> (forall b, zlength <$> blocks m' !! b = zlength <$> blocks m !! b) ->
  buf_buffer buf' = buf_buffer buf -> buf_allocator buf' = buf_allocator buf ->
  buf_capacity buf' = buf_capacity buf -> buf_owned m' buf'.
Proof.
  intros [Ha Ho] Hbl Hb Hal Hc. split; [now rewrite Hal |].
  destruct Ho as [E | (b & data & Hp & Hd & Hz)]; [left; lia | right].
  specialize (Hbl b). rewrite Hd in Hbl. cbn in Hbl.
  destruct (blocks m' !! b) as [data' |] eqn:E; [| discriminate]. injection Hbl as Hl.
  exists b, data'. rewrite Hb. split_and!; auto. lia.
Qed.

(** [aws_byte_buf_init_cache_and_update_cursors] reports overflow, and
    changes nothing, exactly when the total length exceeds [SIZE_MAX];
    otherwise the new buffer owns exactly the concatenation of the cursors'
    targets, every cursor points into it and still reads what it read, and
    all memory readable before still reads the same. *)
Theorem cache_and_update_cursors_correct (al : aws_allocator) (m : mem)
    (cursors : list aws_byte_cursor) (css : list (list Z)) :
  Forall2 (cursor_ok m) cursors css ->
  exists rv dest cursors' m',
    aws_byte_buf_init_cache_and_update_cursors al cursors m = Ret (rv, dest, cursors') m'
    /\ if SIZE_MAX <? foldr Z.add 0 (map cur_len cursors)
       then rv = AWS_OP_ERR AWS_ERROR_OVERFLOW_DETECTED /\ dest = zero_buf
            /\ cursors' = cursors /\ m' = m
       else rv = AWS_OP_SUCCESS /\ buf_ok m' dest (concat css) /\ buf_owned m' dest
            /\ buf_capacity dest = foldr Z.add 0 (map cur_len cursors)
            /\ Forall3 (cached m' dest) cursors cursors' css
            /\ (forall p n x, bytes_at m p n = Some x -> bytes_at m' p n = Some x).
Proof.
  intros HF. unfold aws_byte_buf_init_cache_and_update_cursors.
  assert (Forall (fun c => 0 <= cur_len c) cursors) as Hnn
    by (clear -HF; induction HF as [| c cs ? ? Hc]; constructor; auto;
        pose proof (cursor_len _ _ _ Hc); lia).
  assert (0 <= foldr Z.add 0 (map cur_len cursors)) by (clear -Hnn; induction Hnn; cbn; lia).
  rewrite cursors_total_len_spec, Z.add_0_l by (auto; lia). set (total := foldr _ _ _) in *.
  destruct (Z.leb_spec total SIZE_MAX) as [Hle | Hgt].
  - rewrite (proj2 (Z.ltb_ge _ _)) by lia.
    destruct (buf_init_spec al m total ltac:(lia))
      as (dest & m1 & Heq & Hok & Hown & Hl & Hcap & Hkeep). run Heq.
    assert (Forall2 (cursor_ok m1) cursors css) as HF1
      by (eapply Forall2_impl; [exact HF |]; intros c cs [Hd Hcl]; constructor; auto;
          now apply Hkeep).
    assert (Forall (outside dest) cursors) as Ho.
    { clear -HF Hkeep. induction HF as [| c cs ? ? Hc]; constructor; auto.
      destruct (Hkeep _ _ _ (co_data _ _ _ Hc)) as [_ Hout]. now destruct c. }
    destruct (cache_cursors_spec cursors m1 dest [] css Hok HF1 Ho)
      as (dest' & cursors' & m' & Heq' & Hok' & Hb & Ha & Hc' & _ & H3 & Hroom);
      [unfold total in *; lia |].
    run Heq'. eexists _, _, _, _. split; [reflexivity |]. split_and!; auto; try lia.
    + exact (owned_stable m1 m' dest dest' Hown (room_blocks _ _ _ Hroom) Hb Ha Hc').
    + intros p n x Hx. destruct (Hkeep p n x Hx) as [Hx1 Hout].
      destruct (Z.eq_dec n 0) as [-> | Hn0]; [exact Hx1 |].
      rewrite (room_frame _ _ _ Hroom); [exact Hx1 |].
      destruct Hout as [E | E]; [cbn in E; lia |]. cbn in E.
      destruct p, (buf_buffer dest); cbn in *; auto. intros ->. destruct E; congruence.
  - rewrite (proj2 (Z.ltb_lt _ _)) by lia.
    rewrite decide_False by (intros ->; unfold total, SIZE_MAX in *; cbn in *; lia).
    eexists _, _, _, _. split; [reflexivity |]. auto.
Qed.

Lemma cache_and_update_cursors_correct_witness :
  exists dest c1 c2 m',
    aws_byte_buf_init_cache_and_update_cursors (mk_allocator true)
      [demo_cursor; mk_cursor 3 (Static [1; 2; 3] 0)] demo_mem
    = Ret (AWS_OP_SUCCESS, dest, [c1; c2]) m'
    /\ buf_ok m' dest [20; 30; 1; 2; 3] /\ cursor_ok m' c1 [20; 30] /\ cursor_ok m' c2 [1; 2; 3].
Proof.
  assert (Forall2 (cursor_ok demo_mem) [demo_cursor; mk_cursor 3 (Static [1; 2; 3] 0)]
            [[20; 30]; [1; 2; 3]]) as HF
    by (repeat constructor; cbn; unfold SIZE_MAX; lia).
  destruct (cache_and_update_cursors_correct (mk_allocator true) demo_mem _ _ HF)
    as (rv & dest & cs' & m' & Heq & -> & Hok & _ & _ & H3 & _).
  inversion H3 as [| ? c1 ? ? l1 ? H1 H3']; subst.
  inversion H3' as [| ? c2 ? ? l2 ? H2 H3'']; subst. inversion H3''; subst.
  exists dest, c1, c2, m'. split; [exact Heq |]. split; [exact Hok |].
  split; [apply H1 | apply H2].
Defined.
