(* ===== verification/ByteCursorSpec.v ===== *)
(** * Byte cursors: advancing, the Spectre mask, big-endian integers

    The branch-free mask of [aws_nospec_mask], the equivalence of the two ways
    to advance a cursor, and the round trip of the big-endian readers and
    writers on hosts of either byte order. *)

From S2P Require Import Prelude Math ByteOrder Memory ByteBuf ByteBufSpec.
Import ByteBuf.

Local Open Scope Z_scope.

(** ** The mask *)

Lemma shiftr_zero_iff a n : 0 <= n -> 0 <= a -> Z.shiftr a n = 0 <-> a < 2 ^ n.
Proof.
  intros Hn Ha. rewrite Z.shiftr_div_pow2 by lia. rewrite Z.div_small_iff by lia. lia.
Qed.

Lemma lor_lt_pow2 a b n : 0 <= n -> 0 <= a -> 0 <= b -> Z.lor a b < 2 ^ n <-> a < 2 ^ n /\ b < 2 ^ n.
Proof.
  intros Hn Ha Hb. rewrite <- !shiftr_zero_iff by (auto; apply Z.lor_nonneg; auto).
  rewrite Z.shiftr_lor. apply Z.lor_eq_0_iff.
Qed.

Lemma nospec_mask_spec index bound :
  is_u64 index -> is_u64 bound ->
  aws_nospec_mask index bound
  = (if (index <? bound) && (index <=? SIZE_MAX / 2) && (bound <=? SIZE_MAX / 2)
     then SIZE_MAX else 0).
Proof.
  unfold is_u64. intros Hi Hb. unfold aws_nospec_mask.
  change (SIZE_MAX - Z.shiftr SIZE_MAX 1) with (2 ^ 63).
  change (SIZE_MAX / 2) with (2 ^ 63 - 1).
  pose proof (u64_range (bound - index - 1)) as Hu. unfold is_u64 in Hu.
  set (big := u64 (bound - index - 1)) in *. set (c := Z.lor _ big).
  assert (0 <= c < 2 ^ 64) as Hc.
  { unfold c. split; [rewrite !Z.lor_nonneg; lia |]. rewrite !lor_lt_pow2; rewrite ?Z.lor_nonneg; lia. }
  assert (c < 2 ^ 63 <-> (index < 2 ^ 63 /\ bound < 2 ^ 63) /\ big < 2 ^ 63) as Htop
    by (unfold c; rewrite !lor_lt_pow2; rewrite ?Z.lor_nonneg; lia).
  assert (index < 2 ^ 63 -> bound < 2 ^ 63 -> big < 2 ^ 63 <-> index < bound) as Hbig.
  { intros H1 H2. unfold big, u64. destruct (Z.lt_ge_cases index bound).
    - rewrite Z.mod_small by lia. lia.
    - rewrite <- (Z.mod_unique (bound - index - 1) (2 ^ 64) (-1) (bound - index - 1 + 2 ^ 64)); lia. }
  unfold not64, SIZE_MAX, u64. destruct (Z.lt_ge_cases c (2 ^ 63)) as [H | H].
  - replace ((2 ^ 64 - 1 - c) / 2 ^ 63) with 1
      by (apply Z.div_unique with (r := 2 ^ 63 - 1 - c); lia).
    apply Htop in H. zcase; reflexivity || (exfalso; lia).
  - rewrite Z.div_small by lia. zcase; reflexivity || (exfalso; lia).
Qed.

(** [aws_nospec_mask] computes, without a branch, all ones when the index
    is below the bound and both are at most [SIZE_MAX / 2], and zero
    otherwise. *)
Theorem nospec_mask_correct (index bound : Z) :
  is_u64 index -> is_u64 bound ->
  aws_nospec_mask index bound
  = (if (index <? bound) && (index <=? SIZE_MAX / 2) && (bound <=? SIZE_MAX / 2)
     then SIZE_MAX else 0).
Proof. exact (nospec_mask_spec index bound). Qed.

Lemma nospec_mask_correct_witness :
  aws_nospec_mask 3 4 = SIZE_MAX /\ aws_nospec_mask 4 4 = 0.
Proof.
  split.
  - rewrite nospec_mask_correct by (unfold is_u64; lia). reflexivity.
  - rewrite nospec_mask_correct by (unfold is_u64; lia). reflexivity.
Defined.

(** ** Advancing *)

Lemma advance_spec cur n :
  0 <= n <= cur_len cur -> cur_len cur <= SIZE_MAX / 2 ->
  aws_byte_cursor_advance cur n
  = (mk_cursor n (cur_ptr cur), mk_cursor (cur_len cur - n) (ptr_add (cur_ptr cur) n)).
Proof.
  intros Hn Hl. unfold aws_byte_cursor_advance. change (Z.shiftr SIZE_MAX 1) with (2 ^ 63 - 1).
  change (SIZE_MAX / 2) with (2 ^ 63 - 1) in Hl. zcase.
  rewrite u64_small by (unfold is_u64; lia). now destruct (cur_ptr cur).
Qed.

Lemma advance_nospec_equiv cur n :
  is_u64 n -> 0 <= cur_len cur -> cur_len cur <> SIZE_MAX / 2 ->
  aws_byte_cursor_advance_nospec cur n = aws_byte_cursor_advance cur n.
Proof.
  unfold is_u64. intros Hn Hl Hedge.
  unfold aws_byte_cursor_advance_nospec, aws_byte_cursor_advance.
  change (Z.shiftr SIZE_MAX 1) with (2 ^ 63 - 1). change (SIZE_MAX / 2) with (2 ^ 63 - 1) in Hedge.
  zcase; try reflexivity. rewrite (u64_small (cur_len cur + 1)) by (unfold is_u64; lia).
  rewrite nospec_mask_spec by (unfold is_u64; lia).
  change (SIZE_MAX / 2) with (2 ^ 63 - 1). zcase.
  unfold ptr_and. rewrite (Z.eqb_refl SIZE_MAX). change SIZE_MAX with (Z.ones 64).
  assert (forall x, 0 <= x < 2 ^ 64 -> Z.land x (Z.ones 64) = x) as Hland
    by (intros x Hx; rewrite Z.land_ones by lia; now apply Z.mod_small).
  rewrite !Hland by (rewrite ?Hland; lia). reflexivity.
Qed.

(** advancing with the Spectre mitigation and advancing without are the
    same function on every cursor but the one of length exactly
    [SIZE_MAX / 2]. *)
Theorem advance_nospec_equivalent (cur : aws_byte_cursor) (n : Z) :
  is_u64 n -> is_u64 (cur_len cur) -> cur_len cur <> SIZE_MAX / 2 ->
  aws_byte_cursor_advance_nospec cur n = aws_byte_cursor_advance cur n.
Proof. intros Hn [Hl _] He. now apply advance_nospec_equiv. Qed.

Lemma advance_nospec_equivalent_witness :
  aws_byte_cursor_advance_nospec (mk_cursor 5 (Ptr 1 0)) 2
  = (mk_cursor 2 (Ptr 1 0), mk_cursor 3 (Ptr 1 2)).
Proof.
  rewrite advance_nospec_equivalent.
  - reflexivity.
  - unfold is_u64. lia.
  - unfold is_u64. cbn. lia.
  - cbn. discriminate.
Defined.

(** At that length the mask is zero and the mitigated version empties the
    cursor it should have advanced. *)
Theorem advance_nospec_edge (p : ptr) (n : Z) :
  is_u64 n -> n <= SIZE_MAX / 2 ->
  aws_byte_cursor_advance_nospec (mk_cursor (SIZE_MAX / 2) p) n = (zero_cursor, zero_cursor).
Proof.
  unfold is_u64. intros Hn Hl. unfold aws_byte_cursor_advance_nospec. cbn [cur_len cur_ptr].
  change (Z.shiftr SIZE_MAX 1) with (2 ^ 63 - 1). change (SIZE_MAX / 2) with (2 ^ 63 - 1) in *.
  zcase. rewrite (u64_small (2 ^ 63 - 1 + 1)) by (unfold is_u64; lia).
  rewrite nospec_mask_spec by (unfold is_u64; lia).
  change (SIZE_MAX / 2) with (2 ^ 63 - 1). zcase. unfold ptr_and. cbn [Z.eqb].
  rewrite !Z.land_0_r. reflexivity.
Qed.

(** ** Reading and writing *)

Lemma readable_not_null m p n cs : bytes_at m p n = Some cs -> 0 < n -> is_NULL p = false.
Proof.
  intros H Hn. unfold bytes_at in H. rewrite (proj2 (Z.eqb_neq _ _)) in H by lia. now destruct p.
Qed.

Lemma cursor_read_ok m cur cs dest n bs :
  cursor_ok m cur cs -> cur_len cur < SIZE_MAX / 2 -> 0 < n <= cur_len cur ->
  slice cs 0 n = Some bs -> writable m dest n -> disjoint_ranges dest n (cur_ptr cur) n ->
  exists m', aws_byte_cursor_read cur dest n m
             = Ret (true, mk_cursor (cur_len cur - n) (ptr_add (cur_ptr cur) n)) m'
    /\ written m dest bs m'.
Proof.
  intros [Hd Hcl] Hlt Hn Hs Hw Hdis. unfold aws_byte_cursor_read.
  rewrite (proj2 (Z.eqb_neq n 0)) by lia. change (SIZE_MAX / 2) with (2 ^ 63 - 1) in *.
  rewrite advance_nospec_equiv
    by (unfold is_u64; change (SIZE_MAX / 2) with (2 ^ 63 - 1); lia).
  rewrite advance_spec by (change (SIZE_MAX / 2) with (2 ^ 63 - 1); lia). cbn [cur_ptr].
  rewrite (readable_not_null m _ _ cs Hd) by lia.
  destruct (memcpy_ok m dest (cur_ptr cur) n bs) as (m' & Heq & Hwr); auto.
  { rewrite (bytes_at_prefix m _ _ cs n Hd) by lia. exact Hs. }
  run Heq. exists m'. split; [reflexivity | exact Hwr].
Qed.

Lemma buf_write_ok m buf bs src cs :
  buf_ok m buf bs -> bytes_at m src (zlength cs) = Some cs -> 0 < zlength cs ->
  buf_len buf + zlength cs <= buf_capacity buf -> buf_capacity buf <= SIZE_MAX / 2 ->
  disjoint_ranges (ptr_add (buf_buffer buf) (buf_len buf)) (zlength cs) src (zlength cs) ->
  exists m', aws_byte_buf_write buf src (zlength cs) m
             = Ret (true, set_len buf (buf_len buf + zlength cs)) m'
    /\ buf_ok m' (set_len buf (buf_len buf + zlength cs)) (bs ++ cs)
    /\ written m (ptr_add (buf_buffer buf) (buf_len buf)) cs m'.
Proof.
  intros Hok Hs Hpos Hfit Hcap Hd. pose proof (bo_len _ _ _ Hok).
  change (SIZE_MAX / 2) with (2 ^ 63 - 1) in Hcap. unfold aws_byte_buf_write.
  change (Z.shiftr SIZE_MAX 1) with (2 ^ 63 - 1).
  rewrite u64_small by (unfold is_u64; lia). zcase.
  destruct (memcpy_ok m (ptr_add (buf_buffer buf) (buf_len buf)) src (zlength cs) cs)
    as (m' & Heq & Hw); auto.
  { apply (writable_sub _ _ (buf_capacity buf)); try lia. apply (bo_room _ _ _ Hok). }
  run Heq. exists m'. split_and!; auto. now apply (buf_ok_extend m).
Qed.

(** A write that does not fit reports failure and changes nothing. *)
Lemma buf_write_full m buf bs src n :
  buf_ok m buf bs -> is_u64 n -> 0 < n -> buf_capacity buf < buf_len buf + n ->
  aws_byte_buf_write buf src n m = Ret (false, buf) m.
Proof.
  intros Hok Hn Hpos Hbig. pose proof (bo_len _ _ _ Hok). unfold aws_byte_buf_write, is_u64 in *.
  change (Z.shiftr SIZE_MAX 1) with (2 ^ 63 - 1). rewrite (proj2 (Z.eqb_neq n 0)) by lia.
  destruct (Z.ltb_spec (2 ^ 63 - 1) (buf_len buf)); [reflexivity |].
  destruct (Z.ltb_spec (2 ^ 63 - 1) n); [reflexivity |]. cbn [orb].
  rewrite u64_small by (unfold is_u64; lia). zcase. reflexivity.
Qed.

Lemma bind_assoc_step {A B C} (e : M A) (f : A -> M B) (g : B -> M C) m :
  (x ← (a ← e; f a); g x) m = (a ← e; x ← f a; g x) m.
Proof. unfold mbind, M_bind. now destruct (e m). Qed.

Section host.
Context (be : bool).

Lemma convert_in_place_ok m n convert var bs :
  bytes_at m var (Z.of_nat n) = Some bs -> writable m var (Z.of_nat n) ->
  exists m', convert_in_place be n convert var m = Ret tt m'
    /\ written m var (host_bytes be n (convert (host_value be bs))) m'.
Proof.
  intros Hb Hw. unfold convert_in_place. run (load_ok _ _ _ _ Hb). apply store_ok.
  unfold zlength. now rewrite host_bytes_length.
Qed.

(** A conversion that is the byte swap on values of [n] bytes. *)
Definition is_ntoh (n : nat) (convert : Z -> Z) : Prop :=
  forall x, 0 <= x < 2 ^ (8 * Z.of_nat n) -> convert x = hton be n x.

Lemma zlength_be_split n x : zlength (be_split n x) = Z.of_nat n.
Proof. unfold zlength. now rewrite be_split_length. Qed.

(** Big-endian bytes in place become the host's bytes of the value. *)
Lemma convert_network_ok m n convert var x :
  is_ntoh n convert -> 0 <= x < 2 ^ (8 * Z.of_nat n) ->
  bytes_at m var (Z.of_nat n) = Some (be_split n x) -> writable m var (Z.of_nat n) ->
  exists m', convert_in_place be n convert var m = Ret tt m'
    /\ bytes_at m' var (Z.of_nat n) = Some (host_bytes be n x).
Proof.
  intros Hconv Hx Hb Hw.
  destruct (convert_in_place_ok m n convert var (be_split n x) Hb Hw) as (m' & Heq & Hw').
  exists m'. split; [exact Heq |].
  assert (convert (host_value be (be_split n x)) = x) as E.
  { pose proof (hton_host_value be (be_split n x) (be_split_bytes n x)) as H.
    rewrite be_split_length in H. rewrite Hconv.
    - rewrite H. unfold be_split. rewrite rev_involutive, le_combine_split. now apply Z.mod_small.
    - pose proof (le_combine_bound _ (be_split_bytes n x)) as H1.
      pose proof (le_combine_bound _ (Forall_rev (be_split_bytes n x))) as H2.
      rewrite zlength_perm_rev in H2. rewrite zlength_be_split in H1, H2.
      unfold host_value. now destruct be. }
  rewrite E in Hw'. pose proof (written_same _ _ _ _ Hw') as Hb'. unfold zlength in Hb'.
  now rewrite host_bytes_length in Hb'.
Qed.

Lemma read_and_convert_ok m n convert cur var x :
  is_ntoh n convert -> (0 < n)%nat -> 0 <= x < 2 ^ (8 * Z.of_nat n) ->
  cursor_ok m cur (be_split n x) -> Z.of_nat n < SIZE_MAX / 2 ->
  writable m var (Z.of_nat n) -> disjoint_ranges var (Z.of_nat n) (cur_ptr cur) (Z.of_nat n) ->
  exists cur' m', read_and_convert be n convert cur var m = Ret (true, cur') m'
    /\ cur_len cur' = 0 /\ bytes_at m' var (Z.of_nat n) = Some (host_bytes be n x).
Proof.
  intros Hconv Hn Hx Hc Hsm Hw Hd. pose proof (cursor_len _ _ _ Hc) as [_ Hz].
  rewrite zlength_be_split in Hz.
  destruct (cursor_read_ok m cur (be_split n x) var (Z.of_nat n) (be_split n x))
    as (m1 & Heq & Hw1); auto; try lia.
  { rewrite <- (zlength_be_split n x). apply slice_full. }
  unfold read_and_convert. run Heq. pose proof (written_same _ _ _ _ Hw1) as Hb.
  rewrite zlength_be_split in Hb.
  destruct (convert_network_ok m1 n convert var x) as (m2 & Heq2 & Hb2); auto.
  { now apply (written_writable _ _ _ _ _ _ Hw1). }
  run Heq2. eexists _, m2. split; [reflexivity |]. split; [cbn; lia | exact Hb2].
Qed.

Lemma be_split_24 x : 0 <= x < 2 ^ 24 -> be_split 4 x = 0 :: be_split 3 x.
Proof.
  intros Hx. unfold be_split. rewrite (le_split_app 3 1), rev_app_distr.
  change (8 * Z.of_nat 3) with 24. rewrite Z.div_small by lia. reflexivity.
Qed.

Lemma read_be24_ok m cur var x :
  0 <= x < 2 ^ 24 -> cursor_ok m cur (be_split 3 x) -> writable m var 4 ->
  disjoint_ranges var 4 (cur_ptr cur) 3 ->
  exists cur' m', aws_byte_cursor_read_be24 be cur var m = Ret (true, cur') m'
    /\ cur_len cur' = 0 /\ bytes_at m' var 4 = Some (host_bytes be 4 x).
Proof.
  intros Hx Hc Hw Hd. pose proof (cursor_len _ _ _ Hc) as [_ Hz]. rewrite zlength_be_split in Hz.
  destruct (cursor_read_ok m cur (be_split 3 x) (ptr_add var 1) 3 (be_split 3 x))
    as (m1 & Heq & Hw1); auto; try lia.
  { rewrite <- Hz. reflexivity. }
  { now apply (writable_sub m var 4 1 3). }
  { destruct var, (cur_ptr cur); cbn in *; auto. lia. }
  unfold aws_byte_cursor_read_be24. run Heq. pose proof (written_same _ _ _ _ Hw1) as Hb1.
  pose proof (written_writable _ _ _ _ _ _ Hw1 Hw) as Hwr1.
  destruct (store_ok m1 var [0]) as (m2 & Heq2 & Hw2).
  { pose proof (writable_sub m1 var 4 0 1 Hwr1) as H. rewrite ptr_add_0 in H. now apply H. }
  rewrite bind_assoc_step. run Heq2.
  assert (bytes_at m2 var 4 = Some (be_split 4 x)) as Hb2.
  { rewrite be_split_24 by exact Hx. apply (bytes_at_app m2 var 1 3 [0] (be_split 3 x)).
    - exact (written_same _ _ _ _ Hw2).
    - rewrite (written_frame _ _ _ _ _ _ Hw2); [exact Hb1 |]. destruct var; cbn; auto.
      intros _. right. unfold zlength. cbn. lia. }
  destruct (convert_network_ok m2 4 (aws_ntoh32 be) var x) as (m3 & Heq3 & Hb3); auto.
  { now intros y _. }
  { cbn. lia. }
  { exact (written_writable _ _ _ _ _ _ Hw2 Hwr1). }
  run Heq3. eexists _, m3. split; [reflexivity |]. split; [cbn; lia | exact Hb3].
Qed.

End host.

(** ** The round trip *)

(** The big-endian formats the library reads and writes. *)
Inductive be_format := BE16 | BE24 | BE32 | BE64 | BEF32 | BEF64.

(** Bytes on the wire, and bytes of the variable. *)
Definition wire_bytes (f : be_format) : nat :=
  match f with BE16 => 2 | BE24 => 3 | BE32 | BEF32 => 4 | BE64 | BEF64 => 8 end.
Definition object_bytes (f : be_format) : nat :=
  match f with BE16 => 2 | BE24 | BE32 | BEF32 => 4 | BE64 | BEF64 => 8 end.

Definition write_be (be : bool) (f : be_format) : aws_byte_buf -> Z -> M (bool * aws_byte_buf) :=
  match f with
  | BE16 => aws_byte_buf_write_be16 be
  | BE24 => aws_byte_buf_write_be24 be
  | BE32 => aws_byte_buf_write_be32 be
  | BE64 => aws_byte_buf_write_be64 be
  | BEF32 => aws_byte_buf_write_float_be32 be
  | BEF64 => aws_byte_buf_write_float_be64 be
  end.

Definition read_be (be : bool) (f : be_format) : aws_byte_cursor -> ptr -> M (bool * aws_byte_cursor) :=
  match f with
  | BE16 => aws_byte_cursor_read_be16 be
  | BE24 => aws_byte_cursor_read_be24 be
  | BE32 => aws_byte_cursor_read_be32 be
  | BE64 => aws_byte_cursor_read_be64 be
  | BEF32 => aws_byte_cursor_read_float_be32 be
  | BEF64 => aws_byte_cursor_read_float_be64 be
  end.

Lemma write_static m buf bs data o cs :
  buf_ok m buf bs -> slice data o (zlength cs) = Some cs -> 0 < zlength cs ->
  buf_len buf + zlength cs <= buf_capacity buf -> buf_capacity buf <= SIZE_MAX / 2 ->
  exists m', aws_byte_buf_write buf (Static data o) (zlength cs) m
             = Ret (true, set_len buf (buf_len buf + zlength cs)) m'
    /\ buf_ok m' (set_len buf (buf_len buf + zlength cs)) (bs ++ cs)
    /\ written m (ptr_add (buf_buffer buf) (buf_len buf)) cs m'.
Proof.
  intros Hok Hs Hpos Hfit Hcap. apply buf_write_ok; auto.
  - unfold bytes_at. now rewrite (proj2 (Z.eqb_neq _ _)) by lia.
  - now destruct (ptr_add _ _).
Qed.

Lemma write_be_ok be f m buf bs x :
  buf_ok m buf bs -> 0 <= x < 2 ^ (8 * Z.of_nat (wire_bytes f)) ->
  buf_len buf + Z.of_nat (wire_bytes f) <= buf_capacity buf -> buf_capacity buf <= SIZE_MAX / 2 ->
  exists m', write_be be f buf x m
             = Ret (true, set_len buf (buf_len buf + Z.of_nat (wire_bytes f))) m'
    /\ buf_ok m' (set_len buf (buf_len buf + Z.of_nat (wire_bytes f)))
         (bs ++ be_split (wire_bytes f) x)
    /\ written m (ptr_add (buf_buffer buf) (buf_len buf)) (be_split (wire_bytes f) x) m'.
Proof.
  intros Hok Hx Hfit Hcap.
  assert (forall n, (0 < n)%nat -> slice (host_bytes be n (hton be n x)) 0 (Z.of_nat n)
                    = Some (be_split n x)) as Hall.
  { intros n Hn. rewrite host_bytes_hton, <- (zlength_be_split n x). apply slice_full. }
  destruct f; cbn [write_be wire_bytes] in *;
    unfold aws_byte_buf_write_be16, aws_byte_buf_write_be32, aws_byte_buf_write_be64,
      aws_byte_buf_write_float_be32, aws_byte_buf_write_float_be64, aws_byte_buf_write_be24.
  2: { change (Z.of_nat 3) with 3 in *. change (8 * 3) with 24 in Hx. zcase.
       apply (write_static m buf bs _ 1 (be_split 3 x)); auto; [| reflexivity].
       unfold aws_hton32. rewrite host_bytes_hton, be_split_24 by lia. reflexivity. }
  all: unfold aws_hton16, aws_hton32;
    rewrite ?(hton64_spec be x), ?(htonf32_spec be x), ?(htonf64_spec be x)
      by (unfold is_u32, is_u64; cbn in Hx; lia).
  all: match goal with |- context [be_split ?n ?y] =>
    apply (write_static m buf bs _ 0 (be_split n y)); auto; first [apply (Hall n); lia | reflexivity] end.
Qed.

Lemma read_be_ok be f m cur var x :
  0 <= x < 2 ^ (8 * Z.of_nat (wire_bytes f)) -> cursor_ok m cur (be_split (wire_bytes f) x) ->
  writable m var (Z.of_nat (object_bytes f)) ->
  disjoint_ranges var (Z.of_nat (object_bytes f)) (cur_ptr cur) (Z.of_nat (wire_bytes f)) ->
  exists cur' m', read_be be f cur var m = Ret (true, cur') m' /\ cur_len cur' = 0
    /\ bytes_at m' var (Z.of_nat (object_bytes f)) = Some (host_bytes be (object_bytes f) x).
Proof.
  intros Hx Hc Hw Hd. destruct f; cbn [read_be wire_bytes object_bytes] in *;
    [| now apply read_be24_ok | | | |];
    apply read_and_convert_ok; auto; try lia; try reflexivity; intros y Hy; try reflexivity.
  - apply hton64_spec. exact Hy.
  - apply htonf32_spec. exact Hy.
  - apply htonf64_spec. exact Hy.
Qed.

(** on a host of either byte order, every big-endian writer (16, 24, 32,
    64 bits and both floats) appends the most significant byte first, and the
    matching reader returns the value that was written and consumes exactly
    those bytes. *)
Theorem big_endian_roundtrip (be : bool) (f : be_format) (m : mem) (buf : aws_byte_buf)
    (bs : list Z) (x : Z) (var : ptr) :
  buf_ok m buf bs -> 0 <= x < 2 ^ (8 * Z.of_nat (wire_bytes f)) ->
  buf_len buf + Z.of_nat (wire_bytes f) <= buf_capacity buf -> buf_capacity buf <= SIZE_MAX / 2 ->
  writable m var (Z.of_nat (object_bytes f)) -> ptr_block var <> ptr_block (buf_buffer buf) ->
  exists buf' m1 cur' m2,
    write_be be f buf x m = Ret (true, buf') m1
    /\ buf_ok m1 buf' (bs ++ be_split (wire_bytes f) x)
    /\ read_be be f
         (mk_cursor (Z.of_nat (wire_bytes f)) (ptr_add (buf_buffer buf) (buf_len buf))) var m1
       = Ret (true, cur') m2
    /\ cur_len cur' = 0
    /\ host_value be <$> bytes_at m2 var (Z.of_nat (object_bytes f)) = Some x.
Proof.
  intros Hok Hx Hfit Hcap Hw Hne.
  destruct (write_be_ok be f m buf bs x Hok Hx Hfit Hcap) as (m1 & Heq & Hok1 & Hw1).
  destruct (read_be_ok be f m1
    (mk_cursor (Z.of_nat (wire_bytes f)) (ptr_add (buf_buffer buf) (buf_len buf))) var x)
    as (cur' & m2 & Heq2 & Hl & Hb); auto.
  - constructor; cbn; [| destruct f; cbn; unfold SIZE_MAX; lia].
    rewrite <- (zlength_be_split (wire_bytes f) x). exact (written_same _ _ _ _ Hw1).
  - exact (written_writable _ _ _ _ _ _ Hw1 Hw).
  - destruct var, (buf_buffer buf); cbn in *; auto. congruence.
  - eexists _, m1, cur', m2. split; [exact Heq |]. split_and!; auto.
    rewrite Hb. cbn. rewrite host_value_bytes; [reflexivity |].
    destruct f; cbn [wire_bytes object_bytes] in *; lia.
Qed.

Lemma big_endian_roundtrip_witness :
  let m := mk_mem {[1%positive := [0; 0; 0; 0; 0]; 2%positive := [9; 9; 9; 9]]} (fun _ _ => 0) [] in
  let buf := mk_buf 1 (Ptr 1 0) 5 None in
  exists buf' m1, write_be false BE24 buf 0xAABBCC m = Ret (true, buf') m1
    /\ buf_ok m1 buf' [0; 0xAA; 0xBB; 0xCC].
Proof.
  intros m buf.
  assert (buf_ok m buf [0]) as Hok.
  { constructor; cbn; try reflexivity; try (unfold SIZE_MAX; lia).
    right. exists 1%positive, 0, [0; 0; 0; 0; 0]. unfold zlength. cbn. split_and!; auto; lia. }
  assert (writable m (Ptr 2 0) (Z.of_nat (object_bytes BE24))) as Hw
    by (right; exists 2%positive, 0, [9; 9; 9; 9]; unfold zlength; cbn; split_and!; auto; lia).
  destruct (big_endian_roundtrip false BE24 m buf [0] 0xAABBCC (Ptr 2 0) Hok)
    as (buf' & m1 & cur' & m2 & Heq & Hok' & _).
  - cbn. lia.
  - cbn. lia.
  - unfold Z.le. discriminate.
  - exact Hw.
  - discriminate.
  - exists buf', m1. split; [exact Heq | exact Hok'].
Defined.
