(* ===== verification/ByteCursorText.v ===== *)
(** * Byte cursors: splitting, searching, trimming, comparing, parsing

    Each function against a definition on plain lists of bytes. *)

From S2P Require Import Prelude Math ByteOrder Memory ByteBuf ByteBufSpec ByteCursorSpec.
Import ByteBuf.

Local Open Scope Z_scope.

(** ** Reading single bytes and scanning *)

Lemma slice_one {A} (l : list A) i x : 0 <= i -> l !! Z.to_nat i = Some x -> slice l i 1 = Some [x].
Proof.
  intros Hi H. pose proof (lookup_lt_Some _ _ _ H). rewrite slice_Some by (unfold zlength; lia).
  f_equal. change (Z.to_nat 1) with 1%nat. rewrite (drop_S _ _ _ H). reflexivity.
Qed.

Lemma load_u8_at m p n l i x :
  bytes_at m p n = Some l -> 0 <= i -> l !! Z.to_nat i = Some x ->
  load_u8 (ptr_add p i) m = Ret x m.
Proof.
  intros H Hi Hx. apply load_u8_ok. pose proof (bytes_at_length _ _ _ _ H) as [Hl _].
  apply lookup_lt_Some in Hx as Hlt. unfold zlength in Hl.
  rewrite (bytes_at_sub m p n l i 1 H) by lia. now apply slice_one.
Qed.

Lemma index_of_Some c l i :
  index_of c l = Some i ->
  0 <= i < zlength l /\ l !! Z.to_nat i = Some c /\ c ∉ take (Z.to_nat i) l.
Proof.
  revert i. induction l as [| x l IH]; intros i; cbn [index_of]; [discriminate |].
  destruct (Z.eqb_spec x c) as [-> | Hne].
  - intros [= <-]. rewrite zlength_cons. pose proof (zlength_nonneg l).
    split_and!; try lia; [reflexivity | apply not_elem_of_nil].
  - destruct (index_of c l) as [j |]; [| discriminate]. intros [= <-].
    destruct (IH j eq_refl) as (Hj & Hlk & Hnot). rewrite zlength_cons.
    rewrite Z2Nat.inj_succ by lia. split_and!; try lia; [exact Hlk |].
    cbn. apply not_elem_of_cons. split; [congruence | exact Hnot].
Qed.

Lemma index_of_None c l : index_of c l = None -> c ∉ l.
Proof.
  induction l as [| x l IH]; cbn [index_of]; [intros _; apply not_elem_of_nil |].
  destruct (Z.eqb_spec x c); [discriminate |]. destruct (index_of c l); [discriminate |].
  intros _. apply not_elem_of_cons. split; [congruence | auto].
Qed.

Lemma memchr_ok m p c n l :
  bytes_at m p n = Some l ->
  memchr p c n m = Ret (match index_of c l with Some i => ptr_add p i | None => NULL end) m.
Proof. intros H. unfold memchr. run (load_ok _ _ _ _ H). reflexivity. Qed.

Lemma is_NULL_add p i : is_NULL (ptr_add p i) = is_NULL p.
Proof. now destruct p. Qed.

Lemma ptr_diff_add p i j m : is_NULL p = false -> ptr_diff (ptr_add p i) (ptr_add p j) m = Ret (i - j) m.
Proof.
  intros Hp. unfold ptr_diff, ptr_sub. destruct p as [| b o | d o]; [discriminate | |]; cbn;
    rewrite decide_True by reflexivity; f_equal; lia.
Qed.

Lemma ptr_diff_base p i m : is_NULL p = false -> ptr_diff (ptr_add p i) p m = Ret i m.
Proof.
  intros Hp. rewrite <- (ptr_add_0 p) at 2. rewrite ptr_diff_add by exact Hp. f_equal. lia.
Qed.

(** The rest of a readable range. *)
Lemma bytes_at_drop m p n l o :
  bytes_at m p n = Some l -> 0 <= o <= n ->
  bytes_at m (ptr_add p o) (n - o) = Some (drop (Z.to_nat o) l).
Proof.
  intros H Ho. pose proof (bytes_at_length _ _ _ _ H) as [Hl _].
  rewrite (bytes_at_sub m p n l o (n - o) H), slice_Some by lia. f_equal. unfold zlength in Hl.
  apply firstn_all2. rewrite length_drop. lia.
Qed.

(** ** Splitting *)

(** The pieces of [l] between the first [k] separators [c]; the last piece
    takes the rest. [cur] holds the piece being read, reversed. *)
Fixpoint split_spec (c k : Z) (cur l : list Z) : list (list Z) :=
  match l with
  | [] => [rev cur]
  | x :: l =>
      if (x =? c) && (0 <? k) then rev cur :: split_spec c (k - 1) [] l
      else split_spec c k (x :: cur) l
  end.

Definition split_list (c k : Z) (l : list Z) : list (list Z) := split_spec c k [] l.

(** Pieces joined by the separator. *)
Fixpoint join (c : Z) (ps : list (list Z)) : list Z :=
  match ps with
  | [] => []
  | [p] => p
  | p :: ps => p ++ c :: join c ps
  end.

Lemma split_spec_nonempty c k cur l : split_spec c k cur l <> [].
Proof. revert k cur. induction l; intros; cbn; [discriminate |]. destruct (_ && _); [discriminate | auto]. Qed.

Lemma join_cons c p ps : ps <> [] -> join c (p :: ps) = p ++ c :: join c ps.
Proof. now destruct ps. Qed.

Lemma split_spec_join c l : forall k cur, join c (split_spec c k cur l) = rev cur ++ l.
Proof.
  induction l as [| x l IH]; intros k cur; cbn [split_spec].
  - now rewrite app_nil_r.
  - destruct (Z.eqb_spec x c) as [-> | Hne]; cbn [andb].
    + destruct (0 <? k).
      * rewrite join_cons by apply split_spec_nonempty. now rewrite IH.
      * rewrite IH. cbn. now rewrite <- app_assoc.
    + rewrite IH. cbn. now rewrite <- app_assoc.
Qed.

Lemma split_spec_clean c l : forall k cur,
  zlength l <= k -> c ∉ cur -> Forall (fun p => c ∉ p) (split_spec c k cur l).
Proof.
  induction l as [| x l IH]; intros k cur Hk Hcur; cbn [split_spec].
  - repeat constructor. rewrite list_elem_of_In, <- in_rev, <- list_elem_of_In. exact Hcur.
  - rewrite zlength_cons in Hk. pose proof (zlength_nonneg l).
    destruct (Z.eqb_spec x c) as [-> | Hne]; cbn [andb].
    + rewrite (proj2 (Z.ltb_lt 0 k)) by lia. constructor.
      * rewrite list_elem_of_In, <- in_rev, <- list_elem_of_In. exact Hcur.
      * apply IH; [lia | apply not_elem_of_nil].
    + apply IH; [lia |]. apply not_elem_of_cons. auto.
Qed.

Lemma split_spec_length c l : forall k cur,
  0 <= k -> zlength (split_spec c k cur l) <= k + 1.
Proof.
  induction l as [| x l IH]; intros k cur Hk; cbn [split_spec].
  - rewrite zlength_cons, zlength_nil. lia.
  - destruct (x =? c), (Z.ltb_spec 0 k); cbn [andb]; try (apply IH; lia).
    rewrite zlength_cons. specialize (IH (k - 1) [] ltac:(lia)). lia.
Qed.

(** The pieces by the next separator, as the code finds it. *)
Lemma split_spec_stop c l : forall k cur,
  k <= 0 \/ index_of c l = None -> split_spec c k cur l = [rev cur ++ l].
Proof.
  induction l as [| x l IH]; intros k cur H; cbn [split_spec].
  - now rewrite app_nil_r.
  - cbn [index_of] in H. assert ((x =? c) && (0 <? k) = false) as ->.
    { destruct H as [H | H]; [rewrite (proj2 (Z.ltb_ge 0 k)) by lia; apply andb_false_r |].
      now destruct (x =? c). }
    rewrite IH; [cbn; now rewrite <- app_assoc |].
    destruct H as [H | H]; [now left | right]. destruct (x =? c); [discriminate |].
    now destruct (index_of c l).
Qed.

Lemma split_spec_next c l : forall k cur i,
  0 < k -> index_of c l = Some i ->
  split_spec c k cur l
  = (rev cur ++ take (Z.to_nat i) l) :: split_list c (k - 1) (drop (Z.to_nat (i + 1)) l).
Proof.
  induction l as [| x l IH]; intros k cur i Hk H; cbn [index_of split_spec] in *; [discriminate |].
  destruct (Z.eqb_spec x c) as [-> | Hne].
  - injection H as <-. rewrite (proj2 (Z.ltb_lt 0 k)) by lia. cbn. now rewrite app_nil_r.
  - destruct (index_of c l) as [j |] eqn:E; [| discriminate]. injection H as <-.
    apply index_of_Some in E as Hj. cbn [andb]. rewrite (IH k (x :: cur) j Hk eq_refl).
    replace (Z.to_nat (Z.succ j)) with (S (Z.to_nat j)) by lia.
    replace (Z.to_nat (Z.succ j + 1)) with (S (Z.to_nat (j + 1))) by lia.
    cbn. now rewrite <- app_assoc.
Qed.

Section split_proof.
Context (m : mem) (input : aws_byte_cursor) (l : list Z) (c : Z).
Hypothesis (Hin : cursor_ok m input l) (Hnn : is_NULL (cur_ptr input) = false).
Hypothesis (Hlen : cur_len input <= SIZE_MAX / 2).

(** [substr] is in the state from which the next piece starts at offset [o]:
    zeroed at the start, the previous piece afterwards. *)
Definition resume_at (substr : aws_byte_cursor) (o : Z) : Prop :=
  (o = 0 /\ cur_ptr substr = NULL)
  \/ (exists s, cur_ptr substr = ptr_add (cur_ptr input) s /\ 0 <= s /\ 0 <= cur_len substr
                /\ s + cur_len substr + 1 = o).

Lemma input_len : 0 <= cur_len input < 2 ^ 63 /\ zlength l = cur_len input.
Proof.
  pose proof (cursor_len _ _ _ Hin) as [H1 H2]. change (SIZE_MAX / 2) with (2 ^ 63 - 1) in Hlen. lia.
Qed.

(** How far the piece that starts at [o] goes. *)
Definition piece_len (o : Z) : Z :=
  default (cur_len input - o) (index_of c (drop (Z.to_nat o) l)).

Lemma next_split_step substr o :
  resume_at substr o -> 0 <= o <= cur_len input ->
  aws_byte_cursor_next_split input c substr m
  = Ret (true, mk_cursor (piece_len o) (ptr_add (cur_ptr input) o)) m.
Proof.
  intros Hat Ho. pose proof input_len as [Hl Hz]. unfold aws_byte_cursor_next_split. rewrite Hnn.
  assert (forall (f : option aws_byte_cursor -> M (bool * aws_byte_cursor)),
    (remainder ←
      (if is_NULL (cur_ptr substr) then mret (Some input)
       else
         let p := ptr_add (cur_ptr substr) (u64 (cur_len substr + 1)) in
         d ← ptr_diff p (cur_ptr input);
         mret (if (cur_len input <? d) || (d <? 0) then None
               else Some (mk_cursor (u64 (cur_len input - d)) p)));
     f remainder) m = f (Some (mk_cursor (cur_len input - o) (ptr_add (cur_ptr input) o))) m) as Hrem.
  { intros f. destruct Hat as [[-> ->] | (s & -> & Hs & Hsl & Heq)].
    - cbn [is_NULL]. unfold mbind, M_bind, mret, M_ret. rewrite ptr_add_0, Z.sub_0_r. now destruct input.
    - rewrite is_NULL_add, Hnn. cbv zeta. rewrite u64_small by (unfold is_u64; lia).
      rewrite ptr_add_add. replace (s + (cur_len substr + 1)) with o by lia.
      unfold mbind, M_bind. rewrite (ptr_diff_base _ o m Hnn). zcase.
      rewrite u64_small by (unfold is_u64; lia). reflexivity. }
  rewrite Hrem. cbn [cur_ptr cur_len].
  pose proof (bytes_at_drop m _ _ l o (co_data _ _ _ Hin) Ho) as Hd.
  unfold mbind, M_bind. rewrite (memchr_ok _ _ c _ _ Hd). unfold piece_len.
  destruct (index_of c (drop (Z.to_nat o) l)) as [i |]; [| reflexivity].
  rewrite !is_NULL_add, Hnn, (ptr_diff_base _ i m) by (now rewrite is_NULL_add). reflexivity.
Qed.

Lemma next_split_end substr :
  resume_at substr (cur_len input + 1) ->
  aws_byte_cursor_next_split input c substr m = Ret (false, zero_cursor) m.
Proof.
  intros Hat. pose proof input_len as [Hl Hz]. unfold aws_byte_cursor_next_split. rewrite Hnn.
  destruct Hat as [[H _] | (s & -> & Hs & Hsl & Heq)]; [lia |].
  rewrite is_NULL_add, Hnn, u64_small, ptr_add_add by (unfold is_u64; lia).
  unfold mbind, M_bind. rewrite (ptr_diff_base _ _ m Hnn). zcase. reflexivity.
Qed.

Lemma piece_cursor o n :
  0 <= o -> 0 <= n -> o + n <= cur_len input ->
  cursor_ok m (mk_cursor n (ptr_add (cur_ptr input) o)) (take (Z.to_nat n) (drop (Z.to_nat o) l)).
Proof.
  intros Ho Hn Hon. pose proof input_len as [Hl Hz].
  constructor; cbn [cur_ptr cur_len]; [| unfold SIZE_MAX; lia].
  rewrite (bytes_at_sub m _ _ l o n (co_data _ _ _ Hin)), slice_Some by lia. reflexivity.
Qed.

Context {L : Type} `{PushBack L aws_byte_cursor}.

(** The pushed cursors read, in order, the first pieces of [ps]; all of them
    when the status is success. *)
Definition pushed (out : L) (ps : list (list Z)) (rv : op_result) (out' : L) : Prop :=
  exists cs, items out' = items out ++ cs
    /\ Forall2 (cursor_ok m) cs (take (length cs) ps)
    /\ match rv with
       | AWS_OP_SUCCESS => length cs = length ps
       | AWS_OP_ERR _ => (length cs < length ps)%nat
       end.

Lemma pushed_nil out : pushed out [] AWS_OP_SUCCESS out.
Proof. exists []. rewrite app_nil_r. now split_and!. Qed.

(** Push one piece, then go on with [K]. *)
Lemma pushed_step out x p ps (K : L -> M (op_result * L)) :
  cursor_ok m x p ->
  (forall out1, exists rv out', K out1 m = Ret (rv, out') m /\ pushed out1 ps rv out') ->
  exists rv out',
    match push_back out x with
    | (AWS_OP_ERR e, o) => mret (AWS_OP_ERR e, o)
    | (AWS_OP_SUCCESS, o) => K o
    end m = Ret (rv, out') m /\ pushed out (p :: ps) rv out'.
Proof.
  intros Hx HK. destruct (push_back out x) as [[| e] out1] eqn:E.
  - destruct (HK out1) as (rv & out' & Heq & cs & Hcs & HF & Hrv). exists rv, out'.
    split; [exact Heq |]. exists (x :: cs).
    rewrite Hcs, (push_back_ok _ _ _ E), <- app_assoc. split; [reflexivity |].
    split; [now constructor |]. destruct rv; cbn; lia.
  - eexists _, _. split; [reflexivity |]. exists []. rewrite app_nil_r.
    split_and!; [exact (push_back_err _ _ _ _ E) | constructor | cbn; lia].
Qed.

(** The piece that takes the rest of the input. *)
Lemma rest_cursor o :
  0 <= o <= cur_len input ->
  cursor_ok m (mk_cursor (cur_len input - o) (ptr_add (cur_ptr input) o)) (drop (Z.to_nat o) l).
Proof.
  intros Ho. pose proof input_len as [Hl Hz].
  pose proof (piece_cursor o (cur_len input - o) ltac:(lia) ltac:(lia) ltac:(lia)) as Hp.
  rewrite firstn_all2 in Hp; [exact Hp |]. unfold zlength in Hz. rewrite length_drop. lia.
Qed.

Lemma resume_next o n : 0 <= o -> 0 <= n -> resume_at (mk_cursor n (ptr_add (cur_ptr input) o)) (o + n + 1).
Proof. intros Ho Hn. right. exists o. cbn. split_and!; auto; lia. Qed.

Lemma split_loop_spec max fuel : forall j o substr out,
  0 <= j <= max -> j <= o <= cur_len input + 1 -> resume_at substr o ->
  cur_len input + 2 - o <= Z.of_nat fuel ->
  exists rv out', split_loop fuel input c max j substr out m = Ret (rv, out') m
    /\ pushed out (if o <=? cur_len input then split_list c (max - j) (drop (Z.to_nat o) l) else [])
         rv out'.
Proof.
  pose proof input_len as [Hl Hz].
  induction fuel as [| fuel IH]; intros j o substr out Hj Ho Hat Hf; [lia |].
  cbn [split_loop]. rewrite (proj2 (Z.leb_le j max)) by lia.
  destruct (Z.leb_spec o (cur_len input)) as [Hle | Hgt].
  2: { replace o with (cur_len input + 1) in Hat by lia. run (next_split_end substr Hat).
       eexists _, _. split; [reflexivity | apply pushed_nil]. }
  run (next_split_step substr o Hat ltac:(lia)). unfold split_list.
  pose proof (rest_cursor o ltac:(lia)) as Hrest.
  destruct (Z.eqb_spec j max) as [-> | Hne].
  - (* the last permitted piece takes the rest *)
    cbn [cur_ptr cur_len]. rewrite bind_assoc_step. run (ptr_diff_base (cur_ptr input) o m Hnn).
    unfold mbind at 1, M_bind at 1, mret at 1, M_ret at 1. rewrite !u64_small by (unfold is_u64; lia).
    rewrite split_spec_stop by (left; lia). apply pushed_step; [exact Hrest |]. intros out1.
    destruct fuel as [| fuel]; [lia |]. cbn [split_loop]. rewrite (proj2 (Z.leb_gt _ _)) by lia.
    eexists _, _. split; [reflexivity | apply pushed_nil].
  - unfold mbind at 1, M_bind at 1, mret at 1, M_ret at 1. unfold piece_len.
    rewrite u64_small by (unfold is_u64; lia).
    destruct (index_of c (drop (Z.to_nat o) l)) as [i |] eqn:Ei; cbn [default from_option id].
    + pose proof (index_of_Some _ _ _ Ei) as (Hi & _). unfold zlength in Hi, Hz. rewrite length_drop in Hi.
      rewrite (split_spec_next c _ (max - j) [] i ltac:(lia) Ei).
      apply pushed_step; [apply piece_cursor; lia |]. intros out1.
      destruct (IH (j + 1) (o + i + 1) (mk_cursor i (ptr_add (cur_ptr input) o)) out1)
        as (rv & out' & Heq & Hpush); try lia; [apply resume_next; lia |].
      exists rv, out'. split; [exact Heq |]. rewrite (proj2 (Z.leb_le _ _)) in Hpush by lia.
      rewrite drop_drop. replace (max - j - 1) with (max - (j + 1)) by lia.
      now replace (Z.to_nat o + Z.to_nat (i + 1))%nat with (Z.to_nat (o + i + 1)) by lia.
    + rewrite split_spec_stop by now right. apply pushed_step; [exact Hrest |]. intros out1.
      destruct (IH (j + 1) (o + (cur_len input - o) + 1)
                  (mk_cursor (cur_len input - o) (ptr_add (cur_ptr input) o)) out1)
        as (rv & out' & Heq & Hpush); try lia; [apply resume_next; lia |].
      exists rv, out'. split; [exact Heq |]. now rewrite (proj2 (Z.leb_gt _ _)) in Hpush by lia.
Qed.

End split_proof.

(** splitting a cursor runs without undefined behaviour, leaves the memory
    as it is and pushes, in order, cursors on the pieces of the input between
    the first [n] separators (all of them for [n = 0]): joined by the
    separator the pieces are the input, without a limit no piece contains
    it, and with a limit there are at most [n + 1]. A failure of the output
    list stops the split after a prefix of the pieces. *)
Theorem split_on_char_correct {L} `{PushBack L aws_byte_cursor} (m : mem)
    (input : aws_byte_cursor) (l : list Z) (c n : Z) (out : L) :
  cursor_ok m input l -> is_NULL (cur_ptr input) = false -> cur_len input <= SIZE_MAX / 2 ->
  0 <= n <= SIZE_MAX ->
  let pieces := split_list c (if 0 <? n then n else SIZE_MAX) l in
  (exists rv out', aws_byte_cursor_split_on_char_n input c n out m = Ret (rv, out') m
                   /\ pushed m out pieces rv out')
  /\ join c pieces = l
  /\ (n = 0 -> Forall (fun p => c ∉ p) pieces)
  /\ (0 < n -> zlength pieces <= n + 1).
Proof.
  intros Hin Hnn Hlen Hn pieces. pose proof (input_len m input l Hin Hlen) as [Hl Hz].
  split; [| split_and!].
  - unfold aws_byte_cursor_split_on_char_n, pieces.
    destruct (split_loop_spec m input l c Hin Hnn Hlen (if 0 <? n then n else SIZE_MAX)
                (Z.to_nat (cur_len input + 2)) 0 0 zero_cursor out) as (rv & out' & Heq & Hp);
      try lia.
    { unfold SIZE_MAX. zcase. }
    { now left. }
    exists rv, out'. split; [exact Heq |]. rewrite (proj2 (Z.leb_le _ _)) in Hp by lia.
    rewrite Z.sub_0_r, drop_0 in Hp. exact Hp.
  - unfold pieces, split_list. now rewrite split_spec_join.
  - intros ->. apply split_spec_clean; [| apply not_elem_of_nil]. cbn. unfold SIZE_MAX. lia.
  - intros Hpos. unfold pieces. rewrite (proj2 (Z.ltb_lt 0 n)) by lia.
    apply split_spec_length. lia.
Qed.

(** An output list that always has room. *)
#[export] Instance list_push_back {A} : PushBack (list A) A.
Proof.
  refine {| push_back l x := (AWS_OP_SUCCESS, l ++ [x]); items l := l |}; congruence.
Defined.

(** "a,b,,c" *)
Definition csv_text : list Z := [97; 44; 98; 44; 44; 99].

Lemma split_on_char_correct_witness :
  exists cs : list aws_byte_cursor,
    aws_byte_cursor_split_on_char_n (mk_cursor 6 (Static csv_text 0)) 44 2 [] demo_mem
    = Ret (AWS_OP_SUCCESS, cs) demo_mem
    /\ Forall2 (cursor_ok demo_mem) cs [[97]; [98]; [44; 99]].
Proof.
  assert (cursor_ok demo_mem (mk_cursor 6 (Static csv_text 0)) csv_text) as Hc
    by (constructor; [reflexivity | unfold SIZE_MAX; cbn; lia]).
  assert (cur_len (mk_cursor 6 (Static csv_text 0)) <= SIZE_MAX / 2) as Hl
    by (unfold Z.le; discriminate).
  assert (0 <= 2 <= SIZE_MAX) as Hn by (unfold SIZE_MAX; lia).
  destruct (split_on_char_correct (L := list aws_byte_cursor) demo_mem _ csv_text 44 2 []
              Hc eq_refl Hl Hn) as ((rv & out' & Heq & cs & Hi & HF & Hrv) & _).
  cbn in Hi. subst out'. destruct rv; [| vm_compute in Heq; discriminate].
  exists cs. split; [exact Heq |]. rewrite firstn_all2 in HF by (rewrite Hrv; reflexivity). exact HF.
Defined.

(** ** Searching *)

(** [t] occurs in [l] at offset [i]. *)
Definition occurs (t l : list Z) (i : Z) : Prop := slice l i (zlength t) = Some t.

Lemma compare_bytes_eq a : forall b, length a = length b -> compare_bytes a b = 0 <-> a = b.
Proof.
  induction a as [| x a IH]; intros [| y b] H; cbn [compare_bytes]; try discriminate; [tauto |].
  injection H as H. destruct (Z.eqb_spec x y) as [-> | Hne].
  - rewrite IH by exact H. split; congruence.
  - split; [lia | congruence].
Qed.

Lemma memcmp_ok m p q n a b :
  bytes_at m p n = Some a -> bytes_at m q n = Some b -> memcmp p q n m = Ret (compare_bytes a b) m.
Proof.
  intros Ha Hb. unfold memcmp. run (load_ok _ _ _ _ Ha). run (load_ok _ _ _ _ Hb). reflexivity.
Qed.

Lemma occurs_head c t l i : occurs (c :: t) l i -> 0 <= i /\ l !! Z.to_nat i = Some c.
Proof.
  unfold occurs. intros H. pose proof H as (Hi & _)%slice_inv. split; [exact Hi |].
  rewrite zlength_cons in H. pose proof (zlength_nonneg t).
  pose proof (slice_lookup l i _ _ 0 H ltac:(lia)) as E. cbn in E. rewrite Nat.add_0_r in E. congruence.
Qed.

Lemma occurs_in_drop c t l o i : 0 <= o <= i -> occurs (c :: t) l i ->
  exists k, drop (Z.to_nat o) l !! k = Some c /\ Z.to_nat i = (Z.to_nat o + k)%nat.
Proof.
  intros Ho H. apply occurs_head in H as [Hi Hlk]. exists (Z.to_nat (i - o)).
  rewrite lookup_drop. replace (Z.to_nat o + Z.to_nat (i - o))%nat with (Z.to_nat i) by lia. auto.
Qed.

Section find.
Context (m : mem) (input to_find : aws_byte_cursor) (l t : list Z) (c : Z).
Hypothesis (Hin : cursor_ok m input l) (Hfind : cursor_ok m to_find (c :: t)).
Hypothesis (Hlen : cur_len input <= SIZE_MAX / 2).

(** What the search promises, given that there is no match before [o]. *)
Definition find_post (r : result aws_byte_cursor) : Prop :=
  match r with
  | Ok cur =>
      exists i, occurs (c :: t) l i /\ (forall j, 0 <= j < i -> ~ occurs (c :: t) l j)
        /\ cur = mk_cursor (cur_len input - i) (ptr_add (cur_ptr input) i)
  | Err e => e = AWS_ERROR_STRING_MATCH_NOT_FOUND /\ forall j, ~ occurs (c :: t) l j
  end.

Lemma not_found o :
  (forall j, 0 <= j < o -> ~ occurs (c :: t) l j) -> (forall j, o <= j -> ~ occurs (c :: t) l j) ->
  find_post (Err AWS_ERROR_STRING_MATCH_NOT_FOUND).
Proof.
  intros H1 H2. split; [reflexivity |]. intros j Hj. pose proof (proj1 (occurs_head _ _ _ _ Hj)).
  destruct (Z.lt_ge_cases j o); [now apply (H1 j) | now apply (H2 j)].
Qed.

(** Nothing starts before the next occurrence of the first byte. *)
Lemma no_match_before o i :
  0 <= o -> index_of c (drop (Z.to_nat o) l) = Some i ->
  forall j, o <= j < o + i -> ~ occurs (c :: t) l j.
Proof.
  intros Ho Hi j Hj Hocc. apply index_of_Some in Hi as (_ & _ & Hnot). apply Hnot.
  destruct (occurs_in_drop c t l o j ltac:(lia) Hocc) as (k & Hk & Hjk).
  apply list_elem_of_lookup. exists k. rewrite lookup_take_lt by lia. exact Hk.
Qed.

Lemma find_exact_loop_spec fuel : forall o,
  0 <= o <= cur_len input -> (forall j, 0 <= j < o -> ~ occurs (c :: t) l j) ->
  cur_len input - o <= Z.of_nat fuel ->
  exists r, find_exact_loop fuel (mk_cursor (cur_len input - o) (ptr_add (cur_ptr input) o)) to_find m
            = Ret r m /\ find_post r.
Proof.
  pose proof (input_len m input l Hin Hlen) as [Hl Hz].
  pose proof (cursor_len _ _ _ Hfind) as [Hfl Hzf].
  induction fuel as [| fuel IH]; intros o Ho Hbefore Hf; cbn [find_exact_loop cur_len cur_ptr].
  all: destruct (Z.eqb_spec (cur_len input - o) 0) as [E | E];
    [eexists; split; [reflexivity |]; apply (not_found o Hbefore); intros j Hj Hocc;
     apply occurs_head in Hocc as [_ Hocc]; apply lookup_lt_Some in Hocc; unfold zlength in Hz; lia |].
  1: lia.
  pose proof (load_u8_at m (cur_ptr to_find) (cur_len to_find) (c :: t) 0 c (co_data _ _ _ Hfind)
                ltac:(lia) eq_refl) as Hc. rewrite ptr_add_0 in Hc. run Hc.
  pose proof (bytes_at_drop m _ _ l o (co_data _ _ _ Hin) Ho) as Hd.
  run (memchr_ok _ _ c _ _ Hd).
  destruct (index_of c (drop (Z.to_nat o) l)) as [i |] eqn:Ei; cbn [is_NULL].
  2: { eexists. split; [reflexivity |]. apply (not_found o Hbefore). intros j Hj Hocc.
       destruct (occurs_in_drop c t l o j ltac:(lia) Hocc) as (k & Hk & _).
       apply (index_of_None _ _ Ei), list_elem_of_lookup. eauto. }
  pose proof (readable_not_null m _ _ _ (co_data _ _ _ Hin) ltac:(lia)) as Hnn.
  rewrite !is_NULL_add, Hnn. run (ptr_diff_base (ptr_add (cur_ptr input) o) i m
    ltac:(now rewrite is_NULL_add)).
  pose proof (index_of_Some _ _ _ Ei) as (Hi & Hci & _).
  assert (zlength (drop (Z.to_nat o) l) = cur_len input - o) as Hzd
    by (unfold zlength in *; rewrite length_drop; lia).
  rewrite advance_spec by (cbn; change (SIZE_MAX / 2) with (2 ^ 63 - 1); lia).
  cbn [snd cur_len cur_ptr]. rewrite ptr_add_add.
  replace (cur_len input - o - i) with (cur_len input - (o + i)) by lia.
  assert (forall j, 0 <= j < o + i -> ~ occurs (c :: t) l j) as Hb'.
  { intros j Hj. destruct (Z.lt_ge_cases j o); [apply Hbefore; lia |].
    apply (no_match_before o i); auto; lia. }
  destruct (Z.ltb_spec (cur_len input - (o + i)) (cur_len to_find)) as [Hs | Hs].
  { eexists. split; [reflexivity |]. apply (not_found (o + i) Hb'). intros j Hj Hocc.
    apply slice_inv in Hocc. lia. }
  assert (is_Some (slice l (o + i) (cur_len to_find))) as [a Ha] by (apply slice_is_Some; lia).
  pose proof (bytes_at_sub m _ _ l (o + i) (cur_len to_find) (co_data _ _ _ Hin)
                ltac:(lia) ltac:(lia) ltac:(lia)) as Hr. rewrite Ha in Hr.
  run (memcmp_ok m _ _ _ _ _ Hr (co_data _ _ _ Hfind)).
  pose proof Ha as (_ & _ & _ & _ & Hza)%slice_inv.
  assert (length a = length (c :: t)) as Hlen' by (unfold zlength in *; lia).
  destruct (Z.eqb_spec (compare_bytes a (c :: t)) 0) as [Heq | Hneq].
  - apply compare_bytes_eq in Heq; [| exact Hlen']. subst a. eexists. split; [reflexivity |].
    exists (o + i). split; [unfold occurs; now rewrite Hzf |]. auto.
  - rewrite advance_spec by (cbn; change (SIZE_MAX / 2) with (2 ^ 63 - 1); lia).
    cbn [snd cur_len cur_ptr]. rewrite ptr_add_add.
    replace (cur_len input - (o + i) - 1) with (cur_len input - (o + i + 1)) by lia.
    apply IH; try lia. intros j Hj. destruct (Z.eq_dec j (o + i)) as [-> |]; [| apply Hb'; lia].
    unfold occurs. rewrite Hzf, Ha. intros [= ->]. apply Hneq. now apply compare_bytes_eq.
Qed.

End find.

(** [aws_byte_cursor_find_exact] terminates and returns the remainder of
    the input from the first occurrence of the text; it reports
    [AWS_ERROR_STRING_MATCH_NOT_FOUND] exactly when there is none and
    [AWS_ERROR_SHORT_BUFFER] exactly for the empty text. *)
Theorem find_exact_correct (m : mem) (input to_find : aws_byte_cursor) (l t : list Z) :
  cursor_ok m input l -> cursor_ok m to_find t -> cur_len input <= SIZE_MAX / 2 ->
  exists r, aws_byte_cursor_find_exact input to_find m = Ret r m
    /\ match r with
       | Ok cur =>
           t <> [] /\ exists i, occurs t l i /\ (forall j, 0 <= j < i -> ~ occurs t l j)
             /\ cur = mk_cursor (cur_len input - i) (ptr_add (cur_ptr input) i)
       | Err e =>
           (t = [] /\ e = AWS_ERROR_SHORT_BUFFER)
           \/ (t <> [] /\ e = AWS_ERROR_STRING_MATCH_NOT_FOUND /\ forall j, ~ occurs t l j)
       end.
Proof.
  intros Hin Hfind Hlen. pose proof (input_len m input l Hin Hlen) as [Hl Hz].
  pose proof (cursor_len _ _ _ Hfind) as [Hfl Hzf]. unfold aws_byte_cursor_find_exact.
  destruct (Z.ltb_spec (cur_len input) (cur_len to_find)) as [Hs | Hs].
  { eexists. split; [reflexivity |]. right. split_and!; [| reflexivity |].
    - intros ->. rewrite zlength_nil in Hzf. lia.
    - intros j Hj. apply slice_inv in Hj. lia. }
  destruct (Z.ltb_spec (cur_len to_find) 1) as [H1 | H1].
  { eexists. split; [reflexivity |]. left. split; [apply zlength_zero_inv; lia | reflexivity]. }
  destruct t as [| c t]; [rewrite zlength_nil in Hzf; lia |].
  destruct (find_exact_loop_spec m input to_find l t c Hin Hfind Hlen
              (Z.to_nat (cur_len input)) 0) as (r & Heq & Hpost); try lia.
  rewrite Z.sub_0_r, ptr_add_0 in Heq. destruct input as [il ip]. cbn in *.
  exists r. split; [exact Heq |]. destruct r as [cur | e].
  - split; [discriminate |]. destruct Hpost as (i & H). exists i. exact H.
  - right. destruct Hpost as [-> H]. auto.
Qed.

Lemma find_exact_correct_witness :
  aws_byte_cursor_find_exact (mk_cursor 6 (Static csv_text 0)) (mk_cursor 2 (Static [44; 99] 0))
    demo_mem = Ret (Ok (mk_cursor 2 (Static csv_text 4))) demo_mem.
Proof.
  assert (cursor_ok demo_mem (mk_cursor 6 (Static csv_text 0)) csv_text) as Hc
    by (constructor; [reflexivity | unfold SIZE_MAX; cbn; lia]).
  assert (cursor_ok demo_mem (mk_cursor 2 (Static [44; 99] 0)) [44; 99]) as Ht
    by (constructor; [reflexivity | unfold SIZE_MAX; cbn; lia]).
  assert (cur_len (mk_cursor 6 (Static csv_text 0)) <= SIZE_MAX / 2) as Hl
    by (unfold Z.le; discriminate).
  destruct (find_exact_correct demo_mem _ _ csv_text [44; 99] Hc Ht Hl) as (r & Heq & _).
  reflexivity.
Defined.

(** ** Trimming *)

Fixpoint drop_while (f : Z -> bool) (l : list Z) : list Z :=
  match l with
  | [] => []
  | x :: l => if f x then drop_while f l else x :: l
  end.

Definition drop_while_end (f : Z -> bool) (l : list Z) : list Z := rev (drop_while f (rev l)).

Definition trim (f : Z -> bool) (l : list Z) : list Z := drop_while_end f (drop_while f l).

Lemma drop_while_length f l : zlength (drop_while f l) <= zlength l.
Proof.
  induction l as [| x l IH]; cbn [drop_while]; [reflexivity |].
  destruct (f x); rewrite ?zlength_cons; [lia | reflexivity].
Qed.

Lemma cursor_tail m n p x l :
  cursor_ok m (mk_cursor n p) (x :: l) ->
  load_u8 p m = Ret x m /\ cursor_ok m (mk_cursor (n - 1) (ptr_add p 1)) l.
Proof.
  intros Hc. pose proof (cursor_len _ _ _ Hc) as [Hl Hz]. destruct Hc as [Hd Hb]. cbn in *.
  rewrite zlength_cons in Hz. pose proof (zlength_nonneg l). split.
  - rewrite <- (ptr_add_0 p). now apply (load_u8_at m p n (x :: l)).
  - constructor; cbn; [| lia]. now rewrite (bytes_at_drop m p n (x :: l) 1 Hd) by lia.
Qed.

Lemma left_trim_loop_spec m f l : forall n p,
  cursor_ok m (mk_cursor n p) l ->
  exists cur, left_trim_loop (length l) f (mk_cursor n p) m = Ret cur m
    /\ cursor_ok m cur (drop_while f l)
    /\ cur_ptr cur = ptr_add p (n - cur_len cur).
Proof.
  induction l as [| x l IH]; intros n p Hc; cbn [length left_trim_loop drop_while].
  - exists (mk_cursor n p). split_and!; auto. cbn. now rewrite Z.sub_diag, ptr_add_0.
  - destruct (cursor_tail m n p x l Hc) as [Hx Ht]. cbn [cur_ptr cur_len]. run Hx.
    destruct (f x).
    + destruct (IH _ _ Ht) as (cur & Heq & Hok & Hp). exists cur. split_and!; auto.
      rewrite Hp, ptr_add_add. f_equal. lia.
    + exists (mk_cursor n p). split_and!; auto. cbn. now rewrite Z.sub_diag, ptr_add_0.
Qed.

Lemma cursor_init m n p l x :
  cursor_ok m (mk_cursor n p) (l ++ [x]) ->
  load_u8 (ptr_add p (n - 1)) m = Ret x m /\ cursor_ok m (mk_cursor (n - 1) p) l.
Proof.
  intros Hc. pose proof (cursor_len _ _ _ Hc) as [Hl Hz]. destruct Hc as [Hd Hb]. cbn in *.
  pose proof Hz as Hz'. rewrite zlength_app, zlength_cons, zlength_nil in Hz'.
  pose proof (zlength_nonneg l). split.
  - apply (load_u8_at m p n (l ++ [x])); auto; [lia |].
    replace (Z.to_nat (n - 1)) with (length l) by (unfold zlength in Hz'; lia).
    now rewrite lookup_app_r, Nat.sub_diag by lia.
  - constructor; cbn; [| lia]. rewrite (bytes_at_prefix m p n _ (n - 1) Hd), slice_Some by lia.
    change (Z.to_nat 0) with 0%nat. rewrite drop_0. f_equal. rewrite take_app_le by (unfold zlength in Hz'; lia).
    apply firstn_all2. unfold zlength in Hz'. lia.
Qed.

Lemma right_trim_loop_spec m f l : forall n p,
  cursor_ok m (mk_cursor n p) l ->
  exists cur, right_trim_loop (length l) f (mk_cursor n p) m = Ret cur m
    /\ cursor_ok m cur (drop_while_end f l) /\ cur_ptr cur = p.
Proof.
  induction l as [| x l IH] using rev_ind; intros n p Hc.
  - exists (mk_cursor n p). cbn. auto.
  - destruct (cursor_init m n p l x Hc) as [Hx Ht]. rewrite length_app, Nat.add_1_r.
    cbn [right_trim_loop cur_ptr cur_len]. run Hx. unfold drop_while_end. rewrite rev_app_distr.
    cbn [rev app drop_while]. destruct (f x).
    + destruct (IH _ _ Ht) as (cur & Heq & Hok & Hp). exists cur. auto.
    + exists (mk_cursor n p). split_and!; auto. cbn. now rewrite rev_involutive.
Qed.

Lemma left_trim_spec m f cur l :
  cursor_ok m cur l ->
  exists cur', aws_byte_cursor_left_trim_pred cur f m = Ret cur' m
    /\ cursor_ok m cur' (drop_while f l)
    /\ cur_ptr cur' = ptr_add (cur_ptr cur) (cur_len cur - cur_len cur').
Proof.
  intros Hc. pose proof (cursor_len _ _ _ Hc) as [_ Hz]. destruct cur as [n p]. cbn in *.
  destruct (left_trim_loop_spec m f l n p Hc) as (cur' & Heq & Hok & Hp).
  exists cur'. split_and!; auto. unfold aws_byte_cursor_left_trim_pred. cbn.
  replace (Z.to_nat n) with (length l) by (unfold zlength in Hz; lia). exact Heq.
Qed.

(** trimming gives a cursor on exactly the bytes of the source without the
    longest prefix and the longest suffix that satisfy the predicate, inside
    the source; and the predicate holds of every byte exactly when
    [aws_byte_cursor_satisfies_pred] says so. *)
Theorem trim_pred_correct (m : mem) (cur : aws_byte_cursor) (l : list Z) (f : Z -> bool) :
  cursor_ok m cur l ->
  (exists cur', aws_byte_cursor_trim_pred cur f m = Ret cur' m /\ cursor_ok m cur' (trim f l)
     /\ exists i, 0 <= i /\ i + cur_len cur' <= cur_len cur
                  /\ cur_ptr cur' = ptr_add (cur_ptr cur) i)
  /\ aws_byte_cursor_satisfies_pred cur f m = Ret (forallb f l) m.
Proof.
  intros Hc. destruct (left_trim_spec m f cur l Hc) as (c1 & Heq & Hok & Hp).
  pose proof (cursor_len _ _ _ Hok) as [Hl1 Hz1]. pose proof (cursor_len _ _ _ Hc) as [Hl Hz].
  pose proof (drop_while_length f l) as Hle.
  split.
  - unfold aws_byte_cursor_trim_pred. run Heq. destruct c1 as [n1 p1]. cbn in *.
    destruct (right_trim_loop_spec m f (drop_while f l) n1 p1 Hok) as (c2 & Heq2 & Hok2 & Hp2).
    exists c2. split; [| split; [exact Hok2 |]].
    + unfold aws_byte_cursor_right_trim_pred. cbn.
      replace (Z.to_nat n1) with (length (drop_while f l)) by (unfold zlength in Hz1; lia). exact Heq2.
    + pose proof (cursor_len _ _ _ Hok2) as [_ Hz2]. exists (cur_len cur - n1).
      assert (zlength (trim f l) <= zlength (drop_while f l)) as Hle2.
      { unfold trim, drop_while_end. rewrite zlength_perm_rev, <- (zlength_perm_rev (drop_while f l)).
        apply drop_while_length. }
      unfold trim in Hle2. rewrite Hp2, Hp. split_and!; [lia | lia | reflexivity].
  - unfold aws_byte_cursor_satisfies_pred. run Heq. unfold mret, M_ret. f_equal. rewrite <- Hz1.
    clear. induction l as [| x l IH]; cbn; [reflexivity |]. destruct (f x); [exact IH |].
    rewrite zlength_cons. pose proof (zlength_nonneg l). apply Z.eqb_neq. lia.
Qed.

Lemma trim_pred_correct_witness :
  exists cur', aws_byte_cursor_trim_pred (mk_cursor 5 (Static [32; 65; 32; 66; 10] 0)) aws_isspace
                 demo_mem = Ret cur' demo_mem
    /\ cursor_ok demo_mem cur' [65; 32; 66].
Proof.
  assert (cursor_ok demo_mem (mk_cursor 5 (Static [32; 65; 32; 66; 10] 0)) [32; 65; 32; 66; 10]) as Hc
    by (constructor; [reflexivity | unfold SIZE_MAX; cbn; lia]).
  destruct (trim_pred_correct demo_mem _ _ aws_isspace Hc) as [(cur' & Heq & Hok & _) _].
  exists cur'. split; [exact Heq | exact Hok].
Defined.
