(* ===== verification/ByteCursorOrder.v ===== *)
(** * Byte cursors: comparing, hashing and parsing

    The comparison functions against equality and lexicographic order on
    lists of bytes, the agreement of case-insensitive hashing with
    case-insensitive equality, and the parsing of unsigned numbers. *)

From S2P Require Import Prelude Math ByteOrder Memory ByteBuf ByteBufSpec ByteCursorSpec.
From S2P Require Import ByteCursorText.
Import ByteBuf.

Local Open Scope Z_scope.

(** ** Equality *)

Lemma cursor_ok_len m n p l : cursor_ok m (mk_cursor n p) l -> n = zlength l.
Proof. intros H. pose proof (cursor_len _ _ _ H) as [_ Hz]. now symmetry. Qed.

(** Step a cursor at offset [i] of a pointer. *)
Lemma cursor_tail_at m n p i x l :
  cursor_ok m (mk_cursor n (ptr_add p i)) (x :: l) ->
  load_u8 (ptr_add p i) m = Ret x m /\ cursor_ok m (mk_cursor (n - 1) (ptr_add p (i + 1))) l.
Proof. intros H. apply cursor_tail in H. now rewrite ptr_add_add in H. Qed.

Lemma eq_ignore_case_loop_spec m pa pb la : forall lb i n,
  length la = length lb -> cursor_ok m (mk_cursor n (ptr_add pa i)) la ->
  cursor_ok m (mk_cursor n (ptr_add pb i)) lb ->
  eq_ignore_case_loop (length la) i pa pb m
  = Ret (bool_decide (map to_lower la = map to_lower lb)) m.
Proof.
  induction la as [| x la IH]; intros [| y lb] i n Hlen Ha Hb; try discriminate; [reflexivity |].
  injection Hlen as Hlen. cbn [length eq_ignore_case_loop map].
  apply cursor_tail_at in Ha as [Hx Ha]. apply cursor_tail_at in Hb as [Hy Hb].
  run Hx. run Hy. destruct (Z.eqb_spec (to_lower x) (to_lower y)) as [E | E].
  - rewrite (IH lb (i + 1) (n - 1) Hlen Ha Hb). unfold mret, M_ret. f_equal.
    apply bool_decide_ext. split; congruence.
  - unfold mret, M_ret. f_equal. symmetry. apply bool_decide_eq_false. congruence.
Qed.

Lemma eq_ignore_case_spec m a b la lb :
  cursor_ok m a la -> cursor_ok m b lb ->
  aws_byte_cursor_eq_ignore_case a b m = Ret (bool_decide (map to_lower la = map to_lower lb)) m.
Proof.
  intros Ha Hb. destruct a as [na pa], b as [nb pb].
  pose proof (cursor_ok_len _ _ _ _ Ha) as Hna. pose proof (cursor_ok_len _ _ _ _ Hb) as Hnb.
  unfold aws_byte_cursor_eq_ignore_case, aws_array_eq_ignore_case. cbn [cur_ptr cur_len].
  destruct (Z.eqb_spec na nb) as [E | E]; cbn [negb].
  - subst. rewrite <- (eq_ignore_case_loop_spec m pa pb la lb 0 (zlength la));
      rewrite ?ptr_add_0; auto; unfold zlength in *; [| lia | now rewrite E].
    now rewrite Nat2Z.id.
  - unfold mret, M_ret. f_equal. symmetry. apply bool_decide_eq_false. intros H. apply E.
    apply (f_equal zlength) in H. rewrite !zlength_map in H. congruence.
Qed.

Lemma cursor_eq_spec m a b la lb :
  cursor_ok m a la -> cursor_ok m b lb ->
  aws_byte_cursor_eq a b m = Ret (bool_decide (la = lb)) m.
Proof.
  intros Ha Hb. pose proof (cursor_len _ _ _ Ha) as [_ Hna]. pose proof (cursor_len _ _ _ Hb) as [_ Hnb].
  unfold aws_byte_cursor_eq, aws_array_eq.
  destruct (Z.eqb_spec (cur_len a) (cur_len b)) as [E | E]; cbn [negb].
  - destruct (Z.eqb_spec (cur_len a) 0) as [E0 | E0].
    + rewrite E0 in Hna. rewrite <- E, E0 in Hnb. apply zlength_zero_inv in Hna, Hnb. subst.
      reflexivity.
    + pose proof (co_data _ _ _ Hb) as Hdb. rewrite <- E in Hdb.
      run (memcmp_ok m _ _ _ _ _ (co_data _ _ _ Ha) Hdb). unfold mret, M_ret. f_equal.
      apply eq_true_iff_eq. rewrite Z.eqb_eq, bool_decide_eq_true.
      apply compare_bytes_eq. unfold zlength in *. lia.
  - unfold mret, M_ret. f_equal. symmetry. apply bool_decide_eq_false. congruence.
Qed.

(** A C string: the text before the first zero byte of its memory. *)
Definition c_string_at (m : mem) (p : ptr) (s : list Z) : Prop :=
  exists n, bytes_at m p n = Some (s ++ [0]) /\ 0 ∉ s.

Lemma c_string_cons m p i x s :
  c_string_at m (ptr_add p i) (x :: s) ->
  load_u8 (ptr_add p i) m = Ret x m /\ x <> 0 /\ c_string_at m (ptr_add p (i + 1)) s.
Proof.
  intros (n & Hb & H0). apply not_elem_of_cons in H0 as [Hx H0]. cbn [app] in Hb.
  pose proof (bytes_at_length _ _ _ _ Hb) as [Hl Hn]. rewrite zlength_cons in Hl.
  pose proof (zlength_nonneg (s ++ [0])). split_and!; [| congruence |].
  - rewrite <- (ptr_add_0 (ptr_add p i)). now apply (load_u8_at m _ n (x :: s ++ [0])).
  - exists (n - 1). split; [| exact H0]. rewrite <- ptr_add_add.
    now rewrite (bytes_at_drop m _ n _ 1 Hb) by lia.
Qed.

Lemma c_string_nil m p : c_string_at m p [] -> load_u8 p m = Ret 0 m.
Proof.
  intros (n & Hb & _). rewrite <- (ptr_add_0 p). now apply (load_u8_at m p n [0]).
Qed.

Lemma eq_c_str_loop_spec m fold pa ps la : forall s i n,
  cursor_ok m (mk_cursor n (ptr_add pa i)) la -> c_string_at m (ptr_add ps i) s ->
  eq_c_str_loop fold (length la) i pa ps m = Ret (bool_decide (map fold la = map fold s)) m.
Proof.
  induction la as [| x la IH]; intros s i n Ha Hs; cbn [length eq_c_str_loop].
  - destruct s as [| y s].
    + run (c_string_nil m _ Hs). reflexivity.
    + apply c_string_cons in Hs as (Hy & Hne & _). run Hy. unfold mret, M_ret. f_equal.
      now apply Z.eqb_neq.
  - apply cursor_tail_at in Ha as [Hx Ha]. destruct s as [| y s].
    + run (c_string_nil m _ Hs). reflexivity.
    + apply c_string_cons in Hs as (Hy & Hne & Hs). run Hy.
      rewrite (proj2 (Z.eqb_neq y 0)) by exact Hne. run Hx. cbn [map].
      destruct (Z.eqb_spec (fold x) (fold y)) as [E | E].
      * rewrite (IH s (i + 1) (n - 1) Ha Hs). unfold mret, M_ret. f_equal.
        apply bool_decide_ext. split; congruence.
      * unfold mret, M_ret. f_equal. symmetry. apply bool_decide_eq_false. congruence.
Qed.

(** The table of the case-insensitive functions lowers exactly the letters. *)
Lemma to_lower_ascii c : is_u8 c -> to_lower c = ascii_lower c.
Proof. unfold is_u8. intros Hc. by_cases 256%nat c. Qed.

Lemma map_to_lower l : Forall is_u8 l -> map to_lower l = map ascii_lower l.
Proof. induction 1; cbn; [reflexivity |]. rewrite to_lower_ascii by assumption. congruence. Qed.

(** the four ways to compare a cursor with bytes decide what they say:
    equality of the bytes, equality after lower-casing, and the same two
    against a C string, whose terminator is read only when the cursor ends
    and never passed. *)
Theorem cursor_equality_correct (m : mem) (a b : aws_byte_cursor) (la lb s : list Z) (c_str : ptr) :
  cursor_ok m a la -> cursor_ok m b lb -> c_string_at m c_str s ->
  Forall is_u8 la -> Forall is_u8 lb -> Forall is_u8 s ->
  aws_byte_cursor_eq a b m = Ret (bool_decide (la = lb)) m
  /\ aws_byte_cursor_eq_ignore_case a b m
     = Ret (bool_decide (map ascii_lower la = map ascii_lower lb)) m
  /\ aws_byte_cursor_eq_c_str a c_str m = Ret (bool_decide (la = s)) m
  /\ aws_byte_cursor_eq_c_str_ignore_case a c_str m
     = Ret (bool_decide (map ascii_lower la = map ascii_lower s)) m.
Proof.
  intros Ha Hb Hs Hla Hlb Hls. rewrite <- !map_to_lower by assumption.
  split; [now apply cursor_eq_spec |]. split; [now apply eq_ignore_case_spec |].
  destruct a as [n p]. pose proof (cursor_ok_len _ _ _ _ Ha) as Hn.
  unfold aws_byte_cursor_eq_c_str, aws_byte_cursor_eq_c_str_ignore_case, aws_array_eq_c_str,
    aws_array_eq_c_str_ignore_case. cbn [cur_len cur_ptr].
  replace (Z.to_nat n) with (length la) by (unfold zlength in Hn; lia).
  rewrite <- (ptr_add_0 p) in Ha. rewrite <- (ptr_add_0 c_str) in Hs. split.
  - rewrite (eq_c_str_loop_spec m (fun x => x) p c_str la s 0 n Ha Hs). now rewrite !map_id.
  - exact (eq_c_str_loop_spec m to_lower p c_str la s 0 n Ha Hs).
Qed.

Lemma cursor_equality_correct_witness :
  aws_byte_cursor_eq_c_str_ignore_case (mk_cursor 3 (Static [65; 98; 67] 0))
    (Static [97; 66; 99; 0; 9] 0) demo_mem = Ret true demo_mem.
Proof.
  assert (cursor_ok demo_mem (mk_cursor 3 (Static [65; 98; 67] 0)) [65; 98; 67]) as Ha
    by (constructor; [reflexivity | unfold SIZE_MAX; cbn; lia]).
  assert (c_string_at demo_mem (Static [97; 66; 99; 0; 9] 0) [97; 66; 99]) as Hs
    by (exists 4; split; [reflexivity | apply (bool_decide_unpack _); reflexivity]).
  assert (Forall is_u8 [65; 98; 67] /\ Forall is_u8 [97; 66; 99]) as [H1 H2]
    by (split; repeat constructor; unfold is_u8; lia).
  destruct (cursor_equality_correct demo_mem _ _ _ _ _ _ Ha Ha Hs H1 H1 H2) as (_ & _ & _ & H).
  exact H.
Defined.

(** ** Hashing without case *)

Lemma hash_loop_lower m la : forall lb pa pb n h,
  cursor_ok m (mk_cursor n pa) la -> cursor_ok m (mk_cursor n pb) lb ->
  map to_lower la = map to_lower lb ->
  exists h', hash_ignore_case_loop (length la) pa h m = Ret h' m
             /\ hash_ignore_case_loop (length lb) pb h m = Ret h' m.
Proof.
  induction la as [| x la IH]; intros [| y lb] pa pb n h Ha Hb E; try discriminate; [eauto |].
  injection E as Exy E. cbn [length hash_ignore_case_loop].
  apply cursor_tail in Ha as [Hx Ha]. apply cursor_tail in Hb as [Hy Hb].
  run Hx. run Hy. rewrite Exy. exact (IH lb _ _ _ _ Ha Hb E).
Qed.

Lemma hash_ignore_case_loop_eq m cur l :
  cursor_ok m cur l ->
  aws_hash_byte_cursor_ptr_ignore_case cur m
  = hash_ignore_case_loop (length l) (cur_ptr cur) 0xcbf29ce484222325 m.
Proof.
  intros Hc. pose proof (cursor_len _ _ _ Hc) as [Hl Hz]. destruct Hc as [Hd _].
  unfold aws_hash_byte_cursor_ptr_ignore_case, aws_hash_array_ignore_case.
  replace (Z.to_nat (cur_len cur)) with (length l) by (unfold zlength in Hz; lia).
  destruct (is_NULL (cur_ptr cur)) eqn:E; [| reflexivity].
  destruct (Z.eq_dec (cur_len cur) 0) as [H0 | H0].
  - rewrite H0 in Hz. now apply zlength_zero_inv in Hz as ->.
  - pose proof (readable_not_null m _ _ _ Hd ltac:(lia)). congruence.
Qed.

(** the case-insensitive hash agrees with the case-insensitive equality,
    as a hash table demands of its callbacks: cursors that compare equal hash
    to the same value. *)
Theorem ignore_case_hash_consistent (m : mem) (a b : aws_byte_cursor) (la lb : list Z) :
  cursor_ok m a la -> cursor_ok m b lb ->
  aws_byte_cursor_eq_ignore_case a b m = Ret true m ->
  exists h, aws_hash_byte_cursor_ptr_ignore_case a m = Ret h m
            /\ aws_hash_byte_cursor_ptr_ignore_case b m = Ret h m.
Proof.
  intros Ha Hb Heq. rewrite (eq_ignore_case_spec m a b la lb Ha Hb) in Heq.
  injection Heq as Heq. apply bool_decide_eq_true in Heq.
  rewrite (hash_ignore_case_loop_eq m a la Ha), (hash_ignore_case_loop_eq m b lb Hb).
  pose proof (f_equal zlength Heq) as Hz. rewrite !zlength_map in Hz.
  destruct a as [na pa], b as [nb pb].
  pose proof (cursor_ok_len _ _ _ _ Ha) as Hna. pose proof (cursor_ok_len _ _ _ _ Hb) as Hnb.
  assert (nb = na) as -> by congruence.
  exact (hash_loop_lower m la lb pa pb na _ Ha Hb Heq).
Qed.

Lemma ignore_case_hash_consistent_witness :
  exists h,
    aws_hash_byte_cursor_ptr_ignore_case (mk_cursor 3 (Static [65; 98; 67] 0)) demo_mem
    = Ret h demo_mem
    /\ aws_hash_byte_cursor_ptr_ignore_case (mk_cursor 3 (Static [97; 66; 99] 0)) demo_mem
       = Ret h demo_mem.
Proof.
  assert (cursor_ok demo_mem (mk_cursor 3 (Static [65; 98; 67] 0)) [65; 98; 67]) as Ha
    by (constructor; [reflexivity | unfold SIZE_MAX; cbn; lia]).
  assert (cursor_ok demo_mem (mk_cursor 3 (Static [97; 66; 99] 0)) [97; 66; 99]) as Hb
    by (constructor; [reflexivity | unfold SIZE_MAX; cbn; lia]).
  exact (ignore_case_hash_consistent demo_mem _ _ _ _ Ha Hb eq_refl).
Defined.

(** ** Lexicographic order *)

Fixpoint lex (a b : list Z) : comparison :=
  match a, b with
  | [], [] => Eq
  | [], _ :: _ => Lt
  | _ :: _, [] => Gt
  | x :: a, y :: b => match x ?= y with Eq => lex a b | o => o end
  end.

(** The bytes both sides have decide, and then the lengths. *)
Lemma compare_bytes_lex a : forall b n,
  n = Nat.min (length a) (length b) ->
  (compare_bytes (take n a) (take n b) <> 0 ->
     lex a b = (compare_bytes (take n a) (take n b) ?= 0))
  /\ (compare_bytes (take n a) (take n b) = 0 -> lex a b = (zlength a ?= zlength b)).
Proof.
  induction a as [| x a IH]; intros [| y b] n ->; cbn [length Nat.min take compare_bytes lex].
  - split; [congruence | reflexivity].
  - split; [congruence | intros _]. rewrite zlength_cons. pose proof (zlength_nonneg b).
    symmetry. apply Z.compare_lt_iff. change (zlength []) with 0. lia.
  - split; [congruence | intros _]. rewrite zlength_cons. pose proof (zlength_nonneg a).
    symmetry. apply Z.compare_gt_iff. change (zlength []) with 0. lia.
  - destruct (IH b _ eq_refl) as [H1 H2]. destruct (Z.eqb_spec x y) as [-> | Hne].
    + rewrite Z.compare_refl, !zlength_cons. split; [exact H1 |]. intros H. rewrite (H2 H).
      destruct (Z.compare_spec (zlength a) (zlength b)); symmetry;
        [apply Z.compare_eq_iff | apply Z.compare_lt_iff | apply Z.compare_gt_iff]; lia.
    + split; [intros _ | lia].
      destruct (Z.compare_spec x y) as [E | E | E]; [congruence | |]; symmetry;
        [apply Z.compare_lt_iff | apply Z.compare_gt_iff]; lia.
Qed.

Lemma compare_lookup_loop_spec m table la : forall lb pa pb na nb,
  cursor_ok m (mk_cursor na pa) la -> cursor_ok m (mk_cursor nb pb) lb ->
  exists z, compare_lookup_loop table (length la) (length lb) pa pb m = Ret z m
            /\ (z ?= 0) = lex (map (table_get table) la) (map (table_get table) lb).
Proof.
  induction la as [| x la IH]; intros [| y lb] pa pb na nb Ha Hb;
    cbn [length compare_lookup_loop map lex]; try (eexists; split; reflexivity).
  apply cursor_tail in Ha as [Hx Ha]. apply cursor_tail in Hb as [Hy Hb]. run Hx. run Hy.
  destruct (Z.compare_spec (table_get table x) (table_get table y)) as [E | E | E]; zcase;
    try (eexists; split; reflexivity).
  exact (IH lb _ _ _ _ Ha Hb).
Qed.

(** [memcmp] of what both have. *)
Lemma memcmp_lex m na pa nb pb la lb n :
  cursor_ok m (mk_cursor na pa) la -> cursor_ok m (mk_cursor nb pb) lb -> n = Z.min na nb ->
  exists r, memcmp pa pb n m = Ret r m /\ (r <> 0 -> (r ?= 0) = lex la lb) /\ (r = 0 -> lex la lb = (na ?= nb)).
Proof.
  intros Ha Hb Hn. pose proof (cursor_ok_len _ _ _ _ Ha) as Hna. pose proof (cursor_ok_len _ _ _ _ Hb) as Hnb.
  pose proof (zlength_nonneg la). pose proof (zlength_nonneg lb).
  assert (forall k p l, cursor_ok m (mk_cursor k p) l -> n <= k -> 0 <= n ->
            bytes_at m p n = Some (take (Z.to_nat n) l)) as Hread.
  { intros k p l Hc Hk Hn0. pose proof (cursor_ok_len _ _ _ _ Hc).
    rewrite (bytes_at_prefix m p k l n (co_data _ _ _ Hc)), slice_Some by lia. now rewrite drop_0. }
  destruct (compare_bytes_lex la lb (Z.to_nat n)) as [H1 H2]; [unfold zlength in *; lia |].
  eexists. split; [exact (memcmp_ok m _ _ _ _ _ (Hread na pa la Ha ltac:(lia) ltac:(lia)) (Hread nb pb lb Hb ltac:(lia) ltac:(lia))) |].
  split; [intros E; symmetry; exact (H1 E) |]. intros E. rewrite (H2 E). now rewrite <- Hna, <- Hnb.
Qed.

(** [aws_byte_cursor_compare_lexical] and [aws_byte_cursor_compare_lookup]
    return a number whose sign is the lexicographic order of the two byte
    strings, the latter after mapping both through the table: a total order,
    with shorter strings first. *)
Theorem compare_correct (m : mem) (lhs rhs : aws_byte_cursor) (la lb table : list Z) :
  cursor_ok m lhs la -> cursor_ok m rhs lb ->
  (exists z, aws_byte_cursor_compare_lexical lhs rhs m = Ret z m /\ (z ?= 0) = lex la lb)
  /\ (exists z, aws_byte_cursor_compare_lookup lhs rhs table m = Ret z m
                /\ (z ?= 0) = lex (map (table_get table) la) (map (table_get table) lb)).
Proof.
  intros Ha Hb. destruct lhs as [na pa], rhs as [nb pb].
  pose proof (cursor_ok_len _ _ _ _ Ha) as Hna. pose proof (cursor_ok_len _ _ _ _ Hb) as Hnb.
  pose proof (zlength_nonneg la). pose proof (zlength_nonneg lb). split.
  - unfold aws_byte_cursor_compare_lexical. cbn [cur_len cur_ptr].
    set (n := if nb <? na then nb else na). assert (n = Z.min na nb) as Hn by (unfold n; zcase; lia).
    destruct (memcmp_lex m na pa nb pb la lb n Ha Hb Hn) as (r & Hr & H1 & H2). run Hr.
    eexists. split; [reflexivity |].
    destruct (Z.eqb_spec r 0) as [E | E]; cbn [negb]; [rewrite (H2 E) | exact (H1 E)].
    destruct (Z.compare_spec na nb); zcase; reflexivity.
  - unfold aws_byte_cursor_compare_lookup. cbn [cur_len cur_ptr].
    assert (forall k (l : list Z), k = zlength l -> k = 0 -> l = []) as Hnil
      by (intros k l -> Hk0; now apply zlength_zero_inv).
    destruct (Z.eqb_spec na 0) as [Ea | Ea], (Z.eqb_spec nb 0) as [Eb | Eb]; cbn [andb].
    + rewrite (Hnil na la), (Hnil nb lb) by auto. eexists. split; reflexivity.
    + rewrite (Hnil na la) by auto. destruct lb; [rewrite zlength_nil in Hnb; lia |].
      eexists. split; reflexivity.
    + rewrite (Hnil nb lb) by auto. destruct la; [rewrite zlength_nil in Hna; lia |].
      eexists. split; reflexivity.
    + replace (Z.to_nat na) with (length la) by (unfold zlength in *; lia).
      replace (Z.to_nat nb) with (length lb) by (unfold zlength in *; lia).
      exact (compare_lookup_loop_spec m table la lb pa pb na nb Ha Hb).
Qed.

Lemma compare_correct_witness :
  exists z, aws_byte_cursor_compare_lookup (mk_cursor 2 (Static [65; 66] 0))
              (mk_cursor 3 (Static [97; 98; 99] 0)) s_tolower_table demo_mem = Ret z demo_mem
            /\ (z ?= 0) = Lt.
Proof.
  assert (cursor_ok demo_mem (mk_cursor 2 (Static [65; 66] 0)) [65; 66]) as Ha
    by (constructor; [reflexivity | unfold SIZE_MAX; cbn; lia]).
  assert (cursor_ok demo_mem (mk_cursor 3 (Static [97; 98; 99] 0)) [97; 98; 99]) as Hb
    by (constructor; [reflexivity | unfold SIZE_MAX; cbn; lia]).
  destruct (compare_correct demo_mem _ _ _ _ s_tolower_table Ha Hb) as [_ (z & Hz & Hl)].
  exists z. split; [exact Hz | exact Hl].
Defined.

(** ** Parsing numbers *)

(** The value of a string of digits; [None] when a byte is not a digit of the
    base. *)
Fixpoint digits_value (base : Z) (val : Z) (l : list Z) : option Z :=
  match l with
  | [] => Some val
  | x :: l =>
      d ← ascii_digit x;
      if d <? base then digits_value base (val * base + d) l else None
  end.

Lemma hex_to_num_digit c : is_u8 c -> hex_to_num c = default 255 (ascii_digit c).
Proof. unfold is_u8. intros Hc. by_cases 256%nat c. Qed.

Lemma ascii_digit_range c d : ascii_digit c = Some d -> 0 <= d < 16.
Proof.
  unfold ascii_digit. assert (97 <= ascii_lower c -> ascii_lower c <= 102 -> 0 <= ascii_lower c - 97 + 10 < 16)
    by lia. zcase; cbn; try discriminate; intros [= <-]; lia.
Qed.

Lemma digits_value_mono base l : forall val v,
  1 <= base -> 0 <= val -> digits_value base val l = Some v -> val <= v.
Proof.
  induction l as [| x l IH]; intros val v Hb Hv; cbn [digits_value].
  - intros [= ->]. lia.
  - intros (d & Hd & H)%bind_Some. apply ascii_digit_range in Hd.
    destruct (_ <? base); [| discriminate]. apply IH in H; nia.
Qed.

Lemma digits_value_app base pre rest : forall val,
  digits_value base val (pre ++ rest)
  = digits_value base val pre ≫= fun v => digits_value base v rest.
Proof.
  induction pre as [| x pre IH]; intros val; cbn [app digits_value]; [reflexivity |].
  destruct (ascii_digit x) as [d |]; cbn; [| reflexivity].
  destruct (_ <? base); [apply IH | reflexivity].
Qed.

Lemma digits_value_nonneg base l : forall val v,
  1 <= base -> 0 <= val -> digits_value base val l = Some v -> 0 <= v.
Proof. intros val v Hb Hv H. pose proof (digits_value_mono base l val v Hb Hv H). lia. Qed.

(** What parsing returns: the value when all bytes are digits and it fits;
    otherwise the error met first from the left. *)
Definition parse_post (base val : Z) (l : list Z) (r : result Z) : Prop :=
  match r with
  | Ok v => digits_value base val l = Some v /\ v <= SIZE_MAX
  | Err e =>
      (e = AWS_ERROR_INVALID_ARGUMENT /\ digits_value base val l = None)
      \/ (e = AWS_ERROR_OVERFLOW_DETECTED
          /\ exists pre rest v, l = pre ++ rest /\ digits_value base val pre = Some v /\ SIZE_MAX < v)
  end.

Lemma parse_cons base val x d l r :
  ascii_digit x = Some d -> d < base -> parse_post base (val * base + d) l r ->
  parse_post base val (x :: l) r.
Proof.
  intros Hx Hd H. destruct r as [v | e]; cbn [parse_post digits_value] in *; rewrite Hx; cbn;
    rewrite (proj2 (Z.ltb_lt _ _)) by lia; [exact H |].
  destruct H as [H | (-> & pre & rest & v & -> & Hv & Hbig)]; [now left | right].
  split; [reflexivity |]. exists (x :: pre), rest, v. cbn [digits_value]. rewrite Hx. cbn.
  rewrite (proj2 (Z.ltb_lt _ _)) by lia. auto.
Qed.

Lemma read_unsigned_loop_spec m base l : forall n p val,
  1 <= base <= 16 -> 0 <= val <= SIZE_MAX -> Forall is_u8 l -> cursor_ok m (mk_cursor n p) l ->
  exists r, read_unsigned_loop (length l) p val base m = Ret r m /\ parse_post base val l r.
Proof.
  induction l as [| x l IH]; intros n p val Hb Hv Hby Hc; cbn [length read_unsigned_loop].
  { eexists. split; [reflexivity |]. split; [reflexivity | lia]. }
  apply Forall_cons in Hby as [Hx8 Hby]. apply cursor_tail in Hc as [Hx Hc]. run Hx.
  rewrite (hex_to_num_digit x Hx8). destruct (ascii_digit x) as [d |] eqn:Ed; cbn [default id]; unfold id.
  2: { rewrite (proj2 (Z.leb_le _ _)) by lia. eexists. split; [reflexivity |]. left.
       split; [reflexivity |]. cbn [digits_value]. now rewrite Ed. }
  pose proof (ascii_digit_range x d Ed) as Hd.
  destruct (Z.leb_spec base d) as [Hbad | Hok].
  { eexists. split; [reflexivity |]. left. split; [reflexivity |]. cbn [digits_value]. rewrite Ed. cbn.
    now rewrite (proj2 (Z.ltb_ge _ _)) by lia. }
  assert (SIZE_MAX < val * base + d ->
          parse_post base val (x :: l) (Err AWS_ERROR_OVERFLOW_DETECTED)) as Hover.
  { intros Hbig. right. split; [reflexivity |]. exists [x], l, (val * base + d).
    cbn [digits_value app]. rewrite Ed. cbn. rewrite (proj2 (Z.ltb_lt _ _)) by lia. auto. }
  change (aws_mul_u64_checked val base) with (aws_mul_size_checked val base).
  rewrite mul_size_checked_spec by lia. destruct (Z.leb_spec (val * base) SIZE_MAX) as [H1 | H1].
  2: { eexists. split; [reflexivity |]. apply Hover. lia. }
  change (aws_add_u64_checked (val * base)) with (aws_add_size_checked (val * base)).
  rewrite add_size_checked_spec by lia.
  destruct (Z.leb_spec (val * base + d) SIZE_MAX) as [H2 | H2].
  2: { eexists. split; [reflexivity |]. apply Hover. lia. }
  destruct (IH _ _ (val * base + d) Hb ltac:(lia) Hby Hc) as (r & Heq & Hpost).
  exists r. split; [exact Heq |]. now apply (parse_cons _ _ x d).
Qed.

Lemma parse_post_exact base l r v :
  1 <= base -> parse_post base 0 l r ->
  r = Ok v <-> digits_value base 0 l = Some v /\ v <= SIZE_MAX.
Proof.
  intros Hb H. destruct r as [v' | e]; cbn [parse_post] in H.
  - destruct H as [-> Hv']. split; [intros [= ->]; auto | intros [[= ->] _]; reflexivity].
  - split; [discriminate |]. intros [Hv Hle].
    destruct H as [[_ H] | (_ & pre & rest & w & -> & Hw & Hbig)]; [congruence |].
    rewrite digits_value_app, Hw in Hv. cbn in Hv.
    pose proof (digits_value_nonneg base pre 0 w Hb ltac:(lia) Hw).
    pose proof (digits_value_mono base rest w v Hb ltac:(lia) Hv). lia.
Qed.

(** the decimal and hexadecimal parsers terminate and return the value of
    the digits exactly when there is at least one byte, all bytes are digits
    of the base and the value fits in 64 bits; otherwise they report an
    invalid argument (no byte, or a byte that is not a digit) or overflow (a
    prefix of the digits whose value does not fit). *)
Theorem parse_unsigned_correct (m : mem) (cur : aws_byte_cursor) (l : list Z) (base : Z) :
  cursor_ok m cur l -> Forall is_u8 l -> base = 10 \/ base = 16 ->
  exists r, s_read_unsigned cur base m = Ret r m
    /\ if decide (l = []) then r = Err AWS_ERROR_INVALID_ARGUMENT
       else parse_post base 0 l r
            /\ forall v, r = Ok v <-> digits_value base 0 l = Some v /\ v <= SIZE_MAX.
Proof.
  intros Hc Hby Hb. destruct cur as [n p]. pose proof (cursor_ok_len _ _ _ _ Hc) as Hn.
  unfold s_read_unsigned. cbn [cur_len cur_ptr]. case_decide as E.
  - subst l. rewrite zlength_nil in Hn. subst n. eexists. split; reflexivity.
  - rewrite (proj2 (Z.eqb_neq n 0)) by (intros ->; apply E; now apply zlength_zero_inv).
    replace (Z.to_nat n) with (length l) by (unfold zlength in Hn; lia).
    destruct (read_unsigned_loop_spec m base l n p 0) as (r & Heq & Hpost);
      [lia | unfold SIZE_MAX; lia | exact Hby | exact Hc |].
    exists r. split; [exact Heq |]. split; [exact Hpost |].
    intros v. apply parse_post_exact; [lia | exact Hpost].
Qed.

Lemma parse_unsigned_correct_witness :
  aws_byte_cursor_utf8_parse_u64 (mk_cursor 3 (Static [52; 48; 50] 0)) demo_mem
  = Ret (Ok 402) demo_mem.
Proof.
  assert (cursor_ok demo_mem (mk_cursor 3 (Static [52; 48; 50] 0)) [52; 48; 50]) as Hc
    by (constructor; [reflexivity | unfold SIZE_MAX; cbn; lia]).
  assert (Forall is_u8 [52; 48; 50]) as Hby by (repeat constructor; unfold is_u8; lia).
  destruct (parse_unsigned_correct demo_mem _ _ 10 Hc Hby (or_introl eq_refl)) as (r & Heq & _ & Hr).
  unfold aws_byte_cursor_utf8_parse_u64. rewrite Heq. f_equal. apply Hr.
  split; [reflexivity | unfold SIZE_MAX; lia].
Defined.
