(* ===== verification/Encoding.v ===== *)
(** * Hexadecimal and base64: definitions

    [source/encoding.c] and the byte-order helpers and encoding detection of
    [include/aws/common/encoding.inl], over the memory of [Memory.v]. The
    model is of a build without [USE_SIMD_ENCODING], where
    [aws_common_private_has_avx2] and what would be called if it answered true are
    the stubs of [encoding.c]. With vector instructions the code of
    [source/arch/intel/encoding_avx2.c] runs instead; it is not modelled, and
    unlike the portable decoder it refuses a NUL character. *)

From S2P Require Import Prelude Math ByteOrder Memory ByteBuf.
Import ByteBuf.

Local Open Scope Z_scope.

Module Encoding.

(** ** Tables *)

(** "0123456789abcdef" *)
Definition HEX_CHARS : list Z :=
  [48; 49; 50; 51; 52; 53; 54; 55; 56; 57; 97; 98; 99; 100; 101; 102].

(** "A...Za...z0...9+/" *)
Definition BASE64_ENCODING_TABLE : list Z :=
  map Z.of_nat (seq 65 26) ++ map Z.of_nat (seq 97 26) ++ map Z.of_nat (seq 48 10) ++ [43; 47].

Definition BASE64_SENTIANAL_VALUE : Z := 0xff.

(** Byte 0 decodes to 64, '=' to the sentinel, all others outside the alphabet
    to 0xDD. *)
Definition BASE64_DECODING_TABLE : list Z :=
  [64] ++ replicate 42 0xDD ++ [62] ++ replicate 3 0xDD ++ [63]
  ++ map Z.of_nat (seq 52 10) ++ replicate 3 0xDD ++ [255] ++ replicate 3 0xDD
  ++ map Z.of_nat (seq 0 26) ++ replicate 6 0xDD ++ map Z.of_nat (seq 26 26)
  ++ replicate 133 0xDD.

Definition hex_char (v : Z) : Z := table_get HEX_CHARS v.
Definition base64_char (v : Z) : Z := table_get BASE64_ENCODING_TABLE v.

(** ** Hexadecimal *)

Definition aws_hex_compute_encoded_len (to_encode_len : Z) : result Z :=
  let temp := u64 (u64 (Z.shiftl to_encode_len 1) + 1) in
  if temp <? to_encode_len then Err AWS_ERROR_OVERFLOW_DETECTED else Ok temp.

(** The loop over the bytes of [src], with [n] left from index [i]; [w] is
    [written]. *)
Fixpoint hex_encode_loop (n : nat) (i w : Z) (src dst : ptr) : M Z :=
  match n with
  | O => mret w
  | S n =>
      c ← load_u8 (ptr_add src i);
      _ ← store (ptr_add dst w) [hex_char (Z.land (Z.shiftr c 4) 0x0f)];
      c ← load_u8 (ptr_add src i);
      _ ← store (ptr_add dst (w + 1)) [hex_char (Z.land c 0x0f)];
      hex_encode_loop n (i + 1) (w + 2) src dst
  end.

Definition aws_hex_encode (to_encode : aws_byte_cursor) (output : aws_byte_buf)
    : M (op_result * aws_byte_buf) :=
  match aws_hex_compute_encoded_len (cur_len to_encode) with
  | Err e => mret (AWS_OP_ERR e, output)
  | Ok encoded_len =>
      if buf_capacity output <? encoded_len
      then mret (aws_raise_error AWS_ERROR_SHORT_BUFFER, output)
      else
        written ← hex_encode_loop (Z.to_nat (cur_len to_encode)) 0 0
                    (cur_ptr to_encode) (buf_buffer output);
        _ ← store (ptr_add (buf_buffer output) written) [0];
        mret (AWS_OP_SUCCESS, set_len output encoded_len)
  end.

Definition aws_hex_encode_append_dynamic (to_encode : aws_byte_cursor) (output : aws_byte_buf)
    : M (op_result * aws_byte_buf) :=
  match aws_add_size_checked (cur_len to_encode) (cur_len to_encode) with
  | Err e => mret (AWS_OP_ERR e, output)
  | Ok encoded_len =>
      '(rv, output) ← aws_byte_buf_reserve_relative output encoded_len;
      match rv with
      | AWS_OP_ERR e => mret (AWS_OP_ERR e, output)
      | AWS_OP_SUCCESS =>
          _ ← hex_encode_loop (Z.to_nat (cur_len to_encode)) 0 (buf_len output)
                (cur_ptr to_encode) (buf_buffer output);
          mret (AWS_OP_SUCCESS, set_len output (u64 (buf_len output + encoded_len)))
      end
  end.

Definition s_hex_decode_char_to_int (character : Z) : option Z :=
  if between 97 character 102 then Some (10 + (character - 97))
  else if between 65 character 70 then Some (10 + (character - 65))
  else if between 48 character 57 then Some (character - 48)
  else None.

Definition aws_hex_compute_decoded_len (to_decode_len : Z) : result Z :=
  let temp := u64 (to_decode_len + 1) in
  if temp <? to_decode_len then Err AWS_ERROR_OVERFLOW_DETECTED else Ok (Z.shiftr temp 1).

(** Pairs of digits; [n] pairs left from index [i]. *)
Fixpoint hex_decode_loop (n : nat) (i w : Z) (src dst : ptr) : M op_result :=
  match n with
  | O => mret AWS_OP_SUCCESS
  | S n =>
      c ← load_u8 (ptr_add src i);
      match s_hex_decode_char_to_int c with
      | None => mret (aws_raise_error AWS_ERROR_INVALID_HEX_STR)
      | Some high_value =>
          d ← load_u8 (ptr_add src (i + 1));
          match s_hex_decode_char_to_int d with
          | None => mret (aws_raise_error AWS_ERROR_INVALID_HEX_STR)
          | Some low_value =>
              _ ← store (ptr_add dst w) [Z.lor (u8 (Z.shiftl high_value 4)) low_value];
              hex_decode_loop n (i + 2) (w + 1) src dst
          end
      end
  end.

Definition aws_hex_decode (to_decode : aws_byte_cursor) (output : aws_byte_buf)
    : M (op_result * aws_byte_buf) :=
  match aws_hex_compute_decoded_len (cur_len to_decode) with
  | Err _ => mret (aws_raise_error AWS_ERROR_OVERFLOW_DETECTED, output)
  | Ok decoded_length =>
      if buf_capacity output <? decoded_length
      then mret (aws_raise_error AWS_ERROR_SHORT_BUFFER, output)
      else
        let src := cur_ptr to_decode in
        let dst := buf_buffer output in
        (* an odd first digit is a byte of its own *)
        first ←
          (if negb (Z.land (cur_len to_decode) 1 =? 0) then
             c ← load_u8 src;
             match s_hex_decode_char_to_int c with
             | None => mret None
             | Some low_value => _ ← store dst [low_value]; mret (Some 1)
             end
           else mret (Some 0));
        match first with
        | None => mret (aws_raise_error AWS_ERROR_INVALID_HEX_STR, output)
        | Some i =>
            rv ← hex_decode_loop (Z.to_nat ((cur_len to_decode - i) / 2)) i i src dst;
            mret (rv, match rv with
                      | AWS_OP_SUCCESS => set_len output decoded_length
                      | AWS_OP_ERR _ => output
                      end)
        end
  end.

(** ** Base64 *)

Definition aws_base64_compute_encoded_len (to_encode_len : Z) : result Z :=
  let tmp := u64 (to_encode_len + 2) in
  if tmp <? to_encode_len then Err AWS_ERROR_OVERFLOW_DETECTED
  else
    let tmp := tmp / 3 in
    let overflow_check := tmp in
    let tmp := u64 (u64 (4 * tmp) + 1) in
    if tmp <? overflow_check then Err AWS_ERROR_OVERFLOW_DETECTED else Ok tmp.

Definition aws_base64_compute_decoded_len (to_decode : aws_byte_cursor) : M (result Z) :=
  let len := cur_len to_decode in
  let input := cur_ptr to_decode in
  if len =? 0 then mret (Ok 0)
  else if negb (Z.land len 3 =? 0) then mret (Err AWS_ERROR_INVALID_BASE64_STR)
  else
    let tmp := u64 (len * 3) in
    if tmp <? len then mret (Err AWS_ERROR_OVERFLOW_DETECTED)
    else
      last ← load_u8 (ptr_add input (len - 1));
      padding ←
        (if (2 <=? len) && (last =? 61) then
           prev ← load_u8 (ptr_add input (len - 2));
           mret (if prev =? 61 then 2 else 1)
         else mret (if last =? 61 then 1 else 0));
      mret (Ok (u64 (tmp / 4 - padding))).

(** The four characters of one 24-bit block. *)
Definition block_chars (block : Z) : list Z :=
  [base64_char (Z.land (Z.shiftr block 18) 0x3F); base64_char (Z.land (Z.shiftr block 12) 0x3F);
   base64_char (Z.land (Z.shiftr block 6) 0x3F); base64_char (Z.land block 0x3F)].

(** The 24 bits at [i], with zeros for what lies beyond the input. *)
Definition base64_load_block (i buffer_length : Z) (src : ptr) : M Z :=
  block ← load_u8 (ptr_add src i);
  let block := u32 (Z.shiftl block 8) in
  block ← (if i + 1 <? buffer_length
           then x ← load_u8 (ptr_add src (i + 1)); mret (Z.lor block x) else mret block);
  let block := u32 (Z.shiftl block 8) in
  if i + 2 <? buffer_length
  then x ← load_u8 (ptr_add src (i + 2)); mret (Z.lor block x) else mret block.

(** One block per iteration of [for (i = 0; i < len; i += 3)]; [n] is the
    number of blocks left. *)
Fixpoint base64_encode_loop (n : nat) (i str_index buffer_length : Z) (src dst : ptr) : M unit :=
  match n with
  | O => mret tt
  | S n =>
      block ← base64_load_block i buffer_length src;
      _ ← store (ptr_add dst str_index) (block_chars block);
      base64_encode_loop n (i + 3) (str_index + 4) buffer_length src dst
  end.

(** The stubs; their assertion is left out. *)
Definition aws_common_private_has_avx2 : bool := false.
Definition aws_common_private_base64_encode_sse41 (src out : ptr) (len : Z) : M unit := mret tt.
Definition aws_common_private_base64_decode_sse41 (src out : ptr) (len : Z) : M Z := mret SIZE_MAX.

Definition aws_base64_encode (to_encode : aws_byte_cursor) (output : aws_byte_buf)
    : M (op_result * aws_byte_buf) :=
  match aws_base64_compute_encoded_len (cur_len to_encode) with
  | Err e => mret (AWS_OP_ERR e, output)
  | Ok terminated_length =>
      match aws_add_size_checked (buf_len output) terminated_length with
      | Err e => mret (AWS_OP_ERR e, output)
      | Ok needed_capacity =>
          if buf_capacity output <? needed_capacity
          then mret (aws_raise_error AWS_ERROR_SHORT_BUFFER, output)
          else
            let encoded_length := u64 (terminated_length - 1) in
            if aws_common_private_has_avx2 then
              _ ← aws_common_private_base64_encode_sse41 (cur_ptr to_encode) (ptr_add (buf_buffer output) (buf_len output)) (cur_len to_encode);
              _ ← store (ptr_add (buf_buffer output) (buf_len output + encoded_length)) [0];
              mret (AWS_OP_SUCCESS, set_len output (u64 (buf_len output + encoded_length)))
            else
            let buffer_length := cur_len to_encode in
            let block_count := u64 (buffer_length + 2) / 3 in
            let remainder_count := buffer_length mod 3 in
            let dst := buf_buffer output in
            let len := buf_len output in
            _ ← base64_encode_loop (Z.to_nat block_count) 0 len buffer_length
                  (cur_ptr to_encode) dst;
            _ ← (if 0 <? remainder_count then
                   _ ← store (ptr_add dst (len + block_count * 4 - 1)) [61];
                   if remainder_count =? 1
                   then store (ptr_add dst (len + block_count * 4 - 2)) [61] else mret tt
                 else mret tt);
            _ ← store (ptr_add dst (len + encoded_length)) [0];
            mret (AWS_OP_SUCCESS, set_len output (u64 (len + encoded_length)))
      end
  end.

Definition s_base64_get_decoded_value (to_decode : Z) (allow_sentinal : bool) : option Z :=
  let decode_value := table_get BASE64_DECODING_TABLE to_decode in
  if negb (decode_value =? 0xDD) && (negb (decode_value =? BASE64_SENTIANAL_VALUE) || allow_sentinal)
  then Some decode_value else None.

(** [a || b || c || d] over four characters: stops at the first failure. *)
Definition decode_quad (src : ptr) (string_index : Z) (allow_sentinal : bool)
    : M (option (Z * Z * Z * Z)) :=
  c1 ← load_u8 (ptr_add src string_index);
  match s_base64_get_decoded_value c1 false with
  | None => mret None
  | Some value1 =>
      c2 ← load_u8 (ptr_add src (string_index + 1));
      match s_base64_get_decoded_value c2 false with
      | None => mret None
      | Some value2 =>
          c3 ← load_u8 (ptr_add src (string_index + 2));
          match s_base64_get_decoded_value c3 allow_sentinal with
          | None => mret None
          | Some value3 =>
              c4 ← load_u8 (ptr_add src (string_index + 3));
              match s_base64_get_decoded_value c4 allow_sentinal with
              | None => mret None
              | Some value4 => mret (Some (value1, value2, value3, value4))
              end
          end
      end
  end.

(** The three bytes of four decoded values. *)
Definition byte_1 (v1 v2 : Z) : Z := u8 (Z.lor (Z.shiftl v1 2) (Z.land (Z.shiftr v2 4) 0x03)).
Definition byte_2 (v2 v3 : Z) : Z :=
  u8 (Z.lor (Z.land (Z.shiftl v2 4) 0xF0) (Z.land (Z.shiftr v3 2) 0x0F)).
Definition byte_3 (v3 v4 : Z) : Z := u8 (Z.lor (Z.shiftl (Z.land v3 0x03) 6) v4).

(** All blocks but the last; [n] left, block [i] is next. *)
Fixpoint base64_decode_loop (n : nat) (i : Z) (src dst : ptr) : M op_result :=
  match n with
  | O => mret AWS_OP_SUCCESS
  | S n =>
      q ← decode_quad src (4 * i) false;
      match q with
      | None => mret (aws_raise_error AWS_ERROR_INVALID_BASE64_STR)
      | Some (v1, v2, v3, v4) =>
          _ ← store (ptr_add dst (i * 3)) [byte_1 v1 v2];
          _ ← store (ptr_add dst (i * 3 + 1)) [byte_2 v2 v3];
          _ ← store (ptr_add dst (i * 3 + 2)) [byte_3 v3 v4];
          base64_decode_loop n (i + 1) src dst
      end
  end.

(** The conversion of a size to [int64_t]. *)
Definition int64 (x : Z) : Z := if x <? 2 ^ 63 then x else x - 2 ^ 64.

Definition aws_base64_decode (to_decode : aws_byte_cursor) (output : aws_byte_buf)
    : M (op_result * aws_byte_buf) :=
  r ← aws_base64_compute_decoded_len to_decode;
  match r with
  | Err e => mret (AWS_OP_ERR e, output)
  | Ok decoded_length =>
      if buf_capacity output <? decoded_length
      then mret (aws_raise_error AWS_ERROR_SHORT_BUFFER, output)
      else if aws_common_private_has_avx2 then
        result ← aws_common_private_base64_decode_sse41 (cur_ptr to_decode) (buf_buffer output) (cur_len to_decode);
        if result =? SIZE_MAX then mret (aws_raise_error AWS_ERROR_INVALID_BASE64_STR, output)
        else mret (AWS_OP_SUCCESS, set_len output result)
      else
        let src := cur_ptr to_decode in
        let dst := buf_buffer output in
        let block_count := Z.quot (int64 (cur_len to_decode)) 4 in
        rv ← base64_decode_loop (Z.to_nat (block_count - 1)) 0 src dst;
        match rv with
        | AWS_OP_ERR e => mret (AWS_OP_ERR e, output)
        | AWS_OP_SUCCESS =>
            let buffer_index := (block_count - 1) * 3 in
            if 0 <=? buffer_index then
              q ← decode_quad src (4 * (block_count - 1)) true;
              match q with
              | None => mret (aws_raise_error AWS_ERROR_INVALID_BASE64_STR, output)
              | Some (v1, v2, v3, v4) =>
                  _ ← store (ptr_add dst buffer_index) [byte_1 v1 v2];
                  _ ← (if negb (v3 =? BASE64_SENTIANAL_VALUE) then
                         _ ← store (ptr_add dst (buffer_index + 1)) [byte_2 v2 v3];
                         if negb (v4 =? BASE64_SENTIANAL_VALUE)
                         then store (ptr_add dst (buffer_index + 2)) [byte_3 v3 v4]
                         else mret tt
                       else mret tt);
                  mret (AWS_OP_SUCCESS, set_len output decoded_length)
              end
            else mret (AWS_OP_SUCCESS, set_len output decoded_length)
        end
  end.

(** ** Detecting the encoding of a text *)

Inductive aws_text_encoding :=
| AWS_TEXT_UNKNOWN | AWS_TEXT_UTF8 | AWS_TEXT_UTF16 | AWS_TEXT_UTF32 | AWS_TEXT_ASCII.

Definition starts (bytes : ptr) (size : Z) (bom : list Z) : M bool :=
  if zlength bom <=? size then r ← memcmp bytes (Static bom 0) (zlength bom); mret (r =? 0)
  else mret false.

Fixpoint ascii_loop (n : nat) (bytes : ptr) (idx : Z) : M aws_text_encoding :=
  match n with
  | O => mret AWS_TEXT_ASCII
  | S n =>
      c ← load_u8 (ptr_add bytes idx);
      if negb (Z.land c 0x80 =? 0) then mret AWS_TEXT_UNKNOWN else ascii_loop n bytes (idx + 1)
  end.

Definition aws_text_detect_encoding (bytes : ptr) (size : Z) : M aws_text_encoding :=
  b ← starts bytes size [0xEF; 0xBB; 0xBF];
  if b : bool then mret AWS_TEXT_UTF8
  else
    b ← starts bytes size [0xFF; 0xFE; 0x00; 0x00];
    if b : bool then mret AWS_TEXT_UTF32
    else
      b ← starts bytes size [0x00; 0x00; 0xFE; 0xFF];
      if b : bool then mret AWS_TEXT_UTF32
      else
        b ← starts bytes size [0xFF; 0xFE];
        if b : bool then mret AWS_TEXT_UTF16
        else
          b ← starts bytes size [0xFE; 0xFF];
          if b : bool then mret AWS_TEXT_UTF16
          else ascii_loop (Z.to_nat size) bytes 0.

Definition aws_text_is_utf8 (bytes : ptr) (size : Z) : M bool :=
  encoding ← aws_text_detect_encoding bytes size;
  mret (match encoding with AWS_TEXT_UTF8 | AWS_TEXT_ASCII => true | _ => false end).

(** ** Fixed-width integers *)

Section host.
Context (big_endian : bool).

Definition write_uint (n : nat) (value : Z) (buffer : ptr) : M unit :=
  memcpy buffer (Static (host_bytes big_endian n value) 0) (Z.of_nat n).

Definition aws_write_u64 (value : Z) (buffer : ptr) : M unit :=
  write_uint 8 (aws_hton64 big_endian value) buffer.
Definition aws_write_u32 (value : Z) (buffer : ptr) : M unit :=
  write_uint 4 (aws_hton32 big_endian value) buffer.
Definition aws_write_u16 (value : Z) (buffer : ptr) : M unit :=
  write_uint 2 (aws_hton16 big_endian value) buffer.
Definition aws_write_u24 (value : Z) (buffer : ptr) : M unit :=
  memcpy buffer (Static (host_bytes big_endian 4 (aws_hton32 big_endian value)) 1) 3.

Definition read_uint (n : nat) (buffer : ptr) : M Z :=
  bs ← load buffer (Z.of_nat n); mret (host_value big_endian bs).

Definition aws_read_u64 (buffer : ptr) : M Z :=
  v ← read_uint 8 buffer; mret (aws_ntoh64 big_endian v).
Definition aws_read_u32 (buffer : ptr) : M Z :=
  v ← read_uint 4 buffer; mret (aws_ntoh32 big_endian v).
Definition aws_read_u16 (buffer : ptr) : M Z :=
  v ← read_uint 2 buffer; mret (aws_ntoh16 big_endian v).
Definition aws_read_u24 (buffer : ptr) : M Z :=
  bs ← load buffer 3; mret (aws_ntoh32 big_endian (host_value big_endian (0 :: bs))).

End host.

End Encoding.
