(* ===== verification/EncodingSpec.v ===== *)
(** * Hexadecimal: correctness

    [hex_text] and [hex_value] are the encodings on lists of bytes; the
    theorems say that the loops over memory compute them, on which inputs
    they fail, and that decoding undoes encoding. *)

From S2P Require Import Prelude Math ByteOrder Memory ByteBuf ByteBufSpec ByteCursorSpec.
From S2P Require Import ByteCursorText ByteCursorOrder Encoding.
Import ByteBuf Encoding.

Local Open Scope Z_scope.

(** ** Reading and writing beside each other *)

Lemma cursor_stable m m' q bs n p cs :
  written m q bs m' -> disjoint_ranges p n q (zlength bs) ->
  cursor_ok m (mk_cursor n p) cs -> cursor_ok m' (mk_cursor n p) cs.
Proof.
  intros Hw Hd [H1 H2]. constructor; [| exact H2]. cbn in *. now rewrite (written_frame _ _ _ _ _ _ Hw Hd).
Qed.

(** Disjointness of parts of [p] and [q] from that of the whole. *)
Ltac disjoint Hd p q :=
  revert Hd; destruct p, q; cbn [disjoint_ranges ptr_add]; auto;
  let H := fresh in let E := fresh in
  intros H E; specialize (H E); rewrite ?zlength_cons in *; change (@zlength Z []) with 0 in *; lia.

Lemma store_next m p i n bs :
  writable m p n -> 0 <= i -> i + zlength bs <= n ->
  exists m', store (ptr_add p i) bs m = Ret tt m' /\ written m (ptr_add p i) bs m'.
Proof.
  intros Hw Hi Hn. apply store_ok. apply (writable_sub _ _ n); auto. apply zlength_nonneg.
Qed.

Lemma store_two m p i n x y :
  writable m p n -> 0 <= i -> i + 2 <= n ->
  exists m1 m2, store (ptr_add p i) [x] m = Ret tt m1 /\ written m (ptr_add p i) [x] m1
    /\ store (ptr_add p (i + 1)) [y] m1 = Ret tt m2 /\ written m (ptr_add p i) [x; y] m2.
Proof.
  intros Hw Hi Hn. destruct (store_next m p i n [x] Hw) as (m1 & E1 & H1); [lia | unfold zlength; cbn; lia |].
  destruct (store_next m1 p (i + 1) n [y]) as (m2 & E2 & H2);
    [exact (written_writable _ _ _ _ _ _ H1 Hw) | lia | unfold zlength; cbn; lia |].
  exists m1, m2. split_and!; auto. apply (written_app m _ [x] m1 [y] m2 H1).
  now rewrite ptr_add_add.
Qed.

(** ** Digits *)

Definition hex_digits (c : Z) : list Z :=
  [digit_ascii (c / 16 mod 16); digit_ascii (c mod 16)].

Definition hex_text (l : list Z) : list Z := flat_map hex_digits l.

(** Pairs of digits, most significant first. *)
Fixpoint hex_pairs (l : list Z) : option (list Z) :=
  match l with
  | [] => Some []
  | [_] => None
  | c :: d :: l =>
      high ← ascii_digit c;
      low ← ascii_digit d;
      rest ← hex_pairs l;
      Some (16 * high + low :: rest)
  end.

(** A text of odd length has an implicit leading zero. *)
Definition hex_value (l : list Z) : option (list Z) :=
  if Z.even (zlength l) then hex_pairs l else hex_pairs (48 :: l).

Lemma zlength_hex_text l : zlength (hex_text l) = 2 * zlength l.
Proof.
  induction l as [| c l IH]; [reflexivity |]. cbn [hex_text flat_map hex_digits app] in *.
  fold (hex_text l). rewrite !zlength_cons. lia.
Qed.

Lemma hex_decode_char c : s_hex_decode_char_to_int c = ascii_digit c.
Proof.
  assert (ascii_lower c = c + 32 /\ 65 <= c <= 90 \/ ascii_lower c = c /\ ~ 65 <= c <= 90) as H
    by (unfold ascii_lower; zcase; lia).
  unfold s_hex_decode_char_to_int, ascii_digit, between. zcase; try reflexivity; try (f_equal; lia); lia.
Qed.

Lemma nibble_chars c :
  hex_char (Z.land (Z.shiftr c 4) 0x0f) = digit_ascii (c / 16 mod 16)
  /\ hex_char (Z.land c 0x0f) = digit_ascii (c mod 16).
Proof.
  assert (forall v, 0 <= v < 16 -> hex_char v = digit_ascii v) as H by (intros v Hv; by_cases 16%nat v).
  change 0x0f with (2 ^ 4 - 1). rewrite !land_pow2_mask, Z.shiftr_div_pow2 by lia.
  split; apply H, Z.mod_pos_bound; lia.
Qed.

Lemma digit_ascii_value v : 0 <= v < 16 -> ascii_digit (digit_ascii v) = Some v.
Proof. intros Hv. by_cases 16%nat v. Qed.

Lemma join_nibbles high low :
  0 <= high < 16 -> 0 <= low < 16 -> Z.lor (u8 (Z.shiftl high 4)) low = 16 * high + low.
Proof.
  intros Hh Hl. rewrite u8_small by (unfold is_u8; rewrite Z.shiftl_mul_pow2; lia).
  rewrite lor_shiftl_add by lia. lia.
Qed.

Lemma hex_pairs_text l : Forall is_u8 l -> hex_pairs (hex_text l) = Some l.
Proof.
  induction 1 as [| c l Hc Hl IH]; [reflexivity |].
  cbn [hex_text flat_map hex_digits app]. fold (hex_text l). cbn [hex_pairs].
  rewrite !digit_ascii_value by (apply Z.mod_pos_bound; lia). cbn. rewrite IH. cbn. do 2 f_equal.
  unfold is_u8 in Hc. Z.div_mod_to_equations. lia.
Qed.

Lemma hex_value_text l : Forall is_u8 l -> hex_value (hex_text l) = Some l.
Proof.
  intros H. unfold hex_value. rewrite zlength_hex_text, Z.even_mul. cbn. now apply hex_pairs_text.
Qed.

(** ** Encoding *)

(** The loops read [n] bytes at [src] and write [k] at [dst + w0]. *)
Section loops.
Context (src dst : ptr) (n w0 k room : Z).
Hypothesis Hd : disjoint_ranges src n (ptr_add dst w0) k.
Hypothesis (Hw0 : 0 <= w0) (Hroom : w0 + k <= room).

Lemma hex_encode_loop_spec l : forall i w m,
  cursor_ok m (mk_cursor (zlength l) (ptr_add src i)) l -> writable m dst room ->
  0 <= i -> i + zlength l <= n -> w0 <= w -> w + 2 * zlength l <= w0 + k ->
  exists m', hex_encode_loop (length l) i w src dst m = Ret (w + 2 * zlength l) m'
    /\ written m (ptr_add dst w) (hex_text l) m'.
Proof using Hd Hw0 Hroom.
  induction l as [| c l IH]; intros i w m Hc Hk Hi Hn Hw Hfit; cbn [length hex_encode_loop].
  - exists m. change (zlength []) with 0. rewrite Z.add_0_r. split; [reflexivity | now left].
  - rewrite zlength_cons in *. pose proof (zlength_nonneg l).
    pose proof (cursor_tail_at _ _ _ _ _ _ Hc) as [Hx _]. run Hx.
    destruct (nibble_chars c) as [-> N2].
    destruct (store_two m dst w room (digit_ascii (c / 16 mod 16)) (digit_ascii (c mod 16)) Hk)
      as (m1 & m2 & E1 & H1 & E2 & H2); [lia | lia |].
    run E1.
    assert (load_u8 (ptr_add src i) m1 = Ret c m1) as Hx1.
    { apply (cursor_tail_at _ (1 + zlength l) _ _ _ l), (cursor_stable _ _ _ _ _ _ _ H1); [disjoint Hd src dst | exact Hc]. }
    run Hx1. rewrite N2. run E2.
    assert (cursor_ok m2 (mk_cursor (zlength l) (ptr_add src (i + 1))) l) as Hc2.
    { apply (cursor_stable _ _ _ _ _ _ _ H2); [disjoint Hd src dst |].
      apply cursor_tail_at in Hc as [_ Hc]. now replace (1 + zlength l - 1) with (zlength l) in Hc by lia. }
    destruct (IH (i + 1) (w + 2) m2) as (m3 & E3 & H3); auto; try lia.
    { exact (written_writable _ _ _ _ _ _ H2 Hk). }
    exists m3. rewrite E3. split; [f_equal; lia |].
    apply (written_app m _ (hex_digits c) m2 (hex_text l)); [exact H2 |]. now rewrite ptr_add_add.
Qed.

Lemma hex_decode_loop_spec l : forall i w m,
  Z.even (zlength l) = true ->
  cursor_ok m (mk_cursor (zlength l) (ptr_add src i)) l -> writable m dst room ->
  0 <= i -> i + zlength l <= n -> w0 <= w -> w + zlength l / 2 <= w0 + k ->
  exists rv m' bs, hex_decode_loop (Nat.div2 (length l)) i w src dst m = Ret rv m'
    /\ written m (ptr_add dst w) bs m'
    /\ match hex_pairs l with
       | Some vs => rv = AWS_OP_SUCCESS /\ bs = vs
       | None => rv = AWS_OP_ERR AWS_ERROR_INVALID_HEX_STR
       end.
Proof using Hd Hw0 Hroom.
  induction l as [l IH] using (induction_ltof1 _ (@length Z)).
  intros i w m Hev Hc Hk Hi Hn Hw Hfit. destruct l as [| c [| d l]]; [| discriminate |].
  { exists AWS_OP_SUCCESS, m, []. cbn. split_and!; auto. now left. }
  cbn [length Nat.div2 hex_decode_loop hex_pairs]. rewrite !zlength_cons in *.
  rewrite !Z.even_add in Hev. cbn [Z.even eqb] in Hev. pose proof (zlength_nonneg l).
  assert ((1 + (1 + zlength l)) / 2 = 1 + zlength l / 2) as Hdiv
    by (replace (1 + (1 + zlength l)) with (zlength l + 1 * 2) by lia; rewrite Z.div_add; lia).
  assert (0 <= zlength l / 2) by (apply Z.div_pos; lia).
  pose proof (cursor_tail_at _ _ _ _ _ _ Hc) as [Hx Hc1].
  pose proof (cursor_tail_at _ _ _ _ _ _ Hc1) as [Hy Hc2]. run Hx. rewrite hex_decode_char.
  destruct (ascii_digit c) as [high |] eqn:Eh;
    [| exists (AWS_OP_ERR AWS_ERROR_INVALID_HEX_STR), m, []; cbn; split_and!; auto; now left].
  run Hy. rewrite hex_decode_char. cbn [mbind option_bind].
  destruct (ascii_digit d) as [low |] eqn:El;
    [| exists (AWS_OP_ERR AWS_ERROR_INVALID_HEX_STR), m, []; cbn; split_and!; auto; now left].
  rewrite join_nibbles by eauto using ascii_digit_range.
  destruct (store_next m dst w room [16 * high + low] Hk) as (m1 & E1 & H1);
    [lia | change (zlength [_]) with 1; lia |].
  run E1. destruct (IH l ltac:(unfold ltof; cbn; lia) (i + 2) (w + 1) m1) as (rv & m2 & bs & E2 & H2 & Hr);
    auto; try lia.
  { now destruct (Z.even (zlength l)). }
  { apply (cursor_stable _ _ _ _ _ _ _ H1); [disjoint Hd src dst |].
    replace (zlength l) with (1 + (1 + zlength l) - 1 - 1) by lia.
    now replace (i + 2) with (i + 1 + 1) by lia. }
  { exact (written_writable _ _ _ _ _ _ H1 Hk). }
  exists rv, m2, ((16 * high + low) :: bs). split_and!; auto.
  - apply (written_app m _ [_] m1 bs); [exact H1 |]. now rewrite ptr_add_add.
  - cbn. destruct (hex_pairs l); cbn; [| exact Hr]. destruct Hr as [-> ->]. auto.
Qed.
End loops.

(** ** The functions *)

Lemma hex_encoded_len n :
  0 <= n < SIZE_MAX ->
  aws_hex_compute_encoded_len n
  = if SIZE_MAX <? 2 * n + 1 then Err AWS_ERROR_OVERFLOW_DETECTED else Ok (2 * n + 1).
Proof.
  intros Hn. unfold aws_hex_compute_encoded_len. rewrite Z.shiftl_mul_pow2 by lia.
  change (2 ^ 1) with 2. unfold u64, SIZE_MAX in *.
  destruct (Z.lt_ge_cases n (2 ^ 63)).
  - rewrite (Z.mod_small (n * 2)), Z.mod_small by lia. zcase; (lia || (f_equal; lia)).
  - replace ((n * 2) mod 2 ^ 64) with (n * 2 - 2 ^ 64)
      by (apply (Z.mod_unique _ _ 1); lia).
    rewrite Z.mod_small by lia. zcase; (reflexivity || lia).
Qed.

Lemma hex_decoded_len n :
  0 <= n <= SIZE_MAX ->
  aws_hex_compute_decoded_len n
  = if n =? SIZE_MAX then Err AWS_ERROR_OVERFLOW_DETECTED else Ok ((n + 1) / 2).
Proof.
  intros Hn. unfold aws_hex_compute_decoded_len. rewrite Z.shiftr_div_pow2 by lia.
  change (2 ^ 1) with 2. unfold u64, SIZE_MAX in *. destruct (Z.eqb_spec n (2 ^ 64 - 1)) as [-> | E].
  - reflexivity.
  - rewrite Z.mod_small by lia. zcase; (reflexivity || lia).
Qed.

(** What [aws_hex_encode] does: text and terminator from the start of the
    buffer, nothing at all when they do not fit. *)
Lemma hex_encode_spec m cur l out :
  cursor_ok m cur l -> cur_len cur < SIZE_MAX ->
  writable m (buf_buffer out) (buf_capacity out) ->
  disjoint_ranges (cur_ptr cur) (cur_len cur) (buf_buffer out) (buf_capacity out) ->
  exists rv out' m', aws_hex_encode cur out m = Ret (rv, out') m'
    /\ if SIZE_MAX <? 2 * cur_len cur + 1
       then rv = AWS_OP_ERR AWS_ERROR_OVERFLOW_DETECTED /\ out' = out /\ m' = m
       else if buf_capacity out <? 2 * cur_len cur + 1
       then rv = AWS_OP_ERR AWS_ERROR_SHORT_BUFFER /\ out' = out /\ m' = m
       else rv = AWS_OP_SUCCESS /\ out' = set_len out (2 * cur_len cur + 1)
            /\ written m (buf_buffer out) (hex_text l ++ [0]) m'.
Proof.
  intros Hc Hlt Hw Hd. pose proof (cursor_len _ _ _ Hc) as [Hl Hz].
  unfold aws_hex_encode. rewrite hex_encoded_len by lia.
  destruct (Z.ltb_spec SIZE_MAX (2 * cur_len cur + 1)); [eexists _, _, _; eauto |].
  destruct (Z.ltb_spec (buf_capacity out) (2 * cur_len cur + 1)); [eexists _, _, _; eauto |].
  destruct cur as [n src]. cbn [cur_len cur_ptr] in *. subst n.
  rewrite <- (ptr_add_0 (buf_buffer out)) in Hd.
  destruct (hex_encode_loop_spec src (buf_buffer out) _ 0 _ (buf_capacity out) Hd ltac:(lia) ltac:(lia) l 0 0 m)
    as (m1 & E1 & H1); auto; try lia; [now rewrite ptr_add_0 |].
  rewrite ptr_add_0 in H1. replace (Z.to_nat (zlength l)) with (length l) by (unfold zlength; lia).
  run E1. destruct (store_next m1 (buf_buffer out) (0 + 2 * zlength l) (buf_capacity out) [0])
    as (m2 & E2 & H2); [exact (written_writable _ _ _ _ _ _ H1 Hw) | lia | change (zlength [0]) with 1; lia |].
  run E2. eexists _, _, m2. split_and!; try reflexivity.
  apply (written_app m _ _ m1); [exact H1 |]. now rewrite zlength_hex_text.
Qed.

Definition decode_result (out : aws_byte_buf) (v : option (list Z)) (rv : op_result)
    (out' : aws_byte_buf) (bs : list Z) : Prop :=
  match v with
  | Some vs => rv = AWS_OP_SUCCESS /\ bs = vs /\ out' = set_len out (zlength vs)
  | None => rv = AWS_OP_ERR AWS_ERROR_INVALID_HEX_STR /\ out' = out
  end.

Lemma hex_pairs_length l : forall vs, hex_pairs l = Some vs -> zlength l = 2 * zlength vs.
Proof.
  induction l as [l IH] using (induction_ltof1 _ (@length Z)). intros vs H.
  destruct l as [| c [| d l]]; [injection H as <-; reflexivity | discriminate |].
  cbn [hex_pairs] in H. apply bind_Some in H as (h & _ & H). apply bind_Some in H as (w & _ & H).
  apply bind_Some in H as (r & Hr & H). injection H as <-. rewrite !zlength_cons.
  rewrite (IH l ltac:(unfold ltof; cbn; lia) r Hr). lia.
Qed.

Lemma half_length (l : list Z) : Z.to_nat (zlength l / 2) = Nat.div2 (length l).
Proof.
  unfold zlength. change 2 with (Z.of_nat 2). rewrite <- Nat2Z.inj_div, Nat2Z.id.
  symmetry. apply Nat.div2_div.
Qed.

Section hex_decode.
Context (m : mem) (src : ptr) (l : list Z) (out : aws_byte_buf).
Hypothesis Hc : cursor_ok m (mk_cursor (zlength l) src) l.
Hypothesis Hlt : zlength l < SIZE_MAX.
Hypothesis Hcap : (zlength l + 1) / 2 <= buf_capacity out.
Hypothesis Hw : writable m (buf_buffer out) (buf_capacity out).
Hypothesis Hd : disjoint_ranges src (zlength l) (ptr_add (buf_buffer out) 0) (buf_capacity out).

Definition decoded (r : outcome (op_result * aws_byte_buf)) (v : option (list Z)) : Prop :=
  exists rv out' m' bs, r = Ret (rv, out') m'
    /\ written m (buf_buffer out) bs m' /\ decode_result out v rv out' bs.

Lemma hex_decode_start :
  aws_hex_decode (mk_cursor (zlength l) src) out m
  = (first ← (if negb (Z.even (zlength l)) then
                c ← load_u8 src;
                match s_hex_decode_char_to_int c with
                | None => mret None
                | Some low_value => _ ← store (buf_buffer out) [low_value]; mret (Some 1)
                end
              else mret (Some 0));
     match first with
     | None => mret (aws_raise_error AWS_ERROR_INVALID_HEX_STR, out)
     | Some i =>
         rv ← hex_decode_loop (Z.to_nat ((zlength l - i) / 2)) i i src (buf_buffer out);
         mret (rv, match rv with
                   | AWS_OP_SUCCESS => set_len out ((zlength l + 1) / 2)
                   | AWS_OP_ERR _ => out
                   end)
     end) m.
Proof using Hlt Hcap.
  pose proof (zlength_nonneg l). unfold aws_hex_decode. cbn [cur_len cur_ptr].
  rewrite hex_decoded_len, (proj2 (Z.eqb_neq _ _)), (proj2 (Z.ltb_ge _ _)) by lia.
  change 1 with (2 ^ 1 - 1) at 2. rewrite land_pow2_mask by lia. change (2 ^ 1) with 2.
  rewrite Zmod_even. now destruct (Z.even (zlength l)).
Qed.

Lemma hex_decode_even :
  Z.even (zlength l) = true ->
  decoded (aws_hex_decode (mk_cursor (zlength l) src) out m) (hex_pairs l).
Proof using Hc Hlt Hcap Hw Hd.
  intros Hev. rewrite hex_decode_start, Hev. cbn [negb]. pose proof (zlength_nonneg l).
  rewrite (run_bind _ _ m (Some 0) m eq_refl), Z.sub_0_r, half_length.
  destruct (hex_decode_loop_spec src (buf_buffer out) _ 0 _ (buf_capacity out) Hd
              ltac:(lia) ltac:(lia) l 0 0 m)
    as (rv & m' & bs & E & Hwr & Hr); auto; try lia; [now rewrite ptr_add_0 | |].
  { pose proof (Z.div_le_mono (zlength l) (zlength l + 1) 2). lia. }
  run E. rewrite ptr_add_0 in Hwr. eexists _, _, m', bs. split; [reflexivity |]. split; [exact Hwr |].
  destruct (hex_pairs l) as [vs |] eqn:Ep; cbn [decode_result];
    [destruct Hr as [-> ->] | subst rv; auto].
  split_and!; auto. f_equal. rewrite (hex_pairs_length _ _ Ep).
  rewrite Z.mul_comm, Z.div_add_l by lia. change (1 / 2) with 0. lia.
Qed.

Lemma hex_decode_odd :
  Z.even (zlength l) = false ->
  decoded (aws_hex_decode (mk_cursor (zlength l) src) out m) (hex_pairs (48 :: l)).
Proof using Hc Hlt Hcap Hw Hd.
  intros Hev. rewrite hex_decode_start, Hev. cbn [negb].
  destruct l as [| d t]; [discriminate |]. rewrite zlength_cons in *. pose proof (zlength_nonneg t).
  rewrite Z.even_add in Hev. replace (1 + zlength t - 1) with (zlength t) by lia.
  assert ((1 + zlength t + 1) / 2 = 1 + zlength t / 2) as Hdiv
    by (replace (1 + zlength t + 1) with (zlength t + 1 * 2) by lia; rewrite Z.div_add; lia).
  pose proof (Z.div_pos (zlength t) 2 ltac:(lia) ltac:(lia)). pose proof (cursor_tail _ _ _ _ _ Hc) as [Hx Hc1].
  rewrite bind_assoc_step. run Hx. cbn [hex_pairs].
  rewrite hex_decode_char. change (ascii_digit 48) with (Some 0). cbn [mbind option_bind].
  destruct (ascii_digit d) as [low |] eqn:El.
  2: { exists (AWS_OP_ERR AWS_ERROR_INVALID_HEX_STR), out, m, []. cbn. split_and!; auto. now left. }
  rewrite bind_assoc_step.
  destruct (store_next m (buf_buffer out) 0 (buf_capacity out) [low]) as (m1 & E1 & H1);
    [auto | lia | change (zlength [low]) with 1; lia |].
  rewrite ptr_add_0 in E1. run E1.
  replace (1 + zlength t - 1) with (zlength t) in * by lia.
  rewrite (run_bind _ _ m1 (Some 1) m1 eq_refl). replace (1 + zlength t - 1) with (zlength t) by lia.
  rewrite half_length.
  destruct (hex_decode_loop_spec src (buf_buffer out) _ 0 _ (buf_capacity out) Hd
              ltac:(lia) ltac:(lia) t 1 1 m1) as (rv & m' & bs & E & Hwr & Hr); auto; try lia.
  { now destruct (Z.even (zlength t)). }
  { apply (cursor_stable _ _ _ _ _ _ _ H1); [disjoint Hd src (buf_buffer out) | exact Hc1]. }
  { exact (written_writable _ _ _ _ _ _ H1 Hw). }
  run E. eexists _, _, m', (low :: bs). split; [reflexivity |]. rewrite ptr_add_0 in H1.
  split; [apply (written_app m _ [low] m1); [exact H1 | exact Hwr] |].
  destruct (hex_pairs t) as [vs |] eqn:Ep; cbn [mbind option_bind decode_result];
    [destruct Hr as [-> ->] | subst rv; auto].
  split_and!; auto. f_equal. rewrite Hdiv, (hex_pairs_length _ _ Ep), zlength_cons.
  rewrite Z.mul_comm, Z.div_mul by lia. lia.
Qed.

Lemma hex_decode_spec : decoded (aws_hex_decode (mk_cursor (zlength l) src) out m) (hex_value l).
Proof using Hc Hlt Hcap Hw Hd.
  unfold hex_value. destruct (Z.even (zlength l)) eqn:E; [now apply hex_decode_even | now apply hex_decode_odd].
Qed.
End hex_decode.

(** [aws_hex_decode] of any readable text whose output has room: it reports
    AWS_ERROR_INVALID_HEX_STR exactly when a character is not a hexadecimal
    digit, and otherwise writes the value of the text (either case of the
    letters; an odd first digit is a byte of its own) and nothing else and
    sets the length to the number of bytes. It reports AWS_ERROR_SHORT_BUFFER
    without touching anything when the output has no room. *)
Theorem hex_decode_correct (m : mem) (cur : aws_byte_cursor) (l : list Z) (out : aws_byte_buf) :
  cursor_ok m cur l -> cur_len cur < SIZE_MAX ->
  writable m (buf_buffer out) (buf_capacity out) ->
  disjoint_ranges (cur_ptr cur) (cur_len cur) (buf_buffer out) (buf_capacity out) ->
  if buf_capacity out <? (cur_len cur + 1) / 2
  then aws_hex_decode cur out m = Ret (AWS_OP_ERR AWS_ERROR_SHORT_BUFFER, out) m
  else exists rv out' m' bs, aws_hex_decode cur out m = Ret (rv, out') m'
         /\ written m (buf_buffer out) bs m'
         /\ match hex_value l with
            | Some vs => rv = AWS_OP_SUCCESS /\ bs = vs /\ out' = set_len out (zlength vs)
            | None => rv = AWS_OP_ERR AWS_ERROR_INVALID_HEX_STR /\ out' = out
            end.
Proof.
  intros Hc Hlt Hw Hd. pose proof (cursor_len _ _ _ Hc) as [Hl Hz].
  destruct cur as [n src]. cbn [cur_len cur_ptr] in *. subst n.
  destruct (Z.ltb_spec (buf_capacity out) ((zlength l + 1) / 2)) as [Hs | Hs].
  - unfold aws_hex_decode. cbn [cur_len].
    now rewrite hex_decoded_len, (proj2 (Z.eqb_neq _ _)), (proj2 (Z.ltb_lt _ _)) by lia.
  - rewrite <- (ptr_add_0 (buf_buffer out)) in Hd. now apply hex_decode_spec.
Qed.

(** "1fF" at the start of a block with room behind it. *)
Definition text_mem : mem :=
  mk_mem {[1%positive := [49; 102; 70]; 2%positive := [9; 9; 9; 9; 9; 9; 9; 9; 9; 9]]} (fun _ _ => 7) [].
Definition out_buf : aws_byte_buf := mk_buf 0 (Ptr 2 0) 10 None.

Lemma out_buf_writable : writable text_mem (buf_buffer out_buf) (buf_capacity out_buf).
Proof.
  right. exists 2%positive, 0, [9; 9; 9; 9; 9; 9; 9; 9; 9; 9]. unfold zlength. cbn.
  split_and!; auto; lia.
Qed.

Lemma hex_decode_correct_witness :
  exists out' m', aws_hex_decode (mk_cursor 3 (Ptr 1 0)) out_buf text_mem
                  = Ret (AWS_OP_SUCCESS, out') m'
    /\ bytes_at m' (Ptr 2 0) 2 = Some [1; 255] /\ buf_len out' = 2.
Proof.
  pose proof (hex_decode_correct text_mem (mk_cursor 3 (Ptr 1 0)) [49; 102; 70] out_buf) as H.
  assert (cursor_ok text_mem (mk_cursor 3 (Ptr 1 0)) [49; 102; 70]) as Hc
    by (constructor; [reflexivity | unfold SIZE_MAX; cbn; lia]).
  specialize (H Hc ltac:(unfold SIZE_MAX; cbn; lia) out_buf_writable ltac:(cbn; discriminate)).
  cbn [buf_capacity out_buf cur_len] in H. change (10 <? (3 + 1) / 2) with false in H.
  destruct H as (rv & out' & m' & bs & Heq & Hw & Hr).
  change (hex_value [49; 102; 70]) with (Some [1; 255]) in Hr. destruct Hr as (-> & -> & ->).
  exists (set_len out_buf 2), m'. split; [exact Heq |]. split; [exact (written_same _ _ _ _ Hw) | reflexivity].
Defined.

(** [aws_hex_encode] followed by [aws_hex_decode] of its text is the
    identity on bytes: encoding succeeds whenever two characters per byte and
    the terminator fit, writes exactly the lower-case digits and the NUL, and
    decoding that text into a large enough buffer gives back the bytes. *)
Theorem hex_roundtrip (m : mem) (cur : aws_byte_cursor) (l : list Z) (text back : aws_byte_buf) :
  cursor_ok m cur l -> Forall is_u8 l -> 2 * cur_len cur + 1 <= buf_capacity text <= SIZE_MAX ->
  cur_len cur <= buf_capacity back ->
  writable m (buf_buffer text) (buf_capacity text) ->
  writable m (buf_buffer back) (buf_capacity back) ->
  disjoint_ranges (cur_ptr cur) (cur_len cur) (buf_buffer text) (buf_capacity text) ->
  disjoint_ranges (buf_buffer text) (buf_capacity text) (buf_buffer back) (buf_capacity back) ->
  exists text' m1, aws_hex_encode cur text m = Ret (AWS_OP_SUCCESS, text') m1
    /\ written m (buf_buffer text) (hex_text l ++ [0]) m1
    /\ buf_len text' = 2 * cur_len cur + 1
    /\ exists back' m2,
         aws_hex_decode (mk_cursor (buf_len text' - 1) (buf_buffer text')) back m1
         = Ret (AWS_OP_SUCCESS, back') m2
         /\ bytes_at m2 (buf_buffer back') (buf_len back') = Some l.
Proof.
  intros Hc Hby Ht Hb Hwt Hwb Hdt Hdb. pose proof (cursor_len _ _ _ Hc) as [Hl Hz].
  destruct (hex_encode_spec m cur l text Hc) as (rv & text' & m1 & E1 & Hr1); auto; [lia |].
  rewrite (proj2 (Z.ltb_ge _ _)), (proj2 (Z.ltb_ge _ _)) in Hr1 by lia.
  destruct Hr1 as (-> & -> & H1). eexists _, m1. split_and!; eauto. cbn [buf_len buf_buffer set_len].
  replace (2 * cur_len cur + 1 - 1) with (zlength (hex_text l)) by (rewrite zlength_hex_text; lia).
  pose proof (written_same _ _ _ _ H1) as Hs. rewrite zlength_app, zlength_hex_text in Hs.
  change (zlength [0]) with 1 in Hs.
  destruct (hex_decode_spec m1 (buf_buffer text) (hex_text l) back)
    as (rv & back' & m2 & bs & E2 & H2 & Hr2).
  - constructor; cbn [cur_len cur_ptr]; rewrite zlength_hex_text; [| lia].
    rewrite (bytes_at_prefix _ _ _ _ _ Hs) by lia. rewrite slice_Some by (rewrite ?zlength_app, ?zlength_hex_text; change (zlength [0]) with 1; lia).
    rewrite drop_0, take_app_length'; [reflexivity |].
    pose proof (zlength_hex_text l). unfold zlength in *. lia.
  - rewrite zlength_hex_text. lia.
  - rewrite zlength_hex_text, Hz, Z.mul_comm, Z.div_add_l by lia. change (1 / 2) with 0. lia.
  - exact (written_writable _ _ _ _ _ _ H1 Hwb).
  - rewrite ptr_add_0, zlength_hex_text. revert Hdb. destruct (buf_buffer text), (buf_buffer back); cbn; auto.
    intros Hx E. specialize (Hx E). lia.
  - rewrite hex_value_text in Hr2 by exact Hby. destruct Hr2 as (-> & -> & ->).
    eexists _, m2. split; [exact E2 |]. exact (written_same _ _ _ _ H2).
Qed.

Definition round_mem : mem :=
  mk_mem {[1%positive := [171; 0; 16]; 2%positive := [9; 9; 9; 9; 9; 9; 9; 9; 9; 9];
           3%positive := [9; 9; 9; 9]]} (fun _ _ => 7) [].

Lemma hex_roundtrip_witness :
  exists text' m1 back' m2,
    aws_hex_encode (mk_cursor 3 (Ptr 1 0)) out_buf round_mem = Ret (AWS_OP_SUCCESS, text') m1
    /\ aws_hex_decode (mk_cursor (buf_len text' - 1) (buf_buffer text')) (mk_buf 0 (Ptr 3 0) 4 None) m1
       = Ret (AWS_OP_SUCCESS, back') m2
    /\ bytes_at m2 (buf_buffer back') (buf_len back') = Some [171; 0; 16].
Proof.
  assert (cursor_ok round_mem (mk_cursor 3 (Ptr 1 0)) [171; 0; 16]) as Hc
    by (constructor; [reflexivity | unfold SIZE_MAX; cbn; lia]).
  destruct (hex_roundtrip round_mem (mk_cursor 3 (Ptr 1 0)) [171; 0; 16] out_buf
              (mk_buf 0 (Ptr 3 0) 4 None) Hc)
    as (text' & m1 & E1 & _ & _ & back' & m2 & E2 & H2).
  - repeat constructor; unfold is_u8; lia.
  - unfold SIZE_MAX. cbn. lia.
  - cbn. lia.
  - right. exists 2%positive, 0, [9; 9; 9; 9; 9; 9; 9; 9; 9; 9]. unfold zlength. cbn. split_and!; auto; lia.
  - right. exists 3%positive, 0, [9; 9; 9; 9]. unfold zlength. cbn. split_and!; auto; lia.
  - cbn. discriminate.
  - cbn. discriminate.
  - exists text', m1, back', m2. auto.
Defined.

(** The overflow test of [aws_hex_compute_encoded_len] misses one length. *)
Theorem hex_encoded_len_misses_size_max : aws_hex_compute_encoded_len SIZE_MAX = Ok SIZE_MAX.
Proof. reflexivity. Qed.
