(* ===== verification/Base64Spec.v ===== *)
(** * Base64: correctness

    [base64_text] is the encoding of RFC 4648 on lists of bytes and
    [base64_value] what the decoder reads from a text. *)

From S2P Require Import Prelude Math ByteOrder Memory ByteBuf ByteBufSpec ByteCursorSpec.
From S2P Require Import ByteCursorText ByteCursorOrder Encoding EncodingSpec.
Import ByteBuf Encoding.

Local Open Scope Z_scope.

(** Induction on a list three elements at a time. *)
Lemma list_ind3 {A} (P : list A -> Prop) :
  P [] -> (forall a, P [a]) -> (forall a b, P [a; b]) ->
  (forall a b c l, P l -> P (a :: b :: c :: l)) -> forall l, P l.
Proof.
  intros H0 H1 H2 H3 l. induction l as [l IH] using (induction_ltof1 _ (@length A)).
  destruct l as [| a [| b [| c l]]]; auto. apply H3, IH. unfold ltof. cbn. lia.
Qed.

(** ** On lists *)

(** The alphabet of RFC 4648. *)
Definition b64_char (v : Z) : Z :=
  if v <? 26 then 65 + v
  else if v <? 52 then 97 + (v - 26)
  else if v <? 62 then 48 + (v - 52)
  else if v =? 62 then 43 else 47.

(** The value of a character, and 64 for NUL, which the decoder accepts. *)
Definition b64_digit (c : Z) : option Z :=
  if (65 <=? c) && (c <=? 90) then Some (c - 65)
  else if (97 <=? c) && (c <=? 122) then Some (c - 97 + 26)
  else if (48 <=? c) && (c <=? 57) then Some (c - 48 + 52)
  else if c =? 43 then Some 62
  else if c =? 47 then Some 63
  else if c =? 0 then Some 64
  else None.

(** Three bytes as four groups of six bits. *)
Definition sixths (a b c : Z) : list Z :=
  [b64_char (a / 4); b64_char (a mod 4 * 16 + b / 16); b64_char (b mod 16 * 4 + c / 64); b64_char (c mod 64)].

(** '=' is 61. *)
Fixpoint base64_text (l : list Z) : list Z :=
  match l with
  | [] => []
  | [a] => take 2 (sixths a 0 0) ++ [61; 61]
  | [a; b] => take 3 (sixths a b 0) ++ [61]
  | a :: b :: c :: l => sixths a b c ++ base64_text l
  end.

(** The text before padding. *)
Fixpoint raw_text (l : list Z) : list Z :=
  match l with
  | [] => []
  | [a] => sixths a 0 0
  | [a; b] => sixths a b 0
  | a :: b :: c :: l => sixths a b c ++ raw_text l
  end.

(** Bytes from groups of six bits; a group of value 64 spills into the byte
    before it only as far as the decoder lets it. *)
Definition first_byte (v1 v2 : Z) : Z := (v1 * 4 + v2 / 16 mod 4) mod 256.
Definition second_byte (v2 v3 : Z) : Z := v2 mod 16 * 16 + v3 / 4 mod 16.
Definition third_byte (v3 v4 : Z) : Z := Z.lor (v3 mod 4 * 64) v4.

(** The last block may end in '='; [decode_last] gives the bytes the decoder
    stores for it, also when '=' is followed by another character. *)
Definition decode_last (c1 c2 c3 c4 : Z) : option (list Z) :=
  v1 ← b64_digit c1;
  v2 ← b64_digit c2;
  if c3 =? 61 then
    if c4 =? 61 then Some [first_byte v1 v2] else _ ← b64_digit c4; Some [first_byte v1 v2]
  else
    v3 ← b64_digit c3;
    if c4 =? 61 then Some [first_byte v1 v2; second_byte v2 v3]
    else v4 ← b64_digit c4; Some [first_byte v1 v2; second_byte v2 v3; third_byte v3 v4].

Definition decode_block (c1 c2 c3 c4 : Z) : option (list Z) :=
  v1 ← b64_digit c1;
  v2 ← b64_digit c2;
  v3 ← b64_digit c3;
  v4 ← b64_digit c4;
  Some [first_byte v1 v2; second_byte v2 v3; third_byte v3 v4].

Fixpoint base64_value (l : list Z) : option (list Z) :=
  match l with
  | [] => Some []
  | [c1; c2; c3; c4] => decode_last c1 c2 c3 c4
  | c1 :: c2 :: c3 :: c4 :: l =>
      bs ← decode_block c1 c2 c3 c4; rest ← base64_value l; Some (bs ++ rest)
  | _ => None
  end.

Lemma zlength_raw_text l : zlength (raw_text l) = 4 * ((zlength l + 2) / 3).
Proof.
  induction l as [| a | a b | a b c l IH] using list_ind3; try reflexivity.
  cbn [raw_text sixths app]. rewrite !zlength_cons, IH.
  replace (1 + (1 + (1 + zlength l)) + 2) with (zlength l + 2 + 1 * 3) by lia.
  rewrite Z.div_add by lia. lia.
Qed.

Lemma zlength_base64_text l : zlength (base64_text l) = zlength (raw_text l).
Proof.
  induction l as [| a | a b | a b c l IH] using list_ind3; try reflexivity.
  cbn [base64_text raw_text]. now rewrite !zlength_app, IH.
Qed.

(** How the text follows from the raw text: the last characters are replaced. *)
Lemma base64_text_padding l :
  if zlength l mod 3 =? 0 then base64_text l = raw_text l
  else if zlength l mod 3 =? 1
  then exists k x y, raw_text l = k ++ [x; y] /\ base64_text l = k ++ [61; 61]
  else exists k x, raw_text l = k ++ [x] /\ base64_text l = k ++ [61].
Proof.
  induction l as [| a | a b | a b c l IH] using list_ind3; [reflexivity | | |].
  - exists (take 2 (sixths a 0 0)). cbn -[b64_char]. eauto.
  - exists (take 3 (sixths a b 0)). cbn -[b64_char]. eauto.
  - rewrite !zlength_cons. replace (1 + (1 + (1 + zlength l))) with (zlength l + 1 * 3) by lia.
    rewrite Z.mod_add by lia. cbn [base64_text raw_text].
    destruct (_ =? 0); [now rewrite IH |].
    destruct (_ =? 1); [destruct IH as (k & x & y & -> & ->) | destruct IH as (k & x & -> & ->)];
      exists (sixths a b c ++ k); rewrite <- !app_assoc; eauto.
Qed.

(** ** Values of characters *)

Definition block_of (a b c : Z) : Z := a * 65536 + b * 256 + c.

Definition is_six (v : Z) : Prop := 0 <= v < 64.

Lemma char_table v : is_six v -> base64_char v = b64_char v.
Proof. unfold is_six. intros Hv. by_cases 64%nat v. Qed.

Lemma char_digit v : is_six v -> b64_digit (b64_char v) = Some v.
Proof. unfold is_six. intros Hv. by_cases 64%nat v. Qed.

Lemma char_not_pad v : is_six v -> (b64_char v =? 61) = false.
Proof. unfold is_six. intros Hv. by_cases 64%nat v. Qed.

(** What the decoder reads from its table: '=' has the sentinel value. *)
Lemma decoded_value c b :
  is_u8 c ->
  s_base64_get_decoded_value c b
  = if c =? 61 then (if b then Some BASE64_SENTIANAL_VALUE else None) else b64_digit c.
Proof. unfold is_u8. intros Hc. destruct b; by_cases 256%nat c. Qed.

Lemma digit_range c v : b64_digit c = Some v -> 0 <= v < 65.
Proof. unfold b64_digit. zcase; try discriminate; intros [= <-]; lia. Qed.

Lemma digit_not_pad c v : b64_digit c = Some v -> (c =? 61) = false.
Proof. destruct (Z.eqb_spec c 61) as [-> |]; [discriminate | reflexivity]. Qed.

Lemma bytes_join v w :
  0 <= v < 65 -> 0 <= w < 65 ->
  byte_1 v w = first_byte v w /\ byte_2 v w = second_byte v w /\ byte_3 v w = third_byte v w.
Proof.
  intros Hv Hw.
  pose (f := fun v w => (byte_1 v w =? first_byte v w) && (byte_2 v w =? second_byte v w)
                        && (byte_3 v w =? third_byte v w)).
  assert (forallb (fun w => f v (Z.of_nat w)) (seq 0 65) = true) as H.
  { revert v Hv. apply (range_cases 65). vm_compute. reflexivity. }
  pose proof (range_cases 65 (f v) H w Hw) as E. unfold f in E.
  rewrite !andb_true_iff, !Z.eqb_eq in E. tauto.
Qed.

Lemma join_six v w :
  is_six v -> is_six w ->
  first_byte v w = v * 4 + w / 16 /\ second_byte v w = v mod 16 * 16 + w / 4
  /\ third_byte v w = v mod 4 * 64 + w.
Proof.
  unfold is_six, first_byte, second_byte, third_byte. intros Hv Hw.
  split_and!; [Z.div_mod_to_equations; lia | Z.div_mod_to_equations; lia |].
  change 64 with (2 ^ 6) at 1. rewrite <- Z.shiftl_mul_pow2 by lia. now apply lor_shiftl_add.
Qed.

(** The four sixths of a block. *)
Lemma block_sixths a b c :
  is_u8 a -> is_u8 b -> is_u8 c ->
  let block := block_of a b c in
  Z.land (Z.shiftr block 18) 0x3F = a / 4
  /\ Z.land (Z.shiftr block 12) 0x3F = a mod 4 * 16 + b / 16
  /\ Z.land (Z.shiftr block 6) 0x3F = b mod 16 * 4 + c / 64
  /\ Z.land block 0x3F = c mod 64.
Proof.
  intros Ha Hb Hc block. unfold is_u8 in *. change 0x3F with (2 ^ 6 - 1).
  rewrite !land_pow2_mask, !Z.shiftr_div_pow2 by lia. unfold block, block_of.
  change (2 ^ 6) with 64. change (2 ^ 18) with 262144. change (2 ^ 12) with 4096.
  split_and!; Z.div_mod_to_equations; lia.
Qed.

Lemma sixths_range a b c :
  is_u8 a -> is_u8 b -> is_u8 c ->
  is_six (a / 4) /\ is_six (a mod 4 * 16 + b / 16) /\ is_six (b mod 16 * 4 + c / 64) /\ is_six (c mod 64).
Proof. unfold is_u8, is_six. intros. split_and!; Z.div_mod_to_equations; lia. Qed.

Lemma block_chars_sixths a b c :
  is_u8 a -> is_u8 b -> is_u8 c -> block_chars (block_of a b c) = sixths a b c.
Proof.
  intros Ha Hb Hc. unfold block_chars, sixths. destruct (block_sixths a b c) as (-> & -> & -> & ->); auto.
  destruct (sixths_range a b c) as (H1 & H2 & H3 & H4); auto. now rewrite !char_table.
Qed.

Lemma decode_sixths a b c :
  is_u8 a -> is_u8 b -> is_u8 c ->
  match sixths a b c with
  | [c1; c2; c3; c4] => decode_block c1 c2 c3 c4 = Some [a; b; c]
                        /\ decode_last c1 c2 c3 c4 = Some [a; b; c]
                        /\ (b = 0 -> c = 0 -> decode_last c1 c2 61 61 = Some [a])
                        /\ (c = 0 -> decode_last c1 c2 c3 61 = Some [a; b])
  | _ => False
  end.
Proof.
  intros Ha Hb Hc. unfold sixths, decode_block, decode_last.
  destruct (sixths_range a b c) as (H1 & H2 & H3 & H4); auto.
  rewrite !char_digit, !char_not_pad by auto. cbn [mbind option_bind].
  change (61 =? 61) with true. cbn beta iota. cbn [mbind option_bind].
  destruct (join_six _ _ H1 H2) as (-> & _ & _). destruct (join_six _ _ H2 H3) as (_ & -> & _).
  destruct (join_six _ _ H3 H4) as (_ & _ & ->). unfold is_u8 in *.
  split_and!; intros; subst; repeat f_equal; Z.div_mod_to_equations; lia.
Qed.

Lemma base64_value_text l : Forall is_u8 l -> base64_value (base64_text l) = Some l.
Proof.
  assert (is_u8 0) as H0 by (unfold is_u8; lia).
  induction l as [| a | a b | a b c l IH] using list_ind3; intros H; [reflexivity | | |];
    rewrite ?Forall_cons in H; cbn [base64_text].
  - destruct H as [Ha _]. pose proof (decode_sixths a 0 0 Ha H0 H0) as E.
    cbn -[b64_char decode_last Z.div Z.modulo Z.mul Z.add] in *. tauto.
  - destruct H as (Ha & Hb & _). pose proof (decode_sixths a b 0 Ha Hb H0) as E.
    cbn -[b64_char decode_last Z.div Z.modulo Z.mul Z.add] in *. tauto.
  - destruct H as (Ha & Hb & Hc & Hl). pose proof (decode_sixths a b c Ha Hb Hc) as E.
    specialize (IH Hl). unfold sixths in *. destruct E as (E1 & E2 & _ & _). cbn [app].
    destruct (base64_text l) as [| c5 r] eqn:El.
    + injection IH as <-. exact E2.
    + cbn [base64_value] in *. rewrite E1. cbn [mbind option_bind]. now rewrite IH.
Qed.

(** ** Encoding *)

Lemma pack_block a b c :
  is_u8 a -> is_u8 b -> is_u8 c ->
  Z.lor (u32 (Z.shiftl (Z.lor (u32 (Z.shiftl a 8)) b) 8)) c = block_of a b c
  /\ u32 (Z.shiftl (Z.lor (u32 (Z.shiftl a 8)) b) 8) = block_of a b 0
  /\ u32 (Z.shiftl (u32 (Z.shiftl a 8)) 8) = block_of a 0 0.
Proof.
  unfold is_u8, block_of. intros Ha Hb Hc.
  rewrite (u32_small (Z.shiftl a 8)) by (unfold is_u32; rewrite Z.shiftl_mul_pow2; lia).
  rewrite (lor_shiftl_add a b 8) by lia.
  rewrite (u32_small (Z.shiftl (a * 2 ^ 8 + b) 8)) by (unfold is_u32; rewrite Z.shiftl_mul_pow2; lia).
  rewrite lor_shiftl_add by lia. rewrite !Z.shiftl_mul_pow2 by lia.
  rewrite u32_small by (unfold is_u32; lia). split_and!; lia.
Qed.

Definition blocks_of (l : list Z) : nat := Z.to_nat ((zlength l + 2) / 3).

Lemma blocks_of_cons a b c l : blocks_of (a :: b :: c :: l) = S (blocks_of l).
Proof.
  unfold blocks_of. rewrite !zlength_cons. pose proof (zlength_nonneg l).
  replace (1 + (1 + (1 + zlength l)) + 2) with (zlength l + 2 + 1 * 3) by lia.
  rewrite Z.div_add by lia. pose proof (Z.div_pos (zlength l + 2) 3). lia.
Qed.

(** The first block of what is left. *)
Definition first_block (l : list Z) : Z :=
  match l with
  | [] => 0
  | [a] => block_of a 0 0
  | [a; b] => block_of a b 0
  | a :: b :: c :: _ => block_of a b c
  end.

Lemma load_block_spec m src i l :
  l <> [] -> Forall is_u8 l -> cursor_ok m (mk_cursor (zlength l) (ptr_add src i)) l ->
  base64_load_block i (i + zlength l) src m = Ret (first_block l) m.
Proof.
  assert (is_u8 0) as H0 by (unfold is_u8; lia).
  destruct l as [| a [| b [| c l]]]; [easy | | |]; intros _ H Hc; rewrite ?Forall_cons in H;
    unfold base64_load_block; rewrite ?zlength_cons in *;
    change (@zlength Z []) with 0 in *; pose proof (cursor_tail_at _ _ _ _ _ _ Hc) as [Hx Hc1]; run Hx.
  - destruct H as [Ha _]. rewrite !(proj2 (Z.ltb_ge _ _)) by lia. cbn [first_block].
    rewrite (run_bind _ _ m (u32 (Z.shiftl a 8)) m eq_refl).
    rewrite (proj2 (proj2 (pack_block a 0 0 Ha H0 H0))). reflexivity.
  - destruct H as (Ha & Hb & _). pose proof (cursor_tail_at _ _ _ _ _ _ Hc1) as [Hy _].
    rewrite (proj2 (Z.ltb_lt (i + 1) _)), (proj2 (Z.ltb_ge _ (i + 2))) by lia. rewrite bind_assoc_step.
    run Hy. cbn [first_block]. rewrite <- (proj1 (proj2 (pack_block a b 0 Ha Hb H0))). reflexivity.
  - destruct H as (Ha & Hb & Hcc & _). pose proof (zlength_nonneg l).
    pose proof (cursor_tail_at _ _ _ _ _ _ Hc1) as [Hy Hc2].
    pose proof (cursor_tail_at _ _ _ _ _ _ Hc2) as [Hz _]. rewrite <- Z.add_assoc in Hz.
    rewrite !(proj2 (Z.ltb_lt _ _)) by lia. rewrite bind_assoc_step. run Hy.
    rewrite (run_bind _ _ m _ m eq_refl). run Hz. cbn [first_block].
    rewrite <- (proj1 (pack_block a b c Ha Hb Hcc)). reflexivity.
Qed.

Lemma first_block_text l :
  l <> [] -> Forall is_u8 l -> block_chars (first_block l) = take 4 (raw_text l).
Proof.
  assert (is_u8 0) as H0 by (unfold is_u8; lia).
  destruct l as [| a [| b [| c l]]]; [easy | | |]; intros _ H; rewrite ?Forall_cons in H;
    cbn [first_block]; rewrite block_chars_sixths by tauto; reflexivity.
Qed.

Section encode_loop.
Context (src dst : ptr) (n w0 k room : Z).
Hypothesis Hd : disjoint_ranges src n (ptr_add dst w0) k.
Hypothesis (Hw0 : 0 <= w0) (Hroom : w0 + k <= room).

Lemma encode_loop_spec l : forall i w m,
  cursor_ok m (mk_cursor (zlength l) (ptr_add src i)) l -> Forall is_u8 l -> writable m dst room ->
  0 <= i -> i + zlength l <= n -> w0 <= w -> w + zlength (raw_text l) <= w0 + k ->
  exists m', base64_encode_loop (blocks_of l) i w (i + zlength l) src dst m = Ret tt m'
    /\ written m (ptr_add dst w) (raw_text l) m'.
Proof using Hd Hw0 Hroom.
  induction l as [| a | a b | a b c l IH] using list_ind3; intros i w m Hc Hby Hk Hi Hn Hw Hfit.
  { exists m. split; [reflexivity | now left]. }
  1, 2: match goal with |- context [blocks_of ?l] =>
          pose proof (load_block_spec m src i l ltac:(easy) Hby Hc) as E; change (blocks_of l) with 1%nat
        end;
        cbn [base64_encode_loop]; run E; rewrite first_block_text by easy;
        edestruct (store_next m dst w room) as (m1 & E1 & H1);
        [eassumption | lia | | run E1; eexists; split; [reflexivity | exact H1]];
        change (w + 4 <= room); change (w + 4 <= w0 + k) in Hfit; lia.
  rewrite blocks_of_cons. cbn [base64_encode_loop].
  pose proof (load_block_spec m src i (a :: b :: c :: l) ltac:(easy) Hby Hc) as E. run E.
  rewrite first_block_text by easy. cbn [raw_text] in *. rewrite (take_app_length' (sixths a b c)) by reflexivity. rewrite zlength_app in Hfit.
  pose proof (zlength_nonneg l). pose proof (zlength_nonneg (raw_text l)).
  destruct (store_next m dst w room (sixths a b c) Hk) as (m1 & E1 & H1); [lia | lia |].
  run E1. rewrite !Forall_cons in Hby. rewrite !zlength_cons in *.
  change (zlength (sixths a b c)) with 4 in *.
  assert (cursor_ok m1 (mk_cursor (zlength l) (ptr_add src (i + 3))) l) as Hc1.
  { apply (cursor_stable _ _ _ _ _ _ _ H1);
      [change (zlength (sixths a b c)) with 4; disjoint Hd src dst |].
    do 3 apply cursor_tail_at in Hc as [_ Hc].
    replace (i + 1 + 1 + 1) with (i + 3) in Hc by lia.
    now replace (1 + (1 + (1 + zlength l)) - 1 - 1 - 1) with (zlength l) in Hc by lia. }
  destruct (IH (i + 3) (w + 4) m1) as (m2 & E2 & H2); auto; try lia; [tauto | |].
  { exact (written_writable _ _ _ _ _ _ H1 Hk). }
  replace (i + (1 + (1 + (1 + zlength l)))) with (i + 3 + zlength l) by lia.
  exists m2. split; [exact E2 |]. apply (written_app m _ _ m1); [exact H1 |].
  rewrite ptr_add_add. exact H2.
Qed.
End encode_loop.

Lemma base64_encoded_len n :
  0 <= n < SIZE_MAX - 2 ->
  aws_base64_compute_encoded_len n
  = if SIZE_MAX <? 4 * ((n + 2) / 3) + 1 then Err AWS_ERROR_OVERFLOW_DETECTED
    else Ok (4 * ((n + 2) / 3) + 1).
Proof.
  unfold SIZE_MAX. intros Hn. unfold aws_base64_compute_encoded_len.
  rewrite (u64_small (n + 2)) by (unfold is_u64; lia). rewrite (proj2 (Z.ltb_ge (n + 2) n)) by lia.
  set (t := (n + 2) / 3). assert (3 * t <= n + 2 < 3 * t + 3) as Ht by (unfold t; Z.div_mod_to_equations; lia).
  destruct (Z.lt_ge_cases t (2 ^ 62)).
  - rewrite (u64_small (4 * t)), (u64_small (4 * t + 1)) by (unfold is_u64; lia). zcase; (lia || reflexivity).
  - assert (u64 (4 * t) = 4 * t - 2 ^ 64) as -> by (unfold u64; symmetry; apply (Z.mod_unique _ _ 1); lia).
    rewrite u64_small by (unfold is_u64; lia). zcase; (lia || reflexivity).
Qed.

(** Replacing a character of a written text. *)
Lemma overwrite m p k x y r room m1 :
  written m p (k ++ x :: r) m1 -> writable m p room -> zlength (k ++ x :: r) <= room ->
  exists m2, store (ptr_add p (zlength k)) [y] m1 = Ret tt m2 /\ written m p (k ++ y :: r) m2.
Proof.
  intros H1 Hw Hfit. pose proof (zlength_nonneg k). pose proof (zlength_nonneg r).
  rewrite zlength_app, zlength_cons in Hfit.
  destruct (store_next m1 p (zlength k) room [y]) as (m2 & E2 & H2);
    [exact (written_writable _ _ _ _ _ _ H1 Hw) | lia | change (zlength [y]) with 1; lia |].
  exists m2. split; [exact E2 |]. apply (written_over m p (k ++ x :: r) m1 (zlength k) [y]); auto.
  rewrite splice_Some by (rewrite ?zlength_app, ?zlength_cons; change (@zlength Z []) with 0; lia). f_equal.
  replace (Z.to_nat (zlength k)) with (length k) by (unfold zlength; lia).
  rewrite take_app_length, drop_app_add. reflexivity.
Qed.

(** The padding step of [aws_base64_encode], on the written raw text. *)
Lemma pad_text m p l m1 room :
  written m p (raw_text l) m1 -> writable m p room -> zlength (raw_text l) <= room ->
  let blocks := (zlength l + 2) / 3 in
  exists m2,
    (if 0 <? zlength l mod 3 then
       _ ← store (ptr_add p (blocks * 4 - 1)) [61];
       if zlength l mod 3 =? 1 then store (ptr_add p (blocks * 4 - 2)) [61] else mret tt
     else mret tt) m1 = Ret tt m2
    /\ written m p (base64_text l) m2.
Proof.
  intros H1 Hw Hfit blocks. pose proof (base64_text_padding l) as Hp.
  pose proof (zlength_raw_text l) as Hr. fold blocks in Hr.
  pose proof (Z.mod_pos_bound (zlength l) 3 ltac:(lia)).
  destruct (Z.eqb_spec (zlength l mod 3) 0) as [E0 | E0].
  { rewrite E0. exists m1. rewrite Hp. auto. }
  rewrite (proj2 (Z.ltb_lt 0 _)) by lia.
  destruct (Z.eqb_spec (zlength l mod 3) 1) as [E1 | E1].
  - destruct Hp as (k & x & y & Hx & Hy). rewrite Hx in *.
    assert (zlength k + 2 = blocks * 4) as Hk by (rewrite zlength_app in Hr; change (zlength [x; y]) with 2 in Hr; lia).
    destruct (overwrite m p (k ++ [x]) y 61 [] room m1) as (m2 & E2 & H2);
      rewrite <- ?app_assoc; auto.
    rewrite zlength_app in E2. change (zlength [x]) with 1 in E2.
    replace (zlength k + 1) with (blocks * 4 - 1) in E2 by lia. run E2.
    rewrite <- app_assoc in H2. cbn [app] in H2.
    destruct (overwrite m p k x 61 [61] room m2 H2 Hw) as (m3 & E3 & H3);
      [rewrite zlength_app in *; exact Hfit |].
    replace (zlength k) with (blocks * 4 - 2) in E3 by lia. exists m3. now rewrite Hy.
  - destruct Hp as (k & x & Hx & Hy). rewrite Hx in *.
    destruct (overwrite m p k x 61 [] room m1) as (m2 & E2 & H2); auto.
    rewrite zlength_app in Hr. change (zlength [x]) with 1 in Hr.
    replace (zlength k) with (blocks * 4 - 1) in E2 by lia. run E2. exists m2. now rewrite Hy.
Qed.

Definition encoded_size (n : Z) : Z := 4 * ((n + 2) / 3) + 1.

Lemma base64_encode_spec m cur l out :
  cursor_ok m cur l -> Forall is_u8 l -> cur_len cur < SIZE_MAX - 2 ->
  0 <= buf_len out <= buf_capacity out -> buf_capacity out <= SIZE_MAX ->
  writable m (buf_buffer out) (buf_capacity out) ->
  disjoint_ranges (cur_ptr cur) (cur_len cur)
    (ptr_add (buf_buffer out) (buf_len out)) (buf_capacity out - buf_len out) ->
  buf_len out + encoded_size (cur_len cur) <= buf_capacity out ->
  exists m', aws_base64_encode cur out m
             = Ret (AWS_OP_SUCCESS, set_len out (buf_len out + encoded_size (cur_len cur) - 1)) m'
    /\ written m (ptr_add (buf_buffer out) (buf_len out)) (base64_text l ++ [0]) m'.
Proof.
  intros Hc Hby Hlt Hlen Hcap Hw Hd Hfit. pose proof (cursor_len _ _ _ Hc) as [Hl Hz].
  pose proof (zlength_raw_text l) as Hr. unfold encoded_size in *.
  destruct cur as [n src]. cbn [cur_len cur_ptr] in *. subst n.
  set (blocks := (zlength l + 2) / 3) in *.
  assert (0 <= blocks) by (apply Z.div_pos; lia).
  unfold aws_base64_encode, aws_common_private_has_avx2. cbn [cur_len cur_ptr].
  rewrite base64_encoded_len, (proj2 (Z.ltb_ge _ _)) by lia. fold blocks.
  rewrite add_size_checked_spec, (proj2 (Z.leb_le _ _)), (proj2 (Z.ltb_ge _ _)) by lia.
  rewrite (u64_small (zlength l + 2)) by (unfold is_u64, SIZE_MAX in *; lia). fold blocks.
  destruct (encode_loop_spec src (buf_buffer out) _ (buf_len out) _ (buf_capacity out) Hd
              ltac:(lia) ltac:(lia) l 0 (buf_len out) m)
    as (m1 & E1 & H1); auto; try lia; [now rewrite ptr_add_0 |].
  unfold blocks_of in E1. fold blocks in E1. rewrite Z.add_0_l in E1. run E1.
  destruct (pad_text m (ptr_add (buf_buffer out) (buf_len out)) l m1 (buf_capacity out - buf_len out) H1)
    as (m2 & E2 & H2); [apply (writable_sub _ _ (buf_capacity out)); auto; lia | lia |].
  cbv zeta in E2. fold blocks in E2. rewrite !ptr_add_add, !Z.add_sub_assoc in E2. run E2.
  replace (u64 (4 * blocks + 1 - 1)) with (zlength (base64_text l))
    by (rewrite zlength_base64_text, u64_small; unfold is_u64, SIZE_MAX in *; lia).
  destruct (store_next m2 (buf_buffer out) (buf_len out + zlength (base64_text l)) (buf_capacity out) [0])
    as (m3 & E3 & H3); [exact (written_writable _ _ _ _ _ _ H2 Hw) | | |];
    rewrite ?zlength_base64_text; change (zlength [0]) with 1; try lia.
  rewrite zlength_base64_text in E3. run E3. exists m3. split.
  - unfold mret, M_ret. do 3 f_equal. rewrite u64_small by (unfold is_u64, SIZE_MAX in *; lia). lia.
  - apply (written_app m _ _ m2); [exact H2 |]. now rewrite ptr_add_add.
Qed.
