(* ===== verification/Base64Decode.v ===== *)
(** * Base64: decoding

    The decoder against [base64_value], the round trip with the encoder, and
    the inputs on which the decoder accepts more than the alphabet. *)

From S2P Require Import Prelude Math ByteOrder Memory ByteBuf ByteBufSpec ByteCursorSpec.
From S2P Require Import ByteCursorText ByteCursorOrder Encoding EncodingSpec Base64Spec.
Import ByteBuf Encoding.

Local Open Scope Z_scope.

(** Blocks that must all be complete. *)
Fixpoint full_blocks (l : list Z) : option (list Z) :=
  match l with
  | [] => Some []
  | c1 :: c2 :: c3 :: c4 :: l =>
      bs ← decode_block c1 c2 c3 c4; rest ← full_blocks l; Some (bs ++ rest)
  | _ => None
  end.

(** Induction four elements at a time. *)
Lemma quads_ind {A} (P : list A -> Prop) :
  P [] -> (forall a b c d l, P l -> P (a :: b :: c :: d :: l)) ->
  forall n l, length l = (4 * n)%nat -> P l.
Proof.
  intros H0 H4 n. induction n as [| n IH]; intros l Hl.
  - destruct l; [exact H0 | discriminate].
  - destruct l as [| a [| b [| c [| d l]]]]; cbn in Hl; try lia. apply H4, IH. lia.
Qed.

Lemma base64_value_app front c1 c2 c3 c4 n :
  length front = (4 * n)%nat ->
  base64_value (front ++ [c1; c2; c3; c4])
  = (bs ← full_blocks front; rest ← decode_last c1 c2 c3 c4; Some (bs ++ rest)).
Proof.
  revert front. apply (quads_ind (fun front => base64_value (front ++ [c1; c2; c3; c4])
    = (bs ← full_blocks front; rest ← decode_last c1 c2 c3 c4; Some (bs ++ rest)))).
  - cbn [app base64_value full_blocks mbind option_bind]. now destruct (decode_last c1 c2 c3 c4).
  - intros a b c d l IH.
    assert (base64_value ((a :: b :: c :: d :: l) ++ [c1; c2; c3; c4])
            = (bs ← decode_block a b c d; rest ← base64_value (l ++ [c1; c2; c3; c4]); Some (bs ++ rest)))
      as -> by (destruct l; reflexivity).
    rewrite IH. cbn [full_blocks]. destruct (decode_block a b c d); [cbn | reflexivity].
    destruct (full_blocks l); [cbn | reflexivity].
    destruct (decode_last c1 c2 c3 c4); [cbn | reflexivity]. now rewrite app_assoc.
Qed.

(** The decoder's values of four characters. *)
Definition quad_values (c1 c2 c3 c4 : Z) (b : bool) : option (Z * Z * Z * Z) :=
  v1 ← s_base64_get_decoded_value c1 false; v2 ← s_base64_get_decoded_value c2 false;
  v3 ← s_base64_get_decoded_value c3 b; v4 ← s_base64_get_decoded_value c4 b;
  Some (v1, v2, v3, v4).

Lemma decode_quad_spec m src i c1 c2 c3 c4 l b :
  cursor_ok m (mk_cursor (zlength (c1 :: c2 :: c3 :: c4 :: l)) (ptr_add src i)) (c1 :: c2 :: c3 :: c4 :: l) ->
  decode_quad src i b m
  = Ret (quad_values c1 c2 c3 c4 b) m
  /\ cursor_ok m (mk_cursor (zlength l) (ptr_add src (i + 4))) l.
Proof.
  intros Hc. apply cursor_tail_at in Hc as [H1 Hc]. apply cursor_tail_at in Hc as [H2 Hc].
  apply cursor_tail_at in Hc as [H3 Hc]. apply cursor_tail_at in Hc as [H4 Hc].
  rewrite !zlength_cons in Hc. replace (i + 1 + 1) with (i + 2) in * by lia.
  replace (i + 2 + 1) with (i + 3) in * by lia. replace (i + 3 + 1) with (i + 4) in * by lia.
  split; [| now replace (1 + (1 + (1 + (1 + zlength l))) - 1 - 1 - 1 - 1) with (zlength l) in Hc by lia].
  unfold decode_quad, quad_values. run H1. destruct (s_base64_get_decoded_value c1 false); [| reflexivity].
  run H2. destruct (s_base64_get_decoded_value c2 false); [| reflexivity].
  run H3. destruct (s_base64_get_decoded_value c3 b); [| reflexivity].
  run H4. destruct (s_base64_get_decoded_value c4 b); reflexivity.
Qed.

Lemma quad_block c1 c2 c3 c4 :
  Forall is_u8 [c1; c2; c3; c4] ->
  decode_block c1 c2 c3 c4
  = '(v1, v2, v3, v4) ← quad_values c1 c2 c3 c4 false; Some [byte_1 v1 v2; byte_2 v2 v3; byte_3 v3 v4].
Proof.
  rewrite !Forall_cons. intros (H1 & H2 & H3 & H4 & _). unfold quad_values, decode_block.
  assert (forall c, is_u8 c -> s_base64_get_decoded_value c false = b64_digit c) as Hv.
  { intros c Hc. rewrite decoded_value by exact Hc. now destruct (Z.eqb_spec c 61) as [-> |]. }
  rewrite !Hv by assumption.
  destruct (b64_digit c1) as [v1 |] eqn:E1; cbn [mbind option_bind]; [| reflexivity].
  destruct (b64_digit c2) as [v2 |] eqn:E2; cbn [mbind option_bind]; [| reflexivity].
  destruct (b64_digit c3) as [v3 |] eqn:E3; cbn [mbind option_bind]; [| reflexivity].
  destruct (b64_digit c4) as [v4 |] eqn:E4; cbn [mbind option_bind]; [| reflexivity].
  apply digit_range in E1, E2, E3, E4. destruct (bytes_join v1 v2) as (-> & _ & _); auto.
  destruct (bytes_join v2 v3) as (_ & -> & _); auto. now destruct (bytes_join v3 v4) as (_ & _ & ->).
Qed.

Lemma quad_last c1 c2 c3 c4 :
  Forall is_u8 [c1; c2; c3; c4] ->
  decode_last c1 c2 c3 c4
  = '(v1, v2, v3, v4) ← quad_values c1 c2 c3 c4 true;
    Some (byte_1 v1 v2 ::
          if v3 =? BASE64_SENTIANAL_VALUE then []
          else byte_2 v2 v3 :: if v4 =? BASE64_SENTIANAL_VALUE then [] else [byte_3 v3 v4]).
Proof.
  rewrite !Forall_cons. intros (H1 & H2 & H3 & H4 & _). unfold quad_values, decode_last.
  assert (forall c, is_u8 c -> s_base64_get_decoded_value c false = b64_digit c) as Hv.
  { intros c Hc. rewrite decoded_value by exact Hc. now destruct (Z.eqb_spec c 61) as [-> |]. }
  rewrite (Hv c1), (Hv c2), !decoded_value by assumption. unfold BASE64_SENTIANAL_VALUE.
  destruct (b64_digit c1) as [v1 |] eqn:E1; cbn [mbind option_bind]; [| reflexivity].
  destruct (b64_digit c2) as [v2 |] eqn:E2; cbn [mbind option_bind]; [| reflexivity].
  apply digit_range in E1, E2. destruct (bytes_join v1 v2) as (J1 & _ & _); auto.
  destruct (c3 =? 61) eqn:E3; cbn [mbind option_bind].
  { destruct (c4 =? 61); [| destruct (b64_digit c4); [| reflexivity]]; cbn [mbind option_bind]; now rewrite J1. }
  destruct (b64_digit c3) as [v3 |] eqn:D3; cbn [mbind option_bind]; [| reflexivity].
  apply digit_range in D3. destruct (bytes_join v2 v3) as (_ & J2 & _); auto.
  destruct (c4 =? 61) eqn:E4; cbn [mbind option_bind];
    [| destruct (b64_digit c4) as [v4 |] eqn:D4; cbn [mbind option_bind]; [apply digit_range in D4 | reflexivity]];
    rewrite (proj2 (Z.eqb_neq v3 255)), J1, J2 by lia; [reflexivity |].
  rewrite (proj2 (Z.eqb_neq v4 255)) by lia. now destruct (bytes_join v3 v4) as (_ & _ & ->).
Qed.

Lemma store_three m p i n x y z :
  writable m p n -> 0 <= i -> i + 3 <= n ->
  exists m1 m2 m3, store (ptr_add p i) [x] m = Ret tt m1 /\ store (ptr_add p (i + 1)) [y] m1 = Ret tt m2
    /\ store (ptr_add p (i + 2)) [z] m2 = Ret tt m3 /\ written m (ptr_add p i) [x; y; z] m3.
Proof.
  intros Hw Hi Hn. destruct (store_two m p i n x y Hw) as (m1 & m2 & E1 & _ & E2 & H2); [lia | lia |].
  destruct (store_next m2 p (i + 2) n [z]) as (m3 & E3 & H3);
    [exact (written_writable _ _ _ _ _ _ H2 Hw) | lia | change (zlength [z]) with 1; lia |].
  exists m1, m2, m3. split_and!; auto. apply (written_app m _ [x; y] m2); [exact H2 |].
  now rewrite ptr_add_add.
Qed.

Section decode_loop.
Context (src dst : ptr) (n k : Z).
Hypothesis Hd : disjoint_ranges src n dst k.

Lemma decode_loop_spec q : forall l last i m,
  length l = (4 * q)%nat -> Forall is_u8 l ->
  cursor_ok m (mk_cursor (zlength (l ++ last)) (ptr_add src (4 * i))) (l ++ last) ->
  writable m dst k -> 0 <= i -> 4 * i + zlength (l ++ last) <= n -> i * 3 + 3 * Z.of_nat q <= k ->
  exists rv m' bs, base64_decode_loop q i src dst m = Ret rv m'
    /\ written m (ptr_add dst (i * 3)) bs m' /\ zlength bs <= 3 * Z.of_nat q
    /\ match full_blocks l with
       | Some vs => rv = AWS_OP_SUCCESS /\ bs = vs /\ zlength vs = 3 * Z.of_nat q
       | None => rv = AWS_OP_ERR AWS_ERROR_INVALID_BASE64_STR
       end.
Proof using Hd.
  induction q as [| q IH]; intros l last i m Hl Hby Hc Hk Hi Hn Hfit.
  { destruct l; [| discriminate]. exists AWS_OP_SUCCESS, m, []. cbn. split_and!; auto; [now left | reflexivity]. }
  destruct l as [| c1 [| c2 [| c3 [| c4 l]]]]; cbn in Hl; try lia. cbn [base64_decode_loop app] in *.
  destruct (decode_quad_spec m src (4 * i) c1 c2 c3 c4 (l ++ last) false Hc) as [Hq Hc4]. run Hq.
  apply (Forall_app _ [c1; c2; c3; c4]) in Hby as [H4 Hby].
  cbn [full_blocks]. rewrite quad_block by exact H4.
  destruct (quad_values c1 c2 c3 c4 false) as [[[[v1 v2] v3] v4] |]; cbn [mbind option_bind].
  2: { exists (AWS_OP_ERR AWS_ERROR_INVALID_BASE64_STR), m, []. change (@zlength Z []) with 0.
       split_and!; [reflexivity | now left | lia | reflexivity]. }
  rewrite !zlength_cons in *.
  pose proof (zlength_nonneg (l ++ last)).
  destruct (store_three m dst (i * 3) k (byte_1 v1 v2) (byte_2 v2 v3) (byte_3 v3 v4) Hk)
    as (m1 & m2 & m3 & E1 & E2 & E3 & H3); [lia | lia |].
  run E1. run E2. run E3.
  destruct (IH l last (i + 1) m3) as (rv & m4 & bs & E4 & Hw4 & Hb & Hr); auto; try lia.
  { replace (4 * (i + 1)) with (4 * i + 4) by lia.
    apply (cursor_stable _ _ _ _ _ _ _ H3); [disjoint Hd src dst | exact Hc4]. }
  { exact (written_writable _ _ _ _ _ _ H3 Hk). }
  exists rv, m4, ([byte_1 v1 v2; byte_2 v2 v3; byte_3 v3 v4] ++ bs). split; [exact E4 |].
  change (zlength ([byte_1 v1 v2; byte_2 v2 v3; byte_3 v3 v4] ++ bs)) with (zlength (byte_1 v1 v2 :: byte_2 v2 v3 :: byte_3 v3 v4 :: bs)).
  rewrite !zlength_cons. split; [| split; [lia |]].
  - apply (written_app m _ _ m3); [exact H3 |]. rewrite ptr_add_add.
    change (zlength [byte_1 v1 v2; byte_2 v2 v3; byte_3 v3 v4]) with 3.
    now replace (i * 3 + 3) with ((i + 1) * 3) by lia.
  - destruct (full_blocks l) as [vs |]; cbn [mbind option_bind app]; [| exact Hr].
    destruct Hr as (-> & -> & Hz). rewrite !zlength_cons. split_and!; auto. lia.
Qed.
End decode_loop.

(** ** The length of the output *)

(** What the last two characters take off three bytes per block. *)
Definition padding (c3 c4 : Z) : Z := if c4 =? 61 then if c3 =? 61 then 2 else 1 else 0.

Lemma land_3 n : Z.land n 3 = n mod 4.
Proof. change 3 with (2 ^ 2 - 1). now rewrite land_pow2_mask by lia. Qed.

Lemma decoded_len_spec m src front c1 c2 c3 c4 q :
  let l := front ++ [c1; c2; c3; c4] in
  length front = (4 * q)%nat -> cursor_ok m (mk_cursor (zlength l) src) l -> zlength l < 2 ^ 62 ->
  aws_base64_compute_decoded_len (mk_cursor (zlength l) src) m
  = Ret (Ok (3 * Z.of_nat q + 3 - padding c3 c4)) m.
Proof.
  intros l Hq Hc Hlt. assert (zlength l = 4 * Z.of_nat q + 4) as Hl.
  { unfold l. rewrite zlength_app. change (zlength [c1; c2; c3; c4]) with 4. unfold zlength. lia. }
  unfold aws_base64_compute_decoded_len. cbn [cur_len cur_ptr].
  rewrite (proj2 (Z.eqb_neq (zlength l) 0)) by lia.
  rewrite land_3. replace (zlength l mod 4) with 0 by (rewrite Hl; Z.div_mod_to_equations; lia). cbn [Z.eqb negb].
  rewrite (u64_small (zlength l * 3)) by (unfold is_u64; lia).
  rewrite (proj2 (Z.ltb_ge _ (zlength l))), (proj2 (Z.leb_le 2 _)) by lia. cbn [andb].
  pose proof (co_data _ _ _ Hc) as Hb. cbn [cur_ptr cur_len] in Hb.
  assert (load_u8 (ptr_add src (zlength l - 1)) m = Ret c4 m) as H4.
  { apply (load_u8_at m src (zlength l) l); auto; [lia |].
    replace (Z.to_nat (zlength l - 1)) with (length front + 3)%nat by lia.
    unfold l. now rewrite lookup_app_r, Nat.add_comm, Nat.add_sub by lia. }
  assert (load_u8 (ptr_add src (zlength l - 2)) m = Ret c3 m) as H3.
  { apply (load_u8_at m src (zlength l) l); auto; [lia |].
    replace (Z.to_nat (zlength l - 2)) with (length front + 2)%nat by lia.
    unfold l. now rewrite lookup_app_r, Nat.add_comm, Nat.add_sub by lia. }
  run H4. assert (forall p, 0 <= p <= 2 -> u64 (zlength l * 3 / 4 - p) = 3 * Z.of_nat q + 3 - p) as Hu.
  { intros p Hp. rewrite u64_small; rewrite Hl; replace ((4 * Z.of_nat q + 4) * 3) with ((3 * Z.of_nat q + 3) * 4) by lia;
      rewrite Z.div_mul by lia; [lia | unfold is_u64; lia]. }
  unfold padding. destruct (c4 =? 61).
  - rewrite bind_assoc_step. run H3. destruct (c3 =? 61);
      rewrite (run_bind _ _ m _ m eq_refl), Hu by lia; reflexivity.
  - rewrite (run_bind _ _ m _ m eq_refl), Hu by lia; reflexivity.
Qed.

(** The bytes stored for the last block fit in what the length computation
    counts, and are as many unless '=' is followed by another character. *)
Lemma decode_last_length c1 c2 c3 c4 vs :
  decode_last c1 c2 c3 c4 = Some vs ->
  zlength vs <= 3 - padding c3 c4 /\ (zlength vs = 3 - padding c3 c4 <-> ~ (c3 = 61 /\ c4 <> 61)).
Proof.
  intros H. unfold decode_last, padding in *.
  apply bind_Some in H as (v1 & _ & H). apply bind_Some in H as (v2 & _ & H).
  destruct (Z.eqb_spec c3 61), (Z.eqb_spec c4 61);
    repeat (apply bind_Some in H as (? & _ & H)); injection H as <-;
    unfold zlength; cbn; split; try lia; split; tauto || lia.
Qed.

Definition decoded_size (l : list Z) : Z :=
  match rev l with c4 :: c3 :: _ => zlength l / 4 * 3 - padding c3 c4 | _ => 0 end.

(** The text ends in '=' and a character other than '='. *)
Definition misplaced_padding (l : list Z) : Prop :=
  match rev l with c4 :: c3 :: _ => c3 = 61 /\ c4 <> 61 | _ => False end.

Lemma split_last_quad (l : list Z) :
  zlength l mod 4 = 0 -> l <> [] ->
  exists front c1 c2 c3 c4 q, l = front ++ [c1; c2; c3; c4] /\ length front = (4 * q)%nat.
Proof.
  intros Hm Hne. pose proof (zlength_nonneg l). assert (4 <= zlength l) as Hl.
  { destruct l; [easy |]. rewrite zlength_cons in *. pose proof (zlength_nonneg l).
    Z.div_mod_to_equations. lia. }
  pose proof (take_drop (length l - 4) l) as E.
  assert (length (drop (length l - 4) l) = 4%nat) as Hd by (rewrite length_drop; unfold zlength in *; lia).
  destruct (drop (length l - 4) l) as [| c1 [| c2 [| c3 [| c4 [|]]]]]; try discriminate.
  exists (take (length l - 4) l), c1, c2, c3, c4, (Z.to_nat (zlength l / 4 - 1)). split; [now symmetry |].
  rewrite length_take. unfold zlength in *. Z.div_mod_to_equations. lia.
Qed.

(** The stores of the last block. *)
Lemma store_last {A} (K : M A) m p room i v1 v2 v3 v4 :
  let vs := byte_1 v1 v2 :: (if v3 =? BASE64_SENTIANAL_VALUE then []
        else byte_2 v2 v3 :: if v4 =? BASE64_SENTIANAL_VALUE then [] else [byte_3 v3 v4]) in
  writable m p room -> 0 <= i -> i + zlength vs <= room ->
  exists m',
    (_ ← store (ptr_add p i) [byte_1 v1 v2];
     _ ← (if negb (v3 =? BASE64_SENTIANAL_VALUE) then
            _ ← store (ptr_add p (i + 1)) [byte_2 v2 v3];
            if negb (v4 =? BASE64_SENTIANAL_VALUE)
            then store (ptr_add p (i + 2)) [byte_3 v3 v4] else mret tt
          else mret tt);
     K) m = K m'
    /\ written m (ptr_add p i) vs m'.
Proof.
  intros vs Hr Hi Hfit. unfold vs in *. destruct (v3 =? _); cbn [negb].
  - destruct (store_next m _ i room [byte_1 v1 v2] Hr) as (m2 & E & H); [lia | lia |].
    exists m2. run E. auto.
  - destruct (v4 =? _); cbn [negb]; unfold zlength in Hfit; cbn [length] in Hfit.
    + destruct (store_two m _ i room (byte_1 v1 v2) (byte_2 v2 v3) Hr)
        as (m2 & m3 & E2 & _ & E3 & H3); [lia | lia |].
      exists m3. run E2. rewrite bind_assoc_step. run E3. auto.
    + destruct (store_three m _ i room (byte_1 v1 v2) (byte_2 v2 v3) (byte_3 v3 v4) Hr)
        as (m2 & m3 & m4 & E2 & E3 & E4 & H4); [lia | lia |].
      exists m4. run E2. rewrite bind_assoc_step. run E3. run E4. auto.
Qed.

Section decode.
Context (m : mem) (src : ptr) (front : list Z) (c1 c2 c3 c4 : Z) (q : nat) (out : aws_byte_buf).
Let l := front ++ [c1; c2; c3; c4].
Hypothesis Hq : length front = (4 * q)%nat.
Hypothesis Hc : cursor_ok m (mk_cursor (zlength l) src) l.
Hypothesis Hby : Forall is_u8 l.
Hypothesis Hlt : zlength l < 2 ^ 62.
Hypothesis Hw : writable m (buf_buffer out) (buf_capacity out).
Hypothesis Hd : disjoint_ranges src (zlength l) (buf_buffer out) (buf_capacity out).
Let size := 3 * Z.of_nat q + 3 - padding c3 c4.
Hypothesis Hcap : size <= buf_capacity out.

Lemma l_length : zlength l = 4 * Z.of_nat q + 4.
Proof using Hq. unfold l. rewrite zlength_app. change (zlength [c1; c2; c3; c4]) with 4. unfold zlength. lia. Qed.

Lemma decode_spec :
  exists rv out' m' bs,
    aws_base64_decode (mk_cursor (zlength l) src) out m = Ret (rv, out') m'
    /\ written m (buf_buffer out) bs m'
    /\ match base64_value l with
       | Some vs => rv = AWS_OP_SUCCESS /\ bs = vs /\ out' = set_len out size
                    /\ (zlength vs = size <-> ~ (c3 = 61 /\ c4 <> 61))
       | None => rv = AWS_OP_ERR AWS_ERROR_INVALID_BASE64_STR /\ out' = out
       end.
Proof using Hq Hc Hby Hlt Hw Hd Hcap.
  pose proof l_length as Hl. pose proof Hby as [Hb1 Hb2]%Forall_app. unfold aws_base64_decode, aws_common_private_has_avx2.
  pose proof (decoded_len_spec m src front c1 c2 c3 c4 q Hq Hc Hlt) as Hdl. fold l size in Hdl.
  run Hdl. rewrite (proj2 (Z.ltb_ge _ _)) by lia. cbn [cur_len cur_ptr].
  unfold int64. rewrite (proj2 (Z.ltb_lt _ _)), Z.quot_div_nonneg by lia.
  replace (zlength l / 4) with (Z.of_nat q + 1) by (Z.div_mod_to_equations; lia).
  replace (Z.of_nat q + 1 - 1) with (Z.of_nat q) by lia. rewrite Nat2Z.id.
  unfold l. rewrite (base64_value_app front c1 c2 c3 c4 q Hq).
  assert (0 <= padding c3 c4 <= 2) as Hpad by (unfold padding; repeat case_match; lia).
  destruct (decode_loop_spec src (buf_buffer out) _ _ Hd q front [c1; c2; c3; c4] 0 m Hq Hb1)
    as (rv & m1 & bs & E1 & H1 & Hb & Hr); fold l; auto; try lia; [now rewrite ptr_add_0 |].
  run E1. rewrite ptr_add_0 in H1. destruct (full_blocks front) as [vs |].
  2: { subst rv. exists (AWS_OP_ERR AWS_ERROR_INVALID_BASE64_STR), out, m1, bs. cbn. auto. }
  destruct Hr as (-> & -> & Hz). rewrite (proj2 (Z.leb_le 0 _)) by lia. cbn [mbind option_bind].
  assert (cursor_ok m1 (mk_cursor (zlength [c1; c2; c3; c4]) (ptr_add src (4 * Z.of_nat q))) [c1; c2; c3; c4])
    as Hlast.
  { apply (cursor_stable _ _ _ _ _ _ _ H1);
      [change (zlength [c1; c2; c3; c4]) with 4; disjoint Hd src (buf_buffer out) |].
    pose proof (cursor_len _ _ _ Hc). destruct Hc as [Hcd _]. cbn [cur_len cur_ptr] in *.
    constructor; cbn [cur_len cur_ptr]; [| change (zlength [c1; c2; c3; c4]) with 4; lia].
    change (zlength [c1; c2; c3; c4]) with 4.
    replace 4 with (zlength l - 4 * Z.of_nat q) at 2 by lia.
    rewrite (bytes_at_drop m src _ l (4 * Z.of_nat q) Hcd) by lia. f_equal. unfold l.
    apply drop_app_length'. lia. }
  destruct (decode_quad_spec m1 src _ c1 c2 c3 c4 [] true Hlast) as [Hquad _]. run Hquad.
  pose proof (decode_last_length c1 c2 c3 c4) as Hlen. rewrite quad_last in * by exact Hb2.
  destruct (quad_values c1 c2 c3 c4 true) as [[[[v1 v2] v3] v4] |]; cbn [mbind option_bind] in *.
  2: { exists (AWS_OP_ERR AWS_ERROR_INVALID_BASE64_STR), out, m1, vs. auto. }
  destruct (Hlen _ eq_refl) as [Hfit Hiff]. set (rest := byte_1 v1 v2 :: _) in *.
  destruct (store_last (mret (AWS_OP_SUCCESS, set_len out size)) m1 (buf_buffer out) (buf_capacity out)
              (Z.of_nat q * 3) v1 v2 v3 v4) as (m2 & E2 & H2);
    [exact (written_writable _ _ _ _ _ _ H1 Hw) | lia | fold rest; unfold size in *; lia |].
  fold rest in H2. rewrite E2. eexists _, _, m2, (vs ++ rest). split; [reflexivity |].
  split; [apply (written_app m _ _ m1); [exact H1 | now replace (zlength vs) with (Z.of_nat q * 3) by lia] |].
  split_and!; auto. rewrite zlength_app, Hz, <- Hiff. unfold size. lia.
Qed.
End decode.

Lemma decoded_size_quad front c1 c2 c3 c4 q :
  length front = (4 * q)%nat ->
  decoded_size (front ++ [c1; c2; c3; c4]) = 3 * Z.of_nat q + 3 - padding c3 c4.
Proof.
  intros Hq. unfold decoded_size. rewrite rev_app_distr. cbn [rev app].
  rewrite zlength_app. change (zlength [c1; c2; c3; c4]) with 4. unfold zlength. rewrite Hq.
  replace (Z.of_nat (4 * q) + 4) with ((Z.of_nat q + 1) * 4) by lia. rewrite Z.div_mul by lia. lia.
Qed.

Lemma decode_fits m src l out :
  cursor_ok m (mk_cursor (zlength l) src) l -> Forall is_u8 l -> zlength l < 2 ^ 62 -> zlength l mod 4 = 0 ->
  0 <= buf_capacity out -> decoded_size l <= buf_capacity out ->
  writable m (buf_buffer out) (buf_capacity out) ->
  disjoint_ranges src (zlength l) (buf_buffer out) (buf_capacity out) ->
  exists rv out' m' bs, aws_base64_decode (mk_cursor (zlength l) src) out m = Ret (rv, out') m'
    /\ written m (buf_buffer out) bs m'
    /\ match base64_value l with
       | Some vs => rv = AWS_OP_SUCCESS /\ bs = vs /\ out' = set_len out (decoded_size l)
                    /\ (zlength vs = decoded_size l <-> ~ misplaced_padding l)
       | None => rv = AWS_OP_ERR AWS_ERROR_INVALID_BASE64_STR /\ out' = out
       end.
Proof.
  intros Hc Hby Hlt Hm H0 Hs Hw Hd. destruct (list_eq_nil_dec l) as [-> | Hne].
  { exists AWS_OP_SUCCESS, (set_len out 0), m, []. split; [| split; [now left |]].
    - unfold aws_base64_decode. change (@zlength Z []) with 0. cbn [cur_len].
      rewrite (run_bind _ _ m (Ok 0) m eq_refl), (proj2 (Z.ltb_ge _ _)) by lia. reflexivity.
    - cbn. split_and!; auto. now split. }
  destruct (split_last_quad l Hm Hne) as (front & c1 & c2 & c3 & c4 & q & -> & Hq).
  unfold misplaced_padding. rewrite (decoded_size_quad _ _ _ _ _ _ Hq), rev_app_distr in *. cbn [rev app].
  now apply decode_spec.
Qed.

Lemma decode_too_small m src l out :
  cursor_ok m (mk_cursor (zlength l) src) l -> zlength l < 2 ^ 62 -> zlength l mod 4 = 0 ->
  0 <= buf_capacity out < decoded_size l ->
  aws_base64_decode (mk_cursor (zlength l) src) out m = Ret (AWS_OP_ERR AWS_ERROR_SHORT_BUFFER, out) m.
Proof.
  intros Hc Hlt Hm Hs. destruct (list_eq_nil_dec l) as [-> | Hne]; [cbn in Hs; lia |].
  destruct (split_last_quad l Hm Hne) as (front & c1 & c2 & c3 & c4 & q & -> & Hq).
  rewrite (decoded_size_quad _ _ _ _ _ _ Hq) in Hs. unfold aws_base64_decode.
  pose proof (decoded_len_spec m src front c1 c2 c3 c4 q Hq Hc Hlt) as E.
  run E. now rewrite (proj2 (Z.ltb_lt _ _)) by lia.
Qed.

(** C40: [aws_base64_decode], in a build without vector instructions, of any
    readable text disjoint from its output. A length that is not a multiple of
    four, or a character with no value at its place, is
    AWS_ERROR_INVALID_BASE64_STR; an output too small for the decoded size is
    AWS_ERROR_SHORT_BUFFER; otherwise the bytes of the text are written and the
    length is set. The characters with a value are those of RFC 4648, '=' at the
    last two places, whatever follows it, and NUL: the table of the code gives
    NUL the value 64, so that a text with a NUL anywhere is taken and not refused.
    The length is the number of bytes written exactly when the text does not end
    in '=' followed by another character. Nothing outside the output is written in
    any case. *)
Theorem base64_decode_correct (m : mem) (cur : aws_byte_cursor) (l : list Z) (out : aws_byte_buf) :
  cursor_ok m cur l -> Forall is_u8 l -> cur_len cur < 2 ^ 62 -> 0 <= buf_capacity out ->
  writable m (buf_buffer out) (buf_capacity out) ->
  disjoint_ranges (cur_ptr cur) (cur_len cur) (buf_buffer out) (buf_capacity out) ->
  if negb (cur_len cur mod 4 =? 0)
  then aws_base64_decode cur out m = Ret (AWS_OP_ERR AWS_ERROR_INVALID_BASE64_STR, out) m
  else if buf_capacity out <? decoded_size l
  then aws_base64_decode cur out m = Ret (AWS_OP_ERR AWS_ERROR_SHORT_BUFFER, out) m
  else exists rv out' m' bs, aws_base64_decode cur out m = Ret (rv, out') m'
         /\ written m (buf_buffer out) bs m'
         /\ match base64_value l with
            | Some vs => rv = AWS_OP_SUCCESS /\ bs = vs /\ out' = set_len out (decoded_size l)
                         /\ (zlength vs = decoded_size l <-> ~ misplaced_padding l)
            | None => rv = AWS_OP_ERR AWS_ERROR_INVALID_BASE64_STR /\ out' = out
            end.
Proof.
  intros Hc Hby Hlt H0 Hw Hd. pose proof (cursor_len _ _ _ Hc) as [Hl Hz].
  destruct cur as [n src]. cbn [cur_len cur_ptr] in *. subst n.
  destruct (Z.eqb_spec (zlength l mod 4) 0) as [Hm | Hm]; cbn [negb].
  2: { unfold aws_base64_decode, aws_base64_compute_decoded_len. cbn [cur_len cur_ptr].
       destruct (Z.eqb_spec (zlength l) 0) as [E | E]; [now rewrite E in Hm |].
       now rewrite land_3, (proj2 (Z.eqb_neq _ _)) by exact Hm. }
  destruct (Z.ltb_spec (buf_capacity out) (decoded_size l)) as [Hs | Hs].
  - now apply decode_too_small.
  - now apply decode_fits.
Qed.

(** "TWE=" in the first block. *)
Definition b64_mem : mem :=
  mk_mem {[1%positive := [84; 87; 69; 61]; 2%positive := [9; 9; 9; 9; 9; 9; 9; 9; 9; 9]]} (fun _ _ => 7) [].

Lemma base64_decode_correct_witness :
  exists out' m', aws_base64_decode (mk_cursor 4 (Ptr 1 0)) out_buf b64_mem
                  = Ret (AWS_OP_SUCCESS, out') m'
    /\ bytes_at m' (Ptr 2 0) 2 = Some [77; 97] /\ buf_len out' = 2.
Proof.
  pose proof (base64_decode_correct b64_mem (mk_cursor 4 (Ptr 1 0)) [84; 87; 69; 61] out_buf) as H.
  assert (cursor_ok b64_mem (mk_cursor 4 (Ptr 1 0)) [84; 87; 69; 61]) as Hc
    by (constructor; [reflexivity | unfold SIZE_MAX; cbn; lia]).
  assert (writable b64_mem (buf_buffer out_buf) (buf_capacity out_buf)) as Hw.
  { right. exists 2%positive, 0, [9; 9; 9; 9; 9; 9; 9; 9; 9; 9]. unfold zlength. cbn. split_and!; auto; lia. }
  specialize (H Hc ltac:(repeat constructor; unfold is_u8; lia) ltac:(cbn; lia) ltac:(cbn; lia) Hw ltac:(cbn; discriminate)).
  cbn [cur_len out_buf buf_capacity] in H. change (negb (4 mod 4 =? 0)) with false in H.
  change (10 <? decoded_size [84; 87; 69; 61]) with false in H.
  destruct H as (rv & out' & m' & bs & Heq & Hwr & Hr).
  change (base64_value [84; 87; 69; 61]) with (Some [77; 97]) in Hr. destruct Hr as (-> & -> & -> & _).
  exists (set_len out_buf 2), m'. split; [exact Heq |]. split; [exact (written_same _ _ _ _ Hwr) | reflexivity].
Defined.

(** ** Round trip *)

Lemma base64_text_not_misplaced l : Forall is_u8 l -> ~ misplaced_padding (base64_text l).
Proof.
  induction l as [| a | a b | a b c l IH] using list_ind3; intros Hby; unfold misplaced_padding in *.
  - cbn. tauto.
  - cbn. intros [_ H]. now apply H.
  - cbn. intros [_ H]. now apply H.
  - cbn [base64_text]. rewrite rev_app_distr. destruct (rev (base64_text l)) as [| c4 [| c3 r]] eqn:E.
    + cbn -[b64_char Z.modulo]. intros [H _]. revert H. rewrite !Forall_cons in Hby.
      destruct (sixths_range a b c) as (_ & _ & H3 & _); [tauto .. |]. apply Z.eqb_neq, char_not_pad, H3.
    + exfalso. apply (f_equal zlength) in E. rewrite zlength_perm_rev, zlength_base64_text, zlength_raw_text in E.
      change (zlength [c4]) with 1 in E. lia.
    + rewrite !Forall_cons in Hby. tauto.
Qed.

Lemma base64_text_bytes l : Forall is_u8 l -> Forall is_u8 (base64_text l).
Proof.
  assert (is_u8 61 /\ is_u8 0) as [Hp H0] by (unfold is_u8; lia).
  assert (forall a b c, is_u8 a -> is_u8 b -> is_u8 c -> Forall is_u8 (sixths a b c)) as Hs.
  { intros a b c Ha Hb Hc. destruct (sixths_range a b c Ha Hb Hc) as (H1 & H2 & H3 & H4).
    assert (forall v, is_six v -> is_u8 (b64_char v)) as Hv
      by (intros v Hv; unfold is_u8, is_six, b64_char in *; zcase).
    unfold sixths. repeat (apply Forall_cons_2; [now apply Hv |]). constructor. }
  induction l as [| a | a b | a b c l IH] using list_ind3; intros H; rewrite ?Forall_cons in H; cbn [base64_text];
    [constructor | | |]; apply Forall_app; (split; [try apply Forall_take; apply Hs; tauto |]);
    [auto using Forall_cons_2, Forall_nil_2 | auto using Forall_cons_2, Forall_nil_2 | tauto].
Qed.

Lemma full_blocks_length q l vs :
  length l = (4 * q)%nat -> full_blocks l = Some vs -> zlength vs = 3 * Z.of_nat q.
Proof.
  revert l vs. induction q as [| q IH]; intros l vs Hl H.
  - destruct l; [now injection H as <- | discriminate].
  - destruct l as [| a [| b [| c [| d l]]]]; cbn in Hl; try lia. cbn [full_blocks] in H.
    apply bind_Some in H as (bs & Hb & H). apply bind_Some in H as (rest & Hr & [= <-]).
    unfold decode_block in Hb. repeat (apply bind_Some in Hb as (? & _ & Hb)). injection Hb as <-.
    cbn [app]. rewrite !zlength_cons. rewrite (IH l rest) by (auto; lia). lia.
Qed.

Lemma base64_text_mod4 l : zlength (base64_text l) mod 4 = 0.
Proof. rewrite zlength_base64_text, zlength_raw_text, Z.mul_comm. apply Z.mod_mul. lia. Qed.

Lemma decoded_size_text l : Forall is_u8 l -> decoded_size (base64_text l) = zlength l.
Proof.
  intros H. pose proof (base64_value_text l H) as Hv. pose proof (base64_text_not_misplaced l H) as Hn.
  destruct (list_eq_nil_dec (base64_text l)) as [E | E]; [rewrite E in *; now injection Hv as <- |].
  destruct (split_last_quad _ (base64_text_mod4 l) E) as (front & c1 & c2 & c3 & c4 & q & Ht & Hq).
  rewrite Ht in *. rewrite (decoded_size_quad _ _ _ _ _ _ Hq).
  rewrite (base64_value_app _ _ _ _ _ _ Hq) in Hv. apply bind_Some in Hv as (bs & Hb & Hv).
  apply bind_Some in Hv as (rest & Hr & [= <-]). rewrite zlength_app, (full_blocks_length q front bs) by auto.
  unfold misplaced_padding in Hn. rewrite rev_app_distr in Hn. cbn [rev app] in Hn.
  apply (proj2 (decode_last_length _ _ _ _ _ Hr)) in Hn. lia.
Qed.

(** C39: [aws_base64_encode] followed by [aws_base64_decode] of what it appended
    is the identity on bytes: encoding succeeds when the padded text and its
    terminator fit behind the content, appends exactly the text of RFC 4648
    and a NUL that is not counted in the length, and decoding that text into
    a large enough buffer gives back the bytes. *)
Theorem base64_roundtrip (m : mem) (cur : aws_byte_cursor) (l : list Z) (text back : aws_byte_buf) :
  cursor_ok m cur l -> Forall is_u8 l -> cur_len cur < 2 ^ 61 ->
  0 <= buf_len text -> buf_len text + (4 * ((cur_len cur + 2) / 3) + 1) <= buf_capacity text <= SIZE_MAX ->
  cur_len cur <= buf_capacity back ->
  writable m (buf_buffer text) (buf_capacity text) ->
  writable m (buf_buffer back) (buf_capacity back) ->
  disjoint_ranges (cur_ptr cur) (cur_len cur) (buf_buffer text) (buf_capacity text) ->
  disjoint_ranges (buf_buffer text) (buf_capacity text) (buf_buffer back) (buf_capacity back) ->
  exists text' m1, aws_base64_encode cur text m = Ret (AWS_OP_SUCCESS, text') m1
    /\ written m (ptr_add (buf_buffer text) (buf_len text)) (base64_text l ++ [0]) m1
    /\ buf_len text' = buf_len text + 4 * ((cur_len cur + 2) / 3)
    /\ exists back' m2,
         aws_base64_decode (mk_cursor (buf_len text' - buf_len text)
                              (ptr_add (buf_buffer text) (buf_len text))) back m1
         = Ret (AWS_OP_SUCCESS, back') m2
         /\ bytes_at m2 (buf_buffer back') (buf_len back') = Some l.
Proof.
  intros Hc Hby Hlt Ht0 Ht Hb Hwt Hwb Hdt Hdb. pose proof (cursor_len _ _ _ Hc) as [Hl Hz].
  assert (0 <= 3 * ((cur_len cur + 2) / 3) <= cur_len cur + 2) as Hblk by (Z.div_mod_to_equations; lia).
  destruct (base64_encode_spec m cur l text) as (m1 & E1 & H1); auto; unfold encoded_size; unfold SIZE_MAX in *; try lia.
  { disjoint Hdt (cur_ptr cur) (buf_buffer text). }
  set (p := ptr_add (buf_buffer text) (buf_len text)) in *.
  eexists _, m1. split_and!; eauto; cbn [buf_len buf_buffer set_len]; unfold encoded_size; [lia |].
  pose proof (zlength_base64_text l) as Hzt. rewrite zlength_raw_text, Hz in Hzt.
  replace (buf_len text + (4 * ((cur_len cur + 2) / 3) + 1) - 1 - buf_len text)
    with (zlength (base64_text l)) by lia.
  pose proof (written_same _ _ _ _ H1) as Hs. rewrite zlength_app in Hs. change (zlength [0]) with 1 in Hs.
  assert (cursor_ok m1 (mk_cursor (zlength (base64_text l)) p) (base64_text l)) as Htext.
  { constructor; cbn [cur_len cur_ptr]; [| unfold SIZE_MAX; lia].
    rewrite (bytes_at_prefix _ _ _ _ _ Hs) by lia.
    rewrite slice_Some by (rewrite ?zlength_app; change (zlength [0]) with 1; lia).
    rewrite drop_0, take_app_length' by (unfold zlength; lia). reflexivity. }
  pose proof (decoded_size_text l Hby) as Hsz.
  destruct (decode_fits m1 p (base64_text l) back Htext)
    as (rv & back' & m2 & bs & E2 & H2 & Hr); try lia;
    [now apply base64_text_bytes | apply base64_text_mod4 | | |].
  - exact (written_writable _ _ _ _ _ _ H1 Hwb).
  - unfold p. disjoint Hdb (buf_buffer text) (buf_buffer back).
  - rewrite base64_value_text, Hsz in Hr by exact Hby. destruct Hr as (-> & -> & -> & _).
    eexists _, m2. split; [exact E2 |]. exact (written_same _ _ _ _ H2).
Qed.

Lemma base64_roundtrip_witness :
  exists text' m1 back' m2,
    aws_base64_encode (mk_cursor 3 (Ptr 1 0)) (mk_buf 2 (Ptr 2 0) 10 None) round_mem
    = Ret (AWS_OP_SUCCESS, text') m1
    /\ aws_base64_decode (mk_cursor (buf_len text' - 2) (Ptr 2 2)) (mk_buf 0 (Ptr 3 0) 4 None) m1
       = Ret (AWS_OP_SUCCESS, back') m2
    /\ bytes_at m2 (buf_buffer back') (buf_len back') = Some [171; 0; 16].
Proof.
  assert (cursor_ok round_mem (mk_cursor 3 (Ptr 1 0)) [171; 0; 16]) as Hc
    by (constructor; [reflexivity | unfold SIZE_MAX; cbn; lia]).
  destruct (base64_roundtrip round_mem (mk_cursor 3 (Ptr 1 0)) [171; 0; 16] (mk_buf 2 (Ptr 2 0) 10 None)
              (mk_buf 0 (Ptr 3 0) 4 None) Hc)
    as (text' & m1 & E1 & _ & _ & back' & m2 & E2 & H2).
  - repeat constructor; unfold is_u8; lia.
  - cbn. lia.
  - cbn. lia.
  - unfold SIZE_MAX. cbn [cur_len buf_len buf_capacity]. change ((3 + 2) / 3) with 1. lia.
  - cbn. lia.
  - right. exists 2%positive, 0, [9; 9; 9; 9; 9; 9; 9; 9; 9; 9]. unfold zlength. cbn. split_and!; auto; lia.
  - right. exists 3%positive, 0, [9; 9; 9; 9]. unfold zlength. cbn. split_and!; auto; lia.
  - cbn. discriminate.
  - cbn. discriminate.
  - exists text', m1, back', m2. auto.
Defined.

(** ** Inputs outside the alphabet *)

(** The text "AA=A" is accepted with a length of three although only one byte
    is stored, and a NUL character is accepted as if it had a value. *)
Theorem base64_accepts_misplaced_padding :
  base64_value [65; 65; 61; 65] = Some [0] /\ decoded_size [65; 65; 61; 65] = 3
  /\ misplaced_padding [65; 65; 61; 65] /\ s_base64_get_decoded_value 0 false = Some 64.
Proof. split_and!; [reflexivity | reflexivity | split; [reflexivity | discriminate] | reflexivity]. Qed.

(** The overflow test of the encoder's length computation misses one length. *)
Theorem base64_encoded_len_overflow_missed :
  aws_base64_compute_encoded_len (SIZE_MAX - 2) = Ok 6148914691236517205.
Proof. reflexivity. Qed.
