(* ===== verification/ArrayList.v ===== *)
(** * Array lists: definitions

    [source/array_list.c] and [include/aws/common/array_list.inl] over the
    memory of [Memory.v], at the level of bytes. A function that changes the
    list returns its new value. The model is of the release build: the debug
    fill patterns are not written. *)

From S2P Require Import Prelude Math ByteOrder Memory.

Local Open Scope Z_scope.

Module ArrayList.

Record aws_array_list := mk_list {
  alloc : option aws_allocator;
  current_size : Z;
  list_length : Z;
  item_size : Z;
  data : ptr
}.

Definition zero_list : aws_array_list := mk_list None 0 0 0 NULL.

Definition set_length (l : aws_array_list) (n : Z) : aws_array_list :=
  mk_list (alloc l) (current_size l) n (item_size l) (data l).

(** The new storage of a list. *)
Definition set_data (l : aws_array_list) (p : ptr) (size : Z) : aws_array_list :=
  mk_list (alloc l) size (list_length l) (item_size l) p.

(** [AWS_FATAL_PRECONDITION] *)
Definition require (b : bool) : M unit := if b then mret tt else abort.

Definition aws_array_list_is_valid (l : aws_array_list) : bool :=
  match aws_mul_size_checked (list_length l) (item_size l) with
  | Err _ => false
  | Ok required_size =>
      (required_size <=? current_size l)
      && (negb (current_size l =? 0) || is_NULL (data l))
      && ((current_size l =? 0) || negb (is_NULL (data l)))
      && negb (item_size l =? 0)
  end.

Definition aws_array_list_init_dynamic (al : aws_allocator) (initial_item_allocation isize : Z)
    : M (op_result * aws_array_list) :=
  _ ← require (0 <? isize);
  match aws_mul_size_checked initial_item_allocation isize with
  | Err e => mret (AWS_OP_ERR e, zero_list)
  | Ok allocation_size =>
      if 0 <? allocation_size then
        p ← aws_mem_acquire al allocation_size;
        mret (AWS_OP_SUCCESS, mk_list (Some al) allocation_size 0 isize p)
      else mret (AWS_OP_SUCCESS, mk_list (Some al) 0 0 isize NULL)
  end.

Definition aws_array_list_init_static (raw_array : ptr) (item_count isize : Z) : M aws_array_list :=
  _ ← require (negb (is_NULL raw_array) && (0 <? item_count) && (0 <? isize));
  match aws_mul_size_checked item_count isize with
  | Err _ => abort
  | Ok size => mret (mk_list None size 0 isize raw_array)
  end.

Definition release_data (l : aws_array_list) : M unit :=
  match alloc l with
  | Some al => if is_NULL (data l) then mret tt else aws_mem_release al (data l)
  | None => mret tt
  end.

Definition aws_array_list_clean_up (l : aws_array_list) : M aws_array_list :=
  _ ← release_data l; mret zero_list.

Definition aws_array_list_clean_up_secure (l : aws_array_list) : M aws_array_list :=
  match alloc l with
  | Some al =>
      if is_NULL (data l) then mret zero_list
      else
        _ ← aws_secure_zero (data l) (current_size l);
        _ ← aws_mem_release al (data l);
        mret zero_list
  | None => mret zero_list
  end.

Definition aws_array_list_length (l : aws_array_list) : M Z :=
  _ ← require ((list_length l =? 0) || negb (is_NULL (data l)));
  mret (list_length l).

Definition aws_array_list_capacity (l : aws_array_list) : M Z :=
  _ ← require (negb (item_size l =? 0));
  mret (current_size l / item_size l).

Definition aws_array_list_calc_necessary_size (l : aws_array_list) (index : Z) : result Z :=
  match aws_add_size_checked index 1 with
  | Err e => Err e
  | Ok index_inc => aws_mul_size_checked index_inc (item_size l)
  end.

Definition aws_array_list_ensure_capacity (l : aws_array_list) (index : Z)
    : M (op_result * aws_array_list) :=
  match aws_array_list_calc_necessary_size l index with
  | Err e => mret (AWS_OP_ERR e, l)
  | Ok necessary_size =>
      if current_size l <? necessary_size then
        match alloc l with
        | None => mret (aws_raise_error AWS_ERROR_INVALID_INDEX, l)
        | Some al =>
            let next_allocation_size := u64 (Z.shiftl (current_size l) 1) in
            let new_size := if necessary_size <? next_allocation_size
                            then next_allocation_size else necessary_size in
            if new_size <? current_size l
            then mret (aws_raise_error AWS_ERROR_LIST_EXCEEDS_MAX_SIZE, l)
            else
              temp ← aws_mem_acquire al new_size;
              _ ← (if is_NULL (data l) then mret tt
                   else
                     _ ← memcpy temp (data l) (current_size l);
                     aws_mem_release al (data l));
              mret (AWS_OP_SUCCESS, set_data l temp new_size)
        end
      else mret (AWS_OP_SUCCESS, l)
  end.

Definition aws_array_list_set_at (l : aws_array_list) (val : ptr) (index : Z)
    : M (op_result * aws_array_list) :=
  '(rv, l) ← aws_array_list_ensure_capacity l index;
  match rv with
  | AWS_OP_ERR e => mret (AWS_OP_ERR e, l)
  | AWS_OP_SUCCESS =>
      _ ← require (negb (is_NULL (data l)));
      _ ← memcpy (ptr_add (data l) (item_size l * index)) val (item_size l);
      len ← aws_array_list_length l;
      if len <=? index then
        match aws_add_size_checked index 1 with
        | Err e => mret (AWS_OP_ERR e, l)
        | Ok n => mret (AWS_OP_SUCCESS, set_length l n)
        end
      else mret (AWS_OP_SUCCESS, l)
  end.

(** A static list that is full reports another error than a bad index. *)
Definition push_error (l : aws_array_list) (rv : op_result) : op_result :=
  match rv, alloc l with
  | AWS_OP_ERR AWS_ERROR_INVALID_INDEX, None => aws_raise_error AWS_ERROR_LIST_EXCEEDS_MAX_SIZE
  | _, _ => rv
  end.

Definition aws_array_list_push_back (l : aws_array_list) (val : ptr)
    : M (op_result * aws_array_list) :=
  len ← aws_array_list_length l;
  '(rv, l) ← aws_array_list_set_at l val len;
  mret (push_error l rv, l).

Definition aws_array_list_push_front (l : aws_array_list) (val : ptr)
    : M (op_result * aws_array_list) :=
  orig_len ← aws_array_list_length l;
  '(rv, l) ← aws_array_list_ensure_capacity l orig_len;
  match rv with
  | AWS_OP_ERR e => mret (push_error l rv, l)
  | AWS_OP_SUCCESS =>
      _ ← (if orig_len =? 0 then mret tt
           else memmove (ptr_add (data l) (item_size l)) (data l) (u64 (orig_len * item_size l)));
      let l := set_length l (list_length l + 1) in
      _ ← memcpy (data l) val (item_size l);
      mret (AWS_OP_SUCCESS, l)
  end.

Definition aws_array_list_get_at (l : aws_array_list) (val : ptr) (index : Z) : M op_result :=
  len ← aws_array_list_length l;
  if index <? len then
    _ ← memcpy val (ptr_add (data l) (item_size l * index)) (item_size l);
    mret AWS_OP_SUCCESS
  else mret (aws_raise_error AWS_ERROR_INVALID_INDEX).

Definition aws_array_list_get_at_ptr (l : aws_array_list) (index : Z) : M (result ptr) :=
  len ← aws_array_list_length l;
  mret (if index <? len then Ok (ptr_add (data l) (item_size l * index))
        else Err AWS_ERROR_INVALID_INDEX).

Definition aws_array_list_front (l : aws_array_list) (val : ptr) : M op_result :=
  len ← aws_array_list_length l;
  if 0 <? len then _ ← memcpy val (data l) (item_size l); mret AWS_OP_SUCCESS
  else mret (aws_raise_error AWS_ERROR_LIST_EMPTY).

Definition aws_array_list_back (l : aws_array_list) (val : ptr) : M op_result :=
  len ← aws_array_list_length l;
  if 0 <? len then
    _ ← memcpy val (ptr_add (data l) (item_size l * (len - 1))) (item_size l);
    mret AWS_OP_SUCCESS
  else mret (aws_raise_error AWS_ERROR_LIST_EMPTY).

Definition aws_array_list_clear (l : aws_array_list) : aws_array_list :=
  if is_NULL (data l) then l else set_length l 0.

Definition aws_array_list_pop_back (l : aws_array_list) : M (op_result * aws_array_list) :=
  len ← aws_array_list_length l;
  if 0 <? len then
    _ ← require (negb (is_NULL (data l)));
    _ ← memset (ptr_add (data l) (item_size l * (len - 1))) 0 (item_size l);
    mret (AWS_OP_SUCCESS, set_length l (list_length l - 1))
  else mret (aws_raise_error AWS_ERROR_LIST_EMPTY, l).

Definition aws_array_list_pop_front_n (l : aws_array_list) (n : Z) : M aws_array_list :=
  len ← aws_array_list_length l;
  if len <=? n then mret (aws_array_list_clear l)
  else if 0 <? n then
    let remaining_items := len - n in
    _ ← memmove (data l) (ptr_add (data l) (u64 (item_size l * n)))
          (u64 (remaining_items * item_size l));
    mret (set_length l remaining_items)
  else mret l.

Definition aws_array_list_pop_front (l : aws_array_list) : M (op_result * aws_array_list) :=
  len ← aws_array_list_length l;
  if 0 <? len then l ← aws_array_list_pop_front_n l 1; mret (AWS_OP_SUCCESS, l)
  else mret (aws_raise_error AWS_ERROR_LIST_EMPTY, l).

Definition aws_array_list_erase (l : aws_array_list) (index : Z) : M (op_result * aws_array_list) :=
  len ← aws_array_list_length l;
  if len <=? index then mret (aws_raise_error AWS_ERROR_INVALID_INDEX, l)
  else if index =? 0 then
    '(_, l) ← aws_array_list_pop_front l; mret (AWS_OP_SUCCESS, l)
  else if index =? len - 1 then
    '(_, l) ← aws_array_list_pop_back l; mret (AWS_OP_SUCCESS, l)
  else
    let item_ptr := ptr_add (data l) (index * item_size l) in
    let next_item_ptr := ptr_add item_ptr (item_size l) in
    let trailing_items := len - index - 1 in
    _ ← memmove item_ptr next_item_ptr (u64 (trailing_items * item_size l));
    '(_, l) ← aws_array_list_pop_back l; mret (AWS_OP_SUCCESS, l).

Definition aws_array_list_swap_contents (list_a list_b : aws_array_list)
    : M (aws_array_list * aws_array_list) :=
  match alloc list_a, alloc list_b with
  | Some a, Some b =>
      _ ← require (bool_decide (a = b) && (item_size list_a =? item_size list_b));
      mret (list_b, list_a)
  | _, _ => abort
  end.

Definition aws_array_list_shrink_to_fit (l : aws_array_list) : M (op_result * aws_array_list) :=
  match alloc l with
  | Some al =>
      match aws_mul_size_checked (list_length l) (item_size l) with
      | Err e => mret (AWS_OP_ERR e, l)
      | Ok ideal_size =>
          if ideal_size <? current_size l then
            raw_data ←
              (if 0 <? ideal_size then
                 p ← aws_mem_acquire al ideal_size;
                 _ ← memcpy p (data l) ideal_size;
                 _ ← aws_mem_release al (data l);
                 mret p
               else mret NULL);
            mret (AWS_OP_SUCCESS, set_data l raw_data ideal_size)
          else mret (AWS_OP_SUCCESS, l)
      end
  | None => mret (aws_raise_error AWS_ERROR_LIST_STATIC_MODE_CANT_SHRINK, l)
  end.

Definition aws_array_list_copy (from to : aws_array_list) : M (op_result * aws_array_list) :=
  _ ← require ((item_size from =? item_size to) && negb (is_NULL (data from)));
  match aws_mul_size_checked (list_length from) (item_size from) with
  | Err e => mret (AWS_OP_ERR e, to)
  | Ok copy_size =>
      if copy_size <=? current_size to then
        _ ← (if 0 <? copy_size then memcpy (data to) (data from) copy_size else mret tt);
        mret (AWS_OP_SUCCESS, set_length to (list_length from))
      else
        match alloc to with
        | Some al =>
            tmp ← aws_mem_acquire al copy_size;
            _ ← memcpy tmp (data from) copy_size;
            _ ← (if is_NULL (data to) then mret tt else aws_mem_release al (data to));
            mret (AWS_OP_SUCCESS, set_length (set_data to tmp copy_size) (list_length from))
        | None => mret (aws_raise_error AWS_ERROR_DEST_COPY_TOO_SMALL, to)
        end
  end.

(** Exchange [n] bytes through a local array. *)
Definition swap_bytes (item1 item2 : ptr) (n : Z) : M unit :=
  temp ← load item1 n;
  _ ← memcpy item1 item2 n;
  store item2 temp.

Fixpoint mem_swap_loop (slices : nat) (item1 item2 : ptr) : M (ptr * ptr) :=
  match slices with
  | O => mret (item1, item2)
  | S slices =>
      _ ← swap_bytes item1 item2 128;
      mem_swap_loop slices (ptr_add item1 128) (ptr_add item2 128)
  end.

Definition aws_array_list_mem_swap (item1 item2 : ptr) (isize : Z) : M unit :=
  _ ← require (negb (is_NULL item1) && negb (is_NULL item2));
  '(item1, item2) ← mem_swap_loop (Z.to_nat (isize / 128)) item1 item2;
  swap_bytes item1 item2 (Z.land isize 127).

Definition aws_array_list_swap (l : aws_array_list) (a b : Z) : M unit :=
  _ ← require ((a <? list_length l) && (b <? list_length l));
  if a =? b then mret tt
  else
    item1 ← aws_array_list_get_at_ptr l a;
    item2 ← aws_array_list_get_at_ptr l b;
    match item1, item2 with
    | Ok p, Ok q => aws_array_list_mem_swap p q (item_size l)
    | _, _ => abort
    end.

(** [qsort] of the C library, on the items as byte sequences. *)
Section sort.
Context (qsort : list (list Z) -> list (list Z)).

Fixpoint chunks (n : nat) (isize : Z) (bs : list Z) : list (list Z) :=
  match n with
  | O => []
  | S n => take (Z.to_nat isize) bs :: chunks n isize (drop (Z.to_nat isize) bs)
  end.

Definition aws_array_list_sort (l : aws_array_list) : M unit :=
  if is_NULL (data l) then mret tt
  else
    len ← aws_array_list_length l;
    bs ← load (data l) (len * item_size l);
    store (data l) (concat (qsort (chunks (Z.to_nat len) (item_size l) bs))).
End sort.

End ArrayList.
