(* ===== verification/ArrayItems.v ===== *)
(** * Array lists of items

    The array list at the level of items, the interface its clients (the
    priority queue) use. A slot is [None] when its content is not known:
    freshly allocated or cleared by the list. [ArrayListSpec.v] shows that the
    byte-level functions of [ArrayList.v] implement these operations.

    The sizes stay in bytes, so that growth and overflow are those of the
    code. *)

From S2P Require Import Prelude Math.

Local Open Scope Z_scope.

Record alist (A : Type) := mk_alist {
  a_slots : list (option A);
  a_len : Z;
  a_dynamic : bool;
  a_item_size : Z
}.
Arguments mk_alist {A} _ _ _ _.
Arguments a_slots {A} _.
Arguments a_len {A} _.
Arguments a_dynamic {A} _.
Arguments a_item_size {A} _.

Section ops.
Context {A : Type}.
Implicit Types (l : alist A).

Definition with_slots l (slots : list (option A)) : alist A :=
  mk_alist slots (a_len l) (a_dynamic l) (a_item_size l).
Definition with_len l (n : Z) : alist A :=
  mk_alist (a_slots l) n (a_dynamic l) (a_item_size l).

(** [current_size] *)
Definition a_size l : Z := zlength (a_slots l) * a_item_size l.

Definition a_init_dynamic (count isize : Z) : result (alist A) :=
  match aws_mul_size_checked count isize with
  | Err e => Err e
  | Ok _ => Ok (mk_alist (replicate (Z.to_nat count) None) 0 true isize)
  end.

Definition a_init_static (count isize : Z) : alist A :=
  mk_alist (replicate (Z.to_nat count) None) 0 false isize.

Definition a_ensure_capacity l (index : Z) : op_result * alist A :=
  match aws_add_size_checked index 1 with
  | Err e => (AWS_OP_ERR e, l)
  | Ok index_inc =>
      match aws_mul_size_checked index_inc (a_item_size l) with
      | Err e => (AWS_OP_ERR e, l)
      | Ok necessary =>
          if a_size l <? necessary then
            if a_dynamic l then
              let next := u64 (Z.shiftl (a_size l) 1) in
              let new_size := if necessary <? next then next else necessary in
              if new_size <? a_size l then (aws_raise_error AWS_ERROR_LIST_EXCEEDS_MAX_SIZE, l)
              else
                let grow := new_size / a_item_size l - zlength (a_slots l) in
                (AWS_OP_SUCCESS, with_slots l (a_slots l ++ replicate (Z.to_nat grow) None))
            else (aws_raise_error AWS_ERROR_INVALID_INDEX, l)
          else (AWS_OP_SUCCESS, l)
      end
  end.

Definition put_slot l (i : Z) (x : option A) : alist A :=
  with_slots l (<[Z.to_nat i := x]> (a_slots l)).

Definition a_set_at l (a : A) (index : Z) : op_result * alist A :=
  match a_ensure_capacity l index with
  | (AWS_OP_ERR e, l) => (AWS_OP_ERR e, l)
  | (AWS_OP_SUCCESS, l) =>
      let l := put_slot l index (Some a) in
      (AWS_OP_SUCCESS, if a_len l <=? index then with_len l (index + 1) else l)
  end.

Definition a_push_error l (rv : op_result) : op_result :=
  match rv, a_dynamic l with
  | AWS_OP_ERR AWS_ERROR_INVALID_INDEX, false => aws_raise_error AWS_ERROR_LIST_EXCEEDS_MAX_SIZE
  | _, _ => rv
  end.

Definition a_push_back l (a : A) : op_result * alist A :=
  let '(rv, l) := a_set_at l a (a_len l) in (a_push_error l rv, l).

(** Move [k] slots from [from] to [to]. *)
Definition move_slots l (to from k : Z) : alist A :=
  match slice (a_slots l) from k ≫= splice (a_slots l) to with
  | Some slots => with_slots l slots
  | None => l
  end.

Definition a_push_front l (a : A) : op_result * alist A :=
  match a_ensure_capacity l (a_len l) with
  | (AWS_OP_ERR e, l) => (a_push_error l (AWS_OP_ERR e), l)
  | (AWS_OP_SUCCESS, l) =>
      let l := if a_len l =? 0 then l else move_slots l 1 0 (a_len l) in
      (AWS_OP_SUCCESS, with_len (put_slot l 0 (Some a)) (a_len l + 1))
  end.

(** [Err] when the index is out of range; [Ok None] when the slot was never
    set. *)
Definition a_get_at l (index : Z) : result (option A) :=
  if index <? a_len l then Ok (mjoin (a_slots l !! Z.to_nat index)) else Err AWS_ERROR_INVALID_INDEX.

Definition a_pop_back l : op_result * alist A :=
  if 0 <? a_len l
  then (AWS_OP_SUCCESS, with_len (put_slot l (a_len l - 1) None) (a_len l - 1))
  else (aws_raise_error AWS_ERROR_LIST_EMPTY, l).

Definition a_clear l : alist A := with_len l 0.

Definition a_pop_front_n l (n : Z) : alist A :=
  if a_len l <=? n then a_clear l
  else if 0 <? n then with_len (move_slots l 0 n (a_len l - n)) (a_len l - n)
  else l.

Definition a_pop_front l : op_result * alist A :=
  if 0 <? a_len l then (AWS_OP_SUCCESS, a_pop_front_n l 1)
  else (aws_raise_error AWS_ERROR_LIST_EMPTY, l).

Definition a_erase l (index : Z) : op_result * alist A :=
  if a_len l <=? index then (aws_raise_error AWS_ERROR_INVALID_INDEX, l)
  else if index =? 0 then (AWS_OP_SUCCESS, snd (a_pop_front l))
  else if index =? a_len l - 1 then (AWS_OP_SUCCESS, snd (a_pop_back l))
  else (AWS_OP_SUCCESS, snd (a_pop_back (move_slots l index (index + 1) (a_len l - index - 1)))).

(** The contents of two slots change places. *)
Definition a_swap l (i j : Z) : alist A :=
  match zlookup (a_slots l) i, zlookup (a_slots l) j with
  | Some x, Some y => put_slot (put_slot l i y) j x
  | _, _ => l
  end.

(** [memset] of all slots to one known item. *)
Definition a_fill l (a : A) : alist A :=
  with_slots l (replicate (length (a_slots l)) (Some a)).

(** ** Well-formed lists and their contents *)

Record alist_ok l : Prop := {
  ok_len : 0 <= a_len l <= zlength (a_slots l);
  ok_item : 0 < a_item_size l;
  ok_size : a_size l <= SIZE_MAX
}.

Definition items l : list (option A) := take (Z.to_nat (a_len l)) (a_slots l).

End ops.

(** ** Operations as functions on plain lists *)

Inductive list_op (A : Type) :=
| PushBack (a : A) | PushFront (a : A) | SetAt (a : A) (i : Z)
| PopBack | PopFront | PopFrontN (n : Z) | Erase (i : Z) | Swap (i j : Z) | Clear.
Arguments PushBack {A} a.
Arguments PushFront {A} a.
Arguments SetAt {A} a i.
Arguments PopBack {A}.
Arguments PopFront {A}.
Arguments PopFrontN {A} n.
Arguments Erase {A} i.
Arguments Swap {A} i j.
Arguments Clear {A}.

Section spec.
Context {A : Type}.
Implicit Types (l : alist A) (xs : list (option A)).

(** The operation on an item list. *)
Definition a_step (op : list_op A) l : op_result * alist A :=
  match op with
  | PushBack a => a_push_back l a
  | PushFront a => a_push_front l a
  | SetAt a i => a_set_at l a i
  | PopBack => a_pop_back l
  | PopFront => a_pop_front l
  | PopFrontN n => (AWS_OP_SUCCESS, a_pop_front_n l n)
  | Erase i => a_erase l i
  | Swap i j => (AWS_OP_SUCCESS, a_swap l i j)
  | Clear => (AWS_OP_SUCCESS, a_clear l)
  end.

(** What a caller must respect: indices are not negative, and those that are
    exchanged are in range. *)
Definition valid_op (n : Z) (op : list_op A) : Prop :=
  match op with
  | SetAt _ i | Erase i | PopFrontN i => 0 <= i
  | Swap i j => 0 <= i < n /\ 0 <= j < n
  | _ => True
  end.

(** An item that is set behind the end leaves items between that are not
    known. *)
Definition list_step (op : list_op A) xs : list (option A) :=
  match op with
  | PushBack a => xs ++ [Some a]
  | PushFront a => Some a :: xs
  | SetAt a i =>
      take (Z.to_nat i) xs ++ replicate (Z.to_nat i - length xs) None
        ++ Some a :: drop (S (Z.to_nat i)) xs
  | PopBack => take (length xs - 1) xs
  | PopFront => drop 1 xs
  | PopFrontN n => drop (Z.to_nat n) xs
  | Erase i => delete (Z.to_nat i) xs
  | Swap i j =>
      match xs !! Z.to_nat i, xs !! Z.to_nat j with
      | Some x, Some y => <[Z.to_nat j := x]> (<[Z.to_nat i := y]> xs)
      | _, _ => xs
      end
  | Clear => []
  end.

(** The error an operation reports: none when it succeeds. *)
Definition grow_error l (index : Z) (full : aws_common_error) : option aws_common_error :=
  if SIZE_MAX <? (index + 1) * a_item_size l then Some AWS_ERROR_OVERFLOW_DETECTED
  else if negb (a_dynamic l) && (zlength (a_slots l) <=? index) then Some full else None.

Definition list_error (op : list_op A) l : option aws_common_error :=
  match op with
  | PushBack _ | PushFront _ => grow_error l (a_len l) AWS_ERROR_LIST_EXCEEDS_MAX_SIZE
  | SetAt _ i => grow_error l i AWS_ERROR_INVALID_INDEX
  | PopBack | PopFront => if 0 <? a_len l then None else Some AWS_ERROR_LIST_EMPTY
  | Erase i => if i <? a_len l then None else Some AWS_ERROR_INVALID_INDEX
  | PopFrontN _ | Swap _ _ | Clear => None
  end.

Lemma zlength_items l : alist_ok l -> zlength (items l) = a_len l.
Proof. intros [Hl _ _]. unfold items, zlength in *. rewrite length_take. lia. Qed.

(** The new size of the storage, for [n] items when there is room for [s]. *)
Lemma grown_size_spec s n isz :
  0 <= s -> 0 < isz -> s * isz < n * isz <= SIZE_MAX ->
  let next := u64 (Z.shiftl (s * isz) 1) in
  let new := if n * isz <? next then next else n * isz in
  exists q, new = q * isz /\ n <= q /\ new <= SIZE_MAX.
Proof.
  intros Hs Hi Hn. cbv zeta. destruct (Z.ltb_spec (n * isz) (u64 (Z.shiftl (s * isz) 1))) as [Hlt | Hge].
  - exists (2 * s). rewrite Z.shiftl_mul_pow2 in * by lia. change (2 ^ 1) with 2 in *.
    unfold u64, SIZE_MAX in *. destruct (Z.lt_ge_cases (s * isz * 2) (2 ^ 64)).
    + rewrite Z.mod_small in * by lia. split_and!; nia.
    + exfalso. assert ((s * isz * 2) mod 2 ^ 64 = s * isz * 2 - 2 ^ 64) as E
        by (symmetry; apply (Z.mod_unique _ _ 1); lia). lia.
  - exists n. split_and!; lia.
Qed.

Lemma ensure_capacity_spec l index :
  alist_ok l -> 0 <= index ->
  match grow_error l index AWS_ERROR_INVALID_INDEX with
  | Some e => a_ensure_capacity l index = (AWS_OP_ERR e, l)
  | None => exists k, a_ensure_capacity l index
                      = (AWS_OP_SUCCESS, with_slots l (a_slots l ++ replicate k None))
              /\ index < zlength (a_slots l) + Z.of_nat k
              /\ (zlength (a_slots l) + Z.of_nat k) * a_item_size l <= SIZE_MAX
              /\ (k = O \/ a_dynamic l = true)
  end.
Proof.
  intros [Hl Hi Hs] H0. unfold a_size in Hs. unfold grow_error, a_ensure_capacity.
  pose proof (zlength_nonneg (a_slots l)).
  assert (index < (index + 1) * a_item_size l) as Hlow by nia.
  destruct (Z.ltb_spec SIZE_MAX ((index + 1) * a_item_size l)) as [Hover | Hfit].
  { rewrite add_size_checked_spec by lia. destruct (Z.leb_spec (index + 1) SIZE_MAX); [| reflexivity].
    rewrite mul_size_checked_spec, (proj2 (Z.leb_gt _ _)) by lia. reflexivity. }
  rewrite add_size_checked_spec, (proj2 (Z.leb_le _ SIZE_MAX)) by lia.
  rewrite mul_size_checked_spec, (proj2 (Z.leb_le _ SIZE_MAX)) by lia. unfold a_size.
  destruct (Z.ltb_spec (zlength (a_slots l) * a_item_size l) ((index + 1) * a_item_size l)) as [Hlt | Hge].
  2: { rewrite (proj2 (Z.leb_gt _ _)), andb_false_r by nia. exists O. cbn [replicate].
       rewrite app_nil_r. split; [now destruct l |]. split_and!; auto; nia. }
  rewrite (proj2 (Z.leb_le _ _)), andb_true_r by nia. destruct (a_dynamic l); cbn [negb]; [| reflexivity].
  set (next := u64 _). set (new := if _ <? next then _ else _).
  destruct (grown_size_spec (zlength (a_slots l)) (index + 1) (a_item_size l)) as (q & Hq & Hiq & Hnew);
    auto; try lia. fold next new in Hq, Hnew.
  rewrite (proj2 (Z.ltb_ge new _)) by nia. rewrite Hq, Z.div_mul by lia.
  exists (Z.to_nat (q - zlength (a_slots l))). split; [reflexivity |].
  assert (zlength (a_slots l) <= q) by nia. split_and!; auto; nia.
Qed.

(** *** Slots after each kind of change *)

Lemma slots_put l i x : a_slots (put_slot l i x) = <[Z.to_nat i := x]> (a_slots l).
Proof. reflexivity. Qed.

Lemma ok_grown l k :
  alist_ok l -> (zlength (a_slots l) + Z.of_nat k) * a_item_size l <= SIZE_MAX ->
  alist_ok (with_slots l (a_slots l ++ replicate k None))
  /\ items (with_slots l (a_slots l ++ replicate k None)) = items l.
Proof.
  intros [Hl Hi Hs] Hk. split.
  - constructor; cbn; auto; unfold a_size; cbn; rewrite zlength_app; unfold zlength in *;
      rewrite ?length_replicate; lia.
  - unfold items. cbn. apply take_app_le. unfold zlength in Hl. lia.
Qed.

Lemma ok_put l i x : alist_ok l -> alist_ok (put_slot l i x).
Proof. intros [Hl Hi Hs]. constructor; cbn; auto; unfold a_size; cbn; now rewrite zlength_insert. Qed.

Lemma ok_with_len l n : alist_ok l -> 0 <= n <= zlength (a_slots l) -> alist_ok (with_len l n).
Proof. intros [Hl Hi Hs] Hn. constructor; auto. Qed.

(** The slot at the length becomes the last item. *)
Lemma items_append l x :
  alist_ok l -> a_len l < zlength (a_slots l) ->
  items (with_len (put_slot l (a_len l) x) (a_len l + 1)) = items l ++ [x].
Proof.
  intros [Hl _ _] Hlt. unfold items. cbn. unfold zlength in *.
  replace (Z.to_nat (a_len l + 1)) with (S (Z.to_nat (a_len l))) by lia.
  rewrite (take_S_r _ _ x) by (apply list_lookup_insert_eq; lia).
  f_equal. apply take_insert_ge. lia.
Qed.

Lemma items_put l i x :
  alist_ok l -> 0 <= i < a_len l -> items (put_slot l i x) = <[Z.to_nat i := x]> (items l).
Proof. intros [Hl _ _] Hi. unfold items. cbn. apply take_insert_lt. lia. Qed.

Lemma move_spec l to from k :
  0 <= to -> 0 <= from -> 0 <= k -> from + k <= zlength (a_slots l) -> to + k <= zlength (a_slots l) ->
  exists slots, move_slots l to from k = with_slots l slots /\ zlength slots = zlength (a_slots l)
    /\ forall i, slots !! i = if (to <=? Z.of_nat i) && (Z.of_nat i <? to + k)
                             then a_slots l !! (Z.to_nat (from + (Z.of_nat i - to))) else a_slots l !! i.
Proof.
  intros Ht Hf Hk H1 H2. unfold move_slots.
  destruct (slice_is_Some (a_slots l) from k) as [ys Hy]; auto.
  pose proof Hy as (_ & _ & _ & _ & Hz)%slice_inv.
  destruct (splice_is_Some (a_slots l) to ys) as [slots Hs]; auto; [lia |].
  rewrite Hy. cbn. rewrite Hs. exists slots. split; [reflexivity |].
  split; [apply (splice_inv _ _ _ _ Hs) |]. intros i.
  destruct (Z.leb_spec to (Z.of_nat i)), (Z.ltb_spec (Z.of_nat i) (to + k)); cbn [andb];
    try (apply (splice_lookup_out _ _ _ _ _ Hs); lia).
  pose proof (splice_lookup_in _ _ _ _ (Z.of_nat i - to) Hs ltac:(lia)) as E.
  replace (to + (Z.of_nat i - to)) with (Z.of_nat i) in E by lia. rewrite Nat2Z.id in E. rewrite E.
  rewrite (slice_lookup _ _ _ _ _ Hy) by lia. f_equal. lia.
Qed.

Lemma ok_move l to from k : alist_ok l -> alist_ok (move_slots l to from k).
Proof.
  intros Ho. unfold move_slots. destruct (slice _ from k) as [ys |]; cbn; [| exact Ho].
  destruct (splice _ to ys) as [slots |] eqn:Hs; [| exact Ho].
  apply splice_inv in Hs as (_ & _ & _ & Hz). destruct Ho as [Hl Hi Hs].
  constructor; cbn; auto; unfold a_size; cbn; rewrite Hz; auto.
Qed.

(** *** Each operation *)

Definition step_ok (op : list_op A) l : Prop :=
  match list_error op l with
  | Some e => a_step op l = (AWS_OP_ERR e, l)
  | None => exists l', a_step op l = (AWS_OP_SUCCESS, l') /\ alist_ok l'
              /\ items l' = list_step op (items l)
              /\ a_dynamic l' = a_dynamic l /\ a_item_size l' = a_item_size l
  end.

Lemma set_at_ok l a i :
  alist_ok l -> 0 <= i <= a_len l ->
  match grow_error l i AWS_ERROR_INVALID_INDEX with
  | Some e => a_set_at l a i = (AWS_OP_ERR e, l)
  | None => exists l', a_set_at l a i = (AWS_OP_SUCCESS, l') /\ alist_ok l'
              /\ items l' = take (Z.to_nat i) (items l) ++ Some a :: drop (S (Z.to_nat i)) (items l)
              /\ a_dynamic l' = a_dynamic l /\ a_item_size l' = a_item_size l
  end.
Proof.
  intros Ho Hi. pose proof (ensure_capacity_spec l i Ho ltac:(lia)) as H.
  pose proof (zlength_items l Ho) as Hz. unfold a_set_at.
  destruct (grow_error l i AWS_ERROR_INVALID_INDEX) as [e |]; [now rewrite H |].
  destruct H as (k & -> & Hk & Hs & _). destruct (ok_grown l k Ho Hs) as [Hg Hgi].
  set (g := with_slots l _) in *. assert (a_len g = a_len l) as El by reflexivity.
  assert (zlength (a_slots g) = zlength (a_slots l) + Z.of_nat k) as Eg
    by (unfold g; cbn; rewrite zlength_app; unfold zlength; rewrite length_replicate; lia).
  eexists. split; [reflexivity |]. change (a_len (put_slot g i (Some a))) with (a_len g).
  rewrite <- Hgi in *. unfold zlength in Hz.
  destruct (Z.leb_spec (a_len g) i) as [Hle | Hlt].
  - assert (i = a_len g) as -> by lia.
    split; [apply ok_with_len; [now apply ok_put | rewrite slots_put, zlength_insert; lia] |].
    split; [| auto]. rewrite items_append by (auto; lia).
    rewrite take_ge, drop_ge by lia. reflexivity.
  - split; [now apply ok_put |]. split; [| auto]. rewrite items_put by (auto; lia).
    rewrite insert_take_drop by lia. reflexivity.
Qed.

Lemma push_back_ok l a : alist_ok l -> step_ok (PushBack a) l.
Proof.
  intros Ho. pose proof (ok_len _ Ho) as Hl. pose proof (set_at_ok l a (a_len l) Ho ltac:(lia)) as H.
  pose proof (zlength_items l Ho) as Hz. unfold zlength in Hz.
  unfold step_ok. cbn [list_error a_step]. unfold a_push_back, grow_error in *.
  destruct (SIZE_MAX <? _); [now rewrite H |].
  destruct (a_dynamic l) eqn:Ed; cbn [negb andb] in *.
  2: destruct (zlength (a_slots l) <=? a_len l); [rewrite H; cbn; now rewrite Ed |].
  all: destruct H as (l' & -> & Ho' & Hi & Hd & Hs); exists l'; split; [reflexivity |];
    cbn [list_step] in *; rewrite take_ge, drop_ge in Hi by lia; split_and!; auto; congruence.
Qed.

Lemma push_front_ok l a : alist_ok l -> step_ok (PushFront a) l.
Proof.
  intros Ho. pose proof (ok_len _ Ho) as Hl.
  pose proof (ensure_capacity_spec l (a_len l) Ho ltac:(lia)) as H.
  unfold step_ok. cbn [list_error a_step list_step]. unfold a_push_front, grow_error in *.
  destruct (SIZE_MAX <? _); [now rewrite H |].
  assert (negb (a_dynamic l) && (zlength (a_slots l) <=? a_len l) = false \/
          negb (a_dynamic l) && (zlength (a_slots l) <=? a_len l) = true) as [E | E]
    by (destruct (_ && _); auto); rewrite E in *.
  2: { rewrite H. unfold a_push_error. destruct (a_dynamic l); [discriminate | reflexivity]. }
  destruct H as (k & -> & Hk & Hs & _). destruct (ok_grown l k Ho Hs) as [Hg Hgi].
  set (g := with_slots l _) in *. rewrite <- Hgi.
  assert (zlength (a_slots g) = zlength (a_slots l) + Z.of_nat k) as Eg
    by (unfold g; cbn; rewrite zlength_app; unfold zlength; rewrite length_replicate; lia).
  assert (a_len g = a_len l) as El by reflexivity.
  assert (0 <= a_len g < zlength (a_slots g)) as Hlt by lia. clear Hk Hs Eg Hgi E.
  change (a_dynamic l) with (a_dynamic g). change (a_item_size l) with (a_item_size g). clearbody g.
  assert (exists slots, (if a_len g =? 0 then g else move_slots g 1 0 (a_len g)) = with_slots g slots
    /\ zlength slots = zlength (a_slots g)
    /\ forall i, (S i <= Z.to_nat (a_len g))%nat -> slots !! S i = a_slots g !! i) as (slots & -> & Hz & Hsl).
  { destruct (Z.eqb_spec (a_len g) 0) as [E0 | E0].
    - exists (a_slots g). split; [now destruct g |]. split; [reflexivity |]. intros i Hi. lia.
    - destruct (move_spec g 1 0 (a_len g)) as (slots & Hm & Hz & Hlk); try lia.
      exists slots. split_and!; auto. intros i Hi. rewrite Hlk.
      rewrite (proj2 (Z.leb_le _ _)), (proj2 (Z.ltb_lt _ _)) by lia. cbn [andb]. f_equal. lia. }
  eexists. split; [reflexivity |]. split; [| split; [| auto]].
  - constructor; cbn; [rewrite zlength_insert; lia | apply Hg |].
    unfold a_size. cbn. rewrite zlength_insert, Hz. apply Hg.
  - unfold items. cbn. unfold zlength in *. destruct slots as [| s0 slots]; [cbn in *; lia |].
    replace (Z.to_nat (a_len g + 1)) with (S (Z.to_nat (a_len g))) by lia.
    change (Z.to_nat 0) with O. cbn [insert list_insert firstn]. f_equal. apply list_eq. intros i. destruct (Nat.lt_ge_cases i (Z.to_nat (a_len g))).
    + rewrite !lookup_take_lt by lia. now apply (Hsl i).
    + rewrite !lookup_take_ge by lia. reflexivity.
Qed.

Lemma pop_back_ok l : alist_ok l -> step_ok PopBack l.
Proof.
  intros Ho. pose proof (ok_len _ Ho) as Hl. unfold step_ok. cbn [list_error a_step list_step]. unfold a_pop_back.
  destruct (Z.ltb_spec 0 (a_len l)); [| reflexivity]. eexists. split; [reflexivity |].
  split; [apply ok_with_len; [now apply ok_put | rewrite slots_put, zlength_insert; lia] |].
  split; [| auto]. unfold items. cbn. rewrite take_insert_ge by lia. unfold zlength in Hl.
  rewrite take_take, length_take. f_equal. lia.
Qed.

(** Moving the tail of the items down over the items from [to] on. *)
Lemma items_moved_down l to from :
  alist_ok l -> 0 <= to <= from -> from <= a_len l ->
  items (with_len (move_slots l to from (a_len l - from)) (a_len l - (from - to)))
  = take (Z.to_nat to) (items l) ++ drop (Z.to_nat from) (items l).
Proof.
  intros Ho Ht Hf. pose proof (ok_len _ Ho) as Hl.
  destruct (move_spec l to from (a_len l - from)) as (slots & -> & Hz & Hlk); try lia.
  unfold items. cbn. unfold zlength in *. apply list_eq. intros i.
  destruct (Nat.lt_ge_cases i (Z.to_nat (a_len l - (from - to)))) as [Hi | Hi].
  - rewrite lookup_take_lt, Hlk by lia. destruct (Nat.lt_ge_cases i (Z.to_nat to)).
    + rewrite (proj2 (Z.leb_gt _ _)) by lia. cbn [andb].
      rewrite lookup_app_l by (rewrite !length_take; lia). now rewrite !lookup_take_lt by lia.
    + rewrite (proj2 (Z.leb_le _ _)), (proj2 (Z.ltb_lt _ _)) by lia. cbn [andb].
      rewrite lookup_app_r by (rewrite !length_take; lia).
      rewrite lookup_drop, !length_take, lookup_take_lt by lia. f_equal. lia.
  - rewrite lookup_take_ge by lia. symmetry. apply lookup_ge_None.
    rewrite length_app, length_drop, !length_take. lia.
Qed.

Lemma ok_moved_down l to from n :
  alist_ok l -> 0 <= n <= a_len l -> alist_ok (with_len (move_slots l to from (a_len l - from)) n).
Proof.
  intros Ho Hn. pose proof (ok_move l to from (a_len l - from) Ho) as Hm. apply ok_with_len; [exact Hm |].
  pose proof (ok_len _ Hm) as H. unfold move_slots in *. destruct (slice _ _ _ ≫= _); cbn in *; lia.
Qed.

Lemma pop_front_n_ok l n : alist_ok l -> 0 <= n -> step_ok (PopFrontN n) l.
Proof.
  intros Ho Hn. pose proof (ok_len _ Ho) as Hl. pose proof (zlength_items l Ho) as Hz. unfold zlength in Hz.
  unfold step_ok. cbn [list_error a_step list_step]. unfold a_pop_front_n.
  eexists. split; [reflexivity |]. destruct (Z.leb_spec (a_len l) n).
  { split; [apply ok_with_len; auto; lia |]. split; [| auto]. rewrite drop_ge by lia. reflexivity. }
  destruct (Z.ltb_spec 0 n).
  - split; [apply ok_moved_down; auto; lia |].
    split; [| unfold move_slots; destruct (slice _ _ _ ≫= _); auto].
    pose proof (items_moved_down l 0 n Ho) as E. rewrite Z.sub_0_r in E. apply E; lia.
  - assert (n = 0) as -> by lia. split; [exact Ho |]. auto.
Qed.

Lemma pop_front_ok l : alist_ok l -> step_ok PopFront l.
Proof.
  intros Ho. pose proof (pop_front_n_ok l 1 Ho ltac:(lia)) as (l' & E & H).
  unfold step_ok. cbn [list_error a_step] in *. unfold a_pop_front.
  destruct (Z.ltb_spec 0 (a_len l)); [| reflexivity]. injection E as E. exists l'. rewrite E. auto.
Qed.

Lemma erase_ok l i : alist_ok l -> 0 <= i -> step_ok (Erase i) l.
Proof.
  intros Ho Hi. pose proof (ok_len _ Ho) as Hl. pose proof (zlength_items l Ho) as Hz. unfold zlength in Hz.
  unfold step_ok. cbn [list_error a_step list_step]. unfold a_erase.
  destruct (Z.ltb_spec i (a_len l)) as [Hlt | Hge]; [| now rewrite (proj2 (Z.leb_le _ _)) by lia].
  rewrite (proj2 (Z.leb_gt _ _)) by lia. rewrite delete_take_drop.
  destruct (Z.eqb_spec i 0) as [-> | H0].
  { pose proof (pop_front_ok l Ho) as H. unfold step_ok in H. cbn [list_error a_step list_step] in H.
    rewrite (proj2 (Z.ltb_lt _ _)) in H by lia. destruct H as (l' & E & H). rewrite E. now exists l'. }
  destruct (Z.eqb_spec i (a_len l - 1)) as [-> | H1].
  { pose proof (pop_back_ok l Ho) as H. unfold step_ok in H. cbn [list_error a_step list_step] in H.
    rewrite (proj2 (Z.ltb_lt _ _)) in H by lia. destruct H as (l' & E & Hok & Hit & H). rewrite E.
    exists l'. split_and!; try tauto. rewrite Hit, drop_ge, app_nil_r by lia. f_equal. lia. }
  set (g := move_slots l i (i + 1) (a_len l - i - 1)).
  assert (alist_ok g) as Hg by now apply ok_move.
  assert (a_len g = a_len l /\ a_dynamic g = a_dynamic l /\ a_item_size g = a_item_size l) as (Eg & Ed & Es)
    by (unfold g, move_slots; destruct (slice _ _ _ ≫= _); auto).
  pose proof (pop_back_ok g Hg) as H. unfold step_ok in H. cbn [list_error a_step list_step] in H.
  rewrite Eg, (proj2 (Z.ltb_lt _ _)) in H by lia. destruct H as (l' & E & Hok & Hit & Hd & Hs). rewrite E.
  exists l'. split_and!; auto; try congruence. rewrite Hit.
  pose proof (items_moved_down l i (i + 1) Ho ltac:(lia) ltac:(lia)) as Em.
  replace (a_len l - (i + 1)) with (a_len l - i - 1) in Em by lia. fold g in Em.
  replace (Z.to_nat (i + 1)) with (S (Z.to_nat i)) in Em by lia. rewrite <- Em.
  pose proof (zlength_items g Hg) as Hzg. unfold zlength in Hzg. unfold items in *. cbn.
  rewrite take_take. f_equal. lia.
Qed.

Lemma swap_ok l i j :
  alist_ok l -> 0 <= i < a_len l -> 0 <= j < a_len l -> step_ok (Swap i j) l.
Proof.
  intros Ho Hi Hj. pose proof (ok_len _ Ho) as Hl.
  unfold step_ok. cbn [list_error a_step list_step]. unfold a_swap.
  destruct (zlookup_is_Some (a_slots l) i) as [x Hx]; [lia |].
  destruct (zlookup_is_Some (a_slots l) j) as [y Hy]; [lia |]. rewrite Hx, Hy.
  eexists. split; [reflexivity |]. split; [now apply ok_put, ok_put |]. split; [| auto].
  rewrite zlookup_Some in Hx, Hy by lia.
  assert (items l !! Z.to_nat i = Some x) as -> by (unfold items; rewrite lookup_take_lt by lia; tauto).
  assert (items l !! Z.to_nat j = Some y) as -> by (unfold items; rewrite lookup_take_lt by lia; tauto).
  rewrite items_put, items_put by (auto using ok_put). reflexivity.
Qed.

(** ** Items that are not known

    [covers ys xs]: [ys] is [xs] with something for each item that is not
    known. *)
Definition covers (ys xs : list (option A)) : Prop := Forall2 (fun y x => x = None \/ y = x) ys xs.

Lemma covers_refl xs : covers xs xs.
Proof. apply Forall_Forall2_diag, Forall_true. auto. Qed.

Lemma covers_trans zs ys xs : covers zs ys -> covers ys xs -> covers zs xs.
Proof.
  intros H. revert xs. induction H as [| z y zs ys Hy H IH]; intros xs Hx; inversion Hx; subst; constructor; [| now apply IH].
  intuition congruence.
Qed.

Lemma covers_unknown ys n : length ys = n -> covers ys (replicate n None).
Proof. intros <-. induction ys; constructor; auto. Qed.

Lemma covers_zlength ys xs : covers ys xs -> zlength ys = zlength xs.
Proof. intros H. unfold zlength. now rewrite (Forall2_length _ _ _ H). Qed.

Lemma list_step_covers op ys xs : covers ys xs -> covers (list_step op ys) (list_step op xs).
Proof.
  intros H. unfold covers in *. pose proof (Forall2_length _ _ _ H) as El.
  destruct op as [a | a | a i | | | n | i | i j |]; cbn [list_step];
    rewrite ?El, ?delete_take_drop; auto using Forall2_app, Forall2_take, Forall2_drop, covers_refl.
  - apply Forall2_app; [now apply Forall2_take |]. apply Forall2_app; [apply covers_refl |].
    constructor; [now right | now apply Forall2_drop].
  - destruct (ys !! Z.to_nat i) as [y1 |] eqn:E1, (ys !! Z.to_nat j) as [y2 |] eqn:E2;
      destruct (xs !! Z.to_nat i) as [x1 |] eqn:F1, (xs !! Z.to_nat j) as [x2 |] eqn:F2; auto;
      repeat match goal with
      | F : xs !! _ = Some ?x, E : ys !! _ = Some ?y |- _ =>
          pose proof (Forall2_lookup_lr _ _ _ _ _ _ H E F); clear F
      | E : ys !! ?k = None, F : xs !! ?k = Some _ |- _ =>
          apply lookup_ge_None in E; apply lookup_lt_Some in F; lia
      | E : ys !! ?k = Some _, F : xs !! ?k = None |- _ =>
          apply lookup_ge_None in F; apply lookup_lt_Some in E; lia
      end; auto using Forall2_insert.
Qed.

(** Setting an item behind the end. *)
Lemma set_past_ok l a i :
  alist_ok l -> a_len l < i ->
  match grow_error l i AWS_ERROR_INVALID_INDEX with
  | Some e => a_set_at l a i = (AWS_OP_ERR e, l)
  | None => exists l', a_set_at l a i = (AWS_OP_SUCCESS, l') /\ alist_ok l'
              /\ covers (items l') (list_step (SetAt a i) (items l))
              /\ a_dynamic l' = a_dynamic l /\ a_item_size l' = a_item_size l
  end.
Proof.
  intros Ho Hi. pose proof (ok_len _ Ho) as Hl. pose proof (ensure_capacity_spec l i Ho ltac:(lia)) as H.
  pose proof (zlength_items l Ho) as Hz. unfold a_set_at.
  destruct (grow_error l i AWS_ERROR_INVALID_INDEX) as [e |]; [now rewrite H |].
  destruct H as (k & -> & Hk & Hs & _). destruct (ok_grown l k Ho Hs) as [Hg Hgi].
  set (g := with_slots l _) in *. assert (a_len g = a_len l) as El by reflexivity.
  assert (zlength (a_slots g) = zlength (a_slots l) + Z.of_nat k) as Eg
    by (unfold g; cbn; rewrite zlength_app; unfold zlength; rewrite length_replicate; lia).
  eexists. split; [reflexivity |]. change (a_len (put_slot g i (Some a))) with (a_len g).
  rewrite (proj2 (Z.leb_le _ _)) by lia.
  split; [apply ok_with_len; [now apply ok_put | rewrite slots_put, zlength_insert; lia] |].
  split; [| auto]. cbn [list_step]. unfold zlength in *.
  rewrite (take_ge (items l)), (drop_ge (items l)) by lia. rewrite <- Hgi in *.
  unfold items at 1. cbn [a_len with_len a_slots]. rewrite slots_put.
  replace (Z.to_nat (i + 1)) with (S (Z.to_nat i)) by lia.
  rewrite (take_S_r _ _ (Some a)) by (apply list_lookup_insert_eq; lia). rewrite take_insert_ge by lia.
  rewrite <- (take_drop (Z.to_nat (a_len g)) (take (Z.to_nat i) (a_slots g))), take_take, <- app_assoc.
  replace (Z.to_nat (a_len g) `min` Z.to_nat i)%nat with (Z.to_nat (a_len g)) by lia.
  apply Forall2_app; [apply covers_refl |]. apply Forall2_app; [| repeat constructor; now right].
  apply covers_unknown. rewrite length_drop, length_take. lia.
Qed.

(** Every operation does to the items what it does to a plain list. *)
Lemma a_step_ok op l xs :
  alist_ok l -> valid_op (a_len l) op -> covers (items l) xs ->
  match list_error op l with
  | Some e => a_step op l = (AWS_OP_ERR e, l)
  | None => exists l', a_step op l = (AWS_OP_SUCCESS, l') /\ alist_ok l'
              /\ covers (items l') (list_step op xs)
              /\ a_dynamic l' = a_dynamic l /\ a_item_size l' = a_item_size l
  end.
Proof.
  intros Ho Hv Hc. pose proof (ok_len _ Ho). pose proof (list_step_covers op _ _ Hc) as Hs.
  assert (step_ok op l -> match list_error op l with
    | Some e => a_step op l = (AWS_OP_ERR e, l)
    | None => exists l', a_step op l = (AWS_OP_SUCCESS, l') /\ alist_ok l' /\ covers (items l') (list_step op xs)
                /\ a_dynamic l' = a_dynamic l /\ a_item_size l' = a_item_size l end) as Hstep.
  { unfold step_ok. destruct (list_error op l); [auto |]. intros (l' & E & Ho' & Hi & Hr). rewrite <- Hi in Hs. eauto. }
  destruct op as [a | a | a i | | | n | i | i j |]; cbn [valid_op] in Hv;
    try solve [apply Hstep; auto using push_back_ok, push_front_ok, pop_back_ok, pop_front_ok, pop_front_n_ok, erase_ok].
  - destruct (Z.le_gt_cases i (a_len l)) as [Hle | Hgt].
    + apply Hstep. pose proof (set_at_ok l a i Ho ltac:(lia)) as H'. pose proof (zlength_items l Ho) as Hz.
      unfold step_ok, zlength in *. cbn [list_error a_step list_step]. replace (Z.to_nat i - length (items l))%nat with O by lia. exact H'.
    + pose proof (set_past_ok l a i Ho Hgt) as H'. cbn [list_error a_step]. destruct (grow_error _ _ _); [exact H' |].
      destruct H' as (l' & E & Ho' & Hi & Hr). exists l'. split; [exact E |]. split; [exact Ho' |]. split; [| exact Hr].
      exact (covers_trans _ _ _ Hi Hs).
  - apply Hstep, swap_ok; tauto.
  - apply Hstep. exists (a_clear l). split; [reflexivity |].
    split; [apply ok_with_len; auto; lia | auto].
Qed.
End spec.
