(* ===== verification/ArrayListSpec.v ===== *)
(** * Array lists: refinement

    [rep enc m L l] says that in memory [m] the byte-level list [L] stores the
    items of [l], each encoded by [enc]. Every function of [ArrayList.v] then
    does on bytes what the function of [ArrayItems.v] does on items, with the
    same result, without undefined behaviour, and without touching memory
    other than the list's. *)

From S2P Require Import Prelude Math ByteOrder Memory ArrayList ArrayItems ByteBufSpec.
Import ArrayList.

Local Open Scope Z_scope.

(** ** A write inside a readable range *)

Lemma slice_splice_inside {A} (l : list A) o n bs i x l' :
  slice l o n = Some bs -> splice l (o + i) x = Some l' -> 0 <= i -> i + zlength x <= n ->
  exists bs', splice bs i x = Some bs' /\ slice l' o n = Some bs'.
Proof.
  intros Hb Hs Hi Hx. pose proof Hb as (Ho & Hn & Hl & _ & Hz)%slice_inv.
  pose proof Hs as (_ & _ & _ & Hl')%splice_inv.
  destruct (splice_is_Some bs i x) as [bs' Hbs']; [lia | lia |]. exists bs'. split; [exact Hbs' |].
  pose proof Hbs' as (_ & _ & _ & Hz')%splice_inv. rewrite <- (slice_full bs').
  rewrite Hz', Hz. apply slice_ext; try lia. intros j Hj.
  destruct (Z.le_gt_cases i j) as [H1 | H1]; [destruct (Z.lt_ge_cases j (i + zlength x)) as [H2 | H2] |].
  - replace (o + j) with (o + i + (j - i)) by lia. replace (0 + j) with (i + (j - i)) by lia.
    rewrite (splice_lookup_in _ _ _ _ _ Hs), (splice_lookup_in _ _ _ _ _ Hbs') by lia. reflexivity.
  - rewrite (splice_lookup_out _ _ _ _ _ Hs), (splice_lookup_out _ _ _ _ _ Hbs') by lia.
    rewrite (slice_lookup _ _ _ _ _ Hb) by lia. f_equal. lia.
  - rewrite (splice_lookup_out _ _ _ _ _ Hs), (splice_lookup_out _ _ _ _ _ Hbs') by lia.
    rewrite (slice_lookup _ _ _ _ _ Hb) by lia. f_equal. lia.
Qed.

Lemma splice_nil {A} (l : list A) o : 0 <= o <= zlength l -> splice l o [] = Some l.
Proof.
  intros Ho. rewrite splice_Some by (change (@zlength A []) with 0; lia). f_equal. cbn.
  rewrite Nat.add_0_r. apply take_drop.
Qed.

Lemma bytes_at_written m p n bs o x m' :
  bytes_at m p n = Some bs -> written m (ptr_add p o) x m' -> 0 <= o -> o + zlength x <= n ->
  exists bs', splice bs o x = Some bs' /\ bytes_at m' p n = Some bs'.
Proof.
  intros Hb Hw Ho Hx. pose proof (bytes_at_length _ _ _ _ Hb) as [Hz _].
  destruct Hw as [[-> ->] | (b & o' & d & d' & Hp & Hbl & Hs & ->)].
  { exists bs. change (@zlength Z []) with 0 in Hx. split; [apply splice_nil; lia | exact Hb]. }
  destruct p as [| b0 o0 |]; try discriminate. injection Hp as -> <-.
  destruct (Z.eq_dec n 0) as [-> | Hn].
  { pose proof (zlength_nonneg x). assert (x = []) as -> by (apply zlength_zero_inv; lia).
    exists bs. change (@zlength Z []) with 0 in Hx. split; [apply splice_nil; lia | exact Hb]. }
  unfold bytes_at in *. rewrite (proj2 (Z.eqb_neq _ _)) in * by lia. rewrite Hbl in Hb. cbn in *.
  rewrite lookup_insert_eq. cbn. now apply (slice_splice_inside d o0 n bs o x d').
Qed.

(** ** Representation *)

Section rep.
Context {A : Type} (enc : A -> list Z) (isize : Z).
Hypothesis enc_size : forall a, zlength (enc a) = isize.
Hypothesis isize_pos : 0 < isize.
Implicit Types (l : alist A) (L : aws_array_list).

(** The known slots are in the bytes. *)
Definition holds (bs : list Z) (slots : list (option A)) : Prop :=
  forall i a, slots !! i = Some (Some a) -> slice bs (Z.of_nat i * isize) isize = Some (enc a).

Record rep (m : mem) L l : Prop := {
  rp_ok : alist_ok l;
  rp_item : item_size L = isize /\ a_item_size l = isize;
  rp_len : list_length L = a_len l;
  rp_size : current_size L = a_size l;
  rp_dyn : a_dynamic l = bool_decide (is_Some (alloc L));
  rp_null : current_size L = 0 -> data L = NULL;
  rp_room : writable m (data L) (current_size L);
  rp_own : is_Some (alloc L) -> current_size L = 0
           \/ exists b d, data L = Ptr b 0 /\ blocks m !! b = Some d /\ zlength d = current_size L;
  rp_data : exists bs, bytes_at m (data L) (current_size L) = Some bs /\ holds bs (a_slots l)
}.

(** Pointers that do not reach the storage of the list. *)
Definition outside (m : mem) L (p : ptr) : Prop :=
  forall b, ptr_block p = Some b -> is_Some (blocks m !! b) /\ ptr_block (data L) <> Some b.

(** Everything outside the list is as before. *)
Definition keeps (m : mem) L (m' : mem) L' : Prop :=
  forall p, outside m L p -> outside m' L' p /\ forall n, bytes_at m' p n = bytes_at m p n.

Lemma keeps_refl m L : keeps m L m L.
Proof. intros p Hp. auto. Qed.

Lemma keeps_trans m1 L1 m2 L2 m3 L3 : keeps m1 L1 m2 L2 -> keeps m2 L2 m3 L3 -> keeps m1 L1 m3 L3.
Proof.
  intros H12 H23 p Hp. destruct (H12 p Hp) as [Hp2 E2]. destruct (H23 p Hp2) as [Hp3 E3].
  split; [exact Hp3 |]. intros n. now rewrite E3.
Qed.

Lemma keeps_written m L o x m' L' :
  written m (ptr_add (data L) o) x m' -> data L' = data L -> keeps m L m' L'.
Proof.
  intros Hw Hd p Hp. split.
  - intros b Hb. rewrite Hd. destruct (Hp b Hb) as [Hl Hne]. split; [| exact Hne].
    pose proof (written_blocks _ _ _ _ b Hw) as E. destruct (blocks m' !! b); [eauto |].
    destruct Hl as [d Hl]. rewrite Hl in E. discriminate.
  - intros n. destruct Hw as [[-> ->] | (b & o' & d & d' & Ep & _ & _ & ->)]; [reflexivity |].
    apply bytes_at_set_block_ne. intros E. destruct (Hp _ E) as [_ Hne]. apply Hne.
    destruct (data L); try discriminate. now injection Ep as -> _.
Qed.

(** ** Slots and bytes *)

Lemma holds_weaken bs slots slots' :
  (forall i a, slots' !! i = Some (Some a) -> slots !! i = Some (Some a)) ->
  holds bs slots -> holds bs slots'.
Proof. intros H Hh i a E. apply Hh, H, E. Qed.

Lemma slot_bytes bs slots i a :
  holds bs slots -> slots !! i = Some (Some a) -> slice bs (Z.of_nat i * isize) isize = Some (enc a).
Proof. auto. Qed.

Lemma holds_put bs slots i x bs' (y : option A) :
  holds bs slots -> splice bs (Z.of_nat i * isize) x = Some bs' -> zlength x = isize ->
  (forall a, y = Some a -> x = enc a) -> holds bs' (<[i := y]> slots).
Proof using isize_pos.
  intros Hh Hs Hz Hy j a Hj. destruct (decide (i = j)) as [-> | Hne].
  - pose proof (lookup_lt_Some _ _ _ Hj) as Hlt. rewrite length_insert in Hlt.
    rewrite list_lookup_insert_eq in Hj by exact Hlt.
    injection Hj as ->. rewrite <- (Hy a eq_refl), <- Hz at 1. rewrite <- Hz. rewrite Hz at 1.
    now apply (slice_splice_same bs).
  - rewrite list_lookup_insert_ne in Hj by auto. rewrite <- (Hh j a Hj).
    apply (slice_splice_out bs (Z.of_nat i * isize) x); [exact Hs |]. rewrite Hz. nia.
Qed.

(** Moving [k] slots is moving their bytes. *)
Lemma holds_move bs l to from k x bs' :
  holds bs (a_slots l) -> zlength bs = zlength (a_slots l) * isize ->
  0 <= to -> 0 <= from -> 0 <= k -> from + k <= zlength (a_slots l) -> to + k <= zlength (a_slots l) ->
  slice bs (from * isize) (k * isize) = Some x -> splice bs (to * isize) x = Some bs' ->
  holds bs' (a_slots (move_slots l to from k)).
Proof using isize_pos.
  intros Hh Hz Ht Hf Hk H1 H2 Hx Hs i a Hi.
  destruct (move_spec l to from k) as (slots & E & _ & Hlk); auto. rewrite E in Hi. cbn in Hi.
  rewrite Hlk in Hi. pose proof Hx as (_ & _ & _ & _ & Hxz)%slice_inv.
  destruct (Z.leb_spec to (Z.of_nat i)); [destruct (Z.ltb_spec (Z.of_nat i) (to + k)) |]; cbn [andb] in Hi.
  - apply Hh in Hi. set (j := Z.of_nat i - to) in *. rewrite Z2Nat.id in Hi by lia.
    replace (Z.of_nat i * isize) with (to * isize + j * isize) by (unfold j; lia).
    rewrite (slice_sub bs' _ (zlength x) x) by (first [now apply (slice_splice_same bs) | nia]).
    rewrite <- (slice_sub bs _ (k * isize) x) by (first [exact Hx | nia]).
    now replace (from * isize + j * isize) with ((from + j) * isize) by lia.
  - rewrite <- (Hh i a Hi). apply (slice_splice_out bs (to * isize) x); [exact Hs |]. right. nia.
  - rewrite <- (Hh i a Hi). apply (slice_splice_out bs (to * isize) x); [exact Hs |]. left. nia.
Qed.

(** What every in-place change of the storage keeps. *)
Lemma rep_written m L l o x m' l' n :
  rep m L l -> written m (ptr_add (data L) o) x m' -> 0 <= o -> o + zlength x <= current_size L ->
  zlength (a_slots l') = zlength (a_slots l) -> a_dynamic l' = a_dynamic l -> a_item_size l' = a_item_size l ->
  a_len l' = n -> 0 <= n <= zlength (a_slots l') ->
  (forall bs bs', bytes_at m (data L) (current_size L) = Some bs -> holds bs (a_slots l) ->
     zlength bs = zlength (a_slots l) * isize -> splice bs o x = Some bs' -> holds bs' (a_slots l')) ->
  rep m' (set_length L n) l' /\ keeps m L m' (set_length L n).
Proof using.
  intros Hr Hw Ho Hx Hz Hd Hi Hn Hl Hh. split; [| now apply (keeps_written m L o x)].
  destruct Hr as [Rok [Ri1 Ri2] Rlen Rsize Rdyn Rnull Rroom Rown (bs & Rb & Rh)].
  destruct (bytes_at_written _ _ _ _ _ _ _ Rb Hw Ho Hx) as (bs' & Hs & Hb').
  destruct Rok as [Ok1 Ok2 Ok3]. unfold a_size in *.
  constructor; cbn [item_size list_length current_size alloc data set_length]; auto; unfold a_size.
  - constructor; unfold a_size; rewrite ?Hz, ?Hi; auto; lia.
  - split; congruence.
  - now rewrite Hz, Hi.
  - congruence.
  - exact (written_writable _ _ _ _ _ _ Hw Rroom).
  - intros Ha. destruct (Rown Ha) as [E | (b & d & E1 & E2 & E3)]; [now left | right].
    pose proof (written_blocks _ _ _ _ b Hw) as E. rewrite E2 in E.
    destruct (blocks m' !! b) as [d' |] eqn:Ed; [| discriminate]. injection E as E.
    exists b, d'. split_and!; auto. lia.
  - exists bs'. split; [exact Hb' |]. apply (Hh bs bs'); auto.
    pose proof (bytes_at_length _ _ _ _ Rb) as [Hlen _]. rewrite Hlen, Rsize, Ri2. reflexivity.
Qed.

(** ** Growing *)

Lemma keeps_new_block m L b d L' m' :
  blocks m !! b = None -> data L' = Ptr b 0 ->
  blocks m' = <[b := d]> (match data L with Ptr b0 _ => delete b0 (blocks m) | _ => blocks m end) ->
  keeps m L m' L'.
Proof using.
  intros Hb Hd Hm p Hp. split.
  - intros c Hc. destruct (Hp c Hc) as [[x Hx] Hne]. rewrite Hd, Hm. cbn [ptr_block].
    assert (b <> c) as Hbc by congruence. rewrite lookup_insert_ne by exact Hbc. split; [| congruence].
    destruct (data L); eauto. cbn in Hne. rewrite lookup_delete_ne by congruence. eauto.
  - intros n. unfold bytes_at. destruct (n =? 0); [reflexivity |]. destruct p as [| c o |]; auto.
    destruct (Hp c eq_refl) as [[x Hx] Hne]. rewrite Hm, lookup_insert_ne by congruence.
    destruct (data L); auto. cbn in Hne. rewrite lookup_delete_ne by congruence. reflexivity.
Qed.

Lemma replace_storage {B} (K : ptr -> M B) al m L bs new :
  (current_size L = 0 -> data L = NULL) ->
  (current_size L = 0 \/ exists b d, data L = Ptr b 0 /\ blocks m !! b = Some d /\ zlength d = current_size L) ->
  bytes_at m (data L) (current_size L) = Some bs -> current_size L < new ->
  exists b d m',
    (temp ← aws_mem_acquire al new;
     _ ← (if is_NULL (data L) then mret tt
          else _ ← memcpy temp (data L) (current_size L); aws_mem_release al (data L));
     K temp) m = K (Ptr b 0) m'
    /\ blocks m' !! b = Some d /\ zlength d = new /\ slice d 0 (current_size L) = Some bs
    /\ keeps m L m' (set_data L (Ptr b 0) new).
Proof using.
  intros Hnull Hown Hb Hnew. pose proof (bytes_at_length _ _ _ _ Hb) as [Hz H0].
  destruct (acquire_ok al m new ltac:(lia)) as (b & m1 & d & Hacq & Hfresh & -> & Hd). run Hacq.
  destruct Hown as [E | (b0 & d0 & Hp & Hb0 & Hz0)].
  - rewrite (Hnull E). cbn [is_NULL]. rewrite (run_bind _ _ _ tt _ eq_refl).
    exists b, d, (set_block m b d). cbn [blocks set_block]. rewrite lookup_insert_eq. split_and!; auto.
    + rewrite E in *. rewrite slice_Some by lia. cbn. f_equal. symmetry. now apply zlength_zero_inv.
    + apply (keeps_new_block m L b d); auto. now rewrite (Hnull E).
  - rewrite Hp. cbn [is_NULL]. assert (0 < current_size L) as Hpos.
    { destruct (Z.eq_dec (current_size L) 0) as [E |]; [| lia]. now rewrite (Hnull E) in Hp. }
    rewrite Hp in Hb. destruct (copy_to_fresh m b d 0 (Ptr b0 0) (current_size L) bs Hfresh Hb)
      as (d' & Hc & Hs); [lia | lia |].
    rewrite (proj2 (Z.ltb_lt 0 _)) in Hc by lia. rewrite <- bind_assoc. run Hc.
    assert (blocks (set_block m b d') !! b0 = Some d0) as Hk
      by (cbn; rewrite lookup_insert_ne by congruence; exact Hb0).
    run (release_ok al _ b0 d0 Hk). pose proof Hs as (_ & _ & _ & Hz')%splice_inv.
    exists b, d', (without_block (set_block m b d') b0 d0). cbn [blocks without_block set_block].
    rewrite lookup_delete_ne, lookup_insert_eq by congruence. split_and!; auto; [lia | |].
    + rewrite <- Hz. now apply (slice_splice_same d).
    + apply (keeps_new_block m L b d'); auto. rewrite Hp. cbn. rewrite delete_insert_ne; congruence.
Qed.

(** A list whose storage was replaced by a larger block. *)
Lemma rep_grown m L l q b d m' bs :
  rep m L l -> is_Some (alloc L) -> zlength (a_slots l) <= q -> 0 < q -> q * isize <= SIZE_MAX ->
  bytes_at m (data L) (current_size L) = Some bs -> holds bs (a_slots l) ->
  blocks m' !! b = Some d -> zlength d = q * isize -> slice d 0 (current_size L) = Some bs ->
  rep m' (set_data L (Ptr b 0) (q * isize))
    (with_slots l (a_slots l ++ replicate (Z.to_nat (q - zlength (a_slots l))) None)).
Proof using isize_pos.
  intros Hr Ha Hq Hq0 Hmax Hb Hh Hbl Hz Hsl. destruct Hr as [Rok [Ri1 Ri2] Rlen Rsize Rdyn _ _ _ _].
  assert (zlength (a_slots l ++ replicate (Z.to_nat (q - zlength (a_slots l))) None) = q) as Hzq
    by (rewrite zlength_app, zlength_replicate; lia).
  destruct Rok as [Ok1 Ok2 Ok3].
  constructor; cbn [item_size list_length current_size alloc data set_data a_len a_dynamic a_item_size a_slots with_slots];
    unfold a_size; cbn [a_slots a_item_size with_slots]; auto; rewrite ?Hzq, ?Ri2; try nia.
  - constructor; unfold a_size; cbn [a_slots a_item_size a_len with_slots]; rewrite ?Hzq, ?Ri2; lia.
  - right. exists b, 0, d. split_and!; auto; nia.
  - intros _. right. exists b, d. auto.
  - exists d. split.
    + unfold bytes_at. rewrite (proj2 (Z.eqb_neq _ _)), Hbl by nia. cbn. rewrite <- Hz. apply slice_full.
    + intros i a Hi. apply lookup_app_Some in Hi as [Hi | [_ Hi]];
        [| now apply lookup_replicate_1 in Hi as [Hi _]].
      pose proof (lookup_lt_Some _ _ _ Hi). pose proof (Hh i a Hi) as E. rewrite <- E.
      pose proof (slice_inv _ _ _ _ E) as (_ & _ & Hle & _).
      rewrite <- (slice_sub d 0 (current_size L) bs) by (auto; try nia;
        apply (slice_inv _ _ _ _ Hsl) || (pose proof (bytes_at_length _ _ _ _ Hb); lia)).
      reflexivity.
Qed.

Lemma ensure_capacity_refines m L l index :
  rep m L l -> 0 <= index ->
  exists L' m', aws_array_list_ensure_capacity L index m = Ret (fst (a_ensure_capacity l index), L') m'
    /\ rep m' L' (snd (a_ensure_capacity l index)) /\ keeps m L m' L'
    /\ alloc L' = alloc L.
Proof using isize_pos.
  intros Hr H0. destruct (rp_item _ _ _ Hr) as [Hi1 Hi2]. pose proof (rp_size _ _ _ Hr) as Hsz.
  pose proof (rp_ok _ _ _ Hr) as [_ _ Hmax].
  unfold aws_array_list_ensure_capacity, aws_array_list_calc_necessary_size, a_ensure_capacity.
  rewrite Hi1, Hi2, Hsz, (rp_dyn _ _ _ Hr).
  destruct (aws_add_size_checked index 1) as [inc |] eqn:Ei; [| eexists _, _; eauto using keeps_refl].
  destruct (aws_mul_size_checked inc isize) as [nec |] eqn:En; [| eexists _, _; eauto using keeps_refl].
  rewrite add_size_checked_spec in Ei by lia. destruct (_ <=? SIZE_MAX); [injection Ei as <- | discriminate].
  rewrite mul_size_checked_spec in En by lia.
  destruct (Z.leb_spec ((index + 1) * isize) SIZE_MAX) as [Hnec |]; [injection En as <- | discriminate].
  destruct (Z.ltb_spec (a_size l) ((index + 1) * isize)) as [Hlt |]; [| eexists _, _; eauto using keeps_refl].
  destruct (alloc L) as [al |] eqn:Ea; [| eexists _, _; eauto using keeps_refl].
  rewrite bool_decide_eq_true_2 by eauto. unfold a_size in *. rewrite Hi2 in *.
  pose proof (zlength_nonneg (a_slots l)).
  destruct (grown_size_spec (zlength (a_slots l)) (index + 1) isize) as (q & Hq & Hiq & Hnew); auto.
  cbv zeta in Hq, Hnew. rewrite Hq in *. rewrite (proj2 (Z.ltb_ge (q * isize) _)) by nia.
  destruct (rp_data _ _ _ Hr) as (bs & Hb & Hh).
  destruct (replace_storage (fun temp => mret (AWS_OP_SUCCESS, set_data L temp (q * isize))) al m L bs (q * isize))
    as (b & d & m' & E & Hbl & Hz & Hsl & Hk); auto.
  { apply (rp_null _ _ _ Hr). }
  { apply (rp_own _ _ _ Hr). rewrite Ea. eauto. }
  { rewrite Hsz. nia. }
  rewrite Hsz in E. rewrite E. rewrite Z.div_mul by lia. cbn [fst snd].
  eexists _, m'. split; [reflexivity |]. split; [| split; [exact Hk | exact Ea]].
  apply (rep_grown m L l q b d m' bs); auto; try nia.
Qed.

(** ** Setting and pushing *)

(** [val] points to the item [a], outside the list. *)
Definition reads (m : mem) L (val : ptr) (a : A) : Prop :=
  outside m L val /\ bytes_at m val isize = Some (enc a).

Lemma reads_keeps m L m' L' val a : keeps m L m' L' -> reads m L val a -> reads m' L' val a.
Proof using. intros Hk [Ho Hb]. destruct (Hk val Ho) as [Ho' E]. split; [exact Ho' |]. now rewrite E. Qed.

Lemma outside_disjoint m L val o n k : outside m L val -> disjoint_ranges (ptr_add (data L) o) n val k.
Proof using.
  intros H. destruct (data L) as [| b x |] eqn:E, val as [| b' x' |]; cbn; auto. intros ->.
  destruct (H b' eq_refl) as [_ Hne]. rewrite E in Hne. now exfalso.
Qed.

Lemma set_length_id L : set_length L (list_length L) = L.
Proof using. now destruct L. Qed.

Lemma set_length_rep m L l : rep m L l -> set_length L (a_len l) = L.
Proof using. intros Hr. rewrite <- (rp_len _ _ _ Hr). apply set_length_id. Qed.

Lemma rep_data_nonnull m L l : rep m L l -> 0 < zlength (a_slots l) -> is_NULL (data L) = false.
Proof using isize_pos.
  intros Hr Hz. pose proof (rp_room _ _ _ Hr) as Hw. rewrite (rp_size _ _ _ Hr) in Hw.
  destruct (rp_item _ _ _ Hr) as [_ Hi]. unfold a_size in Hw. rewrite Hi in Hw.
  destruct Hw as [E | (b & o & d & -> & _)]; [nia | reflexivity].
Qed.

Lemma length_run m L l : rep m L l -> aws_array_list_length L m = Ret (a_len l) m.
Proof using isize_pos.
  intros Hr. unfold aws_array_list_length, require. rewrite (rp_len _ _ _ Hr).
  destruct (Z.eqb_spec (a_len l) 0) as [-> | H0]; [reflexivity |].
  pose proof (ok_len _ (rp_ok _ _ _ Hr)). rewrite (rep_data_nonnull m L l Hr) by lia. reflexivity.
Qed.

(** Copying an item into a slot. *)
Lemma put_item m L l val a index n :
  rep m L l -> reads m L val a -> 0 <= index < zlength (a_slots l) -> 0 <= n <= zlength (a_slots l) ->
  exists m', memcpy (ptr_add (data L) (item_size L * index)) val (item_size L) m = Ret tt m'
    /\ rep m' (set_length L n) (with_len (put_slot l index (Some a)) n)
    /\ keeps m L m' (set_length L n).
Proof using enc_size isize_pos.
  intros Hr [Ho Hv] Hi Hn. destruct (rp_item _ _ _ Hr) as [Hi1 Hi2]. pose proof (rp_size _ _ _ Hr) as Hsz.
  unfold a_size in Hsz. rewrite Hi2 in Hsz. rewrite Hi1.
  destruct (memcpy_ok m (ptr_add (data L) (isize * index)) val isize (enc a)) as (m' & E & Hw); auto.
  - apply (writable_sub _ _ (current_size L)); try nia. apply (rp_room _ _ _ Hr).
  - now apply (outside_disjoint m).
  - exists m'. split; [exact E |].
    assert (zlength (a_slots (with_len (put_slot l index (Some a)) n)) = zlength (a_slots l)) as Hz
      by (cbn [with_len a_slots]; now rewrite slots_put, zlength_insert).
    apply (rep_written m L l (isize * index) (enc a)); auto; rewrite ?enc_size; try nia.
    intros bs bs' _ Hh _ Hs. cbn [with_len a_slots]. rewrite slots_put.
    apply (holds_put bs _ _ (enc a)); auto; [| now intros ? [= ->]].
    rewrite Z2Nat.id by lia. now rewrite Z.mul_comm.
Qed.

Lemma set_at_refines m L l val a index :
  rep m L l -> reads m L val a -> 0 <= index ->
  exists L' m', aws_array_list_set_at L val index m = Ret (fst (a_set_at l a index), L') m'
    /\ rep m' L' (snd (a_set_at l a index)) /\ keeps m L m' L' /\ alloc L' = alloc L.
Proof using enc_size isize_pos.
  intros Hr Hv H0. destruct (ensure_capacity_refines m L l index Hr H0) as (L1 & m1 & E1 & Hr1 & Hk1 & Ha1).
  pose proof (ensure_capacity_spec l index (rp_ok _ _ _ Hr) H0) as Hsp.
  unfold aws_array_list_set_at, a_set_at. run E1.
  destruct (a_ensure_capacity l index) as [rv l1]. cbn [fst snd] in *.
  destruct rv as [| e]; [| eexists _, _; eauto].
  destruct (grow_error l index AWS_ERROR_INVALID_INDEX); [discriminate |].
  destruct Hsp as (k & [= ->] & Hk & Hmax & _). set (g := with_slots l _) in *.
  assert (index < zlength (a_slots g)) as Hlt
    by (unfold g; cbn; rewrite zlength_app; unfold zlength in *; rewrite length_replicate; lia).
  pose proof (reads_keeps _ _ _ _ _ _ Hk1 Hv) as Hv1. pose proof (ok_len _ (rp_ok _ _ _ Hr1)) as Hl.
  rewrite (rep_data_nonnull m1 L1 g Hr1) by lia. rewrite (run_bind _ _ m1 tt m1 eq_refl).
  set (n := if a_len g <=? index then index + 1 else a_len g).
  destruct (put_item m1 L1 g val a index n Hr1 Hv1) as (m2 & E2 & Hr2 & Hk2);
    [lia | unfold n; destruct (Z.leb_spec (a_len g) index); lia |].
  run E2. assert (aws_array_list_length L1 m2 = Ret (a_len g) m2) as El.
  { unfold aws_array_list_length. rewrite (rep_data_nonnull m1 L1 g Hr1), orb_true_r by lia.
    now rewrite (rp_len _ _ _ Hr1). }
  run El. change (a_len (put_slot g index (Some a))) with (a_len g).
  exists (set_length L1 n), m2. unfold n in *. destruct (Z.leb_spec (a_len g) index) as [Hle | Hgt].
  - rewrite add_size_checked_spec, (proj2 (Z.leb_le _ _)) by
      (try lia; pose proof (ok_size _ (rp_ok _ _ _ Hr1)); pose proof (ok_item _ (rp_ok _ _ _ Hr1)); unfold a_size in *; nia).
    split_and!; auto. now apply (keeps_trans _ _ m1 L1).
  - rewrite <- (rp_len _ _ _ Hr1) in Hr2, Hk2 |- *. rewrite set_length_id in *.
    assert (with_len (put_slot g index (Some a)) (list_length L1) = put_slot g index (Some a)) as Eg
      by (now rewrite (rp_len _ _ _ Hr1)).
    rewrite Eg in Hr2. split_and!; auto. now apply (keeps_trans _ _ m1 L1).
Qed.

Lemma push_error_eq L l rv : a_dynamic l = bool_decide (is_Some (alloc L)) -> push_error L rv = a_push_error l rv.
Proof using.
  intros E. unfold push_error, a_push_error. rewrite E. destruct rv as [| []]; auto. now destruct (alloc L).
Qed.

Lemma push_back_refines m L l val a :
  rep m L l -> reads m L val a ->
  exists L' m', aws_array_list_push_back L val m = Ret (fst (a_push_back l a), L') m'
    /\ rep m' L' (snd (a_push_back l a)) /\ keeps m L m' L'.
Proof using enc_size isize_pos.
  intros Hr Hv. unfold aws_array_list_push_back, a_push_back. pose proof (length_run m L l Hr) as El. run El.
  destruct (set_at_refines m L l val a (a_len l) Hr Hv) as (L' & m' & E & Hr' & Hk & _);
    [apply (ok_len _ (rp_ok _ _ _ Hr)) |].
  run E. destruct (a_set_at l a (a_len l)) as [rv l']. cbn [fst snd] in *.
  rewrite (push_error_eq L' l') by apply (rp_dyn _ _ _ Hr'). eexists _, _; eauto.
Qed.

(** ** Removing and moving *)

Lemma memmove_ok m dst src n bs :
  bytes_at m src n = Some bs -> writable m dst n ->
  exists m', memmove dst src n m = Ret tt m' /\ written m dst bs m'.
Proof using.
  intros Hs Hw. pose proof (bytes_at_length _ _ _ _ Hs) as [Hz _]. unfold memmove.
  run (load_ok _ _ _ _ Hs). apply store_ok. now rewrite Hz.
Qed.

Lemma move_len l to from k n : with_len (move_slots l to from k) n = with_len (move_slots (with_len l n) to from k) n.
Proof using. unfold move_slots. cbn. now destruct (slice _ _ _ ≫= _). Qed.

Lemma move_items m L l to from k n :
  rep m L l -> 0 <= to -> 0 <= from -> 0 <= k ->
  from + k <= zlength (a_slots l) -> to + k <= zlength (a_slots l) -> 0 <= n <= zlength (a_slots l) ->
  exists m', memmove (ptr_add (data L) (to * isize)) (ptr_add (data L) (from * isize)) (k * isize) m = Ret tt m'
    /\ rep m' (set_length L n) (with_len (move_slots l to from k) n)
    /\ keeps m L m' (set_length L n).
Proof using isize_pos.
  intros Hr Ht Hf Hk H1 H2 Hn. destruct (rp_item _ _ _ Hr) as [Hi1 Hi2]. pose proof (rp_size _ _ _ Hr) as Hsz.
  unfold a_size in Hsz. rewrite Hi2 in Hsz. destruct (rp_data _ _ _ Hr) as (bs & Hb & Hh).
  pose proof (bytes_at_length _ _ _ _ Hb) as [Hz _].
  destruct (slice_is_Some bs (from * isize) (k * isize)) as [x Hx]; [nia | nia | nia |].
  pose proof Hx as (_ & _ & _ & _ & Hxz)%slice_inv.
  destruct (memmove_ok m (ptr_add (data L) (to * isize)) (ptr_add (data L) (from * isize)) (k * isize) x)
    as (m' & E & Hw).
  { now rewrite (bytes_at_sub m (data L) (current_size L) bs _ _ Hb) by nia. }
  { apply (writable_sub _ _ (current_size L)); try nia. apply (rp_room _ _ _ Hr). }
  exists m'. split; [exact E |].
  destruct (move_spec l to from k) as (slots & Em & Hms & _); auto.
  apply (rep_written m L l (to * isize) x); auto; rewrite ?Em; cbn [with_len with_slots a_slots a_dynamic a_item_size]; auto; try nia.
  intros bs1 bs' Hb1 Hh1 Hz1 Hs. rewrite Hb in Hb1. injection Hb1 as <-.
  assert (slots = a_slots (move_slots l to from k)) as -> by now rewrite Em.
  apply (holds_move bs l to from k x); auto.
Qed.

Lemma pop_back_refines m L l :
  rep m L l ->
  exists L' m', aws_array_list_pop_back L m = Ret (fst (a_pop_back l), L') m'
    /\ rep m' L' (snd (a_pop_back l)) /\ keeps m L m' L'.
Proof using isize_pos.
  intros Hr. pose proof (length_run m L l Hr) as El. unfold aws_array_list_pop_back, a_pop_back. run El.
  destruct (Z.ltb_spec 0 (a_len l)) as [Hpos |]; [| eexists _, _; eauto using keeps_refl].
  destruct (rp_item _ _ _ Hr) as [Hi1 Hi2]. pose proof (rp_size _ _ _ Hr) as Hsz.
  unfold a_size in Hsz. rewrite Hi2 in Hsz. pose proof (ok_len _ (rp_ok _ _ _ Hr)) as Hl.
  rewrite (rep_data_nonnull m L l Hr) by lia. rewrite (run_bind _ _ m tt m eq_refl).
  rewrite Hi1, (rp_len _ _ _ Hr).
  destruct (memset_ok m (ptr_add (data L) (isize * (a_len l - 1))) 0 isize) as (m' & E & Hw); [lia | |].
  { apply (writable_sub _ _ (current_size L)); try nia. apply (rp_room _ _ _ Hr). }
  run E. eexists _, m'. split; [reflexivity |]. cbn [snd].
  assert (zlength (a_slots (with_len (put_slot l (a_len l - 1) None) (a_len l - 1))) = zlength (a_slots l)) as Hz
    by (cbn [with_len a_slots]; now rewrite slots_put, zlength_insert).
  apply (rep_written m L l _ _ _ _ _ Hr Hw); auto; rewrite ?zlength_replicate by lia; try nia.
  intros bs bs' _ Hh _ Hs. cbn [with_len a_slots]. rewrite slots_put.
  apply (holds_put bs _ _ (replicate (Z.to_nat isize) 0)); auto; rewrite ?zlength_replicate by lia; [| lia | discriminate].
  rewrite Z2Nat.id by lia. now rewrite Z.mul_comm.
Qed.

Lemma clear_refines m L l : rep m L l -> rep m (aws_array_list_clear L) (a_clear l).
Proof using isize_pos.
  intros Hr. pose proof (ok_len _ (rp_ok _ _ _ Hr)) as Hl. unfold aws_array_list_clear, a_clear.
  assert (rep m (set_length L 0) (with_len l 0)) as H.
  { destruct (rep_written m L l 0 [] m (with_len l 0) 0 Hr) as [H _]; auto; try (change (@zlength Z []) with 0).
    - now left.
    - lia.
    - pose proof (rp_size _ _ _ Hr). pose proof (ok_item _ (rp_ok _ _ _ Hr)). unfold a_size in *. nia.
    - cbn. lia.
    - intros bs bs' _ Hh Hz Hs. rewrite splice_nil in Hs by (rewrite Hz; nia). now injection Hs as <-. }
  destruct (is_NULL (data L)) eqn:En; [| exact H].
  assert (list_length L = 0) as E0.
  { rewrite (rp_len _ _ _ Hr). destruct (Z.eq_dec (a_len l) 0); [lia |].
    rewrite (rep_data_nonnull m L l Hr) in En by lia. discriminate. }
  rewrite <- E0 in H at 1. now rewrite set_length_id in H.
Qed.

Lemma pop_front_n_refines m L l n :
  rep m L l -> 0 <= n ->
  exists L' m', aws_array_list_pop_front_n L n m = Ret L' m'
    /\ rep m' L' (a_pop_front_n l n) /\ keeps m L m' L'.
Proof using isize_pos.
  intros Hr Hn. pose proof (length_run m L l Hr) as El. unfold aws_array_list_pop_front_n, a_pop_front_n. run El.
  destruct (Z.leb_spec (a_len l) n) as [Hle | Hgt].
  { eexists _, m. split; [reflexivity |]. split; [now apply clear_refines |].
    intros p Hp. unfold aws_array_list_clear. destruct (is_NULL (data L)); auto. }
  destruct (Z.ltb_spec 0 n); [| eexists _, _; eauto using keeps_refl].
  destruct (rp_item _ _ _ Hr) as [Hi1 Hi2]. pose proof (ok_size _ (rp_ok _ _ _ Hr)) as Hmax.
  unfold a_size in Hmax. rewrite Hi2 in Hmax. pose proof (ok_len _ (rp_ok _ _ _ Hr)) as Hl.
  rewrite Hi1, !u64_small by (unfold is_u64, SIZE_MAX in *; nia).
  destruct (move_items m L l 0 n (a_len l - n) (a_len l - n)) as (m' & E & Hr' & Hk); auto; try lia.
  rewrite ptr_add_0, (Z.mul_comm n) in E. run E. eexists _, m'; eauto.
Qed.

Lemma pop_front_refines m L l :
  rep m L l ->
  exists L' m', aws_array_list_pop_front L m = Ret (fst (a_pop_front l), L') m'
    /\ rep m' L' (snd (a_pop_front l)) /\ keeps m L m' L'.
Proof using isize_pos.
  intros Hr. pose proof (length_run m L l Hr) as El. unfold aws_array_list_pop_front, a_pop_front. run El.
  destruct (0 <? a_len l); [| eexists _, _; eauto using keeps_refl].
  destruct (pop_front_n_refines m L l 1 Hr ltac:(lia)) as (L' & m' & E & H). run E. eexists _, _; eauto.
Qed.

Lemma erase_refines m L l i :
  rep m L l -> 0 <= i ->
  exists L' m', aws_array_list_erase L i m = Ret (fst (a_erase l i), L') m'
    /\ rep m' L' (snd (a_erase l i)) /\ keeps m L m' L'.
Proof using isize_pos.
  intros Hr Hi. pose proof (length_run m L l Hr) as El. unfold aws_array_list_erase, a_erase. run El.
  destruct (Z.leb_spec (a_len l) i); [eexists _, _; eauto using keeps_refl |].
  destruct (Z.eqb_spec i 0).
  { destruct (pop_front_refines m L l Hr) as (L' & m' & E & H'). run E. eexists _, _; eauto. }
  destruct (Z.eqb_spec i (a_len l - 1)).
  { destruct (pop_back_refines m L l Hr) as (L' & m' & E & H'). run E. eexists _, _; eauto. }
  destruct (rp_item _ _ _ Hr) as [Hi1 Hi2]. pose proof (ok_size _ (rp_ok _ _ _ Hr)) as Hmax.
  unfold a_size in Hmax. rewrite Hi2 in Hmax. pose proof (ok_len _ (rp_ok _ _ _ Hr)) as Hl.
  rewrite Hi1, u64_small by (unfold is_u64, SIZE_MAX in *; nia).
  destruct (move_items m L l i (i + 1) (a_len l - i - 1) (a_len l)) as (m1 & E1 & Hr1 & Hk1); auto; try lia.
  rewrite ptr_add_add. replace (i * isize + isize) with ((i + 1) * isize) by lia. run E1.
  rewrite (set_length_rep m L l Hr) in Hr1, Hk1.
  assert (with_len (move_slots l i (i + 1) (a_len l - i - 1)) (a_len l)
          = move_slots l i (i + 1) (a_len l - i - 1)) as Em
    by (unfold move_slots; destruct (slice _ _ _ ≫= _); [reflexivity | now destruct l]).
  rewrite Em in Hr1. destruct (pop_back_refines m1 L _ Hr1) as (L2 & m2 & E2 & Hr2 & Hk2). run E2.
  eexists _, m2. split; [reflexivity |]. split; [exact Hr2 |]. now apply (keeps_trans _ _ m1 L).
Qed.

Lemma push_front_refines m L l val a :
  rep m L l -> reads m L val a ->
  exists L' m', aws_array_list_push_front L val m = Ret (fst (a_push_front l a), L') m'
    /\ rep m' L' (snd (a_push_front l a)) /\ keeps m L m' L'.
Proof using enc_size isize_pos.
  intros Hr Hv. pose proof (length_run m L l Hr) as El. unfold aws_array_list_push_front, a_push_front. run El.
  pose proof (ok_len _ (rp_ok _ _ _ Hr)) as Hl0.
  destruct (ensure_capacity_refines m L l (a_len l) Hr ltac:(lia)) as (L1 & m1 & E1 & Hr1 & Hk1 & Ha1).
  pose proof (ensure_capacity_spec l (a_len l) (rp_ok _ _ _ Hr) ltac:(lia)) as Hsp. run E1.
  destruct (a_ensure_capacity l (a_len l)) as [rv g]. cbn [fst snd] in *.
  destruct rv as [| e].
  2: { rewrite (push_error_eq L1 g) by apply (rp_dyn _ _ _ Hr1). eexists _, _; eauto. }
  assert (a_len g = a_len l /\ a_len l < zlength (a_slots g)) as [Eg Hlt].
  { destruct (grow_error l (a_len l) AWS_ERROR_INVALID_INDEX); [discriminate |].
    destruct Hsp as (k & [= ->] & Hk & _). split; [reflexivity |]. cbn.
    rewrite zlength_app. unfold zlength in *. rewrite length_replicate. lia. }
  rewrite <- Eg in *. clear Hsp E1 El Hl0. pose proof (ok_len _ (rp_ok _ _ _ Hr1)) as Hl.
  destruct (rp_item _ _ _ Hr1) as [Hi1 Hi2]. pose proof (ok_size _ (rp_ok _ _ _ Hr1)) as Hmax.
  unfold a_size in Hmax. rewrite Hi2 in Hmax.
  set (h := if a_len g =? 0 then g else move_slots g 1 0 (a_len g)).
  assert (exists m2, (if a_len g =? 0 then mret tt
      else memmove (ptr_add (data L1) (item_size L1)) (data L1) (u64 (a_len g * item_size L1))) m1 = Ret tt m2
      /\ rep m2 L1 h /\ keeps m1 L1 m2 L1 /\ a_len h = a_len g
      /\ zlength (a_slots h) = zlength (a_slots g)) as (m2 & E2 & Hr2 & Hk2 & Eh & Hzh).
  { unfold h. destruct (Z.eqb_spec (a_len g) 0); [exists m1; auto using keeps_refl |].
    rewrite Hi1, u64_small by (unfold is_u64, SIZE_MAX in *; nia).
    destruct (move_items m1 L1 g 1 0 (a_len g) (a_len g)) as (m2 & E2 & Hr2 & Hk2); auto; try lia.
    destruct (move_spec g 1 0 (a_len g)) as (slots & Em & Hzs & _); try lia.
    change (0 * isize) with 0 in E2. rewrite ptr_add_0, Z.mul_1_l in E2.
    rewrite (set_length_rep m1 L1 g Hr1) in Hr2, Hk2.
    exists m2. rewrite Em in *. split_and!; auto. }
  run E2. destruct (put_item m2 L1 h val a 0 (a_len g + 1) Hr2) as (m3 & E3 & Hr3 & Hk3); try lia.
  { apply (reads_keeps m1 L1 m2 L1), (reads_keeps m L m1 L1); auto. }
  rewrite Z.mul_0_r, ptr_add_0 in E3. cbn [data item_size set_length].
  run E3. eexists _, m3. rewrite (rp_len _ _ _ Hr1), Eh. split; [reflexivity |]. split; [exact Hr3 |].
  apply (keeps_trans _ _ m1 L1); [exact Hk1 |]. now apply (keeps_trans _ _ m2 L1).
Qed.
End rep.
