(* ===== verification/ArrayListSwap.v ===== *)
(** * Array lists: exchanging items

    [aws_array_list_mem_swap] exchanges two items 128 bytes at a time; here it
    is shown to exchange them whatever their size, and the operations of an
    array list are put together in one refinement theorem. *)

From S2P Require Import Prelude Math ByteOrder Memory ArrayList ArrayItems ByteBufSpec ByteCursorSpec.
From S2P Require Import ByteCursorText ArrayListSpec.
Import ArrayList.

Local Open Scope Z_scope.

(** ** Exchanging two ranges *)

(** [m'] is [m] after writes inside [p, p+n) and [q, q+n). *)
Inductive scribble (p q : ptr) (n : Z) : mem -> mem -> Prop :=
| scribble_refl m : scribble p q n m m
| scribble_left m o x m1 m2 :
    0 <= o -> o + zlength x <= n -> written m (ptr_add p o) x m1 -> scribble p q n m1 m2 ->
    scribble p q n m m2
| scribble_right m o x m1 m2 :
    0 <= o -> o + zlength x <= n -> written m (ptr_add q o) x m1 -> scribble p q n m1 m2 ->
    scribble p q n m m2.

Lemma scribble_trans p q n m1 m2 m3 :
  scribble p q n m1 m2 -> scribble p q n m2 m3 -> scribble p q n m1 m3.
Proof. induction 1; eauto using scribble. Qed.

Lemma scribble_shift p q n i k m m' :
  scribble (ptr_add p i) (ptr_add q i) k m m' -> 0 <= i -> i + k <= n -> scribble p q n m m'.
Proof.
  intros H Hi Hk. induction H as [m | m o x m1 m2 Ho Hx Hw _ IH | m o x m1 m2 Ho Hx Hw _ IH].
  - apply scribble_refl.
  - rewrite ptr_add_add in Hw. apply (scribble_left p q n m (i + o) x m1 m2); auto; lia.
  - rewrite ptr_add_add in Hw. apply (scribble_right p q n m (i + o) x m1 m2); auto; lia.
Qed.

Lemma scribble_frame p q n m m' r k :
  scribble p q n m m' -> disjoint_ranges r k p n -> disjoint_ranges r k q n ->
  bytes_at m' r k = bytes_at m r k.
Proof.
  intros H Hp Hq. induction H as [m | m o x m1 m2 Ho Hx Hw _ IH | m o x m1 m2 Ho Hx Hw _ IH]; [reflexivity | |];
    rewrite IH; apply (written_frame _ _ _ _ _ _ Hw); rewrite <- (ptr_add_0 r);
    [apply (disjoint_sub r k p n) | apply (disjoint_sub r k q n)]; auto; lia.
Qed.

Lemma scribble_writable p q n m m' r k : scribble p q n m m' -> writable m r k -> writable m' r k.
Proof.
  induction 1 as [m | m o x m1 m2 Ho Hx Hw _ IH | m o x m1 m2 Ho Hx Hw _ IH]; auto;
    intros H; apply IH; exact (written_writable _ _ _ _ _ _ Hw H).
Qed.

Definition disjoint_both (p q : ptr) (n : Z) : Prop := disjoint_ranges p n q n /\ disjoint_ranges q n p n.

Lemma swap_bytes_ok m p q n x y :
  bytes_at m p n = Some x -> bytes_at m q n = Some y -> writable m p n -> writable m q n ->
  disjoint_both p q n ->
  exists m', swap_bytes p q n m = Ret tt m' /\ scribble p q n m m'
    /\ bytes_at m' p n = Some y /\ bytes_at m' q n = Some x.
Proof.
  intros Hx Hy Hp Hq [Hd1 Hd2]. pose proof (bytes_at_length _ _ _ _ Hx) as [Hzx Hn].
  pose proof (bytes_at_length _ _ _ _ Hy) as [Hzy _].
  unfold swap_bytes. run (load_ok _ _ _ _ Hx).
  destruct (memcpy_ok m p q n y Hy Hp Hd1) as (m1 & E1 & H1). run E1.
  destruct (store_ok m1 q x) as (m2 & E2 & H2); [rewrite Hzx; exact (written_writable _ _ _ _ _ _ H1 Hq) |].
  exists m2. split; [exact E2 |]. split_and!.
  - rewrite <- (ptr_add_0 p) in H1. rewrite <- (ptr_add_0 q) in H2.
    apply (scribble_left p q n m 0 y m1); auto; try lia.
    apply (scribble_right p q n m1 0 x m2); auto using scribble_refl; lia.
  - rewrite (written_frame _ _ _ _ _ _ H2) by (rewrite Hzx; exact Hd1).
    rewrite <- Hzy. now apply (written_same m).
  - rewrite <- Hzx. now apply (written_same m1).
Qed.

Lemma disjoint_parts p q n i k j h :
  disjoint_both p q n -> 0 <= i -> i + k <= n -> 0 <= j -> j + h <= n ->
  disjoint_ranges (ptr_add p i) k (ptr_add q j) h /\ disjoint_ranges (ptr_add q j) h (ptr_add p i) k.
Proof.
  intros [H1 H2] Hi Hk Hj Hh. split; [apply (disjoint_sub p n q n) | apply (disjoint_sub q n p n)]; auto.
Qed.

Lemma disjoint_self p i k j h : i + k <= j -> disjoint_ranges (ptr_add p i) k (ptr_add p j) h.
Proof. intros H. destruct p; cbn; auto. intros _. left. lia. Qed.

(** Slices of 128 bytes and the rest. *)
Lemma mem_swap_slices k : forall p q r m x y,
  0 <= r -> let n := 128 * Z.of_nat k + r in
  bytes_at m p n = Some x -> bytes_at m q n = Some y -> writable m p n -> writable m q n ->
  disjoint_both p q n ->
  exists m', ('(p1, q1) ← mem_swap_loop k p q; swap_bytes p1 q1 r) m = Ret tt m' /\ scribble p q n m m'
    /\ bytes_at m' p n = Some y /\ bytes_at m' q n = Some x.
Proof.
  induction k as [| k IH]; intros p q r m x y Hr n Hx Hy Hp Hq Hd.
  { cbn [mem_swap_loop]. rewrite (run_bind _ _ m (p, q) m eq_refl).
    replace n with r in * by (unfold n; lia). now apply swap_bytes_ok. }
  set (n' := 128 * Z.of_nat k + r) in *. assert (n = 128 + n') as En by (unfold n, n'; lia).
  pose proof (bytes_at_length _ _ _ _ Hx) as [Hzx _]. pose proof (bytes_at_length _ _ _ _ Hy) as [Hzy _].
  assert (forall m0 s z, bytes_at m0 s n = Some z ->
    bytes_at m0 s 128 = Some (take 128 z) /\ bytes_at m0 (ptr_add s 128) n' = Some (drop 128 z)) as Hsplit.
  { intros m0 s z H. pose proof (bytes_at_length _ _ _ _ H) as [Hz _]. split.
    - rewrite (bytes_at_prefix _ _ _ _ 128 H), slice_Some by lia. reflexivity.
    - replace n' with (n - 128) by lia. rewrite (bytes_at_drop m0 s n z 128 H) by lia. reflexivity. }
  assert (forall s, writable m s n -> writable m s 128 /\ writable m (ptr_add s 128) n') as Hwsplit.
  { intros s H. split; [rewrite <- (ptr_add_0 s) |]; apply (writable_sub m s n); auto; lia. }
  destruct (Hsplit _ _ _ Hx) as [Hx1 Hx2]. destruct (Hsplit _ _ _ Hy) as [Hy1 Hy2].
  destruct (Hwsplit p Hp) as [Hp1 Hp2]. destruct (Hwsplit q Hq) as [Hq1 Hq2].
  pose proof (disjoint_parts p q n 0 128 0 128 Hd ltac:(lia) ltac:(lia) ltac:(lia) ltac:(lia)) as D00.
  pose proof (disjoint_parts p q n 128 n' 0 128 Hd ltac:(lia) ltac:(lia) ltac:(lia) ltac:(lia)) as D10.
  pose proof (disjoint_parts p q n 0 128 128 n' Hd ltac:(lia) ltac:(lia) ltac:(lia) ltac:(lia)) as D01.
  pose proof (disjoint_parts p q n 128 n' 128 n' Hd ltac:(lia) ltac:(lia) ltac:(lia) ltac:(lia)) as D11.
  pose proof (disjoint_self p 0 128 128 n' ltac:(lia)) as Dp.
  pose proof (disjoint_self q 0 128 128 n' ltac:(lia)) as Dq. rewrite !ptr_add_0 in *.
  destruct (swap_bytes_ok m p q 128 _ _ Hx1 Hy1 Hp1 Hq1 D00) as (m1 & E1 & S1 & By1 & Bx1).
  assert (forall s t, disjoint_ranges s t p 128 -> disjoint_ranges s t q 128 -> bytes_at m1 s t = bytes_at m s t)
    as F1 by (intros s t; now apply (scribble_frame p q 128)).
  destruct (IH (ptr_add p 128) (ptr_add q 128) r m1 (drop 128 x) (drop 128 y)) as (m2 & E2 & S2 & By2 & Bx2);
    fold n'; auto.
  { rewrite F1; auto; [| apply D10]. destruct p; cbn in *; auto. lia. }
  { rewrite F1; auto; [apply D01 |]. destruct q; cbn in *; auto. lia. }
  { exact (scribble_writable _ _ _ _ _ _ _ S1 Hp2). }
  { exact (scribble_writable _ _ _ _ _ _ _ S1 Hq2). }
  exists m2. cbn [mem_swap_loop]. rewrite bind_assoc_step. run E1. split; [exact E2 |].
  assert (forall s t, disjoint_ranges s t (ptr_add p 128) n' -> disjoint_ranges s t (ptr_add q 128) n' ->
    bytes_at m2 s t = bytes_at m1 s t) as F2 by (intros s t; now apply (scribble_frame _ _ n')).
  split; [| rewrite En; split].
  - apply (scribble_trans _ _ _ _ m1).
    + apply (scribble_shift p q n 0 128); rewrite ?ptr_add_0; auto; lia.
    + apply (scribble_shift p q n 128 n'); auto; lia.
  - rewrite <- (take_drop 128 y). apply bytes_at_app; auto. rewrite F2; auto. apply D01.
  - rewrite <- (take_drop 128 x). apply bytes_at_app; auto. rewrite F2; auto. apply D10.
Qed.

Lemma mem_swap_ok m p q n x y :
  0 <= n -> is_NULL p = false -> is_NULL q = false ->
  bytes_at m p n = Some x -> bytes_at m q n = Some y -> writable m p n -> writable m q n ->
  disjoint_both p q n ->
  exists m', aws_array_list_mem_swap p q n m = Ret tt m' /\ scribble p q n m m'
    /\ bytes_at m' p n = Some y /\ bytes_at m' q n = Some x.
Proof.
  intros Hn Np Nq Hx Hy Hp Hq Hd. unfold aws_array_list_mem_swap, require. rewrite Np, Nq. cbn [negb andb].
  rewrite (run_bind _ _ m tt m eq_refl). change 127 with (2 ^ 7 - 1). rewrite land_pow2_mask by lia.
  change (2 ^ 7) with 128. pose proof (Z.div_mod n 128 ltac:(lia)) as E.
  pose proof (Z.mod_pos_bound n 128 ltac:(lia)). pose proof (Z.div_pos n 128 ltac:(lia) ltac:(lia)).
  pose proof (mem_swap_slices (Z.to_nat (n / 128)) p q (n mod 128) m x y ltac:(lia)) as H1.
  rewrite Z2Nat.id in H1 by lia. rewrite <- E in H1. auto.
Qed.

(** ** Exchanging two items *)

Section swap.
Context {A : Type} (enc : A -> list Z) (isize : Z).
Hypothesis enc_size : forall a, zlength (enc a) = isize.
Hypothesis isize_pos : 0 < isize.
Implicit Types (l : alist A) (L : aws_array_list).
Abbreviation rep := (rep enc isize).

(** Writing inside a slot whose content is not known. *)
Lemma rep_scratch m L l i o x m' :
  rep m L l -> (i < length (a_slots l))%nat -> a_slots l !! i = Some None ->
  0 <= o -> o + zlength x <= isize -> written m (ptr_add (ptr_add (data L) (isize * Z.of_nat i)) o) x m' ->
  rep m' L l /\ keeps m L m' L.
Proof using isize_pos.
  intros Hr Hi Hn Ho Hx Hw. rewrite ptr_add_add in Hw. destruct (rp_item _ _ _ _ _ Hr) as [Hi1 Hi2].
  pose proof (rp_size _ _ _ _ _ Hr) as Hsz. unfold a_size in Hsz. rewrite Hi2 in Hsz.
  pose proof (ok_len _ (rp_ok _ _ _ _ _ Hr)) as Hl. unfold zlength in *.
  rewrite <- (set_length_rep enc isize m L l Hr).
  apply (rep_written enc isize m (set_length L (a_len l)) l (isize * Z.of_nat i + o) x m' l (a_len l));
    rewrite ?(set_length_rep enc isize m L l Hr); auto; unfold zlength; try nia.
  intros bs bs' _ Hh _ Hs j a Hj. rewrite <- (Hh j a Hj).
  apply (slice_splice_out bs (isize * Z.of_nat i + o) x); [exact Hs |].
  assert (i <> j) by congruence. unfold zlength. nia.
Qed.

Lemma rep_scribble m L l i j m' :
  rep m L l -> a_slots l !! i = Some None -> a_slots l !! j = Some None ->
  scribble (ptr_add (data L) (isize * Z.of_nat i)) (ptr_add (data L) (isize * Z.of_nat j)) isize m m' ->
  rep m' L l /\ keeps m L m' L.
Proof using isize_pos.
  intros Hr Hi Hj Hs. pose proof (lookup_lt_Some _ _ _ Hi). pose proof (lookup_lt_Some _ _ _ Hj).
  induction Hs as [m | m o x m1 m2 Ho Hx Hw _ IH | m o x m1 m2 Ho Hx Hw _ IH];
    [auto using keeps_refl | destruct (rep_scratch m L l i o x m1) as [Hr1 Hk1]; auto
                           | destruct (rep_scratch m L l j o x m1) as [Hr1 Hk1]; auto];
    destruct (IH Hr1) as [Hr2 Hk2]; split; auto; now apply (keeps_trans _ _ m1 L).
Qed.

(** Forgetting and learning the content of a slot. *)
Lemma rep_forget m L l i : rep m L l -> rep m L (put_slot l i None).
Proof using.
  intros [Rok Ri Rlen Rsize Rdyn Rnull Rroom Rown (bs & Hb & Hh)].
  constructor; auto; [now apply ok_put | |].
  - unfold a_size in *. rewrite slots_put, zlength_insert. exact Rsize.
  - exists bs. split; [exact Hb |]. rewrite slots_put. apply (holds_weaken enc isize bs (a_slots l)); [| exact Hh].
    intros k a Hk. destruct (decide (Z.to_nat i = k)) as [<- | Hne]; [| now rewrite list_lookup_insert_ne in Hk].
    pose proof (lookup_lt_Some _ _ _ Hk) as Hlt. rewrite length_insert in Hlt.
    rewrite list_lookup_insert_eq in Hk by exact Hlt. discriminate.
Qed.

Lemma rep_learn m L l i x :
  rep m L l -> (forall a, x = Some a -> bytes_at m (ptr_add (data L) (isize * Z.of_nat i)) isize = Some (enc a)) ->
  (i < length (a_slots l))%nat -> a_slots l !! i = Some None -> rep m L (put_slot l (Z.of_nat i) x).
Proof using isize_pos.
  intros Hr Hx Hi Hn. pose proof (rp_item _ _ _ _ _ Hr) as [_ Hi2].
  destruct Hr as [Rok Ri Rlen Rsize Rdyn Rnull Rroom Rown (bs & Hb & Hh)].
  constructor; auto; [now apply ok_put | |].
  - unfold a_size in *. rewrite slots_put, zlength_insert. exact Rsize.
  - exists bs. split; [exact Hb |]. rewrite slots_put, Nat2Z.id. intros k a Hk.
    destruct (decide (i = k)) as [<- | Hne]; [| rewrite list_lookup_insert_ne in Hk by exact Hne; now apply Hh].
    rewrite list_lookup_insert_eq in Hk by exact Hi. injection Hk as ->.
    rewrite <- (Hx a eq_refl). symmetry. rewrite Z.mul_comm.
    apply (bytes_at_sub m (data L) (current_size L) bs); auto; try nia.
    rewrite Rsize. unfold a_size, zlength. rewrite Hi2. nia.
Qed.

Lemma slot_readable m L l i :
  rep m L l -> (i < length (a_slots l))%nat ->
  exists x, bytes_at m (ptr_add (data L) (isize * Z.of_nat i)) isize = Some x
    /\ writable m (ptr_add (data L) (isize * Z.of_nat i)) isize
    /\ forall a, a_slots l !! i = Some (Some a) -> x = enc a.
Proof using isize_pos.
  intros Hr Hi. destruct (rp_item _ _ _ _ _ Hr) as [_ Hi2]. pose proof (rp_size _ _ _ _ _ Hr) as Hsz.
  unfold a_size in Hsz. rewrite Hi2 in Hsz. unfold zlength in Hsz.
  destruct (rp_data _ _ _ _ _ Hr) as (bs & Hb & Hh). pose proof (bytes_at_length _ _ _ _ Hb) as [Hz _].
  destruct (slice_is_Some bs (isize * Z.of_nat i) isize) as [x Hx]; [nia | lia | rewrite Hz; nia |].
  exists x. split; [now rewrite (bytes_at_sub m (data L) (current_size L) bs _ _ Hb) by nia |].
  split; [apply (writable_sub _ _ (current_size L)); try nia; apply (rp_room _ _ _ _ _ Hr) |].
  intros a Ha. pose proof (Hh i a Ha) as E. rewrite Z.mul_comm, E in Hx. congruence.
Qed.

Lemma slots_disjoint p i j :
  i <> j -> disjoint_both (ptr_add p (isize * Z.of_nat i)) (ptr_add p (isize * Z.of_nat j)) isize.
Proof using isize_pos. intros H. split; destruct p; cbn; auto; intros _; nia. Qed.

(** Two slots whose bytes have changed places. *)
Lemma rep_exchanged m L l i j x y bx by_ m' :
  rep m L l -> 0 <= i -> 0 <= j -> i <> j ->
  a_slots l !! Z.to_nat i = Some x -> a_slots l !! Z.to_nat j = Some y ->
  (forall a, x = Some a -> bx = enc a) -> (forall a, y = Some a -> by_ = enc a) ->
  scribble (ptr_add (data L) (isize * i)) (ptr_add (data L) (isize * j)) isize m m' ->
  bytes_at m' (ptr_add (data L) (isize * i)) isize = Some by_ ->
  bytes_at m' (ptr_add (data L) (isize * j)) isize = Some bx ->
  rep m' L (put_slot (put_slot l i y) j x) /\ keeps m L m' L.
Proof using isize_pos.
  intros Hr Hi Hj Hne Hx Hy Ex Ey Hs By' Bx'.
  pose proof (lookup_lt_Some _ _ _ Hx). pose proof (lookup_lt_Some _ _ _ Hy).
  set (l0 := put_slot (put_slot l i None) j None).
  assert (a_slots l0 = <[Z.to_nat j := None]> (<[Z.to_nat i := None]> (a_slots l))) as E0 by reflexivity.
  assert (rep m L l0) as Hr0 by now apply rep_forget, rep_forget.
  assert (a_slots l0 !! Z.to_nat i = Some None) as Ni
    by (rewrite E0, list_lookup_insert_ne, list_lookup_insert_eq by lia; reflexivity).
  assert (a_slots l0 !! Z.to_nat j = Some None) as Nj
    by (rewrite E0, list_lookup_insert_eq by (rewrite length_insert; lia); reflexivity).
  destruct (rep_scribble m L l0 (Z.to_nat i) (Z.to_nat j) m') as [Hr' Hk]; auto; rewrite ?Z2Nat.id by lia; auto.
  split; [| exact Hk].
  pose proof (rep_learn m' L l0 (Z.to_nat i) y Hr') as H1. rewrite Z2Nat.id in H1 by lia.
  specialize (H1 ltac:(intros a ->; rewrite By'; f_equal; auto) (lookup_lt_Some _ _ _ Ni) Ni).
  pose proof (rep_learn m' L (put_slot l0 i y) (Z.to_nat j) x H1) as H2. rewrite Z2Nat.id in H2 by lia.
  assert (a_slots (put_slot l0 i y) !! Z.to_nat j = Some None) as Nj'
    by (rewrite slots_put, list_lookup_insert_ne by lia; exact Nj).
  specialize (H2 ltac:(intros a ->; rewrite Bx'; f_equal; auto) (lookup_lt_Some _ _ _ Nj') Nj').
  replace (put_slot (put_slot l i y) j x) with (put_slot (put_slot l0 i y) j x); [exact H2 |].
  unfold put_slot, with_slots, l0. cbn. f_equal.
  rewrite (list_insert_insert_ne _ (Z.to_nat i) (Z.to_nat j)) by lia.
  rewrite list_insert_insert_eq, list_insert_insert_eq. reflexivity.
Qed.

Lemma swap_refines m L l i j :
  rep m L l -> 0 <= i < a_len l -> 0 <= j < a_len l ->
  exists m', aws_array_list_swap L i j m = Ret tt m' /\ rep m' L (a_swap l i j) /\ keeps m L m' L.
Proof using isize_pos.
  intros Hr Hi Hj. pose proof (ok_len _ (rp_ok _ _ _ _ _ Hr)) as Hl. unfold aws_array_list_swap, require.
  rewrite (rp_len _ _ _ _ _ Hr), !(proj2 (Z.ltb_lt _ _)) by lia. cbn [andb].
  rewrite (run_bind _ _ m tt m eq_refl). unfold a_swap.
  destruct (zlookup_is_Some (a_slots l) i) as [x Hx]; [lia |].
  destruct (zlookup_is_Some (a_slots l) j) as [y Hy]; [lia |]. rewrite Hx, Hy.
  apply zlookup_Some in Hx as [_ Hx], Hy as [_ Hy].
  destruct (Z.eqb_spec i j) as [-> | Hne].
  { exists m. split; [reflexivity |]. split; [| apply keeps_refl]. rewrite Hx in Hy. injection Hy as <-.
    unfold put_slot, with_slots. cbn. rewrite !(list_insert_id _ _ _ Hx). now destruct l. }
  unfold aws_array_list_get_at_ptr. pose proof (length_run enc isize isize_pos m L l Hr) as El.
  rewrite bind_assoc_step. run El. rewrite (run_bind _ _ m _ m eq_refl).
  rewrite bind_assoc_step. run El. rewrite (run_bind _ _ m _ m eq_refl).
  rewrite !(proj2 (Z.ltb_lt _ _)) by lia. cbn iota. rewrite (proj1 (rp_item _ _ _ _ _ Hr)).
  destruct (slot_readable m L l (Z.to_nat i) Hr (lookup_lt_Some _ _ _ Hx)) as (bx & Bx & Wx & Ex).
  destruct (slot_readable m L l (Z.to_nat j) Hr (lookup_lt_Some _ _ _ Hy)) as (by_ & By & Wy & Ey).
  pose proof (rep_data_nonnull enc isize isize_pos m L l Hr ltac:(lia)) as Hnn.
  pose proof (slots_disjoint (data L) (Z.to_nat i) (Z.to_nat j) ltac:(lia)) as Hd.
  rewrite !Z2Nat.id in * by lia.
  destruct (mem_swap_ok m (ptr_add (data L) (isize * i)) (ptr_add (data L) (isize * j)) isize bx by_)
    as (m' & E & Hs & By' & Bx'); auto; rewrite ?is_NULL_add; auto; [lia |].
  exists m'. split; [exact E |]. apply (rep_exchanged m L l i j x y bx by_); auto; try lia;
    intros a ->; auto.
Qed.
End swap.

(** ** All operations *)

Section history.
Context {A : Type} (enc : A -> list Z) (isize : Z).
Implicit Types (l : alist A) (L : aws_array_list) (op : list_op A).

(** The call of each operation; an argument is a local variable of the
    caller. *)
Definition run_op op L : M (op_result * aws_array_list) :=
  match op with
  | PushBack a => aws_array_list_push_back L (Static (enc a) 0)
  | PushFront a => aws_array_list_push_front L (Static (enc a) 0)
  | SetAt a i => aws_array_list_set_at L (Static (enc a) 0) i
  | PopBack => aws_array_list_pop_back L
  | PopFront => aws_array_list_pop_front L
  | PopFrontN n => L ← aws_array_list_pop_front_n L n; mret (AWS_OP_SUCCESS, L)
  | Erase i => aws_array_list_erase L i
  | Swap i j => _ ← aws_array_list_swap L i j; mret (AWS_OP_SUCCESS, L)
  | Clear => mret (AWS_OP_SUCCESS, aws_array_list_clear L)
  end.

Fixpoint run_ops (ops : list (list_op A)) L : M (list op_result * aws_array_list) :=
  match ops with
  | [] => mret ([], L)
  | op :: ops =>
      '(rv, L) ← run_op op L;
      '(rvs, L) ← run_ops ops L;
      mret (rv :: rvs, L)
  end.

(** The same on plain lists, for a list that can grow. *)
Definition plain_error op (xs : list (option A)) : option aws_common_error :=
  match op with
  | PushBack _ | PushFront _ =>
      if SIZE_MAX <? (zlength xs + 1) * isize then Some AWS_ERROR_OVERFLOW_DETECTED else None
  | SetAt _ i => if SIZE_MAX <? (i + 1) * isize then Some AWS_ERROR_OVERFLOW_DETECTED else None
  | PopBack | PopFront => if 0 <? zlength xs then None else Some AWS_ERROR_LIST_EMPTY
  | Erase i => if i <? zlength xs then None else Some AWS_ERROR_INVALID_INDEX
  | PopFrontN _ | Swap _ _ | Clear => None
  end.

Fixpoint plain_run (ops : list (list_op A)) (xs : list (option A)) : list op_result * list (option A) :=
  match ops with
  | [] => ([], xs)
  | op :: ops =>
      match plain_error op xs with
      | Some e => let '(rvs, ys) := plain_run ops xs in (AWS_OP_ERR e :: rvs, ys)
      | None => let '(rvs, ys) := plain_run ops (list_step op xs) in (AWS_OP_SUCCESS :: rvs, ys)
      end
  end.

(** Every call respects its preconditions. *)
Fixpoint valid_run (ops : list (list_op A)) (xs : list (option A)) : Prop :=
  match ops with
  | [] => True
  | op :: ops =>
      valid_op (zlength xs) op
      /\ valid_run ops (match plain_error op xs with Some _ => xs | None => list_step op xs end)
  end.

Hypothesis enc_size : forall a, zlength (enc a) = isize.
Hypothesis isize_pos : 0 < isize.

Lemma static_reads m L a : reads enc isize m L (Static (enc a) 0) a.
Proof using enc_size isize_pos.
  split; [discriminate |]. unfold bytes_at. rewrite (proj2 (Z.eqb_neq _ _)) by lia.
  rewrite <- (enc_size a). apply slice_full.
Qed.

Lemma run_op_refines op m L l :
  rep enc isize m L l -> valid_op (a_len l) op ->
  exists L' m', run_op op L m = Ret (fst (a_step op l), L') m'
    /\ rep enc isize m' L' (snd (a_step op l)) /\ keeps m L m' L'.
Proof using enc_size isize_pos.
  intros Hr Hv. destruct op as [a | a | a i | | | n | i | i j |]; cbn [run_op a_step valid_op] in *.
  - apply (push_back_refines enc isize); auto using static_reads.
  - apply (push_front_refines enc isize); auto using static_reads.
  - destruct (set_at_refines enc isize enc_size isize_pos m L l _ a i Hr (static_reads m L a) ltac:(lia))
      as (L' & m' & H1 & H2 & H3 & _). eauto.
  - now apply (pop_back_refines enc isize).
  - now apply (pop_front_refines enc isize).
  - destruct (pop_front_n_refines enc isize isize_pos m L l n Hr Hv) as (L' & m' & E & H).
    run E. eexists _, _; eauto.
  - now apply (erase_refines enc isize).
  - destruct (swap_refines enc isize isize_pos m L l i j Hr) as (m' & E & H); try tauto.
    run E. eexists _, _; eauto.
  - eexists _, m. split; [reflexivity |]. split; [now apply clear_refines |].
    intros p Hp. unfold aws_array_list_clear. destruct (is_NULL (data L)); auto.
Qed.

Lemma plain_error_eq op l xs :
  alist_ok l -> a_dynamic l = true -> a_item_size l = isize -> covers (items l) xs ->
  list_error op l = plain_error op xs.
Proof using.
  intros Ho Hd Hi Hc. pose proof (zlength_items l Ho) as Hz. rewrite (covers_zlength _ _ Hc) in Hz.
  destruct op; cbn; unfold grow_error; rewrite ?Hz, ?Hi, ?Hd; reflexivity.
Qed.

Lemma run_ops_refines ops : forall m L l xs,
  rep enc isize m L l -> a_dynamic l = true -> covers (items l) xs -> valid_run ops xs ->
  exists L' m' l', run_ops ops L m = Ret (fst (plain_run ops xs), L') m'
    /\ rep enc isize m' L' l' /\ covers (items l') (snd (plain_run ops xs)) /\ keeps m L m' L'.
Proof using enc_size isize_pos.
  induction ops as [| op ops IH]; intros m L l xs Hr Hd Hc Hv; cbn [run_ops plain_run valid_run] in *.
  { exists L, m, l. auto using keeps_refl. }
  destruct Hv as [Hv Hvs]. pose proof (rp_ok _ _ _ _ _ Hr) as Ho. destruct (rp_item _ _ _ _ _ Hr) as [_ Hi].
  rewrite <- (covers_zlength _ _ Hc), (zlength_items l Ho) in Hv. pose proof (a_step_ok op l xs Ho Hv Hc) as Hs.
  destruct (run_op_refines op m L l Hr Hv) as (L1 & m1 & E1 & Hr1 & Hk1). run E1.
  rewrite <- (plain_error_eq op l xs Ho Hd Hi Hc) in *.
  destruct (list_error op l) as [e |]; [rewrite Hs in * | destruct Hs as (l1 & Hs & _ & Hit & Hd1 & _); rewrite Hs in *];
    cbn [fst snd] in *.
  - destruct (IH m1 L1 l xs Hr1 Hd Hc Hvs) as (L2 & m2 & l2 & E2 & Hr2 & Hi2 & Hk2). run E2.
    destruct (plain_run ops xs) as [rvs ys]. cbn [fst snd] in *.
    exists L2, m2, l2. split_and!; auto. now apply (keeps_trans _ _ m1 L1).
  - destruct (IH m1 L1 l1 _ Hr1 ltac:(congruence) Hit Hvs) as (L2 & m2 & l2 & E2 & Hr2 & Hi2 & Hk2). run E2.
    destruct (plain_run ops (list_step op xs)) as [rvs ys]. cbn [fst snd] in *.
    exists L2, m2, l2. split_and!; auto. now apply (keeps_trans _ _ m1 L1).
Qed.
End history.

Lemma rep_valid {A} (enc : A -> list Z) isize m L l :
  rep enc isize m L l -> aws_array_list_is_valid L = true.
Proof.
  intros Hr. destruct (rp_item _ _ _ _ _ Hr) as [Hi1 Hi2]. destruct (rp_ok _ _ _ _ _ Hr) as [Hl Hi Hs].
  pose proof (rp_size _ _ _ _ _ Hr) as Hsz. unfold a_size in *. rewrite Hi2 in *.
  unfold aws_array_list_is_valid. rewrite Hi1, (rp_len _ _ _ _ _ Hr), Hsz.
  rewrite mul_size_checked_spec, (proj2 (Z.leb_le _ SIZE_MAX)) by nia.
  rewrite (proj2 (Z.leb_le (a_len l * isize) _)), (proj2 (Z.eqb_neq isize 0)) by nia. cbn [andb negb].
  rewrite andb_true_r. destruct (Z.eqb_spec (zlength (a_slots l) * isize) 0) as [E | E]; cbn [negb orb andb].
  - rewrite (rp_null _ _ _ _ _ Hr) by lia. reflexivity.
  - destruct (rp_room _ _ _ _ _ Hr) as [E' | (b & o & d & -> & _)]; [lia | reflexivity].
Qed.

Lemma init_dynamic_rep {A} (enc : A -> list Z) isize al m n :
  0 < isize -> 0 <= n -> n * isize <= SIZE_MAX ->
  exists L m', aws_array_list_init_dynamic al n isize m = Ret (AWS_OP_SUCCESS, L) m'
    /\ rep enc isize m' L (mk_alist (replicate (Z.to_nat n) None) 0 true isize)
    /\ forall p k x, bytes_at m p k = Some x -> bytes_at m' p k = Some x /\ (k = 0 \/ outside m' L p).
Proof.
  intros Hi Hn Hmax. unfold aws_array_list_init_dynamic, require.
  rewrite (proj2 (Z.ltb_lt 0 isize)) by lia. rewrite (run_bind _ _ m tt m eq_refl).
  rewrite mul_size_checked_spec, (proj2 (Z.leb_le _ _)) by lia.
  assert (alist_ok (mk_alist (A := A) (replicate (Z.to_nat n) None) 0 true isize)) as Hok.
  { constructor; unfold a_size; cbn [a_len a_slots a_item_size]; rewrite ?zlength_replicate by lia; lia. }
  assert (forall bs, holds enc isize bs (replicate (Z.to_nat n) None)) as Hholds
    by (intros bs i a H; now apply lookup_replicate_1 in H as [H _]).
  destruct (Z.ltb_spec 0 (n * isize)) as [Hpos | Hz].
  - destruct (acquire_ok al m (n * isize) Hpos) as (b & m1 & d & Hacq & Hfresh & -> & Hd). run Hacq.
    eexists _, (set_block m b d). split; [reflexivity |].
    assert (bytes_at (set_block m b d) (Ptr b 0) (n * isize) = Some d) as Hb.
    { unfold bytes_at. rewrite (proj2 (Z.eqb_neq _ _)) by lia. cbn. rewrite lookup_insert_eq. cbn.
      rewrite <- Hd. apply slice_full. }
    split; [constructor; cbn [item_size list_length current_size alloc data a_len a_item_size a_slots a_dynamic]; auto |].
    + unfold a_size. cbn [a_slots a_item_size]. rewrite zlength_replicate; lia.
    + lia.
    + apply fresh_writable. lia.
    + intros _. right. exists b, d. cbn. rewrite lookup_insert_eq. auto.
    + exists d. auto.
    + intros p k x Hx. split; [now apply bytes_at_fresh |]. destruct (Z.eq_dec k 0); [now left | right].
      intros c Hc. destruct p as [| c' o |]; try discriminate. injection Hc as ->.
      unfold bytes_at in Hx. rewrite (proj2 (Z.eqb_neq _ _)) in Hx by lia.
      destruct (blocks m !! c) eqn:Ec; [| discriminate]. assert (b <> c) by congruence. cbn.
      rewrite lookup_insert_ne by congruence. split; [eauto | congruence].
  - assert (n = 0) as -> by nia. eexists _, m. split; [reflexivity |].
    split; [constructor; cbn; auto; [now left | exists []; auto] |].
    intros p k x Hx. split; [exact Hx |]. destruct (Z.eq_dec k 0); [now left | right].
    intros c Hc. destruct p as [| c' o |]; try discriminate. injection Hc as ->.
    unfold bytes_at in Hx. rewrite (proj2 (Z.eqb_neq _ _)) in Hx by lia.
    destruct (blocks m !! c) eqn:Ec; [| discriminate]. split; [eauto | discriminate].
Qed.

(** C4: An array list refines a plain list. After [aws_array_list_init_dynamic],
    any history of push_back, push_front, set_at, pop_back, pop_front,
    pop_front_n, erase, swap and clear runs without undefined behaviour and
    without aborting, each call reports exactly the error the plain list
    dictates, the list stays valid, [aws_array_list_get_at_ptr] finds the
    bytes of each item at its index, and no other memory changes. An item may
    be set at any index; the items it skips over have no known content until
    they are set. The two items of swap must exist, as its fatal precondition
    demands. *)
Theorem array_list_refines_list {A} (enc : A -> list Z) (isize : Z) (al : aws_allocator) (m : mem)
    (n : Z) (ops : list (list_op A)) :
  (forall a, zlength (enc a) = isize) -> 0 < isize -> 0 <= n -> n * isize <= SIZE_MAX ->
  valid_run isize ops [] ->
  let '(rvs, xs) := plain_run isize ops [] in
  exists L0 m0 L m', aws_array_list_init_dynamic al n isize m = Ret (AWS_OP_SUCCESS, L0) m0
    /\ run_ops enc ops L0 m0 = Ret (rvs, L) m'
    /\ aws_array_list_is_valid L = true /\ list_length L = zlength xs
    /\ (forall i a, xs !! i = Some (Some a) ->
          exists p, aws_array_list_get_at_ptr L (Z.of_nat i) m' = Ret (Ok p) m'
                    /\ bytes_at m' p isize = Some (enc a))
    /\ forall p k x, bytes_at m p k = Some x -> bytes_at m' p k = Some x.
Proof.
  intros He Hi Hn Hmax Hv.
  destruct (init_dynamic_rep enc isize al m n Hi Hn Hmax) as (L0 & m0 & E0 & Hr0 & Hf0).
  set (l0 := mk_alist (A := A) _ 0 true isize) in *.
  destruct (run_ops_refines enc isize He Hi ops m0 L0 l0 [] Hr0 eq_refl (covers_refl []) Hv) as (L & m' & l & E & Hr & Hit & Hk).
  destruct (plain_run isize ops []) as [rvs xs]. cbn [fst snd] in *.
  exists L0, m0, L, m'. split_and!; auto.
  - now apply (rep_valid enc isize m' L l).
  - rewrite (rp_len _ _ _ _ _ Hr), <- (covers_zlength _ _ Hit). symmetry. apply zlength_items, Hr.
  - intros i a Ha. destruct (Forall2_lookup_r _ _ _ _ _ Hit Ha) as (y & Hy & [? | ->]); [discriminate |].
    clear Ha. rename Hy into Ha. unfold items in Ha. pose proof (lookup_lt_Some _ _ _ Ha) as Hlt.
    rewrite length_take in Hlt. rewrite lookup_take_lt in Ha by lia.
    unfold aws_array_list_get_at_ptr. pose proof (length_run enc isize Hi m' L l Hr) as El. run El.
    rewrite (proj2 (Z.ltb_lt _ _)) by lia. eexists. split; [reflexivity |].
    rewrite (proj1 (rp_item _ _ _ _ _ Hr)).
    destruct (slot_readable enc isize Hi m' L l i Hr ltac:(lia)) as (x & Hx & _ & Hxa). now rewrite <- (Hxa a Ha).
  - intros p k x Hx. destruct (Hf0 p k x Hx) as [Hx0 [-> | Ho]]; [exact Hx |].
    destruct (Hk p Ho) as [_ Hb]. now rewrite Hb.
Qed.

(** Two-byte items: pushes, an exchange, an erasure, and an item that is set far
    behind the end. *)
Definition enc2 (x : Z) : list Z := [x mod 256; x / 256 mod 256].
Definition demo_ops : list (list_op Z) :=
  [PushBack 258; PushBack 3; PushFront 772; Swap 0 2; Erase 1; PopFront; PopBack; PopBack; SetAt 513 5].

Lemma array_list_refines_list_witness :
  exists L0 m0 L m', aws_array_list_init_dynamic (mk_allocator true) 1 2 demo_mem = Ret (AWS_OP_SUCCESS, L0) m0
    /\ run_ops enc2 demo_ops L0 m0
       = Ret ([AWS_OP_SUCCESS; AWS_OP_SUCCESS; AWS_OP_SUCCESS; AWS_OP_SUCCESS; AWS_OP_SUCCESS;
               AWS_OP_SUCCESS; AWS_OP_SUCCESS; AWS_OP_ERR AWS_ERROR_LIST_EMPTY; AWS_OP_SUCCESS], L) m'
    /\ list_length L = 6
    /\ exists p, aws_array_list_get_at_ptr L 5 m' = Ret (Ok p) m' /\ bytes_at m' p 2 = Some [1; 2].
Proof.
  assert (valid_run 2 demo_ops []) as Hv by (vm_compute; repeat split; (discriminate || reflexivity)).
  pose proof (array_list_refines_list enc2 2 (mk_allocator true) demo_mem 1 demo_ops
    (fun a => eq_refl) ltac:(lia) ltac:(lia) ltac:(unfold SIZE_MAX; lia) Hv) as H.
  change (plain_run 2 demo_ops [])
    with ([AWS_OP_SUCCESS; AWS_OP_SUCCESS; AWS_OP_SUCCESS; AWS_OP_SUCCESS; AWS_OP_SUCCESS;
           AWS_OP_SUCCESS; AWS_OP_SUCCESS; AWS_OP_ERR AWS_ERROR_LIST_EMPTY; AWS_OP_SUCCESS], [None; None; None; None; None; Some 513]) in H.
  destruct H as (L0 & m0 & L & m' & H1 & H2 & _ & H3 & H4 & _). exists L0, m0, L, m'.
  split; [exact H1 |]. split; [exact H2 |]. split; [exact H3 |]. exact (H4 5%nat 513 eq_refl).
Defined.

(** [aws_array_list_shrink_to_fit] of an empty list with storage forgets the
    storage without releasing it. *)
Theorem shrink_to_fit_empty_leaks (m : mem) (al : aws_allocator) (b : positive) (size isize : Z) :
  0 < size -> 0 <= isize ->
  aws_array_list_shrink_to_fit (mk_list (Some al) size 0 isize (Ptr b 0)) m
  = Ret (AWS_OP_SUCCESS, mk_list (Some al) 0 0 isize NULL) m.
Proof.
  intros Hs Hi. unfold aws_array_list_shrink_to_fit. cbn [alloc list_length item_size current_size].
  rewrite mul_size_checked_spec, Z.mul_0_l by lia. rewrite (proj2 (Z.leb_le 0 SIZE_MAX)) by (unfold SIZE_MAX; lia).
  now rewrite (proj2 (Z.ltb_lt 0 size)) by lia.
Qed.
