(* ===== verification/PriorityQueue.v ===== *)
(** * Priority queues: definitions

    [source/priority_queue.c], over the array lists of items of
    [ArrayItems.v]. [backpointers] is [None] while the list is zeroed; its
    items are node pointers, [None] for NULL. The nodes belong to the caller:
    [nodes] is the memory that holds their [current_index].

    A function returns [None] when it would read a slot that was never set or
    write a node that does not exist. *)

From S2P Require Import Prelude Math ArrayItems.

Local Open Scope Z_scope.

Module PriorityQueue.

Abbreviation node_ptr := (option positive).

Section queue.
Context {A : Type} (pred : A -> A -> Z).

Record aws_priority_queue := mk_queue {
  container : alist A;
  backpointers : option (alist node_ptr);
  nodes : gmap positive Z
}.

Definition set_container (q : aws_priority_queue) (c : alist A) : aws_priority_queue :=
  mk_queue c (backpointers q) (nodes q).
Definition set_backpointers (q : aws_priority_queue) (b : option (alist node_ptr)) : aws_priority_queue :=
  mk_queue (container q) b (nodes q).

(** The size of a pointer to a node. *)
Definition node_ptr_size : Z := 8.

Definition PARENT_OF (index : Z) : Z :=
  if negb (Z.land index 1 =? 0) then Z.shiftr index 1
  else if 1 <? index then Z.shiftr (index - 2) 1 else 0.
Definition LEFT_OF (index : Z) : Z := u64 (u64 (Z.shiftl index 1) + 1).
Definition RIGHT_OF (index : Z) : Z := u64 (u64 (Z.shiftl index 1) + 2).

(** The item a pointer from [aws_array_list_get_at_ptr] points to. *)
Definition item_at {B} (l : alist B) (index : Z) : option B :=
  match a_get_at l index with Ok x => x | Err _ => None end.

(** [if (node) node->current_index = index] *)
Definition set_index (node : node_ptr) (index : Z) (ns : gmap positive Z) : option (gmap positive Z) :=
  match node with
  | None => Some ns
  | Some n => match ns !! n with Some _ => Some (<[n := index]> ns) | None => None end
  end.

(** [data[index]] of the backpointers. *)
Definition slot_at {B} (l : alist B) (index : Z) : option B := mjoin (zlookup (a_slots l) index).

Definition s_swap (q : aws_priority_queue) (a b : Z) : option aws_priority_queue :=
  let q := set_container q (a_swap (container q) a b) in
  match backpointers q with
  | None => Some q
  | Some bps =>
      bp_a ← slot_at bps a;
      bp_b ← slot_at bps b;
      let bps := put_slot (put_slot bps a (Some bp_b)) b (Some bp_a) in
      ns ← set_index bp_b a (nodes q);
      ns ← set_index bp_a b ns;
      Some (mk_queue (container q) (Some bps) ns)
  end.

(** The body of the loop of [s_sift_down] up to the exchange: the index of the
    first of the element at [root] and its children. *)
Definition sift_down_first (q : aws_priority_queue) (root : Z) : option Z :=
  let left := LEFT_OF root in
  let right := RIGHT_OF root in
  root_item ← item_at (container q) root;
  left_item ← item_at (container q) left;
  let '(first, first_item) :=
    if 0 <? pred root_item left_item then (left, left_item) else (root, root_item) in
  if right <? a_len (container q) then
    other_item ← item_at (container q) right;
    Some (if 0 <? pred first_item other_item then right else first)
  else Some first.

(** [while (LEFT_OF(root) < len)]; the result is [did_move]. *)
Fixpoint sift_down_loop (fuel : nat) (q : aws_priority_queue) (root : Z) (did_move : bool)
    : option (bool * aws_priority_queue) :=
  match fuel with
  | O => None
  | S fuel =>
      if LEFT_OF root <? a_len (container q) then
        first ← sift_down_first q root;
        if first =? root then Some (did_move, q)
        else
          q ← s_swap q first root;
          sift_down_loop fuel q first true
      else Some (did_move, q)
  end.

Definition s_sift_down (q : aws_priority_queue) (root : Z) : option (bool * aws_priority_queue) :=
  sift_down_loop (S (Z.to_nat (a_len (container q)))) q root false.

(** [while (index)] *)
Fixpoint sift_up_loop (fuel : nat) (q : aws_priority_queue) (index : Z) (did_move : bool)
    : option (bool * aws_priority_queue) :=
  match fuel with
  | O => None
  | S fuel =>
      if index =? 0 then Some (did_move, q)
      else
        let parent := PARENT_OF index in
        parent_item ← item_at (container q) parent;
        child_item ← item_at (container q) index;
        if 0 <? pred parent_item child_item then
          q ← s_swap q index parent;
          sift_up_loop fuel q parent true
        else Some (did_move, q)
  end.

Definition s_sift_up (q : aws_priority_queue) (index : Z) : option (bool * aws_priority_queue) :=
  sift_up_loop (S (Z.to_nat index)) q index false.

Definition s_sift_either (q : aws_priority_queue) (index : Z) : option aws_priority_queue :=
  if index =? 0 then snd <$> s_sift_down q index
  else
    '(did_move, q) ← s_sift_up q index;
    if did_move : bool then Some q else snd <$> s_sift_down q index.

Definition aws_priority_queue_init_dynamic (default_size item_size : Z) (ns : gmap positive Z)
    : result aws_priority_queue :=
  match a_init_dynamic default_size item_size with
  | Ok c => Ok (mk_queue c None ns)
  | Err e => Err e
  end.

Definition aws_priority_queue_init_static (item_count item_size : Z) (ns : gmap positive Z)
    : aws_priority_queue :=
  mk_queue (a_init_static item_count item_size) None ns.

(** The lists are released and zeroed; the nodes are the caller's. *)
Definition aws_priority_queue_clean_up (q : aws_priority_queue) : aws_priority_queue :=
  mk_queue (mk_alist [] 0 false 0) None (nodes q).

(** [backpointer_update_failed]: take the item out again. *)
Definition undo_push (q : aws_priority_queue) (e : aws_common_error)
    : option (op_result * aws_priority_queue) :=
  Some (AWS_OP_ERR e, set_container q (snd (a_pop_back (container q)))).

(** The backpointer list, created with a NULL for every item when it is first
    needed. *)
Definition need_backpointers (q : aws_priority_queue) (backpointer : node_ptr) (index : Z)
    : result (option (alist node_ptr)) :=
  match backpointer, backpointers q with
  | Some _, None =>
      if a_dynamic (container q) then
        match a_init_dynamic (index + 1) node_ptr_size with
        | Err e => Err e
        | Ok bps => Ok (Some (a_fill bps None))
        end
      else Err AWS_ERROR_UNSUPPORTED_OPERATION
  | _, bps => Ok bps
  end.

Definition aws_priority_queue_push_ref (q : aws_priority_queue) (item : A) (backpointer : node_ptr)
    : option (op_result * aws_priority_queue) :=
  match a_push_back (container q) item with
  | (AWS_OP_ERR e, c) => Some (AWS_OP_ERR e, set_container q c)
  | (AWS_OP_SUCCESS, c) =>
      let q := set_container q c in
      let index := a_len c - 1 in
      match need_backpointers q backpointer index with
      | Err e => undo_push q e
      | Ok bps =>
          let q := set_backpointers q bps in
          let set := match bps with
                     | None => (AWS_OP_SUCCESS, None)
                     | Some bps => let '(rv, bps) := a_set_at bps backpointer index in (rv, Some bps)
                     end in
          let '(rv, bps) := set in
          let q := set_backpointers q bps in
          match rv with
          | AWS_OP_ERR e => undo_push q e
          | AWS_OP_SUCCESS =>
              ns ← set_index backpointer index (nodes q);
              '(_, q) ← s_sift_up (mk_queue (container q) (backpointers q) ns) (a_len c - 1);
              Some (AWS_OP_SUCCESS, q)
          end
      end
  end.

Definition aws_priority_queue_push (q : aws_priority_queue) (item : A) :=
  aws_priority_queue_push_ref q item None.

Definition s_remove_node (q : aws_priority_queue) (item_index : Z)
    : option (result A * aws_priority_queue) :=
  match a_get_at (container q) item_index with
  | Err e => Some (Err e, q)
  | Ok None => None
  | Ok (Some item) =>
      let swap_with := a_len (container q) - 1 in
      q ← (if item_index =? swap_with then Some q else s_swap q item_index swap_with);
      let q := set_container q (snd (a_pop_back (container q))) in
      q ← match backpointers q with
          | None => Some q
          | Some bps =>
              backpointer ← match a_get_at bps swap_with with Ok x => x | Err _ => Some None end;
              ns ← set_index backpointer SIZE_MAX (nodes q);
              Some (mk_queue (container q) (Some (snd (a_pop_back bps))) ns)
          end;
      q ← (if item_index =? swap_with then Some q else s_sift_either q item_index);
      Some (Ok item, q)
  end.

Definition has_backpointer_data (q : aws_priority_queue) : bool :=
  match backpointers q with None => false | Some bps => 0 <? a_size bps end.

Definition aws_priority_queue_remove (q : aws_priority_queue) (node : positive)
    : option (result A * aws_priority_queue) :=
  current_index ← nodes q !! node;
  if negb (current_index <? a_len (container q)) then Some (Err AWS_ERROR_PRIORITY_QUEUE_BAD_NODE, q)
  else if negb (has_backpointer_data q) then Some (Err AWS_ERROR_PRIORITY_QUEUE_BAD_NODE, q)
  else s_remove_node q current_index.

Definition aws_priority_queue_pop (q : aws_priority_queue) : option (result A * aws_priority_queue) :=
  if a_len (container q) =? 0 then Some (Err AWS_ERROR_PRIORITY_QUEUE_EMPTY, q)
  else s_remove_node q 0.

Definition aws_priority_queue_top (q : aws_priority_queue) : option (result A) :=
  if a_len (container q) =? 0 then Some (Err AWS_ERROR_PRIORITY_QUEUE_EMPTY)
  else match a_get_at (container q) 0 with
       | Err e => Some (Err e)
       | Ok x => Ok <$> x
       end.

Definition aws_priority_queue_size (q : aws_priority_queue) : Z := a_len (container q).
Definition aws_priority_queue_capacity (q : aws_priority_queue) : Z :=
  a_size (container q) / a_item_size (container q).

(** [aws_array_list_is_valid]; storage is allocated exactly when there is
    room for an item. *)
Definition a_is_valid {B} (l : alist B) : bool :=
  match aws_mul_size_checked (a_len l) (a_item_size l) with
  | Err _ => false
  | Ok required_size => (required_size <=? a_size l) && negb (a_item_size l =? 0)
  end.

(** Without the deep checks; the list is zeroed when it is [None]. *)
Definition aws_priority_queue_backpointers_valid (q : aws_priority_queue) : bool :=
  match backpointers q with
  | None => true
  | Some bps =>
      let backpointer_list_is_valid := a_is_valid bps && negb (a_size bps =? 0) in
      let backpointer_list_item_size := a_item_size bps =? node_ptr_size in
      let lists_equal_lengths := a_len bps =? a_len (container q) in
      let backpointers_non_zero_current_size := 0 <? a_size bps in
      backpointer_list_is_valid
      && (backpointer_list_item_size && lists_equal_lengths && backpointers_non_zero_current_size)
  end.

Definition aws_priority_queue_is_valid (q : aws_priority_queue) : bool :=
  a_is_valid (container q) && aws_priority_queue_backpointers_valid q.

End queue.
Arguments aws_priority_queue : clear implicits.

End PriorityQueue.
