(* ===== verification/PriorityQueueSpec.v ===== *)
(** * Binary heaps in arrays, and the sifting loops of the priority queue

    The order of a binary heap stored in a list, and what one exchange of the
    sifting loops does to it. [par] is the parent of an index. *)

From S2P Require Import Prelude Math ArrayItems PriorityQueue.
Local Open Scope nat_scope.

Definition par (i : nat) : nat := (i - 1) / 2.

Lemma par_lt i : 0 < i -> par i < i.
Proof. intros H. unfold par. apply Nat.Div0.div_lt_upper_bound. lia. Qed.

Lemma par_children i k : 0 < i -> par i = k <-> i = 2 * k + 1 \/ i = 2 * k + 2.
Proof.
  intros H. unfold par. pose proof (Nat.div_mod_eq (i - 1) 2). pose proof (Nat.mod_upper_bound (i - 1) 2). lia.
Qed.

(** The elements at [i] and [j] change places. *)
Definition exch {B} (i j : nat) (es : list B) : list B :=
  match es !! i, es !! j with
  | Some x, Some y => <[j := x]> (<[i := y]> es)
  | _, _ => es
  end.

Section exch.
Context {B : Type}.
Implicit Types (es : list B).

Lemma exch_eq i j es x y :
  es !! i = Some x -> es !! j = Some y -> exch i j es = <[j := x]> (<[i := y]> es).
Proof. intros Hx Hy. unfold exch. now rewrite Hx, Hy. Qed.

Lemma length_exch i j es : length (exch i j es) = length es.
Proof. unfold exch. destruct (es !! i), (es !! j); auto. now rewrite !length_insert. Qed.

Lemma exch_lookup i j es k :
  i < length es -> j < length es ->
  exch i j es !! k = es !! (if decide (k = i) then j else if decide (k = j) then i else k).
Proof.
  intros Hi Hj. destruct (lookup_lt_is_Some_2 es i Hi) as [x Hx].
  destruct (lookup_lt_is_Some_2 es j Hj) as [y Hy]. rewrite (exch_eq i j es x y Hx Hy).
  destruct (decide (k = j)) as [-> | Hkj].
  - rewrite list_lookup_insert_eq by (rewrite length_insert; lia).
    destruct (decide (j = i)); [congruence |]. now rewrite Hx.
  - rewrite list_lookup_insert_ne by congruence. destruct (decide (k = i)) as [-> | Hki].
    + rewrite list_lookup_insert_eq by lia. now rewrite Hy.
    + now rewrite list_lookup_insert_ne by congruence.
Qed.

Lemma exch_perm i j es : i < length es -> j < length es -> exch i j es ≡ₚ es.
Proof.
  intros Hi Hj. destruct (lookup_lt_is_Some_2 es i Hi) as [x Hx].
  destruct (lookup_lt_is_Some_2 es j Hj) as [y Hy]. rewrite (exch_eq i j es x y Hx Hy).
  destruct (decide (i = j)) as [-> | Hne].
  - rewrite Hx in Hy. injection Hy as <-. now rewrite !list_insert_id by (rewrite ?list_insert_id; auto).
  - symmetry. apply Permutation_inj. split; [now rewrite !length_insert |].
    exists (fun k => if decide (k = i) then j else if decide (k = j) then i else k). split.
    + intros a b. repeat case_decide; congruence.
    + intros k. rewrite <- (exch_eq i j es x y Hx Hy), exch_lookup by auto.
      f_equal. repeat case_decide; congruence.
Qed.
End exch.

(** ** Order *)

Section order.
Context {A N : Type} (le : A -> A -> Prop).
Hypothesis le_trans : forall a b c, le a b -> le b c -> le a c.
Implicit Types (es : list (A * N)).

Definition at_le es (i j : nat) : Prop :=
  forall x y, es !! i = Some x -> es !! j = Some y -> le x.1 y.1.

Definition heap es : Prop := forall i, 0 < i -> at_le es (par i) i.

(** Everything is in order but what concerns the element at [k]. *)
Definition hole es (k : nat) : Prop :=
  (forall i, 0 < i -> i <> k -> par i <> k -> at_le es (par i) i)
  /\ (forall i, 0 < i -> par i = k -> 0 < k -> at_le es (par k) i).

(** ... and its children; ... and its parent. *)
Definition up es k : Prop := hole es k /\ forall i, 0 < i -> par i = k -> at_le es k i.
Definition down es k : Prop := hole es k /\ (0 < k -> at_le es (par k) k).

Lemma at_le_trans es i j k y : es !! j = Some y -> at_le es i j -> at_le es j k -> at_le es i k.
Proof using le_trans. intros Hj H1 H2 x z Hx Hz. apply (le_trans _ y.1); eauto. Qed.

Lemma up_heap es k : up es k -> (0 < k -> at_le es (par k) k) -> heap es.
Proof using.
  intros [[H1 H2] H3] Hk i Hi. destruct (decide (i = k)) as [-> | Hne]; [auto |].
  destruct (decide (par i = k)) as [<- | Hp]; auto.
Qed.

Lemma down_heap es k : down es k -> (forall i, 0 < i -> par i = k -> at_le es k i) -> heap es.
Proof using. intros [H1 H2] H3. apply (up_heap es k); [split; auto | auto]. Qed.

(** [at_le] after an exchange, in terms of the list before it. *)
Lemma at_le_exch es a b i j :
  a < length es -> b < length es ->
  at_le (exch a b es) i j
  <-> at_le es (if decide (i = a) then b else if decide (i = b) then a else i)
               (if decide (j = a) then b else if decide (j = b) then a else j).
Proof using. intros Ha Hb. unfold at_le. now rewrite !exch_lookup by auto. Qed.

Lemma sift_up_step es k :
  hole es k -> 0 < k < length es -> at_le es k (par k) -> up (exch k (par k) es) (par k).
Proof using le_trans.
  intros [H1 H2] Hk Hle. pose proof (par_lt k) as Hp. set (p := par k) in *.
  destruct (lookup_lt_is_Some_2 es p ltac:(lia)) as [x Hx].
  assert (forall i, 0 < i -> i <> k -> par i = p -> at_le es p i) as Hsib
    by (intros i Hi Hne Ep; rewrite <- Ep; apply H1; auto; lia).
  assert (0 < p -> at_le es (par p) p) as Hpp
    by (intros H; pose proof (par_lt p H); apply H1; auto; lia).
  split; [split |].
  - intros i Hi Hip Hpi. rewrite at_le_exch by lia. pose proof (par_lt i Hi).
    assert (i <> k) by (intros ->; auto).
    repeat case_decide; try congruence; try lia; [apply H2 | apply H1]; auto; lia.
  - intros i Hi Ep H0. rewrite at_le_exch by lia. pose proof (par_lt p H0). pose proof (par_lt i Hi).
    repeat case_decide; try congruence; try lia; [apply Hpp; lia |].
    apply (at_le_trans es _ p _ x); auto.
  - intros i Hi Ep. rewrite at_le_exch by lia. pose proof (par_lt i Hi).
    repeat case_decide; try congruence; try lia; [exact Hle |].
    apply (at_le_trans es _ p _ x); auto.
Qed.

Lemma sift_down_step es k c :
  down es k -> 0 < c < length es -> par c = k -> at_le es c k ->
  (forall i, 0 < i -> par i = k -> at_le es c i) -> down (exch c k es) c.
Proof using.
  intros [[H1 H2] H3] Hc Ep Hle Hmin. pose proof (par_lt c ltac:(lia)).
  split; [split |].
  - intros i Hi Hic Hpi. rewrite at_le_exch by lia. pose proof (par_lt i Hi).
    repeat case_decide; try congruence; try lia; subst; auto; try (apply H1; auto; lia).
    apply H2; auto; lia.
  - intros i Hi Epi _. rewrite at_le_exch by lia. pose proof (par_lt i Hi).
    repeat case_decide; try congruence; try lia. rewrite <- Epi at 1. apply H1; auto; lia.
  - intros _. rewrite at_le_exch by lia. repeat case_decide; try congruence; try lia. exact Hle.
Qed.

(** The root is least. *)
Lemma heap_root es i : heap es -> (forall a, le a a) -> at_le es 0 i.
Proof using le_trans.
  intros H Hrefl. induction i as [i IH] using lt_wf_ind. destruct (decide (i = 0)) as [-> | Hi].
  - intros x y Hx Hy. rewrite Hx in Hy. injection Hy as <-. apply Hrefl.
  - intros x y Hx Hy. pose proof (par_lt i ltac:(lia)) as Hp.
    destruct (lookup_lt_is_Some_2 es (par i)) as [z Hz]; [apply lookup_lt_Some in Hy; lia |].
    apply (le_trans _ z.1); [now apply (IH (par i) Hp) | now apply (H i ltac:(lia))].
Qed.

(** Taking the last element out, and putting the last element in another's
    place. *)
Lemma heap_take es n : heap es -> heap (take n es).
Proof using.
  intros H i Hi x y Hx Hy. apply lookup_take_Some in Hx as [Hx _], Hy as [Hy _]. exact (H i Hi x y Hx Hy).
Qed.

Lemma hole_replaced es k last :
  heap es -> length es = S last -> k < last -> hole (take last (exch k last es)) k.
Proof using le_trans.
  intros H Hl Hk.
  assert (forall i j, i <> k -> j <> k -> at_le es i j -> at_le (take last (exch k last es)) i j) as Hin.
  { intros i j Hi Hj Hle x y Hx Hy. apply lookup_take_Some in Hx as [Hx Hxl], Hy as [Hy Hyl].
    rewrite exch_lookup in Hx, Hy by lia. repeat case_decide; try lia. eauto. }
  split.
  - intros i Hi Hik Hpk. apply Hin; auto.
  - intros i Hi Ep H0. destruct (lookup_lt_is_Some_2 es k ltac:(lia)) as [z Hz].
    pose proof (par_lt i Hi). pose proof (par_lt k H0).
    apply Hin; try lia. apply (at_le_trans es _ k _ z); auto. rewrite <- Ep. auto.
Qed.

(** An element added at the end. *)
Lemma up_appended es x : heap es -> up (es ++ [x]) (length es).
Proof using.
  intros H.
  assert (forall i j, i <> length es -> j <> length es -> at_le es i j -> at_le (es ++ [x]) i j) as Hin.
  { intros i j Hi Hj Hle a b Ha Hb. apply lookup_app_Some in Ha as [Ha | [Hge Ha]], Hb as [Hb | [Hge' Hb]]; eauto;
      apply lookup_lt_Some in Ha, Hb; cbn in *; lia. }
  assert (forall i, 0 < i -> par i = length es -> forall j, at_le (es ++ [x]) j i) as Hout.
  { intros i Hi Ep j a b _ Hb. pose proof (par_lt i Hi). apply lookup_lt_Some in Hb.
    rewrite length_app in Hb. cbn in Hb. lia. }
  split; [split |]; auto.
Qed.
End order.

(** ** Priority queues

    [pq_rep q es] says that the queue stores the entries [es] (item and node)
    in this order, and that every node knows its index. The operations keep
    the entries in heap order and change them as a bag: [aws_priority_queue_pop]
    takes out a least entry, [aws_priority_queue_remove] the entry of the
    given node. *)

Import PriorityQueue.

Local Open Scope Z_scope.

Lemma PARENT_OF_spec i : PARENT_OF (Z.of_nat i) = Z.of_nat (par i).
Proof.
  unfold PARENT_OF, par. change 1 with (2 ^ 1 - 1) at 1. rewrite land_pow2_mask by lia.
  change (2 ^ 1) with 2. rewrite !Z.shiftr_div_pow2 by lia. change (2 ^ 1) with 2.
  rewrite Nat2Z.inj_div. change (Z.of_nat 2) with 2.
  destruct (Z.eqb_spec (Z.of_nat i mod 2) 0); cbn [negb]; [destruct (Z.ltb_spec 1 (Z.of_nat i)) |];
    Z.div_mod_to_equations; lia.
Qed.

Lemma LEFT_OF_spec i : Z.of_nat i < 2 ^ 62 -> LEFT_OF (Z.of_nat i) = Z.of_nat (2 * i + 1).
Proof.
  intros H. unfold LEFT_OF. rewrite Z.shiftl_mul_pow2 by lia.
  rewrite (u64_small (Z.of_nat i * 2 ^ 1)), u64_small by (unfold is_u64; lia). lia.
Qed.

Lemma RIGHT_OF_spec i : Z.of_nat i < 2 ^ 62 -> RIGHT_OF (Z.of_nat i) = Z.of_nat (2 * i + 2).
Proof.
  intros H. unfold RIGHT_OF. rewrite Z.shiftl_mul_pow2 by lia.
  rewrite (u64_small (Z.of_nat i * 2 ^ 1)), u64_small by (unfold is_u64; lia). lia.
Qed.

(** ** Array lists of known items *)

Lemma items_lookup {B} (l : alist B) i :
  alist_ok l -> (i < Z.to_nat (a_len l))%nat -> items l !! i = a_slots l !! i.
Proof. intros Ho Hi. unfold items. now apply lookup_take_lt. Qed.

Lemma item_at_eq {B} (l : alist B) i x :
  alist_ok l -> items l !! i = Some (Some x) -> item_at l (Z.of_nat i) = Some x.
Proof.
  intros Ho Hx. pose proof (lookup_lt_Some _ _ _ Hx) as Hlt. pose proof (zlength_items l Ho) as Hz.
  unfold zlength in Hz. unfold item_at, a_get_at. rewrite (proj2 (Z.ltb_lt _ _)) by lia.
  rewrite Nat2Z.id, <- items_lookup, Hx by (auto; lia). reflexivity.
Qed.

Lemma slot_at_eq {B} (l : alist B) i x :
  alist_ok l -> items l !! i = Some (Some x) -> slot_at l (Z.of_nat i) = Some x.
Proof.
  intros Ho Hx. pose proof (lookup_lt_Some _ _ _ Hx) as Hlt. pose proof (zlength_items l Ho) as Hz.
  unfold zlength in Hz. rewrite items_lookup in Hx by (auto; lia).
  unfold slot_at. assert (zlookup (a_slots l) (Z.of_nat i) = Some (Some x)) as -> by
    (apply zlookup_Some; split; [lia | now rewrite Nat2Z.id]). reflexivity.
Qed.

Section spec.
Context {A : Type} (pred : A -> A -> Z).
Implicit Types (q : aws_priority_queue A) (es : list (A * node_ptr)).

Record pq_rep q es : Prop := {
  pr_ok : alist_ok (container q);
  pr_items : items (container q) = map (fun e => Some e.1) es;
  pr_bps : match backpointers q with
           | None => Forall (fun e => e.2 = None) es
           | Some b => alist_ok b /\ items b = map (fun e => Some e.2) es
                       /\ a_dynamic b = true /\ a_item_size b = node_ptr_size
           end;
  pr_nodes : forall i x n, es !! i = Some (x, Some n) -> nodes q !! n = Some (Z.of_nat i)
}.

(** Nodes that are not in the queue keep their value. *)
Definition nodes_kept es q q' : Prop :=
  forall n, (forall x, (x, Some n) ∉ es) -> nodes q' !! n = nodes q !! n.

Lemma pr_len q es : pq_rep q es -> a_len (container q) = Z.of_nat (length es).
Proof.
  intros H. rewrite <- (zlength_items _ (pr_ok _ _ H)), (pr_items _ _ H). unfold zlength. now rewrite length_map.
Qed.

Lemma nodes_kept_trans es es' q1 q2 q3 :
  es' ≡ₚ es -> nodes_kept es q1 q2 -> nodes_kept es' q2 q3 -> nodes_kept es q1 q3.
Proof. intros Hp H1 H2 n Hn. rewrite H2, H1; auto. intros x. rewrite Hp. apply Hn. Qed.

Lemma pq_item q es i x : pq_rep q es -> es !! i = Some x -> item_at (container q) (Z.of_nat i) = Some x.1.
Proof.
  intros H Hx. apply item_at_eq; [apply (pr_ok _ _ H) |].
  rewrite (pr_items _ _ H), list_lookup_fmap, Hx. reflexivity.
Qed.

(** ** Exchanging two entries *)

Lemma items_exch {B} (l : alist B) (f : A * node_ptr -> B) es i j :
  alist_ok l -> items l = map (fun e => Some (f e)) es -> (i < length es)%nat -> (j < length es)%nat ->
  alist_ok (a_swap l (Z.of_nat i) (Z.of_nat j))
  /\ items (a_swap l (Z.of_nat i) (Z.of_nat j)) = map (fun e => Some (f e)) (exch i j es).
Proof.
  intros Ho He Hi Hj. pose proof (zlength_items l Ho) as Hz. rewrite He in Hz. unfold zlength in Hz.
  rewrite length_map in Hz.
  destruct (swap_ok l (Z.of_nat i) (Z.of_nat j) Ho) as (l' & E & Ho' & Hit & _); [lia | lia |].
  injection E as <-. split; [exact Ho' |]. rewrite Hit. cbn [list_step]. rewrite !Nat2Z.id, He.
  destruct (lookup_lt_is_Some_2 es i Hi) as [x Hx]. destruct (lookup_lt_is_Some_2 es j Hj) as [y Hy].
  rewrite !list_lookup_fmap, Hx, Hy. cbn. rewrite (exch_eq i j es x y Hx Hy).
  now rewrite !list_fmap_insert.
Qed.

Lemma set_index_ok node v ns :
  (forall n, node = Some n -> is_Some (ns !! n)) ->
  exists ns', set_index node v ns = Some ns'
    /\ (forall n, node = Some n -> ns' !! n = Some v)
    /\ (forall n, node <> Some n -> ns' !! n = ns !! n).
Proof.
  intros H. destruct node as [n |]; cbn.
  - destruct (H n eq_refl) as [o ->]. eexists. split; [reflexivity |]. split.
    + intros n' [= ->]. apply lookup_insert_eq.
    + intros n' Hne. apply lookup_insert_ne. congruence.
  - exists ns. split_and!; auto. discriminate.
Qed.

Lemma swap_slots_eq {B} (l : alist B) a b x y :
  slot_at l a = Some x -> slot_at l b = Some y ->
  put_slot (put_slot l a (Some y)) b (Some x) = a_swap l a b.
Proof.
  unfold slot_at, a_swap. destruct (zlookup (a_slots l) a) as [[]|], (zlookup (a_slots l) b) as [[]|]; cbn;
    try discriminate. now intros [= ->] [= ->].
Qed.

Lemma swap_shape {B} (l : alist B) a b :
  a_dynamic (a_swap l a b) = a_dynamic l /\ a_item_size (a_swap l a b) = a_item_size l.
Proof. unfold a_swap. repeat case_match; auto. Qed.

Lemma s_swap_ok q es i j :
  pq_rep q es -> (i < length es)%nat -> (j < length es)%nat -> i <> j ->
  exists q', s_swap q (Z.of_nat i) (Z.of_nat j) = Some q' /\ pq_rep q' (exch i j es) /\ nodes_kept es q q'.
Proof.
  intros H Hi Hj Hne. destruct (lookup_lt_is_Some_2 es i Hi) as [[x nx] Hx].
  destruct (lookup_lt_is_Some_2 es j Hj) as [[y ny] Hy].
  destruct (items_exch (container q) fst es i j (pr_ok _ _ H) (pr_items _ _ H) Hi Hj) as [Hok Hit].
  pose proof (pr_bps _ _ H) as Hb. unfold s_swap. cbn [backpointers set_container nodes container].
  destruct (backpointers q) as [bps |] eqn:Eb.
  2: { eexists. split; [reflexivity |]. split; [| intros n _; reflexivity].
       constructor; cbn [container backpointers nodes set_container]; auto.
       - rewrite Eb. now rewrite (exch_perm i j es Hi Hj).
       - intros k a n Hk. exfalso. rewrite exch_lookup in Hk by auto. apply list_elem_of_lookup_2 in Hk.
         rewrite Forall_forall in Hb. now specialize (Hb _ Hk). }
  destruct Hb as (Hbo & Hbi & Hbd & Hbs).
  destruct (items_exch bps snd es i j Hbo Hbi Hi Hj) as [Hbo' Hbi'].
  assert (slot_at bps (Z.of_nat i) = Some nx) as Sx
    by (apply slot_at_eq; auto; rewrite Hbi, list_lookup_fmap, Hx; reflexivity).
  assert (slot_at bps (Z.of_nat j) = Some ny) as Sy
    by (apply slot_at_eq; auto; rewrite Hbi, list_lookup_fmap, Hy; reflexivity).
  rewrite Sx, Sy. cbn [mbind option_bind]. rewrite (swap_slots_eq _ _ _ _ _ Sx Sy).
  assert (forall n, nx = Some n -> nodes q !! n = Some (Z.of_nat i)) as Nx
    by (intros n ->; now apply (pr_nodes _ _ H i x)).
  assert (forall n, ny = Some n -> nodes q !! n = Some (Z.of_nat j)) as Ny
    by (intros n ->; now apply (pr_nodes _ _ H j y)).
  destruct (set_index_ok ny (Z.of_nat i) (nodes q)) as (ns1 & E1 & S1 & K1); [intros n E; rewrite (Ny n E); eauto |].
  destruct (set_index_ok nx (Z.of_nat j) ns1) as (ns2 & E2 & S2 & K2).
  { intros n E. destruct (decide (ny = Some n)) as [E' | E']; [rewrite (S1 n E') | rewrite (K1 n E'), (Nx n E)]; eauto. }
  rewrite E1. cbn [mbind option_bind]. rewrite E2. cbn [mbind option_bind].
  eexists. split; [reflexivity |]. split.
  - constructor; cbn [container backpointers nodes]; auto.
    + destruct (swap_shape bps (Z.of_nat i) (Z.of_nat j)). split_and!; auto; congruence.
    + intros k a n Hk. rewrite exch_lookup in Hk by auto.
      assert (forall k', es !! k' = Some (a, Some n) -> nodes q !! n = Some (Z.of_nat k')) as Hn
        by (intros k'; apply (pr_nodes _ _ H)).
      revert Hk. destruct (decide (k = i)) as [-> | Hki]; [| destruct (decide (k = j)) as [-> | Hkj]]; intros Hk.
      * pose proof (eq_trans (eq_sym Hy) Hk) as Ek. injection Ek as -> ->. rewrite K2; [auto |]. intros ->.
        pose proof (Ny n eq_refl) as E. rewrite (Nx n eq_refl) in E. injection E as E. lia.
      * pose proof (eq_trans (eq_sym Hx) Hk) as Ek. injection Ek as -> ->. auto.
      * specialize (Hn k Hk). rewrite K2, K1; auto; intros ->;
          [rewrite (Ny n eq_refl) in Hn | rewrite (Nx n eq_refl) in Hn]; injection Hn as Hn; lia.
  - intros n Hn. cbn [nodes]. rewrite K2, K1; auto; intros ->;
      [apply (Hn y) | apply (Hn x)]; eapply list_elem_of_lookup_2; eassumption.
Qed.

(** ** Sifting *)

(** The comparison function is a total preorder. *)
Definition le (a b : A) : Prop := pred a b <= 0.
Hypothesis pred_total : forall a b, 0 < pred a b -> pred b a <= 0.
Hypothesis pred_trans : forall a b c, pred a b <= 0 -> pred b c <= 0 -> pred a c <= 0.

Lemma le_refl a : le a a.
Proof using pred_total. unfold le. destruct (Z.le_gt_cases (pred a a) 0) as [H | H]; [exact H |]. now apply pred_total. Qed.

(** [q'] stores a permutation of [es] and leaves other nodes alone. *)
Definition sifted q es q' es' : Prop := pq_rep q' es' /\ es' ≡ₚ es /\ nodes_kept es q q'.

Lemma sifted_step q es i j q1 q' es' :
  pq_rep q1 (exch i j es) -> nodes_kept es q q1 -> (i < length es)%nat -> (j < length es)%nat ->
  sifted q1 (exch i j es) q' es' -> sifted q es q' es'.
Proof using.
  intros H1 Hk Hi Hj (H' & Hp & Hk'). pose proof (exch_perm i j es Hi Hj) as He.
  split_and!; [exact H' | now rewrite Hp |]. now apply (nodes_kept_trans es (exch i j es) q q1).
Qed.

Lemma sift_up_loop_spec fuel : forall q es k moved,
  pq_rep q es -> (k < length es)%nat -> (k < fuel)%nat -> hole le es k ->
  exists moved' q' es', sift_up_loop pred fuel q (Z.of_nat k) moved = Some (moved', q')
    /\ sifted q es q' es'
    /\ ((moved' = moved /\ q' = q /\ es' = es /\ ((0 < k)%nat -> at_le le es (par k) k))
        \/ (moved' = true /\ heap le es')).
Proof using pred_total pred_trans.
  induction fuel as [| fuel IH]; intros q es k moved H Hk Hf Hh; [lia |]. cbn [sift_up_loop].
  assert (sifted q es q es) as Hrefl by (split_and!; auto; intros n _; reflexivity).
  destruct (Z.eqb_spec (Z.of_nat k) 0) as [E | E].
  { exists moved, q, es. split_and!; auto. left. split_and!; auto. lia. }
  pose proof (par_lt k ltac:(lia)) as Hp. rewrite PARENT_OF_spec.
  destruct (lookup_lt_is_Some_2 es (par k) ltac:(lia)) as [x Hx].
  destruct (lookup_lt_is_Some_2 es k Hk) as [y Hy].
  rewrite (pq_item q es _ x H Hx), (pq_item q es _ y H Hy). cbn [mbind option_bind].
  destruct (Z.ltb_spec 0 (pred x.1 y.1)) as [Hgt | Hle].
  - destruct (s_swap_ok q es k (par k) H Hk ltac:(lia) ltac:(lia)) as (q1 & -> & H1 & Hk1).
    cbn [mbind option_bind].
    assert (up le (exch k (par k) es) (par k)) as Hup.
    { apply sift_up_step; auto; [lia |]. intros a b Ha Hb. rewrite Hy in Ha. rewrite Hx in Hb.
      injection Ha as <-. injection Hb as <-. now apply pred_total. }
    destruct (IH q1 _ (par k) true H1) as (moved' & q' & es' & E' & Hs & Hr);
      [rewrite length_exch; lia | lia | apply Hup |].
    exists moved', q', es'. split; [exact E' |]. split; [apply (sifted_step q es k (par k) q1); auto; lia |].
    right. destruct Hr as [(-> & -> & -> & Hpar) | Hr]; [| exact Hr].
    split; [reflexivity |]. now apply (up_heap le _ (par k)).
  - exists moved, q, es. split_and!; auto. left. split_and!; auto.
    intros _ a b Ha Hb. rewrite Hx in Ha. rewrite Hy in Hb. injection Ha as <-. injection Hb as <-. exact Hle.
Qed.

(** The index the body of [s_sift_down] picks. *)
Lemma pick_first q es k :
  pq_rep q es -> (2 * k + 1 < length es)%nat -> Z.of_nat (length es) < 2 ^ 62 ->
  exists c, sift_down_first pred q (Z.of_nat k) = Some (Z.of_nat c)
    /\ (c = k \/ c = 2 * k + 1 \/ c = 2 * k + 2)%nat /\ (c < length es)%nat
    /\ at_le le es c k /\ (forall i, (0 < i)%nat -> par i = k -> at_le le es c i).
Proof using pred_total pred_trans.
  intros H Hl Hmax. unfold sift_down_first. rewrite LEFT_OF_spec, RIGHT_OF_spec by lia. rewrite (pr_len q es H).
  destruct (lookup_lt_is_Some_2 es k ltac:(lia)) as [x Hx].
  destruct (lookup_lt_is_Some_2 es (2 * k + 1) Hl) as [y Hy].
  rewrite (pq_item q es _ x H Hx), (pq_item q es _ y H Hy). cbn [mbind option_bind].
  assert (forall c z, es !! c = Some z -> le z.1 x.1 -> le z.1 y.1 ->
    (forall w, es !! (2 * k + 2)%nat = Some w -> le z.1 w.1) ->
    at_le le es c k /\ (forall i, (0 < i)%nat -> par i = k -> at_le le es c i)) as Hmin.
  { intros c z Hc Hzx Hzy Hzw. split.
    - intros a b Ha Hb. rewrite Hc in Ha. rewrite Hx in Hb. injection Ha as <-. injection Hb as <-. exact Hzx.
    - intros i Hi [-> | ->]%par_children a b Ha Hb; auto; rewrite Hc in Ha; injection Ha as <-;
        [rewrite Hy in Hb; injection Hb as <-; exact Hzy | now apply Hzw]. }
  destruct (Z.ltb_spec (Z.of_nat (2 * k + 2)) (Z.of_nat (length es))) as [Hr | Hr].
  - destruct (lookup_lt_is_Some_2 es (2 * k + 2) ltac:(lia)) as [w Hw].
    assert (forall z : A * node_ptr, le z.1 w.1 -> forall w', es !! (2 * k + 2)%nat = Some w' -> le z.1 w'.1) as Hww
      by (intros z Hz w' Hw'; rewrite Hw in Hw'; now injection Hw' as <-).
    unfold le in *. destruct (Z.ltb_spec 0 (pred x.1 y.1)) as [Hxy | Hxy]; rewrite (pq_item q es _ w H Hw);
      cbn [mbind option_bind].
    + destruct (Z.ltb_spec 0 (pred y.1 w.1)); [exists (2 * k + 2)%nat | exists (2 * k + 1)%nat];
        (split; [reflexivity |]; split; [lia |]; split; [lia |]).
      * apply (Hmin _ w Hw); eauto using le_refl. apply Hww, le_refl.
      * apply (Hmin _ y Hy); eauto. apply le_refl.
    + destruct (Z.ltb_spec 0 (pred x.1 w.1)); [exists (2 * k + 2)%nat | exists k];
        (split; [reflexivity |]; split; [lia |]; split; [lia |]).
      * apply (Hmin _ w Hw); eauto. apply Hww, le_refl.
      * apply (Hmin _ x Hx); eauto. apply le_refl.
  - assert (forall w : A * node_ptr, es !! (2 * k + 2)%nat = Some w -> False) as Hno
      by (intros w Hw; apply lookup_lt_Some in Hw; lia).
    destruct (Z.ltb_spec 0 (pred x.1 y.1)) as [Hxy | Hxy]; [exists (2 * k + 1)%nat | exists k];
      (split; [reflexivity |]; split; [lia |]; split; [lia |]).
    + apply (Hmin _ y Hy); [now apply pred_total | apply le_refl | intros w Hw; now destruct (Hno w)].
    + apply (Hmin _ x Hx); [apply le_refl | exact Hxy | intros w Hw; now destruct (Hno w)].
Qed.

Lemma sift_down_loop_spec fuel : forall q es k moved,
  pq_rep q es -> Z.of_nat (length es) < 2 ^ 62 -> (k < length es)%nat -> (length es < fuel + k)%nat ->
  down le es k ->
  exists moved' q' es', sift_down_loop pred fuel q (Z.of_nat k) moved = Some (moved', q')
    /\ sifted q es q' es' /\ heap le es'.
Proof using pred_total pred_trans.
  induction fuel as [| fuel IH]; intros q es k moved H Hmax Hk Hf Hd; [lia |]. cbn [sift_down_loop].
  assert (sifted q es q es) as Hrefl by (split_and!; auto; intros n _; reflexivity).
  rewrite LEFT_OF_spec, (pr_len q es H) by lia.
  destruct (Z.ltb_spec (Z.of_nat (2 * k + 1)) (Z.of_nat (length es))) as [Hl | Hl].
  2: { exists moved, q, es. split_and!; auto. apply (down_heap le es k Hd).
       intros i Hi [-> | ->]%par_children a b _ Hb; auto; apply lookup_lt_Some in Hb; lia. }
  destruct (pick_first q es k H ltac:(lia) Hmax) as (c & -> & Hc & Hcl & Hck & Hmin). cbn [mbind option_bind].
  destruct (Z.eqb_spec (Z.of_nat c) (Z.of_nat k)) as [E | E].
  { assert (c = k) as -> by lia. exists moved, q, es. split_and!; auto. now apply (down_heap le es k). }
  assert (par c = k) as Hpc by (apply par_children; lia).
  destruct (s_swap_ok q es c k H Hcl Hk ltac:(lia)) as (q1 & -> & H1 & Hk1). cbn [mbind option_bind].
  destruct (IH q1 (exch c k es) c true H1) as (moved' & q' & es' & E' & Hs & Hh);
    try (rewrite length_exch; lia).
  { apply sift_down_step; auto. lia. }
  exists moved', q', es'. split; [exact E' |]. split; [| exact Hh]. now apply (sifted_step q es c k q1).
Qed.

Lemma sift_up_spec q es k :
  pq_rep q es -> (k < length es)%nat -> up le es k ->
  exists moved q' es', s_sift_up pred q (Z.of_nat k) = Some (moved, q') /\ sifted q es q' es' /\ heap le es'.
Proof using pred_total pred_trans.
  intros H Hk Hu. unfold s_sift_up. rewrite Nat2Z.id.
  destruct (sift_up_loop_spec (S k) q es k false H Hk ltac:(lia) (proj1 Hu)) as (moved & q' & es' & E & Hs & Hr).
  exists moved, q', es'. split_and!; try apply Hs; auto.
  destruct Hr as [(-> & -> & -> & Hp) | [_ Hh]]; [now apply (up_heap le es k) | exact Hh].
Qed.

Lemma sift_down_spec q es k :
  pq_rep q es -> Z.of_nat (length es) < 2 ^ 62 -> (k < length es)%nat -> down le es k ->
  exists moved q' es', s_sift_down pred q (Z.of_nat k) = Some (moved, q') /\ sifted q es q' es' /\ heap le es'.
Proof using pred_total pred_trans.
  intros H Hmax Hk Hd. unfold s_sift_down. rewrite (pr_len q es H), Nat2Z.id.
  apply (sift_down_loop_spec (S (length es))); auto. lia.
Qed.

Lemma sift_either_spec q es k :
  pq_rep q es -> Z.of_nat (length es) < 2 ^ 62 -> (k < length es)%nat -> hole le es k ->
  exists q' es', s_sift_either pred q (Z.of_nat k) = Some q' /\ sifted q es q' es' /\ heap le es'.
Proof using pred_total pred_trans.
  intros H Hmax Hk Hh. unfold s_sift_either. destruct (Z.eqb_spec (Z.of_nat k) 0) as [E | E].
  - destruct (sift_down_spec q es k H Hmax Hk) as (moved & q' & es' & -> & Hs); [split; [auto | lia] |].
    exists q', es'. auto.
  - unfold s_sift_up. rewrite Nat2Z.id.
    destruct (sift_up_loop_spec (S k) q es k false H Hk ltac:(lia) Hh) as (moved & q' & es' & -> & Hs & Hr).
    cbn [mbind option_bind]. destruct Hr as [(-> & -> & -> & Hp) | [-> Hheap]]; [| exists q', es'; auto].
    destruct (sift_down_spec q es k H Hmax Hk) as (moved & q' & es' & -> & Hs'); [split; auto |].
    exists q', es'. auto.
Qed.
End spec.
