(* ===== verification/PriorityQueueOps.v ===== *)
(** * Priority queues: the operations

    Pushing, popping and removing, from the sifting lemmas of
    [PriorityQueueSpec.v]. *)

From S2P Require Import Prelude Math ArrayItems PriorityQueue PriorityQueueSpec.
Import PriorityQueue.

Local Open Scope Z_scope.

Section ops.
Context {A : Type} (pred : A -> A -> Z).
Implicit Types (q : aws_priority_queue A) (es : list (A * node_ptr)).
Hypothesis pred_total : forall a b, 0 < pred a b -> pred b a <= 0.
Hypothesis pred_trans : forall a b c, pred a b <= 0 -> pred b c <= 0 -> pred a c <= 0.
Abbreviation le := (le pred).

Lemma node_unique q es i j a b n :
  pq_rep q es -> es !! i = Some (a, Some n) -> es !! j = Some (b, Some n) -> i = j.
Proof using.
  intros H Hi Hj. pose proof (pr_nodes _ _ H i a n Hi) as E. rewrite (pr_nodes _ _ H j b n Hj) in E.
  injection E as E. lia.
Qed.

(** ** Removing *)

(** Taking the last entry off the container and the backpointers. *)
Definition drop_last q (last : Z) : option (aws_priority_queue A) :=
  let q := set_container q (snd (a_pop_back (container q))) in
  match backpointers q with
  | None => Some q
  | Some bps =>
      backpointer ← match a_get_at bps last with Ok x => x | Err _ => Some None end;
      ns ← set_index backpointer SIZE_MAX (nodes q);
      Some (mk_queue (container q) (Some (snd (a_pop_back bps))) ns)
  end.

Lemma pop_back_map {B} (l : alist B) (f : A * node_ptr -> B) es x :
  alist_ok l -> items l = map (fun e => Some (f e)) (es ++ [x]) ->
  alist_ok (snd (a_pop_back l)) /\ items (snd (a_pop_back l)) = map (fun e => Some (f e)) es
  /\ a_dynamic (snd (a_pop_back l)) = a_dynamic l /\ a_item_size (snd (a_pop_back l)) = a_item_size l.
Proof using.
  intros Ho Hi. pose proof (zlength_items l Ho) as Hz. rewrite Hi in Hz. unfold zlength in Hz.
  rewrite length_map, length_app in Hz. cbn in Hz.
  pose proof (pop_back_ok l Ho) as H. unfold step_ok in H. cbn [list_error a_step list_step] in H.
  rewrite (proj2 (Z.ltb_lt _ _)) in H by lia. destruct H as (l' & E & Ho' & Hit & Hd & Hs). rewrite E.
  cbn [snd]. split_and!; auto. rewrite Hit, Hi, map_app.
  rewrite take_app_length'; [reflexivity |]. rewrite length_app, !length_map. cbn. lia.
Qed.

Lemma drop_last_ok q es x :
  pq_rep q (es ++ [x]) ->
  exists q', drop_last q (Z.of_nat (length es)) = Some q' /\ pq_rep q' es
    /\ (forall n, x.2 = Some n -> nodes q' !! n = Some SIZE_MAX)
    /\ (forall n, x.2 <> Some n -> nodes q' !! n = nodes q !! n).
Proof using.
  intros H. destruct x as [a node]. destruct (pop_back_map (container q) fst es (a, node) (pr_ok _ _ H) (pr_items _ _ H))
    as (Hc & Hi & _). pose proof (pr_bps _ _ H) as Hb. pose proof (pr_nodes _ _ H) as Hn.
  assert ((es ++ [(a, node)]) !! length es = Some (a, node)) as Hx by (now rewrite lookup_app_r, Nat.sub_diag by lia).
  assert (forall i e, es !! i = Some e -> (es ++ [(a, node)]) !! i = Some e) as Hin
    by (intros i e He; rewrite lookup_app_l; [exact He | now apply lookup_lt_Some in He]).
  unfold drop_last. cbn [backpointers set_container nodes container]. destruct (backpointers q) as [bps |] eqn:Eb.
  - destruct Hb as (Hbo & Hbi & Hbd & Hbs). destruct (pop_back_map bps snd es (a, node) Hbo Hbi) as (Ho' & Hi' & Hd' & Hs').
    assert (item_at bps (Z.of_nat (length es)) = Some node) as Hit
      by (apply item_at_eq; auto; rewrite Hbi, list_lookup_fmap, Hx; reflexivity).
    unfold item_at in Hit. destruct (a_get_at bps (Z.of_nat (length es))) as [o |]; [| discriminate]. subst o.
    cbn [mbind option_bind].
    destruct (set_index_ok node SIZE_MAX (nodes q)) as (ns & E & S1 & K1).
    { intros n ->. rewrite (Hn _ _ _ Hx). eauto. }
    rewrite E. cbn [mbind option_bind]. eexists. split; [reflexivity |]. cbn [nodes snd]. split_and!; auto.
    constructor; cbn [container backpointers nodes]; auto; [split_and!; congruence |].
    intros i y n Hy. rewrite K1; [now apply (Hn i y n), Hin |]. intros ->.
    pose proof (node_unique q _ _ _ _ _ _ H (Hin _ _ Hy) Hx). apply lookup_lt_Some in Hy. lia.
  - rewrite Forall_app in Hb. destruct Hb as [Hb1 Hb2]. assert (node = None) as -> by (now inversion Hb2).
    eexists. split; [reflexivity |]. cbn [nodes set_container snd]. split_and!; auto; [| discriminate].
    constructor; cbn [container backpointers nodes set_container]; auto; [now rewrite Eb |].
    intros i y n Hy. now apply (Hn i y n), Hin.
Qed.

Lemma last_split es k x : es !! k = Some x -> S k = length es -> es = take k es ++ [x].
Proof using. intros Hx Hl. rewrite <- (take_S_r es k x Hx). symmetry. apply take_ge. lia. Qed.

(** What removing the entry [x] does. *)
Definition removed q es x q' es' : Prop :=
  pq_rep q' es' /\ heap le es' /\ x :: es' ≡ₚ es
  /\ (forall n, x.2 = Some n -> nodes q' !! n = Some SIZE_MAX) /\ nodes_kept es q q'.

Lemma remove_node_spec q es k x :
  pq_rep q es -> heap le es -> Z.of_nat (length es) < 2 ^ 62 -> es !! k = Some x ->
  exists q' es', s_remove_node pred q (Z.of_nat k) = Some (Ok x.1, q') /\ removed q es x q' es'.
Proof using pred_total pred_trans.
  intros H Hh Hmax Hx. pose proof (lookup_lt_Some _ _ _ Hx) as Hk.
  destruct (length es) as [| last] eqn:El; [lia |].
  unfold s_remove_node. pose proof (pq_item q es k x H Hx) as Hit. unfold item_at in Hit.
  destruct (a_get_at (container q) (Z.of_nat k)) as [o |]; [| discriminate]. subst o.
  rewrite (pr_len q es H), El. replace (Z.of_nat (S last) - 1) with (Z.of_nat last) by lia.
  set (es1 := if decide (k = last) then es else exch k last es).
  assert (exists q1, (if Z.of_nat k =? Z.of_nat last then Some q else s_swap q (Z.of_nat k) (Z.of_nat last)) = Some q1
    /\ pq_rep q1 es1 /\ nodes_kept es q q1 /\ es1 !! last = Some x /\ length es1 = S last /\ es1 ≡ₚ es)
    as (q1 & -> & H1 & Hk1 & Hx1 & Hl1 & Hp1).
  { unfold es1. destruct (decide (k = last)) as [-> | Hne].
    - rewrite Z.eqb_refl. exists q. split_and!; auto. now intros n.
    - rewrite (proj2 (Z.eqb_neq _ _)) by lia.
      destruct (s_swap_ok q es k last H ltac:(lia) ltac:(lia) Hne) as (q1 & E & H1 & Hk1).
      exists q1. rewrite length_exch, exch_lookup by lia. rewrite decide_False, decide_True by auto.
      split_and!; auto. apply exch_perm; lia. }
  cbn [mbind option_bind]. set (es2 := take last es1). pose proof (last_split es1 last x Hx1 ltac:(lia)) as Es1.
  fold es2 in Es1. assert (length es2 = last) as Hl2 by (unfold es2; rewrite length_take; lia).
  rewrite Es1 in H1. destruct (drop_last_ok q1 es2 x H1) as (q2 & E2 & H2 & Hrem & Hkeep).
  rewrite Hl2 in E2. unfold drop_last in E2. cbv zeta in E2. cbn [nodes set_container container backpointers] in *.
  rewrite E2. cbn [mbind option_bind].
  assert (x :: es2 ≡ₚ es) as Hp2 by (rewrite <- Hp1, Es1; apply Permutation_cons_append).
  assert (nodes_kept es q q2) as Hk2.
  { intros n Hn. rewrite Hkeep, Hk1; auto. intros E. apply (Hn x.1). rewrite <- Hp2. rewrite <- E.
    destruct x. apply list_elem_of_here. }
  assert (forall n e, x.2 = Some n -> (e, Some n) ∉ es2) as Hgone.
  { intros n e E (i & Hi)%list_elem_of_lookup_1. destruct x as [a node]. cbn in E. subst node.
    assert ((es2 ++ [(a, Some n)]) !! length es2 = Some (a, Some n)) as Ha by (now rewrite lookup_app_r, Nat.sub_diag by lia).
    pose proof (lookup_lt_Some _ _ _ Hi). pose proof (node_unique q1 _ i (length es2) e a n H1) as Hu.
    rewrite lookup_app_l in Hu by lia. specialize (Hu Hi Ha). lia. }
  destruct (decide (k = last)) as [-> | Hne].
  - rewrite Z.eqb_refl. exists q2, es2. split; [reflexivity |]. split_and!; auto.
    unfold es2, es1. now apply heap_take.
  - rewrite (proj2 (Z.eqb_neq _ _)) by lia.
    assert (hole le es2 k) as Hhole by (unfold es2, es1; apply hole_replaced; auto; try lia; exact pred_trans).
    destruct (sift_either_spec pred pred_total pred_trans q2 es2 k H2 ltac:(lia) ltac:(lia) Hhole)
      as (q3 & es3 & -> & (H3 & Hp3 & Hk3) & Hh3). cbn [mbind option_bind].
    exists q3, es3. split; [reflexivity |]. split_and!; auto.
    + now rewrite Hp3.
    + intros n E. rewrite Hk3; auto.
    + intros n Hn. rewrite Hk3, Hk2; auto. intros y Hy. apply (Hn y). rewrite <- Hp2. now apply list_elem_of_further.
Qed.

(** ** Pushing *)

(** Storing the node of a new last entry. *)
Definition store_node (b : option (alist node_ptr)) (node : node_ptr) (index : Z)
    : op_result * option (alist node_ptr) :=
  match b with
  | None => (AWS_OP_SUCCESS, None)
  | Some bps => let '(rv, bps) := a_set_at bps node index in (rv, Some bps)
  end.

Definition bps_rep (b : option (alist node_ptr)) es : Prop :=
  match b with
  | None => Forall (fun e => e.2 = None) es
  | Some b => alist_ok b /\ items b = map (fun e => Some e.2) es
              /\ a_dynamic b = true /\ a_item_size b = node_ptr_size
  end.

(** A list already in use takes the node at its end. *)
Lemma store_in_use b node es a :
  bps_rep (Some b) es -> Z.of_nat (length es) < 2 ^ 60 ->
  exists b', store_node (Some b) node (Z.of_nat (length es)) = (AWS_OP_SUCCESS, Some b')
    /\ bps_rep (Some b') (es ++ [(a, node)]).
Proof using.
  intros (Ho & Hi & Hd & Hs) Hmax. pose proof (zlength_items b Ho) as Hz. rewrite Hi in Hz. unfold zlength in Hz.
  rewrite length_map in Hz. pose proof (set_at_ok b node (Z.of_nat (length es)) Ho ltac:(lia)) as H.
  unfold grow_error in H. rewrite Hd, Hs in H. unfold node_ptr_size, SIZE_MAX in H.
  rewrite (proj2 (Z.ltb_ge _ _)) in H by lia. cbn [negb andb] in H.
  destruct H as (b' & E & Ho' & Hi' & Hd' & Hs'). cbn [store_node]. rewrite E. exists b'. split; [reflexivity |].
  split; [exact Ho' |]. split; [| now rewrite Hd', Hs']. rewrite Hi'. cbn [list_step]. rewrite Hi, Nat2Z.id.
  rewrite take_ge, drop_ge by (rewrite length_map; lia). now rewrite map_app.
Qed.

(** A list created for the first node. *)
Lemma store_first node es a :
  Forall (fun e => e.2 = None) es -> Z.of_nat (length es) < 2 ^ 60 ->
  exists b b', a_init_dynamic (Z.of_nat (length es) + 1) node_ptr_size = Ok b
    /\ store_node (Some (a_fill b None)) node (Z.of_nat (length es)) = (AWS_OP_SUCCESS, Some b')
    /\ bps_rep (Some b') (es ++ [(a, node)]).
Proof using.
  intros Hn Hmax. unfold a_init_dynamic. rewrite mul_size_checked_spec by (unfold node_ptr_size; lia).
  rewrite (proj2 (Z.leb_le _ _)) by (unfold node_ptr_size, SIZE_MAX; lia). eexists.
  set (b := mk_alist _ 0 true node_ptr_size). set (n := length es) in *.
  assert (a_fill b None = mk_alist (replicate (S n) (Some None)) 0 true node_ptr_size) as Ef.
  { unfold a_fill, with_slots, b. cbn [a_slots a_len a_dynamic a_item_size]. rewrite length_replicate.
    do 2 f_equal. lia. }
  rewrite Ef. cbn [store_node]. unfold a_set_at.
  assert (alist_ok (mk_alist (replicate (S n) (Some (None : node_ptr))) 0 true node_ptr_size)) as Ho.
  { constructor; unfold a_size, zlength; cbn [a_len a_slots a_item_size]; rewrite ?length_replicate;
      unfold node_ptr_size, SIZE_MAX; lia. }
  assert (a_ensure_capacity (mk_alist (replicate (S n) (Some (None : node_ptr))) 0 true node_ptr_size) (Z.of_nat n)
    = (AWS_OP_SUCCESS, mk_alist (replicate (S n) (Some None)) 0 true node_ptr_size)) as Ec.
  { unfold a_ensure_capacity. cbn [a_item_size]. rewrite add_size_checked_spec by lia.
    rewrite (proj2 (Z.leb_le _ _)) by (unfold SIZE_MAX; lia).
    rewrite mul_size_checked_spec by (unfold node_ptr_size; lia).
    rewrite (proj2 (Z.leb_le _ _)) by (unfold node_ptr_size, SIZE_MAX; lia).
    unfold a_size, zlength. cbn [a_slots a_item_size]. rewrite length_replicate.
    now rewrite (proj2 (Z.ltb_ge _ _)) by (unfold node_ptr_size; lia). }
  rewrite Ec. eexists. split; [reflexivity |]. split; [reflexivity |].
  change (a_len (put_slot _ _ _)) with 0. rewrite (proj2 (Z.leb_le _ _)) by lia.
  cbn [bps_rep]. split_and!; try reflexivity.
  - apply ok_with_len; [now apply ok_put |]. rewrite slots_put, zlength_insert. unfold zlength. cbn [a_slots].
    rewrite length_replicate. lia.
  - unfold items. cbn [with_len put_slot with_slots a_len a_slots].
    replace (Z.to_nat (Z.of_nat n + 1)) with (S n) by lia. rewrite Nat2Z.id.
    rewrite (take_S_r _ n (Some node)) by (apply list_lookup_insert_eq; rewrite length_replicate; lia).
    rewrite take_insert_ge, take_replicate, map_app by lia. cbn [map snd]. f_equal.
    rewrite Nat.min_l by lia. apply list_eq. intros i. unfold n. rewrite list_lookup_fmap.
    destruct (es !! i) as [[x nd] |] eqn:Ei; cbn.
    + pose proof (lookup_lt_Some _ _ _ Ei). rewrite lookup_replicate_2 by lia.
      rewrite Forall_forall in Hn. apply list_elem_of_lookup_2 in Ei. specialize (Hn _ Ei). cbn in Hn. now subst.
    + apply lookup_ge_None in Ei. apply lookup_ge_None. rewrite length_replicate. lia.
Qed.

(** Why a push is refused. *)
Definition push_refused q (node : node_ptr) : option aws_common_error :=
  match grow_error (container q) (a_len (container q)) AWS_ERROR_LIST_EXCEEDS_MAX_SIZE with
  | Some e => Some e
  | None =>
      match node, backpointers q with
      | Some _, None => if a_dynamic (container q) then None else Some AWS_ERROR_UNSUPPORTED_OPERATION
      | _, _ => None
      end
  end.

Lemma container_pushed q es a :
  pq_rep q es -> grow_error (container q) (a_len (container q)) AWS_ERROR_LIST_EXCEEDS_MAX_SIZE = None ->
  exists c, a_push_back (container q) a = (AWS_OP_SUCCESS, c) /\ alist_ok c
    /\ items c = map (fun e => Some e.1) es ++ [Some a] /\ a_len c = Z.of_nat (length es) + 1
    /\ a_dynamic c = a_dynamic (container q).
Proof using.
  intros H E. pose proof (push_back_ok (container q) a (pr_ok _ _ H)) as Hp. unfold step_ok in Hp.
  cbn [list_error a_step list_step] in Hp. rewrite E in Hp. destruct Hp as (c & Ec & Ho & Hi & Hd & _).
  rewrite (pr_items _ _ H) in Hi. exists c. split_and!; auto.
  rewrite <- (zlength_items c Ho), Hi. unfold zlength. rewrite length_app, length_map. cbn. lia.
Qed.

Lemma undo_push_ok q es a c :
  pq_rep q es -> alist_ok c -> items c = map (fun e => Some e.1) es ++ [Some a] ->
  pq_rep (set_container q (snd (a_pop_back c))) es.
Proof using.
  intros H Ho Hi. destruct (pop_back_map c fst es (a, None) Ho) as (Ho' & Hi' & _); [now rewrite map_app |].
  destruct H as [_ _ Hb Hn]. constructor; auto.
Qed.

(** With the node stored, sifting the new entry up. *)
Lemma finish_push q es a node c b :
  pq_rep q es -> heap le es -> alist_ok c -> items c = map (fun e => Some e.1) es ++ [Some a] ->
  bps_rep b (es ++ [(a, node)]) ->
  (forall n, node = Some n -> is_Some (nodes q !! n) /\ forall x, (x, Some n) ∉ es) ->
  exists q' es',
    (ns ← set_index node (Z.of_nat (length es)) (nodes q);
     '(_, q) ← s_sift_up pred (mk_queue c b ns) (Z.of_nat (length es));
     Some (AWS_OP_SUCCESS, q)) = Some (AWS_OP_SUCCESS, q')
    /\ pq_rep q' es' /\ heap le es' /\ es' ≡ₚ (a, node) :: es
    /\ forall n, node <> Some n -> (forall x, (x, Some n) ∉ es) -> nodes q' !! n = nodes q !! n.
Proof using pred_total pred_trans.
  intros H Hh Ho Hi Hb Hnode.
  destruct (set_index_ok node (Z.of_nat (length es)) (nodes q)) as (ns & -> & S1 & K1);
    [intros n E; apply (Hnode n E) |]. cbn [mbind option_bind].
  assert (pq_rep (mk_queue c b ns) (es ++ [(a, node)])) as H1.
  { constructor; cbn [container backpointers nodes]; auto; [now rewrite Hi, map_app |].
    intros i x n Hx. apply lookup_app_Some in Hx as [Hx | [Hge Hx]].
    - rewrite K1; [now apply (pr_nodes _ _ H i x n) |]. intros E. destruct (Hnode n E) as [_ Hnin].
      apply (Hnin x). now apply list_elem_of_lookup_2 in Hx.
    - pose proof (lookup_lt_Some _ _ _ Hx) as Hlt. cbn in Hlt. assert (i = length es) as -> by lia.
      rewrite Nat.sub_diag in Hx. injection Hx as <- ->. auto. }
  destruct (sift_up_spec pred pred_total pred_trans _ _ (length es) H1) as (moved & q' & es' & -> & (H2 & Hp & Hk) & Hh');
    [rewrite length_app; cbn; lia | now apply up_appended |].
  cbn [mbind option_bind]. exists q', es'. split_and!; auto.
  - rewrite Hp. symmetry. apply Permutation_cons_append.
  - intros n Hne Hnin. rewrite Hk; [cbn [nodes]; auto |]. intros x.
    rewrite elem_of_app, list_elem_of_singleton. intros [Hx | [= _ E]]; [now apply (Hnin x) | auto].
Qed.

Lemma push_ref_spec q es a node :
  pq_rep q es -> heap le es -> Z.of_nat (length es) < 2 ^ 60 ->
  (forall n, node = Some n -> is_Some (nodes q !! n) /\ forall x, (x, Some n) ∉ es) ->
  match push_refused q node with
  | Some e => exists q', aws_priority_queue_push_ref pred q a node = Some (AWS_OP_ERR e, q')
                /\ pq_rep q' es /\ nodes q' = nodes q
  | None => exists q' es', aws_priority_queue_push_ref pred q a node = Some (AWS_OP_SUCCESS, q')
              /\ pq_rep q' es' /\ heap le es' /\ es' ≡ₚ (a, node) :: es
              /\ forall n, node <> Some n -> (forall x, (x, Some n) ∉ es) -> nodes q' !! n = nodes q !! n
  end.
Proof using pred_total pred_trans.
  intros H Hh Hmax Hnode. unfold push_refused, aws_priority_queue_push_ref.
  destruct (grow_error _ _ _) as [e |] eqn:Eg.
  { pose proof (push_back_ok (container q) a (pr_ok _ _ H)) as Hp. unfold step_ok in Hp.
    cbn [list_error a_step] in Hp. rewrite Eg in Hp. rewrite Hp. eexists. split; [reflexivity |].
    split; [| reflexivity]. destruct q. exact H. }
  destruct (container_pushed q es a H Eg) as (c & -> & Ho & Hi & Hl & Hd).
  rewrite Hl. replace (Z.of_nat (length es) + 1 - 1) with (Z.of_nat (length es)) by lia.
  pose proof (pr_bps _ _ H) as Hb. unfold need_backpointers. cbn [backpointers set_container container].
  destruct (backpointers q) as [b |] eqn:Eb.
  - destruct (store_in_use b node es a Hb Hmax) as (b' & Es & Hb').
    unfold store_node in Es.
    destruct (a_set_at b node (Z.of_nat (length es))) as [rv b1] eqn:E1. injection Es as -> ->.
    destruct node as [n |]; cbn [nodes set_container set_backpointers container backpointers];
      rewrite E1; apply (finish_push q es a _ c (Some b')); auto.
  - destruct node as [n |].
    + rewrite Hd. destruct (a_dynamic (container q)).
      * destruct (store_first (Some n) es a Hb Hmax) as (b & b' & -> & Es & Hb'). unfold store_node in Es.
        destruct (a_set_at (a_fill b None) (Some n) (Z.of_nat (length es))) as [rv b1] eqn:E1.
        injection Es as -> ->. now apply (finish_push q es a (Some n) c (Some b')).
      * eexists. split; [reflexivity |]. split; [| reflexivity].
        apply (undo_push_ok q es a c); auto.
    + apply (finish_push q es a None c None); auto. cbn. apply Forall_app. split; [exact Hb | now constructor].
Qed.
End ops.
