(* ===== verification/PriorityQueueClaims.v ===== *)
(** * Priority queues: theorems

    What a caller of the priority queue relies on, for any comparison function
    that is a total preorder. *)

From Stdlib Require Import Sorting.Sorted.
From S2P Require Import Prelude Math ArrayItems PriorityQueue PriorityQueueSpec PriorityQueueOps.
Import PriorityQueue.

Local Open Scope Z_scope.

(** The comparison function orders the items. *)
Definition total_preorder {A} (pred : A -> A -> Z) : Prop :=
  (forall a b, 0 < pred a b -> pred b a <= 0)
  /\ (forall a b c, pred a b <= 0 -> pred b c <= 0 -> pred a c <= 0).

(** A well-formed queue with the entries [es]; the bound is far beyond any
    address space. *)
Definition queue_of {A} (pred : A -> A -> Z) (q : aws_priority_queue A) (es : list (A * node_ptr)) : Prop :=
  pq_rep q es /\ heap (le pred) es /\ Z.of_nat (length es) < 2 ^ 60.

(** ** Examples for the witnesses *)

Definition demo_queue : aws_priority_queue Z :=
  mk_queue (mk_alist [Some 1; Some 5; Some 3] 3 true 8)
    (Some (mk_alist [Some None; Some (Some 1%positive); Some (Some 2%positive)] 3 true 8))
    {[1%positive := 1; 2%positive := 2; 3%positive := SIZE_MAX]}.

Definition demo_entries : list (Z * node_ptr) := [(1, None); (5, Some 1%positive); (3, Some 2%positive)].

Lemma sub_preorder : total_preorder Z.sub.
Proof. split; intros; lia. Qed.

Lemma demo_queue_ok : queue_of Z.sub demo_queue demo_entries.
Proof.
  split; [| split].
  - constructor; cbn.
    + constructor; cbn; unfold a_size, zlength, SIZE_MAX; cbn; lia.
    + reflexivity.
    + split_and!; auto. constructor; cbn; unfold a_size, zlength, SIZE_MAX; cbn; lia.
    + intros [| [| [| i]]] x n H; cbn in H; try discriminate; injection H as _ <-; reflexivity.
  - intros [| [| [| i]]] Hi x y Hx Hy; cbn in Hx, Hy; try discriminate; [lia | |];
      injection Hx as <-; injection Hy as <-; unfold le; cbn; lia.
  - cbn. lia.
Qed.

Lemma queue_push_ok {A} (pred : A -> A -> Z) (q : aws_priority_queue A)
    (es : list (A * node_ptr)) (a : A) (node : node_ptr) :
  total_preorder pred -> queue_of pred q es -> Z.of_nat (length es) + 1 < 2 ^ 60 ->
  (forall n, node = Some n -> is_Some (nodes q !! n) /\ forall x, (x, Some n) ∉ es) ->
  match push_refused q node with
  | Some e => exists q', aws_priority_queue_push_ref pred q a node = Some (AWS_OP_ERR e, q')
                /\ queue_of pred q' es /\ nodes q' = nodes q
  | None => exists q' es', aws_priority_queue_push_ref pred q a node = Some (AWS_OP_SUCCESS, q')
              /\ queue_of pred q' es' /\ es' ≡ₚ (a, node) :: es
              /\ forall n, node <> Some n -> (forall x, (x, Some n) ∉ es) -> nodes q' !! n = nodes q !! n
  end.
Proof.
  intros [Ht Htr] (Hr & Hh & Hm) Hmax Hn.
  pose proof (push_ref_spec pred Ht Htr q es a node Hr Hh Hm Hn) as H.
  destruct (push_refused q node) as [e |].
  - destruct H as (q' & E & Hr' & En). exists q'. split_and!; auto. now split.
  - destruct H as (q' & es' & E & Hr' & Hh' & Hp & Hk). exists q', es'. split_and!; auto.
    split; [exact Hr' |]. split; [exact Hh' |]. apply Permutation_length in Hp. cbn in Hp. lia.
Qed.

(** [aws_priority_queue_push_ref] on a well-formed queue terminates. It adds
    exactly the given entry, keeps the heap order and the invariant that every
    node knows the index of its entry, and touches no node outside the queue;
    or it is refused, with the reported reason, and the queue holds what it
    held (a full static container, an overflow, or a node given to a static
    queue). *)
Theorem priority_queue_push_correct {A} (pred : A -> A -> Z) (q : aws_priority_queue A)
    (es : list (A * node_ptr)) (a : A) (node : node_ptr) :
  total_preorder pred -> queue_of pred q es -> Z.of_nat (length es) + 1 < 2 ^ 60 ->
  (forall n, node = Some n -> is_Some (nodes q !! n) /\ forall x, (x, Some n) ∉ es) ->
  match push_refused q node with
  | Some e => exists q', aws_priority_queue_push_ref pred q a node = Some (AWS_OP_ERR e, q')
                /\ queue_of pred q' es /\ nodes q' = nodes q
  | None => exists q' es', aws_priority_queue_push_ref pred q a node = Some (AWS_OP_SUCCESS, q')
              /\ queue_of pred q' es' /\ es' ≡ₚ (a, node) :: es
              /\ forall n, node <> Some n -> (forall x, (x, Some n) ∉ es) -> nodes q' !! n = nodes q !! n
  end.
Proof. exact (queue_push_ok pred q es a node). Qed.

Lemma priority_queue_push_correct_witness :
  exists q' es', aws_priority_queue_push_ref Z.sub demo_queue 0 (Some 3%positive) = Some (AWS_OP_SUCCESS, q')
    /\ queue_of Z.sub q' es' /\ es' ≡ₚ (0, Some 3%positive) :: demo_entries.
Proof.
  pose proof (priority_queue_push_correct Z.sub demo_queue demo_entries 0 (Some 3%positive) sub_preorder demo_queue_ok
    ltac:(cbn; lia)) as H.
  destruct H as (q' & es' & E & Hq & Hp & _).
  - intros n [= <-]. split; [eexists; reflexivity |]. intros x Hx.
    unfold demo_entries in Hx. rewrite !elem_of_cons in Hx.
    destruct Hx as [Hx | [Hx | [Hx | Hx]]]; try discriminate. now apply not_elem_of_nil in Hx.
  - exists q', es'. auto.
Defined.

Lemma queue_pop_ok {A} (pred : A -> A -> Z) (q : aws_priority_queue A)
    (es : list (A * node_ptr)) :
  total_preorder pred -> queue_of pred q es ->
  match es with
  | [] => aws_priority_queue_pop pred q = Some (Err AWS_ERROR_PRIORITY_QUEUE_EMPTY, q)
          /\ aws_priority_queue_top q = Some (Err AWS_ERROR_PRIORITY_QUEUE_EMPTY)
  | x :: _ =>
      aws_priority_queue_top q = Some (Ok x.1)
      /\ exists q' es', aws_priority_queue_pop pred q = Some (Ok x.1, q')
         /\ queue_of pred q' es' /\ x :: es' ≡ₚ es
         /\ Forall (fun e => pred x.1 e.1 <= 0) es
         /\ (forall n, x.2 = Some n -> nodes q' !! n = Some SIZE_MAX)
         /\ (forall n, (forall y, (y, Some n) ∉ es) -> nodes q' !! n = nodes q !! n)
  end.
Proof.
  intros [Ht Htr] (Hr & Hh & Hm). pose proof (pr_len q es Hr) as Hl.
  unfold aws_priority_queue_pop, aws_priority_queue_top. rewrite Hl. destruct es as [| x es]; [auto |].
  rewrite (proj2 (Z.eqb_neq _ _)) by (cbn; lia).
  pose proof (pq_item q (x :: es) 0 x Hr eq_refl) as Hit. unfold item_at in Hit.
  change (Z.of_nat 0) with 0 in Hit. split. { destruct (a_get_at (container q) 0); [now rewrite Hit | discriminate]. }
  destruct (remove_node_spec pred Ht Htr q (x :: es) 0 x Hr Hh ltac:(lia) eq_refl)
    as (q' & es' & E & Hr' & Hh' & Hp & Hn & Hk).
  exists q', es'. split_and!; auto.
  - split; [exact Hr' |]. split; [exact Hh' |]. apply Permutation_length in Hp. cbn in *. lia.
  - apply Forall_lookup. intros i e He.
    exact (heap_root (le pred) Htr (x :: es) i Hh (le_refl pred Ht) x e eq_refl He).
Qed.

(** C3: [aws_priority_queue_pop] on a well-formed queue terminates. On an empty
    queue it reports AWS_ERROR_PRIORITY_QUEUE_EMPTY; otherwise it returns an
    item that precedes or equals every item in the queue, takes exactly its
    entry out, marks its node as removed, and keeps the queue well formed and
    the other nodes correct. [aws_priority_queue_top] points to that item. *)
Theorem priority_queue_pop_correct {A} (pred : A -> A -> Z) (q : aws_priority_queue A)
    (es : list (A * node_ptr)) :
  total_preorder pred -> queue_of pred q es ->
  match es with
  | [] => aws_priority_queue_pop pred q = Some (Err AWS_ERROR_PRIORITY_QUEUE_EMPTY, q)
          /\ aws_priority_queue_top q = Some (Err AWS_ERROR_PRIORITY_QUEUE_EMPTY)
  | x :: _ =>
      aws_priority_queue_top q = Some (Ok x.1)
      /\ exists q' es', aws_priority_queue_pop pred q = Some (Ok x.1, q')
         /\ queue_of pred q' es' /\ x :: es' ≡ₚ es
         /\ Forall (fun e => pred x.1 e.1 <= 0) es
         /\ (forall n, x.2 = Some n -> nodes q' !! n = Some SIZE_MAX)
         /\ (forall n, (forall y, (y, Some n) ∉ es) -> nodes q' !! n = nodes q !! n)
  end.
Proof. exact (queue_pop_ok pred q es). Qed.

Lemma priority_queue_pop_correct_witness :
  exists q' es', aws_priority_queue_pop Z.sub demo_queue = Some (Ok 1, q')
    /\ queue_of Z.sub q' es' /\ (1, None) :: es' ≡ₚ demo_entries.
Proof.
  destruct (priority_queue_pop_correct Z.sub demo_queue demo_entries sub_preorder demo_queue_ok)
    as (_ & q' & es' & E & Hq & Hp & _).
  exists q', es'. auto.
Defined.

Lemma queue_remove_ok {A} (pred : A -> A -> Z) (q : aws_priority_queue A)
    (es : list (A * node_ptr)) (a : A) (n : positive) :
  total_preorder pred -> queue_of pred q es -> (a, Some n) ∈ es ->
  exists q' es', aws_priority_queue_remove pred q n = Some (Ok a, q')
    /\ queue_of pred q' es' /\ (a, Some n) :: es' ≡ₚ es
    /\ nodes q' !! n = Some SIZE_MAX
    /\ (forall n', (forall y, (y, Some n') ∉ es) -> nodes q' !! n' = nodes q !! n')
    /\ aws_priority_queue_remove pred q' n = Some (Err AWS_ERROR_PRIORITY_QUEUE_BAD_NODE, q').
Proof.
  intros [Ht Htr] (Hr & Hh & Hm) Hin. apply list_elem_of_lookup_1 in Hin as [k Hk].
  pose proof (lookup_lt_Some _ _ _ Hk) as Hlt.
  destruct (remove_node_spec pred Ht Htr q es k (a, Some n) Hr Hh ltac:(lia) Hk)
    as (q' & es' & E & Hr' & Hh' & Hp & Hn & Hkept).
  pose proof (Hn n eq_refl) as Hmax.
  assert (length es' < length es)%nat as Hshort by (rewrite <- Hp; cbn; lia).
  exists q', es'. split_and!; auto.
  - unfold aws_priority_queue_remove. rewrite (pr_nodes _ _ Hr k a n Hk). cbn [mbind option_bind].
    rewrite (pr_len q es Hr), (proj2 (Z.ltb_lt _ _)) by lia. cbn [negb].
    assert (has_backpointer_data q = true) as ->; [| exact E].
    unfold has_backpointer_data. pose proof (pr_bps _ _ Hr) as Hb. destruct (backpointers q) as [b |].
    + destruct Hb as (Ho & Hi & _). pose proof (zlength_items b Ho) as Hz. rewrite Hi in Hz.
      unfold zlength in Hz. rewrite length_map in Hz. destruct Ho as [H1 H2 _].
      apply Z.ltb_lt. unfold a_size, zlength in *. nia.
    + rewrite Forall_lookup in Hb. specialize (Hb k _ Hk). discriminate.
  - split; [exact Hr' |]. split; [exact Hh' |]. lia.
  - unfold aws_priority_queue_remove. rewrite Hmax. cbn [mbind option_bind].
    rewrite (pr_len q' es' Hr'), (proj2 (Z.ltb_ge _ _)) by (unfold SIZE_MAX; lia). reflexivity.
Qed.

(** [aws_priority_queue_remove] with the node of an entry of a well-formed
    queue terminates, returns the item that was pushed with that node, takes
    exactly that entry out, sets the node's index to SIZE_MAX, and keeps the
    queue well formed; a second removal with the same node is refused with
    AWS_ERROR_PRIORITY_QUEUE_BAD_NODE and changes nothing. *)
Theorem priority_queue_remove_correct {A} (pred : A -> A -> Z) (q : aws_priority_queue A)
    (es : list (A * node_ptr)) (a : A) (n : positive) :
  total_preorder pred -> queue_of pred q es -> (a, Some n) ∈ es ->
  exists q' es', aws_priority_queue_remove pred q n = Some (Ok a, q')
    /\ queue_of pred q' es' /\ (a, Some n) :: es' ≡ₚ es
    /\ nodes q' !! n = Some SIZE_MAX
    /\ (forall n', (forall y, (y, Some n') ∉ es) -> nodes q' !! n' = nodes q !! n')
    /\ aws_priority_queue_remove pred q' n = Some (Err AWS_ERROR_PRIORITY_QUEUE_BAD_NODE, q').
Proof. exact (queue_remove_ok pred q es a n). Qed.

Lemma priority_queue_remove_correct_witness :
  exists q' es', aws_priority_queue_remove Z.sub demo_queue 1 = Some (Ok 5, q')
    /\ queue_of Z.sub q' es' /\ (5, Some 1%positive) :: es' ≡ₚ demo_entries.
Proof.
  destruct (priority_queue_remove_correct Z.sub demo_queue demo_entries 5 1 sub_preorder demo_queue_ok)
    as (q' & es' & E & Hq & Hp & _).
  - unfold demo_entries. rewrite !elem_of_cons. auto.
  - exists q', es'. auto.
Defined.

(** ** Draining *)

(** Pop until the queue is empty. *)
Fixpoint drain {A} (pred : A -> A -> Z) (fuel : nat) (q : aws_priority_queue A) : option (list A) :=
  match fuel with
  | O => None
  | S fuel =>
      match aws_priority_queue_pop pred q with
      | Some (Ok a, q') => out ← drain pred fuel q'; Some (a :: out)
      | Some (Err AWS_ERROR_PRIORITY_QUEUE_EMPTY, _) => Some []
      | _ => None
      end
  end.

Lemma drain_spec {A} (pred : A -> A -> Z) es : forall q n,
  total_preorder pred -> queue_of pred q es -> length es = n ->
  exists out, drain pred (S n) q = Some out /\ out ≡ₚ map fst es
    /\ StronglySorted (fun a b => pred a b <= 0) out.
Proof.
  intros q n Hpre. revert q es. induction n as [| n IH]; intros q es (Hr & Hh & Hm) Hn.
  - destruct es; [| discriminate]. exists []. cbn [drain]. unfold aws_priority_queue_pop.
    rewrite (pr_len q [] Hr). split_and!; auto. constructor.
  - destruct es as [| x es]; [discriminate |]. destruct Hpre as [Ht Htr].
    destruct (remove_node_spec pred Ht Htr q (x :: es) 0 x Hr Hh ltac:(lia) eq_refl)
      as (q' & es' & E & Hr' & Hh' & Hp & _).
    assert (length es' = n) as Hl by (apply Permutation_length in Hp; cbn in *; lia).
    destruct (IH q' es') as (out & Ed & Hpo & Hs); [split_and!; auto; cbn in *; lia | exact Hl |].
    exists (x.1 :: out). split_and!.
    + remember (S n) as k. cbn [drain]. unfold aws_priority_queue_pop. rewrite (pr_len q _ Hr), (proj2 (Z.eqb_neq _ _)) by (cbn; lia).
      change 0 with (Z.of_nat 0). rewrite E. now rewrite Ed.
    + rewrite Hpo. change (x.1 :: map fst es') with (map fst (x :: es')). now rewrite Hp.
    + constructor; [exact Hs |]. rewrite Hpo. apply Forall_map.
      assert (Forall (fun e => pred x.1 e.1 <= 0) (x :: es)) as Hall.
      { apply Forall_lookup. intros i e He.
        exact (heap_root (le pred) Htr (x :: es) i Hh (le_refl pred Ht) x e eq_refl He). }
      rewrite <- Hp in Hall. now apply Forall_cons in Hall as [_ Hall].
Qed.

(** Popping a well-formed queue until it reports that it is empty terminates
    and delivers every item exactly once, in the order of the comparison
    function. *)
Theorem priority_queue_drains_sorted {A} (pred : A -> A -> Z) (q : aws_priority_queue A)
    (es : list (A * node_ptr)) :
  total_preorder pred -> queue_of pred q es ->
  exists out, drain pred (S (length es)) q = Some out /\ out ≡ₚ map fst es
    /\ StronglySorted (fun a b => pred a b <= 0) out.
Proof. intros Hp Hq. now apply drain_spec. Qed.

Lemma priority_queue_drains_sorted_witness :
  exists out, drain Z.sub 4 demo_queue = Some out /\ out ≡ₚ [1; 5; 3]
    /\ StronglySorted (fun a b => a - b <= 0) out.
Proof. exact (priority_queue_drains_sorted Z.sub demo_queue demo_entries sub_preorder demo_queue_ok). Defined.
