(* ===== verification/LinkedList.v ===== *)
(** * Linked lists: definitions

    [include/aws/common/linked_list.inl]: intrusive doubly linked lists. Nodes
    are embedded in objects of the caller, so the links are kept in a store
    indexed by address, and a list is the addresses of its two sentinels. A
    computation fails ([None]) when it goes through NULL or an address that
    holds no node. *)

From S2P Require Import Prelude.

Local Open Scope Z_scope.

Module LinkedList.

(** NULL is [None]. *)
Record aws_linked_list_node := mk_node { next : option positive; prev : option positive }.

#[export] Instance aws_linked_list_node_eq_dec : EqDecision aws_linked_list_node.
Proof. solve_decision. Defined.

(** The addresses of the fields [head] and [tail] of the structure. *)
Record aws_linked_list := mk_list { head : positive; tail : positive }.

Abbreviation links := (gmap positive aws_linked_list_node).

Definition L (A : Type) : Type := links -> option (A * links).

#[export] Instance L_ret : MRet L := fun A a h => Some (a, h).
#[export] Instance L_bind : MBind L := fun A B f e h =>
  match e h with Some (a, h') => f a h' | None => None end.

Definition deref (p : option positive) : L positive := fun h =>
  match p with Some x => Some (x, h) | None => None end.

Definition get_node (p : positive) : L aws_linked_list_node := fun h =>
  match h !! p with Some n => Some (n, h) | None => None end.

Definition put_node (p : positive) (n : aws_linked_list_node) : L unit := fun h =>
  match h !! p with Some _ => Some (tt, <[p := n]> h) | None => None end.

Definition set_next (p : positive) (q : option positive) : L unit :=
  n ← get_node p; put_node p (mk_node q (prev n)).

Definition set_prev (p : positive) (q : option positive) : L unit :=
  n ← get_node p; put_node p (mk_node (next n) q).

Definition aws_linked_list_node_reset (node : positive) : L unit := put_node node (mk_node None None).

Definition aws_linked_list_empty (list : aws_linked_list) : L bool :=
  n ← get_node (head list); mret (bool_decide (next n = Some (tail list))).

(** The release build: without AWS_DEEP_CHECKS. *)
Definition aws_linked_list_is_valid (list : aws_linked_list) : L bool :=
  h ← get_node (head list);
  t ← get_node (tail list);
  mret (bool_decide (next h <> None) && bool_decide (prev h = None)
        && bool_decide (prev t <> None) && bool_decide (next t = None)).

Definition aws_linked_list_node_next_is_valid (node : option positive) : L bool :=
  match node with
  | None => mret false
  | Some p =>
      n ← get_node p;
      match next n with
      | None => mret false
      | Some q => m ← get_node q; mret (bool_decide (prev m = Some p))
      end
  end.

Definition aws_linked_list_node_prev_is_valid (node : option positive) : L bool :=
  match node with
  | None => mret false
  | Some p =>
      n ← get_node p;
      match prev n with
      | None => mret false
      | Some q => m ← get_node q; mret (bool_decide (next m = Some p))
      end
  end.

(** The loop of [aws_linked_list_is_valid_deep]; the inner [None] is running
    out of fuel. *)
Fixpoint valid_deep_loop (fuel : nat) (list : aws_linked_list) (temp : option positive) : L (option bool) :=
  match fuel with
  | O => mret None
  | S fuel =>
      match temp with
      | None => mret (Some false)
      | Some p =>
          if decide (p = tail list) then mret (Some true)
          else
            ok ← aws_linked_list_node_next_is_valid temp;
            if negb ok then mret (Some false)
            else n ← get_node p; valid_deep_loop fuel list (next n)
      end
  end.

Definition aws_linked_list_is_valid_deep (fuel : nat) (list : aws_linked_list) : L (option bool) :=
  valid_deep_loop fuel list (Some (head list)).

Definition aws_linked_list_init (list : aws_linked_list) : L unit :=
  _ ← set_next (head list) (Some (tail list));
  _ ← set_prev (head list) None;
  _ ← set_prev (tail list) (Some (head list));
  set_next (tail list) None.

Definition aws_linked_list_begin (list : aws_linked_list) : L (option positive) :=
  n ← get_node (head list); mret (next n).

Definition aws_linked_list_end (list : aws_linked_list) : positive := tail list.

Definition aws_linked_list_rbegin (list : aws_linked_list) : L (option positive) :=
  n ← get_node (tail list); mret (prev n).

Definition aws_linked_list_rend (list : aws_linked_list) : positive := head list.

Definition aws_linked_list_next (node : positive) : L (option positive) :=
  n ← get_node node; mret (next n).

Definition aws_linked_list_prev (node : positive) : L (option positive) :=
  n ← get_node node; mret (prev n).

Definition aws_linked_list_insert_after (after to_add : positive) : L unit :=
  _ ← set_prev to_add (Some after);
  a ← get_node after;
  _ ← set_next to_add (next a);
  a ← get_node after;
  q ← deref (next a);
  _ ← set_prev q (Some to_add);
  set_next after (Some to_add).

Definition aws_linked_list_insert_before (before to_add : positive) : L unit :=
  _ ← set_next to_add (Some before);
  b ← get_node before;
  _ ← set_prev to_add (prev b);
  b ← get_node before;
  q ← deref (prev b);
  _ ← set_next q (Some to_add);
  set_prev before (Some to_add).

Definition aws_linked_list_swap_nodes (a b : positive) : L unit :=
  if decide (a = b) then mret tt
  else
    tmp ← get_node b;
    na ← get_node a;
    p ← deref (prev na);
    _ ← set_next p (Some b);
    na ← get_node a;
    q ← deref (next na);
    _ ← set_prev q (Some b);
    p ← deref (prev tmp);
    _ ← set_next p (Some a);
    q ← deref (next tmp);
    _ ← set_prev q (Some a);
    tmp ← get_node a;
    nb ← get_node b;
    _ ← put_node a nb;
    put_node b tmp.

Definition aws_linked_list_remove (node : positive) : L unit :=
  n ← get_node node;
  p ← deref (prev n);
  _ ← set_next p (next n);
  n ← get_node node;
  q ← deref (next n);
  _ ← set_prev q (prev n);
  aws_linked_list_node_reset node.

Definition aws_linked_list_push_back (list : aws_linked_list) (node : positive) : L unit :=
  aws_linked_list_insert_before (tail list) node.

Definition aws_linked_list_back (list : aws_linked_list) : L (option positive) :=
  n ← get_node (tail list); mret (prev n).

Definition aws_linked_list_pop_back (list : aws_linked_list) : L positive :=
  r ← aws_linked_list_back list;
  back ← deref r;
  _ ← aws_linked_list_remove back;
  mret back.

Definition aws_linked_list_push_front (list : aws_linked_list) (node : positive) : L unit :=
  h ← get_node (head list);
  q ← deref (next h);
  aws_linked_list_insert_before q node.

Definition aws_linked_list_front (list : aws_linked_list) : L (option positive) :=
  n ← get_node (head list); mret (next n).

Definition aws_linked_list_pop_front (list : aws_linked_list) : L positive :=
  r ← aws_linked_list_front list;
  front ← deref r;
  _ ← aws_linked_list_remove front;
  mret front.

Definition aws_linked_list_swap_contents (a b : aws_linked_list) : L unit :=
  ah ← get_node (head a);
  let a_first := next ah in
  at_ ← get_node (tail a);
  let a_last := prev at_ in
  b_empty ← aws_linked_list_empty b;
  _ ← (if (b_empty : bool) then aws_linked_list_init a
       else
         bh ← get_node (head b);
         _ ← set_next (head a) (next bh);
         ah ← get_node (head a);
         q ← deref (next ah);
         _ ← set_prev q (Some (head a));
         bt ← get_node (tail b);
         _ ← set_prev (tail a) (prev bt);
         at_ ← get_node (tail a);
         p ← deref (prev at_);
         set_next p (Some (tail a)));
  if decide (a_first = Some (tail a)) then aws_linked_list_init b
  else
    _ ← set_next (head b) a_first;
    bh ← get_node (head b);
    q ← deref (next bh);
    _ ← set_prev q (Some (head b));
    _ ← set_prev (tail b) a_last;
    bt ← get_node (tail b);
    p ← deref (prev bt);
    set_next p (Some (tail b)).

Definition aws_linked_list_move_all_back (dst src : aws_linked_list) : L unit :=
  src_empty ← aws_linked_list_empty src;
  if (src_empty : bool) then mret tt
  else
    dt ← get_node (tail dst);
    let dst_back := prev dt in
    sh ← get_node (head src);
    let src_front := next sh in
    st ← get_node (tail src);
    let src_back := prev st in
    p ← deref dst_back;
    _ ← set_next p src_front;
    q ← deref src_front;
    _ ← set_prev q dst_back;
    _ ← set_prev (tail dst) src_back;
    p ← deref src_back;
    _ ← set_next p (Some (tail dst));
    _ ← set_next (head src) (Some (tail src));
    set_prev (tail src) (Some (head src)).

Definition aws_linked_list_move_all_front (dst src : aws_linked_list) : L unit :=
  src_empty ← aws_linked_list_empty src;
  if (src_empty : bool) then mret tt
  else
    dh ← get_node (head dst);
    let dst_front := next dh in
    sh ← get_node (head src);
    let src_front := next sh in
    st ← get_node (tail src);
    let src_back := prev st in
    _ ← set_next (head dst) src_front;
    q ← deref src_front;
    _ ← set_prev q (Some (head dst));
    p ← deref src_back;
    _ ← set_next p dst_front;
    q ← deref dst_front;
    _ ← set_prev q src_back;
    _ ← set_next (head src) (Some (tail src));
    set_prev (tail src) (Some (head src)).

End LinkedList.
