(* ===== verification/LinkedListSpec.v ===== *)
(** * Linked lists: correctness

    [list_ok h l xs] says that in the store [h] the list [l] consists of the
    nodes at the addresses [xs], in this order. Each operation is first
    described by what it does to the links ([becomes]) and then by what it
    does to the addresses. *)

From stdpp Require Import functions.
From S2P Require Import Prelude LinkedList.
Import LinkedList.

Local Open Scope Z_scope.
#[local] Set Warnings "-clear-no-such-hyp".

(** ** Edges of a path *)

Fixpoint edge (p : list positive) (u v : positive) : Prop :=
  match p with
  | x :: ((y :: _) as r) => (u = x /\ v = y) \/ edge r u v
  | _ => False
  end.

Lemma edge_cons x y l u v : edge (x :: y :: l) u v <-> (u = x /\ v = y) \/ edge (y :: l) u v.
Proof. reflexivity. Qed.

Lemma edge_app l x l' u v : edge (l ++ x :: l') u v <-> edge (l ++ [x]) u v \/ edge (x :: l') u v.
Proof.
  induction l as [| a l IH]; [cbn; tauto |].
  destruct l as [| b l]; cbn [app] in *; rewrite !edge_cons; [cbn; tauto |]. rewrite IH. tauto.
Qed.

Lemma edge_in p u v : edge p u v -> u ∈ p /\ v ∈ p.
Proof.
  induction p as [| x [| y l] IH]; [easy | easy |]. rewrite edge_cons.
  intros [[-> ->] | H]; [set_solver |]. apply IH in H. set_solver.
Qed.

(** The source of an edge is not the last node, its target not the first. *)
Lemma edge_source l x u v : edge (l ++ [x]) u v -> u ∈ l.
Proof.
  induction l as [| a l IH]; [easy |]. destruct l as [| b l]; cbn [app] in *; rewrite edge_cons; [cbn; set_solver |].
  intros [[-> _] | H]; [| apply IH in H]; set_solver.
Qed.

Lemma edge_target x l u v : edge (x :: l) u v -> v ∈ l.
Proof.
  destruct l as [| b l]; [easy |]. rewrite edge_cons. intros [[_ ->] | H]; [set_solver |].
  apply edge_in in H. tauto.
Qed.

Lemma edge_map f p u v : edge (map f p) u v -> exists x y, edge p x y /\ u = f x /\ v = f y.
Proof.
  induction p as [| x [| y l] IH]; [easy | easy |]. cbn [map]. rewrite edge_cons.
  intros [[-> ->] | H]; [exists x, y; cbn; auto |].
  destruct (IH H) as (x' & y' & He & -> & ->). exists x', y'. rewrite edge_cons. auto.
Qed.

(** ** Stores *)

Definition next_of (h : links) (x : positive) : option positive := h !! x ≫= next.
Definition prev_of (h : links) (x : positive) : option positive := h !! x ≫= prev.
Definition holds (h : links) (x : positive) : Prop := is_Some (h !! x).

(** [h'] holds the same nodes as [h], with links [nf] and [pf]. *)
Record becomes (h h' : links) (nf pf : positive -> option positive) : Prop := {
  be_next : forall x, next_of h' x = nf x;
  be_prev : forall x, prev_of h' x = pf x;
  be_holds : forall x, holds h' x <-> holds h x
}.

Lemma lookup_links h x : holds h x -> h !! x = Some (mk_node (next_of h x) (prev_of h x)).
Proof. unfold holds, next_of, prev_of. intros [[n p] ->]. reflexivity. Qed.

Lemma links_ext h h' x :
  holds h x -> holds h' x -> next_of h' x = next_of h x -> prev_of h' x = prev_of h x -> h' !! x = h !! x.
Proof. intros H H' E1 E2. rewrite (lookup_links h x H), (lookup_links h' x H'). congruence. Qed.

Definition upd_next (p : positive) (q : option positive) (h : links) : links :=
  <[p := mk_node q (prev_of h p)]> h.
Definition upd_prev (p : positive) (q : option positive) (h : links) : links :=
  <[p := mk_node (next_of h p) q]> h.

Lemma get_node_run h p : holds h p -> get_node p h = Some (mk_node (next_of h p) (prev_of h p), h).
Proof. intros H. unfold get_node. now rewrite (lookup_links h p H). Qed.

Lemma put_node_run h p n : holds h p -> put_node p n h = Some (tt, <[p := n]> h).
Proof. intros [m E]. unfold put_node. now rewrite E. Qed.

Lemma set_next_run h p q : holds h p -> set_next p q h = Some (tt, upd_next p q h).
Proof.
  intros H. unfold set_next, mbind, L_bind. rewrite get_node_run by exact H. now rewrite put_node_run by exact H.
Qed.

Lemma set_prev_run h p q : holds h p -> set_prev p q h = Some (tt, upd_prev p q h).
Proof.
  intros H. unfold set_prev, mbind, L_bind. rewrite get_node_run by exact H. now rewrite put_node_run by exact H.
Qed.

Lemma next_insert h p n x : next_of (<[p := n]> h) x = if decide (x = p) then next n else next_of h x.
Proof. unfold next_of. case_decide as E; [subst; now rewrite lookup_insert_eq | now rewrite lookup_insert_ne]. Qed.

Lemma prev_insert h p n x : prev_of (<[p := n]> h) x = if decide (x = p) then prev n else prev_of h x.
Proof. unfold prev_of. case_decide as E; [subst; now rewrite lookup_insert_eq | now rewrite lookup_insert_ne]. Qed.

Lemma holds_insert h p n x : holds h p -> holds (<[p := n]> h) x <-> holds h x.
Proof.
  intros Hp. unfold holds. destruct (decide (x = p)) as [-> | E]; [| now rewrite lookup_insert_ne].
  rewrite lookup_insert_eq. split; eauto.
Qed.

Lemma next_upd_next h p q x : next_of (upd_next p q h) x = if decide (x = p) then q else next_of h x.
Proof. apply next_insert. Qed.
Lemma prev_upd_next h p q x : prev_of (upd_next p q h) x = prev_of h x.
Proof. unfold upd_next. rewrite prev_insert. case_decide; now subst. Qed.
Lemma next_upd_prev h p q x : next_of (upd_prev p q h) x = next_of h x.
Proof. unfold upd_prev. rewrite next_insert. case_decide; now subst. Qed.
Lemma prev_upd_prev h p q x : prev_of (upd_prev p q h) x = if decide (x = p) then q else prev_of h x.
Proof. apply prev_insert. Qed.
Lemma holds_upd_next h p q x : holds h p -> holds (upd_next p q h) x <-> holds h x.
Proof. apply holds_insert. Qed.
Lemma holds_upd_prev h p q x : holds h p -> holds (upd_prev p q h) x <-> holds h x.
Proof. apply holds_insert. Qed.

Lemma fn_at (f : positive -> option positive) p q x : (<[p := q]> f) x = if decide (x = p) then q else f x.
Proof. case_decide as E; [subst; apply fn_lookup_insert | apply fn_lookup_insert_ne; congruence]. Qed.

Create Rewrite HintDb links.
#[export] Hint Rewrite next_upd_next prev_upd_next next_upd_prev prev_upd_prev next_insert prev_insert fn_at : links.

(** Nodes stay where they are under updates. *)
Ltac holds :=
  repeat first [ assumption
               | rewrite holds_upd_next | rewrite holds_upd_prev | rewrite holds_insert ].

(** Executes the loads and stores at the front of a computation. *)
Ltac lstep :=
  unfold mbind, L_bind at 1; cbn beta iota;
  first [ rewrite get_node_run by holds | rewrite set_next_run by holds | rewrite set_prev_run by holds
        | rewrite put_node_run by holds ]; cbn [next prev].

Ltac links_simpl :=
  repeat (autorewrite with links; cbn [next prev]; repeat (case_decide; try congruence)).

(** ** Single operations on the links *)

Lemma bind_run {A B} (e : L A) (f : A -> L B) h a h' : e h = Some (a, h') -> (e ≫= f) h = f a h'.
Proof. intros H. unfold mbind, L_bind. now rewrite H. Qed.

Lemma deref_run q h : deref (Some q) h = Some (q, h).
Proof. reflexivity. Qed.

(** Runs the first step of the computation on the left of the goal. *)
Ltac lrun :=
  first [ erewrite bind_run by (apply get_node_run; holds)
        | erewrite bind_run by (apply set_next_run; holds)
        | erewrite bind_run by (apply set_prev_run; holds)
        | erewrite bind_run by (apply put_node_run; holds)
        | erewrite bind_run by (apply deref_run) ]; cbn [next prev].

Lemma insert_before_links h before add q :
  holds h before -> holds h add -> holds h q -> prev_of h before = Some q -> add <> before ->
  exists h', aws_linked_list_insert_before before add h = Some (tt, h')
    /\ becomes h h' (<[q := Some add]> (<[add := Some before]> (next_of h)))
         (<[before := Some add]> (<[add := Some q]> (prev_of h))).
Proof.
  intros Hb Ha Hq Hp Hne. unfold aws_linked_list_insert_before. do 4 lrun. links_simpl. rewrite Hp.
  lrun. lrun. rewrite set_prev_run by holds. eexists. split; [reflexivity |]. constructor; intros x.
  - links_simpl.
  - links_simpl.
  - holds. reflexivity.
Qed.

Lemma insert_after_links h after add q :
  holds h after -> holds h add -> holds h q -> next_of h after = Some q -> add <> after ->
  exists h', aws_linked_list_insert_after after add h = Some (tt, h')
    /\ becomes h h' (<[after := Some add]> (<[add := Some q]> (next_of h)))
         (<[q := Some add]> (<[add := Some after]> (prev_of h))).
Proof.
  intros Hb Ha Hq Hp Hne. unfold aws_linked_list_insert_after. do 4 lrun. links_simpl. rewrite Hp.
  lrun. lrun. rewrite set_next_run by holds. eexists. split; [reflexivity |]. constructor; intros x.
  - links_simpl.
  - links_simpl.
  - holds. reflexivity.
Qed.

Lemma remove_links h node p q :
  holds h node -> holds h p -> holds h q -> prev_of h node = Some p -> next_of h node = Some q ->
  p <> node -> q <> node ->
  exists h', aws_linked_list_remove node h = Some (tt, h')
    /\ becomes h h' (<[node := None]> (<[p := Some q]> (next_of h)))
         (<[node := None]> (<[q := Some p]> (prev_of h))).
Proof.
  intros Hn Hp Hq Ep Eq Hpn Hqn. unfold aws_linked_list_remove, aws_linked_list_node_reset.
  lrun. rewrite Ep. do 3 lrun. links_simpl. rewrite Eq. do 2 lrun. rewrite put_node_run by holds.
  eexists. split; [reflexivity |]. constructor; intros x.
  - links_simpl.
  - links_simpl.
  - holds. reflexivity.
Qed.

(** The two addresses exchanged. *)
Definition transpose (a b x : positive) : positive :=
  if decide (x = a) then b else if decide (x = b) then a else x.

Lemma swap_nodes_links h a b pa na pb nb :
  holds h a -> holds h b -> holds h pa -> holds h na -> holds h pb -> holds h nb ->
  prev_of h a = Some pa -> next_of h a = Some na -> prev_of h b = Some pb -> next_of h b = Some nb ->
  a <> b -> pa <> a ->
  exists h', aws_linked_list_swap_nodes a b h = Some (tt, h')
    /\ becomes h h' (fun x => (<[pb := Some a]> (<[pa := Some b]> (next_of h))) (transpose a b x))
         (fun x => (<[nb := Some a]> (<[na := Some b]> (prev_of h))) (transpose a b x)).
Proof.
  intros Ha Hb Hpa Hna Hpb Hnb Epa Ena Epb Enb Hab Hne. unfold aws_linked_list_swap_nodes.
  rewrite decide_False by exact Hab. lrun. lrun. rewrite Epa. do 3 lrun. links_simpl. rewrite Ena.
  do 2 lrun. rewrite Epb. do 2 lrun. rewrite Enb. do 5 lrun. rewrite put_node_run by holds.
  eexists. split; [reflexivity |]. unfold transpose. constructor; intros x.
  - links_simpl.
  - links_simpl.
  - holds. reflexivity.
Qed.

(** ** Lists *)

Definition path (l : aws_linked_list) (xs : list positive) : list positive := head l :: xs ++ [tail l].

Lemma path_head l xs : head l ∈ path l xs.
Proof. unfold path. rewrite elem_of_cons. auto. Qed.
Lemma path_tail l xs : tail l ∈ path l xs.
Proof. unfold path. rewrite elem_of_cons, elem_of_app, list_elem_of_singleton. auto. Qed.
Lemma path_elem l xs x : x ∈ xs -> x ∈ path l xs.
Proof. unfold path. rewrite elem_of_cons, elem_of_app. auto. Qed.

Lemma elem_of_path l xs x : x ∈ path l xs <-> x = head l \/ x ∈ xs \/ x = tail l.
Proof. unfold path. rewrite elem_of_cons, elem_of_app, list_elem_of_singleton. tauto. Qed.

Record list_ok (h : links) (l : aws_linked_list) (xs : list positive) : Prop := {
  lo_nodup : NoDup (path l xs);
  lo_holds : Forall (holds h) (path l xs);
  lo_edge : forall u v, edge (path l xs) u v -> next_of h u = Some v /\ prev_of h v = Some u;
  lo_head : prev_of h (head l) = None;
  lo_tail : next_of h (tail l) = None
}.

(** Only the nodes [ps] differ. *)
Definition changes_only (h h' : links) (ps : list positive) : Prop :=
  (forall x, holds h' x <-> holds h x) /\ forall x, x ∉ ps -> h' !! x = h !! x.

Lemma becomes_only h h' nf pf ps :
  becomes h h' nf pf -> (forall x, x ∉ ps -> nf x = next_of h x /\ pf x = prev_of h x) -> changes_only h h' ps.
Proof.
  intros [Hn Hp Hh] H. split; [exact Hh |]. intros x Hx. destruct (H x Hx) as [E1 E2].
  destruct (h !! x) eqn:E.
  - rewrite <- E. apply links_ext; [now exists a | apply Hh; now exists a | now rewrite Hn | now rewrite Hp].
  - destruct (h' !! x) eqn:E'; [| reflexivity]. exfalso.
    assert (holds h x) as [y Hy] by (apply Hh; now exists a). congruence.
Qed.

(** Other lists are not affected. *)
Lemma list_ok_same h h' l xs :
  (forall x, x ∈ path l xs -> h' !! x = h !! x) -> list_ok h l xs -> list_ok h' l xs.
Proof.
  intros Hsame [Hnd Hho He Hhd Htl].
  assert (forall x, x ∈ path l xs -> next_of h' x = next_of h x /\ prev_of h' x = prev_of h x) as Hs
    by (intros x Hx; unfold next_of, prev_of; now rewrite (Hsame x Hx)).
  constructor; auto.
  - rewrite Forall_forall in *. intros x Hx. unfold holds. rewrite (Hsame x Hx). exact (Hho x Hx).
  - intros u v Huv. destruct (edge_in _ _ _ Huv) as [Hu Hv].
    rewrite (proj1 (Hs u Hu)), (proj2 (Hs v Hv)). auto.
  - rewrite (proj2 (Hs _ (path_head l xs))). exact Hhd.
  - rewrite (proj1 (Hs _ (path_tail l xs))). exact Htl.
Qed.

Lemma list_ok_frame h h' ps l xs :
  changes_only h h' ps -> (forall x, x ∈ path l xs -> x ∉ ps) -> list_ok h l xs -> list_ok h' l xs.
Proof. intros [_ Hc] Hd. apply list_ok_same. intros x Hx. apply Hc, Hd, Hx. Qed.

Lemma list_ok_ends h l xs : list_ok h l xs -> holds h (head l) /\ holds h (tail l).
Proof.
  intros [_ Hh _ _ _]. rewrite Forall_forall in Hh. split; apply Hh; [apply path_head | apply path_tail].
Qed.

(** Rebuilding a list from its links. *)
Lemma list_ok_becomes h h' nf pf l ys :
  becomes h h' nf pf -> NoDup (path l ys) -> Forall (holds h) (path l ys) ->
  (forall u v, edge (path l ys) u v -> nf u = Some v /\ pf v = Some u) ->
  pf (head l) = None -> nf (tail l) = None -> list_ok h' l ys.
Proof.
  intros [Hn Hp Hh] Hnd Hho He Hhd Htl. constructor; auto.
  - eapply Forall_impl; [exact Hho |]. intros x. apply Hh.
  - intros u v Huv. rewrite Hn, Hp. auto.
  - now rewrite Hp.
  - now rewrite Hn.
Qed.

(** *** Insertion between two neighbours *)

(** The node before and the node after a position. *)
Definition before_of (l : aws_linked_list) (xs : list positive) : positive := List.last xs (head l).
Definition after_of (l : aws_linked_list) (xs : list positive) : positive := List.hd (tail l) xs.

Lemma path_before l xs : exists p, head l :: xs = p ++ [before_of l xs].
Proof.
  unfold before_of. destruct xs as [| x xs _] using rev_ind; [exists []; reflexivity |].
  exists (head l :: xs). now rewrite last_last.
Qed.

Lemma path_after l xs : exists p, xs ++ [tail l] = after_of l xs :: p.
Proof. destruct xs as [| x xs]; [exists []; reflexivity | exists (xs ++ [tail l]); reflexivity]. Qed.

Lemma path_split l xs ys : exists p r,
  path l (xs ++ ys) = p ++ before_of l xs :: after_of l ys :: r
  /\ (forall zs, path l (xs ++ zs ++ ys) = p ++ before_of l xs :: zs ++ after_of l ys :: r).
Proof.
  destruct (path_before l xs) as [p Hp], (path_after l ys) as [r Hr]. exists p, r. unfold path.
  split_and!.
  - rewrite <- app_assoc, Hr, app_comm_cons, Hp, <- app_assoc. reflexivity.
  - intros zs. rewrite <- !app_assoc, Hr, app_comm_cons, Hp, <- app_assoc. reflexivity.
Qed.

Lemma neighbours h l xs ys :
  list_ok h l (xs ++ ys) ->
  next_of h (before_of l xs) = Some (after_of l ys) /\ prev_of h (after_of l ys) = Some (before_of l xs)
  /\ holds h (before_of l xs) /\ holds h (after_of l ys)
  /\ before_of l xs ∈ path l (xs ++ ys) /\ after_of l ys ∈ path l (xs ++ ys).
Proof.
  intros [Hnd Hh He _ _]. destruct (path_split l xs ys) as (p & r & E & _). rewrite E in *.
  destruct (He (before_of l xs) (after_of l ys)) as [H1 H2]; [rewrite edge_app; right; cbn; auto |].
  rewrite Forall_forall in Hh. split_and!; auto; try apply Hh; set_solver.
Qed.

Lemma list_insert h h' l xs ys add :
  list_ok h l (xs ++ ys) -> holds h add -> add ∉ path l (xs ++ ys) ->
  becomes h h' (<[before_of l xs := Some add]> (<[add := Some (after_of l ys)]> (next_of h)))
    (<[after_of l ys := Some add]> (<[add := Some (before_of l xs)]> (prev_of h))) ->
  list_ok h' l (xs ++ add :: ys).
Proof.
  intros [Hnd Hh He Hhd Htl] Ha Hna Hb.
  pose proof (path_head l (xs ++ ys)) as Hin. pose proof (path_tail l (xs ++ ys)) as Hin'.
  destruct (path_split l xs ys) as (p & r & E & E'). specialize (E' [add]). cbn [app] in E'.
  set (q := before_of l xs) in *. set (z := after_of l ys) in *. rewrite E in *.
  destruct (He q z) as [Eq Ez]; [rewrite edge_app; right; cbn; auto |].
  assert (NoDup (p ++ q :: add :: z :: r)) as Hnd'.
  { apply NoDup_app in Hnd as (H1 & H2 & H3). apply NoDup_app. rewrite !NoDup_cons in *. set_solver. }
  apply (list_ok_becomes h h' _ _ l _ Hb); rewrite ?E'; auto.
  - rewrite Forall_app, !Forall_cons in *. tauto.
  - intros u v. rewrite edge_app, !edge_cons. autorewrite with links.
    apply NoDup_app in Hnd as (Hd1 & Hd2 & Hd3). rewrite !NoDup_cons in Hd3.
    intros [Huv | [[-> ->] | [[-> ->] | Huv]]].
    + pose proof (edge_source _ _ _ _ Huv) as Hu. pose proof (edge_in _ _ _ Huv) as [_ Hv].
      destruct (He u v) as [E1 E2]; [rewrite edge_app; auto |].
      rewrite !decide_False by set_solver. auto.
    + rewrite decide_True by reflexivity. rewrite decide_False by set_solver. now rewrite decide_True.
    + rewrite decide_False by set_solver. now rewrite !decide_True.
    + pose proof (edge_target _ _ _ _ Huv) as Hv. pose proof (edge_in _ _ _ Huv) as [Hu _].
      destruct (He u v) as [E1 E2]; [rewrite edge_app, edge_cons; auto |].
      rewrite !decide_False by set_solver. auto.
  - autorewrite with links. rewrite !decide_False; auto; [intros <-; contradiction |].
    intros <-. congruence.
  - autorewrite with links. rewrite !decide_False; auto; [intros <-; contradiction |].
    intros <-. congruence.
Qed.

Lemma list_remove h h' l xs x ys :
  list_ok h l (xs ++ x :: ys) ->
  becomes h h' (<[x := None]> (<[before_of l xs := Some (after_of l ys)]> (next_of h)))
    (<[x := None]> (<[after_of l ys := Some (before_of l xs)]> (prev_of h))) ->
  list_ok h' l (xs ++ ys).
Proof.
  intros [Hnd Hh He Hhd Htl] Hb.
  destruct (path_split l xs ys) as (p & r & E & E'). specialize (E' [x]). cbn [app] in E'.
  set (q := before_of l xs) in *. set (z := after_of l ys) in *. rewrite E' in *.
  destruct (He q x) as [Eq Ex]; [rewrite edge_app; right; cbn; auto |].
  destruct (He x z) as [Ex' Ez]; [rewrite edge_app; right; cbn; auto |].
  pose proof Hnd as (Hd1 & Hd2 & Hd3)%NoDup_app. rewrite !NoDup_cons in Hd3.
  apply (list_ok_becomes h h' _ _ l _ Hb); rewrite ?E; auto.
  - apply NoDup_app. rewrite !NoDup_cons. set_solver.
  - rewrite Forall_app, !Forall_cons in *. tauto.
  - intros u v. rewrite edge_app, edge_cons. autorewrite with links.
    intros [Huv | [[-> ->] | Huv]].
    + pose proof (edge_source _ _ _ _ Huv) as Hu. pose proof (edge_in _ _ _ Huv) as [_ Hv].
      destruct (He u v) as [E1 E2]; [rewrite edge_app; auto |].
      rewrite !decide_False by set_solver. auto.
    + rewrite !(decide_False (P := _ = x)) by set_solver. now rewrite !decide_True.
    + pose proof (edge_target _ _ _ _ Huv) as Hv. pose proof (edge_in _ _ _ Huv) as [Hu _].
      destruct (He u v) as [E1 E2]; [rewrite edge_app, !edge_cons; auto |].
      rewrite !decide_False by set_solver. auto.
  - autorewrite with links. rewrite !decide_False; auto; congruence.
  - autorewrite with links. rewrite !decide_False; auto; congruence.
Qed.

Lemma transpose_nodup a b p : a <> b -> NoDup p -> NoDup (map (transpose a b) p).
Proof.
  intros Hab. induction 1 as [| x l Hx Hl IH]; cbn; [constructor |]. constructor; [| exact IH].
  intros (y & E & Hy)%list_elem_of_fmap. apply Hx. unfold transpose in E.
  repeat case_decide; subst; congruence.
Qed.

(** Exchanging two nodes of one or of two lists. *)
Lemma list_transpose h h' l xs a b pa na pb nb :
  list_ok h l xs -> holds h a -> holds h b -> a <> b ->
  prev_of h a = Some pa -> next_of h a = Some na -> prev_of h b = Some pb -> next_of h b = Some nb ->
  next_of h pa = Some a -> next_of h pb = Some b -> prev_of h na = Some a -> prev_of h nb = Some b ->
  becomes h h' (fun x => (<[pb := Some a]> (<[pa := Some b]> (next_of h))) (transpose a b x))
         (fun x => (<[nb := Some a]> (<[na := Some b]> (prev_of h))) (transpose a b x)) ->
  list_ok h' l (map (transpose a b) xs).
Proof.
  intros [Hnd Hh He Hhd Htl] Ha Hb Hab Epa Ena Epb Enb Fpa Fpb Fna Fnb Hbe.
  assert (head l <> a /\ head l <> b /\ tail l <> a /\ tail l <> b) as (Ha1 & Hb1 & Ha2 & Hb2)
    by (split_and!; congruence).
  assert (path l (map (transpose a b) xs) = map (transpose a b) (path l xs)) as E.
  { unfold path. cbn [map]. rewrite map_app. cbn [map]. unfold transpose at 2 4. now rewrite !decide_False by auto. }
  apply (list_ok_becomes h h' _ _ l _ Hbe); rewrite ?E.
  - now apply transpose_nodup.
  - apply Forall_map. eapply Forall_impl; [exact Hh |]. intros x Hx. unfold transpose. now repeat case_decide.
  - intros u v (x & y & Hxy & -> & ->)%edge_map. destruct (He x y Hxy) as [E1 E2]. clear -E1 E2 Hab Epa Ena Epb Enb Fpa Fpb Fna Fnb.
    unfold transpose. autorewrite with links. split; repeat (case_decide; subst; try congruence).
  - unfold transpose. autorewrite with links. repeat (case_decide; try congruence).
  - unfold transpose. autorewrite with links. repeat (case_decide; try congruence).
Qed.
