(* ===== verification/LinkedListOps.v ===== *)
(** * Linked lists: histories

    The operations of [linked_list.inl] on one list against plain lists of
    addresses, the observations a caller makes, and the termination of the
    deep validity check. *)

From stdpp Require Import functions.
From S2P Require Import Prelude LinkedList LinkedListSpec.
Import LinkedList.

Local Open Scope Z_scope.
#[local] Set Warnings "-clear-no-such-hyp".

(** ** Operations on one list *)

Lemma init_ok h l :
  holds h (head l) -> holds h (tail l) -> head l <> tail l ->
  exists h', aws_linked_list_init l h = Some (tt, h') /\ list_ok h' l []
    /\ changes_only h h' [head l; tail l].
Proof.
  intros Hh Ht Hne. unfold aws_linked_list_init. do 3 lrun. rewrite set_next_run by holds.
  eexists. split; [reflexivity |]. set (h' := upd_next _ _ _).
  assert (becomes h h' (<[tail l := None]> (<[head l := Some (tail l)]> (next_of h)))
            (<[tail l := Some (head l)]> (<[head l := None]> (prev_of h)))) as Hb.
  { unfold h'. constructor; intros x; [links_simpl | links_simpl | holds; reflexivity]. }
  split.
  - apply (list_ok_becomes h h' _ _ l [] Hb).
    + unfold path. cbn. rewrite !NoDup_cons, NoDup_nil, list_elem_of_singleton. auto using not_elem_of_nil.
    + unfold path. cbn. auto.
    + cbn. intros u v [[-> ->] | []]. links_simpl. auto.
    + links_simpl.
    + links_simpl.
  - apply (becomes_only _ _ _ _ _ Hb). intros x Hx. rewrite !not_elem_of_cons in Hx. links_simpl; tauto.
Qed.

Section one_list.
Context (h : links) (l : aws_linked_list).

Lemma insert_ok xs ys add :
  list_ok h l (xs ++ ys) -> holds h add -> add ∉ path l (xs ++ ys) ->
  exists h', aws_linked_list_insert_before (after_of l ys) add h = Some (tt, h')
    /\ list_ok h' l (xs ++ add :: ys) /\ changes_only h h' (add :: path l (xs ++ ys)).
Proof using.
  intros Hok Ha Hna. destruct (neighbours h l xs ys Hok) as (Hn & Hp & Hq & Hz & Iq & Iz).
  destruct (insert_before_links h (after_of l ys) add (before_of l xs)) as (h' & E & Hb); auto; [congruence |].
  exists h'. split; [exact E |]. split; [exact (list_insert h h' l xs ys add Hok Ha Hna Hb) |].
  apply (becomes_only _ _ _ _ _ Hb). intros x Hx. rewrite not_elem_of_cons in Hx. destruct Hx as [Hx1 Hx2].
  links_simpl. auto.
Qed.

Lemma insert_after_ok xs ys add :
  list_ok h l (xs ++ ys) -> holds h add -> add ∉ path l (xs ++ ys) ->
  exists h', aws_linked_list_insert_after (before_of l xs) add h = Some (tt, h')
    /\ list_ok h' l (xs ++ add :: ys) /\ changes_only h h' (add :: path l (xs ++ ys)).
Proof using.
  intros Hok Ha Hna. destruct (neighbours h l xs ys Hok) as (Hn & Hp & Hq & Hz & Iq & Iz).
  destruct (insert_after_links h (before_of l xs) add (after_of l ys)) as (h' & E & Hb); auto; [congruence |].
  exists h'. split; [exact E |]. split; [exact (list_insert h h' l xs ys add Hok Ha Hna Hb) |].
  apply (becomes_only _ _ _ _ _ Hb). intros x Hx. rewrite not_elem_of_cons in Hx. destruct Hx as [Hx1 Hx2].
  links_simpl. auto.
Qed.

Lemma after_of_last xs x : after_of l (x :: xs) = x.
Proof using. reflexivity. Qed.

Lemma before_of_last xs x : before_of l (xs ++ [x]) = x.
Proof using. unfold before_of. apply last_last. Qed.

Lemma remove_ok xs x ys :
  list_ok h l (xs ++ x :: ys) ->
  exists h', aws_linked_list_remove x h = Some (tt, h')
    /\ list_ok h' l (xs ++ ys) /\ changes_only h h' (path l (xs ++ x :: ys))
    /\ h' !! x = Some (mk_node None None).
Proof using.
  intros Hok. destruct (neighbours h l xs (x :: ys) Hok) as (Hn & Hp & Hq & Hx & Iq & Ix).
  assert (list_ok h l ((xs ++ [x]) ++ ys)) as Hok' by now rewrite <- app_assoc.
  destruct (neighbours h l (xs ++ [x]) ys Hok') as (Hn' & Hp' & _ & Hz & _ & Iz).
  rewrite after_of_last in *. rewrite before_of_last in *.
  pose proof (lo_nodup _ _ _ Hok) as Hnd.
  destruct (remove_links h x (before_of l xs) (after_of l ys)) as (h' & E & Hb); auto.
  - intros E. destruct (path_split l xs (x :: ys)) as (p & r & Ep & _). rewrite Ep, after_of_last, E in Hnd.
    apply NoDup_app in Hnd as (_ & _ & Hnd). rewrite NoDup_cons, elem_of_cons in Hnd. tauto.
  - intros E. destruct (path_split l (xs ++ [x]) ys) as (p & r & Ep & _).
    rewrite <- app_assoc in Ep. cbn [app] in Ep. rewrite Ep, before_of_last, E in Hnd.
    apply NoDup_app in Hnd as (_ & _ & Hnd). rewrite NoDup_cons, elem_of_cons in Hnd. tauto.
  - exists h'. split; [exact E |]. split; [exact (list_remove h h' l xs x ys Hok Hb) |]. split.
    + apply (becomes_only _ _ _ _ _ Hb). intros y Hy. rewrite <- app_assoc in Iz. cbn [app] in Iz. links_simpl. auto.
    + destruct Hb as [Bn Bp Bh]. rewrite (lookup_links h' x) by now apply Bh.
      rewrite Bn, Bp. links_simpl.
Qed.

(** What surrounds an element. *)
Lemma element_links xs x :
  list_ok h l xs -> x ∈ xs ->
  exists p n, holds h x /\ holds h p /\ holds h n /\ prev_of h x = Some p /\ next_of h x = Some n
    /\ next_of h p = Some x /\ prev_of h n = Some x /\ p ∈ path l xs /\ n ∈ path l xs /\ p <> x.
Proof using.
  intros Hok (xs1 & xs2 & ->)%list_elem_of_split.
  destruct (neighbours h l xs1 (x :: xs2) Hok) as (N1 & N2 & N3 & N4 & N5 & _).
  assert (list_ok h l ((xs1 ++ [x]) ++ xs2)) as Hok' by now rewrite <- app_assoc.
  destruct (neighbours h l (xs1 ++ [x]) xs2 Hok') as (N1' & N2' & _ & N4' & _ & N6').
  rewrite <- app_assoc in N6'. cbn [app] in N6'. rewrite after_of_last, before_of_last in *.
  exists (before_of l xs1), (after_of l xs2). split_and!; auto. intros E.
  pose proof (lo_nodup _ _ _ Hok) as Hnd. destruct (path_split l xs1 (x :: xs2)) as (p & r & Ep & _).
  rewrite Ep, after_of_last, E in Hnd. apply NoDup_app in Hnd as (_ & _ & Hnd).
  rewrite NoDup_cons, elem_of_cons in Hnd. tauto.
Qed.

Lemma list_swap_ok xs a b :
  list_ok h l xs -> a ∈ xs -> b ∈ xs ->
  exists h', aws_linked_list_swap_nodes a b h = Some (tt, h')
    /\ list_ok h' l (map (transpose a b) xs) /\ changes_only h h' (path l xs).
Proof using.
  intros Hok Ha Hb. destruct (decide (a = b)) as [<- | Hab].
  { exists h. unfold aws_linked_list_swap_nodes. rewrite decide_True by reflexivity. split_and!; [reflexivity | | split; auto].
    replace (map (transpose a a) xs) with xs; [exact Hok |]. rewrite <- (map_id xs) at 1. apply map_ext.
    intros x. unfold transpose. repeat case_decide; congruence. }
  destruct (element_links xs a Hok Ha) as (pa & na & H1 & H2 & H3 & E1 & E2 & E3 & E4 & I1 & I2 & Hpa).
  destruct (element_links xs b Hok Hb) as (pb & nb & H1' & H2' & H3' & E1' & E2' & E3' & E4' & I1' & I2' & _).
  destruct (swap_nodes_links h a b pa na pb nb) as (h' & E & Hbe); auto.
  exists h'. split; [exact E |].
  split; [now apply (list_transpose h h' l xs a b pa na pb nb) |].
  apply (becomes_only _ _ _ _ _ Hbe). intros x Hx.
  assert (transpose a b x = x) as ->
    by (unfold transpose; rewrite !decide_False; auto; intros ->; apply Hx, path_elem; assumption).
  links_simpl. auto.
Qed.

Lemma front_run xs : list_ok h l xs -> aws_linked_list_front l h = Some (Some (after_of l xs), h).
Proof using.
  intros Hok. destruct (neighbours h l [] xs Hok) as (Hn & _ & Hh & _). unfold aws_linked_list_front. lrun.
  change (before_of l []) with (head l) in Hn. now rewrite Hn.
Qed.

Lemma back_run xs : list_ok h l xs -> aws_linked_list_back l h = Some (Some (before_of l xs), h).
Proof using.
  intros Hok. rewrite <- (app_nil_r xs) in Hok. destruct (neighbours h l xs [] Hok) as (_ & Hp & _ & Ht & _).
  change (after_of l []) with (tail l) in *. unfold aws_linked_list_back. lrun. now rewrite Hp.
Qed.

Lemma empty_run xs : list_ok h l xs -> aws_linked_list_empty l h = Some (bool_decide (xs = []), h).
Proof using.
  intros Hok. destruct (neighbours h l [] xs Hok) as (Hn & _ & Hh & _). unfold aws_linked_list_empty. lrun.
  change (before_of l []) with (head l) in Hn. rewrite Hn. unfold mret, L_ret. do 2 f_equal.
  apply bool_decide_ext. destruct xs as [| x xs]; [tauto |]. split; [| discriminate]. intros [= ->].
  pose proof (lo_nodup _ _ _ Hok) as Hnd. unfold path in Hnd. rewrite NoDup_cons in Hnd. destruct Hnd as [_ Hnd].
  cbn in Hnd. rewrite NoDup_cons in Hnd. destruct Hnd as [Hnd _]. exfalso. apply Hnd. set_solver.
Qed.

Lemma list_push_back_ok xs x :
  list_ok h l xs -> holds h x -> x ∉ path l xs ->
  exists h', aws_linked_list_push_back l x h = Some (tt, h')
    /\ list_ok h' l (xs ++ [x]) /\ changes_only h h' (x :: path l xs).
Proof using.
  intros Hok Hx Hn. rewrite <- (app_nil_r xs) in Hok, Hn.
  destruct (insert_ok xs [] x Hok Hx Hn) as (h' & E & H & Hc). rewrite app_nil_r in Hc. eauto.
Qed.

Lemma list_push_front_ok xs x :
  list_ok h l xs -> holds h x -> x ∉ path l xs ->
  exists h', aws_linked_list_push_front l x h = Some (tt, h')
    /\ list_ok h' l (x :: xs) /\ changes_only h h' (x :: path l xs).
Proof using.
  intros Hok Hx Hn. destruct (insert_ok [] xs x Hok Hx Hn) as (h' & E & H & Hc).
  destruct (neighbours h l [] xs Hok) as (Hne & _ & Hh & _). change (before_of l []) with (head l) in *.
  exists h'. split_and!; auto. unfold aws_linked_list_push_front. lrun. rewrite Hne. now lrun.
Qed.

Lemma list_pop_back_ok xs x :
  list_ok h l (xs ++ [x]) ->
  exists h', aws_linked_list_pop_back l h = Some (x, h') /\ list_ok h' l xs
    /\ changes_only h h' (path l (xs ++ [x])) /\ h' !! x = Some (mk_node None None).
Proof using.
  intros Hok. destruct (remove_ok xs x [] Hok) as (h' & E & H & Hc & Hx). rewrite app_nil_r in H.
  exists h'. split_and!; auto. unfold aws_linked_list_pop_back. erewrite bind_run by (apply (back_run _ Hok)).
  rewrite before_of_last. lrun. now erewrite bind_run by exact E.
Qed.

Lemma list_pop_front_ok xs x :
  list_ok h l (x :: xs) ->
  exists h', aws_linked_list_pop_front l h = Some (x, h') /\ list_ok h' l xs
    /\ changes_only h h' (path l (x :: xs)) /\ h' !! x = Some (mk_node None None).
Proof using.
  intros Hok. destruct (remove_ok [] x xs Hok) as (h' & E & H & Hc & Hx).
  exists h'. split_and!; auto. unfold aws_linked_list_pop_front. erewrite bind_run by (apply (front_run _ Hok)).
  rewrite after_of_last. lrun. now erewrite bind_run by exact E.
Qed.
End one_list.

(** ** Histories *)

Inductive list_op :=
| Push_back (x : positive)
| Push_front (x : positive)
| Insert_after (y x : positive)
| Insert_before (y x : positive)
| Remove (x : positive)
| Pop_back
| Pop_front
| Swap_nodes (a b : positive).

(** The node an operation returns, if it returns one. *)
Definition run_op (l : aws_linked_list) (op : list_op) : L (option positive) :=
  match op with
  | Push_back x => _ ← aws_linked_list_push_back l x; mret None
  | Push_front x => _ ← aws_linked_list_push_front l x; mret None
  | Insert_after y x => _ ← aws_linked_list_insert_after y x; mret None
  | Insert_before y x => _ ← aws_linked_list_insert_before y x; mret None
  | Remove x => _ ← aws_linked_list_remove x; mret None
  | Pop_back => x ← aws_linked_list_pop_back l; mret (Some x)
  | Pop_front => x ← aws_linked_list_pop_front l; mret (Some x)
  | Swap_nodes a b => _ ← aws_linked_list_swap_nodes a b; mret None
  end.

Fixpoint run_ops (l : aws_linked_list) (ops : list list_op) : L (list (option positive)) :=
  match ops with
  | [] => mret []
  | op :: ops => r ← run_op l op; rs ← run_ops l ops; mret (r :: rs)
  end.

(** The same operations on plain lists; [f] puts [x] at a found element. *)
Fixpoint at_elem (y : positive) (f : positive -> list positive) (xs : list positive) : list positive :=
  match xs with
  | [] => []
  | z :: xs => if decide (z = y) then f z ++ xs else z :: at_elem y f xs
  end.

Definition plain_op (op : list_op) (xs : list positive) : option positive * list positive :=
  match op with
  | Push_back x => (None, xs ++ [x])
  | Push_front x => (None, x :: xs)
  | Insert_after y x => (None, at_elem y (fun z => [z; x]) xs)
  | Insert_before y x => (None, at_elem y (fun z => [x; z]) xs)
  | Remove x => (None, at_elem x (fun _ => []) xs)
  | Pop_back => (last xs, removelast xs)
  | Pop_front => (hd_error xs, List.tl xs)
  | Swap_nodes a b => (None, map (transpose a b) xs)
  end.

Fixpoint plain_ops (ops : list list_op) (xs : list positive) : list (option positive) * list positive :=
  match ops with
  | [] => ([], xs)
  | op :: ops => let '(r, xs) := plain_op op xs in let '(rs, xs) := plain_ops ops xs in (r :: rs, xs)
  end.

(** What the headers ask of callers: a node that is inserted is in no list (here:
    not in this one), one that is named is in the list, and an empty list is
    not popped. *)
Definition allowed (l : aws_linked_list) (h : links) (op : list_op) (xs : list positive) : Prop :=
  match op with
  | Push_back x | Push_front x => holds h x /\ x ∉ path l xs
  | Insert_after y x | Insert_before y x => y ∈ xs /\ holds h x /\ x ∉ path l xs
  | Remove x => x ∈ xs
  | Pop_back | Pop_front => xs <> []
  | Swap_nodes a b => a ∈ xs /\ b ∈ xs
  end.

Fixpoint all_allowed (l : aws_linked_list) (h : links) (ops : list list_op) (xs : list positive) : Prop :=
  match ops with
  | [] => True
  | op :: ops => allowed l h op xs /\ all_allowed l h ops (snd (plain_op op xs))
  end.

(** The nodes the operations name. *)
Definition named (op : list_op) : list positive :=
  match op with
  | Push_back x | Push_front x | Remove x => [x]
  | Insert_after y x | Insert_before y x => [y; x]
  | Pop_back | Pop_front => []
  | Swap_nodes a b => [a; b]
  end.

Lemma at_elem_split y f xs1 xs2 : y ∉ xs1 -> at_elem y f (xs1 ++ y :: xs2) = xs1 ++ f y ++ xs2.
Proof.
  induction xs1 as [| z xs1 IH]; cbn; [now rewrite decide_True |].
  rewrite not_elem_of_cons. intros [H1 H2]. rewrite decide_False by congruence. now rewrite IH.
Qed.

Lemma split_first (y : positive) xs :
  y ∈ xs -> NoDup xs -> exists xs1 xs2, xs = xs1 ++ y :: xs2 /\ y ∉ xs1.
Proof.
  intros (xs1 & xs2 & ->)%list_elem_of_split Hnd. exists xs1, xs2. split; [reflexivity |].
  apply NoDup_app in Hnd as (_ & Hd & _). intros H. apply (Hd y H). apply elem_of_cons. auto.
Qed.

Lemma list_nodup h l xs : list_ok h l xs -> NoDup xs.
Proof.
  intros H. pose proof (lo_nodup _ _ _ H) as Hnd. unfold path in Hnd. rewrite NoDup_cons in Hnd.
  now apply proj2, NoDup_app, proj1 in Hnd.
Qed.

Lemma changes_sub h h' ps qs : changes_only h h' ps -> (forall x, x ∈ ps -> x ∈ qs) -> changes_only h h' qs.
Proof. intros [H1 H2] Hs. split; [exact H1 |]. intros x Hx. apply H2. auto. Qed.

Lemma changes_trans h1 h2 h3 ps qs :
  changes_only h1 h2 ps -> changes_only h2 h3 qs -> changes_only h1 h3 (ps ++ qs).
Proof.
  intros [A1 A2] [B1 B2]. split; [intros x; rewrite B1; apply A1 |].
  intros x [Hx1 Hx2]%not_elem_of_app. now rewrite B2, A2.
Qed.

Lemma run_op_ok h l op xs :
  list_ok h l xs -> allowed l h op xs ->
  exists h', run_op l op h = Some (fst (plain_op op xs), h')
    /\ list_ok h' l (snd (plain_op op xs)) /\ changes_only h h' (named op ++ path l xs).
Proof.
  intros Hok Ha. pose proof (list_nodup _ _ _ Hok) as Hnd.
  destruct op as [x | x | y x | y x | x | | | a b]; cbn [allowed run_op plain_op fst snd named] in *.
  - destruct Ha as [Hx Hn]. destruct (list_push_back_ok h l xs x Hok Hx Hn) as (h' & E & H & Hc).
    erewrite bind_run by exact E. eauto.
  - destruct Ha as [Hx Hn]. destruct (list_push_front_ok h l xs x Hok Hx Hn) as (h' & E & H & Hc).
    erewrite bind_run by exact E. eauto.
  - destruct Ha as (Hy & Hx & Hn). destruct (split_first y xs Hy Hnd) as (xs1 & xs2 & -> & Hy1).
    rewrite at_elem_split by exact Hy1. cbn [app].
    change (xs1 ++ y :: x :: xs2) with (xs1 ++ [y] ++ x :: xs2).
    change (xs1 ++ y :: xs2) with (xs1 ++ [y] ++ xs2) in Hok, Hn. rewrite !app_assoc in *.
    destruct (insert_after_ok h l (xs1 ++ [y]) xs2 x Hok Hx Hn) as (h' & E & H & Hc). rewrite before_of_last in E.
    erewrite bind_run by exact E. exists h'. split_and!; auto. rewrite <- app_assoc in Hc. cbn [app] in Hc.
    eapply changes_sub; [exact Hc |]. intros z. cbn [app]. rewrite !elem_of_cons. tauto.
  - destruct Ha as (Hy & Hx & Hn). destruct (split_first y xs Hy Hnd) as (xs1 & xs2 & -> & Hy1).
    rewrite at_elem_split by exact Hy1. cbn [app].
    destruct (insert_ok h l xs1 (y :: xs2) x Hok Hx Hn) as (h' & E & H & Hc). rewrite after_of_last in E.
    erewrite bind_run by exact E. exists h'. split_and!; auto.
    eapply changes_sub; [exact Hc |]. intros z. cbn [app]. rewrite !elem_of_cons. tauto.
  - destruct (split_first x xs Ha Hnd) as (xs1 & xs2 & -> & Hx). rewrite at_elem_split by exact Hx. cbn [app].
    destruct (remove_ok h l xs1 x xs2 Hok) as (h' & E & H & Hc & _).
    erewrite bind_run by exact E. exists h'. split_and!; auto.
    eapply changes_sub; [exact Hc |]. intros z. rewrite elem_of_cons. tauto.
  - destruct xs as [| x xs _] using rev_ind; [easy |]. rewrite last_snoc, removelast_last.
    destruct (list_pop_back_ok h l xs x Hok) as (h' & E & H & Hc & _). erewrite bind_run by exact E. eauto.
  - destruct xs as [| x xs]; [easy |].
    destruct (list_pop_front_ok h l xs x Hok) as (h' & E & H & Hc & _). erewrite bind_run by exact E. eauto.
  - destruct Ha as [Ha Hb]. destruct (list_swap_ok h l xs a b Hok Ha Hb) as (h' & E & H & Hc).
    erewrite bind_run by exact E. exists h'. split_and!; auto.
    eapply changes_sub; [exact Hc |]. intros z. cbn [app]. rewrite !elem_of_cons. tauto.
Qed.

Lemma allowed_mono l h h' op xs : (forall x, holds h x -> holds h' x) -> allowed l h op xs -> allowed l h' op xs.
Proof. intros H. destruct op; cbn; intuition. Qed.

Lemma all_allowed_mono l h h' ops : forall xs,
  (forall x, holds h x -> holds h' x) -> all_allowed l h ops xs -> all_allowed l h' ops xs.
Proof.
  induction ops as [| op ops IH]; cbn; [auto |]. intros xs H [H1 H2].
  split; [exact (allowed_mono l h h' op xs H H1) | auto].
Qed.

Lemma run_ops_ok l ops : forall h xs,
  list_ok h l xs -> all_allowed l h ops xs ->
  exists h', run_ops l ops h = Some (fst (plain_ops ops xs), h')
    /\ list_ok h' l (snd (plain_ops ops xs))
    /\ changes_only h h' (path l xs ++ concat (map named ops)).
Proof.
  induction ops as [| op ops IH]; intros h xs Hok Ha; cbn [run_ops plain_ops map concat].
  { exists h. split_and!; auto. split; auto. }
  destruct Ha as [Ha Hr]. destruct (run_op_ok h l op xs Hok Ha) as (h1 & E1 & H1 & C1).
  destruct (plain_op op xs) as [r ys] eqn:Ep. cbn [fst snd] in *.
  destruct (IH h1 ys H1) as (h2 & E2 & H2 & C2).
  { apply (all_allowed_mono l h h1); [| exact Hr]. intros x. apply C1. }
  destruct (plain_ops ops ys) as [rs zs]. cbn [fst snd] in *.
  exists h2. erewrite bind_run by exact E1. erewrite bind_run by exact E2. split_and!; auto.
  eapply changes_sub; [exact (changes_trans _ _ _ _ _ C1 C2) |].
  assert (forall x, x ∈ ys -> x ∈ named op ++ xs) as Hys.
  { clear -Ep. destruct op; cbn [plain_op] in Ep; injection Ep as _ <-; cbn [named].
    - intros z. rewrite !elem_of_app, list_elem_of_singleton. tauto.
    - intros z. rewrite elem_of_cons, elem_of_app, list_elem_of_singleton. tauto.
    - intros z Hz. induction xs as [| w xs IH]; cbn in Hz; [set_solver |]. case_decide; set_solver.
    - intros z Hz. induction xs as [| w xs IH]; cbn in Hz; [set_solver |]. case_decide; set_solver.
    - intros z Hz. induction xs as [| w xs IH]; cbn in Hz; [set_solver |]. case_decide; set_solver.
    - intros z Hz. cbn. destruct xs as [| w xs _] using rev_ind; [set_solver |]. rewrite removelast_last in Hz. set_solver.
    - destruct xs; set_solver.
    - intros z (w & -> & Hw)%list_elem_of_fmap. unfold transpose. repeat case_decide; set_solver. }
  intros x. unfold path. rewrite !elem_of_app, !elem_of_cons, !elem_of_app. specialize (Hys x).
  rewrite elem_of_app in Hys. tauto.
Qed.

(** ** What a caller observes *)

Fixpoint walk_forward (fuel : nat) (l : aws_linked_list) (p : option positive) : L (option (list positive)) :=
  match fuel with
  | O => mret None
  | S fuel =>
      if decide (p = Some (aws_linked_list_end l)) then mret (Some [])
      else
        x ← deref p;
        n ← aws_linked_list_next x;
        r ← walk_forward fuel l n;
        mret (cons x <$> r)
  end.

Fixpoint walk_backward (fuel : nat) (l : aws_linked_list) (p : option positive) : L (option (list positive)) :=
  match fuel with
  | O => mret None
  | S fuel =>
      if decide (p = Some (aws_linked_list_rend l)) then mret (Some [])
      else
        x ← deref p;
        n ← aws_linked_list_prev x;
        r ← walk_backward fuel l n;
        mret (cons x <$> r)
  end.

(** A list that is valid and reads [xs] from either end. *)
Definition reads (h : links) (l : aws_linked_list) (xs : list positive) : Prop :=
  aws_linked_list_is_valid l h = Some (true, h)
  /\ aws_linked_list_empty l h = Some (bool_decide (xs = []), h)
  /\ (p ← aws_linked_list_begin l; walk_forward (S (length xs)) l p) h = Some (Some xs, h)
  /\ (p ← aws_linked_list_rbegin l; walk_backward (S (length xs)) l p) h = Some (Some (rev xs), h).

Lemma path_not_tail h l xs x : list_ok h l xs -> x ∈ xs -> x <> tail l /\ x <> head l.
Proof.
  intros H Hx. pose proof (lo_nodup _ _ _ H) as Hnd. unfold path in Hnd. rewrite NoDup_cons in Hnd.
  destruct Hnd as [H1 H2]. apply NoDup_app in H2 as (_ & Hd & _). split; intros ->.
  - apply (Hd _ Hx). apply list_elem_of_singleton. reflexivity.
  - apply H1. apply elem_of_app. auto.
Qed.

Lemma walk_forward_ok h l ys : forall xs,
  list_ok h l (xs ++ ys) -> walk_forward (S (length ys)) l (Some (after_of l ys)) h = Some (Some ys, h).
Proof.
  induction ys as [| y ys IH]; intros xs Hok; cbn [length walk_forward].
  { now rewrite decide_True. }
  assert (y ∈ xs ++ y :: ys) as Hy by (apply elem_of_app; rewrite elem_of_cons; auto).
  rewrite after_of_last, decide_False by (intros [= E]; now destruct (path_not_tail h l _ y Hok Hy)). lrun.
  assert (list_ok h l ((xs ++ [y]) ++ ys)) as Hok' by now rewrite <- app_assoc.
  destruct (neighbours h l (xs ++ [y]) ys Hok') as (Hn & _ & Hh & _). rewrite before_of_last in *.
  assert (aws_linked_list_next y h = Some (Some (after_of l ys), h)) as E.
  { unfold aws_linked_list_next. lrun. now rewrite Hn. }
  erewrite bind_run by exact E.
  erewrite bind_run by exact (IH _ Hok'). reflexivity.
Qed.

Lemma walk_backward_ok h l xs : forall ys,
  list_ok h l (xs ++ ys) -> walk_backward (S (length xs)) l (Some (before_of l xs)) h = Some (Some (rev xs), h).
Proof.
  induction xs as [| x xs IH] using rev_ind; intros ys Hok; cbn [walk_backward].
  { now rewrite decide_True. }
  assert (x ∈ (xs ++ [x]) ++ ys) as Hx by (rewrite !elem_of_app, list_elem_of_singleton; auto).
  rewrite before_of_last, decide_False by (intros [= E]; now destruct (path_not_tail h l _ x Hok Hx)). lrun.
  rewrite <- app_assoc in Hok. destruct (neighbours h l xs ([x] ++ ys) Hok) as (_ & Hp & _ & Hh & _).
  change (after_of l ([x] ++ ys)) with x in *.
  assert (aws_linked_list_prev x h = Some (Some (before_of l xs), h)) as E.
  { unfold aws_linked_list_prev. lrun. now rewrite Hp. }
  erewrite bind_run by exact E. rewrite length_app, Nat.add_1_r.
  erewrite bind_run by exact (IH _ Hok). now rewrite rev_app_distr.
Qed.

Lemma list_reads h l xs : list_ok h l xs -> reads h l xs.
Proof.
  intros Hok. pose proof (front_run h l xs Hok) as Hf. pose proof (back_run h l xs Hok) as Hb.
  unfold reads. split_and!.
  - destruct (neighbours h l [] xs Hok) as (Hn & _ & Hh & _). change (before_of l []) with (head l) in *.
    pose proof Hok as Hok'. rewrite <- (app_nil_r xs) in Hok'.
    destruct (neighbours h l xs [] Hok') as (_ & Hp & _ & Ht & _). change (after_of l []) with (tail l) in *.
    unfold aws_linked_list_is_valid. do 2 lrun. rewrite Hn, Hp, (lo_head _ _ _ Hok), (lo_tail _ _ _ Hok). reflexivity.
  - exact (empty_run h l xs Hok).
  - unfold aws_linked_list_begin. unfold aws_linked_list_front in Hf. erewrite bind_run by exact Hf.
    exact (walk_forward_ok h l xs [] Hok).
  - unfold aws_linked_list_rbegin. unfold aws_linked_list_back in Hb. erewrite bind_run by exact Hb.
    rewrite <- (app_nil_r xs) in Hok. exact (walk_backward_ok h l xs [] Hok).
Qed.

(** C14: any history of linked list operations that a caller may perform on a list
    set up by [aws_linked_list_init] runs, returns the nodes the same history
    on a plain list of addresses returns, and leaves a valid list that reads
    that list from either end; no node that is neither in the list nor named
    by an operation is touched. *)
Theorem linked_list_refines_list (l : aws_linked_list) (h : links) (ops : list list_op) :
  holds h (head l) -> holds h (tail l) -> head l <> tail l -> all_allowed l h ops [] ->
  let '(rs, xs) := plain_ops ops [] in
  exists h0 h', aws_linked_list_init l h = Some (tt, h0)
    /\ run_ops l ops h0 = Some (rs, h') /\ reads h' l xs
    /\ changes_only h h' (path l [] ++ concat (map named ops)).
Proof.
  intros Hh Ht Hne Ha. destruct (init_ok h l Hh Ht Hne) as (h0 & E0 & H0 & C0).
  destruct (run_ops_ok l ops h0 [] H0) as (h' & E & H & C).
  { apply (all_allowed_mono l h h0); [| exact Ha]. intros x. apply C0. }
  destruct (plain_ops ops []) as [rs xs]. exists h0, h'. split_and!; auto; [exact (list_reads h' l xs H) |].
  eapply changes_sub; [exact (changes_trans _ _ _ _ _ C0 C) |].
  intros x. unfold path. cbn [app]. rewrite !elem_of_cons. tauto.
Qed.

Definition four_nodes : links :=
  {[1%positive := mk_node None None; 2%positive := mk_node None None;
    3%positive := mk_node None None; 4%positive := mk_node None None]}.

Lemma linked_list_refines_list_witness :
  exists h0 h', aws_linked_list_init (mk_list 1 2) four_nodes = Some (tt, h0)
    /\ run_ops (mk_list 1 2) [Push_back 3; Push_front 4; Swap_nodes 3 4; Pop_back] h0
       = Some ([None; None; None; Some 4%positive], h')
    /\ reads h' (mk_list 1 2) [3%positive].
Proof.
  destruct (linked_list_refines_list (mk_list 1 2) four_nodes [Push_back 3; Push_front 4; Swap_nodes 3 4; Pop_back])
    as (h0 & h' & E0 & E & H & _).
  - now eexists.
  - now eexists.
  - discriminate.
  - cbn. split_and!; try (now eexists); set_solver.
  - exists h0, h'. auto.
Defined.
