(* ===== verification/LinkedListMove.v ===== *)
(** * Linked lists: two lists, and the deep check

    Exchanging and moving the contents of lists, and the loop of
    [aws_linked_list_is_valid_deep]. *)

From stdpp Require Import functions.
From S2P Require Import Prelude LinkedList LinkedListSpec LinkedListOps.
Import LinkedList.

Local Open Scope Z_scope.
#[local] Set Warnings "-clear-no-such-hyp".

(** ** Building a list from its ends *)

Lemma edge_path l xs u v :
  edge (path l xs) u v <->
  (u = head l /\ v = after_of l xs) \/ edge xs u v \/ (xs <> [] /\ u = before_of l xs /\ v = tail l).
Proof.
  unfold path. destruct xs as [| x xs]; [cbn; tauto |]. cbn [app]. rewrite edge_cons.
  assert (edge (x :: xs ++ [tail l]) u v <-> edge (x :: xs) u v \/ (u = before_of l (x :: xs) /\ v = tail l)) as ->.
  { unfold before_of. destruct (@exists_last _ (x :: xs)) as (ys & y & E); [easy |]. rewrite E, last_last.
    change (x :: xs ++ [tail l]) with ((x :: xs) ++ [tail l]). rewrite E, <- app_assoc. cbn [app].
    rewrite edge_app. cbn. tauto. }
  assert (x :: xs <> []) by easy. cbn [after_of List.hd]. tauto.
Qed.

Lemma edge_concat l xs ys u v :
  edge (xs ++ ys) u v ->
  edge xs u v \/ edge ys u v \/ (xs <> [] /\ ys <> [] /\ u = before_of l xs /\ v = after_of l ys).
Proof.
  destruct xs as [| x xs _] using rev_ind; [auto |]. destruct ys as [| y ys]; [rewrite app_nil_r; auto |].
  rewrite <- app_assoc. cbn [app]. rewrite edge_app, edge_cons, before_of_last.
  intros [H | [[-> ->] | H]]; auto. right. right. split_and!; auto. intros E. now apply app_eq_nil in E.
Qed.

Lemma list_ok_intro h l xs :
  NoDup (path l xs) -> Forall (holds h) (path l xs) ->
  next_of h (head l) = Some (after_of l xs) -> prev_of h (after_of l xs) = Some (head l) ->
  next_of h (before_of l xs) = Some (tail l) -> prev_of h (tail l) = Some (before_of l xs) ->
  (forall u v, edge xs u v -> next_of h u = Some v /\ prev_of h v = Some u) ->
  prev_of h (head l) = None -> next_of h (tail l) = None -> list_ok h l xs.
Proof.
  intros Hnd Hh H1 H2 H3 H4 He Hhd Htl. constructor; auto.
  intros u v. rewrite edge_path. intros [[-> ->] | [H | (_ & -> & ->)]]; auto.
Qed.

Lemma list_edges h l xs : list_ok h l xs -> forall u v, edge xs u v -> next_of h u = Some v /\ prev_of h v = Some u.
Proof. intros H u v Huv. apply (lo_edge _ _ _ H). rewrite edge_path. auto. Qed.

(** The ends of a list. *)
Record ends (h : links) (l : aws_linked_list) (xs : list positive) : Prop := {
  en_first : next_of h (head l) = Some (after_of l xs);
  en_last : prev_of h (tail l) = Some (before_of l xs);
  en_first_prev : prev_of h (after_of l xs) = Some (head l);
  en_last_next : next_of h (before_of l xs) = Some (tail l);
  en_head : holds h (head l);
  en_tail : holds h (tail l);
  en_after : holds h (after_of l xs);
  en_before : holds h (before_of l xs)
}.

Lemma list_ends h l xs : list_ok h l xs -> ends h l xs.
Proof.
  intros H. destruct (neighbours h l [] xs H) as (A1 & A2 & A3 & A4 & _).
  rewrite <- (app_nil_r xs) in H. destruct (neighbours h l xs [] H) as (B1 & B2 & B3 & B4 & _).
  constructor; assumption.
Qed.

(** Giving the nodes [ys] to the list [l]. *)
Definition attach (l : aws_linked_list) (ys : list positive) (h : links) : links :=
  upd_next (before_of l ys) (Some (tail l))
    (upd_prev (tail l) (Some (before_of l ys))
      (upd_prev (after_of l ys) (Some (head l)) (upd_next (head l) (Some (after_of l ys)) h))).

Lemma after_in l ys : ys <> [] -> after_of l ys ∈ ys.
Proof. destruct ys; [easy |]. intros _. apply elem_of_cons. auto. Qed.

Lemma before_in l ys : ys <> [] -> before_of l ys ∈ ys.
Proof.
  destruct ys as [| y ys _] using rev_ind; [easy |]. intros _. rewrite before_of_last, elem_of_app, list_elem_of_singleton. auto.
Qed.

Lemma before_path l ys : before_of l ys ∈ path l ys.
Proof. destruct (decide (ys = [])) as [-> | E]; [apply path_head | now apply path_elem, before_in]. Qed.

Lemma after_path l ys : after_of l ys ∈ path l ys.
Proof. destruct (decide (ys = [])) as [-> | E]; [apply path_tail | now apply path_elem, after_in]. Qed.

(** The source of an inner edge is not the last node, its target not the first. *)
Lemma inner_edge l ys u v :
  NoDup (path l ys) -> edge ys u v ->
  u ∈ ys /\ v ∈ ys /\ u <> before_of l ys /\ v <> after_of l ys /\ u <> head l /\ u <> tail l
  /\ v <> head l /\ v <> tail l.
Proof.
  intros Hnd Huv. destruct (edge_in _ _ _ Huv) as [Hu Hv]. unfold path in Hnd. rewrite NoDup_cons in Hnd.
  destruct Hnd as [Hh Hnd]. rewrite not_elem_of_app in Hh. destruct Hh as [Hh _].
  apply NoDup_app in Hnd as (Hnd & Ht & _).
  assert (forall x, x ∈ ys -> x <> head l /\ x <> tail l) as Hx.
  { intros x Hx. split; intros ->; [contradiction |]. apply (Ht _ Hx), list_elem_of_singleton. reflexivity. }
  split_and!; auto; try (now apply Hx).
  - destruct ys as [| y ys _] using rev_ind; [easy |]. rewrite before_of_last. apply edge_source in Huv.
    apply NoDup_app in Hnd as (_ & Hd & _). intros ->. apply (Hd y Huv), list_elem_of_singleton. reflexivity.
  - destruct ys as [| y ys]; [easy |]. apply edge_target in Huv. rewrite NoDup_cons in Hnd. cbn. intros ->. tauto.
Qed.

Lemma attach_only l ys h :
  Forall (holds h) (path l ys) -> changes_only h (attach l ys h) [head l; tail l; after_of l ys; before_of l ys].
Proof.
  intros Hh. rewrite Forall_forall in Hh.
  pose proof (Hh _ (path_head l ys)). pose proof (Hh _ (path_tail l ys)).
  pose proof (Hh _ (after_path l ys)). pose proof (Hh _ (before_path l ys)).
  assert (becomes h (attach l ys h) (<[before_of l ys := Some (tail l)]> (<[head l := Some (after_of l ys)]> (next_of h)))
    (<[tail l := Some (before_of l ys)]> (<[after_of l ys := Some (head l)]> (prev_of h)))) as Hb.
  { unfold attach. constructor; intros x; [links_simpl | links_simpl | holds; reflexivity]. }
  apply (becomes_only _ _ _ _ _ Hb). intros x Hx. rewrite !not_elem_of_cons in Hx. links_simpl; tauto.
Qed.

Lemma attach_ok l ys h :
  NoDup (path l ys) -> Forall (holds h) (path l ys) ->
  (forall u v, edge ys u v -> next_of h u = Some v /\ prev_of h v = Some u) ->
  prev_of h (head l) = None -> next_of h (tail l) = None -> list_ok (attach l ys h) l ys.
Proof.
  intros Hnd Hh He Hhd Htl. pose proof (attach_only l ys h Hh) as [Hho _].
  assert (head l <> tail l /\ before_of l ys <> tail l /\ after_of l ys <> head l
          /\ (before_of l ys = head l <-> after_of l ys = tail l)) as (N1 & N2 & N3 & N4).
  { pose proof Hnd as Hnd'. unfold path in Hnd'. rewrite NoDup_cons, not_elem_of_app, not_elem_of_cons in Hnd'.
    destruct Hnd' as [(Hn1 & Hn2 & _) Hnd']. apply NoDup_app in Hnd' as (_ & Hd & _).
    assert (tail l ∉ ys) as Ht by (intros H; apply (Hd _ H), list_elem_of_singleton; reflexivity).
    destruct (decide (ys = [])) as [-> | E]; [cbn; split_and!; tauto || congruence |].
    pose proof (after_in l ys E). pose proof (before_in l ys E). split_and!; try congruence; split; congruence. }
  unfold attach. apply list_ok_intro; auto.
  - eapply Forall_impl; [exact Hh |]. intros x. apply Hho.
  - links_simpl. f_equal. symmetry. apply N4. congruence.
  - links_simpl. f_equal. apply N4. congruence.
  - links_simpl.
  - links_simpl.
  - intros u v Huv. destruct (inner_edge l ys u v Hnd Huv) as (_ & _ & I1 & I2 & I3 & I4 & I5 & I6).
    destruct (He u v Huv). links_simpl. auto.
  - links_simpl.
  - links_simpl.
Qed.

Section two_lists.
Context (h : links) (a b : aws_linked_list) (xs ys : list positive).
Hypothesis (Ha : list_ok h a xs) (Hb : list_ok h b ys).
Hypothesis Hdis : forall x, x ∈ path a xs -> x ∈ path b ys -> False.

(** All the facts about distinct nodes the moves need. *)
Lemma two_facts :
  head a <> head b /\ head a <> tail b /\ tail a <> head b /\ tail a <> tail b /\ head a <> tail a /\ head b <> tail b
  /\ Forall (fun x => x <> head a /\ x <> tail a /\ x <> head b /\ x <> tail b) xs
  /\ Forall (fun y => y <> head a /\ y <> tail a /\ y <> head b /\ y <> tail b) ys
  /\ (forall x, x ∈ xs -> x ∈ ys -> False) /\ NoDup xs /\ NoDup ys.
Proof using Ha Hb Hdis.
  assert (forall l zs h, list_ok h l zs -> head l <> tail l) as Hht.
  { intros l zs g H E. pose proof (lo_nodup _ _ _ H) as Hnd. unfold path in Hnd. rewrite NoDup_cons in Hnd.
    destruct Hnd as [Hnd _]. apply Hnd. rewrite E, elem_of_app, list_elem_of_singleton. auto. }
  pose proof (path_head a xs). pose proof (path_tail a xs). pose proof (path_head b ys). pose proof (path_tail b ys).
  split_and!; eauto using list_nodup; try (intros E; rewrite E in *; eauto; fail).
  - apply Forall_forall. intros x Hx. pose proof (path_elem a xs x Hx).
    destruct (path_not_tail h a xs x Ha Hx). split_and!; auto; intros ->; eauto.
  - apply Forall_forall. intros y Hy. pose proof (path_elem b ys y Hy).
    destruct (path_not_tail h b ys y Hb Hy). split_and!; auto; intros ->; eauto.
  - intros x Hx Hy. apply (Hdis x); now apply path_elem.
Qed.

Lemma cross_path : NoDup (path a ys) /\ NoDup (path b xs)
  /\ Forall (holds h) (path a ys) /\ Forall (holds h) (path b xs)
  /\ (forall x, x ∈ path a ys -> x ∉ path b xs).
Proof using Ha Hb Hdis.
  destruct two_facts as (N1 & N2 & N3 & N4 & N5 & N6 & Fx & Fy & Hxy & Ux & Uy).
  rewrite Forall_forall in Fx, Fy.
  pose proof (lo_holds _ _ _ Ha) as Oa. pose proof (lo_holds _ _ _ Hb) as Ob. rewrite Forall_forall in Oa, Ob.
  assert (forall l zs, head l <> tail l -> NoDup zs -> (forall z, z ∈ zs -> z <> head l /\ z <> tail l) -> NoDup (path l zs)) as Hp.
  { intros l zs H1 H2 H3. unfold path. rewrite NoDup_cons, not_elem_of_app, list_elem_of_singleton. split.
    - split; [| exact H1]. intros Hin. now destruct (H3 _ Hin).
    - apply NoDup_app. split; [exact H2 |]. split; [| apply NoDup_singleton].
      intros z Hz. rewrite list_elem_of_singleton. now apply H3. }
  assert (forall l zs (P : positive -> Prop), P (head l) -> P (tail l) -> (forall z, z ∈ zs -> P z) -> forall z, z ∈ path l zs -> P z) as Hq.
  { intros l zs P H1 H2 H3 z. unfold path. rewrite elem_of_cons, elem_of_app, list_elem_of_singleton.
    intros [-> | [Hz | ->]]; auto. }
  split_and!.
  - apply Hp; auto. intros z Hz. now destruct (Fy z Hz) as (? & ? & _).
  - apply Hp; auto. intros z Hz. now destruct (Fx z Hz) as (_ & _ & ? & ?).
  - apply Forall_forall. apply (Hq a ys (holds h)); auto using path_head, path_tail, path_elem.
  - apply Forall_forall. apply (Hq b xs (holds h)); auto using path_head, path_tail, path_elem.
  - apply (Hq a ys (fun x => x ∉ path b xs)); unfold path; try intros z Hz;
      rewrite not_elem_of_cons, not_elem_of_app, list_elem_of_singleton; split_and!; auto.
    + intros Hz. now destruct (Fx _ Hz).
    + intros Hz. now destruct (Fx _ Hz) as (_ & ? & _).
    + now destruct (Fy z Hz) as (_ & _ & ? & _).
    + intros Hz'. eauto.
    + now destruct (Fy z Hz) as (_ & _ & _ & ?).
Qed.
End two_lists.

(** The statements that give the non-empty contents [first .. last] to [l]. *)
Lemma attach_run h l ys first last :
  Forall (holds h) (path l ys) -> first = after_of l ys -> last = before_of l ys ->
  (_ ← set_next (head l) (Some first);
   n ← get_node (head l);
   q ← deref (next n);
   _ ← set_prev q (Some (head l));
   _ ← set_prev (tail l) (Some last);
   n ← get_node (tail l);
   p ← deref (prev n);
   set_next p (Some (tail l))) h = Some (tt, attach l ys h).
Proof.
  intros Hh -> ->. rewrite Forall_forall in Hh.
  pose proof (Hh _ (path_head l ys)). pose proof (Hh _ (path_tail l ys)).
  pose proof (Hh _ (after_path l ys)). pose proof (Hh _ (before_path l ys)).
  do 2 lrun. autorewrite with links. rewrite decide_True by reflexivity. do 4 lrun.
  autorewrite with links. rewrite decide_True by reflexivity. lrun. now rewrite set_next_run by holds.
Qed.

Lemma init_gives h l :
  list_ok h l [] \/ (holds h (head l) /\ holds h (tail l) /\ head l <> tail l) ->
  exists h', aws_linked_list_init l h = Some (tt, h') /\ list_ok h' l [] /\ changes_only h h' [head l; tail l].
Proof.
  intros [H | (H1 & H2 & H3)]; [| now apply init_ok]. pose proof (list_ends _ _ _ H) as [_ _ _ _ H1 H2 _ _].
  apply init_ok; auto. intros E. pose proof (lo_nodup _ _ _ H) as Hnd. unfold path in Hnd. cbn in Hnd.
  rewrite NoDup_cons, list_elem_of_singleton in Hnd. tauto.
Qed.

Lemma ends_differ l xs ys h : list_ok h l xs -> xs <> [] -> after_of l xs <> tail l /\ (ys <> [] -> after_of l ys = List.hd (tail l) ys).
Proof.
  intros H Hne. split; [| reflexivity]. now apply (path_not_tail h l xs), after_in.
Qed.

Lemma same_ends l l' xs : xs <> [] -> after_of l xs = after_of l' xs /\ before_of l xs = before_of l' xs.
Proof.
  destruct xs as [| x xs _] using rev_ind; [easy |]. intros _. rewrite !before_of_last.
  split; [| reflexivity]. now destruct xs.
Qed.

(** Unchanged nodes keep their links. *)
Lemma only_links h h' ps x : changes_only h h' ps -> x ∉ ps -> next_of h' x = next_of h x /\ prev_of h' x = prev_of h x.
Proof. intros [_ Hc] Hx. unfold next_of, prev_of. now rewrite (Hc x Hx). Qed.

Definition four_ends (l : aws_linked_list) (ys : list positive) : list positive :=
  [head l; tail l; after_of l ys; before_of l ys].

Lemma four_ends_path l ys x : x ∈ four_ends l ys -> x ∈ path l ys.
Proof.
  unfold four_ends. rewrite !elem_of_cons. intros [-> | [-> | [-> | [-> | H]]]];
    [apply path_head | apply path_tail | apply after_path | apply before_path |]. now apply not_elem_of_nil in H.
Qed.

(** Giving nodes to a list that is or becomes empty. *)
Lemma give_ok h l ys :
  NoDup (path l ys) -> Forall (holds h) (path l ys) ->
  (forall u v, edge ys u v -> next_of h u = Some v /\ prev_of h v = Some u) ->
  prev_of h (head l) = None -> next_of h (tail l) = None ->
  exists h', (if decide (ys = []) then aws_linked_list_init l h else Some (tt, attach l ys h)) = Some (tt, h')
    /\ list_ok h' l ys /\ changes_only h h' (four_ends l ys).
Proof.
  intros Hnd Hh He Hhd Htl. case_decide as E.
  - subst ys. rewrite Forall_forall in Hh. destruct (init_gives h l) as (h' & E & H & Hc).
    { right. split_and!; [apply Hh, path_head | apply Hh, path_tail |]. unfold path in Hnd. cbn in Hnd.
      rewrite NoDup_cons, list_elem_of_singleton in Hnd. tauto. }
    exists h'. split_and!; auto. eapply changes_sub; [exact Hc |]. unfold four_ends. intros x. rewrite !elem_of_cons. tauto.
  - exists (attach l ys h). split; [reflexivity |]. split; [now apply attach_ok | now apply attach_only].
Qed.

Section swap_contents.
Context (h : links) (a b : aws_linked_list) (xs ys : list positive).
Hypothesis (Ha : list_ok h a xs) (Hb : list_ok h b ys).
Hypothesis Hdis : forall x, x ∈ path a xs -> x ∈ path b ys -> False.

Lemma swap_first_half :
  (b_empty ← aws_linked_list_empty b;
   if (b_empty : bool) then aws_linked_list_init a
   else
     bh ← get_node (head b);
     _ ← set_next (head a) (next bh);
     ah ← get_node (head a);
     q ← deref (next ah);
     _ ← set_prev q (Some (head a));
     bt ← get_node (tail b);
     _ ← set_prev (tail a) (prev bt);
     at_ ← get_node (tail a);
     p ← deref (prev at_);
     set_next p (Some (tail a))) h
  = if decide (ys = []) then aws_linked_list_init a h else Some (tt, attach a ys h).
Proof using Ha Hb Hdis.
  erewrite bind_run by exact (empty_run h b ys Hb). case_decide as E; [now rewrite bool_decide_eq_true_2 |].
  rewrite bool_decide_eq_false_2 by exact E.
  pose proof (list_ends _ _ _ Ha) as [_ _ _ _ Hha Hta _ _].
  pose proof (list_ends _ _ _ Hb) as [B1 B2 B3 B4 Hhb Htb Hab Hbb].
  destruct (two_facts h a b xs ys Ha Hb Hdis) as (N1 & N2 & N3 & N4 & N5 & N6 & _ & Fy & _).
  rewrite Forall_forall in Fy. destruct (Fy _ (after_in b ys E)) as (F1 & F2 & F3 & F4).
  destruct (same_ends a b ys E) as [Sa Sb]. unfold attach. rewrite Sa, Sb.
  lrun. rewrite B1. do 2 lrun. autorewrite with links. rewrite decide_True by reflexivity. do 3 lrun.
  autorewrite with links. rewrite decide_False by congruence. rewrite B2. do 2 lrun.
  autorewrite with links. rewrite decide_True by reflexivity. lrun. now rewrite set_next_run by holds.
Qed.

Lemma swap_contents_ok :
  exists h', aws_linked_list_swap_contents a b h = Some (tt, h')
    /\ list_ok h' a ys /\ list_ok h' b xs /\ changes_only h h' (path a xs ++ path b ys).
Proof using Ha Hb Hdis.
  destruct (cross_path h a b xs ys Ha Hb Hdis) as (D1 & D2 & O1 & O2 & Hx).
  destruct (give_ok h a ys D1 O1 (list_edges _ _ _ Hb) (lo_head _ _ _ Ha) (lo_tail _ _ _ Ha)) as (h1 & E1 & G1 & C1).
  assert (forall x, x ∈ path b xs -> next_of h1 x = next_of h x /\ prev_of h1 x = prev_of h x) as K1.
  { intros x Hxb. apply (only_links _ _ _ _ C1). intros Hin. exact (Hx _ (four_ends_path _ _ _ Hin) Hxb). }
  destruct (give_ok h1 b xs D2) as (h2 & E2 & G2 & C2).
  - eapply Forall_impl; [exact O2 |]. intros x. apply C1.
  - intros u v Huv. destruct (edge_in _ _ _ Huv) as [Hu Hv].
    rewrite (proj1 (K1 u (path_elem b xs u Hu))), (proj2 (K1 v (path_elem b xs v Hv))). exact (list_edges _ _ _ Ha u v Huv).
  - rewrite (proj2 (K1 _ (path_head b xs))). exact (lo_head _ _ _ Hb).
  - rewrite (proj1 (K1 _ (path_tail b xs))). exact (lo_tail _ _ _ Hb).
  - exists h2. split_and!.
    + pose proof (list_ends _ _ _ Ha) as [A1 A2 _ _ Hha Hta _ _].
      unfold aws_linked_list_swap_contents. do 2 lrun. rewrite A1, A2.
      pose proof swap_first_half as S1. rewrite E1 in S1. unfold mbind at 1, L_bind at 1 in S1.
      unfold mbind at 1, L_bind at 1. rewrite (empty_run h b ys Hb) in *.
      unfold mbind at 1, L_bind at 1. rewrite S1. rewrite <- E2.
      destruct (decide (xs = [])) as [E | E].
      * now rewrite decide_True by now rewrite E.
      * destruct (ends_differ a xs xs h Ha E) as [Hd _]. rewrite decide_False by congruence.
        destruct (same_ends a b xs E) as [Sa Sb].
        apply attach_run; auto. eapply Forall_impl; [exact O2 |]. intros x. apply C1.
    + apply (list_ok_frame h1 h2 (four_ends b xs)); auto.
      intros x Hxa Hin. exact (Hx _ Hxa (four_ends_path _ _ _ Hin)).
    + exact G2.
    + eapply changes_sub; [exact (changes_trans _ _ _ _ _ C1 C2) |].
      intros x. rewrite !elem_of_app. intros [H | H]; apply four_ends_path in H;
        rewrite elem_of_path in H; rewrite !elem_of_path; tauto.
Qed.
End swap_contents.

(** ** Moving a whole list

    Both moves splice the nodes [ys] of [src] between two neighbours of
    [dst]. *)
Section splice.
Context (h : links) (dst src : aws_linked_list) (zs1 zs2 ys : list positive).
Hypothesis (Hd : list_ok h dst (zs1 ++ zs2)) (Hs : list_ok h src ys) (Hne : ys <> []).
Hypothesis Hdis : forall x, x ∈ path dst (zs1 ++ zs2) -> x ∈ path src ys -> False.

Definition spliced_next : positive -> option positive :=
  <[head src := Some (tail src)]>
    (<[before_of src ys := Some (after_of dst zs2)]> (<[before_of dst zs1 := Some (after_of src ys)]> (next_of h))).
Definition spliced_prev : positive -> option positive :=
  <[tail src := Some (head src)]>
    (<[after_of dst zs2 := Some (before_of src ys)]> (<[after_of src ys := Some (before_of dst zs1)]> (prev_of h))).

Lemma dst_not_src x : x ∈ path dst (zs1 ++ zs2) ->
  x <> head src /\ x <> tail src /\ x <> after_of src ys /\ x <> before_of src ys.
Proof using Hdis.
  intros H. pose proof (path_head src ys). pose proof (path_tail src ys).
  pose proof (after_path src ys). pose proof (before_path src ys).
  split_and!; intros E; rewrite E in *; eauto.
Qed.

Lemma src_distinct :
  head src <> tail src /\ after_of src ys <> head src /\ after_of src ys <> tail src
  /\ before_of src ys <> head src /\ before_of src ys <> tail src.
Proof using Hs Hne.
  destruct (path_not_tail h src ys _ Hs (after_in src ys Hne)).
  destruct (path_not_tail h src ys _ Hs (before_in src ys Hne)). split_and!; auto.
  intros E. pose proof (lo_nodup _ _ _ Hs) as Hnd. unfold path in Hnd. rewrite NoDup_cons in Hnd.
  destruct Hnd as [Hnd _]. apply Hnd. rewrite E, elem_of_app, list_elem_of_singleton. auto.
Qed.

(** An edge of [dst] other than the one the splice replaces. *)
Lemma kept_edge u v :
  edge (path dst (zs1 ++ zs2)) u v -> u <> before_of dst zs1 -> v <> after_of dst zs2 ->
  spliced_next u = Some v /\ spliced_prev v = Some u.
Proof using Hd Hdis.
  intros H Hu Hv. destruct (edge_in _ _ _ H) as [Iu Iv].
  destruct (dst_not_src u Iu) as (? & ? & ? & ?), (dst_not_src v Iv) as (? & ? & ? & ?).
  destruct (lo_edge _ _ _ Hd u v H). unfold spliced_next, spliced_prev. split; links_simpl; auto.
Qed.

(** An edge of the spliced run, its two new ends included. *)
Lemma run_edge u v :
  edge (path (mk_list (before_of dst zs1) (after_of dst zs2)) ys) u v ->
  spliced_next u = Some v /\ spliced_prev v = Some u.
Proof using Hd Hs Hne Hdis.
  destruct src_distinct as (N1 & N2 & N3 & N4 & N5).
  destruct (neighbours h dst zs1 zs2 Hd) as (_ & _ & _ & _ & I1 & I2).
  destruct (dst_not_src _ I1) as (? & ? & ? & ?), (dst_not_src _ I2) as (? & ? & ? & ?).
  set (l := mk_list _ _). destruct (same_ends l src ys Hne) as [G1 G2].
  rewrite edge_path, G1, G2. unfold spliced_next, spliced_prev. intros [[-> ->] | [Hi | (_ & -> & ->)]].
  - cbn [head l]. split; links_simpl.
  - destruct (inner_edge src ys u v (lo_nodup _ _ _ Hs) Hi) as (Hu & Hv & J1 & J2 & J3 & J4 & J5 & J6).
    destruct (list_edges _ _ _ Hs u v Hi).
    assert (u <> before_of dst zs1) by (intros ->; exact (Hdis _ I1 (path_elem _ _ _ Hu))).
    assert (v <> after_of dst zs2) by (intros ->; exact (Hdis _ I2 (path_elem _ _ _ Hv))).
    split; links_simpl; auto.
  - cbn [tail l]. split; links_simpl.
Qed.

Lemma splice_path : NoDup (path dst (zs1 ++ ys ++ zs2)) /\ Forall (holds h) (path dst (zs1 ++ ys ++ zs2)).
Proof using Hd Hs Hdis.
  assert (path dst (zs1 ++ ys ++ zs2) ≡ₚ path dst (zs1 ++ zs2) ++ ys) as E.
  { unfold path. cbn. rewrite <- !app_assoc. apply Permutation_skip, Permutation_app_head.
    rewrite (Permutation_app_comm ys). now rewrite <- app_assoc. }
  pose proof (lo_holds _ _ _ Hd) as Od. pose proof (lo_holds _ _ _ Hs) as Os. rewrite E. split.
  - apply NoDup_app. split_and!; [exact (lo_nodup _ _ _ Hd) | | exact (list_nodup _ _ _ Hs)].
    intros x H1 H2. exact (Hdis x H1 (path_elem _ _ _ H2)).
  - apply Forall_app. split; [exact Od |]. rewrite Forall_forall in *. intros x Hx. now apply Os, path_elem.
Qed.

Lemma splice_ok h' :
  becomes h h' spliced_next spliced_prev ->
  list_ok h' dst (zs1 ++ ys ++ zs2) /\ list_ok h' src []
  /\ changes_only h h' (path dst (zs1 ++ zs2) ++ path src ys).
Proof using Hd Hs Hne Hdis.
  intros Hb. destruct splice_path as [Hnd Hho]. destruct src_distinct as (N1 & N2 & N3 & N4 & N5).
  destruct (neighbours h dst zs1 zs2 Hd) as (K1 & K2 & _ & _ & I1 & I2).
  pose proof (lo_head _ _ _ Hd) as L1. pose proof (lo_tail _ _ _ Hd) as L2.
  pose proof (lo_head _ _ _ Hs) as L3. pose proof (lo_tail _ _ _ Hs) as L4.
  destruct (dst_not_src _ I1) as (? & ? & ? & ?), (dst_not_src _ I2) as (? & ? & ? & ?).
  destruct (dst_not_src _ (path_head _ _)) as (? & ? & ? & ?), (dst_not_src _ (path_tail _ _)) as (? & ? & ? & ?).
  pose proof (list_ends _ _ _ Hs) as [_ _ _ _ Hh Ht _ _]. pose proof (lo_nodup _ _ _ Hd) as Hnp.
  destruct (path_split dst zs1 zs2) as (p & r & Ep & Eq).
  assert ((before_of dst zs1 ∉ p) /\ ~ before_of dst zs1 ∈ (after_of dst zs2 :: r) /\ (after_of dst zs2 ∉ r)
          /\ (forall x, x ∈ (p ++ [before_of dst zs1]) -> x <> after_of dst zs2)) as (P1 & P2 & P3 & P4).
  { rewrite Ep in Hnp. apply NoDup_app in Hnp as (_ & U2 & U3). rewrite !NoDup_cons in U3.
    destruct U3 as (U3 & U4 & _). split_and!; auto; [intros H'; apply (U2 _ H'), elem_of_cons; auto |].
    intros x Hx ->. apply elem_of_app in Hx as [Hx | Hx%list_elem_of_singleton].
    - apply (U2 _ Hx). rewrite !elem_of_cons. auto.
    - apply U3. rewrite <- Hx, elem_of_cons. auto. }
  split_and!.
  - apply (list_ok_becomes h h' _ _ dst _ Hb Hnd Hho).
    + intros u v. rewrite Eq, edge_app. intros [H' | H'].
      * apply kept_edge; [rewrite Ep, edge_app; auto | | apply P4; now destruct (edge_in _ _ _ H')].
        intros ->. now apply edge_source in H'.
      * change (_ :: ys ++ _) with ((before_of dst zs1 :: ys) ++ after_of dst zs2 :: r) in H'. rewrite edge_app in H'.
        destruct H' as [H' | H']; [now apply run_edge |].
        apply kept_edge; [rewrite Ep, edge_app, edge_cons; auto | | intros ->; now apply edge_target in H'].
        intros ->. now destruct (edge_in _ _ _ H').
    + unfold spliced_prev. links_simpl.
    + unfold spliced_next. links_simpl.
  - apply (list_ok_becomes h h' _ _ src [] Hb); unfold path, spliced_next, spliced_prev; cbn.
    + rewrite !NoDup_cons, NoDup_nil, list_elem_of_singleton. auto using not_elem_of_nil.
    + auto.
    + intros u v [[-> ->] | []]. links_simpl. auto.
    + links_simpl.
    + links_simpl.
  - apply (becomes_only _ _ _ _ _ Hb). intros x. rewrite not_elem_of_app. intros [X1 X2].
    pose proof (before_path src ys). pose proof (after_path src ys). pose proof (path_head src ys).
    pose proof (path_tail src ys). unfold spliced_next, spliced_prev. split; links_simpl.
Qed.
End splice.

Section moves.
Context (h : links) (dst src : aws_linked_list) (xs ys : list positive).
Hypothesis (Hd : list_ok h dst xs) (Hs : list_ok h src ys).
Hypothesis Hdis : forall x, x ∈ path dst xs -> x ∈ path src ys -> False.

Lemma nothing_moved (f : aws_linked_list -> aws_linked_list -> L unit) :
  f dst src h = Some (tt, h) -> ys = [] ->
  exists h', f dst src h = Some (tt, h')
    /\ list_ok h' dst xs /\ list_ok h' src [] /\ changes_only h h' (path dst xs ++ path src ys).
Proof using Hd Hs.
  clear Hdis. intros E ->. exists h. split_and!; auto. split; auto.
Qed.

Lemma move_all_back_ok :
  exists h', aws_linked_list_move_all_back dst src h = Some (tt, h')
    /\ list_ok h' dst (xs ++ ys) /\ list_ok h' src [] /\ changes_only h h' (path dst xs ++ path src ys).
Proof using Hd Hs Hdis.
  pose proof (empty_run h src ys Hs) as He. destruct (decide (ys = [])) as [E | Hne].
  { replace (xs ++ ys) with xs by now rewrite E, app_nil_r. apply nothing_moved; [| exact E]. unfold aws_linked_list_move_all_back.
    erewrite bind_run by exact He. now rewrite bool_decide_eq_true_2. }
  pose proof (list_ends _ _ _ Hd) as [D1 D2 D3 D4 D5 D6 D7 D8].
  pose proof (list_ends _ _ _ Hs) as [S1 S2 S3 S4 S5 S6 S7 S8].
  unfold aws_linked_list_move_all_back. erewrite bind_run by exact He.
  rewrite bool_decide_eq_false_2 by exact Hne. do 3 lrun. rewrite D2, S1, S2. do 8 lrun.
  rewrite set_prev_run by holds. eexists. split; [reflexivity |].
  pose proof (splice_ok h dst src xs [] ys) as H. rewrite !app_nil_r in H. apply H; auto. unfold spliced_next, spliced_prev. change (after_of dst []) with (tail dst).
  constructor; intros x; [links_simpl | links_simpl | holds; reflexivity].
Qed.

Lemma move_all_front_ok :
  exists h', aws_linked_list_move_all_front dst src h = Some (tt, h')
    /\ list_ok h' dst (ys ++ xs) /\ list_ok h' src [] /\ changes_only h h' (path dst xs ++ path src ys).
Proof using Hd Hs Hdis.
  pose proof (empty_run h src ys Hs) as He. destruct (decide (ys = [])) as [E | Hne].
  { replace (ys ++ xs) with xs by now rewrite E. apply nothing_moved; [| exact E]. unfold aws_linked_list_move_all_front.
    erewrite bind_run by exact He. now rewrite bool_decide_eq_true_2. }
  pose proof (list_ends _ _ _ Hd) as [D1 D2 D3 D4 D5 D6 D7 D8].
  pose proof (list_ends _ _ _ Hs) as [S1 S2 S3 S4 S5 S6 S7 S8].
  unfold aws_linked_list_move_all_front. erewrite bind_run by exact He.
  rewrite bool_decide_eq_false_2 by exact Hne. do 3 lrun. rewrite D1, S1, S2. do 8 lrun.
  rewrite set_prev_run by holds. eexists. split; [reflexivity |].
  apply (splice_ok h dst src [] xs ys Hd Hs Hne Hdis). unfold spliced_next, spliced_prev.
  change (before_of dst []) with (head dst).
  constructor; intros x; [links_simpl | links_simpl | holds; reflexivity].
Qed.
End moves.

(** on two valid lists that share no node, [aws_linked_list_swap_contents]
    exchanges the contents, and [aws_linked_list_move_all_back] and
    [aws_linked_list_move_all_front] append or prepend the contents of [src]
    to [dst] in order and leave [src] empty - whichever of the lists is empty;
    both lists remain valid and no other node is touched. *)
Theorem linked_list_moves_correct h dst src xs ys :
  list_ok h dst xs -> list_ok h src ys -> path dst xs ## path src ys ->
  forall op dst' src',
    In (op, dst', src')
      [(aws_linked_list_swap_contents, ys, xs);
       (aws_linked_list_move_all_back, xs ++ ys, []);
       (aws_linked_list_move_all_front, ys ++ xs, [])] ->
  exists h', op dst src h = Some (tt, h')
    /\ reads h' dst dst' /\ reads h' src src' /\ list_ok h' dst dst' /\ list_ok h' src src'
    /\ changes_only h h' (path dst xs ++ path src ys).
Proof.
  intros Hd Hs Hdis op dst' src' Hin.
  assert (exists h', op dst src h = Some (tt, h') /\ list_ok h' dst dst' /\ list_ok h' src src'
    /\ changes_only h h' (path dst xs ++ path src ys)) as (h' & E & H1 & H2 & H3).
  { destruct Hin as [[= <- <- <-] | [[= <- <- <-] | [[= <- <- <-] | []]]].
    - now apply swap_contents_ok.
    - now apply move_all_back_ok.
    - now apply move_all_front_ok. }
  exists h'. split_and!; auto using list_reads.
Qed.

(** ** The deep check *)

Definition chain (h : links) (c : list positive) : Prop :=
  forall u v, edge c u v -> next_of h u = Some v /\ prev_of h v = Some u.

Lemma chain_nodup h p c : prev_of h p = None -> chain h (p :: c) -> NoDup (p :: c).
Proof.
  intros Hp. induction c as [| q c IH] using rev_ind; intros Hc; [apply NoDup_singleton |].
  assert (NoDup (p :: c)) as Hnd.
  { apply IH. intros u v Huv. apply Hc. destruct c as [| y c _] using rev_ind; [easy |].
    replace (p :: (c ++ [y]) ++ [q]) with ((p :: c) ++ y :: [q]) by (cbn; now rewrite <- app_assoc).
    rewrite edge_app. auto. }
  rewrite app_comm_cons. apply NoDup_app. split_and!; [exact Hnd | | apply NoDup_singleton].
  intros x Hx ->%list_elem_of_singleton.
  destruct (@exists_last _ (p :: c)) as (c' & w & E); [easy |].
  assert (edge ((p :: c) ++ [q]) w q) as Hwq by (rewrite E, <- app_assoc; cbn [app]; rewrite edge_app; cbn; auto).
  destruct (Hc _ _ Hwq) as [_ Hq]. rewrite E in Hx, Hnd. apply NoDup_app in Hnd as (_ & Hw & _).
  destruct (list_elem_of_split _ _ Hx) as (l1 & l2 & El). destruct l1 as [| u l1 _] using rev_ind.
  - cbn in El. rewrite <- E in El. injection El as ->. congruence.
  - assert (edge ((p :: c) ++ [q]) u q) as Huq.
    { rewrite E, El, <- !app_assoc. cbn [app]. rewrite edge_app, edge_cons. auto. }
    destruct (Hc _ _ Huq) as [_ Hq']. assert (u = w) as -> by congruence.
    destruct (@exists_last _ (q :: l2)) as (m & z & Em); [easy |]. rewrite Em, app_assoc in El.
    apply app_inj_tail in El as [-> ->]. apply (Hw z); [set_solver | now apply list_elem_of_singleton].
Qed.

Lemma held_bound h c : NoDup c -> Forall (holds h) c -> (length c <= size h)%nat.
Proof.
  intros Hnd Hc. rewrite <- (size_list_to_set (C := gset positive) c Hnd), <- size_dom. apply subseteq_size.
  intros x. rewrite elem_of_list_to_set, elem_of_dom. rewrite Forall_forall in Hc. apply Hc.
Qed.

Section deep.
Context (h : links) (l : aws_linked_list).
Hypothesis closed : forall x q, next_of h x = Some q -> holds h q.
Hypothesis no_prev : prev_of h (head l) = None.

Lemma node_next_valid_run p : holds h p ->
  aws_linked_list_node_next_is_valid (Some p) h
  = Some (match next_of h p with Some q => bool_decide (prev_of h q = Some p) | None => false end, h).
Proof using closed.
  intros Hp. cbn. lrun. destruct (next_of h p) as [q |] eqn:E; [| reflexivity].
  pose proof (closed p q E). now lrun.
Qed.

Lemma valid_deep_loop_ok fuel c p :
  chain h (c ++ [p]) -> Forall (holds h) (c ++ [p]) -> hd_error (c ++ [p]) = Some (head l) ->
  (size h < length c + fuel)%nat ->
  exists b, valid_deep_loop fuel l (Some p) h = Some (Some b, h)
    /\ (b = true <-> exists xs, chain h (p :: xs) /\ last (p :: xs) = Some (tail l)).
Proof using closed no_prev.
  revert c p. induction fuel as [| fuel IH]; intros c p Hc Hh Hhd Hf.
  { exfalso. destruct (c ++ [p]) as [| x r] eqn:E; [easy |]. injection Hhd as ->.
    pose proof (held_bound h _ (chain_nodup h _ _ no_prev Hc) Hh) as Hb. rewrite <- E, length_app in Hb. cbn in Hb. lia. }
  cbn [valid_deep_loop]. case_decide as Ep.
  { exists true. split; [reflexivity |]. split; [| auto]. intros _. exists []. split; [easy | cbn; congruence]. }
  assert (holds h p) as Hp by (rewrite Forall_forall in Hh; apply Hh; set_solver).
  erewrite bind_run by exact (node_next_valid_run p Hp).
  assert (forall xs, chain h (p :: xs) -> last (p :: xs) = Some (tail l) ->
    exists q xs', xs = q :: xs' /\ next_of h p = Some q /\ prev_of h q = Some p /\ chain h (q :: xs')
      /\ last (q :: xs') = Some (tail l)) as Hstep.
  { intros [| q xs'] H1 H2; [cbn in H2; congruence |]. exists q, xs'. destruct (H1 p q) as [E1 E2]; [rewrite edge_cons; auto |].
    split_and!; auto. intros u v Huv. apply H1. rewrite edge_cons. auto. }
  destruct (next_of h p) as [q |] eqn:E; [case_bool_decide as Eq |]; cbn [negb].
  - lrun. rewrite E. destruct (IH (c ++ [p]) q) as (b & Eb & Hb).
    + intros u v. rewrite <- app_assoc. cbn [app]. rewrite edge_app.
      intros [H | [[-> ->] | []]]; auto.
    + apply Forall_app. split; [exact Hh |]. constructor; [eauto | constructor].
    + rewrite <- Hhd. destruct c; reflexivity.
    + rewrite length_app. cbn. lia.
    + exists b. split; [exact Eb |]. rewrite Hb. split.
      * intros (xs & H1 & H2). exists (q :: xs). split.
        -- intros u v. rewrite edge_cons. intros [[-> ->] | H]; auto.
        -- exact H2.
      * intros (xs & H1 & H2). destruct (Hstep xs H1 H2) as (q' & xs' & -> & E1 & _ & H3 & H4).
        injection E1 as <-. eauto.
  - exists false. split; [reflexivity |]. split; [easy |]. intros (xs & H1 & H2).
    destruct (Hstep xs H1 H2) as (q' & xs' & -> & [= <-] & ? & _). easy.
  - exists false. split; [reflexivity |]. split; [easy |]. intros (xs & H1 & H2).
    now destruct (Hstep xs H1 H2) as (q' & xs' & -> & ? & _).
Qed.
End deep.

(** on a store in which every pointer leads to a node, the loop of
    [aws_linked_list_is_valid_deep] ends for any list that passes
    [aws_linked_list_is_valid]'s test of the sentinels - whatever the links
    between them are, cycles included, it visits no node twice - and answers
    whether head and tail are connected by a list linked correctly in both
    directions. *)
Theorem valid_deep_terminates h l :
  (forall x q, next_of h x = Some q -> holds h q) -> holds h (head l) -> head l <> tail l ->
  prev_of h (head l) = None -> next_of h (tail l) = None ->
  exists b, (forall fuel, (size h < fuel)%nat -> aws_linked_list_is_valid_deep fuel l h = Some (Some b, h))
    /\ (b = true <-> exists xs, list_ok h l xs).
Proof.
  intros Hcl Hh Hne Hp Hn.
  assert (forall fuel, (size h < fuel)%nat -> exists b, aws_linked_list_is_valid_deep fuel l h = Some (Some b, h)
    /\ (b = true <-> exists xs, chain h (head l :: xs) /\ last (head l :: xs) = Some (tail l))) as Hrun.
  { intros fuel Hf. apply (valid_deep_loop_ok h l Hcl Hp fuel [] (head l)); cbn [app hd_error length]; [easy | auto | reflexivity | lia]. }
  destruct (Hrun (S (size h)) (Nat.lt_succ_diag_r _)) as (b & _ & Hb). exists b. split.
  - intros fuel Hf. destruct (Hrun fuel Hf) as (b' & E & Hb'). rewrite E. do 3 f_equal.
    apply eq_true_iff_eq. now rewrite Hb, Hb'.
  - rewrite Hb. split; intros [xs H].
    + destruct H as [Hc Hl]. destruct xs as [| t xs _] using rev_ind; [cbn in Hl; congruence |].
      rewrite app_comm_cons, last_snoc in Hl. injection Hl as ->. exists xs.
      pose proof (chain_nodup h _ _ Hp Hc) as Hnd. constructor; auto.
      apply Forall_forall. intros x [-> | Hx]%elem_of_cons; [exact Hh |].
      destruct (list_elem_of_split _ _ Hx) as (l1 & l2 & E). destruct (@exists_last _ (head l :: l1)) as (l3 & y & E'); [easy |].
      apply (Hcl y). apply (Hc y x). rewrite E, app_comm_cons, E', <- app_assoc. cbn [app]. rewrite edge_app, edge_cons. auto.
    + exists (xs ++ [tail l]). split; [exact (lo_edge _ _ _ H) |]. now rewrite app_comm_cons, last_snoc.
Qed.

(** Two lists, [1 .. 2] over [5] and [3 .. 4] over [6]. *)
Definition two_lists_store : links :=
  list_to_map [(1%positive, mk_node (Some 5%positive) None); (5%positive, mk_node (Some 2%positive) (Some 1%positive));
    (2%positive, mk_node None (Some 5%positive));
    (3%positive, mk_node (Some 6%positive) None); (6%positive, mk_node (Some 4%positive) (Some 3%positive));
    (4%positive, mk_node None (Some 6%positive))].

Lemma linked_list_moves_correct_witness :
  exists h', aws_linked_list_move_all_front (mk_list 1 2) (mk_list 3 4) two_lists_store = Some (tt, h')
    /\ reads h' (mk_list 1 2) [6%positive; 5%positive] /\ reads h' (mk_list 3 4) [].
Proof.
  destruct (linked_list_moves_correct two_lists_store (mk_list 1 2) (mk_list 3 4) [5%positive] [6%positive])
    with (op := aws_linked_list_move_all_front) (dst' := [6%positive; 5%positive]) (src' := @nil positive)
    as (h' & E & H1 & H2 & _).
  - apply list_ok_intro; try reflexivity; [apply (bool_decide_unpack _); reflexivity | repeat constructor; eexists; reflexivity | easy].
  - apply list_ok_intro; try reflexivity; [apply (bool_decide_unpack _); reflexivity | repeat constructor; eexists; reflexivity | easy].
  - unfold path. cbn. set_solver.
  - cbn. auto.
  - exists h'. auto.
Defined.

(** A list whose nodes [3] and [4] run in a circle. *)
Definition cyclic_store : links :=
  list_to_map [(1%positive, mk_node (Some 3%positive) None); (2%positive, mk_node None (Some 4%positive));
    (3%positive, mk_node (Some 4%positive) (Some 1%positive)); (4%positive, mk_node (Some 3%positive) (Some 3%positive))].

Lemma valid_deep_terminates_witness :
  (exists b, aws_linked_list_is_valid_deep 5 (mk_list 1 2) cyclic_store = Some (Some b, cyclic_store))
  /\ aws_linked_list_is_valid_deep 5 (mk_list 1 2) cyclic_store = Some (Some false, cyclic_store).
Proof.
  split; [| vm_compute; reflexivity].
  destruct (valid_deep_terminates cyclic_store (mk_list 1 2)) as (b & E & _); try reflexivity.
  - intros x q. unfold next_of, cyclic_store. cbn [list_to_map foldr curry].
    destruct (decide (x = 1%positive)) as [-> |]; [intros [= <-]; now eexists |].
    destruct (decide (x = 2%positive)) as [-> |]; [easy |].
    destruct (decide (x = 3%positive)) as [-> |]; [intros [= <-]; now eexists |].
    destruct (decide (x = 4%positive)) as [-> |]; [intros [= <-]; now eexists |].
    cbn. rewrite !lookup_insert_ne by congruence. easy.
  - now eexists.
  - discriminate.
  - exists b. apply E. vm_compute. lia.
Defined.
