(* ===== verification/LinkedLists.v ===== *)
(** * Several linked lists in one store

    Lists that share no node: an operation on one of them leaves the others
    as they are. *)

From S2P Require Import Prelude LinkedList LinkedListSpec LinkedListOps LinkedListMove.
Import LinkedList.

Local Open Scope Z_scope.

(** A list and its content. *)
Definition listing : Type := aws_linked_list * list positive.

Definition listing_path (p : listing) : list positive := path p.1 p.2.

Definition all_paths (ls : list listing) : list positive := concat (map listing_path ls).
Definition all_elems (ls : list listing) : list positive := concat (map snd ls).

Record lists_ok (h : links) (ls : list listing) : Prop := {
  ls_each : Forall (fun p => list_ok h p.1 p.2) ls;
  ls_apart : NoDup (all_paths ls)
}.

Lemma concat_perm {A} (ls ls' : list (list A)) : ls ≡ₚ ls' -> concat ls ≡ₚ concat ls'.
Proof.
  induction 1 as [| x l l' _ IH | x y l | l1 l2 l3 _ IH1 _ IH2]; cbn; auto.
  - now rewrite IH.
  - rewrite !app_assoc. apply Permutation_app_tail, Permutation_app_comm.
  - now rewrite IH1.
Qed.

#[export] Instance all_paths_perm : Proper ((≡ₚ) ==> (≡ₚ)) all_paths.
Proof. intros ls ls' H. unfold all_paths. now apply concat_perm, Permutation_map. Qed.

#[export] Instance all_elems_perm : Proper ((≡ₚ) ==> (≡ₚ)) all_elems.
Proof. intros ls ls' H. unfold all_elems. now apply concat_perm, Permutation_map. Qed.

#[export] Instance lists_ok_perm h : Proper ((≡ₚ) ==> iff) (lists_ok h).
Proof.
  assert (forall ls ls', ls ≡ₚ ls' -> lists_ok h ls -> lists_ok h ls') as H.
  { intros ls ls' HP [H1 H2]. split; now rewrite <- HP. }
  intros ls ls' HP. split; apply H; [exact HP | now symmetry].
Qed.

Lemma all_paths_cons l xs ls : all_paths ((l, xs) :: ls) = path l xs ++ all_paths ls.
Proof. reflexivity. Qed.

Lemma all_elems_cons (l : aws_linked_list) xs ls : all_elems ((l, xs) :: ls) = xs ++ all_elems ls.
Proof. reflexivity. Qed.

Lemma elems_paths ls x : x ∈ all_elems ls -> x ∈ all_paths ls.
Proof.
  induction ls as [| [l xs] ls IH]; [easy |]. rewrite all_elems_cons, all_paths_cons, !elem_of_app.
  intros [H | H]; [left; now apply path_elem | right; auto].
Qed.

Lemma path_in_all p ls x : p ∈ ls -> x ∈ path p.1 p.2 -> x ∈ all_paths ls.
Proof.
  intros Hp Hx. unfold all_paths. apply list_elem_of_In, in_concat. exists (listing_path p).
  split; [apply in_map, list_elem_of_In, Hp | apply list_elem_of_In, Hx].
Qed.

(** Lists away from what changed. *)
Lemma lists_frame h h' ps ls :
  Forall (fun p => list_ok h p.1 p.2) ls -> changes_only h h' ps -> (forall x, x ∈ ps -> x ∉ all_paths ls) ->
  Forall (fun p => list_ok h' p.1 p.2) ls.
Proof.
  intros H Hc Hp. rewrite Forall_forall in *. intros p Hin. apply (list_ok_frame h h' ps); auto.
  intros x Hx Hps. exact (Hp x Hps (path_in_all p ls x Hin Hx)).
Qed.

Section lists.
Context (h : links) (l : aws_linked_list) (ls : list listing).

Lemma lists_head xs : lists_ok h ((l, xs) :: ls) -> list_ok h l xs.
Proof using. intros [H _]. now apply Forall_cons in H. Qed.

Lemma lists_apart xs x : lists_ok h ((l, xs) :: ls) -> x ∈ path l xs -> x ∉ all_paths ls.
Proof using. intros [_ H]. rewrite all_paths_cons in H. apply NoDup_app in H as (_ & H & _). apply H. Qed.

(** Replacing the content of the first list. *)
Lemma lists_change h' xs ys ps :
  lists_ok h ((l, xs) :: ls) -> list_ok h' l ys -> changes_only h h' ps ->
  (forall x, x ∈ ps -> x ∉ all_paths ls) -> (forall x, x ∈ path l ys -> x ∉ all_paths ls) ->
  lists_ok h' ((l, ys) :: ls).
Proof using.
  intros [H1 H2] Hl Hc Hp Hy. apply Forall_cons in H1 as [_ H1]. rewrite all_paths_cons in H2.
  apply NoDup_app in H2 as (_ & _ & H2). split.
  - constructor; [exact Hl | exact (lists_frame h h' ps ls H1 Hc Hp)].
  - rewrite all_paths_cons. apply NoDup_app. split_and!; auto. exact (lo_nodup _ _ _ Hl).
Qed.

Lemma lists_push_back xs x :
  lists_ok h ((l, xs) :: ls) -> holds h x -> x ∉ all_paths ((l, xs) :: ls) ->
  exists h', aws_linked_list_push_back l x h = Some (tt, h')
    /\ lists_ok h' ((l, xs ++ [x]) :: ls) /\ changes_only h h' (x :: path l xs).
Proof using.
  intros H Hx Hn. rewrite all_paths_cons, not_elem_of_app in Hn. destruct Hn as [N1 N2].
  destruct (list_push_back_ok h l xs x (lists_head _ H) Hx N1) as (h' & E & Hl & Hc).
  exists h'. split_and!; auto. apply (lists_change h' xs _ _ H Hl Hc).
  - intros y [-> | Hy]%elem_of_cons; [exact N2 | exact (lists_apart xs y H Hy)].
  - intros y. rewrite elem_of_path, elem_of_app, list_elem_of_singleton. intros Hy.
    destruct (decide (y = x)) as [-> | Hne]; [exact N2 |]. apply (lists_apart xs y H). rewrite elem_of_path. tauto.
Qed.

Lemma lists_remove xs1 x xs2 :
  lists_ok h ((l, xs1 ++ x :: xs2) :: ls) ->
  exists h', aws_linked_list_remove x h = Some (tt, h')
    /\ lists_ok h' ((l, xs1 ++ xs2) :: ls) /\ changes_only h h' (path l (xs1 ++ x :: xs2))
    /\ h' !! x = Some (mk_node None None).
Proof using.
  intros H. destruct (remove_ok h l xs1 x xs2 (lists_head _ H)) as (h' & E & Hl & Hc & Hx).
  exists h'. split_and!; auto. apply (lists_change h' _ _ _ H Hl Hc); intros y Hy; apply (lists_apart _ y H); auto.
  revert Hy. rewrite !elem_of_path, !elem_of_app, elem_of_cons. tauto.
Qed.

Lemma lists_pop_front x xs :
  lists_ok h ((l, x :: xs) :: ls) ->
  exists h', aws_linked_list_pop_front l h = Some (x, h')
    /\ lists_ok h' ((l, xs) :: ls) /\ changes_only h h' (path l (x :: xs)) /\ h' !! x = Some (mk_node None None).
Proof using.
  intros H. destruct (list_pop_front_ok h l xs x (lists_head _ H)) as (h' & E & Hl & Hc & Hx).
  exists h'. split_and!; auto. apply (lists_change h' _ _ _ H Hl Hc); intros y Hy; apply (lists_apart _ y H); auto.
  revert Hy. rewrite !elem_of_path, elem_of_cons. tauto.
Qed.

Lemma lists_insert xs ys x :
  lists_ok h ((l, xs ++ ys) :: ls) -> holds h x -> x ∉ all_paths ((l, xs ++ ys) :: ls) ->
  exists h', aws_linked_list_insert_before (after_of l ys) x h = Some (tt, h')
    /\ lists_ok h' ((l, xs ++ x :: ys) :: ls) /\ changes_only h h' (x :: path l (xs ++ ys)).
Proof using.
  intros H Hx Hn. rewrite all_paths_cons, not_elem_of_app in Hn. destruct Hn as [N1 N2].
  destruct (insert_ok h l xs ys x (lists_head _ H) Hx N1) as (h' & E & Hl & Hc).
  exists h'. split_and!; auto. apply (lists_change h' (xs ++ ys) _ _ H Hl Hc).
  - intros y [-> | Hy]%elem_of_cons; [exact N2 | exact (lists_apart _ y H Hy)].
  - intros y. rewrite elem_of_path, elem_of_app, elem_of_cons. intros Hy.
    destruct (decide (y = x)) as [-> | Hne]; [exact N2 |]. apply (lists_apart _ y H). rewrite elem_of_path, elem_of_app. tauto.
Qed.

(** A node that is in no list. *)
Lemma lists_touch xs x n :
  lists_ok h ((l, xs) :: ls) -> holds h x -> x ∉ all_paths ((l, xs) :: ls) -> lists_ok (<[x := n]> h) ((l, xs) :: ls).
Proof using.
  intros H Hx Hn. apply (lists_change _ xs _ [x] H).
  - apply (list_ok_same h); [| exact (lists_head _ H)]. intros y Hy. apply lookup_insert_ne. intros ->.
    apply Hn. rewrite all_paths_cons, elem_of_app. auto.
  - split; [intros y; now apply holds_insert |]. intros y Hy. rewrite list_elem_of_singleton in Hy. apply lookup_insert_ne. congruence.
  - intros y ->%list_elem_of_singleton. rewrite all_paths_cons, not_elem_of_app in Hn. tauto.
  - intros y Hy. exact (lists_apart xs y H Hy).
Qed.

(** A new list on memory that belongs to no list. *)
Lemma lists_init (hd_l : aws_linked_list) :
  lists_ok h ls -> holds h (head hd_l) -> holds h (tail hd_l) -> head hd_l <> tail hd_l ->
  head hd_l ∉ all_paths ls -> tail hd_l ∉ all_paths ls ->
  exists h', aws_linked_list_init hd_l h = Some (tt, h') /\ lists_ok h' ((hd_l, []) :: ls)
    /\ changes_only h h' [head hd_l; tail hd_l].
Proof using.
  intros [H1 H2] Hh Ht Hne N1 N2. destruct (init_ok h hd_l Hh Ht Hne) as (h' & E & Hl & Hc).
  exists h'. split_and!; auto. split.
  - constructor; [exact Hl |]. apply (lists_frame h h' _ ls H1 Hc).
    intros x. rewrite !elem_of_cons. intros [-> | [-> | Hx'%not_elem_of_nil]]; easy.
  - rewrite all_paths_cons. apply NoDup_app. split_and!; auto; [exact (lo_nodup _ _ _ Hl) |].
    intros x. rewrite elem_of_path. intros [-> | [Hx%not_elem_of_nil | ->]]; easy.
Qed.
End lists.

Lemma lists_swap h a b xs ys ls :
  lists_ok h ((a, xs) :: (b, ys) :: ls) ->
  exists h', aws_linked_list_swap_contents a b h = Some (tt, h')
    /\ lists_ok h' ((a, ys) :: (b, xs) :: ls) /\ changes_only h h' (path a xs ++ path b ys).
Proof.
  intros H. pose proof (lists_head _ _ _ _ H) as Ha. destruct H as [H1 H2].
  apply Forall_cons in H1 as [_ H1]. apply Forall_cons in H1 as [Hb H1]. cbn [fst snd] in Hb.
  rewrite !all_paths_cons in H2. apply NoDup_app in H2 as (_ & N1 & H2). apply NoDup_app in H2 as (_ & N2 & H2).
  destruct (swap_contents_ok h a b xs ys Ha Hb) as (h' & E & Ha' & Hb' & Hc).
  { intros x Hx Hy. apply (N1 x Hx), elem_of_app. auto. }
  exists h'. split_and!; auto.
  assert (forall x, x ∈ path a ys \/ x ∈ path b xs -> x ∈ path a xs ++ path b ys) as Hsub
    by (intros x; rewrite elem_of_app, !elem_of_path; tauto).
  assert (forall x, x ∈ path a xs ++ path b ys -> x ∉ all_paths ls) as Hout.
  { intros x [Hx | Hx]%elem_of_app; [| exact (N2 x Hx)]. intros Hl. apply (N1 x Hx), elem_of_app. auto. }
  split.
  - constructor; [exact Ha' |]. constructor; [exact Hb' | exact (lists_frame h h' _ ls H1 Hc Hout)].
  - rewrite !all_paths_cons. destruct (cross_path h a b xs ys Ha Hb) as (D1 & D2 & _ & _ & D3).
    { intros x Hx Hy. apply (N1 x Hx), elem_of_app. auto. }
    apply NoDup_app. split_and!; auto.
    + intros x Hx. rewrite elem_of_app. intros [Hy | Hy]; [exact (D3 x Hx Hy) | exact (Hout x (Hsub x (or_introl Hx)) Hy)].
    + apply NoDup_app. split_and!; auto.
Qed.
