(* ===== verification/RingBuffer.v ===== *)
(** * Ring buffer

    [source/ring_buffer.c], [include/aws/common/ring_buffer.h] and
    [ring_buffer.inl]: a block out of which buffers are vended and given back
    in the order in which they were vended, by one acquiring and one releasing
    thread.

    The functions that acquire load [tail] and [head], decide on the two
    copies, and store what they decided; the decision is a function of its own
    ([s_acquire], [s_acquire_up_to]) so that the sequential functions and the
    interleavings with a releasing thread are made of the same parts.
    [head] is written only by the acquiring thread; [tail] is written by the
    releasing thread, and by the acquiring one when nothing is vended. *)

From S2P Require Import Prelude Math ByteOrder Memory ByteBuf ByteBufSpec.
Import ByteBuf.

Local Open Scope Z_scope.

Module RingBuffer.

Record aws_ring_buffer := mk_ring {
  ring_allocator : option aws_allocator;
  allocation : ptr;
  head : ptr;
  tail : ptr;
  allocation_end : ptr
}.

(** [AWS_ZERO_STRUCT] *)
Definition zero_ring : aws_ring_buffer := mk_ring None NULL NULL NULL NULL.

Definition store_head (ring_buf : aws_ring_buffer) (p : ptr) : aws_ring_buffer :=
  mk_ring (ring_allocator ring_buf) (allocation ring_buf) p (tail ring_buf) (allocation_end ring_buf).

Definition store_tail (ring_buf : aws_ring_buffer) (p : ptr) : aws_ring_buffer :=
  mk_ring (ring_allocator ring_buf) (allocation ring_buf) (head ring_buf) p (allocation_end ring_buf).

(** [p <= q] for pointers into one object. *)
Definition ptr_le (p q : ptr) : bool :=
  match ptr_sub p q with Some d => d <=? 0 | None => false end.

Definition aws_ring_buffer_check_atomic_ptr (ring_buf : aws_ring_buffer) (atomic_ptr : ptr) : bool :=
  negb (is_NULL atomic_ptr)
  && (ptr_le (allocation ring_buf) atomic_ptr && ptr_le atomic_ptr (allocation_end ring_buf)).

Definition aws_ring_buffer_is_empty (ring_buf : aws_ring_buffer) : bool :=
  bool_decide (head ring_buf = tail ring_buf).

Definition aws_ring_buffer_is_valid (ring_buf : aws_ring_buffer) : bool :=
  let head_in_range := aws_ring_buffer_check_atomic_ptr ring_buf (head ring_buf) in
  let tail_in_range := aws_ring_buffer_check_atomic_ptr ring_buf (tail ring_buf) in
  let valid_head_tail := negb (bool_decide (head ring_buf = allocation ring_buf))
                         || bool_decide (tail ring_buf = allocation ring_buf) in
  negb (is_NULL (allocation ring_buf)) && head_in_range && tail_in_range && valid_head_tail
  && bool_decide (ring_allocator ring_buf <> None).

(** [aws_mem_acquire] does not return NULL. *)
Definition aws_ring_buffer_init (al : aws_allocator) (size : Z) : M (op_result * aws_ring_buffer) :=
  p ← aws_mem_acquire al size;
  mret (AWS_OP_SUCCESS, mk_ring (Some al) p p p (ptr_add p size)).

Definition aws_ring_buffer_clean_up (ring_buf : aws_ring_buffer) : M aws_ring_buffer :=
  _ ← (if negb (is_NULL (allocation ring_buf))
       then match ring_allocator ring_buf with
            | Some al => aws_mem_release al (allocation ring_buf)
            | None => fault
            end
       else mret tt);
  mret zero_ring.

(** What an acquiring function decided: the new [head], the new [tail] where
    it stores one, and the buffer. *)
Record vend := mk_vend { new_head : ptr; new_tail : option ptr; dest : aws_byte_buf }.

Definition vend_at (p : ptr) (size : Z) : vend :=
  mk_vend (ptr_add p size) None (aws_byte_buf_from_empty_array p size).

Definition ring_space (ring_buf : aws_ring_buffer) : M Z :=
  if is_NULL (allocation_end ring_buf) then mret 0
  else ptr_diff (allocation_end ring_buf) (allocation ring_buf).

(** The branches of [aws_ring_buffer_acquire] on the loaded pointers. *)
Definition s_acquire (ring_buf : aws_ring_buffer) (requested_size : Z) (tail_cpy head_cpy : ptr)
    : M (option vend) :=
  if decide (head_cpy = tail_cpy) then
    space ← ring_space ring_buf;
    if space <? requested_size then mret None
    else
      mret (Some (mk_vend (ptr_add (allocation ring_buf) requested_size) (Some (allocation ring_buf))
                    (aws_byte_buf_from_empty_array (allocation ring_buf) requested_size)))
  else
    d ← ptr_diff tail_cpy head_cpy;
    if 0 <? d then
      let space := d - 1 in
      if requested_size <=? space then mret (Some (vend_at head_cpy requested_size)) else mret None
    else
      head_space ← ptr_diff (allocation_end ring_buf) head_cpy;
      if requested_size <=? head_space then mret (Some (vend_at head_cpy requested_size))
      else
        tail_space ← ptr_diff tail_cpy (allocation ring_buf);
        if requested_size <? tail_space
        then mret (Some (vend_at (allocation ring_buf) requested_size))
        else mret None.

(** The branches of [aws_ring_buffer_acquire_up_to]. *)
Definition s_acquire_up_to (ring_buf : aws_ring_buffer) (minimum_size requested_size : Z)
    (tail_cpy head_cpy : ptr) : M (option vend) :=
  if decide (head_cpy = tail_cpy) then
    space ← ring_space ring_buf;
    let allocation_size := if requested_size <? space then requested_size else space in
    if allocation_size <? minimum_size then mret None
    else
      mret (Some (mk_vend (ptr_add (allocation ring_buf) allocation_size) (Some (allocation ring_buf))
                    (aws_byte_buf_from_empty_array (allocation ring_buf) allocation_size)))
  else
    d ← ptr_diff tail_cpy head_cpy;
    if 0 <? d then
      let space := d - 1 in
      let returnable_size := if requested_size <? space then requested_size else space in
      if minimum_size <=? returnable_size then mret (Some (vend_at head_cpy returnable_size))
      else mret None
    else
      head_space ← ptr_diff (allocation_end ring_buf) head_cpy;
      tail_space ← ptr_diff tail_cpy (allocation ring_buf);
      if requested_size <=? head_space then mret (Some (vend_at head_cpy requested_size))
      else if requested_size <? tail_space
      then mret (Some (vend_at (allocation ring_buf) requested_size))
      else if (minimum_size <=? head_space) && (tail_space <=? head_space)
      then mret (Some (vend_at head_cpy head_space))
      else if minimum_size <? tail_space
      then mret (Some (vend_at (allocation ring_buf) (tail_space - 1)))
      else mret None.

(** [head] is stored before [tail]. *)
Definition commit (ring_buf : aws_ring_buffer) (v : vend) : aws_ring_buffer :=
  let ring_buf := store_head ring_buf (new_head v) in
  match new_tail v with Some p => store_tail ring_buf p | None => ring_buf end.

Definition finish_acquire (ring_buf : aws_ring_buffer) (old_dest : aws_byte_buf) (r : option vend)
    : op_result * aws_ring_buffer * aws_byte_buf :=
  match r with
  | Some v => (AWS_OP_SUCCESS, commit ring_buf v, dest v)
  | None => (aws_raise_error AWS_ERROR_OOM, ring_buf, old_dest)
  end.

Definition aws_ring_buffer_acquire (ring_buf : aws_ring_buffer) (requested_size : Z)
    (old_dest : aws_byte_buf) : M (op_result * aws_ring_buffer * aws_byte_buf) :=
  if requested_size =? 0
  then mret (aws_raise_error AWS_ERROR_INVALID_ARGUMENT, ring_buf, old_dest)
  else
    r ← s_acquire ring_buf requested_size (tail ring_buf) (head ring_buf);
    mret (finish_acquire ring_buf old_dest r).

Definition aws_ring_buffer_acquire_up_to (ring_buf : aws_ring_buffer) (minimum_size requested_size : Z)
    (old_dest : aws_byte_buf) : M (op_result * aws_ring_buffer * aws_byte_buf) :=
  if (requested_size =? 0) || (minimum_size =? 0)
  then mret (aws_raise_error AWS_ERROR_INVALID_ARGUMENT, ring_buf, old_dest)
  else
    r ← s_acquire_up_to ring_buf minimum_size requested_size (tail ring_buf) (head ring_buf);
    mret (finish_acquire ring_buf old_dest r).

Definition s_buf_belongs_to_pool (ring_buffer : aws_ring_buffer) (buf : aws_byte_buf) : bool :=
  negb (is_NULL (buf_buffer buf)) && negb (is_NULL (allocation ring_buffer))
  && negb (is_NULL (allocation_end ring_buffer))
  && ptr_le (allocation ring_buffer) (buf_buffer buf)
  && ptr_le (ptr_add (buf_buffer buf) (buf_capacity buf)) (allocation_end ring_buffer).

Definition aws_ring_buffer_buf_belongs_to_pool := s_buf_belongs_to_pool.

(** Returns also the zeroed [*buf]. *)
Definition aws_ring_buffer_release (ring_buffer : aws_ring_buffer) (buf : aws_byte_buf)
    : aws_ring_buffer * aws_byte_buf :=
  (store_tail ring_buffer (ptr_add (buf_buffer buf) (buf_capacity buf)), zero_buf).

End RingBuffer.
