(* ===== verification/RingBufferSpec.v ===== *)
(** * Ring buffer: correctness

    [layout] is the abstract state: the vended spans in the order in which
    they were vended lie end to end from [tail] to [head], or from [tail] to
    some point near the end and then from the start to [head]. *)

From stdpp Require Import relations.
From S2P Require Import Prelude Math ByteOrder Memory ByteBuf ByteBufSpec RingBuffer.
Import ByteBuf RingBuffer.

Local Open Scope Z_scope.

(** ** Layouts *)

(** A span is an offset and a length. *)
Definition span : Type := Z * Z.

Fixpoint chain (from : Z) (l : list span) (to : Z) : Prop :=
  match l with
  | [] => from = to
  | (o, n) :: l => o = from /\ 0 < n /\ chain (from + n) l to
  end.

Inductive layout (cap : Z) : Z -> Z -> list span -> Prop :=
| straight t h live : 0 <= t -> chain t live h -> h <= cap -> layout cap t h live
| wrapped t h hi lo w :
    chain t hi w -> w <= cap -> chain 0 lo h -> 0 < h < t -> layout cap t h (hi ++ lo).

Definition apart (x y : span) : Prop := x.1 + x.2 <= y.1 \/ y.1 + y.2 <= x.1.

(** Where [tail] is after the spans [pre] are given back. *)
Definition tail_after (t : Z) (pre : list span) : Z := foldl (fun _ x => x.1 + x.2) t pre.

Lemma chain_le a l b : chain a l b -> a <= b.
Proof. revert a. induction l as [| [o n] l IH]; cbn; [lia |]. intros a (-> & Hn & H). apply IH in H. lia. Qed.

Lemma chain_same a l : chain a l a -> l = [].
Proof. destruct l as [| [o n] l]; cbn; [auto |]. intros (-> & Hn & H). apply chain_le in H. lia. Qed.

Lemma chain_end a l b c : chain a l b -> chain a l c -> b = c.
Proof.
  revert a. induction l as [| [o n] l IH]; cbn; [congruence |]. intros a (-> & _ & H) (_ & _ & H'). eauto.
Qed.

Lemma chain_app a l l' c : chain a (l ++ l') c <-> exists b, chain a l b /\ chain b l' c.
Proof.
  revert a. induction l as [| [o n] l IH]; cbn; intros a.
  - split; [eauto | now intros (b & <- & H)].
  - rewrite IH. split; [intros (-> & Hn & b & H1 & H2) | intros (b & (-> & Hn & H1) & H2)]; eauto 10.
Qed.

Lemma chain_bounds a l b : chain a l b -> Forall (fun x => a <= x.1 /\ 0 < x.2 /\ x.1 + x.2 <= b) l.
Proof.
  revert a. induction l as [| [o n] l IH]; cbn; intros a; [constructor |]. intros (-> & Hn & H).
  pose proof (chain_le _ _ _ H). constructor; [cbn; lia |].
  eapply Forall_impl; [exact (IH _ H) |]. cbn. lia.
Qed.

Lemma chain_apart a l b : chain a l b -> ForallOrdPairs apart l.
Proof.
  revert a. induction l as [| [o n] l IH]; cbn; intros a; [constructor |]. intros (-> & Hn & H).
  constructor; [| exact (IH _ H)]. eapply Forall_impl; [exact (chain_bounds _ _ _ H) |].
  cbn. intros x Hx. left. cbn. lia.
Qed.

Lemma ordpairs_app {A} (R : A -> A -> Prop) l l' :
  ForallOrdPairs R l -> ForallOrdPairs R l' -> Forall (fun x => Forall (R x) l') l ->
  ForallOrdPairs R (l ++ l').
Proof.
  induction 1 as [| x l Hx Hl IH]; intros H' HF; cbn; [exact H' |].
  apply Forall_cons in HF as [H1 H2]. constructor; [now apply Forall_app | auto].
Qed.

Section layout.
Context (cap : Z).

Lemma layout_range t h live : layout cap t h live -> 0 <= t <= cap /\ 0 <= h <= cap.
Proof.
  intros [t' h' l Ht Hc Hh | t' h' hi lo w Hhi Hw Hlo Hh].
  - apply chain_le in Hc. lia.
  - apply chain_le in Hhi. lia.
Qed.

Lemma layout_in t h live :
  layout cap t h live -> Forall (fun x => 0 <= x.1 /\ 0 < x.2 /\ x.1 + x.2 <= cap) live.
Proof.
  intros [t' h' l Ht Hc Hh | t' h' hi lo w Hhi Hw Hlo Hh].
  - eapply Forall_impl; [exact (chain_bounds _ _ _ Hc) |]. cbn. lia.
  - pose proof (chain_le _ _ _ Hhi). apply Forall_app. split.
    + eapply Forall_impl; [exact (chain_bounds _ _ _ Hhi) |]. cbn. lia.
    + eapply Forall_impl; [exact (chain_bounds _ _ _ Hlo) |]. cbn. lia.
Qed.

Lemma layout_apart t h live : layout cap t h live -> ForallOrdPairs apart live.
Proof.
  intros [t' h' l Ht Hc Hh | t' h' hi lo w Hhi Hw Hlo Hh]; [exact (chain_apart _ _ _ Hc) |].
  apply ordpairs_app; [exact (chain_apart _ _ _ Hhi) | exact (chain_apart _ _ _ Hlo) |].
  eapply Forall_impl; [exact (chain_bounds _ _ _ Hhi) |]. cbn. intros x Hx.
  eapply Forall_impl; [exact (chain_bounds _ _ _ Hlo) |]. cbn. intros y Hy. right. lia.
Qed.

Lemma layout_empty t h live : layout cap t h live -> t = h <-> live = [].
Proof.
  intros [t' h' l Ht Hc Hh | t' h' hi lo w Hhi Hw Hlo Hh]; split; intros E; subst.
  - exact (chain_same _ _ Hc).
  - exact Hc.
  - lia.
  - apply app_eq_nil in E as [-> ->]. cbn in Hlo. lia.
Qed.

(** Giving back the oldest span. *)
Lemma layout_release t h o n live : layout cap t h ((o, n) :: live) -> layout cap (o + n) h live.
Proof.
  intros H. remember ((o, n) :: live) as l eqn:El. destruct H as [t h l Ht Hc Hh | t h hi lo w Hhi Hw Hlo Hh].
  - subst l. destruct Hc as (-> & Hn & Hc). apply straight; auto. lia.
  - destruct hi as [| [o' n'] hi]; cbn in El.
    + subst lo. destruct Hlo as (-> & Hn & Hc). apply straight; auto; cbn in Hhi; lia.
    + injection El as -> -> <-. destruct Hhi as (-> & Hn & Hhi). eapply wrapped; eauto. lia.
Qed.

Lemma layout_releases t h pre live : layout cap t h (pre ++ live) -> layout cap (tail_after t pre) h live.
Proof.
  revert t. induction pre as [| [o n] pre IH]; cbn; intros t H; [exact H |].
  apply IH. now apply layout_release in H.
Qed.

(** Vending behind [head] and at the start. *)
Lemma layout_at_head t h live n :
  layout cap t h live -> 0 < n -> h + n <= cap -> (h < t -> h + n < t) ->
  layout cap t (h + n) (live ++ [(h, n)]).
Proof.
  intros [t' h' l Ht Hc Hh | t' h' hi lo w Hhi Hw Hlo Hh] Hn Hcap Hlt.
  - apply straight; auto. apply chain_app. exists h'. cbn. auto.
  - rewrite <- app_assoc. apply (wrapped cap _ _ hi _ w); auto; [| lia].
    apply chain_app. exists h'. cbn. auto.
Qed.

Lemma layout_at_start t h live n :
  layout cap t h live -> t < h -> 0 < n < t -> layout cap t n (live ++ [(0, n)]).
Proof.
  intros [t' h' l Ht Hc Hh | t' h' hi lo w Hhi Hw Hlo Hh] Hlt Hn; [| lia].
  apply (wrapped cap _ _ l [(0, n)] h'); auto. cbn. auto with lia.
Qed.

(** There are no other places for a further span. *)
Lemma chain_snoc_end a l x b : chain a (l ++ [x]) b -> b = x.1 + x.2 /\ a <= x.1 /\ (l <> [] -> a < x.1).
Proof.
  intros (c & H1 & H2)%chain_app. destruct x as [o n]. cbn in *. destruct H2 as (-> & Hn & <-).
  split_and!; auto; [exact (chain_le _ _ _ H1) |]. intros Hl.
  destruct (Z.eq_dec a c) as [-> | E]; [now apply chain_same in H1 |]. apply chain_le in H1. lia.
Qed.

(** Both parts of a wrapped layout are determined by the spans. *)
Lemma wrapped_split t hi hi' lo lo' w w' h h' :
  hi' ++ lo' = hi ++ lo -> chain t hi w -> chain t hi' w' -> chain 0 lo h -> chain 0 lo' h' ->
  0 < t -> 0 < h -> hi' = hi /\ lo' = lo.
Proof.
  revert t hi. induction hi' as [| [a b] hi' IH]; intros t [| [a' b'] hi] E Hhi Hhi' Hlo Hlo' Ht Hh; cbn in *.
  - auto.
  - exfalso. destruct Hhi as [-> _]. destruct lo' as [| [o n'] lo']; [discriminate |].
    injection E as -> -> _. destruct Hlo' as [E _]. lia.
  - exfalso. destruct Hhi' as [-> _]. destruct lo as [| [o n'] lo]; [discriminate |].
    injection E as -> -> _. destruct Hlo as [E _]. lia.
  - injection E as -> -> E. destruct Hhi as (-> & Hb & Hhi), Hhi' as (_ & _ & Hhi').
    destruct (IH (t + b') hi) as [-> ->]; auto; lia.
Qed.

Lemma layout_places t h live o n h' :
  layout cap t h live -> live <> [] -> layout cap t h' (live ++ [(o, n)]) ->
  h' = o + n /\ 0 < n /\ h' <= cap
  /\ (o = h /\ (h < t -> h + n < t) \/ o = 0 /\ n < t < h).
Proof.
  intros H Hne H'. remember (live ++ [(o, n)]) as l' eqn:El.
  pose proof (layout_in _ _ _ H') as Hin. rewrite El, Forall_app, Forall_singleton in Hin. cbn in Hin.
  destruct Hin as [_ Hin]. destruct H' as [t h' l' Ht' Hc' Hh' | t h' hi' lo' w' Hhi' Hw' Hlo' Hh'].
  { subst l'. pose proof (chain_snoc_end _ _ _ _ Hc') as (-> & Hlo & _).
    apply chain_app in Hc' as (c & Hc1 & Hc2). cbn in Hc2. destruct Hc2 as (-> & Hn & _).
    destruct H as [t h live Ht Hc Hh | t h hi lo w Hhi Hw Hlo' Hh].
    - rewrite (chain_end _ _ _ _ Hc Hc1) in *. cbn in *. split_and!; auto; lia.
    - exfalso. apply chain_app in Hc1 as (d & Hd1 & Hd2).
      destruct lo as [| [o n'] lo]; cbn in *; [lia |].
      destruct Hlo' as [-> _]. destruct Hd2 as [E _]. apply chain_le in Hd1. lia. }
  destruct lo' as [| x lo' _] using rev_ind; [cbn in Hlo'; lia |].
  rewrite app_assoc in El. apply app_inj_tail in El as [El ->]. subst live.
  pose proof (chain_snoc_end _ _ _ _ Hlo') as (-> & _ & _). cbn in *.
  apply chain_app in Hlo' as (c & Hc1 & Hc2). cbn in Hc2. destruct Hc2 as (-> & Hn & _).
  split_and!; auto; try lia.
  remember (hi' ++ lo') as live eqn:El. destruct H as [t h live Ht Hc Hh | t h hi lo w Hhi Hw Hlo Hh].
  - subst live. apply chain_app in Hc as (d & Hd1 & Hd2). right.
    destruct lo' as [| [o n'] lo']; cbn in *.
    + subst c. assert (t <> h); [| apply chain_le in Hd1; lia].
      intros ->. subst d. rewrite (chain_same _ _ Hd1) in Hne. now apply Hne.
    + destruct Hc1 as [-> _]. destruct Hd2 as [E _]. apply chain_le in Hd1. lia.
  - left. enough (c = h) as -> by (split; lia).
    destruct (wrapped_split _ _ _ _ _ _ _ _ _ (eq_sym El) Hhi Hhi' Hlo Hc1) as [-> ->]; try lia.
    exact (chain_end _ _ _ _ Hc1 Hlo).
Qed.
End layout.

(** ** The functions on layouts *)

(** The ring of [cap] bytes in block [b] with the given pointers. *)
Definition ring_at (b : positive) (cap : Z) (al : aws_allocator) (h t : Z) : aws_ring_buffer :=
  mk_ring (Some al) (Ptr b 0) (Ptr b h) (Ptr b t) (Ptr b cap).

Definition span_buf (b : positive) (x : span) : aws_byte_buf :=
  aws_byte_buf_from_empty_array (Ptr b x.1) x.2.

Lemma ptr_diff_same b x y m : ptr_diff (Ptr b x) (Ptr b y) m = Ret (x - y) m.
Proof. unfold ptr_diff. cbn. now rewrite decide_True. Qed.

(** What an acquiring function decides on a [tail] that may be out of date:
    nothing, the first span of an empty ring, or a span that extends the
    layout. It refuses only when no span of an admissible size does. *)
Inductive decision (fits : Z -> Prop) (least : Z) (b : positive) (cap t h : Z) (live : list span)
    : option vend -> Prop :=
| refused :
    (live = [] -> cap < least) ->
    (live <> [] -> forall o, ~ layout cap t (o + least) (live ++ [(o, least)])) ->
    decision fits least b cap t h live None
| vended_first n :
    live = [] -> fits n -> 0 < n <= cap ->
    decision fits least b cap t h live
      (Some (mk_vend (Ptr b n) (Some (Ptr b 0)) (span_buf b (0, n))))
| vended_next o n :
    live <> [] -> fits n -> layout cap t (o + n) (live ++ [(o, n)]) ->
    decision fits least b cap t h live (Some (mk_vend (Ptr b (o + n)) None (span_buf b (o, n)))).

Section decisions.
Context (b : positive) (cap : Z) (al : aws_allocator) (h t t' : Z) (live : list span) (m : mem).
Hypothesis Hlay : layout cap t h live.

Lemma pointers_equal : Ptr b h = Ptr b t -> live = [].
Proof using Hlay. intros [= ->]. now apply (layout_empty _ _ _ _ Hlay). Qed.

Lemma pointers_differ : Ptr b h <> Ptr b t -> live <> [] /\ t <> h.
Proof using Hlay.
  intros H. assert (t <> h) by (intros ->; now apply H). split; [| auto]. now rewrite <- (layout_empty _ _ _ _ Hlay).
Qed.

Lemma refuse_next fits n :
  live <> [] -> 0 < n -> (h < t -> t <= h + n) -> (t < h -> cap < h + n /\ t <= n) -> t <> h ->
  decision fits n b cap t h live None.
Proof using Hlay.
  intros Hne Hn H1 H2 Hth. apply refused; [easy |]. intros _ o Ho.
  destruct (layout_places cap t h live o n _ Hlay Hne Ho) as (_ & _ & Hcap & [(-> & Hw) | (-> & Hw)]); lia.
Qed.

Lemma vend_head fits n k :
  live <> [] -> fits n -> 0 < n -> h + n <= cap -> (h < t -> h + n < t) ->
  decision fits k b cap t h live (Some (vend_at (Ptr b h) n)).
Proof using Hlay.
  intros Hne Hf Hn Hc Hw. apply (vended_next fits k b cap t h live h n); auto. now apply layout_at_head.
Qed.

Lemma vend_start fits n k :
  live <> [] -> fits n -> t < h -> 0 < n < t ->
  decision fits k b cap t h live (Some (vend_at (Ptr b 0) n)).
Proof using Hlay.
  intros Hne Hf Hlt Hn. apply (vended_next fits k b cap t h live 0 n); auto.
  now apply (layout_at_start cap t h).
Qed.

Let rb := ring_at b cap al h t'.

Lemma acquire_decision n :
  0 < n -> exists r, s_acquire rb n (Ptr b t) (Ptr b h) m = Ret r m
                     /\ decision (fun k => k = n) n b cap t h live r.
Proof using Hlay.
  intros Hn. pose proof (layout_range _ _ _ _ Hlay) as [Ht Hh]. unfold s_acquire. case_decide as E.
  - apply pointers_equal in E as ->. unfold ring_space, rb. cbn [allocation_end allocation ring_at is_NULL].
    run (ptr_diff_same b cap 0 m). rewrite Z.sub_0_r. destruct (Z.ltb_spec cap n); eexists;
      (split; [reflexivity |]); [apply refused; easy | now apply vended_first; auto with lia].
  - apply pointers_differ in E as [Hne Hth]. run (ptr_diff_same b t h m).
    destruct (Z.ltb_spec 0 (t - h)).
    { destruct (Z.leb_spec n (t - h - 1)); eexists; (split; [reflexivity |]);
        [apply vend_head | apply refuse_next]; auto; lia. }
    unfold rb. cbn [allocation_end allocation ring_at]. run (ptr_diff_same b cap h m).
    destruct (Z.leb_spec n (cap - h)); [eexists; split; [reflexivity |]; apply vend_head; auto; lia |].
    run (ptr_diff_same b t 0 m). destruct (Z.ltb_spec n (t - 0)); eexists; (split; [reflexivity |]);
      [apply vend_start | apply refuse_next]; auto; lia.
Qed.

Lemma acquire_up_to_decision k n :
  0 < k <= n -> exists r, s_acquire_up_to rb k n (Ptr b t) (Ptr b h) m = Ret r m
                          /\ decision (fun i => k <= i <= n) k b cap t h live r.
Proof using Hlay.
  intros Hn. pose proof (layout_range _ _ _ _ Hlay) as [Ht Hh]. unfold s_acquire_up_to. case_decide as E.
  - apply pointers_equal in E as ->. unfold ring_space, rb. cbn [allocation_end allocation ring_at is_NULL].
    run (ptr_diff_same b cap 0 m). rewrite Z.sub_0_r.
    destruct (Z.ltb_spec n cap); [destruct (Z.ltb_spec n k) | destruct (Z.ltb_spec cap k)]; try lia;
      eexists; (split; [reflexivity |]); first [apply vended_first; auto with lia | apply refused; easy].
  - apply pointers_differ in E as [Hne Hth]. run (ptr_diff_same b t h m).
    destruct (Z.ltb_spec 0 (t - h)).
    { destruct (Z.ltb_spec n (t - h - 1)); [destruct (Z.leb_spec k n) | destruct (Z.leb_spec k (t - h - 1))];
        try lia; eexists; (split; [reflexivity |]); first [apply vend_head; auto; lia | apply refuse_next; auto; lia]. }
    unfold rb. cbn [allocation_end allocation ring_at].
    run (ptr_diff_same b cap h m). run (ptr_diff_same b t 0 m). rewrite Z.sub_0_r.
    destruct (Z.leb_spec n (cap - h)); [eexists; split; [reflexivity |]; apply vend_head; auto; lia |].
    destruct (Z.ltb_spec n t); [eexists; split; [reflexivity |]; apply vend_start; auto; lia |].
    destruct (Z.leb_spec k (cap - h)), (Z.leb_spec t (cap - h)); cbn [andb];
      try (eexists; split; [reflexivity |]; apply vend_head; auto; lia);
      (destruct (Z.ltb_spec k t); eexists; (split; [reflexivity |]);
       [apply vend_start | apply refuse_next]; auto; lia).
Qed.
End decisions.

(** ** One thread *)

(** A ring of [cap] bytes in block [b] that has vended [spans]. *)
Inductive ring_ok (m : mem) (b : positive) (cap : Z) (spans : list span) : aws_ring_buffer -> Prop :=
| ring_ok_at al h t data :
    blocks m !! b = Some data -> zlength data = cap -> cap <= SIZE_MAX -> layout cap t h spans ->
    ring_ok m b cap spans (ring_at b cap al h t).

Lemma span_buf_eq b x : 0 < x.2 -> span_buf b x = mk_buf 0 (Ptr b x.1) x.2 None.
Proof. intros H. unfold span_buf, aws_byte_buf_from_empty_array. now rewrite (proj2 (Z.ltb_lt _ _)) by lia. Qed.

Lemma span_buf_ok m b data x :
  blocks m !! b = Some data -> zlength data <= SIZE_MAX ->
  0 <= x.1 -> 0 < x.2 -> x.1 + x.2 <= zlength data -> buf_ok m (span_buf b x) [].
Proof.
  intros Hb Hs H0 Hn Hl. rewrite span_buf_eq by lia.
  constructor; cbn [buf_len buf_capacity buf_buffer]; try lia; [reflexivity |].
  right. exists b, x.1, data. auto.
Qed.

Definition acquire_post (m : mem) (b : positive) (cap : Z) (spans : list span) (rb : aws_ring_buffer)
    (old : aws_byte_buf) (fits : Z -> Prop) (least : Z)
    (rv : op_result) (rb' : aws_ring_buffer) (d : aws_byte_buf) : Prop :=
  match rv with
  | AWS_OP_SUCCESS =>
      exists o n, fits n /\ d = mk_buf 0 (Ptr b o) n None /\ buf_ok m d []
        /\ Forall (apart (o, n)) spans /\ ring_ok m b cap (spans ++ [(o, n)]) rb'
  | AWS_OP_ERR e =>
      rb' = rb /\ d = old
      /\ (if least =? 0 then e = AWS_ERROR_INVALID_ARGUMENT
          else e = AWS_ERROR_OOM /\ (spans = [] -> cap < least)
               /\ (spans <> [] -> forall o,
                     ~ ring_ok m b cap (spans ++ [(o, least)]) (store_head rb (Ptr b (o + least)))))
  end.

Lemma apart_sym x y : apart x y -> apart y x.
Proof. unfold apart. tauto. Qed.

Lemma ordpairs_last {A} (R : A -> A -> Prop) l x :
  (forall a b, R a b -> R b a) -> ForallOrdPairs R (l ++ [x]) -> Forall (R x) l.
Proof.
  intros Hsym. induction l as [| y l IH]; cbn; intros H; [constructor |].
  inversion H as [| ? ? Hy Hl]; subst. apply Forall_app in Hy as [_ Hy].
  constructor; [| auto]. rewrite Forall_singleton in Hy. auto.
Qed.

Lemma finish_spec m b cap al h t data spans fits least old r :
  blocks m !! b = Some data -> zlength data = cap -> cap <= SIZE_MAX -> layout cap t h spans -> 0 < least ->
  decision fits least b cap t h spans r ->
  let '(rv, rb', d) := finish_acquire (ring_at b cap al h t) old r in
  acquire_post m b cap spans (ring_at b cap al h t) old fits least rv rb' d.
Proof.
  intros Hb Hz Hs Hlay Hl H. destruct H as [H1 H2 | n -> Hf Hn | o n Hne Hf Hl']; cbn [finish_acquire].
  - cbn. rewrite (proj2 (Z.eqb_neq _ _)) by lia. split_and!; auto.
    intros Hne o Ho. inversion Ho; subst. now apply (H2 Hne o).
  - exists 0, n. cbn [dest]. split_and!; auto; [now apply span_buf_eq | |].
    + apply (span_buf_ok m b data); cbn; auto; lia.
    + econstructor; eauto. apply straight; cbn; auto with lia.
  - pose proof (layout_in _ _ _ _ Hl') as Hin. rewrite Forall_app, Forall_singleton in Hin.
    destruct Hin as [_ Hin]. cbn [fst snd] in Hin. exists o, n. cbn [dest].
    split_and!; auto; [now apply span_buf_eq | | |].
    + apply (span_buf_ok m b data); cbn [fst snd]; auto; lia.
    + apply (ordpairs_last apart); [apply apart_sym |]. exact (layout_apart _ _ _ _ Hl').
    + econstructor; eauto.
Qed.

(** acquiring from a ring that has vended [spans]: [aws_ring_buffer_acquire]
    and [aws_ring_buffer_acquire_up_to] vend an empty writable buffer of the
    requested size (of a size between the two bounds) that overlaps no vended
    one, or report AWS_ERROR_OOM and change nothing. They refuse a ring with
    nothing vended only when the request exceeds its size, and any other ring
    only when no placement of the least admissible size keeps the ring well
    formed. A request of size zero is an invalid argument. *)
Theorem ring_buffer_acquire_correct (m : mem) (rb : aws_ring_buffer) (b : positive) (cap : Z)
    (spans : list span) (old : aws_byte_buf) (k n : Z) :
  ring_ok m b cap spans rb -> 0 <= k <= n ->
  (exists rv rb' d, aws_ring_buffer_acquire rb n old m = Ret (rv, rb', d) m
     /\ acquire_post m b cap spans rb old (fun i => i = n) n rv rb' d)
  /\ (exists rv rb' d, aws_ring_buffer_acquire_up_to rb k n old m = Ret (rv, rb', d) m
        /\ acquire_post m b cap spans rb old (fun i => k <= i <= n) k rv rb' d).
Proof.
  intros [al h t data Hb Hz Hs Hlay] Hk.
  unfold aws_ring_buffer_acquire, aws_ring_buffer_acquire_up_to. split.
  - destruct (Z.eqb_spec n 0) as [-> | Hn]; [eexists _, _, _; split; [reflexivity |]; cbn; auto |].
    destruct (acquire_decision b cap al h t t spans m Hlay n) as (r & E & Hr); [lia |]. cbn [tail head ring_at].
    run E. pose proof (finish_spec m b cap al h t data spans _ n old r Hb Hz Hs Hlay ltac:(lia) Hr) as H.
    destruct (finish_acquire _ old r) as [[rv rb'] d]. eauto.
  - destruct (Z.eqb_spec k 0) as [-> | Hk0].
    { rewrite orb_true_r. eexists _, _, _. split; [reflexivity |]. cbn. auto. }
    rewrite (proj2 (Z.eqb_neq n 0)) by lia. cbn [orb].
    destruct (acquire_up_to_decision b cap al h t t spans m Hlay k n) as (r & E & Hr); [lia |].
    cbn [tail head ring_at].
    run E. pose proof (finish_spec m b cap al h t data spans _ k old r Hb Hz Hs Hlay ltac:(lia) Hr) as H.
    destruct (finish_acquire _ old r) as [[rv rb'] d]. eauto.
Qed.

Definition ring_mem : mem := mk_mem {[1%positive := [0; 0; 0; 0; 0; 0; 0; 0]]} (fun _ _ => 0) [].

Lemma ring_buffer_acquire_correct_witness :
  exists rb' d, aws_ring_buffer_acquire (ring_at 1 8 (mk_allocator true) 7 4) 3 zero_buf ring_mem
                = Ret (AWS_OP_SUCCESS, rb', d) ring_mem
    /\ d = mk_buf 0 (Ptr 1 0) 3 None.
Proof.
  assert (ring_ok ring_mem 1 8 [(4, 3)] (ring_at 1 8 (mk_allocator true) 7 4)) as H.
  { apply (ring_ok_at _ _ _ _ _ _ _ [0; 0; 0; 0; 0; 0; 0; 0]);
      [reflexivity | reflexivity | unfold SIZE_MAX; lia | apply straight; cbn; auto with lia]. }
  destruct (ring_buffer_acquire_correct ring_mem _ 1 8 [(4, 3)] zero_buf 1 3 H) as [(rv & rb' & d & E & _) _]; [lia |].
  revert E. vm_compute. intros [= <- <- <-]. eauto.
Defined.
