(* ===== verification/RingBufferThreads.v ===== *)
(** * Ring buffer: two threads

    The header promises that the ring is safe when one thread acquires and
    another releases, in the order of acquisition. A [system] is the ring, the
    point the acquiring thread has reached, and the buffers that are vended;
    each step is one atomic load or store. Between any two steps of the
    acquiring thread the releasing one may give back the oldest buffer. *)

From stdpp Require Import relations.
From S2P Require Import Prelude Math ByteOrder Memory ByteBuf ByteBufSpec RingBuffer RingBufferSpec.
Import ByteBuf RingBuffer.

Local Open Scope Z_scope.

Inductive request :=
| Acquire (requested_size : Z)
| Acquire_up_to (minimum_size requested_size : Z).

Definition valid_request (r : request) : Prop :=
  match r with
  | Acquire n => 0 < n
  | Acquire_up_to k n => 0 < k <= n
  end.

Definition decide_request (rb : aws_ring_buffer) (r : request) : ptr -> ptr -> M (option vend) :=
  match r with
  | Acquire n => s_acquire rb n
  | Acquire_up_to k n => s_acquire_up_to rb k n
  end.

(** Where the acquiring thread is: it has loaded [tail], then [head], then it
    has stored [head] and is about to store [tail]. *)
Inductive acquirer :=
| Idle
| Loaded_tail (r : request) (tail_cpy : ptr)
| Loaded_both (r : request) (tail_cpy head_cpy : ptr)
| Stored_head (v : vend) (p : ptr).

(** A vended buffer is known by its address and capacity; its holder may change
    its length. *)
Record system := mk_system { ring : aws_ring_buffer; acquiring : acquirer; vended : list (ptr * Z) }.

Definition handle (buf : aws_byte_buf) : ptr * Z := (buf_buffer buf, buf_capacity buf).

Inductive thread_step (m : mem) : system -> system -> Prop :=
| load_tail rb bufs r :
    valid_request r ->
    thread_step m (mk_system rb Idle bufs) (mk_system rb (Loaded_tail r (tail rb)) bufs)
| load_head rb bufs r t :
    thread_step m (mk_system rb (Loaded_tail r t) bufs) (mk_system rb (Loaded_both r t (head rb)) bufs)
| refuse rb bufs r t h :
    decide_request rb r t h m = Ret None m ->
    thread_step m (mk_system rb (Loaded_both r t h) bufs) (mk_system rb Idle bufs)
| store_head_only rb bufs r t h v :
    decide_request rb r t h m = Ret (Some v) m -> new_tail v = None ->
    thread_step m (mk_system rb (Loaded_both r t h) bufs)
      (mk_system (store_head rb (new_head v)) Idle (bufs ++ [handle (dest v)]))
| store_head_first rb bufs r t h v p :
    decide_request rb r t h m = Ret (Some v) m -> new_tail v = Some p ->
    thread_step m (mk_system rb (Loaded_both r t h) bufs)
      (mk_system (store_head rb (new_head v)) (Stored_head v p) bufs)
| store_tail_last rb bufs v p :
    thread_step m (mk_system rb (Stored_head v p) bufs)
      (mk_system (store_tail rb p) Idle (bufs ++ [handle (dest v)]))
| release_oldest rb a buf bufs :
    thread_step m (mk_system rb a (handle buf :: bufs))
      (mk_system (fst (aws_ring_buffer_release rb buf)) a bufs).

(** ** The invariant *)

Definition handle_at (b : positive) (x : span) : ptr * Z := (Ptr b x.1, x.2).

(** The acquiring thread's copy of [tail] is [t0]; the spans [pre] were given
    back since it was loaded. *)
Definition loaded (b : positive) (cap h t : Z) (live : list span) (tail_cpy : ptr) : Prop :=
  exists t0 pre, tail_cpy = Ptr b t0 /\ layout cap t0 h (pre ++ live) /\ t = tail_after t0 pre.

Definition acquirer_ok (b : positive) (cap h t : Z) (live : list span) (a : acquirer) : Prop :=
  match a with
  | Idle => layout cap t h live
  | Loaded_tail r t' => valid_request r /\ loaded b cap h t live t'
  | Loaded_both r t' h' => valid_request r /\ loaded b cap h t live t' /\ h' = Ptr b h
  | Stored_head v p =>
      live = [] /\ p = Ptr b 0 /\ dest v = span_buf b (0, h) /\ 0 < h <= cap /\ 0 <= t <= cap
  end.

Inductive system_ok (b : positive) (cap : Z) : system -> Prop :=
| system_ok_at al h t live a :
    acquirer_ok b cap h t live a ->
    system_ok b cap (mk_system (ring_at b cap al h t) a (map (handle_at b) live)).

Lemma loaded_now b cap h t live : layout cap t h live -> loaded b cap h t live (Ptr b t).
Proof. intros H. exists t, []. auto. Qed.

Lemma loaded_layout b cap h t live t' : loaded b cap h t live t' -> layout cap t h live.
Proof. intros (t0 & pre & _ & H & ->). now apply layout_releases. Qed.

Lemma loaded_release b cap h t o n live t' :
  loaded b cap h t ((o, n) :: live) t' -> loaded b cap h (o + n) live t'.
Proof.
  intros (t0 & pre & -> & H & ->). exists t0, (pre ++ [(o, n)]). rewrite <- app_assoc.
  split_and!; auto. unfold tail_after. now rewrite foldl_app.
Qed.

Lemma request_decision m b cap al h t t0 live r :
  layout cap t0 h live -> valid_request r ->
  exists v fits k, decide_request (ring_at b cap al h t) r (Ptr b t0) (Ptr b h) m = Ret v m
    /\ decision fits k b cap t0 h live v.
Proof.
  intros H Hr. destruct r as [n | k n]; cbn [decide_request valid_request] in *.
  - destruct (acquire_decision b cap al h t0 t live m H n Hr) as (v & E & Hv). eauto 10.
  - destruct (acquire_up_to_decision b cap al h t0 t live m H k n Hr) as (v & E & Hv). eauto 10.
Qed.

Lemma handle_span b x : 0 < x.2 -> handle (span_buf b x) = handle_at b x.
Proof. intros H. unfold handle. now rewrite span_buf_eq. Qed.

Lemma vend_step m b cap al h t live r t' v :
  valid_request r -> loaded b cap h t live t' ->
  decide_request (ring_at b cap al h t) r t' (Ptr b h) m = Ret (Some v) m ->
  match new_tail v with
  | None => exists x, new_head v = Ptr b (x.1 + x.2) /\ handle (dest v) = handle_at b x
              /\ acquirer_ok b cap (x.1 + x.2) t (live ++ [x]) Idle
  | Some p => exists n, new_head v = Ptr b n /\ acquirer_ok b cap n t live (Stored_head v p)
  end.
Proof.
  intros Hr Hl E. pose proof (layout_range _ _ _ _ (loaded_layout _ _ _ _ _ _ Hl)) as [Ht _].
  destruct Hl as (t0 & pre & -> & Hlay & Et).
  destruct (request_decision m b cap al h t t0 _ r Hlay Hr) as (v' & fits & k & E' & Hd).
  rewrite E' in E. injection E as ->. inversion Hd as [| n Hnil Hf Hn | o n Hne Hf Hl']; subst; cbn.
  - apply app_eq_nil in Hnil as [-> ->]. exists n. split_and!; auto; lia.
  - exists (o, n). cbn. pose proof (layout_in _ _ _ _ Hl') as Hin.
    rewrite Forall_app, Forall_singleton in Hin. split_and!; auto; [now apply handle_span |].
    rewrite <- app_assoc in Hl'. exact (layout_releases _ _ _ _ _ Hl').
Qed.

Lemma release_step b cap h t o n live a :
  acquirer_ok b cap h t ((o, n) :: live) a -> acquirer_ok b cap h (o + n) live a.
Proof.
  destruct a; cbn.
  - apply layout_release.
  - intros [Hr H]. split; [exact Hr | exact (loaded_release _ _ _ _ _ _ _ _ H)].
  - intros (Hr & H & E). split_and!; auto. exact (loaded_release _ _ _ _ _ _ _ _ H).
  - now intros [E _].
Qed.

Lemma step_ok m b cap s s' : thread_step m s s' -> system_ok b cap s -> system_ok b cap s'.
Proof.
  intros Hs Hok. inversion Hok as [al h t live a Ha E]. subst s. inversion Hs; subst; cbn [acquirer_ok] in Ha.
  - apply system_ok_at. split; [assumption | now apply loaded_now].
  - apply system_ok_at. destruct Ha. now repeat split.
  - apply system_ok_at. exact (loaded_layout _ _ _ _ _ _ (proj1 (proj2 Ha))).
  - destruct Ha as (Hr & Hl & ->). match goal with H : decide_request _ _ _ _ _ = _ |- _ =>
      pose proof (vend_step m b cap al h t live _ _ _ Hr Hl H) as Hv end.
    destruct (new_tail v); [discriminate |]. destruct Hv as (x & -> & -> & Hx).
    change [handle_at b x] with (map (handle_at b) [x]). rewrite <- map_app. now apply system_ok_at.
  - destruct Ha as (Hr & Hl & ->). match goal with H : decide_request _ _ _ _ _ = _ |- _ =>
      pose proof (vend_step m b cap al h t live _ _ _ Hr Hl H) as Hv end.
    destruct (new_tail v); [| discriminate]. destruct Hv as (n & -> & Hn).
    match goal with H : Some _ = Some _ |- _ => injection H as -> end. now apply system_ok_at.
  - destruct Ha as (-> & -> & Hd & Hh & Ht). rewrite Hd, handle_span by (cbn; lia).
    apply (system_ok_at b cap al h 0 [(0, h)]). apply straight; cbn; auto with lia.
  - destruct live as [| [o n] live]; [discriminate |]. unfold handle, handle_at in *. cbn [map fst snd] in *.
    match goal with H : _ :: _ = _ :: _ |- _ => injection H as Ep Ec -> end.
    unfold aws_ring_buffer_release. cbn [fst]. rewrite Ep, Ec. cbn.
    apply system_ok_at. exact (release_step _ _ _ _ _ _ _ _ Ha).
Qed.

(** ** The promise of the header *)

Lemma ordpairs_lookup {A} (R : A -> A -> Prop) (l : list A) i j x y :
  (forall a b, R a b -> R b a) -> ForallOrdPairs R l -> l !! i = Some x -> l !! j = Some y -> i <> j -> R x y.
Proof.
  intros Hsym H. revert i j. induction H as [| z l Hz Hl IH]; intros [| i] [| j] Hi Hj Hij; cbn in *; try easy.
  - injection Hi as <-. rewrite Forall_lookup in Hz. eauto.
  - injection Hj as <-. rewrite Forall_lookup in Hz. eauto.
  - eauto.
Qed.

(** The vended buffers are parts of the ring's block, none is empty, no two
    overlap. *)
Record vended_ok (b : positive) (cap : Z) (bufs : list (ptr * Z)) : Prop := {
  vo_inside : forall p n, (p, n) ∈ bufs -> exists o, p = Ptr b o /\ 0 <= o /\ 0 < n /\ o + n <= cap;
  vo_apart : forall i j p n q k, bufs !! i = Some (p, n) -> bufs !! j = Some (q, k) -> i <> j ->
               disjoint_ranges p n q k
}.

Lemma layout_vended b cap t h live : layout cap t h live -> vended_ok b cap (map (handle_at b) live).
Proof.
  intros H. constructor.
  - intros p n Hin. apply list_elem_of_fmap in Hin as ([o k] & [= -> ->] & Hx).
    pose proof (layout_in _ _ _ _ H) as HF. rewrite Forall_forall in HF. specialize (HF _ Hx). cbn in HF. eauto with lia.
  - intros i j p n q k Hi Hj Hij. rewrite !list_lookup_fmap in *.
    apply fmap_Some in Hi as ([o1 n1] & Hi & [= -> ->]). apply fmap_Some in Hj as ([o2 n2] & Hj & [= -> ->]).
    pose proof (ordpairs_lookup apart live i j _ _ apart_sym (layout_apart _ _ _ _ H) Hi Hj Hij) as Ha.
    cbn. intros _. exact Ha.
Qed.

Lemma acquirer_layout b cap h t live a :
  acquirer_ok b cap h t live a -> vended_ok b cap (map (handle_at b) live)
  /\ 0 <= h <= cap /\ 0 <= t <= cap /\ (h = 0 -> t = 0).
Proof.
  assert (layout cap t h live -> vended_ok b cap (map (handle_at b) live)
            /\ 0 <= h <= cap /\ 0 <= t <= cap /\ (h = 0 -> t = 0)) as Hlay.
  { intros H. split; [exact (layout_vended _ _ _ _ _ H) |]. pose proof (layout_range _ _ _ _ H) as [Ht Hh].
    split_and!; try lia. destruct H as [? ? ? ? Hc _ |]; [apply chain_le in Hc |]; lia. }
  destruct a; cbn; intros Ha.
  - auto.
  - apply Hlay. exact (loaded_layout _ _ _ _ _ _ (proj2 Ha)).
  - apply Hlay. exact (loaded_layout _ _ _ _ _ _ (proj1 (proj2 Ha))).
  - destruct Ha as (-> & _ & _ & Hh & Ht). split_and!; try lia. apply (layout_vended b cap 0 0 []).
    apply straight; [lia | reflexivity | lia].
Qed.

Lemma ring_at_valid b cap al h t :
  0 <= h <= cap -> 0 <= t <= cap -> (h = 0 -> t = 0) -> aws_ring_buffer_is_valid (ring_at b cap al h t) = true.
Proof.
  intros Hh Ht Hht. unfold aws_ring_buffer_is_valid, aws_ring_buffer_check_atomic_ptr, ptr_le.
  cbn [ring_at head tail allocation allocation_end ring_allocator ptr_sub is_NULL].
  rewrite !decide_True by reflexivity. rewrite !(proj2 (Z.leb_le _ _)) by lia. cbn.
  destruct (Z.eq_dec h 0) as [-> | E]; [rewrite (Hht eq_refl) |].
  - now rewrite !bool_decide_eq_true_2.
  - now rewrite (bool_decide_eq_false_2 (Ptr b h = _)) by congruence.
Qed.

(** A decision that is due can always be taken: no pointer arithmetic leaves
    the block. *)
Definition never_faults (m : mem) (s : system) : Prop :=
  match acquiring s with
  | Loaded_both r t h => exists v, decide_request (ring s) r t h m = Ret v m
  | _ => True
  end.

Lemma system_ok_facts m b cap s :
  system_ok b cap s ->
  aws_ring_buffer_is_valid (ring s) = true /\ vended_ok b cap (vended s) /\ never_faults m s.
Proof.
  intros [al h t live a Ha]. destruct (acquirer_layout _ _ _ _ _ _ Ha) as (Hv & Hh & Ht & Hht).
  cbn [ring vended]. split_and!; [now apply ring_at_valid | exact Hv |].
  unfold never_faults. cbn [acquiring]. destruct a as [| | r t' h' |]; auto.
  destruct Ha as (Hr & (t0 & pre & -> & Hl & _) & ->).
  destruct (request_decision m b cap al h t t0 _ r Hl Hr) as (v & _ & _ & E & _). eauto.
Qed.

(** C5: from [aws_ring_buffer_init] on, whatever the acquiring thread requests and
    however the releases of the oldest buffer interleave with its loads and
    stores, the ring stays valid, the vended buffers are non-empty parts of
    the ring's block of which no two overlap, and no pointer arithmetic leaves
    the block. *)
Theorem ring_buffer_threads_safe (al : aws_allocator) (size : Z) (m0 m : mem) (rb : aws_ring_buffer) (s : system) :
  0 < size -> aws_ring_buffer_init al size m0 = Ret (AWS_OP_SUCCESS, rb) m ->
  rtc (thread_step m) (mk_system rb Idle []) s ->
  aws_ring_buffer_is_valid (ring s) = true
  /\ (exists b, allocation rb = Ptr b 0 /\ vended_ok b size (vended s))
  /\ never_faults m s.
Proof.
  intros Hsize Hinit Hrun. unfold aws_ring_buffer_init, aws_mem_acquire in Hinit.
  rewrite (proj2 (Z.eqb_neq _ _)) in Hinit by lia. cbn in Hinit. injection Hinit as <- <-.
  set (b := fresh _) in *. set (m := set_block _ _ _) in *.
  assert (system_ok b size s) as Hok.
  { revert Hrun. apply (rtc_ind_r (fun s => system_ok b size s)).
    - apply (system_ok_at b size al 0 0 [] Idle). apply straight; cbn; lia.
    - intros s1 s2 _ Hstep H. exact (step_ok _ _ _ _ _ Hstep H). }
  destruct (system_ok_facts m b size s Hok) as (H1 & H2 & H3). eauto.
Qed.

Lemma ring_buffer_threads_safe_witness :
  exists rb m s, aws_ring_buffer_init (mk_allocator true) 8 ring_mem = Ret (AWS_OP_SUCCESS, rb) m
    /\ rtc (thread_step m) (mk_system rb Idle []) s
    /\ vended s <> [] /\ aws_ring_buffer_is_valid (ring s) = true.
Proof.
  destruct (aws_ring_buffer_init (mk_allocator true) 8 ring_mem) as [[rv rb] m | |] eqn:E; [| discriminate ..].
  assert (rv = AWS_OP_SUCCESS) as -> by (vm_compute in E; now injection E).
  assert (exists s, rtc (thread_step m) (mk_system rb Idle []) s /\ vended s <> []) as (s & Hs & Hv).
  { vm_compute in E. injection E as <- <-. eexists. split.
    - eapply rtc_l; [apply (load_tail _ _ _ (Acquire 5)); reflexivity |].
      eapply rtc_l; [apply load_head |].
      eapply rtc_l; [eapply store_head_first; reflexivity |].
      eapply rtc_l; [apply store_tail_last | apply rtc_refl].
    - discriminate. }
  exists rb, m, s. split_and!; auto.
  now destruct (ring_buffer_threads_safe (mk_allocator true) 8 ring_mem m rb s ltac:(lia) E Hs).
Defined.

(** ** Draining *)

Fixpoint release_all (rb : aws_ring_buffer) (bufs : list aws_byte_buf) : aws_ring_buffer :=
  match bufs with
  | [] => rb
  | buf :: bufs => release_all (fst (aws_ring_buffer_release rb buf)) bufs
  end.

Lemma release_ring_ok m b cap x spans rb buf :
  ring_ok m b cap (x :: spans) rb -> handle buf = handle_at b x ->
  s_buf_belongs_to_pool rb buf = true /\ ring_ok m b cap spans (fst (aws_ring_buffer_release rb buf)).
Proof.
  intros [al h t data Hb Hz Hs Hl] E. destruct x as [o n]. injection E as Ep Ec.
  pose proof (layout_in _ _ _ _ Hl) as Hin. apply Forall_cons in Hin as [Hx _]. cbn in Hx.
  unfold aws_ring_buffer_release, s_buf_belongs_to_pool, ptr_le. rewrite Ep, Ec.
  cbn [fst ptr_add ring_at allocation allocation_end is_NULL ptr_sub].
  rewrite !decide_True by reflexivity. rewrite !(proj2 (Z.leb_le _ _)) by lia. split; [reflexivity |].
  exact (ring_ok_at m b cap spans al h (o + n) data Hb Hz Hs (layout_release _ _ _ _ _ _ Hl)).
Qed.

Lemma release_all_ok m b cap spans rb bufs :
  ring_ok m b cap spans rb -> map handle bufs = map (handle_at b) spans -> ring_ok m b cap [] (release_all rb bufs).
Proof.
  revert rb spans. induction bufs as [| buf bufs IH]; intros rb [| x spans] H E; try discriminate; [exact H |].
  cbn [map] in E. injection E as E1 E2 E. cbn [release_all]. apply (IH _ spans); [| exact E].
  apply (release_ring_ok _ _ _ x); [exact H |]. unfold handle, handle_at. now rewrite E1, E2.
Qed.

(** C15: no space is lost: once the vended buffers have been given back in order,
    whatever their holders did to their lengths, the ring is empty again and
    a request for up to its whole size succeeds, at its start. *)
Theorem ring_buffer_drains (m : mem) (b : positive) (cap n : Z) (spans : list span) (rb : aws_ring_buffer)
    (bufs : list aws_byte_buf) (old : aws_byte_buf) :
  ring_ok m b cap spans rb -> map handle bufs = map (handle_at b) spans -> 0 < n <= cap ->
  aws_ring_buffer_is_empty (release_all rb bufs) = true
  /\ exists rb', aws_ring_buffer_acquire (release_all rb bufs) n old m
                 = Ret (AWS_OP_SUCCESS, rb', mk_buf 0 (Ptr b 0) n None) m.
Proof.
  intros H E Hn. pose proof (release_all_ok _ _ _ _ _ _ H E) as [al h t data Hb Hz Hs Hl].
  apply layout_empty in Hl. assert (t = h) as -> by now apply Hl.
  unfold aws_ring_buffer_is_empty. cbn [head tail ring_at]. split; [now apply bool_decide_eq_true |].
  assert (s_acquire (ring_at b cap al h h) n (Ptr b h) (Ptr b h) m
          = Ret (Some (mk_vend (Ptr b n) (Some (Ptr b 0)) (span_buf b (0, n)))) m) as Ha.
  { unfold s_acquire, ring_space. rewrite decide_True by reflexivity.
    cbn [allocation allocation_end ring_at is_NULL]. run (ptr_diff_same b cap 0 m).
    now rewrite (proj2 (Z.ltb_ge _ _)) by lia. }
  unfold aws_ring_buffer_acquire. rewrite (proj2 (Z.eqb_neq n 0)) by lia. cbn [head tail ring_at]. run Ha.
  cbn [finish_acquire dest]. rewrite span_buf_eq by (cbn; lia). eexists. reflexivity.
Qed.

Lemma ring_buffer_drains_witness :
  exists rb', aws_ring_buffer_acquire
                (release_all (ring_at 1 8 (mk_allocator true) 2 4) [mk_buf 1 (Ptr 1 4) 3 None; mk_buf 2 (Ptr 1 0) 2 None])
                8 zero_buf ring_mem
              = Ret (AWS_OP_SUCCESS, rb', mk_buf 0 (Ptr 1 0) 8 None) ring_mem.
Proof.
  assert (ring_ok ring_mem 1 8 [(4, 3); (0, 2)] (ring_at 1 8 (mk_allocator true) 2 4)) as H.
  { apply (ring_ok_at _ _ _ _ _ _ _ [0; 0; 0; 0; 0; 0; 0; 0]); [reflexivity | reflexivity | unfold SIZE_MAX; lia |].
    apply (wrapped 8 4 2 [(4, 3)] [(0, 2)] 7); cbn; auto with lia. }
  exact (proj2 (ring_buffer_drains ring_mem 1 8 8 _ _
    [mk_buf 1 (Ptr 1 4) 3 None; mk_buf 2 (Ptr 1 0) 2 None] zero_buf H eq_refl ltac:(lia))).
Defined.
