(* ===== verification/HashTable.v ===== *)
(** * The Robin Hood hash table: definitions

    [source/hash_table.c] and [include/aws/common/private/hash_table_impl.h].

    A [void *] key or value is its address as a [Z], [0] being [NULL]; the
    callbacks [hash_fn] and [equals_fn] are pure functions of the addresses
    (the pointees do not change while they are in the table, as the header
    demands). A [struct hash_table_entry *] into [slots] is the slot index.
    The destructor callbacks are fields that say whether the pointer is
    non-NULL; every call of one is an event of the trace an operation returns.
    [aws_mem_calloc] does not return NULL, it ends the process when memory
    runs out, so an allocation here always succeeds.

    The three [while (1)] loops carry fuel; an operation that runs out of it
    is [None], and the theorems show that [size] (plus one) iterations are
    always enough. *)

From S2P Require Import Prelude Math.

Local Open Scope Z_scope.

Module HashTable.

Record aws_hash_element := mk_element { key : Z; value : Z }.

Record hash_table_entry := mk_entry { element : aws_hash_element; hash_code : Z }.

#[export] Instance aws_hash_element_eq_dec : EqDecision aws_hash_element.
Proof. solve_decision. Defined.

#[export] Instance hash_table_entry_eq_dec : EqDecision hash_table_entry.
Proof. solve_decision. Defined.

(** All-zero memory: hash code 0 marks the slot empty. *)
Definition empty_entry : hash_table_entry := mk_entry (mk_element 0 0) 0.

Record hash_table_state := mk_state {
  hash_fn : Z -> Z;
  equals_fn : Z -> Z -> bool;
  destroy_key_fn : bool;
  destroy_value_fn : bool;
  size : Z;
  entry_count : Z;
  max_load : Z;
  mask : Z;
  slots : list hash_table_entry
}.

(** [struct aws_hash_table]: the pointer [p_impl], [None] when NULL. *)
Definition aws_hash_table := option hash_table_state.

Inductive destroy_event :=
| DestroyKey (k : Z)
| DestroyValue (v : Z).

Definition set_slots (st : hash_table_state) (s : list hash_table_entry) : hash_table_state :=
  mk_state (hash_fn st) (equals_fn st) (destroy_key_fn st) (destroy_value_fn st)
    (size st) (entry_count st) (max_load st) (mask st) s.

Definition set_entry_count (st : hash_table_state) (c : Z) : hash_table_state :=
  mk_state (hash_fn st) (equals_fn st) (destroy_key_fn st) (destroy_value_fn st)
    (size st) c (max_load st) (mask st) (slots st).

(** [slots[i]] *)
Definition slot_at (s : list hash_table_entry) (i : Z) : hash_table_entry :=
  default empty_entry (s !! Z.to_nat i).

(** [slots[i] = e] *)
Definition slot_set (s : list hash_table_entry) (i : Z) (e : hash_table_entry)
    : list hash_table_entry :=
  <[Z.to_nat i := e]> s.

(** ** Hashing and comparing keys *)

Definition s_hash_for (st : hash_table_state) (k : Z) : Z :=
  if k =? 0 then 42
  else
    let h := hash_fn st k in
    if h =? 0 then 1 else h.

Definition s_safe_eq_check (eq : Z -> Z -> bool) (a b : Z) : bool :=
  if a =? b then true
  else if (a =? 0) || (b =? 0) then false
  else eq a b.

Definition s_hash_keys_eq (st : hash_table_state) (a b : Z) : bool :=
  s_safe_eq_check (equals_fn st) a b.

Definition aws_hash_table_get_entry_count (st : hash_table_state) : Z := entry_count st.

(** ** Allocation *)

Definition sizeof_hash_table_entry : Z := 24.
Definition sizeof_hash_table_state : Z := 80.

Definition hash_table_state_required_bytes (sz : Z) : result Z :=
  match aws_mul_size_checked sz sizeof_hash_table_entry with
  | Err e => Err e
  | Ok elemsize => aws_add_size_checked elemsize sizeof_hash_table_state
  end.

(** The header of [template] with [size] zeroed slots. *)
Definition s_alloc_state (template : hash_table_state) : result hash_table_state :=
  match hash_table_state_required_bytes (size template) with
  | Err e => Err e
  | Ok _ => Ok (set_slots template (replicate (Z.to_nat (size template)) empty_entry))
  end.

(** The double nearest to 0.95 is [8556839292003942 / 2^53]; multiplying it
    by a power of two is exact in binary floating point, so the conversion to
    [size_t] is this integer division. *)
Definition max_load_factor_mantissa : Z := 8556839292003942.

Definition max_load_of (sz : Z) : Z := max_load_factor_mantissa * sz / 2 ^ 53.

Definition s_update_template_size (template : hash_table_state) (expected_elements : Z)
    : result hash_table_state :=
  let min_size := if expected_elements <? 2 then 2 else expected_elements in
  match aws_round_up_to_power_of_two min_size with
  | Err e => Err e
  | Ok sz =>
      let ml := max_load_of sz in
      let ml := if sz <=? ml then sz - 1 else ml in
      Ok (mk_state (hash_fn template) (equals_fn template) (destroy_key_fn template)
            (destroy_value_fn template)
            sz (entry_count template) ml (sz - 1) (slots template))
  end.

Definition aws_hash_table_init (sz : Z) (hash : Z -> Z) (eq : Z -> Z -> bool)
    (destroy_key destroy_value : bool) : result hash_table_state :=
  let template := mk_state hash eq destroy_key destroy_value 0 0 0 0 [] in
  match s_update_template_size template sz with
  | Err e => Err e
  | Ok template => s_alloc_state template
  end.

(** ** Finding a key *)

(** The probe loop of [s_find_entry1]: whether the key was found, the slot it
    stopped at and the probe index there. *)
Fixpoint find_entry1_loop (fuel : nat) (st : hash_table_state) (h k probe_idx : Z)
    : option (bool * Z * Z) :=
  match fuel with
  | O => None
  | S fuel =>
      let index := Z.land (u64 (h + probe_idx)) (mask st) in
      let entry := slot_at (slots st) index in
      if hash_code entry =? 0 then Some (false, index, probe_idx)
      else if (hash_code entry =? h) && s_hash_keys_eq st k (key (element entry))
      then Some (true, index, probe_idx)
      else
        let entry_probe := Z.land (u64 (index - hash_code entry)) (mask st) in
        if entry_probe <? probe_idx then Some (false, index, probe_idx)
        else find_entry1_loop fuel st h k (u64 (probe_idx + 1))
  end.

Definition s_find_entry1 (st : hash_table_state) (h k : Z) : option (bool * Z * Z) :=
  find_entry1_loop (S (Z.to_nat (size st))) st h k 1.

(** The inlined fast path checks the home slot only. *)
Definition s_find_entry (st : hash_table_state) (h k : Z) : option (bool * Z * Z) :=
  let index := Z.land h (mask st) in
  let entry := slot_at (slots st) index in
  if hash_code entry =? 0 then Some (false, index, 0)
  else if (hash_code entry =? h) && s_hash_keys_eq st k (key (element entry))
  then Some (true, index, 0)
  else s_find_entry1 st h k.

(** [*p_elem]: the slot of the element, [None] for NULL. *)
Definition aws_hash_table_find (st : hash_table_state) (k : Z) : option (option Z) :=
  match s_find_entry st (s_hash_for st k) k with
  | None => None
  | Some (found, index, _) => Some (if found then Some index else None)
  end.

(** ** Inserting *)

(** The loop of [s_emplace_item]: the slots, the entry being carried, its
    probe index and the first slot written. *)
Fixpoint emplace_loop (fuel : nat) (msk : Z) (s : list hash_table_entry)
    (entry : hash_table_entry) (probe_idx : Z) (rval : option Z)
    : option (list hash_table_entry * option Z) :=
  if hash_code entry =? 0 then Some (s, rval)
  else
    match fuel with
    | O => None
    | S fuel =>
        let index := Z.land (u64 (hash_code entry + probe_idx)) msk in
        let victim := slot_at s index in
        let victim_probe_idx := Z.land (u64 (index - hash_code victim)) msk in
        if (hash_code victim =? 0) || (victim_probe_idx <? probe_idx) then
          let rval := match rval with None => Some index | Some r => Some r end in
          emplace_loop fuel msk (slot_set s index entry) victim
            (u64 (victim_probe_idx + 1)) rval
        else emplace_loop fuel msk s entry (u64 (probe_idx + 1)) rval
    end.

Definition s_emplace_item (st : hash_table_state) (entry : hash_table_entry) (probe_idx : Z)
    : option (hash_table_state * option Z) :=
  match emplace_loop (S (Z.to_nat (size st))) (mask st) (slots st) entry probe_idx None with
  | None => None
  | Some (s, rval) => Some (set_slots st s, rval)
  end.

(** Re-insert every occupied slot of the old table. *)
Fixpoint reinsert_all (old : list hash_table_entry) (new_state : hash_table_state)
    : option hash_table_state :=
  match old with
  | [] => Some new_state
  | entry :: old =>
      if hash_code entry =? 0 then reinsert_all old new_state
      else
        match s_emplace_item new_state entry 0 with
        | None => None
        | Some (new_state, _) => reinsert_all old new_state
        end
  end.

Definition s_expand_table (st : hash_table_state) : option (op_result * hash_table_state) :=
  match aws_mul_size_checked (size st) 2 with
  | Err e => Some (AWS_OP_ERR e, st)
  | Ok new_size =>
      match s_update_template_size st new_size with
      | Err e => Some (AWS_OP_ERR e, st)
      | Ok template =>
          match s_alloc_state template with
          | Err e => Some (AWS_OP_ERR e, st)
          | Ok new_state =>
              match reinsert_all (slots st) new_state with
              | None => None
              | Some new_state => Some (AWS_OP_SUCCESS, new_state)
              end
          end
      end
  end.

(** The error code or the slot of the element and whether it was created. *)
Definition aws_hash_table_create (st : hash_table_state) (k : Z)
    : option (result (option Z * bool) * hash_table_state) :=
  let h := s_hash_for st k in
  match s_find_entry st h k with
  | None => None
  | Some (true, index, _) => Some (Ok (Some index, false), st)
  | Some (false, _, probe_idx) =>
      match aws_add_size_checked (entry_count st) 1 with
      | Err e => Some (Err e, st)
      | Ok incr_entry_count =>
          let grown :=
            if max_load st <? incr_entry_count
            then
              match s_expand_table st with
              | None => None
              | Some (rv, st) => Some (rv, st, 0)
              end
            else Some (AWS_OP_SUCCESS, st, probe_idx) in
          match grown with
          | None => None
          | Some (AWS_OP_ERR e, st, _) => Some (Err e, st)
          | Some (AWS_OP_SUCCESS, st, probe_idx) =>
              let st := set_entry_count st (u64 (entry_count st + 1)) in
              match s_emplace_item st (mk_entry (mk_element k 0) h) probe_idx with
              | None => None
              | Some (st, rval) => Some (Ok (rval, true), st)
              end
          end
      end
  end.

(** [p_elem->key = k; p_elem->value = v] *)
Definition write_element (st : hash_table_state) (i : Z) (k v : Z) : hash_table_state :=
  set_slots st
    (slot_set (slots st) i (mk_entry (mk_element k v) (hash_code (slot_at (slots st) i)))).

(** The status, [*was_created], the destructor calls and the table. A NULL
    [p_elem] after a success would be a NULL dereference: [None]. *)
Definition aws_hash_table_put (st : hash_table_state) (k v : Z)
    : option (op_result * bool * list destroy_event * hash_table_state) :=
  match aws_hash_table_create st k with
  | None => None
  | Some (Err e, st) => Some (AWS_OP_ERR e, false, [], st)
  | Some (Ok (None, _), _) => None
  | Some (Ok (Some p_elem, was_created), st) =>
      let elem := element (slot_at (slots st) p_elem) in
      let events :=
        if was_created then []
        else
          (if negb (key elem =? k) && destroy_key_fn st then [DestroyKey (key elem)] else []) ++
          (if destroy_value_fn st then [DestroyValue (value elem)] else []) in
      Some (AWS_OP_SUCCESS, was_created, events, write_element st p_elem k v)
  end.

(** ** Removing *)

(** Shift the following entries back until one is in its home slot or the
    slot is empty; the slot that remains to be cleared. *)
Fixpoint remove_loop (fuel : nat) (msk : Z) (s : list hash_table_entry) (index : Z)
    : option (list hash_table_entry * Z) :=
  match fuel with
  | O => None
  | S fuel =>
      let next_index := Z.land (u64 (index + 1)) msk in
      let next := slot_at s next_index in
      if hash_code next =? 0 then Some (s, index)
      else if Z.land (hash_code next) msk =? next_index then Some (s, index)
      else remove_loop fuel msk (slot_set s index next) next_index
  end.

Definition s_remove_entry (st : hash_table_state) (entry : Z)
    : option (hash_table_state * Z) :=
  let st := set_entry_count st (u64 (entry_count st - 1)) in
  match remove_loop (S (Z.to_nat (size st))) (mask st) (slots st) entry with
  | None => None
  | Some (s, index) => Some (set_slots st (slot_set s index empty_entry), index)
  end.

(** [has_p_value]: the caller passed a non-NULL [p_value] and receives the
    element; otherwise the destructors run. *)
Definition aws_hash_table_remove (st : hash_table_state) (k : Z) (has_p_value : bool)
    : option (option aws_hash_element * bool * list destroy_event * hash_table_state) :=
  match s_find_entry st (s_hash_for st k) k with
  | None => None
  | Some (false, _, _) => Some (None, false, [], st)
  | Some (true, index, _) =>
      let elem := element (slot_at (slots st) index) in
      let '(p_value, events) :=
        if has_p_value then (Some elem, [])
        else
          (None,
           (if destroy_key_fn st then [DestroyKey (key elem)] else []) ++
           (if destroy_value_fn st then [DestroyValue (value elem)] else [])) in
      match s_remove_entry st index with
      | None => None
      | Some (st, _) => Some (p_value, true, events, st)
      end
  end.

Definition aws_hash_table_remove_element (st : hash_table_state) (p_value : Z)
    : option hash_table_state :=
  match s_remove_entry st p_value with
  | None => None
  | Some (st, _) => Some st
  end.

(** ** Clearing, swapping, moving *)

Definition destroy_events (st : hash_table_state) (e : hash_table_entry) : list destroy_event :=
  if hash_code e =? 0 then []
  else
    (if destroy_key_fn st then [DestroyKey (key (element e))] else []) ++
    (if destroy_value_fn st then [DestroyValue (value (element e))] else []).

Definition aws_hash_table_clear (st : hash_table_state)
    : list destroy_event * hash_table_state :=
  let events :=
    if destroy_key_fn st || destroy_value_fn st
    then concat (map (destroy_events st) (slots st))
    else [] in
  (events,
   set_entry_count (set_slots st (replicate (Z.to_nat (size st)) empty_entry)) 0).

Definition aws_hash_table_clean_up (map : aws_hash_table) : list destroy_event * aws_hash_table :=
  match map with
  | None => ([], None)
  | Some st => (fst (aws_hash_table_clear st), None)
  end.

Definition aws_hash_table_swap (a b : aws_hash_table) : aws_hash_table * aws_hash_table := (b, a).

(** The new [*to] and [*from]. *)
Definition aws_hash_table_move (from : aws_hash_table) : aws_hash_table * aws_hash_table :=
  (from, None).

(** ** Comparing tables *)

Fixpoint table_eq_loop (a_slots : list hash_table_entry) (b : hash_table_state)
    (value_eq : Z -> Z -> bool) : option bool :=
  match a_slots with
  | [] => Some true
  | a_entry :: rest =>
      if hash_code a_entry =? 0 then table_eq_loop rest b value_eq
      else
        match aws_hash_table_find b (key (element a_entry)) with
        | None => None
        | Some None => Some false
        | Some (Some i) =>
            if s_safe_eq_check value_eq (value (element a_entry))
                 (value (element (slot_at (slots b) i)))
            then table_eq_loop rest b value_eq
            else Some false
        end
  end.

Definition aws_hash_table_eq (a b : hash_table_state) (value_eq : Z -> Z -> bool) : option bool :=
  if negb (aws_hash_table_get_entry_count a =? aws_hash_table_get_entry_count b)
  then Some false
  else table_eq_loop (slots a) b value_eq.

(** ** Iterating *)

Inductive aws_hash_iter_status :=
| AWS_HASH_ITER_STATUS_DONE
| AWS_HASH_ITER_STATUS_DELETE_CALLED
| AWS_HASH_ITER_STATUS_READY_FOR_USE.

(** The iterator; the table it points to is passed beside it. *)
Record aws_hash_iter := mk_iter {
  iter_element : aws_hash_element;
  iter_slot : Z;
  iter_limit : Z;
  iter_status : aws_hash_iter_status
}.

(** The scan [for (i = start_slot; i < limit; i++)]. *)
Fixpoint next_filled (fuel : nat) (s : list hash_table_entry) (i limit : Z) : option Z :=
  match fuel with
  | O => None
  | S fuel =>
      if i <? limit then
        if hash_code (slot_at s i) =? 0 then next_filled fuel s (i + 1) limit else Some i
      else None
  end.

Definition s_get_next_element (st : hash_table_state) (iter : aws_hash_iter) (start_slot : Z)
    : aws_hash_iter :=
  match next_filled (Z.to_nat (iter_limit iter - start_slot)) (slots st) start_slot
          (iter_limit iter) with
  | Some i =>
      mk_iter (element (slot_at (slots st) i)) i (iter_limit iter)
        AWS_HASH_ITER_STATUS_READY_FOR_USE
  | None =>
      mk_iter (mk_element 0 0) (iter_limit iter) (iter_limit iter) AWS_HASH_ITER_STATUS_DONE
  end.

Definition aws_hash_iter_begin (st : hash_table_state) : aws_hash_iter :=
  s_get_next_element st (mk_iter (mk_element 0 0) 0 (size st) AWS_HASH_ITER_STATUS_DONE) 0.

Definition aws_hash_iter_done (iter : aws_hash_iter) : bool := iter_slot iter =? iter_limit iter.

Definition aws_hash_iter_next (st : hash_table_state) (iter : aws_hash_iter) : aws_hash_iter :=
  s_get_next_element st iter (u64 (iter_slot iter + 1)).

Definition aws_hash_iter_delete (st : hash_table_state) (iter : aws_hash_iter)
    (destroy_contents : bool)
    : option (list destroy_event * hash_table_state * aws_hash_iter) :=
  let events :=
    if destroy_contents then
      (if destroy_key_fn st then [DestroyKey (key (iter_element iter))] else []) ++
      (if destroy_value_fn st then [DestroyValue (value (iter_element iter))] else [])
    else [] in
  match s_remove_entry st (iter_slot iter) with
  | None => None
  | Some (st, last_index) =>
      let limit :=
        if (last_index <? iter_slot iter) || (iter_limit iter <=? last_index)
        then u64 (iter_limit iter - 1) else iter_limit iter in
      Some (events, st,
            mk_iter (iter_element iter) (u64 (iter_slot iter - 1)) limit
              AWS_HASH_ITER_STATUS_DELETE_CALLED)
  end.

Definition AWS_COMMON_HASH_TABLE_ITER_CONTINUE : Z := 1.
Definition AWS_COMMON_HASH_TABLE_ITER_DELETE : Z := 2.
Definition AWS_COMMON_HASH_TABLE_ITER_ERROR : Z := 4.

Section foreach.
Context {C : Type}.

(** The callback maps its context and the element to its flags, the thread's
    last error after it returns, and its new context. *)
Variable callback : C -> aws_hash_element -> Z * aws_common_error * C.

Definition flag (rv f : Z) : bool := negb (Z.land rv f =? 0).

Fixpoint foreach_loop (fuel : nat) (st : hash_table_state) (iter : aws_hash_iter) (ctx : C)
    : option (op_result * hash_table_state * C) :=
  if aws_hash_iter_done iter then Some (AWS_OP_SUCCESS, st, ctx)
  else
    match fuel with
    | O => None
    | S fuel =>
        let '(rv, last_error, ctx) := callback ctx (iter_element iter) in
        if flag rv AWS_COMMON_HASH_TABLE_ITER_ERROR then
          let error :=
            if decide (last_error = AWS_ERROR_SUCCESS) then AWS_ERROR_UNKNOWN else last_error in
          Some (AWS_OP_ERR error, st, ctx)
        else
          let deleted :=
            if flag rv AWS_COMMON_HASH_TABLE_ITER_DELETE
            then aws_hash_iter_delete st iter false
            else Some ([], st, iter) in
          match deleted with
          | None => None
          | Some (_, st, iter) =>
              if flag rv AWS_COMMON_HASH_TABLE_ITER_CONTINUE
              then foreach_loop fuel st (aws_hash_iter_next st iter) ctx
              else Some (AWS_OP_SUCCESS, st, ctx)
          end
    end.

Definition aws_hash_table_foreach (st : hash_table_state) (ctx : C)
    : option (op_result * hash_table_state * C) :=
  foreach_loop (Z.to_nat (size st)) st (aws_hash_iter_begin st) ctx.

End foreach.

(** ** Validity checks *)

(** Callback and allocator pointers are non-NULL by construction here and
    [max_load_factor] is the constant; the writability of the slots is that
    there are [size] of them. *)
Definition hash_table_state_is_valid (st : hash_table_state) : bool :=
  let size_at_least_two := 2 <=? size st in
  let size_is_power_of_two := aws_is_power_of_two (size st) in
  let entry_count_ok := entry_count st <=? max_load st in
  let max_load_ok := max_load st <? size st in
  let mask_is_correct := mask st =? u64 (size st - 1) in
  let slots_allocated := zlength (slots st) =? size st in
  size_at_least_two && size_is_power_of_two && entry_count_ok && max_load_ok &&
  mask_is_correct && slots_allocated.

Definition aws_hash_table_is_valid (map : aws_hash_table) : bool :=
  match map with
  | None => false
  | Some st => hash_table_state_is_valid st
  end.

Definition aws_hash_iter_is_valid (st : hash_table_state) (iter : aws_hash_iter) : bool :=
  hash_table_state_is_valid st && (iter_limit iter <=? size st) &&
  match iter_status iter with
  | AWS_HASH_ITER_STATUS_DONE => iter_slot iter =? iter_limit iter
  | AWS_HASH_ITER_STATUS_DELETE_CALLED =>
      (iter_slot iter <=? iter_limit iter) || (iter_slot iter =? SIZE_MAX)
  | AWS_HASH_ITER_STATUS_READY_FOR_USE =>
      (iter_slot iter <? iter_limit iter) &&
      negb (hash_code (slot_at (slots st) (iter_slot iter)) =? 0)
  end.

Definition aws_ptr_eq (a b : Z) : bool := a =? b.

End HashTable.
