(* ===== verification/HashTableRing.v ===== *)
(** * Robin Hood probing on the ring of slots

    The slots of a table of [2^k] entries are read as a periodic function of
    an integer position, so that probing past the last slot needs no case
    split. [robin_hood] is the invariant the probe loops rely on; this file
    shows what the three loops of the table do to it. *)

From S2P Require Import Prelude Math HashTable.
Import HashTable.

Local Open Scope Z_scope.

(** ** Modular facts *)

Lemma mod_shift_eq n x t : 0 < n -> 0 <= t < n -> (x + t) mod n = x mod n -> t = 0.
Proof.
  intros Hn Ht H. assert (t mod n = 0) as H0.
  { replace t with (x + t - x) by lia. rewrite Zminus_mod, H, Z.sub_diag. apply Z.mod_0_l. lia. }
  rewrite Z.mod_small in H0 by lia. assumption.
Qed.

Lemma mod_eq_shift n x y : 0 < n -> x mod n = y mod n -> (x - y) mod n = 0.
Proof. intros Hn H. rewrite Zminus_mod, H, Z.sub_diag. apply Z.mod_0_l. lia. Qed.

Lemma mod_congr_add n x y d : 0 < n -> x mod n = y mod n -> (x + d) mod n = (y + d) mod n.
Proof. intros Hn H. now rewrite Zplus_mod, H, <- Zplus_mod. Qed.

Lemma mod_congr_sub n x y d : 0 < n -> x mod n = y mod n -> (x - d) mod n = (y - d) mod n.
Proof. intros Hn H. now rewrite Zminus_mod, H, <- Zminus_mod. Qed.

(** Stepping back one position lowers a positive remainder by one. *)
Lemma mod_pred n x : 0 < n -> 0 < x mod n -> (x - 1) mod n = x mod n - 1.
Proof.
  intros Hn H.
  replace (x - 1) with (x mod n - 1 + n * (x / n)) by (pose proof (Z.div_mod x n); lia).
  rewrite Z.mul_comm, Z.mod_add by lia. apply Z.mod_small.
  pose proof (Z.mod_pos_bound x n Hn). lia.
Qed.

(** ** The ring *)

Definition occupied (e : hash_table_entry) : Prop := hash_code e <> 0.

#[export] Instance occupied_dec e : Decision (occupied e).
Proof. unfold occupied. apply _. Defined.

Section ring.
Context (k : Z) (Hk : 1 <= k <= 63).
Let n : Z := 2 ^ k.

Lemma ring_size_pos : 2 <= n.
Proof. unfold n. change 2 with (2 ^ 1) at 1. apply Z.pow_le_mono_r; lia. Qed.

Lemma ring_size_u64 : n <= 2 ^ 63.
Proof. unfold n. apply Z.pow_le_mono_r; lia. Qed.

(** The entry at a position, modulo the table size. *)
Definition at_pos (s : list hash_table_entry) (x : Z) : hash_table_entry :=
  slot_at s (x mod 2 ^ k).

(** How far an entry at position [x] is from its home slot. *)
Definition distance (x : Z) (e : hash_table_entry) : Z := (x - hash_code e) mod 2 ^ k.

(** An entry away from home has a neighbour before it that is at least as
    far from home, up to one. *)
Definition robin_hood (s : list hash_table_entry) : Prop :=
  forall x, occupied (at_pos s x) -> 0 < distance x (at_pos s x) ->
    occupied (at_pos s (x - 1))
    /\ distance x (at_pos s x) - 1 <= distance (x - 1) (at_pos s (x - 1)).

Lemma at_pos_congr s x y : x mod n = y mod n -> at_pos s x = at_pos s y.
Proof. unfold at_pos. fold n. now intros ->. Qed.

Lemma distance_congr x y e : x mod n = y mod n -> distance x e = distance y e.
Proof. intros H. unfold distance. fold n. apply mod_congr_sub; [pose proof ring_size_pos; lia | assumption]. Qed.

Lemma distance_range x e : 0 <= distance x e < n.
Proof. apply Z.mod_pos_bound. pose proof ring_size_pos. unfold n in *. lia. Qed.

Lemma distance_home e p : 0 <= p < n -> distance (hash_code e + p) e = p.
Proof.
  intros. unfold distance. fold n.
  replace (hash_code e + p - hash_code e) with p by lia. apply Z.mod_small. lia.
Qed.

Lemma distance_pred x e : 0 < distance x e -> distance (x - 1) e = distance x e - 1.
Proof.
  unfold distance. fold n. intros H. pose proof ring_size_pos.
  replace (x - 1 - hash_code e) with (x - hash_code e - 1) by lia. apply mod_pred; lia.
Qed.

(** An entry is at its home slot plus its distance. *)
Lemma position_of_distance x e : (hash_code e + distance x e) mod n = x mod n.
Proof.
  unfold distance. fold n. rewrite Zplus_mod_idemp_r. f_equal. lia.
Qed.

Lemma at_pos_set s x y e :
  zlength s = n ->
  at_pos (slot_set s (x mod n) e) y = if y mod n =? x mod n then e else at_pos s y.
Proof.
  intros Hl. pose proof ring_size_pos.
  pose proof (Z.mod_pos_bound x n ltac:(lia)). pose proof (Z.mod_pos_bound y n ltac:(lia)).
  unfold at_pos, slot_set, slot_at. fold n. unfold zlength in Hl.
  destruct (Z.eqb_spec (y mod n) (x mod n)) as [-> | Hne].
  - rewrite list_lookup_insert_eq by lia. reflexivity.
  - rewrite list_lookup_insert_ne by lia. reflexivity.
Qed.

Lemma at_pos_lookup s x :
  zlength s = n -> s !! Z.to_nat (x mod n) = Some (at_pos s x).
Proof.
  intros Hl. pose proof ring_size_pos. pose proof (Z.mod_pos_bound x n ltac:(lia)).
  destruct (lookup_lt_is_Some_2 s (Z.to_nat (x mod n))) as [e He]; [unfold zlength in Hl; lia |].
  unfold at_pos, slot_at. fold n. now rewrite He.
Qed.

(** Every slot is the slot of its own position. *)
Lemma at_pos_of_lookup s i e :
  zlength s = n -> s !! i = Some e -> at_pos s (Z.of_nat i) = e.
Proof.
  intros Hl H. pose proof (lookup_lt_Some _ _ _ H). unfold at_pos, slot_at. fold n.
  rewrite Z.mod_small by (unfold zlength in Hl; lia). now rewrite Nat2Z.id, H.
Qed.

(** Walking back from an entry towards its home meets only occupied slots,
    each at least as far from home as the walk leaves. *)
Lemma robin_hood_chain s x j :
  robin_hood s -> occupied (at_pos s x) -> 0 <= j <= distance x (at_pos s x) ->
  occupied (at_pos s (x - j))
  /\ distance x (at_pos s x) - j <= distance (x - j) (at_pos s (x - j)).
Proof.
  intros HR Hocc [Hj0 Hj]. revert Hj. pattern j. apply natlike_ind; [| | exact Hj0].
  - intros _. rewrite Z.sub_0_r. split; [assumption | lia].
  - clear j Hj0. intros j Hj0 IH Hj. destruct IH as [IHo IHd]; [lia |].
    replace (x - Z.succ j) with (x - j - 1) by lia.
    destruct (HR (x - j) IHo) as [Ho Hd]; [lia |]. split; [assumption | lia].
Qed.

(** With an empty slot somewhere, no entry is a full turn from home. *)
Lemma distance_not_full s x z :
  robin_hood s -> ~ occupied (at_pos s z) -> occupied (at_pos s x) ->
  distance x (at_pos s x) < n - 1.
Proof.
  intros HR Hz Hx. pose proof (distance_range x (at_pos s x)) as Hr.
  destruct (Z.lt_ge_cases (distance x (at_pos s x)) (n - 1)) as [| Hfull]; [assumption |].
  exfalso. apply Hz. pose proof ring_size_pos.
  pose proof (Z.mod_pos_bound (x - z) n ltac:(lia)).
  destruct (robin_hood_chain s x ((x - z) mod n) HR Hx) as [Ho _]; [lia |].
  erewrite at_pos_congr; [exact Ho |].
  rewrite Zminus_mod_idemp_r. f_equal. lia.
Qed.

Lemma slot_set_length s i e : zlength (slot_set s i e) = zlength s.
Proof. apply zlength_insert. Qed.

(** Storing an entry where its predecessor supports it keeps the invariant,
    provided the following entry still is supported. *)
Lemma robin_hood_set s x e :
  zlength s = n -> robin_hood s ->
  (occupied e -> 0 < distance x e ->
     occupied (at_pos s (x - 1)) /\ distance x e - 1 <= distance (x - 1) (at_pos s (x - 1))) ->
  (occupied (at_pos s (x + 1)) -> 0 < distance (x + 1) (at_pos s (x + 1)) ->
     occupied e /\ distance (x + 1) (at_pos s (x + 1)) - 1 <= distance x e) ->
  robin_hood (slot_set s (x mod n) e).
Proof.
  intros Hl HR Hprev Hnext y. pose proof ring_size_pos.
  rewrite !at_pos_set by assumption.
  destruct (Z.eqb_spec (y mod n) (x mod n)) as [Ey | Ey];
    destruct (Z.eqb_spec ((y - 1) mod n) (x mod n)) as [Ep | Ep].
  - exfalso. assert (1 = 0); [| lia]. apply (mod_shift_eq n (y - 1) 1); try lia.
    replace (y - 1 + 1) with y by lia. congruence.
  - rewrite (distance_congr y x) by assumption.
    rewrite (at_pos_congr s (y - 1) (x - 1)) by (apply mod_congr_sub; [lia | assumption]).
    rewrite (distance_congr (y - 1) (x - 1)) by (apply mod_congr_sub; [lia | assumption]).
    exact Hprev.
  - assert (y mod n = (x + 1) mod n) as Ey1.
    { replace y with (y - 1 + 1) by lia. apply mod_congr_add; [lia | assumption]. }
    rewrite (at_pos_congr s y (x + 1)), (distance_congr y (x + 1)) by assumption.
    rewrite (distance_congr (y - 1) x) by assumption. exact Hnext.
  - apply HR.
Qed.

Lemma robin_hood_empty m : robin_hood (replicate m empty_entry).
Proof.
  intros x Hocc. exfalso. apply Hocc. unfold at_pos, slot_at.
  destruct (replicate m empty_entry !! Z.to_nat (x mod 2 ^ k)) eqn:E; [| reflexivity].
  apply lookup_replicate in E as [-> _]. reflexivity.
Qed.

(** ** Finding *)

Section find.
Context (st : hash_table_state).
Context (Hmask : mask st = 2 ^ k - 1) (Hlen : zlength (slots st) = n).
Context (HR : robin_hood (slots st)).

(** The probe loop at [h + p] reports a match there, or stops at the first
    position that is empty or closer to home than [p]. *)
Lemma find_step fuel h key p :
  0 <= p < 2 ^ 64 - 1 ->
  find_entry1_loop (S fuel) st h key p =
  let e := at_pos (slots st) (h + p) in
  if hash_code e =? 0 then Some (false, (h + p) mod n, p)
  else if (hash_code e =? h) && s_hash_keys_eq st key (HashTable.key (element e))
  then Some (true, (h + p) mod n, p)
  else if distance (h + p) e <? p then Some (false, (h + p) mod n, p)
  else find_entry1_loop fuel st h key (p + 1).
Proof.
  intros Hp. cbn [find_entry1_loop]. cbv zeta. rewrite Hmask, !land_u64_mask by lia.
  rewrite (u64_small (p + 1)) by (unfold is_u64; lia).
  unfold at_pos, distance. rewrite Zminus_mod_idemp_l. reflexivity.
Qed.

(** A stop position: everything before it (from probe [p] on) was passed
    over. *)
Definition passed (h key : Z) (q : Z) : Prop :=
  let e := at_pos (slots st) (h + q) in
  occupied e /\ (hash_code e =? h) && s_hash_keys_eq st key (HashTable.key (element e)) = false
  /\ q <= distance (h + q) e.

Lemma find_loop_spec h key m : forall p,
  0 <= p -> n + 1 <= p + Z.of_nat m ->
  (forall q, 0 <= q < p -> passed h key q) ->
  exists found p', find_entry1_loop m st h key p = Some (found, (h + p') mod n, p')
    /\ p <= p' <= n
    /\ (forall q, 0 <= q < p' -> passed h key q)
    /\ (let e := at_pos (slots st) (h + p') in
        if found : bool then
          occupied e /\ hash_code e = h /\ s_hash_keys_eq st key (HashTable.key (element e)) = true
        else
          ~ passed h key p' /\
          (occupied e -> distance (h + p') e < p'
             /\ (hash_code e =? h) && s_hash_keys_eq st key (HashTable.key (element e)) = false)).
Proof.
  pose proof ring_size_pos. pose proof ring_size_u64.
  induction m as [| m IH]; intros p Hp Hm Hpassed;
    (assert (p <= n) as Hpn;
     [destruct (Z.le_gt_cases p n) as [| Hgt]; [assumption |];
      destruct (Hpassed n) as (_ & _ & Hd); [lia |];
      pose proof (distance_range (h + n) (at_pos (slots st) (h + n))); lia |]).
  - exfalso. lia.
  - rewrite find_step by lia. cbv zeta.
    set (e := at_pos (slots st) (h + p)).
    destruct (Z.eqb_spec (hash_code e) 0) as [E0 | E0].
    { exists false, p. fold e. split; [reflexivity |]. split; [lia |]. split; [assumption |].
      split; [| intros Ho; elim (Ho E0)]. intros (Ho & _). elim (Ho E0). }
    destruct ((hash_code e =? h) && s_hash_keys_eq st key (HashTable.key (element e))) eqn:Em.
    { exists true, p. fold e. split; [reflexivity |]. split; [lia |]. split; [assumption |].
      apply andb_prop in Em as [Eh Ek]. apply Z.eqb_eq in Eh. auto. }
    destruct (Z.ltb_spec (distance (h + p) e) p) as [Hd | Hd].
    { exists false, p. fold e. split; [reflexivity |]. split; [lia |]. split; [assumption |].
      split; [| auto]. intros (_ & _ & Hq). fold e in Hq. lia. }
    destruct (IH (p + 1)) as (found & p' & ? & ? & ? & ?); [lia | lia | |].
    + intros q Hq. destruct (Z.eq_dec q p) as [-> |]; [| apply Hpassed; lia].
      unfold passed. fold e. auto.
    + exists found, p'. split; [assumption |]. split; [lia |]. auto.
Qed.

End find.

(** ** Emplacing *)

Lemma filter_occupied_cons e s :
  occupied e -> filter occupied (e :: s) = e :: filter occupied s.
Proof. apply filter_cons_True. Qed.

Lemma filter_unoccupied_cons e s :
  ~ occupied e -> filter occupied (e :: s) = filter occupied s.
Proof. apply filter_cons_False. Qed.

(** Storing [e] in the slot of [v] exchanges the two in the multiset. *)
Lemma set_exchange s x e :
  zlength s = n -> at_pos s x :: slot_set s (x mod n) e ≡ₚ e :: s.
Proof. intros Hl. apply insert_exchange, at_pos_lookup, Hl. Qed.

(** What an entry carried to position [x] with probe [p] relies on. *)
Definition supported (s : list hash_table_entry) (x p : Z) : Prop :=
  0 < p -> occupied (at_pos s (x - 1)) /\ p - 1 <= distance (x - 1) (at_pos s (x - 1)).

Lemma supported_probe_bound s x p z :
  robin_hood s -> ~ occupied (at_pos s z) -> 0 <= p -> supported s x p -> p < n.
Proof.
  intros HR Hz Hp Hs. pose proof ring_size_pos.
  destruct (Z.eq_dec p 0); [lia |]. destruct Hs as [Ho Hd]; [lia |].
  pose proof (distance_not_full s (x - 1) z HR Hz Ho). lia.
Qed.

(** The entry can be stored at [x] when the slot is free or its holder is
    closer to home. *)
Lemma robin_hood_emplace s e p x :
  zlength s = n -> robin_hood s -> 0 <= p < n -> x = hash_code e + p -> occupied e ->
  supported s x p ->
  (occupied (at_pos s x) -> distance x (at_pos s x) < p) ->
  robin_hood (slot_set s (x mod n) e).
Proof.
  intros Hl HR Hp -> He Hs Hv. apply robin_hood_set; try assumption.
  - rewrite distance_home by lia. intros _. exact Hs.
  - intros Ho Hd. destruct (HR _ Ho Hd) as [Ho' Hd'].
    replace (hash_code e + p + 1 - 1) with (hash_code e + p) in * by lia.
    specialize (Hv Ho'). rewrite distance_home by lia. split; [assumption | lia].
Qed.

Definition emplaced (s s' : list hash_table_entry) (e : hash_table_entry) (x t : Z)
    (r : option Z) (idx : Z) : Prop :=
  zlength s' = n /\ robin_hood s'
  /\ filter occupied s' ≡ₚ e :: filter occupied s
  /\ (forall y, (forall j, 0 <= j <= t -> y mod n <> (x + j) mod n) -> at_pos s' y = at_pos s y)
  /\ match r with
     | Some r0 => idx = r0
     | None => exists j, 0 <= j <= t /\ idx = (x + j) mod n /\ at_pos s' (x + j) = e
     end.

Lemma emplace_step fuel s e p r :
  occupied e -> 0 <= p < n ->
  emplace_loop (S fuel) (2 ^ k - 1) s e p r =
  let x := hash_code e + p in
  let v := at_pos s x in
  if (hash_code v =? 0) || (distance x v <? p)
  then emplace_loop fuel (2 ^ k - 1) (slot_set s (x mod n) e) v (distance x v + 1)
         (match r with None => Some (x mod n) | Some r => Some r end)
  else emplace_loop fuel (2 ^ k - 1) s e (p + 1) r.
Proof.
  intros He Hp. cbn [emplace_loop]. cbv zeta. rewrite (proj2 (Z.eqb_neq _ _) He).
  rewrite !land_u64_mask by lia. pose proof ring_size_pos. pose proof ring_size_u64.
  rewrite Zminus_mod_idemp_l.
  pose proof (distance_range (hash_code e + p) (at_pos s (hash_code e + p))) as Hd.
  unfold distance, at_pos in *.
  rewrite !(u64_small (_ + 1)) by (unfold is_u64; unfold n in *; lia). reflexivity.
Qed.

Lemma emplace_done fuel m s e p r :
  ~ occupied e -> emplace_loop fuel m s e p r = Some (s, r).
Proof.
  unfold occupied. intros He. destruct (Z.eqb_spec (hash_code e) 0) as [E |]; [| contradiction].
  destruct fuel; cbn [emplace_loop]; rewrite E; reflexivity.
Qed.

(** Where the loop goes after it displaced [v]. *)
Lemma displaced_position s x j :
  0 <= j -> (hash_code (at_pos s x) + (distance x (at_pos s x) + 1) + j) mod n = (x + 1 + j) mod n.
Proof.
  intros. pose proof ring_size_pos.
  replace (hash_code (at_pos s x) + (distance x (at_pos s x) + 1) + j)
    with (hash_code (at_pos s x) + distance x (at_pos s x) + (1 + j)) by lia.
  replace (x + 1 + j) with (x + (1 + j)) by lia.
  apply mod_congr_add; [lia | apply position_of_distance].
Qed.

Lemma position_ne x j t : 0 <= j -> j < t < n -> (x + t) mod n <> (x + j) mod n.
Proof.
  intros Hj Ht H. assert (t - j = 0); [| lia].
  apply (mod_shift_eq n (x + j)); try lia.
  replace (x + j + (t - j)) with (x + t) by lia. assumption.
Qed.

Lemma emplaced_free s e x t r :
  zlength s = n -> occupied e -> 0 <= t -> ~ occupied (at_pos s x) ->
  robin_hood (slot_set s (x mod n) e) ->
  emplaced s (slot_set s (x mod n) e) e x t r (default (x mod n) r).
Proof.
  intros Hl He Ht Hv HR. unfold emplaced. rewrite slot_set_length. split_and!; auto.
  - pose proof (set_exchange s x e Hl) as HP. apply (filter_Permutation occupied) in HP.
    rewrite filter_unoccupied_cons, filter_occupied_cons in HP by assumption. exact HP.
  - intros y Hy. rewrite at_pos_set by assumption. specialize (Hy 0 ltac:(lia)).
    rewrite Z.add_0_r in Hy. now rewrite (proj2 (Z.eqb_neq _ _) Hy).
  - destruct r; [reflexivity |]. exists 0. rewrite !Z.add_0_r. split; [lia |].
    split; [reflexivity |]. rewrite at_pos_set, Z.eqb_refl by assumption. reflexivity.
Qed.

Lemma emplaced_displaced s s' e x t r idx :
  let v := at_pos s x in
  zlength s = n -> occupied e -> occupied v -> 0 <= t -> 1 + t < n ->
  emplaced (slot_set s (x mod n) e) s' v (hash_code v + (distance x v + 1)) t
    (Some (default (x mod n) r)) idx ->
  emplaced s s' e x (1 + t) r idx.
Proof.
  intros v Hl He Ov Ht Htn (Hl' & HR' & HP' & Hframe & ->). unfold emplaced.
  assert (forall j, 0 <= j ->
            (hash_code v + (distance x v + 1) + j) mod n = (x + (1 + j)) mod n) as Hpos.
  { intros j Hj. unfold v. rewrite displaced_position by lia. f_equal. lia. }
  split_and!; auto.
  - rewrite HP', <- (filter_occupied_cons v), <- (filter_occupied_cons e) by assumption.
    apply filter_Permutation, set_exchange, Hl.
  - intros y Hy. rewrite Hframe.
    + rewrite at_pos_set by assumption. specialize (Hy 0 ltac:(lia)).
      rewrite Z.add_0_r in Hy. now rewrite (proj2 (Z.eqb_neq _ _) Hy).
    + intros j Hj. rewrite Hpos by lia. apply Hy. lia.
  - destruct r as [r0 |]; [reflexivity |]. exists 0.
    rewrite Z.add_0_r. split; [lia |]. split; [reflexivity |].
    rewrite Hframe; [rewrite at_pos_set, Z.eqb_refl by assumption; reflexivity |].
    intros j Hj Heq. rewrite Hpos in Heq by lia.
    apply (position_ne x 0 (1 + j)); [lia | lia |]. rewrite Z.add_0_r. congruence.
Qed.

Lemma emplaced_walk s s' e x t r idx :
  emplaced s s' e (x + 1) t r idx -> emplaced s s' e x (1 + t) r idx.
Proof.
  intros (Hl' & HR' & HP' & Hframe & Hidx). unfold emplaced. split_and!; auto.
  - intros y Hy. apply Hframe. intros j Hj.
    replace (x + 1 + j) with (x + (1 + j)) by lia. apply Hy. lia.
  - destruct r as [r0 |]; [assumption |]. destruct Hidx as (j & Hj & Hi & He).
    exists (1 + j). rewrite Z.add_assoc. split; [lia | auto].
Qed.

Lemma emplace_at_free fuel s e p r t :
  zlength s = n -> robin_hood s -> occupied e -> 0 <= p < n -> 0 <= t ->
  supported s (hash_code e + p) p -> ~ occupied (at_pos s (hash_code e + p)) ->
  exists s' idx,
    emplace_loop (S fuel) (2 ^ k - 1) s e p r = Some (s', Some idx)
    /\ emplaced s s' e (hash_code e + p) t r idx.
Proof.
  intros Hl HR He Hp Ht Hs Hv. rewrite emplace_step by assumption. cbv zeta.
  replace (hash_code (at_pos s (hash_code e + p)) =? 0) with true
    by (symmetry; apply Z.eqb_eq; unfold occupied in Hv; lia).
  cbn [orb]. rewrite emplace_done by assumption. eexists _, _. split.
  - instantiate (1 := default ((hash_code e + p) mod n) r). destruct r; reflexivity.
  - apply emplaced_free; auto. apply robin_hood_emplace with (p := p); auto.
    intros Ho. elim (Hv Ho).
Qed.

Lemma emplace_loop_spec t : forall fuel s e p r,
  (t < fuel)%nat -> Z.of_nat t < n ->
  zlength s = n -> robin_hood s -> occupied e -> 0 <= p ->
  supported s (hash_code e + p) p ->
  ~ occupied (at_pos s (hash_code e + p + Z.of_nat t)) ->
  exists s' idx,
    emplace_loop fuel (2 ^ k - 1) s e p r = Some (s', Some idx)
    /\ emplaced s s' e (hash_code e + p) (Z.of_nat t) r idx.
Proof.
  pose proof ring_size_pos as Hn.
  induction t as [| t IH]; intros fuel s e p r Hf Ht Hl HR He Hp Hs Hz;
    (destruct fuel as [| fuel]; [lia |]);
    pose proof (supported_probe_bound _ _ _ _ HR Hz Hp Hs) as Hpn;
    (destruct (decide (occupied (at_pos s (hash_code e + p)))) as [Ov | Ov];
     [| apply emplace_at_free; auto; lia]);
    rewrite emplace_step by (assumption || lia); cbv zeta;
    set (x := hash_code e + p) in *; set (v := at_pos s x) in *;
    replace (match r with None => Some (x mod n) | Some r => Some r end)
      with (Some (default (x mod n) r)) by (destruct r; reflexivity).
  - elim Hz. rewrite Z.add_0_r. exact Ov.
  - rewrite (proj2 (Z.eqb_neq _ _) Ov). cbn [orb]. rewrite Nat2Z.inj_succ, <- Z.add_1_l in *.
    destruct (Z.ltb_spec (distance x v) p) as [Hdv | Hdv].
    + pose proof (displaced_position s x (Z.of_nat t) ltac:(lia)) as Hpos. fold v in Hpos.
      replace (x + 1 + Z.of_nat t) with (x + (1 + Z.of_nat t)) in Hpos by lia.
      edestruct (IH fuel (slot_set s (x mod n) e) v (distance x v + 1)) as (s' & idx & -> & HE);
        [lia | lia | rewrite slot_set_length; assumption | | assumption | | | |].
      * apply robin_hood_emplace with (p := p); auto.
      * pose proof (distance_range x v). lia.
      * intros _. rewrite at_pos_set by assumption.
        assert ((hash_code v + (distance x v + 1) - 1) mod n = x mod n) as Ex
          by (rewrite <- (position_of_distance x v); f_equal; lia).
        rewrite Ex, Z.eqb_refl, (distance_congr _ _ e Ex).
        change (distance x e) with (distance (hash_code e + p) e).
        rewrite distance_home by lia. split; [assumption | lia].
      * rewrite at_pos_set, Hpos by assumption.
        rewrite (proj2 (Z.eqb_neq _ _)) by
          (intros Heq; apply (position_ne x 0 (1 + Z.of_nat t)); [lia | lia |];
           rewrite Z.add_0_r; exact Heq).
        now rewrite (at_pos_congr s _ _ Hpos).
      * exists s', idx. split; [reflexivity |]. apply emplaced_displaced; auto; lia.
    + edestruct (IH fuel s e (p + 1) r) as (s' & idx & -> & HE); auto; try lia.
      * intros _. replace (hash_code e + (p + 1) - 1) with x by (unfold x; lia).
        fold v. split; [assumption | lia].
      * replace (hash_code e + (p + 1) + Z.of_nat t) with (x + (1 + Z.of_nat t))
          by (unfold x; lia). assumption.
      * exists s', idx. split; [reflexivity |]. apply emplaced_walk.
        replace (x + 1) with (hash_code e + (p + 1)) by (unfold x; lia). exact HE.
Qed.

(** ** Removing *)

Lemma remove_step fuel s x :
  remove_loop (S fuel) (2 ^ k - 1) s (x mod n) =
  let v := at_pos s (x + 1) in
  if hash_code v =? 0 then Some (s, x mod n)
  else if distance (x + 1) v =? 0 then Some (s, x mod n)
  else remove_loop fuel (2 ^ k - 1) (slot_set s (x mod n) v) ((x + 1) mod n).
Proof.
  pose proof ring_size_pos. cbn [remove_loop]. cbv zeta.
  rewrite land_u64_mask, Zplus_mod_idemp_l by lia.
  fold (at_pos s (x + 1)). rewrite land_pow2_mask by lia.
  set (v := at_pos s (x + 1)). destruct (hash_code v =? 0); [reflexivity |].
  replace (hash_code v mod 2 ^ k =? (x + 1) mod 2 ^ k) with (distance (x + 1) v =? 0);
    [reflexivity |].
  unfold distance. fold n. apply eq_true_iff_eq. rewrite !Z.eqb_eq. split; intros HE.
  - rewrite <- (position_of_distance (x + 1) v). unfold distance. fold n.
    rewrite HE, Z.add_0_r. reflexivity.
  - apply mod_eq_shift; [lia | congruence].
Qed.

(** Copying the next entry back one slot keeps the invariant. *)
Lemma robin_hood_shift s x :
  zlength s = n -> robin_hood s -> occupied (at_pos s (x + 1)) ->
  0 < distance (x + 1) (at_pos s (x + 1)) ->
  robin_hood (slot_set s (x mod n) (at_pos s (x + 1))).
Proof.
  intros Hl HR Ho Hd. destruct (HR _ Ho Hd) as [Hox Hdx].
  pose proof (distance_pred (x + 1) _ Hd) as Hpred.
  replace (x + 1 - 1) with x in * by lia.
  apply robin_hood_set; auto.
  - intros _ Hd1. destruct (HR x Hox) as [Hop Hdp]; [lia |]. split; [assumption | lia].
  - intros _ _. split; [assumption | lia].
Qed.

(** The loop ends at some slot [y] whose successor is free or at home, with
    the multiset of the other slots unchanged. *)
Lemma remove_loop_spec t : forall fuel s x,
  (t < fuel)%nat -> Z.of_nat t < n - 1 ->
  zlength s = n -> robin_hood s ->
  ~ occupied (at_pos s (x + 1 + Z.of_nat t)) ->
  exists s' y,
    remove_loop fuel (2 ^ k - 1) s (x mod n) = Some (s', y mod n)
    /\ x <= y <= x + Z.of_nat t
    /\ zlength s' = n /\ robin_hood s'
    /\ (occupied (at_pos s' (y + 1)) -> distance (y + 1) (at_pos s' (y + 1)) = 0)
    /\ slot_set s' (y mod n) empty_entry ≡ₚ slot_set s (x mod n) empty_entry
    /\ (forall z, x <= z < y -> at_pos s' z = at_pos s (z + 1))
    /\ (forall z, (forall i, x <= i < y -> z mod n <> i mod n) -> at_pos s' z = at_pos s z)
    /\ (forall z, x < z <= y -> occupied (at_pos s z)).
Proof.
  pose proof ring_size_pos as Hn.
  induction t as [| t IH]; intros fuel s x Hf Ht Hl HR Hz;
    (destruct fuel as [| fuel]; [lia |]); rewrite remove_step; cbv zeta;
    set (v := at_pos s (x + 1));
    (destruct (Z.eqb_spec (hash_code v) 0) as [Ev | Ev];
     [exists s, x; split_and!; auto; try lia; intros Ho; elim (Ho Ev) |]).
  - elim Hz. replace (x + 1 + Z.of_nat 0) with (x + 1) by lia. exact Ev.
  - destruct (Z.eqb_spec (distance (x + 1) v) 0) as [Ed | Ed].
    { exists s, x; split_and!; auto; lia. }
    pose proof (distance_range (x + 1) v) as Hdr.
    destruct (IH fuel (slot_set s (x mod n) v) (x + 1))
      as (s' & y & -> & Hy & Hl' & HR' & Hend & HP & Hshift & Hframe & Hocc); try lia.
    + rewrite slot_set_length. assumption.
    + apply robin_hood_shift; auto. fold v. lia.
    + rewrite at_pos_set by assumption. rewrite (proj2 (Z.eqb_neq _ _)).
      * replace (x + 1 + 1 + Z.of_nat t) with (x + 1 + Z.of_nat (S t)) by lia. assumption.
      * intros Heq. apply (position_ne x 0 (2 + Z.of_nat t)); [lia | lia |].
        rewrite Z.add_0_r, <- Heq. f_equal. lia.
    + assert (forall j, 1 <= j < n -> (x + j) mod n <> x mod n) as Hne.
      { intros j Hj. rewrite <- (Z.add_0_r x) at 2. apply position_ne; lia. }
      exists s', y. split; [reflexivity |]. split_and!; auto; try lia.
      * rewrite HP. apply (insert_move_perm _ _ _ _ v (at_pos s x)).
        -- intros Heq. apply (Hne 1); [lia |].
           pose proof (Z.mod_pos_bound x n ltac:(lia)).
           pose proof (Z.mod_pos_bound (x + 1) n ltac:(lia)). lia.
        -- apply at_pos_lookup. assumption.
        -- apply at_pos_lookup. assumption.
      * intros z Hzr. destruct (Z.eq_dec z x) as [-> | Hzx].
        -- rewrite Hframe.
           ++ rewrite at_pos_set, Z.eqb_refl by assumption. reflexivity.
           ++ intros i Hi. replace i with (x + (i - x)) by lia. apply not_eq_sym, Hne. lia.
        -- rewrite Hshift, at_pos_set by (assumption || lia).
           replace (z + 1) with (x + (z + 1 - x)) at 1 by lia.
           rewrite (proj2 (Z.eqb_neq _ _)) by (apply Hne; lia). reflexivity.
      * intros z Hz'. rewrite Hframe.
        -- rewrite at_pos_set by assumption.
           rewrite (proj2 (Z.eqb_neq _ _)) by (apply Hz'; lia). reflexivity.
        -- intros i Hi. apply Hz'. lia.
      * intros z Hzr. destruct (Z.eq_dec z (x + 1)) as [-> |]; [exact Ev |].
        specialize (Hocc z ltac:(lia)). rewrite at_pos_set in Hocc by assumption.
        replace z with (x + (z - x)) in Hocc at 1 by lia.
        rewrite (proj2 (Z.eqb_neq _ _)) in Hocc by (apply Hne; lia). exact Hocc.
Qed.

(** Clearing the last slot restores the invariant. *)
Lemma robin_hood_clear s y :
  zlength s = n -> robin_hood s ->
  (occupied (at_pos s (y + 1)) -> distance (y + 1) (at_pos s (y + 1)) = 0) ->
  robin_hood (slot_set s (y mod n) empty_entry).
Proof.
  intros Hl HR Hend. apply robin_hood_set; auto.
  - intros Ho. now elim Ho.
  - intros Ho Hd. rewrite (Hend Ho) in Hd. lia.
Qed.

End ring.
