(* ===== verification/HashTableInv.v ===== *)
(** * The hash table: representation invariant and abstract contents

    [table_ok] is the invariant of a table, [lookup] its abstract content: a
    partial map from keys (up to the user's equality) to elements. The
    contract the user's callbacks must satisfy is the class [KeyCallbacks]. *)

From S2P Require Import Prelude Math HashTable HashTableRing.
Import HashTable.

Local Open Scope Z_scope.

(** ** The callbacks' contract

    From the documentation of the hash table: the hash does not change, and
    [equals_fn] is an equality comparison consistent with [hash_fn]. *)
Class KeyCallbacks (hash : Z -> Z) (eq : Z -> Z -> bool) : Prop := {
  hash_is_u64 : forall a, is_u64 (hash a);
  eq_symmetric : forall a b, a <> 0 -> b <> 0 -> eq a b = true -> eq b a = true;
  eq_transitive : forall a b c, a <> 0 -> b <> 0 -> c <> 0 ->
    eq a b = true -> eq b c = true -> eq a c = true;
  eq_same_hash : forall a b, a <> 0 -> b <> 0 -> eq a b = true -> hash a = hash b
}.

Section keys.
Context (hash : Z -> Z) (eq : Z -> Z -> bool) {CB : KeyCallbacks hash eq}.

Lemma safe_eq_refl a : s_safe_eq_check eq a a = true.
Proof. unfold s_safe_eq_check. now rewrite Z.eqb_refl. Qed.

Lemma safe_eq_cases a b :
  s_safe_eq_check eq a b = true <-> a = b \/ (a <> 0 /\ b <> 0 /\ eq a b = true).
Proof.
  unfold s_safe_eq_check.
  destruct (Z.eqb_spec a b), (Z.eqb_spec a 0), (Z.eqb_spec b 0); cbn [orb];
    intuition (congruence || lia).
Qed.

Lemma safe_eq_sym_true a b : s_safe_eq_check eq a b = true -> s_safe_eq_check eq b a = true.
Proof.
  rewrite !safe_eq_cases. intros [-> | (Ha & Hb & H)]; [auto | right].
  split_and!; auto. now apply eq_symmetric.
Qed.

Lemma safe_eq_sym a b : s_safe_eq_check eq a b = s_safe_eq_check eq b a.
Proof. apply eq_true_iff_eq. split; apply safe_eq_sym_true. Qed.

Lemma safe_eq_trans a b c :
  s_safe_eq_check eq a b = true -> s_safe_eq_check eq b c = true ->
  s_safe_eq_check eq a c = true.
Proof.
  rewrite !safe_eq_cases. intros [-> | (Ha & Hb & H1)] [<- | (Hb' & Hc & H2)]; auto.
  right. split_and!; auto. now apply (eq_transitive a b c).
Qed.

(** Equal keys are interchangeable on either side of a comparison. *)
Lemma safe_eq_cong a b c :
  s_safe_eq_check eq a b = true -> s_safe_eq_check eq a c = s_safe_eq_check eq b c.
Proof.
  intros H. apply eq_true_iff_eq. split; intros Hc.
  - eapply safe_eq_trans; [apply safe_eq_sym_true, H | exact Hc].
  - eapply safe_eq_trans; eassumption.
Qed.

(** ** Association lists of entries *)

Fixpoint lookup_entries (es : list hash_table_entry) (k : Z) : option aws_hash_element :=
  match es with
  | [] => None
  | e :: es =>
      if s_safe_eq_check eq k (key (element e)) then Some (element e) else lookup_entries es k
  end.

Fixpoint distinct_keys (es : list hash_table_entry) : Prop :=
  match es with
  | [] => True
  | e :: es =>
      Forall (fun e' => s_safe_eq_check eq (key (element e)) (key (element e')) = false) es
      /\ distinct_keys es
  end.

Lemma distinct_keys_perm es es' : es ≡ₚ es' -> distinct_keys es -> distinct_keys es'.
Proof.
  induction 1 as [| e es es' HP IH | e1 e2 es |]; cbn [distinct_keys]; auto.
  - intros [HF HD]. split; [now rewrite <- HP | auto].
  - rewrite !Forall_cons. intros ([H12 HF1] & HF2 & HD). split_and!; auto.
    now rewrite safe_eq_sym.
Qed.

Lemma lookup_entries_None es k :
  lookup_entries es k = None <->
  Forall (fun e => s_safe_eq_check eq k (key (element e)) = false) es.
Proof.
  induction es as [| e es IH]; cbn [lookup_entries]; [split; auto |].
  rewrite Forall_cons, <- IH. destruct (s_safe_eq_check eq k (key (element e)));
    intuition congruence.
Qed.

Lemma lookup_entries_Some es k el :
  lookup_entries es k = Some el ->
  exists e, e ∈ es /\ element e = el /\ s_safe_eq_check eq k (key el) = true.
Proof.
  induction es as [| e es IH]; cbn [lookup_entries]; [discriminate |].
  destruct (s_safe_eq_check eq k (key (element e))) eqn:E.
  - intros [= <-]. exists e. split_and!; auto. apply list_elem_of_here.
  - intros H. destruct (IH H) as (e' & ? & ? & ?). exists e'. split_and!; auto.
    now apply list_elem_of_further.
Qed.

(** With distinct keys the first match is the only one. *)
Lemma lookup_entries_elem es k e :
  distinct_keys es -> e ∈ es -> s_safe_eq_check eq k (key (element e)) = true ->
  lookup_entries es k = Some (element e).
Proof.
  induction es as [| e0 es IH]; cbn [lookup_entries distinct_keys]; intros HD He Hk.
  - now apply not_elem_of_nil in He.
  - destruct HD as [HF HD]. apply elem_of_cons in He as [-> | He]; [now rewrite Hk |].
    destruct (s_safe_eq_check eq k (key (element e0))) eqn:E; [| now apply IH].
    rewrite Forall_forall in HF. specialize (HF e He).
    rewrite <- (safe_eq_cong _ _ _ E) in HF. congruence.
Qed.

Lemma lookup_entries_perm es es' k :
  distinct_keys es -> es ≡ₚ es' -> lookup_entries es k = lookup_entries es' k.
Proof.
  intros HD HP. destruct (lookup_entries es' k) as [el |] eqn:E.
  - apply lookup_entries_Some in E as (e & He & <- & Hk).
    apply lookup_entries_elem; auto. now rewrite HP.
  - rewrite lookup_entries_None in *. now rewrite HP.
Qed.

(** Equal keys have the same content. *)
Lemma lookup_entries_eq_key es k k' :
  s_safe_eq_check eq k k' = true -> lookup_entries es k = lookup_entries es k'.
Proof.
  intros H. induction es as [| e es IH]; cbn [lookup_entries]; [reflexivity |].
  now rewrite (safe_eq_cong _ _ _ H), IH.
Qed.

End keys.

(** ** The invariant *)

Definition entries (st : hash_table_state) : list hash_table_entry := filter occupied (slots st).

Definition lookup (st : hash_table_state) (k : Z) : option aws_hash_element :=
  lookup_entries (equals_fn st) (entries st) k.

(** The slots form a Robin Hood ring of [2^k] slots. *)
Record ring_ok (k : Z) (st : hash_table_state) : Prop := {
  ring_k : 1 <= k <= 63;
  ring_size : size st = 2 ^ k;
  ring_mask : mask st = 2 ^ k - 1;
  ring_length : zlength (slots st) = 2 ^ k;
  ring_rh : robin_hood k (slots st)
}.

Record table_ok (st : hash_table_state) : Prop := {
  ok_ring : exists k, ring_ok k st;
  ok_max_load : max_load st = max_load_of (size st);
  ok_count : entry_count st = zlength (entries st);
  ok_load : entry_count st <= max_load st;
  ok_hash : Forall (fun e => hash_code e = s_hash_for st (key (element e))) (entries st);
  ok_distinct : distinct_keys (equals_fn st) (entries st)
}.

(** Two tables with the same callbacks. *)
Record same_callbacks (st st' : hash_table_state) : Prop := {
  same_hash : hash_fn st' = hash_fn st;
  same_eq : equals_fn st' = equals_fn st;
  same_dk : destroy_key_fn st' = destroy_key_fn st;
  same_dv : destroy_value_fn st' = destroy_value_fn st
}.

Lemma same_callbacks_refl st : same_callbacks st st.
Proof. now constructor. Qed.

#[export] Hint Resolve same_callbacks_refl : aws.

Lemma same_callbacks_class st st' :
  same_callbacks st st' -> KeyCallbacks (hash_fn st) (equals_fn st) ->
  KeyCallbacks (hash_fn st') (equals_fn st').
Proof. intros [-> -> _ _]. auto. Qed.

Lemma same_hash_for st st' k : same_callbacks st st' -> s_hash_for st' k = s_hash_for st k.
Proof. intros H. unfold s_hash_for. now rewrite (same_hash _ _ H). Qed.

(** ** The load factor *)

Lemma max_load_of_bounds k : 1 <= k <= 63 -> 1 <= max_load_of (2 ^ k) < 2 ^ k.
Proof.
  intros Hk. assert (2 <= 2 ^ k) by (change 2 with (2 ^ 1) at 1; apply Z.pow_le_mono_r; lia).
  unfold max_load_of, max_load_factor_mantissa. split.
  - apply Z.div_le_lower_bound; lia.
  - apply Z.div_lt_upper_bound; lia.
Qed.

Lemma max_load_of_double k : 1 <= k <= 62 -> max_load_of (2 ^ k) + 1 <= max_load_of (2 ^ (k + 1)).
Proof.
  intros Hk. pose proof (max_load_of_bounds k ltac:(lia)).
  unfold max_load_of, max_load_factor_mantissa in *. rewrite Z.pow_add_r by lia.
  set (m := 2 ^ k) in *. apply Z.div_le_lower_bound; [lia |].
  pose proof (Z.mul_div_le (8556839292003942 * m) (2 ^ 53) ltac:(lia)). lia.
Qed.

(** A table with fewer entries than slots has an empty slot. *)
Lemma exists_unoccupied (s : list hash_table_entry) :
  zlength (filter occupied s) < zlength s -> exists i e, s !! i = Some e /\ ~ occupied e.
Proof.
  unfold zlength. induction s as [| e s IH]; cbn [length]; [lia |].
  intros H. destruct (decide (occupied e)) as [Ho | Ho].
  - rewrite filter_cons_True in H by assumption. cbn [length] in H.
    destruct IH as (i & e' & ? & ?); [lia |]. now exists (S i), e'.
  - now exists O, e.
Qed.
