(* ===== verification/HashTableOps.v ===== *)
(** * The hash table: what each internal step does to the invariant *)

From S2P Require Import Prelude Math HashTable HashTableRing HashTableInv.
Import HashTable.

Local Open Scope Z_scope.

Definition key_of (e : hash_table_entry) : Z := key (element e).

Lemma hash_for_nonzero st k : s_hash_for st k <> 0.
Proof. unfold s_hash_for. destruct (k =? 0); [lia |]. destruct (Z.eqb_spec (hash_fn st k) 0); lia. Qed.

Lemma hash_for_eq st k k' {CB : KeyCallbacks (hash_fn st) (equals_fn st)} :
  s_hash_keys_eq st k k' = true -> s_hash_for st k = s_hash_for st k'.
Proof.
  unfold s_hash_keys_eq. rewrite safe_eq_cases. intros [-> | (Hk & Hk' & H)]; [reflexivity |].
  unfold s_hash_for. rewrite (proj2 (Z.eqb_neq _ _) Hk), (proj2 (Z.eqb_neq _ _) Hk').
  now rewrite (eq_same_hash k k' Hk Hk' H).
Qed.

Lemma entries_elem st e : e ∈ entries st <-> occupied e /\ exists i, slots st !! i = Some e.
Proof.
  unfold entries. rewrite list_elem_of_filter. now rewrite list_elem_of_lookup.
Qed.

(** ** Finding *)

Lemma find_entry_unroll k st h key :
  ring_ok k st -> 0 <= h ->
  s_find_entry st h key = find_entry1_loop (S (S (Z.to_nat (size st)))) st h key 0.
Proof.
  intros [Hk Hsz Hm Hl HR] Hh. rewrite (find_step k Hk st Hm) by lia.
  unfold s_find_entry, s_find_entry1, at_pos. rewrite Hm, land_pow2_mask by lia.
  rewrite Z.add_0_r. cbv zeta. set (e := slot_at (slots st) (h mod 2 ^ k)).
  destruct (hash_code e =? 0); [reflexivity |].
  destruct ((hash_code e =? h) && _); [reflexivity |].
  pose proof (distance_range k Hk h e). rewrite (proj2 (Z.ltb_ge _ _)) by lia. reflexivity.
Qed.

(** The outcome of a search in a well-formed ring. *)
Definition find_outcome (k : Z) (st : hash_table_state) (h key : Z) (found : bool) (p : Z) : Prop :=
  0 <= p <= 2 ^ k
  /\ (forall q, 0 <= q < p -> passed k st h key q)
  /\ let e := at_pos k (slots st) (h + p) in
     if found then
       occupied e /\ hash_code e = h /\ s_hash_keys_eq st key (key_of e) = true
     else
       ~ passed k st h key p /\
       (occupied e -> distance k (h + p) e < p
          /\ (hash_code e =? h) && s_hash_keys_eq st key (key_of e) = false).

Lemma find_entry_outcome k st h key :
  ring_ok k st -> 0 <= h ->
  exists found p, s_find_entry st h key = Some (found, (h + p) mod 2 ^ k, p)
    /\ find_outcome k st h key found p.
Proof.
  intros Hok Hh. rewrite (find_entry_unroll k) by assumption. destruct Hok as [Hk Hsz Hm Hl HR].
  pose proof (ring_size_pos k Hk).
  destruct (find_loop_spec k Hk st Hm h key (S (S (Z.to_nat (size st)))) 0)
    as (found & p & Heq & Hp & Hpass & Hres); [lia | lia | lia |].
  exists found, p. split; [exact Heq |]. split_and!; auto; lia.
Qed.

(** A search that fails proves that no entry has the key. *)
Lemma find_complete k st h key e :
  ring_ok k st -> e ∈ entries st -> hash_code e = h -> s_hash_keys_eq st key (key_of e) = true ->
  forall p, ~ find_outcome k st h key false p.
Proof.
  intros [Hk Hsz Hm Hl HR] He Hh Hkey p (Hp & Hpass & Hnp & Hstop).
  apply entries_elem in He as (Ho & i & Hi). set (x := Z.of_nat i).
  pose proof (at_pos_of_lookup k Hk (slots st) i e Hl Hi) as Hx. fold x in Hx.
  set (D := distance k x e). pose proof (distance_range k Hk x e) as HD. fold D in HD.
  pose proof (ring_size_pos k Hk).
  assert (forall q, 0 <= q <= D -> at_pos k (slots st) (x - (D - q)) = at_pos k (slots st) (h + q)
            /\ forall e', distance k (x - (D - q)) e' = distance k (h + q) e') as Hcong.
  { intros q Hq. pose proof (position_of_distance k x e) as HP. fold D in HP. rewrite Hh in HP.
    assert ((x - (D - q)) mod 2 ^ k = (h + q) mod 2 ^ k) as E.
    { replace (h + q) with (h + D - (D - q)) by lia.
      apply mod_congr_sub; [lia | congruence]. }
    split; [now apply at_pos_congr |]. intros e'. now apply distance_congr. }
  assert (at_pos k (slots st) (h + D) = e) as HatD.
  { destruct (Hcong D ltac:(lia)) as [<- _]. now replace (x - (D - D)) with x by lia. }
  destruct (Z.le_gt_cases p D) as [HpD | HpD].
  - destruct (robin_hood_chain k Hk (slots st) x (D - p) HR) as [Hop Hdp];
      [rewrite Hx; assumption | rewrite Hx; fold D; lia |].
    rewrite Hx in Hdp. fold D in Hdp.
    destruct (Hcong p ltac:(lia)) as [Ea Ed]. rewrite Ed, Ea in Hdp. rewrite Ea in Hop.
    destruct (Hstop Hop) as [Hlt _]. lia.
  - destruct (Hpass D ltac:(lia)) as (_ & Hmatch & _). rewrite HatD in Hmatch.
    fold (key_of e) in Hmatch. rewrite Hh, Z.eqb_refl, Hkey in Hmatch. discriminate.
Qed.

(** What a search returns, in terms of the abstract content. *)
Lemma find_lookup k st key {CB : KeyCallbacks (hash_fn st) (equals_fn st)} :
  ring_ok k st -> table_ok st ->
  exists found p,
    s_find_entry st (s_hash_for st key) key = Some (found, (s_hash_for st key + p) mod 2 ^ k, p)
    /\ find_outcome k st (s_hash_for st key) key found p
    /\ (if found
        then lookup st key = Some (element (at_pos k (slots st) (s_hash_for st key + p)))
        else lookup st key = None).
Proof.
  intros Hring Hok. set (h := s_hash_for st key).
  assert (0 <= h) as Hh.
  { unfold h, s_hash_for. pose proof (hash_is_u64 (hash := hash_fn st) key) as Hu.
    unfold is_u64 in Hu. destruct (key =? 0); [lia |]. destruct (_ =? 0); lia. }
  destruct (find_entry_outcome k st h key Hring Hh) as (found & p & Heq & Hout).
  exists found, p. split; [exact Heq |]. split; [exact Hout |].
  destruct found.
  - destruct Hout as (_ & _ & Ho & _ & Hkey). apply (lookup_entries_elem (hash_fn st)); auto.
    + apply ok_distinct, Hok.
    + apply entries_elem. split; [exact Ho |]. destruct Hring. eexists. now apply at_pos_lookup.
  - apply lookup_entries_None, Forall_forall. intros e He.
    destruct (s_safe_eq_check _ _ _) eqn:E; [| reflexivity]. exfalso.
    refine (find_complete k st h key e Hring He _ E p Hout).
    pose proof (ok_hash st Hok) as HF. rewrite Forall_forall in HF. rewrite (HF e He).
    symmetry. now apply hash_for_eq.
Qed.

(** A failed search leaves its probe position ready for insertion. *)
Lemma find_supported k st h key p :
  find_outcome k st h key false p -> supported k (slots st) (h + p) p.
Proof.
  intros (_ & Hpass & _) Hp. destruct (Hpass (p - 1) ltac:(lia)) as (Ho & _ & Hd).
  replace (h + p - 1) with (h + (p - 1)) by lia. auto.
Qed.

(** ** Emplacing *)

Lemma set_slots_callbacks st s : same_callbacks st (set_slots st s).
Proof. now constructor. Qed.

Lemma emplace_item_spec k st e p :
  ring_ok k st -> occupied e -> 0 <= p ->
  supported k (slots st) (hash_code e + p) p ->
  zlength (entries st) < 2 ^ k ->
  exists s' idx,
    s_emplace_item st e p = Some (set_slots st s', Some idx)
    /\ ring_ok k (set_slots st s')
    /\ filter occupied s' ≡ₚ e :: entries st
    /\ 0 <= idx < 2 ^ k /\ slot_at s' idx = e.
Proof.
  intros [Hk Hsz Hm Hl HR] He Hp Hs Hfree. pose proof (ring_size_pos k Hk) as Hn.
  destruct (exists_unoccupied (slots st)) as (i & e0 & Hi & He0); [unfold entries in Hfree; lia |].
  pose proof (at_pos_of_lookup k Hk (slots st) i e0 Hl Hi) as Hx.
  set (x := hash_code e + p) in *. set (t := (Z.of_nat i - x) mod 2 ^ k).
  pose proof (Z.mod_pos_bound (Z.of_nat i - x) (2 ^ k) ltac:(lia)) as Ht. fold t in Ht.
  destruct (emplace_loop_spec k Hk (Z.to_nat t) (S (Z.to_nat (size st))) (slots st) e p None)
    as (s' & idx & Heq & Hl' & HR' & HP & _ & j & Hj & -> & Hat); auto; try lia.
  - rewrite Z2Nat.id by lia. fold x. erewrite at_pos_congr; [rewrite Hx; exact He0 |].
    unfold t. rewrite Zplus_mod_idemp_r. f_equal. lia.
  - unfold s_emplace_item. rewrite Hm, Heq. eexists _, _. split; [reflexivity |].
    split; [constructor; auto |]. split; [exact HP |].
    split; [apply Z.mod_pos_bound; lia | exact Hat].
Qed.

(** ** Growing *)

Lemma reinsert_all_spec k old : forall st,
  ring_ok k st -> zlength (filter occupied old) + zlength (entries st) < 2 ^ k ->
  exists s', reinsert_all old st = Some (set_slots st s')
    /\ ring_ok k (set_slots st s')
    /\ filter occupied s' ≡ₚ filter occupied old ++ entries st.
Proof.
  induction old as [| e old IH]; intros st Hok Hlt; cbn [reinsert_all].
  - exists (slots st). destruct st; cbn in *. now split_and!.
  - destruct (Z.eqb_spec (hash_code e) 0) as [E | E].
    + rewrite filter_cons_False in Hlt |- * by (intros Ho; apply Ho, E). now apply IH.
    + rewrite filter_cons_True in Hlt |- * by exact E. rewrite zlength_cons in Hlt.
      pose proof (zlength_nonneg (filter occupied old)).
      destruct (emplace_item_spec k st e 0 Hok E) as (s1 & idx & -> & Hok1 & HP1 & _);
        [lia | intros Hp; lia | lia |].
      destruct (IH (set_slots st s1)) as (s' & -> & Hok' & HP'); [assumption | |].
      * unfold entries. cbn [slots set_slots]. unfold zlength in *.
        rewrite (Permutation_length HP1). cbn [length]. lia.
      * exists s'. split; [reflexivity |]. split; [exact Hok' |].
        rewrite HP'. unfold entries at 1. cbn [slots set_slots]. rewrite HP1.
        symmetry. apply Permutation_middle.
Qed.

Lemma update_template_size_pow2 st k :
  1 <= k <= 63 ->
  s_update_template_size st (2 ^ k) =
  Ok (mk_state (hash_fn st) (equals_fn st) (destroy_key_fn st) (destroy_value_fn st)
        (2 ^ k) (entry_count st) (max_load_of (2 ^ k)) (2 ^ k - 1) (slots st)).
Proof.
  intros Hk. pose proof (ring_size_pos k Hk). pose proof (ring_size_u64 k Hk).
  unfold s_update_template_size. rewrite (proj2 (Z.ltb_ge _ _)) by lia.
  rewrite round_up_pow2_log by lia.
  replace (Z.log2 (2 ^ k - 1) + 1) with k.
  - pose proof (max_load_of_bounds k Hk). cbv zeta. rewrite (proj2 (Z.leb_gt _ _)) by lia. reflexivity.
  - enough (Z.log2 (2 ^ k - 1) = k - 1) by lia. apply Z.log2_unique; [lia |].
    replace (Z.succ (k - 1)) with k by lia. split; [| lia].
    assert (2 ^ k = 2 * 2 ^ (k - 1)) by (rewrite <- Z.pow_succ_r by lia; f_equal; lia).
    pose proof (Z.pow_pos_nonneg 2 (k - 1)). lia.
Qed.

Lemma entries_replicate st m : entries (set_slots st (replicate m empty_entry)) = [].
Proof.
  unfold entries. cbn [slots set_slots]. induction m as [| m IH]; [reflexivity |].
  cbn [replicate]. rewrite filter_cons_False; [exact IH | intros Ho; now apply Ho].
Qed.

Lemma alloc_state_ring k st :
  1 <= k <= 63 -> size st = 2 ^ k -> mask st = 2 ^ k - 1 ->
  ring_ok k (set_slots st (replicate (Z.to_nat (size st)) empty_entry)).
Proof.
  intros Hk Hs Hm. pose proof (ring_size_pos k Hk). constructor; auto; cbn [slots set_slots].
  - unfold zlength. rewrite length_replicate. lia.
  - apply robin_hood_empty.
Qed.

(** Growing keeps the content and makes room, or fails and changes nothing;
    it can fail only from [2^59] slots on. *)
Lemma pow2_above a k : 0 <= a -> 0 <= k -> 2 ^ a < 2 ^ k -> 2 ^ (a + 1) <= 2 ^ k.
Proof.
  intros Ha Hk H. apply Z.pow_lt_mono_r_iff in H; [| lia | lia]. apply Z.pow_le_mono_r; lia.
Qed.

Lemma expand_table_spec k st :
  ring_ok k st -> table_ok st ->
  (exists e, s_expand_table st = Some (AWS_OP_ERR e, st)
             /\ e = AWS_ERROR_OVERFLOW_DETECTED /\ 2 ^ 59 <= size st)
  \/ exists st', s_expand_table st = Some (AWS_OP_SUCCESS, st')
       /\ ring_ok (k + 1) st' /\ same_callbacks st st'
       /\ entries st' ≡ₚ entries st /\ entry_count st' = entry_count st
       /\ max_load st' = max_load_of (size st')
       /\ max_load st + 1 <= max_load st'.
Proof.
  intros [Hk Hsz Hm Hl HR] Hok. pose proof (ring_size_pos k Hk) as Hn.
  pose proof (ok_max_load st Hok) as Hml. rewrite Hsz in Hml.
  pose proof (ok_load st Hok) as Hld. rewrite (ok_count st Hok) in Hld.
  unfold s_expand_table. rewrite mul_size_checked_spec by lia. rewrite Hsz.
  replace (2 ^ k * 2) with (2 ^ (k + 1)) by (rewrite Z.pow_add_r by lia; lia).
  assert (2 ^ (k + 1) = 2 ^ k * 2) as Hpow by (rewrite Z.pow_add_r by lia; lia).
  pose proof (pow2_above 58 k ltac:(lia) ltac:(lia)) as Hbig. unfold SIZE_MAX.
  destruct (Z.leb_spec (2 ^ (k + 1)) (2 ^ 64 - 1)) as [Hle | Hgt];
    [| left; eexists; split_and!; eauto; lia].
  assert (k <= 62) as Hk62.
  { destruct (Z.le_gt_cases k 62); [assumption |]. replace k with 63 in Hle by lia.
    lia. }
  rewrite update_template_size_pow2 by lia. unfold s_alloc_state, hash_table_state_required_bytes.
  cbn [size]. unfold sizeof_hash_table_entry, sizeof_hash_table_state.
  rewrite mul_size_checked_spec by lia.
  unfold SIZE_MAX. destruct (Z.leb_spec (2 ^ (k + 1) * 24) (2 ^ 64 - 1));
    [| left; eexists; split_and!; eauto; lia].
  rewrite add_size_checked_spec by lia. unfold SIZE_MAX.
  destruct (Z.leb_spec (2 ^ (k + 1) * 24 + 80) (2 ^ 64 - 1));
    [| left; eexists; split_and!; eauto; lia].
  right.
  set (tmpl := mk_state _ _ _ _ _ _ _ _ _).
  pose proof (max_load_of_double k ltac:(lia)) as Hdbl.
  pose proof (max_load_of_bounds (k + 1) ltac:(lia)) as Hmb.
  destruct (reinsert_all_spec (k + 1) (slots st)
              (set_slots tmpl (replicate (Z.to_nat (2 ^ (k + 1))) empty_entry)))
    as (s' & -> & Hring & HP).
  - apply alloc_state_ring; auto. lia.
  - rewrite entries_replicate. fold (entries st). cbn [zlength length]. unfold zlength at 2. cbn [length]. lia.
  - eexists. split; [reflexivity |]. split; [exact Hring |].
    split; [now constructor |]. split_and!; auto.
    + rewrite entries_replicate, app_nil_r in HP. exact HP.
    + cbn. rewrite Hml. exact Hdbl.
Qed.

(** ** Rewriting an element in place *)

Lemma robin_hood_same_codes k s s' :
  (forall x, hash_code (at_pos k s' x) = hash_code (at_pos k s x)) ->
  robin_hood k s -> robin_hood k s'.
Proof.
  intros H HR x. unfold robin_hood, occupied, distance in *. rewrite !H. apply HR.
Qed.

Lemma slot_at_pos k s i : 0 <= i < 2 ^ k -> slot_at s i = at_pos k s i.
Proof. intros H. unfold at_pos. now rewrite Z.mod_small. Qed.

Lemma slot_at_lookup k st i :
  ring_ok k st -> 0 <= i < 2 ^ k -> slots st !! Z.to_nat i = Some (slot_at (slots st) i).
Proof.
  intros [Hk Hsz Hm Hl HR] Hi. pose proof (at_pos_lookup k Hk (slots st) i Hl) as H.
  rewrite Z.mod_small in H by lia. now rewrite (slot_at_pos k).
Qed.

Lemma slot_set_entries st i e e' :
  slots st !! Z.to_nat i = Some e -> occupied e -> occupied e' ->
  e :: filter occupied (slot_set (slots st) i e') ≡ₚ e' :: entries st.
Proof.
  intros Hi Ho Ho'. unfold entries. rewrite <- !filter_occupied_cons by assumption.
  apply filter_Permutation. now apply insert_exchange.
Qed.

Lemma write_element_spec k st i kk v :
  ring_ok k st -> 0 <= i < 2 ^ k -> occupied (slot_at (slots st) i) ->
  ring_ok k (write_element st i kk v)
  /\ slot_at (slots st) i :: entries (write_element st i kk v)
     ≡ₚ mk_entry (mk_element kk v) (hash_code (slot_at (slots st) i)) :: entries st.
Proof.
  intros Hok Hi Ho. pose proof (slot_at_lookup k st i Hok Hi) as Hlk.
  destruct Hok as [Hk Hsz Hm Hl HR]. split.
  - constructor; auto; unfold write_element; cbn [slots set_slots].
    + rewrite slot_set_length. exact Hl.
    + eapply robin_hood_same_codes; [| exact HR]. intros x.
      replace i with (i mod 2 ^ k) at 1 by (apply Z.mod_small; lia).
      rewrite at_pos_set by assumption.
      destruct (Z.eqb_spec (x mod 2 ^ k) (i mod 2 ^ k)) as [E |]; [| reflexivity].
      unfold at_pos. rewrite E, Z.mod_small by lia. reflexivity.
  - apply slot_set_entries; auto.
Qed.

(** ** Removing an entry *)

(** How the slots move: the entries after the removed one step back up to
    position [y], which becomes empty. *)
Definition shifted_back (k : Z) (s s' : list hash_table_entry) (x y : Z) : Prop :=
  (forall z, x <= z < y -> at_pos k s' z = at_pos k s (z + 1))
  /\ at_pos k s' y = empty_entry
  /\ (forall z, (forall i, x <= i <= y -> z mod 2 ^ k <> i mod 2 ^ k) ->
        at_pos k s' z = at_pos k s z)
  /\ (forall z, x < z <= y -> occupied (at_pos k s z)).

Lemma remove_entry_spec k st i :
  ring_ok k st -> 0 <= i < 2 ^ k -> occupied (slot_at (slots st) i) ->
  zlength (entries st) < 2 ^ k -> 1 <= entry_count st < 2 ^ 64 ->
  exists st' y, s_remove_entry st i = Some (st', y mod 2 ^ k)
    /\ i <= y < i + 2 ^ k - 1
    /\ ring_ok k st' /\ same_callbacks st st'
    /\ slot_at (slots st) i :: entries st' ≡ₚ entries st
    /\ entry_count st' = entry_count st - 1 /\ max_load st' = max_load st
    /\ shifted_back k (slots st) (slots st') i y.
Proof.
  intros Hok Hi Ho Hfree Hcnt. pose proof (slot_at_lookup k st i Hok Hi) as Hlk.
  destruct Hok as [Hk Hsz Hm Hl HR]. pose proof (ring_size_pos k Hk) as Hn.
  destruct (exists_unoccupied (slots st)) as (j & e0 & Hj & He0); [unfold entries in Hfree; lia |].
  pose proof (at_pos_of_lookup k Hk (slots st) j e0 Hl Hj) as Hx.
  set (t := (Z.of_nat j - (i + 1)) mod 2 ^ k).
  pose proof (Z.mod_pos_bound (Z.of_nat j - (i + 1)) (2 ^ k) ltac:(lia)) as Ht. fold t in Ht.
  assert ((i + 1 + t) mod 2 ^ k = Z.of_nat j mod 2 ^ k) as Hpos.
  { unfold t. rewrite Zplus_mod_idemp_r. f_equal. lia. }
  assert (t < 2 ^ k - 1) as Htn.
  { destruct (Z.lt_ge_cases t (2 ^ k - 1)); [assumption |]. exfalso. apply He0. rewrite <- Hx.
    rewrite <- (at_pos_congr k _ _ _ Hpos). replace (i + 1 + t) with (i + 1 * 2 ^ k) by lia.
    unfold at_pos. rewrite Z.mod_add, Z.mod_small by lia. exact Ho. }
  destruct (remove_loop_spec k Hk (Z.to_nat t) (S (Z.to_nat (size st))) (slots st) i)
    as (s' & y & Heq & Hy & Hl' & HR' & Hend & HP & Hsh & Hfr & Hocc); auto; try lia.
  { rewrite Z2Nat.id by lia. rewrite (at_pos_congr k _ _ _ Hpos), Hx. exact He0. }
  rewrite Z2Nat.id in Hy by lia. rewrite (Z.mod_small i) in Heq, HP by lia.
  unfold s_remove_entry. cbn [size mask slots set_entry_count]. rewrite Hm, Heq.
  eexists _, y. split; [reflexivity |]. split; [lia |].
  split; [constructor; auto; cbn [slots set_slots];
          [rewrite slot_set_length; exact Hl' | now apply robin_hood_clear] |].
  split; [now constructor |]. split_and!; auto.
  - unfold entries. cbn [slots set_slots]. rewrite (filter_Permutation occupied _ _ HP).
    rewrite <- filter_occupied_cons by assumption.
    rewrite <- (filter_unoccupied_cons empty_entry (slots st)) by (intros Hz; now apply Hz).
    apply filter_Permutation, insert_exchange, Hlk.
  - cbn. apply u64_small. unfold is_u64. lia.
  - assert (forall z, i <= z < y -> z mod 2 ^ k <> y mod 2 ^ k) as Hne.
    { intros z Hz E. assert (y - z = 0); [| lia].
      apply (mod_shift_eq (2 ^ k) z); try lia. replace (z + (y - z)) with y by lia. congruence. }
    unfold shifted_back. cbn [slots set_slots]. split_and!.
    + intros z Hz. rewrite at_pos_set by assumption.
      rewrite (proj2 (Z.eqb_neq _ _)) by (apply Hne; lia). apply Hsh. lia.
    + rewrite at_pos_set, Z.eqb_refl by assumption. reflexivity.
    + intros z Hz. rewrite at_pos_set by assumption.
      rewrite (proj2 (Z.eqb_neq _ _)) by (apply Hz; lia). apply Hfr. intros q Hq. apply Hz. lia.
    + exact Hocc.
Qed.

(** ** Creating *)

Lemma table_ring st : table_ok st -> exists k, ring_ok k st.
Proof. intros H. apply (ok_ring _ H). Qed.

Lemma table_room k st :
  ring_ok k st -> table_ok st ->
  0 <= entry_count st < 2 ^ k /\ zlength (entries st) < 2 ^ k /\ 2 ^ k <= 2 ^ 63.
Proof.
  intros [Hk Hsz Hm Hl HR] Hok. pose proof (ok_load st Hok). pose proof (ok_max_load st Hok) as Hml.
  rewrite Hsz in Hml. pose proof (max_load_of_bounds k Hk). pose proof (ok_count st Hok).
  pose proof (zlength_nonneg (entries st)). pose proof (ring_size_u64 k Hk). lia.
Qed.

(** A freshly created element: the table has grown by the entry of [key]. *)
Definition created (st st' : hash_table_state) (key idx : Z) : Prop :=
  let e := mk_entry (mk_element key 0) (s_hash_for st key) in
  exists k', ring_ok k' st' /\ 0 <= idx < 2 ^ k' /\ slot_at (slots st') idx = e
    /\ same_callbacks st st' /\ entries st' ≡ₚ e :: entries st
    /\ entry_count st' = entry_count st + 1
    /\ max_load st' = max_load_of (size st') /\ entry_count st' <= max_load st'.

Lemma create_found k st key el {CB : KeyCallbacks (hash_fn st) (equals_fn st)} :
  ring_ok k st -> table_ok st -> lookup st key = Some el ->
  exists i, aws_hash_table_create st key = Some (Ok (Some i, false), st)
    /\ 0 <= i < 2 ^ k /\ occupied (slot_at (slots st) i) /\ element (slot_at (slots st) i) = el
    /\ s_hash_keys_eq st key (HashTable.key el) = true
    /\ hash_code (slot_at (slots st) i) = s_hash_for st key.
Proof.
  intros Hring Hok Hlk. destruct (find_lookup k st key Hring Hok) as (found & p & Heq & Hout & Hres).
  rewrite Hlk in Hres. destruct found; [| discriminate]. injection Hres as Hel.
  destruct Hout as (_ & _ & Ho & Hh & Hkey). unfold aws_hash_table_create. rewrite Heq.
  eexists. split; [reflexivity |]. pose proof (ring_size_pos k (ring_k _ _ Hring)).
  split; [apply Z.mod_pos_bound; lia |].
  unfold at_pos in *. split_and!; auto. rewrite Hel. exact Hkey.
Qed.

Lemma create_fresh k st key {CB : KeyCallbacks (hash_fn st) (equals_fn st)} :
  ring_ok k st -> table_ok st -> lookup st key = None ->
  (exists e, aws_hash_table_create st key = Some (Err e, st)
     /\ e = AWS_ERROR_OVERFLOW_DETECTED /\ 2 ^ 59 <= size st
     /\ entry_count st = max_load st)
  \/ (exists st' idx, aws_hash_table_create st key = Some (Ok (Some idx, true), st')
        /\ created st st' key idx).
Proof.
  intros Hring Hok Hlk. destruct (find_lookup k st key Hring Hok) as (found & p & Heq & Hout & Hres).
  rewrite Hlk in Hres. destruct found; [discriminate |].
  pose proof (find_supported _ _ _ _ _ Hout) as Hsup.
  pose proof (table_room k st Hring Hok) as (Hc & Hroom & H63).
  set (e := mk_entry (mk_element key 0) (s_hash_for st key)).
  assert (occupied e) as He by apply hash_for_nonzero.
  unfold aws_hash_table_create. rewrite Heq.
  rewrite add_size_checked_spec by lia. rewrite (proj2 (Z.leb_le _ _)) by (unfold SIZE_MAX; lia).
  pose proof (ok_load st Hok). pose proof (ok_max_load st Hok) as Hml.
  destruct (Z.ltb_spec (max_load st) (entry_count st + 1)) as [Hgrow | Hfit].
  - destruct (expand_table_spec k st Hring Hok)
      as [(err & -> & Herr & Hbig) | (st1 & -> & Hring1 & Hcb & HP & Hcnt & Hml1 & Hdbl)].
    { left. exists err. split_and!; auto. lia. }
    pose proof (max_load_of_bounds (k + 1) (ring_k _ _ Hring1)) as Hmb.
    rewrite (ring_size _ _ Hring1) in Hml1.
    rewrite (u64_small (entry_count st1 + 1)) by (unfold is_u64; lia).
    destruct (emplace_item_spec (k + 1) (set_entry_count st1 (entry_count st1 + 1)) e 0)
      as (s' & idx & Hem & Hring' & HP' & Hidx & Hat); auto; try lia.
    { destruct Hring1; now constructor. }
    { intros Hp. lia. }
    { unfold entries in *. cbn [slots set_entry_count]. unfold zlength in *.
      rewrite (Permutation_length HP). pose proof (ok_count st Hok). unfold entries, zlength in *. lia. }
    unfold e in Hem. rewrite Hem. right. eexists _, idx. split; [reflexivity |].
    exists (k + 1). split_and!; auto; try lia.
    + destruct Hcb; now constructor.
    + unfold entries in *. cbn [slots set_entry_count set_slots] in *. rewrite HP'. now rewrite HP.
    + cbn. lia.
    + cbn. rewrite (ring_size _ _ Hring1). exact Hml1.
    + cbn. lia.
  - rewrite (u64_small (entry_count st + 1)) by (unfold is_u64; lia).
    destruct (emplace_item_spec k (set_entry_count st (entry_count st + 1)) e p)
      as (s' & idx & Hem & Hring' & HP' & Hidx & Hat); auto; try lia.
    { destruct Hring; now constructor. }
    { destruct Hout as (Hp & _). lia. }
    unfold e in Hem. rewrite Hem. right. eexists _, idx. split; [reflexivity |].
    exists k. split_and!; auto; try (cbn; lia). now constructor.
Qed.

(** ** Abstract content after a change of the multiset of entries *)

Section content.
Context (hash : Z -> Z) (eq : Z -> Z -> bool) {CB : KeyCallbacks hash eq}.
Local Abbreviation keq := (s_safe_eq_check eq).

Lemma content_insert es es' e :
  distinct_keys eq es -> lookup_entries eq es (key_of e) = None -> es' ≡ₚ e :: es ->
  distinct_keys eq es'
  /\ forall k', lookup_entries eq es' k'
               = if keq k' (key_of e) then Some (element e) else lookup_entries eq es k'.
Proof.
  intros HD HN HP. assert (distinct_keys eq (e :: es)) as HD1.
  { split; [now apply lookup_entries_None | exact HD]. }
  assert (distinct_keys eq es') as HD' by exact (distinct_keys_perm hash eq _ _ (symmetry HP) HD1).
  split; [exact HD' |]. intros k'. now rewrite (lookup_entries_perm hash eq _ _ k' HD' HP).
Qed.

Lemma content_remove es es' e :
  distinct_keys eq es -> e :: es' ≡ₚ es ->
  distinct_keys eq es'
  /\ lookup_entries eq es (key_of e) = Some (element e)
  /\ forall k', lookup_entries eq es' k'
               = if keq k' (key_of e) then None else lookup_entries eq es k'.
Proof.
  intros HD HP. assert (distinct_keys eq (e :: es')) as HD1
    by exact (distinct_keys_perm hash eq _ _ (symmetry HP) HD).
  pose proof (fun k' => lookup_entries_perm hash eq _ _ k' HD1 HP) as HL.
  destruct HD1 as [HF HD']. split; [exact HD' |]. split.
  - rewrite <- HL. cbn [lookup_entries]. unfold key_of. now rewrite safe_eq_refl.
  - intros k'. rewrite <- HL. cbn [lookup_entries]. fold (key_of e).
    destruct (keq k' (key_of e)) eqn:E; [| reflexivity].
    rewrite (lookup_entries_eq_key hash eq _ _ _ E). apply lookup_entries_None, HF.
Qed.

Lemma content_replace es es' e e' :
  distinct_keys eq es -> e ∈ es -> keq (key_of e') (key_of e) = true ->
  e :: es' ≡ₚ e' :: es ->
  distinct_keys eq es'
  /\ forall k', lookup_entries eq es' k'
               = if keq k' (key_of e') then Some (element e') else lookup_entries eq es k'.
Proof.
  intros HD He Hk HP. apply elem_of_Permutation in He as (rest & Hrest).
  assert (es' ≡ₚ e' :: rest) as HP'.
  { apply (Permutation_cons_inv (a := e)). rewrite HP, Hrest. apply perm_swap. }
  destruct (content_remove es rest e HD (symmetry Hrest)) as (HDr & _ & HLr).
  destruct (content_insert rest es' e' HDr) as [HD' HL'].
  - rewrite HLr, Hk. reflexivity.
  - exact HP'.
  - split; [exact HD' |]. intros k'. rewrite HL', HLr.
    rewrite (safe_eq_sym hash eq k' (key_of e')), (safe_eq_sym hash eq k' (key_of e)).
    rewrite (safe_eq_cong hash eq _ _ k' Hk). destruct (keq (key_of e) k'); reflexivity.
Qed.

End content.
