(* ===== verification/HashTableSpec.v ===== *)
(** * The hash table: correctness

    The table refines a partial map from keys (up to the user's equality) to
    elements: every public operation keeps [table_ok] and acts on [lookup] as
    the map operation does. *)

From S2P Require Import Prelude Math HashTable HashTableRing HashTableInv HashTableOps.
Import HashTable.

Local Open Scope Z_scope.

(** ** A boolean check of the invariant *)

Definition robin_hoodb (k : Z) (s : list hash_table_entry) : bool :=
  forallb (fun x =>
    bool_decide (occupied (at_pos k s x) -> 0 < distance k x (at_pos k s x) ->
      occupied (at_pos k s (x - 1))
      /\ distance k x (at_pos k s x) - 1 <= distance k (x - 1) (at_pos k s (x - 1))))
    (seqZ 0 (2 ^ k)).

Fixpoint distinct_keysb (eq : Z -> Z -> bool) (es : list hash_table_entry) : bool :=
  match es with
  | [] => true
  | e :: es =>
      forallb (fun e' => negb (s_safe_eq_check eq (key_of e) (key_of e'))) es
      && distinct_keysb eq es
  end.

Definition table_okb (k : Z) (st : hash_table_state) : bool :=
  (1 <=? k) && (k <=? 63) && (size st =? 2 ^ k) && (mask st =? 2 ^ k - 1)
  && (zlength (slots st) =? 2 ^ k) && robin_hoodb k (slots st)
  && (max_load st =? max_load_of (size st)) && (entry_count st =? zlength (entries st))
  && (entry_count st <=? max_load st)
  && forallb (fun e => hash_code e =? s_hash_for st (key_of e)) (entries st)
  && distinct_keysb (equals_fn st) (entries st).

Lemma robin_hoodb_sound k s : 1 <= k <= 63 -> robin_hoodb k s = true -> robin_hood k s.
Proof.
  intros Hk H x. pose proof (ring_size_pos k Hk). unfold robin_hoodb in H.
  rewrite forallb_forall in H. specialize (H (x mod 2 ^ k)).
  assert (forall d, at_pos k s (x mod 2 ^ k - d) = at_pos k s (x - d)
            /\ forall e, distance k (x mod 2 ^ k - d) e = distance k (x - d) e) as Hc.
  { intros d. assert ((x mod 2 ^ k - d) mod 2 ^ k = (x - d) mod 2 ^ k) as E
      by apply Zminus_mod_idemp_l.
    split; [now apply at_pos_congr | intros e; now apply distance_congr]. }
  destruct (Hc 0) as [E0 D0], (Hc 1) as [E1 D1]. rewrite !Z.sub_0_r in *.
  rewrite E0, E1, D1 in H. rewrite D0 in H. apply bool_decide_eq_true in H; [exact H |].
  apply list_elem_of_In, elem_of_seqZ. pose proof (Z.mod_pos_bound x (2 ^ k)). lia.
Qed.

Lemma distinct_keysb_sound eq es : distinct_keysb eq es = true -> distinct_keys eq es.
Proof.
  induction es as [| e es IH]; cbn [distinct_keysb distinct_keys]; [auto |].
  intros H. apply andb_prop in H as [HF HD]. split; [| auto].
  rewrite forallb_forall in HF. apply Forall_forall. intros e' He'.
  apply negb_true_iff, HF, list_elem_of_In, He'.
Qed.

Lemma table_okb_sound k st : table_okb k st = true -> table_ok st.
Proof.
  unfold table_okb. rewrite !andb_true_iff, !Z.leb_le, !Z.eqb_eq.
  intros ((((((((((H1 & H2) & H3) & H4) & H5) & H6) & H7) & H8) & H9) & H10) & H11).
  constructor; auto.
  - exists k. constructor; auto. apply robin_hoodb_sound; auto.
  - rewrite forallb_forall in H10. apply Forall_forall. intros e He.
    apply Z.eqb_eq, H10, list_elem_of_In, He.
  - now apply distinct_keysb_sound.
Qed.

(** Pointer keys compared by address: the callbacks [aws_ptr_eq] with any hash. *)
#[export] Instance ptr_callbacks : KeyCallbacks u64 aws_ptr_eq.
Proof.
  constructor; unfold aws_ptr_eq; intros; rewrite ?Z.eqb_eq in *; try congruence.
  apply u64_range.
Qed.

(** ** Initialising *)

Lemma init_spec sz hash eq dk dv :
  0 <= sz <= 2 ^ 63 ->
  (exists e, aws_hash_table_init sz hash eq dk dv = Err e
             /\ e = AWS_ERROR_OVERFLOW_DETECTED /\ 2 ^ 59 < sz)
  \/ exists st k, aws_hash_table_init sz hash eq dk dv = Ok st
       /\ table_ok st /\ ring_ok k st /\ entries st = []
       /\ hash_fn st = hash /\ equals_fn st = eq /\ destroy_key_fn st = dk
       /\ destroy_value_fn st = dv /\ sz <= 2 ^ k /\ (2 < sz -> 2 ^ k < 2 * sz).
Proof.
  intros Hsz. unfold aws_hash_table_init, s_update_template_size.
  set (m := if sz <? 2 then 2 else sz).
  assert (2 <= m <= 2 ^ 63 /\ (sz <= m) /\ (2 < sz -> m = sz) /\ (sz <= 2 -> m = 2)) as Hm
    by (unfold m; zcase; split_and!; lia).
  rewrite round_up_pow2_log by lia. cbv zeta. set (k := Z.log2 (m - 1) + 1).
  assert (1 <= k <= 63) as Hk.
  { unfold k. pose proof (Z.log2_nonneg (m - 1)).
    assert (Z.log2 (m - 1) < 63) by (apply Z.log2_lt_pow2; lia). lia. }
  pose proof (max_load_of_bounds k Hk). rewrite (proj2 (Z.leb_gt _ _)) by lia.
  pose proof (ring_size_pos k Hk).
  unfold s_alloc_state, hash_table_state_required_bytes, sizeof_hash_table_entry,
    sizeof_hash_table_state. cbn [size].
  assert (2 ^ k = 2 * 2 ^ Z.log2 (m - 1)) as Hpow by (unfold k; apply Z.pow_succ_r, Z.log2_nonneg).
  pose proof (Z.log2_spec (m - 1) ltac:(lia)) as [Hlo Hhi].
  pose proof (pow2_above 59 k ltac:(lia) ltac:(lia)) as Hbig.
  rewrite mul_size_checked_spec by lia. unfold SIZE_MAX.
  destruct (Z.leb_spec (2 ^ k * 24) (2 ^ 64 - 1)); [| left; eexists; split_and!; eauto; lia].
  rewrite add_size_checked_spec by lia. unfold SIZE_MAX.
  destruct (Z.leb_spec (2 ^ k * 24 + 80) (2 ^ 64 - 1)); [| left; eexists; split_and!; eauto; lia].
  right.
  set (tmpl := mk_state _ _ _ _ _ _ _ _ _).
  pose proof (alloc_state_ring k tmpl Hk eq_refl eq_refl) as Hring. cbn [size tmpl] in Hring.
  exists (set_slots tmpl (replicate (Z.to_nat (2 ^ k)) empty_entry)), k.
  pose proof (entries_replicate tmpl (Z.to_nat (2 ^ k))) as Hent.
  split; [reflexivity |]. split.
  { constructor; rewrite ?Hent; cbn; eauto; lia. }
  split_and!; auto; try lia.
  assert (2 ^ k = 2 ^ Z.succ (Z.log2 (m - 1))) by (f_equal; lia). lia.
Qed.

(** Initialising a table of any size that has a next power of two gives a
    well-formed empty table of the least power-of-two size that is at least
    the requested size (and at least two), or reports overflow,
    the latter only above [2^59]. *)
Theorem hash_table_init_correct (sz : Z) (hash : Z -> Z) (eq : Z -> Z -> bool)
    (dk dv : bool) :
  0 <= sz <= 2 ^ 63 ->
  match aws_hash_table_init sz hash eq dk dv with
  | Ok st =>
      table_ok st /\ hash_table_state_is_valid st = true
      /\ (forall k, lookup st k = None) /\ aws_hash_table_get_entry_count st = 0
      /\ Z.max 2 sz <= size st /\ (2 < sz -> size st < 2 * sz)
  | Err e => e = AWS_ERROR_OVERFLOW_DETECTED /\ 2 ^ 59 < sz
  end.
Proof.
  intros Hsz. destruct (init_spec sz hash eq dk dv Hsz)
    as [(e & -> & He) | (st & k & -> & Hok & Hring & Hent & _ & _ & _ & _ & Hlo & Hhi)];
    [exact He |].
  pose proof (ok_count st Hok) as Hc. rewrite Hent in Hc.
  destruct Hring as [Hk Hs Hm Hl HR]. pose proof (ring_size_pos k Hk). pose proof (ring_size_u64 k Hk).
  split_and!; auto; try (rewrite Hs; lia).
  - unfold hash_table_state_is_valid. pose proof (ok_max_load st Hok) as Hml. rewrite Hs in *.
    pose proof (max_load_of_bounds k Hk). rewrite is_power_of_two_pow by lia.
    rewrite u64_small by (unfold is_u64; lia). rewrite Hl, Hm, Hc, Hml, zlength_nil.
    zcase; reflexivity.
  - intros q. unfold lookup. now rewrite Hent.
Qed.

Lemma hash_table_init_correct_witness :
  let st := mk_state u64 aws_ptr_eq true true 8 0 7 7 (replicate 8 empty_entry) in
  aws_hash_table_init 5 u64 aws_ptr_eq true true = Ok st /\ table_ok st.
Proof.
  intros st. assert (aws_hash_table_init 5 u64 aws_ptr_eq true true = Ok st) as E
    by reflexivity.
  split; [exact E |]. assert (0 <= 5 <= 2 ^ 63) as Hsz by lia.
  pose proof (hash_table_init_correct 5 u64 aws_ptr_eq true true Hsz) as H.
  rewrite E in H. apply H.
Defined.

(** ** Finding *)

(** in a well-formed table [aws_hash_table_find] terminates; it returns
    the slot that holds the element the table maps the key to, and NULL
    exactly when the table has no equal key. *)
Theorem hash_table_find_correct (st : hash_table_state) (k : Z)
    {CB : KeyCallbacks (hash_fn st) (equals_fn st)} :
  table_ok st ->
  exists r, aws_hash_table_find st k = Some r
    /\ match r with
       | Some i => 0 <= i < size st /\ occupied (slot_at (slots st) i)
                   /\ lookup st k = Some (element (slot_at (slots st) i))
                   /\ s_hash_keys_eq st k (key_of (slot_at (slots st) i)) = true
       | None => lookup st k = None
       end.
Proof.
  intros Hok. destruct (ok_ring st Hok) as [n Hring].
  destruct (find_lookup n st k Hring Hok) as (found & p & Heq & Hout & Hres).
  unfold aws_hash_table_find. rewrite Heq. eexists. split; [reflexivity |].
  destruct found; [| exact Hres]. destruct Hout as (_ & _ & Ho & _ & Hkey).
  pose proof (ring_size_pos n (ring_k _ _ Hring)). rewrite (ring_size _ _ Hring).
  split_and!; auto; apply Z.mod_pos_bound; lia.
Qed.

(** Two entries that collide in a table of four slots. *)
Definition demo_table : hash_table_state :=
  mk_state u64 aws_ptr_eq true true 4 2 (max_load_of 4) 3
    [empty_entry; mk_entry (mk_element 5 50) 5; mk_entry (mk_element 9 90) 9; empty_entry].

Lemma demo_table_ok : table_ok demo_table.
Proof. apply (table_okb_sound 2). vm_compute. reflexivity. Qed.

Lemma hash_table_find_correct_witness :
  aws_hash_table_find demo_table 9 = Some (Some 2)
  /\ lookup demo_table 9 = Some (mk_element 9 90).
Proof.
  destruct (hash_table_find_correct demo_table 9 (CB := ptr_callbacks) demo_table_ok)
    as (r & Hr & Hres).
  vm_compute in Hr. injection Hr as <-. split; [reflexivity |]. apply Hres.
Defined.

(** ** Putting *)

(** The destructors run for the element an insertion overwrites. *)
Definition overwrite_events (st : hash_table_state) (k : Z) (old : option aws_hash_element)
    : list destroy_event :=
  match old with
  | None => []
  | Some el =>
      (if negb (key el =? k) && destroy_key_fn st then [DestroyKey (key el)] else [])
      ++ (if destroy_value_fn st then [DestroyValue (value el)] else [])
  end.

(** The elements the table owns. *)
Definition contents (st : hash_table_state) : list aws_hash_element := map element (entries st).

(** What [aws_hash_table_put] promises. *)
Definition put_post (st : hash_table_state) (k v : Z) (rv : op_result) (was_created : bool)
    (events : list destroy_event) (st' : hash_table_state) : Prop :=
  match rv with
  | AWS_OP_SUCCESS =>
      table_ok st' /\ same_callbacks st st'
      /\ (forall k', lookup st' k'
            = if s_hash_keys_eq st k' k then Some (mk_element k v) else lookup st k')
      /\ was_created = bool_decide (lookup st k = None)
      /\ entry_count st' = entry_count st + (if was_created then 1 else 0)
      /\ events = overwrite_events st k (lookup st k)
      /\ option_list (lookup st k) ++ contents st' ≡ₚ mk_element k v :: contents st
  | AWS_OP_ERR e =>
      st' = st /\ lookup st k = None /\ was_created = false /\ events = []
      /\ e = AWS_ERROR_OVERFLOW_DETECTED /\ 2 ^ 59 <= size st
      /\ entry_count st = max_load st
  end.

Lemma entries_write_callbacks st i k v : same_callbacks st (write_element st i k v).
Proof. now constructor. Qed.

Lemma zlength_perm {A} (l l' : list A) : l ≡ₚ l' -> zlength l = zlength l'.
Proof. intros H. unfold zlength. now rewrite (Permutation_length H). Qed.

Lemma Forall_hash_cons st st' e es :
  same_callbacks st st' -> hash_code e = s_hash_for st (key_of e) ->
  Forall (fun e => hash_code e = s_hash_for st (key_of e)) es ->
  Forall (fun e => hash_code e = s_hash_for st' (key_of e)) (e :: es).
Proof.
  intros Hcb He HF. apply Forall_cons. split; [now rewrite (same_hash_for _ _ _ Hcb) |].
  eapply Forall_impl; [exact HF |]. intros e0 ->. symmetry. now apply same_hash_for.
Qed.

(** Overwriting the element of an occupied slot, under an equal key. *)
Lemma write_found k st i key v {CB : KeyCallbacks (hash_fn st) (equals_fn st)} :
  ring_ok k st -> table_ok st -> 0 <= i < 2 ^ k -> occupied (slot_at (slots st) i) ->
  s_hash_keys_eq st key (key_of (slot_at (slots st) i)) = true ->
  hash_code (slot_at (slots st) i) = s_hash_for st key ->
  let st' := write_element st i key v in
  table_ok st' /\ same_callbacks st st'
  /\ (forall k', lookup st' k' = if s_hash_keys_eq st k' key then Some (mk_element key v) else lookup st k')
  /\ element (slot_at (slots st) i) :: contents st' ≡ₚ mk_element key v :: contents st.
Proof.
  intros Hring Hok Hi Ho Hkeq Hh. cbv zeta.
  destruct (write_element_spec k st i key v Hring Hi Ho) as [Hring' HP].
  set (e := slot_at (slots st) i) in *. set (st' := write_element st i key v) in *.
  set (e' := mk_entry (mk_element key v) (hash_code e)) in *.
  assert (e ∈ entries st) as Hin.
  { apply entries_elem. split; [exact Ho |]. exists (Z.to_nat i). now apply (slot_at_lookup k). }
  destruct (content_replace (hash_fn st) (equals_fn st) (entries st) (entries st') e e') as [HD HL];
    [apply ok_distinct, Hok | exact Hin | exact Hkeq | exact HP |].
  assert (zlength (entries st') = zlength (entries st)) as Hlen
    by (apply zlength_perm in HP; rewrite !zlength_cons in HP; lia).
  split_and!; auto; [| apply entries_write_callbacks | exact (Permutation_map element HP)].
  constructor; auto.
  - eauto.
  - apply (ok_max_load st Hok).
  - rewrite Hlen. apply (ok_count st Hok).
  - apply (ok_load st Hok).
  - enough (Forall (fun e => hash_code e = s_hash_for st' (key_of e)) (e :: entries st')) as HF
      by (apply Forall_cons in HF; apply HF).
    rewrite HP. apply (Forall_hash_cons st); [apply entries_write_callbacks | exact Hh |].
    apply (ok_hash st Hok).
Qed.

Lemma put_found k st key el v {CB : KeyCallbacks (hash_fn st) (equals_fn st)} :
  ring_ok k st -> table_ok st -> lookup st key = Some el ->
  exists events st', aws_hash_table_put st key v = Some (AWS_OP_SUCCESS, false, events, st')
    /\ put_post st key v AWS_OP_SUCCESS false events st'.
Proof.
  intros Hring Hok Hlk.
  destruct (create_found k st key el Hring Hok Hlk) as (i & Hc & Hi & Ho & Hel & Hkeq & Hh).
  unfold aws_hash_table_put. rewrite Hc, Hel. eexists _, _. split; [reflexivity |].
  destruct (write_found k st i key v) as (Hok' & Hcb & HL & HP); auto; [unfold key_of; now rewrite Hel |].
  unfold put_post. rewrite Hlk. split_and!; auto; [cbn; lia |]. rewrite <- Hel. exact HP.
Qed.

Lemma put_fresh k st key v {CB : KeyCallbacks (hash_fn st) (equals_fn st)} :
  ring_ok k st -> table_ok st -> lookup st key = None ->
  exists rv was_created events st',
    aws_hash_table_put st key v = Some (rv, was_created, events, st')
    /\ put_post st key v rv was_created events st'.
Proof.
  intros Hring Hok Hlk. unfold aws_hash_table_put.
  destruct (create_fresh k st key Hring Hok Hlk)
    as [(err & -> & Herr & Hbig & Hfull) | (st1 & idx & -> & k' & Hring1 & Hidx & Hat & Hcb & HP1 & Hcnt & Hml & Hld)].
  { eexists _, _, _, _. split; [reflexivity |]. cbn. split_and!; auto. }
  eexists _, _, _, _. split; [reflexivity |].
  destruct (write_element_spec k' st1 idx key v Hring1 Hidx) as [Hring' HP];
    [rewrite Hat; apply hash_for_nonzero |].
  rewrite Hat in HP. cbn [hash_code element HashTable.key value] in *.
  set (e := mk_entry (mk_element key 0) (s_hash_for st key)) in *.
  set (e' := mk_entry (mk_element key v) (s_hash_for st key)) in *.
  set (st' := write_element st1 idx key v) in *.
  assert (entries st' ≡ₚ e' :: entries st) as HP'.
  { apply (Permutation_cons_inv (a := e)). rewrite HP, HP1. apply perm_swap. }
  destruct (content_insert (hash_fn st) (equals_fn st) (entries st) (entries st') e') as [HD HL];
    [apply ok_distinct, Hok | exact Hlk | exact HP' |].
  assert (same_callbacks st st') as Hcb' by (destruct Hcb; now constructor).
  cbn [put_post]. split_and!; auto.
  - constructor; auto.
    + eauto.
    + change (entry_count st') with (entry_count st1). rewrite (zlength_perm _ _ HP'), zlength_cons, Hcnt, (ok_count st Hok). lia.
    + rewrite HP'. apply (Forall_hash_cons st); auto. apply (ok_hash st Hok).
    + now rewrite (same_eq _ _ Hcb').
  - intros q. unfold lookup at 1. rewrite (same_eq _ _ Hcb'). apply HL.
  - now rewrite Hlk.
  - now rewrite Hlk.
  - rewrite Hlk. exact (Permutation_map element HP').
Qed.

Lemma put_spec st key v {CB : KeyCallbacks (hash_fn st) (equals_fn st)} :
  table_ok st ->
  exists rv was_created events st',
    aws_hash_table_put st key v = Some (rv, was_created, events, st')
    /\ put_post st key v rv was_created events st'.
Proof.
  intros Hok. destruct (ok_ring st Hok) as [k Hring].
  destruct (lookup st key) as [el |] eqn:E.
  - destruct (put_found k st key el v Hring Hok E) as (ev & st' & H & HP). eauto 8.
  - now apply (put_fresh k).
Qed.

(** ** Removing *)

Definition remove_events (st : hash_table_state) (el : aws_hash_element) : list destroy_event :=
  (if destroy_key_fn st then [DestroyKey (key el)] else [])
  ++ (if destroy_value_fn st then [DestroyValue (value el)] else []).

(** The invariant after an entry left the table. *)
Lemma table_ok_remove k st st' e {CB : KeyCallbacks (hash_fn st) (equals_fn st)} :
  ring_ok k st' -> same_callbacks st st' -> size st' = size st -> max_load st' = max_load st ->
  entry_count st' = entry_count st - 1 -> table_ok st -> e :: entries st' ≡ₚ entries st ->
  table_ok st'
  /\ lookup st (key_of e) = Some (element e)
  /\ forall k', lookup st' k' = if s_hash_keys_eq st k' (key_of e) then None else lookup st k'.
Proof.
  intros Hring Hcb Hsz Hml Hcnt Hok HP.
  destruct (content_remove (hash_fn st) (equals_fn st) (entries st) (entries st') e)
    as (HD & HE & HL); [apply ok_distinct, Hok | exact HP |].
  split; [| split; [exact HE |]].
  - constructor.
    + eauto.
    + rewrite Hml, Hsz. apply (ok_max_load st Hok).
    + apply zlength_perm in HP. rewrite zlength_cons in HP. rewrite Hcnt, (ok_count st Hok). lia.
    + rewrite Hcnt, Hml. pose proof (ok_load st Hok). lia.
    + pose proof (ok_hash st Hok) as HF. rewrite <- HP in HF. apply Forall_cons in HF as [_ HF].
      eapply Forall_impl; [exact HF |]. intros e0 ->. symmetry. now apply same_hash_for.
    + now rewrite (same_eq _ _ Hcb).
  - intros q. unfold lookup at 1. rewrite (same_eq _ _ Hcb). apply HL.
Qed.

Lemma entry_count_pos k st i :
  ring_ok k st -> table_ok st -> 0 <= i < 2 ^ k -> occupied (slot_at (slots st) i) ->
  1 <= entry_count st < 2 ^ 64.
Proof.
  intros Hring Hok Hi Ho. pose proof (table_room k st Hring Hok). split; [| lia].
  rewrite (ok_count st Hok). pose proof (slot_at_lookup k st i Hring Hi) as Hlk.
  assert (slot_at (slots st) i ∈ entries st) as Hin by (apply entries_elem; eauto).
  destruct (entries st); [now apply not_elem_of_nil in Hin |].
  rewrite zlength_cons. pose proof (zlength_nonneg l). lia.
Qed.

(** Removing the entry of an occupied slot removes its key and nothing else. *)
Lemma remove_slot_spec k st i {CB : KeyCallbacks (hash_fn st) (equals_fn st)} :
  ring_ok k st -> table_ok st -> 0 <= i < 2 ^ k -> occupied (slot_at (slots st) i) ->
  exists st' y, s_remove_entry st i = Some (st', y mod 2 ^ k)
    /\ i <= y < i + 2 ^ k - 1 /\ ring_ok k st' /\ table_ok st' /\ same_callbacks st st'
    /\ entry_count st' = entry_count st - 1
    /\ slot_at (slots st) i :: entries st' ≡ₚ entries st
    /\ shifted_back k (slots st) (slots st') i y
    /\ lookup st (key_of (slot_at (slots st) i)) = Some (element (slot_at (slots st) i))
    /\ (forall k', lookup st' k'
          = if s_hash_keys_eq st k' (key_of (slot_at (slots st) i)) then None else lookup st k').
Proof.
  intros Hring Hok Hi Ho. pose proof (table_room k st Hring Hok) as (_ & Hroom & _).
  destruct (remove_entry_spec k st i Hring Hi Ho Hroom (entry_count_pos k st i Hring Hok Hi Ho))
    as (st' & y & Heq & Hy & Hring' & Hcb & HP & Hcnt & Hml & Hsh).
  destruct (table_ok_remove k st st' (slot_at (slots st) i)) as (Hok' & HE & HL); auto.
  { rewrite (ring_size _ _ Hring), (ring_size _ _ Hring'). reflexivity. }
  exists st', y. split_and!; auto; lia.
Qed.

(** What [aws_hash_table_remove] promises; the element leaves the table and
    goes to the caller or to the destructors. *)
Definition remove_post (st : hash_table_state) (k : Z) (has_p_value : bool)
    (p_value : option aws_hash_element) (was_present : bool) (events : list destroy_event)
    (st' : hash_table_state) : Prop :=
  table_ok st' /\ same_callbacks st st'
  /\ (forall k', lookup st' k' = if s_hash_keys_eq st k' k then None else lookup st k')
  /\ option_list (lookup st k) ++ contents st' ≡ₚ contents st
  /\ match lookup st k with
     | None => was_present = false /\ st' = st /\ p_value = None /\ events = []
     | Some el =>
         was_present = true /\ entry_count st' = entry_count st - 1
         /\ p_value = (if has_p_value then Some el else None)
         /\ events = (if has_p_value then [] else remove_events st el)
     end.

Lemma remove_spec st key has_p_value {CB : KeyCallbacks (hash_fn st) (equals_fn st)} :
  table_ok st ->
  exists p_value was_present events st',
    aws_hash_table_remove st key has_p_value = Some (p_value, was_present, events, st')
    /\ remove_post st key has_p_value p_value was_present events st'.
Proof.
  intros Hok. destruct (ok_ring st Hok) as [k Hring].
  destruct (find_lookup k st key Hring Hok) as (found & p & Heq & Hout & Hres).
  unfold aws_hash_table_remove, remove_post. rewrite Heq. destruct found.
  - destruct Hout as (_ & _ & Ho & _ & Hkey). set (i := (s_hash_for st key + p) mod 2 ^ k).
    pose proof (ring_size_pos k (ring_k _ _ Hring)).
    assert (0 <= i < 2 ^ k) as Hi by (apply Z.mod_pos_bound; lia).
    unfold at_pos in *. fold i in Ho, Hkey, Hres |- *.
    destruct (remove_slot_spec k st i Hring Hok Hi Ho)
      as (st' & y & -> & _ & _ & Hok' & Hcb & Hcnt & HP & _ & _ & HL).
    apply (Permutation_map element) in HP.
    rewrite Hres. assert (forall k', lookup st' k' = if s_hash_keys_eq st k' key then None else lookup st k') as HL'.
    { intros q. rewrite HL. unfold s_hash_keys_eq in *.
      rewrite (safe_eq_sym (hash_fn st) _ q key), (safe_eq_sym (hash_fn st) _ q (key_of _)).
      now rewrite (safe_eq_cong (hash_fn st) _ _ _ q Hkey). }
    destruct has_p_value; eexists _, _, _, _; (split; [reflexivity |]); split_and!; auto.
  - eexists _, _, _, _. split; [reflexivity |]. rewrite Hres. split_and!; auto with aws.
    intros q. destruct (s_hash_keys_eq st q key) eqn:E; [| reflexivity].
    unfold lookup. now rewrite (lookup_entries_eq_key (hash_fn st) _ _ _ _ E).
Qed.

(** [aws_hash_table_put] on a well-formed table terminates. On success the
    table is well formed, maps exactly the keys equal to [k] to the new
    element and every other key as before, says whether the key was new and
    destroys what it overwrote. It fails only when a full table of at least
    [2^59] slots must grow, and then nothing changes. *)
Theorem hash_table_put_correct (st : hash_table_state) (k v : Z)
    {CB : KeyCallbacks (hash_fn st) (equals_fn st)} :
  table_ok st ->
  exists rv was_created events st',
    aws_hash_table_put st k v = Some (rv, was_created, events, st')
    /\ put_post st k v rv was_created events st'.
Proof. exact (put_spec st k v). Qed.

Lemma hash_table_put_correct_witness :
  exists st', aws_hash_table_put demo_table 9 91
              = Some (AWS_OP_SUCCESS, false, [DestroyValue 90], st')
    /\ put_post demo_table 9 91 AWS_OP_SUCCESS false [DestroyValue 90] st'.
Proof.
  destruct (hash_table_put_correct demo_table 9 91 (CB := ptr_callbacks) demo_table_ok)
    as (rv & wc & ev & st' & H & HP).
  assert (fst <$> aws_hash_table_put demo_table 9 91
          = Some (AWS_OP_SUCCESS, false, [DestroyValue 90])) as E by (vm_compute; reflexivity).
  rewrite H in E. injection E as -> -> ->. exists st'.
  split; assumption.
Defined.

(** [aws_hash_table_remove] on a well-formed table terminates, keeps it
    well formed, removes exactly the keys equal to [k], and hands the removed
    element to the caller or to the destructors, never to both. *)
Theorem hash_table_remove_correct (st : hash_table_state) (k : Z) (has_p_value : bool)
    {CB : KeyCallbacks (hash_fn st) (equals_fn st)} :
  table_ok st ->
  exists p_value was_present events st',
    aws_hash_table_remove st k has_p_value = Some (p_value, was_present, events, st')
    /\ remove_post st k has_p_value p_value was_present events st'.
Proof. exact (remove_spec st k has_p_value). Qed.

Lemma hash_table_remove_correct_witness :
  exists st', aws_hash_table_remove demo_table 5 false
              = Some (None, true, [DestroyKey 5; DestroyValue 50], st')
    /\ remove_post demo_table 5 false None true [DestroyKey 5; DestroyValue 50] st'.
Proof.
  destruct (hash_table_remove_correct demo_table 5 false (CB := ptr_callbacks) demo_table_ok)
    as (pv & wp & ev & st' & H & HP).
  assert (fst <$> aws_hash_table_remove demo_table 5 false
          = Some (None, true, [DestroyKey 5; DestroyValue 50])) as E by (vm_compute; reflexivity).
  rewrite H in E. injection E as -> -> ->. exists st'.
  split; assumption.
Defined.
