(* ===== verification/HashTableHistory.v ===== *)
(** * The hash table: clearing, comparing and histories of operations

    [aws_hash_table_clear] and [aws_hash_table_eq] against the abstract map,
    and two theorems about whole histories of calls: every history simulates
    a history of a partial map, and every value handed to the table is at any
    time in exactly one place: the table, the caller or the destructor. *)

From S2P Require Import Prelude Math HashTable HashTableRing HashTableInv.
From S2P Require Import HashTableOps HashTableSpec.
Import HashTable.

Local Open Scope Z_scope.

(** ** Clearing *)

Lemma destroy_events_all st s :
  concat (map (destroy_events st) s)
  = concat (map (remove_events st) (map element (filter occupied s))).
Proof.
  induction s as [| e s IH]; [reflexivity |]. cbn [map concat]. rewrite IH.
  unfold destroy_events at 1. destruct (Z.eqb_spec (hash_code e) 0) as [H | H].
  - rewrite filter_cons_False by (unfold occupied; intuition). reflexivity.
  - rewrite filter_cons_True by exact H. reflexivity.
Qed.

Lemma destroy_events_none (st : hash_table_state) l :
  destroy_key_fn st || destroy_value_fn st = false -> concat (map (remove_events st) l) = [].
Proof.
  intros H. apply orb_false_iff in H as [H1 H2].
  induction l; [reflexivity |]. cbn [map concat]. unfold remove_events at 1. now rewrite H1, H2.
Qed.

Lemma clear_spec st :
  table_ok st ->
  table_ok (snd (aws_hash_table_clear st)) /\ same_callbacks st (snd (aws_hash_table_clear st))
  /\ contents (snd (aws_hash_table_clear st)) = []
  /\ size (snd (aws_hash_table_clear st)) = size st
  /\ entry_count (snd (aws_hash_table_clear st)) = 0
  /\ (forall k, lookup (snd (aws_hash_table_clear st)) k = None)
  /\ fst (aws_hash_table_clear st) = concat (map (remove_events st) (contents st)).
Proof.
  intros Hok. destruct (ok_ring st Hok) as [k Hring].
  unfold aws_hash_table_clear. cbn [fst snd].
  set (st' := set_entry_count _ 0).
  assert (entries st' = []) as Hent
    by (pose proof (entries_replicate st (Z.to_nat (size st))) as H; exact H).
  assert (ring_ok k st') as Hring'.
  { destruct Hring as [Hk Hs Hm Hl HR].
    destruct (alloc_state_ring k st Hk Hs Hm) as [_ _ _ Hl' HR']. constructor; auto. }
  pose proof (max_load_of_bounds k (ring_k _ _ Hring)).
  split_and!; try reflexivity.
  - constructor; rewrite ?Hent; try constructor; eauto; try apply (ok_max_load st Hok).
    change (max_load st') with (max_load st). change (entry_count st') with 0.
    rewrite (ok_max_load st Hok), (ring_size _ _ Hring). lia.
  - now constructor.
  - unfold contents. now rewrite Hent.
  - intros q. unfold lookup. now rewrite Hent.
  - unfold contents, entries. rewrite <- destroy_events_all.
    destruct (destroy_key_fn st || destroy_value_fn st) eqn:E; [reflexivity |].
    rewrite destroy_events_all. symmetry. now apply destroy_events_none.
Qed.

(** clearing destroys the key and the value of every element exactly once,
    in slot order, and leaves a well-formed empty table of the same size. *)
Theorem hash_table_clear_correct (st : hash_table_state) :
  table_ok st ->
  table_ok (snd (aws_hash_table_clear st))
  /\ size (snd (aws_hash_table_clear st)) = size st
  /\ aws_hash_table_get_entry_count (snd (aws_hash_table_clear st)) = 0
  /\ (forall k, lookup (snd (aws_hash_table_clear st)) k = None)
  /\ fst (aws_hash_table_clear st) = concat (map (remove_events st) (contents st)).
Proof. intros Hok. destruct (clear_spec st Hok) as (? & _ & _ & ? & ? & ? & ?). auto. Qed.

Lemma hash_table_clear_correct_witness :
  concat (map (remove_events demo_table) (contents demo_table))
  = [DestroyKey 5; DestroyValue 50; DestroyKey 9; DestroyValue 90].
Proof.
  destruct (hash_table_clear_correct demo_table demo_table_ok) as (_ & _ & _ & _ & <-).
  vm_compute. reflexivity.
Defined.

(** ** Comparing *)

(** Every element of [es] has an equal one in [b]. *)
Definition covered (b : hash_table_state) (value_eq : Z -> Z -> bool)
    (es : list hash_table_entry) : Prop :=
  Forall (fun e => exists el, lookup b (key_of e) = Some el
                    /\ s_safe_eq_check value_eq (value (element e)) (value el) = true) es.

Lemma find_result st q {CB : KeyCallbacks (hash_fn st) (equals_fn st)} :
  table_ok st ->
  exists r, aws_hash_table_find st q = Some r
    /\ (fun i => element (slot_at (slots st) i)) <$> r = lookup st q.
Proof.
  intros Hok. destruct (ok_ring st Hok) as [n Hring].
  destruct (find_lookup n st q Hring Hok) as (found & p & Heq & Hout & Hres).
  unfold aws_hash_table_find. rewrite Heq. eexists. split; [reflexivity |].
  destruct found; cbn; now rewrite Hres.
Qed.

Lemma table_eq_loop_spec b value_eq s {CB : KeyCallbacks (hash_fn b) (equals_fn b)} :
  table_ok b ->
  exists r, table_eq_loop s b value_eq = Some r
            /\ (r = true <-> covered b value_eq (filter occupied s)).
Proof.
  intros Hok. unfold covered. induction s as [| e s (r & IH & Hr)]; cbn [table_eq_loop].
  { exists true. split; [reflexivity |]. cbn. intuition. }
  destruct (Z.eqb_spec (hash_code e) 0) as [H0 | H0].
  { rewrite filter_cons_False by (unfold occupied; intuition). eauto. }
  rewrite filter_cons_True by exact H0.
  destruct (find_result b (key_of e) Hok) as (fr & Hfind & Hlk). unfold key_of in Hfind.
  rewrite Hfind. destruct fr as [i |]; cbn in Hlk.
  - destruct (s_safe_eq_check value_eq _ _) eqn:Hv.
    + exists r. split; [exact IH |]. rewrite Hr, Forall_cons. split; [| tauto].
      intros Hs. split; [| exact Hs]. rewrite <- Hlk. eauto.
    + exists false. split; [reflexivity |]. split; [discriminate |].
      intros [(el & Hel & Hveq) _]%Forall_cons. rewrite <- Hlk in Hel. congruence.
  - exists false. split; [reflexivity |]. split; [discriminate |].
    intros [(el & Hel & _) _]%Forall_cons. congruence.
Qed.

(** Distinct keys are sent to distinct elements. *)
Lemma covering_nodup (b : hash_table_state) es (f : hash_table_entry -> aws_hash_element)
    {CB : KeyCallbacks (hash_fn b) (equals_fn b)} :
  distinct_keys (equals_fn b) es ->
  (forall e, e ∈ es -> lookup b (key_of e) = Some (f e)) -> NoDup (map f es).
Proof.
  induction es as [| e es IH]; cbn [map distinct_keys]; intros HD Hf; constructor.
  - intros Hin. apply list_elem_of_fmap in Hin as (e' & Heq & He').
    destruct HD as [HF _]. rewrite Forall_forall in HF. specialize (HF e' He').
    pose proof (Hf e (list_elem_of_here _ _)) as H1.
    pose proof (Hf e' (list_elem_of_further _ _ _ He')) as H2.
    apply lookup_entries_Some in H1 as (_ & _ & _ & Hk1).
    apply lookup_entries_Some in H2 as (_ & _ & _ & Hk2). rewrite <- Heq in Hk2.
    rewrite (safe_eq_sym (hash_fn b) _ (key_of e') _) in Hk2.
    pose proof (safe_eq_trans (hash_fn b) _ _ _ _ Hk1 Hk2). unfold key_of in *. congruence.
  - apply IH; [apply HD |]. intros e' He'. apply Hf. now apply list_elem_of_further.
Qed.

(** As many distinct covered keys as the table has elements: no element of
    the table is left out. *)
Lemma covering_all (b : hash_table_state) es q el
    {CB : KeyCallbacks (hash_fn b) (equals_fn b)} :
  distinct_keys (equals_fn b) es ->
  (forall e, e ∈ es -> is_Some (lookup b (key_of e))) ->
  zlength es = zlength (entries b) -> lookup b q = Some el ->
  exists e, e ∈ es /\ lookup b (key_of e) = Some el.
Proof.
  intros HD Hcov Hlen Hq. set (f := fun e => default el (lookup b (key_of e))).
  assert (forall e, e ∈ es -> lookup b (key_of e) = Some (f e)) as Hf.
  { intros e He. unfold f. now destruct (Hcov e He) as [x ->]. }
  assert (map f es ≡ₚ contents b) as HP.
  { apply Permutation.NoDup_Permutation_bis.
    - apply NoDup_ListNoDup. now apply (covering_nodup b).
    - unfold contents, zlength in *. rewrite !length_map. lia.
    - intros x Hx. apply list_elem_of_In, list_elem_of_fmap in Hx as (e & -> & He).
      apply Hf in He. apply lookup_entries_Some in He as (e' & He' & <- & _).
      apply list_elem_of_In, list_elem_of_fmap. eauto. }
  apply lookup_entries_Some in Hq as (e & He & <- & _).
  assert (element e ∈ map f es) as Hin by (rewrite HP; apply list_elem_of_fmap; eauto).
  apply list_elem_of_fmap in Hin as (e' & Heq & He'). exists e'. split; [exact He' |].
  rewrite Heq. now apply Hf.
Qed.

Lemma lookup_self st e {CB : KeyCallbacks (hash_fn st) (equals_fn st)} :
  table_ok st -> e ∈ entries st -> lookup st (key_of e) = Some (element e).
Proof.
  intros Hok He. apply (lookup_entries_elem (hash_fn st)); auto; [apply ok_distinct, Hok |].
  apply safe_eq_refl.
Qed.

(** A table whose keys all occur in another one is not larger. *)
Lemma covering_length a b {CB : KeyCallbacks (hash_fn b) (equals_fn b)} :
  table_ok a -> equals_fn a = equals_fn b ->
  (forall e, e ∈ entries a -> is_Some (lookup b (key_of e))) ->
  zlength (entries a) <= zlength (entries b).
Proof.
  intros Ha Heq Hcov. set (f := fun e => default (element e) (lookup b (key_of e))).
  assert (forall e, e ∈ entries a -> lookup b (key_of e) = Some (f e)) as Hf.
  { intros e He. unfold f. now destruct (Hcov e He) as [x ->]. }
  assert (length (map f (entries a)) <= length (contents b))%nat as H.
  { apply NoDup_incl_length.
    - apply NoDup_ListNoDup. refine (covering_nodup b _ f _ Hf). rewrite <- Heq. apply Ha.
    - intros x Hx. apply list_elem_of_In, list_elem_of_fmap in Hx as (e & -> & He).
      apply Hf in He. apply lookup_entries_Some in He as (e' & He' & <- & _).
      apply list_elem_of_In, list_elem_of_fmap. eauto. }
  unfold contents, zlength in *. rewrite !length_map in H. lia.
Qed.

(** The two maps have the same keys, and equal values at each. *)
Definition maps_agree (a b : hash_table_state) (value_eq : Z -> Z -> bool) : Prop :=
  forall k, match lookup a k, lookup b k with
            | Some x, Some y => s_safe_eq_check value_eq (value x) (value y) = true
            | None, None => True
            | _, _ => False
            end.

Section compare.
Context (a b : hash_table_state) (value_eq : Z -> Z -> bool).
Context {CB : KeyCallbacks (hash_fn b) (equals_fn b)}.
Hypothesis (Hhash : hash_fn a = hash_fn b) (Heq : equals_fn a = equals_fn b).
Hypothesis (Ha : table_ok a) (Hb : table_ok b).

#[local] Instance callbacks_a : KeyCallbacks (hash_fn a) (equals_fn a).
Proof. now rewrite Hhash, Heq. Qed.

Lemma covered_agree :
  zlength (entries a) = zlength (entries b) -> covered b value_eq (entries a) ->
  maps_agree a b value_eq.
Proof.
  intros Hlen Hcov q. unfold covered in Hcov. rewrite Forall_forall in Hcov.
  destruct (lookup a q) as [x |] eqn:Ea.
  - apply lookup_entries_Some in Ea as (e & He & <- & Hk). rewrite Heq in Hk.
    destruct (Hcov e He) as (el & Hel & Hv). unfold lookup, key_of in *.
    now rewrite (lookup_entries_eq_key (hash_fn b) _ _ _ _ Hk), Hel.
  - destruct (lookup b q) as [y |] eqn:Eb; [| exact I].
    destruct (covering_all b (entries a) q y) as (e & He & Hel); auto.
    { rewrite <- Heq. apply Ha. }
    { intros e He. destruct (Hcov e He) as (el & -> & _). eauto. }
    apply lookup_entries_Some in Eb as (_ & _ & _ & Hq).
    apply lookup_entries_Some in Hel as (_ & _ & _ & Hk).
    rewrite (safe_eq_sym (hash_fn b) (equals_fn b)) in Hk.
    pose proof (safe_eq_trans (hash_fn b) _ _ _ _ Hq Hk) as Hqe. rewrite <- Heq in Hqe.
    unfold lookup in Ea.
    rewrite (lookup_entries_eq_key (hash_fn a) _ _ _ _ Hqe) in Ea.
    pose proof (lookup_self a e Ha He). unfold lookup, key_of in *. congruence.
Qed.

Lemma agree_covered :
  maps_agree a b value_eq ->
  zlength (entries a) = zlength (entries b) /\ covered b value_eq (entries a).
Proof.
  intros H.
  assert (forall e, e ∈ entries a -> is_Some (lookup b (key_of e))) as Hab.
  { intros e He. specialize (H (key_of e)). rewrite (lookup_self a e Ha He) in H.
    destruct (lookup b (key_of e)); [eauto | done]. }
  assert (forall e, e ∈ entries b -> is_Some (lookup a (key_of e))) as Hba.
  { intros e He. specialize (H (key_of e)). rewrite (lookup_self b e Hb He) in H.
    destruct (lookup a (key_of e)); [eauto | done]. }
  split.
  - pose proof (covering_length a b Ha Heq Hab).
    pose proof (covering_length b a Hb (eq_sym Heq) Hba). lia.
  - apply Forall_forall. intros e He. specialize (H (key_of e)).
    rewrite (lookup_self a e Ha He) in H. destruct (lookup b (key_of e)); [eauto | done].
Qed.

Lemma eq_spec :
  exists r, aws_hash_table_eq a b value_eq = Some r /\ (r = true <-> maps_agree a b value_eq).
Proof.
  unfold aws_hash_table_eq, aws_hash_table_get_entry_count.
  rewrite (ok_count a Ha), (ok_count b Hb).
  destruct (Z.eqb_spec (zlength (entries a)) (zlength (entries b))) as [E | E]; cbn [negb].
  - destruct (table_eq_loop_spec b value_eq (slots a) Hb) as (r & Hr & Hiff).
    exists r. split; [exact Hr |]. rewrite Hiff. split.
    + now apply covered_agree.
    + apply agree_covered.
  - exists false. split; [reflexivity |]. split; [discriminate |].
    intros H. now apply agree_covered in H.
Qed.

End compare.

(** comparing two well-formed tables with the same callbacks terminates
    and answers true exactly when the two maps have the same keys and equal
    values, whatever their sizes and the order of insertion. *)
Theorem hash_table_eq_correct (a b : hash_table_state) (value_eq : Z -> Z -> bool)
    {CB : KeyCallbacks (hash_fn b) (equals_fn b)} :
  hash_fn a = hash_fn b -> equals_fn a = equals_fn b -> table_ok a -> table_ok b ->
  exists r, aws_hash_table_eq a b value_eq = Some r /\ (r = true <-> maps_agree a b value_eq).
Proof. intros. now apply eq_spec. Qed.

(** The demonstration table grown to eight slots. *)
Definition demo_table_8 : hash_table_state :=
  mk_state u64 aws_ptr_eq true true 8 2 (max_load_of 8) 7
    [empty_entry; mk_entry (mk_element 9 90) 9; empty_entry; empty_entry; empty_entry;
     mk_entry (mk_element 5 50) 5; empty_entry; empty_entry].

Lemma hash_table_eq_correct_witness : maps_agree demo_table demo_table_8 aws_ptr_eq.
Proof.
  assert (table_ok demo_table_8) as Hb by (apply (table_okb_sound 3); vm_compute; reflexivity).
  destruct (hash_table_eq_correct demo_table demo_table_8 aws_ptr_eq (CB := ptr_callbacks)
              eq_refl eq_refl demo_table_ok Hb) as (r & Hr & Hiff).
  vm_compute in Hr. injection Hr as <-. now apply Hiff.
Defined.

(** ** Histories of operations *)

Inductive table_op :=
| OpFind (k : Z)
| OpPut (k v : Z)
| OpRemove (k : Z) (has_p_value : bool)
| OpClear.

(** What the caller sees of a call. *)
Inductive table_obs :=
| ObsFind (elem : option aws_hash_element)
| ObsPut (rv : op_result) (was_created : bool) (events : list destroy_event)
| ObsRemove (p_value : option aws_hash_element) (was_present : bool) (events : list destroy_event)
| ObsClear (events : list destroy_event).

Definition table_exec (st : hash_table_state) (op : table_op)
    : option (table_obs * hash_table_state) :=
  match op with
  | OpFind k =>
      r ← aws_hash_table_find st k;
      Some (ObsFind ((fun i => element (slot_at (slots st) i)) <$> r), st)
  | OpPut k v =>
      '(rv, was_created, events, st') ← aws_hash_table_put st k v;
      Some (ObsPut rv was_created events, st')
  | OpRemove k has_p_value =>
      '(p_value, was_present, events, st') ← aws_hash_table_remove st k has_p_value;
      Some (ObsRemove p_value was_present events, st')
  | OpClear =>
      let '(events, st') := aws_hash_table_clear st in Some (ObsClear events, st')
  end.

Fixpoint table_run (st : hash_table_state) (ops : list table_op)
    : option (list table_obs * hash_table_state) :=
  match ops with
  | [] => Some ([], st)
  | op :: ops =>
      '(obs, st') ← table_exec st op;
      '(trace, st'') ← table_run st' ops;
      Some (obs :: trace, st'')
  end.

(** The abstract map: what each call may return and do. *)
Section abstract_map.
Context (keq : Z -> Z -> bool).

Definition amap := Z -> option aws_hash_element.

Inductive map_step : amap -> table_op -> table_obs -> amap -> Prop :=
| map_find m k m' :
    (forall q, m' q = m q) -> map_step m (OpFind k) (ObsFind (m k)) m'
| map_put m k v events m' :
    (forall q, m' q = if keq q k then Some (mk_element k v) else m q) ->
    map_step m (OpPut k v) (ObsPut AWS_OP_SUCCESS (bool_decide (m k = None)) events) m'
| map_put_no_room m k v e m' :
    m k = None -> e = AWS_ERROR_OVERFLOW_DETECTED ->
    (forall q, m' q = m q) ->
    map_step m (OpPut k v) (ObsPut (AWS_OP_ERR e) false []) m'
| map_remove m k has_p_value events m' :
    (forall q, m' q = if keq q k then None else m q) ->
    map_step m (OpRemove k has_p_value)
      (ObsRemove (if has_p_value then m k else None) (bool_decide (m k <> None)) events) m'
| map_clear m events m' :
    (forall q, m' q = None) -> map_step m OpClear (ObsClear events) m'.

Inductive map_trace : amap -> list table_op -> list table_obs -> amap -> Prop :=
| trace_nil m m' : (forall q, m' q = m q) -> map_trace m [] [] m'
| trace_cons m op obs m' ops trace m'' :
    map_step m op obs m' -> map_trace m' ops trace m'' ->
    map_trace m (op :: ops) (obs :: trace) m''.

(** Traces depend on the maps only pointwise. *)
#[export] Instance map_step_proper :
  Proper (pointwise_relation Z eq ==> eq ==> eq ==> eq ==> impl) map_step.
Proof.
  intros m1 m2 E op ? <- obs ? <- m' ? <- H. unfold pointwise_relation in E.
  destruct H as [m k m' H | m k v ev m' H | m k v e m' HN He H | m k hp ev m' H | m ev m' H];
    rewrite ?(E k); try rewrite (E k) in HN; constructor; auto; intros q; rewrite H; try apply E.
  - destruct (keq q k); [reflexivity | apply E].
  - destruct (keq q k); [reflexivity | apply E].
Qed.

#[export] Instance map_trace_proper :
  Proper (pointwise_relation Z eq ==> eq ==> eq ==> eq ==> impl) map_trace.
Proof.
  intros m1 m2 E ops ? <- trace ? <- m' ? <- H. unfold pointwise_relation in E.
  destruct H as [m m' Hm | m op obs m' ops trace m'' Hs Ht].
  - constructor. intros q. now rewrite Hm.
  - econstructor; [| exact Ht].
    exact (map_step_proper m m2 E op op eq_refl obs obs eq_refl m' m' eq_refl Hs).
Qed.

End abstract_map.

(** Values a call hands to the table, and values it hands out. *)
Definition values_in (op : table_op) (obs : table_obs) : list Z :=
  match op, obs with
  | OpPut _ v, ObsPut AWS_OP_SUCCESS _ _ => [v]
  | _, _ => []
  end.

Definition destroyed_values (events : list destroy_event) : list Z :=
  omap (fun e => match e with DestroyValue v => Some v | DestroyKey _ => None end) events.

Definition values_out (obs : table_obs) : list Z :=
  match obs with
  | ObsFind _ => []
  | ObsPut _ _ events => destroyed_values events
  | ObsRemove p_value _ events => map value (option_list p_value) ++ destroyed_values events
  | ObsClear events => destroyed_values events
  end.

Definition owned_values (st : hash_table_state) : list Z := map value (contents st).

Lemma destroyed_remove_events st el :
  destroy_value_fn st = true -> destroyed_values (remove_events st el) = [value el].
Proof. intros H. unfold remove_events. rewrite H. now destruct (destroy_key_fn st). Qed.

Lemma destroyed_clear st els :
  destroy_value_fn st = true ->
  destroyed_values (concat (map (remove_events st) els)) = map value els.
Proof.
  intros H. unfold destroyed_values. induction els as [| el els IH]; [reflexivity |].
  cbn [map concat]. rewrite omap_app, IH. fold (destroyed_values (remove_events st el)).
  now rewrite (destroyed_remove_events st el H).
Qed.

Lemma destroyed_overwrite st k old :
  destroy_value_fn st = true ->
  destroyed_values (overwrite_events st k old) = map value (option_list old).
Proof.
  intros H. destruct old as [el |]; [| reflexivity]. cbn [overwrite_events option_list map].
  rewrite H. now destruct (negb _ && _).
Qed.

(** One step of the simulation. *)
Definition step_ok (st : hash_table_state) (op : table_op) (obs : table_obs)
    (st' : hash_table_state) : Prop :=
  table_ok st' /\ same_callbacks st st'
  /\ map_step (s_safe_eq_check (equals_fn st)) (lookup st) op obs (lookup st')
  /\ (destroy_value_fn st = true ->
      values_out obs ++ owned_values st' ≡ₚ values_in op obs ++ owned_values st).

Section history.
Context (st : hash_table_state) {CB : KeyCallbacks (hash_fn st) (equals_fn st)}.
Hypothesis (Hok : table_ok st).

Lemma exec_find k : exists obs st', table_exec st (OpFind k) = Some (obs, st')
                                    /\ step_ok st (OpFind k) obs st'.
Proof.
  destruct (find_result st k Hok) as (r & Hr & Hlk). cbn [table_exec]. rewrite Hr.
  eexists _, _. split; [reflexivity |]. rewrite Hlk. unfold step_ok.
  split_and!; auto with aws. now constructor.
Qed.

Lemma exec_put k v : exists obs st', table_exec st (OpPut k v) = Some (obs, st')
                                     /\ step_ok st (OpPut k v) obs st'.
Proof.
  destruct (put_spec st k v Hok) as (rv & wc & ev & st' & Heq & HP). cbn [table_exec].
  rewrite Heq. eexists _, _. split; [reflexivity |]. unfold step_ok. destruct rv; cbn in HP.
  - destruct HP as (Hok' & Hcb & HL & -> & _ & -> & HC). split_and!; auto.
    + now constructor.
    + intros Hd. cbn [values_in values_out]. rewrite destroyed_overwrite by exact Hd.
      apply (Permutation_map value) in HC. rewrite map_app in HC. exact HC.
  - destruct HP as (-> & HN & -> & -> & He & _). split_and!; auto with aws. now constructor.
Qed.

Lemma exec_remove k hp : exists obs st', table_exec st (OpRemove k hp) = Some (obs, st')
                                         /\ step_ok st (OpRemove k hp) obs st'.
Proof.
  destruct (remove_spec st k hp Hok) as (pv & wp & ev & st' & Heq & Hok' & Hcb & HL & HC & HR).
  cbn [table_exec]. rewrite Heq. eexists _, _. split; [reflexivity |]. unfold step_ok.
  assert (pv = (if hp then lookup st k else None) /\ wp = bool_decide (lookup st k <> None))
    as [-> ->].
  { destruct (lookup st k); destruct HR as (-> & HR); [destruct HR as (_ & -> & _) |
      destruct HR as (_ & -> & _); destruct hp]; split; reflexivity. }
  split_and!; auto; [now constructor |].
  intros Hd. apply (Permutation_map value) in HC. rewrite map_app in HC.
  cbn [values_in values_out app]. rewrite <- HC. unfold owned_values.
  destruct (lookup st k) as [el |] eqn:E.
  - destruct HR as (_ & _ & _ & ->). destruct hp; [reflexivity |].
    now rewrite destroyed_remove_events by exact Hd.
  - destruct HR as (_ & _ & _ & ->). now destruct hp.
Qed.

Lemma exec_clear : exists obs st', table_exec st OpClear = Some (obs, st')
                                   /\ step_ok st OpClear obs st'.
Proof.
  destruct (clear_spec st Hok) as (Hok' & Hcb & HC & _ & _ & HL & HE). cbn [table_exec].
  destruct (aws_hash_table_clear st) as [ev st']. cbn [fst snd] in *.
  eexists _, _. split; [reflexivity |]. split_and!; auto; [now constructor |].
  intros Hd. cbn [values_in values_out app]. unfold owned_values. rewrite HC, HE, app_nil_r.
  now rewrite destroyed_clear by exact Hd.
Qed.

Lemma exec_ok op : exists obs st', table_exec st op = Some (obs, st') /\ step_ok st op obs st'.
Proof.
  destruct op; [apply exec_find | apply exec_put | apply exec_remove | apply exec_clear].
Qed.

End history.

Lemma run_ok ops : forall st {CB : KeyCallbacks (hash_fn st) (equals_fn st)},
  table_ok st ->
  exists trace st', table_run st ops = Some (trace, st') /\ table_ok st'
    /\ map_trace (s_safe_eq_check (equals_fn st)) (lookup st) ops trace (lookup st')
    /\ (destroy_value_fn st = true ->
        concat (map values_out trace) ++ owned_values st'
        ≡ₚ concat (zip_with values_in ops trace) ++ owned_values st).
Proof.
  induction ops as [| op ops IH]; intros st CB Hok; cbn [table_run].
  { exists [], st. split_and!; auto. now constructor. }
  destruct (exec_ok st Hok op) as (obs & st1 & Heq & Hok1 & Hcb & Hstep & Hval). rewrite Heq.
  destruct (IH st1 (same_callbacks_class _ _ Hcb CB) Hok1)
    as (trace & st2 & Hrun & Hok2 & Htr & Hval2).
  cbn [mbind option_bind]. rewrite Hrun. cbn [mbind option_bind].
  exists (obs :: trace), st2. split_and!; auto.
  - econstructor; [exact Hstep |]. now rewrite <- (same_eq _ _ Hcb).
  - intros Hd. cbn [map concat zip_with]. rewrite <- !app_assoc.
    rewrite Hval2 by now rewrite (same_dv _ _ Hcb).
    rewrite !(Permutation_app_swap_app (values_out obs)), (Hval Hd).
    apply Permutation_app_swap_app.
Qed.

Lemma init_empty st : entries st = [] -> pointwise_relation Z eq (lookup st) (fun _ => None).
Proof. intros H q. unfold lookup. now rewrite H. Qed.

(** C1: refinement. From an initialised table every finite history of finds,
    puts, removes and clears runs to its end, keeps the table well formed,
    and is a history of the abstract partial map from the empty map: each
    answer is one the map gives. *)
Theorem hash_table_refines_map sz hash eq dk dv st ops
    {CB : KeyCallbacks hash eq} :
  0 <= sz <= 2 ^ 63 -> aws_hash_table_init sz hash eq dk dv = Ok st ->
  exists trace st', table_run st ops = Some (trace, st') /\ table_ok st'
    /\ map_trace (s_safe_eq_check eq) (fun _ => None) ops trace (lookup st').
Proof.
  intros Hsz Hinit. destruct (init_spec sz hash eq dk dv Hsz)
    as [(e & He & _) | (st0 & k & He & Hok & _ & Hent & Hh & Heq & _)]; [congruence |].
  assert (st0 = st) as -> by congruence. subst hash eq.
  destruct (run_ok ops st Hok) as (trace & st' & Hrun & Hok' & Htr & _).
  exists trace, st'. split_and!; auto. rewrite (init_empty st Hent) in Htr. exact Htr.
Qed.

(** A small table with its callbacks and destructors. *)
Definition demo_init : hash_table_state :=
  mk_state u64 aws_ptr_eq true true 2 0 1 1 [empty_entry; empty_entry].

Lemma hash_table_refines_map_witness :
  aws_hash_table_init 0 u64 aws_ptr_eq true true = Ok demo_init
  /\ fst <$> table_run demo_init [OpPut 5 50; OpPut 9 90; OpFind 9; OpRemove 5 true; OpFind 5]
     = Some [ObsPut AWS_OP_SUCCESS true []; ObsPut AWS_OP_SUCCESS true [];
             ObsFind (Some (mk_element 9 90)); ObsRemove (Some (mk_element 5 50)) true [];
             ObsFind None].
Proof.
  assert (aws_hash_table_init 0 u64 aws_ptr_eq true true = Ok demo_init) as Hi
    by reflexivity.
  split; [exact Hi |]. assert (0 <= 0 <= 2 ^ 63) as Hsz by lia.
  destruct (hash_table_refines_map _ _ _ _ _ _
    [OpPut 5 50; OpPut 9 90; OpFind 9; OpRemove 5 true; OpFind 5] (CB := ptr_callbacks) Hsz Hi)
    as (trace & st' & Hrun & _ & Htr).
  vm_compute. reflexivity.
Defined.

(** C38: ownership. When the table has a value destructor, at the end of any
    history from an initialised table the values handed to it are exactly
    those it still holds, those returned to the caller and those destroyed:
    no value leaks, none is destroyed twice. *)
Theorem hash_table_values_conserved sz hash eq dk st ops
    {CB : KeyCallbacks hash eq} :
  0 <= sz <= 2 ^ 63 -> aws_hash_table_init sz hash eq dk true = Ok st ->
  exists trace st', table_run st ops = Some (trace, st')
    /\ concat (map values_out trace) ++ owned_values st'
       ≡ₚ concat (zip_with values_in ops trace).
Proof.
  intros Hsz Hinit. destruct (init_spec sz hash eq dk true Hsz)
    as [(e & He & _) | (st0 & k & He & Hok & _ & Hent & Hh & Heq & _ & Hd & _)]; [congruence |].
  assert (st0 = st) as -> by congruence. subst hash eq.
  destruct (run_ok ops st Hok) as (trace & st' & Hrun & _ & _ & HP).
  exists trace, st'. split; [exact Hrun |]. rewrite (HP Hd). unfold owned_values, contents.
  now rewrite Hent, app_nil_r.
Qed.

Lemma hash_table_values_conserved_witness :
  exists trace st', table_run demo_init [OpPut 5 50; OpPut 5 51; OpRemove 5 false; OpPut 7 70]
                    = Some (trace, st')
    /\ concat (map values_out trace) ++ owned_values st' ≡ₚ [50; 51; 70].
Proof.
  assert (0 <= 0 <= 2 ^ 63) as Hsz by lia.
  destruct (hash_table_values_conserved 0 u64 aws_ptr_eq true demo_init
    [OpPut 5 50; OpPut 5 51; OpRemove 5 false; OpPut 7 70] (CB := ptr_callbacks) Hsz eq_refl)
    as (trace & st' & Hrun & HP).
  exists trace, st'. split; [exact Hrun |]. rewrite HP.
  assert (fst <$> table_run demo_init [OpPut 5 50; OpPut 5 51; OpRemove 5 false; OpPut 7 70]
          = Some [ObsPut AWS_OP_SUCCESS true []; ObsPut AWS_OP_SUCCESS false [DestroyValue 50];
                  ObsRemove None true [DestroyKey 5; DestroyValue 51];
                  ObsPut AWS_OP_SUCCESS true []]) as E by (vm_compute; reflexivity).
  rewrite Hrun in E. injection E as ->. reflexivity.
Defined.
