(* ===== verification/HashTableIter.v ===== *)
(** * The hash table: iteration and deletion while iterating

    [aws_hash_table_foreach] visits the elements in slot order; a callback may
    ask for the visited element to be deleted, which shifts later entries back
    and may wrap an entry already visited to the end of the window. The
    theorem says that the traversal is exactly the fold of the callback over
    the entries the table had at the start. *)

From S2P Require Import Prelude Math HashTable HashTableRing HashTableInv.
From S2P Require Import HashTableOps HashTableSpec.
Import HashTable.

Local Open Scope Z_scope.

(** The occupied slots of the window [[i, limit)]. *)
Definition to_visit (s : list hash_table_entry) (i limit : Z) : list hash_table_entry :=
  filter occupied (map (slot_at s) (seqZ i (limit - i))).

Lemma to_visit_nil s i limit : limit <= i -> to_visit s i limit = [].
Proof. intros H. unfold to_visit. now rewrite seqZ_nil by lia. Qed.

Lemma to_visit_cons s i limit :
  i < limit ->
  to_visit s i limit
  = if decide (occupied (slot_at s i)) then slot_at s i :: to_visit s (i + 1) limit
    else to_visit s (i + 1) limit.
Proof.
  intros H. unfold to_visit. rewrite seqZ_cons by lia. cbn [map].
  replace (Z.pred (limit - i)) with (limit - (i + 1)) by lia. rewrite Z.add_1_r.
  rewrite filter_cons. reflexivity.
Qed.

Lemma to_visit_split s i m limit :
  i <= m <= limit -> to_visit s i limit = to_visit s i m ++ to_visit s m limit.
Proof.
  intros H. unfold to_visit. replace (limit - i) with ((m - i) + (limit - m)) by lia.
  rewrite seqZ_app by lia. rewrite map_app, filter_app.
  now replace (i + (m - i)) with m by lia.
Qed.

(** Windows that hold the same entries, possibly shifted by [d]. *)
Lemma to_visit_shift s s' d i limit :
  (forall z, i <= z < limit -> slot_at s' z = slot_at s (z + d)) ->
  to_visit s' i limit = to_visit s (i + d) (limit + d).
Proof.
  intros H. unfold to_visit. f_equal.
  replace (limit + d - (i + d)) with (limit - i) by lia.
  rewrite (Z.add_comm i d), <- fmap_add_seqZ. change (@fmap list _) with (@map).
  rewrite map_map. apply map_ext_in. intros z Hz.
  apply list_elem_of_In, elem_of_seqZ in Hz. rewrite H by lia. f_equal. lia.
Qed.

Lemma slots_as_map (s : list hash_table_entry) : map (slot_at s) (seqZ 0 (zlength s)) = s.
Proof.
  apply list_eq. intros i. unfold zlength. change (map ?f ?l) with (f <$> l).
  rewrite list_lookup_fmap. destruct (s !! i) as [e |] eqn:E.
  - pose proof (lookup_lt_Some _ _ _ E). rewrite lookup_seqZ_lt by lia. cbn.
    unfold slot_at. replace (Z.to_nat (0 + Z.of_nat i)) with i by lia. now rewrite E.
  - apply lookup_ge_None in E. rewrite lookup_seqZ_ge by lia. reflexivity.
Qed.

Lemma entries_to_visit k st : ring_ok k st -> entries st = to_visit (slots st) 0 (2 ^ k).
Proof.
  intros Hring. unfold entries, to_visit. rewrite Z.sub_0_r, <- (ring_length _ _ Hring).
  now rewrite slots_as_map.
Qed.

(** The scan stops at the first occupied slot of the window. *)
Lemma next_filled_spec fuel s : forall i limit,
  (Z.to_nat (limit - i) <= fuel)%nat ->
  match next_filled fuel s i limit with
  | Some j => i <= j < limit /\ occupied (slot_at s j)
              /\ to_visit s i limit = slot_at s j :: to_visit s (j + 1) limit
  | None => to_visit s i limit = []
  end.
Proof.
  induction fuel as [| fuel IH]; intros i limit Hf; cbn [next_filled].
  { apply to_visit_nil. lia. }
  destruct (Z.ltb_spec i limit) as [Hi | Hi]; [| now apply to_visit_nil].
  rewrite (to_visit_cons s i limit Hi).
  destruct (Z.eqb_spec (hash_code (slot_at s i)) 0) as [E | E].
  - rewrite decide_False by (unfold occupied; lia).
    specialize (IH (i + 1) limit ltac:(lia)). destruct (next_filled fuel s (i + 1) limit); [| auto].
    destruct IH as (H1 & H2 & H3). split_and!; auto; lia.
  - rewrite decide_True by exact E. split_and!; auto; lia.
Qed.

(** Deleting the entry under the iterator leaves exactly the rest of the
    window to visit, the limit adjusted when a visited entry moved into it. *)
Lemma delete_window k s s' i y limit :
  1 <= k <= 63 -> 0 <= i < limit -> limit <= 2 ^ k -> i <= y < i + 2 ^ k - 1 ->
  shifted_back k s s' i y ->
  to_visit s' i (if (y mod 2 ^ k <? i) || (limit <=? y mod 2 ^ k) then limit - 1 else limit)
  = to_visit s (i + 1) limit.
Proof.
  intros Hk Hi Hl Hy (Hsh & Hemp & Hfr & _).
  assert (forall z, 0 <= z < 2 ^ k -> forall t, at_pos k t z = slot_at t z) as Hat
    by (intros z Hz t; unfold at_pos; now rewrite Z.mod_small by lia).
  assert (((y mod 2 ^ k <? i) || (limit <=? y mod 2 ^ k)) = (limit <=? y)) as ->.
  { destruct (Z.lt_ge_cases y (2 ^ k)).
    - rewrite (Z.mod_small y) by lia. zcase; reflexivity.
    - replace (y mod 2 ^ k) with (y - 2 ^ k); [zcase; reflexivity |].
      apply (Z.mod_unique y (2 ^ k) 1); lia. }
  destruct (Z.leb_spec limit y) as [Hc | Hc].
  - rewrite (to_visit_shift s s' 1 i (limit - 1)); [f_equal; lia |].
    intros z Hz. rewrite <- !Hat by lia. apply Hsh. lia.
  - rewrite (to_visit_split s' i y limit), (to_visit_cons s' y limit) by lia.
    rewrite decide_False by (rewrite <- Hat, Hemp by lia; unfold occupied; cbn; lia).
    rewrite (to_visit_shift s s' 1 i y)
      by (intros z Hz; rewrite <- !Hat by lia; apply Hsh; lia).
    rewrite (to_visit_shift s s' 0 (y + 1) limit), !Z.add_0_r.
    + symmetry. apply to_visit_split. lia.
    + intros z Hz. rewrite Z.add_0_r, <- !Hat by lia. apply Hfr. intros q Hq.
      rewrite !Z.mod_small by lia. lia.
Qed.

Section foreach.
Context {C : Type} (callback : C -> aws_hash_element -> Z * aws_common_error * C).

(** The specification: the callback folded over a list of entries; the
    status, the entries it asked to delete, and the final context. *)
Fixpoint visit (es : list hash_table_entry) (ctx : C)
    : op_result * list hash_table_entry * C :=
  match es with
  | [] => (AWS_OP_SUCCESS, [], ctx)
  | e :: es =>
      let '(rv, last_error, ctx) := callback ctx (element e) in
      if flag rv AWS_COMMON_HASH_TABLE_ITER_ERROR then
        (AWS_OP_ERR (if decide (last_error = AWS_ERROR_SUCCESS) then AWS_ERROR_UNKNOWN
                     else last_error), [], ctx)
      else
        let deleted := if flag rv AWS_COMMON_HASH_TABLE_ITER_DELETE then [e] else [] in
        if flag rv AWS_COMMON_HASH_TABLE_ITER_CONTINUE then
          let '(r, ds, ctx) := visit es ctx in (r, deleted ++ ds, ctx)
        else (AWS_OP_SUCCESS, deleted, ctx)
  end.

Definition is_deleted (st : hash_table_state) (ds : list hash_table_entry) (q : Z) : bool :=
  existsb (fun e => s_hash_keys_eq st q (key_of e)) ds.

(** From [st] to [st'] exactly the entries [ds] left the table. *)
Definition deleted_from (st : hash_table_state) (ds : list hash_table_entry)
    (st' : hash_table_state) : Prop :=
  table_ok st' /\ same_callbacks st st' /\ ds ++ entries st' ≡ₚ entries st
  /\ forall q, lookup st' q = if is_deleted st ds q then None else lookup st q.

Lemma deleted_none st : table_ok st -> deleted_from st [] st.
Proof. intros Hok. split_and!; auto with aws. Qed.

Lemma deleted_trans st ds1 st1 ds2 st2 :
  deleted_from st ds1 st1 -> deleted_from st1 ds2 st2 -> deleted_from st (ds1 ++ ds2) st2.
Proof.
  intros (_ & Hcb1 & HP1 & HL1) (Hok2 & Hcb2 & HP2 & HL2). split_and!; auto.
  - destruct Hcb1, Hcb2. constructor; congruence.
  - now rewrite <- app_assoc, HP2.
  - intros q. rewrite HL2, HL1. unfold is_deleted, s_hash_keys_eq.
    rewrite existsb_app, (same_eq _ _ Hcb1).
    destruct (existsb _ ds1), (existsb _ ds2); reflexivity.
Qed.

Lemma next_element_spec st it start :
  start <= iter_limit it ->
  let it' := s_get_next_element st it start in
  iter_limit it' = iter_limit it /\
  ((aws_hash_iter_done it' = true /\ to_visit (slots st) start (iter_limit it) = [])
   \/ (aws_hash_iter_done it' = false /\ start <= iter_slot it' < iter_limit it
       /\ occupied (slot_at (slots st) (iter_slot it'))
       /\ iter_element it' = element (slot_at (slots st) (iter_slot it'))
       /\ to_visit (slots st) start (iter_limit it)
          = slot_at (slots st) (iter_slot it')
              :: to_visit (slots st) (iter_slot it' + 1) (iter_limit it))).
Proof.
  intros Hs. unfold s_get_next_element, aws_hash_iter_done.
  pose proof (next_filled_spec _ (slots st) start (iter_limit it) (le_n _)) as H.
  destruct (next_filled _ _ _ _) as [j |]; cbn.
  - destruct H as (Hj & Ho & Htv). split; [reflexivity |]. right. split_and!; auto; lia.
  - split; [reflexivity |]. left. split; [apply Z.eqb_refl | exact H].
Qed.

(** One deletion through the iterator. *)
Lemma iter_delete_spec k st it destroy_contents {CB : KeyCallbacks (hash_fn st) (equals_fn st)} :
  ring_ok k st -> table_ok st -> 0 <= iter_slot it < iter_limit it -> iter_limit it <= 2 ^ k ->
  occupied (slot_at (slots st) (iter_slot it)) ->
  exists events st' it', aws_hash_iter_delete st it destroy_contents = Some (events, st', it')
    /\ ring_ok k st' /\ deleted_from st [slot_at (slots st) (iter_slot it)] st'
    /\ events = (if destroy_contents then remove_events st (iter_element it) else [])
    /\ u64 (iter_slot it' + 1) = iter_slot it /\ iter_slot it <= iter_limit it' <= iter_limit it
    /\ to_visit (slots st') (iter_slot it) (iter_limit it')
       = to_visit (slots st) (iter_slot it + 1) (iter_limit it).
Proof.
  intros Hring Hok Hi Hl Ho. pose proof (ring_k _ _ Hring) as Hk.
  pose proof (ring_size_pos k Hk). pose proof (ring_size_u64 k Hk).
  destruct (remove_slot_spec k st (iter_slot it) Hring Hok ltac:(lia) Ho)
    as (st' & y & Heq & Hy & Hring' & Hok' & Hcb & _ & HP & Hsh & _ & HL).
  unfold aws_hash_iter_delete. rewrite Heq. eexists _, st', _. split; [reflexivity |].
  pose proof (delete_window k _ _ _ _ _ Hk Hi Hl Hy Hsh) as Hw. cbn [iter_slot iter_limit].
  rewrite (u64_small (iter_limit it - 1)) by (unfold is_u64; lia).
  split_and!; auto.
  - split_and!; auto. intros q. rewrite HL. cbn. now rewrite orb_false_r.
  - unfold u64. rewrite Zplus_mod_idemp_l. rewrite Z.sub_add. apply Z.mod_small. lia.
  - destruct (_ || _); lia.
  - destruct (_ || _); lia.
Qed.

Lemma foreach_loop_spec k fuel : forall st it start ctx
    {CB : KeyCallbacks (hash_fn st) (equals_fn st)},
  ring_ok k st -> table_ok st -> 0 <= start <= iter_limit it -> iter_limit it <= 2 ^ k ->
  (length (to_visit (slots st) start (iter_limit it)) <= fuel)%nat ->
  let '(r, ds, ctx') := visit (to_visit (slots st) start (iter_limit it)) ctx in
  exists st', foreach_loop callback fuel st (s_get_next_element st it start) ctx
              = Some (r, st', ctx')
    /\ deleted_from st ds st'.
Proof.
  induction fuel as [| fuel IH]; intros st it start ctx CB Hring Hok Hs Hl Hf;
    (destruct (next_element_spec st it start ltac:(lia))
       as (Hlim & [(Hd & Hn) | (Hd & Hi & Ho & He & Hn)]);
     set (it' := s_get_next_element st it start) in *; cbn [foreach_loop]; rewrite Hd, Hn in *;
     [eexists; split; [reflexivity | now apply deleted_none] |]); [cbn in Hf; lia |].
  cbn [visit length] in *. rewrite He. destruct (callback ctx _) as [[rv err] ctx1].
  destruct (flag rv AWS_COMMON_HASH_TABLE_ITER_ERROR).
  { eexists. split; [reflexivity | now apply deleted_none]. }
  pose proof (ring_size_u64 k (ring_k _ _ Hring)). rewrite <- Hlim in *.
  destruct (flag rv AWS_COMMON_HASH_TABLE_ITER_DELETE).
  - destruct (iter_delete_spec k st it' false Hring Hok ltac:(lia) Hl Ho)
      as (ev & st1 & it1 & -> & Hring1 & Hdel & _ & Hu & Hle & Htv).
    destruct (flag rv AWS_COMMON_HASH_TABLE_ITER_CONTINUE).
    + pose proof Hdel as (Hok1 & Hcb & _).
      specialize (IH st1 it1 (iter_slot it') ctx1 (same_callbacks_class _ _ Hcb CB) Hring1 Hok1
        ltac:(lia) ltac:(lia)). rewrite Htv in IH. specialize (IH ltac:(lia)).
      destruct (visit _ _) as [[r ds] ctx2]. destruct IH as (st' & Heq & Hdel').
      exists st'. unfold aws_hash_iter_next. rewrite Hu. split; [exact Heq |].
      now apply (deleted_trans st _ st1).
    + exists st1. split; [reflexivity | exact Hdel].
  - destruct (flag rv AWS_COMMON_HASH_TABLE_ITER_CONTINUE).
    + unfold aws_hash_iter_next. rewrite u64_small by (unfold is_u64; lia).
      specialize (IH st it' (iter_slot it' + 1) ctx1 CB Hring Hok ltac:(lia) Hl ltac:(lia)).
      destruct (visit _ _) as [[r ds] ctx2]. exact IH.
    + eexists. split; [reflexivity | now apply deleted_none].
Qed.

End foreach.

(** A traversal is the fold of the callback over the entries. *)
Lemma foreach_visits {C : Type}
    (callback : C -> aws_hash_element -> Z * aws_common_error * C)
    (st : hash_table_state) (ctx : C) {CB : KeyCallbacks (hash_fn st) (equals_fn st)} :
  table_ok st ->
  let '(r, ds, ctx') := visit callback (entries st) ctx in
  exists st', aws_hash_table_foreach callback st ctx = Some (r, st', ctx')
    /\ deleted_from st ds st'.
Proof.
  intros Hok. destruct (ok_ring st Hok) as [k Hring].
  pose proof (ring_size_pos k (ring_k _ _ Hring)).
  rewrite (entries_to_visit k st Hring). unfold aws_hash_table_foreach, aws_hash_iter_begin.
  rewrite (ring_size _ _ Hring).
  apply (foreach_loop_spec callback k _ st (mk_iter (mk_element 0 0) 0 (2 ^ k) _) 0 ctx);
    auto; cbn [iter_limit]; try lia.
  rewrite <- entries_to_visit by exact Hring. pose proof (table_room k st Hring Hok).
  pose proof (ok_count st Hok). unfold zlength in *. lia.
Qed.

(** A callback that deletes nothing leaves the table alone; one that always continues
    visits everything. *)
Lemma foreach_loop_keeps {C} (callback : C -> aws_hash_element -> Z * aws_common_error * C) fuel : forall st it ctx r st' ctx',
  (forall c el, flag (callback c el).1.1 AWS_COMMON_HASH_TABLE_ITER_DELETE = false) ->
  foreach_loop callback fuel st it ctx = Some (r, st', ctx') -> st' = st.
Proof.
  induction fuel as [| fuel IH]; intros st it ctx r st' ctx' Hd E; cbn [foreach_loop] in E; destruct (aws_hash_iter_done it); try congruence. specialize (Hd ctx (iter_element it)) as Hc.
  destruct (callback ctx (iter_element it)) as [[rv err] c1]. cbn in Hc. destruct (flag rv AWS_COMMON_HASH_TABLE_ITER_ERROR); [congruence |]. rewrite Hc in E.
  destruct (flag rv AWS_COMMON_HASH_TABLE_ITER_CONTINUE); [exact (IH _ _ _ _ _ _ Hd E) | congruence].
Qed.

Lemma visit_continues {C} (f : C -> aws_hash_element -> C) es : forall ctx,
  visit (fun c el => (AWS_COMMON_HASH_TABLE_ITER_CONTINUE, AWS_ERROR_SUCCESS, f c el)) es ctx = (AWS_OP_SUCCESS, [], foldl (fun c e => f c (element e)) ctx es).
Proof. induction es as [| e es IH]; intros ctx; cbn [visit foldl]; [reflexivity |]. cbn. now rewrite IH. Qed.

Lemma foreach_continues {C} (f : C -> aws_hash_element -> C) (st : hash_table_state) (ctx : C) {CB : KeyCallbacks (hash_fn st) (equals_fn st)} :
  table_ok st -> aws_hash_table_foreach (fun c el => (AWS_COMMON_HASH_TABLE_ITER_CONTINUE, AWS_ERROR_SUCCESS, f c el)) st ctx
    = Some (AWS_OP_SUCCESS, st, foldl f ctx (map element (entries st))).
Proof.
  intros Hok. pose proof (foreach_visits (fun c el => (AWS_COMMON_HASH_TABLE_ITER_CONTINUE, AWS_ERROR_SUCCESS, f c el)) st ctx Hok) as H. rewrite visit_continues in H. destruct H as (st' & E & _).
  pose proof E as Ek. apply foreach_loop_keeps in Ek; [| reflexivity]. subst st'. rewrite E. do 2 f_equal. clear. revert ctx. induction (entries st) as [| e es IH]; intros ctx; cbn; [reflexivity | apply IH].
Qed.

(** C37: [aws_hash_table_foreach] on a well-formed table terminates and is the
    fold of the callback over the entries in slot order: each entry of the
    table at the start is visited exactly once unless the callback stops, the
    entries it flags are deleted and no others, the status is the callback's,
    and the table is well formed afterwards. *)
Theorem hash_table_foreach_correct {C : Type}
    (callback : C -> aws_hash_element -> Z * aws_common_error * C)
    (st : hash_table_state) (ctx : C) {CB : KeyCallbacks (hash_fn st) (equals_fn st)} :
  table_ok st ->
  let '(r, ds, ctx') := visit callback (entries st) ctx in
  exists st', aws_hash_table_foreach callback st ctx = Some (r, st', ctx')
    /\ deleted_from st ds st'.
Proof. exact (foreach_visits callback st ctx). Qed.

(** The callback that collects every element and deletes those of even value. *)
Definition collect_delete_even (seen : list Z) (el : aws_hash_element)
    : Z * aws_common_error * list Z :=
  (if Z.even (value el) then 3 else 1, AWS_ERROR_SUCCESS, seen ++ [value el]).

(** A table in which deleting wraps: all entries have home slot 3. *)
Definition wrap_table : hash_table_state :=
  mk_state u64 aws_ptr_eq true true 4 3 (max_load_of 4) 3
    [mk_entry (mk_element 7 71) 7; mk_entry (mk_element 11 72) 11; empty_entry;
     mk_entry (mk_element 3 70) 3].

Lemma wrap_table_ok : table_ok wrap_table.
Proof. apply (table_okb_sound 2). vm_compute. reflexivity. Qed.

Lemma hash_table_foreach_correct_witness :
  exists st', aws_hash_table_foreach collect_delete_even wrap_table []
              = Some (AWS_OP_SUCCESS, st', [71; 72; 70])
    /\ deleted_from wrap_table
         [mk_entry (mk_element 11 72) 11; mk_entry (mk_element 3 70) 3] st'.
Proof.
  exact (hash_table_foreach_correct collect_delete_even wrap_table [] (CB := ptr_callbacks)
           wrap_table_ok).
Defined.
