(* ===== verification/LinkedHashTable.v ===== *)
(** * The linked hash table and the caches: definitions

    [source/linked_hash_table.c], and on top of it [source/cache.c],
    [source/lru_cache.c], [source/fifo_cache.c] and [source/lifo_cache.c].

    The values of the underlying hash table are the addresses of nodes; a node
    embeds its links as first field, so both have the same address. The world
    of a computation is the links of all nodes and sentinels, the other fields
    of the table's nodes, and the calls of the user's destructors so far. The
    address of a table is that of its first sentinel, which it embeds. A
    computation fails ([None]) when it goes through a pointer that leads
    nowhere, or releases memory twice. *)

From S2P Require Import Prelude HashTable LinkedList.
Import HashTable LinkedList.

Local Open Scope Z_scope.

Module LinkedHashTable.

(** The fields after [node]; [node_table] is NULL in zeroed memory. *)
Record aws_linked_hash_table_node := mk_table_node {
  node_table : option positive;
  node_key : Z;
  node_value : Z
}.

Record aws_linked_hash_table := mk_table {
  table_list : aws_linked_list;
  table : hash_table_state;
  user_on_value_destroy : bool
}.

Definition with_table (t : aws_linked_hash_table) (st : hash_table_state) : aws_linked_hash_table :=
  mk_table (table_list t) st (user_on_value_destroy t).

Record world := mk_world {
  node_links : gmap positive aws_linked_list_node;
  table_nodes : gmap positive aws_linked_hash_table_node;
  called : list destroy_event
}.

Definition W (A : Type) : Type := world -> option (A * world).

#[export] Instance W_ret : MRet W := fun A a w => Some (a, w).
#[export] Instance W_bind : MBind W := fun A B f e w =>
  match e w with Some (a, w') => f a w' | None => None end.

Definition on_links {A} (e : L A) : W A := fun w =>
  match e (node_links w) with
  | Some (a, h) => Some (a, mk_world h (table_nodes w) (called w))
  | None => None
  end.

Definition result_of {A} (r : option A) : W A := fun w =>
  match r with Some a => Some (a, w) | None => None end.

Definition call (ev : destroy_event) : W unit := fun w =>
  Some (tt, mk_world (node_links w) (table_nodes w) (called w ++ [ev])).

Definition get_table_node (p : positive) : W aws_linked_hash_table_node := fun w =>
  match table_nodes w !! p with Some n => Some (n, w) | None => None end.

Definition put_table_node (p : positive) (n : aws_linked_hash_table_node) : W unit := fun w =>
  match table_nodes w !! p with
  | Some _ => Some (tt, mk_world (node_links w) (<[p := n]> (table_nodes w)) (called w))
  | None => None
  end.

(** [aws_mem_calloc] of a node: an address that is not in use, zeroed. *)
Definition calloc_node : W positive := fun w =>
  let p := fresh (dom (node_links w) ∪ dom (table_nodes w)) in
  Some (p, mk_world (<[p := mk_node None None]> (node_links w))
             (<[p := mk_table_node None 0 0]> (table_nodes w)) (called w)).

Definition release_node (p : positive) : W unit := fun w =>
  match node_links w !! p, table_nodes w !! p with
  | Some _, Some _ =>
      Some (tt, mk_world (delete p (node_links w)) (delete p (table_nodes w)) (called w))
  | _, _ => None
  end.

(** ** The linked hash table *)

(** [node->table] must lead to the table at hand. *)
Definition s_element_destroy (t : aws_linked_hash_table) (node : positive) : W unit :=
  n ← get_table_node node;
  if decide (node_table n = Some (head (table_list t))) then
    _ ← (if user_on_value_destroy t then call (DestroyValue (node_value n)) else mret tt);
    _ ← on_links (aws_linked_list_remove node);
    release_node node
  else fun _ => None.

(** A [void *] as the address of a node. *)
Definition as_node (v : Z) : W positive := fun w =>
  match v with Zpos p => Some (p, w) | _ => None end.

(** The callbacks the hash table makes: the user's for keys, and
    [s_element_destroy] for values. *)
Fixpoint run_destructors (t : aws_linked_hash_table) (events : list destroy_event) : W unit :=
  match events with
  | [] => mret tt
  | DestroyKey k :: events => _ ← call (DestroyKey k); run_destructors t events
  | DestroyValue v :: events =>
      p ← as_node v; _ ← s_element_destroy t p; run_destructors t events
  end.

Definition aws_linked_hash_table_init (list : aws_linked_list) (hash : Z -> Z) (eq : Z -> Z -> bool)
    (destroy_key destroy_value : bool) (initial_item_count : Z) : W (result aws_linked_hash_table) :=
  _ ← on_links (aws_linked_list_init list);
  mret (match aws_hash_table_init initial_item_count hash eq destroy_key true with
        | Ok st => Ok (mk_table list st destroy_value)
        | Err e => Err e
        end).

(** The structure is zeroed afterwards. *)
Definition aws_linked_hash_table_clean_up (t : aws_linked_hash_table) : W unit :=
  run_destructors t (fst (aws_hash_table_clean_up (Some (table t)))).

(** [*p_value]; the operation cannot fail. *)
Definition aws_linked_hash_table_find (t : aws_linked_hash_table) (key : Z) : W Z :=
  r ← result_of (aws_hash_table_find (table t) key);
  match r with
  | None => mret 0
  | Some elem =>
      linked_node ← as_node (value (element (slot_at (slots (table t)) elem)));
      n ← get_table_node linked_node;
      mret (node_value n)
  end.

Definition aws_linked_hash_table_move_node_to_end_of_list (t : aws_linked_hash_table) (node : positive)
    : W unit :=
  _ ← on_links (aws_linked_list_remove node);
  on_links (aws_linked_list_push_back (table_list t) node).

Definition aws_linked_hash_table_find_and_move_to_back (t : aws_linked_hash_table) (key : Z) : W Z :=
  r ← result_of (aws_hash_table_find (table t) key);
  match r with
  | None => mret 0
  | Some elem =>
      linked_node ← as_node (value (element (slot_at (slots (table t)) elem)));
      n ← get_table_node linked_node;
      _ ← aws_linked_hash_table_move_node_to_end_of_list t linked_node;
      mret (node_value n)
  end.

Definition aws_linked_hash_table_put (t : aws_linked_hash_table) (key p_value : Z)
    : W (op_result * aws_linked_hash_table) :=
  node ← calloc_node;
  r ← result_of (aws_hash_table_create (table t) key);
  let '(created, st) := r in
  match created with
  | Err e => _ ← release_node node; mret (AWS_OP_ERR e, with_table t st)
  | Ok (None, _) => fun _ => None
  | Ok (Some elem, _) =>
      let old := element (slot_at (slots st) elem) in
      _ ← (if value old =? 0 then mret tt
           else p ← as_node (value old); s_element_destroy t p);
      _ ← put_table_node node (mk_table_node (Some (head (table_list t))) key p_value);
      let st := write_element st elem (HashTable.key old) (Zpos node) in
      _ ← on_links (aws_linked_list_push_back (table_list t) node);
      mret (AWS_OP_SUCCESS, with_table t st)
  end.

Definition aws_linked_hash_table_remove (t : aws_linked_hash_table) (key : Z) : W aws_linked_hash_table :=
  r ← result_of (aws_hash_table_remove (table t) key false);
  let '(_, _, events, st) := r in
  _ ← run_destructors t events;
  mret (with_table t st).

Definition aws_linked_hash_table_clear (t : aws_linked_hash_table) : W aws_linked_hash_table :=
  let '(events, st) := aws_hash_table_clear (table t) in
  _ ← run_destructors t events;
  mret (with_table t st).

Definition aws_linked_hash_table_get_element_count (t : aws_linked_hash_table) : Z :=
  aws_hash_table_get_entry_count (table t).

Definition aws_linked_hash_table_get_iteration_list (t : aws_linked_hash_table) : aws_linked_list :=
  table_list t.

(** ** Caches *)

(** The three tables of functions there are. *)
Inductive aws_cache_vtable := s_lru_cache_vtable | s_fifo_cache_vtable | s_lifo_cache_vtable.

Record aws_cache := mk_cache {
  vtable : aws_cache_vtable;
  cache_table : aws_linked_hash_table;
  max_items : Z
}.

Definition with_cache_table (c : aws_cache) (t : aws_linked_hash_table) : aws_cache :=
  mk_cache (vtable c) t (max_items c).

(** The memory of a cache: the sentinels embedded in it. *)
Definition acquire_cache : W aws_linked_list := fun w =>
  let used := dom (node_links w) ∪ dom (table_nodes w) in
  let h := fresh used in
  let t := fresh ({[h]} ∪ used) in
  Some (mk_list h t,
        mk_world (<[t := mk_node None None]> (<[h := mk_node None None]> (node_links w)))
          (table_nodes w) (called w)).

Definition release_cache (list : aws_linked_list) : W unit := fun w =>
  match node_links w !! head list, node_links w !! tail list with
  | Some _, Some _ =>
      Some (tt, mk_world (delete (tail list) (delete (head list) (node_links w)))
                  (table_nodes w) (called w))
  | _, _ => None
  end.

(** NULL when the table cannot be set up; the memory of the cache is not
    released then. *)
Definition new_cache (vt : aws_cache_vtable) (hash : Z -> Z) (eq : Z -> Z -> bool)
    (destroy_key destroy_value : bool) (max : Z) : W (option aws_cache) :=
  list ← acquire_cache;
  r ← aws_linked_hash_table_init list hash eq destroy_key destroy_value max;
  mret (match r with Ok t => Some (mk_cache vt t max) | Err _ => None end).

Definition aws_cache_new_lru := new_cache s_lru_cache_vtable.
Definition aws_cache_new_fifo := new_cache s_fifo_cache_vtable.
Definition aws_cache_new_lifo := new_cache s_lifo_cache_vtable.

Definition aws_cache_base_default_destroy (c : aws_cache) : W unit :=
  _ ← aws_linked_hash_table_clean_up (cache_table c);
  release_cache (table_list (cache_table c)).

Definition aws_cache_base_default_find (c : aws_cache) (key : Z) : W Z :=
  aws_linked_hash_table_find (cache_table c) key.

Definition aws_cache_base_default_remove (c : aws_cache) (key : Z) : W aws_cache :=
  t ← aws_linked_hash_table_remove (cache_table c) key;
  mret (with_cache_table c t).

Definition aws_cache_base_default_clear (c : aws_cache) : W aws_cache :=
  t ← aws_linked_hash_table_clear (cache_table c);
  mret (with_cache_table c t).

Definition aws_cache_base_default_get_element_count (c : aws_cache) : Z :=
  aws_linked_hash_table_get_element_count (cache_table c).

(** Removes the element of the key stored in the node [p], the way the [put]
    functions make room. *)
Definition remove_node_key (c : aws_cache) (p : positive) : W (op_result * aws_cache) :=
  table_node ← get_table_node p;
  t ← aws_linked_hash_table_remove (cache_table c) (node_key table_node);
  mret (AWS_OP_SUCCESS, with_cache_table c t).

(** [s_fifo_cache_put] has the same body as [s_lru_cache_put]. *)
Definition s_lru_cache_put (c : aws_cache) (key p_value : Z) : W (op_result * aws_cache) :=
  r ← aws_linked_hash_table_put (cache_table c) key p_value;
  let '(rv, t) := r in
  let c := with_cache_table c t in
  match rv with
  | AWS_OP_ERR e => mret (AWS_OP_ERR e, c)
  | AWS_OP_SUCCESS =>
      if max_items c <? aws_linked_hash_table_get_element_count (cache_table c) then
        let list := aws_linked_hash_table_get_iteration_list (cache_table c) in
        front ← on_links (aws_linked_list_front list);
        node ← on_links (deref front);
        remove_node_key c node
      else mret (AWS_OP_SUCCESS, c)
  end.

Definition s_fifo_cache_put := s_lru_cache_put.

Definition s_lifo_cache_put (c : aws_cache) (key p_value : Z) : W (op_result * aws_cache) :=
  r ← aws_linked_hash_table_put (cache_table c) key p_value;
  let '(rv, t) := r in
  let c := with_cache_table c t in
  match rv with
  | AWS_OP_ERR e => mret (AWS_OP_ERR e, c)
  | AWS_OP_SUCCESS =>
      if max_items c <? aws_linked_hash_table_get_element_count (cache_table c) then
        let list := aws_linked_hash_table_get_iteration_list (cache_table c) in
        back ← on_links (aws_linked_list_back list);
        node ← on_links (deref back);
        n ← on_links (get_node node);
        match prev n with
        | None => mret (AWS_OP_SUCCESS, c)
        | Some p => remove_node_key c p
        end
      else mret (AWS_OP_SUCCESS, c)
  end.

Definition s_lru_cache_find (c : aws_cache) (key : Z) : W Z :=
  aws_linked_hash_table_find_and_move_to_back (cache_table c) key.

Definition s_lru_cache_use_lru_element (c : aws_cache) : W Z :=
  let list := aws_linked_hash_table_get_iteration_list (cache_table c) in
  empty ← on_links (aws_linked_list_empty list);
  if (empty : bool) then mret 0
  else
    front ← on_links (aws_linked_list_front list);
    lru_node ← on_links (deref front);
    _ ← aws_linked_hash_table_move_node_to_end_of_list (cache_table c) lru_node;
    n ← get_table_node lru_node;
    mret (node_value n).

Definition s_lru_cache_get_mru_element (c : aws_cache) : W Z :=
  let list := aws_linked_hash_table_get_iteration_list (cache_table c) in
  empty ← on_links (aws_linked_list_empty list);
  if (empty : bool) then mret 0
  else
    back ← on_links (aws_linked_list_back list);
    mru_node ← on_links (deref back);
    n ← get_table_node mru_node;
    mret (node_value n).

(** The functions of [lru_cache.h] go through [cache->impl], a table of
    functions that only an LRU cache has. *)
Definition aws_lru_cache_use_lru_element (c : aws_cache) : W Z :=
  match vtable c with
  | s_lru_cache_vtable => s_lru_cache_use_lru_element c
  | _ => fun _ => None
  end.

Definition aws_lru_cache_get_mru_element (c : aws_cache) : W Z :=
  match vtable c with
  | s_lru_cache_vtable => s_lru_cache_get_mru_element c
  | _ => fun _ => None
  end.

(** Calls through [cache->vtable]. *)

Definition aws_cache_destroy (c : aws_cache) : W unit := aws_cache_base_default_destroy c.

Definition aws_cache_find (c : aws_cache) (key : Z) : W Z :=
  match vtable c with
  | s_lru_cache_vtable => s_lru_cache_find c key
  | s_fifo_cache_vtable | s_lifo_cache_vtable => aws_cache_base_default_find c key
  end.

Definition aws_cache_put (c : aws_cache) (key p_value : Z) : W (op_result * aws_cache) :=
  match vtable c with
  | s_lru_cache_vtable => s_lru_cache_put c key p_value
  | s_fifo_cache_vtable => s_fifo_cache_put c key p_value
  | s_lifo_cache_vtable => s_lifo_cache_put c key p_value
  end.

Definition aws_cache_remove (c : aws_cache) (key : Z) : W aws_cache := aws_cache_base_default_remove c key.
Definition aws_cache_clear (c : aws_cache) : W aws_cache := aws_cache_base_default_clear c.
Definition aws_cache_get_element_count (c : aws_cache) : Z := aws_cache_base_default_get_element_count c.

End LinkedHashTable.
