(* ===== verification/LinkedHashTableSpec.v ===== *)
(** * The linked hash table: its nodes in memory, and its operations

    What the linked hash table keeps in memory for a list of items, and how
    destroying, adding and moving a node change it. *)

From S2P Require Import Prelude LinkedList LinkedListSpec LinkedListOps HashTable HashTableRing HashTableInv HashTableOps HashTableSpec HashTableHistory LinkedHashTable.
Import HashTable LinkedList LinkedHashTable.

Local Open Scope Z_scope.

(** An item: the key in the hash table, the key in the node, the value. *)
Record item := mk_item { item_key : Z; item_node_key : Z; item_value : Z }.

Definition node_of (l : aws_linked_list) (it : item) : aws_linked_hash_table_node :=
  mk_table_node (Some (head l)) (item_node_key it) (item_value it).

(** The nodes [xs] of the list [l] are all that distinguishes the world from
    [base]. *)
Record mem_ok (base : world) (l : aws_linked_list) (w : world) (xs : list (positive * item)) : Prop := {
  mo_list : list_ok (node_links w) l (map fst xs);
  mo_node : forall p it, (p, it) ∈ xs -> table_nodes w !! p = Some (node_of l it);
  mo_links : forall p, p ∉ path l (map fst xs) -> node_links w !! p = node_links base !! p;
  mo_nodes : forall p, p ∉ map fst xs -> table_nodes w !! p = table_nodes base !! p;
  mo_fresh : forall p, p ∈ map fst xs -> node_links base !! p = None /\ table_nodes base !! p = None;
  mo_head : is_Some (node_links base !! head l);
  mo_tail : is_Some (node_links base !! tail l)
}.

Lemma bind_W {A B} (e : W A) (f : A -> W B) w a w' : e w = Some (a, w') -> (e ≫= f) w = f a w'.
Proof. intros H. unfold mbind, W_bind. now rewrite H. Qed.

Lemma on_links_run {A} (e : L A) w a h :
  e (node_links w) = Some (a, h) -> on_links e w = Some (a, mk_world h (table_nodes w) (called w)).
Proof. intros H. unfold on_links. now rewrite H. Qed.

Lemma get_table_node_run w p n : table_nodes w !! p = Some n -> get_table_node p w = Some (n, w).
Proof. intros H. unfold get_table_node. now rewrite H. Qed.

Lemma fst_elem {A B} (x : A) (y : B) l : (x, y) ∈ l -> x ∈ map fst l.
Proof. intros H. apply list_elem_of_fmap. exists (x, y). auto. Qed.

Lemma elem_fst {A B} (x : A) (l : list (A * B)) : x ∈ map fst l -> exists y, (x, y) ∈ l.
Proof. intros ((a & y) & -> & H)%list_elem_of_fmap. eauto. Qed.

Lemma map_fst_split {A B} (xs ys : list (A * B)) x y :
  map fst (xs ++ (x, y) :: ys) = map fst xs ++ x :: map fst ys.
Proof. now rewrite map_app. Qed.

Section mem.
Context (base : world) (l : aws_linked_list).

Lemma mem_nodup w xs : mem_ok base l w xs -> NoDup (map fst xs).
Proof using. intros H. exact (list_nodup _ _ _ (mo_list _ _ _ _ H)). Qed.

(** The node at the end of a run of the world that took it out of the list. *)
Lemma mem_removed w xs1 p it xs2 :
  mem_ok base l w (xs1 ++ (p, it) :: xs2) ->
  exists h', aws_linked_list_remove p (node_links w) = Some (tt, h')
    /\ list_ok h' l (map fst (xs1 ++ xs2)) /\ h' !! p = Some (mk_node None None)
    /\ changes_only (node_links w) h' (path l (map fst (xs1 ++ (p, it) :: xs2)))
    /\ p ∉ path l (map fst (xs1 ++ xs2)).
Proof using.
  intros H. pose proof (mo_list _ _ _ _ H) as Hl. rewrite map_fst_split in Hl.
  destruct (remove_ok _ l _ p _ Hl) as (h' & E & Hok & Hc & Hp). rewrite <- map_app in Hok.
  exists h'. rewrite map_fst_split. split_and!; auto.
  pose proof (lo_nodup _ _ _ Hl) as Hnd. rewrite elem_of_path, map_app. rewrite elem_of_app.
  destruct (path_not_tail _ l _ p Hl) as [N1 N2]; [rewrite elem_of_app, elem_of_cons; auto |].
  apply list_nodup in Hl. apply NoDup_app in Hl as (_ & H1 & H2). apply NoDup_cons in H2 as [H2 _].
  intros [-> | [[Hx | Hx] | ->]]; try easy. apply (H1 p Hx). apply elem_of_cons. auto.
Qed.

Lemma drop_in {A B} (xs1 : list (A * B)) x xs2 y : y ∈ xs1 ++ xs2 -> y ∈ xs1 ++ x :: xs2.
Proof using. rewrite !elem_of_app, elem_of_cons. tauto. Qed.

Lemma path_drop xs1 (p : positive) (it : item) xs2 x :
  x ∉ path l (map fst (xs1 ++ xs2)) -> x <> p -> x ∉ path l (map fst (xs1 ++ (p, it) :: xs2)).
Proof using.
  rewrite !elem_of_path, !map_app. cbn [map fst]. rewrite !elem_of_app, elem_of_cons. tauto.
Qed.

(** Releasing the node of an item. *)
Lemma element_destroy_ok t w xs1 p it xs2 :
  table_list t = l -> mem_ok base l w (xs1 ++ (p, it) :: xs2) ->
  exists w', s_element_destroy t p w = Some (tt, w') /\ mem_ok base l w' (xs1 ++ xs2)
    /\ called w' = called w ++ (if user_on_value_destroy t then [DestroyValue (item_value it)] else []).
Proof using.
  intros Ht H. destruct (mem_removed _ _ _ _ _ H) as (h' & E & Hok & Hp & [Hh Hc] & Hn).
  pose proof (mo_node _ _ _ _ H p it) as Hnode. unfold s_element_destroy. rewrite Ht.
  erewrite bind_W by (apply get_table_node_run, Hnode; rewrite elem_of_app, elem_of_cons; auto).
  cbn [node_table node_value node_of]. rewrite decide_True by reflexivity.
  set (w1 := mk_world (node_links w) (table_nodes w)
    (called w ++ (if user_on_value_destroy t then [DestroyValue (item_value it)] else []))).
  assert ((if user_on_value_destroy t then call (DestroyValue (item_value it)) else mret tt) w = Some (tt, w1)) as E1.
  { unfold w1. destruct (user_on_value_destroy t); [reflexivity |]. rewrite app_nil_r. now destruct w. }
  erewrite bind_W by exact E1. erewrite bind_W by (apply on_links_run; exact E). unfold release_node.
  cbn [node_links table_nodes called w1]. rewrite Hp, Hnode by (rewrite elem_of_app, elem_of_cons; auto).
  eexists. split; [reflexivity |]. split; [| reflexivity].
  destruct (mo_fresh _ _ _ _ H p) as [B1 B2]; [rewrite map_fst_split, elem_of_app, elem_of_cons; auto |].
  assert (forall x, x ∈ map fst (xs1 ++ xs2) -> x <> p) as Hne.
  { intros x Hx ->. apply Hn. now apply path_elem. }
  constructor; cbn [node_links table_nodes].
  - apply (list_ok_same h'); [| exact Hok]. intros x Hx. rewrite lookup_delete_ne; [reflexivity |]. congruence.
  - intros q i Hq. rewrite lookup_delete_ne by (apply fst_elem, Hne in Hq; congruence).
    apply (mo_node _ _ _ _ H). now apply drop_in.
  - intros q Hq. destruct (decide (q = p)) as [-> | Hqp]; [now rewrite lookup_delete_eq |].
    rewrite lookup_delete_ne by congruence. pose proof (path_drop _ p it _ _ Hq Hqp) as Hq'.
    rewrite Hc by exact Hq'. now apply (mo_links _ _ _ _ H).
  - intros q Hq. destruct (decide (q = p)) as [-> | Hqp]; [now rewrite lookup_delete_eq |].
    rewrite lookup_delete_ne by congruence. apply (mo_nodes _ _ _ _ H).
    rewrite map_fst_split, elem_of_app, elem_of_cons. rewrite map_app, elem_of_app in Hq. tauto.
  - intros q Hq. apply (mo_fresh _ _ _ _ H). rewrite map_fst_split, elem_of_app, elem_of_cons.
    rewrite map_app, elem_of_app in Hq. tauto.
  - exact (mo_head _ _ _ _ H).
  - exact (mo_tail _ _ _ _ H).
Qed.

(** Moving a node to the end of the list. *)
Lemma move_to_end_ok t w xs1 p it xs2 :
  table_list t = l -> mem_ok base l w (xs1 ++ (p, it) :: xs2) ->
  exists w', aws_linked_hash_table_move_node_to_end_of_list t p w = Some (tt, w')
    /\ mem_ok base l w' ((xs1 ++ xs2) ++ [(p, it)]) /\ called w' = called w.
Proof using.
  intros Ht H. destruct (mem_removed _ _ _ _ _ H) as (h' & E & Hok & Hp & [Hh Hc] & Hn).
  destruct (list_push_back_ok h' l _ p Hok) as (h2 & E2 & Hok2 & [Hh2 Hc2]); [unfold holds; eauto | exact Hn |].
  unfold aws_linked_hash_table_move_node_to_end_of_list. rewrite Ht.
  erewrite bind_W by (apply on_links_run; exact E). erewrite on_links_run by exact E2.
  eexists. split; [reflexivity |]. split; [| reflexivity].
  assert ((xs1 ++ xs2) ++ [(p, it)] ≡ₚ xs1 ++ (p, it) :: xs2) as HP
    by (rewrite <- app_assoc; apply Permutation_app_head, Permutation_app_comm).
  assert (forall x, x ∈ map fst ((xs1 ++ xs2) ++ [(p, it)]) <-> x ∈ map fst (xs1 ++ (p, it) :: xs2)) as Hin
    by (intros x; apply elem_of_Permutation_proper, (fmap_Permutation fst), HP).
  constructor; cbn [node_links table_nodes].
  - rewrite map_app. exact Hok2.
  - intros q i Hq. apply (mo_node _ _ _ _ H). now rewrite <- HP.
  - intros q Hq. rewrite elem_of_path, Hin, <- elem_of_path in Hq.
    rewrite Hc2, Hc; [now apply (mo_links _ _ _ _ H) | exact Hq |].
    rewrite elem_of_path, map_fst_split, elem_of_app, elem_of_cons in Hq.
    rewrite elem_of_cons, elem_of_path, map_app, elem_of_app. tauto.
  - intros q Hq. apply (mo_nodes _ _ _ _ H). now rewrite <- Hin.
  - intros q Hq. apply (mo_fresh _ _ _ _ H). now rewrite <- Hin.
  - exact (mo_head _ _ _ _ H).
  - exact (mo_tail _ _ _ _ H).
Qed.

(** ** A node that is not in the list yet *)

Definition add_node (p : positive) (b : world) : world :=
  mk_world (<[p := mk_node None None]> (node_links b)) (<[p := mk_table_node None 0 0]> (table_nodes b)) (called b).

Record pending (w : world) (xs : list (positive * item)) (p : positive) : Prop := {
  pe_mem : mem_ok (add_node p base) l w xs;
  pe_links : node_links base !! p = None;
  pe_nodes : table_nodes base !! p = None;
  pe_ends : p <> head l /\ p <> tail l
}.

Lemma pending_out w xs p : pending w xs p -> (p ∉ map fst xs) /\ p ∉ path l (map fst xs).
Proof using.
  intros [H _ _ [H1 H2]]. assert (p ∉ map fst xs) as Hn.
  { intros Hp. destruct (mo_fresh _ _ _ _ H p Hp) as [E _]. cbn in E. now rewrite lookup_insert_eq in E. }
  split; [exact Hn |]. rewrite elem_of_path. tauto.
Qed.

Lemma pending_here w xs p : pending w xs p ->
  node_links w !! p = Some (mk_node None None) /\ table_nodes w !! p = Some (mk_table_node None 0 0).
Proof using.
  intros H. destruct (pending_out _ _ _ H) as [N1 N2]. destruct H as [H _ _ _].
  rewrite (mo_links _ _ _ _ H) by exact N2. rewrite (mo_nodes _ _ _ _ H) by exact N1. cbn. now rewrite !lookup_insert_eq.
Qed.

Lemma pending_ends w xs p : pending w xs p -> is_Some (node_links base !! head l) /\ is_Some (node_links base !! tail l).
Proof using.
  intros [H _ _ [H1 H2]]. pose proof (mo_head _ _ _ _ H) as E1. pose proof (mo_tail _ _ _ _ H) as E2.
  cbn in E1, E2. rewrite lookup_insert_ne in E1, E2 by congruence. auto.
Qed.

Lemma calloc_ok w xs : mem_ok base l w xs ->
  exists p w', calloc_node w = Some (p, w') /\ pending w' xs p /\ called w' = called w.
Proof using.
  intros H. eexists _, _. split; [reflexivity |]. set (p := fresh _). split; [| reflexivity].
  pose proof (is_fresh (dom (node_links w) ∪ dom (table_nodes w))) as Hf. fold p in Hf.
  rewrite not_elem_of_union, !not_elem_of_dom in Hf. destruct Hf as [F1 F2].
  pose proof (lo_holds _ _ _ (mo_list _ _ _ _ H)) as Hh. rewrite Forall_forall in Hh.
  assert (p ∉ path l (map fst xs)) as Hp.
  { intros Hp. destruct (Hh p Hp) as [n E]. congruence. }
  pose proof Hp as Hp'. rewrite elem_of_path in Hp'. constructor; cbn [node_links table_nodes add_node].
  - constructor; cbn [node_links table_nodes add_node].
    + apply (list_ok_same (node_links w)); [| exact (mo_list _ _ _ _ H)]. intros x Hx. apply lookup_insert_ne. congruence.
    + intros q i Hq. rewrite lookup_insert_ne by (apply fst_elem in Hq; intros ->; tauto). now apply (mo_node _ _ _ _ H).
    + intros q Hq. destruct (decide (q = p)) as [-> | ?]; [now rewrite !lookup_insert_eq |].
      rewrite !lookup_insert_ne by congruence. now apply (mo_links _ _ _ _ H).
    + intros q Hq. destruct (decide (q = p)) as [-> | ?]; [now rewrite !lookup_insert_eq |].
      rewrite !lookup_insert_ne by congruence. now apply (mo_nodes _ _ _ _ H).
    + intros q Hq. rewrite !lookup_insert_ne by (intros ->; tauto). now apply (mo_fresh _ _ _ _ H).
    + rewrite lookup_insert_ne by (intros E; rewrite E in *; tauto). exact (mo_head _ _ _ _ H).
    + rewrite lookup_insert_ne by (intros E; rewrite E in *; tauto). exact (mo_tail _ _ _ _ H).
  - now rewrite <- (mo_links _ _ _ _ H).
  - rewrite <- (mo_nodes _ _ _ _ H) by tauto. exact F2.
  - tauto.
Qed.

Lemma release_pending w xs p : pending w xs p ->
  exists w', release_node p w = Some (tt, w') /\ mem_ok base l w' xs /\ called w' = called w.
Proof using.
  intros Hpe. destruct (pending_out _ _ _ Hpe) as [N1 N2], (pending_here _ _ _ Hpe) as [E1 E2],
    (pending_ends _ _ _ Hpe) as [E3 E4]. destruct Hpe as [H B1 B2 _].
  unfold release_node. rewrite E1, E2. eexists. split; [reflexivity |]. split; [| reflexivity].
  constructor; cbn [node_links table_nodes]; auto.
  - apply (list_ok_same (node_links w)); [| exact (mo_list _ _ _ _ H)]. intros x Hx. apply lookup_delete_ne. congruence.
  - intros q i Hq. rewrite lookup_delete_ne by (apply fst_elem in Hq; congruence). now apply (mo_node _ _ _ _ H).
  - intros q Hq. destruct (decide (q = p)) as [-> | ?]; [now rewrite lookup_delete_eq |].
    rewrite lookup_delete_ne by congruence. rewrite (mo_links _ _ _ _ H) by exact Hq. apply lookup_insert_ne. congruence.
  - intros q Hq. destruct (decide (q = p)) as [-> | ?]; [now rewrite lookup_delete_eq |].
    rewrite lookup_delete_ne by congruence. rewrite (mo_nodes _ _ _ _ H) by exact Hq. apply lookup_insert_ne. congruence.
  - intros q Hq. destruct (mo_fresh _ _ _ _ H q Hq) as [F1 F2]. cbn in F1, F2.
    rewrite lookup_insert_ne in F1 by congruence. rewrite lookup_insert_ne in F2 by congruence. auto.
Qed.

(** Filling in the node and linking it at the end. *)
Lemma adopt_pending w xs p it : pending w xs p ->
  exists w', (_ ← put_table_node p (node_of l it); on_links (aws_linked_list_push_back l p)) w = Some (tt, w')
    /\ mem_ok base l w' (xs ++ [(p, it)]) /\ called w' = called w.
Proof using.
  intros Hpe. destruct (pending_out _ _ _ Hpe) as [N1 N2], (pending_here _ _ _ Hpe) as [E1 E2],
    (pending_ends _ _ _ Hpe) as [E3 E4]. destruct Hpe as [H B1 B2 _].
  destruct (list_push_back_ok _ l _ p (mo_list _ _ _ _ H)) as (h' & E & Hok & [_ Hc]); [unfold holds; eauto | exact N2 |].
  assert (put_table_node p (node_of l it) w
    = Some (tt, mk_world (node_links w) (<[p := node_of l it]> (table_nodes w)) (called w))) as Ep
    by (unfold put_table_node; now rewrite E2).
  erewrite bind_W by exact Ep. erewrite on_links_run by exact E.
  eexists. split; [reflexivity |]. split; [| reflexivity].
  assert (forall x, x ∈ map fst (xs ++ [(p, it)]) <-> x ∈ map fst xs \/ x = p) as Hin.
  { intros x. rewrite map_app. cbn. now rewrite elem_of_app, list_elem_of_singleton. }
  constructor; cbn [node_links table_nodes]; auto.
  - rewrite map_app. exact Hok.
  - intros q i. rewrite elem_of_app, list_elem_of_singleton. intros [Hq | [= -> ->]]; [| now rewrite lookup_insert_eq].
    rewrite lookup_insert_ne by (apply fst_elem in Hq; congruence). now apply (mo_node _ _ _ _ H).
  - intros q Hq. rewrite elem_of_path, Hin in Hq. rewrite Hc by (rewrite elem_of_cons, elem_of_path; tauto).
    rewrite (mo_links _ _ _ _ H) by (rewrite elem_of_path; tauto). apply lookup_insert_ne. intros ->. tauto.
  - intros q Hq. rewrite Hin in Hq. rewrite lookup_insert_ne by (intros ->; tauto).
    rewrite (mo_nodes _ _ _ _ H) by tauto. apply lookup_insert_ne. intros ->. tauto.
  - intros q. rewrite Hin. intros [Hq | ->]; [| auto]. destruct (mo_fresh _ _ _ _ H q Hq) as [F1 F2]. cbn in F1, F2.
    rewrite lookup_insert_ne in F1 by congruence. rewrite lookup_insert_ne in F2 by congruence. auto.
Qed.
End mem.

(** ** The operations

    The linked hash table as an ordered association list, and each of its
    operations against the same operation on the list. *)

(** ** Ordered association lists *)

Section items.
Context (eq : Z -> Z -> bool).
Local Abbreviation keq := (s_safe_eq_check eq).

Definition has_key (k : Z) (it : item) : Prop := keq k (item_key it) = true.

#[export] Instance has_key_dec k it : Decision (has_key k it) := decide (_ = _).

Fixpoint item_at (k : Z) (its : list item) : option item :=
  match its with
  | [] => None
  | it :: its => if decide (has_key k it) then Some it else item_at k its
  end.

Definition without (k : Z) (its : list item) : list item := filter (fun it => ~ has_key k it) its.

(** A replaced item keeps the key of the first one in the hash table. *)
Definition put_item (k v : Z) (its : list item) : list item :=
  without k its ++ [mk_item (from_option item_key k (item_at k its)) k v].

Definition touch_item (k : Z) (its : list item) : list item :=
  match item_at k its with Some it => without k its ++ [it] | None => its end.

Definition value_at (k : Z) (its : list item) : Z := from_option item_value 0 (item_at k its).

Lemma without_all k its : Forall (fun x => ~ has_key k x) its -> without k its = its.
Proof.
  unfold without. induction 1 as [| x its Hx _ IH]; [reflexivity |]. rewrite filter_cons_True by exact Hx. now rewrite IH.
Qed.

Lemma item_at_split k its1 it its2 :
  Forall (fun x => ~ has_key k x) (its1 ++ its2) -> has_key k it ->
  item_at k (its1 ++ it :: its2) = Some it /\ without k (its1 ++ it :: its2) = its1 ++ its2.
Proof.
  intros HF Hk. split.
  - induction its1 as [| x its1 IH]; cbn; [now rewrite decide_True |].
    apply Forall_cons in HF as [Hx HF]. rewrite decide_False by exact Hx. auto.
  - unfold without. rewrite filter_app, filter_cons_False by tauto.
    rewrite <- filter_app. now apply without_all.
Qed.

Lemma item_at_none k its : Forall (fun x => ~ has_key k x) its -> item_at k its = None /\ without k its = its.
Proof.
  intros HF. split; [| now apply without_all].
  induction HF as [| x its Hx _ IH]; cbn; [reflexivity |]. now rewrite decide_False.
Qed.
End items.

(** The hash table's element for an item. *)
Definition elem_of_item (x : positive * item) : aws_hash_element := mk_element (item_key x.2) (Zpos x.1).

Lemma elements_split hash eq {CB : KeyCallbacks hash eq} es xs k :
  map element es = map elem_of_item xs -> distinct_keys eq es ->
  match lookup_entries eq es k with
  | None => Forall (fun x => ~ has_key eq k x.2) xs
  | Some el => exists xs1 p it xs2, xs = xs1 ++ (p, it) :: xs2 /\ el = elem_of_item (p, it)
      /\ has_key eq k it /\ Forall (fun x => ~ has_key eq k x.2) (xs1 ++ xs2)
  end.
Proof.
  revert xs. induction es as [| e es IH]; intros [| [p it] xs] E HD; try discriminate E; cbn [lookup_entries].
  - constructor.
  - cbn [map] in E. injection E as E1 E2. destruct HD as [HF HD]. specialize (IH xs E2 HD).
    rewrite E1. cbn [elem_of_item key fst snd]. destruct (s_safe_eq_check eq k (item_key it)) eqn:Ek.
    + exists [], p, it, xs. split_and!; auto. cbn [app].
      apply Forall_forall. intros x Hx Hk. unfold has_key in Hk.
      assert (elem_of_item x ∈ map element es) as (e' & Ee & He')%list_elem_of_fmap
        by (rewrite E2; apply list_elem_of_fmap; eauto).
      rewrite Forall_forall in HF. specialize (HF e' He'). rewrite <- Ee, E1 in HF. cbn in HF.
      rewrite <- (safe_eq_cong hash eq _ _ _ Ek) in HF. congruence.
    + destruct (lookup_entries eq es k) as [el |].
      * destruct IH as (xs1 & q & i & xs2 & -> & -> & Hk & HF').
        exists ((p, it) :: xs1), q, i, xs2. split_and!; auto. constructor; [| exact HF'].
        cbn. unfold has_key. congruence.
      * constructor; [| exact IH]. cbn. unfold has_key. congruence.
Qed.

(** ** Representation *)

Record rep (base : world) (w : world) (t : aws_linked_hash_table) (xs : list (positive * item)) : Prop := {
  re_mem : mem_ok base (table_list t) w xs;
  re_table : table_ok (table t);
  re_contents : contents (table t) ≡ₚ map elem_of_item xs;
  re_keys : Forall (fun x => has_key (equals_fn (table t)) (item_node_key x.2) x.2) xs;
  re_dv : destroy_value_fn (table t) = true
}.

(** What stays the same in a table. *)
Record same_table (t t' : aws_linked_hash_table) : Prop := {
  st_list : table_list t' = table_list t;
  st_user : user_on_value_destroy t' = user_on_value_destroy t;
  st_callbacks : same_callbacks (table t) (table t')
}.

Lemma same_table_refl t : same_table t t.
Proof. constructor; auto with aws. Qed.

Section ops.
Context (base : world) (w : world) (t : aws_linked_hash_table) (xs : list (positive * item)).
Context {CB : KeyCallbacks (hash_fn (table t)) (equals_fn (table t))}.
Hypothesis H : rep base w t xs.
Local Abbreviation eq := (equals_fn (table t)).
Local Abbreviation items := (map snd xs).

Lemma rep_lookup k :
  match lookup (table t) k with
  | None => Forall (fun x => ~ has_key eq k x.2) xs
  | Some el => exists xs1 p it xs2, xs = xs1 ++ (p, it) :: xs2 /\ el = elem_of_item (p, it)
      /\ has_key eq k it /\ Forall (fun x => ~ has_key eq k x.2) (xs1 ++ xs2)
  end.
Proof using H CB.
  pose proof (re_contents _ _ _ _ H) as HP. unfold contents in HP. symmetry in HP.
  apply Permutation_map_inv in HP as (es & E & HP).
  pose proof (ok_distinct _ (re_table _ _ _ _ H)) as HD.
  unfold lookup. rewrite (lookup_entries_perm (hash_fn (table t)) eq _ _ k HD HP).
  apply (elements_split (hash_fn (table t)) eq es xs k (symmetry E)).
  exact (distinct_keys_perm (hash_fn (table t)) eq _ _ HP HD).
Qed.

(** The two cases of an operation on a key. *)
Lemma rep_cases k :
  (lookup (table t) k = None /\ item_at eq k items = None /\ without eq k items = items)
  \/ exists xs1 p it xs2, xs = xs1 ++ (p, it) :: xs2 /\ lookup (table t) k = Some (elem_of_item (p, it))
       /\ has_key eq k it /\ item_at eq k items = Some it /\ without eq k items = map snd (xs1 ++ xs2).
Proof using H CB.
  pose proof (rep_lookup k) as Hl. destruct (lookup (table t) k) as [el |].
  - right. destruct Hl as (xs1 & p & it & xs2 & E & -> & Hk & HF). exists xs1, p, it, xs2.
    destruct (item_at_split eq k (map snd xs1) it (map snd xs2)) as [E1 E2];
      [rewrite <- map_app; now apply Forall_fmap | exact Hk |].
    rewrite E, !map_app. cbn [map snd]. rewrite E1, E2. split_and!; auto.
  - left. split; [reflexivity |]. apply item_at_none. now apply Forall_fmap.
Qed.

Lemma count_ok : aws_linked_hash_table_get_element_count t = zlength items.
Proof using H.
  unfold aws_linked_hash_table_get_element_count, aws_hash_table_get_entry_count.
  rewrite (ok_count _ (re_table _ _ _ _ H)). pose proof (re_contents _ _ _ _ H) as HP. unfold contents in HP.
  apply zlength_perm in HP. rewrite !zlength_map in *. now rewrite HP.
Qed.

Lemma node_run xs1 p it xs2 :
  xs = xs1 ++ (p, it) :: xs2 -> get_table_node p w = Some (node_of (table_list t) it, w).
Proof using H.
  intros E. apply get_table_node_run, (mo_node _ _ _ _ (re_mem _ _ _ _ H)).
  rewrite E, elem_of_app, elem_of_cons. auto.
Qed.

Lemma find_ok k : aws_linked_hash_table_find t k w = Some (value_at eq k items, w).
Proof using H CB.
  unfold aws_linked_hash_table_find, value_at.
  destruct (find_result (table t) k (re_table _ _ _ _ H)) as (r & Er & Hr). rewrite Er. cbn [result_of].
  destruct (rep_cases k) as [(E & -> & _) | (xs1 & p & it & xs2 & Ex & E & _ & -> & _)]; rewrite E in Hr.
  - apply fmap_None in Hr as ->. reflexivity.
  - apply fmap_Some in Hr as (i & -> & Hi). erewrite bind_W by reflexivity. cbn iota. rewrite <- Hi.
    erewrite bind_W by reflexivity. cbn [elem_of_item fst].
    erewrite bind_W by exact (node_run xs1 p it xs2 Ex). reflexivity.
Qed.

Lemma find_and_move_ok k :
  exists w' xs', aws_linked_hash_table_find_and_move_to_back t k w = Some (value_at eq k items, w')
    /\ rep base w' t xs' /\ map snd xs' = touch_item eq k items /\ called w' = called w.
Proof using H CB.
  unfold aws_linked_hash_table_find_and_move_to_back, value_at, touch_item.
  destruct (find_result (table t) k (re_table _ _ _ _ H)) as (r & Er & Hr). rewrite Er. cbn [result_of].
  destruct (rep_cases k) as [(E & -> & _) | (xs1 & p & it & xs2 & Ex & E & _ & -> & ->)]; rewrite E in Hr.
  - apply fmap_None in Hr as ->. exists w, xs. auto.
  - apply fmap_Some in Hr as (i & -> & Hi). erewrite bind_W by reflexivity. cbn iota. rewrite <- Hi.
    erewrite bind_W by reflexivity. cbn [elem_of_item fst].
    erewrite bind_W by exact (node_run xs1 p it xs2 Ex).
    pose proof (re_mem _ _ _ _ H) as Hm. rewrite Ex in Hm.
    destruct (move_to_end_ok base _ t w xs1 p it xs2 eq_refl Hm) as (w' & Ew & Hm' & Hc).
    erewrite bind_W by exact Ew. exists w', ((xs1 ++ xs2) ++ [(p, it)]).
    assert ((xs1 ++ xs2) ++ [(p, it)] ≡ₚ xs) as HP
      by (rewrite Ex, <- app_assoc; apply Permutation_app_head, Permutation_app_comm).
    split_and!; auto; [| now rewrite (map_app _ (xs1 ++ xs2))].
    destruct H as [_ H2 H3 H4 H5]. constructor; auto; now rewrite HP.
Qed.

(** Removing the item of a key from the hash table. *)
Lemma rep_removed st' xs1 p it xs2 w' :
  xs = xs1 ++ (p, it) :: xs2 -> mem_ok base (table_list t) w' (xs1 ++ xs2) -> table_ok st' ->
  same_callbacks (table t) st' -> elem_of_item (p, it) :: contents st' ≡ₚ contents (table t) ->
  rep base w' (with_table t st') (xs1 ++ xs2).
Proof using H.
  intros Ex Hm Hok Hcb HP. destruct H as [_ _ H3 H4 H5]. constructor; cbn [table table_list with_table]; auto.
  - apply (Permutation_cons_inv (a := elem_of_item (p, it))). rewrite HP, H3, Ex, !map_app. cbn [map].
    now rewrite Permutation_middle.
  - rewrite (same_eq _ _ Hcb). rewrite Ex, Forall_app, Forall_cons in H4. apply Forall_app. tauto.
  - rewrite (same_dv _ _ Hcb). exact H5.
Qed.

Definition item_events (it : item) : list destroy_event :=
  (if destroy_key_fn (table t) then [DestroyKey (item_key it)] else [])
  ++ (if user_on_value_destroy t then [DestroyValue (item_value it)] else []).

(** The destructors of one element. *)
Lemma destroy_item_ok w0 xs1 p it xs2 evs :
  mem_ok base (table_list t) w0 (xs1 ++ (p, it) :: xs2) ->
  exists w', run_destructors t (remove_events (table t) (elem_of_item (p, it)) ++ evs) w0 = run_destructors t evs w'
    /\ mem_ok base (table_list t) w' (xs1 ++ xs2) /\ called w' = called w0 ++ item_events it.
Proof using H.
  intros Hm. unfold remove_events, item_events. rewrite (re_dv _ _ _ _ H). cbn [elem_of_item key value fst snd].
  set (w1 := mk_world (node_links w0) (table_nodes w0)
    (called w0 ++ (if destroy_key_fn (table t) then [DestroyKey (item_key it)] else []))).
  assert (mem_ok base (table_list t) w1 (xs1 ++ (p, it) :: xs2)) as Hm1 by (destruct Hm; now constructor).
  destruct (element_destroy_ok base _ t w1 xs1 p it xs2 eq_refl Hm1) as (w' & Ew & Hm' & Hc).
  exists w'. split_and!; auto.
  - transitivity (run_destructors t (DestroyValue (Zpos p) :: evs) w1).
    + unfold w1. destruct (destroy_key_fn (table t)); [reflexivity |]. rewrite app_nil_r. now destruct w0.
    + cbn [run_destructors]. erewrite bind_W by reflexivity. now erewrite bind_W by exact Ew.
  - rewrite Hc. unfold w1. cbn [called]. now rewrite <- app_assoc.
Qed.

Lemma remove_key_ok k :
  exists w' t' xs', aws_linked_hash_table_remove t k w = Some (t', w')
    /\ rep base w' t' xs' /\ same_table t t' /\ map snd xs' = without eq k items
    /\ called w' = called w ++ from_option item_events [] (item_at eq k items).
Proof using H CB.
  unfold aws_linked_hash_table_remove.
  destruct (remove_spec (table t) k false (re_table _ _ _ _ H)) as (pv & wp & ev & st' & Er & Hok & Hcb & _ & HP & Hres).
  rewrite Er. erewrite bind_W by reflexivity. cbn iota.
  assert (same_table t (with_table t st')) as Hst by now constructor.
  destruct (rep_cases k) as [(E & -> & ->) | (xs1 & p & it & xs2 & Ex & E & _ & -> & ->)]; rewrite E in Hres, HP.
  - destruct Hres as (-> & -> & -> & ->). exists w, (with_table t (table t)), xs. cbn [run_destructors].
    erewrite bind_W by reflexivity. rewrite app_nil_r. split_and!; auto. destruct H; now constructor.
  - destruct Hres as (-> & _ & -> & ->). pose proof (re_mem _ _ _ _ H) as Hm. rewrite Ex in Hm.
    destruct (destroy_item_ok w xs1 p it xs2 [] Hm) as (w' & Ew & Hm' & Hc). rewrite app_nil_r in Ew.
    erewrite bind_W by exact Ew. eexists _, _, (xs1 ++ xs2). split; [reflexivity |].
    split_and!; auto. now apply (rep_removed st' xs1 p it xs2 w').
Qed.

(** Destructors of all elements, in the order of the hash table. *)
Lemma destroy_all_ok ys :
  forall w0 zs, mem_ok base (table_list t) w0 zs -> zs ≡ₚ ys ->
  exists w', run_destructors t (concat (map (remove_events (table t)) (map elem_of_item ys))) w0 = Some (tt, w')
    /\ mem_ok base (table_list t) w' [] /\ called w' = called w0 ++ concat (map item_events (map snd ys)).
Proof using H.
  induction ys as [| [p it] ys IH]; intros w0 zs Hm HP.
  - symmetry in HP. apply Permutation_nil in HP as ->. exists w0. cbn. rewrite app_nil_r. auto.
  - assert ((p, it) ∈ zs) as (zs1 & zs2 & ->)%list_elem_of_split by (rewrite HP; apply elem_of_cons; auto).
    cbn [map concat]. destruct (destroy_item_ok w0 zs1 p it zs2
      (concat (map (remove_events (table t)) (map elem_of_item ys))) Hm) as (w1 & Ew & Hm1 & Hc1).
    destruct (IH w1 (zs1 ++ zs2) Hm1) as (w' & Ew' & Hm' & Hc').
    { apply (Permutation_cons_inv (a := (p, it))). now rewrite Permutation_middle. }
    exists w'. rewrite Ew, Ew'. split_and!; auto. rewrite Hc', Hc1. cbn [snd]. now rewrite <- app_assoc.
Qed.

Lemma clear_ok :
  exists w' t' ys, aws_linked_hash_table_clear t w = Some (t', w')
    /\ rep base w' t' [] /\ same_table t t' /\ ys ≡ₚ items /\ called w' = called w ++ concat (map item_events ys).
Proof using H.
  destruct (clear_spec (table t) (re_table _ _ _ _ H)) as (Hok & Hcb & Hct & _ & _ & _ & Hev).
  unfold aws_linked_hash_table_clear. destruct (aws_hash_table_clear (table t)) as [evs st'] eqn:E. cbn [fst snd] in *.
  destruct (Permutation_map_inv elem_of_item xs (re_contents _ _ _ _ H)) as (ys & Ey & HP).
  rewrite Hev, Ey. destruct (destroy_all_ok ys w xs (re_mem _ _ _ _ H) HP) as (w' & Ew & Hm & Hc).
  erewrite bind_W by exact Ew. eexists _, _, (map snd ys). split; [reflexivity |]. split_and!; auto.
  - constructor; cbn [table table_list with_table map]; auto; [now rewrite Hct | now rewrite (same_dv _ _ Hcb), (re_dv _ _ _ _ H)].
  - now constructor.
  - symmetry. exact (Permutation_map snd HP).
Qed.

Lemma clean_up_ok :
  exists w' ys, aws_linked_hash_table_clean_up t w = Some (tt, w')
    /\ mem_ok base (table_list t) w' [] /\ ys ≡ₚ items /\ called w' = called w ++ concat (map item_events ys).
Proof using H.
  unfold aws_linked_hash_table_clean_up. cbn [aws_hash_table_clean_up fst].
  destruct (clear_spec (table t) (re_table _ _ _ _ H)) as (_ & _ & _ & _ & _ & _ & ->).
  destruct (Permutation_map_inv elem_of_item xs (re_contents _ _ _ _ H)) as (ys & -> & HP).
  destruct (destroy_all_ok ys w xs (re_mem _ _ _ _ H) HP) as (w' & Ew & Hm & Hc).
  exists w', (map snd ys). split_and!; auto. symmetry. exact (Permutation_map snd HP).
Qed.

(** ** Putting *)

Definition put_result (k v : Z) (rv : op_result) (w' : world) (t' : aws_linked_hash_table) : Prop :=
  match rv with
  | AWS_OP_SUCCESS => same_table t t'
      /\ (exists xs', rep base w' t' xs' /\ map snd xs' = put_item eq k v items)
      /\ called w' = called w ++ match item_at eq k items with
                               | Some it => if user_on_value_destroy t then [DestroyValue (item_value it)] else []
                               | None => []
                               end
  | AWS_OP_ERR e => e = AWS_ERROR_OVERFLOW_DETECTED /\ t' = t /\ rep base w' t xs /\ called w' = called w
      /\ 2 ^ 58 <= zlength items
  end.

Lemma full_table : 2 ^ 59 <= size (table t) -> entry_count (table t) = max_load (table t) -> 2 ^ 58 <= zlength items.
Proof using H.
  intros Hs Hm. rewrite <- count_ok. unfold aws_linked_hash_table_get_element_count, aws_hash_table_get_entry_count.
  rewrite Hm, (ok_max_load _ (re_table _ _ _ _ H)). unfold max_load_of, max_load_factor_mantissa.
  apply Z.div_le_lower_bound; lia.
Qed.

(** The item of a fresh key. *)
Lemma put_fresh_ok k v p w1 st1 idx :
  pending base (table_list t) w1 xs p -> lookup (table t) k = None ->
  aws_hash_table_create (table t) k = Some (Ok (Some idx, true), st1) -> created (table t) st1 k idx ->
  exists w', (_ ← put_table_node p (mk_table_node (Some (head (table_list t))) k v);
              on_links (aws_linked_list_push_back (table_list t) p)) w1 = Some (tt, w')
    /\ rep base w' (with_table t (write_element st1 idx k (Zpos p))) (xs ++ [(p, mk_item k k v)])
    /\ same_callbacks (table t) (write_element st1 idx k (Zpos p)) /\ called w' = called w1.
Proof using H CB.
  intros Hpe Hl Ec (n & _ & _ & Hat & _).
  destruct (adopt_pending base _ w1 xs p (mk_item k k v) Hpe) as (w' & Ew & Hm & Hc).
  destruct (put_spec (table t) k (Zpos p) (re_table _ _ _ _ H)) as (rv & wc & ev & st' & Ep & HPp).
  unfold aws_hash_table_put in Ep. rewrite Ec in Ep. injection Ep as <- <- <- <-.
  destruct HPp as (Hok & Hcb & _ & _ & _ & _ & HP). rewrite Hl in HP. cbn [option_list app] in HP.
  exists w'. split_and!; auto. destruct H as [_ _ H3 H4 H5].
  constructor; cbn [table table_list with_table]; auto.
  - rewrite HP, H3, map_app. apply Permutation_cons_append.
  - rewrite (same_eq _ _ Hcb). apply Forall_app. split; [exact H4 |]. constructor; [| constructor].
    unfold has_key. apply safe_eq_refl.
  - rewrite (same_dv _ _ Hcb). exact H5.
Qed.

(** The item of a key that is there. *)
Lemma put_found_ok k v p w1 xs1 q it xs2 i n :
  ring_ok n (table t) -> xs = xs1 ++ (q, it) :: xs2 -> has_key eq k it -> 0 <= i < 2 ^ n ->
  occupied (slot_at (slots (table t)) i) -> element (slot_at (slots (table t)) i) = elem_of_item (q, it) ->
  pending base (table_list t) w1 (xs1 ++ xs2) p ->
  exists w', (_ ← put_table_node p (mk_table_node (Some (head (table_list t))) k v);
              on_links (aws_linked_list_push_back (table_list t) p)) w1 = Some (tt, w')
    /\ rep base w' (with_table t (write_element (table t) i (item_key it) (Zpos p)))
         ((xs1 ++ xs2) ++ [(p, mk_item (item_key it) k v)])
    /\ same_callbacks (table t) (write_element (table t) i (item_key it) (Zpos p)) /\ called w' = called w1.
Proof using H CB.
  intros Hr Ex Hk Hi Ho Hel Hpe.
  destruct (adopt_pending base _ w1 _ p (mk_item (item_key it) k v) Hpe) as (w' & Ew & Hm & Hc).
  assert (key_of (slot_at (slots (table t)) i) = item_key it) as Hkey by (unfold key_of; now rewrite Hel).
  pose proof (ok_hash _ (re_table _ _ _ _ H)) as Hh. rewrite Forall_forall in Hh.
  destruct (write_found n (table t) i (item_key it) (Zpos p)) as (Hok & Hcb & _ & HP); auto.
  { exact (re_table _ _ _ _ H). }
  { rewrite Hkey. apply safe_eq_refl. }
  { fold (key_of (slot_at (slots (table t)) i)) in Hh. rewrite <- Hkey. apply Hh. apply entries_elem. split; [exact Ho |].
    exists (Z.to_nat i). now apply (slot_at_lookup n). }
  exists w'. split_and!; auto. rewrite Hel in HP. destruct H as [_ _ H3 H4 H5].
  constructor; cbn [table table_list with_table]; auto.
  - apply (Permutation_cons_inv (a := elem_of_item (q, it))). rewrite HP, H3, Ex.
    rewrite (map_app _ (xs1 ++ xs2)). cbn [map]. rewrite <- Permutation_cons_append, !map_app. cbn [map].
    rewrite <- Permutation_middle. apply perm_swap.
  - rewrite (same_eq _ _ Hcb). rewrite Ex, Forall_app, Forall_cons in H4.
    rewrite !Forall_app. split_and!; try tauto. constructor; [exact Hk | constructor].
Qed.

Lemma bind_twice {A B C} (e : W A) (f : A -> W B) (g : B -> W C) w0 b w' :
  (a ← e; f a) w0 = Some (b, w') -> (a ← e; b ← f a; g b) w0 = g b w'.
Proof using. unfold mbind, W_bind. destruct (e w0) as [[a w1] |]; [| discriminate]. now intros ->. Qed.

Lemma put_ok k v :
  exists rv w' t', aws_linked_hash_table_put t k v w = Some ((rv, t'), w') /\ put_result k v rv w' t'.
Proof using H CB.
  unfold aws_linked_hash_table_put, put_result, put_item.
  destruct (calloc_ok base _ w xs (re_mem _ _ _ _ H)) as (p & w1 & Ep & Hpe & Hc1). erewrite bind_W by exact Ep.
  destruct (ok_ring _ (re_table _ _ _ _ H)) as [n Hr].
  destruct (rep_cases k) as [(E & -> & ->) | (xs1 & q & it & xs2 & Ex & E & Hk & -> & ->)].
  - destruct (create_fresh n (table t) k Hr (re_table _ _ _ _ H) E) as [(e & Ec & -> & Hs & Hm) | (st1 & idx & Ec & Hcr)];
      rewrite Ec; erewrite bind_W by reflexivity; cbn iota.
    + destruct (release_pending base _ w1 xs p Hpe) as (w' & Ew & Hm' & Hc). erewrite bind_W by exact Ew.
      exists (AWS_OP_ERR AWS_ERROR_OVERFLOW_DETECTED), w', t. split; [now destruct t |].
      split_and!; auto; [destruct H; now constructor | now rewrite Hc | now apply full_table].
    + destruct (put_fresh_ok k v p w1 st1 idx Hpe E Ec Hcr) as (w' & Ew & Hrep & Hcb & Hc).
      destruct Hcr as (n' & _ & _ & Hat & _). rewrite Hat. cbn [element value key Z.eqb].
      erewrite bind_W by reflexivity. erewrite bind_twice by exact Ew.
      eexists AWS_OP_SUCCESS, w', _. split; [reflexivity |]. rewrite app_nil_r. split_and!; [now constructor | | now rewrite Hc].
      eexists. split; [exact Hrep |]. now rewrite map_app.
  - destruct (create_found n (table t) k _ Hr (re_table _ _ _ _ H) E) as (i & Ec & Hi & Ho & Hel & _).
    rewrite Ec. erewrite bind_W by reflexivity. cbn iota. rewrite Hel. cbn [elem_of_item value key fst snd Z.eqb].
    destruct Hpe as [Hm B1 B2 B3]. rewrite Ex in Hm.
    destruct (element_destroy_ok _ _ t w1 xs1 q it xs2 eq_refl Hm) as (w2 & E2 & Hm2 & Hc2).
    assert ((p ← as_node (Zpos q); s_element_destroy t p) w1 = Some (tt, w2)) as E2' by exact E2.
    erewrite bind_W by exact E2'.
    destruct (put_found_ok k v p w2 xs1 q it xs2 i n) as (w' & Ew & Hrep & Hcb & Hc); auto; [now constructor |].
    erewrite bind_twice by exact Ew. eexists AWS_OP_SUCCESS, w', _. split; [reflexivity |].
    split_and!; [now constructor | | now rewrite Hc, Hc2, Hc1].
    eexists. split; [exact Hrep |]. now rewrite (map_app _ (xs1 ++ xs2)).
Qed.
End ops.
