(* ===== verification/CacheSpec.v ===== *)
(** * Caches

    The LRU, FIFO and LIFO caches against an ordered list of items and an
    eviction policy. *)

From S2P Require Import Prelude HashTable HashTableRing HashTableInv HashTableOps HashTableSpec.
From S2P Require Import HashTableHistory LinkedList LinkedListSpec LinkedListOps.
From S2P Require Import LinkedHashTable LinkedHashTableSpec.
Import HashTable LinkedList LinkedHashTable.

Local Open Scope Z_scope.

(** ** Eviction policies on lists *)

(** The item that makes room, and the others: the first for LRU and FIFO, the
    last but one for LIFO. *)
Definition evict {I} (vt : aws_cache_vtable) (its : list I) : option (I * list I) :=
  match vt with
  | s_lru_cache_vtable | s_fifo_cache_vtable =>
      match its with it :: its => Some (it, its) | [] => None end
  | s_lifo_cache_vtable =>
      match rev its with it :: victim :: its => Some (victim, rev its ++ [it]) | _ => None end
  end.

Inductive cache_op :=
| Cache_put (k v : Z)
| Cache_find (k : Z)
| Cache_remove (k : Z)
| Cache_clear
| Cache_use_lru
| Cache_get_mru.

(** The reference: pairs of a key and a value, from the oldest to the youngest,
    and at most one for a key. The results, the pairs that are left, and the calls
    of the user's destructors. *)
Section policy.
Context (vt : aws_cache_vtable) (eq : Z -> Z -> bool) (dk dv : bool) (max : Z).

Definition is_key (k : Z) (e : Z * Z) : Prop := s_safe_eq_check eq k e.1 = true.

#[export] Instance is_key_dec k e : Decision (is_key k e) := decide (_ = _).

Fixpoint pair_at (k : Z) (es : list (Z * Z)) : option (Z * Z) :=
  match es with
  | [] => None
  | e :: es => if decide (is_key k e) then Some e else pair_at k es
  end.

Definition but (k : Z) (es : list (Z * Z)) : list (Z * Z) := filter (fun e => ~ is_key k e) es.

Definition pair_calls (e : Z * Z) : list destroy_event :=
  (if dk then [DestroyKey e.1] else []) ++ (if dv then [DestroyValue e.2] else []).

(** A pair that is there keeps its key, gets the new value and becomes the
    youngest; only its old value is destroyed. *)
Definition policy_put (k v : Z) (es : list (Z * Z)) : Z * list (Z * Z) * list destroy_event :=
  let '(key, evs) :=
    match pair_at k es with
    | Some e => (e.1, if dv then [DestroyValue e.2] else [])
    | None => (k, [])
    end in
  let es := but k es ++ [(key, v)] in
  if max <? zlength es then
    match evict vt es with
    | Some (victim, es) => (0, es, evs ++ pair_calls victim)
    | None => (0, es, evs)
    end
  else (0, es, evs).

Definition policy_op (op : cache_op) (es : list (Z * Z)) : Z * list (Z * Z) * list destroy_event :=
  match op with
  | Cache_put k v => policy_put k v es
  | Cache_find k =>
      match pair_at k es with
      | Some e => (e.2, match vt with s_lru_cache_vtable => but k es ++ [e] | _ => es end, [])
      | None => (0, es, [])
      end
  | Cache_remove k => (0, but k es, from_option pair_calls [] (pair_at k es))
  | Cache_clear => (0, [], concat (map pair_calls es))
  | Cache_use_lru => match es with e :: rest => (e.2, rest ++ [e], []) | [] => (0, [], []) end
  | Cache_get_mru => (from_option snd 0 (last es), es, [])
  end.

Fixpoint policy_ops (ops : list cache_op) (es : list (Z * Z)) : list Z * list (Z * Z) * list destroy_event :=
  match ops with
  | [] => ([], es, [])
  | op :: ops =>
      let '(r, es, evs) := policy_op op es in
      let '(rs, es, evs') := policy_ops ops es in
      (r :: rs, es, evs ++ evs')
  end.
End policy.

(** The same on items, which also say what key the node holds. *)
Section plain.
Context (vt : aws_cache_vtable) (eq : Z -> Z -> bool) (dk dv : bool) (max : Z).

Definition item_calls (it : item) : list destroy_event :=
  (if dk then [DestroyKey (item_key it)] else []) ++ (if dv then [DestroyValue (item_value it)] else []).

Definition overwritten_calls (old : option item) : list destroy_event :=
  match old with Some it => if dv then [DestroyValue (item_value it)] else [] | None => [] end.

(** The result, the items from the oldest to the youngest, and the calls of
    the user's destructors. *)
Definition plain_put (k v : Z) (its : list item) : Z * list item * list destroy_event :=
  let evs := overwritten_calls (item_at eq k its) in
  let its := put_item eq k v its in
  if max <? zlength its then
    match evict vt its with
    | Some (victim, its) => (0, its, evs ++ item_calls victim)
    | None => (0, its, evs)
    end
  else (0, its, evs).

Definition plain_op (op : cache_op) (its : list item) : Z * list item * list destroy_event :=
  match op with
  | Cache_put k v => plain_put k v its
  | Cache_find k =>
      (value_at eq k its, match vt with s_lru_cache_vtable => touch_item eq k its | _ => its end, [])
  | Cache_remove k => (0, without eq k its, from_option item_calls [] (item_at eq k its))
  | Cache_clear => (0, [], concat (map item_calls its))
  | Cache_use_lru =>
      match its with it :: rest => (item_value it, rest ++ [it], []) | [] => (0, [], []) end
  | Cache_get_mru => (from_option item_value 0 (last its), its, [])
  end.

Fixpoint plain_ops (ops : list cache_op) (its : list item) : list Z * list item * list destroy_event :=
  match ops with
  | [] => ([], its, [])
  | op :: ops =>
      let '(r, its, evs) := plain_op op its in
      let '(rs, its, evs') := plain_ops ops its in
      (r :: rs, its, evs ++ evs')
  end.
End plain.

(** The key in the node decides nothing. *)
Section forget.
Context (vt : aws_cache_vtable) (eq : Z -> Z -> bool) (dk dv : bool) (max : Z).

Definition pair_of (it : item) : Z * Z := (item_key it, item_value it).

Lemma pair_at_items k its : pair_at eq k (map pair_of its) = pair_of <$> item_at eq k its.
Proof using. induction its as [| it its IH]; [reflexivity |]. cbn. unfold is_key, has_key. cbn. now destruct (decide _). Qed.

Lemma but_items k its : but eq k (map pair_of its) = map pair_of (without eq k its).
Proof using.
  unfold but, without. induction its as [| it its IH]; [reflexivity |]. cbn [map]. destruct (decide (has_key eq k it)) as [H | H].
  - rewrite !filter_cons_False by (now intros []). exact IH.
  - rewrite !filter_cons_True by exact H. cbn [map]. now rewrite IH.
Qed.

Lemma evict_items its : evict vt (map pair_of its) = (fun x => (pair_of x.1, map pair_of x.2)) <$> evict vt its.
Proof using.
  destruct vt; cbn [evict]; try (now destruct its). rewrite <- map_rev. destruct (rev its) as [| it [| victim l]]; [reflexivity .. |].
  cbn. now rewrite <- map_rev, map_app.
Qed.

Lemma plain_put_items k v its :
  policy_put vt eq dk dv max k v (map pair_of its) = let '(r, its', evs) := plain_put vt eq dk dv max k v its in (r, map pair_of its', evs).
Proof using.
  unfold policy_put, plain_put, put_item. rewrite pair_at_items, but_items.
  replace (match pair_of <$> item_at eq k its with Some e => _ | None => _ end)
    with (from_option item_key k (item_at eq k its), overwritten_calls dv (item_at eq k its)) by now destruct (item_at eq k its).
  cbv zeta. change [(from_option item_key k (item_at eq k its), v)] with (map pair_of [mk_item (from_option item_key k (item_at eq k its)) k v]).
  rewrite <- map_app. set (new := _ ++ _). unfold zlength at 1. rewrite length_map. fold (zlength new). destruct (_ <? _); [| reflexivity].
  rewrite evict_items. destruct (evict vt new) as [[victim l] |]; reflexivity.
Qed.

Lemma plain_op_items op its :
  policy_op vt eq dk dv max op (map pair_of its) = let '(r, its', evs) := plain_op vt eq dk dv max op its in (r, map pair_of its', evs).
Proof using.
  destruct op as [k v | k | k | | |]; cbn [policy_op plain_op].
  - apply plain_put_items.
  - rewrite pair_at_items, but_items. unfold value_at, touch_item. destruct (item_at eq k its) as [it |]; cbn; destruct vt; cbn; now rewrite ?map_app.
  - rewrite pair_at_items, but_items. now destruct (item_at eq k its).
  - now rewrite map_map.
  - destruct its as [| it its]; cbn; [reflexivity |]. now rewrite map_app.
  - assert (last (map pair_of its) = pair_of <$> last its) as -> by apply fmap_last. now destruct (last its).
Qed.

Lemma plain_ops_items ops : forall its,
  policy_ops vt eq dk dv max ops (map pair_of its) = let '(rs, its', evs) := plain_ops vt eq dk dv max ops its in (rs, map pair_of its', evs).
Proof using.
  induction ops as [| op ops IH]; intros its; cbn [policy_ops plain_ops]; [reflexivity |]. rewrite plain_op_items.
  destruct (plain_op vt eq dk dv max op its) as [[r its1] evs]. rewrite IH. now destruct (plain_ops vt eq dk dv max ops its1) as [[rs its2] evs2].
Qed.
End forget.

(** The same operations on a cache; [0] where the function returns no value. *)
Definition run_op (c : aws_cache) (op : cache_op) : W (Z * aws_cache) :=
  match op with
  | Cache_put k v =>
      r ← aws_cache_put c k v;
      match r with
      | (AWS_OP_SUCCESS, c) => mret (0, c)
      | (AWS_OP_ERR _, c) => mret (-1, c)
      end
  | Cache_find k => v ← aws_cache_find c k; mret (v, c)
  | Cache_remove k => c ← aws_cache_remove c k; mret (0, c)
  | Cache_clear => c ← aws_cache_clear c; mret (0, c)
  | Cache_use_lru => v ← aws_lru_cache_use_lru_element c; mret (v, c)
  | Cache_get_mru => v ← aws_lru_cache_get_mru_element c; mret (v, c)
  end.

Fixpoint run_ops (c : aws_cache) (ops : list cache_op) : W (list Z * aws_cache) :=
  match ops with
  | [] => mret ([], c)
  | op :: ops =>
      r ← run_op c op;
      rs ← run_ops (snd r) ops;
      mret (fst r :: fst rs, snd rs)
  end.

(** The functions of [lru_cache.h] are for LRU caches. *)
Definition cache_allowed (vt : aws_cache_vtable) (op : cache_op) : Prop :=
  match op with
  | Cache_use_lru | Cache_get_mru => vt = s_lru_cache_vtable
  | _ => True
  end.

(** ** The node an eviction names *)

Section ops.
Context (base w : world) (t : aws_linked_hash_table) (xs : list (positive * item)).
Context {CB : KeyCallbacks (hash_fn (table t)) (equals_fn (table t))}.
Hypothesis H : rep base w t xs.
Local Abbreviation eq := (equals_fn (table t)).

Lemma rep_node_key xs1 p it xs2 :
  xs = xs1 ++ (p, it) :: xs2 ->
  item_at eq (item_node_key it) (map snd xs) = Some it
  /\ without eq (item_node_key it) (map snd xs) = map snd (xs1 ++ xs2).
Proof using H CB.
  intros Ex. pose proof (re_contents _ _ _ _ H) as HP. unfold contents in HP. symmetry in HP.
  pose proof (re_keys _ _ _ _ H) as Hk. rewrite Ex, Forall_app, Forall_cons in Hk. destruct Hk as (_ & Hk & _).
  rewrite Ex, map_app in HP. cbn [map] in HP. rewrite <- Permutation_middle, <- map_app in HP.
  apply Permutation_map_inv in HP as (es & E & HP). destruct es as [| e es]; [discriminate |].
  injection E as E1 E2. pose proof (ok_distinct _ (re_table _ _ _ _ H)) as HD.
  destruct (distinct_keys_perm (hash_fn (table t)) eq _ _ HP HD) as [HF _]. rewrite Forall_forall in HF.
  rewrite Ex. rewrite map_app. cbn [map snd]. rewrite (map_app snd xs1 xs2). apply item_at_split; [| exact Hk].
  rewrite <- map_app. apply Forall_fmap, Forall_forall. intros x Hx Hkx. unfold has_key in *. cbn in Hk, Hkx.
  assert (elem_of_item x ∈ map element es) as (e' & Ee & He')%list_elem_of_fmap
    by (rewrite <- E2; apply list_elem_of_fmap; eauto).
  specialize (HF e' He'). rewrite <- Ee, <- E1 in HF. cbn in HF.
  rewrite <- (safe_eq_cong (hash_fn (table t)) eq _ _ _ Hk) in HF. congruence.
Qed.
End ops.

(** ** Each operation *)

Section cache.
Context (hash : Z -> Z) (eq : Z -> Z -> bool) {CB : KeyCallbacks hash eq}.
Context (vt : aws_cache_vtable) (dk dv : bool) (max : Z) (base : world) (l : aws_linked_list).
Local Abbreviation calls := (item_calls dk dv).

(** The table of the cache holds the items of [xs]. *)
Record table_rep (w : world) (t : aws_linked_hash_table) (xs : list (positive * item)) : Prop := {
  tr_rep : rep base w t xs;
  tr_list : table_list t = l;
  tr_user : user_on_value_destroy t = dv;
  tr_dk : destroy_key_fn (table t) = dk;
  tr_hash : hash_fn (table t) = hash;
  tr_eq : equals_fn (table t) = eq
}.

Lemma tr_class w t xs : table_rep w t xs -> KeyCallbacks (hash_fn (table t)) (equals_fn (table t)).
Proof using CB. intros [_ _ _ _ -> ->]. exact CB. Qed.

Lemma tr_same w w' t t' xs xs' : table_rep w t xs -> same_table t t' -> rep base w' t' xs' -> table_rep w' t' xs'.
Proof using.
  intros [_ H2 H3 H4 H5 H6] [S1 S2 [C1 C2 C3 C4]] H. constructor; congruence || auto.
Qed.

Lemma tr_events w t xs it : table_rep w t xs -> item_events t it = calls it.
Proof using. intros H. unfold item_events, item_calls. now rewrite (tr_user _ _ _ H), (tr_dk _ _ _ H). Qed.

Record cache_rep (w : world) (c : aws_cache) (its : list item) : Prop := {
  cr_table : exists xs, table_rep w (cache_table c) xs /\ map snd xs = its;
  cr_vtable : vtable c = vt;
  cr_max : max_items c = max
}.

Definition op_post (w : world) (evs : list destroy_event) (its' : list item) (c' : aws_cache) (w' : world) : Prop :=
  cache_rep w' c' its' /\ exists evs', called w' = called w ++ evs' /\ evs' ≡ₚ evs.

Lemma cache_rep_count w c its : cache_rep w c its -> aws_cache_get_element_count c = zlength its.
Proof using. intros [(xs & H & <-) _ _]. exact (count_ok _ _ _ _ (tr_rep _ _ _ H)). Qed.

Lemma remove_key_rep w t xs k :
  table_rep w t xs ->
  exists w' t' xs', aws_linked_hash_table_remove t k w = Some (t', w') /\ table_rep w' t' xs'
    /\ map snd xs' = without eq k (map snd xs)
    /\ called w' = called w ++ from_option calls [] (item_at eq k (map snd xs)).
Proof using CB.
  intros H. pose proof (tr_class _ _ _ H) as CB'.
  destruct (remove_key_ok base w t xs (tr_rep _ _ _ H) k) as (w' & t' & xs' & E & Hr & Hs & Ex & Hc).
  rewrite (tr_eq _ _ _ H) in Ex, Hc. exists w', t', xs'. split_and!; auto.
  - exact (tr_same _ _ _ _ _ _ H Hs Hr).
  - rewrite Hc. f_equal. destruct (item_at eq k (map snd xs)) as [it |]; [| reflexivity]. cbn. exact (tr_events _ _ _ it H).
Qed.

(** Removing by the key in a node removes that node. *)
Lemma remove_node_key_ok w c xs1 p it xs2 :
  table_rep w (cache_table c) (xs1 ++ (p, it) :: xs2) -> vtable c = vt -> max_items c = max ->
  exists w' c', remove_node_key c p w = Some ((AWS_OP_SUCCESS, c'), w')
    /\ cache_rep w' c' (map snd (xs1 ++ xs2)) /\ called w' = called w ++ calls it.
Proof using CB.
  intros H Hv Hm. pose proof (tr_class _ _ _ H) as CB'. unfold remove_node_key.
  erewrite bind_W by exact (node_run base w _ _ (tr_rep _ _ _ H) xs1 p it xs2 eq_refl). cbn [node_of node_key].
  destruct (remove_key_rep w _ _ (item_node_key it) H) as (w' & t' & xs' & E & Hr & Ex & Hc).
  destruct (rep_node_key base w _ _ (tr_rep _ _ _ H) xs1 p it xs2 eq_refl) as [E1 E2].
  rewrite (tr_eq _ _ _ H) in E1, E2. rewrite E1 in Hc. rewrite E2 in Ex.
  erewrite bind_W by exact E. eexists w', _. split; [reflexivity |]. split; [| exact Hc].
  constructor; auto. eauto.
Qed.

(** Putting into the table, which is far from full. *)
Lemma put_rep w t xs k v :
  table_rep w t xs -> zlength xs < 2 ^ 58 ->
  exists w' t' xs', aws_linked_hash_table_put t k v w = Some ((AWS_OP_SUCCESS, t'), w') /\ table_rep w' t' xs'
    /\ map snd xs' = put_item eq k v (map snd xs)
    /\ called w' = called w ++ overwritten_calls dv (item_at eq k (map snd xs)).
Proof using CB.
  intros H Hlen. pose proof (tr_class _ _ _ H) as CB'.
  destruct (put_ok base w t xs (tr_rep _ _ _ H) k v) as (rv & w' & t' & E & Hp). destruct rv as [| e].
  - destruct Hp as (Hs & (xs' & Hr & Ex) & Hc). rewrite (tr_eq _ _ _ H) in *. rewrite (tr_user _ _ _ H) in Hc.
    exists w', t', xs'. split_and!; auto. exact (tr_same _ _ _ _ _ _ H Hs Hr).
  - exfalso. destruct Hp as (_ & _ & _ & _ & Hbig). rewrite zlength_map in Hbig. lia.
Qed.

Lemma front_node w t p it xs : table_rep w t ((p, it) :: xs) ->
  on_links (aws_linked_list_front (table_list t)) w = Some (Some p, w).
Proof using.
  intros H. pose proof (mo_list _ _ _ _ (re_mem _ _ _ _ (tr_rep _ _ _ H))) as Hl.
  erewrite on_links_run by exact (front_run _ _ _ Hl). now destruct w.
Qed.

Lemma back_node w t p it xs : table_rep w t (xs ++ [(p, it)]) ->
  on_links (aws_linked_list_back (table_list t)) w = Some (Some p, w).
Proof using.
  intros H. pose proof (mo_list _ _ _ _ (re_mem _ _ _ _ (tr_rep _ _ _ H))) as Hl.
  erewrite on_links_run by exact (back_run _ _ _ Hl). rewrite map_app. cbn. rewrite before_of_last. now destruct w.
Qed.

(** The links of the last node lead to the last but one. *)
Lemma last_node w t q iq p it xs : table_rep w t ((xs ++ [(q, iq)]) ++ [(p, it)]) ->
  exists n, on_links (get_node p) w = Some (n, w) /\ prev n = Some q.
Proof using.
  intros H. pose proof (mo_list _ _ _ _ (re_mem _ _ _ _ (tr_rep _ _ _ H))) as Hl.
  rewrite !map_app in Hl. cbn [map fst] in Hl.
  destruct (neighbours _ _ (map fst xs ++ [q]) [p] Hl) as (_ & Hp & _ & Hh & _).
  rewrite before_of_last in Hp. cbn in Hp, Hh. eexists. split.
  - erewrite on_links_run by (apply get_node_run; exact Hh). now destruct w.
  - exact Hp.
Qed.

Lemma empty_node w t xs : table_rep w t xs ->
  on_links (aws_linked_list_empty (table_list t)) w = Some (bool_decide (xs = []), w).
Proof using.
  intros H. pose proof (mo_list _ _ _ _ (re_mem _ _ _ _ (tr_rep _ _ _ H))) as Hl.
  erewrite on_links_run by exact (empty_run _ _ _ Hl).
  rewrite (bool_decide_ext (map fst xs = []) (xs = [])); [now destruct w |]. now destruct xs.
Qed.

Lemma evict_split (xs : list (positive * item)) (its : list item) :
  map snd xs = its -> 1 <= max -> max < zlength its ->
  match vt with
  | s_lifo_cache_vtable => exists ys q iq p it, xs = (ys ++ [(q, iq)]) ++ [(p, it)]
      /\ evict vt its = Some (iq, map snd (ys ++ [(p, it)]))
  | _ => exists p it ys, xs = (p, it) :: ys /\ evict vt its = Some (it, map snd ys)
  end.
Proof using.
  intros <- H1 H2. rewrite zlength_map in H2. destruct vt; cbn [evict].
  - destruct xs as [| [p it] ys]; [unfold zlength in H2; cbn in H2; lia |]. exists p, it, ys. auto.
  - destruct xs as [| [p it] ys]; [unfold zlength in H2; cbn in H2; lia |]. exists p, it, ys. auto.
  - destruct xs as [| [p it] xs _] using rev_ind; [unfold zlength in H2; cbn in H2; lia |].
    destruct xs as [| [q iq] ys _] using rev_ind; [unfold zlength in H2; cbn in H2; lia |].
    exists ys, q, iq, p, it. split; [reflexivity |]. rewrite !map_app, !rev_app_distr. cbn. now rewrite rev_involutive.
Qed.

Lemma put_post_intro w w1 w2 c evs its : called w1 = called w ++ evs ->
  forall evs2, cache_rep w2 c its -> called w2 = called w1 ++ evs2 -> op_post w (evs ++ evs2) its c w2.
Proof using. intros E evs2 H E2. split; [exact H |]. exists (evs ++ evs2). now rewrite E2, E, app_assoc. Qed.

Lemma cache_put_ok w c its k v :
  cache_rep w c its -> 1 <= max < 2 ^ 58 -> zlength its <= max ->
  let '(_, its', evs) := plain_put vt eq dk dv max k v its in
  exists w' c', aws_cache_put c k v w = Some ((AWS_OP_SUCCESS, c'), w') /\ op_post w evs its' c' w'.
Proof using CB.
  intros [(xs & H & <-) Hv Hm] Hmax Hlen. rewrite zlength_map in Hlen.
  destruct (put_rep w (cache_table c) xs k v H) as (w1 & t1 & xs1 & E & H1 & Ex & Hc); [lia |].
  set (c1 := with_cache_table c t1). unfold plain_put. rewrite <- Ex.
  pose proof (count_ok _ _ _ _ (tr_rep _ _ _ H1)) as Hcount.
  destruct (Z.ltb_spec max (zlength (map snd xs1))) as [Hover | Hfit].
  - pose proof (evict_split xs1 _ eq_refl (proj1 Hmax) Hover) as Hev. unfold aws_cache_put. rewrite Hv.
    assert (forall p it ys zs, xs1 = ys ++ (p, it) :: zs -> exists w' c',
      remove_node_key c1 p w1 = Some ((AWS_OP_SUCCESS, c'), w')
      /\ op_post w (overwritten_calls dv (item_at eq k (map snd xs)) ++ calls it) (map snd (ys ++ zs)) c' w') as Hrm.
    { intros p it ys zs E'. subst xs1. destruct (remove_node_key_ok w1 c1 ys p it zs H1 Hv Hm) as (w' & c' & E' & Hr & Hc').
      exists w', c'. split; [exact E' |]. exact (put_post_intro w w1 w' c' _ _ Hc _ Hr Hc'). }
    destruct vt; unfold s_fifo_cache_put, s_lru_cache_put, s_lifo_cache_put; erewrite bind_W by exact E;
      cbn iota; fold c1; change (cache_table c1) with t1; change (max_items c1) with (max_items c);
      unfold aws_linked_hash_table_get_iteration_list; rewrite Hm, Hcount, (proj2 (Z.ltb_lt _ _)) by exact Hover.
    1,2: destruct Hev as (p & it & ys & E' & ->); subst xs1; erewrite bind_W by exact (front_node _ _ _ _ _ H1);
      erewrite bind_W by (destruct w1; reflexivity); exact (Hrm p it [] ys eq_refl).
    destruct Hev as (ys & q & iq & p & it & E' & ->). rewrite E' in H1.
    erewrite bind_W by exact (back_node _ _ _ _ _ H1). erewrite bind_W by (destruct w1; reflexivity).
    destruct (last_node _ _ _ _ _ _ _ H1) as (n & En & Hn). erewrite bind_W by exact En. rewrite Hn.
    apply (Hrm q iq ys [(p, it)]). now rewrite E', <- app_assoc.
  - exists w1, c1. split.
    + unfold aws_cache_put, s_fifo_cache_put, s_lru_cache_put, s_lifo_cache_put.
      destruct (vtable c); erewrite bind_W by exact E; cbn iota; change (max_items (with_cache_table c t1)) with (max_items c);
        change (cache_table (with_cache_table c t1)) with t1; rewrite Hm, Hcount, (proj2 (Z.ltb_ge _ _)) by exact Hfit; reflexivity.
    + split; [constructor; auto; eauto |]. eauto.
Qed.

Lemma unchanged w c its : cache_rep w c its -> op_post w [] its c w.
Proof using. intros H. split; [exact H |]. exists []. now rewrite app_nil_r. Qed.

Lemma quiet w w' c its : cache_rep w' c its -> called w' = called w -> op_post w [] its c w'.
Proof using. intros H E. split; [exact H |]. exists []. now rewrite app_nil_r. Qed.

Lemma cache_find_ok w c its k : cache_rep w c its ->
  exists w', aws_cache_find c k w = Some (value_at eq k its, w')
    /\ op_post w [] (match vt with s_lru_cache_vtable => touch_item eq k its | _ => its end) c w'.
Proof using CB.
  intros H. pose proof H as [(xs & Ht & <-) Hv Hm]. pose proof (tr_class _ _ _ Ht) as CB'. unfold aws_cache_find. rewrite Hv.
  pose proof (find_ok base w (cache_table c) xs (tr_rep _ _ _ Ht) k) as Hf. rewrite (tr_eq _ _ _ Ht) in Hf.
  destruct vt eqn:Evt; [| exists w; split; [exact Hf | now apply unchanged] ..].
  destruct (find_and_move_ok base w (cache_table c) xs (tr_rep _ _ _ Ht) k) as (w' & xs' & E & Hr & Ex & Hc).
  rewrite (tr_eq _ _ _ Ht) in E, Ex. exists w'. split; [exact E |]. apply quiet; [| exact Hc].
  constructor; [| congruence | exact Hm]. exists xs'. split; [| exact Ex]. exact (tr_same _ _ _ _ _ _ Ht (same_table_refl _) Hr).
Qed.

Lemma cache_clear_ok w c its : cache_rep w c its ->
  exists w' c', aws_cache_clear c w = Some (c', w') /\ op_post w (concat (map calls its)) [] c' w'.
Proof using.
  intros [(xs & Ht & <-) Hv Hm].
  destruct (clear_ok base w (cache_table c) xs (tr_rep _ _ _ Ht)) as (w' & t' & ys & E & Hr & Hs & HP & Hc).
  unfold aws_cache_clear, aws_cache_base_default_clear. erewrite bind_W by exact E.
  eexists w', _. split; [reflexivity |]. split.
  - constructor; auto. exists []. split; [exact (tr_same _ _ _ _ _ _ Ht Hs Hr) | reflexivity].
  - eexists. split; [exact Hc |]. rewrite (map_ext (item_events (cache_table c)) calls) by (intros; now apply (tr_events w _ xs)).
    now rewrite HP.
Qed.

Lemma use_lru_ok w c its : cache_rep w c its -> vt = s_lru_cache_vtable ->
  let '(v, its', _) := plain_op vt eq dk dv max Cache_use_lru its in
  exists w', aws_lru_cache_use_lru_element c w = Some (v, w') /\ op_post w [] its' c w'.
Proof using.
  intros H Hvt. pose proof H as [(xs & Ht & <-) Hv Hm].
  unfold aws_lru_cache_use_lru_element, s_lru_cache_use_lru_element, aws_linked_hash_table_get_iteration_list.
  rewrite Hv, Hvt. erewrite bind_W by exact (empty_node _ _ _ Ht). cbn [plain_op].
  destruct xs as [| [p it] xs]; cbn [map snd]; [exists w; split; [reflexivity | now apply unchanged] |].
  rewrite bool_decide_eq_false_2 by easy. erewrite bind_W by exact (front_node _ _ _ _ _ Ht).
  erewrite bind_W by (destruct w; reflexivity).
  destruct (move_to_end_ok base _ (cache_table c) w [] p it xs eq_refl (re_mem _ _ _ _ (tr_rep _ _ _ Ht)))
    as (w' & E & Hm' & Hc). erewrite bind_W by exact E. cbn [app] in Hm'.
  assert (table_rep w' (cache_table c) (xs ++ [(p, it)])) as Ht'.
  { apply (tr_same _ w' _ _ _ _ Ht (same_table_refl _)). destruct (tr_rep _ _ _ Ht) as [_ R2 R3 R4 R5].
    constructor; auto; now rewrite <- Permutation_cons_append. }
  erewrite bind_W by exact (node_run base w' _ _ (tr_rep _ _ _ Ht') xs p it [] eq_refl).
  exists w'. split; [reflexivity |]. apply quiet; [| exact Hc]. constructor; auto. exists (xs ++ [(p, it)]).
  split; [exact Ht' |]. now rewrite map_app.
Qed.

Lemma get_mru_ok w c its : cache_rep w c its -> vt = s_lru_cache_vtable ->
  aws_lru_cache_get_mru_element c w = Some (from_option item_value 0 (last its), w).
Proof using.
  intros [(xs & Ht & <-) Hv Hm] Hvt.
  unfold aws_lru_cache_get_mru_element, s_lru_cache_get_mru_element, aws_linked_hash_table_get_iteration_list.
  rewrite Hv, Hvt. erewrite bind_W by exact (empty_node _ _ _ Ht).
  destruct xs as [| [p it] xs _] using rev_ind; [reflexivity |].
  rewrite bool_decide_eq_false_2 by (intros E; now apply app_eq_nil in E).
  erewrite bind_W by exact (back_node _ _ _ _ _ Ht). erewrite bind_W by (destruct w; reflexivity).
  erewrite bind_W by exact (node_run base w _ _ (tr_rep _ _ _ Ht) xs p it [] eq_refl).
  rewrite map_app. cbn [map snd]. now rewrite last_snoc.
Qed.

Lemma cache_op_ok w c its op :
  cache_rep w c its -> 1 <= max < 2 ^ 58 -> zlength its <= max -> cache_allowed vt op ->
  let '(r, its', evs) := plain_op vt eq dk dv max op its in
  exists w' c', run_op c op w = Some ((r, c'), w') /\ op_post w evs its' c' w'.
Proof using CB.
  intros H Hmax Hlen Ha. destruct op as [k v | k | k | | |]; cbn [plain_op run_op cache_allowed] in *.
  - pose proof (cache_put_ok w c its k v H Hmax Hlen) as Hp.
    assert (fst (fst (plain_put vt eq dk dv max k v its)) = 0) as E0
      by (unfold plain_put; zcase; [destruct (evict vt _) as [[? ?] |] |]; reflexivity).
    destruct (plain_put vt eq dk dv max k v its) as [[r its'] evs]. cbn in E0. subst r.
    destruct Hp as (w' & c' & E & Hp). erewrite bind_W by exact E. eauto.
  - destruct (cache_find_ok w c its k H) as (w' & E & Hp). erewrite bind_W by exact E. exists w', c. auto.
  - destruct H as [(xs & Ht & <-) Hv Hm].
    destruct (remove_key_rep w _ xs k Ht) as (w' & t' & xs' & E & Hr & Ex & Hc).
    unfold aws_cache_remove, aws_cache_base_default_remove.
    exists w', (with_cache_table c t'). split; [| split; [constructor; eauto | eauto]].
    erewrite bind_W by (erewrite bind_W by exact E; reflexivity). reflexivity.
  - destruct (cache_clear_ok w c its H) as (w' & c' & E & Hp). erewrite bind_W by exact E. eauto.
  - pose proof (use_lru_ok w c its H Ha) as Hu. cbn [plain_op] in Hu.
    destruct its as [| it its]; destruct Hu as (w' & E & Hp); erewrite bind_W by exact E; exists w', c; auto.
  - erewrite bind_W by exact (get_mru_ok w c its H Ha). exists w, c. split; [reflexivity |]. now apply unchanged.
Qed.

Lemma without_length k its : zlength (without eq k its) <= zlength its.
Proof using. unfold without, zlength. pose proof (length_filter (fun it => ~ has_key eq k it) its). lia. Qed.

Lemma evict_some (its : list item) : 2 <= zlength its -> exists it its', evict vt its = Some (it, its') /\ it :: its' ≡ₚ its.
Proof using.
  intros H. destruct vt; cbn [evict].
  - destruct its as [| it its]; [unfold zlength in H; cbn in H; lia |]. eauto.
  - destruct its as [| it its]; [unfold zlength in H; cbn in H; lia |]. eauto.
  - destruct its as [| it its _] using rev_ind; [unfold zlength in H; cbn in H; lia |].
    destruct its as [| iq its _] using rev_ind; [unfold zlength in H; cbn in H; lia |].
    rewrite !rev_app_distr. cbn [rev app]. rewrite rev_involutive. eexists _, _. split; [reflexivity |].
    rewrite <- app_assoc. cbn [app]. now rewrite Permutation_middle.
Qed.

Lemma touch_length k its : zlength (touch_item eq k its) <= zlength its.
Proof using.
  unfold touch_item. destruct (item_at eq k its) as [it |] eqn:E; [| lia].
  rewrite zlength_app. unfold without. change (zlength [it]) with 1.
  induction its as [| x its IH]; [discriminate |]. cbn in E. rewrite zlength_cons. case_decide as Hx.
  - rewrite filter_cons_False by tauto. pose proof (without_length k its). unfold without in *. lia.
  - rewrite filter_cons_True by exact Hx. rewrite zlength_cons. specialize (IH E). lia.
Qed.

(** No operation takes the cache above its limit. *)
Lemma plain_op_bound op its : 1 <= max -> zlength its <= max ->
  zlength (snd (fst (plain_op vt eq dk dv max op its))) <= max.
Proof using.
  intros H1 H. destruct op as [k v | k | k | | |]; cbn [plain_op fst snd].
  - unfold plain_put. destruct (Z.ltb_spec max (zlength (put_item eq k v its))) as [Hover | Hfit]; [| exact Hfit].
    destruct (evict_some (put_item eq k v its)) as (it & its' & -> & HP); [lia |]. cbn [fst snd].
    apply zlength_perm in HP. rewrite zlength_cons in HP. unfold put_item in HP. rewrite zlength_app in HP.
    pose proof (without_length k its). change (zlength [_]) with 1 in HP. lia.
  - pose proof (touch_length k its). destruct vt; lia.
  - pose proof (without_length k its). lia.
  - unfold zlength. cbn. lia.
  - destruct its as [| it its]; [exact H |]. cbn [fst snd]. rewrite zlength_app. rewrite zlength_cons in H. change (zlength [it]) with 1. lia.
  - exact H.
Qed.

Lemma cache_ops_ok ops : Forall (cache_allowed vt) ops -> forall w c its,
  cache_rep w c its -> 1 <= max < 2 ^ 58 -> zlength its <= max ->
  let '(rs, its', evs) := plain_ops vt eq dk dv max ops its in
  exists w' c', run_ops c ops w = Some ((rs, c'), w') /\ op_post w evs its' c' w' /\ zlength its' <= max.
Proof using CB.
  induction 1 as [| op ops Ha _ IH]; intros w c its H Hmax Hlen; cbn [plain_ops run_ops].
  { exists w, c. split; [reflexivity |]. split; [now apply unchanged | exact Hlen]. }
  pose proof (cache_op_ok w c its op H Hmax Hlen Ha) as H1.
  pose proof (plain_op_bound op its (proj1 Hmax) Hlen) as Hb.
  destruct (plain_op vt eq dk dv max op its) as [[r its1] evs]. destruct H1 as (w1 & c1 & E1 & Hr & evs1 & Hc1 & HP1).
  cbn [fst snd] in Hb. specialize (IH w1 c1 its1 Hr Hmax Hb).
  destruct (plain_ops vt eq dk dv max ops its1) as [[rs its2] evs2]. destruct IH as (w2 & c2 & E2 & (Hr2 & evs2' & Hc2 & HP2) & Hb2).
  erewrite bind_W by exact E1. cbn [fst snd]. erewrite bind_W by exact E2. exists w2, c2. split; [reflexivity |].
  split; [| exact Hb2]. split; [exact Hr2 |]. exists (evs1 ++ evs2'). split; [now rewrite Hc2, Hc1, app_assoc |].
  now rewrite HP1, HP2.
Qed.
End cache.

(** ** Creating and destroying *)

Definition same_memory (w w' : world) : Prop :=
  node_links w' = node_links w /\ table_nodes w' = table_nodes w.

Lemma table_init_ok l hash eq dk dv n w {CB : KeyCallbacks hash eq} :
  holds (node_links w) (head l) -> holds (node_links w) (tail l) -> head l <> tail l -> 0 <= n <= 2 ^ 59 ->
  exists t w', aws_linked_hash_table_init l hash eq dk dv n w = Some (Ok t, w')
    /\ table_rep hash eq dk dv w l w' t [] /\ called w' = called w.
Proof.
  intros Hh Ht Hne Hn. destruct (init_ok (node_links w) l Hh Ht Hne) as (h' & Ei & Hok & [_ Hc]).
  unfold aws_linked_hash_table_init. erewrite bind_W by (apply on_links_run; exact Ei).
  destruct (init_spec n hash eq dk true) as [(e & Ee & _ & Hbig) | (st & k & Est & Hst & _ & Hent & I1 & I2 & I3 & I4 & _)]; [lia | lia |].
  rewrite Est. eexists _, _. split; [reflexivity |]. split; [| reflexivity].
  constructor; cbn [table_list table user_on_value_destroy]; auto.
  constructor; cbn [table_list table user_on_value_destroy map]; auto.
  - constructor; cbn [node_links table_nodes map]; auto.
    + intros p it Hp. now apply not_elem_of_nil in Hp.
    + intros p Hp. now apply not_elem_of_nil in Hp.
  - unfold contents. now rewrite Hent.
Qed.

Lemma new_cache_ok vt hash eq dk dv max w {CB : KeyCallbacks hash eq} :
  1 <= max < 2 ^ 58 ->
  exists c base l w', new_cache vt hash eq dk dv max w = Some (Some c, w')
    /\ cache_rep hash eq vt dk dv max base l w' c []
    /\ node_links w !! head l = None /\ node_links w !! tail l = None /\ head l <> tail l
    /\ node_links base = <[tail l := mk_node None None]> (<[head l := mk_node None None]> (node_links w))
    /\ table_nodes base = table_nodes w /\ called w' = called w.
Proof.
  intros Hmax. unfold new_cache. set (used := dom (node_links w) ∪ dom (table_nodes w)).
  set (h := fresh used). set (tl := fresh ({[h]} ∪ used)). set (l := mk_list h tl).
  set (base := mk_world (<[tl := mk_node None None]> (<[h := mk_node None None]> (node_links w))) (table_nodes w) (called w)).
  pose proof (is_fresh used) as F1. fold h in F1. pose proof (is_fresh ({[h]} ∪ used)) as F2. fold tl in F2.
  unfold used in F1, F2. rewrite not_elem_of_union, not_elem_of_dom in F1.
  rewrite !not_elem_of_union, not_elem_of_singleton, !not_elem_of_dom in F2.
  destruct F1 as [F1 _], F2 as (F2 & F3 & _).
  assert (acquire_cache w = Some (l, base)) as Ea by reflexivity. erewrite bind_W by exact Ea.
  destruct (table_init_ok l hash eq dk dv max base) as (t & w' & Et & Ht & Hc).
  { unfold holds. cbn [node_links base head l]. rewrite lookup_insert_ne by congruence. rewrite lookup_insert_eq. eauto. }
  { unfold holds. cbn [node_links base tail l]. rewrite lookup_insert_eq. eauto. }
  { cbn. congruence. }
  { lia. }
  erewrite bind_W by exact Et. eexists _, base, l, w'. split; [reflexivity |].
  split_and!; auto. constructor; auto. exists []. split; [exact Ht | reflexivity].
Qed.

Lemma destroy_ok hash eq vt dk dv max base l w0 w c its :
  cache_rep hash eq vt dk dv max base l w c its ->
  node_links w0 !! head l = None -> node_links w0 !! tail l = None -> head l <> tail l ->
  node_links base = <[tail l := mk_node None None]> (<[head l := mk_node None None]> (node_links w0)) ->
  table_nodes base = table_nodes w0 ->
  exists w' evs, aws_cache_destroy c w = Some (tt, w') /\ same_memory w0 w'
    /\ called w' = called w ++ evs /\ evs ≡ₚ concat (map (item_calls dk dv) its).
Proof.
  intros [(xs & Ht & <-) _ _] B1 B2 Hne B3 B4.
  destruct (clean_up_ok base w (cache_table c) xs (tr_rep _ _ _ _ _ _ _ _ _ Ht)) as (w1 & ys & E & Hm & HP & Hc).
  unfold aws_cache_destroy, aws_cache_base_default_destroy. erewrite bind_W by exact E.
  rewrite (tr_list _ _ _ _ _ _ _ _ _ Ht) in *. pose proof (list_ok_ends _ _ _ (mo_list _ _ _ _ Hm)) as [[n1 E1] [n2 E2]].
  unfold release_cache. rewrite E1, E2. eexists _, _. split; [reflexivity |]. split; [| split; [exact Hc |]].
  - split; apply map_eq; intros p; cbn [node_links table_nodes].
    + destruct (decide (p = tail l)) as [-> | N1]; [now rewrite lookup_delete_eq |]. rewrite lookup_delete_ne by congruence.
      destruct (decide (p = head l)) as [-> | N2]; [now rewrite lookup_delete_eq |]. rewrite lookup_delete_ne by congruence.
      rewrite (mo_links _ _ _ _ Hm) by (rewrite elem_of_path; intros [? | [?%not_elem_of_nil | ?]]; easy).
      rewrite B3, !lookup_insert_ne by congruence. reflexivity.
    + rewrite (mo_nodes _ _ _ _ Hm) by apply not_elem_of_nil. now rewrite B4.
  - rewrite (map_ext (item_events (cache_table c)) (item_calls dk dv)) by (intros; exact (tr_events _ _ _ _ _ _ _ _ xs _ Ht)).
    now rewrite HP.
Qed.

(** ** No value is lost *)

Definition values_put (op : cache_op) : list Z := match op with Cache_put _ v => [v] | _ => [] end.

Lemma destroyed_app evs evs' : destroyed_values (evs ++ evs') = destroyed_values evs ++ destroyed_values evs'.
Proof. apply omap_app. Qed.

Lemma destroyed_perm evs evs' : evs ≡ₚ evs' -> destroyed_values evs ≡ₚ destroyed_values evs'.
Proof. intros H. unfold destroyed_values. now rewrite H. Qed.

Lemma destroyed_items dk its : destroyed_values (concat (map (item_calls dk true) its)) = map item_value its.
Proof.
  induction its as [| it its IH]; [reflexivity |]. cbn [map concat]. rewrite destroyed_app, IH. now destruct dk.
Qed.

Lemma destroyed_item dk it : destroyed_values (item_calls dk true it) = [item_value it].
Proof. now destruct dk. Qed.

Lemma destroyed_old old : destroyed_values (overwritten_calls true old) = map item_value (option_list old).
Proof. now destruct old. Qed.

(** At most one item has a key. *)
Definition one_per_key (eq : Z -> Z -> bool) (its : list item) : Prop :=
  forall k, option_list (item_at eq k its) ++ without eq k its ≡ₚ its.

Lemma cache_one_per_key hash eq vt dk dv max base l w c its {CB : KeyCallbacks hash eq} :
  cache_rep hash eq vt dk dv max base l w c its -> one_per_key eq its.
Proof.
  intros [(xs & Ht & <-) _ _] k. pose proof (tr_class hash eq _ _ _ _ _ _ _ Ht) as CB'.
  pose proof (rep_cases base w _ xs (tr_rep _ _ _ _ _ _ _ _ _ Ht) k) as Hc.
  rewrite (tr_eq _ _ _ _ _ _ _ _ _ Ht) in Hc.
  destruct Hc as [(_ & -> & ->) | (xs1 & p & it & xs2 & Ex & _ & _ & -> & ->)]; [reflexivity |].
  rewrite Ex, !map_app. exact (Permutation_middle (map snd xs1) (map snd xs2) it).
Qed.

Lemma plain_op_conserved vt eq dk max op its :
  1 <= max -> one_per_key eq its ->
  let '(_, its', evs) := plain_op vt eq dk true max op its in
  destroyed_values evs ++ map item_value its' ≡ₚ values_put op ++ map item_value its.
Proof.
  intros Hmax Hu. destruct op as [k v | k | k | | |]; cbn [plain_op values_put app].
  - assert (destroyed_values (overwritten_calls true (item_at eq k its)) ++ map item_value (put_item eq k v its)
      ≡ₚ v :: map item_value its) as Hp.
    { rewrite destroyed_old. unfold put_item. rewrite map_app, app_assoc, <- map_app, (Hu k). cbn.
      symmetry. apply Permutation_cons_append. }
    unfold plain_put. destruct (Z.ltb_spec max (zlength (put_item eq k v its))) as [Hover | _]; [| exact Hp].
    destruct (evict_some vt (put_item eq k v its)) as (it & its' & -> & HP); [lia |].
    rewrite destroyed_app, destroyed_item, <- app_assoc, <- Hp. apply Permutation_app_head.
    cbn [app]. exact (Permutation_map item_value HP).
  - destruct vt; try reflexivity. apply Permutation_map. unfold touch_item. pose proof (Hu k) as Hk.
    destruct (item_at eq k its) as [it |]; [| reflexivity]. rewrite <- Permutation_cons_append. exact Hk.
  - rewrite <- (Permutation_map item_value (Hu k)), map_app. apply Permutation_app_tail.
    destruct (item_at eq k its) as [it |]; [cbn [from_option]; now rewrite destroyed_item | reflexivity].
  - rewrite destroyed_items, app_nil_r. reflexivity.
  - destruct its as [| it its]; [reflexivity |]. cbn. rewrite map_app. symmetry. apply Permutation_cons_append.
  - reflexivity.
Qed.

Lemma plain_ops_conserved hash eq vt dk max base l ops {CB : KeyCallbacks hash eq} :
  1 <= max < 2 ^ 58 -> Forall (cache_allowed vt) ops -> forall w c its,
  cache_rep hash eq vt dk true max base l w c its -> zlength its <= max ->
  let '(_, its', evs) := plain_ops vt eq dk true max ops its in
  destroyed_values evs ++ map item_value its' ≡ₚ concat (map values_put ops) ++ map item_value its.
Proof.
  intros Hmax. induction 1 as [| op ops Ha _ IH]; intros w c its H Hlen; cbn [plain_ops map concat]; [reflexivity |].
  pose proof (plain_op_conserved vt eq dk max op its (proj1 Hmax) (cache_one_per_key _ _ _ _ _ _ _ _ _ _ _ H)) as H1.
  pose proof (cache_op_ok hash eq vt dk true max base l w c its op H Hmax Hlen Ha) as Hrun.
  pose proof (plain_op_bound eq vt dk true max op its (proj1 Hmax) Hlen) as Hb.
  destruct (plain_op vt eq dk true max op its) as [[r its1] evs]. destruct Hrun as (w1 & c1 & _ & Hr & _).
  specialize (IH w1 c1 its1 Hr Hb). destruct (plain_ops vt eq dk true max ops its1) as [[rs its2] evs2].
  rewrite destroyed_app, <- !app_assoc, IH, (Permutation_app_swap_app (destroyed_values evs)), H1.
  apply Permutation_app_swap_app.
Qed.

(** C7: any history of calls on a cache made by [aws_cache_new_lru],
    [aws_cache_new_fifo] or [aws_cache_new_lifo] behaves as the same history on an
    ordered list of pairs of a key and a value: every call succeeds and returns
    what the list returns, the cache never holds more than [max_items] pairs, and
    an insertion into a full cache evicts the least recently used, the oldest or
    the previously newest pair. The destructors are called exactly as the list
    says: for the key and the value of each pair that is evicted, removed or
    cleared, and for the old value alone when a pair is replaced. Such a pair keeps
    its first key; no destructor is called for the key that replaced it. *)
Theorem cache_refines_policy (vt : aws_cache_vtable) (hash : Z -> Z) (eq : Z -> Z -> bool) (dk dv : bool)
    (max : Z) (ops : list cache_op) (w : world) {CB : KeyCallbacks hash eq} :
  1 <= max < 2 ^ 58 -> Forall (cache_allowed vt) ops ->
  let '(rs, es, evs) := policy_ops vt eq dk dv max ops [] in
  exists c w1 c' w', new_cache vt hash eq dk dv max w = Some (Some c, w1)
    /\ run_ops c ops w1 = Some ((rs, c'), w')
    /\ aws_cache_get_element_count c' = zlength es /\ zlength es <= max
    /\ exists evs', called w' = called w ++ evs' /\ evs' ≡ₚ evs.
Proof.
  intros Hmax Ha. change [] with (map pair_of []). rewrite plain_ops_items.
  destruct (new_cache_ok vt hash eq dk dv max w Hmax) as (c & base & l & w1 & En & Hr & _ & _ & _ & _ & _ & Hc).
  pose proof (cache_ops_ok hash eq vt dk dv max base l ops Ha w1 c [] Hr Hmax) as Hrun.
  destruct (plain_ops vt eq dk dv max ops []) as [[rs its] evs]. unfold zlength at 1 2. rewrite length_map. fold (zlength its).
  destruct Hrun as (w' & c' & E & (Hr' & evs' & He & HP) & Hb); [change (zlength []) with 0; lia |].
  exists c, w1, c', w'. split_and!; auto; [exact (cache_rep_count _ _ _ _ _ _ _ _ _ _ _ Hr') |].
  exists evs'. split; [now rewrite He, Hc | exact HP].
Qed.

(** C13: after any history of calls [aws_cache_destroy] succeeds: every node of the
    linked hash table and the cache's own structure have been released, none of
    them twice, and the links and nodes in memory are those from before the cache
    was made. By then every value ever put into the cache has been passed to the
    user's destructor exactly once. The block of slots of the hash table is not
    part of this memory. *)
Theorem cache_values_conserved (vt : aws_cache_vtable) (hash : Z -> Z) (eq : Z -> Z -> bool) (dk : bool)
    (max : Z) (ops : list cache_op) (w : world) {CB : KeyCallbacks hash eq} :
  1 <= max < 2 ^ 58 -> Forall (cache_allowed vt) ops ->
  exists c w1 rs c' w2 w3 evs, new_cache vt hash eq dk true max w = Some (Some c, w1)
    /\ run_ops c ops w1 = Some ((rs, c'), w2) /\ aws_cache_destroy c' w2 = Some (tt, w3)
    /\ same_memory w w3 /\ called w3 = called w ++ evs
    /\ destroyed_values evs ≡ₚ concat (map values_put ops).
Proof.
  intros Hmax Ha.
  destruct (new_cache_ok vt hash eq dk true max w Hmax) as (c & base & l & w1 & En & Hr & B1 & B2 & B3 & B4 & B5 & Hc).
  assert (zlength (@nil item) <= max) as H0 by (change (zlength []) with 0; lia).
  pose proof (cache_ops_ok hash eq vt dk true max base l ops Ha w1 c [] Hr Hmax H0) as Hrun.
  pose proof (plain_ops_conserved hash eq vt dk max base l ops Hmax Ha w1 c [] Hr H0) as Hcons.
  destruct (plain_ops vt eq dk true max ops []) as [[rs its] evs].
  destruct Hrun as (w2 & c' & E & (Hr' & evs1 & He & HP) & _).
  destruct (destroy_ok _ _ _ _ _ _ _ _ w _ _ _ Hr' B1 B2 B3 B4 B5) as (w3 & evs2 & Ed & Hm & He2 & HP2).
  exists c, w1, rs, c', w2, w3, (evs1 ++ evs2). split_and!; auto.
  - now rewrite He2, He, Hc, app_assoc.
  - rewrite destroyed_app, (destroyed_perm _ _ HP), (destroyed_perm _ _ HP2), destroyed_items, Hcons.
    cbn [map]. now rewrite app_nil_r.
Qed.

Definition empty_world : world := mk_world ∅ ∅ [].

Lemma cache_refines_policy_witness :
  exists c w1 c' w', new_cache s_lru_cache_vtable u64 aws_ptr_eq true true 2 empty_world = Some (Some c, w1)
    /\ run_ops c [Cache_put 10 100; Cache_put 20 200; Cache_find 10; Cache_put 30 300; Cache_find 20] w1
       = Some (([0; 0; 100; 0; 0], c'), w')
    /\ aws_cache_get_element_count c' = 2
    /\ exists evs, called w' = evs /\ evs ≡ₚ [DestroyKey 20; DestroyValue 200].
Proof.
  destruct (cache_refines_policy s_lru_cache_vtable u64 aws_ptr_eq true true 2
    [Cache_put 10 100; Cache_put 20 200; Cache_find 10; Cache_put 30 300; Cache_find 20] empty_world)
    as (c & w1 & c' & w' & En & E & Hn & _ & evs & He & HP).
  - lia.
  - repeat constructor.
  - exists c, w1, c', w'. split_and!; auto. exists evs. auto.
Defined.

Lemma cache_values_conserved_witness :
  exists c w1 rs c' w2 w3 evs, new_cache s_lifo_cache_vtable u64 aws_ptr_eq true true 1 empty_world = Some (Some c, w1)
    /\ run_ops c [Cache_put 10 100; Cache_put 20 200; Cache_put 20 201] w1 = Some ((rs, c'), w2)
    /\ aws_cache_destroy c' w2 = Some (tt, w3)
    /\ same_memory empty_world w3 /\ called w3 = evs /\ destroyed_values evs ≡ₚ [100; 200; 201].
Proof.
  destruct (cache_values_conserved s_lifo_cache_vtable u64 aws_ptr_eq true 1
    [Cache_put 10 100; Cache_put 20 200; Cache_put 20 201] empty_world)
    as (c & w1 & rs & c' & w2 & w3 & evs & H).
  - lia.
  - repeat constructor.
  - exists c, w1, rs, c', w2, w3, evs. exact H.
Defined.

(** A LIFO cache of no items reads its own sentinel as an item: the test for
    a missing predecessor never applies. *)
Lemma lifo_put_no_capacity :
  match new_cache s_lifo_cache_vtable u64 aws_ptr_eq true true 0 empty_world with
  | Some (Some c, w) => aws_cache_put c 10 100 w = None
  | _ => False
  end.
Proof. vm_compute. reflexivity. Qed.

(** When the hash table cannot be set up, the memory of the cache stays
    allocated. *)
Lemma new_cache_leaks :
  match new_cache s_lru_cache_vtable u64 aws_ptr_eq true true (2 ^ 60) empty_world with
  | Some (None, w) => dom (node_links w) <> ∅
  | _ => False
  end.
Proof. vm_compute. discriminate. Qed.

(** Replacing an item under an equal key at another address: the new key is
    kept in the node only and no destructor ever sees it. *)
Definition mod_1000_eq (a b : Z) : bool := a mod 1000 =? b mod 1000.

Lemma replaced_key_is_lost :
  match new_cache s_fifo_cache_vtable (fun k => k mod 1000) mod_1000_eq true true 2 empty_world with
  | Some (Some c, w) =>
      match run_ops c [Cache_put 1007 100; Cache_put 2007 200] w with
      | Some ((_, c), w) =>
          match aws_cache_destroy c w with
          | Some (_, w) => called w = [DestroyValue 100; DestroyKey 1007; DestroyValue 200]
          | None => False
          end
      | None => False
      end
  | _ => False
  end.
Proof. vm_compute. reflexivity. Qed.
