(* ===== verification/TaskScheduler.v ===== *)
(** * The task scheduler: definitions

    [source/task_scheduler.c]. Tasks are memory of the caller: a task is an
    address, with its timestamp and flag in one store, its list node in the
    store of links (under the same address) and its priority queue node in the
    queue's store of nodes (likewise).

    The function of a task belongs to the caller. What it does to the scheduler
    is a list of calls, which may depend on all that ran before: [fn]. Where the
    code calls the function of a task, the model returns the calls it makes as
    work that is to be done first. *)

From S2P Require Import Prelude ArrayItems PriorityQueue LinkedList.
Import LinkedList PriorityQueue.

Local Open Scope Z_scope.

Module TaskScheduler.

Inductive aws_task_status := AWS_TASK_STATUS_RUN_READY | AWS_TASK_STATUS_CANCELED.

#[export] Instance aws_task_status_eq_dec : EqDecision aws_task_status.
Proof. solve_decision. Defined.

Record aws_task := mk_task { timestamp : Z; scheduled : bool }.

(** The lists of the structure, and the one on the stack of [s_run_all]. *)
Record aws_task_scheduler := mk_scheduler {
  timed_list : aws_linked_list;
  asap_list : aws_linked_list;
  running_list : aws_linked_list
}.

(** A task that ran, and with which status. *)
Definition event : Type := positive * aws_task_status.

Inductive action :=
| Schedule_now (task : positive)
| Schedule_future (task : positive) (time_to_run : Z)
| Cancel_task (task : positive).

Record state := mk_state {
  node_links : gmap positive aws_linked_list_node;
  tasks : gmap positive aws_task;
  timed_queue : aws_priority_queue positive;
  ran : list event
}.

Definition T (A : Type) : Type := state -> option (A * state).

#[export] Instance T_ret : MRet T := fun A a s => Some (a, s).
#[export] Instance T_bind : MBind T := fun A B f e s =>
  match e s with Some (a, s') => f a s' | None => None end.

Definition on_links {A} (e : L A) : T A := fun s =>
  match e (node_links s) with
  | Some (a, h) => Some (a, mk_state h (tasks s) (timed_queue s) (ran s))
  | None => None
  end.

Definition get_task (t : positive) : T aws_task := fun s =>
  match tasks s !! t with Some k => Some (k, s) | None => None end.

Definition put_task (t : positive) (k : aws_task) : T unit := fun s =>
  match tasks s !! t with
  | Some _ => Some (tt, mk_state (node_links s) (<[t := k]> (tasks s)) (timed_queue s) (ran s))
  | None => None
  end.

Definition set_timestamp (t : positive) (time : Z) : T unit :=
  k ← get_task t; put_task t (mk_task time (scheduled k)).

Definition set_scheduled (t : positive) (b : bool) : T unit :=
  k ← get_task t; put_task t (mk_task (timestamp k) b).

(** An operation of the queue. *)
Definition on_queue {A} (e : aws_priority_queue positive -> option (A * aws_priority_queue positive)) : T A := fun s =>
  match e (timed_queue s) with
  | Some (a, q) => Some (a, mk_state (node_links s) (tasks s) q (ran s))
  | None => None
  end.

(** [task->priority_queue_node.current_index = SIZE_MAX] *)
Definition reset_queue_node (t : positive) : T unit :=
  on_queue (fun q => match set_index (Some t) SIZE_MAX (nodes q) with
                     | Some ns => Some (tt, mk_queue (container q) (backpointers q) ns)
                     | None => None
                     end).

Definition tasks_now : T (gmap positive aws_task) := fun s => Some (tasks s, s).

Definition time_of (ts : gmap positive aws_task) (t : positive) : Z :=
  from_option timestamp 0 (ts !! t).

Definition s_compare_timestamps (ts : gmap positive aws_task) (a b : positive) : Z :=
  let a_time := time_of ts a in
  let b_time := time_of ts b in
  if b_time <? a_time then 1 else 0.

Definition DEFAULT_QUEUE_SIZE : Z := 7.
Definition sizeof_task_ptr : Z := 8.

Section scheduler.
Context (fn : list event -> positive -> aws_task_status -> list action).
Context (scheduler : aws_task_scheduler).

Definition aws_task_init (t : positive) : T unit := fun s =>
  match node_links s !! t, tasks s !! t, nodes (timed_queue s) !! t with
  | Some _, Some _, Some _ =>
      Some (tt, mk_state (<[t := mk_node None None]> (node_links s)) (<[t := mk_task 0 false]> (tasks s))
                  (mk_queue (container (timed_queue s)) (backpointers (timed_queue s)) (<[t := 0]> (nodes (timed_queue s))))
                  (ran s))
  | _, _, _ => None
  end.

(** The call of the task's function: the calls it makes in turn. *)
Definition call_fn (t : positive) (status : aws_task_status) : T (list action) := fun s =>
  Some (fn (ran s) t status, mk_state (node_links s) (tasks s) (timed_queue s) (ran s ++ [(t, status)])).

Definition aws_task_run (t : positive) (status : aws_task_status) : T (list action) :=
  _ ← set_scheduled t false;
  call_fn t status.

Definition init_queue : T op_result :=
  on_queue (fun q => match aws_priority_queue_init_dynamic DEFAULT_QUEUE_SIZE sizeof_task_ptr (nodes q) with
                     | Err e => Some (AWS_OP_ERR e, q)
                     | Ok q => Some (AWS_OP_SUCCESS, q)
                     end).

(** The scheduler's memory, zeroed. *)
Definition zero_scheduler : T unit :=
  _ ← on_queue (fun q => Some (tt, mk_queue (mk_alist [] 0 false 0) None (nodes q)));
  _ ← on_links (put_node (head (timed_list scheduler)) (mk_node None None));
  _ ← on_links (put_node (tail (timed_list scheduler)) (mk_node None None));
  _ ← on_links (put_node (head (asap_list scheduler)) (mk_node None None));
  on_links (put_node (tail (asap_list scheduler)) (mk_node None None)).

Definition aws_task_scheduler_init : T op_result :=
  _ ← zero_scheduler;
  rv ← init_queue;
  match rv with
  | AWS_OP_ERR e => mret (AWS_OP_ERR e)
  | AWS_OP_SUCCESS =>
      _ ← on_links (aws_linked_list_init (timed_list scheduler));
      _ ← on_links (aws_linked_list_init (asap_list scheduler));
      mret AWS_OP_SUCCESS
  end.

Definition top_task : T (option positive) := fun s =>
  match aws_priority_queue_top (timed_queue s) with
  | Some (Ok t) => Some (Some t, s)
  | Some (Err _) => Some (None, s)
  | None => None
  end.

(** The result and [*next_task_time]. *)
Definition aws_task_scheduler_has_tasks : T (bool * Z) :=
  asap_empty ← on_links (aws_linked_list_empty (asap_list scheduler));
  if negb asap_empty then mret (true, 0)
  else
    list_empty ← on_links (aws_linked_list_empty (timed_list scheduler));
    r ← (if negb list_empty then
           front ← on_links (aws_linked_list_front (timed_list scheduler));
           t ← on_links (deref front);
           k ← get_task t;
           mret (true, timestamp k)
         else mret (false, 2 ^ 64 - 1));
    let '(has_tasks, time) := r in
    top ← top_task;
    match top with
    | None => mret (has_tasks, time)
    | Some t =>
        k ← get_task t;
        mret (true, if timestamp k <? time then timestamp k else time)
    end.

Definition aws_task_scheduler_schedule_now (t : positive) : T unit :=
  _ ← reset_queue_node t;
  _ ← on_links (aws_linked_list_node_reset t);
  _ ← set_timestamp t 0;
  _ ← on_links (aws_linked_list_push_back (asap_list scheduler) t);
  set_scheduled t true.

(** The search of the sorted insertion: the first node of a later task, or the
    end of the list. *)
Fixpoint insertion_point (fuel : nat) (node_i : option positive) (time_to_run : Z) : T positive :=
  match fuel with
  | O => fun _ => None
  | S fuel =>
      node_i ← on_links (deref node_i);
      if decide (node_i = aws_linked_list_end (timed_list scheduler)) then mret node_i
      else
        k ← get_task node_i;
        if time_to_run <? timestamp k then mret node_i
        else
          next ← on_links (aws_linked_list_next node_i);
          insertion_point fuel next time_to_run
  end.

Definition push_task (t : positive) : T op_result :=
  ts ← tasks_now;
  on_queue (fun q => aws_priority_queue_push_ref (s_compare_timestamps ts) q t (Some t)).

Definition aws_task_scheduler_schedule_future (t : positive) (time_to_run : Z) : T unit :=
  _ ← set_timestamp t time_to_run;
  _ ← reset_queue_node t;
  _ ← on_links (aws_linked_list_node_reset t);
  err ← push_task t;
  _ ← match err with
      | AWS_OP_SUCCESS => mret tt
      | AWS_OP_ERR _ =>
          begin ← on_links (aws_linked_list_begin (timed_list scheduler));
          ts ← tasks_now;
          node_i ← insertion_point (S (size ts)) begin time_to_run;
          on_links (aws_linked_list_insert_before node_i t)
      end;
  set_scheduled t true.

Definition pop_task : T (option positive) :=
  ts ← tasks_now;
  r ← on_queue (aws_priority_queue_pop (s_compare_timestamps ts));
  mret (match r with Ok t => Some t | Err _ => None end).

(** [aws_priority_queue_pop] and [aws_linked_list_push_back] to the running
    list; the pop leaves the pointer as it was when it fails. *)
Definition take_from_queue : T unit :=
  r ← pop_task;
  match r with
  | Some t => on_links (aws_linked_list_push_back (running_list scheduler) t)
  | None => fun _ => None
  end.

(** The loop of [s_run_all] over [timed_list]. *)
Fixpoint timed_list_loop (fuel : nat) (current_time : Z) : T unit :=
  match fuel with
  | O => fun _ => None
  | S fuel =>
      empty ← on_links (aws_linked_list_empty (timed_list scheduler));
      if (empty : bool) then mret tt
      else
        begin ← on_links (aws_linked_list_begin (timed_list scheduler));
        timed_list_task ← on_links (deref begin);
        k ← get_task timed_list_task;
        if current_time <? timestamp k then mret tt
        else
          top ← top_task;
          sooner ← match top with
                   | None => mret false
                   | Some t =>
                       kt ← get_task t;
                       mret ((timestamp kt <=? current_time) && (timestamp kt <? timestamp k))
                   end;
          if (sooner : bool) then
            _ ← take_from_queue;
            timed_list_loop fuel current_time
          else
            _ ← on_links (aws_linked_list_pop_front (timed_list scheduler));
            _ ← on_links (aws_linked_list_push_back (running_list scheduler) timed_list_task);
            timed_list_loop fuel current_time
  end.

(** The loop over [timed_queue]. *)
Fixpoint timed_queue_loop (fuel : nat) (current_time : Z) : T unit :=
  match fuel with
  | O => fun _ => None
  | S fuel =>
      top ← top_task;
      match top with
      | None => mret tt
      | Some t =>
          k ← get_task t;
          if current_time <? timestamp k then mret tt
          else
            _ ← take_from_queue;
            timed_queue_loop fuel current_time
      end
  end.

(** Moves everything that is to run to the running list. *)
Definition collect (current_time : Z) : T unit :=
  ts ← tasks_now;
  _ ← on_links (aws_linked_list_init (running_list scheduler));
  _ ← on_links (aws_linked_list_swap_contents (running_list scheduler) (asap_list scheduler));
  _ ← timed_list_loop (S (size ts)) current_time;
  timed_queue_loop (S (size ts)) current_time.

Definition aws_task_scheduler_cancel_task (t : positive) : T (list action) :=
  n ← on_links (get_node t);
  _ ← match next n with
      | Some _ => on_links (aws_linked_list_remove t)
      | None =>
          k ← get_task t;
          if scheduled k then
            ts ← tasks_now;
            _ ← on_queue (fun q => aws_priority_queue_remove (s_compare_timestamps ts) q t);
            mret tt
          else mret tt
      end;
  aws_task_run t AWS_TASK_STATUS_CANCELED.

(** One call of the scheduler, and the calls it leads to at once. *)
Definition perform (a : action) : T (list action) :=
  match a with
  | Schedule_now t => _ ← aws_task_scheduler_schedule_now t; mret []
  | Schedule_future t time => _ ← aws_task_scheduler_schedule_future t time; mret []
  | Cancel_task t => aws_task_scheduler_cancel_task t
  end.

(** Calls in order, each with all it leads to before the next. *)
Fixpoint perform_all (fuel : nat) (work : list action) : T unit :=
  match work with
  | [] => mret tt
  | a :: work =>
      match fuel with
      | O => fun _ => None
      | S fuel => calls ← perform a; perform_all fuel (calls ++ work)
      end
  end.

(** The last loop of [s_run_all]; [fuel] also bounds the calls of one task. *)
Fixpoint run_loop (fuel : nat) (calls : nat) (status : aws_task_status) : T unit :=
  match fuel with
  | O => fun _ => None
  | S fuel =>
      empty ← on_links (aws_linked_list_empty (running_list scheduler));
      if (empty : bool) then mret tt
      else
        t ← on_links (aws_linked_list_pop_front (running_list scheduler));
        work ← aws_task_run t status;
        _ ← perform_all calls work;
        run_loop fuel calls status
  end.

Definition s_run_all (calls : nat) (current_time : Z) (status : aws_task_status) : T unit :=
  _ ← collect current_time;
  ts ← tasks_now;
  run_loop (S (size ts)) calls status.

Definition aws_task_scheduler_run_all (calls : nat) (current_time : Z) : T unit :=
  s_run_all calls current_time AWS_TASK_STATUS_RUN_READY.

(** The loop of [aws_task_scheduler_clean_up]. *)
Fixpoint cancel_loop (fuel : nat) (calls : nat) : T unit :=
  match fuel with
  | O => fun _ => None
  | S fuel =>
      r ← aws_task_scheduler_has_tasks;
      if negb (fst r) then mret tt
      else
        _ ← s_run_all calls (2 ^ 64 - 1) AWS_TASK_STATUS_CANCELED;
        cancel_loop fuel calls
  end.

Definition aws_task_scheduler_is_valid : T bool :=
  q ← on_queue (fun q => Some (aws_priority_queue_is_valid q, q));
  a ← on_links (aws_linked_list_is_valid (asap_list scheduler));
  l ← on_links (aws_linked_list_is_valid (timed_list scheduler));
  mret (q && a && l).

Definition aws_task_scheduler_clean_up (fuel calls : nat) : T unit :=
  valid ← aws_task_scheduler_is_valid;
  _ ← (if (valid : bool) then cancel_loop fuel calls else mret tt);
  _ ← on_queue (fun q => Some (tt, aws_priority_queue_clean_up q));
  zero_scheduler.

End scheduler.
End TaskScheduler.
