(* ===== verification/TaskSchedulerSpec.v ===== *)
(** * The task scheduler: its memory, its state and single calls

    No call of the scheduler takes a node out of the store of links: a class of
    programs that keep the store's addresses, closed under sequencing. *)

From S2P Require Import Prelude ArrayItems PriorityQueue PriorityQueueSpec PriorityQueueOps PriorityQueueClaims LinkedList LinkedListSpec LinkedListOps LinkedListMove LinkedLists TaskScheduler.
Import LinkedList PriorityQueue TaskScheduler.

Local Open Scope Z_scope.

Class KeepsL {A} (e : L A) : Prop :=
  keeps_l : forall h a h', e h = Some (a, h') -> dom h' = dom h.

Class KeepsT {A} (e : T A) : Prop :=
  keeps_t : forall s a s', e s = Some (a, s') -> dom (node_links s') = dom (node_links s).

(** ** Lists *)

#[export] Instance keeps_ret {A} (a : A) : KeepsL (mret a).
Proof. now intros h a' h' [= _ <-]. Qed.

#[export] Instance keeps_bind {A B} (e : L A) (f : A -> L B) : KeepsL e -> (forall a, KeepsL (f a)) -> KeepsL (e ≫= f).
Proof.
  intros He Hf h b h' E. unfold mbind, L_bind in E. destruct (e h) as [[a h1] |] eqn:E1; [| discriminate].
  rewrite (Hf a _ _ _ E). exact (He _ _ _ E1).
Qed.

#[export] Instance keeps_deref p : KeepsL (deref p).
Proof. intros h a h' E. unfold deref in E. destruct p; [now injection E as _ <- | discriminate]. Qed.

#[export] Instance keeps_get p : KeepsL (get_node p).
Proof. intros h a h' E. unfold get_node in E. destruct (h !! p); [now injection E as _ <- | discriminate]. Qed.

#[export] Instance keeps_put p n : KeepsL (put_node p n).
Proof.
  intros h a h' E. unfold put_node in E. destruct (h !! p) eqn:Ep; [| discriminate]. injection E as _ <-.
  apply dom_insert_lookup_L. eauto.
Qed.

#[export] Instance keeps_next p q : KeepsL (set_next p q).
Proof. unfold set_next. apply _. Qed.

#[export] Instance keeps_prev p q : KeepsL (set_prev p q).
Proof. unfold set_prev. apply _. Qed.

#[export] Instance keeps_reset p : KeepsL (aws_linked_list_node_reset p).
Proof. unfold aws_linked_list_node_reset. apply _. Qed.

#[export] Instance keeps_insert_before p q : KeepsL (aws_linked_list_insert_before p q).
Proof. unfold aws_linked_list_insert_before. apply _. Qed.

#[export] Instance keeps_push_back l p : KeepsL (aws_linked_list_push_back l p).
Proof. unfold aws_linked_list_push_back. apply _. Qed.

#[export] Instance keeps_remove p : KeepsL (aws_linked_list_remove p).
Proof. unfold aws_linked_list_remove. apply _. Qed.

#[export] Instance keeps_begin l : KeepsL (aws_linked_list_begin l).
Proof. unfold aws_linked_list_begin. apply _. Qed.

#[export] Instance keeps_node_next p : KeepsL (aws_linked_list_next p).
Proof. unfold aws_linked_list_next. apply _. Qed.

(** ** The scheduler *)

#[export] Instance keeps_T_ret {A} (a : A) : KeepsT (mret a).
Proof. now intros s a' s' [= _ <-]. Qed.

#[export] Instance keeps_T_fail {A} : KeepsT (fun _ => None : option (A * state)).
Proof. now intros s a s'. Qed.

#[export] Instance keeps_T_bind {A B} (e : T A) (f : A -> T B) : KeepsT e -> (forall a, KeepsT (f a)) -> KeepsT (e ≫= f).
Proof.
  intros He Hf s b s' E. unfold mbind, T_bind in E. destruct (e s) as [[a s1] |] eqn:E1; [| discriminate].
  rewrite (Hf a _ _ _ E). exact (He _ _ _ E1).
Qed.

#[export] Instance keeps_on_links {A} (e : L A) : KeepsL e -> KeepsT (on_links e).
Proof.
  intros He s a s' E. unfold on_links in E. destruct (e (node_links s)) as [[b h] |] eqn:E1; [| discriminate].
  injection E as _ <-. exact (He _ _ _ E1).
Qed.

#[export] Instance keeps_on_queue {A} e : KeepsT (on_queue (A := A) e).
Proof. intros s a s' E. unfold on_queue in E. destruct (e _) as [[b q] |]; [now injection E as _ <- | discriminate]. Qed.

#[export] Instance keeps_get_task t : KeepsT (get_task t).
Proof. intros s a s' E. unfold get_task in E. destruct (tasks s !! t); [now injection E as _ <- | discriminate]. Qed.

#[export] Instance keeps_put_task t k : KeepsT (put_task t k).
Proof. intros s a s' E. unfold put_task in E. destruct (tasks s !! t); [now injection E as _ <- | discriminate]. Qed.

#[export] Instance keeps_tasks_now : KeepsT tasks_now.
Proof. now intros s a s' [= _ <-]. Qed.

#[export] Instance keeps_set_scheduled t b : KeepsT (set_scheduled t b).
Proof. unfold set_scheduled. apply _. Qed.

#[export] Instance keeps_set_timestamp t z : KeepsT (set_timestamp t z).
Proof. unfold set_timestamp. apply _. Qed.

#[export] Instance keeps_if {A} (b : bool) (e1 e2 : T A) : KeepsT e1 -> KeepsT e2 -> KeepsT (if b then e1 else e2).
Proof. now destruct b. Qed.

#[export] Instance keeps_reset_queue_node t : KeepsT (reset_queue_node t).
Proof. unfold reset_queue_node. apply _. Qed.

#[export] Instance keeps_push_task t : KeepsT (push_task t).
Proof. unfold push_task. apply _. Qed.

Section calls.
Context (fn : list event -> positive -> aws_task_status -> list action).
Context (sch : aws_task_scheduler).

#[export] Instance keeps_call_fn t status : KeepsT (call_fn fn t status).
Proof using. now intros s a s' [= _ <-]. Qed.

#[export] Instance keeps_task_run t status : KeepsT (aws_task_run fn t status).
Proof using. unfold aws_task_run. apply _. Qed.

#[export] Instance keeps_insertion_point fuel : forall p z, KeepsT (insertion_point sch fuel p z).
Proof using.
  induction fuel as [| fuel IH]; intros p z; cbn [insertion_point]; [apply _ |].
  apply keeps_T_bind; [apply _ |]. intros n. case_decide; apply _.
Qed.

#[export] Instance keeps_perform a : KeepsT (perform fn sch a).
Proof using.
  destruct a; cbn [perform].
  - unfold aws_task_scheduler_schedule_now. apply _.
  - unfold aws_task_scheduler_schedule_future. apply keeps_T_bind; [| apply _].
    do 3 (apply keeps_T_bind; [apply _ | intros _]). apply keeps_T_bind; [apply _ |]. intros [| e]; apply _.
  - unfold aws_task_scheduler_cancel_task. apply keeps_T_bind; [apply _ |]. intros n.
    apply keeps_T_bind; [| apply _]. destruct (next n); apply _.
Qed.

#[export] Instance keeps_perform_all calls : forall work, KeepsT (perform_all fn sch calls work).
Proof using. induction calls as [| calls IH]; intros [| a work]; cbn [perform_all]; apply _. Qed.
End calls.

(** ** The state and single calls

    What a scheduler's state looks like while tasks wait in its lists and its
    queue, and how scheduling and cancelling change it. *)

(** ** The queue *)

Definition entry_of (t : positive) : positive * node_ptr := (t, Some t).

Definition queue_holds (ts : gmap positive aws_task) (q : aws_priority_queue positive) (queued : list positive) : Prop :=
  exists es, queue_of (s_compare_timestamps ts) q es /\ es ≡ₚ map entry_of queued.

Lemma cmp_le ts a b : s_compare_timestamps ts a b <= 0 <-> time_of ts a <= time_of ts b.
Proof. unfold s_compare_timestamps. zcase; lia. Qed.

Lemma cmp_preorder ts : total_preorder (s_compare_timestamps ts).
Proof.
  split.
  - intros a b. unfold s_compare_timestamps. zcase; zcase; lia.
  - intros a b c. rewrite !cmp_le. lia.
Qed.

#[export] Instance queue_holds_perm ts q : Proper ((≡ₚ) ==> iff) (queue_holds ts q).
Proof.
  intros l l' HP. unfold queue_holds. split; intros (es & H & E); exists es; (split; [exact H |]);
    rewrite E; [now rewrite HP | now rewrite HP].
Qed.

Lemma entry_elem t x queued : (x, Some t) ∈ map entry_of queued <-> x = t /\ t ∈ queued.
Proof.
  rewrite list_elem_of_fmap. unfold entry_of. split.
  - intros (u & [= -> ->] & H). auto.
  - intros [-> H]. eauto.
Qed.

(** The queue depends on the timestamps of the tasks in it only. *)
Lemma queue_holds_times ts ts' q queued :
  (forall t, t ∈ queued -> time_of ts' t = time_of ts t) -> queue_holds ts q queued -> queue_holds ts' q queued.
Proof.
  intros Ht (es & (Hr & Hh & Hm) & HP). exists es. split; [| exact HP]. split; [exact Hr |]. split; [| exact Hm].
  assert (forall i x, es !! i = Some x -> time_of ts' x.1 = time_of ts x.1) as He.
  { intros i x Hi. apply list_elem_of_lookup_2 in Hi. rewrite HP, list_elem_of_fmap in Hi.
    destruct Hi as (t & -> & Hin). now apply Ht. }
  intros i Hi x y Hx Hy. specialize (Hh i Hi x y Hx Hy). unfold le in *. rewrite cmp_le in *.
  now rewrite (He _ _ Hx), (He _ _ Hy).
Qed.

(** It does not depend on the nodes of other tasks. *)
Lemma queue_holds_nodes ts q ns queued :
  (forall t, t ∈ queued -> ns !! t = nodes q !! t) -> queue_holds ts q queued ->
  queue_holds ts (mk_queue (container q) (backpointers q) ns) queued.
Proof.
  intros Hn (es & (Hr & Hh & Hm) & HP). exists es. split; [| exact HP]. split; [| auto]. destruct Hr as [R1 R2 R3 R4].
  constructor; cbn; auto. intros i x n Hi. rewrite Hn; [eauto |]. apply list_elem_of_lookup_2 in Hi.
  rewrite HP, entry_elem in Hi. tauto.
Qed.

Lemma queue_node ts q queued t : queue_holds ts q queued -> t ∈ queued -> is_Some (nodes q !! t).
Proof.
  intros (es & (Hr & _) & HP) Ht. assert (entry_of t ∈ es) as Hin by (rewrite HP, list_elem_of_fmap; eauto).
  apply list_elem_of_lookup_1 in Hin as [i Hi]. eexists. exact (pr_nodes _ _ Hr i t t Hi).
Qed.

(** No node disappears. *)
Definition nodes_stay (q q' : aws_priority_queue positive) : Prop :=
  forall n, is_Some (nodes q !! n) -> is_Some (nodes q' !! n).

Section queue.
Context (ts : gmap positive aws_task) (q : aws_priority_queue positive) (queued : list positive).
Hypothesis H : queue_holds ts q queued.

Lemma queue_push t :
  t ∉ queued -> is_Some (nodes q !! t) -> Z.of_nat (length queued) + 1 < 2 ^ 60 ->
  exists rv q', aws_priority_queue_push_ref (s_compare_timestamps ts) q t (Some t) = Some (rv, q')
    /\ queue_holds ts q' (match rv with AWS_OP_SUCCESS => t :: queued | AWS_OP_ERR _ => queued end)
    /\ nodes_stay q q'.
Proof using H.
  intros Ht Hn Hb. destruct H as (es & Hq & HP).
  assert (length es = length queued) as Hl by (rewrite HP; apply length_map).
  pose proof (queue_push_ok _ q es t (Some t) (cmp_preorder ts) Hq) as Hp. rewrite Hl in Hp.
  specialize (Hp Hb). destruct (push_refused q (Some t)) as [e |].
  - destruct Hp as (q' & E & Hq' & En).
    { intros n [= <-]. split; [exact Hn |]. intros x. rewrite HP, entry_elem. tauto. }
    exists (AWS_OP_ERR e), q'. split_and!; auto; [exists es; auto |]. intros n. now rewrite En.
  - destruct Hp as (q' & es' & E & Hq' & HP' & Hk).
    { intros n [= <-]. split; [exact Hn |]. intros x. rewrite HP, entry_elem. tauto. }
    assert (queue_holds ts q' (t :: queued)) as Hh by (exists es'; split; [exact Hq' |]; now rewrite HP', HP).
    exists AWS_OP_SUCCESS, q'. split_and!; auto. intros n Hs.
    destruct (decide (n ∈ t :: queued)) as [Hin | Hout]; [exact (queue_node _ _ _ _ Hh Hin) |].
    rewrite not_elem_of_cons in Hout. destruct Hout as [Hne Hnq]. rewrite Hk; [exact Hs | congruence |].
    intros x. rewrite HP, entry_elem. tauto.
Qed.

(** The task at the top is a first one, and popping takes it out. *)
Lemma queue_pop :
  match queued with
  | [] => aws_priority_queue_top q = Some (Err AWS_ERROR_PRIORITY_QUEUE_EMPTY)
  | _ => exists t rest q', aws_priority_queue_top q = Some (Ok t)
      /\ aws_priority_queue_pop (s_compare_timestamps ts) q = Some (Ok t, q')
      /\ queue_holds ts q' rest /\ t :: rest ≡ₚ queued
      /\ (forall u, u ∈ queued -> time_of ts t <= time_of ts u) /\ nodes_stay q q'
  end.
Proof using H.
  destruct H as (es & Hq & HP). pose proof (queue_pop_ok _ q es (cmp_preorder ts) Hq) as Hp.
  destruct es as [| x es].
  { apply Permutation_nil in HP. destruct queued; [apply Hp | discriminate]. }
  destruct Hp as (Et & q' & es' & Ep & Hq' & HP' & Hle & Hx & Hk).
  assert (x ∈ map entry_of queued) as (t & -> & Ht)%list_elem_of_fmap by (rewrite <- HP; apply elem_of_cons; auto).
  cbn [fst snd entry_of] in *. destruct (proj1 (elem_of_Permutation queued t) Ht) as [rest HR].
  assert (queue_holds ts q' rest) as Hrest.
  { exists es'. split; [exact Hq' |]. apply (Permutation_cons_inv (a := entry_of t)). rewrite HP', HP, HR. reflexivity. }
  assert (exists t rest q', aws_priority_queue_top q = Some (Ok t)
      /\ aws_priority_queue_pop (s_compare_timestamps ts) q = Some (Ok t, q')
      /\ queue_holds ts q' rest /\ t :: rest ≡ₚ queued
      /\ (forall u, u ∈ queued -> time_of ts t <= time_of ts u) /\ nodes_stay q q') as Hgoal.
  { exists t, rest, q'. split_and!; auto.
    - now symmetry.
    - intros u Hu. rewrite Forall_forall in Hle. apply cmp_le, (Hle (entry_of u)). rewrite HP, list_elem_of_fmap. eauto.
    - intros n Hs. destruct (decide (n ∈ queued)) as [Hin | Hout].
      + rewrite HR, elem_of_cons in Hin. destruct Hin as [-> | Hin]; [rewrite (Hx t eq_refl); eauto |].
        exact (queue_node _ _ _ _ Hrest Hin).
      + rewrite Hk; [exact Hs |]. intros y. rewrite HP, entry_elem. tauto. }
  destruct queued; [now apply not_elem_of_nil in Ht | exact Hgoal].
Qed.

Lemma queue_remove t :
  t ∈ queued -> exists q' rest, aws_priority_queue_remove (s_compare_timestamps ts) q t = Some (Ok t, q')
    /\ queue_holds ts q' rest /\ t :: rest ≡ₚ queued /\ nodes_stay q q'.
Proof using H.
  intros Ht. destruct H as (es & Hq & HP).
  destruct (queue_remove_ok _ q es t t (cmp_preorder ts) Hq) as (q' & es' & E & Hq' & HP' & Hx & Hk & _).
  { rewrite HP, entry_elem. auto. }
  destruct (proj1 (elem_of_Permutation queued t) Ht) as [rest HR].
  assert (queue_holds ts q' rest) as Hrest.
  { exists es'. split; [exact Hq' |]. apply (Permutation_cons_inv (a := entry_of t)).
    change (entry_of t :: map entry_of rest) with (map entry_of (t :: rest)). now rewrite <- HR, <- HP, <- HP'. }
  exists q', rest. split_and!; auto; [now symmetry |]. intros n Hs. destruct (decide (n ∈ queued)) as [Hin | Hout].
  - rewrite HR, elem_of_cons in Hin. destruct Hin as [-> | Hin]; [rewrite Hx; eauto |]. exact (queue_node _ _ _ _ Hrest Hin).
  - rewrite Hk; [exact Hs |]. intros y. rewrite HP, entry_elem. tauto.
Qed.
End queue.

(** ** The state *)

Definition waits (ts : gmap positive aws_task) (t : positive) : Prop :=
  exists k, ts !! t = Some k /\ scheduled k = true.

(** Every task that is scheduled is in one of the lists [ls] or in the queue,
    once; every other task has no successor in a list. *)
Record core (s : state) (ls : list listing) (queued : list positive) : Prop := {
  co_lists : lists_ok (node_links s) ls;
  co_queue : queue_holds (tasks s) (timed_queue s) queued;
  co_nodup : NoDup (all_elems ls ++ queued);
  co_waits : forall t, waits (tasks s) t <-> t ∈ all_elems ls ++ queued;
  co_task : forall t, is_Some (tasks s !! t) -> holds (node_links s) t /\ is_Some (nodes (timed_queue s) !! t);
  co_sentinel : forall t p, is_Some (tasks s !! t) -> p ∈ ls -> t <> head p.1 /\ t <> tail p.1;
  co_unlinked : forall t, is_Some (tasks s !! t) -> t ∉ all_elems ls -> next_of (node_links s) t = None;
  co_small : Z.of_nat (size (tasks s)) < 2 ^ 58
}.

Lemma core_perm s ls ls' queued queued' :
  ls ≡ₚ ls' -> queued ≡ₚ queued' -> core s ls queued -> core s ls' queued'.
Proof.
  intros H1 H2 [C1 C2 C3 C4 C5 C6 C7 C8]. constructor; auto; rewrite <- ?H1, <- ?H2; auto.
  - intros t. rewrite <- H1, <- H2. apply C4.
  - intros t p Ht Hp. apply C6; [exact Ht | now rewrite H1].
  - intros t Ht Hn. apply C7; [exact Ht | now rewrite H1].
Qed.

Lemma elem_all_paths ls x :
  x ∈ all_paths ls <-> x ∈ all_elems ls \/ exists p, p ∈ ls /\ (x = head p.1 \/ x = tail p.1).
Proof.
  induction ls as [| [l xs] ls IH]; [cbn; split; [easy | intros [H | (p & H & _)]; now apply not_elem_of_nil in H] |].
  rewrite all_paths_cons, all_elems_cons, !elem_of_app, elem_of_path, IH. split.
  - intros [[-> | [H | ->]] | [H | (p & Hp & H)]]; auto; right;
      [exists (l, xs) | exists (l, xs) | exists p]; rewrite elem_of_cons; auto.
  - intros [[H | H] | (p & [-> | Hp]%elem_of_cons & [-> | ->])]; auto; right; right; exists p; auto.
Qed.

Lemma bind_T {A B} (e : T A) (f : A -> T B) s a s' : e s = Some (a, s') -> (e ≫= f) s = f a s'.
Proof. intros H. unfold mbind, T_bind. now rewrite H. Qed.

Lemma links_run {A} (e : L A) s a h :
  e (node_links s) = Some (a, h) -> on_links e s = Some (a, mk_state h (tasks s) (timed_queue s) (ran s)).
Proof. intros H. unfold on_links. now rewrite H. Qed.

Lemma links_read {A} (e : L A) s a : e (node_links s) = Some (a, node_links s) -> on_links e s = Some (a, s).
Proof. intros H. rewrite (links_run e s a _ H). now destruct s. Qed.

Lemma get_task_run s t k : tasks s !! t = Some k -> get_task t s = Some (k, s).
Proof. intros H. unfold get_task. now rewrite H. Qed.

Definition with_task (t : positive) (k : aws_task) (s : state) : state :=
  mk_state (node_links s) (<[t := k]> (tasks s)) (timed_queue s) (ran s).

Lemma set_scheduled_run s t k b :
  tasks s !! t = Some k -> set_scheduled t b s = Some (tt, with_task t (mk_task (timestamp k) b) s).
Proof.
  intros H. unfold set_scheduled. erewrite bind_T by exact (get_task_run s t k H). unfold put_task. now rewrite H.
Qed.

Section core.
Context (s : state) (ls : list listing) (queued : list positive).
Hypothesis H : core s ls queued.

Lemma core_known t : t ∈ all_elems ls ++ queued -> exists k, tasks s !! t = Some k /\ scheduled k = true.
Proof using H. intros Ht. now apply (co_waits _ _ _ H). Qed.

Lemma core_free t k : tasks s !! t = Some k -> scheduled k = false ->
  (t ∉ all_elems ls) /\ (t ∉ queued) /\ t ∉ all_paths ls.
Proof using H.
  intros Hk Hf. assert (t ∉ all_elems ls ++ queued) as Hn.
  { intros Hin. destruct (core_known t Hin) as (k' & E & Ht). congruence. }
  rewrite not_elem_of_app in Hn. destruct Hn as [N1 N2]. split_and!; auto.
  rewrite elem_all_paths. intros [Hin | (p & Hp & Hx)]; [easy |].
  destruct (co_sentinel _ _ _ H t p) as [S1 S2]; [eauto | exact Hp |]. now destruct Hx.
Qed.

Lemma core_length : Z.of_nat (length (all_elems ls ++ queued)) < 2 ^ 58.
Proof using H.
  pose proof (co_small _ _ _ H) as Hs. enough (length (all_elems ls ++ queued) <= size (tasks s))%nat by lia.
  rewrite <- (size_list_to_set (C := gset positive) _ (co_nodup _ _ _ H)), <- size_dom. apply subseteq_size.
  intros x. rewrite elem_of_list_to_set, elem_of_dom. intros Hx. destruct (core_known x Hx) as (k & -> & _). eauto.
Qed.

(** A free task that is made ready to be scheduled. *)
Definition prepare (t : positive) (tm : Z) : state :=
  mk_state (<[t := mk_node None None]> (node_links s)) (<[t := mk_task tm false]> (tasks s))
    (mk_queue (container (timed_queue s)) (backpointers (timed_queue s)) (<[t := SIZE_MAX]> (nodes (timed_queue s)))) (ran s).

Lemma is_Some_insert {A} (m : gmap positive A) t x u : is_Some (m !! t) -> is_Some (<[t := x]> m !! u) <-> is_Some (m !! u).
Proof using.
  intros Ht. destruct (decide (u = t)) as [-> | Hne]; [| now rewrite lookup_insert_ne].
  rewrite lookup_insert_eq. split; eauto.
Qed.

Lemma prepared t tm k : tasks s !! t = Some k -> scheduled k = false -> core (prepare t tm) ls queued.
Proof using H.
  intros Hk Hf. destruct (core_free t k Hk Hf) as (N1 & N2 & N3). assert (is_Some (tasks s !! t)) as Hs by eauto.
  destruct (co_task _ _ _ H t Hs) as [Hh Hn]. unfold prepare.
  constructor; cbn [node_links tasks timed_queue ran nodes].
  - pose proof (co_lists _ _ _ H) as Hl. destruct ls as [| [l xs] ls']; [split; constructor |]. now apply lists_touch.
  - apply queue_holds_nodes; [intros u Hu; apply lookup_insert_ne; congruence |].
    apply (queue_holds_times (tasks s)); [| exact (co_queue _ _ _ H)]. intros u Hu. unfold time_of.
    rewrite lookup_insert_ne; [reflexivity | congruence].
  - exact (co_nodup _ _ _ H).
  - intros u. rewrite <- (co_waits _ _ _ H). unfold waits. destruct (decide (u = t)) as [-> | Hne].
    + rewrite lookup_insert_eq, Hk. split; intros (k' & [= <-] & E); cbn in E; congruence.
    + now rewrite lookup_insert_ne.
  - intros u. rewrite is_Some_insert by exact Hs. intros Hu. destruct (co_task _ _ _ H u Hu) as [U1 U2].
    split; [now apply holds_insert | now apply is_Some_insert].
  - intros u p. rewrite is_Some_insert by exact Hs. apply (co_sentinel _ _ _ H).
  - intros u. rewrite is_Some_insert by exact Hs. intros Hu Hn'. rewrite next_insert. case_decide; [reflexivity |].
    now apply (co_unlinked _ _ _ H).
  - rewrite map_size_insert_Some by exact Hs. exact (co_small _ _ _ H).
Qed.

(** What a call may do to lists and queue: [ls'] are the same lists, and nodes
    that are in none of them keep their links. *)
Record rearranged (h' : gmap positive aws_linked_list_node) (q' : aws_priority_queue positive)
    (ls' : list listing) (queued' : list positive) : Prop := {
  ra_lists : lists_ok h' ls';
  ra_queue : queue_holds (tasks s) q' queued';
  ra_same : map fst ls' ≡ₚ map fst ls;
  ra_holds : forall x, holds h' x <-> holds (node_links s) x;
  ra_nodes : nodes_stay (timed_queue s) q';
  ra_unlinked : forall t, is_Some (tasks s !! t) -> t ∉ all_elems ls' -> next_of h' t = None
}.

Section rearranged.
Context (h' : gmap positive aws_linked_list_node) (q' : aws_priority_queue positive).
Context (ls' : list listing) (queued' : list positive) (r' : list event).
Hypothesis R : rearranged h' q' ls' queued'.

Lemma ra_sentinel t p : is_Some (tasks s !! t) -> p ∈ ls' -> t <> head p.1 /\ t <> tail p.1.
Proof using H R.
  intros Ht Hp. assert (p.1 ∈ map fst ls) as (p' & E & Hp')%list_elem_of_fmap.
  { rewrite <- (ra_same _ _ _ _ R), list_elem_of_fmap. eauto. }
  rewrite E. exact (co_sentinel _ _ _ H t p' Ht Hp').
Qed.

(** Tasks changed places. *)
Lemma core_move : all_elems ls' ++ queued' ≡ₚ all_elems ls ++ queued ->
  core (mk_state h' (tasks s) q' r') ls' queued'.
Proof using H R.
  intros HP. destruct R as [R1 R2 R3 R4 R5 R6]. constructor; cbn [node_links tasks timed_queue]; auto.
  - rewrite HP. exact (co_nodup _ _ _ H).
  - intros t. rewrite HP. apply (co_waits _ _ _ H).
  - intros t Ht. destruct (co_task _ _ _ H t Ht). split; [now apply R4 | now apply R5].
  - exact ra_sentinel.
  - exact (co_small _ _ _ H).
Qed.

Lemma core_task_change t k k' : tasks s !! t = Some k -> timestamp k' = timestamp k ->
  NoDup (all_elems ls' ++ queued') ->
  (forall u, u <> t -> u ∈ all_elems ls' ++ queued' <-> u ∈ all_elems ls ++ queued) ->
  (t ∈ all_elems ls' ++ queued' <-> scheduled k' = true) ->
  core (mk_state h' (<[t := k']> (tasks s)) q' r') ls' queued'.
Proof using H R.
  intros Hk Htm Hnd Hu Ht. assert (is_Some (tasks s !! t)) as Hs by eauto. pose proof ra_sentinel as Hse.
  destruct R as [R1 R2 R3 R4 R5 R6]. constructor; cbn [node_links tasks timed_queue]; auto.
  - apply (queue_holds_times (tasks s)); [| exact R2]. intros u _. unfold time_of.
    destruct (decide (u = t)) as [-> | Hne]; [rewrite lookup_insert_eq, Hk; exact Htm | now rewrite lookup_insert_ne].
  - intros u. unfold waits. destruct (decide (u = t)) as [-> | Hne].
    + rewrite lookup_insert_eq, Ht. split; [intros (? & [= <-] & E); exact E | eauto].
    + rewrite lookup_insert_ne by congruence. rewrite Hu by exact Hne. apply (co_waits _ _ _ H).
  - intros u. rewrite is_Some_insert by exact Hs. intros Hus. destruct (co_task _ _ _ H u Hus).
    split; [now apply R4 | now apply R5].
  - intros u p. rewrite is_Some_insert by exact Hs. apply Hse.
  - intros u. rewrite is_Some_insert by exact Hs. apply R6.
  - rewrite map_size_insert_Some by exact Hs. exact (co_small _ _ _ H).
Qed.

(** A task is scheduled. *)
Lemma core_join t k : tasks s !! t = Some k -> t ∉ all_elems ls ++ queued ->
  all_elems ls' ++ queued' ≡ₚ t :: all_elems ls ++ queued ->
  core (mk_state h' (<[t := mk_task (timestamp k) true]> (tasks s)) q' r') ls' queued'.
Proof using H R.
  intros Hk Hn HP. apply (core_task_change t k); auto.
  - rewrite HP. constructor; [exact Hn | exact (co_nodup _ _ _ H)].
  - intros u Hu. rewrite HP, elem_of_cons. tauto.
  - rewrite HP, elem_of_cons. cbn. tauto.
Qed.

(** A task leaves. *)
Lemma core_leave t k : tasks s !! t = Some k -> t :: all_elems ls' ++ queued' ≡ₚ all_elems ls ++ queued ->
  core (mk_state h' (<[t := mk_task (timestamp k) false]> (tasks s)) q' r') ls' queued'.
Proof using H R.
  intros Hk HP. pose proof (co_nodup _ _ _ H) as Hnd. rewrite <- HP, NoDup_cons in Hnd.
  apply (core_task_change t k); auto; [tauto | | cbn; split; [tauto | discriminate]].
  intros u Hu. rewrite <- HP, elem_of_cons. tauto.
Qed.
End rearranged.

(** Nodes away from what changed keep their links. *)
Lemma unlinked_frame h' ls' ps :
  changes_only (node_links s) h' ps -> (forall t, is_Some (tasks s !! t) -> t ∈ ps -> t ∉ all_elems ls' -> next_of h' t = None) ->
  (forall t, t ∈ all_elems ls -> t ∉ ps -> t ∈ all_elems ls') ->
  forall t, is_Some (tasks s !! t) -> t ∉ all_elems ls' -> next_of h' t = None.
Proof using H.
  intros [_ Hc] Hp Hin t Ht Hn. destruct (decide (t ∈ ps)) as [Hps | Hps]; [now apply Hp |].
  unfold next_of. rewrite (Hc t Hps). apply (co_unlinked _ _ _ H t Ht). intros He. apply Hn, Hin; auto.
Qed.
End core.
