(* ===== verification/TaskSchedulerCalls.v ===== *)
(** * The task scheduler: scheduling and cancelling

    Each call of the scheduler on a well-formed state. *)

From Stdlib Require Import Sorting.Sorted.
From S2P Require Import Prelude ArrayItems PriorityQueue PriorityQueueSpec PriorityQueueOps PriorityQueueClaims.
From S2P Require Import LinkedList LinkedListSpec LinkedListOps LinkedListMove LinkedLists TaskScheduler TaskSchedulerSpec.
Import LinkedList PriorityQueue TaskScheduler.

Local Open Scope Z_scope.

(** Tasks from the earliest to the latest. *)
Definition in_time (ts : gmap positive aws_task) (l : list positive) : Prop :=
  StronglySorted (fun a b => time_of ts a <= time_of ts b) l.

Lemma in_time_app ts l l' : in_time ts (l ++ l') <-> in_time ts l /\ in_time ts l'
  /\ (forall a b, a ∈ l -> b ∈ l' -> time_of ts a <= time_of ts b).
Proof.
  unfold in_time. induction l as [| x l IH]; cbn [app].
  - split; [intros H; split_and!; [constructor | exact H |] | tauto]. intros a b Ha. now apply not_elem_of_nil in Ha.
  - split.
    + intros H. inversion H as [| ? ? H1 H2]; subst. apply IH in H1 as (I1 & I2 & I3). apply Forall_app in H2 as [F1 F2].
      split_and!; auto; [now constructor |]. intros a b [-> | Ha]%elem_of_cons Hb; [| now apply I3].
      rewrite Forall_forall in F2. now apply F2.
    + intros (H1 & H2 & H3). inversion H1 as [| ? ? H4 H5]; subst. constructor.
      * apply IH. split_and!; auto. intros a b Ha Hb. apply H3; [apply elem_of_cons; auto | exact Hb].
      * apply Forall_app. split; [exact H5 |]. apply Forall_forall. intros b Hb. apply H3; [apply elem_of_cons; auto | exact Hb].
Qed.

Lemma in_time_same ts ts' l : (forall t, t ∈ l -> time_of ts' t = time_of ts t) -> in_time ts l -> in_time ts' l.
Proof.
  unfold in_time. intros He. induction 1 as [| x l Hl IH Hx]; constructor.
  - apply IH. intros t Ht. apply He, elem_of_cons. auto.
  - rewrite Forall_forall in *. intros y Hy. rewrite !He by (apply elem_of_cons; auto). auto.
Qed.

Lemma time_insert_ne ts t k u : u <> t -> time_of (<[t := k]> ts) u = time_of ts u.
Proof. intros Hu. unfold time_of. now rewrite lookup_insert_ne. Qed.

Lemma time_insert_eq ts t k : time_of (<[t := k]> ts) t = timestamp k.
Proof. unfold time_of. now rewrite lookup_insert_eq. Qed.

Lemma held_length {A} (m : gmap positive A) l :
  NoDup l -> (forall t, t ∈ l -> is_Some (m !! t)) -> (length l <= size m)%nat.
Proof.
  intros Hnd Hl. rewrite <- (size_list_to_set (C := gset positive) _ Hnd), <- size_dom. apply subseteq_size.
  intros x. rewrite elem_of_list_to_set, elem_of_dom. apply Hl.
Qed.

Section calls.
Context (fn : list event -> positive -> aws_task_status -> list action).
Context (sch : aws_task_scheduler).

(** ** Making a task ready *)

Lemma reset_queue_node_run s t :
  is_Some (nodes (timed_queue s) !! t) ->
  reset_queue_node t s = Some (tt, mk_state (node_links s) (tasks s)
    (mk_queue (container (timed_queue s)) (backpointers (timed_queue s)) (<[t := SIZE_MAX]> (nodes (timed_queue s)))) (ran s)).
Proof using. intros [i Hi]. unfold reset_queue_node, on_queue, set_index. now rewrite Hi. Qed.

Lemma node_reset_run s t : holds (node_links s) t ->
  on_links (aws_linked_list_node_reset t) s
  = Some (tt, mk_state (<[t := mk_node None None]> (node_links s)) (tasks s) (timed_queue s) (ran s)).
Proof using. intros Ht. apply links_run. now apply put_node_run. Qed.

Lemma set_timestamp_run s t k tm : tasks s !! t = Some k ->
  set_timestamp t tm s = Some (tt, with_task t (mk_task tm (scheduled k)) s).
Proof using.
  intros H. unfold set_timestamp. erewrite bind_T by exact (get_task_run s t k H). unfold put_task. now rewrite H.
Qed.

Section one_call.
Context (s : state) (t : positive) (k : aws_task).
Hypothesis (Hk : tasks s !! t = Some k) (Hf : scheduled k = false).

Lemma prepare_now {A} (f : T A) : is_Some (nodes (timed_queue s) !! t) -> holds (node_links s) t ->
  (_ ← reset_queue_node t; _ ← on_links (aws_linked_list_node_reset t); _ ← set_timestamp t 0; f) s = f (prepare s t 0).
Proof using Hk Hf.
  intros Hn Hh. erewrite bind_T by exact (reset_queue_node_run s t Hn). erewrite bind_T by (apply node_reset_run; exact Hh).
  erewrite bind_T by (apply set_timestamp_run; exact Hk). now rewrite Hf.
Qed.

Lemma prepare_future {A} (f : T A) tm : is_Some (nodes (timed_queue s) !! t) -> holds (node_links s) t ->
  (_ ← set_timestamp t tm; _ ← reset_queue_node t; _ ← on_links (aws_linked_list_node_reset t); f) s = f (prepare s t tm).
Proof using Hk Hf.
  intros Hn Hh. erewrite bind_T by exact (set_timestamp_run s t k tm Hk).
  erewrite bind_T by (apply reset_queue_node_run; exact Hn). erewrite bind_T by (apply node_reset_run; exact Hh).
  now rewrite Hf.
Qed.
End one_call.

Lemma double_insert (ts : gmap positive aws_task) t k k' : <[t := k]> (<[t := k']> ts) = <[t := k]> ts.
Proof using. apply insert_insert_eq. Qed.

(** The prepared task goes to the place [x] of a list. *)
Lemma linked_ok s l xs ys ls queued t tm (e : L unit) :
  core s ((l, xs ++ ys) :: ls) queued -> tasks s !! t = Some (mk_task tm false) ->
  (lists_ok (node_links s) ((l, xs ++ ys) :: ls) -> holds (node_links s) t -> t ∉ all_paths ((l, xs ++ ys) :: ls) ->
   exists h', e (node_links s) = Some (tt, h') /\ lists_ok h' ((l, xs ++ t :: ys) :: ls)
     /\ changes_only (node_links s) h' (t :: path l (xs ++ ys))) ->
  exists s', (_ ← on_links e; set_scheduled t true) s = Some (tt, s')
    /\ core s' ((l, xs ++ t :: ys) :: ls) queued
    /\ tasks s' = <[t := mk_task tm true]> (tasks s) /\ ran s' = ran s.
Proof using.
  intros H Hk He. destruct (core_free _ _ _ H t _ Hk eq_refl) as (N1 & N2 & N3).
  assert (is_Some (tasks s !! t)) as Hs by eauto. destruct (co_task _ _ _ H t Hs) as [Hh _].
  destruct (He (co_lists _ _ _ H) Hh N3) as (h' & E & Hl & Hc).
  erewrite bind_T by (apply links_run; exact E). erewrite set_scheduled_run by exact Hk.
  eexists. split; [reflexivity |]. split_and!; [| reflexivity | reflexivity].
  apply (core_join s ((l, xs ++ ys) :: ls) queued H h' _ _ _ (ran s)) with (k := mk_task tm false); auto.
  - constructor; [exact Hl | exact (co_queue _ _ _ H) | reflexivity | apply Hc | now intros n |].
    apply (unlinked_frame s ((l, xs ++ ys) :: ls) queued H h' _ _ Hc).
    + intros u Hu [-> | Hp]%elem_of_cons Hn; [exfalso; apply Hn; rewrite all_elems_cons, !elem_of_app, elem_of_cons; auto |].
      rewrite elem_of_path in Hp. destruct (co_sentinel _ _ _ H u (l, xs ++ ys) Hu) as [S1 S2]; [apply elem_of_cons; auto |].
      cbn in S1, S2. exfalso. apply Hn. rewrite all_elems_cons, !elem_of_app, elem_of_cons. rewrite elem_of_app in Hp. tauto.
    + intros u. rewrite !all_elems_cons, !elem_of_app, !elem_of_cons. tauto.
  - rewrite not_elem_of_app. auto.
  - rewrite !all_elems_cons, <- !app_assoc. symmetry. apply (Permutation_middle xs).
Qed.

Lemma schedule_now_ok s xs ls queued t k :
  core s ((asap_list sch, xs) :: ls) queued -> tasks s !! t = Some k -> scheduled k = false ->
  exists s', aws_task_scheduler_schedule_now sch t s = Some (tt, s')
    /\ core s' ((asap_list sch, xs ++ [t]) :: ls) queued
    /\ tasks s' = <[t := mk_task 0 true]> (tasks s) /\ ran s' = ran s.
Proof using.
  intros H Hk Hf. assert (is_Some (tasks s !! t)) as Hs by eauto. destruct (co_task _ _ _ H t Hs) as [Hh Hn].
  pose proof (prepared s _ _ H t 0 k Hk Hf) as Hp. rewrite <- (app_nil_r xs) in Hp.
  destruct (linked_ok (prepare s t 0) (asap_list sch) xs [] ls queued t 0
    (aws_linked_list_push_back (asap_list sch) t) Hp) as (s' & E & Hc & Et & Er).
  - apply lookup_insert_eq.
  - rewrite app_nil_r. intros H1 H2 H3. now apply lists_push_back.
  - exists s'. split; [| split_and!; auto; rewrite Et; apply double_insert].
    unfold aws_task_scheduler_schedule_now. erewrite prepare_now by eauto. exact E.
Qed.

(** ** The sorted insertion *)

Lemma insertion_point_ok s tm ys2 : forall fuel ys1,
  list_ok (node_links s) (timed_list sch) (ys1 ++ ys2) -> (forall u, u ∈ ys2 -> is_Some (tasks s !! u)) ->
  (length ys2 < fuel)%nat ->
  exists zs1 zs2, ys2 = zs1 ++ zs2
    /\ insertion_point sch fuel (Some (after_of (timed_list sch) ys2)) tm s = Some (after_of (timed_list sch) zs2, s)
    /\ (forall u, u ∈ zs1 -> time_of (tasks s) u <= tm)
    /\ match zs2 with [] => True | z :: _ => tm < time_of (tasks s) z end.
Proof using.
  induction ys2 as [| y ys2 IH]; intros [| fuel] ys1 Hl Hs Hf; cbn [length] in Hf; try lia; cbn [insertion_point].
  - exists [], []. erewrite bind_T by now apply links_read. rewrite decide_True by reflexivity.
    split_and!; auto. intros u Hu. now apply not_elem_of_nil in Hu.
  - cbn [after_of List.hd]. erewrite bind_T by now apply links_read.
    destruct (path_not_tail _ _ _ y Hl) as [Hne _]; [rewrite elem_of_app, elem_of_cons; auto |].
    rewrite decide_False by exact Hne. destruct (Hs y) as [k Ek]; [apply elem_of_cons; auto |].
    erewrite bind_T by exact (get_task_run s y k Ek).
    assert (time_of (tasks s) y = timestamp k) as Ey by (unfold time_of; now rewrite Ek).
    destruct (Z.ltb_spec tm (timestamp k)) as [Hlt | Hge].
    + exists [], (y :: ys2). split_and!; auto; [intros u Hu; now apply not_elem_of_nil in Hu | lia].
    + assert (list_ok (node_links s) (timed_list sch) ((ys1 ++ [y]) ++ ys2)) as Hl' by now rewrite <- app_assoc.
      destruct (neighbours _ _ _ _ Hl') as (Hn & _ & Hh & _). rewrite before_of_last in *.
      assert (aws_linked_list_next y (node_links s) = Some (Some (after_of (timed_list sch) ys2), node_links s)) as En.
      { unfold aws_linked_list_next. lrun. now rewrite Hn. }
      erewrite bind_T by (apply links_read; exact En).
      destruct (IH fuel (ys1 ++ [y]) Hl') as (zs1 & zs2 & -> & E & H1 & H2); [intros u Hu; apply Hs, elem_of_cons; auto | lia |].
      exists (y :: zs1), zs2. split_and!; auto. intros u [-> | Hu]%elem_of_cons; [lia | auto].
Qed.

(** The task's place keeps the list in time order. *)
Lemma insert_in_time ts t zs1 zs2 :
  in_time ts (zs1 ++ zs2) -> (forall u, u ∈ zs1 -> time_of ts u <= time_of ts t) ->
  match zs2 with [] => True | z :: _ => time_of ts t < time_of ts z end -> in_time ts (zs1 ++ t :: zs2).
Proof using.
  intros Hs H1 H2. apply in_time_app in Hs as (S1 & S2 & S3). apply in_time_app. split_and!; auto.
  - constructor; [exact S2 |]. destruct zs2 as [| z zs2]; [constructor |].
    inversion S2 as [| ? ? S4 S5]; subst. constructor; [lia |]. eapply Forall_impl; [exact S5 |]. cbn. lia.
  - intros a b Ha [-> | Hb]%elem_of_cons; auto.
Qed.

Lemma push_task_run s ls queued t :
  core s ls queued -> is_Some (tasks s !! t) -> t ∉ queued ->
  exists rv q', push_task t s = Some (rv, mk_state (node_links s) (tasks s) q' (ran s))
    /\ queue_holds (tasks s) q' (match rv with AWS_OP_SUCCESS => t :: queued | AWS_OP_ERR _ => queued end)
    /\ nodes_stay (timed_queue s) q'.
Proof using.
  intros H Hs Hn. pose proof (core_length _ _ _ H) as Hl. rewrite length_app in Hl.
  destruct (co_task _ _ _ H t Hs) as [_ Hq].
  destruct (queue_push (tasks s) (timed_queue s) queued (co_queue _ _ _ H) t Hn Hq) as (rv & q' & E & Hh & Hst); [lia |].
  exists rv, q'. split_and!; auto. unfold push_task. erewrite bind_T by reflexivity. unfold on_queue. now rewrite E.
Qed.

(** Scheduling for later: the task goes to the queue, or, if that is refused,
    to its place in the list. *)
Lemma schedule_future_ok s ys ls queued t k tm :
  core s ((timed_list sch, ys) :: ls) queued -> in_time (tasks s) ys ->
  tasks s !! t = Some k -> scheduled k = false ->
  exists s' ys' queued', aws_task_scheduler_schedule_future sch t tm s = Some (tt, s')
    /\ core s' ((timed_list sch, ys') :: ls) queued' /\ in_time (tasks s') ys'
    /\ ys' ++ queued' ≡ₚ t :: ys ++ queued
    /\ tasks s' = <[t := mk_task tm true]> (tasks s) /\ ran s' = ran s.
Proof using.
  intros H Hin Hk Hf. assert (is_Some (tasks s !! t)) as Hs by eauto. destruct (co_task _ _ _ H t Hs) as [Hh Hn].
  destruct (core_free _ _ _ H t k Hk Hf) as (N1 & N2 & N3).
  pose proof (prepared s _ _ H t tm k Hk Hf) as Hp. set (s1 := prepare s t tm) in *.
  assert (tasks s1 !! t = Some (mk_task tm false)) as Hk1 by apply lookup_insert_eq.
  assert (t ∉ ys) as Ny by (intros Hy; apply N1; rewrite all_elems_cons, elem_of_app; auto).
  assert (forall b u, u <> t -> time_of (<[t := mk_task tm b]> (tasks s)) u = time_of (tasks s) u) as Htime
    by (intros b u Hu; now apply time_insert_ne).
  destruct (push_task_run s1 _ queued t Hp) as (rv & q' & Eq & Hq & Hst); [eauto | exact N2 |].
  unfold aws_task_scheduler_schedule_future. erewrite prepare_future by eauto. fold s1.
  erewrite bind_T by exact Eq. set (s2 := mk_state (node_links s1) (tasks s1) q' (ran s1)) in *.
  assert (rearranged s1 ((timed_list sch, ys) :: ls) (node_links s1) q' ((timed_list sch, ys) :: ls)
    (match rv with AWS_OP_SUCCESS => t :: queued | AWS_OP_ERR _ => queued end)) as Hra.
  { constructor; [exact (co_lists _ _ _ Hp) | exact Hq | reflexivity | intros x; reflexivity | exact Hst | exact (co_unlinked _ _ _ Hp)]. }
  destruct rv as [| e].
  - erewrite bind_T by reflexivity. erewrite set_scheduled_run by exact Hk1.
    eexists _, ys, (t :: queued). split; [reflexivity |]. split_and!.
    + apply (core_join s1 _ queued Hp (node_links s1) q' _ (t :: queued) (ran s1) Hra t (mk_task tm false) Hk1).
      * rewrite not_elem_of_app. auto.
      * symmetry. apply Permutation_middle.
    + match goal with |- in_time ?x _ => replace x with (<[t := mk_task tm true]> (tasks s)) by (symmetry; apply double_insert) end.
      apply (in_time_same (tasks s)); [| exact Hin]. intros u Hu. apply Htime. congruence.
    + symmetry. apply Permutation_middle.
    + apply double_insert.
    + reflexivity.
  - assert (core s2 ((timed_list sch, ys) :: ls) queued) as H2 by exact (core_move s1 _ queued Hp _ _ _ _ (ran s1) Hra (reflexivity _)).
    pose proof (lists_head _ _ _ _ (co_lists _ _ _ H2)) as Hl.
    assert (forall u, u ∈ ys -> is_Some (tasks s2 !! u)) as Hys.
    { intros u Hu. destruct (core_known _ _ _ H2 u) as (k' & E & _); [| eauto]. rewrite all_elems_cons, !elem_of_app. auto. }
    destruct (insertion_point_ok s2 tm ys (S (size (tasks s2))) [] Hl Hys) as (zs1 & zs2 & Ez & Ei & Z1 & Z2).
    { pose proof (held_length _ _ (list_nodup _ _ _ Hl) Hys). lia. }
    rewrite Ez in H2. cbn [s2 tasks] in Z1, Z2.
    destruct (linked_ok s2 (timed_list sch) zs1 zs2 ls queued t tm
      (aws_linked_list_insert_before (after_of (timed_list sch) zs2) t) H2 Hk1) as (s' & E & Hc & Et & Er).
    { intros L1 L2 L3. now apply lists_insert. }
    assert (tasks s' = <[t := mk_task tm true]> (tasks s)) as Et' by (rewrite Et; apply double_insert).
    exists s', (zs1 ++ t :: zs2), queued. split_and!; auto.
    + assert (on_links (aws_linked_list_begin (timed_list sch)) s2 = Some (Some (after_of (timed_list sch) ys), s2)) as Eb
        by (apply links_read; exact (front_run _ _ _ Hl)).
      unfold mbind at 1, T_bind at 1. erewrite bind_T by exact Eb. erewrite bind_T by reflexivity.
      erewrite bind_T by exact Ei. unfold mbind, T_bind in E. exact E.
    + rewrite Et'. apply insert_in_time.
      * apply (in_time_same (tasks s)); [| now rewrite <- Ez]. intros u Hu. apply Htime. intros ->. apply Ny. now rewrite Ez.
      * intros u Hu. rewrite time_insert_eq, Htime by (intros ->; apply Ny; rewrite Ez, elem_of_app; auto). cbn.
        specialize (Z1 u Hu). cbn [s1 prepare tasks] in Z1.
        now rewrite Htime in Z1 by (intros ->; apply Ny; rewrite Ez, elem_of_app; auto).
      * destruct zs2 as [| z zs2]; [exact I |]. assert (z <> t) by (intros ->; apply Ny; rewrite Ez, elem_of_app, elem_of_cons; auto).
        rewrite time_insert_eq, Htime by assumption. cbn. cbn [s1 prepare tasks] in Z2. now rewrite Htime in Z2.
    + rewrite Ez, <- !app_assoc. symmetry. apply (Permutation_middle zs1).
Qed.

(** ** Running and cancelling *)

Lemma task_run_ok s t k status : tasks s !! t = Some k ->
  aws_task_run fn t status s = Some (fn (ran s) t status,
    mk_state (node_links s) (<[t := mk_task (timestamp k) false]> (tasks s)) (timed_queue s) (ran s ++ [(t, status)])).
Proof using. intros Hk. unfold aws_task_run. now erewrite bind_T by exact (set_scheduled_run s t k false Hk). Qed.

(** The task leaves a list and runs. *)
Lemma leave_list s l xs1 t xs2 ls queued h' status :
  core s ((l, xs1 ++ t :: xs2) :: ls) queued -> lists_ok h' ((l, xs1 ++ xs2) :: ls) ->
  changes_only (node_links s) h' (path l (xs1 ++ t :: xs2)) -> h' !! t = Some (mk_node None None) ->
  exists k s', tasks s !! t = Some k
    /\ aws_task_run fn t status (mk_state h' (tasks s) (timed_queue s) (ran s)) = Some (fn (ran s) t status, s')
    /\ core s' ((l, xs1 ++ xs2) :: ls) queued
    /\ tasks s' = <[t := mk_task (timestamp k) false]> (tasks s) /\ ran s' = ran s ++ [(t, status)].
Proof using.
  intros H Hl Hc Ht. destruct (core_known _ _ _ H t) as (k & Hk & _).
  { rewrite all_elems_cons, !elem_of_app, elem_of_cons. auto. }
  exists k. eexists. split; [exact Hk |]. split; [exact (task_run_ok (mk_state h' (tasks s) (timed_queue s) (ran s)) t k status Hk) |].
  split_and!; [| reflexivity | reflexivity].
  apply (core_leave s ((l, xs1 ++ t :: xs2) :: ls) queued H h' _ _ _ (ran s ++ [(t, status)])); [| exact Hk |].
  - constructor; [exact Hl | exact (co_queue _ _ _ H) | reflexivity | apply Hc | now intros n |].
    apply (unlinked_frame s ((l, xs1 ++ t :: xs2) :: ls) queued H h' _ _ Hc).
    + intros u Hu Hp Hn. rewrite elem_of_path in Hp.
      destruct (co_sentinel _ _ _ H u (l, xs1 ++ t :: xs2) Hu) as [S1 S2]; [apply elem_of_cons; auto |]. cbn in S1, S2.
      rewrite all_elems_cons, !elem_of_app in Hn. rewrite elem_of_app, elem_of_cons in Hp.
      assert (u = t) as -> by tauto. unfold next_of. now rewrite Ht.
    + intros u Hu Hn. rewrite elem_of_path in Hn. rewrite all_elems_cons, !elem_of_app in *. rewrite elem_of_cons in *. tauto.
  - rewrite !all_elems_cons, <- !app_assoc. apply (Permutation_middle xs1).
Qed.

Definition dropped (t : positive) (p : listing) : listing := (p.1, filter (fun u => u <> t) p.2).
Definition drop_from (t : positive) (ls : list listing) : list listing := map (dropped t) ls.

Lemma filter_out (t : positive) (l : list positive) : t ∉ l -> filter (fun u => u <> t) l = l.
Proof using.
  induction l as [| x l IH]; [reflexivity |]. rewrite not_elem_of_cons. intros [Hx Hl].
  rewrite filter_cons_True by congruence. now rewrite IH.
Qed.

Lemma filter_split (t : positive) (l1 l2 : list positive) : NoDup (l1 ++ t :: l2) -> filter (fun u => u <> t) (l1 ++ t :: l2) = l1 ++ l2.
Proof using.
  intros Hnd. apply NoDup_app in Hnd as (_ & H1 & H2). apply NoDup_cons in H2 as [H2 _].
  rewrite filter_app, filter_cons_False by tauto. rewrite !filter_out; auto. intros H. apply (H1 t H), elem_of_cons. auto.
Qed.

Lemma drop_nothing t ls : t ∉ all_elems ls -> drop_from t ls = ls.
Proof using.
  induction ls as [| [l xs] ls IH]; [reflexivity |]. rewrite all_elems_cons, not_elem_of_app. intros [N1 N2].
  change (drop_from t ((l, xs) :: ls)) with ((l, filter (fun u => u <> t) xs) :: drop_from t ls).
  now rewrite IH, filter_out.
Qed.

(** A task in a list: the list it is in, and the others. *)
Lemma find_list t ls : t ∈ all_elems ls -> NoDup (all_elems ls) ->
  exists l xs1 xs2 ls', ls ≡ₚ (l, xs1 ++ t :: xs2) :: ls' /\ drop_from t ls ≡ₚ (l, xs1 ++ xs2) :: ls'.
Proof using.
  intros Ht Hnd. assert (exists p, p ∈ ls /\ t ∈ p.2) as ([l xs] & Hp & Hx).
  { unfold all_elems in Ht. apply list_elem_of_In, in_concat in Ht as (xs & Hxs & Hx).
    apply in_map_iff in Hxs as (p & <- & Hp). exists p. split; now apply list_elem_of_In. }
  apply elem_of_Permutation in Hp as [ls' HP]. cbn in Hx. apply list_elem_of_split in Hx as (xs1 & xs2 & ->).
  exists l, xs1, xs2, ls'. split; [exact HP |]. rewrite HP, all_elems_cons in Hnd.
  apply NoDup_app in Hnd as (Hnd & Hout & _). unfold drop_from. rewrite (Permutation_map (dropped t) HP). cbn [map].
  fold (drop_from t ls'). unfold dropped at 1. cbn [fst snd]. rewrite filter_split by exact Hnd. rewrite drop_nothing; [reflexivity |].
  apply Hout. rewrite elem_of_app, elem_of_cons. auto.
Qed.

(** Cancelling takes the task out of whatever it waits in, and runs it. *)
Lemma cancel_ok s ls queued t k :
  core s ls queued -> tasks s !! t = Some k ->
  exists s', aws_task_scheduler_cancel_task fn t s = Some (fn (ran s) t AWS_TASK_STATUS_CANCELED, s')
    /\ core s' (drop_from t ls) (filter (fun u => u <> t) queued)
    /\ tasks s' = <[t := mk_task (timestamp k) false]> (tasks s) /\ ran s' = ran s ++ [(t, AWS_TASK_STATUS_CANCELED)].
Proof using.
  intros H Hk. assert (is_Some (tasks s !! t)) as Hs by eauto. destruct (co_task _ _ _ H t Hs) as [Hh _].
  pose proof (co_nodup _ _ _ H) as Hnd. apply NoDup_app in Hnd as (Hnd & Hdis & Hndq).
  unfold aws_task_scheduler_cancel_task. erewrite bind_T by (apply links_read; apply get_node_run; exact Hh). cbn [next].
  destruct (decide (t ∈ all_elems ls)) as [Hin | Hout].
  - destruct (find_list t ls Hin Hnd) as (l & xs1 & xs2 & ls' & HP & HP').
    pose proof (core_perm s ls _ queued queued HP (reflexivity _) H) as H'.
    destruct (element_links _ _ _ t (lists_head _ _ _ _ (co_lists _ _ _ H'))) as (p & n & _ & _ & _ & _ & En & _);
      [rewrite elem_of_app, elem_of_cons; auto |]. rewrite En.
    destruct (lists_remove _ _ _ _ _ _ (co_lists _ _ _ H')) as (h' & E & Hl & Hc & Ht).
    erewrite bind_T by (apply links_run; exact E).
    destruct (leave_list s l xs1 t xs2 ls' queued h' AWS_TASK_STATUS_CANCELED H' Hl Hc Ht) as (k' & s' & Hk' & Er & Hcore & Et & Ea).
    assert (k' = k) as -> by congruence. exists s'. split_and!; auto.
    rewrite filter_out by (apply Hdis, Hin). eapply core_perm; [symmetry; exact HP' | reflexivity | exact Hcore].
  - rewrite (co_unlinked _ _ _ H t Hs Hout). rewrite drop_nothing by exact Hout.
    destruct (scheduled k) eqn:Ef.
    + assert (t ∈ queued) as Hq.
      { assert (t ∈ all_elems ls ++ queued) as Hw by (apply (co_waits _ _ _ H); exists k; auto).
        apply elem_of_app in Hw. tauto. }
      destruct (queue_remove _ _ _ (co_queue _ _ _ H) t Hq) as (q' & rest & E & Hr & HP & Hst).
      set (s1 := mk_state (node_links s) (tasks s) q' (ran s)).
      assert ((k ← get_task t; if scheduled k then ts ← tasks_now;
        _ ← on_queue (fun q => aws_priority_queue_remove (s_compare_timestamps ts) q t); mret tt else mret tt) s = Some (tt, s1)) as E1.
      { erewrite bind_T by exact (get_task_run s t k Hk). rewrite Ef. erewrite bind_T by reflexivity.
        unfold mbind, T_bind, on_queue. now rewrite E. }
      erewrite bind_T by exact E1. rewrite (task_run_ok s1 t k) by exact Hk. eexists. split; [reflexivity |].
      split_and!; [| reflexivity | reflexivity].
      assert (filter (fun u => u <> t) queued ≡ₚ rest) as Hf.
      { rewrite <- HP in Hndq |- *. change (t :: rest) with ([] ++ t :: rest) in *. now rewrite filter_split. }
      eapply core_perm; [reflexivity | symmetry; exact Hf |].
      apply (core_leave s ls queued H (node_links s) q' ls rest (ran s ++ [(t, AWS_TASK_STATUS_CANCELED)])); [| exact Hk |].
      * constructor; [exact (co_lists _ _ _ H) | exact Hr | reflexivity | now intros x | exact Hst | exact (co_unlinked _ _ _ H)].
      * rewrite <- HP. apply Permutation_middle.
    + assert ((k ← get_task t; if scheduled k then ts ← tasks_now;
        _ ← on_queue (fun q => aws_priority_queue_remove (s_compare_timestamps ts) q t); mret tt else mret tt) s = Some (tt, s)) as E1
        by (erewrite bind_T by exact (get_task_run s t k Hk); now rewrite Ef).
      erewrite bind_T by exact E1. rewrite (task_run_ok s t k) by exact Hk. eexists. split; [reflexivity |].
      split_and!; [| reflexivity | reflexivity]. destruct (core_free _ _ _ H t k Hk Ef) as (_ & N2 & _).
      rewrite filter_out by exact N2.
      apply (core_task_change s ls queued H (node_links s) (timed_queue s) ls queued (ran s ++ [(t, AWS_TASK_STATUS_CANCELED)])
        ltac:(constructor; [exact (co_lists _ _ _ H) | exact (co_queue _ _ _ H) | reflexivity | now intros x | now intros n | exact (co_unlinked _ _ _ H)])
        t k); auto.
      * exact (co_nodup _ _ _ H).
      * rewrite elem_of_app. cbn. split; [tauto | discriminate].
Qed.
End calls.
