(* ===== verification/TaskSchedulerRun.v ===== *)
(** * The task scheduler: running

    Collecting the tasks that are due, running them while their functions
    schedule and cancel, and cleaning up. *)

From Stdlib Require Import Sorting.Sorted.
From S2P Require Import Prelude ArrayItems PriorityQueue PriorityQueueSpec PriorityQueueOps PriorityQueueClaims LinkedList LinkedListSpec LinkedListOps LinkedListMove LinkedLists TaskScheduler TaskSchedulerSpec TaskSchedulerCalls.
Import LinkedList PriorityQueue TaskScheduler.

Local Open Scope Z_scope.

Section collect.
Context (sch : aws_task_scheduler).
Local Abbreviation asap_of x := (asap_list sch, x).
Local Abbreviation timed_of x := (timed_list sch, x).
Local Abbreviation running_of x := (running_list sch, x).

(** ** Collecting *)

Section collecting.
Context (now : Z) (xs : list positive) (ts : gmap positive aws_task) (r : list event).

(** The tasks [ms] have been moved behind [xs]. *)
Record collecting (s : state) (ms ys queued : list positive) : Prop := {
  cl_core : core s [running_of (xs ++ ms); timed_of ys; asap_of []] queued;
  cl_moved : in_time ts ms;
  cl_list : in_time ts ys;
  cl_cross : forall a b, a ∈ ms -> b ∈ ys ++ queued -> time_of ts a <= time_of ts b;
  cl_due : forall a, a ∈ ms -> time_of ts a <= now;
  cl_tasks : tasks s = ts;
  cl_ran : ran s = r
}.

Lemma snoc_in_time ms t : in_time ts ms -> (forall a, a ∈ ms -> time_of ts a <= time_of ts t) -> in_time ts (ms ++ [t]).
Proof using.
  intros H1 H2. apply in_time_app. split_and!; auto; [repeat constructor |].
  intros a b Ha ->%list_elem_of_singleton. auto.
Qed.

(** A task that is linked nowhere goes to the running list. *)
Lemma to_running s ys ys' ms queued queued' h t q' :
  collecting s ms ys queued -> (forall u, u ∈ ys' -> u ∈ ys) -> in_time ts ys' ->
  t :: ys' ++ queued' ≡ₚ ys ++ queued -> time_of ts t <= now -> (forall b, b ∈ ys ++ queued -> time_of ts t <= time_of ts b) ->
  lists_ok h [running_of (xs ++ ms); timed_of ys'; asap_of []] -> (forall x, holds h x <-> holds (node_links s) x) ->
  (forall u, is_Some (ts !! u) -> u ∉ (xs ++ ms) ++ ys' -> next_of h u = None) ->
  queue_holds ts q' queued' -> nodes_stay (timed_queue s) q' ->
  exists s', on_links (aws_linked_list_push_back (running_list sch) t) (mk_state h ts q' r) = Some (tt, s')
    /\ collecting s' (ms ++ [t]) ys' queued'.
Proof using.
  intros [H C1 C2 C3 C4 Et Er] Hsub Hy HP Hdue Hmin Hl Hh Hun Hq Hst.
  assert (t ∈ ys ++ queued) as Ht by (rewrite <- HP; apply elem_of_cons; auto).
  assert (NoDup (((xs ++ ms) ++ t :: ys') ++ queued')) as Hnd.
  { pose proof (co_nodup _ _ _ H) as Hnd. rewrite !all_elems_cons in Hnd. cbn [all_elems map concat] in Hnd.
    rewrite app_nil_r, <- app_assoc, <- HP in Hnd. now rewrite <- app_assoc. }
  assert (t ∉ (xs ++ ms) ++ ys') as Hnt.
  { rewrite <- Permutation_middle, NoDup_app in Hnd. destruct Hnd as [Hnd _]. now apply NoDup_cons in Hnd. }
  assert (is_Some (ts !! t)) as Hs.
  { rewrite <- Et. destruct (core_known _ _ _ H t) as (k & E & _); [| eauto].
    rewrite !all_elems_cons. cbn [all_elems map concat]. rewrite app_nil_r, !elem_of_app. rewrite elem_of_app in Ht. tauto. }
  assert (forall p, p ∈ [running_of (xs ++ ms); timed_of ys'; asap_of []] -> forall u, is_Some (ts !! u) -> u <> head p.1 /\ u <> tail p.1) as Hsen.
  { intros p Hp u Hu. rewrite <- Et in Hu. rewrite !elem_of_cons in Hp.
    destruct Hp as [-> | [-> | [-> | Hp%not_elem_of_nil]]]; [| | | easy];
      [apply (co_sentinel _ _ _ H u (running_of (xs ++ ms)) Hu) | apply (co_sentinel _ _ _ H u (timed_of ys) Hu)
      | apply (co_sentinel _ _ _ H u (asap_of []) Hu)]; rewrite !elem_of_cons; auto. }
  destruct (lists_push_back h (running_list sch) [timed_of ys'; asap_of []] (xs ++ ms) t Hl) as (h' & E & Hl' & Hc).
  { apply Hh. destruct (co_task _ _ _ H t) as [Hht _]; [now rewrite Et | exact Hht]. }
  { rewrite elem_all_paths. intros [Hin | (p & Hp & Hx)].
    - rewrite !all_elems_cons in Hin. cbn [all_elems map concat] in Hin. rewrite app_nil_r in Hin. now apply Hnt.
    - destruct (Hsen p Hp t Hs) as [S1 S2]. now destruct Hx. }
  rewrite <- app_assoc in Hl'. eexists. split; [apply links_run; exact E |].
  constructor; cbn [tasks ran]; auto.
  - rewrite <- Et. apply (core_move s [running_of (xs ++ ms); timed_of ys; asap_of []] queued H).
    + constructor; [exact Hl' | now rewrite Et | reflexivity | | exact Hst |].
      * intros x. rewrite <- Hh. apply Hc.
      * intros u Hu Hn. rewrite !all_elems_cons in Hn. cbn [all_elems map concat] in Hn. rewrite app_nil_r in Hn.
        rewrite Et in Hu. destruct Hc as [_ Hc]. unfold next_of. rewrite Hc; [apply Hun; [exact Hu |] |].
        -- intros Hin. apply Hn. rewrite !elem_of_app in *. tauto.
        -- rewrite elem_of_cons, elem_of_path. destruct (Hsen (running_of (xs ++ ms)) ltac:(apply elem_of_cons; auto) u Hu) as [S1 S2].
           cbn in S1, S2. rewrite !elem_of_app in *. rewrite list_elem_of_singleton in Hn. tauto.
    + rewrite !all_elems_cons. cbn [all_elems map concat]. rewrite !app_nil_r. rewrite <- !app_assoc. do 2 apply Permutation_app_head.
      cbn [app]. exact HP.
  - apply snoc_in_time; auto.
  - intros a b [Ha | ->%list_elem_of_singleton]%elem_of_app Hb; [apply C3; auto | apply Hmin];
      rewrite <- HP; apply elem_of_cons; auto.
  - intros a [Ha | ->%list_elem_of_singleton]%elem_of_app; auto.
Qed.

(** The queue's first task is due before anything else. *)
Lemma take_from_queue_ok s ms ys queued t rest q' :
  collecting s ms ys queued -> aws_priority_queue_pop (s_compare_timestamps ts) (timed_queue s) = Some (Ok t, q') ->
  queue_holds ts q' rest -> t :: rest ≡ₚ queued -> nodes_stay (timed_queue s) q' ->
  time_of ts t <= now -> (forall b, b ∈ ys ++ queued -> time_of ts t <= time_of ts b) ->
  exists s', take_from_queue sch s = Some (tt, s') /\ collecting s' (ms ++ [t]) ys rest.
Proof using.
  intros H Ep Hq HP Hst Hdue Hmin. pose proof H as [Hc C1 C2 C3 C4 Et Er].
  destruct (to_running s ys ys ms queued rest (node_links s) t q' H) as (s' & E & Hs'); auto.
  - now rewrite Permutation_middle, HP.
  - exact (co_lists _ _ _ Hc).
  - intros u Hu Hn. rewrite <- Et in Hu. apply (co_unlinked _ _ _ Hc u Hu).
    rewrite !all_elems_cons. cbn [all_elems map concat]. now rewrite app_nil_r.
  - exists s'. split; [| exact Hs']. unfold take_from_queue.
    assert (pop_task s = Some (Some t, mk_state (node_links s) ts q' r)) as Epop.
    { unfold pop_task. erewrite bind_T by reflexivity. rewrite Et. unfold mbind, T_bind, on_queue. rewrite Ep. now rewrite Et, Er. }
    erewrite bind_T by exact Epop. exact E.
Qed.

(** The list's first task is due before anything else. *)
Lemma take_from_list_ok s ms y ys queued :
  collecting s ms (y :: ys) queued -> time_of ts y <= now -> (forall b, b ∈ queued -> time_of ts y <= time_of ts b) ->
  exists s', (_ ← on_links (aws_linked_list_pop_front (timed_list sch));
              on_links (aws_linked_list_push_back (running_list sch) y)) s = Some (tt, s')
    /\ collecting s' (ms ++ [y]) ys queued.
Proof using.
  intros H Hdue Hmin. pose proof H as [Hc C1 C2 C3 C4 Et Er]. inversion C2 as [| ? ? S1 S2]; subst.
  assert ([running_of (xs ++ ms); timed_of (y :: ys); asap_of []] ≡ₚ [timed_of (y :: ys); running_of (xs ++ ms); asap_of []])
    as HP by apply perm_swap.
  pose proof (co_lists _ _ _ Hc) as Hl. rewrite HP in Hl. destruct (lists_pop_front _ _ _ _ _ Hl) as (h & E & Hl' & [Hh Hch] & Hy).
  destruct (to_running s (y :: ys) ys ms queued queued h y (timed_queue s) H) as (s' & E' & Hs'); auto.
  - intros u Hu. apply elem_of_cons. auto.
  - intros b [Hb | Hb]%elem_of_app; [| now apply Hmin]. apply elem_of_cons in Hb as [-> | Hb]; [reflexivity |].
    rewrite Forall_forall in S2. now apply S2.
  - rewrite perm_swap. exact Hl'.
  - intros u Hu Hn. rewrite <- Et in Hu. unfold next_of. destruct (decide (u = y)) as [-> | Hne]; [now rewrite Hy |].
    destruct (co_sentinel _ _ _ Hc u (timed_of (y :: ys)) Hu) as [N1 N2]; [rewrite !elem_of_cons; auto |]. cbn in N1, N2.
    rewrite Hch by (rewrite elem_of_path, elem_of_cons; rewrite !elem_of_app in Hn; tauto).
    fold (next_of (node_links s) u). apply (co_unlinked _ _ _ Hc u Hu). rewrite !all_elems_cons. cbn [all_elems map concat].
    rewrite app_nil_r, !elem_of_app, elem_of_cons. rewrite !elem_of_app in Hn. tauto.
  - rewrite <- Et. exact (co_queue _ _ _ Hc).
  - now intros n.
  - exists s'. split; [| exact Hs']. erewrite bind_T by (apply links_run; exact E). rewrite Et, Er. exact E'.
Qed.

Lemma top_task_run s q : timed_queue s = q ->
  top_task s = match aws_priority_queue_top q with
               | Some (Ok t) => Some (Some t, s) | Some (Err _) => Some (None, s) | None => None
               end.
Proof using. intros <-. reflexivity. Qed.

Lemma waiting_task s ms ys queued u : collecting s ms ys queued -> u ∈ ys ++ queued ->
  exists k, tasks s !! u = Some k /\ timestamp k = time_of ts u.
Proof using.
  intros [Hc _ _ _ _ Et _] Hu. destruct (core_known _ _ _ Hc u) as (k & E & _).
  { rewrite !all_elems_cons. cbn [all_elems map concat]. rewrite app_nil_r, <- app_assoc. apply elem_of_app. auto. }
  exists k. split; [exact E |]. unfold time_of. rewrite <- Et, E. reflexivity.
Qed.

(** The top of the queue is a first task in it. *)
Lemma top_ok s ms ys queued : collecting s ms ys queued ->
  (queued = [] /\ top_task s = Some (None, s))
  \/ exists t rest q' k, top_task s = Some (Some t, s) /\ t :: rest ≡ₚ queued /\ tasks s !! t = Some k /\ timestamp k = time_of ts t
       /\ aws_priority_queue_pop (s_compare_timestamps ts) (timed_queue s) = Some (Ok t, q') /\ queue_holds ts q' rest
       /\ nodes_stay (timed_queue s) q' /\ (forall u, u ∈ queued -> time_of ts t <= time_of ts u).
Proof using.
  intros H. pose proof H as [Hc C1 C2 C3 C4 Et Er]. pose proof (queue_pop _ _ _ (co_queue _ _ _ Hc)) as Hp. rewrite Et in Hp.
  assert (queued = [] \/ exists t rest q', aws_priority_queue_top (timed_queue s) = Some (Ok t)
      /\ aws_priority_queue_pop (s_compare_timestamps ts) (timed_queue s) = Some (Ok t, q')
      /\ queue_holds ts q' rest /\ t :: rest ≡ₚ queued
      /\ (forall u, u ∈ queued -> time_of ts t <= time_of ts u) /\ nodes_stay (timed_queue s) q') as [E | E]
    by (destruct queued; auto).
  - left. split; [exact E |]. rewrite E in Hp. rewrite (top_task_run s _ eq_refl). now rewrite Hp.
  - right. destruct E as (t & rest & q' & E1 & E2 & E3 & E4 & E5 & E6).
    destruct (waiting_task s ms ys queued t H) as (k & Ek & Etk); [rewrite elem_of_app, <- E4, elem_of_cons; auto |].
    exists t, rest, q', k. split_and!; auto. rewrite (top_task_run s _ eq_refl). now rewrite E1.
Qed.

(** What the loops leave. *)
Definition moved (s : state) (ms ys queued : list positive) (s' : state) (ms' ys' queued' : list positive) : Prop :=
  collecting s' ms' ys' queued' /\ ms' ++ ys' ++ queued' ≡ₚ ms ++ ys ++ queued.

Lemma moved_step s ms ys queued t s1 ys1 queued1 s' ms' ys' queued' :
  t :: ys1 ++ queued1 ≡ₚ ys ++ queued -> moved s1 (ms ++ [t]) ys1 queued1 s' ms' ys' queued' ->
  moved s ms ys queued s' ms' ys' queued'.
Proof using.
  intros HP [H E]. split; [exact H |]. rewrite E, <- HP, <- app_assoc. reflexivity.
Qed.

Lemma timed_list_loop_ok fuel : forall s ms ys queued,
  collecting s ms ys queued -> (length (ys ++ queued) < fuel)%nat ->
  exists s' ms' ys' queued', timed_list_loop sch fuel now s = Some (tt, s')
    /\ moved s ms ys queued s' ms' ys' queued' /\ forall u, u ∈ ys' -> now < time_of ts u.
Proof using.
  induction fuel as [| fuel IH]; intros s ms ys queued H Hf; [lia |]. cbn [timed_list_loop].
  pose proof H as [Hc C1 C2 C3 C4 Et Er].
  assert (lists_ok (node_links s) [timed_of ys; running_of (xs ++ ms); asap_of []]) as Hl
    by (rewrite (perm_swap (running_of (xs ++ ms))); exact (co_lists _ _ _ Hc)).
  pose proof (lists_head _ _ _ _ Hl) as Hlist.
  erewrite bind_T by (apply links_read; exact (empty_run _ _ _ Hlist)).
  destruct ys as [| y ys].
  { rewrite bool_decide_eq_true_2 by reflexivity. exists s, ms, [], queued. split; [reflexivity |]. split; [now split |].
    intros u Hu. now apply not_elem_of_nil in Hu. }
  rewrite bool_decide_eq_false_2 by easy. erewrite bind_T by (apply links_read; exact (front_run _ _ _ Hlist)).
  erewrite bind_T by (apply links_read; reflexivity). cbn [after_of List.hd].
  destruct (waiting_task s ms (y :: ys) queued y H) as (k & Ek & Ety); [rewrite elem_of_app, elem_of_cons; auto |].
  erewrite bind_T by exact (get_task_run s y k Ek). inversion C2 as [| ? ? S1 S2]. rewrite Forall_forall in S2.
  rewrite Ety. destruct (Z.ltb_spec now (time_of ts y)) as [Hlater | Hdue].
  { exists s, ms, (y :: ys), queued. split; [reflexivity |]. split; [now split |].
    intros u [-> | Hu]%elem_of_cons; [exact Hlater |]. specialize (S2 u Hu). lia. }
  assert ((forall b, b ∈ queued -> time_of ts y <= time_of ts b) ->
    exists s' ms' ys' queued', (_ ← on_links (aws_linked_list_pop_front (timed_list sch));
      _ ← on_links (aws_linked_list_push_back (running_list sch) y); timed_list_loop sch fuel now) s = Some (tt, s')
    /\ moved s ms (y :: ys) queued s' ms' ys' queued' /\ forall u, u ∈ ys' -> now < time_of ts u) as Hlist_case.
  { intros Hmin. destruct (take_from_list_ok s ms y ys queued H Hdue Hmin) as (s1 & E1 & Hs1).
    destruct (IH s1 (ms ++ [y]) ys queued Hs1) as (s' & ms' & ys' & queued' & E' & Hm & Hlate); [cbn in Hf; lia |].
    exists s', ms', ys', queued'. split; [| split; [exact (moved_step _ _ (y :: ys) _ y _ ys queued _ _ _ _ (reflexivity _) Hm) | exact Hlate]].
    unfold mbind, T_bind in E1 |- *. destruct (on_links _ s) as [[? s2] |]; [| discriminate]. now rewrite E1. }
  destruct (top_ok s ms (y :: ys) queued H) as [(-> & Etop) | (t & rest & q' & kt & Etop & HP & Ekt & Ett & Epop & Hq & Hst & Hmin)];
    erewrite bind_T by exact Etop.
  - erewrite bind_T by reflexivity. apply Hlist_case. intros b Hb. now apply not_elem_of_nil in Hb.
  - erewrite bind_T by (erewrite bind_T by exact (get_task_run s t kt Ekt); reflexivity). rewrite Ett.
    destruct (Z.leb_spec (time_of ts t) now) as [Htd | Htl], (Z.ltb_spec (time_of ts t) (time_of ts y)) as [Hsoon | Hnot];
      cbn [andb].
    2-4: apply Hlist_case; intros b Hb; specialize (Hmin b Hb); lia.
    destruct (take_from_queue_ok s ms (y :: ys) queued t rest q' H Epop Hq HP Hst Htd) as (s1 & E1 & Hs1).
    { intros b [Hb | Hb]%elem_of_app; [| now apply Hmin]. apply elem_of_cons in Hb as [-> | Hb]; [lia |]. specialize (S2 b Hb). lia. }
    erewrite bind_T by exact E1.
    assert (t :: (y :: ys) ++ rest ≡ₚ (y :: ys) ++ queued) as HPm by (rewrite Permutation_middle; now rewrite HP).
    destruct (IH s1 (ms ++ [t]) (y :: ys) rest Hs1) as (s' & ms' & ys' & queued' & E' & Hm & Hlate).
    { apply Permutation_length in HPm. cbn [length app] in HPm. cbn [length app] in Hf |- *. lia. }
    exists s', ms', ys', queued'. split; [exact E' |]. split; [exact (moved_step _ _ _ _ _ _ _ _ _ _ _ _ HPm Hm) | exact Hlate].
Qed.

Lemma timed_queue_loop_ok fuel : forall s ms ys queued,
  collecting s ms ys queued -> (length queued < fuel)%nat -> (forall u, u ∈ ys -> now < time_of ts u) ->
  exists s' ms' queued', timed_queue_loop sch fuel now s = Some (tt, s')
    /\ moved s ms ys queued s' ms' ys queued' /\ forall u, u ∈ ys ++ queued' -> now < time_of ts u.
Proof using.
  induction fuel as [| fuel IH]; intros s ms ys queued H Hf Hys; [lia |]. cbn [timed_queue_loop].
  destruct (top_ok s ms ys queued H) as [(-> & Etop) | (t & rest & q' & kt & Etop & HP & Ekt & Ett & Epop & Hq & Hst & Hmin)];
    erewrite bind_T by exact Etop.
  - exists s, ms, []. split; [reflexivity |]. split; [now split |]. rewrite app_nil_r. exact Hys.
  - cbn iota. erewrite bind_T by exact (get_task_run s t kt Ekt). rewrite Ett.
    destruct (Z.ltb_spec now (time_of ts t)) as [Hlater | Hdue].
    + exists s, ms, queued. split; [reflexivity |]. split; [now split |].
      intros u [Hu | Hu]%elem_of_app; [now apply Hys |]. specialize (Hmin u Hu). lia.
    + destruct (take_from_queue_ok s ms ys queued t rest q' H Epop Hq HP Hst Hdue) as (s1 & E1 & H1).
      { intros b [Hb | Hb]%elem_of_app; [specialize (Hys b Hb); lia | now apply Hmin]. }
      erewrite bind_T by exact E1. destruct (IH s1 (ms ++ [t]) ys rest H1) as (s' & ms' & queued' & E' & Hm & Hlate).
      { apply Permutation_length in HP. cbn in HP. lia. }
      { exact Hys. }
      exists s', ms', queued'. split; [exact E' |]. split; [| exact Hlate].
      apply (moved_step s ms ys queued t s1 ys rest); [| exact Hm]. rewrite Permutation_middle. now rewrite HP.
Qed.
End collecting.

(** ** Between calls *)

(** The memory of the running list is not in use. *)
Record ready (s : state) (asap listed queued : list positive) : Prop := {
  rd_core : core s [asap_of asap; timed_of listed] queued;
  rd_time : in_time (tasks s) listed;
  rd_head : holds (node_links s) (head (running_list sch));
  rd_tail : holds (node_links s) (tail (running_list sch));
  rd_ends : head (running_list sch) <> tail (running_list sch);
  rd_head_out : head (running_list sch) ∉ all_paths [asap_of asap; timed_of listed];
  rd_tail_out : tail (running_list sch) ∉ all_paths [asap_of asap; timed_of listed];
  rd_tasks : forall t, is_Some (tasks s !! t) -> t <> head (running_list sch) /\ t <> tail (running_list sch)
}.

Lemma new_list s ls queued l h' :
  core s ls queued -> lists_ok h' ((l, []) :: ls) -> changes_only (node_links s) h' [head l; tail l] ->
  (forall t, is_Some (tasks s !! t) -> t <> head l /\ t <> tail l) ->
  core (mk_state h' (tasks s) (timed_queue s) (ran s)) ((l, []) :: ls) queued.
Proof using.
  intros [C1 C2 C3 C4 C5 C6 C7 C8] Hl [Hh Hc] Ht.
  constructor; cbn [node_links tasks timed_queue]; rewrite ?all_elems_cons; cbn [app]; auto.
  - intros t Hs. destruct (C5 t Hs). split; [now apply Hh | assumption].
  - intros t p Hs [-> | Hp]%elem_of_cons; [apply Ht, Hs | now apply C6].
  - intros t Hs Hn. unfold next_of. rewrite Hc; [now apply C7 |]. destruct (Ht t Hs).
    rewrite !elem_of_cons. intros [? | [? | ?%not_elem_of_nil]]; easy.
Qed.

Lemma swapped s a b xs ys ls queued :
  core s ((a, xs) :: (b, ys) :: ls) queued ->
  exists s', on_links (aws_linked_list_swap_contents a b) s = Some (tt, s')
    /\ core s' ((a, ys) :: (b, xs) :: ls) queued /\ tasks s' = tasks s /\ ran s' = ran s.
Proof using.
  intros H. destruct (lists_swap _ _ _ _ _ _ (co_lists _ _ _ H)) as (h' & E & Hl & Hc).
  eexists. split; [apply links_run; exact E |]. split_and!; [| reflexivity | reflexivity].
  apply (core_move s ((a, xs) :: (b, ys) :: ls) queued H).
  - constructor; [exact Hl | exact (co_queue _ _ _ H) | reflexivity | apply Hc | now intros n |].
    apply (unlinked_frame s _ queued H h' _ _ Hc).
    + intros u Hu Hp Hn. exfalso. destruct (co_sentinel _ _ _ H u (a, xs) Hu) as [A1 A2]; [rewrite !elem_of_cons; auto |].
      destruct (co_sentinel _ _ _ H u (b, ys) Hu) as [B1 B2]; [rewrite !elem_of_cons; auto |]. cbn in A1, A2, B1, B2.
      rewrite elem_of_app, !elem_of_path in Hp. rewrite !all_elems_cons, !elem_of_app in Hn. tauto.
    + intros u. rewrite !all_elems_cons, !elem_of_app. tauto.
  - rewrite !all_elems_cons, !app_assoc. do 2 apply Permutation_app_tail. apply Permutation_app_comm.
Qed.

(** Collecting what is due at [now]: everything scheduled for now, then the due
    tasks in time order. *)
Lemma collect_ok s asap listed queued now :
  ready s asap listed queued ->
  exists s' ms listed' queued', collect sch now s = Some (tt, s')
    /\ core s' [running_of (asap ++ ms); timed_of listed'; asap_of []] queued'
    /\ in_time (tasks s) ms /\ in_time (tasks s) listed' /\ ms ++ listed' ++ queued' ≡ₚ listed ++ queued
    /\ (forall u, u ∈ ms -> time_of (tasks s) u <= now)
    /\ (forall u, u ∈ listed' ++ queued' -> now < time_of (tasks s) u)
    /\ tasks s' = tasks s /\ ran s' = ran s.
Proof using.
  intros [H Ht R1 R2 R3 R4 R5 R6]. unfold collect. erewrite bind_T by reflexivity.
  destruct (lists_init _ [asap_of asap; timed_of listed] (running_list sch) (co_lists _ _ _ H) R1 R2 R3 R4 R5) as (h1 & E1 & Hl1 & Hc1).
  erewrite bind_T by (apply links_run; exact E1).
  pose proof (new_list s _ queued _ h1 H Hl1 Hc1 R6) as H1.
  destruct (swapped _ _ _ _ _ _ _ H1) as (s2 & E2 & H2 & Et2 & Er2). erewrite bind_T by exact E2. cbn [tasks ran] in Et2, Er2.
  assert (collecting now asap (tasks s) (ran s) s2 [] listed queued) as Hcl.
  { constructor; auto.
    - rewrite app_nil_r. eapply core_perm; [| reflexivity | exact H2]. apply perm_skip, perm_swap.
    - constructor.
    - intros a b Ha. now apply not_elem_of_nil in Ha.
    - intros a Ha. now apply not_elem_of_nil in Ha. }
  assert (length (listed ++ queued) <= size (tasks s))%nat as Hlen.
  { pose proof (co_nodup _ _ _ H) as Hnd. rewrite !all_elems_cons, <- app_assoc in Hnd. cbn [all_elems map concat] in Hnd.
    rewrite app_nil_r in Hnd. apply NoDup_app in Hnd as (_ & _ & Hnd). apply (held_length _ _ Hnd).
    intros t Hin. destruct (core_known _ _ _ H t) as (k & E & _); [| eauto].
    rewrite !all_elems_cons. cbn [all_elems map concat]. rewrite app_nil_r, <- app_assoc, elem_of_app. auto. }
  destruct (timed_list_loop_ok now asap (tasks s) (ran s) (S (size (tasks s))) s2 [] listed queued Hcl) as
    (s3 & ms3 & ys3 & q3 & E3 & [H3 P3] & L3); [lia |]. erewrite bind_T by exact E3.
  destruct (timed_queue_loop_ok now asap (tasks s) (ran s) (S (size (tasks s))) s3 ms3 ys3 q3 H3) as (s4 & ms4 & q4 & E4 & [H4 P4] & L4);
    [| exact L3 |].
  { apply Permutation_length in P3. rewrite !length_app in P3. rewrite length_app in Hlen. cbn in P3. lia. }
  destruct H4 as [C1 C2 C3 C4 C5 C6 C7]. exists s4, ms4, ys3, q4. split_and!; auto. now rewrite P4, P3.
Qed.
End collect.

(** ** The task scheduler: what running means

    A plan of tasks, without memory: those to run in this call, those scheduled
    for the next one and those scheduled for a time. The scheduler carries a
    plan out, whatever the functions of the tasks do to it. *)



(** ** Plans *)

(** The order of [timed] says nothing. *)
Record plan := mk_plan {
  running : list positive;
  asap : list positive;
  timed : list positive;
  known : gmap positive aws_task;
  history : list event
}.

Definition without (t : positive) (l : list positive) : list positive := filter (fun u => u <> t) l.

Section plans.
Context (fn : list event -> positive -> aws_task_status -> list action).

(** The task's function is called. *)
Definition plan_call (t : positive) (status : aws_task_status) (p : plan) : option (list action * plan) :=
  k ← known p !! t;
  Some (fn (history p) t status,
        mk_plan (without t (running p)) (without t (asap p)) (without t (timed p))
          (<[t := mk_task (timestamp k) false]> (known p)) (history p ++ [(t, status)])).

(** A task must not be scheduled twice. *)
Definition plan_step (a : action) (p : plan) : option (list action * plan) :=
  match a with
  | Schedule_now t =>
      k ← known p !! t;
      if scheduled k then None
      else Some ([], mk_plan (running p) (asap p ++ [t]) (timed p) (<[t := mk_task 0 true]> (known p)) (history p))
  | Schedule_future t time =>
      k ← known p !! t;
      if scheduled k then None
      else Some ([], mk_plan (running p) (asap p) (t :: timed p) (<[t := mk_task time true]> (known p)) (history p))
  | Cancel_task t => plan_call t AWS_TASK_STATUS_CANCELED p
  end.

(** Calls in order, each with all it leads to before the next. *)
Inductive does : list action -> plan -> plan -> Prop :=
| does_nothing p : does [] p p
| does_call a work p calls p1 p2 :
    plan_step a p = Some (calls, p1) -> does (calls ++ work) p1 p2 -> does (a :: work) p p2.

(** The running tasks, one after the other, each with all its function does. *)
Inductive runs (status : aws_task_status) : plan -> plan -> Prop :=
| runs_out p : running p = [] -> runs status p p
| runs_next p t rest work p1 p2 p3 :
    running p = t :: rest -> plan_call t status p = Some (work, p1) -> does work p1 p2 ->
    runs status p2 p3 -> runs status p p3.
End plans.

(** ** The scheduler carries a plan out *)

Section represents.
Context (fn : list event -> positive -> aws_task_status -> list action).
Context (sch : aws_task_scheduler).
Local Abbreviation asap_of x := (asap_list sch, x).
Local Abbreviation timed_of x := (timed_list sch, x).
Local Abbreviation running_of x := (running_list sch, x).

(** The running list exists while [live]: during [s_run_all]. *)
Definition lists_of (live : bool) (p : plan) (listed : list positive) : list listing :=
  (if live then [running_of (running p)] else []) ++ [timed_of listed; asap_of (asap p)].

Record represents (live : bool) (s : state) (p : plan) (listed queued : list positive) : Prop := {
  rp_core : core s (lists_of live p listed) queued;
  rp_time : in_time (tasks s) listed;
  rp_timed : listed ++ queued ≡ₚ timed p;
  rp_tasks : tasks s = known p;
  rp_ran : ran s = history p
}.

Lemma in_time_without ts t l : in_time ts l -> in_time ts (without t l).
Proof using.
  unfold in_time, without. induction 1 as [| x l Hl IH Hx]; [constructor |].
  rewrite filter_cons. case_decide; [| exact IH]. constructor; [exact IH |].
  rewrite Forall_forall in *. intros y Hy. apply Hx. apply list_elem_of_filter in Hy. tauto.
Qed.

Lemma in_time_flag ts t k b l : ts !! t = Some k -> in_time ts l -> in_time (<[t := mk_task (timestamp k) b]> ts) l.
Proof using.
  intros Hk. apply in_time_same. intros u _. destruct (decide (u = t)) as [-> | Hu]; [| now apply time_insert_ne].
  rewrite time_insert_eq. unfold time_of. now rewrite Hk.
Qed.

Lemma asap_first live p listed :
  lists_of live p listed ≡ₚ asap_of (asap p) :: (if live then [running_of (running p)] else []) ++ [timed_of listed].
Proof using.
  unfold lists_of. change [timed_of listed; asap_of (asap p)] with ([timed_of listed] ++ [asap_of (asap p)]).
  rewrite app_assoc. symmetry. apply Permutation_cons_append.
Qed.

Lemma timed_first live p listed :
  lists_of live p listed ≡ₚ timed_of listed :: (if live then [running_of (running p)] else []) ++ [asap_of (asap p)].
Proof using. unfold lists_of. symmetry. apply Permutation_middle. Qed.

Lemma lists_of_timed live p listed u : u ∈ listed -> u ∈ all_elems (lists_of live p listed).
Proof using. intros Hu. rewrite timed_first, all_elems_cons, elem_of_app. auto. Qed.

Lemma perform_ok live s p listed queued a calls p' :
  represents live s p listed queued -> plan_step fn a p = Some (calls, p') ->
  exists s' listed' queued', perform fn sch a s = Some (calls, s') /\ represents live s' p' listed' queued'.
Proof using.
  intros [H Ht HP Et Er] Hs. destruct a as [t | t tm | t]; cbn [plan_step plan_call perform] in *;
    unfold plan_call in *; rewrite <- Et in Hs; destruct (tasks s !! t) as [k |] eqn:Hk; try discriminate; cbn [mbind option_bind] in Hs.
  - destruct (scheduled k) eqn:Hf; [discriminate |]. injection Hs as <- <-.
    assert (t ∉ listed) as Hn.
    { destruct (core_free _ _ _ H t k Hk Hf) as (N & _). intros Hin. now apply N, lists_of_timed. }
    pose proof (core_perm _ _ _ _ _ (asap_first live p listed) (reflexivity _) H) as H'.
    destruct (schedule_now_ok sch s _ _ queued t k H' Hk Hf) as (s' & E & Hc & Et' & Er').
    exists s', listed, queued. split; [erewrite bind_T by exact E; reflexivity |]. constructor; cbn; auto.
    + eapply core_perm; [symmetry; apply asap_first | reflexivity | exact Hc].
    + rewrite Et'. apply (in_time_same (tasks s)); [| exact Ht]. intros u Hu. apply time_insert_ne. congruence.
    + now rewrite Er'.
  - destruct (scheduled k) eqn:Hf; [discriminate |]. injection Hs as <- <-.
    pose proof (core_perm _ _ _ _ _ (timed_first live p listed) (reflexivity _) H) as H'.
    destruct (schedule_future_ok sch s listed _ queued t k tm H' Ht Hk Hf) as (s' & ys' & queued' & E & Hc & Hin & HP' & Et' & Er').
    exists s', ys', queued'. split; [erewrite bind_T by exact E; reflexivity |]. constructor; cbn; auto.
    + eapply core_perm; [symmetry; apply timed_first | reflexivity | exact Hc].
    + now rewrite HP', HP.
    + now rewrite Er'.
  - injection Hs as <- <-. destruct (cancel_ok fn s _ queued t k H Hk) as (s' & E & Hc & Et' & Er').
    exists s', (without t listed), (without t queued). rewrite <- Er. split; [exact E |].
    constructor; cbn [running asap timed known history]; auto; [now destruct live | |].
    + rewrite Et'. apply in_time_flag; [exact Hk |]. now apply in_time_without.
    + unfold without. now rewrite <- filter_app, HP.
Qed.

(** With room for enough calls. *)
Lemma perform_all_ok work p p' : does fn work p p' -> forall live s listed queued, represents live s p listed queued ->
  exists n s' listed' queued', (forall calls, (n <= calls)%nat -> perform_all fn sch calls work s = Some (tt, s'))
    /\ represents live s' p' listed' queued'.
Proof using.
  induction 1 as [p | a work p calls p1 p2 Hs Hd IH]; intros live s listed queued H.
  - exists O, s, listed, queued. split; [| exact H]. now intros [| calls] _.
  - destruct (perform_ok live s p listed queued a calls p1 H Hs) as (s1 & l1 & q1 & E1 & H1).
    destruct (IH live s1 l1 q1 H1) as (n & s2 & l2 & q2 & E2 & H2). exists (S n), s2, l2, q2. split; [| exact H2].
    intros [| m] Hm; [lia |]. cbn [perform_all]. erewrite bind_T by exact E1. apply E2. lia.
Qed.

Lemma plan_step_running a p calls p' : plan_step fn a p = Some (calls, p') -> (length (running p') <= length (running p))%nat.
Proof using.
  destruct a; cbn [plan_step]; unfold plan_call; destruct (known p !! task) as [k |]; cbn; try discriminate;
    [destruct (scheduled k); [discriminate |] | destruct (scheduled k); [discriminate |] |]; intros [= <- <-]; cbn; auto.
  apply length_filter.
Qed.

Lemma does_running work p p' : does fn work p p' -> (length (running p') <= length (running p))%nat.
Proof using.
  induction 1 as [p | a work p calls p1 p2 Hs Hd IH]; [lia |]. apply plan_step_running in Hs. lia.
Qed.

(** The first task of the running list is taken out and runs. *)
Lemma run_front_ok s p listed queued t rest status work p' :
  represents true s p listed queued -> running p = t :: rest -> plan_call fn t status p = Some (work, p') ->
  exists s', (t ← on_links (aws_linked_list_pop_front (running_list sch)); aws_task_run fn t status) s = Some (work, s')
    /\ represents true s' p' listed queued /\ running p' = rest.
Proof using.
  intros [H Ht HP Et Er] Hr Hc. unfold lists_of in H. cbn [app] in H. rewrite Hr in H. unfold plan_call in Hc. rewrite <- Et in Hc.
  destruct (lists_pop_front _ _ _ _ _ (co_lists _ _ _ H)) as (h & E & Hl & Hch & Hn).
  destruct (leave_list fn s (running_list sch) [] t rest [timed_of listed; asap_of (asap p)] queued h status H Hl Hch Hn)
    as (k & s' & Hk & Erun & Hcore & Et' & Er').
  rewrite Hk in Hc. cbn in Hc. injection Hc as <- <-.
  pose proof (co_nodup _ _ _ H) as Hnd. rewrite !all_elems_cons in Hnd. cbn [app all_elems map concat] in Hnd.
  rewrite app_nil_r in Hnd. apply NoDup_cons in Hnd as [Hnt _]. rewrite !not_elem_of_app in Hnt.
  destruct Hnt as [[N1 [N2 N3]] N4].
  assert (without t (t :: rest) = rest) as Ew by (unfold without; rewrite filter_cons_False by tauto; now apply filter_out).
  assert (without t (timed p) = timed p) as Ewt by (apply filter_out; rewrite <- HP, not_elem_of_app; auto).
  rewrite Hr, Ew, Ewt. unfold without. rewrite filter_out by exact N3.
  exists s'. rewrite <- Er. split; [erewrite bind_T by (apply links_run; exact E); exact Erun |]. split; [| reflexivity].
  constructor; cbn; auto. rewrite Et'. now apply in_time_flag.
Qed.

Lemma run_loop_ok status p p' : runs fn status p p' -> forall s listed queued, represents true s p listed queued ->
  exists n s' listed' queued',
    (forall calls fuel, (n <= calls)%nat -> (length (running p) < fuel)%nat -> run_loop fn sch fuel calls status s = Some (tt, s'))
    /\ represents true s' p' listed' queued' /\ running p' = [].
Proof using.
  induction 1 as [p Hr | p t rest work p1 p2 p3 Hr Hc Hd _ IH]; intros s listed queued H.
  - exists O, s, listed, queued. split_and!; auto. intros calls [| fuel] _ Hf; [lia |]. cbn [run_loop].
    pose proof (lists_head _ _ _ _ (co_lists _ _ _ (rp_core _ _ _ _ _ H))) as Hl. rewrite Hr in Hl.
    erewrite bind_T by (apply links_read; exact (empty_run _ _ _ Hl)). reflexivity.
  - destruct (run_front_ok s p listed queued t rest status work p1 H Hr Hc) as (s1 & E1 & H1 & Hr1).
    destruct (perform_all_ok work p1 p2 Hd true s1 listed queued H1) as (n2 & s2 & l2 & q2 & E2 & H2).
    destruct (IH s2 l2 q2 H2) as (n3 & s3 & l3 & q3 & E3 & H3 & Hr3). exists (n2 + n3)%nat, s3, l3, q3. split_and!; auto.
    intros calls [| fuel] Hn Hf; [lia |]. cbn [run_loop].
    pose proof (lists_head _ _ _ _ (co_lists _ _ _ (rp_core _ _ _ _ _ H))) as Hl. rewrite Hr in Hl.
    erewrite bind_T by (apply links_read; exact (empty_run _ _ _ Hl)). rewrite bool_decide_eq_false_2 by easy.
    unfold mbind, T_bind in E1 |- *. destruct (on_links _ s) as [[u su] |]; [| discriminate]. rewrite E1.
    rewrite E2 by lia. apply E3; [lia |]. apply does_running in Hd. rewrite Hr in Hf. cbn in Hf. rewrite Hr1 in Hd. lia.
Qed.
(** With an empty running list the scheduler is as between calls. *)
Lemma ready_again s p listed queued :
  represents true s p listed queued -> running p = [] -> ready sch s (asap p) listed queued.
Proof using.
  intros [H Ht _ _ _] Hr. unfold lists_of in H. cbn [app] in H. rewrite Hr in H. pose proof (co_lists _ _ _ H) as Hls. pose proof (lists_head _ _ _ _ Hls) as Hl.
  assert (forall x, x ∈ path (running_list sch) [] -> x ∉ all_paths [asap_of (asap p); timed_of listed]) as Hout.
  { intros x Hx. rewrite (perm_swap (timed_of listed) (asap_of (asap p))). exact (lists_apart _ _ _ _ _ Hls Hx). }
  pose proof (lo_holds _ _ _ Hl) as Hh. rewrite Forall_forall in Hh.
  constructor; auto.
  - destruct H as [C1 C2 C3 C4 C5 C6 C7 C8]. destruct C1 as [L1 L2]. apply Forall_cons in L1 as [_ L1].
    rewrite all_paths_cons in L2. apply NoDup_app in L2 as (_ & _ & L2).
    eapply core_perm; [apply perm_swap | reflexivity |]. constructor; auto; [now split |].
    intros t p0 Hs Hp. apply C6; [exact Hs | apply elem_of_cons; auto].
  - apply Hh. rewrite elem_of_path. auto.
  - apply Hh. rewrite elem_of_path. auto.
  - pose proof (lo_nodup _ _ _ Hl) as Hnd. intros E. unfold path in Hnd. cbn [app] in Hnd. rewrite E in Hnd.
    inversion Hnd as [| ? ? N _]. apply N, elem_of_cons. auto.
  - apply Hout. rewrite elem_of_path. auto.
  - apply Hout. rewrite elem_of_path. auto.
  - intros t Hs. apply (co_sentinel _ _ _ H t (running_of [])); [exact Hs | apply elem_of_cons; auto].
Qed.
End represents.
