(* ===== verification/TaskSchedulerClaims.v ===== *)
(** * The task scheduler: theorems

    Creating a scheduler, calls between runs, a run, the next task's time and
    the clean-up. *)

From Stdlib Require Import Sorting.Sorted.
From S2P Require Import Prelude ArrayItems PriorityQueue PriorityQueueSpec PriorityQueueOps PriorityQueueClaims.
From S2P Require Import LinkedList LinkedListSpec LinkedListOps LinkedListMove LinkedLists.
From S2P Require Import TaskScheduler TaskSchedulerSpec TaskSchedulerCalls TaskSchedulerRun.
Import LinkedList PriorityQueue TaskScheduler.

Local Open Scope Z_scope.

(** ** Between runs *)

Section between.
Context (fn : list event -> positive -> aws_task_status -> list action).
Context (sch : aws_task_scheduler).
Local Abbreviation asap_of x := (asap_list sch, x).
Local Abbreviation timed_of x := (timed_list sch, x).
Local Abbreviation running_of x := (running_list sch, x).

(** The plan of a scheduler that is not running. *)
Definition idle_plan (s : state) (asap listed queued : list positive) : plan :=
  mk_plan [] asap (listed ++ queued) (tasks s) (ran s).

Lemma ready_represents s asap listed queued :
  ready sch s asap listed queued -> represents sch false s (idle_plan s asap listed queued) listed queued.
Proof using.
  intros [H Ht _ _ _ _ _ _]. constructor; cbn; auto. eapply core_perm; [apply perm_swap | reflexivity | exact H].
Qed.

Lemma task_not_path s ls queued l x :
  core s ls queued -> (forall t, is_Some (tasks s !! t) -> t <> x) ->
  (forall p, p ∈ ls -> x <> head p.1 /\ x <> tail p.1) -> l ≡ₚ ls -> x ∉ all_paths l.
Proof using.
  intros H Hx Hp HP. rewrite HP, elem_all_paths. intros [Hin | (p & Hin & Hs)].
  - destruct (core_known _ _ _ H x) as (k & E & _); [rewrite elem_of_app; auto |]. apply (Hx x); eauto.
  - destruct (Hp p Hin). tauto.
Qed.

(** The memory for the running list stays free. *)
Lemma ready_kept s asap0 listed queued s' p listed' queued' :
  ready sch s asap0 listed queued -> represents sch false s' p listed' queued' ->
  dom (node_links s') = dom (node_links s) -> dom (tasks s') = dom (tasks s) -> ready sch s' (asap p) listed' queued'.
Proof using.
  intros [H Ht R1 R2 R3 R4 R5 R6] [H' Ht' _ _ _] Hd Hdt. cbn [lists_of app] in H'.
  assert (forall x, holds (node_links s) x -> holds (node_links s') x) as Hh
    by (intros x; unfold holds; rewrite <- !elem_of_dom, Hd; auto).
  assert (forall t, is_Some (tasks s' !! t) -> t <> head (running_list sch) /\ t <> tail (running_list sch)) as Ht6
    by (intros t; rewrite <- elem_of_dom, Hdt, elem_of_dom; auto).
  assert (forall x, x ∉ all_paths [asap_of asap0; timed_of listed] ->
    (forall t, is_Some (tasks s' !! t) -> t <> x) -> x ∉ all_paths [asap_of (asap p); timed_of listed']) as Hout.
  { intros x Hx Hxt. apply (task_not_path s' _ queued' _ x H' Hxt); [| apply perm_swap].
    rewrite elem_all_paths in Hx. intros q Hq. rewrite !elem_of_cons in Hq.
    split; intros ->; apply Hx; right; destruct Hq as [-> | [-> | Hq%not_elem_of_nil]]; try easy;
      [exists (timed_of listed) | exists (asap_of asap0) | exists (timed_of listed) | exists (asap_of asap0)];
      rewrite !elem_of_cons; cbn; auto. }
  constructor; auto.
  - eapply core_perm; [apply perm_swap | reflexivity | exact H'].
  - apply Hout; [exact R4 |]. intros t Hs. apply (Ht6 t Hs).
  - apply Hout; [exact R5 |]. intros t Hs. apply (Ht6 t Hs).
Qed.

Lemma plan_step_known a p calls p' : plan_step fn a p = Some (calls, p') -> dom (known p') = dom (known p).
Proof using.
  destruct a as [t | t tm | t]; cbn [plan_step]; unfold plan_call; destruct (known p !! t) as [k |] eqn:Hk; cbn; try discriminate;
    [destruct (scheduled k); [discriminate |] | destruct (scheduled k); [discriminate |] |]; intros [= <- <-]; cbn;
    apply dom_insert_lookup_L; eauto.
Qed.

Lemma does_known work p p' : does fn work p p' -> dom (known p') = dom (known p).
Proof using.
  induction 1 as [p | a work p calls p1 p2 Hs Hd IH]; [reflexivity |]. rewrite IH. exact (plan_step_known _ _ _ _ Hs).
Qed.

(** Calls from outside a run. *)
Lemma calls_ok s asap0 listed queued work p' :
  ready sch s asap0 listed queued -> does fn work (idle_plan s asap0 listed queued) p' ->
  exists n s' listed' queued', (forall calls, (n <= calls)%nat -> perform_all fn sch calls work s = Some (tt, s'))
    /\ ready sch s' (asap p') listed' queued' /\ listed' ++ queued' ≡ₚ timed p'
    /\ tasks s' = known p' /\ ran s' = history p'.
Proof using.
  intros H Hd. destruct (perform_all_ok fn sch work _ p' Hd false s listed queued (ready_represents _ _ _ _ H))
    as (n & s' & listed' & queued' & E & H').
  exists n, s', listed', queued'. pose proof H' as [_ _ H1 H2 H3]. split_and!; auto.
  apply (ready_kept s asap0 listed queued s' p' listed' queued' H H').
  - exact (keeps_perform_all fn sch n work _ _ _ (E n (le_n n))).
  - rewrite H2, (does_known _ _ _ Hd). reflexivity.
Qed.

(** ** A run *)

Lemma run_all_ok s asap0 listed queued now status :
  ready sch s asap0 listed queued ->
  exists due later, in_time (tasks s) due /\ due ++ later ≡ₚ listed ++ queued
    /\ (forall u, u ∈ due -> time_of (tasks s) u <= now) /\ (forall u, u ∈ later -> now < time_of (tasks s) u)
    /\ NoDup ((asap0 ++ due) ++ later) /\ (forall u, u ∈ (asap0 ++ due) ++ later -> is_Some (tasks s !! u))
    /\ forall p', runs fn status (mk_plan (asap0 ++ due) [] later (tasks s) (ran s)) p' ->
       exists n s' listed' queued', (forall calls, (n <= calls)%nat -> s_run_all fn sch calls now status s = Some (tt, s'))
         /\ ready sch s' (asap p') listed' queued' /\ listed' ++ queued' ≡ₚ timed p'
         /\ tasks s' = known p' /\ ran s' = history p'.
Proof using.
  intros H. destruct (collect_ok sch s asap0 listed queued now H) as (s1 & due & l1 & q1 & E1 & Hc & T1 & T2 & HP & D1 & D2 & Et & Er).
  set (p := mk_plan (asap0 ++ due) [] (l1 ++ q1) (tasks s) (ran s)).
  assert (represents sch true s1 p l1 q1) as Hrep by (constructor; cbn; auto; now rewrite Et).
  assert (all_elems [running_of (asap0 ++ due); timed_of l1; asap_of []] ++ q1 = (asap0 ++ due) ++ l1 ++ q1) as Eall
    by (cbn [all_elems map concat snd]; now rewrite !app_nil_r, <- !app_assoc).
  pose proof (co_nodup _ _ _ Hc) as Hnd. rewrite Eall in Hnd.
  exists due, (l1 ++ q1). split_and!; auto.
  { intros u Hu. destruct (core_known _ _ _ Hc u) as (k & E & _); [now rewrite Eall |]. rewrite <- Et. eauto. }
  intros p' Hr. destruct (run_loop_ok fn sch status p p' Hr s1 l1 q1 Hrep) as (n & s' & l' & q' & E & H' & Hr').
  exists n, s', l', q'. pose proof H' as [_ _ H1 H2 H3]. split_and!; auto; [| exact (ready_again sch s' p' l' q' H' Hr')].
  intros calls Hn. unfold s_run_all. erewrite bind_T by exact E1. erewrite bind_T by reflexivity. apply E; [exact Hn |].
  rewrite Et. cbn [running p]. apply NoDup_app in Hnd as (Hnd & _).
  assert (length (asap0 ++ due) <= size (tasks s))%nat; [| lia]. apply held_length; [exact Hnd |].
  intros u Hu. destruct (core_known _ _ _ Hc u) as (k & E' & _); [rewrite Eall, elem_of_app; auto |]. rewrite <- Et. eauto.
Qed.
End between.

(** ** Tasks that at most schedule themselves again *)

(** When a task is to run again: not at all, with the next run, or at a time. *)
Inductive again := Never | Next_run | At (time : Z).

Definition again_calls (a : again) (t : positive) : list action :=
  match a with Never => [] | Next_run => [Schedule_now t] | At time => [Schedule_future t time] end.

Definition is_next (a : again) : bool := match a with Next_run => true | _ => false end.
Definition is_at (a : again) : bool := match a with At _ => true | _ => false end.

Section again.
Context (fn : list event -> positive -> aws_task_status -> list action) (status : aws_task_status).
Context (next_of_task : positive -> again).
Hypothesis Hfn : forall h t, fn h t status = again_calls (next_of_task t) t.

Definition next_run_tasks (l : list positive) : list positive := filter (fun t => is_next (next_of_task t) = true) l.
Definition timed_tasks (l : list positive) : list positive := filter (fun t => is_at (next_of_task t) = true) l.

Lemma without_none t l : t ∉ l -> without t l = l.
Proof using. apply filter_out. Qed.

(** One task and what its function does. *)
Lemma again_one p t rest :
  running p = t :: rest -> NoDup ((t :: rest) ++ asap p ++ timed p) -> is_Some (known p !! t) ->
  exists work p1 p2, plan_call fn t status p = Some (work, p1) /\ does fn work p1 p2
    /\ running p2 = rest /\ history p2 = history p ++ [(t, status)] /\ dom (known p2) = dom (known p)
    /\ asap p2 = asap p ++ next_run_tasks [t] /\ timed p2 = timed_tasks [t] ++ timed p.
Proof using Hfn.
  intros Hr Hnd [k Hk]. cbn [app] in Hnd. apply NoDup_cons in Hnd as [Hn _]. rewrite !not_elem_of_app in Hn.
  destruct Hn as (N1 & N2 & N3). unfold plan_call. rewrite Hk. cbn [mbind option_bind].
  rewrite Hfn, Hr, (without_none t (asap p) N2), (without_none t (timed p) N3).
  assert (without t (t :: rest) = rest) as Ew by (unfold without; rewrite filter_cons_False by tauto; now apply filter_out).
  rewrite Ew. unfold next_run_tasks, timed_tasks. rewrite !filter_cons, !filter_nil.
  destruct (next_of_task t) as [| | tm]; cbn [again_calls is_next is_at]; repeat case_decide; try easy;
    do 3 eexists; (split; [reflexivity |]); (split;
      [first [apply does_nothing | eapply does_call; [cbn; rewrite lookup_insert_eq; reflexivity | apply does_nothing]] |]);
    cbn; rewrite ?app_nil_r, ?dom_insert_lookup_L; auto; rewrite ?lookup_insert_eq; eauto;
    split_and!; auto; rewrite ?dom_insert_lookup_L; eauto.
Qed.

Lemma again_runs xs : forall p,
  running p = xs -> NoDup (xs ++ asap p ++ timed p) -> (forall t, t ∈ xs -> is_Some (known p !! t)) ->
  exists p', runs fn status p p' /\ history p' = history p ++ map (fun t => (t, status)) xs
    /\ asap p' = asap p ++ next_run_tasks xs /\ timed p' ≡ₚ timed p ++ timed_tasks xs.
Proof using Hfn.
  induction xs as [| t xs IH]; intros p Hr Hnd Hk.
  - exists p. split; [now apply runs_out |]. cbn. now rewrite !app_nil_r.
  - destruct (again_one p t xs Hr Hnd) as (work & p1 & p2 & Ec & Hd & R2 & H2 & K2 & A2 & T2); [apply Hk, elem_of_cons; auto |].
    destruct (IH p2 R2) as (p' & Hrun & Hh & Ha & Htm).
    + rewrite A2, T2. cbn [app] in Hnd. apply NoDup_cons in Hnd as [Hn Hnd].
      unfold next_run_tasks, timed_tasks. rewrite !filter_cons, !filter_nil. destruct (next_of_task t) as [| | tm]; cbn [is_next is_at];
        repeat case_decide; try easy; cbn [app]; rewrite ?app_nil_r, <- ?app_assoc; cbn [app]; auto.
      * rewrite app_assoc, <- Permutation_middle, <- app_assoc. constructor; auto.
      * rewrite (app_assoc xs), <- Permutation_middle, <- app_assoc. constructor; auto.
    + intros u Hu. rewrite <- elem_of_dom, K2, elem_of_dom. apply Hk, elem_of_cons. auto.
    + exists p'. split; [exact (runs_next fn status p t xs work p1 p2 p' Hr Ec Hd Hrun) |].
      change (t :: xs) with ([t] ++ xs). rewrite Hh, H2, Ha, A2, Htm, T2. unfold next_run_tasks, timed_tasks.
      rewrite !filter_app, map_app, <- !app_assoc. split_and!; auto. rewrite (Permutation_app_swap_app). reflexivity.
Qed.
End again.

(** ** Creating a scheduler *)

Section start.
Context (sch : aws_task_scheduler).

Definition sentinels : list positive :=
  [head (timed_list sch); tail (timed_list sch); head (asap_list sch); tail (asap_list sch);
   head (running_list sch); tail (running_list sch)].

(** Memory for a scheduler and its tasks, none of them scheduled. *)
Record fresh (s : state) : Prop := {
  fr_nodup : NoDup sentinels;
  fr_holds : Forall (holds (node_links s)) sentinels;
  fr_task : forall t, is_Some (tasks s !! t) ->
    holds (node_links s) t /\ is_Some (nodes (timed_queue s) !! t) /\ (t ∉ sentinels) /\ next_of (node_links s) t = None;
  fr_free : forall t k, tasks s !! t = Some k -> scheduled k = false;
  fr_small : Z.of_nat (size (tasks s)) < 2 ^ 58
}.

Lemma still_holds h p n x : holds h p -> holds h x -> holds (<[p := n]> h) x.
Proof using. intros Hp. now apply holds_insert. Qed.

Lemma put_changes h p n : holds h p -> changes_only h (<[p := n]> h) [p].
Proof using.
  intros Hp. split; [intros x; now apply holds_insert |]. intros x Hx. apply lookup_insert_ne.
  rewrite not_elem_of_cons in Hx. intros ->. tauto.
Qed.

(** Writing nodes that are there. *)
Lemma put_all_changes (ps : list positive) : forall h, Forall (holds h) ps ->
  changes_only h (foldl (fun h p => <[p := mk_node None None]> h) h ps) ps.
Proof using.
  induction ps as [| p ps IH]; intros h Hp; cbn [foldl]; [split; now intros x |].
  apply Forall_cons in Hp as [Hp Hps]. change (p :: ps) with ([p] ++ ps).
  apply (changes_trans h (<[p := mk_node None None]> h)); [now apply put_changes |]. apply IH.
  eapply Forall_impl; [exact Hps |]. intros x. now apply holds_insert.
Qed.

Lemma zero_scheduler_run s : Forall (holds (node_links s)) sentinels ->
  zero_scheduler sch s = Some (tt, mk_state
    (foldl (fun h p => <[p := mk_node None None]> h) (node_links s)
      [head (timed_list sch); tail (timed_list sch); head (asap_list sch); tail (asap_list sch)])
    (tasks s) (mk_queue (mk_alist [] 0 false 0) None (nodes (timed_queue s))) (ran s)).
Proof using.
  intros H. unfold sentinels in H. rewrite !Forall_cons in H. destruct H as (H1 & H2 & H3 & H4 & _).
  unfold zero_scheduler. erewrite bind_T by reflexivity.
  do 3 (erewrite bind_T by (apply links_run, put_node_run; cbn [node_links]; repeat first [assumption | apply still_holds]);
        cbn [node_links tasks timed_queue ran]).
  erewrite links_run; [reflexivity |]. apply put_node_run. cbn [node_links]. repeat first [assumption | apply still_holds].
Qed.

(** A new scheduler has no tasks. *)
Lemma init_scheduler_ok s : fresh s ->
  exists s', aws_task_scheduler_init sch s = Some (AWS_OP_SUCCESS, s') /\ ready sch s' [] [] []
    /\ tasks s' = tasks s /\ ran s' = ran s.
Proof using.
  intros [F1 F2 F3 F4 F5]. unfold aws_task_scheduler_init. erewrite bind_T by exact (zero_scheduler_run s F2).
  set (h0 := foldl _ _ _). erewrite bind_T by reflexivity.
  unfold sentinels in F2. rewrite !Forall_cons in F2. destruct F2 as (T1 & T2 & A1 & A2 & R1 & R2 & _).
  assert (changes_only (node_links s) h0 [head (timed_list sch); tail (timed_list sch); head (asap_list sch); tail (asap_list sch)]) as C0
    by (apply put_all_changes; repeat constructor; assumption).
  assert (NoDup sentinels) as Hnd by exact F1. unfold sentinels in Hnd. rewrite !NoDup_cons, !not_elem_of_cons in Hnd.
  destruct (lists_init h0 [] (timed_list sch)) as (h1 & E1 & Hl1 & C1);
    [split; constructor | now apply C0 | now apply C0 | tauto | apply not_elem_of_nil | apply not_elem_of_nil |].
  erewrite bind_T by (apply links_run; exact E1). cbn [node_links].
  destruct (lists_init h1 [(timed_list sch, [])] (asap_list sch)) as (h2 & E2 & Hl2 & C2);
    [exact Hl1 | now apply C1, C0 | now apply C1, C0 | tauto | cbn; rewrite !not_elem_of_cons; split_and!; [intuition auto | intuition auto | apply not_elem_of_nil]
    | cbn; rewrite !not_elem_of_cons; split_and!; [intuition auto | intuition auto | apply not_elem_of_nil] |].
  erewrite bind_T by (apply links_run; exact E2). eexists. split; [reflexivity |]. split; [| now cbn].
  pose proof (changes_trans _ _ _ _ _ C0 (changes_trans _ _ _ _ _ C1 C2)) as [Ch Cn].
  assert (forall t, t ∉ sentinels -> h2 !! t = node_links s !! t) as Hkeep.
  { intros t Ht. apply Cn. unfold sentinels in Ht. revert Ht. rewrite !not_elem_of_app, !not_elem_of_cons. tauto. }
  constructor; cbn [node_links tasks timed_queue ran].
  - constructor; cbn [node_links tasks timed_queue ran]; cbn [all_elems map concat snd app].
    + exact Hl2.
    + exists []. split; [| reflexivity]. split; [| split; [intros i Hi x y Hx; now rewrite lookup_nil in Hx | cbn; lia]].
      constructor; cbn; [| reflexivity | constructor | intros i x n Hi; now rewrite lookup_nil in Hi].
      constructor; vm_compute; [split; discriminate | reflexivity | discriminate].
    + constructor.
    + intros t. split; [intros (k & Hk & Hs); rewrite (F4 t k Hk) in Hs; discriminate | intros Ht; now apply not_elem_of_nil in Ht].
    + intros t Ht. destruct (F3 t Ht) as (H1 & H2 & _). split; [now apply Ch | exact H2].
    + intros t p Ht Hp. destruct (F3 t Ht) as (_ & _ & H3 & _). unfold sentinels in H3. rewrite !not_elem_of_cons in H3.
      rewrite !elem_of_cons in Hp. destruct Hp as [-> | [-> | Hp%not_elem_of_nil]]; cbn; tauto.
    + intros t Ht _. destruct (F3 t Ht) as (_ & _ & H3 & H4). unfold next_of. now rewrite (Hkeep t H3).
    + exact F5.
  - constructor.
  - now apply Ch.
  - now apply Ch.
  - tauto.
  - cbn. rewrite !not_elem_of_cons. split_and!; try (intuition auto); apply not_elem_of_nil.
  - cbn. rewrite !not_elem_of_cons. split_and!; try (intuition auto); apply not_elem_of_nil.
  - intros t Ht. destruct (F3 t Ht) as (_ & _ & H3 & _). unfold sentinels in H3. rewrite !not_elem_of_cons in H3. tauto.
Qed.
End start.

(** ** The next task *)

Section next.
Context (sch : aws_task_scheduler).

Lemma ready_known s asap0 listed queued t : ready sch s asap0 listed queued -> t ∈ listed ++ queued -> exists k, tasks s !! t = Some k /\ timestamp k = time_of (tasks s) t.
Proof using.
  intros H Ht. destruct (core_known _ _ _ (rd_core _ _ _ _ _ H) t) as (k & E & _).
  { rewrite !all_elems_cons. cbn [all_elems map concat]. rewrite app_nil_r, <- app_assoc, elem_of_app. auto. }
  exists k. split; [exact E |]. unfold time_of. now rewrite E.
Qed.

(** The head of the list, if any: the first in time there. *)
Lemma list_next s asap0 listed queued : ready sch s asap0 listed queued ->
  exists b tm, (list_empty ← on_links (aws_linked_list_empty (timed_list sch));
     if negb list_empty then
       front ← on_links (aws_linked_list_front (timed_list sch)); t ← on_links (deref front);
       k ← get_task t; mret (true, timestamp k)
     else mret (false, 2 ^ 64 - 1)) s = Some ((b, tm), s)
  /\ (b = true <-> listed <> []) /\ (listed = [] -> tm = 2 ^ 64 - 1)
  /\ (listed <> [] -> exists u, u ∈ listed /\ tm = time_of (tasks s) u)
  /\ (forall u, u ∈ listed -> tm <= time_of (tasks s) u).
Proof using.
  intros H. pose proof (co_lists _ _ _ (rd_core _ _ _ _ _ H)) as Hl. rewrite perm_swap in Hl. apply lists_head in Hl.
  erewrite bind_T by (apply links_read; exact (empty_run _ _ _ Hl)). pose proof (rd_time _ _ _ _ _ H) as Ht.
  destruct listed as [| y ys].
  - rewrite bool_decide_eq_true_2 by reflexivity. exists false, (2 ^ 64 - 1). split_and!; try easy.
  - rewrite bool_decide_eq_false_2 by easy. cbn [negb]. erewrite bind_T by (apply links_read; exact (front_run _ _ _ Hl)).
    erewrite bind_T by (apply links_read; reflexivity). cbn [after_of List.hd].
    destruct (ready_known s asap0 (y :: ys) queued y H) as (k & Ek & Ey); [apply elem_of_app; left; apply elem_of_cons; auto |].
    erewrite bind_T by exact (get_task_run s y k Ek). exists true, (time_of (tasks s) y). rewrite Ey.
    split_and!; try easy.
    + intros _. exists y. split; [apply elem_of_cons; auto | reflexivity].
    + inversion Ht as [| ? ? _ Hle]; subst. rewrite Forall_forall in Hle. intros u [-> | Hu]%elem_of_cons; [lia | now apply Hle].
Qed.

Lemma has_tasks_ok s asap0 listed queued : ready sch s asap0 listed queued ->
  (forall t, t ∈ listed ++ queued -> time_of (tasks s) t < 2 ^ 64) ->
  exists b tm, aws_task_scheduler_has_tasks sch s = Some ((b, tm), s)
    /\ (b = true <-> asap0 ++ listed ++ queued <> [])
    /\ match asap0 with
       | _ :: _ => tm = 0
       | [] => (listed ++ queued = [] -> tm = 2 ^ 64 - 1)
               /\ (listed ++ queued <> [] -> exists u, u ∈ listed ++ queued /\ tm = time_of (tasks s) u)
               /\ forall u, u ∈ listed ++ queued -> tm <= time_of (tasks s) u
       end.
Proof using.
  intros H Hbound. unfold aws_task_scheduler_has_tasks.
  pose proof (lists_head _ _ _ _ (co_lists _ _ _ (rd_core _ _ _ _ _ H))) as Hl.
  erewrite bind_T by (apply links_read; exact (empty_run _ _ _ Hl)).
  destruct asap0 as [| a asap1].
  2: { rewrite bool_decide_eq_false_2 by easy. exists true, 0. now split_and!. }
  rewrite bool_decide_eq_true_2 by reflexivity. cbn [negb].
  destruct (list_next s [] listed queued H) as (b & tm & El & Hb & Hnone & Hsome & Hmin).
  set (rest := fun r : bool * Z => _).
  assert (forall o, rest (b, tm) s = o -> (list_empty ← on_links (aws_linked_list_empty (timed_list sch));
    r ← (if negb list_empty then
           front ← on_links (aws_linked_list_front (timed_list sch)); t ← on_links (deref front);
           k ← get_task t; mret (true, timestamp k)
         else mret (false, 2 ^ 64 - 1)); rest r) s = o) as Hgo.
  { intros o Ho. unfold mbind, T_bind in El |- *. destruct (on_links _ s) as [[e s1] |]; [| discriminate].
    rewrite El. exact Ho. }
  pose proof (queue_pop _ _ _ (co_queue _ _ _ (rd_core _ _ _ _ _ H))) as Hp.
  assert (queued = [] /\ aws_priority_queue_top (timed_queue s) = Some (Err AWS_ERROR_PRIORITY_QUEUE_EMPTY)
    \/ exists t, aws_priority_queue_top (timed_queue s) = Some (Ok t) /\ t ∈ queued
         /\ forall u, u ∈ queued -> time_of (tasks s) t <= time_of (tasks s) u) as [(Eq & Etop) | (t & Etop & Hin & Hle)].
  { destruct queued as [| q0 qs]; [auto |]. right. destruct Hp as (t & r & q' & E1 & _ & _ & E4 & E5 & _).
    exists t. split_and!; auto. rewrite <- E4. apply elem_of_cons. auto. }
  - exists b, tm. split; [apply Hgo; unfold rest, top_task, mbind, T_bind; now rewrite Etop |].
    rewrite Eq, app_nil_r. now split_and!.
  - assert (queued <> []) as Hq by (intros Eq; rewrite Eq in Hin; now apply not_elem_of_nil in Hin).
    destruct (ready_known s [] listed queued t H) as (k & Ek & Et); [apply elem_of_app; auto |].
    exists true, (if timestamp k <? tm then timestamp k else tm).
    split; [apply Hgo; unfold rest, top_task, mbind, T_bind; rewrite Etop; unfold get_task; now rewrite Ek |]. rewrite Et.
    assert (listed ++ queued <> []) as Hne by (intros [_ E]%app_nil; easy).
    split; [easy |]. split; [easy |]. split.
    + intros _. destruct (Z.ltb_spec (time_of (tasks s) t) tm) as [Hlt | Hge]; [exists t; split; [apply elem_of_app; auto | reflexivity] |].
      destruct (decide (listed = [])) as [E | E].
      * exists t. split; [apply elem_of_app; auto |]. specialize (Hnone E). specialize (Hbound t). rewrite elem_of_app in Hbound.
        specialize (Hbound (or_intror Hin)). lia.
      * destruct (Hsome E) as (u & Hu & Eu). exists u. rewrite elem_of_app. auto.
    + intros u [Hu | Hu]%elem_of_app; destruct (Z.ltb_spec (time_of (tasks s) t) tm); try specialize (Hmin u Hu); try specialize (Hle u Hu); lia.
Qed.
End next.

(** ** Cleaning up *)

Section clean.
Context (fn : list event -> positive -> aws_task_status -> list action).
Context (sch : aws_task_scheduler).

Lemma has_tasks_run s asap0 listed queued :
  ready sch s asap0 listed queued -> (forall t, t ∈ listed ++ queued -> time_of (tasks s) t < 2 ^ 64) ->
  exists tm, aws_task_scheduler_has_tasks sch s = Some ((bool_decide (asap0 ++ listed ++ queued <> []), tm), s).
Proof using.
  intros H Hb. destruct (has_tasks_ok sch s asap0 listed queued H Hb) as (b & tm & E & Hiff & _). exists tm. rewrite E.
  do 3 f_equal. symmetry. destruct b; [apply bool_decide_eq_true_2 | apply bool_decide_eq_false_2]; rewrite <- Hiff; easy.
Qed.

(** One round of the loop takes every task. *)
Lemma cancel_round s asap0 listed queued :
  ready sch s asap0 listed queued -> (forall t, t ∈ listed ++ queued -> time_of (tasks s) t < 2 ^ 64) ->
  exists due, in_time (tasks s) due /\ due ≡ₚ listed ++ queued
    /\ NoDup (asap0 ++ due) /\ (forall u, u ∈ asap0 ++ due -> is_Some (tasks s !! u))
    /\ forall p', runs fn AWS_TASK_STATUS_CANCELED (mk_plan (asap0 ++ due) [] [] (tasks s) (ran s)) p' ->
       exists n s' listed' queued',
         (forall calls, (n <= calls)%nat -> s_run_all fn sch calls (2 ^ 64 - 1) AWS_TASK_STATUS_CANCELED s = Some (tt, s'))
         /\ ready sch s' (asap p') listed' queued' /\ listed' ++ queued' ≡ₚ timed p'
         /\ tasks s' = known p' /\ ran s' = history p'.
Proof using.
  intros H Hb. destruct (run_all_ok fn sch s asap0 listed queued (2 ^ 64 - 1) AWS_TASK_STATUS_CANCELED H)
    as (due & later & Hin & HP & _ & Hlate & Hnd & Hk & Hrun).
  assert (later = []) as ->.
  { destruct later as [| u later]; [reflexivity |]. exfalso. assert (u ∈ u :: later) as Hu by (apply elem_of_cons; auto).
    specialize (Hlate u Hu). specialize (Hb u). rewrite <- HP, elem_of_app in Hb. specialize (Hb (or_intror Hu)). lia. }
  rewrite app_nil_r in HP, Hnd, Hk. exists due. auto.
Qed.

(** *** Tasks that call the scheduler when they are cancelled *)

(** The rounds: the tasks for now, then the timed ones in time order, all called
    with CANCELED, until none waits; and what is known of the tasks then. *)
Inductive cleans : plan -> gmap positive aws_task -> list event -> Prop :=
| cleans_done p : asap p = [] -> timed p = [] -> cleans p (known p) (history p)
| cleans_round p due p1 ts h :
    asap p ++ timed p <> [] -> in_time (known p) due -> due ≡ₚ timed p ->
    runs fn AWS_TASK_STATUS_CANCELED (mk_plan (asap p ++ due) [] [] (known p) (history p)) p1 ->
    cleans p1 ts h -> cleans p ts h.

(** The calls of the tasks permit an end, in whatever order tasks of the same
    time come, and misuse nothing on the way. *)
Inductive clean_ends : plan -> Prop :=
| ends_done p : asap p = [] -> timed p = [] -> clean_ends p
| ends_round p (next : list positive -> plan) :
    (forall due, in_time (known p) due -> due ≡ₚ timed p ->
       runs fn AWS_TASK_STATUS_CANCELED (mk_plan (asap p ++ due) [] [] (known p) (history p)) (next due)) ->
    (forall due, in_time (known p) due -> due ≡ₚ timed p -> clean_ends (next due)) ->
    clean_ends p.

(** An argument is a [uint64_t]. *)
Definition call_fits (a : action) : Prop := match a with Schedule_future _ time => time < 2 ^ 64 | _ => True end.

Definition plan_fits (p : plan) : Prop := forall t, t ∈ timed p -> time_of (known p) t < 2 ^ 64.

Lemma fits_insert p t k (l : list positive) :
  plan_fits p -> timestamp k < 2 ^ 64 -> (forall u, u ∈ l -> u = t \/ u ∈ timed p) ->
  forall u, u ∈ l -> time_of (<[t := k]> (known p)) u < 2 ^ 64.
Proof using.
  intros Hp Hk Hl u Hu. unfold time_of. destruct (decide (u = t)) as [-> | Hne]; [now rewrite lookup_insert_eq |].
  rewrite lookup_insert_ne by congruence. destruct (Hl u Hu) as [? | Hin]; [easy | exact (Hp u Hin)].
Qed.

Lemma without_in t u l : u ∈ without t l -> u <> t /\ u ∈ l.
Proof using. unfold without. now rewrite list_elem_of_filter. Qed.

Lemma plan_call_fits t status p work p' : plan_call fn t status p = Some (work, p') -> plan_fits p -> plan_fits p'.
Proof using.
  unfold plan_call. destruct (known p !! t) as [k |] eqn:Hk; [| discriminate]. intros [= <- <-] Hp u Hu. cbn in *.
  apply without_in in Hu as [Hne Hu]. unfold time_of. rewrite lookup_insert_ne by congruence. exact (Hp u Hu).
Qed.

Hypothesis fits : forall h t, Forall call_fits (fn h t AWS_TASK_STATUS_CANCELED).

Lemma plan_step_fits a p work p' :
  plan_step fn a p = Some (work, p') -> call_fits a -> plan_fits p -> plan_fits p' /\ Forall call_fits work.
Proof using fits.
  destruct a as [t | t tm | t]; cbn [plan_step call_fits]; intros E Ha Hp.
  - destruct (known p !! t) as [k |]; [| discriminate]. cbn in E. destruct (scheduled k); [discriminate |].
    injection E as <- <-. split; [| constructor]. intros u. cbn [timed known]. apply (fits_insert p); cbn; auto. reflexivity.
  - destruct (known p !! t) as [k |]; [| discriminate]. cbn in E. destruct (scheduled k); [discriminate |].
    injection E as <- <-. split; [| constructor]. intros u. cbn [timed known]. apply (fits_insert p); cbn; auto.
    intros v. rewrite elem_of_cons. tauto.
  - split; [exact (plan_call_fits _ _ _ _ _ E Hp) |]. unfold plan_call in E.
    destruct (known p !! t); [| discriminate]. injection E as <- _. apply fits.
Qed.

Lemma does_fits work p p' : does fn work p p' -> Forall call_fits work -> plan_fits p -> plan_fits p'.
Proof using fits.
  induction 1 as [p | a work p calls p1 p2 Hs Hd IH]; intros Hw Hp; [exact Hp |]. apply Forall_cons in Hw as [Ha Hw].
  destruct (plan_step_fits _ _ _ _ Hs Ha Hp) as [Hp1 Hc]. apply IH; [apply Forall_app; auto | exact Hp1].
Qed.

Lemma runs_fits p p' : runs fn AWS_TASK_STATUS_CANCELED p p' -> plan_fits p -> plan_fits p'.
Proof using fits.
  induction 1 as [p | p t rest work p1 p2 p3 Hr Hc Hd Hrun IH]; intros Hp; [exact Hp |].
  apply IH. apply (does_fits _ _ _ Hd); [| exact (plan_call_fits _ _ _ _ _ Hc Hp)].
  unfold plan_call in Hc. destruct (known p !! t); [| discriminate]. injection Hc as <- _. apply fits.
Qed.

(** Only which tasks are timed matters. *)
Lemma cleans_perm p q ts h :
  cleans p ts h -> asap p = asap q -> timed p ≡ₚ timed q -> known p = known q -> history p = history q -> cleans q ts h.
Proof using.
  intros H Ea HP Ek Eh. destruct H as [p E1 E2 | p due p1 ts h Hne Hin Hd Hr Hc].
  - rewrite Ek, Eh. apply cleans_done; [congruence |]. rewrite E2 in HP. now apply Permutation_nil in HP.
  - apply (cleans_round q due p1); rewrite <- ?Ea, <- ?Ek, <- ?Eh; auto; [| now rewrite <- HP].
    intros [E1 E2]%app_nil. apply Hne. rewrite E1. rewrite E2 in HP. symmetry in HP. now apply Permutation_nil in HP as ->.
Qed.

(** A running task is called, by the run or by another task. *)
Lemma plan_call_calls t p work p' : plan_call fn t AWS_TASK_STATUS_CANCELED p = Some (work, p') ->
  history p' = history p ++ [(t, AWS_TASK_STATUS_CANCELED)] /\ (forall u, u ∈ running p -> u = t \/ u ∈ running p').
Proof using.
  unfold plan_call. destruct (known p !! t); [| discriminate]. intros [= <- <-]. split; [reflexivity |].
  intros u Hu. cbn. destruct (decide (u = t)); [now left | right]. unfold without. now rewrite list_elem_of_filter.
Qed.

Definition calls_more (p p' : plan) : Prop :=
  exists evs, history p' = history p ++ evs
    /\ forall u, u ∈ running p -> u ∈ running p' \/ (u, AWS_TASK_STATUS_CANCELED) ∈ evs.

Lemma calls_more_trans p1 p2 p3 : calls_more p1 p2 -> calls_more p2 p3 -> calls_more p1 p3.
Proof using.
  intros (e1 & E1 & H1) (e2 & E2 & H2). exists (e1 ++ e2). rewrite E2, E1, app_assoc. split; [reflexivity |].
  intros u Hu. rewrite elem_of_app. destruct (H1 u Hu) as [Hr | ?]; [| tauto]. destruct (H2 u Hr); tauto.
Qed.

Lemma plan_call_more t p work p' : plan_call fn t AWS_TASK_STATUS_CANCELED p = Some (work, p') -> calls_more p p'.
Proof using.
  intros E. destruct (plan_call_calls _ _ _ _ E) as [Eh Hr]. exists [(t, AWS_TASK_STATUS_CANCELED)]. split; [exact Eh |].
  intros u Hu. destruct (Hr u Hu) as [-> | ?]; [right; apply elem_of_cons; auto | now left].
Qed.

Lemma does_more work p p' : does fn work p p' -> calls_more p p'.
Proof using.
  induction 1 as [p | a work p calls p1 p2 Hs Hd IH]; [exists []; rewrite app_nil_r; auto |].
  apply (calls_more_trans _ p1); [| exact IH]. destruct a as [t | t tm | t]; cbn [plan_step] in Hs;
    [| | exact (plan_call_more _ _ _ _ Hs)]; destruct (known p !! t) as [k |]; try discriminate; cbn in Hs;
    destruct (scheduled k); try discriminate; injection Hs as <- <-; exists []; rewrite app_nil_r; auto.
Qed.

Lemma runs_more p p' : runs fn AWS_TASK_STATUS_CANCELED p p' -> calls_more p p' /\ running p' = [].
Proof using.
  induction 1 as [p E | p t rest work p1 p2 p3 Hr Hc Hd Hrun [IH E]]; [split; [exists []; rewrite app_nil_r; auto | exact E] |].
  split; [| exact E]. apply (calls_more_trans _ p1); [exact (plan_call_more _ _ _ _ Hc) |].
  apply (calls_more_trans _ p2); [exact (does_more _ _ _ Hd) | exact IH].
Qed.

Lemma cleans_calls p ts h : cleans p ts h ->
  exists evs, h = history p ++ evs /\ forall t, t ∈ asap p ++ timed p -> (t, AWS_TASK_STATUS_CANCELED) ∈ evs.
Proof using.
  induction 1 as [p E1 E2 | p due p1 ts h Hne Hin Hd Hr Hc (evs & E & _)].
  - exists []. rewrite app_nil_r, E1, E2. split; [reflexivity |]. intros t Ht. now apply not_elem_of_nil in Ht.
  - destruct (runs_more _ _ Hr) as [(evs1 & E1 & H1) Er]. cbn [history] in E1. exists (evs1 ++ evs). rewrite E, E1, app_assoc.
    split; [reflexivity |]. intros t Ht. apply elem_of_app. left. rewrite <- Hd in Ht. destruct (H1 t Ht) as [Hx | Hx]; [| exact Hx].
    rewrite Er in Hx. now apply not_elem_of_nil in Hx.
Qed.

(** The loop ends when the calls permit it, and does what the rounds say. *)
Lemma cancel_loop_cleans p : clean_ends p -> forall s asap0 listed queued,
  ready sch s asap0 listed queued -> plan_fits (idle_plan s asap0 listed queued) ->
  asap p = asap0 -> timed p ≡ₚ listed ++ queued -> known p = tasks s -> history p = ran s ->
  exists n s', (forall fuel calls, (n <= fuel)%nat -> (n <= calls)%nat -> cancel_loop fn sch fuel calls s = Some (tt, s'))
    /\ cleans (idle_plan s asap0 listed queued) (tasks s') (ran s') /\ ready sch s' [] [] [].
Proof using fits.
  intros Hend. induction Hend as [p E1 E2 | p next Hround Hn IH]; intros s asap0 listed queued H Hb Ea HP Ek Eh;
    destruct (has_tasks_run s asap0 listed queued H Hb) as [tm E].
  - rewrite E2 in HP. apply Permutation_nil in HP. pose proof HP as HP'. apply app_nil in HP' as [-> ->]. rewrite E1 in Ea. subst asap0.
    exists 1%nat, s. split_and!; auto; [| now apply (cleans_done (idle_plan s [] [] []))].
    intros [| fuel] calls Hf _; [lia |]. cbn [cancel_loop]. erewrite bind_T by exact E. reflexivity.
  - destruct (cancel_round s asap0 listed queued H Hb) as (due & Hin & Hd & _ & _ & Hrun).
    destruct (decide (asap0 ++ listed ++ queued = [])) as [En | Hne].
    { pose proof En as En'. apply app_nil in En' as [-> En']. apply app_nil in En' as [-> ->].
      exists 1%nat, s. split_and!; auto; [| now apply (cleans_done (idle_plan s [] [] []))].
      intros [| fuel] calls Hf _; [lia |]. cbn [cancel_loop]. erewrite bind_T by exact E. reflexivity. }
    assert (in_time (known p) due /\ due ≡ₚ timed p) as [Hin' Hd'] by (split; [now rewrite Ek | now rewrite HP]).
    pose proof (Hround due Hin' Hd') as Hr. specialize (IH due Hin' Hd'). set (p1 := next due) in *.
    rewrite Ea, Ek, Eh in Hr. destruct (Hrun p1 Hr) as (n & s1 & l1 & q1 & E1 & H1 & HP1 & T1 & R1).
    assert (plan_fits p1) as Hf1 by (apply (runs_fits _ _ Hr); intros u Hu; now apply not_elem_of_nil in Hu).
    destruct (IH s1 (asap p1) l1 q1 H1) as (m & s' & Eloop & Hc & Hready); auto; [| now symmetry |].
    { intros u Hu. cbn in Hu |- *. rewrite T1. apply Hf1. now rewrite <- HP1. }
    exists (S (n + m)), s'. split_and!; auto.
    + intros [| fuel] calls Hf Hm; [lia |]. cbn [cancel_loop]. erewrite bind_T by exact E. cbn [fst].
      rewrite bool_decide_eq_true_2 by exact Hne. cbn [negb]. erewrite bind_T by (apply E1; lia). apply Eloop; lia.
    + apply (cleans_round (idle_plan s asap0 listed queued) due p1); auto.
      apply (cleans_perm _ p1 _ _ Hc); auto.
Qed.

Hypothesis quiet : forall h t, fn h t AWS_TASK_STATUS_CANCELED = [].

Lemma cancel_loop_ok s asap0 listed queued :
  ready sch s asap0 listed queued -> (forall t, t ∈ listed ++ queued -> time_of (tasks s) t < 2 ^ 64) ->
  exists due n s', in_time (tasks s) due /\ due ≡ₚ listed ++ queued /\ ready sch s' [] [] []
    /\ (forall fuel calls, (2 <= fuel)%nat -> (n <= calls)%nat -> cancel_loop fn sch fuel calls s = Some (tt, s'))
    /\ ran s' = ran s ++ map (fun t => (t, AWS_TASK_STATUS_CANCELED)) (asap0 ++ due).
Proof using quiet.
  intros H Hb. destruct (has_tasks_run s asap0 listed queued H Hb) as [tm E].
  destruct (decide (asap0 ++ listed ++ queued = [])) as [En | Hne].
  - pose proof En as En'. apply app_nil in En' as [-> En']. pose proof En' as En''. apply app_nil in En'' as [-> ->].
    exists [], O, s. split_and!; auto; [constructor | | now rewrite app_nil_r].
    intros [| fuel] calls Hf _; [lia |]. cbn [cancel_loop]. erewrite bind_T by exact E. reflexivity.
  - destruct (cancel_round s asap0 listed queued H Hb) as (due & Hin & HP & Hnd & Hk & Hrun).
    destruct (again_runs fn AWS_TASK_STATUS_CANCELED (fun _ => Never) quiet (asap0 ++ due)
      (mk_plan (asap0 ++ due) [] [] (tasks s) (ran s)) eq_refl) as (p' & Hr & Hh & Ha & Ht);
      [cbn; now rewrite app_nil_r | exact Hk |].
    assert (forall l, filter (fun _ : positive => false = true) l = []) as Hnone by (induction l; auto).
    unfold next_run_tasks, timed_tasks in Ha, Ht. cbn [is_next is_at asap timed app] in Ha, Ht. rewrite Hnone in Ha, Ht.
    destruct (Hrun p' Hr) as (n & s' & l' & q' & Erun & Hs' & HP' & _ & Er). rewrite Ht in HP'.
    symmetry in HP'. apply Permutation_nil in HP'. apply app_nil in HP' as [-> ->]. rewrite Ha in Hs'.
    exists due, n, s'. split_and!; auto; [| now rewrite Er, Hh].
    intros [| [| fuel]] calls Hf Hn; try lia. cbn [cancel_loop].
    erewrite bind_T by exact E. cbn [fst]. rewrite bool_decide_eq_true_2 by exact Hne. cbn [negb].
    erewrite bind_T by (apply Erun; exact Hn).
    destruct (has_tasks_run s' [] [] [] Hs') as [tm' E']; [intros t Hin'; now apply not_elem_of_nil in Hin' |].
    erewrite bind_T by exact E'. reflexivity.
Qed.

Lemma scheduler_valid_run s asap0 listed queued :
  ready sch s asap0 listed queued ->
  aws_task_scheduler_is_valid sch s = Some (aws_priority_queue_is_valid (timed_queue s), s).
Proof using.
  intros H. pose proof (co_lists _ _ _ (rd_core _ _ _ _ _ H)) as Hl. unfold aws_task_scheduler_is_valid.
  assert (on_queue (fun q => Some (aws_priority_queue_is_valid q, q)) s = Some (aws_priority_queue_is_valid (timed_queue s), s)) as E
    by (unfold on_queue; now destruct s).
  erewrite bind_T by exact E.
  erewrite bind_T by (apply links_read; exact (proj1 (list_reads _ _ _ (lists_head _ _ _ _ Hl)))).
  rewrite perm_swap in Hl.
  erewrite bind_T by (apply links_read; exact (proj1 (list_reads _ _ _ (lists_head _ _ _ _ Hl)))).
  now rewrite !andb_true_r.
Qed.
End clean.

Lemma ready_sentinels sch s asap0 listed queued :
  ready sch s asap0 listed queued -> Forall (holds (node_links s)) (sentinels sch).
Proof.
  intros H. pose proof (ls_each _ _ (co_lists _ _ _ (rd_core _ _ _ _ _ H))) as Hl. rewrite !Forall_cons in Hl.
  destruct Hl as (La & Lt & _). apply lo_holds in La, Lt. cbn [fst snd] in La, Lt. rewrite Forall_forall in La, Lt. unfold sentinels.
  repeat (apply Forall_cons; split); [apply Lt | apply Lt | apply La | apply La | exact (rd_head _ _ _ _ _ H) | exact (rd_tail _ _ _ _ _ H) | constructor];
    rewrite elem_of_path; auto.
Qed.

Lemma perform_all_more fn sch n : forall work s r m,
  perform_all fn sch n work s = Some r -> (n <= m)%nat -> perform_all fn sch m work s = Some r.
Proof.
  induction n as [| n IH]; intros [| a work] s r [| m] E Hm; cbn [perform_all] in *; auto; try discriminate; try lia.
  unfold mbind, T_bind in *. destruct (perform fn sch a s) as [[calls s1] |]; [| discriminate]. apply IH; [exact E | lia].
Qed.

(** ** A scheduler for the witnesses *)

Definition demo_scheduler : aws_task_scheduler := mk_scheduler (mk_list 1 2) (mk_list 3 4) (mk_list 5 6).

Definition demo_memory : state :=
  mk_state (list_to_map (map (fun p => (p, mk_node None None)) [1; 2; 3; 4; 5; 6; 10; 20; 30]%positive))
    (list_to_map (map (fun p => (p, mk_task 0 false)) [10; 20; 30]%positive))
    (mk_queue (mk_alist [] 0 false 0) None (list_to_map (map (fun p => (p, 0)) [10; 20; 30]%positive))) [].

Lemma demo_tasks t : is_Some (tasks demo_memory !! t) -> t = 10%positive \/ t = 20%positive \/ t = 30%positive.
Proof.
  rewrite <- elem_of_dom. change (dom (tasks demo_memory)) with (dom (list_to_map (map (fun p => (p, mk_task 0 false)) [10; 20; 30]%positive) : gmap positive aws_task)).
  rewrite dom_list_to_map_L, elem_of_list_to_set. cbn. rewrite !elem_of_cons. intros [? | [? | [? | ?%not_elem_of_nil]]]; auto; easy.
Qed.

Lemma demo_fresh : fresh demo_scheduler demo_memory.
Proof.
  split.
  - refine (bool_decide_unpack _ _). vm_compute. exact I.
  - repeat constructor; eexists; vm_compute; reflexivity.
  - intros t Ht. destruct (demo_tasks t Ht) as [-> | [-> | ->]]; (split; [eexists; vm_compute; reflexivity |]);
      (split; [eexists; vm_compute; reflexivity |]); (split; [refine (bool_decide_unpack _ _); vm_compute; exact I | reflexivity]).
  - intros t k Hk. assert (is_Some (tasks demo_memory !! t)) as Ht by eauto.
    destruct (demo_tasks t Ht) as [-> | [-> | ->]]; vm_compute in Hk; now injection Hk as <-.
  - vm_compute. reflexivity.
Qed.

(** One task now, two at a time. *)
Definition demo_calls : list action := [Schedule_future 30 5; Schedule_future 20 3; Schedule_now 10].

Definition demo_plan : plan :=
  mk_plan [] [10%positive] [20; 30]%positive
    (<[10%positive := mk_task 0 true]> (<[20%positive := mk_task 3 true]> (<[30%positive := mk_task 5 true]> (tasks demo_memory)))) [].

(** A task that runs every 10 units of time, and one that runs once more. *)
Definition demo_again (t : positive) : again :=
  match t with 10%positive => Next_run | 20%positive => At 13 | _ => Never end.

Definition demo_fn (h : list event) (t : positive) (status : aws_task_status) : list action :=
  match status with AWS_TASK_STATUS_RUN_READY => again_calls (demo_again t) t | AWS_TASK_STATUS_CANCELED => [] end.

Lemma demo_does : does demo_fn demo_calls (mk_plan [] [] [] (tasks demo_memory) []) demo_plan.
Proof. repeat (eapply does_call; [reflexivity |]). apply does_nothing. Qed.

Definition demo_state : state :=
  match (_ ← aws_task_scheduler_init demo_scheduler; perform_all demo_fn demo_scheduler 3 demo_calls) demo_memory with
  | Some (_, s) => s
  | None => demo_memory
  end.

Lemma demo_ready : exists listed queued, ready demo_scheduler demo_state [10%positive] listed queued
  /\ listed ++ queued ≡ₚ [20; 30]%positive /\ tasks demo_state = known demo_plan.
Proof.
  destruct (init_scheduler_ok demo_scheduler demo_memory demo_fresh) as (s1 & E1 & R1 & T1 & A1).
  destruct (calls_ok demo_fn demo_scheduler s1 [] [] [] demo_calls demo_plan R1) as (n & s2 & l & q & E2 & R2 & P2 & T2 & _).
  { unfold idle_plan. rewrite T1, A1. exact demo_does. }
  enough (demo_state = s2) as -> by (exists l, q; auto).
  assert (exists r, (_ ← aws_task_scheduler_init demo_scheduler; perform_all demo_fn demo_scheduler 3 demo_calls) demo_memory = Some r) as [[[] s3] E3]
    by (eexists; vm_compute; reflexivity).
  unfold demo_state. rewrite E3. erewrite bind_T in E3 by exact E1.
  pose proof (perform_all_more _ _ _ _ _ _ (3 + n) E3 (Nat.le_add_r 3 n)) as E4. rewrite E2 in E4 by lia. now injection E4.
Qed.

Lemma two_elements {A} (l : list A) a b : l ≡ₚ [a; b] -> l = [a; b] \/ l = [b; a].
Proof.
  intros H. pose proof (Permutation_length H) as Hl. destruct l as [| x [| y [| z l]]]; try discriminate.
  apply Permutation_length_2_inv. now symmetry.
Qed.

(** ** Theorems *)

(** C6: A run carries the plan out, whatever the functions of the tasks do to
    the scheduler: [s_run_all] takes everything scheduled for now, then the
    timed tasks that are due, from the earliest to the latest, whether they
    wait in the queue or in the list; runs them in that order, where a task that
    an earlier one cancels is called with CANCELED and does not run, and tasks
    that are scheduled meanwhile wait for a later run; and leaves the tasks that
    are not due. It ends when the calls of the functions do. *)
Theorem scheduler_run_correct fn sch s asap0 listed queued now status :
  ready sch s asap0 listed queued ->
  exists due later, in_time (tasks s) due /\ due ++ later ≡ₚ listed ++ queued
    /\ (forall u, u ∈ due -> time_of (tasks s) u <= now) /\ (forall u, u ∈ later -> now < time_of (tasks s) u)
    /\ forall p', runs fn status (mk_plan (asap0 ++ due) [] later (tasks s) (ran s)) p' ->
       exists n s' listed' queued', (forall calls, (n <= calls)%nat -> s_run_all fn sch calls now status s = Some (tt, s'))
         /\ ready sch s' (asap p') listed' queued' /\ listed' ++ queued' ≡ₚ timed p'
         /\ tasks s' = known p' /\ ran s' = history p'.
Proof.
  intros H. destruct (run_all_ok fn sch s asap0 listed queued now status H) as (due & later & H1 & H2 & H3 & H4 & _ & _ & H5).
  now exists due, later.
Qed.

(** C8: [aws_task_scheduler_run_all] ends and runs every task that is due exactly
    once, when each task at most schedules itself again: those for now in the
    order they were scheduled, then the timed ones in the order of their times.
    What is scheduled again waits for a later run, even when its time has come;
    what was not due still waits. *)
Theorem scheduler_runs_once fn sch s asap0 listed queued now next_of_task :
  ready sch s asap0 listed queued -> (forall h t, fn h t AWS_TASK_STATUS_RUN_READY = again_calls (next_of_task t) t) ->
  exists due later n s' listed' queued',
    (forall calls, (n <= calls)%nat -> aws_task_scheduler_run_all fn sch calls now s = Some (tt, s'))
    /\ in_time (tasks s) due /\ due ++ later ≡ₚ listed ++ queued
    /\ (forall u, u ∈ due -> time_of (tasks s) u <= now) /\ (forall u, u ∈ later -> now < time_of (tasks s) u)
    /\ ran s' = ran s ++ map (fun t => (t, AWS_TASK_STATUS_RUN_READY)) (asap0 ++ due)
    /\ ready sch s' (next_run_tasks next_of_task (asap0 ++ due)) listed' queued'
    /\ listed' ++ queued' ≡ₚ later ++ timed_tasks next_of_task (asap0 ++ due).
Proof.
  intros H Hfn. destruct (run_all_ok fn sch s asap0 listed queued now AWS_TASK_STATUS_RUN_READY H)
    as (due & later & Hin & HP & Hd & Hl & Hnd & Hk & Hrun).
  destruct (again_runs fn AWS_TASK_STATUS_RUN_READY next_of_task Hfn (asap0 ++ due)
    (mk_plan (asap0 ++ due) [] later (tasks s) (ran s)) eq_refl Hnd) as (p' & Hr & Hh & Ha & Ht).
  { intros t Hin'. apply Hk, elem_of_app. auto. }
  destruct (Hrun p' Hr) as (n & s' & l' & q' & E & Hs' & HP' & _ & Er). cbn [asap timed app history] in Ha, Ht, Hh.
  exists due, later, n, s', l', q'. rewrite Ha in Hs'. split_and!; auto; [now rewrite Er | now rewrite HP'].
Qed.

(** C10: Scheduling and cancelling between runs, on a new scheduler and after any
    history: [schedule_now] adds the task to those of the next run,
    [schedule_future] to the timed ones, and [cancel] takes it out of wherever it
    waits, or of nothing, and calls it with CANCELED. No other task changes its
    place. *)
Theorem scheduler_calls_correct fn sch :
  (forall s, fresh sch s -> exists s', aws_task_scheduler_init sch s = Some (AWS_OP_SUCCESS, s') /\ ready sch s' [] [] []
     /\ tasks s' = tasks s /\ ran s' = ran s)
  /\ forall s asap0 listed queued work p',
     ready sch s asap0 listed queued -> does fn work (idle_plan s asap0 listed queued) p' ->
     exists n s' listed' queued', (forall calls, (n <= calls)%nat -> perform_all fn sch calls work s = Some (tt, s'))
       /\ ready sch s' (asap p') listed' queued' /\ listed' ++ queued' ≡ₚ timed p'
       /\ tasks s' = known p' /\ ran s' = history p'.
Proof. split; [apply init_scheduler_ok | apply calls_ok]. Qed.

(** What follows the loop. *)
Lemma clean_up_after fn sch s asap0 listed queued s1 :
  ready sch s asap0 listed queued -> aws_priority_queue_is_valid (timed_queue s) = true -> ready sch s1 [] [] [] ->
  exists s', (forall fuel calls, cancel_loop fn sch fuel calls s = Some (tt, s1) -> aws_task_scheduler_clean_up fn sch fuel calls s = Some (tt, s'))
    /\ tasks s' = tasks s1 /\ ran s' = ran s1 /\ (forall t k, tasks s1 !! t = Some k -> scheduled k = false).
Proof.
  intros H Hv H1. set (s2 := mk_state (node_links s1) (tasks s1) (aws_priority_queue_clean_up (timed_queue s1)) (ran s1)).
  pose proof (zero_scheduler_run sch s2 (ready_sentinels _ _ _ _ _ H1)) as Ez.
  match type of Ez with _ = Some (tt, ?x) => exists x end. split_and!; [| reflexivity | reflexivity |].
  - intros fuel calls E. unfold aws_task_scheduler_clean_up.
    erewrite bind_T by exact (scheduler_valid_run sch s asap0 listed queued H). rewrite Hv.
    erewrite bind_T by exact E. erewrite bind_T by reflexivity. exact Ez.
  - intros t k Hk. destruct (scheduled k) eqn:Ek; [| reflexivity].
    assert (waits (tasks s1) t) as Hw by (exists k; auto). apply (co_waits _ _ _ (rd_core _ _ _ _ _ H1)) in Hw. cbn in Hw.
    now apply not_elem_of_nil in Hw.
Qed.

(** When a cancelled task schedules nothing, every task is called exactly once. *)
Lemma scheduler_clean_ok fn sch s asap0 listed queued :
  ready sch s asap0 listed queued -> (forall t, t ∈ listed ++ queued -> time_of (tasks s) t < 2 ^ 64) ->
  (forall h t, fn h t AWS_TASK_STATUS_CANCELED = []) -> aws_priority_queue_is_valid (timed_queue s) = true ->
  exists due n s', in_time (tasks s) due /\ due ≡ₚ listed ++ queued
    /\ (forall fuel calls, (2 <= fuel)%nat -> (n <= calls)%nat -> aws_task_scheduler_clean_up fn sch fuel calls s = Some (tt, s'))
    /\ ran s' = ran s ++ map (fun t => (t, AWS_TASK_STATUS_CANCELED)) (asap0 ++ due)
    /\ (forall t k, tasks s' !! t = Some k -> scheduled k = false).
Proof.
  intros H Hb Hq Hv. destruct (cancel_loop_ok fn sch Hq s asap0 listed queued H Hb) as (due & n & s1 & Hin & HP & H1 & E & Er).
  destruct (clean_up_after fn sch s asap0 listed queued s1 H Hv H1) as (s' & Ez & Et & Er' & Hs).
  exists due, n, s'. split_and!; auto; [now rewrite Er', Er | now rewrite Et].
Qed.

(** C9: [aws_task_scheduler_clean_up] calls the tasks that wait with CANCELED, in
    rounds: those for now in order, then the timed ones from the earliest to the
    latest; a task of the round that another one cancels is called just then. What
    the cancelled tasks schedule meanwhile is cancelled in the next round, until
    no task waits. It ends whenever the calls that the tasks make permit an end
    and misuse nothing; every task that waited at the start was called. *)
Theorem scheduler_clean_up_correct fn sch s asap0 listed queued :
  ready sch s asap0 listed queued -> (forall t, t ∈ listed ++ queued -> time_of (tasks s) t < 2 ^ 64) ->
  (forall h t, Forall call_fits (fn h t AWS_TASK_STATUS_CANCELED)) ->
  clean_ends fn (idle_plan s asap0 listed queued) -> aws_priority_queue_is_valid (timed_queue s) = true ->
  exists n s', (forall fuel calls, (n <= fuel)%nat -> (n <= calls)%nat -> aws_task_scheduler_clean_up fn sch fuel calls s = Some (tt, s'))
    /\ cleans fn (idle_plan s asap0 listed queued) (tasks s') (ran s')
    /\ (exists evs, ran s' = ran s ++ evs /\ forall t, t ∈ asap0 ++ listed ++ queued -> (t, AWS_TASK_STATUS_CANCELED) ∈ evs)
    /\ (forall t k, tasks s' !! t = Some k -> scheduled k = false).
Proof.
  intros H Hb Hf He Hv.
  destruct (cancel_loop_cleans fn sch Hf _ He s asap0 listed queued H Hb) as (n & s1 & E & Hc & H1); auto.
  destruct (clean_up_after fn sch s asap0 listed queued s1 H Hv H1) as (s' & Ez & Et & Er & Hs).
  exists n, s'. split; [intros fuel calls H2 H3; apply Ez, E; assumption |]. rewrite Et, Er.
  split; [exact Hc |]. split; [| intros t k Hk; apply (Hs t k); congruence]. exact (cleans_calls fn _ _ _ Hc).
Qed.

(** [aws_task_scheduler_has_tasks] tells whether a task waits and when the
    next one is due: at once if one is scheduled for now, else at the earliest
    of the times in list and queue; the scheduler stays as it is. *)
Theorem scheduler_has_tasks_correct sch s asap0 listed queued :
  ready sch s asap0 listed queued -> (forall t, t ∈ listed ++ queued -> time_of (tasks s) t < 2 ^ 64) ->
  exists b tm, aws_task_scheduler_has_tasks sch s = Some ((b, tm), s)
    /\ (b = true <-> asap0 ++ listed ++ queued <> [])
    /\ match asap0 with
       | _ :: _ => tm = 0
       | [] => (listed ++ queued = [] -> tm = 2 ^ 64 - 1)
               /\ (listed ++ queued <> [] -> exists u, u ∈ listed ++ queued /\ tm = time_of (tasks s) u)
               /\ forall u, u ∈ listed ++ queued -> tm <= time_of (tasks s) u
       end.
Proof. apply has_tasks_ok. Qed.

Lemma scheduler_run_correct_witness :
  exists due, due ≡ₚ [20; 30]%positive
    /\ exists n s', forall calls, (n <= calls)%nat ->
       s_run_all demo_fn demo_scheduler calls 5 AWS_TASK_STATUS_CANCELED demo_state = Some (tt, s').
Proof.
  destruct demo_ready as (l & q & R & P & Tk).
  destruct (scheduler_run_correct demo_fn demo_scheduler demo_state [10%positive] l q 5 AWS_TASK_STATUS_CANCELED R)
    as (due & later & H1 & H2 & H3 & H4 & H5).
  assert (forall u, u ∈ due ++ later -> time_of (tasks demo_state) u <= 5) as Ht.
  { intros u. rewrite H2, P, !elem_of_cons. intros [-> | [-> | Hu%not_elem_of_nil]]; [vm_compute; discriminate | vm_compute; discriminate | easy]. }
  assert (later = []) as ->.
  { destruct later as [| u later]; [reflexivity |]. assert (u ∈ u :: later) as Hu by (apply elem_of_cons; auto).
    specialize (H4 u Hu). specialize (Ht u). rewrite elem_of_app in Ht. specialize (Ht (or_intror Hu)). lia. }
  rewrite app_nil_r, P in H2. exists due. split; [exact H2 |].
  assert (due = [20; 30]%positive \/ due = [30; 20]%positive) as [-> | ->] by (apply two_elements; exact H2).
  - edestruct H5 as (n & s' & _ & _ & E & _); [| exists n, s'; exact E].
    eapply runs_next; [reflexivity | reflexivity | apply does_nothing |].
    eapply runs_next; [reflexivity | reflexivity | apply does_nothing |].
    eapply runs_next; [reflexivity | reflexivity | apply does_nothing |]. now apply runs_out.
  - edestruct H5 as (n & s' & _ & _ & E & _); [| exists n, s'; exact E].
    eapply runs_next; [reflexivity | reflexivity | apply does_nothing |].
    eapply runs_next; [reflexivity | reflexivity | apply does_nothing |].
    eapply runs_next; [reflexivity | reflexivity | apply does_nothing |]. now apply runs_out.
Defined.

Lemma scheduler_runs_once_witness :
  exists due n s', (forall calls, (n <= calls)%nat -> aws_task_scheduler_run_all demo_fn demo_scheduler calls 3 demo_state = Some (tt, s'))
    /\ ran s' = ran demo_state ++ map (fun t => (t, AWS_TASK_STATUS_RUN_READY)) ([10%positive] ++ due).
Proof.
  destruct demo_ready as (l & q & R & P & Tk).
  destruct (scheduler_runs_once demo_fn demo_scheduler demo_state [10%positive] l q 3 demo_again R)
    as (due & later & n & s' & l' & q' & E & _ & _ & _ & _ & Er & _); [reflexivity |].
  exists due, n, s'. split; [exact E | exact Er].
Defined.

Lemma scheduler_calls_correct_witness :
  exists s1 n s2, aws_task_scheduler_init demo_scheduler demo_memory = Some (AWS_OP_SUCCESS, s1)
    /\ (forall calls, (n <= calls)%nat -> perform_all demo_fn demo_scheduler calls demo_calls s1 = Some (tt, s2))
    /\ tasks s2 = known demo_plan.
Proof.
  destruct (scheduler_calls_correct demo_fn demo_scheduler) as [Hinit Hcalls].
  destruct (Hinit demo_memory demo_fresh) as (s1 & E1 & R1 & T1 & A1).
  destruct (Hcalls s1 [] [] [] demo_calls demo_plan R1) as (n & s2 & l & q & E2 & _ & _ & T2 & _).
  { unfold idle_plan. rewrite T1, A1. exact demo_does. }
  exists s1, n, s2. auto.
Defined.

Lemma demo_times l q : l ++ q ≡ₚ [20; 30]%positive -> forall t, t ∈ l ++ q -> time_of (tasks demo_state) t < 2 ^ 64.
Proof.
  intros P t. rewrite P, !elem_of_cons. intros [-> | [-> | Hu%not_elem_of_nil]]; [vm_compute; reflexivity | vm_compute; reflexivity | easy].
Qed.

(** A task that schedules itself once more when it is cancelled, and one that
    cancels a third one. *)
Definition demo_clean_fn (h : list event) (t : positive) (status : aws_task_status) : list action :=
  match status, t with
  | AWS_TASK_STATUS_CANCELED, 10%positive =>
      if decide ((10%positive, AWS_TASK_STATUS_CANCELED) ∈ h) then [] else [Schedule_future 10 7]
  | AWS_TASK_STATUS_CANCELED, 20%positive => [Cancel_task 30]
  | _, _ => []
  end.

Definition demo_cancelled : list event := map (fun t => (t, AWS_TASK_STATUS_CANCELED)) [10; 20; 30; 10]%positive.

Definition demo_known (t10 : aws_task) : gmap positive aws_task :=
  <[30%positive := mk_task 5 false]> (<[20%positive := mk_task 3 false]> (<[10%positive := t10]> (known demo_plan))).

Definition demo_round1 : plan := mk_plan [] [] [10%positive] (demo_known (mk_task 7 true)) (take 3 demo_cancelled).
Definition demo_round2 : plan := mk_plan [] [] [] (demo_known (mk_task 7 false)) demo_cancelled.

Lemma demo_runs :
  runs demo_clean_fn AWS_TASK_STATUS_CANCELED (mk_plan [10; 20; 30]%positive [] [] (known demo_plan) []) demo_round1
  /\ runs demo_clean_fn AWS_TASK_STATUS_CANCELED (mk_plan [10]%positive [] [] (known demo_round1) (history demo_round1)) demo_round2.
Proof.
  split.
  - eapply runs_next; [reflexivity | reflexivity | eapply does_call; [reflexivity | apply does_nothing] |].
    eapply runs_next; [reflexivity | reflexivity | eapply does_call; [reflexivity | apply does_nothing] |].
    match goal with |- runs _ _ ?p _ => assert (p = demo_round1) as -> by (vm_compute; reflexivity) end. now apply runs_out.
  - eapply runs_next; [reflexivity | reflexivity | apply does_nothing |].
    match goal with |- runs _ _ ?p _ => assert (p = demo_round2) as -> by (vm_compute; reflexivity) end. now apply runs_out.
Qed.

Lemma demo_clean_ends l q : l ++ q ≡ₚ [20; 30]%positive -> clean_ends demo_clean_fn (idle_plan demo_state [10%positive] l q).
Proof.
  intros P. destruct demo_runs as [R1 R2]. destruct demo_ready as (_ & _ & _ & _ & Tk).
  assert (forall due, in_time (known (idle_plan demo_state [10%positive] l q)) due -> due ≡ₚ l ++ q -> due = [20; 30]%positive) as Hdue.
  { intros due Hin Hd. cbn [known idle_plan] in Hin. rewrite Tk in Hin. rewrite P in Hd.
    destruct (two_elements _ _ _ Hd) as [-> | ->]; [reflexivity |]. exfalso.
    inversion Hin as [| ? ? _ Hx]; subst. inversion Hx as [| ? ? Hle _]; subst. vm_compute in Hle. now apply Hle. }
  apply (ends_round _ _ (fun _ => demo_round1)).
  - intros due Hin Hd. rewrite (Hdue due Hin Hd). cbn [asap known history idle_plan app]. rewrite Tk. exact R1.
  - intros _ _ _. apply (ends_round _ _ (fun _ => demo_round2)); [| intros _ _ _; now apply ends_done].
    intros due _ Hd. cbn [timed demo_round1] in Hd. apply Permutation_singleton_r in Hd as ->. exact R2.
Qed.

Lemma scheduler_clean_up_correct_witness :
  exists n s' evs,
    (forall fuel calls, (n <= fuel)%nat -> (n <= calls)%nat ->
        aws_task_scheduler_clean_up demo_clean_fn demo_scheduler fuel calls demo_state = Some (tt, s'))
    /\ ran s' = ran demo_state ++ evs /\ (30%positive, AWS_TASK_STATUS_CANCELED) ∈ evs
    /\ forall t k, tasks s' !! t = Some k -> scheduled k = false.
Proof.
  destruct demo_ready as (l & q & R & P & Tk).
  destruct (scheduler_clean_up_correct demo_clean_fn demo_scheduler demo_state [10%positive] l q R (demo_times l q P))
    as (n & s' & E & _ & (evs & Er & Hin) & Hs).
  - intros h t. unfold demo_clean_fn. repeat case_match; repeat constructor.
  - exact (demo_clean_ends l q P).
  - vm_compute. reflexivity.
  - exists n, s', evs. split; [exact E |]. split; [exact Er |]. split; [| exact Hs]. apply Hin. rewrite P.
    rewrite elem_of_app, !elem_of_cons. auto.
Defined.

Lemma scheduler_has_tasks_correct_witness :
  exists b tm, aws_task_scheduler_has_tasks demo_scheduler demo_state = Some ((b, tm), demo_state) /\ b = true /\ tm = 0.
Proof.
  destruct demo_ready as (l & q & R & P & Tk).
  destruct (scheduler_has_tasks_correct demo_scheduler demo_state [10%positive] l q R (demo_times l q P)) as (b & tm & E & Hb & Ht).
  exists b, tm. split; [exact E |]. split; [apply Hb; discriminate | exact Ht].
Defined.
