(* ===== verification/Calendar.v ===== *)
(** * The C library's calendar

    What [source/date_time.c] uses of [time.h] and [stdlib.h]: broken-down time,
    [gmtime_r], [timegm], [strftime] in the C locale and [strtol]; and the
    wrappers of [source/posix/time.c]. The local time zone belongs to the
    platform and is a parameter of the functions that use it.

    [timegm] and [gmtime_r] undo each other: the only facts about the calendar
    that the theorems on dates need. *)

From Stdlib Require Ascii String.
From S2P Require Import Prelude.
Import (notations, coercions) String.

Local Open Scope Z_scope.

(** A text as bytes. *)
Definition text (s : String.string) : list Z :=
  map (fun c => Z.of_N (Ascii.N_of_ascii c)) (String.list_ascii_of_string s).
Arguments text s%_string.

(** ** The calendar *)

Record tm := mk_tm {
  tm_sec : Z;
  tm_min : Z;
  tm_hour : Z;
  tm_mday : Z;
  tm_mon : Z;
  tm_year : Z;
  tm_wday : Z;
  tm_yday : Z;
  tm_isdst : Z
}.

Definition zero_tm : tm := mk_tm 0 0 0 0 0 0 0 0 0.

#[export] Instance tm_eq_dec : EqDecision tm.
Proof. solve_decision. Defined.

Definition in_int (x : Z) : bool := (- 2 ^ 31 <=? x) && (x <? 2 ^ 31).

Definition is_leap (y : Z) : bool := (y mod 4 =? 0) && (negb (y mod 100 =? 0) || (y mod 400 =? 0)).

(** Days from the first day of year 0 to the first day of year [y]. *)
Definition days_before_year (y : Z) : Z := 365 * y + (y + 3) / 4 - (y + 99) / 100 + (y + 399) / 400.

(** Days of a year before the month [m], from 0 to 12. *)
Definition days_before_month (leap : bool) (m : Z) : Z :=
  default 365 (zlookup [0; 31; 59; 90; 120; 151; 181; 212; 243; 273; 304; 334] m)
  + (if leap && (2 <=? m) then 1 else 0).

(** The days from year 0 to the first of January 1970. *)
Definition epoch_day : Z := 719528.

(** Fields outside of their ranges carry over. *)
Definition timegm (t : tm) : Z :=
  let year := tm_year t + 1900 + tm_mon t / 12 in
  let days := days_before_year year + days_before_month (is_leap year) (tm_mon t mod 12) + (tm_mday t - 1) - epoch_day in
  ((days * 24 + tm_hour t) * 60 + tm_min t) * 60 + tm_sec t.

(** The year of a day counted from year 0: an estimate, corrected. *)
Definition year_of_day (d : Z) : Z :=
  let y := d * 400 / 146097 in
  if d <? days_before_year y then y - 1
  else if days_before_year (y + 1) <=? d then y + 1
  else y.

(** The month of a day of the year. *)
Definition month_of_yday (leap : bool) (yday : Z) : Z :=
  Z.of_nat (length (List.filter (fun m => days_before_month leap m <=? yday) [1; 2; 3; 4; 5; 6; 7; 8; 9; 10; 11])).

(** [gmtime_r] fails, and writes nothing, when the year does not fit. *)
Definition gmtime (t : Z) : option tm :=
  let d := t / 86400 + epoch_day in
  let s := t mod 86400 in
  let year := year_of_day d in
  let yday := d - days_before_year year in
  let mon := month_of_yday (is_leap year) yday in
  if in_int (year - 1900) then
    Some (mk_tm (s mod 60) (s / 60 mod 60) (s / 3600) (yday - days_before_month (is_leap year) mon + 1) mon (year - 1900)
            ((d + 6) mod 7) yday 0)
  else None.

(** A time of day on a day that exists. *)
Record tm_ok (t : tm) : Prop := {
  ok_sec : 0 <= tm_sec t < 60;
  ok_min : 0 <= tm_min t < 60;
  ok_hour : 0 <= tm_hour t < 24;
  ok_mon : 0 <= tm_mon t < 12;
  ok_mday : 1 <= tm_mday t /\ days_before_month (is_leap (tm_year t + 1900)) (tm_mon t) + tm_mday t
                              <= days_before_month (is_leap (tm_year t + 1900)) (tm_mon t + 1)
}.

Lemma year_step y : days_before_year (y + 1) = days_before_year y + 365 + (if is_leap y then 1 else 0).
Proof.
  unfold days_before_year, is_leap.
  destruct (Z.eqb_spec (y mod 4) 0), (Z.eqb_spec (y mod 100) 0), (Z.eqb_spec (y mod 400) 0); cbn [andb orb negb];
    Z.div_mod_to_equations; lia.
Qed.

Lemma year_of_day_ok d : days_before_year (year_of_day d) <= d < days_before_year (year_of_day d + 1).
Proof.
  unfold year_of_day. set (y := d * 400 / 146097).
  assert (days_before_year (y - 1) <= d < days_before_year (y + 2)).
  { subst y. unfold days_before_year. Z.div_mod_to_equations. lia. }
  zcase; try (replace (y - 1 + 1) with y by ring); try (replace (y + 1 + 1) with (y + 2) by ring); lia.
Qed.

Lemma month_cases (P : Z -> Prop) :
  P 0 -> P 1 -> P 2 -> P 3 -> P 4 -> P 5 -> P 6 -> P 7 -> P 8 -> P 9 -> P 10 -> P 11 -> forall m, 0 <= m < 12 -> P m.
Proof.
  intros H0 H1 H2 H3 H4 H5 H6 H7 H8 H9 H10 H11 m Hm.
  assert (m = 0 \/ m = 1 \/ m = 2 \/ m = 3 \/ m = 4 \/ m = 5 \/ m = 6 \/ m = 7 \/ m = 8 \/ m = 9 \/ m = 10 \/ m = 11) as E by lia.
  decompose [or] E; subst; assumption.
Qed.

Definition year_length (leap : bool) : Z := 365 + (if leap then 1 else 0).

Lemma month_of_yday_ok leap yday : 0 <= yday < year_length leap ->
  0 <= month_of_yday leap yday < 12
  /\ days_before_month leap (month_of_yday leap yday) <= yday < days_before_month leap (month_of_yday leap yday + 1).
Proof.
  intros H. unfold year_length in H. assert (0 <= yday < Z.of_nat 366) as Hb by (destruct leap; lia).
  pose (ok := fun v => implb (v <? year_length leap)
    ((0 <=? month_of_yday leap v) && (month_of_yday leap v <? 12)
     && (days_before_month leap (month_of_yday leap v) <=? v) && (v <? days_before_month leap (month_of_yday leap v + 1)))).
  assert (ok yday = true) as E by (apply (range_cases 366); [destruct leap; vm_compute; reflexivity | exact Hb]).
  unfold ok, year_length in E. destruct (Z.ltb_spec yday (365 + (if leap then 1 else 0))); [| lia].
  cbn [implb] in E. lia.
Qed.

Lemma month_bounds leap m : 0 <= m < 12 ->
  0 <= days_before_month leap m /\ days_before_month leap (m + 1) <= year_length leap.
Proof. revert m. apply month_cases; destruct leap; vm_compute; split; discriminate. Qed.

Lemma month_mono leap a b : 0 <= a -> a < b -> b < 12 -> days_before_month leap (a + 1) <= days_before_month leap b.
Proof.
  intros Ha Hab Hb. replace b with (b - 1 + 1) by ring. assert (0 <= b - 1 - a) as Hd by lia.
  replace (b - 1 + 1) with (a + 1 + Z.of_nat (Z.to_nat (b - 1 - a))) by lia.
  assert (a + 1 + Z.of_nat (Z.to_nat (b - 1 - a)) < 12) as Hl by lia. revert Hl. clear Hd Hab Hb.
  induction (Z.to_nat (b - 1 - a)) as [| n IH]; intros Hl; [now rewrite Z.add_0_r |].
  transitivity (days_before_month leap (a + 1 + Z.of_nat n)); [apply IH; lia |].
  replace (a + 1 + Z.of_nat (S n)) with (a + 1 + Z.of_nat n + 1) by lia.
  assert (0 <= a + 1 + Z.of_nat n < 12) as Hr by lia. revert Hr. generalize (a + 1 + Z.of_nat n). clear.
  apply month_cases; destruct leap; vm_compute; discriminate.
Qed.

(** The month is the one that holds the day. *)
Lemma month_of_yday_unique leap m yday : 0 <= m < 12 ->
  days_before_month leap m <= yday < days_before_month leap (m + 1) -> month_of_yday leap yday = m.
Proof.
  intros Hm H. pose proof (month_bounds leap m Hm). destruct (month_of_yday_ok leap yday) as [Hr H']; [lia |].
  set (m' := month_of_yday leap yday) in *. destruct (Z.lt_trichotomy m' m) as [Hlt | [E | Hgt]]; [| exact E |].
  - pose proof (month_mono leap m' m). lia.
  - pose proof (month_mono leap m m'). lia.
Qed.

Lemma year_of_day_unique d y : days_before_year y <= d < days_before_year (y + 1) -> year_of_day d = y.
Proof.
  intros H. pose proof (year_of_day_ok d) as H'. set (y' := year_of_day d) in *.
  assert (forall a b, a < b -> days_before_year (a + 1) <= days_before_year b) as Hmono.
  { intros a b Hab. unfold days_before_year. Z.div_mod_to_equations. lia. }
  destruct (Z.lt_trichotomy y' y) as [Hlt | [E | Hgt]]; [| exact E |].
  - specialize (Hmono _ _ Hlt). lia.
  - specialize (Hmono _ _ Hgt). lia.
Qed.

Lemma gmtime_ok t x : gmtime t = Some x -> tm_ok x /\ timegm x = t.
Proof.
  unfold gmtime. destruct (in_int _); [| discriminate]. intros [= <-].
  set (d := t / 86400 + epoch_day). pose proof (year_of_day_ok d) as Hy. rewrite year_step in Hy.
  set (y := year_of_day d) in *. set (leap := is_leap y) in *.
  destruct (month_of_yday_ok leap (d - days_before_year y)) as [Hm Hd]; [unfold year_length; lia |].
  set (mon := month_of_yday leap (d - days_before_year y)) in *. split.
  - constructor; cbn; try replace (y - 1900 + 1900) with y by ring; fold leap.
    + apply Z.mod_pos_bound. lia.
    + apply Z.mod_pos_bound. lia.
    + pose proof (Z.mod_pos_bound t 86400). split; [apply Z.div_pos; lia | apply Z.div_lt_upper_bound; lia].
    + exact Hm.
    + lia.
  - unfold timegm. cbn. rewrite (Z.div_small mon 12), (Z.mod_small mon 12) by lia.
    replace (y - 1900 + 1900 + 0) with y by ring. fold leap. subst d. Z.div_mod_to_equations. lia.
Qed.

(** Broken-down time from fields that are in their ranges. *)
Lemma gmtime_timegm x : tm_ok x -> in_int (tm_year x) = true ->
  exists w d, gmtime (timegm x)
    = Some (mk_tm (tm_sec x) (tm_min x) (tm_hour x) (tm_mday x) (tm_mon x) (tm_year x) w d 0).
Proof.
  intros [Hs Hm Hh Hmo Hd] Hy. unfold gmtime, timegm. rewrite (Z.div_small (tm_mon x) 12), (Z.mod_small (tm_mon x) 12) by lia.
  rewrite Z.add_0_r. set (y := tm_year x + 1900) in *. set (leap := is_leap y) in *.
  set (b := days_before_month leap (tm_mon x)) in *. set (day := days_before_year y + b + (tm_mday x - 1)).
  set (sod := (tm_hour x * 60 + tm_min x) * 60 + tm_sec x).
  replace (((day - epoch_day) * 24 + tm_hour x) * 60 + tm_min x) with ((day - epoch_day) * 1440 + tm_hour x * 60 + tm_min x) by ring.
  replace (((day - epoch_day) * 1440 + tm_hour x * 60 + tm_min x) * 60 + tm_sec x) with (sod + (day - epoch_day) * 86400) by (unfold sod; ring).
  assert (0 <= sod < 86400) as Hsod by (unfold sod; lia).
  rewrite Z.div_add, Z.mod_add, (Z.div_small sod), (Z.mod_small sod) by lia.
  replace (0 + (day - epoch_day) + epoch_day) with day by ring.
  assert (0 <= b /\ days_before_month leap (tm_mon x + 1) <= year_length leap) as [Hb0 Hb1].
  { now apply month_bounds. }
  assert (year_of_day day = y) as ->.
  { apply year_of_day_unique. rewrite year_step. fold leap. unfold year_length in Hb1. unfold day. lia. }
  replace (day - days_before_year y) with (b + (tm_mday x - 1)) by (unfold day; ring). fold leap.
  rewrite (month_of_yday_unique leap (tm_mon x)) by (fold b; lia). fold b.
  replace (y - 1900) with (tm_year x) by (unfold y; ring). rewrite Hy. do 2 eexists. do 2 f_equal.
  - unfold sod. Z.div_mod_to_equations. lia.
  - unfold sod. Z.div_mod_to_equations. lia.
  - unfold sod. Z.div_mod_to_equations. lia.
  - lia.
Qed.

(** [aws_timegm], [aws_gmtime] of [source/posix/time.c]: the structure keeps its
    zeroes when the conversion fails. *)
Definition aws_timegm (t : tm) : Z := timegm t.
Definition aws_gmtime (time : Z) : tm := default zero_tm (gmtime time).

(** ** Printing *)

Fixpoint decimal_loop (fuel : nat) (n : Z) (rest : list Z) : list Z :=
  match fuel with
  | O => rest
  | S fuel =>
      let rest := 48 + n mod 10 :: rest in
      if n <? 10 then rest else decimal_loop fuel (n / 10) rest
  end.

Definition decimal (n : Z) : list Z :=
  if n <? 0 then 45 :: decimal_loop (S (Z.to_nat (Z.log2 (- n)))) (- n) []
  else decimal_loop (S (Z.to_nat (Z.log2 n))) n [].

(** [%02d] *)
Definition two_digits (n : Z) : list Z :=
  if (0 <=? n) && (n <? 10) then 48 :: decimal n else decimal n.

Definition weekday_name (wday : Z) : list Z :=
  default (text "?") (zlookup [text "Sun"; text "Mon"; text "Tue"; text "Wed"; text "Thu"; text "Fri"; text "Sat"] wday).

Definition month_name (mon : Z) : list Z :=
  default (text "?") (zlookup [text "Jan"; text "Feb"; text "Mar"; text "Apr"; text "May"; text "Jun";
                               text "Jul"; text "Aug"; text "Sep"; text "Oct"; text "Nov"; text "Dec"] mon).

(** The conversions that the formats of the library use; [zone] is the name of
    the local time zone. *)
Definition conversion (zone : list Z) (t : tm) (c : Z) : list Z :=
  if c =? 97 (* a *) then weekday_name (tm_wday t)
  else if c =? 98 (* b *) then month_name (tm_mon t)
  else if c =? 109 (* m *) then two_digits (tm_mon t + 1)
  else if c =? 100 (* d *) then two_digits (tm_mday t)
  else if c =? 89 (* Y *) then decimal (tm_year t + 1900)
  else if c =? 72 (* H *) then two_digits (tm_hour t)
  else if c =? 77 (* M *) then two_digits (tm_min t)
  else if c =? 83 (* S *) then two_digits (tm_sec t)
  else if c =? 90 (* Z *) then zone
  else [].

Fixpoint strftime_text (zone : list Z) (t : tm) (format : list Z) : list Z :=
  match format with
  | 37 :: c :: format => conversion zone t c ++ strftime_text zone t format
  | c :: format => c :: strftime_text zone t format
  | [] => []
  end.

(** ** Reading numbers *)

Fixpoint strtol_digits (l : list Z) (v : Z) : Z :=
  match l with
  | c :: l => if (48 <=? c) && (c <=? 57) then strtol_digits l (v * 10 + (c - 48)) else v
  | [] => v
  end.

Fixpoint skip_space (l : list Z) : list Z :=
  match l with
  | c :: l' => if existsb (Z.eqb c) [32; 9; 10; 11; 12; 13] then skip_space l' else l
  | [] => []
  end.

(** [strtol] in base 10 of the text before the first NUL, clamped to [long]. *)
Definition strtol (l : list Z) : Z :=
  let v := match skip_space l with
           | 45 :: l => - strtol_digits l 0
           | 43 :: l => strtol_digits l 0
           | l => strtol_digits l 0
           end in
  Z.max (- 2 ^ 63) (Z.min (2 ^ 63 - 1) v).

(** ** What printing yields *)

(** A digit as a character. *)
Definition digit (v : Z) : Z := 48 + v.

Lemma two_digits_eq n : 0 <= n < 100 -> two_digits n = [digit (n / 10); digit (n mod 10)].
Proof. intros H. by_cases 100%nat n. Qed.

Lemma decimal_year y : 1000 <= y < 10000 ->
  decimal y = [digit (y / 1000); digit (y / 100 mod 10); digit (y / 10 mod 10); digit (y mod 10)].
Proof.
  intros H.
  pose (ok := fun v => implb (1000 <=? v)
    (bool_decide (decimal v = [digit (v / 1000); digit (v / 100 mod 10); digit (v / 10 mod 10); digit (v mod 10)]))).
  assert (ok y = true) as E by (apply (range_cases (Z.to_nat 10000)); [vm_compute; reflexivity | rewrite Z2Nat.id; lia]).
  unfold ok in E. destruct (Z.leb_spec 1000 y); [| lia]. now apply bool_decide_eq_true_1 in E.
Qed.
