(* ===== verification/DateTime.v ===== *)
(** * Dates: definitions

    [source/date_time.c] and [include/aws/common/clock.inl]. A parser is given
    the bytes of the cursor it reads. A date string has at most 100 bytes, but
    nothing bounds a run of digits: the parsers add digits to an [int], and the
    model has no result ([None]) where that overflows. *)

From Stdlib Require Ascii String SpecFloat.
From S2P Require Import Prelude Math Memory ByteBuf Calendar.
Import (notations, coercions) String.
Import ByteBuf.

Local Open Scope Z_scope.

Module DateTime.

(** ** Timestamps *)

Definition AWS_TIMESTAMP_SECS : Z := 1.
Definition AWS_TIMESTAMP_MILLIS : Z := 1000.
Definition AWS_TIMESTAMP_MICROS : Z := 1000000.
Definition AWS_TIMESTAMP_NANOS : Z := 1000000000.

(** [*remainder] *)
Definition convert_remainder (ticks old_frequency new_frequency : Z) : Z :=
  if new_frequency <? old_frequency then
    let frequency_remainder := old_frequency mod new_frequency in
    if frequency_remainder =? 0 then
      let frequency_ratio := old_frequency / new_frequency in
      ticks mod frequency_ratio
    else 0
  else 0.

(** The result and the remainder; [None] where an assertion stops the process. *)
Definition aws_timestamp_convert_u64 (ticks old_frequency new_frequency : Z) : option (Z * Z) :=
  if (0 <? old_frequency) && (0 <? new_frequency) then
    let remainder := convert_remainder ticks old_frequency new_frequency in
    let old_seconds_elapsed := ticks / old_frequency in
    let old_remainder := u64 (ticks - u64 (old_seconds_elapsed * old_frequency)) in
    let new_ticks_whole_part := aws_mul_u64_saturating old_seconds_elapsed new_frequency in
    let new_ticks_remainder_part := aws_mul_u64_saturating old_remainder new_frequency / old_frequency in
    Some (aws_add_u64_saturating new_ticks_whole_part new_ticks_remainder_part, remainder)
  else None.

Definition aws_timestamp_convert := aws_timestamp_convert_u64.

(** ** The parsers *)

Inductive parser_state :=
| ON_WEEKDAY | ON_SPACE_DELIM | ON_YEAR | ON_MONTH | ON_MONTH_DAY | ON_HOUR | ON_MINUTE | ON_SECOND | ON_TZ | FINISHED.

#[export] Instance parser_state_eq_dec : EqDecision parser_state.
Proof. solve_decision. Defined.

Definition is_finished (state : parser_state) : bool := bool_decide (state = FINISHED).

Definition set_year (t : tm) (v : Z) : tm :=
  mk_tm (tm_sec t) (tm_min t) (tm_hour t) (tm_mday t) (tm_mon t) v (tm_wday t) (tm_yday t) (tm_isdst t).
Definition set_mon (t : tm) (v : Z) : tm :=
  mk_tm (tm_sec t) (tm_min t) (tm_hour t) (tm_mday t) v (tm_year t) (tm_wday t) (tm_yday t) (tm_isdst t).
Definition set_mday (t : tm) (v : Z) : tm :=
  mk_tm (tm_sec t) (tm_min t) (tm_hour t) v (tm_mon t) (tm_year t) (tm_wday t) (tm_yday t) (tm_isdst t).
Definition set_hour (t : tm) (v : Z) : tm :=
  mk_tm (tm_sec t) (tm_min t) v (tm_mday t) (tm_mon t) (tm_year t) (tm_wday t) (tm_yday t) (tm_isdst t).
Definition set_min (t : tm) (v : Z) : tm :=
  mk_tm (tm_sec t) v (tm_hour t) (tm_mday t) (tm_mon t) (tm_year t) (tm_wday t) (tm_yday t) (tm_isdst t).
Definition set_sec (t : tm) (v : Z) : tm :=
  mk_tm v (tm_min t) (tm_hour t) (tm_mday t) (tm_mon t) (tm_year t) (tm_wday t) (tm_yday t) (tm_isdst t).

(** ** Doubles

    IEEE 754 binary64 with rounding to nearest even, and what the conversions
    and [math.h] do with it. *)

Definition double : Type := SpecFloat.spec_float.
Definition dbl_mul : double -> double -> double := SpecFloat.SFmul 53 1024.
Definition dbl_div : double -> double -> double := SpecFloat.SFdiv 53 1024.
Definition dbl_add : double -> double -> double := SpecFloat.SFadd 53 1024.

Definition double_of_Z (z : Z) : double := SpecFloat.binary_normalize 53 1024 z 0 false.

Definition signed (s : bool) (z : Z) : Z := if s then - z else z.

(** [modf] of a finite number: the fraction, with the sign of the number, and
    the integral part. *)
Definition modf (x : double) : option (double * Z) :=
  match x with
  | SpecFloat.S754_zero s => Some (x, 0)
  | SpecFloat.S754_finite s m e =>
      if 0 <=? e then Some (SpecFloat.S754_zero s, signed s (Z.pos m * 2 ^ e))
      else Some (SpecFloat.binary_normalize 53 1024 (signed s (Z.pos m mod 2 ^ (- e))) e s, signed s (Z.pos m / 2 ^ (- e)))
  | _ => None
  end.

(** [round] of a finite number: to nearest, ties away from zero. *)
Definition round (x : double) : option Z :=
  match x with
  | SpecFloat.S754_zero _ => Some 0
  | SpecFloat.S754_finite s m e =>
      Some (signed s (if 0 <=? e then Z.pos m * 2 ^ e else (2 * Z.pos m + 2 ^ (- e)) / (2 * 2 ^ (- e))))
  | _ => None
  end.

(** The local variables of a parser but for the index. *)
Record parser := mk_parser {
  state : parser_state;
  state_start_index : Z;
  error : bool;
  parsed_time : tm
}.

(** [field * 10 + (c - '0')] *)
Definition add_digit (v c : Z) : option Z :=
  let r := v * 10 + (c - 48) in
  if in_int r then Some r else None.

(** The digit [c] is added to a field; the state stays. *)
Definition more (p : parser) (get : tm -> Z) (set : tm -> Z -> tm) (c : Z) : option parser :=
  v ← add_digit (get (parsed_time p)) c;
  Some (mk_parser (state p) (state_start_index p) (error p) (set (parsed_time p) v)).

Definition fail (p : parser) : option parser :=
  Some (mk_parser (state p) (state_start_index p) true (parsed_time p)).

Definition go (p : parser) (st : parser_state) (start : Z) (t : tm) : option parser :=
  Some (mk_parser st start (error p) t).

Definition start_parser (st : parser_state) : parser := mk_parser st 0 false zero_tm.

Definition result_of (p : parser) : bool * tm :=
  ((bool_decide (state p = FINISHED) || bool_decide (state p = ON_MONTH_DAY)) && negb (error p), parsed_time p).

(** One turn of the loop of [s_parse_iso_8601_basic]. *)
Definition iso_8601_basic_step (p : parser) (index c : Z) : option parser :=
  let sub_index := index - state_start_index p in
  match state p with
  | ON_YEAR =>
      if aws_isdigit c then
        p ← more p tm_year set_year c;
        if sub_index =? 3 then go p ON_MONTH (index + 1) (set_year (parsed_time p) (tm_year (parsed_time p) - 1900))
        else Some p
      else fail p
  | ON_MONTH =>
      if aws_isdigit c then
        p ← more p tm_mon set_mon c;
        if sub_index =? 1 then go p ON_MONTH_DAY (index + 1) (set_mon (parsed_time p) (tm_mon (parsed_time p) - 1))
        else Some p
      else fail p
  | ON_MONTH_DAY =>
      if (c =? 84) && (sub_index =? 2) then go p ON_HOUR (index + 1) (parsed_time p)
      else if aws_isdigit c then more p tm_mday set_mday c
      else fail p
  | ON_HOUR =>
      if aws_isdigit c then
        p ← more p tm_hour set_hour c;
        if sub_index =? 1 then go p ON_MINUTE (index + 1) (parsed_time p) else Some p
      else fail p
  | ON_MINUTE =>
      if aws_isdigit c then
        p ← more p tm_min set_min c;
        if sub_index =? 1 then go p ON_SECOND (index + 1) (parsed_time p) else Some p
      else fail p
  | ON_SECOND =>
      if aws_isdigit c then
        p ← more p tm_sec set_sec c;
        if sub_index =? 1 then go p ON_TZ (index + 1) (parsed_time p) else Some p
      else fail p
  | ON_TZ =>
      if (c =? 90) && ((sub_index =? 0) || (sub_index =? 3)) then go p FINISHED (state_start_index p) (parsed_time p)
      else if negb (aws_isdigit c) || (3 <? sub_index) then fail p
      else Some p
  | _ => fail p
  end.

(** The loop, on the bytes from [index] on. *)
Fixpoint iso_8601_basic_loop (p : parser) (index : Z) (rest : list Z) : option parser :=
  match rest with
  | [] => Some p
  | c :: rest =>
      if is_finished (state p) || error p then Some p
      else p ← iso_8601_basic_step p index c; iso_8601_basic_loop p (index + 1) rest
  end.

(** Success and [*parsed_time]. *)
Definition s_parse_iso_8601_basic (date_str : list Z) : option (bool * tm) :=
  result_of <$> iso_8601_basic_loop (start_parser ON_YEAR) 0 date_str.

(** One turn of the loop of [s_parse_iso_8601], and [advance]. *)
Definition iso_8601_step (p : parser) (index c : Z) : option (parser * bool) :=
  let sub_index := index - state_start_index p in
  let adv (r : option parser) := p ← r; Some (p, true) in
  (* the end of the hour or of the minute *)
  let next_part st :=
    if aws_isdigit c then Some (mk_parser st index (error p) (parsed_time p), false)
    else Some (mk_parser st (index + 1) (error p || negb (c =? 58)) (parsed_time p), true) in
  match state p with
  | ON_YEAR =>
      adv (if (c =? 45) && (sub_index =? 4) then go p ON_MONTH (index + 1) (set_year (parsed_time p) (tm_year (parsed_time p) - 1900))
           else if aws_isdigit c then more p tm_year set_year c else fail p)
  | ON_MONTH =>
      adv (if (c =? 45) && (sub_index =? 2) then go p ON_MONTH_DAY (index + 1) (set_mon (parsed_time p) (tm_mon (parsed_time p) - 1))
           else if aws_isdigit c then more p tm_mon set_mon c else fail p)
  | ON_MONTH_DAY =>
      adv (if (c =? 84) && (sub_index =? 2) then go p ON_HOUR (index + 1) (parsed_time p)
           else if aws_isdigit c then more p tm_mday set_mday c else fail p)
  | ON_HOUR =>
      if sub_index =? 2 then next_part ON_MINUTE
      else adv (if aws_isdigit c then more p tm_hour set_hour c else fail p)
  | ON_MINUTE =>
      if sub_index =? 2 then next_part ON_SECOND
      else adv (if aws_isdigit c then more p tm_min set_min c else fail p)
  | ON_SECOND =>
      adv (if (c =? 90) && (sub_index =? 2) then go p FINISHED (index + 1) (parsed_time p)
           else if (c =? 46) && (sub_index =? 2) then go p ON_TZ (index + 1) (parsed_time p)
           else if aws_isdigit c then more p tm_sec set_sec c else fail p)
  | ON_TZ =>
      adv (if c =? 90 then go p FINISHED (index + 1) (parsed_time p)
           else if negb (aws_isdigit c) then fail p else Some p)
  | _ => adv (fail p)
  end.

(** A character may be looked at twice. *)
Fixpoint iso_8601_loop (fuel : nat) (p : parser) (index : Z) (rest : list Z) : option parser :=
  match fuel with
  | O => None
  | S fuel =>
      match rest with
      | [] => Some p
      | c :: rest' =>
          if is_finished (state p) || error p then Some p
          else
            r ← iso_8601_step p index c;
            let '(p, advance) := r in
            if (advance : bool) then iso_8601_loop fuel p (index + 1) rest' else iso_8601_loop fuel p index rest
      end
  end.

Definition s_parse_iso_8601 (date_str : list Z) : option (bool * tm) :=
  result_of <$> iso_8601_loop (2 * length date_str + 1) (start_parser ON_YEAR) 0 date_str.

(** Three characters, in lower case, as one number. *)
Definition STR_TRIPLET_TO_INDEX (a b c : Z) : Z :=
  Z.lor (Z.lor (Z.shiftl (ascii_lower a) 0) (Z.shiftl (ascii_lower b) 8)) (Z.shiftl (ascii_lower c) 16).

Definition triplet_of (l : list Z) : Z :=
  match l with a :: b :: c :: _ => STR_TRIPLET_TO_INDEX a b c | _ => 0 end.

(** The month with the number [comp_val]: the first that matches. *)
Definition month_triplets : list Z :=
  map triplet_of [text "jan"; text "feb"; text "mar"; text "apr"; text "may"; text "jun";
                  text "jul"; text "aug"; text "sep"; text "oct"; text "nov"; text "dec"].

Fixpoint find_triplet (comp_val i : Z) (l : list Z) : Z :=
  match l with
  | [] => -1
  | x :: l => if x =? comp_val then i else find_triplet comp_val (i + 1) l
  end.

Definition get_month_number_from_str (time_string : list Z) (start_index stop_index : Z) : Z :=
  if stop_index - start_index <? 3 then -1
  else find_triplet (triplet_of (drop (Z.to_nat start_index) time_string)) 0 month_triplets.

(** The text of [tz] up to its terminator. *)
Definition c_text (l : list Z) : list Z := take (Z.to_nat (default (zlength l) (index_of 0 l))) l.

Definition char_at (l : list Z) (i : nat) : Z := default 0 (l !! i).

Definition is_utc_time_zone (str : list Z) : bool :=
  let str := c_text str in
  let len := zlength str in
  if 0 <? len then
    if char_at str 0 =? 90 then true
    else if (len =? 5) && ((char_at str 0 =? 43) || (char_at str 0 =? 45)) then true
    else if len =? 2 then (ascii_lower (char_at str 0) =? 117) && (ascii_lower (char_at str 1) =? 116)
    else if len <? 3 then false
    else (triplet_of str =? triplet_of (text "utc")) || (triplet_of str =? triplet_of (text "gmt"))
  else false.

(** One turn of the loop of [s_parse_rfc_822], which also writes [dt->tz]. *)
Definition rfc_822_step (date_str : list Z) (p : parser) (tz : list Z) (index c : Z) : option (parser * list Z) :=
  let sub_index := index - state_start_index p in
  let keep (r : option parser) := p ← r; Some (p, tz) in
  match state p with
  | ON_WEEKDAY =>
      keep (if c =? 44 then go p ON_SPACE_DELIM (index + 1) (parsed_time p)
            else if aws_isdigit c then go p ON_MONTH_DAY (state_start_index p) (parsed_time p)
            else if negb (aws_isalpha c) then fail p else Some p)
  | ON_SPACE_DELIM =>
      keep (if aws_isspace c then go p ON_MONTH_DAY (index + 1) (parsed_time p) else fail p)
  | ON_MONTH_DAY =>
      keep (if aws_isdigit c then more p tm_mday set_mday c
            else if aws_isspace c then go p ON_MONTH (index + 1) (parsed_time p)
            else fail p)
  | ON_MONTH =>
      keep (if aws_isspace c then
              let monthNumber := get_month_number_from_str date_str (state_start_index p) (index + 1) in
              if -1 <? monthNumber then go p ON_YEAR (index + 1) (set_mon (parsed_time p) monthNumber)
              else fail p
            else if negb (aws_isalpha c) then fail p else Some p)
  | ON_YEAR =>
      keep (if aws_isspace c && (sub_index =? 4)
            then go p ON_HOUR (index + 1) (set_year (parsed_time p) (tm_year (parsed_time p) - 1900))
            else if aws_isspace c && (sub_index =? 2)
            then go p ON_HOUR (index + 1) (set_year (parsed_time p) (tm_year (parsed_time p) + (2000 - 1900)))
            else if aws_isdigit c then more p tm_year set_year c else fail p)
  | ON_HOUR =>
      keep (if (c =? 58) && (sub_index =? 2) then go p ON_MINUTE (index + 1) (parsed_time p)
            else if aws_isdigit c then more p tm_hour set_hour c else fail p)
  | ON_MINUTE =>
      keep (if (c =? 58) && (sub_index =? 2) then go p ON_SECOND (index + 1) (parsed_time p)
            else if aws_isdigit c then more p tm_min set_min c else fail p)
  | ON_SECOND =>
      keep (if aws_isspace c && (sub_index =? 2) then go p ON_TZ (index + 1) (parsed_time p)
            else if aws_isdigit c then more p tm_sec set_sec c else fail p)
  | ON_TZ =>
      if (aws_isalnum c || (c =? 45) || (c =? 43)) && (sub_index <? 5)
      then Some (p, <[Z.to_nat sub_index := c]> tz)
      else keep (fail p)
  | FINISHED => keep (fail p)
  end.

Fixpoint rfc_822_loop (date_str : list Z) (p : parser) (tz : list Z) (index : Z) (rest : list Z) : option (parser * list Z) :=
  match rest with
  | [] => Some (p, tz)
  | c :: rest =>
      if error p then Some (p, tz)
      else
        r ← rfc_822_step date_str p tz index c;
        rfc_822_loop date_str r.1 r.2 (index + 1) rest
  end.

(** Success, [*parsed_time], and the fields [tz] and [utc_assumed] of [*dt]. *)
Definition s_parse_rfc_822 (date_str : list Z) (dt_tz : list Z) (dt_utc_assumed : bool) : option (bool * tm * list Z * bool) :=
  r ← rfc_822_loop date_str (start_parser ON_WEEKDAY) dt_tz 0 date_str;
  let '(p, tz) := r in
  let utc := is_utc_time_zone tz in
  let '(error, utc_assumed) :=
    if negb (char_at tz 0 =? 0) then (error p || negb utc, dt_utc_assumed || utc) else (error p, dt_utc_assumed) in
  Some (negb (error || negb (bool_decide (state p = ON_TZ))), parsed_time p, tz, utc_assumed).

(** ** Dates *)

Inductive aws_date_format :=
| AWS_DATE_FORMAT_RFC822
| AWS_DATE_FORMAT_ISO_8601
| AWS_DATE_FORMAT_ISO_8601_BASIC
| AWS_DATE_FORMAT_AUTO_DETECT.

#[export] Instance aws_date_format_eq_dec : EqDecision aws_date_format.
Proof. solve_decision. Defined.

Definition AWS_DATE_TIME_STR_MAX_LEN : Z := 100.

Record aws_date_time := mk_date_time {
  timestamp : Z;
  milliseconds : Z;
  tz : list Z;
  gmt_time : tm;
  local_time : tm;
  utc_assumed : bool
}.

Definition zero_date_time : aws_date_time := mk_date_time 0 0 (replicate 6 0) zero_tm zero_tm false.

Section platform.
(** The local time zone: [localtime_r], [mktime], the zone's name, and what
    [strftime] leaves in a buffer that is too small. *)
Context (aws_localtime : Z -> tm) (mktime : tm -> Z) (zone : list Z) (leftover : Z -> list Z).

Definition s_get_time_struct (dt_timestamp : Z) (local_time : bool) : tm :=
  if local_time then aws_localtime dt_timestamp else aws_gmtime dt_timestamp.

(** The fields that depend on the timestamp. *)
Definition with_timestamp (dt : aws_date_time) (t ms : Z) : aws_date_time :=
  mk_date_time t ms (tz dt) (s_get_time_struct t false) (s_get_time_struct t true) (utc_assumed dt).

Definition aws_date_time_init_epoch_millis (dt : aws_date_time) (ms_since_epoch : Z) : option aws_date_time :=
  r ← aws_timestamp_convert ms_since_epoch AWS_TIMESTAMP_MILLIS AWS_TIMESTAMP_SECS;
  Some (with_timestamp dt r.1 (r.2 mod 2 ^ 16)).

(** [current_time_ns] is what [aws_sys_clock_get_ticks] wrote. *)
Definition aws_date_time_init_now (dt : aws_date_time) (current_time_ns : Z) : option aws_date_time :=
  r ← aws_timestamp_convert current_time_ns AWS_TIMESTAMP_NANOS AWS_TIMESTAMP_MILLIS;
  aws_date_time_init_epoch_millis dt r.1.

(** [None] where a conversion to an integer type has no defined value: a
    fraction of a negative number, or a number that does not fit. *)
Definition aws_date_time_init_epoch_secs (dt : aws_date_time) (sec_ms : double) : option aws_date_time :=
  r ← modf sec_ms;
  let '(fraction, integral) := r in
  ms ← round (dbl_mul fraction (double_of_Z AWS_TIMESTAMP_MILLIS));
  if (0 <=? ms) && (ms <? 2 ^ 16) && (- 2 ^ 63 <=? integral) && (integral <? 2 ^ 63)
  then Some (with_timestamp dt integral ms)
  else None.

(** The offset [+HHMM] or [-HHMM] in seconds. *)
Definition tz_offset (tz : list Z) : Z :=
  if (char_at tz 0 =? 43) || (char_at tz 0 =? 45) then
    let hour := strtol [char_at tz 1; char_at tz 2] in
    let min := strtol [char_at tz 3; char_at tz 4] in
    let seconds_offset := hour * 3600 + min * 60 in
    if char_at tz 0 =? 45 then - seconds_offset else seconds_offset
  else 0.

Definition is_fmt (fmt f : aws_date_format) : bool := bool_decide (fmt = f).

(** The three parsers in turn. *)
Definition parse_date (date_str : list Z) (fmt : aws_date_format) : option (bool * tm * list Z * bool * Z) :=
  let auto := is_fmt fmt AWS_DATE_FORMAT_AUTO_DETECT in
  r1 ← (if is_fmt fmt AWS_DATE_FORMAT_ISO_8601 || auto then s_parse_iso_8601 date_str else Some (false, zero_tm));
  r2 ← (if is_fmt fmt AWS_DATE_FORMAT_ISO_8601_BASIC || (auto && negb r1.1) then s_parse_iso_8601_basic date_str else Some r1);
  if is_fmt fmt AWS_DATE_FORMAT_RFC822 || (auto && negb r2.1) then
    r3 ← s_parse_rfc_822 date_str (replicate 6 0) false;
    let '(ok, t, dt_tz, utc) := r3 in
    Some (ok, t, dt_tz, utc, if ok && utc then tz_offset dt_tz else 0)
  else Some (r2.1, r2.2, replicate 6 0, r2.1, 0).

(** The outer [None] is an overflow in a parser. On failure [*dt] is zeroed,
    but for what the parser of RFC 822 wrote; it is not returned. *)
Definition init_from_bytes (date_str : list Z) (fmt : aws_date_format) : option (result aws_date_time) :=
  r ← parse_date date_str fmt;
  let '(successfully_parsed, parsed_time, dt_tz, utc, seconds_offset) := r in
  if negb successfully_parsed then Some (Err AWS_ERROR_INVALID_DATE_STR)
  else
    let t := if utc || negb (seconds_offset =? 0) then aws_timegm parsed_time else mktime parsed_time in
    Some (Ok (with_timestamp (mk_date_time 0 0 dt_tz zero_tm zero_tm utc) (t - seconds_offset) 0)).

Definition aws_date_time_init_from_str_cursor (date_str_cursor : aws_byte_cursor) (fmt : aws_date_format)
    : M (result aws_date_time) :=
  if negb (cur_len date_str_cursor <=? AWS_DATE_TIME_STR_MAX_LEN) then mret (Err AWS_ERROR_OVERFLOW_DETECTED)
  else
    bytes ← load (cur_ptr date_str_cursor) (cur_len date_str_cursor);
    match init_from_bytes bytes fmt with
    | Some r => mret r
    | None => fault
    end.

Definition aws_date_time_init_from_str (date_str : aws_byte_buf) (fmt : aws_date_format) : M (result aws_date_time) :=
  if negb (buf_len date_str <=? AWS_DATE_TIME_STR_MAX_LEN) then mret (Err AWS_ERROR_OVERFLOW_DETECTED)
  else aws_date_time_init_from_str_cursor (aws_byte_cursor_from_buf date_str) fmt.

(** ** Printing *)

Definition RFC822_DATE_FORMAT_STR_MINUS_Z : list Z := text "%a, %d %b %Y %H:%M:%S GMT".
Definition RFC822_DATE_FORMAT_STR_WITH_Z : list Z := text "%a, %d %b %Y %H:%M:%S %Z".
Definition RFC822_SHORT_DATE_FORMAT_STR : list Z := text "%a, %d %b %Y".
Definition ISO_8601_LONG_DATE_FORMAT_STR : list Z := text "%Y-%m-%dT%H:%M:%SZ".
Definition ISO_8601_SHORT_DATE_FORMAT_STR : list Z := text "%Y-%m-%d".
Definition ISO_8601_LONG_BASIC_DATE_FORMAT_STR : list Z := text "%Y%m%dT%H%M%SZ".
Definition ISO_8601_SHORT_BASIC_DATE_FORMAT_STR : list Z := text "%Y%m%d".

(** The text and a terminator, or 0 when they do not fit. *)
Definition strftime (s : ptr) (maxsize : Z) (format : list Z) (t : tm) : M Z :=
  let txt := strftime_text zone t format in
  if zlength txt + 1 <=? maxsize then _ ← store s (txt ++ [0]); mret (zlength txt)
  else _ ← store s (take (Z.to_nat maxsize) (leftover maxsize)); mret 0.

Definition s_date_to_str (t : tm) (format_str : list Z) (output_buf : aws_byte_buf) : M (op_result * aws_byte_buf) :=
  let remaining_space := u64 (buf_capacity output_buf - buf_len output_buf) in
  bytes_written ← strftime (ptr_add (buf_buffer output_buf) (buf_len output_buf)) remaining_space format_str t;
  if bytes_written =? 0 then mret (AWS_OP_ERR AWS_ERROR_SHORT_BUFFER, output_buf)
  else mret (AWS_OP_SUCCESS, set_len output_buf (u64 (buf_len output_buf + bytes_written))).

Definition aws_date_time_to_local_time_str (dt : aws_date_time) (fmt : aws_date_format) (output_buf : aws_byte_buf)
    : M (op_result * aws_byte_buf) :=
  match fmt with
  | AWS_DATE_FORMAT_RFC822 => s_date_to_str (local_time dt) RFC822_DATE_FORMAT_STR_WITH_Z output_buf
  | AWS_DATE_FORMAT_ISO_8601 => s_date_to_str (local_time dt) ISO_8601_LONG_DATE_FORMAT_STR output_buf
  | AWS_DATE_FORMAT_ISO_8601_BASIC => s_date_to_str (local_time dt) ISO_8601_LONG_BASIC_DATE_FORMAT_STR output_buf
  | _ => mret (AWS_OP_ERR AWS_ERROR_INVALID_ARGUMENT, output_buf)
  end.

Definition aws_date_time_to_utc_time_str (dt : aws_date_time) (fmt : aws_date_format) (output_buf : aws_byte_buf)
    : M (op_result * aws_byte_buf) :=
  match fmt with
  | AWS_DATE_FORMAT_RFC822 => s_date_to_str (gmt_time dt) RFC822_DATE_FORMAT_STR_MINUS_Z output_buf
  | AWS_DATE_FORMAT_ISO_8601 => s_date_to_str (gmt_time dt) ISO_8601_LONG_DATE_FORMAT_STR output_buf
  | AWS_DATE_FORMAT_ISO_8601_BASIC => s_date_to_str (gmt_time dt) ISO_8601_LONG_BASIC_DATE_FORMAT_STR output_buf
  | _ => mret (AWS_OP_ERR AWS_ERROR_INVALID_ARGUMENT, output_buf)
  end.

Definition aws_date_time_to_local_time_short_str (dt : aws_date_time) (fmt : aws_date_format) (output_buf : aws_byte_buf)
    : M (op_result * aws_byte_buf) :=
  match fmt with
  | AWS_DATE_FORMAT_RFC822 => s_date_to_str (local_time dt) RFC822_SHORT_DATE_FORMAT_STR output_buf
  | AWS_DATE_FORMAT_ISO_8601 => s_date_to_str (local_time dt) ISO_8601_SHORT_DATE_FORMAT_STR output_buf
  | AWS_DATE_FORMAT_ISO_8601_BASIC => s_date_to_str (local_time dt) ISO_8601_SHORT_BASIC_DATE_FORMAT_STR output_buf
  | _ => mret (AWS_OP_ERR AWS_ERROR_INVALID_ARGUMENT, output_buf)
  end.

Definition aws_date_time_to_utc_time_short_str (dt : aws_date_time) (fmt : aws_date_format) (output_buf : aws_byte_buf)
    : M (op_result * aws_byte_buf) :=
  match fmt with
  | AWS_DATE_FORMAT_RFC822 => s_date_to_str (gmt_time dt) RFC822_SHORT_DATE_FORMAT_STR output_buf
  | AWS_DATE_FORMAT_ISO_8601 => s_date_to_str (gmt_time dt) ISO_8601_SHORT_DATE_FORMAT_STR output_buf
  | AWS_DATE_FORMAT_ISO_8601_BASIC => s_date_to_str (gmt_time dt) ISO_8601_SHORT_BASIC_DATE_FORMAT_STR output_buf
  | _ => mret (AWS_OP_ERR AWS_ERROR_INVALID_ARGUMENT, output_buf)
  end.
End platform.

(** ** Reading a date *)

Definition aws_date_time_as_epoch_secs (dt : aws_date_time) : double :=
  dbl_add (double_of_Z (timestamp dt)) (dbl_div (double_of_Z (milliseconds dt)) (double_of_Z 1000)).

Definition aws_date_time_as_nanos (dt : aws_date_time) : option Z :=
  s ← aws_timestamp_convert (u64 (timestamp dt)) AWS_TIMESTAMP_SECS AWS_TIMESTAMP_NANOS;
  ms ← aws_timestamp_convert (milliseconds dt) AWS_TIMESTAMP_MILLIS AWS_TIMESTAMP_NANOS;
  Some (u64 (s.1 + ms.1)).

Definition aws_date_time_as_millis (dt : aws_date_time) : option Z :=
  s ← aws_timestamp_convert (u64 (timestamp dt)) AWS_TIMESTAMP_SECS AWS_TIMESTAMP_MILLIS;
  Some (u64 (s.1 + milliseconds dt)).

Definition time_of (dt : aws_date_time) (local : bool) : tm := if local then local_time dt else gmt_time dt.

Definition aws_date_time_year (dt : aws_date_time) (local : bool) : Z := (tm_year (time_of dt local) + 1900) mod 2 ^ 16.
Definition aws_date_time_month (dt : aws_date_time) (local : bool) : Z := tm_mon (time_of dt local).
Definition aws_date_time_month_day (dt : aws_date_time) (local : bool) : Z := u8 (tm_mday (time_of dt local)).
Definition aws_date_time_day_of_week (dt : aws_date_time) (local : bool) : Z := tm_wday (time_of dt local).
Definition aws_date_time_hour (dt : aws_date_time) (local : bool) : Z := u8 (tm_hour (time_of dt local)).
Definition aws_date_time_minute (dt : aws_date_time) (local : bool) : Z := u8 (tm_min (time_of dt local)).
Definition aws_date_time_second (dt : aws_date_time) (local : bool) : Z := u8 (tm_sec (time_of dt local)).
Definition aws_date_time_dst (dt : aws_date_time) (local : bool) : bool := negb (tm_isdst (time_of dt local) =? 0).
Definition aws_date_time_diff (a b : aws_date_time) : Z := timestamp a - timestamp b.

End DateTime.
