(* ===== verification/DateTimeParse.v ===== *)
(** * Dates: the parsers of ISO 8601, extended and basic

    Which texts the two parsers accept, and with which result. *)

From S2P Require Import Prelude Math Memory ByteBuf Calendar DateTime.
Import ByteBuf DateTime.

Local Open Scope Z_scope.

(** ** Numbers *)

Definition digits (l : list Z) : Prop := Forall (fun c => aws_isdigit c = true) l.

(** The value of a text of digits that is read after the value [v]. *)
Definition number_from (v : Z) (l : list Z) : Z := fold_left (fun v c => v * 10 + (c - 48)) l v.
Definition number (l : list Z) : Z := number_from 0 l.

Lemma isdigit_range c : aws_isdigit c = true <-> 48 <= c <= 57.
Proof. unfold aws_isdigit, between. lia. Qed.

Lemma number_from_bounds l : forall v, digits l -> 0 <= v ->
  v <= number_from v l < (v + 1) * 10 ^ zlength l.
Proof.
  induction l as [| c l IH]; intros v Hl Hv; [change (number_from v []) with v; change (zlength []) with 0; lia |].
  inversion Hl as [| ? ? Hc Hl']; subst. apply isdigit_range in Hc. change (number_from v (c :: l)) with (number_from (v * 10 + (c - 48)) l).
  specialize (IH (v * 10 + (c - 48)) Hl' ltac:(lia)). rewrite zlength_cons, Z.pow_add_r, Z.pow_1_r by (try lia; apply zlength_nonneg).
  assert (0 < 10 ^ zlength l) by (apply Z.pow_pos_nonneg; [lia | apply zlength_nonneg]). nia.
Qed.

Lemma number_bounds l n : digits l -> zlength l = n -> 0 <= number l < 10 ^ n.
Proof. intros Hl <-. pose proof (number_from_bounds l 0 Hl). unfold number. lia. Qed.

(** The digits at the front of a text. *)
Lemma digits_split l : exists ds tail, l = ds ++ tail /\ digits ds
  /\ match tail with [] => True | c :: _ => aws_isdigit c = false end.
Proof.
  induction l as [| c l IH]; [exists [], []; repeat split; constructor |].
  destruct (aws_isdigit c) eqn:E.
  - destruct IH as (ds & tail & -> & H1 & H2). exists (c :: ds), tail. repeat split; auto. now constructor.
  - exists [], (c :: l). repeat split; auto. constructor.
Qed.

Lemma digits_split_unique ds1 : forall ds2 t1 t2, ds1 ++ t1 = ds2 ++ t2 -> digits ds1 -> digits ds2 ->
  match t1 with [] => True | c :: _ => aws_isdigit c = false end ->
  match t2 with [] => True | c :: _ => aws_isdigit c = false end -> ds1 = ds2 /\ t1 = t2.
Proof.
  induction ds1 as [| a ds1 IH]; intros [| b ds2] t1 t2 E H1 H2 N1 N2; cbn in E; subst; auto.
  - inversion H2; congruence.
  - inversion H1; congruence.
  - injection E as -> E. inversion H1; subst. inversion H2; subst. now destruct (IH ds2 t1 t2 E) as [-> ->].
Qed.

(** ** Fields *)

(** A field of the broken-down time. *)
Record field := mk_field { get : tm -> Z; set : tm -> Z -> tm }.

Class FieldOk (f : field) : Prop := {
  get_set : forall t v, get f (set f t v) = v;
  set_set : forall t v w, set f (set f t v) w = set f t w;
  set_get : forall t, set f t (get f t) = t
}.

Definition f_year := mk_field tm_year set_year.
Definition f_mon := mk_field tm_mon set_mon.
Definition f_mday := mk_field tm_mday set_mday.
Definition f_hour := mk_field tm_hour set_hour.
Definition f_min := mk_field tm_min set_min.
Definition f_sec := mk_field tm_sec set_sec.

Ltac solve_field := split; intros [] *; reflexivity.

#[export] Instance f_year_ok : FieldOk f_year. Proof. solve_field. Qed.
#[export] Instance f_mon_ok : FieldOk f_mon. Proof. solve_field. Qed.
#[export] Instance f_mday_ok : FieldOk f_mday. Proof. solve_field. Qed.
#[export] Instance f_hour_ok : FieldOk f_hour. Proof. solve_field. Qed.
#[export] Instance f_min_ok : FieldOk f_min. Proof. solve_field. Qed.
#[export] Instance f_sec_ok : FieldOk f_sec. Proof. solve_field. Qed.

(** A parser without an error. *)
Definition at_state (st : parser_state) (start : Z) (t : tm) : parser := mk_parser st start false t.

Lemma in_int_spec x : in_int x = true <-> - 2 ^ 31 <= x < 2 ^ 31.
Proof. unfold in_int. lia. Qed.

Lemma more_at f `{FieldOk f} st start t c :
  more (at_state st start t) (get f) (set f) c
  = if in_int (get f t * 10 + (c - 48)) then Some (at_state st start (set f t (get f t * 10 + (c - 48)))) else None.
Proof. unfold more, add_digit. cbn. now destruct (in_int _). Qed.

(** A machine that adds the digits to a field while they come. *)
Lemma run_digits f `{FieldOk f} (R : tm -> Z -> list Z -> Prop) :
  (forall t index c rest, aws_isdigit c = true ->
     R t index (c :: rest) <-> in_int (get f t * 10 + (c - 48)) = true /\ R (set f t (get f t * 10 + (c - 48))) (index + 1) rest) ->
  forall ds t index rest, digits ds -> 0 <= get f t -> in_int (get f t) = true ->
    R t index (ds ++ rest) <-> in_int (number_from (get f t) ds) = true
                               /\ R (set f t (number_from (get f t) ds)) (index + zlength ds) rest.
Proof.
  intros Hstep. induction ds as [| c ds IH]; intros t index rest Hd Hv Hi.
  - change (number_from (get f t) []) with (get f t). rewrite set_get, zlength_nil, Z.add_0_r. cbn. tauto.
  - inversion Hd as [| ? ? Hc Hd']; subst. cbn [app]. rewrite Hstep by exact Hc. pose proof (proj1 (isdigit_range c) Hc) as Hr.
    change (number_from (get f t) (c :: ds)) with (number_from (get f t * 10 + (c - 48)) ds).
    set (w := get f t * 10 + (c - 48)). assert (0 <= w) as Hw by (unfold w; lia).
    pose proof (number_from_bounds ds w Hd' Hw) as Hb. rewrite in_int_spec in *.
    specialize (IH (set f t w) (index + 1) rest Hd'). rewrite get_set, set_set, in_int_spec in IH.
    rewrite zlength_cons, Z.add_assoc, (Z.add_comm (index + 1)) in *. replace (index + (1 + zlength ds)) with (zlength ds + (index + 1)) by ring.
    split; intros [H1 H2].
    + apply IH; [lia | lia | exact H2].
    + pose proof (proj1 (in_int_spec _) H1). split; [lia |]. apply IH; [lia | lia |]. now split.
Qed.

(** What follows the digits of a text. *)
Definition no_digit (l : list Z) : Prop := match l with [] => True | c :: _ => aws_isdigit c = false end.

(** A field, and what the machine does after it. *)
Lemma run_field f `{FieldOk f} (R : tm -> Z -> list Z -> Prop) (K : tm -> Z -> list Z -> Prop) start :
  (forall t index c rest, aws_isdigit c = true ->
     R t index (c :: rest) <-> in_int (get f t * 10 + (c - 48)) = true /\ R (set f t (get f t * 10 + (c - 48))) (index + 1) rest) ->
  (forall t n rest, no_digit rest -> R t (start + n) rest <-> K t n rest) ->
  (forall t n rest, K t n rest -> no_digit rest) ->
  forall t rest, get f t = 0 ->
    R t start rest <-> exists ds tail, digits ds /\ in_int (number ds) = true /\ rest = ds ++ tail
                                       /\ K (set f t (number ds)) (zlength ds) tail.
Proof.
  intros Hstep Hend HK t rest E0. destruct (digits_split rest) as (ds & tail & -> & Hd & Hn).
  rewrite (run_digits f R Hstep ds t start tail Hd) by (rewrite E0; easy). rewrite E0, (Hend _ _ _ Hn). split.
  - intros [Hi Hk]. now exists ds, tail.
  - intros (ds' & tail' & Hd' & Hi & E & Hk). destruct (digits_split_unique _ _ _ _ E Hd Hd' Hn (HK _ _ _ Hk)) as [-> ->]. now split.
Qed.

(** ** The extended format *)

(** Runs of the loop. *)
Inductive iso_runs : parser -> Z -> list Z -> parser -> Prop :=
| iso_end p index : iso_runs p index [] p
| iso_stop p index c rest : is_finished (state p) || error p = true -> iso_runs p index (c :: rest) p
| iso_adv p index c rest p1 p2 : is_finished (state p) || error p = false ->
    iso_8601_step p index c = Some (p1, true) -> iso_runs p1 (index + 1) rest p2 -> iso_runs p index (c :: rest) p2
| iso_stay p index c rest p1 p2 : is_finished (state p) || error p = false ->
    iso_8601_step p index c = Some (p1, false) -> iso_runs p1 index (c :: rest) p2 -> iso_runs p index (c :: rest) p2.

Lemma iso_loop_runs fuel : forall p index rest p', iso_8601_loop fuel p index rest = Some p' -> iso_runs p index rest p'.
Proof.
  induction fuel as [| fuel IH]; intros p index rest p' E; [discriminate |]. cbn [iso_8601_loop] in E.
  destruct rest as [| c rest]; [injection E as <-; constructor |].
  destruct (is_finished (state p) || error p) eqn:Es; [injection E as <-; now constructor |].
  destruct (iso_8601_step p index c) as [[p1 []] |] eqn:Ep; [| | discriminate]; cbn in E.
  - eapply iso_adv; eauto.
  - eapply iso_stay; eauto.
Qed.

(** A turn that stays is the end of an hour or a minute. *)
Lemma iso_step_stays p index c p1 : iso_8601_step p index c = Some (p1, false) ->
  index - state_start_index p = 2 /\ state_start_index p1 = index.
Proof.
  unfold iso_8601_step. destruct (state p);
    try (intros E; destruct (mbind _ _) as [[? ?] |] in E; discriminate);
    try (match goal with |- (?r ≫= _) = _ -> _ => destruct r; discriminate end);
    destruct (Z.eqb_spec (index - state_start_index p) 2) as [E2 | _];
    try (destruct (aws_isdigit c); [intros [= <-]; cbn; auto | discriminate]);
    match goal with |- (?r ≫= _) = _ -> _ => destruct r; discriminate end.
Qed.

Lemma iso_runs_loop p index rest p' : iso_runs p index rest p' -> forall fuel,
  (2 * length rest + 1 + (if (index - state_start_index p =? 2)%Z then 1 else 0) <= fuel)%nat ->
  iso_8601_loop fuel p index rest = Some p'.
Proof.
  induction 1 as [p index | p index c rest Es | p index c rest p1 p2 Es Ep _ IH | p index c rest p1 p2 Es Ep _ IH];
    intros [| fuel] Hf; try (destruct (index - _ =? 2); lia); cbn [iso_8601_loop].
  - reflexivity.
  - now rewrite Es.
  - rewrite Es, Ep. cbn. apply IH. cbn [length] in Hf. destruct (index - _ =? 2), (index + 1 - _ =? 2); lia.
  - rewrite Es, Ep. cbn. apply IH. destruct (iso_step_stays _ _ _ _ Ep) as [E2 E3]. rewrite E2 in Hf. rewrite E3, Z.sub_diag. cbn in Hf |- *. lia.
Qed.

Definition iso_accepts (p : parser) (index : Z) (rest : list Z) (t : tm) : Prop :=
  exists p', iso_runs p index rest p' /\ result_of p' = (true, t).

Lemma iso_parse_accepts l t : s_parse_iso_8601 l = Some (true, t) <-> iso_accepts (start_parser ON_YEAR) 0 l t.
Proof.
  unfold s_parse_iso_8601, iso_accepts. split.
  - destruct (iso_8601_loop _ _ _ _) as [p |] eqn:E; [| discriminate]. intros Hr. exists p.
    split; [exact (iso_loop_runs _ _ _ _ _ E) | now apply (inj Some)].
  - intros (p & Hr & Hres). rewrite (iso_runs_loop _ _ _ _ Hr); [cbn [fmap option_fmap option_map]; now rewrite Hres | change (0 - _ =? 2) with false; cbv iota; lia].
Qed.

Lemma iso_accepts_nil p index t : iso_accepts p index [] t <-> result_of p = (true, t).
Proof. split; [intros (p' & Hr & E); inversion Hr; subst; exact E | intros E; exists p; split; [constructor | exact E]]. Qed.

Lemma iso_accepts_cons p index c rest t : iso_accepts p index (c :: rest) t <->
  if is_finished (state p) || error p then result_of p = (true, t)
  else match iso_8601_step p index c with
       | Some (p1, true) => iso_accepts p1 (index + 1) rest t
       | Some (p1, false) => iso_accepts p1 index (c :: rest) t
       | None => False
       end.
Proof.
  split.
  - intros (p' & Hr & E). inversion Hr as [| ? ? ? ? Es | ? ? ? ? p1 ? Es Ep Hr' | ? ? ? ? p1 ? Es Ep Hr']; subst; rewrite Es.
    + exact E.
    + rewrite Ep. now exists p'.
    + rewrite Ep. now exists p'.
  - destruct (_ || _) eqn:Es; [intros E; exists p; split; [now constructor | exact E] |].
    destruct (iso_8601_step p index c) as [[p1 []] |] eqn:Ep; [| | contradiction]; intros (p' & Hr & E); exists p'; split; auto.
    + eapply iso_adv; eauto.
    + eapply iso_stay; eauto.
Qed.

(** A parser with an error accepts nothing. *)
Lemma iso_accepts_error st start t index rest r : iso_accepts (mk_parser st start true t) index rest r <-> False.
Proof.
  destruct rest; [rewrite iso_accepts_nil | rewrite iso_accepts_cons; cbn [state error]; rewrite orb_true_r];
    unfold result_of; cbn [state error]; rewrite andb_false_r; split; congruence || tauto.
Qed.

Lemma iso_accepts_finished start t index rest r : iso_accepts (at_state FINISHED start t) index rest r <-> r = t.
Proof.
  destruct rest; [rewrite iso_accepts_nil | rewrite iso_accepts_cons; change (is_finished _ || _) with true; cbv iota];
    change (result_of (at_state FINISHED start t)) with (true, t); split; congruence.
Qed.

Lemma iso_accepts_step st start t index c rest r : st <> FINISHED ->
  iso_accepts (at_state st start t) index (c :: rest) r <->
  match iso_8601_step (at_state st start t) index c with
  | Some (p1, true) => iso_accepts p1 (index + 1) rest r
  | Some (p1, false) => iso_accepts p1 index (c :: rest) r
  | None => False
  end.
Proof. intros Hs. rewrite iso_accepts_cons. unfold is_finished. cbn [state at_state error]. now rewrite bool_decide_eq_false_2 by exact Hs. Qed.

(** A state adds the digits that it reads to the field [f]. *)
Definition collects (st : parser_state) (f : field) : Prop := forall start t index c, aws_isdigit c = true ->
  iso_8601_step (at_state st start t) index c = (p ← more (at_state st start t) (get f) (set f) c; Some (p, true)).

Ltac solve_collects := intros start t index c Hc; unfold iso_8601_step; cbn [state at_state];
  pose proof (proj1 (isdigit_range c) Hc);
  repeat match goal with |- context [c =? ?v] => destruct (Z.eqb_spec c v) as [-> | _]; [lia |] end; cbn [andb]; rewrite Hc; reflexivity.

Lemma collects_year : collects ON_YEAR f_year. Proof. solve_collects. Qed.
Lemma collects_month : collects ON_MONTH f_mon. Proof. solve_collects. Qed.
Lemma collects_month_day : collects ON_MONTH_DAY f_mday. Proof. solve_collects. Qed.
Lemma collects_second : collects ON_SECOND f_sec. Proof. solve_collects. Qed.

(** A field of the extended format. *)
Lemma iso_field st f `{FieldOk f} (K : tm -> Z -> list Z -> Prop) start r t rest : st <> FINISHED -> collects st f ->
  (forall t n rest, no_digit rest -> iso_accepts (at_state st start t) (start + n) rest r <-> K t n rest) ->
  (forall t n rest, K t n rest -> no_digit rest) -> get f t = 0 ->
  iso_accepts (at_state st start t) start rest r <->
  exists ds tail, digits ds /\ in_int (number ds) = true /\ rest = ds ++ tail /\ K (set f t (number ds)) (zlength ds) tail.
Proof.
  intros Hs Hst Hend HK E. apply (run_field f (fun t index rest => iso_accepts (at_state st start t) index rest r)); auto.
  clear - Hs Hst H. intros t index c rest Hc. rewrite iso_accepts_step, Hst, more_at by auto.
  destruct (in_int _); cbn; [tauto |]. split; [contradiction | now intros []].
Qed.

(** The fraction of a second is not kept, and the text after the [Z] is not read. *)
Lemma iso_fraction start t r rest : forall index, iso_accepts (at_state ON_TZ start t) index rest r <->
  exists frac tail, digits frac /\ rest = frac ++ 90 :: tail /\ r = t.
Proof.
  induction rest as [| c rest IH]; intros index.
  - rewrite iso_accepts_nil. split; [discriminate | intros (frac & tail & _ & E & _); now destruct frac].
  - rewrite iso_accepts_step by discriminate. unfold iso_8601_step. cbn [state at_state].
    destruct (Z.eqb_spec c 90) as [-> | Hc]; [| destruct (aws_isdigit c) eqn:Ed]; cbn [negb mbind option_bind go fail].
    + change (mk_parser _ _ _ _) with (at_state FINISHED (index + 1) t). rewrite iso_accepts_finished. split.
      * intros ->. exists [], rest. repeat split. constructor.
      * now intros (frac & tail & _ & _ & ->).
    + rewrite IH. split; intros (frac & tail & Hf & E & ->).
      * subst. exists (c :: frac), tail. repeat split. now constructor.
      * destruct frac as [| d frac]; injection E as -> ->; [congruence |]. inversion Hf; subst. now exists frac, tail.
    + rewrite iso_accepts_error. split; [contradiction |]. intros (frac & tail & Hf & E & ->).
      destruct frac as [| d frac]; injection E as -> ->; [congruence |]. inversion Hf; congruence.
Qed.

(** The end of a time. *)
Definition iso_zone (l : list Z) : Prop :=
  exists tail, l = 90 :: tail \/ exists frac, digits frac /\ l = 46 :: frac ++ 90 :: tail.

Lemma iso_zone_no_digit l : iso_zone l -> no_digit l.
Proof. now intros [tail [-> | (frac & _ & ->)]]. Qed.

(** Fields of a fixed length always fit. *)
Lemma short_fits ds n : digits ds -> zlength ds = n -> n <= 9 -> in_int (number ds) = true.
Proof.
  intros Hd E Hn. apply in_int_spec. pose proof (number_bounds ds n Hd E). pose proof (zlength_nonneg ds).
  assert (10 ^ n <= 10 ^ 9) by (apply Z.pow_le_mono_r; lia). lia.
Qed.

Lemma iso_second index t rest r : tm_sec t = 0 ->
  iso_accepts (at_state ON_SECOND index t) index rest r <->
  exists s tail, digits s /\ zlength s = 2 /\ rest = s ++ tail /\ iso_zone tail /\ r = set_sec t (number s).
Proof.
  intros E0. rewrite (iso_field ON_SECOND f_sec (fun t n rest => n = 2 /\ iso_zone rest /\ r = t));
    [ | discriminate | apply collects_second | | | exact E0].
  - split; [intros (s & tail & ? & _ & ? & ? & ? & ?) | intros (s & tail & ? & ? & ? & ? & ?)]; exists s, tail; repeat split; auto.
    now apply (short_fits s 2).
  - clear. intros t n rest Hn. destruct rest as [| c rest].
    { rewrite iso_accepts_nil. split; [discriminate |]. intros (_ & [tail [E | (frac & _ & E)]] & _); discriminate. }
    rewrite iso_accepts_step by discriminate. unfold iso_8601_step. cbn [state at_state state_start_index parsed_time]. cbn in Hn. rewrite Hn.
    replace (index + n - index) with n by ring. unfold iso_zone.
    destruct (Z.eqb_spec n 2) as [-> | Hne]; [rewrite !andb_true_r | rewrite !andb_false_r; cbn; rewrite iso_accepts_error; tauto].
    destruct (Z.eqb_spec c 90) as [-> | H90]; [| destruct (Z.eqb_spec c 46) as [-> | H46]]; cbn.
    + fold (at_state FINISHED (index + 2 + 1) t). rewrite iso_accepts_finished. split; [| tauto]. intros ->. repeat split. exists rest. now left.
    + fold (at_state ON_TZ (index + 2 + 1) t). rewrite iso_fraction. split.
      * intros (frac & tail & Hf & -> & ->). repeat split. exists tail. right. now exists frac.
      * intros (_ & [tail [E | (frac & Hf & E)]] & ->); [discriminate |]. injection E as ->. now exists frac, tail.
    + rewrite iso_accepts_error. split; [contradiction |]. intros (_ & [tail [E | (frac & Hf & E)]] & ->); congruence.
  - intros _ n l (_ & Hz & _). now apply iso_zone_no_digit.
Qed.

(** A state that reads two digits into [f], and a colon or nothing after them. *)
Definition two_then (st st' : parser_state) (f : field) : Prop := forall start t index c,
  iso_8601_step (at_state st start t) index c
  = if index - start =? 2 then
      if aws_isdigit c then Some (at_state st' index t, false)
      else Some (mk_parser st' (index + 1) (negb (c =? 58)) t, true)
    else p ← (if aws_isdigit c then more (at_state st start t) (get f) (set f) c else fail (at_state st start t)); Some (p, true).

Definition starts_digit (l : list Z) : Prop := match l with [] => False | c :: _ => aws_isdigit c = true end.

Lemma two_list (l : list Z) : zlength l = 2 -> exists a b, l = [a; b].
Proof.
  destruct l as [| a [| b [| c l]]]; rewrite ?zlength_cons, ?zlength_nil; try discriminate; [eauto |].
  pose proof (zlength_nonneg l). lia.
Qed.

Lemma iso_two_digit st st' f `{FieldOk f} start t index c rest r : st <> FINISHED -> two_then st st' f -> index - start <> 2 ->
  iso_accepts (at_state st start t) index (c :: rest) r <->
  aws_isdigit c = true /\ in_int (get f t * 10 + (c - 48)) = true
  /\ iso_accepts (at_state st start (set f t (get f t * 10 + (c - 48)))) (index + 1) rest r.
Proof.
  intros Hs Hst Hi. rewrite iso_accepts_step, Hst by exact Hs. destruct (Z.eqb_spec (index - start) 2); [lia |].
  destruct (aws_isdigit c); [rewrite more_at by exact _; destruct (in_int _) |]; cbn; [tauto | | rewrite iso_accepts_error];
    split; intros []; try easy; tauto.
Qed.

Lemma iso_two st st' f `{FieldOk f} index t rest r : st <> FINISHED -> st <> ON_MONTH_DAY -> two_then st st' f -> get f t = 0 ->
  iso_accepts (at_state st index t) index rest r <->
  exists ds tail, digits ds /\ zlength ds = 2 /\ 
    ((rest = ds ++ tail /\ starts_digit tail /\ iso_accepts (at_state st' (index + 2) (set f t (number ds))) (index + 2) tail r)
     \/ (rest = ds ++ 58 :: tail /\ iso_accepts (at_state st' (index + 3) (set f t (number ds))) (index + 3) tail r)).
Proof.
  intros Hs Hs' Hst E0.
  assert (forall t index, iso_accepts (at_state st index t) (index + 1) [] r <-> False) as Hnil.
  { clear - Hs Hs'. intros t index. rewrite iso_accepts_nil. unfold result_of. cbn [state at_state].
    rewrite !bool_decide_eq_false_2 by assumption. split; [discriminate | tauto]. }
  split.
  - destruct rest as [| a rest].
    { rewrite iso_accepts_nil. unfold result_of. cbn [state at_state]. rewrite !bool_decide_eq_false_2 by assumption. discriminate. }
    rewrite (iso_two_digit st st' f) by (auto; lia). rewrite E0. intros (Ha & _ & Hb). 
    destruct rest as [| b rest]; [now apply Hnil in Hb |].
    rewrite (iso_two_digit st st' f), get_set, set_set in Hb by (auto; lia). destruct Hb as (Hb & _ & Hc).
    assert (digits [a; b]) as Hd by (now repeat constructor).
    change ((0 * 10 + (a - 48)) * 10 + (b - 48)) with (number [a; b]) in Hc.
    replace (index + 1 + 1) with (index + 2) in Hc by ring.
    destruct rest as [| c rest].
    { rewrite iso_accepts_nil in Hc. unfold result_of in Hc. cbn [state at_state] in Hc. 
      rewrite !bool_decide_eq_false_2 in Hc by assumption. discriminate. }
    rewrite iso_accepts_step, Hst in Hc by exact Hs. replace (index + 2 - index =? 2) with true in Hc by lia.
    destruct (aws_isdigit c) eqn:Ec.
    + exists [a; b], (c :: rest). repeat split; auto.
    + destruct (Z.eqb_spec c 58) as [-> |]; [| now apply iso_accepts_error in Hc].
      exists [a; b], rest. repeat split; auto. right. replace (index + 2 + 1) with (index + 3) in Hc by ring. now split.
  - intros (ds & tail & Hd & Hl & Ht). destruct (two_list ds Hl) as (a & b & ->).
    pose proof (short_fits _ _ Hd Hl ltac:(lia)) as Hi. inversion Hd as [| ? ? Ha Hd']; subst. inversion Hd' as [| ? ? Hb _]; subst.
    pose proof (proj1 (isdigit_range a) Ha). 
    assert (exists rest', rest = a :: b :: rest' /\ iso_accepts (at_state st index (set f t (number [a; b]))) (index + 2) rest' r) as (rest' & -> & Hacc).
    { destruct Ht as [(-> & Hn & Hk) | (-> & Hk)]; eexists; (split; [reflexivity |]).
      - destruct tail as [| c tail]; [contradiction |]. cbn in Hn. rewrite iso_accepts_step, Hst, Hn by exact Hs. now replace (index + 2 - index =? 2) with true by lia.
      - rewrite iso_accepts_step, Hst by exact Hs. replace (index + 2 - index =? 2) with true by lia. cbn. now replace (index + 2 + 1) with (index + 3) by ring. }
    rewrite (iso_two_digit st st' f) by (auto; lia). rewrite E0. split; [exact Ha |]. split; [apply in_int_spec; lia |].
    rewrite (iso_two_digit st st' f), get_set, set_set by (auto; lia). split; [exact Hb |].
    replace (index + 1 + 1) with (index + 2) by ring. now split.
Qed.

(** The time of day. *)
Definition iso_sep (l : list Z) : Prop := l = [] \/ l = [58].

Definition set_time (t : tm) (h m s : Z) : tm := set_sec (set_min (set_hour t h) m) s.

Lemma two_then_hour : two_then ON_HOUR ON_MINUTE f_hour. Proof. intros start t index c. reflexivity. Qed.
Lemma two_then_minute : two_then ON_MINUTE ON_SECOND f_min. Proof. intros start t index c. reflexivity. Qed.

Lemma digits_start ds tail : digits ds -> zlength ds = 2 -> starts_digit (ds ++ tail).
Proof. intros Hd Hl. destruct (two_list ds Hl) as (a & b & ->). now inversion Hd. Qed.

(** Hours and minutes and what separates them from what follows. *)
Lemma iso_two_sep st st' f `{FieldOk f} index t rest r (Q : tm -> list Z -> Prop) :
  st <> FINISHED -> st <> ON_MONTH_DAY -> two_then st st' f -> get f t = 0 ->
  (forall index tail ds, iso_accepts (at_state st' index (set f t (number ds))) index tail r <-> Q (set f t (number ds)) tail) ->
  (forall t tail, Q t tail -> starts_digit tail) ->
  iso_accepts (at_state st index t) index rest r <->
  exists ds sep tail, digits ds /\ zlength ds = 2 /\ iso_sep sep /\ rest = ds ++ sep ++ tail /\ Q (set f t (number ds)) tail.
Proof.
  intros Hs Hs' Hst E0 HQ Hd. rewrite (iso_two st st' f) by auto. split.
  - intros (ds & tail & H1 & H2 & [(E & _ & Ha) | (E & Ha)]); rewrite HQ in Ha; [exists ds, [], tail | exists ds, [58], tail];
      repeat split; auto; [now left | now right].
  - intros (ds & sep & tail & H1 & H2 & [-> | ->] & E & Ha); exists ds, tail; rewrite !HQ; repeat split; auto. left. eauto.
Qed.

Definition iso_time (t : tm) (l : list Z) (r : tm) : Prop :=
  exists h c1 m c2 s tail, digits h /\ zlength h = 2 /\ digits m /\ zlength m = 2 /\ digits s /\ zlength s = 2
    /\ iso_sep c1 /\ iso_sep c2 /\ iso_zone tail /\ l = h ++ c1 ++ m ++ c2 ++ s ++ tail
    /\ r = set_time t (number h) (number m) (number s).

Lemma iso_hour index t rest r : tm_hour t = 0 -> tm_min t = 0 -> tm_sec t = 0 ->
  iso_accepts (at_state ON_HOUR index t) index rest r <-> iso_time t rest r.
Proof.
  intros Hh Hm Hs. unfold iso_time.
  set (Q2 := fun t rest => exists s tail, digits s /\ zlength s = 2 /\ rest = s ++ tail /\ iso_zone tail /\ r = set_sec t (number s)).
  set (Q1 := fun t rest => exists m c2 tail, digits m /\ zlength m = 2 /\ iso_sep c2 /\ rest = m ++ c2 ++ tail /\ Q2 (set_min t (number m)) tail).
  assert (forall t tail, Q2 t tail -> starts_digit tail) as HQ2.
  { intros t0 tail (s & tl & ? & ? & -> & _). now apply digits_start. }
  rewrite (iso_two_sep ON_HOUR ON_MINUTE f_hour index t rest r Q1);
    [| discriminate | discriminate | apply two_then_hour | exact Hh | |].
  - split.
    + intros (h & c1 & tl & ? & ? & ? & -> & m & c2 & tl2 & ? & ? & ? & -> & s & tl3 & ? & ? & -> & ? & ->).
      exists h, c1, m, c2, s, tl3. repeat split; auto. 
    + intros (h & c1 & m & c2 & s & tl & ? & ? & ? & ? & ? & ? & ? & ? & ? & -> & ->).
      exists h, c1, (m ++ c2 ++ s ++ tl). repeat split; auto. exists m, c2, (s ++ tl). repeat split; auto. now exists s, tl.
  - intros idx tail ds. apply (iso_two_sep ON_MINUTE ON_SECOND f_min _ _ _ _ Q2); try discriminate; try exact Hm; auto using two_then_minute.
    intros. apply iso_second. exact Hs.
  - intros t0 tail (m & c2 & tl & ? & ? & _ & -> & _). now apply digits_start.
Qed.

(** The day, alone or before a time. *)
Definition day_part (T : tm -> list Z -> tm -> Prop) (t : tm) (l : list Z) (r : tm) : Prop :=
  exists d, digits d /\ in_int (number d) = true /\
    ((l = d /\ r = set_mday t (number d))
     \/ (zlength d = 2 /\ exists tail, l = d ++ 84 :: tail /\ T (set_mday t (number d)) tail r)).

Definition no_time (t : tm) : Prop := tm_hour t = 0 /\ tm_min t = 0 /\ tm_sec t = 0.

(** The part of the machines that both formats share. *)
Section day.
Context (A : parser -> Z -> list Z -> tm -> Prop) (T : tm -> list Z -> tm -> Prop) (r : tm).
Hypothesis Hnil : forall start t index, A (at_state ON_MONTH_DAY start t) index [] r <-> r = t.
Hypothesis Hcons : forall start t index c rest, A (at_state ON_MONTH_DAY start t) index (c :: rest) r <->
  if (c =? 84) && (index - start =? 2) then A (at_state ON_HOUR (index + 1) t) (index + 1) rest r
  else if aws_isdigit c then in_int (tm_mday t * 10 + (c - 48)) = true
                             /\ A (at_state ON_MONTH_DAY start (set_mday t (tm_mday t * 10 + (c - 48)))) (index + 1) rest r
  else False.
Hypothesis Htime : forall t index rest, no_time t -> A (at_state ON_HOUR index t) index rest r <-> T t rest r.

Lemma accepts_day index t rest : tm_mday t = 0 -> no_time t ->
  A (at_state ON_MONTH_DAY index t) index rest r <-> day_part T t rest r.
Proof.
  intros E0 Ht.
  rewrite (run_field f_mday (fun t' index' rest => A (at_state ON_MONTH_DAY index t') index' rest r)
    (fun t' n rest => (rest = [] /\ r = t')
      \/ (n = 2 /\ exists tail, rest = 84 :: tail /\ A (at_state ON_HOUR (index + 3) t') (index + 3) tail r)));
    [ | | | | exact E0]; cbn [get set f_mday].
  - unfold day_part. split.
    + intros (d & tail & Hd & Hi & -> & [(-> & ->) | (Hl & tl & -> & Ha)]); exists d; repeat split; auto.
      * left. now rewrite app_nil_r.
      * right. split; [exact Hl |]. exists tl. split; [reflexivity |]. now rewrite Htime in Ha by exact Ht.
    + intros (d & Hd & Hi & [(-> & ->) | (Hl & tl & -> & Ha)]).
      * exists d, []. rewrite app_nil_r. repeat split; auto.
      * exists d, (84 :: tl). repeat split; auto. right. split; [exact Hl |]. exists tl. split; [reflexivity |]. now rewrite Htime by exact Ht.
  - clear - Hcons. intros t index' c rest Hc. rewrite Hcons, Hc. apply isdigit_range in Hc.
    destruct (Z.eqb_spec c 84); [lia |]. reflexivity.
  - clear - Hnil Hcons. intros t n rest Hn. destruct rest as [| c rest]; [rewrite Hnil; naive_solver |].
    rewrite Hcons. cbn in Hn. rewrite Hn. replace (index + n - index) with n by ring.
    destruct (Z.eqb_spec n 2) as [-> | Hne]; [rewrite andb_true_r | rewrite andb_false_r; naive_solver].
    destruct (Z.eqb_spec c 84) as [-> | H84]; [| naive_solver].
    replace (index + 2 + 1) with (index + 3) by ring. naive_solver.
  - now intros t' n l [(-> & _) | (_ & tl & -> & _)].
Qed.
End day.

Lemma iso_day index t rest r : tm_mday t = 0 -> no_time t ->
  iso_accepts (at_state ON_MONTH_DAY index t) index rest r <-> day_part iso_time t rest r.
Proof.
  apply accepts_day.
  - intros start t' i. rewrite iso_accepts_nil. change (result_of _) with (true, t'). split; congruence.
  - intros start t' i c rest'. rewrite iso_accepts_step by discriminate. unfold iso_8601_step. cbn [state at_state state_start_index parsed_time].
    destruct (_ && _); [reflexivity |]. destruct (aws_isdigit c); [| cbn; now rewrite iso_accepts_error].
    rewrite (more_at f_mday). cbn [get set f_mday]. destruct (in_int _); cbn; naive_solver.
  - intros t' i rest' (? & ? & ?). now apply iso_hour.
Qed.

(** A field that ends at a hyphen. *)
Lemma iso_hyphen st st' f `{FieldOk f} n0 d (Q : tm -> list Z -> Prop) index t rest r :
  st <> FINISHED -> st <> ON_MONTH_DAY -> collects st f -> n0 <= 9 ->
  (forall start t index c, aws_isdigit c = false -> iso_8601_step (at_state st start t) index c
     = if (c =? 45) && (index - start =? n0) then Some (at_state st' (index + 1) (set f t (get f t - d)), true)
       else Some (mk_parser st start true t, true)) ->
  (forall index ds tail, iso_accepts (at_state st' index (set f t (number ds - d))) index tail r <-> Q (set f t (number ds - d)) tail) ->
  get f t = 0 ->
  iso_accepts (at_state st index t) index rest r <->
  exists ds tail, digits ds /\ zlength ds = n0 /\ rest = ds ++ 45 :: tail /\ Q (set f t (number ds - d)) tail.
Proof.
  intros Hs Hs' Hst Hn0 Hend HQ E0.
  rewrite (iso_field st f (fun t' n rest => n = n0 /\ exists tail, rest = 45 :: tail
      /\ iso_accepts (at_state st' (index + n0 + 1) (set f t' (get f t' - d))) (index + n0 + 1) tail r));
    [ | exact Hs | exact Hst | | | exact E0].
  - split.
    + intros (ds & tail & Hd & _ & -> & Hl & tl & -> & Ha). exists ds, tl. rewrite get_set, set_set, HQ in Ha. now repeat split.
    + intros (ds & tail & Hd & Hl & -> & Ha). exists ds, (45 :: tail). repeat split; auto; [now apply (short_fits ds n0) |].
      exists tail. rewrite get_set, set_set, HQ. now split.
  - clear - Hs Hs' Hend. intros t n rest Hn. destruct rest as [| c rest].
    { rewrite iso_accepts_nil. unfold result_of. cbn [state at_state]. rewrite !bool_decide_eq_false_2 by assumption. naive_solver. }
    rewrite iso_accepts_step, Hend by assumption. replace (index + n - index) with n by ring.
    destruct (Z.eqb_spec n n0) as [-> | Hne]; [rewrite andb_true_r | rewrite andb_false_r; cbn; rewrite iso_accepts_error; naive_solver].
    destruct (Z.eqb_spec c 45) as [-> | H45]; [naive_solver | rewrite iso_accepts_error; naive_solver].
  - now intros t' n l (_ & tl & -> & _).
Qed.

Ltac solve_hyphen := intros ? ? ? c Hc; unfold iso_8601_step; cbn [state at_state state_start_index parsed_time]; rewrite Hc;
  destruct (_ && _); reflexivity.

(** [YYYY-MM-] and the day; a number of the day is only bounded when a time follows. *)
Definition iso_8601_text (l : list Z) (r : tm) : Prop :=
  exists y m tail, digits y /\ zlength y = 4 /\ digits m /\ zlength m = 2 /\ l = y ++ 45 :: m ++ 45 :: tail
    /\ day_part iso_time (set_mon (set_year zero_tm (number y - 1900)) (number m - 1)) tail r.

Lemma s_parse_iso_8601_exact l t : s_parse_iso_8601 l = Some (true, t) <-> iso_8601_text l t.
Proof.
  rewrite iso_parse_accepts. unfold iso_8601_text. change (start_parser ON_YEAR) with (at_state ON_YEAR 0 zero_tm).
  rewrite (iso_hyphen ON_YEAR ON_MONTH f_year 4 1900 (fun t' rest =>
    exists m tail, digits m /\ zlength m = 2 /\ rest = m ++ 45 :: tail /\ day_part iso_time (set_mon t' (number m - 1)) tail t));
    [ | discriminate | discriminate | apply collects_year | lia | solve_hyphen | | reflexivity].
  - split; [intros (y & tl & ? & ? & -> & m & tl2 & ? & ? & -> & ?) | intros (y & m & tl & ? & ? & ? & ? & -> & ?)]; cbn [set f_year] in *.
    + exists y, m, tl2. now repeat split.
    + exists y, (m ++ 45 :: tl). repeat split; auto. exists m, tl. now repeat split.
  - intros index ds tail.
    apply (iso_hyphen ON_MONTH ON_MONTH_DAY f_mon 2 1 (fun t' rest => day_part iso_time t' rest t));
      [discriminate | discriminate | apply collects_month | lia | solve_hyphen | | reflexivity].
    intros. now apply iso_day.
Qed.

(** ** The parser of basic ISO 8601

    Which texts [s_parse_iso_8601_basic] accepts, and with which result. *)

Definition basic_accepts (p : parser) (index : Z) (rest : list Z) (t : tm) : Prop :=
  exists p', iso_8601_basic_loop p index rest = Some p' /\ result_of p' = (true, t).

Lemma basic_parse_accepts l t : s_parse_iso_8601_basic l = Some (true, t) <-> basic_accepts (start_parser ON_YEAR) 0 l t.
Proof.
  unfold s_parse_iso_8601_basic, basic_accepts. destruct (iso_8601_basic_loop _ _ _) as [p |]; cbn [fmap option_fmap option_map].
  - split; [intros H; apply (inj Some) in H; now exists p | intros (p' & [= ->] & ->); reflexivity].
  - split; [discriminate | now intros (? & ? & _)].
Qed.

Lemma basic_accepts_nil p index t : basic_accepts p index [] t <-> result_of p = (true, t).
Proof. split; [now intros (p' & [= ->] & E) | intros E; now exists p]. Qed.

Lemma basic_accepts_error st start t index rest r : basic_accepts (mk_parser st start true t) index rest r <-> False.
Proof.
  split; [| contradiction]. intros (p' & E & Hr). assert (p' = mk_parser st start true t) as ->.
  { destruct rest; cbn in E; rewrite ?orb_true_r in E; now injection E. }
  unfold result_of in Hr. cbn [error] in Hr. rewrite andb_false_r in Hr. discriminate.
Qed.

Lemma basic_accepts_finished start t index rest r : basic_accepts (at_state FINISHED start t) index rest r <-> r = t.
Proof.
  unfold basic_accepts. destruct rest; cbn [iso_8601_basic_loop]; [| change (is_finished _ || _) with true; cbv iota];
    (split; [intros (p' & [= <-] & E); now injection E | intros ->; now eexists]).
Qed.

Lemma basic_accepts_step st start t index c rest r : st <> FINISHED ->
  basic_accepts (at_state st start t) index (c :: rest) r <->
  match iso_8601_basic_step (at_state st start t) index c with
  | Some p1 => basic_accepts p1 (index + 1) rest r
  | None => False
  end.
Proof.
  intros Hs. unfold basic_accepts at 1. cbn [iso_8601_basic_loop]. unfold is_finished. cbn [state at_state error].
  rewrite bool_decide_eq_false_2 by exact Hs. cbn [orb]. destruct (iso_8601_basic_step _ _ _) as [p1 |]; cbn; [reflexivity |].
  split; [now intros (? & ? & _) | contradiction].
Qed.

(** ** Fields of a fixed length *)

(** A state that reads [n] digits into [f] and then, with [adj], goes on to [st']. *)
Definition fixed (st st' : parser_state) (f : field) (n : Z) (adj : tm -> tm) : Prop := forall start t index c,
  iso_8601_basic_step (at_state st start t) index c
  = if aws_isdigit c then
      p ← more (at_state st start t) (get f) (set f) c;
      if index - start =? n - 1 then Some (at_state st' (index + 1) (adj (parsed_time p))) else Some p
    else fail (at_state st start t).

Section fixed.
Context (st st' : parser_state) (f : field) `{FieldOk f} (n : Z) (adj : tm -> tm).
Hypothesis Hst : st <> FINISHED.
Hypothesis Hst' : st <> ON_MONTH_DAY.
Hypothesis Hn : 0 < n <= 9.
Hypothesis Hfix : fixed st st' f n adj.

(** What is accepted when [k] digits are missing. *)
Definition missing (start : Z) (r : tm) (k : nat) (t : tm) (rest : list Z) : Prop :=
  match k with
  | O => basic_accepts (at_state st' (start + n) (adj t)) (start + n) rest r
  | S _ => basic_accepts (at_state st start t) (start + n - Z.of_nat k) rest r
  end.

Lemma missing_cons start r k t c rest : 
  missing start r (S k) t (c :: rest) <->
  aws_isdigit c = true /\ in_int (get f t * 10 + (c - 48)) = true /\ missing start r k (set f t (get f t * 10 + (c - 48))) rest.
Proof.
  unfold missing at 1. rewrite basic_accepts_step, Hfix by exact Hst.
  destruct (aws_isdigit c); [| cbn; rewrite basic_accepts_error; naive_solver]. rewrite more_at by exact _.
  destruct (in_int _); [| cbn; naive_solver]. cbn [mbind option_bind at_state parsed_time].
  replace (start + n - Z.of_nat (S k) - start) with (n - Z.of_nat (S k)) by ring. destruct k as [| k]; cbn [missing].
  - rewrite Z.eqb_refl. replace (start + n - Z.of_nat 1 + 1) with (start + n) by lia. naive_solver.
  - destruct (Z.eqb_spec (n - Z.of_nat (S (S k))) (n - 1)); [lia |].
    replace (start + n - Z.of_nat (S (S k)) + 1) with (start + n - Z.of_nat (S k)) by lia. naive_solver.
Qed.

Lemma missing_nil start r k t : missing start r (S k) t [] <-> False.
Proof.
  unfold missing. rewrite basic_accepts_nil. unfold result_of. cbn [state at_state].
  rewrite !bool_decide_eq_false_2 by assumption. naive_solver.
Qed.

Lemma missing_digits start r k : forall t rest, Z.of_nat k <= n -> 0 <= get f t < 10 ^ (n - Z.of_nat k) ->
  missing start r k t rest <->
  exists ds tail, digits ds /\ zlength ds = Z.of_nat k /\ rest = ds ++ tail
    /\ missing start r 0 (set f t (number_from (get f t) ds)) tail.
Proof.
  induction k as [| k IH]; intros t rest Hk Hv.
  { split; [intros Ha; exists [], rest; change (number_from _ []) with (get f t); rewrite set_get; now repeat constructor |].
    intros (ds & tail & _ & Hl & -> & Ha). destruct ds; [| rewrite zlength_cons in Hl; pose proof (zlength_nonneg ds); lia]. change (number_from _ []) with (get f t) in Ha. now rewrite set_get in Ha. }
  destruct rest as [| c rest].
  { rewrite missing_nil. split; [contradiction |]. intros (ds & tail & _ & Hl & E & _).
    symmetry in E. apply app_nil in E as [-> ->]. rewrite zlength_nil in Hl. lia. }
  rewrite missing_cons. set (w := get f t * 10 + (c - 48)).
  assert (aws_isdigit c = true -> 0 <= w < 10 ^ (n - Z.of_nat k) /\ in_int w = true) as Hw.
  { intros Hc. apply isdigit_range in Hc. replace (n - Z.of_nat k) with (1 + (n - Z.of_nat (S k))) by lia.
    rewrite Z.pow_add_r, Z.pow_1_r by lia. split; [unfold w; lia |]. apply in_int_spec.
    assert (10 ^ (n - Z.of_nat (S k)) <= 10 ^ 8) by (apply Z.pow_le_mono_r; lia). unfold w. lia. }
  split.
  - intros (Hc & _ & Ha). destruct (Hw Hc) as [Hb _]. rewrite IH in Ha by (rewrite ?get_set; lia).
    destruct Ha as (ds & tail & Hd & Hl & -> & Ha). rewrite get_set, set_set in Ha. exists (c :: ds), tail. rewrite zlength_cons.
    repeat split; [now constructor | lia | exact Ha].
  - intros (ds & tail & Hd & Hl & E & Ha). destruct ds as [| d ds]; [rewrite zlength_nil in Hl; lia |].
    injection E as <- ->. inversion Hd as [| ? ? Hc Hd']; subst. destruct (Hw Hc) as [Hb Hi]. repeat split; auto.
    rewrite IH by (rewrite ?get_set; lia). exists ds, tail. rewrite get_set, set_set. rewrite zlength_cons in Hl. repeat split; auto. lia.
Qed.

Lemma basic_fixed start t rest r : get f t = 0 ->
  basic_accepts (at_state st start t) start rest r <->
  exists ds tail, digits ds /\ zlength ds = n /\ rest = ds ++ tail
    /\ basic_accepts (at_state st' (start + n) (adj (set f t (number ds)))) (start + n) tail r.
Proof.
  intros E0. destruct (Z.to_nat n) as [| k] eqn:Ek; [lia |].
  pose proof (missing_digits start r (Z.to_nat n) t rest ltac:(lia)) as Hm. rewrite E0, Ek in Hm. cbn [missing] in Hm.
  replace (Z.of_nat (S k)) with n in Hm by lia. rewrite Z.sub_diag in Hm. replace (start + n - n) with start in Hm by ring. now apply Hm.
Qed.
End fixed.

(** ** The format *)

Ltac solve_fixed := intros ? ? ? c; unfold iso_8601_basic_step; cbn [state at_state state_start_index parsed_time get set];
  destruct (aws_isdigit c); [| reflexivity]; unfold more; cbn [parsed_time]; destruct (add_digit _ _); [| reflexivity];
  cbn [mbind option_bind]; destruct (_ =? _); reflexivity.

Lemma fixed_year : fixed ON_YEAR ON_MONTH f_year 4 (fun t => set_year t (tm_year t - 1900)). Proof. solve_fixed. Qed.
Lemma fixed_month : fixed ON_MONTH ON_MONTH_DAY f_mon 2 (fun t => set_mon t (tm_mon t - 1)). Proof. solve_fixed. Qed.
Lemma fixed_hour : fixed ON_HOUR ON_MINUTE f_hour 2 (fun t => t). Proof. solve_fixed. Qed.
Lemma fixed_minute : fixed ON_MINUTE ON_SECOND f_min 2 (fun t => t). Proof. solve_fixed. Qed.
Lemma fixed_second : fixed ON_SECOND ON_TZ f_sec 2 (fun t => t). Proof. solve_fixed. Qed.

(** A [Z], or three digits and a [Z]. *)
Definition basic_zone (l : list Z) : Prop :=
  exists tail, l = 90 :: tail \/ exists ms, digits ms /\ zlength ms = 3 /\ l = ms ++ 90 :: tail.

(** One character of the time zone. *)
Lemma basic_tz_step start t index c rest r : basic_accepts (at_state ON_TZ start t) index (c :: rest) r <->
  (c = 90 /\ (index - start = 0 \/ index - start = 3) /\ r = t)
  \/ (aws_isdigit c = true /\ index - start <= 3 /\ basic_accepts (at_state ON_TZ start t) (index + 1) rest r).
Proof.
  rewrite basic_accepts_step by discriminate. unfold iso_8601_basic_step. cbn [state at_state state_start_index].
  destruct (Z.eqb_spec c 90) as [-> | H90]; cbn [andb].
  - destruct (Z.eqb_spec (index - start) 0) as [E0 |], (Z.eqb_spec (index - start) 3) as [E3 |]; cbn [orb go];
      try (change (mk_parser FINISHED _ _ _) with (at_state FINISHED start t); rewrite basic_accepts_finished; naive_solver).
    change (aws_isdigit 90) with false. cbn [negb orb]. unfold fail. cbn [at_state state state_start_index parsed_time]. rewrite basic_accepts_error. naive_solver.
  - destruct (aws_isdigit c), (Z.ltb_spec 3 (index - start)); cbn [negb orb fail]; rewrite ?basic_accepts_error;
      [split; [contradiction |] | | |]; try naive_solver. intros [(-> & _) | (_ & Hle & _)]; lia.
Qed.

Lemma basic_tz_nil start t index r : basic_accepts (at_state ON_TZ start t) index [] r <-> False.
Proof. rewrite basic_accepts_nil. split; [discriminate | contradiction]. Qed.

Lemma three_list (l : list Z) : zlength l = 3 -> exists a b c, l = [a; b; c].
Proof.
  destruct l as [| a [| b [| c [| d l]]]]; rewrite ?zlength_cons, ?zlength_nil; try discriminate; [eauto |].
  pose proof (zlength_nonneg l). lia.
Qed.

(** A character of the zone after the first: before the third digit only digits pass. *)
Lemma basic_tz_mid start t k rest r : 0 < k < 3 -> basic_accepts (at_state ON_TZ start t) (start + k) rest r <->
  exists c tail, rest = c :: tail /\ aws_isdigit c = true /\ basic_accepts (at_state ON_TZ start t) (start + (k + 1)) tail r.
Proof.
  intros Hk. destruct rest as [| c rest]; [rewrite basic_tz_nil; naive_solver |]. rewrite basic_tz_step, Z.add_assoc.
  split; [intros [(_ & H & _) | (Hc & _ & Ha)]; [lia | now exists c, rest] |].
  intros (c' & tail & [= <- <-] & Hc & Ha). right. repeat split; auto. lia.
Qed.

Lemma basic_tz_last start t rest r : basic_accepts (at_state ON_TZ start t) (start + 3) rest r <->
  exists tail, rest = 90 :: tail /\ r = t.
Proof.
  destruct rest as [| c rest]; [rewrite basic_tz_nil; naive_solver |]. rewrite basic_tz_step. split.
  - intros [(-> & _ & ->) | (Hc & _ & Ha)]; [eauto |]. exfalso. destruct rest as [| d rest]; [now apply basic_tz_nil in Ha |].
    apply basic_tz_step in Ha. destruct Ha as [(_ & H & _) | (_ & H & _)]; lia.
  - intros (tail & [= -> ->] & ->). left. repeat split. lia.
Qed.

Lemma basic_tz start t rest r : basic_accepts (at_state ON_TZ start t) start rest r <-> basic_zone rest /\ r = t.
Proof.
  destruct rest as [| c rest].
  { rewrite basic_tz_nil. split; [contradiction |]. intros ([tail [E | (ms & _ & _ & E)]] & _); [discriminate | now destruct ms]. }
  rewrite basic_tz_step. split.
  - intros [(-> & _ & ->) | (Hc & _ & Ha)]; [split; [exists rest; now left | reflexivity] |].
    apply (basic_tz_mid start t 1) in Ha as (d & tl & -> & Hd & Ha); [| lia].
    apply (basic_tz_mid start t 2) in Ha as (e & tl2 & -> & He & Ha); [| lia].
    apply basic_tz_last in Ha as (tl3 & -> & ->). split; [| reflexivity]. exists tl3. right. exists [c; d; e].
    repeat split. now repeat constructor.
  - intros ([tail [[= -> ->] | (ms & Hd & Hl & E)]] & ->); [left; repeat split; lia |].
    destruct (three_list ms Hl) as (a & b & d & ->). injection E as -> ->.
    inversion Hd as [| ? ? Ha Hd2]; subst. inversion Hd2 as [| ? ? Hb Hd3]; subst. inversion Hd3 as [| ? ? Hc _]; subst.
    right. split; [exact Ha |]. split; [lia |]. apply (basic_tz_mid start t 1); [lia |]. exists b, (d :: 90 :: tail). repeat split; auto.
    apply (basic_tz_mid start t 2); [lia |]. exists d, (90 :: tail). repeat split; auto. apply basic_tz_last. eauto.
Qed.

Definition basic_time (t : tm) (l : list Z) (r : tm) : Prop :=
  exists h m s tail, digits h /\ zlength h = 2 /\ digits m /\ zlength m = 2 /\ digits s /\ zlength s = 2
    /\ basic_zone tail /\ l = h ++ m ++ s ++ tail /\ r = set_time t (number h) (number m) (number s).

Lemma basic_hour index t rest r : no_time t ->
  basic_accepts (at_state ON_HOUR index t) index rest r <-> basic_time t rest r.
Proof.
  intros (Hh & Hm & Hs). rewrite (basic_fixed ON_HOUR ON_MINUTE f_hour 2 (fun t => t)) by (easy || apply fixed_hour).
  unfold basic_time. split.
  - intros (h & tl & ? & ? & -> & Ha). 
    rewrite (basic_fixed ON_MINUTE ON_SECOND f_min 2 (fun t => t)) in Ha by (easy || apply fixed_minute).
    destruct Ha as (m & tl2 & ? & ? & -> & Ha).
    rewrite (basic_fixed ON_SECOND ON_TZ f_sec 2 (fun t => t)) in Ha by (easy || apply fixed_second).
    destruct Ha as (s & tl3 & ? & ? & -> & Ha). apply basic_tz in Ha as (? & ->). exists h, m, s, tl3. now repeat split.
  - intros (h & m & s & tl & ? & ? & ? & ? & ? & ? & Hz & -> & ->). exists h, (m ++ s ++ tl). repeat split; auto.
    rewrite (basic_fixed ON_MINUTE ON_SECOND f_min 2 (fun t => t)) by (easy || apply fixed_minute). exists m, (s ++ tl). repeat split; auto.
    rewrite (basic_fixed ON_SECOND ON_TZ f_sec 2 (fun t => t)) by (easy || apply fixed_second). exists s, tl. repeat split; auto.
    now apply basic_tz.
Qed.

Lemma basic_day index t rest r : tm_mday t = 0 -> no_time t ->
  basic_accepts (at_state ON_MONTH_DAY index t) index rest r <-> day_part basic_time t rest r.
Proof.
  apply accepts_day.
  - intros start t' i. rewrite basic_accepts_nil. change (result_of _) with (true, t'). split; congruence.
  - intros start t' i c rest'. rewrite basic_accepts_step by discriminate. unfold iso_8601_basic_step. cbn [state at_state state_start_index parsed_time].
    destruct (_ && _); [reflexivity |]. destruct (aws_isdigit c); [| cbn; now rewrite basic_accepts_error].
    rewrite (more_at f_mday). cbn [get set f_mday]. destruct (in_int _); naive_solver.
  - intros t' i rest' Ht. now apply basic_hour.
Qed.

(** [YYYYMM] and the day. *)
Definition iso_8601_basic_text (l : list Z) (r : tm) : Prop :=
  exists y m tail, digits y /\ zlength y = 4 /\ digits m /\ zlength m = 2 /\ l = y ++ m ++ tail
    /\ day_part basic_time (set_mon (set_year zero_tm (number y - 1900)) (number m - 1)) tail r.

Lemma s_parse_iso_8601_basic_exact l t : s_parse_iso_8601_basic l = Some (true, t) <-> iso_8601_basic_text l t.
Proof.
  rewrite basic_parse_accepts. unfold iso_8601_basic_text. change (start_parser ON_YEAR) with (at_state ON_YEAR 0 zero_tm).
  rewrite (basic_fixed ON_YEAR ON_MONTH f_year 4 _) by (easy || apply fixed_year). split.
  - intros (y & tl & ? & ? & -> & Ha). rewrite (basic_fixed ON_MONTH ON_MONTH_DAY f_mon 2 _) in Ha by (easy || apply fixed_month).
    destruct Ha as (m & tl2 & ? & ? & -> & Ha). rewrite basic_day in Ha by easy. exists y, m, tl2. now repeat split.
  - intros (y & m & tl & ? & ? & ? & ? & -> & Ha). exists y, (m ++ tl). repeat split; auto.
    rewrite (basic_fixed ON_MONTH ON_MONTH_DAY f_mon 2 _) by (easy || apply fixed_month). exists m, tl. repeat split; auto.
    now rewrite basic_day.
Qed.
