(* ===== verification/DateTimeRfc.v ===== *)
(** * Dates: the parser of RFC 822

    Which texts [s_parse_rfc_822] accepts, and with which result. *)

From Stdlib Require Ascii String.
From S2P Require Import Prelude Math Memory ByteBuf Calendar DateTime DateTimeParse.
Import (notations, coercions) String.
Import ByteBuf DateTime.

Local Open Scope Z_scope.

Section rfc.
(** The whole text. *)
Context (date_str : list Z).

Definition rfc_accepts (p : parser) (tz : list Z) (index : Z) (rest : list Z) (r : tm) (tz' : list Z) : Prop :=
  exists p', rfc_822_loop date_str p tz index rest = Some (p', tz')
    /\ error p' = false /\ state p' = ON_TZ /\ parsed_time p' = r.

Lemma rfc_accepts_nil p tz index r tz' : rfc_accepts p tz index [] r tz' <->
  tz' = tz /\ error p = false /\ state p = ON_TZ /\ parsed_time p = r.
Proof. unfold rfc_accepts. cbn. split; [intros (p' & [= <- <-] & H); now split | intros (-> & H); now exists p]. Qed.

Lemma rfc_accepts_error st start t tz index rest r tz' : rfc_accepts (mk_parser st start true t) tz index rest r tz' <-> False.
Proof.
  split; [| contradiction]. intros (p' & E & He & _). assert (p' = mk_parser st start true t) as ->.
  { destruct rest; cbn in E; now injection E. }
  discriminate.
Qed.

Lemma rfc_accepts_step st start t tz index c rest r tz' :
  rfc_accepts (at_state st start t) tz index (c :: rest) r tz' <->
  match rfc_822_step date_str (at_state st start t) tz index c with
  | Some (p1, tz1) => rfc_accepts p1 tz1 (index + 1) rest r tz'
  | None => False
  end.
Proof.
  unfold rfc_accepts at 1. cbn [rfc_822_loop at_state error].
  destruct (rfc_822_step _ _ _ _ _) as [[p1 tz1] |]; cbn; [reflexivity |]. split; [now intros (? & ? & _) | contradiction].
Qed.

(** ** The time zone *)

Definition zone_char (c : Z) : bool := aws_isalnum c || (c =? 45) || (c =? 43).

Definition padded (z : list Z) : list Z := z ++ replicate (6 - length z) 0.

Lemma padded_write z c : (length z < 6)%nat -> <[length z := c]> (padded z) = padded (z ++ [c]).
Proof.
  intros Hl. unfold padded. rewrite length_app. cbn. replace (6 - length z)%nat with (S (6 - (length z + 1))) by lia. cbn [replicate].
  rewrite insert_app_r_alt by lia. rewrite Nat.sub_diag. cbn. now rewrite <- app_assoc.
Qed.

Lemma rfc_tz start t rest r tz' : forall z, (length z <= 5)%nat ->
  rfc_accepts (at_state ON_TZ start t) (padded z) (start + zlength z) rest r tz' <->
  Forall (fun c => zone_char c = true) rest /\ zlength z + zlength rest <= 5 /\ r = t /\ tz' = padded (z ++ rest).
Proof.
  induction rest as [| c rest IH]; intros z Hz.
  - rewrite rfc_accepts_nil, app_nil_r. unfold zlength. cbn. naive_solver (constructor || lia).
  - rewrite rfc_accepts_step. unfold rfc_822_step. cbn [state at_state state_start_index].
    replace (start + zlength z - start) with (zlength z) by ring. fold (zone_char c). destruct (zone_char c) eqn:Ec; cbn [andb].
    + destruct (Z.ltb_spec (zlength z) 5).
      * unfold zlength at 1. rewrite Nat2Z.id, padded_write by lia.
        replace (start + zlength z + 1) with (start + zlength (z ++ [c])) by (rewrite zlength_app; change (zlength [c]) with 1; ring).
        rewrite IH by (rewrite length_app; unfold zlength in *; cbn; lia). rewrite <- app_assoc, zlength_app, !zlength_cons, zlength_nil. cbn [app].
        rewrite Forall_cons. split; [intros (? & ? & ? & ?) | intros ((_ & ?) & ? & ? & ?)]; repeat split; auto; lia.
      * cbn. rewrite rfc_accepts_error, zlength_cons. pose proof (zlength_nonneg rest). split; [contradiction |]. intros (_ & ? & _). lia.
    + cbn. rewrite rfc_accepts_error. split; [contradiction |]. intros (Hf & _). inversion Hf; congruence.
Qed.

(** ** Numbers with a delimiter *)

(** A state that reads digits into [f] and goes on to [st'] at a character for
    which [delim] holds, when the number of digits is [n]. *)
Definition delimited (st st' : parser_state) (f : field) (delim : Z -> bool) (n : Z) (adj : tm -> tm) : Prop :=
  (forall start t tz index c, aws_isdigit c = true -> rfc_822_step date_str (at_state st start t) tz index c
     = (p ← more (at_state st start t) (get f) (set f) c; Some (p, tz)))
  /\ (forall start t tz index c, aws_isdigit c = false -> rfc_822_step date_str (at_state st start t) tz index c
     = if delim c && (index - start =? n) then Some (at_state st' (index + 1) (adj t), tz) else Some (mk_parser st start true t, tz)).

Lemma rfc_field st f `{FieldOk f} (K : tm -> Z -> list Z -> Prop) start tz t rest r tz' :
  (forall start t tz index c, aws_isdigit c = true -> rfc_822_step date_str (at_state st start t) tz index c
     = (p ← more (at_state st start t) (get f) (set f) c; Some (p, tz))) ->
  (forall t n rest, no_digit rest -> rfc_accepts (at_state st start t) tz (start + n) rest r tz' <-> K t n rest) ->
  (forall t n rest, K t n rest -> no_digit rest) -> get f t = 0 ->
  rfc_accepts (at_state st start t) tz start rest r tz' <->
  exists ds tail, digits ds /\ in_int (number ds) = true /\ rest = ds ++ tail /\ K (set f t (number ds)) (zlength ds) tail.
Proof.
  intros Hst Hend HK E. apply (run_field f (fun t index rest => rfc_accepts (at_state st start t) tz index rest r tz')); auto.
  clear - Hst H. intros t index c rest Hc. rewrite rfc_accepts_step, Hst, more_at by auto.
  destruct (in_int _); cbn; [tauto |]. split; [contradiction | now intros []].
Qed.

Lemma rfc_delimited st st' f `{FieldOk f} delim n adj start tz t rest r tz' : st <> ON_TZ ->
  (forall c, delim c = true -> aws_isdigit c = false) -> n <= 9 -> delimited st st' f delim n adj -> get f t = 0 ->
  rfc_accepts (at_state st start t) tz start rest r tz' <->
  exists ds c tail, digits ds /\ zlength ds = n /\ delim c = true /\ rest = ds ++ c :: tail
    /\ rfc_accepts (at_state st' (start + n + 1) (adj (set f t (number ds)))) tz (start + n + 1) tail r tz'.
Proof.
  intros Hst Hdelim Hn [Hdig Hend] E0.
  rewrite (rfc_field st f (fun t' k rest => k = n /\ exists c tail, rest = c :: tail /\ delim c = true
      /\ rfc_accepts (at_state st' (start + n + 1) (adj t')) tz (start + n + 1) tail r tz'));
    [ | exact Hdig | | | exact E0].
  - split.
    + intros (ds & tail & Hd & _ & -> & Hl & c & tl & -> & Hc & Ha). exists ds, c, tl. now repeat split.
    + intros (ds & c & tail & Hd & Hl & Hc & -> & Ha). exists ds, (c :: tail). repeat split; auto; [now apply (short_fits ds n) |]. now exists c, tail.
  - clear - Hst Hend. intros t k rest Hk. destruct rest as [| c rest].
    { rewrite rfc_accepts_nil. cbn [state at_state]. naive_solver. }
    cbn in Hk. rewrite rfc_accepts_step, Hend by assumption. replace (start + k - start) with k by ring.
    destruct (Z.eqb_spec k n) as [-> | Hne]; [rewrite andb_true_r | rewrite andb_false_r; cbn; rewrite rfc_accepts_error; naive_solver].
    destruct (delim c) eqn:Ec; cbv iota;
      [| rewrite rfc_accepts_error; split; [contradiction | intros (_ & c' & tl & [= -> ->] & Hc & _); congruence]].
    split; [intros Ha; split; [reflexivity | now exists c, rest] | now intros (_ & c' & tl & [= -> ->] & _ & Ha)].
  - intros t' k l (_ & c & tl & -> & Hc & _). cbn. auto.
Qed.

Definition is_colon (c : Z) : bool := c =? 58.

Lemma space_no_digit c : aws_isspace c = true -> aws_isdigit c = false.
Proof.
  destruct (aws_isdigit c) eqn:E; [| reflexivity]. apply isdigit_range in E. unfold aws_isspace. cbn [existsb]. lia.
Qed.

Lemma colon_no_digit c : is_colon c = true -> aws_isdigit c = false.
Proof. unfold is_colon. intros E%Z.eqb_eq. now subst. Qed.

(** In a state that collects digits, a digit and then a delimiter. *)
Ltac solve_delimited := split; intros ? ? ? ? c Hc; unfold rfc_822_step; cbn [state at_state state_start_index parsed_time]; rewrite Hc;
  unfold is_colon; [ | now destruct (_ && _)].

Lemma delimited_hour : delimited ON_HOUR ON_MINUTE f_hour is_colon 2 (fun t => t).
Proof. solve_delimited. pose proof (colon_no_digit c) as H. unfold is_colon in H. destruct (c =? 58); [rewrite H in Hc; easy | reflexivity]. Qed.

Lemma delimited_minute : delimited ON_MINUTE ON_SECOND f_min is_colon 2 (fun t => t).
Proof. solve_delimited. pose proof (colon_no_digit c) as H. unfold is_colon in H. destruct (c =? 58); [rewrite H in Hc; easy | reflexivity]. Qed.

Lemma delimited_second : delimited ON_SECOND ON_TZ f_sec aws_isspace 2 (fun t => t).
Proof. solve_delimited. pose proof (space_no_digit c) as H. destruct (aws_isspace c); [rewrite H in Hc; easy | reflexivity]. Qed.

(** ** The time *)

Definition zone_text (z : list Z) : Prop := Forall (fun c => zone_char c = true) z /\ zlength z <= 5.

Definition rfc_time (t : tm) (l : list Z) (r : tm) (tz' : list Z) : Prop :=
  exists h m s sp z, digits h /\ zlength h = 2 /\ digits m /\ zlength m = 2 /\ digits s /\ zlength s = 2
    /\ aws_isspace sp = true /\ zone_text z /\ l = h ++ 58 :: m ++ 58 :: s ++ sp :: z
    /\ r = set_time t (number h) (number m) (number s) /\ tz' = padded z.

Lemma rfc_hour index t rest r tz' : no_time t ->
  rfc_accepts (at_state ON_HOUR index t) (padded []) index rest r tz' <-> rfc_time t rest r tz'.
Proof.
  intros (Hh & Hm & Hs).
  rewrite (rfc_delimited ON_HOUR ON_MINUTE f_hour is_colon 2 (fun t => t)) by (easy || apply delimited_hour || apply colon_no_digit).
  assert (forall start t rest, rfc_accepts (at_state ON_TZ start t) (padded []) start rest r tz' <-> zone_text rest /\ r = t /\ tz' = padded rest) as Htz.
  { intros start t0 rest0. pose proof (rfc_tz start t0 rest0 r tz' []) as H. rewrite Z.add_0_r in H. rewrite H by (cbn; lia). 
    unfold zone_text. change (zlength []) with 0. cbn. tauto. }
  unfold rfc_time. split.
  - intros (h & c & tl & ? & ? & Hc & -> & Ha). apply Z.eqb_eq in Hc as ->.
    rewrite (rfc_delimited ON_MINUTE ON_SECOND f_min is_colon 2 (fun t => t)) in Ha by (easy || apply delimited_minute || apply colon_no_digit).
    destruct Ha as (m & c & tl2 & ? & ? & Hc & -> & Ha). apply Z.eqb_eq in Hc as ->.
    rewrite (rfc_delimited ON_SECOND ON_TZ f_sec aws_isspace 2 (fun t => t)) in Ha by (easy || apply delimited_second || apply space_no_digit).
    destruct Ha as (s & c & tl3 & ? & ? & Hc & -> & Ha). apply Htz in Ha as (? & -> & ->). exists h, m, s, c, tl3.
    repeat match goal with |- _ /\ _ => split end; auto.
  - intros (h & m & s & sp & z & ? & ? & ? & ? & ? & ? & Hsp & Hz & -> & -> & ->). exists h, 58, (m ++ 58 :: s ++ sp :: z). repeat split; auto.
    rewrite (rfc_delimited ON_MINUTE ON_SECOND f_min is_colon 2 (fun t => t)) by (easy || apply delimited_minute || apply colon_no_digit).
    exists m, 58, (s ++ sp :: z). repeat split; auto.
    rewrite (rfc_delimited ON_SECOND ON_TZ f_sec aws_isspace 2 (fun t => t)) by (easy || apply delimited_second || apply space_no_digit).
    exists s, sp, z. repeat split; auto. now apply Htz.
Qed.

(** ** The date *)

(** Four digits, or two that count from 2000. *)
Definition rfc_year (y : list Z) (v : Z) : Prop :=
  digits y /\ (zlength y = 4 /\ v = number y - 1900 \/ zlength y = 2 /\ v = number y + (2000 - 1900)).

Lemma rfc_on_year index t rest r tz' : tm_year t = 0 -> no_time t ->
  rfc_accepts (at_state ON_YEAR index t) (padded []) index rest r tz' <->
  exists y v sp tail, rfc_year y v /\ aws_isspace sp = true /\ rest = y ++ sp :: tail /\ rfc_time (set_year t v) tail r tz'.
Proof.
  intros E0 Ht.
  rewrite (rfc_field ON_YEAR f_year (fun t' k rest => exists v sp tail, (k = 4 /\ v = tm_year t' - 1900 \/ k = 2 /\ v = tm_year t' + (2000 - 1900))
      /\ aws_isspace sp = true /\ rest = sp :: tail
      /\ rfc_accepts (at_state ON_HOUR (index + k + 1) (set_year t' v)) (padded []) (index + k + 1) tail r tz'));
    [ | | | | exact E0]; cbn [get set f_year].
  - split.
    + intros (y & tl & Hd & _ & -> & v & sp & tl2 & Hv & Hsp & -> & Ha). rewrite rfc_hour in Ha by exact Ht.
      exists y, v, sp, tl2. now repeat split.
    + intros (y & v & sp & tl & [Hd Hv] & Hsp & -> & Ha). exists y, (sp :: tl). split; [exact Hd |].
      split; [destruct Hv as [[Hl _] | [Hl _]]; apply (short_fits y _ Hd Hl); lia |]. split; [reflexivity |].
      exists v, sp, tl. rewrite rfc_hour by exact Ht. now repeat split.
  - clear. intros start t tz index c Hc. unfold rfc_822_step. cbn [state at_state state_start_index parsed_time].
    pose proof (space_no_digit c) as H. destruct (aws_isspace c); [rewrite H in Hc; easy |]. cbn [andb]. rewrite Hc. reflexivity.
  - clear. intros t k rest Hk. destruct rest as [| c rest].
    { rewrite rfc_accepts_nil. cbn [state at_state]. naive_solver. }
    cbn in Hk. rewrite rfc_accepts_step. unfold rfc_822_step. cbn [state at_state state_start_index parsed_time]. rewrite Hk.
    replace (index + k - index) with k by ring. destruct (aws_isspace c) eqn:Ec; cbn [andb].
    + destruct (Z.eqb_spec k 4) as [-> | H4]; [| destruct (Z.eqb_spec k 2) as [-> | H2]]; cbn.
      * split; [intros Ha; exists (tm_year t - 1900), c, rest; repeat split; auto |].
        intros (v & sp & tl & [[_ ->] | [? _]] & _ & [= -> ->] & Ha); [exact Ha | lia].
      * split; [intros Ha; exists (tm_year t + 100), c, rest; repeat split; auto |].
        intros (v & sp & tl & [[? _] | [_ ->]] & _ & [= -> ->] & Ha); [lia | exact Ha].
      * rewrite rfc_accepts_error. split; [contradiction |]. now intros (v & sp & tl & [[? _] | [? _]] & _).
    + cbn -[aws_isspace]. rewrite rfc_accepts_error. split; [contradiction |]. intros (v & sp & tl & _ & Hsp & [= -> ->] & _). congruence.
  - intros t' k l (v & sp & tl & _ & Hsp & -> & _). now apply space_no_digit.
Qed.

(** ** The month *)

Definition month_names : list (list Z) :=
  [text "jan"; text "feb"; text "mar"; text "apr"; text "may"; text "jun";
   text "jul"; text "aug"; text "sep"; text "oct"; text "nov"; text "dec"].

(** The first three letters name the month [m], in any case. *)
Definition month_text (mon : list Z) (m : Z) : Prop :=
  exists a b c tail, mon = a :: b :: c :: tail /\ zlookup month_names m = Some [ascii_lower a; ascii_lower b; ascii_lower c].

Lemma triplet_sum a b c : is_u8 (ascii_lower a) -> is_u8 (ascii_lower b) ->
  STR_TRIPLET_TO_INDEX a b c = ascii_lower a + ascii_lower b * 2 ^ 8 + ascii_lower c * 2 ^ 16.
Proof.
  unfold is_u8. intros Ha Hb. unfold STR_TRIPLET_TO_INDEX. rewrite Z.shiftl_0_r, (Z.lor_comm (ascii_lower a)), lor_shiftl_add by lia.
  rewrite Z.lor_comm, lor_shiftl_add by lia. ring.
Qed.

Lemma alpha_lower c : aws_isalpha c = true -> 97 <= ascii_lower c <= 122.
Proof. unfold aws_isalpha, ascii_lower, between. intros H. repeat zcase; lia. Qed.

Lemma space_lower c : aws_isspace c = true -> 0 <= ascii_lower c <= 32.
Proof. unfold aws_isspace, ascii_lower, between. cbn [existsb]. intros H. repeat zcase; lia. Qed.

(** The month that a triplet of letters names. *)
Lemma find_month a b c m : is_u8 (ascii_lower a) -> is_u8 (ascii_lower b) -> is_u8 (ascii_lower c) ->
  (find_triplet (STR_TRIPLET_TO_INDEX a b c) 0 month_triplets = m /\ -1 < m)
  <-> zlookup month_names m = Some [ascii_lower a; ascii_lower b; ascii_lower c].
Proof.
  intros Ha Hb Hc. rewrite triplet_sum by assumption. unfold is_u8 in *.
  set (x := ascii_lower a) in *. set (y := ascii_lower b) in *. set (z := ascii_lower c) in *. clearbody x y z. split.
  - set (v := x + y * 2 ^ 8 + z * 2 ^ 16). assert (x = v mod 2 ^ 8 /\ y = v / 2 ^ 8 mod 2 ^ 8 /\ z = v / 2 ^ 16) as Hv.
    { clear - Ha Hb Hc. unfold v. Z.div_mod_to_equations. lia. }
    clearbody v. destruct Hv as (-> & -> & ->). clear. intros [E Hm]. rewrite (eq_refl : month_triplets = ltac:(let l := eval vm_compute in month_triplets in exact l)) in E.
    cbn [find_triplet] in E.
    repeat match type of E with (if ?k =? v then _ else _) = _ => destruct (Z.eqb_spec k v) as [Ek | _]; [rewrite <- Ek, <- E; vm_compute; reflexivity |] end.
    lia.
  - intros E. pose proof (zlookup_lt _ _ _ E) as Hm. revert E. change (zlength month_names) with 12 in Hm.
    clear - Hm. revert m Hm. apply (month_cases (fun m => zlookup month_names m = _ -> _)); intros [= <- <- <-]; vm_compute; auto.
Qed.

Lemma space_no_alpha c : aws_isspace c = true -> aws_isalpha c = false.
Proof. unfold aws_isspace, aws_isalpha, between. cbn [existsb]. lia. Qed.

Definition alphas (l : list Z) : Prop := Forall (fun c => aws_isalpha c = true) l.

Lemma rfc_month_loop start t r tz' rest : forall index,
  rfc_accepts (at_state ON_MONTH start t) (padded []) index rest r tz' <->
  exists mon sp tail, alphas mon /\ aws_isspace sp = true /\ rest = mon ++ sp :: tail /\
    let m := get_month_number_from_str date_str start (index + zlength mon + 1) in
    -1 < m /\ rfc_accepts (at_state ON_YEAR (index + zlength mon + 1) (set_mon t m)) (padded []) (index + zlength mon + 1) tail r tz'.
Proof.
  induction rest as [| c rest IH]; intros index.
  { rewrite rfc_accepts_nil. split; [now intros (_ & _ & ? & _) |]. intros (mon & sp & tl & _ & _ & E & _). now destruct mon. }
  rewrite rfc_accepts_step. unfold rfc_822_step. cbn [state at_state state_start_index parsed_time].
  destruct (aws_isspace c) eqn:Es; [| destruct (aws_isalpha c) eqn:Ea]; cbn -[aws_isspace aws_isalpha get_month_number_from_str].
  - set (m := get_month_number_from_str date_str start (index + 1)).
    assert ((match (if -1 <? m then go (at_state ON_MONTH start t) ON_YEAR (index + 1) (set_mon t m) else fail (at_state ON_MONTH start t))
              ≫= (fun p => Some (p, padded [])) with Some (p1, tz1) => rfc_accepts p1 tz1 (index + 1) rest r tz' | None => False end)
            <-> -1 < m /\ rfc_accepts (at_state ON_YEAR (index + 1) (set_mon t m)) (padded []) (index + 1) rest r tz') as H.
    { destruct (Z.ltb_spec (-1) m); cbn; [naive_solver |]. rewrite rfc_accepts_error. split; [contradiction | lia]. }
    etransitivity; [exact H |]. split.
    + intros Ha. exists [], c, rest. change (zlength []) with 0. rewrite Z.add_0_r. now repeat constructor.
    + intros (mon & sp & tl & Hal & Hs & E & Ha). destruct mon as [| d mon]; [| injection E as -> ->; inversion Hal; subst; rewrite space_no_alpha in *; easy].
      injection E as -> ->. change (zlength []) with 0 in Ha. now rewrite Z.add_0_r in Ha.
  - rewrite IH. split.
    + intros (mon & sp & tl & Hal & Hs & -> & Ha). exists (c :: mon), sp, tl. rewrite zlength_cons. 
      replace (index + (1 + zlength mon) + 1) with (index + 1 + zlength mon + 1) by ring.
      split; [now constructor |]. split; [exact Hs |]. split; [reflexivity | exact Ha].
    + intros (mon & sp & tl & Hal & Hs & E & Ha). destruct mon as [| d mon]; injection E as -> ->; [congruence |].
      rewrite zlength_cons in Ha. replace (index + (1 + zlength mon) + 1) with (index + 1 + zlength mon + 1) in Ha by ring.
      inversion Hal; subst. now exists mon, sp, tl.
  - rewrite rfc_accepts_error. split; [contradiction |]. intros (mon & sp & tl & Hal & Hs & E & _).
    destruct mon as [| d mon]; injection E as -> ->; [congruence |]. inversion Hal; congruence.
Qed.

(** The year and all that follows. *)
Definition rfc_from_year (t : tm) (l : list Z) (r : tm) (tz' : list Z) : Prop :=
  exists y v sp tail, rfc_year y v /\ aws_isspace sp = true /\ l = y ++ sp :: tail /\ rfc_time (set_year t v) tail r tz'.

Definition rfc_from_month (t : tm) (l : list Z) (r : tm) (tz' : list Z) : Prop :=
  exists mon m sp tail, alphas mon /\ month_text mon m /\ aws_isspace sp = true /\ l = mon ++ sp :: tail
    /\ rfc_from_year (set_mon t m) tail r tz'.

Lemma get_month_eq start mon sp tail m : 0 <= start -> alphas mon -> aws_isspace sp = true ->
  drop (Z.to_nat start) date_str = mon ++ sp :: tail ->
  (get_month_number_from_str date_str start (start + zlength mon + 1) = m /\ -1 < m) <-> month_text mon m.
Proof.
  intros Hst Hal Hs E. unfold get_month_number_from_str. rewrite E. unfold month_text.
  replace (start + zlength mon + 1 - start) with (zlength mon + 1) by ring.
  pose proof (space_lower sp Hs) as Hsl.
  destruct mon as [| a [| b [| c mon]]]; rewrite ?zlength_cons, ?zlength_nil.
  - change (0 + 1 <? 3) with true. split; [lia | naive_solver].
  - change (1 + 0 + 1 <? 3) with true. split; [lia | naive_solver].
  - change (1 + (1 + 0) + 1 <? 3) with false. cbn [app triplet_of].
    inversion Hal as [| ? ? Ha Hal2]; subst. inversion Hal2 as [| ? ? Hb _]; subst. apply alpha_lower in Ha, Hb.
    rewrite find_month by (unfold is_u8; lia). split; [| naive_solver].
    intros Em. exfalso. pose proof (zlookup_lt _ _ _ Em) as Hm. change (zlength month_names) with 12 in Hm. revert Em Hsl. clear - Hm.
    revert m Hm. apply (month_cases (fun m => zlookup month_names m = _ -> _ -> False)); intros [= _ _ <-]; vm_compute; intros []; auto.
  - pose proof (zlength_nonneg mon). destruct (Z.ltb_spec (1 + (1 + (1 + zlength mon)) + 1) 3); [lia |]. cbn [app triplet_of].
    inversion Hal as [| ? ? Ha Hal2]; subst. inversion Hal2 as [| ? ? Hb Hal3]; subst. inversion Hal3 as [| ? ? Hc _]; subst.
    apply alpha_lower in Ha, Hb, Hc. rewrite find_month by (unfold is_u8; lia). naive_solver.
Qed.

Lemma rfc_month start t rest r tz' : 0 <= start -> drop (Z.to_nat start) date_str = rest -> tm_year t = 0 -> no_time t ->
  rfc_accepts (at_state ON_MONTH start t) (padded []) start rest r tz' <-> rfc_from_month t rest r tz'.
Proof.
  intros Hst Hdrop Hy Ht. rewrite rfc_month_loop. unfold rfc_from_month. split.
  - intros (mon & sp & tl & Hal & Hs & -> & Hm & Ha). rewrite rfc_on_year in Ha by assumption.
    exists mon, (get_month_number_from_str date_str start (start + zlength mon + 1)), sp, tl. repeat split; auto.
    now rewrite <- (get_month_eq start mon sp tl).
  - intros (mon & m & sp & tl & Hal & Hmt & Hs & -> & Ha). exists mon, sp, tl. 
    rewrite <- (get_month_eq start mon sp tl) in Hmt by assumption. destruct Hmt as [-> Hm]. repeat split; auto.
    rewrite rfc_on_year by assumption. exact Ha.
Qed.

(** ** The day and the weekday *)

Definition rfc_from_day (t : tm) (l : list Z) (r : tm) (tz' : list Z) : Prop :=
  exists d sp tail, digits d /\ in_int (number d) = true /\ aws_isspace sp = true /\ l = d ++ sp :: tail
    /\ rfc_from_month (set_mday t (number d)) tail r tz'.

Lemma drop_next (l : list Z) index pre c tail : 0 <= index -> drop (Z.to_nat index) l = pre ++ c :: tail ->
  drop (Z.to_nat (index + zlength pre + 1)) l = tail.
Proof.
  intros Hi E. unfold zlength. replace (Z.to_nat (index + Z.of_nat (length pre) + 1)) with (Z.to_nat index + S (length pre))%nat by lia.
  rewrite <- drop_drop, E, drop_app. rewrite drop_ge by lia. now replace (S (length pre) - length pre)%nat with 1%nat by lia.
Qed.

Lemma rfc_day start index t rest r tz' : 0 <= index -> drop (Z.to_nat index) date_str = rest ->
  tm_mday t = 0 -> tm_year t = 0 -> no_time t ->
  rfc_accepts (at_state ON_MONTH_DAY start t) (padded []) index rest r tz' <-> rfc_from_day t rest r tz'.
Proof.
  intros Hi Hdrop E0 Hy Ht.
  rewrite (run_field f_mday (fun t' index' rest => rfc_accepts (at_state ON_MONTH_DAY start t') (padded []) index' rest r tz')
    (fun t' n rest => exists sp tail, aws_isspace sp = true /\ rest = sp :: tail
      /\ rfc_accepts (at_state ON_MONTH (index + n + 1) t') (padded []) (index + n + 1) tail r tz'));
    [ | | | | exact E0]; cbn [get set f_mday].
  - unfold rfc_from_day. split.
    + intros (d & tail & Hd & Hin & -> & sp & tl & Hs & -> & Ha). exists d, sp, tl. repeat split; auto.
      rewrite rfc_month in Ha; auto; [pose proof (zlength_nonneg d); lia | now apply (drop_next _ _ d sp)].
    + intros (d & sp & tl & Hd & Hin & Hs & -> & Ha). exists d, (sp :: tl). repeat split; auto. exists sp, tl. repeat split; auto.
      rewrite rfc_month; auto; [pose proof (zlength_nonneg d); lia | now apply (drop_next _ _ d sp)].
  - clear. intros t index c rest Hc. rewrite rfc_accepts_step. unfold rfc_822_step. cbn [state at_state]. rewrite Hc, (more_at f_mday).
    cbn [get set f_mday]. destruct (in_int _); cbn; naive_solver.
  - clear. intros t n rest Hn. destruct rest as [| c rest].
    { rewrite rfc_accepts_nil. cbn [state at_state]. naive_solver. }
    cbn in Hn. rewrite rfc_accepts_step. unfold rfc_822_step. cbn [state at_state parsed_time]. rewrite Hn.
    destruct (aws_isspace c) eqn:Es; cbn -[aws_isspace].
    + split; [intros Ha; now exists c, rest | now intros (sp & tl & _ & [= -> ->] & Ha)].
    + rewrite rfc_accepts_error. split; [contradiction |]. intros (sp & tl & Hs & [= -> ->] & _). congruence.
  - intros t' n l (sp & tl & Hs & -> & _). now apply space_no_digit.
Qed.

(** A weekday is skipped; without one, so is the first digit of the day. *)
Definition rfc_822_text (l : list Z) (r : tm) (tz' : list Z) : Prop :=
  exists w tail, alphas w /\ rfc_from_day zero_tm tail r tz'
    /\ ((exists sp, aws_isspace sp = true /\ l = w ++ 44 :: sp :: tail) \/ (exists d, aws_isdigit d = true /\ l = w ++ d :: tail)).

Lemma rfc_space start t index rest r tz' : rfc_accepts (at_state ON_SPACE_DELIM start t) (padded []) index rest r tz' <->
  exists sp tail, aws_isspace sp = true /\ rest = sp :: tail
    /\ rfc_accepts (at_state ON_MONTH_DAY (index + 1) t) (padded []) (index + 1) tail r tz'.
Proof.
  destruct rest as [| c rest]; [rewrite rfc_accepts_nil; cbn [state at_state]; naive_solver |].
  rewrite rfc_accepts_step. unfold rfc_822_step. cbn [state at_state parsed_time].
  destruct (aws_isspace c) eqn:Es; cbn -[aws_isspace].
  - split; [intros Ha; now exists c, rest | now intros (sp & tl & _ & [= -> ->] & Ha)].
  - rewrite rfc_accepts_error. split; [contradiction |]. intros (sp & tl & Hs & [= -> ->] & _). congruence.
Qed.

Lemma rfc_weekday r tz' rest : forall index, 0 <= index -> drop (Z.to_nat index) date_str = rest ->
  rfc_accepts (at_state ON_WEEKDAY 0 zero_tm) (padded []) index rest r tz' <-> rfc_822_text rest r tz'.
Proof.
  induction rest as [| c rest IH]; intros index Hi Hdrop.
  { rewrite rfc_accepts_nil. split; [now intros (_ & _ & ? & _) |]. intros (w & tl & _ & _ & [(sp & _ & E) | (d & _ & E)]); now destruct w. }
  assert (drop (Z.to_nat (index + 1)) date_str = rest) as Hdrop1.
  { pose proof (drop_next date_str index [] c rest Hi Hdrop) as E. change (zlength []) with 0 in E. now rewrite Z.add_0_r in E. }
  rewrite rfc_accepts_step. unfold rfc_822_step. cbn [state at_state parsed_time].
  destruct (Z.eqb_spec c 44) as [-> | H44]; [| destruct (aws_isdigit c) eqn:Ed; [| destruct (aws_isalpha c) eqn:Ea]];
    cbn -[aws_isspace aws_isalpha aws_isdigit].
  - change (mk_parser ON_SPACE_DELIM _ _ _) with (at_state ON_SPACE_DELIM (index + 1) zero_tm). rewrite rfc_space. split.
    + intros (sp & tl & Hs & -> & Ha). rewrite rfc_day in Ha; try easy; try lia;
        [| pose proof (drop_next date_str (index + 1) [] sp tl ltac:(lia) Hdrop1) as E; change (zlength []) with 0 in E; now rewrite Z.add_0_r in E].
      exists [], tl. repeat split; [constructor | exact Ha |]. left. now exists sp.
    + intros (w & tl & Hw & Ha & [(sp & Hs & E) | (d & Hd & E)]); (destruct w as [| x w]; [| injection E as <- _; inversion Hw; discriminate]);
        [injection E as -> | injection E as <- _; discriminate].
      exists sp, tl. repeat split; auto. rewrite rfc_day; try easy; try lia.
      pose proof (drop_next date_str (index + 1) [] sp tl ltac:(lia) Hdrop1) as E; change (zlength []) with 0 in E; now rewrite Z.add_0_r in E.
  - change (mk_parser ON_MONTH_DAY _ _ _) with (at_state ON_MONTH_DAY 0 zero_tm). rewrite rfc_day; try easy; try lia. split.
    + intros Ha. exists [], rest. repeat split; [constructor | exact Ha |]. right. now exists c.
    + intros (w & tl & Hw & Ha & [(sp & Hs & E) | (d & Hd & E)]); destruct w as [| x w]; injection E as -> ->; try easy;
        inversion Hw as [| ? ? Hx _]; subst; unfold aws_isalpha, aws_isdigit, between in *; lia.
  - rewrite IH; [| lia | exact Hdrop1]. split; intros (w & tl & Hw & Ha & Hl).
    + exists (c :: w), tl. split; [now constructor |]. split; [exact Ha |]. destruct Hl as [(sp & Hs & ->) | (d & Hd & ->)]; [left; now exists sp | right; now exists d].
    + destruct w as [| x w]; [destruct Hl as [(sp & Hs & [= -> ->]) | (d & Hd & [= -> ->])]; [easy | congruence] |].
      inversion Hw; subst. exists w, tl. repeat split; auto.
      destruct Hl as [(sp & Hs & [= -> ->]) | (d & Hd & [= -> ->])]; [left; now exists sp | right; now exists d].
  - rewrite rfc_accepts_error. split; [contradiction |]. intros (w & tl & Hw & Ha & Hl).
    destruct w as [| x w]; destruct Hl as [(sp & Hs & [= -> ->]) | (d & Hd & [= -> ->])]; try easy; try congruence; inversion Hw; congruence.
Qed.
End rfc.

Lemma rfc_loop_exact l p tz : (rfc_822_loop l (start_parser ON_WEEKDAY) (replicate 6 0) 0 l = Some (p, tz)
    /\ error p = false /\ state p = ON_TZ) -> rfc_822_text l (parsed_time p) tz.
Proof.
  intros (E & He & Hs). apply (rfc_weekday l (parsed_time p) tz l 0); [lia | reflexivity |]. now exists p.
Qed.
