(* ===== verification/DateTimeSpec.v ===== *)
(** * Dates: theorems

    What the parsers accept, printing and parsing back, and conversions of
    timestamps. *)

From Stdlib Require Ascii String.
From S2P Require Import Prelude Math Memory ByteBuf ByteBufSpec Calendar DateTime.
From S2P Require Import DateTimeParse DateTimeRfc.
Import (notations, coercions) String.
Import ByteBuf DateTime.

Local Open Scope Z_scope.

(** ** Time zones *)

(** The zones that stand for UTC or give an offset from it. *)
Definition utc_zone (z : list Z) : Prop :=
  (exists tail, z = 90 :: tail)
  \/ (zlength z = 5 /\ exists tail, z = 43 :: tail \/ z = 45 :: tail)
  \/ map ascii_lower z = text "ut"
  \/ (exists a b c tail, z = a :: b :: c :: tail
       /\ (map ascii_lower [a; b; c] = text "utc" \/ map ascii_lower [a; b; c] = text "gmt")).

Lemma zone_char_nonzero c : zone_char c = true -> c <> 0.
Proof. intros E ->. discriminate. Qed.

Lemma index_of_app_zero z n : Forall (fun c => zone_char c = true) z -> index_of 0 (z ++ 0 :: replicate n 0) = Some (zlength z).
Proof.
  induction 1 as [| c z Hc _ IH]; [reflexivity |]. cbn [app index_of]. apply zone_char_nonzero in Hc.
  destruct (Z.eqb_spec c 0); [contradiction |]. rewrite IH, zlength_cons. cbn. f_equal. lia.
Qed.

Lemma c_text_padded z : zone_text z -> c_text (padded z) = z.
Proof.
  intros [Hz Hl]. unfold c_text, padded. unfold zlength in Hl. replace (6 - length z)%nat with (S (5 - length z)) by lia. cbn [replicate].
  rewrite index_of_app_zero by exact Hz. cbn [from_option id]. unfold zlength. rewrite Nat2Z.id. apply take_app_length.
Qed.

Lemma zone_lower c : zone_char c = true -> is_u8 (ascii_lower c).
Proof. unfold zone_char, aws_isalnum, between, ascii_lower, is_u8. intros H. repeat zcase; lia. Qed.

(** A triplet determines its characters up to case. *)
Lemma triplet_eq a b c x y z : is_u8 (ascii_lower a) -> is_u8 (ascii_lower b) -> is_u8 (ascii_lower c) -> is_u8 x -> is_u8 y -> is_u8 z ->
  STR_TRIPLET_TO_INDEX a b c = x + y * 2 ^ 8 + z * 2 ^ 16 <-> map ascii_lower [a; b; c] = [x; y; z].
Proof.
  unfold is_u8. intros Ha Hb Hc Hx Hy Hz. rewrite triplet_sum by (unfold is_u8; lia). cbn [map]. split.
  - intros E. assert (ascii_lower a = x /\ ascii_lower b = y /\ ascii_lower c = z) as (-> & -> & ->); [lia | reflexivity].
  - intros [= -> -> ->]. reflexivity.
Qed.

Lemma is_utc_time_zone_spec z : zone_text z -> is_utc_time_zone (padded z) = true <-> utc_zone z.
Proof.
  intros Hz. unfold is_utc_time_zone. rewrite c_text_padded by exact Hz. destruct Hz as [Hz Hl]. unfold utc_zone. change (text "ut") with [117; 116].
  destruct z as [| a [| b [| c z]]]; cbn [triplet_of].
  - split; [discriminate |]. intros [(? & [=]) | [([=] & _) | [[=] | (? & ? & ? & ? & [=] & _)]]].
  - change (zlength [a]) with 1. change (0 <? 1) with true. change (1 =? 5) with false. change (1 =? 2) with false. change (1 <? 3) with true. cbn [andb].
    change (char_at [a] 0) with a. destruct (Z.eqb_spec a 90) as [-> |]; [split; eauto |]. split; [discriminate |].
    intros [(? & [= -> _]) | [(? & _) | [? | (? & ? & ? & ? & ? & _)]]]; easy.
  - change (zlength [a; b]) with 2. change (0 <? 2) with true. change (2 =? 5) with false. change (2 =? 2) with true. cbn [andb].
    change (char_at [a; b] 0) with a. change (char_at [a; b] 1) with b.
    destruct (Z.eqb_spec a 90) as [-> |]; [split; eauto |]. rewrite andb_true_iff, !Z.eqb_eq. change (text "ut") with [117; 116]. split.
    + intros [E1 E2]. right. right. left. cbn. now rewrite E1, E2.
    + intros [(? & [= -> _]) | [(? & _) | [[= -> ->] | (? & ? & ? & ? & ? & _)]]]; easy.
  - assert (triplet_of (text "utc") = 117 + 116 * 2 ^ 8 + 99 * 2 ^ 16) as -> by reflexivity.
    assert (triplet_of (text "gmt") = 103 + 109 * 2 ^ 8 + 116 * 2 ^ 16) as -> by reflexivity.
    change (text "utc") with [117; 116; 99]. change (text "gmt") with [103; 109; 116]. rewrite !zlength_cons in *.
    apply Forall_cons_1 in Hz as [Ha Hz]. apply Forall_cons_1 in Hz as [Hb Hz]. apply Forall_cons_1 in Hz as [Hc Hz].
    pose proof (zone_lower _ Ha). pose proof (zone_lower _ Hb). pose proof (zone_lower _ Hc).
    change (char_at (a :: b :: c :: z) 0) with a. pose proof (zlength_nonneg z). set (n := 1 + (1 + (1 + zlength z))) in *.
    assert (forall x y w, is_u8 x -> is_u8 y -> is_u8 w -> (STR_TRIPLET_TO_INDEX a b c =? x + y * 2 ^ 8 + w * 2 ^ 16) = true <-> map ascii_lower [a; b; c] = [x; y; w]) as Ht.
    { intros. rewrite Z.eqb_eq. now apply triplet_eq. }
    assert ((STR_TRIPLET_TO_INDEX a b c =? 117 + 116 * 2 ^ 8 + 99 * 2 ^ 16) || (STR_TRIPLET_TO_INDEX a b c =? 103 + 109 * 2 ^ 8 + 116 * 2 ^ 16) = true
      <-> (exists a' b' c' tail, a :: b :: c :: z = a' :: b' :: c' :: tail /\ (map ascii_lower [a'; b'; c'] = [117; 116; 99] \/ map ascii_lower [a'; b'; c'] = [103; 109; 116]))) as Hw.
    { rewrite orb_true_iff, !Ht by (unfold is_u8; lia). split; [intros Hor; now exists a, b, c, z | now intros (? & ? & ? & ? & [= <- <- <- <-] & Hor)]. }
    replace (0 <? n) with true by lia. replace (n =? 2) with false by lia. replace (n <? 3) with false by lia.
    destruct (Z.eqb_spec a 90) as [-> | Hna]; [split; eauto |].
    destruct (Z.eqb_spec n 5) as [-> | Hn5]; cbn [andb].
    + destruct (Z.eqb_spec a 43) as [-> |]; [cbn; split; eauto 8 |]. destruct (Z.eqb_spec a 45) as [-> |]; [cbn; split; eauto 8 |]. cbn [orb].
      rewrite Hw. split; [eauto |]. intros [(? & [= -> _]) | [(_ & ? & [[= -> _] | [= -> _]]) | [? | H5]]]; easy.
    + rewrite Hw. split; [eauto |]. intros [(? & [= -> _]) | [(? & _) | [? | H5]]]; easy.
Qed.

(** ** What the parsers accept *)

Lemma rfc_822_text_zone l r tz' : rfc_822_text l r tz' -> exists z, zone_text z /\ tz' = padded z.
Proof.
  intros (w & tl & _ & (d & sp & tl2 & _ & _ & _ & _ & mon & m & sp2 & tl3 & _ & _ & _ & _ & y & v & sp3 & tl4 & _ & _ & _ &
    h & mi & s & sp4 & z & _ & _ & _ & _ & _ & _ & _ & Hz & _ & _ & ->) & _). now exists z.
Qed.

Lemma char_at_padded z : zone_text z -> (char_at (padded z) 0 =? 0) = bool_decide (z = []).
Proof.
  intros [Hz _]. destruct z as [| c z]; [reflexivity |]. inversion Hz as [| ? ? Hc _]; subst. change (char_at (padded (c :: z)) 0) with c.
  rewrite bool_decide_eq_false_2 by discriminate. apply Z.eqb_neq. now apply zone_char_nonzero.
Qed.

Lemma s_parse_rfc_822_exact l r tz' utc : s_parse_rfc_822 l (replicate 6 0) false = Some (true, r, tz', utc) <->
  exists z, rfc_822_text l r (padded z) /\ zone_text z /\ tz' = padded z
    /\ ((z = [] /\ utc = false) \/ (utc_zone z /\ utc = true)).
Proof.
  unfold s_parse_rfc_822. change (replicate 6 0) with (padded []). change (start_parser ON_WEEKDAY) with (at_state ON_WEEKDAY 0 zero_tm). split.
  - destruct (rfc_822_loop _ _ _ _ _) as [[p tz] |] eqn:El; [| discriminate]. cbn [mbind option_bind]. intros E.
    assert (error p = false /\ state p = ON_TZ /\ parsed_time p = r /\ tz = tz'
      /\ utc = is_utc_time_zone tz' && negb (char_at tz' 0 =? 0) /\ (char_at tz' 0 = 0 \/ is_utc_time_zone tz' = true)) as (He & Hst & Hr & <- & Hutc & Hz).
    { destruct (Z.eqb_spec (char_at tz 0) 0) as [E0 | E0]; cbn [negb] in E; injection E as E1 <- <- <-;
        apply negb_true_iff, orb_false_iff in E1 as [E1 E2]; apply negb_false_iff, bool_decide_eq_true in E2.
      - rewrite E0, Z.eqb_refl, andb_false_r. auto 8.
      - apply orb_false_iff in E1 as [E1 E3]. apply negb_false_iff in E3. rewrite E3. apply Z.eqb_neq in E0. rewrite E0. auto 8. }
    assert (rfc_822_text l r tz) as Ht.
    { apply (rfc_weekday l r tz l 0); [lia | reflexivity |]. now exists p. }
    destruct (rfc_822_text_zone _ _ _ Ht) as (z & Hzt & ->). exists z. repeat match goal with |- _ /\ _ => split end; auto.
    rewrite char_at_padded in Hutc by exact Hzt. destruct (is_utc_time_zone (padded z)) eqn:Eu.
    + right. apply is_utc_time_zone_spec in Eu; [| exact Hzt]. split; [exact Eu |]. rewrite Hutc. 
      rewrite bool_decide_eq_false_2; [reflexivity |]. intros ->. destruct Eu as [(? & [=]) | [([=] & _) | [[=] | (? & ? & ? & ? & [=] & _)]]].
    + left. destruct Hz as [Hz | Hz]; [| discriminate]. split; [| now rewrite Hutc]. apply Z.eqb_eq in Hz. rewrite char_at_padded in Hz by exact Hzt.
      now apply bool_decide_eq_true in Hz.
  - intros (z & Ht & Hzt & -> & Hz). apply (rfc_weekday l r (padded z) l 0) in Ht; [| lia | reflexivity].
    destruct Ht as (p & El & He & Hst & <-). rewrite El. cbn [mbind option_bind]. rewrite char_at_padded, He, Hst by exact Hzt.
    rewrite (bool_decide_eq_true_2 (ON_TZ = ON_TZ)) by reflexivity.
    destruct Hz as [(-> & ->) | (Hz & ->)]; [reflexivity |].
    rewrite bool_decide_eq_false_2 by (intros ->; destruct Hz as [(? & [=]) | [([=] & _) | [[=] | (? & ? & ? & ? & [=] & _)]]]).
    apply is_utc_time_zone_spec in Hz; [| exact Hzt]. now rewrite Hz.
Qed.


(** The header promises that any zone but UTC's and offsets fails. *)
Example odd_zones_are_taken :
  is_utc_time_zone (padded (text "Zabcd")) = true /\ is_utc_time_zone (padded (text "+abcd")) = true /\ is_utc_time_zone (padded (text "gmt-5")) = true.
Proof. vm_compute. auto. Qed.
