(* ===== verification/DateTimePrint.v ===== *)
(** * Dates: printing and parsing back *)

From Stdlib Require Ascii String.
From S2P Require Import Prelude Math Memory ByteBuf ByteBufSpec Calendar DateTime.
From S2P Require Import DateTimeParse DateTimeRfc DateTimeSpec.
Import (notations, coercions) String.
Import ByteBuf DateTime.

Local Open Scope Z_scope.

(** ** Printed numbers *)

Lemma digit_isdigit v : 0 <= v < 10 -> aws_isdigit (digit v) = true.
Proof. intros H. apply isdigit_range. unfold digit. lia. Qed.

Lemma two_digits_ok n : 0 <= n < 100 -> digits (two_digits n) /\ zlength (two_digits n) = 2 /\ number (two_digits n) = n.
Proof.
  intros H. rewrite two_digits_eq by exact H. split; [| split; [reflexivity |]].
  - repeat constructor; apply digit_isdigit; Z.div_mod_to_equations; lia.
  - unfold number, number_from, digit. cbn [fold_left]. Z.div_mod_to_equations. lia.
Qed.

Lemma year_ok y : 1000 <= y < 10000 -> digits (decimal y) /\ zlength (decimal y) = 4 /\ number (decimal y) = y.
Proof.
  intros H. rewrite decimal_year by exact H. split; [| split; [reflexivity |]].
  - repeat constructor; apply digit_isdigit; Z.div_mod_to_equations; lia.
  - unfold number, number_from, digit. cbn [fold_left]. Z.div_mod_to_equations. lia.
Qed.

(** ** Dates that print with four digits of the year *)

(** From the year 1000 to the year 9999. *)
Definition printable (t : Z) : Prop := -30610224000 <= t <= 253402300799.

Lemma month_length leap m : 0 <= m < 12 -> days_before_month leap (m + 1) - days_before_month leap m <= 31.
Proof. revert m. apply month_cases; destruct leap; vm_compute; discriminate. Qed.

Lemma mday_range x : tm_ok x -> 1 <= tm_mday x <= 31.
Proof. intros [_ _ _ Hm [H1 H2]]. pose proof (month_length (is_leap (tm_year x + 1900)) _ Hm). lia. Qed.

Lemma year_of_day_range d a b : days_before_year a <= d < days_before_year b -> a <= year_of_day d < b.
Proof.
  intros H. pose proof (year_of_day_ok d) as Hy. set (y := year_of_day d) in *.
  assert (forall a b, a <= b -> days_before_year a <= days_before_year b) as Hmono.
  { intros p q Hpq. unfold days_before_year. Z.div_mod_to_equations. lia. }
  split.
  - destruct (Z.le_gt_cases a y) as [| Hlt]; [assumption |]. specialize (Hmono (y + 1) a). lia.
  - destruct (Z.lt_ge_cases y b) as [| Hge]; [assumption |]. specialize (Hmono b y). lia.
Qed.

Lemma printable_time t : printable t ->
  exists x, gmtime t = Some x /\ tm_ok x /\ timegm x = t /\ 1000 <= tm_year x + 1900 < 10000 /\ 0 <= tm_wday x < 7.
Proof.
  intros Ht. unfold printable in Ht.
  assert (1000 <= year_of_day (t / 86400 + epoch_day) < 10000) as Hy.
  { apply year_of_day_range. change (days_before_year 1000) with 365243. change (days_before_year 10000) with 3652425.
    unfold epoch_day. Z.div_mod_to_equations. lia. }
  assert (exists x, gmtime t = Some x) as [x E].
  { unfold gmtime. rewrite (proj2 (in_int_spec _)) by lia. eauto. }
  exists x. destruct (gmtime_ok t x E) as [Hok Hx]. split; [exact E |]. split; [exact Hok |]. split; [exact Hx |].
  unfold gmtime in E. destruct (in_int _); [| discriminate]. injection E as <-. cbn. split; [lia | apply Z.mod_pos_bound; lia].
Qed.

(** The fields that the calendar reads. *)
Lemma timegm_fields x : timegm (set_time (set_mday (set_mon (set_year zero_tm (tm_year x)) (tm_mon x)) (tm_mday x)) (tm_hour x) (tm_min x) (tm_sec x)) = timegm x.
Proof. reflexivity. Qed.

(** ** Detecting the format *)

Lemma iso_fails_first c rest : aws_isdigit c = false -> exists t, s_parse_iso_8601 (c :: rest) = Some (false, t).
Proof.
  intros Hc. exists zero_tm. unfold s_parse_iso_8601.
  assert (iso_runs (start_parser ON_YEAR) 0 (c :: rest) (mk_parser ON_YEAR 0 true zero_tm)) as Hr.
  { apply (iso_adv _ _ _ _ (mk_parser ON_YEAR 0 true zero_tm)); [reflexivity | |].
    - unfold iso_8601_step. cbn [start_parser state state_start_index]. rewrite andb_false_r, Hc. reflexivity.
    - destruct rest; constructor. reflexivity. }
  rewrite (iso_runs_loop _ _ _ _ Hr); [reflexivity |]. change (0 - _ =? 2) with false. cbv iota. lia.
Qed.

Lemma basic_fails_first c rest : aws_isdigit c = false -> exists t, s_parse_iso_8601_basic (c :: rest) = Some (false, t).
Proof.
  intros Hc. exists zero_tm. unfold s_parse_iso_8601_basic. cbn [iso_8601_basic_loop].
  change (is_finished _ || _) with false. cbv iota. unfold iso_8601_basic_step. cbn [start_parser state]. rewrite Hc.
  destruct rest; reflexivity.
Qed.

(** Digits that do not end at a hyphen. *)
Lemma iso_digits_fail c rest ds : aws_isdigit c = false -> c <> 45 -> digits ds -> forall t index,
  0 <= tm_year t -> number_from (tm_year t) ds < 2 ^ 31 ->
  exists t', iso_runs (at_state ON_YEAR 0 t) index (ds ++ c :: rest) (mk_parser ON_YEAR 0 true t').
Proof.
  intros Hc H45. induction 1 as [| d ds Hd Hds IH]; intros t index Hy Hn.
  - exists t. apply (iso_adv _ _ _ _ (mk_parser ON_YEAR 0 true t)); [reflexivity | |].
    + unfold iso_8601_step. cbn [at_state state]. apply Z.eqb_neq in H45. rewrite H45, Hc. reflexivity.
    + destruct rest; constructor. reflexivity.
  - pose proof (proj1 (isdigit_range d) Hd) as Hr. change (number_from _ (d :: ds)) with (number_from (tm_year t * 10 + (d - 48)) ds) in Hn.
    pose proof (number_from_bounds ds (tm_year t * 10 + (d - 48)) Hds ltac:(lia)) as Hb.
    destruct (IH (set_year t (tm_year t * 10 + (d - 48))) (index + 1)) as [t' Ht']; [cbn; lia | exact Hn |].
    exists t'. eapply iso_adv; [reflexivity | | exact Ht'].
    rewrite (collects_year 0 t index d Hd), (more_at f_year). cbn [get set f_year]. now rewrite (proj2 (in_int_spec _)) by lia.
Qed.

(** ** The texts *)

Section texts.
Context (zone : list Z) (x : tm) (Hx : tm_ok x) (Hy : 1000 <= tm_year x + 1900 < 10000).

Definition parsed : tm :=
  set_time (set_mday (set_mon (set_year zero_tm (tm_year x)) (tm_mon x)) (tm_mday x)) (tm_hour x) (tm_min x) (tm_sec x).

Ltac fields :=
  destruct (year_ok _ Hy) as (Y1 & Y2 & Y3);
  destruct (two_digits_ok (tm_mon x + 1) ltac:(pose proof (ok_mon _ Hx); lia)) as (M1 & M2 & M3);
  destruct (two_digits_ok (tm_mday x) ltac:(pose proof (mday_range _ Hx); lia)) as (D1 & D2 & D3);
  destruct (two_digits_ok (tm_hour x) ltac:(pose proof (ok_hour _ Hx); lia)) as (H1 & H2 & H3);
  destruct (two_digits_ok (tm_min x) ltac:(pose proof (ok_min _ Hx); lia)) as (I1 & I2 & I3);
  destruct (two_digits_ok (tm_sec x) ltac:(pose proof (ok_sec _ Hx); lia)) as (S1 & S2 & S3).

Lemma iso_8601_printed : s_parse_iso_8601 (strftime_text zone x ISO_8601_LONG_DATE_FORMAT_STR) = Some (true, parsed).
Proof.
  apply s_parse_iso_8601_exact. change (strftime_text _ _ _) with
    (decimal (tm_year x + 1900) ++ 45 :: two_digits (tm_mon x + 1) ++ 45 :: two_digits (tm_mday x) ++ 84 ::
     two_digits (tm_hour x) ++ 58 :: two_digits (tm_min x) ++ 58 :: two_digits (tm_sec x) ++ [90]).
  fields. unfold iso_8601_text. do 3 eexists. split; [exact Y1 |]. split; [exact Y2 |]. split; [exact M1 |]. split; [exact M2 |].
  split; [reflexivity |]. exists (two_digits (tm_mday x)). split; [exact D1 |]. split; [now apply (short_fits _ 2) |]. right. split; [exact D2 |].
  eexists. split; [reflexivity |]. exists (two_digits (tm_hour x)), [58], (two_digits (tm_min x)), [58], (two_digits (tm_sec x)), [90].
  repeat match goal with |- _ /\ _ => split end; auto; try (now right).
  - exists []. now left.
  - rewrite Y3, M3, D3, H3, I3, S3. unfold parsed. do 4 f_equal; [f_equal; ring | ring].
Qed.

Lemma iso_8601_basic_printed : s_parse_iso_8601_basic (strftime_text zone x ISO_8601_LONG_BASIC_DATE_FORMAT_STR) = Some (true, parsed).
Proof.
  apply s_parse_iso_8601_basic_exact. change (strftime_text _ _ _) with
    (decimal (tm_year x + 1900) ++ two_digits (tm_mon x + 1) ++ two_digits (tm_mday x) ++ 84 ::
     two_digits (tm_hour x) ++ two_digits (tm_min x) ++ two_digits (tm_sec x) ++ [90]).
  fields. unfold iso_8601_basic_text. do 3 eexists. split; [exact Y1 |]. split; [exact Y2 |]. split; [exact M1 |]. split; [exact M2 |].
  split; [reflexivity |]. exists (two_digits (tm_mday x)). split; [exact D1 |]. split; [now apply (short_fits _ 2) |]. right. split; [exact D2 |].
  eexists. split; [reflexivity |]. exists (two_digits (tm_hour x)), (two_digits (tm_min x)), (two_digits (tm_sec x)), [90].
  repeat match goal with |- _ /\ _ => split end; auto.
  - exists []. now left.
  - rewrite Y3, M3, D3, H3, I3, S3. unfold parsed. do 4 f_equal; [f_equal; ring | ring].
Qed.

Lemma iso_fails_basic : exists t, s_parse_iso_8601 (strftime_text zone x ISO_8601_LONG_BASIC_DATE_FORMAT_STR) = Some (false, t).
Proof.
  fields. change (strftime_text _ _ _) with
    (decimal (tm_year x + 1900) ++ two_digits (tm_mon x + 1) ++ two_digits (tm_mday x) ++ 84 ::
     two_digits (tm_hour x) ++ two_digits (tm_min x) ++ two_digits (tm_sec x) ++ [90]).
  set (rest := two_digits (tm_hour x) ++ _). rewrite !app_assoc. set (ds := (_ ++ _) ++ two_digits (tm_mday x)).
  assert (digits ds) as Hd by (repeat apply Forall_app_2; assumption).
  assert (zlength ds = 8) as Hl by (unfold ds; rewrite !zlength_app; lia).
  destruct (iso_digits_fail 84 rest ds eq_refl ltac:(lia) Hd zero_tm 0) as [t Ht]; [cbn; lia | |].
  { pose proof (number_bounds ds 8 Hd Hl) as Hb. cbn [tm_year zero_tm]. fold (number ds). lia. }
  exists t. unfold s_parse_iso_8601. rewrite (iso_runs_loop _ _ _ _ Ht); [reflexivity |]. change (0 - _ =? 2) with false. cbv iota. lia.
Qed.

Context (Hw : 0 <= tm_wday x < 7).

Lemma weekday_alphas w : 0 <= w < 7 -> alphas (weekday_name w).
Proof.
  intros H. assert (w = 0 \/ w = 1 \/ w = 2 \/ w = 3 \/ w = 4 \/ w = 5 \/ w = 6) as E by lia.
  decompose [or] E; subst; repeat constructor.
Qed.

Lemma month_name_text m : 0 <= m < 12 -> alphas (month_name m) /\ month_text (month_name m) m.
Proof. revert m. apply month_cases; (split; [repeat constructor | do 4 eexists; split; reflexivity]). Qed.

Lemma rfc_822_printed_text : strftime_text zone x RFC822_DATE_FORMAT_STR_MINUS_Z
  = weekday_name (tm_wday x) ++ 44 :: 32 :: two_digits (tm_mday x) ++ 32 :: month_name (tm_mon x) ++ 32 :: decimal (tm_year x + 1900)
    ++ 32 :: two_digits (tm_hour x) ++ 58 :: two_digits (tm_min x) ++ 58 :: two_digits (tm_sec x) ++ 32 :: text "GMT".
Proof. reflexivity. Qed.

Lemma rfc_822_printed : s_parse_rfc_822 (strftime_text zone x RFC822_DATE_FORMAT_STR_MINUS_Z) (replicate 6 0) false
  = Some (true, parsed, padded (text "GMT"), true).
Proof.
  apply s_parse_rfc_822_exact. exists (text "GMT"). rewrite rfc_822_printed_text.
  fields. destruct (month_name_text _ (ok_mon _ Hx)) as [N1 N2].
  assert (zone_text (text "GMT")) as Hz by (split; [repeat constructor | easy]).
  repeat match goal with |- _ /\ _ => split end; auto.
  - exists (weekday_name (tm_wday x)). eexists. split; [now apply weekday_alphas |]. split; [| left; exists 32; split; reflexivity].
    exists (two_digits (tm_mday x)), 32. eexists. split; [exact D1 |]. split; [now apply (short_fits _ 2) |]. split; [reflexivity |]. split; [reflexivity |].
    exists (month_name (tm_mon x)), (tm_mon x), 32. eexists. split; [exact N1 |]. split; [exact N2 |]. split; [reflexivity |]. split; [reflexivity |].
    exists (decimal (tm_year x + 1900)), (tm_year x), 32. eexists. split; [split; [exact Y1 | left; split; [exact Y2 | rewrite Y3; ring]] |].
    split; [reflexivity |]. split; [reflexivity |].
    exists (two_digits (tm_hour x)), (two_digits (tm_min x)), (two_digits (tm_sec x)), 32, (text "GMT").
    repeat match goal with |- _ /\ _ => split end; auto. now rewrite D3, H3, I3, S3.
  - right. split; [| reflexivity]. right. right. right. do 4 eexists. split; [reflexivity |]. now right.
Qed.

End texts.

(** ** The round trip *)

Definition printed_format (fmt : aws_date_format) : Prop := fmt <> AWS_DATE_FORMAT_AUTO_DETECT.

Definition utc_text (zone : list Z) (x : tm) (fmt : aws_date_format) : list Z :=
  strftime_text zone x
    (match fmt with
     | AWS_DATE_FORMAT_RFC822 => RFC822_DATE_FORMAT_STR_MINUS_Z
     | AWS_DATE_FORMAT_ISO_8601 => ISO_8601_LONG_DATE_FORMAT_STR
     | _ => ISO_8601_LONG_BASIC_DATE_FORMAT_STR
     end).

(** Reading a printed text with its format, or without. *)
Lemma parse_printed zone x fmt fmt' : tm_ok x -> 1000 <= tm_year x + 1900 < 10000 -> 0 <= tm_wday x < 7 ->
  printed_format fmt -> (fmt' = fmt \/ fmt' = AWS_DATE_FORMAT_AUTO_DETECT) ->
  exists tz', parse_date (utc_text zone x fmt) fmt' = Some (true, parsed x, tz', true, 0).
Proof.
  intros Hx Hy Hw Hf Hf'. unfold parse_date, utc_text, is_fmt. 
  destruct fmt; [| | | now contradict Hf].
  - exists (padded (text "GMT")).
    assert (exists c rest, strftime_text zone x RFC822_DATE_FORMAT_STR_MINUS_Z = c :: rest /\ aws_isdigit c = false) as (c & rest & E & Hc).
    { rewrite rfc_822_printed_text. set (l := 44 :: _). clearbody l.
      assert (tm_wday x = 0 \/ tm_wday x = 1 \/ tm_wday x = 2 \/ tm_wday x = 3 \/ tm_wday x = 4 \/ tm_wday x = 5 \/ tm_wday x = 6) as E by lia.
      destruct E as [Ew | [Ew | [Ew | [Ew | [Ew | [Ew | Ew]]]]]]; rewrite Ew; do 2 eexists; (split; reflexivity). }
    pose proof (rfc_822_printed zone x Hx Hy Hw) as Hr.
    destruct Hf' as [-> | ->]; cbn -[s_parse_iso_8601 s_parse_iso_8601_basic s_parse_rfc_822 strftime_text RFC822_DATE_FORMAT_STR_MINUS_Z tz_offset replicate].
    + rewrite Hr. reflexivity.
    + rewrite E. destruct (iso_fails_first c rest Hc) as [t1 ->]. cbn -[s_parse_iso_8601_basic s_parse_rfc_822 tz_offset replicate].
      destruct (basic_fails_first c rest Hc) as [t2 ->]. cbn -[s_parse_rfc_822 tz_offset replicate]. rewrite <- E, Hr. reflexivity.
  - exists (replicate 6 0). pose proof (iso_8601_printed zone x Hx Hy) as Hr.
    destruct Hf' as [-> | ->]; cbn -[s_parse_iso_8601 s_parse_iso_8601_basic s_parse_rfc_822 strftime_text ISO_8601_LONG_DATE_FORMAT_STR replicate];
      rewrite Hr; reflexivity.
  - exists (replicate 6 0). pose proof (iso_8601_basic_printed zone x Hx Hy) as Hr. destruct (iso_fails_basic zone x Hx Hy) as [t1 H1].
    destruct Hf' as [-> | ->]; cbn -[s_parse_iso_8601 s_parse_iso_8601_basic s_parse_rfc_822 strftime_text ISO_8601_LONG_BASIC_DATE_FORMAT_STR replicate];
      [rewrite Hr; reflexivity |].
    rewrite H1. cbn -[s_parse_iso_8601_basic s_parse_rfc_822 strftime_text ISO_8601_LONG_BASIC_DATE_FORMAT_STR replicate]. rewrite Hr. reflexivity.
Qed.

Lemma utc_text_length zone x fmt : tm_ok x -> 1000 <= tm_year x + 1900 < 10000 -> 0 <= tm_wday x < 7 -> printed_format fmt ->
  0 < zlength (utc_text zone x fmt) <= 29.
Proof.
  intros Hx Hy Hw Hf. assert (zlength (weekday_name (tm_wday x)) = 3) as W.
  { assert (tm_wday x = 0 \/ tm_wday x = 1 \/ tm_wday x = 2 \/ tm_wday x = 3 \/ tm_wday x = 4 \/ tm_wday x = 5 \/ tm_wday x = 6) as E by lia.
    destruct E as [Ew | [Ew | [Ew | [Ew | [Ew | [Ew | Ew]]]]]]; now rewrite Ew. }
  assert (zlength (month_name (tm_mon x)) = 3) as N by (pose proof (ok_mon _ Hx) as Hm; revert Hm; generalize (tm_mon x); now apply month_cases).
  destruct (year_ok _ Hy) as (_ & Y & _).
  destruct (two_digits_ok (tm_mon x + 1) ltac:(pose proof (ok_mon _ Hx); lia)) as (_ & M & _).
  destruct (two_digits_ok (tm_mday x) ltac:(pose proof (mday_range _ Hx); lia)) as (_ & D & _).
  destruct (two_digits_ok (tm_hour x) ltac:(pose proof (ok_hour _ Hx); lia)) as (_ & H & _).
  destruct (two_digits_ok (tm_min x) ltac:(pose proof (ok_min _ Hx); lia)) as (_ & I & _).
  destruct (two_digits_ok (tm_sec x) ltac:(pose proof (ok_sec _ Hx); lia)) as (_ & S & _).
  unfold utc_text. destruct fmt; [| | | now contradict Hf]; [rewrite rfc_822_printed_text | |
    change (strftime_text zone x ISO_8601_LONG_BASIC_DATE_FORMAT_STR) with
      (decimal (tm_year x + 1900) ++ two_digits (tm_mon x + 1) ++ two_digits (tm_mday x) ++ 84 ::
       two_digits (tm_hour x) ++ two_digits (tm_min x) ++ two_digits (tm_sec x) ++ [90])];
    [| change (strftime_text zone x ISO_8601_LONG_DATE_FORMAT_STR) with
      (decimal (tm_year x + 1900) ++ 45 :: two_digits (tm_mon x + 1) ++ 45 :: two_digits (tm_mday x) ++ 84 ::
       two_digits (tm_hour x) ++ 58 :: two_digits (tm_min x) ++ 58 :: two_digits (tm_sec x) ++ [90]) |];
    repeat (rewrite zlength_app || rewrite zlength_cons); change (zlength (text "GMT")) with 3; change (zlength []) with 0; lia.
Qed.

Lemma slice_front {A} (a b : list A) : slice (a ++ b) 0 (zlength a) = Some a.
Proof.
  pose proof (zlength_nonneg a). pose proof (zlength_nonneg b). rewrite slice_Some by (rewrite ?zlength_app; lia).
  change (drop (Z.to_nat 0) (a ++ b)) with (a ++ b). unfold zlength. now rewrite Nat2Z.id, take_app_length.
Qed.

Lemma s_date_to_str_fits zone leftover t format m buf bs : buf_ok m buf bs ->
  let txt := strftime_text zone t format in
  0 < zlength txt -> buf_len buf + zlength txt + 1 <= buf_capacity buf ->
  exists m', s_date_to_str zone leftover t format buf m = Ret (AWS_OP_SUCCESS, set_len buf (buf_len buf + zlength txt)) m'
    /\ buf_ok m' (set_len buf (buf_len buf + zlength txt)) (bs ++ txt)
    /\ bytes_at m' (ptr_add (buf_buffer buf) (buf_len buf)) (zlength txt) = Some txt.
Proof.
  intros Hok txt H0 Hfit. pose proof (bo_len _ _ _ Hok) as Hl. pose proof (bo_cap _ _ _ Hok) as Hc.
  unfold s_date_to_str, strftime. fold txt. rewrite (available_eq m buf bs Hok).
  destruct (store_ok m (ptr_add (buf_buffer buf) (buf_len buf)) (txt ++ [0])) as (m' & Hs & Hw).
  { rewrite zlength_app. change (zlength [0]) with 1. apply (writable_sub _ _ (buf_capacity buf)); try lia. exact (bo_room _ _ _ Hok). }
  exists m'. pose proof (buf_ok_extend m buf bs (txt ++ [0]) m' Hok) as He. rewrite zlength_app in He. change (zlength [0]) with 1 in He.
  specialize (He ltac:(lia) Hw). pose proof (written_same _ _ _ _ Hw) as Hd. rewrite zlength_app in Hd. change (zlength [0]) with 1 in Hd.
  replace (zlength txt + 1 <=? buf_capacity buf - buf_len buf) with true by lia.
  split; [| split].
  - unfold mbind, M_bind. rewrite Hs. cbn. replace (zlength txt =? 0) with false by lia. cbn. f_equal. f_equal. f_equal.
    apply u64_small. unfold is_u64, SIZE_MAX in *. lia.
  - destruct He as [_ _ He3 He4 He5]. constructor; cbn in *; auto; try lia.
    pose proof (bytes_at_prefix _ _ _ _ (buf_len buf + zlength txt) He4) as Hp. rewrite Hp by lia.
    rewrite app_assoc, <- (buf_zlength _ _ _ Hok), <- zlength_app. apply slice_front.
  - rewrite (bytes_at_prefix _ _ _ _ (zlength txt) Hd) by lia. apply slice_front.
Qed.

(** C19: Printing a date in UTC and parsing the text gives the date back. For a
    timestamp from the year 1000 to the year 9999 and each of the formats RFC 822,
    ISO 8601 and basic ISO 8601, printing into a buffer with room for 30 more
    bytes succeeds and appends a text; reading that text with its format or with
    automatic detection gives the same timestamp and the same fields in UTC. *)
Theorem date_round_trip (aws_localtime : Z -> tm) (mktime : tm -> Z) (zone : list Z) (leftover : Z -> list Z)
    (dt : aws_date_time) (fmt fmt' : aws_date_format) (m : mem) (buf : aws_byte_buf) (bs : list Z) :
  printable (timestamp dt) -> gmt_time dt = aws_gmtime (timestamp dt) ->
  fmt <> AWS_DATE_FORMAT_AUTO_DETECT -> (fmt' = fmt \/ fmt' = AWS_DATE_FORMAT_AUTO_DETECT) ->
  buf_ok m buf bs -> buf_len buf + 30 <= buf_capacity buf ->
  exists buf' txt m' dt',
    aws_date_time_to_utc_time_str zone leftover dt fmt buf m = Ret (AWS_OP_SUCCESS, buf') m'
    /\ buf_ok m' buf' (bs ++ txt)
    /\ aws_date_time_init_from_str_cursor aws_localtime mktime
         (mk_cursor (zlength txt) (ptr_add (buf_buffer buf) (buf_len buf))) fmt' m' = Ret (Ok dt') m'
    /\ timestamp dt' = timestamp dt /\ gmt_time dt' = gmt_time dt /\ milliseconds dt' = 0.
Proof.
  intros Hp Hg Hf Hf' Hok Hroom. destruct (printable_time _ Hp) as (x & Ex & Hx & Et & Hy & Hw).
  assert (gmt_time dt = x) as Hgx by (rewrite Hg; unfold aws_gmtime; now rewrite Ex).
  pose proof (utc_text_length zone x fmt Hx Hy Hw Hf) as Hlen.
  set (txt := utc_text zone x fmt) in *. 
  assert (exists m', aws_date_time_to_utc_time_str zone leftover dt fmt buf m = Ret (AWS_OP_SUCCESS, set_len buf (buf_len buf + zlength txt)) m'
    /\ buf_ok m' (set_len buf (buf_len buf + zlength txt)) (bs ++ txt)
    /\ bytes_at m' (ptr_add (buf_buffer buf) (buf_len buf)) (zlength txt) = Some txt) as (m' & Hrun & Hok' & Hbytes).
  { unfold aws_date_time_to_utc_time_str. rewrite Hgx. unfold txt, utc_text in *.
    destruct fmt; [| | | now contradict Hf]; (apply s_date_to_str_fits; [exact Hok | lia | lia]). }
  destruct (parse_printed zone x fmt fmt' Hx Hy Hw Hf Hf') as [tz' Hparse]. fold txt in Hparse.
  exists (set_len buf (buf_len buf + zlength txt)), txt, m'. eexists. split; [exact Hrun |]. split; [exact Hok' |]. split.
  - unfold aws_date_time_init_from_str_cursor. cbn [cur_len cur_ptr]. unfold AWS_DATE_TIME_STR_MAX_LEN.
    replace (zlength txt <=? 100) with true by lia. cbn [negb]. unfold mbind, M_bind. rewrite (load_ok _ _ _ _ Hbytes).
    unfold init_from_bytes. rewrite Hparse. reflexivity.
  - cbn. unfold aws_timegm, parsed. rewrite timegm_fields, Et, Z.sub_0_r. repeat split. now rewrite Hg.
Qed.

(** A date in 2001 in a buffer of 32 bytes. *)
Lemma date_round_trip_witness :
  let dt := mk_date_time 1000000000 0 (replicate 6 0) (aws_gmtime 1000000000) zero_tm false in
  let buf := mk_buf 0 (Ptr 1 0) 32 None in
  exists buf' txt m' dt',
    aws_date_time_to_utc_time_str [] (fun _ => []) dt AWS_DATE_FORMAT_RFC822 buf
      (mk_mem {[1%positive := replicate 32 7]} (fun _ _ => 7) []) = Ret (AWS_OP_SUCCESS, buf') m'
    /\ buf_ok m' buf' ([] ++ txt)
    /\ aws_date_time_init_from_str_cursor (fun _ => zero_tm) (fun _ => 0)
         (mk_cursor (zlength txt) (ptr_add (buf_buffer buf) (buf_len buf))) AWS_DATE_FORMAT_AUTO_DETECT m' = Ret (Ok dt') m'
    /\ timestamp dt' = timestamp dt /\ gmt_time dt' = gmt_time dt /\ milliseconds dt' = 0.
Proof.
  intros dt buf. apply (date_round_trip (fun _ => zero_tm) (fun _ => 0) [] (fun _ => []) dt AWS_DATE_FORMAT_RFC822 AWS_DATE_FORMAT_AUTO_DETECT _ buf []).
  - unfold printable. cbn. lia.
  - reflexivity.
  - discriminate.
  - now right.
  - constructor; cbn; try lia; try easy. right. exists 1%positive, 0, (replicate 32 7). split_and!; try easy.
  - cbn. lia.
Defined.

(** ** Conversions of timestamps *)

Lemma convert_sum ticks old new : 0 < old -> ticks * new / old = ticks / old * new + ticks mod old * new / old.
Proof.
  intros Ho. rewrite (Z.div_mod ticks old) at 1 by lia.
  replace ((old * (ticks / old) + ticks mod old) * new) with (ticks mod old * new + ticks / old * new * old) by ring.
  rewrite Z.div_add by lia. ring.
Qed.

(** C33: A timestamp is converted exactly: the result is the number of ticks times
    the ratio of the frequencies, rounded down and held at the greatest 64-bit
    number, when the ticks of the last second fit in 64 bits at the new
    frequency, as they do for all units of the library. When the new frequency
    divides the old one, the remainder is what the division leaves, and nothing
    is lost. *)
Theorem timestamp_convert_exact (ticks old_frequency new_frequency : Z) :
  is_u64 ticks -> 0 < old_frequency < 2 ^ 64 -> 0 < new_frequency < 2 ^ 64 ->
  (ticks mod old_frequency) * new_frequency < 2 ^ 64 ->
  exists r remainder, aws_timestamp_convert_u64 ticks old_frequency new_frequency = Some (r, remainder)
    /\ r = Z.min (ticks * new_frequency / old_frequency) (2 ^ 64 - 1)
    /\ ((new_frequency | old_frequency) ->
        ticks = r * (old_frequency / new_frequency) + remainder /\ 0 <= remainder < old_frequency / new_frequency).
Proof.
  unfold is_u64. intros Ht Ho Hn Hr. unfold aws_timestamp_convert_u64.
  rewrite (proj2 (Z.ltb_lt 0 old_frequency)), (proj2 (Z.ltb_lt 0 new_frequency)) by lia. cbn [andb].
  do 2 eexists. split; [reflexivity |]. set (s := ticks / old_frequency). set (w := ticks mod old_frequency) in *.
  assert (ticks = old_frequency * s + w /\ 0 <= w < old_frequency) as [Et Hw] by (unfold s, w; Z.div_mod_to_equations; lia).
  assert (0 <= s <= ticks) as Hs by nia.
  replace (u64 (ticks - u64 (s * old_frequency))) with w by (unfold u64; rewrite (Z.mod_small (s * _)), Z.mod_small; nia).
  assert (0 <= w * new_frequency) by nia.
  assert (0 <= w * new_frequency / old_frequency <= w * new_frequency) as Hq by (split; [apply Z.div_pos; lia | apply Z.div_le_upper_bound; nia]).
  assert (aws_mul_u64_saturating s new_frequency = Z.min (s * new_frequency) (2 ^ 64 - 1)) as ->.
  { unfold aws_mul_u64_saturating, builtin_mul_overflow. zcase; try lia; rewrite Z.mod_small; nia. }
  assert (aws_mul_u64_saturating w new_frequency = w * new_frequency) as ->.
  { unfold aws_mul_u64_saturating, builtin_mul_overflow. zcase; try lia; rewrite Z.mod_small; lia. }
  change aws_add_u64_saturating with aws_add_size_saturating. rewrite add_size_saturating_spec by nia. unfold SIZE_MAX.
  rewrite (convert_sum ticks old_frequency new_frequency) by lia. fold s w.
  assert (Z.min (Z.min (s * new_frequency) (2 ^ 64 - 1) + w * new_frequency / old_frequency) (2 ^ 64 - 1)
          = Z.min (s * new_frequency + w * new_frequency / old_frequency) (2 ^ 64 - 1)) as -> by lia.
  split; [reflexivity |]. unfold s, w. rewrite <- (convert_sum ticks old_frequency new_frequency) by lia. clear - Ht Ho Hn.
  intros [k Ek]. assert (0 < k) as Hk by nia. subst old_frequency.
  rewrite Z.div_mul_cancel_r, Z.div_mul by lia.
  assert (convert_remainder ticks (k * new_frequency) new_frequency = ticks mod k) as ->.
  { unfold convert_remainder. rewrite Z.mod_mul, Z.div_mul, Z.eqb_refl by lia.
    destruct (Z.ltb_spec new_frequency (k * new_frequency)); [reflexivity |].
    assert (k = 1) as -> by nia. now rewrite Z.mod_1_r. }
  assert (ticks / k <= ticks) by (apply Z.div_le_upper_bound; nia). Z.div_mod_to_equations. nia.
Qed.

Lemma timestamp_convert_exact_witness :
  exists r remainder, aws_timestamp_convert_u64 1234567 AWS_TIMESTAMP_MILLIS AWS_TIMESTAMP_SECS = Some (r, remainder)
    /\ r = 1234 /\ 1234567 = r * 1000 + remainder.
Proof.
  assert (H := timestamp_convert_exact 1234567 AWS_TIMESTAMP_MILLIS AWS_TIMESTAMP_SECS).
  destruct H as (r & rem & H1 & H2 & H3); [vm_compute; split; discriminate || reflexivity ..| |].
  { reflexivity. }
  exists r, rem. split; [exact H1 |]. split; [exact H2 |]. apply H3. exists 1000. reflexivity.
Defined.
