(* ===== verification/AwsString.v ===== *)
(** * Strings: definitions

    [source/string.c] and [include/aws/common/string.inl], but for the wide
    strings of Windows. A string is one block: a header of 16 bytes, whose fields
    are constant, the bytes and a terminator. A handle holds where the block is
    and the constant fields; what the header's bytes are is not modelled. *)

From S2P Require Import Prelude Math Memory ByteBuf.
Import ByteBuf.

Local Open Scope Z_scope.

Module AwsString.

Record aws_string := mk_string {
  str_ptr : ptr;
  str_allocator : option aws_allocator;
  str_len : Z
}.

(** [sizeof(struct aws_string)], with the one byte of [bytes] padded, and
    [offsetof(struct aws_string, bytes)]. *)
Definition sizeof_aws_string : Z := 24.
Definition offsetof_bytes : Z := 16.

Definition aws_string_bytes (str : aws_string) : ptr := ptr_add (str_ptr str) offsetof_bytes.
Definition aws_string_c_str : aws_string -> ptr := aws_string_bytes.

Definition aws_string_is_valid (str : option aws_string) : M bool :=
  match str with
  | None => mret false
  | Some str =>
      if AWS_MEM_IS_READABLE (aws_string_bytes str) (u64 (str_len str + 1)) then
        last ← load_u8 (ptr_add (aws_string_bytes str) (str_len str));
        mret (last =? 0)
      else mret false
  end.

Definition aws_c_string_is_valid (str : ptr) : bool := AWS_MEM_IS_READABLE str 1 && negb (is_NULL str).

Definition aws_char_is_space (c : Z) : bool := aws_isspace c.

Definition aws_string_new_from_array (allocator : aws_allocator) (bytes : ptr) (len : Z) : M (option aws_string) :=
  match aws_add_size_checked (sizeof_aws_string + 1) len with
  | Err _ => mret None
  | Ok malloc_size =>
      p ← aws_mem_acquire allocator malloc_size;
      let str := mk_string p (Some allocator) len in
      _ ← (if 0 <? len then memcpy (aws_string_bytes str) bytes len else mret tt);
      _ ← store (ptr_add (aws_string_bytes str) len) [0];
      mret (Some str)
  end.

Definition aws_string_new_from_c_str (allocator : aws_allocator) (c_str : ptr) : M (option aws_string) :=
  len ← strlen c_str;
  aws_string_new_from_array allocator c_str len.

Definition aws_string_new_from_string (allocator : aws_allocator) (str : aws_string) : M (option aws_string) :=
  aws_string_new_from_array allocator (aws_string_bytes str) (str_len str).

Definition aws_string_new_from_cursor (allocator : aws_allocator) (cursor : aws_byte_cursor) : M (option aws_string) :=
  aws_string_new_from_array allocator (cur_ptr cursor) (cur_len cursor).

Definition aws_string_new_from_buf (allocator : aws_allocator) (buf : aws_byte_buf) : M (option aws_string) :=
  aws_string_new_from_array allocator (buf_buffer buf) (buf_len buf).

Definition aws_string_destroy (str : option aws_string) : M unit :=
  match str with
  | Some str =>
      match str_allocator str with
      | Some allocator => aws_mem_release allocator (str_ptr str)
      | None => mret tt
      end
  | None => mret tt
  end.

Definition aws_string_destroy_secure (str : option aws_string) : M unit :=
  match str with
  | Some str' =>
      _ ← aws_secure_zero (aws_string_bytes str') (str_len str');
      aws_string_destroy str
  | None => mret tt
  end.

(** [a == b] on pointers to strings. *)
Definition same_string (a b : option aws_string) : bool := bool_decide (option_map str_ptr a = option_map str_ptr b).

Definition aws_string_compare (a b : option aws_string) : M Z :=
  if same_string a b then mret 0
  else
    match a, b with
    | None, _ => mret (-1)
    | _, None => mret 1
    | Some a, Some b =>
        let len_a := str_len a in
        let len_b := str_len b in
        let min_len := if len_a <? len_b then len_a else len_b in
        ret ← memcmp (aws_string_bytes a) (aws_string_bytes b) min_len;
        if negb (ret =? 0) then mret ret
        else if len_a =? len_b then mret 0
        else if len_b <? len_a then mret 1
        else mret (-1)
    end.

(** The items of a list of strings: where they are, and the pointers they hold. *)
Definition aws_array_list_comparator_string (a b : option (ptr * option aws_string)) : M Z :=
  if bool_decide (option_map fst a = option_map fst b) then mret 0
  else
    match a, b with
    | None, _ => mret (-1)
    | _, None => mret 1
    | Some (_, str_a), Some (_, str_b) => aws_string_compare str_a str_b
    end.

Definition aws_string_eq (a b : option aws_string) : M bool :=
  if same_string a b then mret true
  else
    match a, b with
    | Some a, Some b => aws_array_eq (aws_string_bytes a) (str_len a) (aws_string_bytes b) (str_len b)
    | _, _ => mret false
    end.

Definition aws_string_eq_ignore_case (a b : option aws_string) : M bool :=
  if same_string a b then mret true
  else
    match a, b with
    | Some a, Some b => aws_array_eq_ignore_case (aws_string_bytes a) (str_len a) (aws_string_bytes b) (str_len b)
    | _, _ => mret false
    end.

(** A string and something else, each of which may be NULL. *)
Definition both {A B} (a : option A) (b : option B) (f : A -> B -> M bool) : M bool :=
  match a, b with
  | None, None => mret true
  | Some a, Some b => f a b
  | _, _ => mret false
  end.

Definition aws_string_eq_byte_cursor (str : option aws_string) (cur : option aws_byte_cursor) : M bool :=
  both str cur (fun str cur => aws_array_eq (aws_string_bytes str) (str_len str) (cur_ptr cur) (cur_len cur)).

Definition aws_string_eq_byte_cursor_ignore_case (str : option aws_string) (cur : option aws_byte_cursor) : M bool :=
  both str cur (fun str cur => aws_array_eq_ignore_case (aws_string_bytes str) (str_len str) (cur_ptr cur) (cur_len cur)).

Definition aws_string_eq_byte_buf (str : option aws_string) (buf : option aws_byte_buf) : M bool :=
  both str buf (fun str buf => aws_array_eq (aws_string_bytes str) (str_len str) (buf_buffer buf) (buf_len buf)).

Definition aws_string_eq_byte_buf_ignore_case (str : option aws_string) (buf : option aws_byte_buf) : M bool :=
  both str buf (fun str buf => aws_array_eq_ignore_case (aws_string_bytes str) (str_len str) (buf_buffer buf) (buf_len buf)).

Definition not_null (p : ptr) : option ptr := if is_NULL p then None else Some p.

Definition aws_string_eq_c_str (str : option aws_string) (c_str : ptr) : M bool :=
  both str (not_null c_str) (fun str c_str => aws_array_eq_c_str (aws_string_bytes str) (str_len str) c_str).

Definition aws_string_eq_c_str_ignore_case (str : option aws_string) (c_str : ptr) : M bool :=
  both str (not_null c_str) (fun str c_str => aws_array_eq_c_str_ignore_case (aws_string_bytes str) (str_len str) c_str).

Definition aws_byte_buf_write_from_whole_string (buf : option aws_byte_buf) (src : option aws_string) : M (bool * option aws_byte_buf) :=
  match buf, src with
  | Some buf, Some src => r ← aws_byte_buf_write buf (aws_string_bytes src) (str_len src); mret (r.1, Some r.2)
  | _, _ => mret (false, buf)
  end.

Definition aws_byte_cursor_from_string (src : aws_string) : aws_byte_cursor :=
  aws_byte_cursor_from_array (aws_string_bytes src) (str_len src).

Definition aws_string_clone_or_reuse (allocator : aws_allocator) (str : aws_string) : M (option aws_string) :=
  match str_allocator str with
  | None => mret (Some str)
  | Some _ => aws_string_new_from_string allocator str
  end.

(** [str_len] is where the length goes: NULL or not. *)
Definition aws_secure_strlen (str : ptr) (max_read_len : Z) (str_len_null : bool) : M (result Z) :=
  if is_NULL str || str_len_null then mret (Err AWS_ERROR_INVALID_ARGUMENT)
  else
    null_char_ptr ← memchr str 0 max_read_len;
    if is_NULL null_char_ptr then mret (Err AWS_ERROR_C_STRING_BUFFER_NOT_NULL_TERMINATED)
    else n ← ptr_diff null_char_ptr str; mret (Ok n).

End AwsString.
