(* ===== verification/AwsStringSpec.v ===== *)
(** * Strings: theorems *)

From S2P Require Import Prelude Math Memory ByteBuf ByteBufSpec ByteCursorText ByteCursorOrder AwsString.
Import ByteBuf AwsString.

Local Open Scope Z_scope.

(** A string in memory: its bytes and the terminator. *)
Record string_ok (m : mem) (str : aws_string) (l : list Z) : Prop := {
  so_bytes : bytes_at m (aws_string_bytes str) (str_len str + 1) = Some (l ++ [0]);
  so_len : str_len str + sizeof_aws_string + 1 <= SIZE_MAX
}.

(** A string that owns its block. *)
Definition string_owned (m : mem) (str : aws_string) : Prop :=
  is_Some (str_allocator str)
  /\ exists b data, str_ptr str = Ptr b 0 /\ blocks m !! b = Some data /\ zlength data = sizeof_aws_string + 1 + str_len str.

Lemma string_len m str l : string_ok m str l -> zlength l = str_len str /\ 0 <= str_len str.
Proof.
  intros [Hb _]. pose proof (bytes_at_length _ _ _ _ Hb) as [Hl Hn]. rewrite zlength_app in Hl.
  change (zlength [0]) with 1 in Hl. pose proof (zlength_nonneg l). lia.
Qed.

Lemma string_cursor m str l : string_ok m str l -> cursor_ok m (aws_byte_cursor_from_string str) l.
Proof.
  intros H. destruct (string_len _ _ _ H) as [Hl H0]. destruct H as [Hb Hm]. unfold sizeof_aws_string in Hm. constructor; cbn.
  - rewrite (bytes_at_prefix _ _ _ _ (str_len str) Hb) by lia. rewrite <- Hl.
    pose proof (zlength_nonneg l). rewrite slice_Some by (rewrite ?zlength_app; change (zlength [0]) with 1; lia).
    change (drop (Z.to_nat 0) (l ++ [0])) with (l ++ [0]). unfold zlength. now rewrite Nat2Z.id, take_app_length.
  - lia.
Qed.

Lemma string_valid m str l : string_ok m str l -> aws_string_is_valid (Some str) m = Ret true m.
Proof.
  intros H. destruct (string_len _ _ _ H) as [Hl H0]. destruct H as [Hb Hm]. unfold aws_string_is_valid, sizeof_aws_string in *.
  rewrite u64_small by (unfold is_u64, SIZE_MAX in *; lia).
  assert (AWS_MEM_IS_READABLE (aws_string_bytes str) (str_len str + 1) = true) as ->.
  { unfold AWS_MEM_IS_READABLE. destruct (str_ptr str) eqn:E; unfold aws_string_bytes in *; rewrite E in *; [| now rewrite orb_true_r ..].
    cbn in Hb. unfold bytes_at in Hb. destruct (Z.eqb_spec (str_len str + 1) 0); [lia | discriminate]. }
  assert (bytes_at m (ptr_add (aws_string_bytes str) (str_len str)) 1 = Some [0]) as Hz.
  { rewrite (bytes_at_sub _ _ _ _ (str_len str) 1 Hb) by lia. rewrite slice_Some by (rewrite ?zlength_app; change (zlength [0]) with 1; lia).
    rewrite <- Hl. unfold zlength. rewrite Nat2Z.id. now rewrite drop_app_length. }
  run (load_u8_ok _ _ _ Hz). reflexivity.
Qed.

(** ** C strings *)

Lemma rest_of_c_string m p s : c_string_at m p s -> exists tail, rest_of_block m p = Some (s ++ 0 :: tail) /\ 0 ∉ s.
Proof.
  intros (n & Hb & H0).
  assert (forall data o, slice data o n = Some (s ++ [0]) -> exists tail, slice data o (zlength data - o) = Some (s ++ 0 :: tail)) as H.
  { intros data o Hs. apply slice_inv in Hs as (Ho & Hn & Hl & E & _). rewrite slice_Some by lia.
    exists (drop (Z.to_nat n) (drop (Z.to_nat o) data)). f_equal. rewrite take_ge by (rewrite length_drop; unfold zlength in *; lia).
    rewrite <- (take_drop (Z.to_nat n) (drop (Z.to_nat o) data)) at 1. rewrite <- E. now rewrite <- app_assoc. }
  unfold bytes_at in Hb. destruct (Z.eqb_spec n 0); [now destruct s |].
  destruct p as [| b o | data o]; [discriminate | |]; cbn in *.
  - destruct (blocks m !! b) as [data |]; [| discriminate]. cbn in *. destruct (H _ _ Hb) as [tail Ht]. now exists tail.
  - destruct (H _ _ Hb) as [tail Ht]. now exists tail.
Qed.

Lemma index_of_c_string s tail : 0 ∉ s -> index_of 0 (s ++ 0 :: tail) = Some (zlength s).
Proof.
  induction s as [| x s IH]; intros H0; [reflexivity |]. apply not_elem_of_cons in H0 as [Hx H0]. cbn [app index_of].
  destruct (Z.eqb_spec x 0); [congruence |]. rewrite (IH H0), zlength_cons. cbn. f_equal. lia.
Qed.

Lemma strlen_c_string m p s : c_string_at m p s -> strlen p m = Ret (zlength s) m.
Proof.
  intros H. destruct (rest_of_c_string m p s H) as (tail & Hr & H0). unfold strlen. rewrite Hr. cbn. now rewrite index_of_c_string.
Qed.

Lemma c_string_bytes m p s : c_string_at m p s -> bytes_at m p (zlength s) = Some s.
Proof.
  intros (n & Hb & _). pose proof (bytes_at_length _ _ _ _ Hb) as [Hl Hn]. rewrite zlength_app in Hl. change (zlength [0]) with 1 in Hl.
  pose proof (zlength_nonneg s). rewrite (bytes_at_prefix _ _ _ _ (zlength s) Hb) by lia.
  rewrite slice_Some by (rewrite ?zlength_app; change (zlength [0]) with 1; lia).
  change (drop (Z.to_nat 0) (s ++ [0])) with (s ++ [0]). unfold zlength. now rewrite Nat2Z.id, take_app_length.
Qed.

(** ** Creating and destroying *)

Lemma store_in_block m b data o bs : 0 <= o -> o + zlength bs <= zlength data -> 0 < zlength bs ->
  exists data', store (Ptr b o) bs (set_block m b data) = Ret tt (set_block m b data') /\ splice data o bs = Some data'.
Proof.
  intros Ho Hl Hp. destruct (splice_is_Some data o bs Ho Hl) as [data' Hs]. exists data'. split; [| exact Hs].
  destruct (store_ok (set_block m b data) (Ptr b o) bs) as (m' & Hr & Hw).
  { right. exists b, o, data. cbn. rewrite lookup_insert_eq. split_and!; auto. }
  rewrite Hr. f_equal. destruct Hw as [[-> _] | (b' & o' & d1 & d2 & [= <- <-] & Hb & Hs' & ->)]; [now cbn in Hp |].
  cbn in Hb. rewrite lookup_insert_eq in Hb. injection Hb as <-. assert (d2 = data') as -> by congruence. apply set_block_twice.
Qed.

(** The block of a new string. *)
Lemma new_from_array_spec m al p len l : bytes_at m p len = Some l -> len + sizeof_aws_string + 1 <= SIZE_MAX ->
  exists b data, aws_string_new_from_array al p len m = Ret (Some (mk_string (Ptr b 0) (Some al) len)) (set_block m b data)
    /\ blocks m !! b = None /\ zlength data = sizeof_aws_string + 1 + len
    /\ slice data offsetof_bytes (len + 1) = Some (l ++ [0]).
Proof.
  intros Hp Hlen. pose proof (bytes_at_length _ _ _ _ Hp) as [Hl H0]. unfold sizeof_aws_string, offsetof_bytes in *.
  unfold aws_string_new_from_array. rewrite add_size_checked_spec by (unfold sizeof_aws_string; lia). unfold sizeof_aws_string.
  replace (24 + 1 + len <=? SIZE_MAX) with true by lia.
  destruct (acquire_ok al m (24 + 1 + len)) as (b & m1 & data & Ha & Hb & -> & Hz); [lia |]. run Ha.
  destruct (copy_to_fresh m b data 16 p len l Hb Hp) as (data1 & Hc & Hs1); [lia | lia |]. cbn [aws_string_bytes str_ptr ptr_add]. 
  unfold aws_string_bytes. cbn [str_ptr ptr_add]. unfold offsetof_bytes. change (0 + 16) with 16. run Hc. change (zlength [0]) with 1.
  assert (zlength data1 = zlength data) as Hz1 by (apply splice_inv in Hs1; intuition).
  destruct (store_in_block m b data1 (16 + len) [0]) as (data2 & Hst & Hs2); [lia | change (zlength [0]) with 1; lia | easy |]. run Hst.
  exists b, data2. split; [reflexivity |]. split; [exact Hb |]. split; [apply splice_inv in Hs2; intuition lia |].
  pose proof (splice_app _ _ _ _ _ _ Hs1 ltac:(rewrite Hl; exact Hs2)) as Hs. apply slice_splice_same in Hs.
  rewrite zlength_app, Hl in Hs. exact Hs.
Qed.

Lemma release_fresh al m b data : blocks m !! b = None ->
  exists m', aws_mem_release al (Ptr b 0) (set_block m b data) = Ret tt m' /\ blocks m' = blocks m /\ released m' = data :: released m.
Proof.
  intros Hb. exists (without_block (set_block m b data) b data). split; [apply release_ok; cbn; apply lookup_insert_eq |].
  split; [| reflexivity]. cbn. now apply delete_insert_id.
Qed.

(** What every way to make a string promises: NULL when the length does not fit,
    and else a valid string with the bytes [l] in a block of its own, the memory as
    it was but for it, which each way of destroying the string gives back; the
    secure one zeroes the bytes first. *)
Definition makes_string (m : mem) (l : list Z) (make : M (option aws_string)) : Prop :=
  if zlength l + sizeof_aws_string + 1 <=? SIZE_MAX then
    exists str m', make m = Ret (Some str) m'
      /\ string_ok m' str l /\ string_owned m' str /\ aws_string_is_valid (Some str) m' = Ret true m'
      /\ (forall q n x, bytes_at m q n = Some x -> bytes_at m' q n = Some x)
      /\ (exists m1 d, aws_string_destroy (Some str) m' = Ret tt m1 /\ blocks m1 = blocks m /\ released m1 = d :: released m)
      /\ (exists m1 d, aws_string_destroy_secure (Some str) m' = Ret tt m1 /\ blocks m1 = blocks m
            /\ released m1 = d :: released m /\ slice d offsetof_bytes (zlength l) = Some (replicate (length l) 0))
  else make m = Ret None m.

Lemma fresh_string m b data al l : blocks m !! b = None -> zlength data = sizeof_aws_string + 1 + zlength l ->
  zlength l + sizeof_aws_string + 1 <= SIZE_MAX -> slice data offsetof_bytes (zlength l + 1) = Some (l ++ [0]) ->
  let str := mk_string (Ptr b 0) (Some al) (zlength l) in
  string_ok (set_block m b data) str l /\ string_owned (set_block m b data) str.
Proof.
  intros Hb Hz Hle Hs str. pose proof (zlength_nonneg l). split.
  - constructor; [| exact Hle]. unfold aws_string_bytes, bytes_at, str. cbn [str_ptr ptr_add str_len].
    destruct (Z.eqb_spec (zlength l + 1) 0); [lia |]. cbn. rewrite lookup_insert_eq. exact Hs.
  - split; [now exists al |]. exists b, data. split; [reflexivity |]. split; [apply lookup_insert_eq | exact Hz].
Qed.

(** The bytes are zeroed in the block that is given back. *)
Lemma destroy_secure_fresh m b data al len : blocks m !! b = None -> zlength data = sizeof_aws_string + 1 + len -> 0 <= len ->
  exists m1 d, aws_string_destroy_secure (Some (mk_string (Ptr b 0) (Some al) len)) (set_block m b data) = Ret tt m1 /\ blocks m1 = blocks m
    /\ released m1 = d :: released m /\ slice d offsetof_bytes len = Some (replicate (Z.to_nat len) 0).
Proof.
  intros Hb Hz H0. unfold aws_string_destroy_secure, aws_secure_zero, memset, aws_string_bytes. cbn [str_ptr ptr_add str_len].
  unfold sizeof_aws_string, offsetof_bytes in *. destruct (Z.eq_dec len 0) as [-> | Hne].
  - destruct (release_fresh al m b data Hb) as (m1 & Hr & Hm & Hrel). exists m1, data. split; [exact Hr |].
    split; [exact Hm |]. split; [exact Hrel |]. rewrite slice_Some by lia. reflexivity.
  - destruct (store_in_block m b data (0 + 16) (replicate (Z.to_nat len) 0)) as (d & Hsto & Hsp); try rewrite zlength_replicate; try lia.
    destruct (release_fresh al m b d Hb) as (m1 & Hr & Hm & Hrel). exists m1, d. run Hsto. split; [exact Hr |]. split; [exact Hm |].
    split; [exact Hrel |]. apply slice_splice_same in Hsp. rewrite zlength_replicate in Hsp by lia. exact Hsp.
Qed.

Lemma new_from_array_makes m al p len l : bytes_at m p len = Some l -> len <= SIZE_MAX -> makes_string m l (aws_string_new_from_array al p len).
Proof.
  intros Hp Hmax. pose proof (bytes_at_length _ _ _ _ Hp) as [<- H0]. unfold makes_string.
  destruct (Z.leb_spec (zlength l + sizeof_aws_string + 1) SIZE_MAX) as [Hle | Hgt].
  2: { unfold aws_string_new_from_array. rewrite add_size_checked_spec by (unfold sizeof_aws_string; lia).
       unfold sizeof_aws_string in *. now replace (24 + 1 + zlength l <=? SIZE_MAX) with false by lia. }
  destruct (new_from_array_spec m al p (zlength l) l Hp Hle) as (b & data & Hrun & Hb & Hz & Hs).
  destruct (fresh_string m b data al l Hb Hz Hle Hs) as [Hok Hown].
  eexists _, (set_block m b data). split; [exact Hrun |]. split; [exact Hok |]. split; [exact Hown |].
  split; [exact (string_valid _ _ _ Hok) |]. split; [intros q n x; now apply bytes_at_fresh |]. split.
  - destruct (release_fresh al m b data Hb) as (m1 & Hr & Hm & Hrel). now exists m1, data.
  - destruct (destroy_secure_fresh m b data al (zlength l) Hb Hz H0) as (m1 & d & H). exists m1, d.
    unfold zlength in H at 3. rewrite Nat2Z.id in H. exact H.
Qed.

(** C32: A string made from an array, a C string, a cursor, a buffer or another
    string, or cloned from one that was allocated, is valid and holds the same
    bytes and a terminator in a block of its own, with all other memory as it was;
    a length that does not fit gives NULL. Destroying it gives that block back,
    once, and nothing else; the secure way zeroes the bytes first. A static string
    is never released, and cloning it returns it. *)
Theorem string_lifecycle (m : mem) (al : aws_allocator) (l : list Z) :
  zlength l <= SIZE_MAX ->
  (forall p len, bytes_at m p len = Some l -> makes_string m l (aws_string_new_from_array al p len))
  /\ (forall c_str, c_string_at m c_str l -> makes_string m l (aws_string_new_from_c_str al c_str))
  /\ (forall cursor, cursor_ok m cursor l -> makes_string m l (aws_string_new_from_cursor al cursor))
  /\ (forall buf, buf_ok m buf l -> makes_string m l (aws_string_new_from_buf al buf))
  /\ (forall str, string_ok m str l -> makes_string m l (aws_string_new_from_string al str)
        /\ (is_Some (str_allocator str) -> makes_string m l (aws_string_clone_or_reuse al str)))
  /\ (forall static, str_allocator static = None ->
        aws_string_destroy (Some static) m = Ret tt m /\ aws_string_clone_or_reuse al static m = Ret (Some static) m).
Proof.
  intros Hmax. assert (forall p len, bytes_at m p len = Some l -> makes_string m l (aws_string_new_from_array al p len)) as Hnew.
  { intros p len Hp. apply new_from_array_makes; [exact Hp |]. pose proof (bytes_at_length _ _ _ _ Hp). lia. }
  split; [exact Hnew |]. split; [| split; [| split; [| split]]].
  - intros c_str Hc. specialize (Hnew _ _ (c_string_bytes _ _ _ Hc)). unfold makes_string, aws_string_new_from_c_str in *. run (strlen_c_string _ _ _ Hc). exact Hnew.
  - intros cursor [Hc _]. exact (Hnew _ _ Hc).
  - intros buf Hb. exact (Hnew _ _ (bo_data _ _ _ Hb)).
  - intros str Hs. pose proof (Hnew _ _ (co_data _ _ _ (string_cursor _ _ _ Hs))) as H. split; [exact H |].
    intros [al' E]. unfold aws_string_clone_or_reuse. rewrite E. exact H.
  - intros static Hst. unfold aws_string_destroy, aws_string_clone_or_reuse. now rewrite Hst.
Qed.

Lemma string_lifecycle_witness :
  exists str m', aws_string_new_from_cursor (mk_allocator true) (mk_cursor 2 (Ptr 1 1)) demo_mem = Ret (Some str) m' /\ string_ok m' str [20; 30].
Proof.
  destruct (string_lifecycle demo_mem (mk_allocator true) [20; 30]) as (_ & _ & H & _); [now vm_compute |].
  destruct (H (mk_cursor 2 (Ptr 1 1))) as (str & m' & H1 & H2 & _); [constructor; [reflexivity | now vm_compute] |]. now exists str, m'.
Defined.

(** ** Comparing *)

Lemma lex_refl l : lex l l = Eq.
Proof. induction l as [| x l IH]; [reflexivity |]. cbn. now rewrite Z.compare_refl. Qed.

Lemma not_null_c_string m p s : c_string_at m p s -> not_null p = Some p.
Proof.
  unfold not_null. destruct p; try reflexivity. intros (n & Hn & _). pose proof (bytes_at_length _ _ _ _ Hn) as [Hz _].
  rewrite zlength_app in Hz. change (zlength [0]) with 1 in Hz. pose proof (zlength_nonneg s).
  unfold bytes_at in Hn. destruct (Z.eqb_spec n 0); [lia | discriminate].
Qed.

Lemma c_str_loop m a p la s fold : string_ok m a la -> c_string_at m p s ->
  eq_c_str_loop fold (Z.to_nat (str_len a)) 0 (aws_string_bytes a) p m = Ret (bool_decide (map fold la = map fold s)) m.
Proof.
  intros Ha Hs. destruct (string_len _ _ _ Ha) as [Hna H0a]. pose proof (string_cursor _ _ _ Ha) as Hca.
  replace (Z.to_nat (str_len a)) with (length la) by (unfold zlength in Hna; lia).
  unfold aws_byte_cursor_from_string, aws_byte_cursor_from_array in Hca. rewrite <- (ptr_add_0 p) in Hs.
  rewrite <- (ptr_add_0 (aws_string_bytes a)) in Hca. exact (eq_c_str_loop_spec m fold _ p la s 0 _ Hca Hs).
Qed.

Lemma same_string_eq m a b la lb : string_ok m a la -> string_ok m b lb -> (str_ptr a = str_ptr b -> a = b) ->
  same_string (Some a) (Some b) = bool_decide (str_ptr a = str_ptr b) /\ (str_ptr a = str_ptr b -> la = lb).
Proof.
  intros Ha Hb Hsame. split; [unfold same_string; apply bool_decide_ext; cbn; split; congruence |].
  intros E. specialize (Hsame E). subst b. pose proof (so_bytes _ _ _ Ha) as H1. pose proof (so_bytes _ _ _ Hb) as H2.
  rewrite H1 in H2. injection H2 as H2. now apply app_inj_tail in H2 as [? _].
Qed.

Lemma string_eq_spec m a b la lb : string_ok m a la -> string_ok m b lb -> (str_ptr a = str_ptr b -> a = b) ->
  aws_string_eq (Some a) (Some b) m = Ret (bool_decide (la = lb)) m.
Proof.
  intros Ha Hb Hsame. destruct (same_string_eq m a b la lb Ha Hb Hsame) as [Hsb Hl].
  unfold aws_string_eq. rewrite Hsb. destruct (bool_decide_reflect (str_ptr a = str_ptr b)) as [E | E].
  { rewrite (Hl E). now rewrite bool_decide_eq_true_2. }
  exact (cursor_eq_spec m _ _ la lb (string_cursor _ _ _ Ha) (string_cursor _ _ _ Hb)).
Qed.

(** Comparing strings. [aws_string_compare] gives the lexicographic order with
    NULL first; the [eq] functions decide equality of the bytes, or of the bytes
    in lower case, with a string, a cursor, a buffer or a C string, whether or not
    the two are the same object, and hold of NULL and NULL only. *)
Theorem string_comparisons_correct (m : mem) (a b : aws_string) (cur : aws_byte_cursor) (c_str : ptr) (la lb s : list Z) :
  string_ok m a la -> string_ok m b lb -> (str_ptr a = str_ptr b -> a = b) ->
  cursor_ok m cur lb -> c_string_at m c_str s -> Forall is_u8 la -> Forall is_u8 lb -> Forall is_u8 s ->
  (exists z, aws_string_compare (Some a) (Some b) m = Ret z m /\ (z ?= 0) = lex la lb)
  /\ aws_string_compare None (Some b) m = Ret (-1) m /\ aws_string_compare (Some a) None m = Ret 1 m
  /\ aws_string_compare None None m = Ret 0 m
  /\ aws_string_eq (Some a) (Some b) m = Ret (bool_decide (la = lb)) m
  /\ aws_string_eq_ignore_case (Some a) (Some b) m = Ret (bool_decide (map ascii_lower la = map ascii_lower lb)) m
  /\ aws_string_eq_byte_cursor (Some a) (Some cur) m = Ret (bool_decide (la = lb)) m
  /\ aws_string_eq_byte_cursor_ignore_case (Some a) (Some cur) m = Ret (bool_decide (map ascii_lower la = map ascii_lower lb)) m
  /\ aws_string_eq_c_str (Some a) c_str m = Ret (bool_decide (la = s)) m
  /\ aws_string_eq_c_str_ignore_case (Some a) c_str m = Ret (bool_decide (map ascii_lower la = map ascii_lower s)) m
  /\ aws_string_eq None None m = Ret true m /\ aws_string_eq None (Some b) m = Ret false m.
Proof.
  intros Ha Hb Hsame Hcur Hs Hla Hlb Hls. rewrite <- !map_to_lower by assumption.
  pose proof (string_cursor _ _ _ Ha) as Hca. pose proof (string_cursor _ _ _ Hb) as Hcb.
  destruct (string_len _ _ _ Ha) as [Hna H0a].
  destruct (same_string_eq m a b la lb Ha Hb Hsame) as [Hsb Hl].
  repeat match goal with |- _ /\ _ => split end; try reflexivity.
  - unfold aws_string_compare. rewrite Hsb. destruct (bool_decide_reflect (str_ptr a = str_ptr b)) as [E | E].
    { exists 0. split; [reflexivity |]. rewrite (Hl E). now rewrite lex_refl. }
    destruct (memcmp_lex m _ _ _ _ la lb (if str_len a <? str_len b then str_len a else str_len b) Hca Hcb) as (r & Hr & H1 & H2).
    { zcase; lia. }
    run Hr. destruct (Z.eqb_spec r 0) as [E0 | E0]; cbn [negb]; [| exists r; split; [reflexivity | exact (H1 E0)]].
    rewrite (H2 E0). destruct (Z.compare_spec (str_len a) (str_len b)), (Z.eqb_spec (str_len a) (str_len b)); try lia;
      try (destruct (Z.ltb_spec (str_len b) (str_len a)); try lia); eexists; (split; [reflexivity |]); reflexivity.
  - now apply string_eq_spec.
  - unfold aws_string_eq_ignore_case. rewrite Hsb. destruct (bool_decide_reflect (str_ptr a = str_ptr b)) as [E | E].
    { rewrite (Hl E). now rewrite bool_decide_eq_true_2. }
    exact (eq_ignore_case_spec m _ _ la lb Hca Hcb).
  - exact (cursor_eq_spec m (aws_byte_cursor_from_string a) cur la lb Hca Hcur).
  - exact (eq_ignore_case_spec m (aws_byte_cursor_from_string a) cur la lb Hca Hcur).
  - unfold aws_string_eq_c_str. rewrite (not_null_c_string m c_str s Hs). pose proof (c_str_loop m a c_str la s (fun x => x) Ha Hs) as H.
    rewrite !map_id in H. exact H.
  - unfold aws_string_eq_c_str_ignore_case. rewrite (not_null_c_string m c_str s Hs). now apply c_str_loop.
Qed.

(** Two strings that differ in case, a cursor and a C string on the second. *)
Lemma string_comparisons_correct_witness :
  let a := mk_string (Static (replicate 16 0 ++ [65; 0]) 0) None 1 in
  let b := mk_string (Static (replicate 16 0 ++ [97; 0]) 0) None 1 in
  aws_string_eq_c_str_ignore_case (Some a) (aws_string_bytes b) demo_mem = Ret true demo_mem.
Proof.
  intros a b.
  assert (string_ok demo_mem a [65]) as Ha by (constructor; [reflexivity | now vm_compute]).
  assert (string_ok demo_mem b [97]) as Hb by (constructor; [reflexivity | now vm_compute]).
  assert (c_string_at demo_mem (aws_string_bytes b) [97]) as Hs by (exists 2; split; [reflexivity | apply (bool_decide_unpack _); reflexivity]).
  assert (str_ptr a = str_ptr b -> a = b) as Hne by discriminate.
  assert (Forall is_u8 [65]) as H65 by (repeat constructor; unfold is_u8; lia).
  assert (Forall is_u8 [97]) as H97 by (repeat constructor; unfold is_u8; lia).
  destruct (string_comparisons_correct demo_mem a b (aws_byte_cursor_from_string b) (aws_string_bytes b) [65] [97] [97]
    Ha Hb Hne (string_cursor _ _ _ Hb) Hs H65 H97 H97) as (_ & _ & _ & _ & _ & _ & _ & _ & _ & H & _). exact H.
Defined.

(** [aws_secure_strlen] never reads past the limit it is given: it returns
    the index of the first NUL among the bytes it may read, or the error that
    there is none; NULL arguments are refused before anything is read. *)
Theorem secure_strlen_correct (m : mem) (p : ptr) (n : Z) (l : list Z) :
  (is_NULL p = false -> bytes_at m p n = Some l ->
   aws_secure_strlen p n false m
   = Ret (match index_of 0 l with Some i => Ok i | None => Err AWS_ERROR_C_STRING_BUFFER_NOT_NULL_TERMINATED end) m)
  /\ aws_secure_strlen NULL n false m = Ret (Err AWS_ERROR_INVALID_ARGUMENT) m
  /\ aws_secure_strlen p n true m = Ret (Err AWS_ERROR_INVALID_ARGUMENT) m.
Proof.
  split; [| split; [reflexivity | unfold aws_secure_strlen; now rewrite orb_true_r]]. intros Hp Hb.
  unfold aws_secure_strlen, memchr. rewrite Hp. cbn [orb]. unfold mbind, M_bind. rewrite (load_ok _ _ _ _ Hb). cbn.
  destruct (index_of 0 l) as [i |]; [| reflexivity].
  assert (is_NULL (ptr_add p i) = false) as -> by (now destruct p). unfold ptr_diff.
  assert (ptr_sub (ptr_add p i) p = Some i) as ->; [| reflexivity].
  destruct p; [discriminate | |]; cbn; unfold ptr_sub; rewrite decide_True by reflexivity; f_equal; ring.
Qed.

Lemma secure_strlen_correct_witness :
  aws_secure_strlen (Static [104; 105; 0; 7] 0) 4 false demo_mem = Ret (Ok 2) demo_mem.
Proof. apply (proj1 (secure_strlen_correct demo_mem (Static [104; 105; 0; 7] 0) 4 [104; 105; 0; 7])); reflexivity. Defined.
