(* ===== verification/Lookup3.v ===== *)
(** * Hash functions: definitions

    [include/aws/common/private/lookup3.inl] and the hash functions for keys of
    [source/hash_table.c]. The memory from the start of a key on is a function
    from offsets to bytes: where the key is aligned, the last word is read as a
    whole, with bytes that lie behind the key. *)

From S2P Require Import Prelude Memory ByteOrder ByteBuf AwsString.
Import ByteBuf AwsString.

Local Open Scope Z_scope.

Module Lookup3.

(** What the macros HASH_LITTLE_ENDIAN and HASH_BIG_ENDIAN say: at most one of
    them is 1. *)
Inductive hash_endian := HASH_LITTLE | HASH_BIG | HASH_UNKNOWN.

(** The memory behind a pointer. *)
Definition memory := Z -> Z.

Definition skip (k : memory) (n : Z) : memory := fun i => k (n + i).

(** [k[i]] of a pointer to [uint32_t] or [uint16_t]. *)
Definition word32 (big : bool) (k : memory) (i : Z) : Z :=
  host_value big [k (4 * i); k (4 * i + 1); k (4 * i + 2); k (4 * i + 3)].
Definition word16 (k : memory) (i : Z) : Z := host_value false [k (2 * i); k (2 * i + 1)].

(** ** Mixing *)

Definition rot (x k : Z) : Z := Z.lor (u32 (Z.shiftl x k)) (Z.shiftr x (32 - k)).

Definition hstate : Type := Z * Z * Z.

Definition mix (s : hstate) : hstate :=
  let '(a, b, c) := s in
  let a := u32 (a - c) in let a := Z.lxor a (rot c 4) in let c := u32 (c + b) in
  let b := u32 (b - a) in let b := Z.lxor b (rot a 6) in let a := u32 (a + c) in
  let c := u32 (c - b) in let c := Z.lxor c (rot b 8) in let b := u32 (b + a) in
  let a := u32 (a - c) in let a := Z.lxor a (rot c 16) in let c := u32 (c + b) in
  let b := u32 (b - a) in let b := Z.lxor b (rot a 19) in let a := u32 (a + c) in
  let c := u32 (c - b) in let c := Z.lxor c (rot b 4) in let b := u32 (b + a) in
  (a, b, c).

Definition final (s : hstate) : hstate :=
  let '(a, b, c) := s in
  let c := Z.lxor c b in let c := u32 (c - rot b 14) in
  let a := Z.lxor a c in let a := u32 (a - rot c 11) in
  let b := Z.lxor b a in let b := u32 (b - rot a 25) in
  let c := Z.lxor c b in let c := u32 (c - rot b 16) in
  let a := Z.lxor a c in let a := u32 (a - rot c 4) in
  let b := Z.lxor b a in let b := u32 (b - rot a 14) in
  let c := Z.lxor c b in let c := u32 (c - rot b 24) in
  (a, b, c).

(** [a += x], [b += x], [c += x] *)
Definition add_a (x : Z) (s : hstate) : hstate := let '(a, b, c) := s in (u32 (a + x), b, c).
Definition add_b (x : Z) (s : hstate) : hstate := let '(a, b, c) := s in (a, u32 (b + x), c).
Definition add_c (x : Z) (s : hstate) : hstate := let '(a, b, c) := s in (a, b, u32 (c + x)).

(** ** Keys of words *)

(** [while (length > 3)], and the rest of the key. *)
Fixpoint word_blocks (fuel : nat) (k : list Z) (s : hstate) : list Z * hstate :=
  match fuel, k with
  | S fuel, k0 :: k1 :: k2 :: ((_ :: _) as k) => word_blocks fuel k (mix (add_c k2 (add_b k1 (add_a k0 s))))
  | _, _ => (k, s)
  end.

(** The switch: the cases fall through. *)
Definition word_last (k : list Z) (s : hstate) : hstate :=
  match k with
  | [k0; k1; k2] => final (add_a k0 (add_b k1 (add_c k2 s)))
  | [k0; k1] => final (add_a k0 (add_b k1 s))
  | [k0] => final (add_a k0 s)
  | _ => s
  end.

Definition word_hash (k : list Z) (s : hstate) : hstate :=
  let '(k, s) := word_blocks (length k) k s in word_last k s.

Definition hashword (k : list Z) (initval : Z) : Z :=
  let length := zlength k in
  let a := u32 (u32 (0xdeadbeef + u32 (Z.shiftl (u32 length) 2)) + initval) in
  let '(_, _, c) := word_hash k (a, a, a) in c.

(** [*pc] and [*pb] *)
Definition hashword2 (k : list Z) (pc pb : Z) : Z * Z :=
  let length := zlength k in
  let a := u32 (u32 (0xdeadbeef + u32 (u64 (Z.shiftl length 2))) + pc) in
  let '(_, b, c) := word_hash k (a, a, u32 (a + pb)) in (c, b).

(** ** Keys of bytes *)

(** [while (length > 12)] with the additions [add] of one block. *)
Fixpoint hash_blocks (add : memory -> hstate -> hstate) (fuel : nat) (k : memory) (length : Z) (s : hstate) : memory * Z * hstate :=
  match fuel with
  | O => (k, length, s)
  | S fuel =>
      if 12 <? length then hash_blocks add fuel (skip k 12) (length - 12) (mix (add k s)) else (k, length, s)
  end.

Definition add_words (big : bool) (k : memory) (s : hstate) : hstate :=
  add_c (word32 big k 2) (add_b (word32 big k 1) (add_a (word32 big k 0) s)).

(** A case of a switch whose cases fall through runs when [length] is at least
    its label. *)
Definition case (length label : Z) (f : hstate -> hstate) (s : hstate) : hstate := if label <=? length then f s else s.

(** The last block of a key: [None] returns at once. *)

(** 32-bit reads on a little-endian machine. *)
Definition last32 (k : memory) (length : Z) (s : hstate) : option hstate :=
  let k := word32 false k in
  match length with
  | 12 => Some (add_a (k 0) (add_b (k 1) (add_c (k 2) s)))
  | 11 => Some (add_a (k 0) (add_b (k 1) (add_c (Z.land (k 2) 0xffffff) s)))
  | 10 => Some (add_a (k 0) (add_b (k 1) (add_c (Z.land (k 2) 0xffff) s)))
  | 9 => Some (add_a (k 0) (add_b (k 1) (add_c (Z.land (k 2) 0xff) s)))
  | 8 => Some (add_a (k 0) (add_b (k 1) s))
  | 7 => Some (add_a (k 0) (add_b (Z.land (k 1) 0xffffff) s))
  | 6 => Some (add_a (k 0) (add_b (Z.land (k 1) 0xffff) s))
  | 5 => Some (add_a (k 0) (add_b (Z.land (k 1) 0xff) s))
  | 4 => Some (add_a (k 0) s)
  | 3 => Some (add_a (Z.land (k 0) 0xffffff) s)
  | 2 => Some (add_a (Z.land (k 0) 0xffff) s)
  | 1 => Some (add_a (Z.land (k 0) 0xff) s)
  | 0 => None
  | _ => Some s
  end.

(** The same under VALGRIND, which reads no byte behind the key. *)
Definition last32_valgrind (k8 : memory) (length : Z) (s : hstate) : option hstate :=
  let k := word32 false k8 in
  match length with
  | 12 => Some (add_a (k 0) (add_b (k 1) (add_c (k 2) s)))
  | 11 => Some (add_a (k 0) (add_b (k 1) (add_c (k8 8) (add_c (Z.shiftl (k8 9) 8) (add_c (Z.shiftl (k8 10) 16) s)))))
  | 10 => Some (add_a (k 0) (add_b (k 1) (add_c (k8 8) (add_c (Z.shiftl (k8 9) 8) s))))
  | 9 => Some (add_a (k 0) (add_b (k 1) (add_c (k8 8) s)))
  | 8 => Some (add_a (k 0) (add_b (k 1) s))
  | 7 => Some (add_a (k 0) (add_b (k8 4) (add_b (Z.shiftl (k8 5) 8) (add_b (Z.shiftl (k8 6) 16) s))))
  | 6 => Some (add_a (k 0) (add_b (k8 4) (add_b (Z.shiftl (k8 5) 8) s)))
  | 5 => Some (add_a (k 0) (add_b (k8 4) s))
  | 4 => Some (add_a (k 0) s)
  | 3 => Some (add_a (k8 0) (add_a (Z.shiftl (k8 1) 8) (add_a (Z.shiftl (k8 2) 16) s)))
  | 2 => Some (add_a (k8 0) (add_a (Z.shiftl (k8 1) 8) s))
  | 1 => Some (add_a (k8 0) s)
  | 0 => None
  | _ => Some s
  end.

(** 16-bit reads. *)
Definition pair16 (k : memory) (i : Z) : Z := u32 (word16 k i + Z.shiftl (word16 k (i + 1)) 16).

Definition add_pairs (k : memory) (s : hstate) : hstate := add_c (pair16 k 4) (add_b (pair16 k 2) (add_a (pair16 k 0) s)).

Definition last16 (k8 : memory) (length : Z) (s : hstate) : option hstate :=
  let k := word16 k8 in
  let case10 s := add_a (pair16 k8 0) (add_b (pair16 k8 2) (add_c (k 4) s)) in
  let case8 s := add_a (pair16 k8 0) (add_b (pair16 k8 2) s) in
  let case6 s := add_a (pair16 k8 0) (add_b (k 2) s) in
  let case4 s := add_a (pair16 k8 0) s in
  let case2 s := add_a (k 0) s in
  match length with
  | 12 => Some (add_a (pair16 k8 0) (add_b (pair16 k8 2) (add_c (pair16 k8 4) s)))
  | 11 => Some (case10 (add_c (Z.shiftl (k8 10) 16) s))
  | 10 => Some (case10 s)
  | 9 => Some (case8 (add_c (k8 8) s))
  | 8 => Some (case8 s)
  | 7 => Some (case6 (add_b (Z.shiftl (k8 6) 16) s))
  | 6 => Some (case6 s)
  | 5 => Some (case4 (add_b (k8 4) s))
  | 4 => Some (case4 s)
  | 3 => Some (case2 (add_a (Z.shiftl (k8 2) 16) s))
  | 2 => Some (case2 s)
  | 1 => Some (add_a (k8 0) s)
  | 0 => None
  | _ => Some s
  end.

(** One byte at a time. *)
Definition add_bytes (k : memory) (s : hstate) : hstate :=
  let s := add_a (k 0) s in
  let s := add_a (Z.shiftl (k 1) 8) s in
  let s := add_a (Z.shiftl (k 2) 16) s in
  let s := add_a (Z.shiftl (k 3) 24) s in
  let s := add_b (k 4) s in
  let s := add_b (Z.shiftl (k 5) 8) s in
  let s := add_b (Z.shiftl (k 6) 16) s in
  let s := add_b (Z.shiftl (k 7) 24) s in
  let s := add_c (k 8) s in
  let s := add_c (Z.shiftl (k 9) 8) s in
  let s := add_c (Z.shiftl (k 10) 16) s in
  add_c (Z.shiftl (k 11) 24) s.

Definition last8 (k : memory) (length : Z) (s : hstate) : option hstate :=
  if length =? 0 then None
  else
    let s := case length 12 (add_c (Z.shiftl (k 11) 24)) s in
    let s := case length 11 (add_c (Z.shiftl (k 10) 16)) s in
    let s := case length 10 (add_c (Z.shiftl (k 9) 8)) s in
    let s := case length 9 (add_c (k 8)) s in
    let s := case length 8 (add_b (Z.shiftl (k 7) 24)) s in
    let s := case length 7 (add_b (Z.shiftl (k 6) 16)) s in
    let s := case length 6 (add_b (Z.shiftl (k 5) 8)) s in
    let s := case length 5 (add_b (k 4)) s in
    let s := case length 4 (add_a (Z.shiftl (k 3) 24)) s in
    let s := case length 3 (add_a (Z.shiftl (k 2) 16)) s in
    let s := case length 2 (add_a (Z.shiftl (k 1) 8)) s in
    Some (case length 1 (add_a (k 0)) s).

Definition run (add : memory -> hstate -> hstate) (last : memory -> Z -> hstate -> option hstate)
    (key : memory) (length : Z) (s : hstate) : hstate :=
  let '(k, length, s) := hash_blocks add (Z.to_nat length) key length s in
  match last k length s with
  | None => s
  | Some s => final s
  end.

Section machine.
Context (endian : hash_endian) (valgrind : bool).

Definition HASH_LITTLE_ENDIAN : bool := match endian with HASH_LITTLE => true | _ => false end.
Definition HASH_BIG_ENDIAN : bool := match endian with HASH_BIG => true | _ => false end.

(** The common part of [hashlittle] and [hashlittle2]; [address] is [u.i]. *)
Definition little (address : Z) (key : memory) (length : Z) (s : hstate) : hstate :=
  if HASH_LITTLE_ENDIAN && (Z.land address 0x3 =? 0)
  then run (add_words false) (if valgrind then last32_valgrind else last32) key length s
  else if HASH_LITTLE_ENDIAN && (Z.land address 0x1 =? 0) then run add_pairs last16 key length s
  else run add_bytes last8 key length s.

Definition hashlittle (address : Z) (key : memory) (length initval : Z) : Z :=
  let a := u32 (u32 (0xdeadbeef + u32 length) + initval) in
  let '(_, _, c) := little address key length (a, a, a) in c.

(** [*pc] and [*pb] *)
Definition hashlittle2 (address : Z) (key : memory) (length pc pb : Z) : Z * Z :=
  let a := u32 (u32 (0xdeadbeef + u32 length) + pc) in
  let '(_, b, c) := little address key length (a, a, u32 (a + pb)) in (c, b).

(** Keys read with the first byte as the most significant. *)

Definition last32_big (k : memory) (length : Z) (s : hstate) : option hstate :=
  let k := word32 true k in
  match length with
  | 12 => Some (add_a (k 0) (add_b (k 1) (add_c (k 2) s)))
  | 11 => Some (add_a (k 0) (add_b (k 1) (add_c (Z.land (k 2) 0xffffff00) s)))
  | 10 => Some (add_a (k 0) (add_b (k 1) (add_c (Z.land (k 2) 0xffff0000) s)))
  | 9 => Some (add_a (k 0) (add_b (k 1) (add_c (Z.land (k 2) 0xff000000) s)))
  | 8 => Some (add_a (k 0) (add_b (k 1) s))
  | 7 => Some (add_a (k 0) (add_b (Z.land (k 1) 0xffffff00) s))
  | 6 => Some (add_a (k 0) (add_b (Z.land (k 1) 0xffff0000) s))
  | 5 => Some (add_a (k 0) (add_b (Z.land (k 1) 0xff000000) s))
  | 4 => Some (add_a (k 0) s)
  | 3 => Some (add_a (Z.land (k 0) 0xffffff00) s)
  | 2 => Some (add_a (Z.land (k 0) 0xffff0000) s)
  | 1 => Some (add_a (Z.land (k 0) 0xff000000) s)
  | 0 => None
  | _ => Some s
  end.

Definition last32_big_valgrind (k8 : memory) (length : Z) (s : hstate) : option hstate :=
  let k := word32 true k8 in
  match length with
  | 12 => Some (add_a (k 0) (add_b (k 1) (add_c (k 2) s)))
  | 11 => Some (add_a (k 0) (add_b (k 1) (add_c (Z.shiftl (k8 8) 24) (add_c (Z.shiftl (k8 9) 16) (add_c (Z.shiftl (k8 10) 8) s)))))
  | 10 => Some (add_a (k 0) (add_b (k 1) (add_c (Z.shiftl (k8 8) 24) (add_c (Z.shiftl (k8 9) 16) s))))
  | 9 => Some (add_a (k 0) (add_b (k 1) (add_c (Z.shiftl (k8 8) 24) s)))
  | 8 => Some (add_a (k 0) (add_b (k 1) s))
  | 7 => Some (add_a (k 0) (add_b (Z.shiftl (k8 4) 24) (add_b (Z.shiftl (k8 5) 16) (add_b (Z.shiftl (k8 6) 8) s))))
  | 6 => Some (add_a (k 0) (add_b (Z.shiftl (k8 4) 24) (add_b (Z.shiftl (k8 5) 16) s)))
  | 5 => Some (add_a (k 0) (add_b (Z.shiftl (k8 4) 24) s))
  | 4 => Some (add_a (k 0) s)
  | 3 => Some (add_a (Z.shiftl (k8 0) 24) (add_a (Z.shiftl (k8 1) 16) (add_a (Z.shiftl (k8 2) 8) s)))
  | 2 => Some (add_a (Z.shiftl (k8 0) 24) (add_a (Z.shiftl (k8 1) 16) s))
  | 1 => Some (add_a (Z.shiftl (k8 0) 24) s)
  | 0 => None
  | _ => Some s
  end.

Definition add_bytes_big (k : memory) (s : hstate) : hstate :=
  let s := add_a (Z.shiftl (k 0) 24) s in
  let s := add_a (Z.shiftl (k 1) 16) s in
  let s := add_a (Z.shiftl (k 2) 8) s in
  let s := add_a (k 3) s in
  let s := add_b (Z.shiftl (k 4) 24) s in
  let s := add_b (Z.shiftl (k 5) 16) s in
  let s := add_b (Z.shiftl (k 6) 8) s in
  let s := add_b (k 7) s in
  let s := add_c (Z.shiftl (k 8) 24) s in
  let s := add_c (Z.shiftl (k 9) 16) s in
  let s := add_c (Z.shiftl (k 10) 8) s in
  add_c (k 11) s.

Definition last8_big (k : memory) (length : Z) (s : hstate) : option hstate :=
  if length =? 0 then None
  else
    let s := case length 12 (add_c (k 11)) s in
    let s := case length 11 (add_c (Z.shiftl (k 10) 8)) s in
    let s := case length 10 (add_c (Z.shiftl (k 9) 16)) s in
    let s := case length 9 (add_c (Z.shiftl (k 8) 24)) s in
    let s := case length 8 (add_b (k 7)) s in
    let s := case length 7 (add_b (Z.shiftl (k 6) 8)) s in
    let s := case length 6 (add_b (Z.shiftl (k 5) 16)) s in
    let s := case length 5 (add_b (Z.shiftl (k 4) 24)) s in
    let s := case length 4 (add_a (k 3)) s in
    let s := case length 3 (add_a (Z.shiftl (k 2) 8)) s in
    let s := case length 2 (add_a (Z.shiftl (k 1) 16)) s in
    Some (case length 1 (add_a (Z.shiftl (k 0) 24)) s).

Definition hashbig (address : Z) (key : memory) (length initval : Z) : Z :=
  let a := u32 (u32 (0xdeadbeef + u32 length) + initval) in
  let '(_, _, c) :=
    if HASH_BIG_ENDIAN && (Z.land address 0x3 =? 0)
    then run (add_words true) (if valgrind then last32_big_valgrind else last32_big) key length (a, a, a)
    else run add_bytes_big last8_big key length (a, a, a) in
  c.

(** ** Hash functions for keys of a hash table *)

(** [strcmp] of the C library: the difference of the first characters that
    differ; [None] when it would read past the end of the memory. *)
Fixpoint compare_c_strings (a b : list Z) : option Z :=
  match a, b with
  | x :: a, y :: b => if negb (x =? y) then Some (x - y) else if x =? 0 then Some 0 else compare_c_strings a b
  | _, _ => None
  end.

Definition strcmp (a b : ptr) : M Z := fun m =>
  match rest_of_block m a, rest_of_block m b with
  | Some la, Some lb => match compare_c_strings la lb with Some r => Ret r m | None => Fault end
  | _, _ => Fault
  end.

(** [address] is where a pointer points; [behind p i] the byte [i] behind the
    key at [p]; [frame] the address of a local variable. *)
Context (big_endian : bool) (address : ptr -> Z) (behind : ptr -> Z -> Z) (frame : Z).

Definition key_memory (p : ptr) (bytes : list Z) : memory :=
  fun i => match zlookup bytes i with Some b => b | None => behind p (i - zlength bytes) end.

(** [((uint64_t)b << 32) | c] *)
Definition join (cb : Z * Z) : Z := Z.lor (Z.shiftl cb.2 32) cb.1.

(** The hash of the [len] bytes at [p]: first digits of pi. *)
Definition hash_bytes (p : ptr) (len : Z) : M Z :=
  bytes ← load p len;
  mret (join (hashlittle2 (address p) (key_memory p bytes) len 0x885A308D 0x3243F6A8)).

Definition aws_hash_c_string (item : ptr) : M Z :=
  len ← strlen item;
  hash_bytes item len.

Definition aws_hash_string (str : aws_string) : M Z := hash_bytes (aws_string_bytes str) (str_len str).

Definition aws_hash_byte_cursor_ptr (cur : aws_byte_cursor) : M Z := hash_bytes (cur_ptr cur) (cur_len cur).

(** The bytes of a 64-bit variable on the stack. *)
Definition hash_u64 (x pc pb : Z) : Z :=
  join (hashlittle2 frame (key_memory NULL (host_bytes big_endian 8 x)) 8 pc pb).

(** [item] is the pointer's number: first digits of e. *)
Definition aws_hash_ptr (item : Z) : Z := hash_u64 item 0x28aed2a6 0x2b7e1516.

Definition aws_hash_combine (item1 item2 : Z) : Z :=
  hash_u64 item1 (u32 (Z.shiftr item2 32)) (Z.land item2 0xFFFFFFFF).

Definition aws_hash_callback_c_str_eq (a b : ptr) : M bool :=
  r ← strcmp a b;
  mret (r =? 0).

Definition aws_hash_callback_string_eq (a b : aws_string) : M bool := aws_string_eq (Some a) (Some b).

Definition aws_hash_callback_string_destroy (a : aws_string) : M unit := aws_string_destroy (Some a).
End machine.

End Lookup3.
