(* ===== verification/Lookup3Spec.v ===== *)
(** * Hash functions: theorems *)

From S2P Require Import Prelude MathBits Memory ByteOrder ByteBuf ByteBufSpec Lookup3.
Import ByteBuf Lookup3.

Local Open Scope Z_scope.

(** ** States of 32-bit words *)

Definition hstate_ok (s : hstate) : Prop := let '(a, b, c) := s in is_u32 a /\ is_u32 b /\ is_u32 c.

Lemma u32_lor x y : is_u32 x -> is_u32 y -> is_u32 (Z.lor x y).
Proof.
  unfold is_u32. intros Hx Hy. split; [apply Z.lor_nonneg; lia |]. destruct (Z.eq_dec (Z.lor x y) 0) as [-> | H0]; [lia |].
  apply Z.log2_lt_pow2; [pose proof (proj2 (Z.lor_nonneg x y)); lia |]. rewrite Z.log2_lor by lia.
  assert (forall z, 0 <= z < 2 ^ 32 -> Z.log2 z < 32) as Hl.
  { intros z Hz. destruct (Z.eq_dec z 0) as [-> |]; [reflexivity |]. apply Z.log2_lt_pow2; lia. }
  pose proof (Hl x Hx). pose proof (Hl y Hy). lia.
Qed.

Lemma u32_lxor x y : is_u32 x -> is_u32 y -> is_u32 (Z.lxor x y).
Proof.
  intros Hx Hy. unfold is_u32 in *. assert (Z.lxor x y = u32 (Z.lxor x y)) as ->; [| apply u32_range].
  unfold u32. rewrite <- Z.land_ones by lia. apply Z.bits_inj'. intros n Hn. rewrite Z.land_spec, Z.lxor_spec.
  destruct (Z.lt_ge_cases n 32) as [Hlt | Hge]; [rewrite Z.ones_spec_low by lia; now rewrite andb_true_r |].
  rewrite Z.ones_spec_high, andb_false_r by lia.
  assert (forall z, 0 <= z < 2 ^ 32 -> Z.testbit z n = false) as Hz.
  { intros z Hz. destruct (Z.eq_dec z 0) as [-> |]; [apply Z.bits_0 |]. apply Z.bits_above_log2; [lia |].
    apply Z.lt_le_trans with 32; [apply Z.log2_lt_pow2; lia | lia]. }
  now rewrite !Hz.
Qed.

Lemma rot_range x k : is_u32 x -> 0 < k < 32 -> is_u32 (rot x k).
Proof.
  intros Hx Hk. apply u32_lor; [apply u32_range |]. unfold is_u32 in *. rewrite Z.shiftr_div_pow2 by lia.
  assert (0 < 2 ^ (32 - k)) by (apply Z.pow_pos_nonneg; lia). split; [apply Z.div_pos; lia |]. apply Z.div_lt_upper_bound; nia.
Qed.

(** ** Mixing is reversible *)

Lemma lxor_cancel x y : Z.lxor (Z.lxor x y) y = x.
Proof. now rewrite Z.lxor_assoc, Z.lxor_nilpotent, Z.lxor_0_r. Qed.

Lemma add_sub_cancel x y : is_u32 x -> u32 (u32 (x + y) - y) = x.
Proof. intros Hx. unfold u32. rewrite Zminus_mod_idemp_l. replace (x + y - y) with x by ring. now apply u32_small. Qed.

Lemma sub_add_cancel x y : is_u32 x -> u32 (u32 (x - y) + y) = x.
Proof. intros Hx. unfold u32. rewrite Zplus_mod_idemp_l. replace (x - y + y) with x by ring. now apply u32_small. Qed.

(** A function on states with an inverse. *)
Definition reversible (f g : hstate -> hstate) : Prop := forall s, hstate_ok s -> hstate_ok (f s) /\ g (f s) = s.

(** Steps in order, and their inverses in reverse order. *)
Lemma reversible_steps (f g : Z -> hstate -> hstate) ks : (forall k, In k ks -> reversible (f k) (g k)) ->
  reversible (fun s => fold_left (fun s k => f k s) ks s) (fun s => fold_right g s ks).
Proof.
  induction ks as [| k ks IH]; intros H s Hs; cbn; [now split |].
  destruct (H k (or_introl eq_refl) s Hs) as [H1 H2]. destruct (IH (fun k' Hk => H k' (or_intror Hk)) _ H1) as [H3 H4].
  split; [exact H3 |]. now rewrite H4.
Qed.

(** A line of [mix], on the words in turn. *)
Definition turn (k : Z) (s : hstate) : hstate :=
  let '(x, y, z) := s in
  let x := u32 (x - z) in let x := Z.lxor x (rot z k) in let z := u32 (z + y) in (y, z, x).
Definition unturn (k : Z) (s : hstate) : hstate :=
  let '(y, z, x) := s in
  let z := u32 (z - y) in let x := Z.lxor x (rot z k) in let x := u32 (x + z) in (x, y, z).

Lemma turn_reversible k : 0 < k < 32 -> reversible (turn k) (unturn k).
Proof.
  intros Hk [[x y] z] (Hx & Hy & Hz). unfold turn, unturn. split.
  - split; [exact Hy |]. split; [apply u32_range |]. apply u32_lxor; [apply u32_range | now apply rot_range].
  - now rewrite add_sub_cancel, lxor_cancel, sub_add_cancel.
Qed.

(** [mix] backwards. *)
Definition unmix (s : hstate) : hstate := unturn 4 (unturn 6 (unturn 8 (unturn 16 (unturn 19 (unturn 4 s))))).

Lemma mix_reversible : reversible mix unmix.
Proof.
  intros s. replace (mix s) with (fold_left (fun s k => turn k s) [4; 6; 8; 16; 19; 4] s) by (now destruct s as [[a b] c]).
  apply (reversible_steps turn unturn [4; 6; 8; 16; 19; 4]). intros k Hk. apply turn_reversible. cbn in Hk. lia.
Qed.

(** A line of [final], on the words in turn, and [final] backwards. *)
Definition fturn (k : Z) (s : hstate) : hstate :=
  let '(z, y, x) := s in let x := Z.lxor x y in let x := u32 (x - rot y k) in (y, x, z).
Definition unfturn (k : Z) (s : hstate) : hstate :=
  let '(y, x, z) := s in let x := u32 (x + rot y k) in let x := Z.lxor x y in (z, y, x).

Lemma fturn_reversible k : 0 < k < 32 -> reversible (fturn k) (unfturn k).
Proof.
  intros Hk [[z y] x] (Hz & Hy & Hx). unfold fturn, unfturn. split.
  - split; [exact Hy |]. split; [apply u32_range | exact Hz].
  - rewrite sub_add_cancel by now apply u32_lxor. now rewrite lxor_cancel.
Qed.

Definition unfinal (s : hstate) : hstate :=
  let '(a, b, c) := s in
  unfturn 14 (unfturn 11 (unfturn 25 (unfturn 16 (unfturn 4 (unfturn 14 (unfturn 24 (b, c, a))))))).

Lemma final_reversible : reversible final unfinal.
Proof.
  intros s Hs.
  destruct (reversible_steps fturn unfturn [14; 11; 25; 16; 4; 14; 24]) with (s := s) as [H1 H2]; [| exact Hs |].
  { intros k Hk. apply fturn_reversible. cbn in Hk. lia. }
  assert (let '(b, c, a) := fold_left (fun s k => fturn k s) [14; 11; 25; 16; 4; 14; 24] s in final s = (a, b, c)) as E by (now destruct s as [[a b] c]).
  destruct (fold_left _ _ _) as [[b c] a]. destruct H1 as (Hb & Hc & Ha). rewrite E. split; [now split | exact H2].
Qed.

(** ** One block *)

(** Memory with zeroes from [n] on. *)
Definition pad (k : memory) (n : Z) : memory := fun i => if i <? n then k i else 0.

Definition add3 (x y z : Z) (s : hstate) : hstate := let '(a, b, c) := s in (u32 (a + x), u32 (b + y), u32 (c + z)).

Definition bytes_ok (k : memory) : Prop := forall i, is_u8 (k i).

Lemma add_words_eq big k s : add_words big k s = add3 (word32 big k 0) (word32 big k 1) (word32 big k 2) s.
Proof. now destruct s as [[a b] c]. Qed.

Lemma le_word a b c d : host_value false [a; b; c; d] = a + 2 ^ 8 * b + 2 ^ 16 * c + 2 ^ 24 * d.
Proof. unfold host_value. cbn [le_combine]. ring. Qed.

Lemma be_word a b c d : host_value true [a; b; c; d] = d + 2 ^ 8 * c + 2 ^ 16 * b + 2 ^ 24 * a.
Proof. unfold host_value. cbn [le_combine rev app]. ring. Qed.

Lemma le_word16 a b : host_value false [a; b] = a + 2 ^ 8 * b.
Proof. unfold host_value. cbn [le_combine]. ring. Qed.

(** The cases of a length of at most twelve. *)
Lemma length_cases (P : Z -> Prop) : P 0 -> P 1 -> P 2 -> P 3 -> P 4 -> P 5 -> P 6 -> P 7 -> P 8 -> P 9 -> P 10 -> P 11 -> P 12 ->
  forall n, 0 <= n <= 12 -> P n.
Proof.
  intros H0 H1 H2 H3 H4 H5 H6 H7 H8 H9 H10 H11 H12 n Hn.
  assert (exists k, n = Z.of_nat k /\ (k <= 12)%nat) as (k & -> & Hk) by (exists (Z.to_nat n); lia).
  do 13 (destruct k as [| k]; [assumption |]). lia.
Qed.

Lemma u32_add_add a x y : u32 (u32 (a + x) + y) = u32 (a + (x + y)).
Proof. unfold u32. rewrite Zplus_mod_idemp_l. f_equal. ring. Qed.

Lemma u32_add_u32 a x : u32 (a + u32 x) = u32 (a + x).
Proof. unfold u32. apply Zplus_mod_idemp_r. Qed.

(** Masked words. *)
Section masks.
Context (a b c d : Z) (Ha : is_u8 a) (Hb : is_u8 b) (Hc : is_u8 c) (Hd : is_u8 d).
Ltac masks := unfold is_u8 in *; rewrite ?le_word, ?be_word; Z.div_mod_to_equations; lia.

Lemma word_u32 big : is_u32 (host_value big [a; b; c; d]).
Proof. unfold is_u32, is_u8 in *. destruct big; rewrite ?le_word, ?be_word; lia. Qed.

Lemma low24 : Z.land (host_value false [a; b; c; d]) 0xffffff = a + 2 ^ 8 * b + 2 ^ 16 * c.
Proof. change 0xffffff with (Z.ones 24). rewrite Z.land_ones by lia. masks. Qed.
Lemma low16 : Z.land (host_value false [a; b; c; d]) 0xffff = a + 2 ^ 8 * b.
Proof. change 0xffff with (Z.ones 16). rewrite Z.land_ones by lia. masks. Qed.
Lemma low8 : Z.land (host_value false [a; b; c; d]) 0xff = a.
Proof. change 0xff with (Z.ones 8). rewrite Z.land_ones by lia. masks. Qed.
Lemma high24 : Z.land (host_value true [a; b; c; d]) 0xffffff00 = 2 ^ 8 * c + 2 ^ 16 * b + 2 ^ 24 * a.
Proof. change 0xffffff00 with (2 ^ 32 - 2 ^ 8). rewrite (land_high 32) by (lia || apply word_u32). masks. Qed.
Lemma high16 : Z.land (host_value true [a; b; c; d]) 0xffff0000 = 2 ^ 16 * b + 2 ^ 24 * a.
Proof. change 0xffff0000 with (2 ^ 32 - 2 ^ 16). rewrite (land_high 32) by (lia || apply word_u32). masks. Qed.
Lemma high8 : Z.land (host_value true [a; b; c; d]) 0xff000000 = 2 ^ 24 * a.
Proof. change 0xff000000 with (2 ^ 32 - 2 ^ 24). rewrite (land_high 32) by (lia || apply word_u32). masks. Qed.
End masks.

(** What the reads of one branch come to. *)
Definition add_ok (big : bool) (add : memory -> hstate -> hstate) : Prop := forall k s, add k s = add_words big k s.

Definition last_ok (big : bool) (last : memory -> Z -> hstate -> option hstate) : Prop := forall k n s,
  bytes_ok k -> hstate_ok s -> 0 <= n <= 12 -> last k n s = if n =? 0 then None else Some (add_words big (pad k n) s).

(** Both sides as sums of bytes. *)
Ltac sums :=
  rewrite ?low24, ?low16, ?low8, ?high24, ?high16, ?high8 by auto;
  rewrite ?le_word, ?be_word, ?le_word16, ?u32_add_u32, ?u32_add_add, ?Z.shiftl_mul_pow2 by lia;
  first [reflexivity | f_equal; ring | rewrite Z.add_0_r; symmetry; apply u32_small; assumption].

Lemma hstate_eq (a b c a' b' c' : Z) : a = a' -> b = b' -> c = c' -> (a, b, c) = (a', b', c').
Proof. now intros -> -> ->. Qed.

(** The words by their bytes. *)
Ltac read_words :=
  repeat match goal with
  | |- context [word32 ?big ?k 0] => change (word32 big k 0) with (host_value big [k 0; k 1; k 2; k 3])
  | |- context [word32 ?big ?k 1] => change (word32 big k 1) with (host_value big [k 4; k 5; k 6; k 7])
  | |- context [word32 ?big ?k 2] => change (word32 big k 2) with (host_value big [k 8; k 9; k 10; k 11])
  | |- context [pair16 ?k 0] => change (pair16 k 0) with (u32 (host_value false [k 0; k 1] + Z.shiftl (host_value false [k 2; k 3]) 16))
  | |- context [pair16 ?k 2] => change (pair16 k 2) with (u32 (host_value false [k 4; k 5] + Z.shiftl (host_value false [k 6; k 7]) 16))
  | |- context [pair16 ?k 4] => change (pair16 k 4) with (u32 (host_value false [k 8; k 9] + Z.shiftl (host_value false [k 10; k 11]) 16))
  | |- context [word16 ?k 0] => change (word16 k 0) with (host_value false [k 0; k 1])
  | |- context [word16 ?k 2] => change (word16 k 2) with (host_value false [k 4; k 5])
  | |- context [word16 ?k 4] => change (word16 k 4) with (host_value false [k 8; k 9])
  end.

Ltac words := unfold add_a, add_b, add_c, add3; read_words; apply hstate_eq; sums.

Lemma add_bytes_ok : add_ok false add_bytes.
Proof. intros k [[a b] c]. rewrite add_words_eq. unfold add_bytes. words. Qed.

Lemma add_pairs_ok : add_ok false add_pairs.
Proof. intros k [[a b] c]. rewrite add_words_eq. unfold add_pairs. words. Qed.

Lemma add_bytes_big_ok : add_ok true add_bytes_big.
Proof. intros k [[a b] c]. rewrite add_words_eq. unfold add_bytes_big. words. Qed.

Ltac last_block :=
  intros k n [[a b] c] Hk (Ha & Hb & Hc); revert n;
  apply length_cases; cbn [Z.eqb Pos.eqb]; [reflexivity | ..]; f_equal; rewrite add_words_eq;
  repeat match goal with
  | |- context [case ?n ?l ?f ?s] =>
      let v := eval vm_compute in (l <=? n) in
      match v with
      | true => change (case n l f s) with (f s)
      | false => change (case n l f s) with s
      end
  end;
  unfold add_a, add_b, add_c, add3; read_words; unfold pad;
  repeat match goal with |- context [?x <? ?y] => let v := eval vm_compute in (x <? y) in change (x <? y) with v end;
  cbv iota; apply hstate_eq; sums.

Lemma last32_ok : last_ok false last32.
Proof. unfold last_ok, last32. last_block. Qed.

Lemma last32_valgrind_ok : last_ok false last32_valgrind.
Proof. unfold last_ok, last32_valgrind. last_block. Qed.

Lemma last16_ok : last_ok false last16.
Proof. unfold last_ok, last16. last_block. Qed.

Lemma last8_ok : last_ok false last8.
Proof. unfold last_ok, last8. cbv zeta. last_block. Qed.

Lemma last32_big_ok : last_ok true last32_big.
Proof. unfold last_ok, last32_big. last_block. Qed.

Lemma last32_big_valgrind_ok : last_ok true last32_big_valgrind.
Proof. unfold last_ok, last32_big_valgrind. last_block. Qed.

Lemma last8_big_ok : last_ok true last8_big.
Proof. unfold last_ok, last8_big. cbv zeta. last_block. Qed.

(** ** Whole keys *)

(** A key as memory, with zeroes behind it. *)
Definition mem_of (l : list Z) : memory := fun i => default 0 (zlookup l i).

(** The hash of a key: blocks of twelve bytes are added and mixed, the last one
    is filled with zeroes, added and mixed for good; an empty key is not mixed. *)
Fixpoint absorb (big : bool) (fuel : nat) (l : list Z) (s : hstate) : hstate :=
  match fuel with
  | O => s
  | S fuel =>
      if 12 <? zlength l then absorb big fuel (drop 12 l) (mix (add_words big (mem_of l) s))
      else match l with [] => s | _ => final (add_words big (mem_of l) s) end
  end.

Definition hash_state (big : bool) (l : list Z) (s : hstate) : hstate := absorb big (S (length l)) l s.

(** The memory at [k] starts with the bytes [l]. *)
Definition holds (k : memory) (l : list Z) : Prop := forall i, 0 <= i < zlength l -> zlookup l i = Some (k i).

Lemma add_words_ext big k k' s : (forall i, 0 <= i < 12 -> k i = k' i) -> add_words big k s = add_words big k' s.
Proof. intros H. rewrite !add_words_eq. unfold word32. now rewrite !H by lia. Qed.

Lemma add_words_state_ok big k s : hstate_ok (add_words big k s).
Proof. rewrite add_words_eq. destruct s as [[a b] c]. repeat split; apply u32_range. Qed.

Lemma holds_mem_of k l i : holds k l -> 0 <= i -> mem_of l i = pad k (zlength l) i.
Proof.
  intros H Hi. unfold mem_of, pad. destruct (Z.ltb_spec i (zlength l)) as [Hlt | Hge]; [now rewrite H |].
  destruct (zlookup l i) eqn:E; [apply zlookup_lt in E; lia | reflexivity].
Qed.

Lemma zlookup_drop12 (l : list Z) i : 0 <= i -> zlookup (drop 12 l) i = zlookup l (12 + i).
Proof.
  intros Hi. unfold zlookup. destruct (Z.leb_spec 0 i), (Z.leb_spec 0 (12 + i)); try lia.
  rewrite lookup_drop. f_equal. lia.
Qed.

Lemma zlength_drop12 (l : list Z) : 12 < zlength l -> zlength (drop 12 l) = zlength l - 12.
Proof. unfold zlength. intros H. rewrite length_drop. lia. Qed.

Lemma holds_skip k l : 12 < zlength l -> holds k l -> holds (skip k 12) (drop 12 l).
Proof. intros Hl H i Hi. rewrite zlength_drop12 in Hi by exact Hl. rewrite zlookup_drop12 by lia. unfold skip. apply H. lia. Qed.

Section run.
Context (big : bool) (add : memory -> hstate -> hstate) (last : memory -> Z -> hstate -> option hstate).
Hypothesis (Hadd : add_ok big add) (Hlast : last_ok big last).

Lemma run_blocks fuel : forall fuel' k l s, bytes_ok k -> holds k l -> hstate_ok s ->
  (length l <= fuel)%nat -> (length l < fuel')%nat ->
  (let '(k', n, s') := hash_blocks add fuel k (zlength l) s in match last k' n s' with None => s' | Some s' => final s' end) = absorb big fuel' l s.
Proof.
  induction fuel as [| fuel IH]; intros [| fuel'] k l s Hk Hl Hs Hf Hf'; try lia.
  - destruct l; [| cbn in Hf; lia]. cbn [hash_blocks absorb]. change (12 <? zlength []) with false. change (zlength []) with 0. cbv iota.
    now rewrite Hlast by (assumption || lia).
  - cbn [hash_blocks absorb]. destruct (Z.ltb_spec 12 (zlength l)) as [Hlt | Hge].
    + rewrite <- zlength_drop12 by exact Hlt.
      rewrite IH with (fuel' := fuel').
      * f_equal. f_equal. rewrite Hadd. apply add_words_ext. intros i Hi. rewrite (holds_mem_of k l i Hl) by lia. unfold pad. now destruct (Z.ltb_spec i (zlength l)); [| lia].
      * intros i. apply Hk.
      * now apply holds_skip.
      * rewrite Hadd. apply mix_reversible, add_words_state_ok.
      * rewrite length_drop. unfold zlength in Hlt. lia.
      * rewrite length_drop. unfold zlength in Hlt. lia.
    + pose proof (zlength_nonneg l). rewrite Hlast by (assumption || lia). destruct l as [| b l]; [reflexivity |].
      destruct (Z.eqb_spec (zlength (b :: l)) 0) as [E | _]; [rewrite zlength_cons in E; pose proof (zlength_nonneg l); lia |].
      f_equal. apply add_words_ext. intros i Hi. symmetry. apply holds_mem_of; [exact Hl | lia].
Qed.

Lemma run_hash k l s : bytes_ok k -> holds k l -> hstate_ok s -> run add last k (zlength l) s = hash_state big l s.
Proof.
  intros Hk Hl Hs. unfold run, hash_state. unfold zlength at 1. rewrite Nat2Z.id.
  pose proof (run_blocks (length l) (S (length l)) k l s Hk Hl Hs) as H. destruct (hash_blocks _ _ _ _ _) as [[k' n] s']. apply H; lia.
Qed.
End run.

Definition seed (length initval : Z) : Z := u32 (u32 (0xdeadbeef + u32 length) + initval).

Lemma little_hash endian valgrind address k l s : bytes_ok k -> holds k l -> hstate_ok s ->
  little endian valgrind address k (zlength l) s = hash_state false l s.
Proof.
  intros Hk Hl Hs. unfold little. destruct (HASH_LITTLE_ENDIAN endian && (Z.land address 0x3 =? 0));
    [| destruct (HASH_LITTLE_ENDIAN endian && (Z.land address 0x1 =? 0))].
  - apply run_hash; auto; [now intros ? ? | destruct valgrind; [apply last32_valgrind_ok | apply last32_ok]].
  - apply run_hash; auto; [apply add_pairs_ok | apply last16_ok].
  - apply run_hash; auto; [apply add_bytes_ok | apply last8_ok].
Qed.

Lemma big_hash endian valgrind address k l initval : bytes_ok k -> holds k l ->
  hashbig endian valgrind address k (zlength l) initval
  = (hash_state true l (seed (zlength l) initval, seed (zlength l) initval, seed (zlength l) initval)).2.
Proof.
  intros Hk Hl. unfold hashbig. fold (seed (zlength l) initval). set (a := seed _ _).
  assert (hstate_ok (a, a, a)) as Hs by (repeat split; apply u32_range).
  destruct (HASH_BIG_ENDIAN endian && (Z.land address 0x3 =? 0)).
  - rewrite (run_hash true); auto; [now destruct (hash_state _ _ _) as [[? ?] ?] | now intros ? ? | destruct valgrind; [apply last32_big_valgrind_ok | apply last32_big_ok]].
  - rewrite (run_hash true); auto using add_bytes_big_ok, last8_big_ok. now destruct (hash_state _ _ _) as [[? ?] ?].
Qed.

(** ** Keys of words *)

(** The bytes of a key of words on a machine. *)
Definition word_bytes (big : bool) (ks : list Z) : list Z := flat_map (host_bytes big 4) ks.

Lemma host_bytes_4 big w : exists b0 b1 b2 b3, host_bytes big 4 w = [b0; b1; b2; b3] /\ (is_u32 w -> host_value big [b0; b1; b2; b3] = w).
Proof.
  destruct big; do 4 eexists; (split; [reflexivity |]); intros Hw; unfold is_u32 in Hw; rewrite ?le_word, ?be_word; Z.div_mod_to_equations; lia.
Qed.

Lemma word_bytes_length big ks : zlength (word_bytes big ks) = 4 * zlength ks.
Proof.
  induction ks as [| w ks IH]; [reflexivity |]. cbn [word_bytes flat_map]. fold (word_bytes big ks).
  destruct (host_bytes_4 big w) as (b0 & b1 & b2 & b3 & -> & _). rewrite zlength_app, IH, !zlength_cons, zlength_nil. ring.
Qed.

(** A block of words. *)
Lemma word_block big ks s : Forall is_u32 ks ->
  add_words big (mem_of (word_bytes big ks)) s = add3 (default 0 (ks !! 0%nat)) (default 0 (ks !! 1%nat)) (default 0 (ks !! 2%nat)) s.
Proof.
  intros H. rewrite add_words_eq. unfold word32.
  assert (host_value big [0; 0; 0; 0] = 0) as H0 by (now destruct big).
  destruct ks as [| w0 [| w1 [| w2 ks]]]; repeat match goal with Hf : Forall _ (_ :: _) |- _ => apply Forall_cons_1 in Hf as [? Hf] end;
    cbn [word_bytes flat_map lookup list_lookup default];
    repeat match goal with |- context [host_bytes big 4 ?w] =>
      let E := fresh in let V := fresh in destruct (host_bytes_4 big w) as (? & ? & ? & ? & E & V); rewrite E; clear E; specialize (V ltac:(assumption)) end;
    cbn [app]; unfold mem_of.
  all: apply (f_equal3 (fun x y z => add3 x y z s)); solve [exact H0 | eassumption].
Qed.

Lemma word_bytes_drop big w0 w1 w2 ks : drop 12 (word_bytes big (w0 :: w1 :: w2 :: ks)) = word_bytes big ks.
Proof.
  cbn [word_bytes flat_map]. destruct (host_bytes_4 big w0) as (? & ? & ? & ? & -> & _).
  destruct (host_bytes_4 big w1) as (? & ? & ? & ? & -> & _). destruct (host_bytes_4 big w2) as (? & ? & ? & ? & -> & _). reflexivity.
Qed.

Lemma add3_words x y z s : add_c z (add_b y (add_a x s)) = add3 x y z s.
Proof. now destruct s as [[a b] c]. Qed.

Lemma word_hash_loop big fuel : forall fuel' ks s, Forall is_u32 ks -> hstate_ok s -> (length ks <= fuel)%nat -> (length ks < fuel')%nat ->
  (let '(ks, s) := word_blocks fuel ks s in word_last ks s) = absorb big fuel' (word_bytes big ks) s.
Proof.
  induction fuel as [| fuel IH]; intros [| fuel'] ks s Hk Hs Hf Hf'; try lia.
  { now destruct ks; [| cbn in Hf; lia]. }
  cbn [absorb]. rewrite word_bytes_length. pose proof (word_block big ks s Hk) as Hb. destruct s as [[a b] c]. destruct Hs as (Ha & Hb' & Hc).
  assert (forall x, is_u32 x -> u32 (x + 0) = x) as H0 by (intros x Hx; rewrite Z.add_0_r; now apply u32_small).
  destruct ks as [| w0 [| w1 [| w2 [| w3 ks]]]].
  - reflexivity.
  - change (12 <? 4 * zlength [w0]) with false. cbv iota. rewrite Hb. cbn [word_blocks word_last add3 add_a lookup list_lookup default id].
    destruct (host_bytes_4 big w0) as (? & ? & ? & ? & E & _). cbn [word_bytes flat_map]. rewrite E. cbn [app]. now rewrite !H0.
  - change (12 <? 4 * zlength [w0; w1]) with false. cbv iota. rewrite Hb. cbn [word_blocks word_last add3 add_a add_b lookup list_lookup default id].
    destruct (host_bytes_4 big w0) as (? & ? & ? & ? & E & _). cbn [word_bytes flat_map]. rewrite E. cbn [app]. now rewrite !H0.
  - change (12 <? 4 * zlength [w0; w1; w2]) with false. cbv iota. rewrite Hb. cbn [word_blocks word_last add3 add_a add_b add_c lookup list_lookup default id].
    destruct (host_bytes_4 big w0) as (? & ? & ? & ? & E & _). cbn [word_bytes flat_map]. rewrite E. reflexivity.
  - pose proof (zlength_nonneg ks). replace (12 <? 4 * zlength (w0 :: w1 :: w2 :: w3 :: ks)) with true by (rewrite !zlength_cons; lia).
    rewrite Hb, word_bytes_drop. cbn [word_blocks]. rewrite add3_words. 
    rewrite IH with (fuel' := fuel'); [reflexivity | | | cbn in *; lia | cbn in *; lia].
    + now do 3 apply Forall_cons_1 in Hk as [_ Hk].
    + apply mix_reversible. repeat split; apply u32_range.
Qed.

Lemma word_hash_eq big ks s : Forall is_u32 ks -> hstate_ok s -> word_hash ks s = hash_state big (word_bytes big ks) s.
Proof.
  intros Hk Hs. apply word_hash_loop; auto. pose proof (word_bytes_length big ks) as H. unfold zlength in H. lia.
Qed.

Lemma word_seed (ks : list Z) initval : u32 (u32 (0xdeadbeef + u32 (Z.shiftl (u32 (zlength ks)) 2)) + initval) = seed (4 * zlength ks) initval.
Proof.
  unfold seed. assert (u32 (Z.shiftl (u32 (zlength ks)) 2) = u32 (4 * zlength ks)) as ->; [| reflexivity].
  rewrite Z.shiftl_mul_pow2 by lia. unfold u32. rewrite Zmult_mod_idemp_l. f_equal. ring.
Qed.

(** ** Theorems *)

Lemma seed_state length pc pb : hstate_ok (seed length pc, seed length pc, u32 (seed length pc + pb)).
Proof. repeat split; apply u32_range. Qed.

Lemma seed_zero length pc : u32 (seed length pc + 0) = seed length pc.
Proof. rewrite Z.add_0_r. apply u32_small, u32_range. Qed.

Definition c_of (s : hstate) : Z := let '(_, _, c) := s in c.
Definition b_of (s : hstate) : Z := let '(_, b, _) := s in b.

(** C31: The hash functions depend on nothing but the bytes of the key and the
    seeds: for a key at any address, whatever bytes lie behind it, read by words,
    half words or bytes, with or without the code for valgrind, on a machine of
    either byte order, [hashlittle], [hashlittle2] and [hashbig] are the mixed sum
    of the key's blocks of twelve bytes, filled with zeroes. *)
Theorem hash_of_bytes (endian : hash_endian) (valgrind : bool) (address : Z) (k : memory) (l : list Z) (initval pc pb : Z) :
  bytes_ok k -> holds k l ->
  hashlittle endian valgrind address k (zlength l) initval
  = c_of (hash_state false l (seed (zlength l) initval, seed (zlength l) initval, seed (zlength l) initval))
  /\ hashlittle2 endian valgrind address k (zlength l) pc pb
     = (let s := hash_state false l (seed (zlength l) pc, seed (zlength l) pc, u32 (seed (zlength l) pc + pb)) in (c_of s, b_of s))
  /\ hashbig endian valgrind address k (zlength l) initval
     = c_of (hash_state true l (seed (zlength l) initval, seed (zlength l) initval, seed (zlength l) initval)).
Proof.
  intros Hk Hl. pose proof (seed_state (zlength l) initval 0) as Hs. rewrite seed_zero in Hs. split; [| split].
  - unfold hashlittle. fold (seed (zlength l) initval). now rewrite (little_hash endian valgrind address k l).
  - unfold hashlittle2. fold (seed (zlength l) pc). rewrite (little_hash endian valgrind address k l) by (assumption || apply seed_state).
    now destruct (hash_state _ _ _) as [[? ?] ?].
  - rewrite (big_hash endian valgrind address k l) by assumption. now destruct (hash_state _ _ _) as [[? ?] ?].
Qed.

(** The key "abc" at an odd address, with other bytes behind it. *)
Lemma hash_of_bytes_witness :
  let k := fun i => if i <? 3 then 97 + Z.max 0 i else 7 in
  hashlittle HASH_LITTLE false 4 k 3 1 = hashlittle HASH_UNKNOWN true 1 k 3 1.
Proof.
  intros k. assert (bytes_ok k) as Hk by (intros i; unfold k, is_u8; zcase; lia).
  assert (holds k [97; 98; 99]) as Hl.
  { intros i Hi. change (zlength [97; 98; 99]) with 3 in Hi. assert (i = 0 \/ i = 1 \/ i = 2) as [-> | [-> | ->]] by lia; reflexivity. }
  exact (eq_trans (proj1 (hash_of_bytes HASH_LITTLE false 4 k [97; 98; 99] 1 0 0 Hk Hl))
           (eq_sym (proj1 (hash_of_bytes HASH_UNKNOWN true 1 k [97; 98; 99] 1 0 0 Hk Hl)))).
Defined.

(** The variants agree as the comments say. With a second seed of zero,
    [hashlittle2] and [hashword2] return what [hashlittle] and [hashword] do; the
    hash of a key of words is that of its bytes by [hashlittle] on little-endian
    and by [hashbig] on big-endian machines; and [mix] and [final] lose nothing:
    they are undone by functions on the state. *)
Theorem hash_variants_agree (endian : hash_endian) (valgrind : bool) (address : Z) (k : memory) (l ks : list Z) (initval : Z) (s : hstate) :
  bytes_ok k -> holds k l -> Forall is_u32 ks -> 4 * zlength ks < 2 ^ 64 -> hstate_ok s ->
  (hashlittle2 endian valgrind address k (zlength l) initval 0).1 = hashlittle endian valgrind address k (zlength l) initval
  /\ (hashword2 ks initval 0).1 = hashword ks initval
  /\ (l = word_bytes false ks -> hashword ks initval = hashlittle endian valgrind address k (zlength l) initval)
  /\ (l = word_bytes true ks -> hashword ks initval = hashbig endian valgrind address k (zlength l) initval)
  /\ unmix (mix s) = s /\ unfinal (final s) = s.
Proof.
  intros Hk Hl Hks Hlen Hs. pose proof (zlength_nonneg ks) as H0. pose proof (seed_state (zlength l) initval 0) as Hs1. pose proof (seed_state (4 * zlength ks) initval 0) as Hs2.
  assert (hashlittle endian valgrind address k (zlength l) initval
    = c_of (hash_state false l (seed (zlength l) initval, seed (zlength l) initval, seed (zlength l) initval))) as El.
  { unfold hashlittle. fold (seed (zlength l) initval). rewrite seed_zero in Hs1. now rewrite (little_hash endian valgrind address k l). }
  assert (hashword ks initval = c_of (word_hash ks (seed (4 * zlength ks) initval, seed (4 * zlength ks) initval, seed (4 * zlength ks) initval))) as Ew.
  { unfold hashword. now rewrite word_seed. }
  rewrite seed_zero in Hs2. split; [| split; [| split; [| split; [| split]]]].
  - rewrite El. unfold hashlittle2. fold (seed (zlength l) initval). rewrite (little_hash endian valgrind address k l) by assumption.
    rewrite seed_zero. now destruct (hash_state _ _ _) as [[? ?] ?].
  - rewrite Ew. unfold hashword2. assert (u32 (u64 (Z.shiftl (zlength ks) 2)) = u32 (Z.shiftl (u32 (zlength ks)) 2)) as ->.
    { rewrite !Z.shiftl_mul_pow2 by lia. unfold u64. rewrite Z.mod_small by lia. unfold u32. now rewrite Zmult_mod_idemp_l. }
    rewrite word_seed, seed_zero. now destruct (word_hash _ _) as [[? ?] ?].
  - intros ->. rewrite Ew, El, word_bytes_length. now rewrite (word_hash_eq false).
  - intros ->. rewrite Ew, (big_hash endian valgrind address k (word_bytes true ks)), word_bytes_length by assumption.
    rewrite (word_hash_eq true) by assumption. now destruct (hash_state true _ _) as [[? ?] ?].
  - now apply mix_reversible.
  - now apply final_reversible.
Qed.

(** The key of one word, 0x01020304, on a little-endian machine. *)
Lemma hash_variants_agree_witness :
  let k := mem_of [4; 3; 2; 1] in
  hashword [0x01020304] 5 = hashlittle HASH_LITTLE false 0 k 4 5.
Proof.
  intros k. assert (bytes_ok k) as Hk.
  { intros i. unfold k, mem_of, zlookup, is_u8. destruct (0 <=? i); [| cbn; lia].
    destruct (Z.to_nat i) as [| [| [| [| n]]]]; vm_compute; (split; [discriminate | reflexivity]). }
  assert (holds k [4; 3; 2; 1]) as Hl.
  { intros i Hi. change (zlength [4; 3; 2; 1]) with 4 in Hi. assert (i = 0 \/ i = 1 \/ i = 2 \/ i = 3) as [-> | [-> | [-> | ->]]] by lia; reflexivity. }
  assert (Forall is_u32 [0x01020304]) as Hw by (apply Forall_singleton; unfold is_u32; lia).
  assert (4 * zlength [0x01020304] < 2 ^ 64) as Hlen by reflexivity.
  assert (hstate_ok (0, 0, 0)) as Hs by (cbn; unfold is_u32; lia).
  exact (proj1 (proj2 (proj2 (hash_variants_agree HASH_LITTLE false 0 k [4; 3; 2; 1] [0x01020304] 5 (0, 0, 0) Hk Hl Hw Hlen Hs))) eq_refl).
Defined.
