(* ===== verification/KeyHashes.v ===== *)
(** * Hash functions for keys: theorems *)

From S2P Require Import Prelude Memory ByteOrder ByteBuf ByteBufSpec ByteCursorOrder AwsString AwsStringSpec Lookup3 Lookup3Spec.
Import ByteBuf AwsString Lookup3.

Local Open Scope Z_scope.

(** ** Hashes *)

Definition hash_of (l : list Z) : Z :=
  let a := seed (zlength l) 0x885A308D in
  let s := hash_state false l (a, a, u32 (a + 0x3243F6A8)) in
  join (c_of s, b_of s).

Lemma key_memory_ok behind p l : (forall p i, is_u8 (behind p i)) -> Forall is_u8 l ->
  bytes_ok (key_memory behind p l) /\ holds (key_memory behind p l) l.
Proof.
  intros Hb Hl. split.
  - intros i. unfold key_memory. destruct (zlookup l i) as [b |] eqn:E; [| apply Hb].
    apply zlookup_Some in E as [_ E]. now apply (Forall_lookup_1 _ _ _ _ Hl E).
  - intros i Hi. unfold key_memory. destruct (zlookup_is_Some l i Hi) as [b ->]. reflexivity.
Qed.

Lemma hash_bytes_spec endian valgrind address behind p len l m : (forall p i, is_u8 (behind p i)) -> Forall is_u8 l ->
  bytes_at m p len = Some l -> hash_bytes endian valgrind address behind p len m = Ret (hash_of l) m.
Proof.
  intros Hbehind Hl Hb. destruct (key_memory_ok behind p l Hbehind Hl) as [H1 H2].
  pose proof (bytes_at_length _ _ _ _ Hb) as [Hlen _]. unfold hash_bytes. run (load_ok _ _ _ _ Hb). unfold mret, M_ret. f_equal.
  unfold hash_of. rewrite <- Hlen. unfold hashlittle2. fold (seed (zlength l) 0x885A308D).
  rewrite (little_hash endian valgrind (address p) _ l) by (assumption || apply seed_state). now destruct (hash_state _ _ _) as [[? ?] ?].
Qed.

Lemma compare_c_strings_spec a : forall b ta tb, 0 ∉ a -> 0 ∉ b ->
  exists r, compare_c_strings (a ++ 0 :: ta) (b ++ 0 :: tb) = Some r /\ (r = 0 <-> a = b).
Proof.
  induction a as [| x a IH]; intros [| y b] ta tb Ha Hb; cbn [app compare_c_strings].
  - exists 0. now split.
  - apply not_elem_of_cons in Hb as [Hy _]. destruct (Z.eqb_spec 0 y); [congruence |]. cbn [negb]. eexists. split; [reflexivity |]. split; [lia | discriminate].
  - apply not_elem_of_cons in Ha as [Hx _]. destruct (Z.eqb_spec x 0); [congruence |]. cbn [negb]. eexists. split; [reflexivity |]. split; [lia | discriminate].
  - apply not_elem_of_cons in Ha as [Hx Ha]. apply not_elem_of_cons in Hb as [Hy Hb].
    destruct (Z.eqb_spec x y) as [-> | Hne]; cbn [negb].
    + destruct (Z.eqb_spec y 0); [congruence |]. destruct (IH b ta tb Ha Hb) as (r & -> & Hr). exists r. split; [reflexivity |]. rewrite Hr. split; congruence.
    + eexists. split; [reflexivity |]. split; [lia | congruence].
Qed.

(** Keys that are equal have equal hashes, however they are held:
    [aws_hash_c_string], [aws_hash_string] and [aws_hash_byte_cursor_ptr] return
    the same hash for the same bytes, at any address, in any memory and on any
    machine, and read no byte that is not theirs into it; so a table of strings
    can be asked with a cursor. [aws_hash_callback_c_str_eq] and
    [aws_hash_callback_string_eq] decide equality of the bytes. *)
Theorem key_hashes_agree (endian endian' endian'' : hash_endian) (valgrind : bool)
    (address address' : ptr -> Z) (behind behind' : ptr -> Z -> Z)
    (m m' : mem) (p q : ptr) (a b : aws_string) (cur : aws_byte_cursor) (l l' : list Z) :
  Forall is_u8 l -> Forall is_u8 l' -> (forall p i, is_u8 (behind p i)) -> (forall p i, is_u8 (behind' p i)) ->
  c_string_at m p l -> c_string_at m q l' -> string_ok m a l -> string_ok m b l' -> (str_ptr a = str_ptr b -> a = b) ->
  cursor_ok m' cur l ->
  (exists h, aws_hash_c_string endian valgrind address behind p m = Ret h m
     /\ aws_hash_string endian' valgrind address' behind' a m = Ret h m
     /\ aws_hash_byte_cursor_ptr endian'' valgrind address' behind' cur m' = Ret h m')
  /\ aws_hash_callback_c_str_eq p q m = Ret (bool_decide (l = l')) m
  /\ aws_hash_callback_string_eq a b m = Ret (bool_decide (l = l')) m.
Proof.
  intros Hl Hl' Hbe Hbe' Hp Hq Ha Hb Hsame Hc. split; [exists (hash_of l); split; [| split] | split].
  - unfold aws_hash_c_string. run (strlen_c_string m p l Hp). apply hash_bytes_spec; auto. now apply c_string_bytes.
  - apply hash_bytes_spec; auto. exact (co_data _ _ _ (string_cursor _ _ _ Ha)).
  - apply hash_bytes_spec; auto. exact (co_data _ _ _ Hc).
  - destruct (rest_of_c_string m p l Hp) as (ta & Hra & H0a). destruct (rest_of_c_string m q l' Hq) as (tb & Hrb & H0b).
    destruct (compare_c_strings_spec l l' ta tb H0a H0b) as (r & Hr & E).
    unfold aws_hash_callback_c_str_eq, strcmp, mbind, M_bind. rewrite Hra, Hrb, Hr. unfold mret, M_ret. f_equal.
    apply eq_true_iff_eq. now rewrite Z.eqb_eq, bool_decide_eq_true.
  - unfold aws_hash_callback_string_eq. now apply string_eq_spec.
Qed.

(** The key "hi" as a C string and as a cursor. *)
Lemma key_hashes_agree_witness :
  exists h, aws_hash_c_string HASH_LITTLE false (fun _ => 1) (fun _ _ => 7) (Static [104; 105; 0] 0) demo_mem = Ret h demo_mem
    /\ aws_hash_byte_cursor_ptr HASH_LITTLE false (fun _ => 4) (fun _ _ => 9) (mk_cursor 2 (Static [104; 105; 33] 0)) demo_mem = Ret h demo_mem.
Proof.
  set (a := mk_string (Static (replicate 16 0 ++ [104; 105; 0]) 0) None 2).
  assert (Forall is_u8 [104; 105]) as Hl by (repeat constructor; unfold is_u8; lia).
  assert (c_string_at demo_mem (Static [104; 105; 0] 0) [104; 105]) as Hp by (exists 3; split; [reflexivity | apply (bool_decide_unpack _); reflexivity]).
  assert (string_ok demo_mem a [104; 105]) as Ha by (constructor; [reflexivity | now vm_compute]).
  assert (cursor_ok demo_mem (mk_cursor 2 (Static [104; 105; 33] 0)) [104; 105]) as Hc by (constructor; [reflexivity | now vm_compute]).
  destruct (key_hashes_agree HASH_LITTLE HASH_LITTLE HASH_LITTLE false (fun _ => 1) (fun _ => 4) (fun _ _ => 7) (fun _ _ => 9)
    demo_mem demo_mem _ _ a a _ _ _ Hl Hl ltac:(intros; unfold is_u8; lia) ltac:(intros; unfold is_u8; lia) Hp Hp Ha Ha (fun _ => eq_refl) Hc)
    as [(h & H1 & _ & H2) _].
  exists h. split; [exact H1 | exact H2].
Defined.
