(* ===== verification/Sba.v ===== *)
(** * The small block allocator: definitions

    [source/allocator_sba.c]. Addresses are numbers. Pages come from the
    operating system and large blocks from the parent allocator: what they return
    is an argument of each call. A critical section is one step: the lock of a bin
    is held around every access to it. Assertions are off, as in a release build;
    [None] is undefined behaviour, such as reading a header that is not there. *)

From S2P Require Import Prelude Math MathBits.
Import MathBits.

Local Open Scope Z_scope.

Module Sba.

Definition AWS_SBA_PAGE_SIZE : Z := 4096.
Definition AWS_SBA_PAGE_MASK : Z := u64 (Z.lnot (AWS_SBA_PAGE_SIZE - 1)).
Definition AWS_SBA_TAG_VALUE : Z := 0x736f6d6570736575.
Definition s_bin_sizes : list Z := [32; 64; 128; 256; 512].
Definition s_max_bin_size : Z := 512.
Definition sizeof_page_header : Z := 32.

(** A bin; [page_cursor] is 0 for NULL. *)
Record sba_bin := mk_bin {
  size : Z;
  page_cursor : Z;
  active_pages : list Z;
  free_chunks : list Z
}.

(** The bin is its index. *)
Record page_header := mk_header {
  tag : Z;
  bin : nat;
  alloc_count : Z;
  tag2 : Z
}.

(** The allocator, the headers of the pages that it has from the operating
    system, the blocks of the parent allocator with their sizes, and the bytes of
    all other memory: of the blocks, and of what is not the allocator's. While the
    allocator has a page, its header is in [pages]; when it gives the page back,
    the words of the header stay in the memory. *)
Record sba := mk_sba {
  bins : list sba_bin;
  pages : gmap Z page_header;
  parent : gmap Z Z;
  memory : Z -> Z
}.

Definition set_cursor (b : sba_bin) (c : Z) : sba_bin := mk_bin (size b) c (active_pages b) (free_chunks b).
Definition set_active (b : sba_bin) (l : list Z) : sba_bin := mk_bin (size b) (page_cursor b) l (free_chunks b).
Definition set_free (b : sba_bin) (l : list Z) : sba_bin := mk_bin (size b) (page_cursor b) (active_pages b) l.
Definition set_count (h : page_header) (n : Z) : page_header := mk_header (tag h) (bin h) n (tag2 h).

Definition with_bin (s : sba) (k : nat) (b : sba_bin) : sba := mk_sba (<[k := b]> (bins s)) (pages s) (parent s) (memory s).
Definition with_pages (s : sba) (p : gmap Z page_header) : sba := mk_sba (bins s) p (parent s) (memory s).
Definition with_parent (s : sba) (p : gmap Z Z) : sba := mk_sba (bins s) (pages s) p (memory s).
Definition with_memory (s : sba) (m : Z -> Z) : sba := mk_sba (bins s) (pages s) (parent s) m.

Definition s_page_base (addr : Z) : Z := Z.land addr AWS_SBA_PAGE_MASK.

(** [posix_memalign] gave [addr]. *)
Definition s_page_bind (s : sba) (addr : Z) (k : nat) : Z * sba :=
  (addr + sizeof_page_header, with_pages s (<[addr := mk_header AWS_SBA_TAG_VALUE k 0 AWS_SBA_TAG_VALUE]> (pages s))).

(** Words of 64 bits, little-endian. *)
Fixpoint load_bytes (n : nat) (m : Z -> Z) (a : Z) : Z :=
  match n with O => 0 | S n => u8 (m a) + 2 ^ 8 * load_bytes n m (a + 1) end.
Definition load64 (m : Z -> Z) (a : Z) : Z := load_bytes 8 m a.
Definition store64 (a v : Z) (m : Z -> Z) : Z -> Z :=
  fun x => if (a <=? x) && (x <? a + 8) then u8 (Z.shiftr v (8 * (x - a))) else m x.

Definition offsetof_tag2 : Z := 24.

(** The memory of a page that is given back, which holds the tags of its header. *)
Definition leave_tags (page : Z) (h : page_header) (m : Z -> Z) : Z -> Z :=
  store64 (page + offsetof_tag2) (tag2 h) (store64 page (tag h) m).

Definition s_aligned_free (s : sba) (addr : Z) : option sba :=
  h ← pages s !! addr;
  Some (with_memory (with_pages s (delete addr (pages s))) (leave_tags addr h (memory s))).

(** [page->tag = page->tag2 = 0] *)
Definition erase_tags (s : sba) (page : Z) : option sba :=
  h ← pages s !! page;
  Some (with_pages s (<[page := mk_header 0 (bin h) (alloc_count h) 0]> (pages s))).

(** The lists of [aws_array_list]. *)
Definition pop_back (l : list Z) : list Z := take (length l - 1) l.
Definition swap (l : list Z) (i j : nat) : list Z :=
  match l !! i, l !! j with Some x, Some y => <[i := y]> (<[j := x]> l) | _, _ => l end.

(** [page->alloc_count += d] *)
Definition count_add (s : sba) (page d : Z) : option (Z * sba) :=
  h ← pages s !! page;
  let n := u32 (alloc_count h + d) in
  Some (n, with_pages s (<[page := set_count h n]> (pages s))).

(** ** Creating and destroying *)

Definition new_bin (size : Z) : sba_bin := mk_bin size 0 [] [].

(** [m]: what the memory holds at the start. *)
Definition s_sba_init (m : Z -> Z) : sba := mk_sba (map new_bin s_bin_sizes) ∅ ∅ m.

Fixpoint free_pages (s : sba) (l : list Z) : option sba :=
  match l with
  | [] => Some s
  | page :: l => s ← s_aligned_free s page; free_pages s l
  end.

Definition clean_up_bin (s : sba) (b : sba_bin) : option sba :=
  s ← free_pages s (active_pages b);
  if page_cursor b =? 0 then Some s else s_aligned_free s (s_page_base (page_cursor b)).

Fixpoint clean_up_bins (s : sba) (l : list sba_bin) : option sba :=
  match l with
  | [] => Some s
  | b :: l => s ← clean_up_bin s b; clean_up_bins s l
  end.

Definition s_sba_clean_up (s : sba) : option sba := clean_up_bins s (bins s).

Definition aws_small_block_allocator_destroy (s : sba) : option sba := s_sba_clean_up s.

(** ** Statistics *)

Definition page_bytes (s : sba) (b : sba_bin) (page : Z) : option Z := h ← pages s !! page; Some (u64 (alloc_count h * size b)).

Fixpoint sum_pages (s : sba) (b : sba_bin) (l : list Z) (used : Z) : option Z :=
  match l with
  | [] => Some used
  | page :: l => n ← page_bytes s b page; sum_pages s b l (u64 (used + n))
  end.

Definition bin_bytes (s : sba) (used : Z) (b : sba_bin) : option Z :=
  used ← sum_pages s b (active_pages b) used;
  if page_cursor b =? 0 then Some used
  else n ← page_bytes s b (s_page_base (page_cursor b)); Some (u64 (used + n)).

Definition aws_small_block_allocator_bytes_active (s : sba) : option Z :=
  fold_left (fun used b => used ← used; bin_bytes s used b) (bins s) (Some 0).

Definition aws_small_block_allocator_bytes_reserved (s : sba) : Z :=
  fold_left (fun used b =>
    u64 (used + u64 ((zlength (active_pages b) + (if page_cursor b =? 0 then 0 else 1)) * AWS_SBA_PAGE_SIZE))) (bins s) 0.

Definition aws_small_block_allocator_page_size (s : sba) : Z := AWS_SBA_PAGE_SIZE.

(** ** Chunks *)

(** [new_page] is what the operating system gives: 0 when it has no memory. *)
Fixpoint s_sba_alloc_from_bin (fuel : nat) (s : sba) (k : nat) (new_page : Z) : option (Z * sba) :=
  match fuel with
  | O => None
  | S fuel =>
      b ← bins s !! k;
      let allocate :=
        (* binding a page at NULL writes to address 0 *)
        if new_page =? 0 then None
        else
          let '(cursor, s) := s_page_bind s new_page k in
          s_sba_alloc_from_bin fuel (with_bin s k (set_cursor b cursor)) k new_page in
      match last (free_chunks b) with
      | Some chunk =>
          let s := with_bin s k (set_free b (pop_back (free_chunks b))) in
          r ← count_add s (s_page_base chunk) 1;
          Some (chunk, r.2)
      | None =>
          if negb (page_cursor b =? 0) then
            let page := s_page_base (page_cursor b) in
            let space_left := u64 (AWS_SBA_PAGE_SIZE - (page_cursor b - page)) in
            if size b <=? space_left then
              let chunk := page_cursor b in
              r ← count_add s page 1;
              let b := set_cursor b (u64 (page_cursor b + size b)) in
              let space_left := u64 (space_left - size b) in
              let b := if space_left <? size b then set_cursor (set_active b (active_pages b ++ [page])) 0 else b in
              Some (chunk, with_bin r.2 k b)
            else allocate
          else allocate
      end
  end.

(** Removing the chunks of a page from the free list, from index [i] down. *)
Fixpoint remove_chunks (page_start page_end : Z) (i : nat) (l : list Z) : list Z :=
  let l :=
    match l !! i with
    | Some chunk => if (page_start <=? chunk) && (chunk <? page_end) then pop_back (swap l i (length l - 1)) else l
    | None => l
    end in
  match i with O => l | S i => remove_chunks page_start page_end i l end.

(** Removing a page from the list of pages, from index [i] up. *)
Fixpoint remove_page (page : Z) (n i : nat) (l : list Z) : list Z :=
  match n with
  | O => l
  | S n =>
      if bool_decide (l !! i = Some page) then pop_back (swap l i (length l - 1))
      else remove_page page n (S i) l
  end.

Definition s_sba_free_to_bin (s : sba) (k : nat) (addr : Z) : option sba :=
  b ← bins s !! k;
  let page := s_page_base addr in
  r ← count_add s page (-1);
  let '(count, s) := r in
  if (count =? 0) && negb (page =? s_page_base (page_cursor b)) then
    let page_start := page + sizeof_page_header in
    let page_end := page_start + AWS_SBA_PAGE_SIZE in
    let b := set_free b (remove_chunks page_start page_end (length (free_chunks b)) (free_chunks b)) in
    let b := set_active b (remove_page page (length (active_pages b)) 0 (active_pages b)) in
    s ← erase_tags (with_bin s k b) page;
    s_aligned_free s page
  else Some (with_bin s k (set_free b (free_chunks b ++ [addr]))).

Definition s_sba_find_bin (size : Z) : option nat :=
  match aws_round_up_to_power_of_two size with
  | Ok next_pow2 =>
      lz ← aws_clz_i32 (signed 32 next_pow2);
      Some (Z.to_nat (aws_sub_size_saturating (31 - lz) 5))
  | Err _ => None
  end.

(** [block] is what the parent allocator gives. *)
Definition s_sba_alloc (s : sba) (n new_page block : Z) : option (Z * sba) :=
  if n <=? s_max_bin_size then
    k ← s_sba_find_bin n;
    s_sba_alloc_from_bin 2 s k new_page
  else Some (block, with_parent s (<[block := n]> (parent s))).

(** The words where the tags of a page would be; of a page that is not the
    allocator's, whatever the memory holds there. *)
Definition memory_tags (m : Z -> Z) (page : Z) : Z * Z := (load64 m page, load64 m (page + offsetof_tag2)).

Definition tags_at (s : sba) (page : Z) : Z * Z :=
  match pages s !! page with Some h => (tag h, tag2 h) | None => memory_tags (memory s) page end.

Definition s_sba_free (s : sba) (addr : Z) : option sba :=
  if addr =? 0 then Some s
  else
    let page := s_page_base addr in
    let '(t1, t2) := tags_at s page in
    if (t1 =? AWS_SBA_TAG_VALUE) && (t2 =? AWS_SBA_TAG_VALUE) then
      h ← pages s !! page;
      s_sba_free_to_bin s (bin h) addr
    else
      _ ← parent s !! addr;
      Some (with_parent s (delete addr (parent s))).

Definition s_sba_mem_acquire (s : sba) (n new_page block : Z) : option (Z * sba) := s_sba_alloc s n new_page block.

Definition s_sba_mem_release (s : sba) (addr : Z) : option sba := s_sba_free s addr.

(** [memcpy(dst, src, n)] and [memset(dst, 0, n)] *)
Definition copy_memory (dst src n : Z) (m : Z -> Z) : Z -> Z := fun a => if (dst <=? a) && (a <? dst + n) then m (src + (a - dst)) else m a.
Definition zero_memory (dst n : Z) (m : Z -> Z) : Z -> Z := fun a => if (dst <=? a) && (a <? dst + n) then 0 else m a.

Definition s_sba_mem_realloc (s : sba) (old_ptr old_size new_size new_page block : Z) : option (Z * sba) :=
  if (s_max_bin_size <? old_size) && (s_max_bin_size <? new_size) then
    (* the parent moves the block, or keeps it when it need not grow *)
    if old_size <? new_size then
      _ ← parent s !! old_ptr;
      Some (block, with_memory (with_parent s (<[block := new_size]> (delete old_ptr (parent s)))) (copy_memory block old_ptr old_size (memory s)))
    else Some (old_ptr, s)
  else if new_size =? 0 then s ← s_sba_free s old_ptr; Some (0, s)
  else if new_size <? old_size then Some (old_ptr, s)
  else
    r ← s_sba_alloc s new_size new_page block;
    let '(new_mem, s) := r in
    if negb (old_ptr =? 0) && negb (old_size =? 0) then
      let s := with_memory s (copy_memory new_mem old_ptr old_size (memory s)) in
      s ← s_sba_free s old_ptr;
      Some (new_mem, s)
    else Some (new_mem, s).

Definition s_sba_mem_calloc (s : sba) (num n new_page block : Z) : option (Z * sba) :=
  r ← s_sba_alloc s (u64 (n * num)) new_page block;
  let '(mem, s) := r in
  Some (mem, with_memory s (zero_memory mem (u64 (n * num)) (memory s))).
End Sba.
