(* ===== verification/SbaSpec.v ===== *)
(** * The small block allocator: its invariant *)

From S2P Require Import Prelude Math MathBits Sba.
Import MathBits Sba.

Local Open Scope Z_scope.

(** ** Addresses and pages *)

Definition aligned (p : Z) : Prop := p mod 4096 = 0 /\ 0 < p /\ p + 4096 <= 2 ^ 64.

Lemma page_base_eq a : 0 <= a < 2 ^ 64 -> s_page_base a = a - a mod 4096.
Proof.
  intros Ha. unfold s_page_base. change AWS_SBA_PAGE_MASK with (2 ^ 64 - 2 ^ 12). now rewrite (land_high 64) by lia.
Qed.

Lemma page_base_in p a : aligned p -> p <= a < p + 4096 -> s_page_base a = p.
Proof. intros (H1 & H2 & H3) Ha. rewrite page_base_eq by lia. Z.div_mod_to_equations. lia. Qed.

Lemma aligned_apart p q : aligned p -> aligned q -> p <> q -> p + 4096 <= q \/ q + 4096 <= p.
Proof. intros (H1 & _) (H2 & _) H. Z.div_mod_to_equations. lia. Qed.

(** The chunks of a page: the first [n] after its header. *)
Definition chunk_at (p sz : Z) (i : nat) : Z := p + sizeof_page_header + sz * Z.of_nat i.
Definition chunks (p sz : Z) (n : nat) : list Z := map (chunk_at p sz) (seq 0 n).
Definition capacity (sz : Z) : nat := Z.to_nat ((AWS_SBA_PAGE_SIZE - sizeof_page_header) / sz).

Definition ok_size (sz : Z) : Prop := 32 <= sz <= 512.

Lemma capacity_spec sz : ok_size sz -> 32 + sz * Z.of_nat (capacity sz) <= 4096 < 32 + sz * (Z.of_nat (capacity sz) + 1).
Proof.
  unfold ok_size, capacity, AWS_SBA_PAGE_SIZE, sizeof_page_header. intros H. change (4096 - 32) with 4064.
  pose proof (Z.div_mod 4064 sz ltac:(lia)). pose proof (Z.mod_pos_bound 4064 sz ltac:(lia)).
  assert (0 <= 4064 / sz) by (apply Z.div_pos; lia). rewrite Z2Nat.id by lia. lia.
Qed.

Lemma capacity_small sz : ok_size sz -> (capacity sz <= 127)%nat.
Proof. intros H. pose proof (capacity_spec sz H). unfold ok_size in H. nia. Qed.

Lemma chunk_range p sz n a : ok_size sz -> (n <= capacity sz)%nat -> a ∈ chunks p sz n -> p + 32 <= a /\ a + sz <= p + 4096.
Proof.
  intros Hs Hn Ha. apply list_elem_of_fmap in Ha as (i & -> & Hi). apply elem_of_seq in Hi. pose proof (capacity_spec sz Hs).
  unfold chunk_at, sizeof_page_header. unfold ok_size in Hs. nia.
Qed.

Lemma chunk_base p sz n a : aligned p -> ok_size sz -> (n <= capacity sz)%nat -> a ∈ chunks p sz n -> s_page_base a = p.
Proof. intros Hp Hs Hn Ha. pose proof (chunk_range p sz n a Hs Hn Ha). apply page_base_in; [exact Hp |]. unfold ok_size in Hs. lia. Qed.

Lemma chunks_succ p sz n : chunks p sz (S n) = chunks p sz n ++ [chunk_at p sz n].
Proof. unfold chunks. now rewrite seq_S, map_app. Qed.

Lemma chunks_apart p sz n a b : ok_size sz -> a ∈ chunks p sz n -> b ∈ chunks p sz n -> a <> b -> a + sz <= b \/ b + sz <= a.
Proof.
  intros Hs Ha Hb Hne. apply list_elem_of_fmap in Ha as (i & -> & _). apply list_elem_of_fmap in Hb as (j & -> & _).
  destruct (Nat.lt_trichotomy i j) as [Hij | [-> | Hij]]; [left | congruence | right]; unfold chunk_at, ok_size in *; nia.
Qed.

Lemma chunks_nodup p sz n : ok_size sz -> NoDup (chunks p sz n).
Proof.
  intros Hs. apply NoDup_fmap_2_strong; [| apply NoDup_seq]. intros i j _ _ E. unfold chunk_at, ok_size in *. nia.
Qed.

(** ** The invariant of a bin *)

Definition work_pages (b : sba_bin) : list Z := if page_cursor b =? 0 then [] else [s_page_base (page_cursor b)].
Definition bin_pages (b : sba_bin) : list Z := active_pages b ++ work_pages b.

(** The chunks that were cut so far. *)
Definition cut_index (b : sba_bin) : nat := Z.to_nat ((page_cursor b - s_page_base (page_cursor b) - sizeof_page_header) / size b).
Definition work_chunks (b : sba_bin) : list Z :=
  if page_cursor b =? 0 then [] else chunks (s_page_base (page_cursor b)) (size b) (cut_index b).
Definition cut_chunks (b : sba_bin) : list Z :=
  flat_map (fun p => chunks p (size b) (capacity (size b))) (active_pages b) ++ work_chunks b.

(** How many of the chunks [live] are in the page [p]. *)
Definition in_page (p : Z) (live : list Z) : list Z := filter (fun a => s_page_base a = p) live.

Definition header_ok (k : nat) (live : list Z) (p : Z) (h : page_header) : Prop :=
  tag h = AWS_SBA_TAG_VALUE /\ tag2 h = AWS_SBA_TAG_VALUE /\ bin h = k /\ alloc_count h = zlength (in_page p live).

(** The free chunks and those in use are the chunks that were cut; a full page
    has a chunk in use. *)
Record bin_ok (ps : gmap Z page_header) (k : nat) (b : sba_bin) (live : list Z) : Prop := {
  bk_size : ok_size (size b);
  bk_nodup : NoDup (bin_pages b);
  bk_aligned : forall p, p ∈ bin_pages b -> aligned p;
  bk_header : forall p, p ∈ bin_pages b -> exists h, ps !! p = Some h /\ header_ok k live p h;
  bk_cursor : page_cursor b <> 0 -> exists i p, aligned p /\ page_cursor b = chunk_at p (size b) i /\ (i < capacity (size b))%nat;
  bk_cut : free_chunks b ++ live ≡ₚ cut_chunks b;
  bk_busy : forall p, p ∈ active_pages b -> in_page p live <> []
}.

Lemma bin_ok_frame ps ps' k b live : (forall p, p ∈ bin_pages b -> ps' !! p = ps !! p) -> bin_ok ps k b live -> bin_ok ps' k b live.
Proof. intros H [H1 H2 H3 H4 H5 H6 H7]. split; auto. intros p Hp. rewrite H by exact Hp. auto. Qed.

(** Where the cursor stands. *)
Lemma cursor_at b p i : ok_size (size b) -> aligned p -> page_cursor b = chunk_at p (size b) i -> (i < capacity (size b))%nat ->
  s_page_base (page_cursor b) = p /\ cut_index b = i /\ page_cursor b <> 0 /\ page_cursor b + size b <= p + 4096.
Proof.
  intros Hs Hp E Hi. pose proof (capacity_spec _ Hs). assert (s_page_base (page_cursor b) = p) as Hb.
  { apply page_base_in; [exact Hp |]. rewrite E. unfold chunk_at, sizeof_page_header, ok_size in *. nia. }
  split; [exact Hb |]. split; [| rewrite E; unfold chunk_at, sizeof_page_header, ok_size in *; destruct Hp as (_ & Hp & _); nia].
  unfold cut_index. rewrite Hb, E. unfold chunk_at. replace (_ - p - _) with (Z.of_nat i * size b) by ring.
  unfold ok_size in Hs. rewrite Z.div_mul by lia. apply Nat2Z.id.
Qed.

(** ** Pages and their chunks *)

Lemma filter_keeps {A} (P : A -> Prop) `{!forall x, Decision (P x)} (l : list A) : (forall x, x ∈ l -> P x) -> filter P l = l.
Proof.
  induction l as [| x l IH]; intros Hall; [reflexivity |]. rewrite filter_cons_True by (apply Hall; left). f_equal. apply IH. intros y Hy. apply Hall. now right.
Qed.

Lemma filter_drops {A} (P : A -> Prop) `{!forall x, Decision (P x)} (l : list A) : (forall x, x ∈ l -> ~ P x) -> filter P l = [].
Proof.
  induction l as [| x l IH]; intros Hall; [reflexivity |]. rewrite filter_cons_False by (apply Hall; left). apply IH. intros y Hy. apply Hall. now right.
Qed.

Lemma in_page_app p l1 l2 : in_page p (l1 ++ l2) = in_page p l1 ++ in_page p l2.
Proof. apply filter_app. Qed.

Lemma in_page_chunks p q sz n : aligned q -> ok_size sz -> (n <= capacity sz)%nat ->
  in_page p (chunks q sz n) = if bool_decide (p = q) then chunks q sz n else [].
Proof.
  intros Hq Hs Hn. unfold in_page. destruct (bool_decide_reflect (p = q)) as [-> | Hne].
  - apply filter_keeps. intros a Ha. now apply (chunk_base q sz n).
  - apply filter_drops. intros a Ha E. apply Hne. rewrite <- E. now apply (chunk_base q sz n).
Qed.

Lemma in_page_full p sz l : ok_size sz -> (forall q, q ∈ l -> aligned q) -> NoDup l ->
  in_page p (flat_map (fun q => chunks q sz (capacity sz)) l) = if bool_decide (p ∈ l) then chunks p sz (capacity sz) else [].
Proof.
  intros Hs Hl. induction l as [| q l IH]; intros Hnd; [now rewrite bool_decide_eq_false_2 by (apply not_elem_of_nil) |].
  apply NoDup_cons in Hnd as [Hq Hnd]. cbn [flat_map]. rewrite in_page_app, in_page_chunks by (auto; apply Hl; left).
  rewrite IH by (auto; intros r Hr; apply Hl; now right). destruct (bool_decide_reflect (p = q)) as [-> | Hne].
  - rewrite (bool_decide_eq_false_2 _ Hq), app_nil_r, bool_decide_eq_true_2; [reflexivity | left].
  - cbn [app]. destruct (bool_decide_reflect (p ∈ l)) as [Hp | Hp].
    + rewrite bool_decide_eq_true_2; [reflexivity | now right].
    + rewrite bool_decide_eq_false_2; [reflexivity |]. now intros [? | ?]%elem_of_cons.
Qed.

Section bin.
Context (ps : gmap Z page_header) (k : nat) (b : sba_bin) (live : list Z).
Hypothesis Hok : bin_ok ps k b live.

Lemma active_aligned p : p ∈ active_pages b -> aligned p.
Proof. intros Hp. apply (bk_aligned _ _ _ _ Hok). unfold bin_pages. apply elem_of_app. now left. Qed.

Lemma cut_index_le : page_cursor b <> 0 -> (cut_index b < capacity (size b))%nat /\ aligned (s_page_base (page_cursor b))
  /\ page_cursor b = chunk_at (s_page_base (page_cursor b)) (size b) (cut_index b).
Proof.
  intros Hc. destruct (bk_cursor _ _ _ _ Hok Hc) as (i & p & Hp & E & Hi).
  destruct (cursor_at b p i (bk_size _ _ _ _ Hok) Hp E Hi) as (-> & -> & _). now split.
Qed.

Lemma in_page_work p : in_page p (work_chunks b) = if bool_decide (p ∈ work_pages b) then work_chunks b else [].
Proof.
  unfold work_chunks, work_pages. destruct (Z.eqb_spec (page_cursor b) 0) as [E | E].
  { now rewrite bool_decide_eq_false_2 by apply not_elem_of_nil. }
  destruct (cut_index_le E) as (Hi & Hp & _). rewrite in_page_chunks by (exact (bk_size _ _ _ _ Hok) || assumption || lia).
  destruct (bool_decide_reflect (p = s_page_base (page_cursor b))) as [-> | Hne].
  - rewrite bool_decide_eq_true_2; [reflexivity | now apply list_elem_of_singleton].
  - rewrite bool_decide_eq_false_2; [reflexivity |]. now rewrite list_elem_of_singleton.
Qed.

Lemma in_page_cut p : in_page p (cut_chunks b)
  = (if bool_decide (p ∈ active_pages b) then chunks p (size b) (capacity (size b)) else [])
    ++ (if bool_decide (p ∈ work_pages b) then work_chunks b else []).
Proof.
  unfold cut_chunks. rewrite in_page_app, in_page_work, in_page_full; [reflexivity | apply (bk_size _ _ _ _ Hok) | apply active_aligned |].
  pose proof (bk_nodup _ _ _ _ Hok) as H. now apply NoDup_app in H as (? & _).
Qed.

Lemma in_page_length p : (length (in_page p live) <= 127)%nat.
Proof.
  pose proof (Permutation_length (filter_Permutation (fun a => s_page_base a = p) _ _ (bk_cut _ _ _ _ Hok))) as H.
  fold (in_page p (free_chunks b ++ live)) in H. fold (in_page p (cut_chunks b)) in H. rewrite in_page_app, length_app in H.
  pose proof (capacity_small _ (bk_size _ _ _ _ Hok)) as Hcap.
  assert (length (in_page p (cut_chunks b)) <= 127)%nat; [| lia]. rewrite in_page_cut, length_app.
  assert (length (work_chunks b) <= capacity (size b))%nat as Hw.
  { unfold work_chunks. destruct (Z.eqb_spec (page_cursor b) 0) as [E | E]; [cbn; lia |]. destruct (cut_index_le E) as (Hi & _).
    unfold chunks. rewrite length_map, length_seq. lia. }
  assert (forall n, length (chunks p (size b) n) = n) as Hl by (intros n; unfold chunks; now rewrite length_map, length_seq).
  destruct (bool_decide_reflect (p ∈ active_pages b)) as [Ha | Ha], (bool_decide_reflect (p ∈ work_pages b)) as [Hw' | Hw']; rewrite ?Hl; cbn; try lia.
  exfalso. pose proof (bk_nodup _ _ _ _ Hok) as Hn. apply NoDup_app in Hn as (_ & Hn & _). exact (Hn p Ha Hw').
Qed.

(** A chunk that was cut lies in one of the pages. *)
Lemma cut_page a : a ∈ cut_chunks b ->
  s_page_base a ∈ bin_pages b /\ a ∈ chunks (s_page_base a) (size b) (capacity (size b)).
Proof.
  unfold cut_chunks, bin_pages. intros [Ha | Ha]%elem_of_app.
  - apply list_elem_of_In, in_flat_map in Ha as (p & Hp & Ha). apply list_elem_of_In in Hp, Ha.
    rewrite (chunk_base p (size b) (capacity (size b)) a) by (exact (bk_size _ _ _ _ Hok) || assumption || lia || now apply active_aligned).
    split; [apply elem_of_app; now left | exact Ha].
  - unfold work_chunks, work_pages in *. destruct (Z.eqb_spec (page_cursor b) 0) as [E | E]; [now apply not_elem_of_nil in Ha |].
    destruct (cut_index_le E) as (Hi & Hp & _). rewrite (chunk_base _ _ (cut_index b) a Hp (bk_size _ _ _ _ Hok) ltac:(lia) Ha).
    split; [apply elem_of_app; right; now apply list_elem_of_singleton |].
    apply list_elem_of_fmap in Ha as (i & -> & Hs). apply elem_of_seq in Hs. apply list_elem_of_fmap_2. apply elem_of_seq. lia.
Qed.

Lemma live_page a : a ∈ live -> s_page_base a ∈ bin_pages b /\ a ∈ chunks (s_page_base a) (size b) (capacity (size b)).
Proof. intros Ha. apply cut_page. rewrite <- (bk_cut _ _ _ _ Hok). apply elem_of_app. now right. Qed.

Lemma free_page a : a ∈ free_chunks b -> s_page_base a ∈ bin_pages b.
Proof. intros Ha. apply cut_page. rewrite <- (bk_cut _ _ _ _ Hok). apply elem_of_app. now left. Qed.
End bin.
