(* ===== verification/SbaOps.v ===== *)
(** * The small block allocator: taking a chunk from a bin and giving it back *)

From S2P Require Import Prelude Math MathBits Sba SbaSpec.
Import MathBits Sba.

Local Open Scope Z_scope.

(** ** Counting *)

Lemma in_page_cons_same p c l : s_page_base c = p -> in_page p (c :: l) = c :: in_page p l.
Proof. intros E. unfold in_page. now rewrite filter_cons_True. Qed.

Lemma in_page_cons_other p c l : s_page_base c <> p -> in_page p (c :: l) = in_page p l.
Proof. intros E. unfold in_page. now rewrite filter_cons_False. Qed.

Lemma in_page_perm p l l' : l ≡ₚ l' -> zlength (in_page p l) = zlength (in_page p l').
Proof. intros H. unfold zlength, in_page. f_equal. now rewrite H. Qed.

Lemma in_page_more p c l : in_page p l <> [] -> in_page p (c :: l) <> [].
Proof. intros H. unfold in_page. rewrite filter_cons. now destruct (decide _). Qed.

(** The header of the page of a chunk that is handed out or taken back. *)
Definition counted (ps : gmap Z page_header) (p : Z) (h : page_header) (d : Z) : gmap Z page_header :=
  <[p := set_count h (alloc_count h + d)]> ps.

Lemma header_add ps k live (P : list Z) c : (forall q, q ∈ P -> exists h, ps !! q = Some h /\ header_ok k live q h) -> s_page_base c ∈ P ->
  exists h, ps !! s_page_base c = Some h /\ header_ok k live (s_page_base c) h
    /\ forall q, q ∈ P -> exists h', counted ps (s_page_base c) h 1 !! q = Some h' /\ header_ok k (c :: live) q h'.
Proof.
  intros H Hc. destruct (H _ Hc) as (h & Hh & Hok). exists h. split; [exact Hh |]. split; [exact Hok |]. intros q Hq. unfold counted.
  destruct (decide (q = s_page_base c)) as [-> | Hne].
  - rewrite lookup_insert_eq. eexists. split; [reflexivity |]. destruct Hok as (H1 & H2 & H3 & H4). repeat split; auto.
    cbn [alloc_count set_count]. rewrite in_page_cons_same, zlength_cons, H4 by reflexivity. ring.
  - rewrite lookup_insert_ne by congruence. destruct (H q Hq) as (h' & Hh' & H1 & H2 & H3 & H4). exists h'. repeat split; auto.
    now rewrite in_page_cons_other by congruence.
Qed.

Lemma header_remove ps k live live' (P : list Z) c : (forall q, q ∈ P -> exists h, ps !! q = Some h /\ header_ok k live q h) -> s_page_base c ∈ P ->
  live ≡ₚ c :: live' ->
  exists h, ps !! s_page_base c = Some h /\ header_ok k live (s_page_base c) h /\ alloc_count h - 1 = zlength (in_page (s_page_base c) live')
    /\ forall q, q ∈ P -> exists h', counted ps (s_page_base c) h (-1) !! q = Some h' /\ header_ok k live' q h'.
Proof.
  intros H Hc Hl. destruct (H _ Hc) as (h & Hh & Hok). exists h. split; [exact Hh |]. split; [exact Hok |].
  assert (alloc_count h - 1 = zlength (in_page (s_page_base c) live')) as E.
  { destruct Hok as (_ & _ & _ & ->). rewrite (in_page_perm _ _ _ Hl), in_page_cons_same, zlength_cons by reflexivity. ring. }
  split; [exact E |]. intros q Hq. unfold counted.
  destruct (decide (q = s_page_base c)) as [-> | Hne].
  - rewrite lookup_insert_eq. eexists. split; [reflexivity |]. destruct Hok as (H1 & H2 & H3 & H4). repeat split; auto.
  - rewrite lookup_insert_ne by congruence. destruct (H q Hq) as (h' & Hh' & H1 & H2 & H3 & H4). exists h'. repeat split; auto.
    rewrite H4, (in_page_perm _ _ _ Hl). now rewrite in_page_cons_other by congruence.
Qed.

Lemma count_range ps k b live p h : bin_ok ps k b live -> header_ok k live p h -> 0 <= alloc_count h <= 127.
Proof.
  intros Hb (_ & _ & _ & ->). pose proof (in_page_length ps k b live Hb p). unfold zlength. lia.
Qed.

Lemma pop_back_app (l : list Z) x : pop_back (l ++ [x]) = l.
Proof. unfold pop_back. rewrite length_app. cbn. rewrite Nat.add_sub. apply take_app_length. Qed.

(** ** Handing out *)

(** A chunk from the free list. *)
Lemma reuse_ok ps k b live f c : bin_ok ps k b live -> free_chunks b = f ++ [c] ->
  exists h, ps !! s_page_base c = Some h /\ u32 (alloc_count h + 1) = alloc_count h + 1 /\ bin h = k
    /\ s_page_base c ∈ bin_pages b /\ bin_ok (counted ps (s_page_base c) h 1) k (set_free b f) (c :: live).
Proof.
  intros Hb Ef. assert (s_page_base c ∈ bin_pages b) as Hc.
  { apply (free_page ps k b live Hb). rewrite Ef. apply elem_of_app. right. now apply list_elem_of_singleton. }
  destruct (header_add ps k live (bin_pages b) c (bk_header _ _ _ _ Hb) Hc) as (h & Hh & Hok & Hall).
  exists h. split; [exact Hh |]. pose proof (count_range _ _ _ _ _ _ Hb Hok). split; [unfold u32; rewrite Z.mod_small; lia |].
  split; [apply Hok |]. split; [exact Hc |]. destruct Hb as [H1 H2 H3 H4 H5 H6 H7]. constructor; auto; [| intros p Hp; now apply in_page_more, H7].
  change (cut_chunks (set_free b f)) with (cut_chunks b). cbn [free_chunks set_free]. rewrite <- H6, Ef. rewrite <- app_assoc. reflexivity.
Qed.

(** The next chunk of the working page. *)
Definition advance (b : sba_bin) : sba_bin :=
  let page := s_page_base (page_cursor b) in
  let space_left := u64 (AWS_SBA_PAGE_SIZE - (page_cursor b - page)) in
  let b := set_cursor b (u64 (page_cursor b + size b)) in
  let space_left := u64 (space_left - size b) in
  if space_left <? size b then set_cursor (set_active b (active_pages b ++ [page])) 0 else b.

Lemma advance_ok ps k b live : bin_ok ps k b live -> page_cursor b <> 0 -> free_chunks b = [] ->
  let page := s_page_base (page_cursor b) in
  (size b <=? u64 (AWS_SBA_PAGE_SIZE - (page_cursor b - page))) = true
  /\ exists h, ps !! page = Some h /\ u32 (alloc_count h + 1) = alloc_count h + 1 /\ bin h = k
    /\ s_page_base (page_cursor b) ∈ bin_pages b
    /\ (forall p, p ∈ bin_pages (advance b) <-> p ∈ bin_pages b)
    /\ bin_ok (counted ps page h 1) k (advance b) (page_cursor b :: live).
Proof.
  intros Hb Hc Hf page. destruct (cut_index_le ps k b live Hb Hc) as (Hi & Hp & Ec). fold page in Hp, Ec.
  pose proof (bk_size _ _ _ _ Hb) as Hs. pose proof (capacity_spec _ Hs) as Hcap.
  assert (page_cursor b - page = 32 + size b * Z.of_nat (cut_index b)) as Eo by (rewrite Ec; unfold chunk_at, sizeof_page_header; fold page; ring).
  assert (32 + size b * Z.of_nat (cut_index b) + size b <= 4096) as Hroom by (unfold ok_size in Hs; nia).
  unfold AWS_SBA_PAGE_SIZE. rewrite Eo. rewrite u64_small by (unfold is_u64, ok_size in *; nia).
  split; [unfold ok_size in Hs; lia |].
  assert (page ∈ bin_pages b) as Hpage.
  { unfold bin_pages, work_pages. apply elem_of_app. right. rewrite (proj2 (Z.eqb_neq _ 0)) by exact Hc. now apply list_elem_of_singleton. }
  destruct (header_add ps k live (bin_pages b) (page_cursor b) (bk_header _ _ _ _ Hb) Hpage) as (h & Hh & Hok & Hall).
  exists h. split; [exact Hh |]. pose proof (count_range _ _ _ _ _ _ Hb Hok). split; [unfold u32; rewrite Z.mod_small; lia |].
  split; [apply Hok |]. split; [exact Hpage |].
  assert (Hadv : advance b = if 4096 - (32 + size b * Z.of_nat (cut_index b)) - size b <? size b
    then mk_bin (size b) 0 (active_pages b ++ [page]) [] else mk_bin (size b) (page_cursor b + size b) (active_pages b) []).
  { unfold advance, AWS_SBA_PAGE_SIZE. fold page. rewrite Eo, (u64_small (4096 - _)) by (unfold is_u64, ok_size in *; nia). cbn [set_cursor set_active size].
    rewrite (u64_small (_ - size b)) by (unfold is_u64, ok_size in *; nia). destruct (Z.ltb_spec (4096 - (32 + size b * Z.of_nat (cut_index b)) - size b) (size b)).
    - unfold set_cursor, set_active. cbn. now rewrite Hf.
    - unfold set_cursor. rewrite Hf, u64_small; [reflexivity |]. destruct Hp as (_ & Hp0 & Hp1). unfold is_u64, ok_size in *. lia. }
  rewrite Hadv.
  destruct Hb as [H1 H2 H3 H4 H5 H6 H7]. rewrite Hf in H6. cbn [app] in H6.
  assert (work_pages b = [page] /\ work_chunks b = chunks page (size b) (cut_index b)) as [Ew Ewc].
  { unfold work_pages, work_chunks. rewrite (proj2 (Z.eqb_neq _ 0)) by exact Hc. now split. }
  destruct (Z.ltb_spec (4096 - (32 + size b * Z.of_nat (cut_index b)) - size b) (size b)) as [Hlast | Hmore].
  - (* the page is full *)
    assert (capacity (size b) = S (cut_index b)) as Ecap by (unfold ok_size in Hs; nia).
    assert (bin_pages (mk_bin (size b) 0 (active_pages b ++ [page]) []) = bin_pages b) as Ep.
    { unfold bin_pages. rewrite Ew. unfold work_pages. cbn. apply app_nil_r. }
    split; [now rewrite Ep |]. constructor; cbn [size page_cursor free_chunks]; rewrite ?Ep; auto; [congruence | | cbn [active_pages]; intros p [Hp' | ->%list_elem_of_singleton]%elem_of_app;
      [now apply in_page_more, H7 | now rewrite in_page_cons_same]].
    cbn [app]. unfold cut_chunks, work_chunks. cbn [page_cursor active_pages size]. change (0 =? 0) with true. cbv iota.
    rewrite app_nil_r, flat_map_app. cbn [flat_map]. rewrite app_nil_r, Ecap, chunks_succ, <- Ec, app_assoc. rewrite H6. unfold cut_chunks. rewrite Ewc, Ecap. apply Permutation_cons_append.
  - (* there is room for more *)
    assert (page_cursor b + size b = chunk_at page (size b) (S (cut_index b))) as Ec' by (rewrite Ec; unfold chunk_at; fold page; lia).
    set (b' := mk_bin (size b) (page_cursor b + size b) (active_pages b) []).
    destruct (cursor_at b' page (S (cut_index b)) Hs Hp Ec') as (Eb & Ei & Hn0 & _); [cbn; unfold ok_size in Hs; nia |].
    assert (bin_pages b' = bin_pages b) as Ep.
    { unfold bin_pages. rewrite Ew. unfold work_pages. rewrite (proj2 (Z.eqb_neq _ 0)) by exact Hn0. now rewrite Eb. }
    split; [now rewrite Ep |]. constructor; rewrite ?Ep; auto; [| | intros p Hp'; now apply in_page_more, H7].
    + intros _. exists (S (cut_index b)), page. split; [exact Hp |]. split; [exact Ec' |]. cbn. unfold ok_size in Hs. nia.
    + cbn [app free_chunks b']. unfold cut_chunks, work_chunks. rewrite (proj2 (Z.eqb_neq _ 0)) by exact Hn0. rewrite Eb, Ei. cbn [active_pages size b'].
      rewrite chunks_succ, <- Ec, app_assoc, H6. unfold cut_chunks. rewrite Ewc. apply Permutation_cons_append.
Qed.

(** A new working page. *)
Lemma new_page_ok ps k b live np : bin_ok ps k b live -> page_cursor b = 0 -> aligned np -> ps !! np = None ->
  let h := mk_header AWS_SBA_TAG_VALUE k 0 AWS_SBA_TAG_VALUE in
  page_cursor (set_cursor b (np + sizeof_page_header)) <> 0
  /\ bin_pages (set_cursor b (np + sizeof_page_header)) = active_pages b ++ [np]
  /\ bin_pages b = active_pages b
  /\ bin_ok (<[np := h]> ps) k (set_cursor b (np + sizeof_page_header)) live.
Proof.
  intros Hb Hc Hnp Hfresh h. set (b' := set_cursor b (np + sizeof_page_header)).
  pose proof (bk_size _ _ _ _ Hb) as Hs. pose proof (capacity_spec _ Hs) as Hcap.
  assert (page_cursor b' = chunk_at np (size b) 0) as Ec by (unfold chunk_at; cbn; ring).
  destruct (cursor_at b' np 0 Hs Hnp Ec) as (Eb & Ei & Hn0 & _); [cbn; unfold ok_size in Hs; nia |].
  assert (bin_pages b = active_pages b) as Ep0 by (unfold bin_pages, work_pages; rewrite Hc; apply app_nil_r).
  assert (bin_pages b' = active_pages b ++ [np]) as Ep.
  { unfold bin_pages, work_pages. rewrite (proj2 (Z.eqb_neq _ 0)) by exact Hn0. now rewrite Eb. }
  split; [exact Hn0 |]. split; [exact Ep |]. split; [exact Ep0 |].
  assert (np ∉ active_pages b) as Hnew.
  { intros Hin. rewrite <- Ep0 in Hin. destruct (bk_header _ _ _ _ Hb np Hin) as (h' & Hh & _). congruence. }
  assert (in_page np live = []) as Enone.
  { apply filter_drops. intros a Ha E. destruct (live_page ps k b live Hb a Ha) as [Hpage _]. rewrite E, Ep0 in Hpage. contradiction. }
  destruct Hb as [H1 H2 H3 H4 H5 H6 H7]. rewrite Ep0 in *. constructor; rewrite ?Ep; auto.
  - apply NoDup_app. split; [exact H2 |]. split; [| apply NoDup_singleton]. intros x Hx ->%list_elem_of_singleton. contradiction.
  - intros p [Hp | ->%list_elem_of_singleton]%elem_of_app; auto.
  - intros p [Hp | ->%list_elem_of_singleton]%elem_of_app.
    + rewrite lookup_insert_ne by (intros ->; contradiction). auto.
    + rewrite lookup_insert_eq. exists h. split; [reflexivity |]. unfold header_ok. rewrite Enone. now repeat split.
  - intros _. exists 0%nat, np. split; [exact Hnp |]. split; [exact Ec |]. cbn. unfold ok_size in Hs. nia.
  - change (free_chunks b') with (free_chunks b). rewrite H6. unfold cut_chunks, work_chunks. rewrite Hc, (proj2 (Z.eqb_neq (page_cursor b') 0)) by exact Hn0.
    rewrite Ei. change (0 =? 0) with true. cbv iota. reflexivity.
Qed.

(** ** Giving chunks back to a bin *)

(** ** Removing from an array by swapping with the last element *)

Lemma lookup_mid (l1 l2 : list Z) x : (l1 ++ x :: l2) !! length l1 = Some x.
Proof. now apply list_lookup_middle. Qed.

Lemma swap_pop (l1 l2 : list Z) x :
  exists l2', pop_back (swap (l1 ++ x :: l2) (length l1) (length (l1 ++ x :: l2) - 1)) = l1 ++ l2' /\ l2' ≡ₚ l2.
Proof.
  destruct l2 as [| y l2 _] using rev_ind.
  - exists []. split; [| reflexivity]. replace (length (l1 ++ [x]) - 1)%nat with (length l1) by (rewrite length_app; cbn; lia).
    unfold swap. rewrite lookup_mid, !(list_insert_id (l1 ++ [x])) by apply lookup_mid. rewrite app_nil_r. apply pop_back_app.
  - exists (y :: l2). split; [| now rewrite Permutation_cons_append].
    replace (length (l1 ++ x :: l2 ++ [y]) - 1)%nat with (length (l1 ++ x :: l2)) by (rewrite !length_app; cbn; rewrite length_app; cbn; lia).
    unfold swap. rewrite lookup_mid. replace (l1 ++ x :: l2 ++ [y]) with ((l1 ++ x :: l2) ++ [y]) by (now rewrite <- app_assoc).
    rewrite lookup_mid, insert_app_r_alt, Nat.sub_diag by lia. cbn [insert list_insert].
    rewrite <- app_assoc. cbn [app]. rewrite insert_app_r_alt, Nat.sub_diag by lia. cbn [insert list_insert].
    replace (l1 ++ y :: l2 ++ [x]) with ((l1 ++ y :: l2) ++ [x]) by (now rewrite <- app_assoc). apply pop_back_app.
Qed.

Lemma filter_ext_in {A} (P Q : A -> Prop) `{!forall x, Decision (P x), !forall x, Decision (Q x)} (l : list A) :
  (forall x, x ∈ l -> P x <-> Q x) -> filter P l = filter Q l.
Proof.
  induction l as [| x l IH]; intros Hall; [reflexivity |]. rewrite !filter_cons. rewrite IH by (intros y Hy; apply Hall; now right).
  destruct (decide (P x)) as [HP | HP], (decide (Q x)) as [HQ | HQ]; try reflexivity; exfalso; pose proof (Hall x ltac:(left)); tauto.
Qed.

Section chunks.
Context (lo hi : Z).

Definition between (a : Z) : Prop := lo <= a < hi.
#[local] Instance between_dec a : Decision (between a).
Proof. unfold between. apply _. Defined.

Lemma remove_chunks_step i (l1 l2 : list Z) : length l1 = S i -> (forall a, a ∈ l2 -> ~ between a) ->
  remove_chunks lo hi i (l1 ++ l2) ≡ₚ filter (fun a => ~ between a) l1 ++ l2.
Proof.
  revert l1 l2. induction i as [| i IH]; intros l1 l2 Hl H2;
    (destruct l1 as [| x l1 _] using rev_ind; [discriminate |]); rewrite length_app in Hl; cbn in Hl;
    rewrite filter_app, <- (app_assoc l1); cbn [app remove_chunks].
  - replace l1 with (@nil Z) by (destruct l1; [reflexivity | cbn in Hl; lia]). cbn [app lookup list_lookup].
    rewrite filter_nil. cbn [app]. destruct ((lo <=? x) && (x <? hi)) eqn:E.
    + rewrite filter_cons_False by (intros Hn; apply Hn; unfold between; lia).
      destruct (swap_pop [] l2 x) as (l2' & E' & Hp). cbn [app length] in E'. cbn [length]. rewrite E', filter_nil. exact Hp.
    + rewrite filter_cons_True by (unfold between; lia). now rewrite filter_nil.
  - assert (S i = length l1) as Ei by lia. rewrite Ei, lookup_mid. destruct ((lo <=? x) && (x <? hi)) eqn:E.
    + rewrite filter_cons_False by (intros Hn; apply Hn; unfold between; lia). rewrite filter_nil, app_nil_r.
      destruct (swap_pop l1 l2 x) as (l2' & E' & Hp). rewrite E', IH; [now rewrite Hp | lia |]. intros a Ha. apply H2. now rewrite <- Hp.
    + rewrite filter_cons_True by (unfold between; lia). rewrite filter_nil, IH; [now rewrite <- app_assoc | lia |].
      intros a [-> | Ha]%elem_of_cons; [unfold between; lia | auto].
Qed.

Lemma remove_chunks_filter l : remove_chunks lo hi (length l) l ≡ₚ filter (fun a => ~ between a) l.
Proof.
  destruct (length l) as [| n] eqn:E; [now destruct l |]. cbn [remove_chunks].
  rewrite (lookup_ge_None_2 l (S n)) by lia. rewrite <- (app_nil_r l) at 1. rewrite remove_chunks_step; [now rewrite app_nil_r | lia |].
  intros a Ha. now apply not_elem_of_nil in Ha.
Qed.
End chunks.

Lemma remove_page_from (page : Z) n (l1 l2 : list Z) : page ∉ l1 -> page ∈ l2 -> length l2 = n ->
  page :: remove_page page n (length l1) (l1 ++ l2) ≡ₚ l1 ++ l2.
Proof.
  revert l1 l2. induction n as [| n IH]; intros l1 l2 H1 H2 Hn; (destruct l2 as [| x l2]; [now apply not_elem_of_nil in H2 |]); [discriminate |].
  cbn [remove_page]. rewrite lookup_mid. destruct (decide (x = page)) as [-> | Hne].
  - rewrite bool_decide_eq_true_2 by reflexivity. destruct (swap_pop l1 l2 page) as (l2' & -> & Hp). rewrite Hp. apply Permutation_middle.
  - rewrite bool_decide_eq_false_2 by congruence. apply elem_of_cons in H2 as [-> | H2]; [contradiction |].
    specialize (IH (l1 ++ [x]) l2). rewrite length_app, <- app_assoc in IH. cbn [length app] in IH. rewrite Nat.add_1_r in IH.
    apply IH; [| exact H2 | now injection Hn]. rewrite elem_of_app, list_elem_of_singleton. now intros [? | ->].
Qed.

Lemma remove_page_perm (page : Z) l : page ∈ l -> page :: remove_page page (length l) 0 l ≡ₚ l.
Proof. intros H. apply (remove_page_from page (length l) [] l); [apply not_elem_of_nil | exact H | reflexivity]. Qed.

(** ** Taking back *)

Section free.
Context (ps : gmap Z page_header) (k : nat) (b : sba_bin) (live live' : list Z) (c : Z).
Hypothesis Hb : bin_ok ps k b live.
Hypothesis Hl : live ≡ₚ c :: live'.

Lemma freed_live : c ∈ live.
Proof. rewrite Hl. left. Qed.

Lemma freed_header : exists h, ps !! s_page_base c = Some h /\ header_ok k live (s_page_base c) h /\ u32 (alloc_count h - 1) = alloc_count h - 1
  /\ alloc_count h - 1 = zlength (in_page (s_page_base c) live')
  /\ forall q, q ∈ bin_pages b -> exists h', counted ps (s_page_base c) h (-1) !! q = Some h' /\ header_ok k live' q h'.
Proof.
  destruct (live_page _ _ _ _ Hb c freed_live) as [Hc _].
  destruct (header_remove ps k live live' (bin_pages b) c (bk_header _ _ _ _ Hb) Hc Hl) as (h & H1 & H2 & H3 & H4).
  exists h. split; [exact H1 |]. split; [exact H2 |]. split; [| now split]. pose proof (count_range _ _ _ _ _ _ Hb H2).
  unfold u32. rewrite Z.mod_small; [reflexivity |]. unfold zlength in H3. lia.
Qed.

Lemma busy_other p : p <> s_page_base c -> in_page p live <> [] -> in_page p live' <> [].
Proof.
  intros Hne Hbusy E. apply Hbusy, Permutation_nil. pose proof (filter_Permutation (fun a => s_page_base a = p) _ _ Hl) as H.
  fold (in_page p live) in H. fold (in_page p (c :: live')) in H. rewrite in_page_cons_other, E in H by congruence. now symmetry.
Qed.

(** The chunk goes on the free list. *)
Lemma push_ok h : in_page (s_page_base c) live' <> [] \/ s_page_base c = s_page_base (page_cursor b) -> (forall q, q ∈ bin_pages b -> exists h', counted ps (s_page_base c) h (-1) !! q = Some h' /\ header_ok k live' q h') ->
  bin_ok (counted ps (s_page_base c) h (-1)) k (set_free b (free_chunks b ++ [c])) live'.
Proof.
  intros Hwhy Hall. pose proof (bk_busy _ _ _ _ Hb) as Hbusy. destruct Hb as [H1 H2 H3 H4 H5 H6 H7]. constructor; auto.
  2: { intros p Hp. destruct (decide (p = s_page_base c)) as [-> | Hne]; [| now apply busy_other, Hbusy]. destruct Hwhy as [? | E]; [assumption | exfalso].
    cbn [active_pages set_free] in Hp. rewrite E in Hp. unfold bin_pages, work_pages in H2, H3. destruct (Z.eqb_spec (page_cursor b) 0) as [Ec | Ec].
    - rewrite app_nil_r in H3. rewrite Ec in Hp. destruct (H3 _ Hp) as (_ & H0 & _). revert H0. now vm_compute.
    - apply NoDup_app in H2 as (_ & H2 & _). apply (H2 _ Hp). now apply list_elem_of_singleton. }
  change (cut_chunks (set_free b _)) with (cut_chunks b).
  cbn [free_chunks set_free]. rewrite <- H6, Hl, <- app_assoc. reflexivity.
Qed.

(** The page goes back to the operating system. *)
Definition without_page (p : Z) : sba_bin :=
  let page_start := p + sizeof_page_header in
  let page_end := page_start + AWS_SBA_PAGE_SIZE in
  let b := set_free b (remove_chunks page_start page_end (length (free_chunks b)) (free_chunks b)) in
  set_active b (remove_page p (length (active_pages b)) 0 (active_pages b)).

Lemma free_filter p : p ∈ bin_pages b -> forall a, a ∈ free_chunks b -> between (p + 32) (p + 32 + 4096) a <-> s_page_base a = p.
Proof.
  intros Hp a Ha. assert (a ∈ cut_chunks b) as Hcut by (rewrite <- (bk_cut _ _ _ _ Hb); apply elem_of_app; now left).
  destruct (cut_page _ _ _ _ Hb a Hcut) as [Hq Hin]. set (q := s_page_base a) in *.
  pose proof (chunk_range q (size b) _ a (bk_size _ _ _ _ Hb) (le_n _) Hin). pose proof (bk_size _ _ _ _ Hb) as Hs. unfold ok_size in Hs. unfold between.
  destruct (decide (q = p)) as [-> | Hne]; [lia |].
  destruct (aligned_apart q p (bk_aligned _ _ _ _ Hb q Hq) (bk_aligned _ _ _ _ Hb p Hp) Hne); lia.
Qed.

Lemma without_page_ok h : let p := s_page_base c in (forall q, q ∈ bin_pages b -> exists h', counted ps p h (-1) !! q = Some h' /\ header_ok k live' q h') ->
  in_page p live' = [] -> p <> s_page_base (page_cursor b) ->
  p :: bin_pages (without_page p) ≡ₚ bin_pages b /\ bin_ok (delete p (counted ps p h (-1))) k (without_page p) live'.
Proof.
  intros p Hall Hnone Hnot. destruct (live_page _ _ _ _ Hb c freed_live) as [Hp _]. fold p in Hp.
  assert (p ∈ active_pages b) as Hact.
  { unfold bin_pages, work_pages in Hp. apply elem_of_app in Hp as [? | Hp]; [assumption |].
    destruct (page_cursor b =? 0); [now apply not_elem_of_nil in Hp |]. now apply list_elem_of_singleton in Hp. }
  pose proof (remove_page_perm p _ Hact) as Hpages.
  assert (p :: bin_pages (without_page p) ≡ₚ bin_pages b) as Hperm.
  { unfold bin_pages. change (work_pages (without_page p)) with (work_pages b). rewrite app_comm_cons. now apply Permutation_app_tail. }
  split; [exact Hperm |].
  assert (forall q, q ∈ bin_pages (without_page p) -> q ∈ bin_pages b /\ q <> p) as Hsub.
  { intros q Hq. split; [rewrite <- Hperm; now right |]. intros ->. pose proof (bk_nodup _ _ _ _ Hb) as Hn. rewrite <- Hperm in Hn.
    now apply NoDup_cons in Hn as [Hn _]. }
  assert (cut_chunks b ≡ₚ chunks p (size b) (capacity (size b)) ++ cut_chunks (without_page p)) as Hcut.
  { unfold cut_chunks. cbn. change (work_chunks (without_page p)) with (work_chunks b). rewrite <- Hpages at 1. cbn [flat_map]. now rewrite <- app_assoc. }
  assert (forall a, a ∈ cut_chunks (without_page p) -> s_page_base a <> p) as Hother.
  { pose proof (bk_nodup _ _ _ _ Hb) as Hnb. rewrite <- Hperm in Hnb. apply NoDup_cons in Hnb as [Hn _]. intros a Ha E. apply Hn.
    enough (s_page_base a ∈ bin_pages (without_page p)) as Hin by (now rewrite E in Hin). clear E.
    destruct Hb as [H1 H2 H3 H4 H5 H6 H7]. unfold cut_chunks in Ha. cbn in Ha. change (work_chunks (without_page p)) with (work_chunks b) in Ha.
    unfold bin_pages. change (work_pages (without_page p)) with (work_pages b). apply elem_of_app in Ha as [Ha | Ha]; apply elem_of_app.
    - left. apply list_elem_of_In, in_flat_map in Ha as (q & Hq & Ha). apply list_elem_of_In in Hq, Ha.
      rewrite (chunk_base q (size b) (capacity (size b)) a) by (assumption || lia || apply H3; unfold bin_pages; apply elem_of_app; left; rewrite <- Hpages; now right).
      exact Hq.
    - right. assert (in_page (s_page_base a) (work_chunks b) <> []) as Hne.
      { intros En. pose proof (proj2 (list_elem_of_filter (fun x => s_page_base x = s_page_base a) (work_chunks b) a) (conj eq_refl Ha)) as Hin.
        fold (in_page (s_page_base a) (work_chunks b)) in Hin. rewrite En in Hin. now apply not_elem_of_nil in Hin. }
      rewrite (in_page_work ps k b live) in Hne by now constructor. destruct (bool_decide_reflect (s_page_base a ∈ work_pages b)); [assumption | congruence]. }
  pose proof (bk_size _ _ _ _ Hb) as Hs. pose proof (bk_aligned _ _ _ _ Hb p Hp) as Hpal. pose proof (free_filter p Hp) as Hff.
  pose proof (fun q => busy_other q) as Hbusy.
  destruct Hb as [H1 H2 H3 H4 H5 H6 H7]. constructor; auto.
  - rewrite <- Hperm in H2. now apply NoDup_cons in H2.
  - intros q Hq. now apply H3, Hsub.
  - intros q Hq. destruct (Hsub q Hq). rewrite lookup_delete_ne by congruence. auto.
  - etransitivity; [apply Permutation_app_tail; exact (remove_chunks_filter (p + 32) (p + 32 + 4096) (free_chunks b)) |].
    rewrite (filter_ext_in _ (fun a => s_page_base a <> p)) by (intros a Ha; now rewrite Hff).
    assert (filter (fun a => s_page_base a <> p) (free_chunks b ++ live) ≡ₚ filter (fun a => s_page_base a <> p) (cut_chunks b)) as E by now rewrite H6.
    rewrite Hcut, Hl, !filter_app, filter_cons_False in E by (intros Hn; now apply Hn).
    rewrite (filter_drops _ (chunks _ _ _)) in E by (intros a Ha Hn; apply Hn; now apply (chunk_base p (size b) (capacity (size b)))).
    rewrite (filter_keeps _ live'), (filter_keeps _ (cut_chunks (without_page p))) in E by (exact Hother || intros a Ha Hn; apply (not_elem_of_nil a); rewrite <- Hnone; now apply list_elem_of_filter).
    exact E.
  - intros q Hq. destruct (Hsub q) as [_ Hne]; [unfold bin_pages; apply elem_of_app; now left |]. apply Hbusy, H7; [exact Hne |].
    rewrite <- Hpages. now right.
Qed.
End free.
