(* ===== verification/SbaState.v ===== *)
(** * The small block allocator: the invariant of the whole allocator *)

From S2P Require Import Prelude Math MathBits Sba SbaSpec SbaOps.
Import MathBits Sba.

Local Open Scope Z_scope.

(** ** The bin of a size *)

Definition bin_size (k : nat) : Z := nth k s_bin_sizes 0.

Lemma bin_of_size n : 0 <= n <= 512 ->
  exists k, s_sba_find_bin n = Some k /\ (k < 5)%nat /\ n <= bin_size k /\ (forall j, (j < k)%nat -> bin_size j < n).
Proof.
  intros Hn. assert (forallb (fun i => let n := Z.of_nat i in match s_sba_find_bin n with
    | Some k => (k <? 5)%nat && (n <=? bin_size k) && forallb (fun j => bin_size j <? n) (seq 0 k) | None => false end) (seq 0 513) = true) as H
    by (vm_compute; reflexivity).
  rewrite forallb_forall in H. specialize (H (Z.to_nat n)). cbv zeta in H. rewrite Z2Nat.id in H by lia.
  specialize (H ltac:(apply in_seq; lia)). destruct (s_sba_find_bin n) as [k |]; [| discriminate]. exists k. split; [reflexivity |].
  apply andb_true_iff in H as [H H3]. apply andb_true_iff in H as [H1 H2]. rewrite forallb_forall in H3.
  split; [now apply Nat.ltb_lt |]. split; [now apply Z.leb_le |]. intros j Hj. apply Z.ltb_lt, H3, in_seq. lia.
Qed.

(** ** The invariant *)

Definition upd (L : nat -> list Z) (k : nat) (l : list Z) : nat -> list Z := fun j => if decide (j = k) then l else L j.

Lemma upd_same L k l : upd L k l k = l.
Proof. unfold upd. now rewrite decide_True. Qed.

Lemma upd_other L k l j : j <> k -> upd L k l j = L j.
Proof. intros H. unfold upd. now rewrite decide_False. Qed.

(** [L k]: the chunks of bin [k] that are in use. *)
Record sba_ok (s : sba) (L : nat -> list Z) : Prop := {
  so_sizes : map size (bins s) = s_bin_sizes;
  so_bin : forall k b, bins s !! k = Some b -> bin_ok (pages s) k b (L k);
  so_pages : forall p h, pages s !! p = Some h -> exists b, bins s !! bin h = Some b /\ p ∈ bin_pages b
}.

Lemma bin_ok_perm ps k b live live' : live ≡ₚ live' -> bin_ok ps k b live -> bin_ok ps k b live'.
Proof.
  intros H [H1 H2 H3 H4 H5 H6 H7]. constructor; auto; [| now rewrite <- H |].
  2: { intros p Hp E. apply (H7 p Hp), Permutation_nil. pose proof (filter_Permutation (fun a => s_page_base a = p) _ _ H) as Hf. unfold in_page in *. rewrite E in Hf. now symmetry. }
  intros p Hp. destruct (H4 p Hp) as (h & Hh & E1 & E2 & E3 & E4). exists h. repeat split; auto. now rewrite <- (in_page_perm p _ _ H).
Qed.

Lemma sba_ok_perm s L L' : (forall k, (k < 5)%nat -> L k ≡ₚ L' k) -> sba_ok s L -> sba_ok s L'.
Proof.
  intros H [H1 H2 H3]. constructor; auto. intros k b Hk. eapply bin_ok_perm; [| now apply H2]. apply H.
  apply lookup_lt_Some in Hk. now rewrite <- (length_map size), H1 in Hk.
Qed.

Lemma bin_exists s L k : sba_ok s L -> (k < 5)%nat -> exists b, bins s !! k = Some b /\ size b = bin_size k.
Proof.
  intros H Hk. assert (length (bins s) = 5)%nat as Hlen by (rewrite <- (length_map size), (so_sizes _ _ H); reflexivity).
  destruct (lookup_lt_is_Some_2 (bins s) k ltac:(lia)) as [b Hb]. exists b. split; [exact Hb |].
  unfold bin_size. rewrite <- (so_sizes _ _ H), nth_lookup. rewrite list_lookup_fmap, Hb. reflexivity.
Qed.

Lemma empty_ok m : sba_ok (s_sba_init m) (fun _ => []).
Proof.
  constructor; [reflexivity | |].
  - intros k b Hb. unfold s_sba_init in Hb. cbn [bins] in Hb. apply list_lookup_fmap_Some in Hb as (sz & -> & Hsz).
    assert (ok_size sz) as Hok.
    { apply list_elem_of_lookup_2, list_elem_of_In in Hsz. unfold ok_size. cbn in Hsz. intuition lia. }
    constructor; cbn; auto; try (intros p Hp; now apply not_elem_of_nil in Hp); [apply NoDup_nil_2 | congruence].
  - intros p h Hp. cbn [pages s_sba_init] in Hp. now rewrite lookup_empty in Hp.
Qed.

(** The bytes of the memory do not matter. *)
Lemma sba_ok_memory s L m : sba_ok s L -> sba_ok (with_memory s m) L.
Proof. intros [H1 H2 H3]. now constructor. Qed.

(** A change in bin [k] and the headers of its pages. *)
Lemma sba_ok_update s L k b b' live' ps' : sba_ok s L -> bins s !! k = Some b -> size b' = size b ->
  bin_ok ps' k b' live' ->
  (forall p, p ∉ bin_pages b -> p ∉ bin_pages b' -> ps' !! p = pages s !! p) ->
  (forall p, p ∈ bin_pages b' -> p ∈ bin_pages b \/ pages s !! p = None) ->
  (forall p, p ∈ bin_pages b -> p ∉ bin_pages b' -> ps' !! p = None) ->
  sba_ok (mk_sba (<[k := b']> (bins s)) ps' (parent s) (memory s)) (upd L k live').
Proof.
  intros [H1 H2 H3] Hk Hs Hb' Hframe Hnew Hold. assert (k < length (bins s))%nat as Hlt by (eapply lookup_lt_Some; eauto). constructor.
  - cbn [bins]. rewrite (list_fmap_insert size), Hs, <- H1. apply list_insert_id. now rewrite list_lookup_fmap, Hk.
  - cbn [bins pages]. intros j c Hj. destruct (decide (j = k)) as [-> | Hne].
    + rewrite list_lookup_insert_eq in Hj by exact Hlt. injection Hj as <-. now rewrite upd_same.
    + rewrite list_lookup_insert_ne in Hj by congruence. rewrite upd_other by exact Hne. apply (bin_ok_frame (pages s)); [| now apply H2].
      intros p Hp. destruct (bk_header _ _ _ _ (H2 j c Hj) p Hp) as (h & Hh & _ & _ & Eh & _).
      assert (p ∉ bin_pages b) as Hnb.
      { intros Hin. destruct (bk_header _ _ _ _ (H2 k b Hk) p Hin) as (h' & Hh' & _ & _ & Eh' & _). congruence. }
      apply Hframe; [exact Hnb |]. intros Hin. destruct (Hnew p Hin) as [? | ?]; [contradiction | congruence].
  - cbn [bins pages]. intros p h Hp. destruct (decide (p ∈ bin_pages b')) as [Hin | Hin].
    + destruct (bk_header _ _ _ _ Hb' p Hin) as (h' & Hh' & _ & _ & Eh' & _). assert (h' = h) as -> by congruence.
      exists b'. rewrite Eh', list_lookup_insert_eq by exact Hlt. now split.
    + assert (p ∉ bin_pages b) as Hnb by (intros Hb; rewrite (Hold p Hb Hin) in Hp; discriminate).
      rewrite Hframe in Hp by assumption. destruct (H3 p h Hp) as (c & Hc & Hpc). exists c. split; [| exact Hpc].
      rewrite list_lookup_insert_ne; [exact Hc |]. intros E. rewrite <- E, Hk in Hc. injection Hc as ->. contradiction.
Qed.

(** ** Handing out *)

Lemma count_add_eq s p d h : pages s !! p = Some h -> u32 (alloc_count h + d) = alloc_count h + d ->
  count_add s p d = Some (alloc_count h + d, with_pages s (counted (pages s) p h d)).
Proof. intros Hh E. unfold count_add. rewrite Hh. cbn. now rewrite E. Qed.

Lemma counted_other ps p h d q : q <> p -> counted ps p h d !! q = ps !! q.
Proof. intros H. unfold counted. now rewrite lookup_insert_ne by congruence. Qed.

Lemma counted_same ps p h d : counted ps p h d !! p = Some (set_count h (alloc_count h + d)).
Proof. unfold counted. apply lookup_insert_eq. Qed.

Lemma counted_none ps p h d q : counted ps p h d !! q = None -> ps !! q = None.
Proof. unfold counted. now intros [? _]%lookup_insert_None. Qed.

Definition handed_out (s : sba) (L : nat -> list Z) (k : nat) (np : Z) (r : option (Z * sba)) : Prop :=
  exists c s', r = Some (c, s') /\ sba_ok s' (upd L k (c :: L k)) /\ parent s' = parent s /\ memory s' = memory s
    /\ (forall p, pages s !! p = None -> p <> np -> pages s' !! p = None)
    /\ forall p, pages s' !! p = None -> pages s !! p = None.

Lemma alloc_have s L k b fuel np : sba_ok s L -> bins s !! k = Some b -> (free_chunks b <> [] \/ page_cursor b <> 0) ->
  exists c s', s_sba_alloc_from_bin (S fuel) s k np = Some (c, s') /\ sba_ok s' (upd L k (c :: L k)) /\ parent s' = parent s /\ memory s' = memory s
    /\ (forall p, pages s !! p = None -> pages s' !! p = None) /\ forall p, pages s' !! p = None -> pages s !! p = None.
Proof.
  intros Hs Hk Hhave. pose proof (so_bin _ _ Hs k b Hk) as Hb. cbn [s_sba_alloc_from_bin]. rewrite Hk. cbn [mbind option_bind].
  destruct (free_chunks b) as [| c f _] eqn:Ef using rev_ind.
  - cbn [last]. destruct Hhave as [? | Hc]; [congruence |]. rewrite (proj2 (Z.eqb_neq _ 0)) by exact Hc. cbn [negb].
    destruct (advance_ok _ k b _ Hb Hc Ef) as (-> & h & Hh & Hu & Hbin & Hp & Hpages & Hok').
    rewrite (count_add_eq s _ 1 h Hh Hu). cbn [mbind option_bind snd]. fold (advance b).
    exists (page_cursor b), (with_bin (with_pages s (counted (pages s) (s_page_base (page_cursor b)) h 1)) k (advance b)).
    split; [reflexivity |]. split; [| split; [reflexivity | split; [reflexivity | split; [| exact (counted_none _ _ _ _)]]]].
    + apply (sba_ok_update s L k b (advance b)); auto.
      * unfold advance. now destruct (_ <? _).
      * intros p Hp1 _. apply counted_other. congruence.
      * intros p Hp1. left. now apply Hpages.
      * intros p Hp1 Hp2. exfalso. apply Hp2. now apply Hpages.
    + intros p Hnone. cbn. rewrite counted_other; [exact Hnone |]. intros ->. congruence.
  - rewrite last_snoc, pop_back_app. destruct (reuse_ok _ k b _ f c Hb Ef) as (h & Hh & Hu & Hbin & Hp & Hok').
    rewrite (count_add_eq (with_bin s k _) _ 1 h Hh Hu). cbn [mbind option_bind snd].
    eexists c, _. split; [reflexivity |]. split; [| split; [reflexivity | split; [reflexivity | split; [| exact (counted_none _ _ _ _)]]]].
    + apply (sba_ok_update s L k b (set_free b f)); auto.
      * intros p Hp1 _. apply counted_other. congruence.
      * intros p Hp1 Hp2. exfalso. now apply Hp2.
    + intros p Hnone. cbn. rewrite counted_other; [exact Hnone |]. intros ->. congruence.
Qed.

Definition paged (s : sba) (k : nat) (b : sba_bin) (np : Z) : sba :=
  with_bin (with_pages s (<[np := mk_header AWS_SBA_TAG_VALUE k 0 AWS_SBA_TAG_VALUE]> (pages s))) k (set_cursor b (np + sizeof_page_header)).

Lemma alloc_new fuel s k b np : bins s !! k = Some b -> free_chunks b = [] -> page_cursor b = 0 -> np <> 0 ->
  s_sba_alloc_from_bin (S fuel) s k np = s_sba_alloc_from_bin fuel (paged s k b np) k np.
Proof.
  intros Hb Ef Ec Hnp. cbn [s_sba_alloc_from_bin]. rewrite Hb. cbn [mbind option_bind]. rewrite Ef, Ec. cbn [last].
  change (0 =? 0) with true. cbn [negb]. now rewrite (proj2 (Z.eqb_neq np 0)).
Qed.

Lemma alloc_from_bin_ok s L k np : sba_ok s L -> (k < 5)%nat -> aligned np -> pages s !! np = None ->
  handed_out s L k np (s_sba_alloc_from_bin 2 s k np).
Proof.
  intros Hs Hk Hnp Hfresh. destruct (bin_exists s L k Hs Hk) as (b & Hb & _). pose proof (so_bin _ _ Hs k b Hb) as Hok.
  destruct (decide (free_chunks b = [] /\ page_cursor b = 0)) as [[Ef Ec] | Hhave].
  - (* a new page *)
    destruct (new_page_ok (pages s) k b (L k) np Hok Ec Hnp Hfresh) as (Hn0 & Ep & Ep0 & Hok').
    rewrite (alloc_new 1 s k b np Hb Ef Ec) by (destruct Hnp; lia). set (s1 := paged s k b np). assert (sba_ok s1 (upd L k (L k))) as Hs1.
    { apply (sba_ok_update s L k b (set_cursor b (np + sizeof_page_header))); auto; rewrite Ep, ?Ep0; cbn [pages with_pages].
      - intros p _ Hp. rewrite lookup_insert_ne; [reflexivity |]. intros ->. apply Hp, elem_of_app. right. now apply list_elem_of_singleton.
      - intros p [? | ->%list_elem_of_singleton]%elem_of_app; auto.
      - intros p Hp Hn. exfalso. apply Hn, elem_of_app. now left. }
    assert (bins s1 !! k = Some (set_cursor b (np + sizeof_page_header))) as Hb1.
    { apply list_lookup_insert_eq. eapply lookup_lt_Some; eauto. }
    destruct (alloc_have s1 _ k _ 0 np Hs1 Hb1 (or_intror Hn0)) as (c & s' & E & Hs' & E1 & E2 & E3 & E4).
    exists c, s'. split; [exact E |]. split; [| split; [exact E1 | split; [exact E2 | split]]].
    + eapply sba_ok_perm; [| exact Hs']. intros j _. unfold upd. destruct (decide (j = k)); [now rewrite decide_True | reflexivity].
    + intros p Hp Hne. apply E3. change (pages s1 !! p) with (<[np := mk_header AWS_SBA_TAG_VALUE k 0 AWS_SBA_TAG_VALUE]> (pages s) !! p). now rewrite lookup_insert_ne by congruence.
    + intros p Hp. apply E4 in Hp. unfold s1, paged in Hp. cbn [pages with_bin with_pages] in Hp. now apply lookup_insert_None in Hp as [Hp _].
  - destruct (alloc_have s L k b 1 np Hs Hb) as (c & s' & E & Hs' & E1 & E2 & E3 & E4).
    { destruct (decide (free_chunks b = [])); [right | now left]. intros Hc. now apply Hhave. }
    exists c, s'. split; [exact E |]. split; [exact Hs' |]. split; [exact E1 |]. split; [exact E2 |]. auto.
Qed.

(** ** Tags in the memory *)

Definition untagged (m : Z -> Z) (q : Z) : Prop := memory_tags m q <> (AWS_SBA_TAG_VALUE, AWS_SBA_TAG_VALUE).

(** Outside the pages of the allocator nothing looks like one. *)
Definition no_stray (s : sba) : Prop := forall q, q mod 4096 = 0 -> pages s !! q = None -> untagged (memory s) q.

Lemma load_bytes_same n m m' a : (forall x, a <= x < a + Z.of_nat n -> m' x = m x) -> load_bytes n m' a = load_bytes n m a.
Proof.
  revert a. induction n as [| n IH]; intros a Hm; [reflexivity |]. cbn [load_bytes]. rewrite (Hm a) by lia.
  rewrite IH; [reflexivity |]. intros x Hx. apply Hm. lia.
Qed.

Lemma untagged_same m m' q : (forall x, q <= x < q + 32 -> m' x = m x) -> untagged m q -> untagged m' q.
Proof.
  intros Hm. unfold untagged, memory_tags, load64, offsetof_tag2.
  rewrite (load_bytes_same 8 m m' q), (load_bytes_same 8 m m' (q + 24)); [auto | |]; intros x Hx; apply Hm; lia.
Qed.

Lemma load_bytes_zero n m a : (forall x, a <= x < a + Z.of_nat n -> m x = 0) -> load_bytes n m a = 0.
Proof.
  revert a. induction n as [| n IH]; intros a Hm; [reflexivity |]. cbn [load_bytes]. rewrite (Hm a) by lia.
  rewrite IH; [reflexivity |]. intros x Hx. apply Hm. lia.
Qed.

Lemma store64_out a v m x : x < a \/ a + 8 <= x -> store64 a v m x = m x.
Proof.
  intros Hx. unfold store64. destruct Hx; [rewrite (proj2 (Z.leb_gt a x)) by lia | rewrite (proj2 (Z.ltb_ge x (a + 8))), andb_false_r by lia]; reflexivity.
Qed.

Lemma leave_tags_out p h m x : x < p \/ p + 32 <= x -> leave_tags p h m x = m x.
Proof. intros Hx. unfold leave_tags, offsetof_tag2. now rewrite !store64_out by lia. Qed.

Lemma leave_zero_untagged p k n m : untagged (leave_tags p (mk_header 0 k n 0) m) p.
Proof.
  unfold untagged, memory_tags, load64. rewrite load_bytes_zero; [discriminate |]. intros x Hx. cbn [tag tag2 leave_tags].
  unfold leave_tags, offsetof_tag2. rewrite store64_out by lia. unfold store64. rewrite (proj2 (Z.leb_le _ _)), (proj2 (Z.ltb_lt _ _)) by lia.
  cbn [andb tag]. now rewrite Z.shiftr_0_l.
Qed.

Lemma owned_aligned s L p : sba_ok s L -> is_Some (pages s !! p) -> aligned p.
Proof.
  intros Hs [h Hp]. destruct (so_pages _ _ Hs p h Hp) as (b & Hb & Hin). exact (bk_aligned _ _ _ _ (so_bin _ _ Hs _ b Hb) p Hin).
Qed.

(** Only headers are written, and what is given back is untagged. *)
Record headers_only (s s' : sba) : Prop := {
  ho_memory : forall x, (forall p, is_Some (pages s !! p) -> x < p \/ p + 32 <= x) -> memory s' x = memory s x;
  ho_tags : forall p, is_Some (pages s !! p) -> pages s' !! p = None -> untagged (memory s') p
}.

Lemma headers_same s s' : memory s' = memory s -> (forall p, pages s' !! p = None -> pages s !! p = None) -> headers_only s s'.
Proof.
  intros Em Hp. constructor; [intros; now rewrite Em |]. intros p [h Hs] Hn. apply Hp in Hn. congruence.
Qed.

Lemma headers_stray s s' L : sba_ok s L -> headers_only s s' -> no_stray s -> no_stray s'.
Proof.
  intros Hs [Hm Ht] Hn q Hq Hp. destruct (pages s !! q) eqn:E; [apply Ht; eauto |]. apply (untagged_same (memory s)); [| now apply Hn].
  intros x Hx. apply Hm. intros p Ho. destruct (owned_aligned s L p Hs Ho) as (Hp1 & _). destruct Ho as [h Ho].
  assert (p <> q) by congruence. Z.div_mod_to_equations. lia.
Qed.

(** ** Taking back *)

Lemma free_to_bin_ok s L k live c : sba_ok s L -> (k < 5)%nat -> L k ≡ₚ c :: live ->
  exists h s', pages s !! s_page_base c = Some h /\ header_ok k (L k) (s_page_base c) h
    /\ s_sba_free_to_bin s k c = Some s' /\ sba_ok s' (upd L k live) /\ parent s' = parent s /\ headers_only s s'
    /\ forall p, pages s !! p = None -> pages s' !! p = None.
Proof.
  intros Hs Hk Hl. destruct (bin_exists s L k Hs Hk) as (b & Hb & _). pose proof (so_bin _ _ Hs k b Hb) as Hok.
  destruct (freed_header _ k b _ live c Hok Hl) as (h & Hh & Hho & Hu & Ecount & Hall).
  assert (c ∈ L k) as Hc by (rewrite Hl; left). destruct (live_page _ k b _ Hok c Hc) as [Hpage _].
  exists h. unfold s_sba_free_to_bin. rewrite Hb. cbn [mbind option_bind].
  rewrite (count_add_eq s _ (-1) h Hh) by exact Hu. cbn [mbind option_bind].
  assert (forall p, pages s !! p = None -> counted (pages s) (s_page_base c) h (-1) !! p = None) as Hnone.
  { intros p Hp. rewrite counted_other; [exact Hp | congruence]. }
  destruct ((alloc_count h + -1 =? 0) && negb (s_page_base c =? s_page_base (page_cursor b))) eqn:E.
  - apply andb_true_iff in E as [E0 E1]. apply Z.eqb_eq in E0. apply negb_true_iff, Z.eqb_neq in E1.
    destruct (without_page_ok (pages s) k b (L k) live c Hok Hl h Hall) as [Hperm Hok']; [| exact E1 |].
    { apply length_zero_iff_nil. unfold zlength in Ecount. lia. }
    unfold erase_tags, s_aligned_free. cbn [pages with_bin with_pages].
    rewrite counted_same. cbn [mbind option_bind pages with_pages]. rewrite lookup_insert_eq. cbn [mbind option_bind].
    eexists. split; [exact Hh |]. split; [exact Hho |]. split; [reflexivity |].
    assert (forall p, p ∈ bin_pages (without_page b (s_page_base c)) -> p ∈ bin_pages b) as Hsub by (intros p Hp; rewrite <- Hperm; now right).
    split; [| split; [reflexivity | split; [constructor |]]].
    + apply (sba_ok_memory (mk_sba _ _ _ (memory s))), (sba_ok_update s L k b (without_page b (s_page_base c))); auto.
      * now rewrite delete_insert_eq.
      * intros p Hp _. rewrite lookup_delete_ne, lookup_insert_ne by congruence. apply counted_other. congruence.
      * intros p Hp Hnp. rewrite <- Hperm in Hp. apply elem_of_cons in Hp as [-> | Hp]; [| contradiction]. apply lookup_delete_eq.
    + intros x Hx. cbn [memory with_memory]. apply leave_tags_out, Hx. eauto.
    + intros p [h' Hp] Hn. cbn [memory with_memory pages with_pages] in *. destruct (decide (p = s_page_base c)) as [-> | Hne]; [apply leave_zero_untagged |].
      rewrite lookup_delete_ne, lookup_insert_ne in Hn by congruence. apply counted_none in Hn. congruence.
    + intros p Hp. cbn [pages with_memory with_pages]. rewrite lookup_delete_None. right. rewrite lookup_insert_ne by congruence. now apply Hnone.
  - eexists. split; [exact Hh |]. split; [exact Hho |]. split; [reflexivity |]. split; [| split; [reflexivity | split; [apply headers_same; [reflexivity | exact (counted_none _ _ _ _)] | exact Hnone]]].
    apply (sba_ok_update s L k b (set_free b (free_chunks b ++ [c]))); auto.
    + apply (push_ok _ _ _ (L k)); auto. apply andb_false_iff in E as [E | E].
      * left. intros En. apply Z.eqb_neq in E. apply E. rewrite En in Ecount. unfold zlength in Ecount. cbn in Ecount. lia.
      * right. now apply negb_false_iff, Z.eqb_eq in E.
    + intros p Hp _. apply counted_other. congruence.
    + intros p Hp Hnp. exfalso. now apply Hnp.
Qed.

(** ** Statistics *)

Definition in_use (L : nat -> list Z) (k : nat) : Z := zlength (L k) * bin_size k.

Definition sum_z (l : list Z) : Z := fold_right Z.add 0 l.

Lemma sum_cons x l : sum_z (x :: l) = x + sum_z l.
Proof. reflexivity. Qed.

Lemma sum_app l1 l2 : sum_z (l1 ++ l2) = sum_z l1 + sum_z l2.
Proof. induction l1 as [| x l1 IH]; cbn [app]; [reflexivity |]. rewrite !sum_cons, IH. ring. Qed.

(** Every chunk in use is in exactly one page. *)
Lemma count_pages (P : list Z) (live : list Z) : NoDup P -> (forall a, a ∈ live -> s_page_base a ∈ P) ->
  sum_z (map (fun p => zlength (in_page p live)) P) = zlength live.
Proof.
  intros Hn. induction live as [| a live IH]; intros Hin.
  { clear Hn Hin. induction P as [| p P IH]; [reflexivity |]. cbn [map]. now rewrite sum_cons, IH. }
  rewrite zlength_cons, <- IH by (intros c Hc; apply Hin; now right). specialize (Hin a ltac:(left)). clear IH.
  assert (forall Q : list Z, s_page_base a ∉ Q -> map (fun p => zlength (in_page p (a :: live))) Q = map (fun p => zlength (in_page p live)) Q) as Hno.
  { intros Q HQ. apply map_ext_in. intros q Hq. rewrite in_page_cons_other; [reflexivity |]. intros E. apply HQ. rewrite E. now apply list_elem_of_In. }
  apply list_elem_of_split in Hin as (P1 & P2 & ->). apply NoDup_app in Hn as (_ & Hd & Hn). apply NoDup_cons in Hn as [Hn _].
  rewrite !map_app, !sum_app. cbn [map]. rewrite !Hno by (assumption || intros Hc; apply (Hd _ Hc); left).
  rewrite !sum_cons, in_page_cons_same by reflexivity. rewrite zlength_cons. ring.
Qed.

Lemma sum_nonneg l : (forall x, x ∈ l -> 0 <= x) -> 0 <= sum_z l.
Proof.
  induction l as [| x l IH]; intros Hall; [reflexivity |]. rewrite sum_cons. pose proof (Hall x ltac:(left)).
  specialize (IH ltac:(intros y Hy; apply Hall; now right)). lia.
Qed.

Section bytes.
Context (s : sba) (L : nat -> list Z).
Hypothesis Hs : sba_ok s L.

Lemma sum_pages_eq k b P used : bins s !! k = Some b -> (forall p, p ∈ P -> p ∈ bin_pages b) -> 0 <= used ->
  used + sum_z (map (fun p => zlength (in_page p (L k))) P) * size b < 2 ^ 64 ->
  sum_pages s b P used = Some (used + sum_z (map (fun p => zlength (in_page p (L k))) P) * size b).
Proof.
  intros Hk. pose proof (so_bin _ _ Hs k b Hk) as Hb. pose proof (bk_size _ _ _ _ Hb) as Hsz. unfold ok_size in Hsz.
  assert (forall Q : list Z, 0 <= sum_z (map (fun p => zlength (in_page p (L k))) Q)) as Hpos.
  { intros Q. apply sum_nonneg. intros x Hx. apply list_elem_of_fmap in Hx as (p & -> & _). unfold zlength. lia. }
  revert used. induction P as [| p P IH]; intros used HP H0 Hlt; cbn [sum_pages map] in *; [f_equal; cbn; ring |].
  rewrite sum_cons in *. destruct (bk_header _ _ _ _ Hb p (HP p ltac:(left))) as (h & Hh & _ & _ & _ & Ec).
  unfold page_bytes. rewrite Hh. cbn [mbind option_bind]. rewrite Ec. specialize (Hpos P).
  assert (0 <= zlength (in_page p (L k)) * size b) as Hz by (apply Z.mul_nonneg_nonneg; unfold zlength; lia).
  assert (0 <= sum_z (map (fun p => zlength (in_page p (L k))) P) * size b) as Hz' by (apply Z.mul_nonneg_nonneg; lia).
  rewrite Z.mul_add_distr_r in *. rewrite (u64_small (_ * _)), u64_small by (unfold is_u64; lia). rewrite IH by (auto || lia || intros q Hq; apply HP; now right). f_equal. ring.
Qed.

Lemma bin_bytes_eq k b used : bins s !! k = Some b -> 0 <= used -> used + in_use L k < 2 ^ 64 -> size b = bin_size k ->
  bin_bytes s used b = Some (used + in_use L k).
Proof.
  intros Hk H0 Hlt Esz. pose proof (so_bin _ _ Hs k b Hk) as Hb. pose proof (bk_size _ _ _ _ Hb) as Hsz. unfold ok_size in Hsz.
  assert (in_use L k = sum_z (map (fun p => zlength (in_page p (L k))) (bin_pages b)) * size b) as Eu.
  { rewrite (count_pages _ _ (bk_nodup _ _ _ _ Hb)) by (intros a Ha; now apply (live_page _ _ _ _ Hb)). unfold in_use. now rewrite Esz. }
  rewrite Eu in *. clear Eu. unfold bin_pages in *. rewrite map_app, sum_app, Z.mul_add_distr_r in *.
  assert (forall Q : list Z, 0 <= sum_z (map (fun p => zlength (in_page p (L k))) Q) * size b) as Hpos.
  { intros Q. apply Z.mul_nonneg_nonneg; [| lia]. apply sum_nonneg. intros x Hx. apply list_elem_of_fmap in Hx as (p & -> & _). unfold zlength. lia. }
  pose proof (Hpos (active_pages b)). pose proof (Hpos (work_pages b)). unfold bin_bytes.
  rewrite (sum_pages_eq k) by (assumption || lia || intros p Hp; apply elem_of_app; now left). cbn [mbind option_bind].
  unfold work_pages in *. destruct (page_cursor b =? 0) eqn:Ec; [cbn [map sum_z fold_right]; f_equal; ring |].
  destruct (bk_header _ _ _ _ Hb (s_page_base (page_cursor b))) as (h & Hh & _ & _ & _ & En).
  { unfold bin_pages, work_pages. rewrite Ec. apply elem_of_app. right. now apply list_elem_of_singleton. }
  unfold page_bytes. rewrite Hh. cbn [mbind option_bind map] in *. rewrite En in *. rewrite sum_cons, Z.add_0_r in *.
  rewrite (u64_small (_ * _)), u64_small by (unfold is_u64; lia). f_equal. ring.
Qed.
End bytes.
