(* ===== verification/SbaCalls.v ===== *)
(** * The small block allocator: blocks in use, and each call *)

From S2P Require Import Prelude Math MathBits Sba SbaSpec SbaOps SbaState.
Import MathBits Sba.

Local Open Scope Z_scope.

(** ** Chunks never overlap *)

Definition apart (a n a' n' : Z) : Prop := a + n <= a' \/ a' + n' <= a.

Lemma full_nodup sz (P : list Z) : ok_size sz -> (forall p, p ∈ P -> aligned p) -> NoDup P -> NoDup (flat_map (fun q => chunks q sz (capacity sz)) P).
Proof.
  intros Hs Hp Hn. induction P as [| p P IH]; [apply NoDup_nil_2 |]. apply NoDup_cons in Hn as [Hnp Hn]. cbn [flat_map].
  apply NoDup_app. split; [now apply chunks_nodup |]. split; [| apply IH; [| exact Hn]; intros q Hq; apply Hp; now right].
  intros a Ha Hin. apply list_elem_of_In, in_flat_map in Hin as (q & Hq & Hin). apply list_elem_of_In in Hq, Hin.
  rewrite <- (chunk_base p sz _ a (Hp p ltac:(left)) Hs (le_n _) Ha) in Hnp.
  rewrite (chunk_base q sz _ a (Hp q ltac:(now right)) Hs (le_n _) Hin) in Hnp. contradiction.
Qed.

Section bin.
Context (ps : gmap Z page_header) (k : nat) (b : sba_bin) (live : list Z).
Hypothesis Hb : bin_ok ps k b live.

Lemma cut_nodup : NoDup (cut_chunks b).
Proof.
  pose proof (bk_nodup _ _ _ _ Hb) as Hn. unfold bin_pages in Hn. apply NoDup_app in Hn as (Hn1 & Hn2 & _).
  unfold cut_chunks. apply NoDup_app. split; [apply full_nodup; [apply (bk_size _ _ _ _ Hb) | apply (active_aligned _ _ _ _ Hb) | exact Hn1] |].
  unfold work_chunks, work_pages in *. destruct (Z.eqb_spec (page_cursor b) 0) as [E | E].
  - split; [intros a _ Ha; now apply not_elem_of_nil in Ha | apply NoDup_nil_2].
  - destruct (cut_index_le _ _ _ _ Hb E) as (Hi & Hp & _). split; [| apply chunks_nodup, (bk_size _ _ _ _ Hb)].
    intros a Ha Hw. apply list_elem_of_In, in_flat_map in Ha as (q & Hq & Ha). apply list_elem_of_In in Hq, Ha.
    apply (Hn2 q Hq). apply list_elem_of_singleton.
    rewrite <- (chunk_base q _ _ a (active_aligned _ _ _ _ Hb q Hq) (bk_size _ _ _ _ Hb) (le_n _) Ha).
    now rewrite (chunk_base _ _ _ a Hp (bk_size _ _ _ _ Hb) (Nat.lt_le_incl _ _ Hi) Hw).
Qed.

Lemma live_nodup : NoDup live.
Proof. pose proof cut_nodup as H. rewrite <- (bk_cut _ _ _ _ Hb) in H. now apply NoDup_app in H as (_ & _ & ?). Qed.
End bin.

(** A chunk in use lies behind the header of its page. *)
Lemma live_in_page s L k b a : sba_ok s L -> bins s !! k = Some b -> a ∈ L k ->
  exists h, pages s !! s_page_base a = Some h /\ header_ok k (L k) (s_page_base a) h /\ aligned (s_page_base a)
    /\ s_page_base a + 32 <= a /\ a + size b <= s_page_base a + 4096.
Proof.
  intros Hs Hk Ha. pose proof (so_bin _ _ Hs k b Hk) as Hb. destruct (live_page _ _ _ _ Hb a Ha) as [Hp Hc].
  destruct (bk_header _ _ _ _ Hb _ Hp) as (h & Hh & Hho). exists h. split; [exact Hh |]. split; [exact Hho |].
  split; [now apply (bk_aligned _ _ _ _ Hb) |]. exact (chunk_range _ _ _ a (bk_size _ _ _ _ Hb) (le_n _) Hc).
Qed.

Lemma live_apart s L k b k' b' a a' : sba_ok s L -> bins s !! k = Some b -> bins s !! k' = Some b' -> a ∈ L k -> a' ∈ L k' -> a <> a' ->
  apart a (size b) a' (size b').
Proof.
  intros Hs Hk Hk' Ha Ha' Hne. destruct (live_in_page s L k b a Hs Hk Ha) as (h & Hh & Hho & Hal & H1 & H2).
  destruct (live_in_page s L k' b' a' Hs Hk' Ha') as (h' & Hh' & Hho' & Hal' & H1' & H2'). unfold apart.
  destruct (decide (s_page_base a = s_page_base a')) as [E | E]; [| destruct (aligned_apart _ _ Hal Hal' E); lia].
  assert (k = k') as <-.
  { rewrite E in Hh. assert (h = h') as <- by congruence. destruct Hho as (_ & _ & <- & _). now destruct Hho' as (_ & _ & <- & _). }
  assert (b = b') as <- by congruence. pose proof (so_bin _ _ Hs k b Hk) as Hb.
  destruct (live_page _ _ _ _ Hb a Ha) as [_ Hc]. destruct (live_page _ _ _ _ Hb a' Ha') as [_ Hc']. rewrite <- E in Hc'.
  exact (chunks_apart _ _ _ a a' (bk_size _ _ _ _ Hb) Hc Hc' Hne).
Qed.

(** ** The blocks that the callers hold *)

Abbreviation held_blocks := (gmap Z Z).

Definition in_bin (k : nat) (x : Z * Z) : Prop := x.2 <= 512 /\ s_sba_find_bin x.2 = Some k.
#[export] Instance in_bin_dec k x : Decision (in_bin k x).
Proof. unfold in_bin. apply _. Defined.

Definition chunks_of (H : held_blocks) (k : nat) : list Z := map fst (filter (in_bin k) (map_to_list H)).
Definition large_of (H : held_blocks) : gmap Z Z := filter (fun x => 512 < x.2) H.

(** A block of the parent is outside the pages. *)
Definition outside (s : sba) (a n : Z) : Prop := forall p, is_Some (pages s !! p) -> apart a n p 4096.

Record inv (s : sba) (H : held_blocks) : Prop := {
  iv_sba : sba_ok s (chunks_of H);
  iv_parent : parent s = large_of H;
  iv_outside : forall a n, H !! a = Some n -> 512 < n -> 0 < a /\ a + n <= 2 ^ 64 /\ outside s a n;
  iv_apart : forall a n a' n', H !! a = Some n -> H !! a' = Some n' -> 512 < n -> 512 < n' -> a <> a' -> apart a n a' n';
  iv_sizes : forall a n, H !! a = Some n -> 1 <= n
}.

Lemma chunks_of_spec H k a : a ∈ chunks_of H k <-> exists n, H !! a = Some n /\ n <= 512 /\ s_sba_find_bin n = Some k.
Proof.
  unfold chunks_of. split.
  - intros Ha. apply list_elem_of_fmap in Ha as ([a' n] & -> & Hin). apply list_elem_of_filter in Hin as [[H1 H2] Hin]. exists n.
    apply elem_of_map_to_list in Hin. now repeat split.
  - intros (n & Hn & H1 & H2). apply list_elem_of_fmap. exists (a, n). split; [reflexivity |]. apply list_elem_of_filter. split; [now split |].
    now apply elem_of_map_to_list.
Qed.

Lemma chunks_insert H a n k : H !! a = None -> chunks_of (<[a := n]> H) k ≡ₚ (if decide (in_bin k (a, n)) then [a] else []) ++ chunks_of H k.
Proof. intros Ha. unfold chunks_of. rewrite map_to_list_insert by exact Ha. rewrite filter_cons. now destruct (decide (in_bin k (a, n))). Qed.

Lemma chunks_delete H a n k : H !! a = Some n -> chunks_of H k ≡ₚ (if decide (in_bin k (a, n)) then [a] else []) ++ chunks_of (delete a H) k.
Proof.
  intros Ha. rewrite <- (chunks_insert (delete a H)) by apply lookup_delete_eq. now rewrite insert_delete_eq, insert_id.
Qed.

Lemma init_inv m : inv (s_sba_init m) ∅.
Proof.
  constructor; [apply empty_ok | | intros a n Ha; now rewrite lookup_empty in Ha | intros a n a' n' Ha; now rewrite lookup_empty in Ha
    | intros a n Ha; now rewrite lookup_empty in Ha].
  unfold large_of. now rewrite map_filter_empty.
Qed.

Section held.
Context (s : sba) (H : held_blocks).
Hypothesis Hi : inv s H.

Lemma held_small a n : H !! a = Some n -> n <= 512 -> exists k b, s_sba_find_bin n = Some k /\ (k < 5)%nat /\ bins s !! k = Some b /\ n <= size b /\ a ∈ chunks_of H k.
Proof.
  intros Ha Hn. pose proof (iv_sizes _ _ Hi a n Ha). destruct (bin_of_size n) as (k & Hk & Hk5 & Hsz & _); [lia |].
  destruct (bin_exists _ _ k (iv_sba _ _ Hi) Hk5) as (b & Hb & Eb). exists k, b. repeat split; auto; [lia |].
  apply chunks_of_spec. eauto.
Qed.

Lemma held_small_page a n : H !! a = Some n -> n <= 512 -> exists k h, s_sba_find_bin n = Some k /\ pages s !! s_page_base a = Some h
  /\ header_ok k (chunks_of H k) (s_page_base a) h /\ aligned (s_page_base a) /\ s_page_base a + 32 <= a /\ a + n <= s_page_base a + 4096.
Proof.
  intros Ha Hn. destruct (held_small a n Ha Hn) as (k & b & Hk & _ & Hb & Hsz & Hin).
  destruct (live_in_page _ _ k b a (iv_sba _ _ Hi) Hb Hin) as (h & Hh & Hho & Hal & H1 & H2). exists k, h. repeat split; auto; try apply Hho; try apply Hal; lia.
Qed.

Lemma held_apart a n a' n' : H !! a = Some n -> H !! a' = Some n' -> a <> a' -> apart a n a' n'.
Proof.
  intros Ha Ha' Hne. destruct (Z.le_gt_cases n 512) as [Hn | Hn], (Z.le_gt_cases n' 512) as [Hn' | Hn'].
  - destruct (held_small a n Ha Hn) as (k & b & _ & _ & Hb & Hsz & Hin). destruct (held_small a' n' Ha' Hn') as (k' & b' & _ & _ & Hb' & Hsz' & Hin').
    destruct (live_apart _ _ k b k' b' a a' (iv_sba _ _ Hi) Hb Hb' Hin Hin' Hne); unfold apart; lia.
  - destruct (held_small_page a n Ha Hn) as (k & h & _ & Hh & _ & _ & H1 & H2). destruct (iv_outside _ _ Hi a' n' Ha' Hn') as (_ & _ & Ho).
    destruct (Ho (s_page_base a) ltac:(eauto)); unfold apart; lia.
  - destruct (held_small_page a' n' Ha' Hn') as (k & h & _ & Hh & _ & _ & H1 & H2). destruct (iv_outside _ _ Hi a n Ha Hn) as (_ & _ & Ho).
    destruct (Ho (s_page_base a') ltac:(eauto)); unfold apart; lia.
  - exact (iv_apart _ _ Hi a n a' n' Ha Ha' Hn Hn' Hne).
Qed.

Lemma held_positive a n : H !! a = Some n -> 0 < a.
Proof.
  intros Ha. destruct (Z.le_gt_cases n 512) as [Hn | Hn]; [| now apply (iv_outside _ _ Hi a n)].
  destruct (held_small_page a n Ha Hn) as (k & h & _ & _ & _ & (_ & H0 & _) & H1 & _). lia.
Qed.

(** The page of a block of the parent is not one of the allocator's. *)
Lemma held_large_page a n : H !! a = Some n -> 512 < n -> pages s !! s_page_base a = None.
Proof.
  intros Ha Hn. destruct (iv_outside _ _ Hi a n Ha Hn) as (H0 & H1 & Ho). destruct (pages s !! s_page_base a) eqn:E; [exfalso | reflexivity].
  pose proof (page_base_eq a ltac:(lia)). pose proof (Z.mod_pos_bound a 4096 ltac:(lia)). destruct (Ho (s_page_base a) ltac:(eauto)); lia.
Qed.
End held.

(** ** Calls preserve the invariant *)

(** What the operating system gives as a page and the parent allocator as a block
    of [n] bytes is memory that nobody uses. *)
Record fresh_page (s : sba) (H : held_blocks) (np : Z) : Prop := {
  fp_aligned : aligned np;
  fp_new : pages s !! np = None;
  fp_apart : forall a n, H !! a = Some n -> 512 < n -> apart a n np 4096
}.

Record fresh_block (s : sba) (H : held_blocks) (blk n : Z) : Prop := {
  fb_range : 0 < blk /\ blk + n <= 2 ^ 64;
  fb_pages : outside s blk n;
  fb_apart : forall a m, H !! a = Some m -> 512 < m -> apart a m blk n
}.

Lemma large_insert_small H a n : n <= 512 -> H !! a = None -> large_of (<[a := n]> H) = large_of H.
Proof. intros Hn Ha. unfold large_of. apply map_filter_insert_not'; cbn; [lia | intros y Hy; congruence]. Qed.

Lemma large_insert H a n : 512 < n -> large_of (<[a := n]> H) = <[a := n]> (large_of H).
Proof. intros Hn. unfold large_of. now rewrite map_filter_insert_True. Qed.

Lemma large_delete H a : large_of (delete a H) = delete a (large_of H).
Proof. unfold large_of. now rewrite map_filter_delete. Qed.

Lemma large_lookup H a n : large_of H !! a = Some n <-> H !! a = Some n /\ 512 < n.
Proof. unfold large_of. now rewrite map_lookup_filter_Some. Qed.

(** Only the memory differs. *)
Lemma inv_memory s H m : inv s H -> inv (with_memory s m) H.
Proof. intros [[H1 H2 H3] H4 H5 H6 H7]. constructor; auto. now constructor. Qed.

(** ** Acquiring *)

Lemma apart_page_base a n np p : aligned np -> aligned p -> p <> np -> p + 32 <= a -> a + n <= p + 4096 -> 0 < n -> apart a n np 4096.
Proof. intros H1 H2 H3 H4 H5 H6. unfold apart. destruct (aligned_apart p np H2 H1 H3); lia. Qed.

Lemma alloc_small_ok s H n np blk : inv s H -> 1 <= n <= 512 -> fresh_page s H np ->
  exists a s', s_sba_alloc s n np blk = Some (a, s') /\ H !! a = None /\ inv s' (<[a := n]> H) /\ memory s' = memory s
    /\ forall p, pages s' !! p = None -> pages s !! p = None.
Proof.
  intros Hi Hn [Hal Hnew Hap]. destruct (bin_of_size n ltac:(lia)) as (k & Hk & Hk5 & Hsz & _).
  unfold s_sba_alloc, s_max_bin_size. rewrite (proj2 (Z.leb_le n 512)) by lia. rewrite Hk. cbn [mbind option_bind].
  destruct (alloc_from_bin_ok s _ k np (iv_sba _ _ Hi) Hk5 Hal Hnew) as (a & s' & E & Hs' & E1 & E2 & E3 & E4).
  exists a, s'. split; [exact E |].
  assert (forall p, is_Some (pages s' !! p) -> is_Some (pages s !! p) \/ p = np) as Hold.
  { intros p [h Hp]. destruct (pages s !! p) eqn:Ep; [eauto |]. destruct (decide (p = np)); [now right |]. rewrite E3 in Hp by assumption. discriminate. }
  assert (forall c m, H !! c = Some m -> 512 < m -> outside s' c m) as Hout.
  { intros c m Hc Hm p Hp. destruct (Hold p Hp) as [Hp' | ->]; [now apply (iv_outside _ _ Hi c m Hc Hm) | now apply (Hap c m)]. }
  destruct (bin_exists _ _ k Hs' Hk5) as (b & Hb & Esz). pose proof (so_bin _ _ Hs' k b Hb) as Hbok. rewrite upd_same in Hbok.
  assert (a ∈ upd (chunks_of H) k (a :: chunks_of H k) k) as Hain by (rewrite upd_same; left).
  destruct (live_in_page s' _ k b a Hs' Hb Hain) as (h & Hh & Hho & Hpal & Hlo & Hhi).
  assert (H !! a = None) as Hfresh.
  { destruct (H !! a) as [m |] eqn:Ea; [exfalso | reflexivity]. destruct (Z.le_gt_cases m 512) as [Hm | Hm].
    - destruct (held_small s H Hi a m Ea Hm) as (j & bj & _ & Hj5 & Hbj & _ & Hin). destruct (decide (j = k)) as [-> | Hne].
      + pose proof (live_nodup _ _ _ _ Hbok) as Hnd. now apply NoDup_cons in Hnd as [Hnd _].
      + destruct (bin_exists _ _ j Hs' Hj5) as (b' & Hb' & _). rewrite <- (upd_other (chunks_of H) k (a :: chunks_of H k) j Hne) in Hin.
        destruct (live_in_page s' _ j b' a Hs' Hb' Hin) as (h' & Hh' & Hho' & _). assert (h = h') as <- by congruence.
        destruct Hho as (_ & _ & Eh & _). destruct Hho' as (_ & _ & Eh' & _). congruence.
    - destruct (Hout a m Ea Hm (s_page_base a) ltac:(eauto)); lia. }
  split; [exact Hfresh |]. split; [| split; [exact E2 | exact E4]]. constructor.
  - eapply sba_ok_perm; [| exact Hs']. intros j _. rewrite chunks_insert by exact Hfresh. unfold in_bin. cbn [snd].
    destruct (decide (j = k)) as [-> | Hne]; [rewrite upd_same, decide_True by (split; [lia | exact Hk]); reflexivity |].
    rewrite upd_other by exact Hne. rewrite decide_False; [reflexivity |]. intros [_ Ej]. congruence.
  - rewrite large_insert_small by (assumption || lia). rewrite E1. apply (iv_parent _ _ Hi).
  - intros c m [[<- <-] | [_ Hc]]%lookup_insert_Some Hm; [lia |]. destruct (iv_outside _ _ Hi c m Hc Hm) as (? & ? & _). split; [lia |]. split; [lia | now apply Hout].
  - intros c m c' m' [[<- <-] | [_ Hc]]%lookup_insert_Some [[<- <-] | [_ Hc']]%lookup_insert_Some; try lia. exact (iv_apart _ _ Hi c m c' m' Hc Hc').
  - intros c m [[<- <-] | [_ Hc]]%lookup_insert_Some; [lia |]. now apply (iv_sizes _ _ Hi c).
Qed.

Lemma insert_large_inv s H blk n : inv s H -> 512 < n -> fresh_block s H blk n -> H !! blk = None /\ inv (with_parent s (<[blk := n]> (parent s))) (<[blk := n]> H).
Proof.
  intros Hi Hn [[H0 H1] Hpages Hap].
  assert (H !! blk = None) as Hfresh.
  { destruct (H !! blk) as [m |] eqn:Ea; [exfalso | reflexivity]. pose proof (iv_sizes _ _ Hi blk m Ea). destruct (Z.le_gt_cases m 512) as [Hm | Hm].
    - destruct (held_small_page s H Hi blk m Ea Hm) as (k & h & _ & Hh & _ & _ & Hlo & Hhi). destruct (Hpages (s_page_base blk) ltac:(eauto)); lia.
    - destruct (Hap blk m Ea Hm); lia. }
  split; [exact Hfresh |]. constructor.
  - destruct (iv_sba _ _ Hi) as [S1 S2 S3]. eapply sba_ok_perm; [| constructor; [exact S1 | exact S2 | exact S3]]. intros j _.
    rewrite chunks_insert by exact Hfresh. rewrite decide_False; [reflexivity |]. intros [Hle _]. cbn in Hle. lia.
  - cbn [parent with_parent]. now rewrite large_insert, (iv_parent _ _ Hi).
  - intros c m [[<- <-] | [_ Hc]]%lookup_insert_Some Hm; [auto | now apply (iv_outside _ _ Hi c m Hc Hm)].
  - intros c m c' m' [[<- <-] | [_ Hc]]%lookup_insert_Some [[<- <-] | [_ Hc']]%lookup_insert_Some Hm Hm' Hne; try congruence.
    + destruct (Hap c' m' Hc' Hm'); unfold apart; lia.
    + now apply Hap.
    + exact (iv_apart _ _ Hi c m c' m' Hc Hc' Hm Hm' Hne).
  - intros c m [[<- <-] | [_ Hc]]%lookup_insert_Some; [lia |]. now apply (iv_sizes _ _ Hi c).
Qed.

Lemma alloc_ok s H n np blk : inv s H -> 1 <= n -> fresh_page s H np -> fresh_block s H blk n ->
  exists a s', s_sba_alloc s n np blk = Some (a, s') /\ H !! a = None /\ inv s' (<[a := n]> H) /\ memory s' = memory s
    /\ (forall p, pages s' !! p = None -> pages s !! p = None) /\ (512 < n -> a = blk).
Proof.
  intros Hi Hn Hp Hb. destruct (Z.le_gt_cases n 512) as [Hle | Hgt].
  - destruct (alloc_small_ok s H n np blk Hi ltac:(lia) Hp) as (a & s' & E & Hf & Hi' & Em & Hpg).
    exists a, s'. repeat (split; [assumption |]). lia.
  - destruct (insert_large_inv s H blk n Hi Hgt Hb) as [Hf Hi']. exists blk, (with_parent s (<[blk := n]> (parent s))).
    unfold s_sba_alloc, s_max_bin_size. rewrite (proj2 (Z.leb_gt n 512)) by lia.
    split; [reflexivity |]. split; [exact Hf |]. split; [exact Hi' |]. split; [reflexivity | auto].
Qed.

(** ** Releasing *)

Lemma delete_large_inv s H a n : inv s H -> H !! a = Some n -> 512 < n -> inv (with_parent s (delete a (parent s))) (delete a H).
Proof.
  intros Hi Ha Hn. destruct (iv_sba _ _ Hi) as [S1 S2 S3]. constructor.
  - eapply sba_ok_perm; [| constructor; [exact S1 | exact S2 | exact S3]]. intros j _.
    rewrite (chunks_delete H a n j Ha). rewrite decide_False; [reflexivity |]. intros [Hle _]. cbn in Hle. lia.
  - cbn [parent with_parent]. now rewrite large_delete, (iv_parent _ _ Hi).
  - intros c m [_ Hc]%lookup_delete_Some Hm. now apply (iv_outside _ _ Hi c m Hc Hm).
  - intros c m c' m' [_ Hc]%lookup_delete_Some [_ Hc']%lookup_delete_Some. exact (iv_apart _ _ Hi c m c' m' Hc Hc').
  - intros c m [_ Hc]%lookup_delete_Some. now apply (iv_sizes _ _ Hi c).
Qed.

(** A block in use is apart from the headers. *)
Lemma held_header s H a n p : inv s H -> H !! a = Some n -> is_Some (pages s !! p) -> apart a n p 32.
Proof.
  intros Hi Ha Hp. destruct (Z.le_gt_cases n 512) as [Hn | Hn].
  - destruct (held_small_page s H Hi a n Ha Hn) as (k & h & _ & Hh & _ & Hal & H1 & H2). pose proof (owned_aligned s _ p (iv_sba _ _ Hi) Hp) as Hq.
    unfold apart. destruct (decide (p = s_page_base a)) as [-> | Hne]; [lia |]. destruct (aligned_apart _ _ Hal Hq) as [? | ?]; [congruence | lia | lia].
  - destruct (iv_outside _ _ Hi a n Ha Hn) as (_ & _ & Ho). destruct (Ho p Hp); unfold apart; lia.
Qed.

Lemma free_ok s H a n : inv s H -> no_stray s -> H !! a = Some n ->
  exists s', s_sba_free s a = Some s' /\ inv s' (delete a H) /\ headers_only s s'.
Proof.
  intros Hi Hstray Ha. pose proof (held_positive s H Hi a n Ha) as Hpos. unfold s_sba_free, tags_at. rewrite (proj2 (Z.eqb_neq a 0)) by lia.
  destruct (Z.le_gt_cases n 512) as [Hn | Hn].
  - destruct (held_small s H Hi a n Ha Hn) as (k & b & Hk & Hk5 & _).
    assert (chunks_of H k ≡ₚ a :: chunks_of (delete a H) k) as Hl.
    { rewrite (chunks_delete H a n k Ha), decide_True by (split; [exact Hn | exact Hk]). reflexivity. }
    destruct (free_to_bin_ok s _ k _ a (iv_sba _ _ Hi) Hk5 Hl) as (h & s' & Hh & (T1 & T2 & T3 & _) & E & Hs' & E1 & E2 & E3).
    rewrite Hh, T1, T2, Z.eqb_refl. cbn [andb mbind option_bind]. rewrite T3. exists s'. split; [exact E |]. split; [| exact E2].
    assert (forall p, is_Some (pages s' !! p) -> is_Some (pages s !! p)) as Hold.
    { intros p [h' Hp]. destruct (pages s !! p) eqn:Ep; [eauto |]. rewrite E3 in Hp by assumption. discriminate. }
    constructor.
    + eapply sba_ok_perm; [| exact Hs']. intros j _. unfold upd. destruct (decide (j = k)) as [-> | Hne]; [reflexivity |].
      rewrite (chunks_delete H a n j Ha), decide_False; [reflexivity |]. intros [_ Ej]. cbn in Ej. congruence.
    + rewrite E1, large_delete, (iv_parent _ _ Hi). symmetry. apply delete_id. destruct (large_of H !! a) eqn:El; [| reflexivity].
      apply large_lookup in El. destruct El. assert (z = n) by congruence. lia.
    + intros c m [_ Hc]%lookup_delete_Some Hm. destruct (iv_outside _ _ Hi c m Hc Hm) as (? & ? & Ho). repeat split; auto. intros p Hp. auto.
    + intros c m c' m' [_ Hc]%lookup_delete_Some [_ Hc']%lookup_delete_Some. exact (iv_apart _ _ Hi c m c' m' Hc Hc').
    + intros c m [_ Hc]%lookup_delete_Some. now apply (iv_sizes _ _ Hi c).
  - pose proof (held_large_page s H Hi a n Ha Hn) as Hnone. rewrite Hnone.
    assert (s_page_base a mod 4096 = 0) as Hbase.
    { destruct (iv_outside _ _ Hi a n Ha Hn) as (? & ? & _). rewrite page_base_eq by lia. Z.div_mod_to_equations. lia. }
    pose proof (Hstray _ Hbase Hnone) as Hu. unfold untagged in Hu. destruct (memory_tags (memory s) (s_page_base a)) as [t1 t2].
    assert (((t1 =? AWS_SBA_TAG_VALUE) && (t2 =? AWS_SBA_TAG_VALUE)) = false) as ->.
    { apply andb_false_iff. destruct (Z.eqb_spec t1 AWS_SBA_TAG_VALUE) as [-> |]; [right | now left]. apply Z.eqb_neq. congruence. }
    assert (parent s !! a = Some n) as Hpa by (rewrite (iv_parent _ _ Hi); now apply large_lookup).
    rewrite Hpa. cbn [mbind option_bind]. eexists. split; [reflexivity |]. split; [now apply (delete_large_inv s H a n) |].
    now apply headers_same.
Qed.
