(* ===== verification/SbaClaims.v ===== *)
(** * The small block allocator: what it promises

    Any history of calls in which the client returns what it was given, the
    operating system gives unused pages and the parent allocator unused blocks,
    and of writes to memory between the calls. The allocator tells its own blocks
    from the parent's by two words at the start of a page: nobody else may write
    both there. *)

From S2P Require Import Prelude Math MathBits Sba SbaSpec SbaOps SbaState SbaCalls.
Import MathBits Sba.

Local Open Scope Z_scope.

(** ** Calls *)

Inductive call :=
  | Acquire (n np blk : Z)
  | Release (a : Z)
  | Realloc (ptr old_size new_size np blk : Z)
  | Calloc (num n np blk : Z)
  | Write (x v : Z).

(** Whether a reallocation leaves the block in place, and whether the parent moves it. *)
Definition keeps (old_size new_size : Z) : bool := (new_size <? old_size) || ((512 <? old_size) && (old_size =? new_size)).
Definition parent_moves (old_size new_size : Z) : bool := (512 <? old_size) && (old_size <? new_size).

(** No page but those of the allocator bears its tags. *)
Definition clean_memory (s : sba) (m : Z -> Z) : Prop := forall q, q mod 4096 = 0 -> pages s !! q = None -> untagged m q.

Definition write_byte (x v : Z) (m : Z -> Z) : Z -> Z := fun y => if y =? x then v else m y.

Definition ok_args (s : sba) (H : held_blocks) (n np blk : Z) : Prop := 1 <= n /\ fresh_page s H np /\ fresh_block s H blk n.

Definition valid (s : sba) (H : held_blocks) (c : call) : Prop :=
  match c with
  | Acquire n np blk => ok_args s H n np blk
  | Release a => a = 0 \/ is_Some (H !! a)
  | Realloc ptr old_size new_size np blk =>
      (ptr = 0 /\ old_size = 0 /\ ok_args s H new_size np blk)
      \/ (exists cap, H !! ptr = Some cap /\ 1 <= old_size <= cap)
         /\ (new_size = 0 \/ keeps old_size new_size = true /\ 1 <= new_size
             \/ keeps old_size new_size = false /\ ok_args s (if parent_moves old_size new_size then delete ptr H else H) new_size np blk
                /\ (512 < new_size -> clean_memory s (copy_memory blk ptr old_size (memory s))))
  | Calloc num n np blk => n * num < 2 ^ 64 /\ ok_args s H (n * num) np blk
  | Write x v =>
      ((exists a n, H !! a = Some n /\ a <= x < a + n) \/ (forall p, is_Some (pages s !! p) -> x < p \/ p + 4096 <= x))
      /\ clean_memory s (write_byte x v (memory s))
  end.

(** The blocks in use after a call that returned [p]. *)
Definition held_after (H : held_blocks) (c : call) (p : Z) : held_blocks :=
  match c with
  | Acquire n _ _ => <[p := n]> H
  | Release a => delete a H
  | Realloc ptr old_size new_size _ _ =>
      if new_size =? 0 then delete ptr H else if keeps old_size new_size then H else <[p := new_size]> (delete ptr H)
  | Calloc num n _ _ => <[p := n * num]> H
  | Write _ _ => H
  end.

Definition exec (s : sba) (c : call) : option (Z * sba) :=
  match c with
  | Acquire n np blk => s_sba_mem_acquire s n np blk
  | Release a => s ← s_sba_mem_release s a; Some (0, s)
  | Realloc ptr old_size new_size np blk => s_sba_mem_realloc s ptr old_size new_size np blk
  | Calloc num n np blk => s_sba_mem_calloc s num n np blk
  | Write x v => Some (0, with_memory s (write_byte x v (memory s)))
  end.

Inductive reachable : sba -> held_blocks -> Prop :=
  | reach_new m : (forall q, q mod 4096 = 0 -> untagged m q) -> reachable (s_sba_init m) ∅
  | reach_call s H c p s' : reachable s H -> valid s H c -> exec s c = Some (p, s') -> reachable s' (held_after H c p).

(** What a call does to the bytes of the blocks. *)
Definition bytes_kept (s : sba) (H : held_blocks) (c : call) (p : Z) (s' : sba) : Prop :=
  (forall a n x, H !! a = Some n -> held_after H c p !! a = Some n -> a <= x < a + n -> (match c with Realloc ptr _ _ _ _ => a <> ptr | Write y _ => x <> y | _ => True end) ->
    memory s' x = memory s x)
  /\ match c with
     | Realloc ptr old_size new_size _ _ => new_size <> 0 -> forall i, 0 <= i < Z.min old_size new_size -> memory s' (p + i) = memory s (ptr + i)
     | Calloc num n _ _ => forall i, 0 <= i < n * num -> memory s' (p + i) = 0
     | Write x v => memory s' x = v
     | _ => True
     end.

Definition good (s : sba) (H : held_blocks) (c : call) : Prop :=
  exists p s', exec s c = Some (p, s') /\ inv s' (held_after H c p) /\ no_stray s' /\ bytes_kept s H c p s'.

Lemma copy_in dst src n m i : 0 <= i < n -> copy_memory dst src n m (dst + i) = m (src + i).
Proof. intros Hi. unfold copy_memory. rewrite (proj2 (Z.leb_le _ _)), (proj2 (Z.ltb_lt _ _)) by lia. cbn [andb]. f_equal. lia. Qed.

Lemma copy_out dst src n m x a k : a <= x < a + k -> apart a k dst n -> copy_memory dst src n m x = m x.
Proof. intros Hx Ha. unfold copy_memory. destruct Ha; [rewrite (proj2 (Z.leb_gt dst x)) by lia | rewrite (proj2 (Z.ltb_ge x (dst + n))), andb_false_r by lia]; reflexivity. Qed.

Lemma zero_in dst n m i : 0 <= i < n -> zero_memory dst n m (dst + i) = 0.
Proof. intros Hi. unfold zero_memory. now rewrite (proj2 (Z.leb_le _ _)), (proj2 (Z.ltb_lt _ _)) by lia. Qed.

Lemma zero_out dst n m x a k : a <= x < a + k -> apart a k dst n -> zero_memory dst n m x = m x.
Proof. intros Hx Ha. unfold zero_memory. destruct Ha; [rewrite (proj2 (Z.leb_gt dst x)) by lia | rewrite (proj2 (Z.ltb_ge x (dst + n))), andb_false_r by lia]; reflexivity. Qed.

(** Zeroing makes no tags: their bytes are not zero. *)
Lemma load_bytes_step n m a v : load_bytes (S n) m a = v -> u8 (m a) = v mod 2 ^ 8 /\ load_bytes n m (a + 1) = v / 2 ^ 8.
Proof.
  cbn [load_bytes]. intros <-. assert (0 <= u8 (m a) < 2 ^ 8) as Hb by (apply Z.mod_pos_bound; lia).
  rewrite (Z.mul_comm (2 ^ 8)), Z_mod_plus_full, Z.div_add by lia. rewrite Z.mod_small, Z.div_small by exact Hb. split; [reflexivity | lia].
Qed.

Lemma tag_bytes m a x : load64 m a = AWS_SBA_TAG_VALUE -> a <= x < a + 8 -> m x <> 0.
Proof.
  unfold load64. intros E Hx Hz.
  do 8 (apply load_bytes_step in E as [Hb E]; match type of Hb with u8 (m ?y) = _ => assert (x <> y) by (intros ->; rewrite Hz in Hb; vm_compute in Hb; discriminate) end;
    clear Hb). lia.
Qed.

Lemma zero_load64 d n m a : load64 (zero_memory d n m) a = AWS_SBA_TAG_VALUE -> load64 m a = AWS_SBA_TAG_VALUE.
Proof.
  intros E. rewrite <- E. apply load_bytes_same. intros x Hx. pose proof (tag_bytes _ _ x E Hx) as Hne.
  unfold zero_memory in *. now destruct ((d <=? x) && (x <? d + n)).
Qed.

Lemma zero_clean s d n m : clean_memory s m -> clean_memory s (zero_memory d n m).
Proof.
  intros Hc q Hq Hp E. apply (Hc q Hq Hp). unfold memory_tags in *. injection E as E1 E2.
  now rewrite (zero_load64 _ _ _ _ E1), (zero_load64 _ _ _ _ E2).
Qed.

(** Allocating leaves the memory as it is. *)
Lemma alloc_clean s s' m : (forall p, pages s' !! p = None -> pages s !! p = None) -> clean_memory s m -> clean_memory s' m.
Proof. intros Hp Hc q Hq Hn. now apply Hc, Hp. Qed.

Lemma acquire_good s H n np blk : inv s H -> no_stray s -> valid s H (Acquire n np blk) -> good s H (Acquire n np blk).
Proof.
  intros Hi Hst (Hn & Hp & Hb). destruct (alloc_ok s H n np blk Hi Hn Hp Hb) as (a & s' & E & Hf & Hi' & Em & Hpg & _).
  exists a, s'. split; [exact E |]. split; [exact Hi' |]. split; [| split; [| exact I]]; [| intros; now rewrite Em].
  unfold no_stray. rewrite Em. now apply (alloc_clean s).
Qed.

(** What releasing leaves of the blocks. *)
Lemma freed_bytes s s' H a n x : inv s H -> headers_only s s' -> H !! a = Some n -> a <= x < a + n -> memory s' x = memory s x.
Proof.
  intros Hi [Hm _] Ha Hx. apply Hm. intros p Hp. destruct (held_header s H a n p Hi Ha Hp); lia.
Qed.

Lemma release_good s H a : inv s H -> no_stray s -> valid s H (Release a) -> good s H (Release a).
Proof.
  intros Hi Hst Hv. assert (exists s', s_sba_free s a = Some s' /\ inv s' (delete a H) /\ headers_only s s') as (s' & E & Hi' & Hh).
  { destruct (decide (a = 0)) as [-> | Hne].
    - exists s. split; [reflexivity |]. split; [| now apply headers_same]. rewrite delete_id; [exact Hi |]. destruct (H !! 0) eqn:E; [| reflexivity].
      pose proof (held_positive s H Hi _ _ E). lia.
    - destruct Hv as [? | [n Ha]]; [congruence |]. now apply (free_ok s H a n). }
  exists 0, s'. cbn [exec]. unfold s_sba_mem_release. rewrite E. split; [reflexivity |]. split; [exact Hi' |].
  split; [exact (headers_stray s s' _ (iv_sba _ _ Hi) Hh Hst) |]. split; [| exact I].
  intros b n x Hb _ Hx _. exact (freed_bytes s s' H b n x Hi Hh Hb Hx).
Qed.

Lemma calloc_good s H num n np blk : inv s H -> no_stray s -> valid s H (Calloc num n np blk) -> good s H (Calloc num n np blk).
Proof.
  intros Hi Hst (Hlt & Hn & Hp & Hb). destruct (alloc_ok s H (n * num) np blk Hi Hn Hp Hb) as (a & s' & E & Hf & Hi' & Em & Hpg & _).
  exists a, (with_memory s' (zero_memory a (n * num) (memory s'))). cbn [exec]. unfold s_sba_mem_calloc.
  rewrite u64_small by (unfold is_u64; lia). rewrite E. split; [reflexivity |]. split; [now apply inv_memory |]. split; [| split].
  - rewrite Em. exact (zero_clean s' a (n * num) (memory s) (alloc_clean s s' _ Hpg Hst)).
  - intros c m x Hc Hc' Hx _. cbn [memory with_memory]. rewrite (zero_out _ _ _ x c m Hx); [now rewrite Em |].
    apply (held_apart s' _ Hi' c m a (n * num)); [exact Hc' | apply lookup_insert_eq | congruence].
  - intros i Hi0. now apply zero_in.
Qed.

Lemma write_good s H x v : inv s H -> valid s H (Write x v) -> good s H (Write x v).
Proof.
  intros Hi (_ & Hc). exists 0, (with_memory s (write_byte x v (memory s))). split; [reflexivity |]. split; [now apply inv_memory |].
  split; [exact Hc |]. split; [| cbn; unfold write_byte; now rewrite Z.eqb_refl].
  intros a n y _ _ _ Hne. cbn. unfold write_byte. now rewrite (proj2 (Z.eqb_neq y x)).
Qed.

(** *** Reallocation *)

Lemma realloc_keep s ptr old_size new_size np blk : new_size <> 0 -> keeps old_size new_size = true ->
  s_sba_mem_realloc s ptr old_size new_size np blk = Some (ptr, s).
Proof.
  intros H0 Hk. unfold s_sba_mem_realloc, s_max_bin_size. unfold keeps in Hk. rewrite (proj2 (Z.eqb_neq new_size 0)) by exact H0.
  destruct (Z.ltb_spec 512 old_size), (Z.ltb_spec 512 new_size), (Z.ltb_spec new_size old_size), (Z.ltb_spec old_size new_size), (Z.eqb_spec old_size new_size);
    cbn in Hk |- *; try discriminate; try lia; reflexivity.
Qed.

Lemma apart_less a n a' n' m : apart a n a' n' -> m <= n' -> apart a n a' m.
Proof. unfold apart. lia. Qed.

Lemma realloc_new_good s H np blk new_size : inv s H -> no_stray s -> ok_args s H new_size np blk -> good s H (Realloc 0 0 new_size np blk).
Proof.
  intros Hi Hst (Hn & Hp & Hb). destruct (alloc_ok s H new_size np blk Hi Hn Hp Hb) as (a & s' & E & Hf & Hi' & Em & Hpg & _).
  exists a, s'. cbn [exec held_after]. unfold s_sba_mem_realloc, keeps, s_max_bin_size. change (512 <? 0) with false. cbn [andb].
  rewrite (proj2 (Z.eqb_neq new_size 0)), (proj2 (Z.ltb_ge new_size 0)) by lia. rewrite E. cbn [mbind option_bind orb].
  split; [reflexivity |]. rewrite delete_id.
  - split; [exact Hi' |]. split; [unfold no_stray; rewrite Em; now apply (alloc_clean s) |]. split; [intros; now rewrite Em | intros _ i Hi0; lia].
  - destruct (H !! 0) eqn:E0; [| reflexivity]. pose proof (held_positive s H Hi _ _ E0). lia.
Qed.

Lemma realloc_free_good s H ptr cap old_size np blk : inv s H -> no_stray s -> H !! ptr = Some cap -> good s H (Realloc ptr old_size 0 np blk).
Proof.
  intros Hi Hst Ha. destruct (free_ok s H ptr cap Hi Hst Ha) as (s' & E & Hi' & Hh). exists 0, s'. cbn [exec held_after].
  unfold s_sba_mem_realloc, s_max_bin_size. change (512 <? 0) with false. rewrite andb_false_r, Z.eqb_refl, E. split; [reflexivity |].
  split; [exact Hi' |]. split; [exact (headers_stray s s' _ (iv_sba _ _ Hi) Hh Hst) |].
  split; [intros b n x Hb _ Hx _; exact (freed_bytes s s' H b n x Hi Hh Hb Hx) | congruence].
Qed.

Lemma realloc_parent_good s H ptr cap old_size new_size np blk : inv s H -> H !! ptr = Some cap -> 1 <= old_size <= cap ->
  parent_moves old_size new_size = true -> fresh_block s (delete ptr H) blk new_size ->
  clean_memory s (copy_memory blk ptr old_size (memory s)) -> good s H (Realloc ptr old_size new_size np blk).
Proof.
  intros Hi Ha Hsz Hm Hb Hclean. unfold parent_moves in Hm. apply andb_true_iff in Hm as [H1 H2]. apply Z.ltb_lt in H1, H2.
  assert (parent s !! ptr = Some cap) as Hpar by (rewrite (iv_parent _ _ Hi); apply large_lookup; split; [exact Ha | lia]).
  destruct (insert_large_inv (with_parent s (delete ptr (parent s))) (delete ptr H) blk new_size) as [Hf Hi'];
    [apply (delete_large_inv s H ptr cap); auto; lia | lia | destruct Hb; now constructor |].
  exists blk, (with_memory (with_parent s (<[blk := new_size]> (delete ptr (parent s)))) (copy_memory blk ptr old_size (memory s))).
  cbn [exec held_after]. unfold s_sba_mem_realloc, s_max_bin_size. rewrite (proj2 (Z.ltb_lt 512 old_size)), (proj2 (Z.ltb_lt 512 new_size)) by lia.
  cbn [andb]. rewrite (proj2 (Z.ltb_lt old_size new_size)) by lia. rewrite Hpar. cbn [mbind option_bind]. split; [reflexivity |].
  unfold keeps. rewrite (proj2 (Z.ltb_ge new_size old_size)), (proj2 (Z.eqb_neq old_size new_size)), (proj2 (Z.eqb_neq new_size 0)), andb_false_r by lia.
  cbn [orb]. split; [exact (inv_memory _ _ _ Hi') |]. split; [exact Hclean |]. split.
  - intros c m x Hc Hc' Hx Hne. cbn [memory with_memory]. apply (copy_out _ _ _ _ x c m Hx).
    apply apart_less with new_size; [| lia]. destruct (decide (c = blk)) as [-> | Hcb]; [rewrite lookup_delete_ne in Hf by congruence; congruence |].
    apply (held_apart _ _ Hi' c m blk new_size); [now rewrite lookup_insert_ne, lookup_delete_ne by congruence | apply lookup_insert_eq | exact Hcb].
  - intros _ i Hi0. cbn [memory with_memory]. apply copy_in. lia.
Qed.

(** Copying into a small block makes no tags outside the pages. *)
Lemma copy_small_clean s H a n src k : inv s H -> H !! a = Some n -> n <= 512 -> k <= n -> no_stray s -> clean_memory s (copy_memory a src k (memory s)).
Proof.
  intros Hi Ha Hn Hk Hst q Hq Hp. apply (untagged_same (memory s)); [| now apply Hst]. intros x Hx. apply (copy_out _ _ _ _ x q 32 Hx).
  destruct (held_small_page s H Hi a n Ha Hn) as (j & h & _ & Hh & _ & (Hal & _) & H1 & H2). assert (q <> s_page_base a) by congruence.
  unfold apart. Z.div_mod_to_equations. lia.
Qed.

Lemma realloc_copy_good s H ptr cap old_size new_size np blk : inv s H -> no_stray s -> H !! ptr = Some cap -> 1 <= old_size <= cap ->
  keeps old_size new_size = false -> parent_moves old_size new_size = false -> ok_args s H new_size np blk ->
  (512 < new_size -> clean_memory s (copy_memory blk ptr old_size (memory s))) -> good s H (Realloc ptr old_size new_size np blk).
Proof.
  intros Hi Hst Ha Hsz Hk Hm (Hn & Hp & Hb) Hclean. unfold keeps, parent_moves in Hk, Hm. apply orb_false_iff in Hk as [Hk1 Hk2]. apply Z.ltb_ge in Hk1.
  destruct (alloc_ok s H new_size np blk Hi Hn Hp Hb) as (a & s1 & E & Hf & Hi1 & Em & Hpg & Hblk).
  assert (a <> ptr) as Hap by congruence. assert (<[a := new_size]> H !! ptr = Some cap) as Hptr by now rewrite lookup_insert_ne.
  set (s2 := with_memory s1 (copy_memory a ptr old_size (memory s1))).
  assert (no_stray s2) as Hst2.
  { unfold s2. rewrite Em. change (clean_memory s1 (copy_memory a ptr old_size (memory s))). destruct (Z.le_gt_cases new_size 512) as [Hle | Hgt].
    - rewrite <- Em. apply (copy_small_clean s1 _ a new_size ptr old_size Hi1); [apply lookup_insert_eq | exact Hle | lia |].
      unfold no_stray. rewrite Em. now apply (alloc_clean s).
    - rewrite (Hblk Hgt). now apply (alloc_clean s), Hclean. }
  pose proof (inv_memory s1 _ (copy_memory a ptr old_size (memory s1)) Hi1) as Hi2. fold s2 in Hi2.
  destruct (free_ok s2 _ ptr cap Hi2 Hst2 Hptr) as (s' & E' & Hi' & Hh).
  exists a, s'. cbn [exec held_after]. unfold s_sba_mem_realloc, s_max_bin_size, keeps.
  rewrite (proj2 (Z.ltb_ge new_size old_size)), (proj2 (Z.eqb_neq new_size 0)), Hk2 by lia. cbn [orb].
  assert (((512 <? old_size) && (512 <? new_size)) = false) as ->.
  { destruct (Z.ltb_spec 512 old_size), (Z.ltb_spec 512 new_size); cbn; try reflexivity. cbn in Hk2, Hm. apply Z.eqb_neq in Hk2. apply Z.ltb_ge in Hm. lia. }
  rewrite E. cbn [mbind option_bind]. pose proof (held_positive s H Hi ptr cap Ha). rewrite (proj2 (Z.eqb_neq ptr 0)), (proj2 (Z.eqb_neq old_size 0)) by lia.
  cbn [negb andb]. fold s2. rewrite E'. split; [reflexivity |]. rewrite <- delete_insert_ne by congruence. split; [exact Hi' |].
  split; [exact (headers_stray s2 s' _ (iv_sba _ _ Hi2) Hh Hst2) |].
  assert (forall b m x, <[a := new_size]> H !! b = Some m -> b <= x < b + m -> memory s' x = copy_memory a ptr old_size (memory s) x) as Emem.
  { intros b m x Hb' Hx. rewrite (freed_bytes s2 s' _ b m x Hi2 Hh Hb' Hx). unfold s2. cbn [memory with_memory]. now rewrite Em. }
  split.
  - intros c m x Hc _ Hx Hne. assert (c <> a) by congruence.
    rewrite (Emem c m x) by (try exact Hx; now rewrite lookup_insert_ne by congruence).
    apply (copy_out _ _ _ _ x c m Hx). apply apart_less with new_size; [| lia].
    apply (held_apart s1 _ Hi1); [rewrite lookup_insert_ne by congruence; exact Hc | apply lookup_insert_eq | congruence].
  - intros _ i Hi0. rewrite (Emem a new_size) by (first [apply lookup_insert_eq | lia]). apply copy_in. lia.
Qed.

Lemma call_good s H c : inv s H -> no_stray s -> valid s H c -> good s H c.
Proof.
  intros Hi Hst Hv. destruct c as [n np blk | a | ptr old_size new_size np blk | num n np blk | x v];
    [now apply acquire_good | now apply release_good | | now apply calloc_good | now apply write_good].
  destruct Hv as [(-> & -> & Hv) | ((cap & Ha & Hsz) & [-> | [(Hk & Hn) | (Hk & Hv & Hclean)]])].
  - now apply realloc_new_good.
  - now apply (realloc_free_good s H ptr cap).
  - exists ptr, s. split; [apply realloc_keep; [lia | exact Hk] |]. cbn [held_after]. rewrite (proj2 (Z.eqb_neq new_size 0)), Hk by lia.
    split; [exact Hi |]. split; [exact Hst |]. split; auto.
  - destruct (parent_moves old_size new_size) eqn:Hm; [| now apply (realloc_copy_good s H ptr cap)].
    apply (realloc_parent_good s H ptr cap); auto; [apply Hv |]. apply Hclean. unfold parent_moves in Hm. apply andb_true_iff in Hm as [H1 H2]. lia.
Qed.

Lemma reachable_inv s H : reachable s H -> inv s H /\ no_stray s.
Proof.
  induction 1 as [m Hm | s H c p s' _ [IH IH'] Hv E]; [split; [apply init_inv | intros q Hq _; now apply Hm] |].
  destruct (call_good s H c IH IH' Hv) as (p' & s'' & E' & Hi & Hst & _). assert (p' = p /\ s'' = s') as [-> ->] by (split; congruence). now split.
Qed.

(** ** The claims *)

(** C16: In every history of valid calls, no call of the small block allocator goes
    wrong; two blocks in use never overlap; a block of at most 512 bytes lies
    within one page of the allocator, behind the header, and the header counts
    the chunks of the page that are in use; a larger block is the parent's. The
    memory at the start, what the clients write and what a larger block gets when
    it is reallocated must not form the two tags at the start of a page; then no
    page but the allocator's ever bears them, also not one it gave back. *)
Theorem sba_blocks_safe s H :
  reachable s H ->
  (forall c, valid s H c -> exists p s', exec s c = Some (p, s') /\ reachable s' (held_after H c p))
  /\ (forall a n a' n', H !! a = Some n -> H !! a' = Some n' -> a <> a' -> apart a n a' n')
  /\ (forall a n, H !! a = Some n -> n <= s_max_bin_size ->
        exists h, pages s !! s_page_base a = Some h /\ s_page_base a + sizeof_page_header <= a /\ a + n <= s_page_base a + AWS_SBA_PAGE_SIZE
        /\ tag h = AWS_SBA_TAG_VALUE /\ tag2 h = AWS_SBA_TAG_VALUE /\ s_sba_find_bin n = Some (bin h)
        /\ alloc_count h = zlength (in_page (s_page_base a) (chunks_of H (bin h))))
  /\ (forall a n, H !! a = Some n -> s_max_bin_size < n -> parent s !! a = Some n /\ outside s a n)
  /\ (forall q, q mod AWS_SBA_PAGE_SIZE = 0 -> pages s !! q = None -> tags_at s q <> (AWS_SBA_TAG_VALUE, AWS_SBA_TAG_VALUE)).
Proof.
  intros Hr. destruct (reachable_inv s H Hr) as [Hi Hst]. split; [| split; [| split; [| split]]].
  - intros c Hv. destruct (call_good s H c Hi Hst Hv) as (p & s' & E & _). exists p, s'. split; [exact E |]. now apply (reach_call s H c p s').
  - exact (held_apart s H Hi).
  - intros a n Ha Hn. destruct (held_small_page s H Hi a n Ha Hn) as (k & h & Hk & Hh & (T1 & T2 & T3 & T4) & _ & H1 & H2).
    subst k. exists h. auto 10.
  - intros a n Ha Hn. split; [rewrite (iv_parent _ _ Hi); now apply large_lookup | now apply (iv_outside _ _ Hi a n)].
  - intros q Hq Hp. unfold tags_at. rewrite Hp. now apply Hst.
Qed.

Definition zero_bytes : Z -> Z := fun _ => 0.

Lemma zero_bytes_untagged q : untagged zero_bytes q.
Proof. unfold untagged, memory_tags, load64. rewrite load_bytes_zero; [discriminate | reflexivity]. Qed.

(** A first allocation of 40 bytes. *)
Definition example_state : sba := match exec (s_sba_init zero_bytes) (Acquire 40 8192 65536) with Some (_, s) => s | None => s_sba_init zero_bytes end.

Lemma example_args n : 1 <= n <= 4096 -> ok_args (s_sba_init zero_bytes) ∅ n 8192 65536.
Proof.
  intros Hn. split; [lia |]. split; constructor; try (intros a m Ha; now rewrite lookup_empty in Ha).
  - unfold aligned. now vm_compute.
  - apply lookup_empty.
  - lia.
  - intros p [h Hp]. cbn [pages s_sba_init] in Hp. now rewrite lookup_empty in Hp.
Qed.

Lemma example_reachable : reachable example_state (held_after ∅ (Acquire 40 8192 65536) 8224).
Proof.
  apply (reach_call (s_sba_init zero_bytes) ∅ (Acquire 40 8192 65536) 8224 example_state).
  - constructor. intros q _. apply zero_bytes_untagged.
  - apply (example_args 40). lia.
  - vm_compute. reflexivity.
Qed.

Lemma sba_blocks_safe_witness :
  exists h, pages example_state !! 8192 = Some h /\ s_sba_find_bin 40 = Some (bin h) /\ alloc_count h = 1.
Proof.
  destruct (sba_blocks_safe example_state _ example_reachable) as (_ & _ & Hs & _).
  destruct (Hs 8224 40) as (h & Hh & _ & _ & _ & _ & Hk & Hc); [vm_compute; reflexivity | vm_compute; discriminate |].
  exists h. split; [exact Hh |]. split; [exact Hk |].
  assert (s_sba_find_bin 40 = Some 1%nat) as E by (vm_compute; reflexivity). assert (bin h = 1%nat) as Eb by congruence.
  rewrite Hc, Eb. vm_compute. reflexivity.
Defined.

(** C17: A call changes no byte of a block that another caller holds; what
    reallocation returns starts with the bytes of the old block, as many as both
    sizes allow; and what [calloc] returns is zero. The memory is subject to the
    condition of C16: nobody else writes both tags at the start of a page. *)
Theorem sba_contents_kept s H c p s' :
  reachable s H -> valid s H c -> exec s c = Some (p, s') -> bytes_kept s H c p s'.
Proof.
  intros Hr Hv E. destruct (reachable_inv s H Hr) as [Hi Hst]. destruct (call_good s H c Hi Hst Hv) as (p' & s'' & E' & _ & _ & Hb). congruence.
Qed.

Lemma sba_contents_kept_witness :
  exists p s', exec (s_sba_init zero_bytes) (Calloc 4 10 8192 65536) = Some (p, s') /\ memory s' (p + 39) = 0.
Proof.
  destruct (exec (s_sba_init zero_bytes) (Calloc 4 10 8192 65536)) as [[p s'] |] eqn:E; [| vm_compute in E; discriminate].
  exists p, s'. split; [reflexivity |].
  destruct (sba_contents_kept (s_sba_init zero_bytes) ∅ (Calloc 4 10 8192 65536) p s') as [_ Hz]; [constructor; intros q _; apply zero_bytes_untagged | | exact E |].
  - split; [lia | apply (example_args 40); lia].
  - apply Hz. lia.
Defined.

(** Destroying the allocator gives its pages back with the tags in them: only
    [s_sba_free_to_bin] erases them. *)
Example destroyed_pages_stay_tagged :
  exists s', aws_small_block_allocator_destroy example_state = Some s' /\ pages s' !! 8192 = None
    /\ tags_at s' 8192 = (AWS_SBA_TAG_VALUE, AWS_SBA_TAG_VALUE).
Proof. eexists. split; [vm_compute; reflexivity |]. split; vm_compute; reflexivity. Qed.

(** ** The small block allocator: statistics and destruction *)

Import MathBits Sba.


(** ** The pages of all the bins *)

Definition all_pages (s : sba) : list Z := flat_map bin_pages (bins s).

Lemma pages_from (ps : gmap Z page_header) (l : list sba_bin) (n : nat) :
  (forall k b, l !! k = Some b -> NoDup (bin_pages b) /\ forall p, p ∈ bin_pages b -> exists h, ps !! p = Some h /\ bin h = (n + k)%nat) ->
  NoDup (flat_map bin_pages l) /\ forall p, p ∈ flat_map bin_pages l -> exists h, ps !! p = Some h /\ (n <= bin h)%nat.
Proof.
  revert n. induction l as [| b l IH]; intros n Hl; [split; [apply NoDup_nil_2 | intros p Hp; now apply not_elem_of_nil in Hp] |].
  destruct (Hl 0%nat b eq_refl) as [Hn Hh]. destruct (IH (S n)) as [Hn' Hh'].
  { intros k c Hk. destruct (Hl (S k) c Hk) as [? Hc]. split; [assumption |]. intros p Hp. destruct (Hc p Hp) as (h & E & Eb). exists h. split; [exact E | lia]. }
  cbn [flat_map]. split.
  - apply NoDup_app. split; [exact Hn |]. split; [| exact Hn']. intros p Hp Hq. destruct (Hh p Hp) as (h & E & Eb). destruct (Hh' p Hq) as (h' & E' & Eb').
    assert (h = h') as <- by congruence. lia.
  - intros p [Hp | Hp]%elem_of_app; [destruct (Hh p Hp) as (h & E & Eb) | destruct (Hh' p Hp) as (h & E & Eb)]; exists h; (split; [exact E | lia]).
Qed.

Lemma all_pages_spec s L : sba_ok s L -> NoDup (all_pages s) /\ forall p, p ∈ all_pages s <-> is_Some (pages s !! p).
Proof.
  intros Hs. destruct (pages_from (pages s) (bins s) 0) as [Hn Hh].
  { intros k b Hk. pose proof (so_bin _ _ Hs k b Hk) as Hb. split; [apply (bk_nodup _ _ _ _ Hb) |]. intros p Hp.
    destruct (bk_header _ _ _ _ Hb p Hp) as (h & E & _ & _ & Eb & _). now exists h. }
  split; [exact Hn |]. intros p. split; [intros Hp; destruct (Hh p Hp) as (h & E & _); eauto |]. intros [h Hp].
  destruct (so_pages _ _ Hs p h Hp) as (b & Hb & Hin). apply list_elem_of_In, in_flat_map. exists b. split; [| now apply list_elem_of_In].
  apply list_elem_of_In. now apply list_elem_of_lookup_2 in Hb.
Qed.

Lemma all_pages_count s L : sba_ok s L -> length (all_pages s) = base.size (pages s).
Proof.
  intros Hs. destruct (all_pages_spec s L Hs) as [Hn Hin].
  rewrite <- length_map_to_list, <- (length_map fst (map_to_list (pages s))). apply Permutation_length, NoDup_Permutation; [exact Hn | apply NoDup_fst_map_to_list |].
  intros p. rewrite Hin. split.
  - intros [h Hp]. apply list_elem_of_fmap. exists (p, h). split; [reflexivity |]. now apply elem_of_map_to_list.
  - intros Hp. apply list_elem_of_fmap in Hp as ([q h] & -> & Hp). apply elem_of_map_to_list in Hp. eauto.
Qed.

(** ** Destruction *)

Lemma free_pages_app s l1 l2 : free_pages s (l1 ++ l2) = (s ← free_pages s l1; free_pages s l2).
Proof. revert s. induction l1 as [| p l1 IH]; intros s; [reflexivity |]. cbn [app free_pages]. destruct (s_aligned_free s p); [apply IH | reflexivity]. Qed.

Lemma clean_up_bin_pages s b : clean_up_bin s b = free_pages s (bin_pages b).
Proof.
  unfold clean_up_bin, bin_pages, work_pages. rewrite free_pages_app. destruct (free_pages s (active_pages b)); [| reflexivity]. cbn [mbind option_bind].
  destruct (page_cursor b =? 0); [reflexivity |]. cbn [free_pages]. now destruct (s_aligned_free _ _).
Qed.

Lemma clean_up_bins_pages s l : clean_up_bins s l = free_pages s (flat_map bin_pages l).
Proof.
  revert s. induction l as [| b l IH]; intros s; [reflexivity |]. cbn [clean_up_bins flat_map]. rewrite free_pages_app, clean_up_bin_pages.
  destruct (free_pages s (bin_pages b)); [apply IH | reflexivity].
Qed.

Lemma free_pages_all s l : NoDup l -> (forall p, p ∈ l -> is_Some (pages s !! p)) ->
  exists s', free_pages s l = Some s' /\ parent s' = parent s /\ forall p, pages s' !! p = if decide (p ∈ l) then None else pages s !! p.
Proof.
  revert s. induction l as [| q l IH]; intros s Hn Hin.
  - exists s. split; [reflexivity |]. split; [reflexivity |]. intros p. rewrite decide_False; [reflexivity | apply not_elem_of_nil].
  - apply NoDup_cons in Hn as [Hq Hn]. cbn [free_pages]. unfold s_aligned_free at 1. destruct (Hin q ltac:(left)) as [h Hh]. rewrite Hh. cbn [mbind option_bind].
    destruct (IH (with_memory (with_pages s (delete q (pages s))) (leave_tags q h (memory s))) Hn) as (s' & E & Ep & Hps).
    { intros p Hp. cbn [pages with_memory with_pages]. rewrite lookup_delete_ne by congruence. apply Hin. now right. }
    exists s'. split; [exact E |]. split; [exact Ep |]. intros p. rewrite Hps. cbn [pages with_memory with_pages]. destruct (decide (p ∈ l)) as [Hp | Hp].
    + rewrite decide_True by (now right). reflexivity.
    + destruct (decide (p = q)) as [-> | Hne]; [rewrite decide_True by left; apply lookup_delete_eq |].
      rewrite lookup_delete_ne by congruence. rewrite decide_False; [reflexivity |]. now intros [? | ?]%elem_of_cons.
Qed.

(** ** Counting *)

Definition chunk_bytes (n : Z) : Z := if n <=? s_max_bin_size then match s_sba_find_bin n with Some k => bin_size k | None => 0 end else 0.

(** The bytes of the chunks of the small blocks in use. *)
Definition bytes_in_use (H : held_blocks) : Z := sum_z (map (fun x => chunk_bytes x.2) (map_to_list H)).

(** The small blocks in use. *)
Definition small_blocks (H : held_blocks) : nat := base.size (filter (fun x => x.2 <= s_max_bin_size) H).

Lemma bins_bytes_list (l : list (Z * Z)) : (forall x, x ∈ l -> 1 <= x.2) ->
  sum_z (map (fun k => zlength (map fst (filter (in_bin k) l)) * bin_size k) (seq 0 5)) = sum_z (map (fun x => chunk_bytes x.2) l)
  /\ sum_z (map (fun k => zlength (map fst (filter (in_bin k) l))) (seq 0 5)) = zlength (filter (fun x => x.2 <= s_max_bin_size) l).
Proof.
  induction l as [| x l IH]; intros Hx; [split; reflexivity |]. destruct IH as [IH1 IH2]; [intros y Hy; apply Hx; now right |].
  specialize (Hx x ltac:(left)). cbn [map]. rewrite sum_cons, <- IH1. rewrite (filter_cons (fun x => x.2 <= s_max_bin_size)). unfold chunk_bytes, s_max_bin_size in *.
  destruct (Z.leb_spec x.2 512) as [Hle | Hgt].
  - rewrite decide_True by exact Hle. rewrite zlength_cons, <- IH2. destruct (bin_of_size x.2 ltac:(lia)) as (k & Hk & Hk5 & _). rewrite Hk.
    assert (forall j, zlength (map fst (filter (in_bin j) (x :: l))) = (if decide (k = j) then 1 else 0) + zlength (map fst (filter (in_bin j) l))) as E.
    { intros j. rewrite filter_cons. destruct (decide (k = j)) as [<- | Hne].
      - rewrite decide_True by (now split). cbn [map]. rewrite zlength_cons. ring.
      - rewrite decide_False; [ring |]. intros [_ Ej]. congruence. }
    cbn [seq map]. rewrite !E. destruct k as [| [| [| [| [| k]]]]]; [| | | | | lia];
      repeat (case_decide; try congruence); rewrite !sum_cons; split; ring.
  - rewrite decide_False by lia. rewrite <- IH2.
    assert (forall j, filter (in_bin j) (x :: l) = filter (in_bin j) l) as E by (intros j; rewrite filter_cons_False; [reflexivity |]; intros [Hle _]; lia).
    cbn [seq map]. rewrite !E. split; [ring | reflexivity].
Qed.

Section bytes.
Context (s : sba) (H : held_blocks).
Hypothesis Hi : inv s H.

Lemma held_list x : x ∈ map_to_list H -> 1 <= x.2.
Proof. destruct x as [a n]. intros Hx. apply elem_of_map_to_list in Hx. now apply (iv_sizes _ _ Hi a). Qed.

Lemma in_use_sum : sum_z (map (in_use (chunks_of H)) (seq 0 5)) = bytes_in_use H.
Proof. apply (bins_bytes_list (map_to_list H) held_list). Qed.

Lemma live_sum : sum_z (map (fun k => zlength (chunks_of H k)) (seq 0 5)) = Z.of_nat (small_blocks H).
Proof.
  unfold chunks_of. rewrite (proj2 (bins_bytes_list (map_to_list H) held_list)). unfold small_blocks, zlength. rewrite <- length_map_to_list.
  f_equal. apply Permutation_length, NoDup_Permutation; [apply NoDup_filter, NoDup_map_to_list | apply NoDup_map_to_list |].
  intros [a n]. rewrite list_elem_of_filter, !elem_of_map_to_list, map_lookup_filter_Some. tauto.
Qed.

(** The five bins. *)
Lemma five_bins : exists b0 b1 b2 b3 b4, bins s = [b0; b1; b2; b3; b4].
Proof.
  pose proof (so_sizes _ _ (iv_sba _ _ Hi)) as E. destruct (bins s) as [| b0 [| b1 [| b2 [| b3 [| b4 [| b5 l]]]]]]; try discriminate. now exists b0, b1, b2, b3, b4.
Qed.

Lemma bin_nth k b : bins s !! k = Some b -> size b = bin_size k.
Proof.
  intros Hk. assert (k < 5)%nat as Hk5 by (apply lookup_lt_Some in Hk; now rewrite <- (length_map size), (so_sizes _ _ (iv_sba _ _ Hi)) in Hk).
  destruct (bin_exists s _ k (iv_sba _ _ Hi) Hk5) as (b' & Hb' & E). congruence.
Qed.

Lemma in_use_nonneg L k : 0 <= in_use L k.
Proof. unfold in_use. apply Z.mul_nonneg_nonneg; [unfold zlength; lia |]. do 5 (destruct k as [| k]; [vm_compute; discriminate |]). destruct k; vm_compute; discriminate. Qed.

Lemma bytes_active_eq : bytes_in_use H < 2 ^ 64 -> aws_small_block_allocator_bytes_active s = Some (bytes_in_use H).
Proof.
  intros Hlt. rewrite <- in_use_sum in *. cbn [map seq] in *. rewrite !sum_cons in *. set (L := chunks_of H) in *.
  pose proof (fun k => in_use_nonneg L k) as Hp. pose proof (Hp 0%nat). pose proof (Hp 1%nat). pose proof (Hp 2%nat). pose proof (Hp 3%nat). pose proof (Hp 4%nat).
  change (sum_z []) with 0 in *.
  assert (forall k b used, bins s !! k = Some b -> 0 <= used -> used + in_use L k < 2 ^ 64 -> bin_bytes s used b = Some (used + in_use L k)) as Hbin.
  { intros k b used Hk H0' H1'. apply (bin_bytes_eq s L (iv_sba _ _ Hi) k); auto. now apply bin_nth. }
  destruct five_bins as (b0 & b1 & b2 & b3 & b4 & E). unfold aws_small_block_allocator_bytes_active. rewrite E. cbn [fold_left mbind option_bind].
  rewrite E in Hbin. rewrite (Hbin 0%nat) by (reflexivity || lia). cbn [mbind option_bind]. rewrite (Hbin 1%nat) by (reflexivity || lia). cbn [mbind option_bind].
  rewrite (Hbin 2%nat) by (reflexivity || lia). cbn [mbind option_bind]. rewrite (Hbin 3%nat) by (reflexivity || lia). cbn [mbind option_bind].
  rewrite (Hbin 4%nat) by (reflexivity || lia). f_equal. ring.
Qed.

Lemma bin_pages_length b : zlength (active_pages b) + (if page_cursor b =? 0 then 0 else 1) = zlength (bin_pages b).
Proof. unfold bin_pages, work_pages, zlength. rewrite length_app. destruct (page_cursor b =? 0); cbn [length]; lia. Qed.

Lemma bytes_reserved_eq : 4096 * Z.of_nat (base.size (pages s)) < 2 ^ 64 -> aws_small_block_allocator_bytes_reserved s = 4096 * Z.of_nat (base.size (pages s)).
Proof.
  rewrite <- (all_pages_count s _ (iv_sba _ _ Hi)). unfold all_pages, aws_small_block_allocator_bytes_reserved, AWS_SBA_PAGE_SIZE.
  destruct five_bins as (b0 & b1 & b2 & b3 & b4 & E). rewrite E. cbn [flat_map fold_left]. rewrite !bin_pages_length, !length_app. unfold zlength. cbn [length].
  intros Hlt. repeat match goal with |- context [u64 ?x] =>
    lazymatch x with context [u64 _] => fail | _ => rewrite (u64_small x) by (unfold is_u64; lia) end end. lia.
Qed.

(** A page that is full has a chunk in use. *)
Lemma busy_pages k b : bins s !! k = Some b -> zlength (bin_pages b) <= zlength (chunks_of H k) + 1.
Proof.
  intros Hk. pose proof (so_bin _ _ (iv_sba _ _ Hi) k b Hk) as Hb. pose proof (bk_busy _ _ _ _ Hb) as Hbusy.
  pose proof (count_pages (bin_pages b) (chunks_of H k) (bk_nodup _ _ _ _ Hb)) as Hcount.
  rewrite <- Hcount by (intros a Ha; now apply (live_page _ _ _ _ Hb)). rewrite <- bin_pages_length. unfold bin_pages. rewrite map_app, sum_app.
  assert (0 <= sum_z (map (fun p => zlength (in_page p (chunks_of H k))) (work_pages b))) as H0.
  { apply sum_nonneg. intros x Hx. apply list_elem_of_fmap in Hx as (p & -> & _). unfold zlength. lia. }
  assert (zlength (active_pages b) <= sum_z (map (fun p => zlength (in_page p (chunks_of H k))) (active_pages b))) as H1; [| destruct (page_cursor b =? 0); lia].
  induction (active_pages b) as [| p l IH]; [reflexivity |]. cbn [map]. rewrite sum_cons, zlength_cons.
  specialize (IH ltac:(intros q Hq; apply Hbusy; now right)). specialize (Hbusy p ltac:(left)). destruct (in_page p (chunks_of H k)); [congruence |].
  rewrite zlength_cons. unfold zlength in *. lia.
Qed.

Lemma pages_bounded : (base.size (pages s) <= small_blocks H + 5)%nat.
Proof.
  pose proof live_sum as Hl. rewrite <- (all_pages_count s _ (iv_sba _ _ Hi)). unfold all_pages. pose proof busy_pages as Hb.
  destruct five_bins as (b0 & b1 & b2 & b3 & b4 & E). rewrite E in *. cbn [flat_map map seq] in *. rewrite !sum_cons in Hl. change (sum_z []) with 0 in Hl.
  pose proof (Hb 0%nat _ eq_refl). pose proof (Hb 1%nat _ eq_refl). pose proof (Hb 2%nat _ eq_refl). pose proof (Hb 3%nat _ eq_refl). pose proof (Hb 4%nat _ eq_refl).
  rewrite !length_app. unfold zlength in *. cbn [length]. lia.
Qed.
End bytes.

(** The statistics of the small block allocator are exact: the bytes active
    are those of the chunks of the blocks in use, the bytes reserved are those of
    the pages; besides a working page for each bin no page is kept without a
    block in it; and destroying the allocator returns every page. *)
Theorem sba_bytes_correct s H :
  reachable s H -> bytes_in_use H < 2 ^ 64 -> 4096 * Z.of_nat (base.size (pages s)) < 2 ^ 64 ->
  aws_small_block_allocator_bytes_active s = Some (bytes_in_use H)
  /\ aws_small_block_allocator_bytes_reserved s = aws_small_block_allocator_page_size s * Z.of_nat (base.size (pages s))
  /\ (base.size (pages s) <= small_blocks H + 5)%nat
  /\ exists s', aws_small_block_allocator_destroy s = Some s' /\ pages s' = ∅ /\ parent s' = parent s.
Proof.
  intros Hr H1 H2. destruct (reachable_inv s H Hr) as [Hi _]. split; [now apply bytes_active_eq |].
  split; [now apply (bytes_reserved_eq s H) |]. split; [now apply pages_bounded |].
  destruct (all_pages_spec s _ (iv_sba _ _ Hi)) as [Hn Hin].
  destruct (free_pages_all s (all_pages s) Hn ltac:(intros p Hp; now apply Hin)) as (s' & E & Ep & Hps).
  exists s'. split; [unfold aws_small_block_allocator_destroy, s_sba_clean_up; now rewrite clean_up_bins_pages |].
  split; [| exact Ep]. apply map_empty. intros p. rewrite Hps. destruct (decide (p ∈ all_pages s)) as [Hp | Hp]; [reflexivity |].
  destruct (pages s !! p) eqn:E'; [| reflexivity]. exfalso. apply Hp, Hin. eauto.
Qed.

Lemma sba_bytes_correct_witness :
  aws_small_block_allocator_bytes_active example_state = Some 64 /\ aws_small_block_allocator_bytes_reserved example_state = 4096.
Proof.
  destruct (sba_bytes_correct example_state _ example_reachable) as (H1 & H2 & _);
    [vm_compute; reflexivity | vm_compute; reflexivity |].
  split; [rewrite H1; vm_compute; reflexivity | rewrite H2; vm_compute; reflexivity].
Defined.
