(* ===== verification/Xml.v ===== *)
(** * The XML parser: definitions

    [source/xml_parser.c]. A document is a cursor into memory. The callbacks of
    the user are values of the type [client]: what a callback does with the node
    that it is called for, and whether it goes on. All [user_data] is one state
    [U]. The array lists of the parser are lists of items, as [ArrayItems.v]
    justifies; the storage of the parser itself is not part of the model.
    Logging is left out. *)

From S2P Require Import Prelude Math Memory ByteBuf.
Import ByteBuf.

Local Open Scope Z_scope.

Module Xml.

Definition s_max_document_depth : Z := 20.
Definition MAX_NAME_LEN : Z := 256.
Definition NODE_CLOSE_OVERHEAD : Z := 3.

Record aws_xml_attribute := mk_attribute { attribute_name : aws_byte_cursor; attribute_value : aws_byte_cursor }.

Definition zero_attribute : aws_xml_attribute := mk_attribute zero_cursor zero_cursor.

(** [attributes]: the length of the list; its items are in the parser. *)
Record aws_xml_node := mk_node {
  name : aws_byte_cursor;
  attributes : Z;
  doc_at_body : aws_byte_cursor;
  processed : bool
}.

(** What a callback does: read the node's name or an attribute, take its body as
    text, go into it with another callback, return. *)
Inductive client (U : Type) :=
  | Return (keep_parsing : bool) (user_data : U)
  | GetName (k : list Z -> client U)
  | GetAttribute (attribute_index : Z) (k : result (list Z * list Z) -> client U)
  | AsBody (k : op_result -> list Z -> client U)
  | Traverse (on_node_encountered : U -> client U) (user_data : U) (k : op_result -> U -> client U)
  | TraverseNull (user_data : U) (k : op_result -> U -> client U).
Arguments Return {U}.
Arguments GetName {U}.
Arguments GetAttribute {U}.
Arguments AsBody {U}.
Arguments Traverse {U}.
Arguments TraverseNull {U}.

Definition callback (U : Type) : Type := U -> client U.

Section parser.
Context {U : Type}.

(** [slots]: the array behind the attributes of the node that was read last. *)
Record aws_xml_parser := mk_parser {
  doc : aws_byte_cursor;
  callback_stack : list (callback U);
  slots : list aws_xml_attribute;
  max_depth : Z;
  error : op_result;
  stop_parsing : bool
}.

Definition set_doc (p : aws_xml_parser) (d : aws_byte_cursor) : aws_xml_parser := mk_parser d (callback_stack p) (slots p) (max_depth p) (error p) (stop_parsing p).
Definition set_stack (p : aws_xml_parser) (s : list (callback U)) : aws_xml_parser := mk_parser (doc p) s (slots p) (max_depth p) (error p) (stop_parsing p).
Definition set_slots (p : aws_xml_parser) (l : list aws_xml_attribute) : aws_xml_parser := mk_parser (doc p) (callback_stack p) l (max_depth p) (error p) (stop_parsing p).
Definition set_error (p : aws_xml_parser) (e : op_result) : aws_xml_parser := mk_parser (doc p) (callback_stack p) (slots p) (max_depth p) e (stop_parsing p).
Definition set_stop (p : aws_xml_parser) (b : bool) : aws_xml_parser := mk_parser (doc p) (callback_stack p) (slots p) (max_depth p) (error p) b.
Definition set_processed (n : aws_xml_node) : aws_xml_node := mk_node (name n) (attributes n) (doc_at_body n) true.

Definition aws_xml_parser_new (options_doc : aws_byte_cursor) (options_max_depth : Z) : aws_xml_parser :=
  mk_parser options_doc [] (replicate 10 zero_attribute)
    (if negb (options_max_depth =? 0) then options_max_depth else s_max_document_depth) AWS_OP_SUCCESS false.

Definition malformed : op_result := aws_raise_error AWS_ERROR_MALFORMED_INPUT_STRING.

(** [aws_byte_cursor_advance] without its result. *)
Definition advance (d : aws_byte_cursor) (n : Z) : aws_byte_cursor := snd (aws_byte_cursor_advance d n).

(** ** The declaration of a node *)

Definition s_double_quote_fn (value : Z) : bool := value =? 34.

(** Appending to a static array list of [n] cursors. *)
Definition push_static (n : nat) (l : list aws_byte_cursor) (x : aws_byte_cursor) : op_result * list aws_byte_cursor :=
  if (length l <? n)%nat then (AWS_OP_SUCCESS, l ++ [x]) else (aws_raise_error AWS_ERROR_LIST_EXCEEDS_MAX_SIZE, l).

#[program] Definition static_list (n : nat) : PushBack (list aws_byte_cursor) aws_byte_cursor :=
  {| push_back := push_static n; items := fun l => l |}.
Next Obligation. intros n l x l' H. unfold push_static in H. destruct (length l <? n)%nat; now inversion H. Qed.
Next Obligation. intros n l x e l' H. unfold push_static in H. destruct (length l <? n)%nat; now inversion H. Qed.

Definition split_into (n : nat) (c : aws_byte_cursor) (split_on : Z) : M (op_result * list aws_byte_cursor) :=
  @aws_byte_cursor_split_on_char _ (static_list n) c split_on [].

(** One pair of name and value; pairs with several [=] are skipped. *)
Definition load_attribute (l : list aws_xml_attribute) (n : Z) (attribute_pair : aws_byte_cursor) : M (list aws_xml_attribute * Z) :=
  '(rv, att_val_pair) ← split_into 2 attribute_pair 61;
  match rv with
  | AWS_OP_SUCCESS =>
      value ← aws_byte_cursor_trim_pred (nth 1 att_val_pair zero_cursor) s_double_quote_fn;
      mret (<[Z.to_nat n := mk_attribute (nth 0 att_val_pair zero_cursor) value]> l, n + 1)
  | AWS_OP_ERR _ => mret (l, n)
  end.

Fixpoint load_attributes (l : list aws_xml_attribute) (n : Z) (splits : list aws_byte_cursor) : M (list aws_xml_attribute * Z) :=
  match splits with
  | [] => mret (l, n)
  | attribute_pair :: splits => '(l, n) ← load_attribute l n attribute_pair; load_attributes l n splits
  end.

(** The node is returned when the declaration is one. *)
Definition s_load_node_decl (p : aws_xml_parser) (decl_body doc_at_body : aws_byte_cursor)
    : M (result aws_xml_node * aws_xml_parser) :=
  '(rv, splits) ← split_into 11 decl_body 32;
  match rv, splits with
  | AWS_OP_SUCCESS, node_name :: pairs =>
      '(l, n) ← load_attributes (replicate 10 zero_attribute) 0 pairs;
      mret (Ok (mk_node node_name n doc_at_body false), set_slots p l)
  | _, _ => mret (Err AWS_ERROR_MALFORMED_INPUT_STRING, p)
  end.

(** ** The end of a node *)

(** Openings of the same name before the closing tag at [close]: the rest of the
    document behind that tag, and the depth there. *)
Fixpoint skip_opens (fuel : nat) (d to_find_open close : aws_byte_cursor) (closing_len depth_count : Z) : M (aws_byte_cursor * Z) :=
  if cur_len d =? 0 then mret (d, depth_count)
  else
    match fuel with
    | O => fault
    | S fuel =>
        r ← aws_byte_cursor_find_exact d to_find_open;
        open ← (match r with
                | Ok open => before ← ptr_diff (cur_ptr open) (cur_ptr close); mret (if before <? 0 then Some open else None)
                | Err _ => mret None
                end);
        match open with
        | Some open =>
            skip_len ← ptr_diff (cur_ptr open) (cur_ptr d);
            skip_opens fuel (advance d (u64 (skip_len + 1))) to_find_open close closing_len (u64 (depth_count + 1))
        | None =>
            skip_len ← ptr_diff (cur_ptr close) (cur_ptr d);
            mret (advance d (u64 (skip_len + closing_len)), u64 (depth_count - 1))
        end
    end.

(** The last closing tag, and the rest of the document. *)
Fixpoint find_close (fuel : nat) (d to_find_open to_find_close : aws_byte_cursor) (depth_count : Z) : M (option aws_byte_cursor * aws_byte_cursor) :=
  match fuel with
  | O => fault
  | S fuel =>
      r ← aws_byte_cursor_find_exact d to_find_close;
      match r with
      | Err _ => mret (None, d)
      | Ok close =>
          '(d, depth_count) ← skip_opens (Z.to_nat (cur_len d)) d to_find_open close (cur_len to_find_close) depth_count;
          if 0 <? depth_count then find_close fuel d to_find_open to_find_close depth_count else mret (Some close, d)
      end
  end.

Definition local_cursor (l : list Z) : aws_byte_cursor := mk_cursor (zlength l) (Static l 0).

(** The body is returned when the closing tag is found, also when the parser
    has an error. *)
Definition s_advance_to_closing_tag (p : aws_xml_parser) (node : aws_xml_node) : M (op_result * option aws_byte_cursor * aws_xml_parser) :=
  let closing_name_len := u64 (cur_len (name node) + NODE_CLOSE_OVERHEAD) in
  if cur_len (doc_at_body node) <? closing_name_len then mret (malformed, None, set_error p malformed)
  else if MAX_NAME_LEN + NODE_CLOSE_OVERHEAD <? closing_name_len then mret (malformed, None, set_error p malformed)
  else
    node_name ← load (cur_ptr (name node)) (cur_len (name node));
    '(close, d) ← find_close (S (Z.to_nat (cur_len (doc p)))) (doc p) (local_cursor (60 :: node_name)) (local_cursor (60 :: 47 :: node_name ++ [62])) 1;
    match close with
    | None => mret (malformed, None, set_doc p d)
    | Some close =>
        len ← ptr_diff (cur_ptr close) (cur_ptr (doc_at_body node));
        mret (error p, Some (mk_cursor (u64 len) (cur_ptr (doc_at_body node))), set_doc p d)
    end.

Definition aws_xml_node_as_body (p : aws_xml_parser) (node : aws_xml_node) : M (op_result * option aws_byte_cursor * aws_xml_node * aws_xml_parser) :=
  '(rv, body, p) ← s_advance_to_closing_tag p node;
  mret (rv, body, set_processed node, p).

Definition aws_xml_node_get_name (node : aws_xml_node) : aws_byte_cursor := name node.

Definition aws_xml_node_get_num_attributes (node : aws_xml_node) : Z := attributes node.

Definition aws_xml_node_get_attribute (p : aws_xml_parser) (node : aws_xml_node) (attribute_index : Z) : result aws_xml_attribute :=
  if attribute_index <? attributes node then Ok (nth (Z.to_nat attribute_index) (slots p) zero_attribute) else Err AWS_ERROR_INVALID_INDEX.

(** ** The nodes inside a node *)

(** What a callback leaves: whether it goes on, its state, the node, the parser. *)
Definition visit : Type := U -> aws_xml_node -> aws_xml_parser -> M (bool * U * aws_xml_node * aws_xml_parser).

(** The loop; [Some rv] is a return from within it. *)
Fixpoint traverse_loop (fuel : nat) (on_node : visit) (u : U) (p : aws_xml_parser) : M (option op_result * U * aws_xml_parser) :=
  if stop_parsing p || negb (bool_decide (error p = AWS_OP_SUCCESS)) then mret (None, u, p)
  else
    match fuel with
    | O => fault
    | S fuel =>
        next_location ← memchr (cur_ptr (doc p)) 60 (cur_len (doc p));
        if is_NULL next_location then mret (Some malformed, u, p)
        else
          end_location ← memchr (cur_ptr (doc p)) 62 (cur_len (doc p));
          if is_NULL end_location then mret (Some malformed, u, p)
          else
            c ← load_u8 (ptr_add next_location 1);
            node_name_len ← ptr_diff end_location next_location;
            skip ← ptr_diff end_location (cur_ptr (doc p));
            let p := set_doc p (advance (doc p) (u64 (skip + 1))) in
            if c =? 47 then mret (None, u, p)
            else
              '(r, p) ← s_load_node_decl p (mk_cursor (u64 (u64 node_name_len - 1)) (ptr_add next_location 1)) (doc p);
              match r with
              | Err e => mret (Some (AWS_OP_ERR e), u, p)
              | Ok next_node =>
                  '(keep_parsing, u, next_node, p) ← on_node u next_node p;
                  if negb keep_parsing then let p := set_stop p true in mret (Some (error p), u, p)
                  else if negb (stop_parsing p) && negb (processed next_node) then
                    '(rv, _, p) ← s_advance_to_closing_tag p next_node;
                    match rv with
                    | AWS_OP_ERR e => mret (Some (AWS_OP_ERR e), u, p)
                    | AWS_OP_SUCCESS => traverse_loop fuel on_node u p
                    end
                  else traverse_loop fuel on_node u p
              end
    end.

(** A callback, with what running it does; [None] is NULL. *)
Definition aws_xml_node_traverse (on_node_encountered : option (callback U * visit)) (u : U) (node : aws_xml_node) (p : aws_xml_parser)
    : M (op_result * U * aws_xml_node * aws_xml_parser) :=
  match on_node_encountered with
  | None => mret (aws_raise_error AWS_ERROR_INVALID_ARGUMENT, u, node, p)
  | Some (cb, on_node) =>
  let node := set_processed node in
  if max_depth p <=? zlength (callback_stack p) then mret (malformed, u, node, set_error p malformed)
  else
    let p := set_stack p (callback_stack p ++ [cb]) in
    '(r, u, p) ← traverse_loop (S (Z.to_nat (cur_len (doc p)))) on_node u p;
    match r with
    | Some rv => mret (rv, u, node, p)
    | None =>
        if stop_parsing p then mret (error p, u, node, p)
        else let p := set_stack p (removelast (callback_stack p)) in mret (error p, u, node, p)
    end
  end.

(** A callback at work on [node]. *)
Fixpoint run (c : client U) (node : aws_xml_node) (p : aws_xml_parser) {struct c} : M (bool * U * aws_xml_node * aws_xml_parser) :=
  match c with
  | Return keep_parsing u => mret (keep_parsing, u, node, p)
  | GetName k =>
      node_name ← load (cur_ptr (aws_xml_node_get_name node)) (cur_len (aws_xml_node_get_name node));
      run (k node_name) node p
  | GetAttribute i k =>
      match aws_xml_node_get_attribute p node i with
      | Err e => run (k (Err e)) node p
      | Ok a =>
          n ← load (cur_ptr (attribute_name a)) (cur_len (attribute_name a));
          v ← load (cur_ptr (attribute_value a)) (cur_len (attribute_value a));
          run (k (Ok (n, v))) node p
      end
  | AsBody k =>
      '(rv, body, node, p) ← aws_xml_node_as_body p node;
      text ← (match body with Some b => load (cur_ptr b) (cur_len b) | None => mret [] end);
      run (k rv text) node p
  | Traverse cb u k =>
      '(rv, u, node, p) ← aws_xml_node_traverse (Some (cb, fun u node p => run (cb u) node p)) u node p;
      run (k rv u) node p
  | TraverseNull u k =>
      '(rv, u, node, p) ← aws_xml_node_traverse None u node p;
      run (k rv u) node p
  end.

(** ** A document *)

Definition s_node_next_sibling (p : aws_xml_parser) (u : U) : M (op_result * U * aws_xml_parser) :=
  next_location ← memchr (cur_ptr (doc p)) 60 (cur_len (doc p));
  if is_NULL next_location then mret (error p, u, p)
  else
    skip ← ptr_diff next_location (cur_ptr (doc p));
    let p := set_doc p (advance (doc p) (u64 skip)) in
    end_location ← memchr (cur_ptr (doc p)) 62 (cur_len (doc p));
    if is_NULL end_location then mret (malformed, u, p)
    else
      node_name_len ← ptr_diff end_location next_location;
      skip ← ptr_diff end_location (cur_ptr (doc p));
      let p := set_doc p (advance (doc p) (u64 (skip + 1))) in
      '(r, p) ← s_load_node_decl p (mk_cursor (u64 (u64 node_name_len - 1)) (ptr_add next_location 1)) (doc p);
      match r with
      | Err e => mret (AWS_OP_ERR e, u, p)
      | Ok sibling_node =>
          match last (callback_stack p) with
          | None => abort
          | Some cb =>
              '(keep_parsing, u, sibling_node, p) ← run (cb u) sibling_node p;
              let p := set_stop p (negb keep_parsing) in
              if negb (processed sibling_node) then
                '(rv, _, p) ← s_advance_to_closing_tag p sibling_node;
                match rv with AWS_OP_ERR e => mret (AWS_OP_ERR e, u, p) | AWS_OP_SUCCESS => mret (error p, u, p) end
              else mret (error p, u, p)
          end
      end.

(** What precedes the document: [false] when it is malformed. *)
Fixpoint skip_preamble (fuel : nat) (d : aws_byte_cursor) : M (bool * aws_byte_cursor) :=
  if cur_len d =? 0 then mret (true, d)
  else
    match fuel with
    | O => fault
    | S fuel =>
        start ← memchr (cur_ptr d) 60 (cur_len d);
        if is_NULL start then mret (false, d)
        else
          location ← memchr (cur_ptr d) 62 (cur_len d);
          if is_NULL location then mret (false, d)
          else
            skip ← ptr_diff start (cur_ptr d);
            let d := advance d (u64 skip) in
            c ← load_u8 (ptr_add (cur_ptr d) 1);
            if (c =? 63) || (c =? 33) then
              n ← ptr_diff location (cur_ptr d);
              skip_preamble fuel (advance d (u64 (n + 1)))
            else mret (true, d)
    end.

Definition aws_xml_parser_parse (p : aws_xml_parser) (on_node_encountered : option (callback U)) (u : U) : M (op_result * U * aws_xml_parser) :=
  match on_node_encountered with
  | None => mret (aws_raise_error AWS_ERROR_INVALID_ARGUMENT, u, p)
  | Some cb =>
      let p := set_stack p [] in
      '(ok, d) ← skip_preamble (S (Z.to_nat (cur_len (doc p)))) (doc p);
      let p := set_doc p d in
      if negb ok then mret (malformed, u, p)
      else s_node_next_sibling (set_stack p (callback_stack p ++ [cb])) u
  end.
End parser.

End Xml.
