(* ===== verification/XmlSpec.v ===== *)
(** * The XML parser: finding the end of a node *)

From S2P Require Import Prelude Math Memory ByteBuf ByteBufSpec ByteCursorSpec ByteCursorText Xml.
Import ByteBuf Xml.

Local Open Scope Z_scope.

(** ** The matching closing tag, by one scan from left to right *)

Definition starts (t l : list Z) : bool := bool_decide (take (length t) l = t).

(** Where the closing tag is that brings the depth to 0: after a closing tag the
    scan goes on behind it, after an opening at the next byte. *)
Fixpoint scan (op cl : list Z) (skip : nat) (depth off : Z) (l : list Z) : option Z :=
  match l with
  | [] => None
  | _ :: l' =>
      match skip with
      | S skip => scan op cl skip depth (off + 1) l'
      | O =>
          if starts cl l then if depth =? 1 then Some off else scan op cl (length cl - 1) (depth - 1) (off + 1) l'
          else if starts op l then scan op cl 0 (depth + 1) (off + 1) l'
          else scan op cl 0 depth (off + 1) l'
      end
  end.

Lemma scan_drop op cl k : forall d off l, scan op cl k d off l = scan op cl 0 d (off + Z.of_nat k) (drop k l).
Proof.
  induction k as [| k IH]; intros d off l; [now rewrite Z.add_0_r |]. destruct l as [| x l]; [reflexivity |].
  cbn [scan drop]. rewrite IH. f_equal. lia.
Qed.

(** The scan ends at a closing tag. *)
Lemma scan_result op cl k d off l c : scan op cl k d off l = Some c -> exists i, c = off + Z.of_nat i /\ starts cl (drop i l) = true.
Proof.
  revert k d off. induction l as [| x l IH]; intros k d off E; [discriminate |]. cbn [scan] in E.
  assert (forall k d, scan op cl k d (off + 1) l = Some c -> exists i, c = off + Z.of_nat i /\ starts cl (drop i (x :: l)) = true) as Hnext.
  { intros k' d' E'. destruct (IH _ _ _ E') as (i & Hi & Hs). exists (S i). split; [lia | exact Hs]. }
  destruct k as [| k]; [| now apply Hnext in E]. destruct (starts cl (x :: l)) eqn:Ecl; [destruct (d =? 1) |].
  - injection E as <-. exists 0%nat. split; [lia | exact Ecl].
  - now apply Hnext in E.
  - destruct (starts op (x :: l)); now apply Hnext in E.
Qed.

Lemma starts_spec t l : starts t l = true <-> exists l', l = t ++ l'.
Proof.
  unfold starts. rewrite bool_decide_eq_true. split.
  - intros H. exists (drop (length t) l). rewrite <- H at 1. now rewrite take_drop.
  - intros [l' ->]. apply take_app_length.
Qed.

Lemma scan_plain op cl n : forall d off l, (n <= length l)%nat ->
  (forall i, (i < n)%nat -> starts cl (drop i l) = false /\ starts op (drop i l) = false) ->
  scan op cl 0 d off l = scan op cl 0 d (off + Z.of_nat n) (drop n l).
Proof.
  induction n as [| n IH]; intros d off l Hn H; [now rewrite Z.add_0_r |]. destruct l as [| x l]; [cbn in Hn; lia |].
  destruct (H 0%nat ltac:(lia)) as [H1 H2]. cbn [drop] in H1, H2. cbn [scan drop]. rewrite H1, H2. rewrite IH; [f_equal; lia | cbn in Hn; lia |].
  intros i Hi. apply (H (S i)). lia.
Qed.

Lemma occurs_starts t l i : 0 <= i -> (0 < length t)%nat -> occurs t l i <-> starts t (drop (Z.to_nat i) l) = true.
Proof.
  intros Hi Ht. rewrite starts_spec. unfold occurs. split.
  - intros H. pose proof (slice_inv _ _ _ _ H) as (H1 & H2 & H3 & _). rewrite slice_Some in H by assumption. injection H as H.
    exists (drop (length t) (drop (Z.to_nat i) l)). rewrite <- H at 1. unfold zlength. rewrite Nat2Z.id. now rewrite take_drop.
  - intros [l' E]. assert (length (drop (Z.to_nat i) l) = length (t ++ l')) as El by now rewrite E. rewrite length_drop, length_app in El.
    rewrite slice_Some by (unfold zlength; lia). unfold zlength. rewrite Nat2Z.id, E. f_equal. apply take_app_length.
Qed.

(** ** The document *)

Section document.
Context (m : mem) (base : ptr) (text : list Z).
Let L := zlength text.
Hypothesis Htext : bytes_at m base L = Some text.
Hypothesis Hlen : L <= SIZE_MAX / 2.
Hypothesis Hbase : is_NULL base = false.

(** What is left of the document from the offset [o] on. *)
Definition cur_at (o : Z) : aws_byte_cursor := mk_cursor (zlength text - o) (ptr_add base o).
Definition rest_at (o : Z) : list Z := drop (Z.to_nat o) text.

Lemma text_bounds : 0 <= L < 2 ^ 63.
Proof. pose proof (zlength_nonneg text). change (SIZE_MAX / 2) with (2 ^ 63 - 1) in Hlen. unfold L in *. lia. Qed.

Lemma cur_at_ok o : 0 <= o <= L -> cursor_ok m (cur_at o) (rest_at o).
Proof.
  intros Ho. pose proof text_bounds. constructor; cbn [cur_at cur_ptr cur_len]; [| unfold SIZE_MAX; fold L; lia].
  fold L. now apply bytes_at_drop.
Qed.

Lemma rest_length o : 0 <= o <= L -> Z.of_nat (length (rest_at o)) = L - o.
Proof. intros Ho. unfold rest_at. rewrite length_drop. unfold L, zlength in *. lia. Qed.

Lemma rest_drop o n : 0 <= o -> 0 <= n -> drop (Z.to_nat n) (rest_at o) = rest_at (o + n).
Proof. intros Ho Hn. unfold rest_at. rewrite drop_drop. f_equal. lia. Qed.

Lemma advance_at o n : 0 <= o -> 0 <= n -> o + n <= L -> advance (cur_at o) n = cur_at (o + n).
Proof.
  intros Ho Hn Hon. pose proof text_bounds. unfold advance, cur_at. rewrite advance_spec; cbn [cur_len cur_ptr snd]; fold L; [| lia | lia].
  rewrite ptr_add_add. f_equal. lia.
Qed.

Lemma diff_at a b : ptr_diff (cur_ptr (cur_at a)) (cur_ptr (cur_at b)) m = Ret (a - b) m.
Proof. apply ptr_diff_add. exact Hbase. Qed.

Lemma find_at o t : 0 <= o <= L -> (0 < length t)%nat -> zlength t <= SIZE_MAX ->
  exists r, aws_byte_cursor_find_exact (cur_at o) (local_cursor t) m = Ret r m
    /\ match r with
       | Ok cur => exists i, o <= i /\ i + zlength t <= L /\ cur = cur_at i /\ starts t (rest_at i) = true /\ forall j, o <= j < i -> starts t (rest_at j) = false
       | Err _ => forall j, o <= j <= L -> starts t (rest_at j) = false
       end.
Proof.
  intros Ho Ht Hmax. pose proof text_bounds as HL. assert (cursor_ok m (local_cursor t) t) as Hc.
  { constructor; [| exact Hmax]. cbn. unfold bytes_at, zlength. destruct (Z.eqb_spec (Z.of_nat (length t)) 0); [lia |].
    rewrite slice_Some by (unfold zlength; lia). rewrite drop_0, Nat2Z.id, firstn_all. reflexivity. }
  destruct (find_exact_correct m (cur_at o) (local_cursor t) (rest_at o) t (cur_at_ok o Ho) Hc) as (r & E & Hr); [cbn; fold L; lia |].
  exists r. split; [exact E |].
  assert (forall j, o <= j <= L -> ~ occurs t (rest_at o) (j - o) -> starts t (rest_at j) = false) as Hno.
  { intros j Hj Hn. apply not_true_is_false. intros Hs. apply Hn. apply occurs_starts; [lia | exact Ht |]. rewrite rest_drop by lia. now replace (o + (j - o)) with j by lia. }
  destruct r as [cur | e].
  - destruct Hr as (_ & i & Hi & Hfirst & ->). pose proof (slice_inv _ _ _ _ Hi) as (Hi0 & _ & Hi2 & _).
    assert (zlength (rest_at o) = L - o) as Hz by (unfold zlength; now apply rest_length). exists (o + i). split; [lia |]. split; [lia |]. split.
    { unfold cur_at. cbn [cur_len cur_ptr]. rewrite ptr_add_add. f_equal. lia. }
    split; [apply occurs_starts in Hi; [now rewrite rest_drop in Hi by lia | lia | exact Ht] |].
    intros j Hj. pose proof (zlength_nonneg t). apply Hno; [lia |]. apply Hfirst. lia.
  - intros j Hj. apply Hno; [exact Hj |]. destruct Hr as [(-> & _) | (_ & _ & Hr)]; [cbn in Ht; lia | apply Hr].
Qed.

(** ** The loops *)

Context (op cl : list Z).
Hypothesis Hop : (0 < length op)%nat /\ zlength op <= SIZE_MAX.
Hypothesis Hcl : (0 < length cl)%nat /\ zlength cl <= SIZE_MAX.

Lemma scan_to d o i : 0 <= o -> o <= i <= L ->
  (forall j, o <= j < i -> starts cl (rest_at j) = false /\ starts op (rest_at j) = false) ->
  scan op cl 0 d o (rest_at o) = scan op cl 0 d i (rest_at i).
Proof.
  intros Ho Hi H. pose proof (rest_length o ltac:(lia)) as Hl. rewrite (scan_plain op cl (Z.to_nat (i - o))); [| lia |].
  - rewrite rest_drop by lia. f_equal; [lia |]. f_equal. lia.
  - intros k Hk. specialize (H (o + Z.of_nat k) ltac:(lia)). rewrite <- rest_drop, Nat2Z.id in H by lia. exact H.
Qed.

Lemma rest_step o : 0 <= o < L -> exists x, rest_at o = x :: rest_at (o + 1).
Proof.
  intros Ho. unfold rest_at. destruct (lookup_lt_is_Some_2 text (Z.to_nat o)) as [x Hx]; [unfold L, zlength in Ho; lia |].
  exists x. rewrite (drop_S _ _ _ Hx). f_equal. f_equal. lia.
Qed.

Lemma scan_open d o : 0 <= o < L -> starts cl (rest_at o) = false -> starts op (rest_at o) = true ->
  scan op cl 0 d o (rest_at o) = scan op cl 0 (d + 1) (o + 1) (rest_at (o + 1)).
Proof. intros Ho H1 H2. destruct (rest_step o Ho) as [x E]. rewrite E in *. cbn [scan]. now rewrite H1, H2. Qed.

Lemma scan_close d c : 0 <= c -> c + zlength cl <= L -> starts cl (rest_at c) = true ->
  scan op cl 0 d c (rest_at c) = if d =? 1 then Some c else scan op cl 0 (d - 1) (c + zlength cl) (rest_at (c + zlength cl)).
Proof.
  intros Hc Hn H. assert (0 < zlength cl) by (unfold zlength; lia). destruct (rest_step c ltac:(lia)) as [x E]. rewrite E in *. cbn [scan]. rewrite H.
  destruct (d =? 1); [reflexivity |]. rewrite scan_drop. replace (length cl - 1)%nat with (Z.to_nat (zlength cl - 1)) by (unfold zlength; lia).
  rewrite rest_drop by lia. f_equal; [lia |]. f_equal. lia.
Qed.

Lemma skip_opens_ok c fuel : c + zlength cl <= L -> starts cl (rest_at c) = true -> forall o d,
  0 <= o <= c -> (forall j, o <= j < c -> starts cl (rest_at j) = false) -> 1 <= d -> d + (L - o) < 2 ^ 64 -> c - o < Z.of_nat fuel ->
  exists d', skip_opens fuel (cur_at o) (local_cursor op) (cur_at c) (zlength cl) d m = Ret (cur_at (c + zlength cl), d' - 1) m
    /\ d <= d' /\ d' + (L - c) < 2 ^ 64
    /\ scan op cl 0 d o (rest_at o) = if d' =? 1 then Some c else scan op cl 0 (d' - 1) (c + zlength cl) (rest_at (c + zlength cl)).
Proof.
  intros HcL Hc. pose proof text_bounds as HL. assert (0 < zlength cl) as Hcl0 by (unfold zlength; lia).
  induction fuel as [| fuel IH]; intros o d Ho Hno Hd Hmax Hf; [lia |]. cbn [skip_opens].
  destruct (Z.eqb_spec (cur_len (cur_at o)) 0) as [E | _]; [cbn in E; fold L in E; lia |].
  destruct (find_at o op ltac:(lia) (proj1 Hop) (proj2 Hop)) as (r & Er & Hr). run Er.
  assert ((exists i, r = Ok (cur_at i) /\ o <= i < c /\ starts op (rest_at i) = true /\ forall j, o <= j < i -> starts op (rest_at j) = false)
          \/ ((forall j, o <= j < c -> starts op (rest_at j) = false) /\ match r with Ok cur => exists i, cur = cur_at i /\ c <= i | Err _ => True end)) as [(i & -> & Hi & Hs & Hfirst) | [Hnone Hr']].
  { destruct r as [cur | e]; [| right; split; [| exact I]; intros j Hj; apply Hr; lia].
    destruct Hr as (i & Hi1 & Hi2 & -> & Hs & Hfirst). destruct (Z.lt_ge_cases i c) as [Hlt | Hge]; [left; eexists; repeat split; eauto; lia |].
    right. split; [intros j Hj; apply Hfirst; lia |]. now exists i. }
  - rewrite bind_assoc_step. run (diff_at i c). rewrite (proj2 (Z.ltb_lt (i - c) 0)) by lia. unfold mbind at 1, M_bind at 1, mret at 1, M_ret at 1.
    run (diff_at i o). rewrite (u64_small (i - o + 1)), (u64_small (d + 1)) by (unfold is_u64; lia). rewrite advance_at by lia.
    replace (o + (i - o + 1)) with (i + 1) by ring.
    destruct (IH (i + 1) (d + 1)) as (d' & E & H1 & H2 & H3); try lia; [intros j Hj; apply Hno; lia |].
    exists d'. split; [exact E |]. split; [lia |]. split; [exact H2 |]. rewrite <- H3, <- scan_open by (lia || assumption || apply Hno; lia).
    apply scan_to; [lia | lia |]. intros j Hj. split; [apply Hno; lia | apply Hfirst; lia].
  - assert (forall (K : option aws_byte_cursor -> M (aws_byte_cursor * Z)),
      ((match r with
        | Ok open => before ← ptr_diff (cur_ptr open) (cur_ptr (cur_at c)); mret (if before <? 0 then Some open else None)
        | Err _ => mret None
        end) ≫= K) m = K None m) as Hstep.
    { intros K. destruct r as [cur | e]; [| reflexivity]. destruct Hr' as (i & -> & Hi). rewrite bind_assoc_step. run (diff_at i c).
      rewrite (proj2 (Z.ltb_ge (i - c) 0)) by lia. reflexivity. }
    rewrite Hstep. run (diff_at c o). unfold mret, M_ret. rewrite (u64_small (c - o + zlength cl)), (u64_small (d - 1)) by (unfold is_u64; lia).
    rewrite advance_at by lia. replace (o + (c - o + zlength cl)) with (c + zlength cl) by ring. exists d. split; [reflexivity |]. split; [lia |]. split; [lia |].
    rewrite <- scan_close by (lia || assumption). apply scan_to; [lia | lia |]. intros j Hj. split; [now apply Hno | now apply Hnone].
Qed.

Lemma scan_none d o : 0 <= o <= L -> (forall j, o <= j <= L -> starts cl (rest_at j) = false) -> scan op cl 0 d o (rest_at o) = None.
Proof.
  intros Ho H. pose proof (rest_length o Ho) as Hl. remember (rest_at o) as l eqn:El. revert o d Ho H Hl El. induction l as [| x l IH]; intros o d Ho H Hl El; [reflexivity |].
  cbn [length] in Hl. destruct (rest_step o ltac:(lia)) as [y E]. rewrite <- El in E. injection E as -> E. cbn [scan].
  rewrite El. rewrite (H o) by lia. rewrite !(IH (o + 1)) by (assumption || lia || intros j Hj; apply H; lia). now destruct (starts op _).
Qed.

Lemma find_close_ok fuel : forall o d, 0 <= o <= L -> 1 <= d -> d + (L - o) < 2 ^ 64 -> L - o < Z.of_nat fuel ->
  match scan op cl 0 d o (rest_at o) with
  | Some c => o <= c /\ c + zlength cl <= L /\ find_close fuel (cur_at o) (local_cursor op) (local_cursor cl) d m = Ret (Some (cur_at c), cur_at (c + zlength cl)) m
  | None => exists o', o <= o' <= L /\ find_close fuel (cur_at o) (local_cursor op) (local_cursor cl) d m = Ret (None, cur_at o') m
  end.
Proof.
  pose proof text_bounds as HL. assert (0 < zlength cl) as Hcl0 by (unfold zlength; lia).
  induction fuel as [| fuel IH]; intros o d Ho Hd Hmax Hf; [lia |]. cbn [find_close].
  destruct (find_at o cl Ho (proj1 Hcl) (proj2 Hcl)) as (r & Er & Hr). rewrite (run_bind _ _ _ _ _ Er). destruct r as [cur | e].
  2: { rewrite scan_none by (lia || exact Hr). exists o. split; [lia | reflexivity]. }
  destruct Hr as (c & Hc1 & Hc2 & -> & Hs & Hfirst). change (cur_len (local_cursor cl)) with (zlength cl).
  destruct (skip_opens_ok c (Z.to_nat (cur_len (cur_at o))) Hc2 Hs o d ltac:(lia) Hfirst Hd Hmax) as (d' & E & Hd1 & Hd2 & ->).
  { cbn. fold L. lia. }
  rewrite (run_bind _ _ _ _ _ E). destruct (Z.eqb_spec d' 1) as [-> | Hne].
  - change (0 <? 1 - 1) with false. split; [lia |]. split; [lia | reflexivity].
  - rewrite (proj2 (Z.ltb_lt 0 (d' - 1))) by lia. specialize (IH (c + zlength cl) (d' - 1) ltac:(lia) ltac:(lia) ltac:(lia) ltac:(lia)).
    destruct (scan op cl 0 (d' - 1) (c + zlength cl) (rest_at (c + zlength cl))) as [c' |].
    + destruct IH as (H1 & H2 & H3). split; [lia |]. now split.
    + destruct IH as (o' & H1 & H2). exists o'. split; [lia | exact H2].
Qed.
End document.

(** ** The end of a node *)

Definition open_tag (n : list Z) : list Z := 60 :: n.
Definition close_tag (n : list Z) : list Z := 60 :: 47 :: n ++ [62].

Lemma close_tag_length n : zlength (close_tag n) = zlength n + 3.
Proof. unfold close_tag. rewrite !zlength_cons, zlength_app. change (zlength [62]) with 1. lia. Qed.

(** What is between two offsets. *)
Definition segment (text : list Z) (a b : Z) : list Z := take (Z.to_nat (b - a)) (drop (Z.to_nat a) text).

Lemma advance_to_closing_tag_run {U} m base text (p : @aws_xml_parser U) node n b o :
  bytes_at m base (zlength text) = Some text -> zlength text <= SIZE_MAX / 2 -> is_NULL base = false ->
  cursor_ok m (name node) n -> doc_at_body node = cur_at base text b -> doc p = cur_at base text o -> 0 <= b <= o -> o <= zlength text -> zlength n <= zlength text ->
  if (zlength text - b <? zlength n + 3) || (MAX_NAME_LEN <? zlength n)
  then s_advance_to_closing_tag p node m = Ret (malformed, None, set_error p malformed) m
  else match scan (open_tag n) (close_tag n) 0 1 o (rest_at text o) with
       | None => exists o', o <= o' <= zlength text /\ s_advance_to_closing_tag p node m = Ret (malformed, None, set_doc p (cur_at base text o')) m
       | Some c => o <= c /\ c + zlength n + 3 <= zlength text /\ cursor_ok m (mk_cursor (c - b) (ptr_add base b)) (segment text b c)
           /\ s_advance_to_closing_tag p node m
              = Ret (error p, Some (mk_cursor (c - b) (ptr_add base b)), set_doc p (cur_at base text (c + zlength n + 3))) m
       end.
Proof.
  intros Ht Hl Hb Hn Hbody Hdoc Hbo Ho Hnt. pose proof (text_bounds text Hl) as HL. pose proof (cursor_len _ _ _ Hn) as [Hn1 Hn2]. pose proof (zlength_nonneg n).
  unfold s_advance_to_closing_tag. rewrite Hbody, Hdoc, <- Hn2. change (cur_len (cur_at base text b)) with (zlength text - b).
  rewrite (u64_small (zlength n + NODE_CLOSE_OVERHEAD)) by (unfold is_u64, NODE_CLOSE_OVERHEAD; lia). unfold NODE_CLOSE_OVERHEAD.
  destruct (Z.ltb_spec (zlength text - b) (zlength n + 3)) as [H1 | H1]; [reflexivity |]. cbn [orb].
  destruct (Z.ltb_spec MAX_NAME_LEN (zlength n)) as [H2 | H2]; [now rewrite (proj2 (Z.ltb_lt _ _)) by lia |].
  rewrite (proj2 (Z.ltb_ge (MAX_NAME_LEN + 3) _)) by lia. unfold MAX_NAME_LEN in H2.
  pose proof (load_ok _ _ _ _ (co_data _ _ _ Hn)) as Hload. rewrite <- Hn2 in Hload. run Hload. fold (open_tag n). fold (close_tag n).
  pose proof (close_tag_length n) as Hcl.
  pose proof (find_close_ok m base text Ht Hl Hb (open_tag n) (close_tag n)) as Hfind.
  specialize (Hfind ltac:(unfold open_tag, SIZE_MAX; rewrite zlength_cons; cbn; lia) ltac:(unfold SIZE_MAX; rewrite Hcl; cbn; lia)
    (S (Z.to_nat (cur_len (cur_at base text o)))) o 1 ltac:(lia) ltac:(lia) ltac:(lia) ltac:(cbn; lia)).
  destruct (scan (open_tag n) (close_tag n) 0 1 o (rest_at text o)) as [c |].
  - destruct Hfind as (Hc1 & Hc2 & E). rewrite Hcl in *. split; [lia |]. split; [lia |]. split.
    { constructor; cbn [cur_len cur_ptr]; [| unfold SIZE_MAX; lia]. unfold segment.
      rewrite (bytes_at_sub m base (zlength text) text b (c - b) Ht) by lia. now rewrite slice_Some by lia. }
    run E. run (diff_at m base text Hb c b). rewrite u64_small by (unfold is_u64; lia). unfold mret, M_ret.
    change (cur_ptr (cur_at base text b)) with (ptr_add base b). now rewrite Z.add_assoc.
  - destruct Hfind as (o' & Ho' & E). exists o'. split; [lia |]. run E. reflexivity.
Qed.
