(* ===== verification/XmlTree.v ===== *)
(** * The XML parser: documents as trees, their declarations and their ends *)

From S2P Require Import Prelude Math Memory ByteBuf ByteBufSpec ByteCursorSpec ByteCursorText Xml XmlSpec.
Import ByteBuf Xml.

Local Open Scope Z_scope.

(** An element: its name, attributes, the text before the first child, and the
    children, each with the text behind it. *)
#[warnings="-register-all"] Inductive xml := Elem (tag : list Z) (atts : list (list Z * list Z)) (first : list Z) (children : list (xml * list Z)).

Definition tag (t : xml) : list Z := let 'Elem n _ _ _ := t in n.
Definition atts (t : xml) : list (list Z * list Z) := let 'Elem _ a _ _ := t in a.
Definition children (t : xml) : list (xml * list Z) := let 'Elem _ _ _ cs := t in cs.

Section ind.
Context (P : xml -> Prop) (H : forall n a f cs, Forall (fun c => P c.1) cs -> P (Elem n a f cs)).
Fixpoint xml_tree_ind (t : xml) : P t :=
  let 'Elem n a f cs := t in
  H n a f cs ((fix go cs : Forall (fun c => P c.1) cs :=
    match cs with [] => Forall_nil_2 _ | c :: cs => Forall_cons_2 _ c cs (xml_tree_ind c.1) (go cs) end) cs).
End ind.

(** ** Printing *)

Definition print_attribute (a : list Z * list Z) : list Z := a.1 ++ 61 :: 34 :: a.2 ++ [34].
Definition declaration (n : list Z) (a : list (list Z * list Z)) : list Z := n ++ flat_map (fun x => 32 :: print_attribute x) a.

Fixpoint print (t : xml) : list Z :=
  let 'Elem n a f cs := t in
  60 :: declaration n a ++ 62 :: (f ++ flat_map (fun c => print c.1 ++ c.2) cs) ++ close_tag n.

Definition print_children (cs : list (xml * list Z)) : list Z := flat_map (fun c => print c.1 ++ c.2) cs.
Definition inner (t : xml) : list Z := let 'Elem _ _ f cs := t in f ++ print_children cs.

Lemma print_eq t : print t = 60 :: declaration (tag t) (atts t) ++ 62 :: inner t ++ close_tag (tag t).
Proof. now destruct t. Qed.

(** ** Well-formed trees *)

Definition special (c : Z) : bool := (c =? 60) || (c =? 62) || (c =? 32) || (c =? 61) || (c =? 34).
Definition plain (l : list Z) : bool := forallb (fun c => negb (special c)) l.
Definition name_ok (n : list Z) : bool :=
  plain n && (zlength n <=? MAX_NAME_LEN)
  && match n with [] => false | c :: _ => negb ((c =? 47) || (c =? 63) || (c =? 33)) end.
Definition text_ok (l : list Z) : bool := forallb (fun c => negb ((c =? 60) || (c =? 62))) l.
Definition atts_ok (a : list (list Z * list Z)) : bool := (length a <=? 10)%nat && forallb (fun x => plain x.1 && plain x.2) a.

Fixpoint wf (t : xml) : bool :=
  let 'Elem n a f cs := t in name_ok n && atts_ok a && text_ok f && forallb (fun c => wf c.1 && text_ok c.2) cs.

(** ** Splitting *)

Lemma index_of_app_notin c l r : c ∉ l -> index_of c (l ++ c :: r) = Some (zlength l).
Proof.
  induction l as [| x l IH]; intros H; cbn [app index_of]; [now rewrite Z.eqb_refl |].
  apply not_elem_of_cons in H as [Hx Hl]. destruct (Z.eqb_spec x c); [congruence |]. rewrite IH by exact Hl. cbn. f_equal. rewrite zlength_cons. lia.
Qed.

Lemma index_of_notin c l : c ∉ l -> index_of c l = None.
Proof.
  induction l as [| x l IH]; intros H; cbn [index_of]; [reflexivity |]. apply not_elem_of_cons in H as [Hx Hl].
  destruct (Z.eqb_spec x c); [congruence |]. now rewrite IH.
Qed.

Lemma split_list_join c (ps : list (list Z)) : forall k, ps <> [] -> Forall (fun p => c ∉ p) ps -> zlength ps - 1 <= k -> split_list c k (join c ps) = ps.
Proof.
  induction ps as [| p ps IH]; intros k Hne Hall Hk; [congruence |]. apply Forall_cons in Hall as [Hp Hall]. rewrite zlength_cons in Hk.
  destruct ps as [| q ps].
  - cbn [join]. unfold split_list. rewrite split_spec_stop; [reflexivity |]. right. now apply index_of_notin.
  - rewrite join_cons by discriminate. unfold split_list. rewrite zlength_cons in Hk. pose proof (zlength_nonneg ps).
    rewrite (split_spec_next c _ k [] (zlength p)) by (lia || now apply index_of_app_notin). cbn [rev app]. f_equal.
    + unfold zlength. rewrite Nat2Z.id. apply take_app_length.
    + replace (Z.to_nat (zlength p + 1)) with (length (p ++ [c])) by (rewrite length_app; cbn; unfold zlength; lia).
      replace (p ++ c :: join c (q :: ps)) with ((p ++ [c]) ++ join c (q :: ps)) by (now rewrite <- app_assoc).
      rewrite drop_app_length. fold (split_list c (k - 1) (join c (q :: ps))). apply IH; [discriminate | exact Hall | rewrite zlength_cons; lia].
Qed.

(** A static list refuses only what it has no room for. *)
Lemma split_static_err n fuel : forall input c max j substr (out : list aws_byte_cursor) m e out' m',
  @split_loop _ (static_list n) fuel input c max j substr out m = Ret (AWS_OP_ERR e, out') m' -> (n <= length out')%nat.
Proof.
  induction fuel as [| fuel IH]; intros input c max j substr out m e out' m' H; [discriminate |]. cbn [split_loop] in H.
  destruct (j <=? max); [| discriminate]. unfold mbind at 1, M_bind at 1 in H.
  destruct (aws_byte_cursor_next_split input c substr m) as [[more s] m1 | |]; try discriminate. destruct more; [| discriminate].
  unfold mbind at 1, M_bind at 1 in H. match type of H with match ?e with _ => _ end = _ => destruct e as [s' m2 | |] end; try discriminate.
  change (push_back out s') with (push_static n out s') in H. unfold push_static in H. destruct (Nat.ltb_spec (length out) n) as [Hlt | Hge].
  - cbn in H. eapply IH. exact H.
  - cbn in H. unfold mret, M_ret in H. injection H as _ -> _. exact Hge.
Qed.

Lemma split_into_ok n m cur c (ps : list (list Z)) : cursor_ok m cur (join c ps) -> is_NULL (cur_ptr cur) = false -> cur_len cur <= SIZE_MAX / 2 ->
  ps <> [] -> Forall (fun p => c ∉ p) ps -> (length ps <= n)%nat -> zlength ps <= SIZE_MAX ->
  exists cs, split_into n cur c m = Ret (AWS_OP_SUCCESS, cs) m /\ Forall2 (cursor_ok m) cs ps.
Proof.
  intros Hc Hnn Hlen Hne Hall Hn Hmax. pose proof (input_len m cur _ Hc Hlen) as [Hl Hz].
  destruct (@split_loop_spec m cur _ c Hc Hnn Hlen _ (static_list n) SIZE_MAX (Z.to_nat (cur_len cur + 2)) 0 0 zero_cursor []) as (rv & out' & E & cs & Hcs & HF & Hrv).
  1-4: try (unfold SIZE_MAX; lia); try (now left); lia.
  rewrite (proj2 (Z.leb_le _ _)), Z.sub_0_r, drop_0, split_list_join in HF, Hrv by (assumption || lia). change (items out') with out' in Hcs. change (items []) with (@nil aws_byte_cursor) in Hcs.
  cbn [app] in Hcs. subst out'. unfold split_into, aws_byte_cursor_split_on_char, aws_byte_cursor_split_on_char_n. change (0 <? 0) with false. cbv iota.
  destruct rv as [| e].
  - exists cs. split; [exact E |]. now rewrite firstn_all2 in HF by lia.
  - apply split_static_err in E. lia.
Qed.

(** ** Declarations *)

Lemma declaration_join n a : declaration n a = join 32 (n :: map print_attribute a).
Proof.
  unfold declaration. revert n. induction a as [| x a IH]; intros n; [apply app_nil_r |]. cbn [map flat_map].
  rewrite join_cons by discriminate. rewrite <- (IH (print_attribute x)). now rewrite <- app_comm_cons.
Qed.

Lemma print_attribute_join x : print_attribute x = join 61 [x.1; 34 :: x.2 ++ [34]].
Proof. reflexivity. Qed.

Lemma plain_notin c l : special c = true -> plain l = true -> c ∉ l.
Proof.
  intros Hc Hl Hin. unfold plain in Hl. rewrite forallb_forall in Hl. specialize (Hl c). rewrite Hc in Hl.
  discriminate Hl. now apply list_elem_of_In.
Qed.

Lemma plain_attribute c x : plain x.1 = true -> plain x.2 = true -> (c = 60 \/ c = 62 \/ c = 32) -> c ∉ print_attribute x.
Proof.
  intros H1 H2 Hc. unfold print_attribute. rewrite elem_of_app, !elem_of_cons, elem_of_app, list_elem_of_singleton.
  assert (special c = true) as Hs by (destruct Hc as [-> | [-> | ->]]; reflexivity).
  pose proof (plain_notin c _ Hs H1). pose proof (plain_notin c _ Hs H2). intros [E | [E | [E | [E | E]]]]; contradiction || lia.
Qed.

Lemma trim_quotes v : plain v = true -> trim s_double_quote_fn (34 :: v ++ [34]) = v.
Proof.
  intros Hv. pose proof (plain_notin 34 v eq_refl Hv) as Hn. unfold trim. cbn [drop_while]. change (s_double_quote_fn 34) with true. cbv iota.
  destruct v as [| x v]; [reflexivity |]. cbn [app drop_while]. apply not_elem_of_cons in Hn as [Hx Hn].
  assert (s_double_quote_fn x = false) as -> by (unfold s_double_quote_fn; lia).
  unfold drop_while_end. rewrite app_comm_cons, rev_app_distr. cbn [rev app drop_while]. change (s_double_quote_fn 34) with true. cbv iota.
  change (rev v ++ [x]) with (rev (x :: v)). transitivity (rev (rev (x :: v))); [| apply rev_involutive]. f_equal.
  destruct (rev (x :: v)) as [| y w] eqn:E; [reflexivity |]. cbn [drop_while].
  assert (y ∈ x :: v) as Hy by (apply list_elem_of_In, in_rev; rewrite E; now left).
  assert (s_double_quote_fn y = false) as ->; [| reflexivity]. unfold s_double_quote_fn. apply Z.eqb_neq. intros ->.
  apply elem_of_cons in Hy as [<- | Hy]; [congruence | contradiction].
Qed.

Definition slots_ok (m : mem) (l : list aws_xml_attribute) (a : list (list Z * list Z)) : Prop :=
  length l = 10%nat /\ forall i x, a !! i = Some x -> exists s, l !! i = Some s /\ cursor_ok m (attribute_name s) x.1 /\ cursor_ok m (attribute_value s) x.2.

Lemma load_attribute_ok m l a cur x : slots_ok m l a -> (length a < 10)%nat -> plain x.1 = true -> plain x.2 = true ->
  cursor_ok m cur (print_attribute x) -> cur_len cur <= SIZE_MAX / 2 ->
  exists l', load_attribute l (zlength a) cur m = Ret (l', zlength (a ++ [x])) m /\ slots_ok m l' (a ++ [x]).
Proof.
  intros [Hl Ha] Hlen H1 H2 Hc Hmax. assert (is_NULL (cur_ptr cur) = false) as Hnn.
  { pose proof (cursor_len _ _ _ Hc) as [_ Hz]. apply (readable_not_null m _ _ _ (co_data _ _ _ Hc)). rewrite <- Hz. unfold print_attribute.
    rewrite zlength_app, zlength_cons. pose proof (zlength_nonneg x.1). pose proof (zlength_nonneg (34 :: x.2 ++ [34])). cbn [fst snd] in *. lia. }
  rewrite print_attribute_join in Hc.
  destruct (split_into_ok 2 m cur 61 [x.1; 34 :: x.2 ++ [34]] Hc Hnn Hmax) as (cs & E & HF); [discriminate | | cbn; lia | unfold zlength, SIZE_MAX; cbn [length]; lia |].
  { repeat constructor; [now apply plain_notin |]. rewrite elem_of_cons, elem_of_app, list_elem_of_singleton. pose proof (plain_notin 61 _ eq_refl H2). intros [E | [E | E]]; [discriminate | contradiction | discriminate]. }
  apply Forall2_cons_inv_r in HF as (cn & cs' & Hcn & HF & ->). apply Forall2_cons_inv_r in HF as (cv & cs'' & Hcv & HF & ->). apply Forall2_nil_inv_r in HF as ->.
  unfold load_attribute. run E. cbn [nth]. destruct (trim_pred_correct m cv _ s_double_quote_fn Hcv) as [(value & Et & Hv & _) _]. run Et.
  rewrite trim_quotes in Hv by exact H2. eexists. split; [unfold mret, M_ret; rewrite zlength_app; reflexivity |]. split; [now rewrite length_insert |].
  assert (Z.to_nat (zlength a) = length a) as Ez by (unfold zlength; lia). rewrite Ez. intros i y Hy.
  destruct (Nat.lt_trichotomy i (length a)) as [Hlt | [-> | Hgt]].
  - rewrite lookup_app_l in Hy by exact Hlt. rewrite list_lookup_insert_ne by lia. now apply Ha.
  - rewrite list_lookup_middle in Hy by reflexivity. injection Hy as <-. rewrite list_lookup_insert_eq by lia. now eexists.
  - rewrite lookup_ge_None_2 in Hy by (rewrite length_app; cbn; lia). discriminate.
Qed.

Lemma load_attributes_ok m xs : forall l a cs, slots_ok m l a -> (length a + length xs <= 10)%nat -> forallb (fun x => plain x.1 && plain x.2) xs = true ->
  Forall2 (cursor_ok m) cs (map print_attribute xs) -> Forall (fun x => zlength (print_attribute x) <= SIZE_MAX / 2) xs ->
  exists l', load_attributes l (zlength a) cs m = Ret (l', zlength (a ++ xs)) m /\ slots_ok m l' (a ++ xs).
Proof.
  induction xs as [| x xs IH]; intros l a cs Hl Hlen Hp HF Hmax; cbn [map] in HF.
  - apply Forall2_nil_inv_r in HF as ->. exists l. rewrite app_nil_r. now split.
  - apply Forall2_cons_inv_r in HF as (c & cs' & Hc & HF & ->). cbn [forallb length] in *. apply andb_true_iff in Hp as [Hx Hp]. apply andb_true_iff in Hx as [H1 H2].
    apply Forall_cons in Hmax as [Hm Hmax]. pose proof (cursor_len _ _ _ Hc) as [_ Hz].
    destruct (load_attribute_ok m l a c x Hl ltac:(lia) H1 H2 Hc ltac:(lia)) as (l1 & E & Hl1). cbn [load_attributes]. run E.
    destruct (IH l1 (a ++ [x]) cs' Hl1) as (l' & E' & Hl'); [rewrite length_app; cbn; lia | exact Hp | exact HF | exact Hmax |].
    exists l'. rewrite <- app_assoc in *. now split.
Qed.

Lemma load_node_decl_ok {U} (p : @aws_xml_parser U) m cur body n a : name_ok n = true -> atts_ok a = true ->
  cursor_ok m cur (declaration n a) -> cur_len cur <= SIZE_MAX / 2 ->
  exists node l, s_load_node_decl p cur body m = Ret (Ok node, set_slots p l) m
    /\ cursor_ok m (name node) n /\ attributes node = zlength a /\ doc_at_body node = body /\ processed node = false /\ slots_ok m l a.
Proof.
  intros Hn Ha Hc Hmax. unfold name_ok, atts_ok in *. apply andb_true_iff in Hn as [Hn Hhead]. apply andb_true_iff in Hn as [Hn _]. apply andb_true_iff in Ha as [Hlen Hp].
  apply Nat.leb_le in Hlen. pose proof (cursor_len _ _ _ Hc) as [_ Hz].
  assert (is_NULL (cur_ptr cur) = false) as Hnn.
  { apply (readable_not_null m _ _ _ (co_data _ _ _ Hc)). rewrite <- Hz. unfold declaration. rewrite zlength_app. destruct n; [discriminate |]. rewrite zlength_cons.
    pose proof (zlength_nonneg n). pose proof (zlength_nonneg (flat_map (fun x => 32 :: print_attribute x) a)). lia. }
  assert (Forall (fun x => zlength (print_attribute x) <= SIZE_MAX / 2) a) as Hsmall.
  { rewrite Hz in Hmax || idtac. assert (zlength (declaration n a) <= SIZE_MAX / 2) as Hd by lia. clear - Hd. unfold declaration in Hd. rewrite zlength_app in Hd. pose proof (zlength_nonneg n).
    assert (zlength (flat_map (fun x => 32 :: print_attribute x) a) <= SIZE_MAX / 2) as Hf by lia. clear - Hf. induction a as [| x a IH]; [constructor |].
    cbn [flat_map] in Hf. rewrite zlength_app, zlength_cons in Hf. pose proof (zlength_nonneg (print_attribute x)). pose proof (zlength_nonneg (flat_map (fun x => 32 :: print_attribute x) a)).
    constructor; [lia | apply IH; lia]. }
  rewrite declaration_join in Hc.
  destruct (split_into_ok 11 m cur 32 (n :: map print_attribute a) Hc Hnn Hmax) as (cs & E & HF); [discriminate | | cbn; rewrite length_map; lia | unfold zlength; cbn [length]; rewrite length_map; unfold SIZE_MAX; lia |].
  { constructor; [now apply plain_notin |]. apply Forall_forall. intros y Hy. apply list_elem_of_fmap in Hy as (x & -> & Hx). rewrite forallb_forall in Hp.
    apply list_elem_of_In, Hp, andb_true_iff in Hx as [? ?]. apply plain_attribute; auto. }
  apply Forall2_cons_inv_r in HF as (cn & cs' & Hcn & HF & ->). unfold s_load_node_decl. run E.
  destruct (load_attributes_ok m a (replicate 10 zero_attribute) [] cs') as (l & E' & Hl); auto; [split; [apply length_replicate | intros i x Hx; now rewrite lookup_nil in Hx] |].
  change 0 with (zlength (@nil (list Z * list Z))). run E'. cbn [app]. eexists _, l. split; [reflexivity |]. cbn [name attributes doc_at_body processed]. auto.
Qed.

(** ** The end of a node of a printed tree *)

(** The search for the end of a node called [n] takes a tag that only begins
    with [n] for an opening of the same name: no such tag may be inside. *)
Fixpoint compatible (n : list Z) (t : xml) : bool :=
  let 'Elem k _ _ cs := t in (bool_decide (n = k) || negb (starts n k)) && forallb (fun c => compatible n c.1) cs.

Definition body_ok (t : xml) : bool := forallb (fun c => compatible (tag t) c.1) (children t).

Lemma starts_cons c t x l : starts (c :: t) (x :: l) = (c =? x) && starts t l.
Proof.
  unfold starts. cbn [length take]. destruct (Z.eqb_spec c x) as [-> | Hne]; cbn [andb].
  - apply bool_decide_ext. split; congruence.
  - apply bool_decide_eq_false_2. congruence.
Qed.

Lemma starts_plain c t : forall l r, c ∉ t -> starts t (l ++ c :: r) = starts t l.
Proof.
  induction t as [| x t IH]; intros l r Hc; [reflexivity |]. apply not_elem_of_cons in Hc as [Hx Hc]. destruct l as [| y l]; cbn [app].
  - rewrite starts_cons. rewrite (proj2 (Z.eqb_neq x c)) by congruence. reflexivity.
  - rewrite !starts_cons. now rewrite IH.
Qed.

Lemma starts_same c t : forall l r, c ∉ t -> c ∉ l -> starts (t ++ [c]) (l ++ c :: r) = bool_decide (t = l).
Proof.
  induction t as [| x t IH]; intros l r Ht Hl; destruct l as [| y l]; cbn [app].
  - rewrite starts_cons, Z.eqb_refl. symmetry. now apply bool_decide_eq_true_2.
  - rewrite starts_cons. apply not_elem_of_cons in Hl as [Hy _]. rewrite (proj2 (Z.eqb_neq c y)) by congruence. reflexivity.
  - rewrite starts_cons. apply not_elem_of_cons in Ht as [Hx _]. rewrite (proj2 (Z.eqb_neq x c)) by congruence. reflexivity.
  - apply not_elem_of_cons in Ht as [Hx Ht]. apply not_elem_of_cons in Hl as [Hy Hl]. rewrite starts_cons, IH by assumption.
    destruct (Z.eqb_spec x y) as [-> | Hne]; cbn [andb].
    + apply bool_decide_ext. split; congruence.
    + symmetry. apply bool_decide_eq_false_2. congruence.
Qed.

Lemma name_plain n : name_ok n = true -> plain n = true.
Proof. unfold name_ok. intros H. apply andb_true_iff in H as [H _]. now apply andb_true_iff in H. Qed.

Lemma name_head n : name_ok n = true -> exists x n', n = x :: n' /\ x <> 47 /\ x <> 63 /\ x <> 33.
Proof.
  unfold name_ok. intros H. apply andb_true_iff in H as [_ H]. destruct n as [| x n']; [discriminate |]. exists x, n'. split; [reflexivity |].
  apply negb_true_iff, orb_false_iff in H as [H H3]. apply orb_false_iff in H as [H1 H2]. lia.
Qed.

Lemma text_notin c l : (c = 60 \/ c = 62) -> text_ok l = true -> c ∉ l.
Proof.
  intros Hc Hl Hin. unfold text_ok in Hl. rewrite forallb_forall in Hl. specialize (Hl c ltac:(now apply list_elem_of_In)). cbv beta in Hl. lia.
Qed.

Lemma declaration_notin c n a : (c = 60 \/ c = 62) -> plain n = true -> atts_ok a = true -> c ∉ declaration n a.
Proof.
  intros Hc Hn Ha Hin. unfold declaration in Hin. apply elem_of_app in Hin as [Hin | Hin].
  - revert Hin. apply plain_notin; [destruct Hc as [-> | ->]; reflexivity | exact Hn].
  - apply list_elem_of_In, in_flat_map in Hin as (x & Hx & Hin). apply list_elem_of_In in Hin. apply andb_true_iff in Ha as [_ Ha].
    rewrite forallb_forall in Ha. apply Ha, andb_true_iff in Hx as [H1 H2]. apply elem_of_cons in Hin as [E | Hin]; [lia |].
    revert Hin. apply plain_attribute; tauto.
Qed.

Lemma declaration_next n a r : exists c r', declaration n a ++ 62 :: r = n ++ c :: r' /\ (c = 32 \/ c = 62).
Proof.
  unfold declaration. destruct a as [| x a]; cbn [flat_map]; rewrite <- app_assoc; cbn [app]; eexists _, _; split; eauto.
Qed.

Lemma scan_cons op cl d off x l : scan op cl 0 d off (x :: l)
  = if starts cl (x :: l) then if d =? 1 then Some off else scan op cl (length cl - 1) (d - 1) (off + 1) l
    else if starts op (x :: l) then scan op cl 0 (d + 1) (off + 1) l else scan op cl 0 d (off + 1) l.
Proof. reflexivity. Qed.

Section scan.
Context (n : list Z).
Hypothesis Hn : name_ok n = true.
Let op := open_tag n.
Let cl := close_tag n.

Lemma scan_text w : forall d off r, 60 ∉ w -> scan op cl 0 d off (w ++ r) = scan op cl 0 d (off + zlength w) r.
Proof.
  induction w as [| x w IH]; intros d off r Hw; [now rewrite Z.add_0_r |]. apply not_elem_of_cons in Hw as [Hx Hw]. cbn [app scan].
  assert (starts cl (x :: w ++ r) = false /\ starts op (x :: w ++ r) = false) as [-> ->].
  { unfold op, cl, open_tag, close_tag. rewrite !starts_cons, (proj2 (Z.eqb_neq 60 x)) by exact Hx. now split. }
  rewrite IH by exact Hw. rewrite zlength_cons. f_equal. lia.
Qed.

(** A tag is an opening exactly when it is called [n]. *)
Lemma scan_opening k a d off r : name_ok k = true -> atts_ok a = true -> bool_decide (n = k) || negb (starts n k) = true ->
  scan op cl 0 d off (60 :: declaration k a ++ 62 :: r)
  = scan op cl 0 (if bool_decide (n = k) then d + 1 else d) (off + zlength (60 :: declaration k a ++ [62])) r.
Proof.
  intros Hk Ha Hc. destruct (name_head k Hk) as (x & k' & Ek & Hx & _). cbn [scan]. destruct (declaration_next k a r) as (c & r' & E & Hcs).
  assert (starts cl (60 :: declaration k a ++ 62 :: r) = false) as ->.
  { unfold cl, close_tag. rewrite E, Ek. cbn [app]. rewrite !starts_cons, (proj2 (Z.eqb_neq 47 x)) by congruence. now rewrite andb_false_r. }
  assert (starts op (60 :: declaration k a ++ 62 :: r) = bool_decide (n = k)) as ->.
  { unfold op, open_tag. rewrite starts_cons, Z.eqb_refl, E. cbn [andb].
    rewrite starts_plain by (apply plain_notin; [destruct Hcs as [-> | ->]; reflexivity | now apply name_plain]).
    destruct (bool_decide_reflect (n = k)) as [<- | Hne]; [| cbn [orb] in Hc; now apply negb_true_iff].
    unfold starts. rewrite firstn_all. now apply bool_decide_eq_true_2. }
  replace (declaration k a ++ 62 :: r) with ((declaration k a ++ [62]) ++ r) by (now rewrite <- app_assoc).
  assert (60 ∉ declaration k a ++ [62]) as Hnot.
  { rewrite elem_of_app, list_elem_of_singleton. intros [Hin | Hin]; [| discriminate]. revert Hin. apply declaration_notin; auto. now apply name_plain. }
  rewrite zlength_cons, Z.add_assoc. destruct (bool_decide (n = k)); now apply scan_text.
Qed.

Lemma scan_closing k d off r : name_ok k = true -> d <> 1 \/ n <> k ->
  scan op cl 0 d off (close_tag k ++ r) = scan op cl 0 (if bool_decide (n = k) then d - 1 else d) (off + zlength (close_tag k)) r.
Proof.
  intros Hk Hd. destruct (name_head n Hn) as (x & n' & En & Hx & _). unfold close_tag. cbn [app]. rewrite <- app_assoc. cbn [app]. rewrite scan_cons.
  assert (starts cl (60 :: 47 :: k ++ 62 :: r) = bool_decide (n = k)) as ->.
  { unfold cl, close_tag. rewrite !starts_cons, !Z.eqb_refl. cbn [andb]. apply starts_same; apply plain_notin; try reflexivity; now apply name_plain. }
  destruct (bool_decide_reflect (n = k)) as [<- | Hne].
  - rewrite (proj2 (Z.eqb_neq d 1)) by (destruct Hd; congruence). rewrite (scan_drop op cl (length cl - 1)).
    assert (drop (length cl - 1) (47 :: n ++ 62 :: r) = r) as ->.
    { replace (47 :: n ++ 62 :: r) with ((47 :: n ++ [62]) ++ r) by (now rewrite <- app_comm_cons, <- app_assoc).
      replace (length cl - 1)%nat with (length (47 :: n ++ [62])) by (unfold cl, close_tag; cbn [length]; lia). apply drop_app_length. }
    f_equal. unfold cl, close_tag, zlength. cbn [length]. rewrite length_app. cbn [length]. lia.
  - assert (starts op (60 :: 47 :: k ++ 62 :: r) = false) as ->.
    { unfold op, open_tag. rewrite En, !starts_cons, (proj2 (Z.eqb_neq x 47)) by exact Hx. reflexivity. }
    replace (47 :: k ++ 62 :: r) with ((47 :: k ++ [62]) ++ r) by (now rewrite <- app_comm_cons, <- app_assoc). rewrite scan_text.
    + rewrite (zlength_cons 60). f_equal. lia.
    + rewrite elem_of_cons, elem_of_app, list_elem_of_singleton. intros [E | [Hin | E]]; [discriminate | | discriminate].
      revert Hin. apply plain_notin; [reflexivity | now apply name_plain].
Qed.

Lemma scan_children_with cs : Forall (fun c => forall d off r, wf c.1 = true -> compatible n c.1 = true -> 1 <= d ->
    scan op cl 0 d off (print c.1 ++ r) = scan op cl 0 d (off + zlength (print c.1)) r) cs ->
  forall d off r, forallb (fun c => wf c.1 && text_ok c.2) cs = true -> forallb (fun c => compatible n c.1) cs = true -> 1 <= d ->
  scan op cl 0 d off (print_children cs ++ r) = scan op cl 0 d (off + zlength (print_children cs)) r.
Proof.
  induction cs as [| [c t] cs IH]; intros HF d off r Hw Hc Hd; [now rewrite Z.add_0_r |]. apply Forall_cons in HF as [H HF]. cbn [forallb fst snd] in *.
  apply andb_true_iff in Hw as [Hw Hws]. apply andb_true_iff in Hw as [Hw Ht]. apply andb_true_iff in Hc as [Hc Hcs].
  unfold print_children. cbn [flat_map fst snd]. fold (print_children cs). rewrite <- !app_assoc, H by assumption. rewrite scan_text by (apply text_notin; auto).
  rewrite IH by assumption. f_equal. rewrite !zlength_app. lia.
Qed.

Lemma scan_print t : forall d off r, wf t = true -> compatible n t = true -> 1 <= d ->
  scan op cl 0 d off (print t ++ r) = scan op cl 0 d (off + zlength (print t)) r.
Proof.
  induction t as [k a f cs IH] using xml_tree_ind. intros d off r Hw Hc Hd. cbn [wf compatible] in Hw, Hc.
  apply andb_true_iff in Hw as [Hw Hcs]. apply andb_true_iff in Hw as [Hw Hf]. apply andb_true_iff in Hw as [Hk Ha]. apply andb_true_iff in Hc as [Hc Hccs].
  rewrite print_eq. cbn [tag atts inner]. rewrite <- app_comm_cons, <- app_assoc, <- app_comm_cons, <- !app_assoc. rewrite scan_opening by assumption.
  rewrite scan_text by (apply text_notin; auto). rewrite (scan_children_with cs IH) by (assumption || destruct (bool_decide (n = k)); lia).
  rewrite scan_closing by (assumption || (destruct (bool_decide_reflect (n = k)); [left; lia | now right])).
  f_equal; [destruct (bool_decide (n = k)); lia |]. rewrite !zlength_cons, !zlength_app, !zlength_cons, !zlength_app, zlength_nil. lia.
Qed.
End scan.

(** The body of a node. *)
Lemma scan_inner t off r : wf t = true -> body_ok t = true ->
  scan (open_tag (tag t)) (close_tag (tag t)) 0 1 off (inner t ++ close_tag (tag t) ++ r) = Some (off + zlength (inner t)).
Proof.
  destruct t as [n a f cs]. intros Hw Hb. cbn [wf tag inner] in *. unfold body_ok in Hb. cbn [tag children] in Hb.
  apply andb_true_iff in Hw as [Hw Hcs]. apply andb_true_iff in Hw as [Hw Hf]. apply andb_true_iff in Hw as [Hk Ha].
  rewrite <- app_assoc, scan_text by (apply text_notin; auto).
  rewrite scan_children_with by (assumption || lia || (apply Forall_forall; intros c _ d o r' Hwc Hcc Hd; now apply scan_print)).
  rewrite zlength_app, Z.add_assoc. set (o := off + _ + _). unfold close_tag at 2. cbn [app]. rewrite scan_cons.
  assert (starts (close_tag n) (60 :: 47 :: (n ++ [62]) ++ r) = true) as ->; [| reflexivity].
  unfold close_tag. rewrite !starts_cons, !Z.eqb_refl, <- app_assoc. cbn [andb app]. rewrite starts_same by (apply plain_notin; [reflexivity | now apply name_plain]).
  now apply bool_decide_eq_true_2.
Qed.
