(* ===== verification/XmlRun.v ===== *)
(** * The XML parser: what callbacks see of a tree

    The abstract run of a callback on a tree, and the parser on the printed tree
    as its refinement. The abstract run is [None] for what the parser does not
    promise: taking a node twice, asking for attributes after the children were
    read, or taking (or skipping) a node with a tag inside whose name only begins
    with the node's. *)

From S2P Require Import Prelude Math Memory ByteBuf ByteBufSpec ByteCursorSpec ByteCursorText Xml XmlSpec XmlTree.
Import ByteBuf Xml.

Local Open Scope Z_scope.

Section abstract.
Context {U : Type} (maxd : Z).

(** Whether parsing was stopped, and the error. *)
Definition status : Type := bool * op_result.
Definition going (st : status) : bool := negb st.1 && bool_decide (st.2 = AWS_OP_SUCCESS).

(** The children in turn, each with [visit]: what it returns, its state, whether
    the node was taken. *)
Fixpoint visit_children (visit : U -> xml -> status -> option (bool * U * bool * status)) (cs : list (xml * list Z)) (u : U) (st : status) : option (U * status) :=
  match cs with
  | [] => Some (u, st)
  | (c, _) :: cs =>
      match visit u c st with
      | None => None
      | Some (keep, u, taken, st) =>
          if negb keep then Some (u, (true, st.2))
          else if negb st.1 && negb taken then if body_ok c then visit_children visit cs u st else None
          else if going st then visit_children visit cs u st
          else Some (u, st)
      end
  end.

(** [touched]: the attributes may be overwritten; [taken]: the body was read. *)
Fixpoint arun (c : client U) (t : xml) (touched taken : bool) (depth : Z) (st : status) : option (bool * U * bool * status) :=
  match c with
  | Return keep u => Some (keep, u, taken, st)
  | GetName k => arun (k (tag t)) t touched taken depth st
  | GetAttribute i k =>
      if i <? 0 then None
      else match atts t !! Z.to_nat i with
           | Some a => if touched then None else arun (k (Ok a)) t touched taken depth st
           | None => arun (k (Err AWS_ERROR_INVALID_INDEX)) t touched taken depth st
           end
  | AsBody k => if taken || negb (body_ok t) then None else arun (k AWS_OP_SUCCESS (inner t)) t touched true depth st
  | Traverse cb u k =>
      if taken then None
      else if maxd <=? depth then arun (k malformed u) t touched true depth (st.1, malformed)
      else
        match visit_children (fun u c st => arun (cb u) c false false (depth + 1) st) (children t) u st with
        | None => None
        | Some (u, st) => arun (k st.2 u) t true true depth st
        end
  | TraverseNull u k => arun (k (aws_raise_error AWS_ERROR_INVALID_ARGUMENT) u) t touched taken depth st
  end.

(** The whole document. *)
Definition aparse (cb : callback U) (t : xml) (u : U) : option (op_result * U) :=
  match arun (cb u) t false false 1 (false, AWS_OP_SUCCESS) with
  | None => None
  | Some (_, u, taken, st) => if taken then Some (st.2, u) else if body_ok t then Some (AWS_OP_SUCCESS, u) else None
  end.
End abstract.

(** ** Finding tags *)

Section document.
Context {U : Type} (maxd : Z) (m : mem) (base : ptr) (text : list Z).
Hypothesis Htext : bytes_at m base (zlength text) = Some text.
Hypothesis Hlen : zlength text <= SIZE_MAX / 2.
Hypothesis Hbase : is_NULL base = false.
Abbreviation parser := (@aws_xml_parser U).

Lemma memchr_at o c : 0 <= o <= zlength text ->
  memchr (cur_ptr (cur_at base text o)) c (cur_len (cur_at base text o)) m
  = Ret (match index_of c (rest_at text o) with Some i => ptr_add base (o + i) | None => NULL end) m.
Proof.
  intros Ho. rewrite (memchr_ok _ _ _ _ _ (co_data _ _ _ (cur_at_ok m base text Htext Hlen o Ho))).
  destruct (index_of c (rest_at text o)); [| reflexivity]. cbn [cur_ptr cur_at]. now rewrite ptr_add_add.
Qed.

Lemma rest_app o l r : 0 <= o <= zlength text -> rest_at text o = l ++ r -> o + zlength l <= zlength text /\ rest_at text (o + zlength l) = r.
Proof.
  intros Ho E. split.
  - pose proof (rest_length text o Ho) as El. rewrite E, length_app in El. unfold zlength in *. lia.
  - rewrite <- (rest_drop text) by (lia || apply zlength_nonneg). rewrite E. unfold zlength. rewrite Nat2Z.id. apply drop_app_length.
Qed.

(** The node that stands for the element [t], with its body at [b]. *)
Record node_ok (node : aws_xml_node) (t : xml) (b : Z) : Prop := {
  nk_name : cursor_ok m (name node) (tag t);
  nk_atts : attributes node = zlength (atts t);
  nk_body : doc_at_body node = cur_at base text b
}.

(** The tag of an element: where it starts and ends, and its declaration. *)
Lemma tag_at o w t r : 0 <= o <= zlength text -> wf t = true -> text_ok w = true -> rest_at text o = w ++ print t ++ r ->
  let lt := o + zlength w in
  let gt := lt + 1 + zlength (declaration (tag t) (atts t)) in
  index_of 60 (rest_at text o) = Some (zlength w)
  /\ index_of 62 (rest_at text o) = Some (gt - o)
  /\ load_u8 (ptr_add base (lt + 1)) m = Ret (hd 0 (tag t)) m
  /\ gt + 1 <= zlength text
  /\ rest_at text (gt + 1) = inner t ++ close_tag (tag t) ++ r
  /\ cursor_ok m (mk_cursor (gt - lt - 1) (ptr_add base (lt + 1))) (declaration (tag t) (atts t)).
Proof.
  intros Ho Hw Hwt E lt gt. destruct t as [n a f cs]. cbn [wf] in Hw. apply andb_true_iff in Hw as [Hw _]. apply andb_true_iff in Hw as [Hw _]. apply andb_true_iff in Hw as [Hn Ha].
  rewrite print_eq in E. cbn [tag atts] in *. rewrite <- app_comm_cons, <- app_assoc, <- app_comm_cons, <- app_assoc in E.
  destruct (rest_app o w _ Ho E) as [Hlt Er]. fold lt in Hlt, Er. pose proof (zlength_nonneg w).
  destruct (rest_app lt [60] _ ltac:(lia) Er) as [Hlt1 Er1]. change (zlength [60]) with 1 in *.
  destruct (rest_app (lt + 1) (declaration n a) _ ltac:(lia) Er1) as [Hgt Er2]. fold gt in Hgt, Er2. pose proof (zlength_nonneg (declaration n a)).
  destruct (rest_app gt [62] _ ltac:(lia) Er2) as [Hgt1 Er3]. change (zlength [62]) with 1 in *.
  destruct (name_head n Hn) as (x & n' & En & _). destruct (declaration_next n a []) as (c & r' & Ed & _).
  split; [rewrite E; apply index_of_app_notin; now apply text_notin; [left |] |]. split.
  { rewrite E. replace (w ++ 60 :: declaration n a ++ 62 :: _) with ((w ++ 60 :: declaration n a) ++ 62 :: (inner (Elem n a f cs) ++ close_tag n ++ r)) by (now rewrite <- app_assoc).
    rewrite index_of_app_notin; [f_equal; rewrite zlength_app, zlength_cons; unfold gt, lt; lia |]. rewrite elem_of_app, elem_of_cons.
    intros [Hin | [Hin | Hin]]; [revert Hin; apply text_notin; auto | discriminate | revert Hin; apply declaration_notin; auto; now apply name_plain]. }
  split.
  { apply (load_u8_at m base (zlength text) text); [exact Htext | lia |]. assert (declaration n a !! 0%nat = Some (hd 0 n)) as Hd by (unfold declaration; rewrite En; reflexivity).
    assert (rest_at text (lt + 1) !! 0%nat = Some (hd 0 n)) as Hr by (rewrite Er1; now rewrite (lookup_app_l_Some _ _ _ _ Hd)).
    unfold rest_at in Hr. now rewrite lookup_drop, Nat.add_0_r in Hr. }
  split; [lia |]. split; [exact Er3 |]. constructor; cbn [cur_len cur_ptr]; [| unfold SIZE_MAX; pose proof (text_bounds text Hlen); lia].
  rewrite (bytes_at_sub m base (zlength text) text (lt + 1) (gt - lt - 1) Htext), slice_Some by lia. f_equal. fold (rest_at text (lt + 1)). rewrite Er1.
  replace (Z.to_nat (gt - lt - 1)) with (length (declaration n a)) by (unfold gt, zlength; lia). apply take_app_length.
Qed.

(** The closing tag of the element around. *)
Lemma close_at o w n r : 0 <= o <= zlength text -> name_ok n = true -> text_ok w = true -> rest_at text o = w ++ close_tag n ++ r ->
  let lt := o + zlength w in
  let gt := lt + 2 + zlength n in
  index_of 60 (rest_at text o) = Some (zlength w)
  /\ index_of 62 (rest_at text o) = Some (gt - o)
  /\ load_u8 (ptr_add base (lt + 1)) m = Ret 47 m
  /\ gt + 1 <= zlength text
  /\ rest_at text (gt + 1) = r.
Proof.
  intros Ho Hn Hw E lt gt. unfold close_tag in E. rewrite <- !app_comm_cons, <- app_assoc in E. cbn [app] in E.
  destruct (rest_app o w _ Ho E) as [Hlt Er]. fold lt in Hlt, Er. pose proof (zlength_nonneg w). pose proof (zlength_nonneg n).
  destruct (rest_app lt [60] _ ltac:(lia) Er) as [Hlt1 Er1]. change (zlength [60]) with 1 in *.
  destruct (rest_app lt (60 :: 47 :: n ++ [62]) r ltac:(lia)) as [Hgt1 Er3]; [rewrite Er; cbn [app]; now rewrite <- app_assoc |].
  rewrite !zlength_cons, zlength_app in Hgt1, Er3. change (zlength [62]) with 1 in *.
  split; [rewrite E; apply index_of_app_notin; now apply text_notin; [left |] |]. split.
  { rewrite E. replace (w ++ 60 :: 47 :: n ++ 62 :: r) with ((w ++ 60 :: 47 :: n) ++ 62 :: r) by (now rewrite <- app_assoc).
    rewrite index_of_app_notin; [f_equal; rewrite zlength_app, !zlength_cons; unfold gt, lt; lia |]. rewrite elem_of_app, !elem_of_cons.
    intros [Hin | [Hin | [Hin | Hin]]]; [revert Hin; apply text_notin; auto | discriminate | discriminate | revert Hin; apply plain_notin; [reflexivity | now apply name_plain]]. }
  split.
  { apply (load_u8_at m base (zlength text) text); [exact Htext | lia |].
    assert (rest_at text (lt + 1) !! 0%nat = Some 47) as Hr by now rewrite Er1. unfold rest_at in Hr. now rewrite lookup_drop, Nat.add_0_r in Hr. }
  unfold gt. replace (lt + 2 + zlength n + 1) with (lt + (1 + (1 + (zlength n + 1)))) by ring. split; [lia | exact Er3].
Qed.

(** ** The end of a node *)

Lemma body_run (p : parser) node t b r : wf t = true -> body_ok t = true -> node_ok node t b -> 0 <= b <= zlength text ->
  rest_at text b = inner t ++ close_tag (tag t) ++ r -> doc p = cur_at base text b ->
  exists body, cursor_ok m body (inner t)
    /\ s_advance_to_closing_tag p node m = Ret (error p, Some body, set_doc p (cur_at base text (b + zlength (inner t) + zlength (close_tag (tag t))))) m.
Proof.
  intros Hw Hbody Hnode Hb Er Hdoc. destruct (rest_app b _ _ Hb Er) as [H1 Er1]. destruct (rest_app (b + zlength (inner t)) _ _ ltac:(pose proof (zlength_nonneg (inner t)); lia) Er1) as [H2 Er2].
  pose proof (close_tag_length (tag t)) as Hcl. pose proof (zlength_nonneg (inner t)). pose proof (zlength_nonneg (tag t)).
  pose proof (advance_to_closing_tag_run m base text p node (tag t) b b Htext Hlen Hbase (nk_name _ _ _ Hnode) (nk_body _ _ _ Hnode) Hdoc ltac:(lia) ltac:(lia) ltac:(lia)) as H'.
  assert (zlength (tag t) <= MAX_NAME_LEN) as Hmax.
  { destruct t as [n a f cs]. cbn [wf tag] in *. apply andb_true_iff in Hw as [Hw _]. apply andb_true_iff in Hw as [Hw _]. apply andb_true_iff in Hw as [Hw _].
    unfold name_ok in Hw. apply andb_true_iff in Hw as [Hw _]. apply andb_true_iff in Hw as [_ Hw]. now apply Z.leb_le. }
  rewrite (proj2 (Z.ltb_ge (zlength text - b) _)), (proj2 (Z.ltb_ge MAX_NAME_LEN _)) in H' by lia. cbn [orb] in H'.
  rewrite Er, scan_inner in H' by assumption. destruct H' as (_ & _ & Hc & E). eexists. split; [| rewrite E, Hcl, Z.add_assoc; reflexivity].
  assert (segment text b (b + zlength (inner t)) = inner t) as Es; [| now rewrite Es in Hc]. unfold segment. fold (rest_at text b). rewrite Er.
  replace (Z.to_nat (b + zlength (inner t) - b)) with (length (inner t)) by (unfold zlength; lia). apply take_app_length.
Qed.

(** ** Simulation *)

Record sim (p : parser) (st : status) : Prop := {
  sm_depth : max_depth p = maxd;
  sm_stop : stop_parsing p = st.1;
  sm_error : error p = st.2
}.

Lemma going_loop (p : parser) st : sim p st -> stop_parsing p || negb (bool_decide (error p = AWS_OP_SUCCESS)) = negb (going st).
Proof. intros [_ -> ->]. unfold going. rewrite negb_andb, negb_involutive. reflexivity. Qed.

Definition node_end (t : xml) (b : Z) : Z := b + zlength (inner t) + zlength (close_tag (tag t)).

(** [f] does with the node of [t] what the abstract run [res] says. *)
Definition simulates (f : aws_xml_node -> parser -> M (bool * U * aws_xml_node * parser)) (t : xml) (touched taken : bool) (depth : Z) (st : status)
    (res : bool * U * bool * status) : Prop :=
  forall b node p r, node_ok node t b -> 0 <= b <= zlength text -> rest_at text b = inner t ++ close_tag (tag t) ++ r ->
    (touched = false -> slots_ok m (slots p) (atts t)) -> processed node = taken -> sim p st ->
    (taken = false -> going st = true /\ doc p = cur_at base text b /\ zlength (callback_stack p) = depth) ->
    (taken = true -> going st = true -> doc p = cur_at base text (node_end t b)) ->
    let '(keep, u, taken', st') := res in
    exists node' p', f node p m = Ret (keep, u, node', p') m /\ node_ok node' t b /\ processed node' = taken' /\ sim p' st'
      /\ (st'.1 = false -> st.1 = false /\ callback_stack p' = callback_stack p)
      /\ (taken' = false -> going st' = true /\ doc p' = cur_at base text b)
      /\ (taken' = true -> going st' = true -> doc p' = cur_at base text (node_end t b)).

Section children.
Context (depth : Z) (on_node : @visit U) (abstract : U -> xml -> status -> option (bool * U * bool * status)).
Hypothesis Hon : forall u t st res, wf t = true -> abstract u t st = Some res -> simulates (on_node u) t false false depth st res.

Lemma traverse_loop_ok n r cs : name_ok n = true -> forall fuel w o u st u' st' (p : parser),
  forallb (fun c => wf c.1 && text_ok c.2) cs = true -> text_ok w = true -> 0 <= o <= zlength text ->
  rest_at text o = w ++ print_children cs ++ close_tag n ++ r -> doc p = cur_at base text o -> going st = true -> sim p st ->
  zlength (callback_stack p) = depth -> zlength text - o < Z.of_nat fuel -> visit_children abstract cs u st = Some (u', st') ->
  exists res p', traverse_loop fuel on_node u p m = Ret (res, u', p') m /\ sim p' st'
    /\ (res = None \/ (res = Some st'.2 /\ st'.1 = true))
    /\ (st'.1 = false -> callback_stack p' = callback_stack p)
    /\ (going st' = true -> doc p' = cur_at base text (o + zlength w + zlength (print_children cs) + zlength (close_tag n))).
Proof.
  intros Hn. pose proof (text_bounds text Hlen) as HL. induction cs as [| [c t'] cs IH]; intros fuel w o u st u' st' p Hw Hwt Ho Er Hdoc Hgo Hsim Hdepth Hf E.
  - (* the closing tag *)
    cbn [visit_children] in E. injection E as <- <-. cbn [print_children flat_map app] in Er.
    destruct (close_at o w n r Ho Hn Hwt Er) as (Hlt & Hgt & Hc & Hend & _). destruct fuel as [| fuel]; [lia |]. cbn [traverse_loop].
    rewrite (going_loop p st Hsim), Hgo. cbn [negb]. rewrite Hdoc. pose proof (zlength_nonneg w). pose proof (zlength_nonneg n). pose proof (close_tag_length n).
    run (memchr_at o 60 Ho). rewrite Hlt, is_NULL_add, Hbase. run (memchr_at o 62 Ho). rewrite Hgt, is_NULL_add, Hbase.
    rewrite ptr_add_add. run Hc. run (ptr_diff_add base (o + (o + zlength w + 2 + zlength n - o)) (o + zlength w) m Hbase).
    cbn [cur_ptr cur_at]. run (ptr_diff_add base (o + (o + zlength w + 2 + zlength n - o)) o m Hbase). change (47 =? 47) with true. cbv iota zeta.
    eexists _, _. split; [reflexivity |]. split; [destruct Hsim; now constructor |]. split; [now left |]. split; [reflexivity |]. intros _.
    cbn [doc set_doc]. fold (cur_at base text o). rewrite u64_small by (unfold is_u64; lia). rewrite (advance_at base text Hlen) by lia.
    f_equal. change (zlength (print_children [])) with 0. lia.
  - (* a child *)
    cbn [forallb fst snd] in Hw. apply andb_true_iff in Hw as [Hw Hws]. apply andb_true_iff in Hw as [Hwc Hwt']. cbn [visit_children] in E.
    destruct (abstract u c st) as [[[[keep u1] taken] st1] |] eqn:Ea; [| discriminate].
    assert (rest_at text o = w ++ print c ++ (t' ++ print_children cs ++ close_tag n ++ r)) as Er'.
    { rewrite Er. unfold print_children. cbn [flat_map fst snd]. now rewrite <- !app_assoc. }
    destruct (tag_at o w c _ Ho Hwc Hwt Er') as (Hlt & Hgt & Hhd & Hend & Erb & Hdecl). destruct fuel as [| fuel]; [lia |]. cbn [traverse_loop].
    rewrite (going_loop p st Hsim), Hgo. cbn [negb]. rewrite Hdoc. pose proof (zlength_nonneg w).
    set (lt := o + zlength w) in *. set (gt := lt + 1 + zlength (declaration (tag c) (atts c))) in *. pose proof (zlength_nonneg (declaration (tag c) (atts c))).
    run (memchr_at o 60 Ho). rewrite Hlt, is_NULL_add, Hbase. run (memchr_at o 62 Ho). rewrite Hgt, is_NULL_add, Hbase.
    rewrite ptr_add_add. fold lt. run Hhd. replace (o + (gt - o)) with gt by ring. run (ptr_diff_add base gt lt m Hbase).
    cbn [cur_ptr cur_at]. run (ptr_diff_add base gt o m Hbase). fold (cur_at base text o).
    destruct c as [k a f ccs]. pose proof Hwc as Hwc'. cbn [wf] in Hwc'. apply andb_true_iff in Hwc' as [Hwc' _]. apply andb_true_iff in Hwc' as [Hwc' _]. apply andb_true_iff in Hwc' as [Hk Hatts].
    cbn [tag atts] in *. destruct (name_head k Hk) as (x & k' & Ek & Hx & _). replace (hd 0 k =? 47) with false by (rewrite Ek; cbn; lia). cbv zeta.
    rewrite (u64_small (gt - lt)), (u64_small (gt - lt - 1)), (u64_small (gt - o + 1)) by (unfold is_u64; lia). rewrite (advance_at base text Hlen) by lia.
    replace (o + (gt - o + 1)) with (gt + 1) by ring. set (p1 := set_doc p (cur_at base text (gt + 1))).
    destruct (load_node_decl_ok p1 m _ (cur_at base text (gt + 1)) k a Hk Hatts Hdecl ltac:(cbn [cur_len]; lia)) as (node & l & Ed & Nn & Na & Nb & Np & Hl).
    change (doc p1) with (cur_at base text (gt + 1)). run Ed. set (p2 := set_slots p1 l).
    assert (node_ok node (Elem k a f ccs) (gt + 1)) as Hnode by now constructor.
    assert (sim p2 st) as Hsim2 by (destruct Hsim; now constructor).
    specialize (Hon u _ st _ Hwc Ea (gt + 1) node p2 (t' ++ print_children cs ++ close_tag n ++ r) Hnode ltac:(lia) Erb (fun _ => Hl) Np Hsim2
      ltac:(auto) ltac:(discriminate)). cbv beta iota in Hon.
    destruct Hon as (node' & p3 & Erun & Hnode' & Hproc & Hsim3 & Hstack & Hfree & Htaken). assert (st1.1 = false -> callback_stack p3 = callback_stack p2) as Hstack' by (intros Hs; now apply Hstack). clear Hstack. rename Hstack' into Hstack. run Erun.
    destruct keep; cbn [negb] in E |- *.
    2: { injection E as <- <-. eexists _, _. split; [reflexivity |]. split; [destruct Hsim3; now constructor |].
         split; [right; split; [f_equal; apply (sm_error _ _ Hsim3) | reflexivity] |]. split; [discriminate |]. unfold going. discriminate. }
    rewrite (sm_stop _ _ Hsim3), Hproc. pose proof (zlength_nonneg (inner (Elem k a f ccs))). pose proof (zlength_nonneg (close_tag k)). pose proof (zlength_nonneg t').
    destruct (rest_app (gt + 1) _ _ ltac:(lia) Erb) as [Hin Er1]. destruct (rest_app (gt + 1 + zlength (inner (Elem k a f ccs))) _ _ ltac:(lia) Er1) as [Hcl Er2].
    cbn [tag] in Hcl, Er2. change (gt + 1 + zlength (inner (Elem k a f ccs)) + zlength (close_tag k)) with (node_end (Elem k a f ccs) (gt + 1)) in *.
    assert (node_end (Elem k a f ccs) (gt + 1) + zlength t' + zlength (print_children cs) + zlength (close_tag n)
            = o + zlength w + zlength (print_children ((Elem k a f ccs, t') :: cs)) + zlength (close_tag n)) as Elen.
    { unfold print_children. cbn [flat_map fst snd]. rewrite !zlength_app, print_eq. cbn [tag atts]. rewrite zlength_cons, zlength_app, zlength_cons, zlength_app.
      unfold node_end, gt, lt. cbn [tag]. lia. }
    assert (forall p', sim p' st1 -> going st1 = true -> callback_stack p' = callback_stack p3 -> doc p' = cur_at base text (node_end (Elem k a f ccs) (gt + 1)) ->
      visit_children abstract cs u1 st1 = Some (u', st') ->
      exists res p'', traverse_loop fuel on_node u1 p' m = Ret (res, u', p'') m /\ sim p'' st'
        /\ (res = None \/ (res = Some st'.2 /\ st'.1 = true)) /\ (st'.1 = false -> callback_stack p'' = callback_stack p)
        /\ (going st' = true -> doc p'' = cur_at base text (o + zlength w + zlength (print_children ((Elem k a f ccs, t') :: cs)) + zlength (close_tag n)))) as Hgoon.
    { intros p' Hs' Hg' Hst' Hd' E'. assert (callback_stack p3 = callback_stack p) as Hst3.
      { rewrite Hstack; [reflexivity |]. unfold going in Hg'. now destruct (st1.1). }
      assert (0 <= node_end (Elem k a f ccs) (gt + 1) <= zlength text /\ o < node_end (Elem k a f ccs) (gt + 1)) as [Hrange Hpast].
      { revert Hcl. unfold node_end, gt, lt. cbn [tag]. lia. }
      destruct (IH fuel t' (node_end (Elem k a f ccs) (gt + 1)) u1 st1 u' st' p' Hws Hwt' Hrange Er2 Hd' Hg' Hs' ltac:(rewrite Hst', Hst3; exact Hdepth) ltac:(lia) E')
        as (res & p'' & E1 & E2 & E3 & E4 & E5).
      - exists res, p''. split; [exact E1 |]. split; [exact E2 |]. split; [exact E3 |]. split; [intros Hs; rewrite E4, Hst', Hst3 by exact Hs; reflexivity |].
        intros Hg. rewrite E5 by exact Hg. f_equal. exact Elen. }
    destruct (negb st1.1 && negb taken) eqn:Eskip.
    + destruct (body_ok (Elem k a f ccs)) eqn:Ebody; [| discriminate]. apply andb_true_iff in Eskip as [_ Et]. apply negb_true_iff in Et. destruct (Hfree Et) as [Hg1 Hd1].
      destruct (body_run p3 node' (Elem k a f ccs) (gt + 1) _ Hwc Ebody Hnode' ltac:(lia) Erb Hd1) as (body & _ & Eadv). run Eadv.
      rewrite (sm_error _ _ Hsim3). assert (st1.2 = AWS_OP_SUCCESS) as -> by (unfold going in Hg1; apply andb_true_iff in Hg1 as [_ Hg1]; now apply bool_decide_eq_true in Hg1).
      apply Hgoon; auto. destruct Hsim3; now constructor.
    + destruct (going st1) eqn:Eg.
      * apply Hgoon; auto. apply Htaken; [| reflexivity]. unfold going in Eg. destruct (st1.1); [discriminate |]. destruct taken; [reflexivity | discriminate].
      * injection E as <- <-. exists None, p3. split.
        { destruct fuel; cbn [traverse_loop]; rewrite (going_loop p3 st1 Hsim3), Eg; reflexivity. }
        split; [exact Hsim3 |]. split; [now left |]. split; [intros Hs; rewrite Hstack by exact Hs; reflexivity | rewrite Eg; discriminate].
Qed.
End children.

(** What is inside a node, at the length of its tags. *)
Lemma node_span t b r : 0 <= b <= zlength text -> rest_at text b = inner t ++ close_tag (tag t) ++ r -> b <= node_end t b <= zlength text.
Proof.
  intros Hb Er. destruct (rest_app b _ _ Hb Er) as [H1 Er1]. pose proof (zlength_nonneg (inner t)). pose proof (zlength_nonneg (close_tag (tag t))).
  destruct (rest_app (b + zlength (inner t)) _ _ ltac:(lia) Er1) as [H2 _]. unfold node_end. lia.
Qed.

Lemma traverse_ok cb node t b (p : parser) r depth st u u' st' :
  (forall u t st res, wf t = true -> arun maxd (cb u) t false false (depth + 1) st = Some res -> simulates (fun node p => run (cb u) node p) t false false (depth + 1) st res) ->
  wf t = true -> 0 <= b <= zlength text -> rest_at text b = inner t ++ close_tag (tag t) ++ r -> doc p = cur_at base text b ->
  zlength (callback_stack p) = depth -> depth < maxd -> going st = true -> sim p st ->
  visit_children (fun u c st => arun maxd (cb u) c false false (depth + 1) st) (children t) u st = Some (u', st') ->
  exists p', aws_xml_node_traverse (Some (cb, fun u node p => run (cb u) node p)) u node p m = Ret (st'.2, u', set_processed node, p') m
    /\ sim p' st' /\ (st'.1 = false -> callback_stack p' = callback_stack p) /\ (going st' = true -> doc p' = cur_at base text (node_end t b)).
Proof.
  intros IH Hw Hb Er Hdoc Hdepth Hmax Hgo Hsim E. pose proof (text_bounds text Hlen) as HL. destruct t as [n a f cs]. cbn [wf tag children inner] in *.
  apply andb_true_iff in Hw as [Hw Hcs]. apply andb_true_iff in Hw as [Hw Hf]. apply andb_true_iff in Hw as [Hn _]. rewrite <- app_assoc in Er.
  unfold aws_xml_node_traverse. cbv zeta. rewrite (sm_depth _ _ Hsim), Hdepth, (proj2 (Z.leb_gt maxd depth) Hmax).
  set (p1 := set_stack p (callback_stack p ++ [cb])). assert (sim p1 st) as Hsim1 by (destruct Hsim; now constructor).
  destruct (traverse_loop_ok (depth + 1) _ _ IH n r cs Hn (S (Z.to_nat (cur_len (doc p1)))) f b u st u' st' p1 Hcs Hf Hb Er Hdoc Hgo Hsim1) as (res & p' & Erun & Hsim' & Hres & Hst & Hd).
  { cbn [p1 callback_stack set_stack]. rewrite zlength_app, Hdepth. reflexivity. }
  { cbn [p1 doc set_stack]. rewrite Hdoc. cbn [cur_at cur_len]. lia. }
  { exact E. }
  run Erun. destruct Hres as [-> | [-> Hs]].
  - rewrite (sm_stop _ _ Hsim'). destruct (st'.1) eqn:Es.
    + exists p'. split; [cbn; now rewrite (sm_error _ _ Hsim') |]. split; [exact Hsim' |]. split; [discriminate |]. unfold going. now rewrite Es.
    + eexists. split; [cbn; now rewrite (sm_error _ _ Hsim') |]. split; [destruct Hsim'; now constructor |]. split; [intros _; cbn; rewrite Hst by reflexivity; apply removelast_last |].
      intros Hg. cbn. rewrite Hd by exact Hg. f_equal. unfold node_end. cbn [inner tag]. rewrite zlength_app. lia.
  - exists p'. split; [reflexivity |]. split; [exact Hsim' |]. rewrite Hs. split; [discriminate |]. unfold going. now rewrite Hs.
Qed.

(** A callback on a node does what the abstract run says. *)
Lemma client_run_ok c : forall t touched taken depth st res, wf t = true -> arun maxd c t touched taken depth st = Some res ->
  simulates (fun node p => run c node p) t touched taken depth st res.
Proof.
  induction c as [keep u | k IH | i k IH | k IH | cb IHcb u k IH | u k IH]; intros t touched taken depth st res Hw E b node p r Hnode Hb Er Hslots Hproc Hsim Hfree Htaken; cbn [arun] in E; cbn [run].
  - injection E as <-. exists node, p. do 4 (split; [auto |]). split; [auto |]. split; [intros Ht; destruct (Hfree Ht) as (? & ? & _); auto | auto].
  - unfold aws_xml_node_get_name. run (load_ok _ _ _ _ (co_data _ _ _ (nk_name _ _ _ Hnode))). now apply (IH _ t touched taken depth st res Hw E b node p r).
  - destruct (Z.ltb_spec i 0) as [| Hi]; [discriminate |]. unfold aws_xml_node_get_attribute. rewrite (nk_atts _ _ _ Hnode).
    destruct (atts t !! Z.to_nat i) as [x |] eqn:Ex.
    + destruct touched; [discriminate |]. pose proof (lookup_lt_Some _ _ _ Ex). rewrite (proj2 (Z.ltb_lt i _)) by (unfold zlength; lia).
      destruct (Hslots eq_refl) as [_ Hs]. destruct (Hs _ _ Ex) as (s & Es & H1 & H2). rewrite (nth_lookup_Some _ _ _ _ Es). run (load_ok _ _ _ _ (co_data _ _ _ H1)). run (load_ok _ _ _ _ (co_data _ _ _ H2)).
      replace (x.1, x.2) with x by now destruct x. now apply (IH _ t false taken depth st res Hw E b node p r).
    + apply lookup_ge_None in Ex. rewrite (proj2 (Z.ltb_ge i _)) by (unfold zlength; lia). now apply (IH _ t touched taken depth st res Hw E b node p r).
  - destruct taken; [discriminate |]. cbn [orb] in E. destruct (body_ok t) eqn:Ebody; [| discriminate]. cbn [negb] in E. destruct (Hfree eq_refl) as (Hg & Hd & Hdp).
    destruct (body_run p node t b r Hw Ebody Hnode Hb Er Hd) as (body & Hbody & Eadv). 
    assert (aws_xml_node_as_body p node m = Ret (error p, Some body, set_processed node, set_doc p (cur_at base text (node_end t b))) m) as Eas by (unfold aws_xml_node_as_body; run Eadv; reflexivity).
    run Eas. run (load_ok _ _ _ _ (co_data _ _ _ Hbody)).
    assert (st.2 = AWS_OP_SUCCESS) as Hst2 by (unfold going in Hg; apply andb_true_iff in Hg as [_ Hg]; now apply bool_decide_eq_true in Hg).
    rewrite (sm_error _ _ Hsim), Hst2. destruct res as [[[keep u'] taken'] st'].
    refine (IH _ _ t touched true depth st _ Hw E b (set_processed node) (set_doc p (cur_at base text (node_end t b))) r _ Hb Er Hslots eq_refl _ _ _); [destruct Hnode; now constructor | destruct Hsim; now constructor | discriminate | reflexivity].
  - destruct taken; [discriminate |]. destruct (Hfree eq_refl) as (Hg & Hd & Hdp). destruct (Z.leb_spec maxd depth) as [Hmax | Hmax].
    + assert (aws_xml_node_traverse (Some (cb, fun u node p => run (cb u) node p)) u node p m = Ret (malformed, u, set_processed node, set_error p malformed) m) as Et.
      { unfold aws_xml_node_traverse. cbv zeta. now rewrite (sm_depth _ _ Hsim), Hdp, (proj2 (Z.leb_le maxd depth) Hmax). }
      run Et. destruct res as [[[keep u'] taken'] st'].
      refine (IH _ _ t touched true depth (st.1, malformed) _ Hw E b (set_processed node) (set_error p malformed) r _ Hb Er Hslots eq_refl _ _ _);
        [destruct Hnode; now constructor | destruct Hsim; now constructor | discriminate | unfold going; cbn; intros _ Hx; rewrite andb_comm in Hx; discriminate].
    + destruct (visit_children _ (children t) u st) as [[u1 st1] |] eqn:Ev; [| discriminate].
      destruct (traverse_ok cb node t b p r depth st u u1 st1 ltac:(intros; now apply IHcb) Hw Hb Er Hd Hdp Hmax Hg Hsim Ev) as (p1 & Erun & Hsim1 & Hst1 & Hd1). run Erun.
      specialize (IH _ _ t true true depth st1 res Hw E b (set_processed node) p1 r ltac:(destruct Hnode; now constructor) Hb Er ltac:(discriminate) eq_refl Hsim1 ltac:(discriminate) ltac:(auto)).
      destruct res as [[[keep u'] taken'] st']. destruct IH as (node' & p' & H1 & H2 & H3 & H4 & H5 & H6 & H7). exists node', p'. do 4 (split; [assumption |]).
      split; [| auto]. intros Hs. destruct (H5 Hs) as [Hs1 ->]. split; [unfold going in Hg; now destruct (st.1) | now apply Hst1].
  - change (aws_xml_node_traverse None u node p) with (mret (aws_raise_error AWS_ERROR_INVALID_ARGUMENT, u, node, p) : M _). cbn. now apply (IH _ _ t touched taken depth st res Hw E b node p r).
Qed.
End document.

(** ** A whole document

    What precedes the root, and [aws_xml_parser_parse] on a document with a
    printed tree as a run of the callback on that tree. *)

(** A processing instruction, a declaration or a comment, with the text before:
    [<?..>] or [<!..>]. *)
Record statement := Statement { before : list Z; mark : Z; content : list Z }.

Definition print_statement (s : statement) : list Z := before s ++ 60 :: mark s :: content s ++ [62].
Definition statement_ok (s : statement) : bool := text_ok (before s) && ((mark s =? 63) || (mark s =? 33)) && bool_decide (62 ∉ content s).

Definition print_document (pre : list statement) (w : list Z) (t : xml) (rest : list Z) : list Z := flat_map print_statement pre ++ w ++ print t ++ rest.

Section document.
Context {U : Type} (m : mem) (base : ptr) (text : list Z).
Hypothesis Htext : bytes_at m base (zlength text) = Some text.
Hypothesis Hlen : zlength text <= SIZE_MAX / 2.
Hypothesis Hbase : is_NULL base = false.
Abbreviation parser := (@aws_xml_parser U).

Lemma skip_preamble_ok w t rest : wf t = true -> text_ok w = true -> forall pre o fuel,
  forallb statement_ok pre = true -> 0 <= o <= zlength text -> rest_at text o = print_document pre w t rest -> zlength text - o < Z.of_nat fuel ->
  skip_preamble fuel (cur_at base text o) m = Ret (true, cur_at base text (o + zlength (flat_map print_statement pre) + zlength w)) m.
Proof.
  intros Hw Hwt. pose proof (text_bounds text Hlen) as HL. induction pre as [| s pre IH]; intros o fuel Hpre Ho Er Hf; unfold print_document in Er; cbn [flat_map app] in Er.
  - destruct (tag_at m base text Htext Hlen o w t rest Ho Hw Hwt Er) as (Hlt & Hgt & Hhd & Hend & _). pose proof (zlength_nonneg w).
    set (lt := o + zlength w) in *. assert (lt = o + zlength w) as Elt by reflexivity. pose proof (zlength_nonneg (declaration (tag t) (atts t))).
    destruct fuel as [| fuel]; [lia |]. cbn [skip_preamble cur_len cur_at]. rewrite (proj2 (Z.eqb_neq (zlength text - o) 0)) by lia.
    fold (cur_at base text o). change (zlength text - o) with (cur_len (cur_at base text o)).
    run (memchr_at m base text Htext Hlen o 60 Ho). rewrite Hlt, is_NULL_add, Hbase. run (memchr_at m base text Htext Hlen o 62 Ho). rewrite Hgt, is_NULL_add, Hbase.
    fold lt. cbn [cur_ptr cur_at]. run (ptr_diff_add base lt o m Hbase). fold (cur_at base text o). rewrite u64_small by (unfold is_u64; lia).
    rewrite (advance_at base text Hlen) by lia. replace (o + (lt - o)) with lt by ring. cbn [cur_ptr cur_at]. rewrite ptr_add_add. run Hhd.
    destruct t as [k a f cs]. cbn [wf tag] in *. apply andb_true_iff in Hw as [Hw _]. apply andb_true_iff in Hw as [Hw _]. apply andb_true_iff in Hw as [Hk _].
    destruct (name_head k Hk) as (x & k' & -> & _ & Hx1 & Hx2). cbn [hd]. rewrite (proj2 (Z.eqb_neq x 63)), (proj2 (Z.eqb_neq x 33)) by assumption. cbn [orb].
    change (zlength (flat_map print_statement [])) with 0. rewrite Z.add_0_r. reflexivity.
  - cbn [forallb] in Hpre. apply andb_true_iff in Hpre as [Hs Hpre]. unfold statement_ok in Hs. apply andb_true_iff in Hs as [Hs Hc]. apply andb_true_iff in Hs as [Hb Hm].
    apply bool_decide_eq_true in Hc. destruct s as [b mk c]. cbn [before mark content] in *. unfold print_statement in Er at 1. cbn [before mark content] in Er.
    rewrite <- !app_assoc in Er. cbn [app] in Er. rewrite <- app_assoc in Er. cbn [app] in Er.
    destruct (rest_app text o b _ Ho Er) as [Hlt Er1]. pose proof (zlength_nonneg b). pose proof (zlength_nonneg c). set (lt := o + zlength b) in *. assert (lt = o + zlength b) as Elt by reflexivity.
    assert (index_of 60 (rest_at text o) = Some (zlength b)) as E60 by (rewrite Er; apply index_of_app_notin; apply text_notin; auto).
    assert (index_of 62 (rest_at text o) = Some (zlength b + 2 + zlength c)) as E62.
    { rewrite Er. replace (b ++ 60 :: mk :: c ++ 62 :: _) with ((b ++ 60 :: mk :: c) ++ 62 :: (flat_map print_statement pre ++ w ++ print t ++ rest)) by (now rewrite <- app_assoc).
      rewrite index_of_app_notin; [f_equal; rewrite zlength_app, !zlength_cons; lia |]. rewrite elem_of_app, !elem_of_cons.
      intros [Hin | [Hin | [Hin | Hin]]]; [revert Hin; apply text_notin; auto | discriminate | lia | now apply Hc]. }
    assert (rest_at text lt = (60 :: mk :: c ++ [62]) ++ flat_map print_statement pre ++ w ++ print t ++ rest) as Er1' by (rewrite Er1; cbn [app]; now rewrite <- app_assoc).
    destruct (rest_app text lt _ _ ltac:(lia) Er1') as [Hend Er2]. rewrite !zlength_cons, zlength_app in Hend, Er2. change (zlength [62]) with 1 in *.
    assert (load_u8 (ptr_add base (lt + 1)) m = Ret mk m) as Hhd.
    { apply (load_u8_at m base (zlength text) text); [exact Htext | lia |]. assert (rest_at text lt !! 1%nat = Some mk) as Hr by now rewrite Er1.
      unfold rest_at in Hr. rewrite lookup_drop in Hr. rewrite <- Hr. f_equal. lia. }
    destruct fuel as [| fuel]; [lia |]. cbn [skip_preamble cur_len cur_at]. rewrite (proj2 (Z.eqb_neq (zlength text - o) 0)) by lia.
    fold (cur_at base text o). change (zlength text - o) with (cur_len (cur_at base text o)).
    run (memchr_at m base text Htext Hlen o 60 Ho). rewrite E60, is_NULL_add, Hbase. run (memchr_at m base text Htext Hlen o 62 Ho). rewrite E62, is_NULL_add, Hbase.
    fold lt. cbn [cur_ptr cur_at]. run (ptr_diff_add base lt o m Hbase). fold (cur_at base text o). rewrite u64_small by (unfold is_u64; lia).
    rewrite (advance_at base text Hlen) by lia. replace (o + (lt - o)) with lt by ring. cbn [cur_ptr cur_at]. rewrite ptr_add_add. run Hhd. rewrite Hm.
    run (ptr_diff_add base (o + (zlength b + 2 + zlength c)) lt m Hbase). fold (cur_at base text lt).
    rewrite u64_small by (unfold is_u64; lia). rewrite (advance_at base text Hlen) by lia.
    replace (lt + (o + (zlength b + 2 + zlength c) - lt + 1)) with (lt + (1 + (1 + (zlength c + 1)))) by (unfold lt; ring).
    rewrite (IH (lt + (1 + (1 + (zlength c + 1)))) fuel Hpre ltac:(lia) Er2 ltac:(lia)). do 3 f_equal. unfold print_statement at 2. cbn [flat_map before mark content].
    rewrite zlength_app. unfold print_statement at 1. cbn [before mark content]. rewrite zlength_app, !zlength_cons, zlength_app. change (zlength [62]) with 1. lia.
Qed.

Lemma next_sibling_ok cb t rest o u (p : parser) rv u' : wf t = true -> 0 <= o <= zlength text -> rest_at text o = print t ++ rest -> doc p = cur_at base text o ->
  sim (max_depth p) p (false, AWS_OP_SUCCESS) -> callback_stack p = [cb] -> aparse (max_depth p) cb t u = Some (rv, u') ->
  exists p', s_node_next_sibling p u m = Ret (rv, u', p') m.
Proof.
  intros Hw Ho Er Hdoc Hsim Hst E. pose proof (text_bounds text Hlen) as HL.
  destruct (tag_at m base text Htext Hlen o [] t rest Ho Hw eq_refl Er) as (Hlt & Hgt & Hhd & Hend & Erb & Hdecl).
  change (zlength []) with 0 in *. rewrite !Z.add_0_r in *. pose proof (zlength_nonneg (declaration (tag t) (atts t))). set (gt := o + 1 + zlength (declaration (tag t) (atts t))) in *.
  assert (gt = o + 1 + zlength (declaration (tag t) (atts t))) as Egt by reflexivity.
  unfold s_node_next_sibling. rewrite Hdoc. run (memchr_at m base text Htext Hlen o 60 Ho). rewrite Hlt, is_NULL_add, Hbase. rewrite Z.add_0_r.
  cbn [cur_ptr cur_at]. run (ptr_diff_add base o o m Hbase). fold (cur_at base text o). rewrite Z.sub_diag. change (u64 0) with 0. rewrite (advance_at base text Hlen) by lia. rewrite Z.add_0_r.
  cbn [doc set_doc]. run (memchr_at m base text Htext Hlen o 62 Ho). rewrite Hgt, is_NULL_add, Hbase. replace (o + (gt - o)) with gt by ring. run (ptr_diff_add base gt o m Hbase).
  cbn [cur_ptr cur_at]. run (ptr_diff_add base gt o m Hbase). fold (cur_at base text o). cbv zeta.
  rewrite (u64_small (gt - o)), (u64_small (gt - o - 1)), (u64_small (gt - o + 1)) by (unfold is_u64; lia). rewrite (advance_at base text Hlen) by lia.
  replace (o + (gt - o + 1)) with (gt + 1) by ring. set (p1 := set_doc _ (cur_at base text (gt + 1))). rewrite ptr_add_add.
  destruct t as [k a f cs]. pose proof Hw as Hw'. cbn [wf] in Hw'. cbn [tag atts] in *. apply andb_true_iff in Hw' as [Hw' _]. apply andb_true_iff in Hw' as [Hw' _]. apply andb_true_iff in Hw' as [Hk Ha].
  destruct (load_node_decl_ok p1 m _ (cur_at base text (gt + 1)) k a Hk Ha Hdecl ltac:(cbn [cur_len]; lia)) as (node & l & Ed & Nn & Na & Nb & Np & Hl).
  change (doc p1) with (cur_at base text (gt + 1)). run Ed. cbn [p1 callback_stack set_slots set_doc]. rewrite Hst. cbn [last].
  unfold aparse in E. destruct (arun _ _ _ _ _ _ _) as [[[[keep u1] taken] st] |] eqn:Ea; [| discriminate].
  pose proof (client_run_ok (max_depth p) m base text Htext Hlen Hbase _ _ _ _ _ _ _ Hw Ea (gt + 1) node (set_slots p1 l) rest) as Hrun. cbv beta iota in Hrun.
  destruct Hrun as (node' & p' & Erun & Hnode' & Hproc & Hsim' & _ & Hfree & _);
    [now constructor | lia | exact Erb | auto | exact Np | destruct Hsim; now constructor | intros _; split; [reflexivity |]; split; [reflexivity | cbn; now rewrite Hst] | discriminate |].
  run Erun. rewrite Hproc. destruct taken; cbn [negb].
  - injection E as <- <-. eexists. cbn. now rewrite (sm_error _ _ _ Hsim').
  - destruct (body_ok (Elem k a f cs)) eqn:Ebody; [| discriminate]. injection E as <- <-. destruct (Hfree eq_refl) as [Hg Hd].
    destruct (body_run m base text Htext Hlen Hbase (set_stop p' (negb keep)) node' (Elem k a f cs) (gt + 1) rest Hw Ebody Hnode' ltac:(lia) Erb Hd) as (body & _ & Eadv). run Eadv.
    assert (st.2 = AWS_OP_SUCCESS) as Hs by (unfold going in Hg; apply andb_true_iff in Hg as [_ Hg]; now apply bool_decide_eq_true in Hg).
    cbn [error set_stop set_doc]. rewrite (sm_error _ _ _ Hsim'), Hs. now eexists.
Qed.

Definition depth_limit (options_max_depth : Z) : Z := if options_max_depth =? 0 then s_max_document_depth else options_max_depth.

Lemma parse_ok (cb : callback U) pre w t rest u options_max_depth rv u' : text = print_document pre w t rest -> forallb statement_ok pre = true -> text_ok w = true -> wf t = true ->
  aparse (depth_limit options_max_depth) cb t u = Some (rv, u') ->
  exists p', aws_xml_parser_parse (aws_xml_parser_new (mk_cursor (zlength text) base) options_max_depth) (Some cb) u m = Ret (rv, u', p') m.
Proof.
  intros Et Hpre Hwt Hw E. unfold aws_xml_parser_parse. cbv zeta. cbn [doc set_stack aws_xml_parser_new cur_len].
  replace (mk_cursor (zlength text) base) with (cur_at base text 0) by (unfold cur_at; now rewrite Z.sub_0_r, ptr_add_0).
  pose proof (zlength_nonneg text). run (skip_preamble_ok w t rest Hw Hwt pre 0 (S (Z.to_nat (zlength text))) Hpre ltac:(lia) Et ltac:(lia)). cbn [negb].
  pose proof (zlength_nonneg (flat_map print_statement pre)). pose proof (zlength_nonneg w). unfold print_document in Et.
  destruct (rest_app text 0 (flat_map print_statement pre) _ ltac:(lia) Et) as [H2 E2]. destruct (rest_app text (0 + zlength (flat_map print_statement pre)) w _ ltac:(lia) E2) as [H3 E3].
  match goal with |- context [s_node_next_sibling ?q] => set (p := q) end.
  assert (max_depth p = depth_limit options_max_depth) as Hmax by (unfold depth_limit; cbn; destruct (options_max_depth =? 0); reflexivity). rewrite <- Hmax in E.
  apply (next_sibling_ok cb t rest (0 + zlength (flat_map print_statement pre) + zlength w) u p rv u' Hw ltac:(lia) E3 eq_refl ltac:(now constructor) eq_refl E).
Qed.
End document.
