(* ===== verification/XmlClaims.v ===== *)
(** * The XML parser: what it promises

    Taking the body of a node, any callbacks on a document, and a callback that
    builds the tree again: round trip, and the limit on the depth. *)

From S2P Require Import Prelude Math Memory ByteBuf ByteBufSpec ByteCursorSpec ByteCursorText Xml XmlSpec XmlTree XmlRun.
Import ByteBuf Xml.

Local Open Scope Z_scope.

(** ** A callback that builds the tree *)

(** The attributes from [i] on, at most [n]. *)
Fixpoint get_attributes {U} (n : nat) (i : Z) (acc : list (list Z * list Z)) (k : list (list Z * list Z) -> client U) : client U :=
  match n with
  | O => k acc
  | S n => GetAttribute i (fun r => match r with Ok a => get_attributes n (i + 1) (acc ++ [a]) k | Err _ => k acc end)
  end.

Section build.
Context (leaf : list Z -> bool).

(** The body of a node with a name in [leaf] is taken as text; the others are
    gone into, at most [fuel] deep. *)
Fixpoint build (fuel : nat) (u : list xml) : client (list xml) :=
  GetName (fun n => get_attributes 10 0 [] (fun a =>
    if leaf n then AsBody (fun _ body => Return true (u ++ [Elem n a body []]))
    else match fuel with
         | O => Return false u
         | S fuel => Traverse (build fuel) [] (fun _ cs => Return true (u ++ [Elem n a [] (map (fun c => (c, [])) cs)]))
         end)).

(** The tree that it should build. *)
Fixpoint elements (t : xml) : xml :=
  let 'Elem n a f cs := t in
  if leaf n then Elem n a (inner (Elem n a f cs)) [] else Elem n a [] (map (fun c => (elements c.1, [])) cs).

Fixpoint readable_tree (t : xml) : bool :=
  if leaf (tag t) then body_ok t else let 'Elem _ _ _ cs := t in forallb (fun c => readable_tree c.1) cs.

(** How many levels are gone into. *)
Fixpoint levels (t : xml) : nat :=
  let 'Elem n _ _ cs := t in if leaf n then O else S (fold_right (fun c k => Nat.max (levels c.1) k) O cs).
Definition levels_of (cs : list (xml * list Z)) : nat := fold_right (fun c k => Nat.max (levels c.1) k) O cs.

Lemma get_attributes_ok {U} maxd t depth st taken (k : list (list Z * list Z) -> client U) n : forall i acc,
  (length (atts t) <= i + n)%nat ->
  arun maxd (get_attributes n (Z.of_nat i) acc k) t false taken depth st = arun maxd (k (acc ++ drop i (atts t))) t false taken depth st.
Proof.
  induction n as [| n IH]; intros i acc Hn; cbn [get_attributes arun].
  - rewrite drop_ge by lia. now rewrite app_nil_r.
  - rewrite (proj2 (Z.ltb_ge (Z.of_nat i) 0)) by lia. rewrite Nat2Z.id. destruct (atts t !! i) as [x |] eqn:Ex.
    + replace (Z.of_nat i + 1) with (Z.of_nat (S i)) by lia. rewrite IH by lia. rewrite (drop_S _ _ _ Ex). now rewrite <- app_assoc.
    + apply lookup_ge_None in Ex. rewrite drop_ge by exact Ex. now rewrite app_nil_r.
Qed.

Abbreviation fresh := (false, AWS_OP_SUCCESS).

Definition built (maxd : Z) (fuel : nat) (depth : Z) (t : xml) : Prop :=
  forall u, wf t = true -> readable_tree t = true -> (levels t <= fuel)%nat ->
  if depth + Z.of_nat (levels t) <=? maxd
  then arun maxd (build fuel u) t false false depth fresh = Some (true, u ++ [elements t], true, fresh)
  else exists u', arun maxd (build fuel u) t false false depth fresh = Some (true, u', true, (false, malformed)).

Lemma build_children maxd fuel depth cs : Forall (fun c => built maxd fuel depth c.1) cs -> forall u,
  depth <= maxd -> forallb (fun c => wf c.1 && text_ok c.2) cs = true -> forallb (fun c => readable_tree c.1) cs = true -> (levels_of cs <= fuel)%nat ->
  if depth + Z.of_nat (levels_of cs) <=? maxd
  then visit_children (fun u c st => arun maxd (build fuel u) c false false depth st) cs u fresh = Some (u ++ map (fun c => elements c.1) cs, fresh)
  else exists u', visit_children (fun u c st => arun maxd (build fuel u) c false false depth st) cs u fresh = Some (u', (false, malformed)).
Proof.
  induction cs as [| [c t] cs IH]; intros HF u Hd Hw Hr Hf; cbn [levels_of fold_right fst] in *.
  - rewrite Z.add_0_r, (proj2 (Z.leb_le _ _) Hd). cbn [map visit_children]. now rewrite app_nil_r.
  - apply Forall_cons in HF as [Hc HF]. cbn [forallb fst snd] in Hw, Hr. apply andb_true_iff in Hw as [Hw Hws]. apply andb_true_iff in Hw as [Hw _]. apply andb_true_iff in Hr as [Hr Hrs].
    change (fold_right (fun c k => Nat.max (levels c.1) k) O cs) with (levels_of cs) in *.
    cbn [fst] in Hc. specialize (Hc u Hw Hr ltac:(lia)). cbn [visit_children map fst].
    destruct (Z.leb_spec (depth + Z.of_nat (levels c)) maxd) as [H1 | H1].
    + rewrite Hc. cbn [negb fst snd andb]. change (going fresh) with true. cbv iota. specialize (IH HF (u ++ [elements c]) Hd Hws Hrs ltac:(lia)).
      rewrite <- app_assoc in IH. cbn [app] in IH.
      destruct (Z.leb_spec (depth + Z.of_nat (levels_of cs)) maxd); destruct (Z.leb_spec (depth + Z.of_nat (levels c `max` levels_of cs)) maxd); (exact IH || lia).
    + destruct Hc as [u' Hc]. rewrite Hc. destruct (Z.leb_spec (depth + Z.of_nat (levels c `max` levels_of cs)) maxd); [lia |]. exists u'. reflexivity.
Qed.

Lemma build_ok maxd t : forall fuel depth, depth <= maxd -> built maxd fuel depth t.
Proof.
  induction t as [n a f cs IH] using xml_tree_ind. intros fuel depth Hd u Hw Hr Hf. pose proof Hw as Hw'. cbn [wf] in Hw'. apply andb_true_iff in Hw' as [Hw' Hcs].
  apply andb_true_iff in Hw' as [Hw' _]. apply andb_true_iff in Hw' as [_ Ha]. unfold atts_ok in Ha. apply andb_true_iff in Ha as [Ha _]. apply Nat.leb_le in Ha.
  cbn [readable_tree tag] in Hr. cbn [levels elements] in *. change (fold_right (fun c k => Nat.max (levels c.1) k) O cs) with (levels_of cs) in *.
  assert (forall k, arun maxd (get_attributes 10 0 [] k) (Elem n a f cs) false false depth fresh = arun maxd (k a : client (list xml)) (Elem n a f cs) false false depth fresh) as Hatts.
  { intros k. change 0 with (Z.of_nat 0). rewrite get_attributes_ok by (cbn [atts]; lia). reflexivity. }
  destruct fuel as [| fuel]; cbn [build arun tag]; rewrite Hatts; destruct (leaf n) eqn:Eleaf.
  - rewrite Z.add_0_r, (proj2 (Z.leb_le _ _) Hd). cbn [arun orb negb]. now rewrite Hr.
  - lia.
  - rewrite Z.add_0_r, (proj2 (Z.leb_le _ _) Hd). cbn [arun orb negb]. now rewrite Hr.
  - cbn [arun children fst snd]. destruct (Z.leb_spec maxd depth) as [H1 | H1].
    { rewrite (proj2 (Z.leb_gt _ maxd)) by lia. now eexists. }
    pose proof (build_children maxd fuel (depth + 1) cs ltac:(apply (Forall_impl _ _ _ IH); intros c Hc; apply Hc; lia) [] ltac:(lia) Hcs Hr ltac:(lia)) as H.
    replace (depth + 1 + Z.of_nat (levels_of cs)) with (depth + Z.of_nat (S (levels_of cs))) in H by lia.
    destruct (depth + Z.of_nat (S (levels_of cs)) <=? maxd).
    + rewrite H. cbn [arun app snd]. now rewrite map_map.
    + destruct H as [u' H]. rewrite H. now eexists.
Qed.
End build.

(** Trees that hold no more than the callback hands on: text only in the elements
    that are taken as text, and elements only in the others. *)
Fixpoint data_tree (leaf : list Z -> bool) (t : xml) : bool :=
  let 'Elem n _ f cs := t in
  if leaf n then bool_decide (length cs = 0%nat)
  else bool_decide (f = []) && forallb (fun c => data_tree leaf c.1 && bool_decide (c.2 = [])) cs.

Lemma data_tree_readable leaf t : data_tree leaf t = true -> readable_tree leaf t = true.
Proof.
  induction t as [n a f cs IH] using xml_tree_ind. cbn [data_tree readable_tree tag]. destruct (leaf n).
  - intros H. apply bool_decide_eq_true in H. now destruct cs.
  - intros H. apply andb_true_iff in H as [_ H]. rewrite forallb_forall in *. intros c Hc. specialize (H c Hc). apply andb_true_iff in H as [H _].
    rewrite Forall_forall in IH. apply IH; [now apply list_elem_of_In | exact H].
Qed.

Lemma data_tree_elements leaf t : data_tree leaf t = true -> elements leaf t = t.
Proof.
  induction t as [n a f cs IH] using xml_tree_ind. cbn [data_tree elements]. destruct (leaf n); intros H.
  - apply bool_decide_eq_true in H. destruct cs; [| discriminate]. cbn [inner print_children flat_map]. now rewrite app_nil_r.
  - apply andb_true_iff in H as [Hf H]. apply bool_decide_eq_true in Hf as ->. f_equal. induction cs as [| [c w] cs IHcs]; [reflexivity |].
    apply Forall_cons in IH as [Hc IH]. cbn [forallb fst snd map] in *. apply andb_true_iff in H as [H Hs]. apply andb_true_iff in H as [H Hw].
    apply bool_decide_eq_true in Hw as ->. now rewrite Hc, IHcs.
Qed.

(** ** Orderly callbacks

    A callback that takes its node at most once, and asks for attributes only
    before it goes into the node. [touched] and [taken] say what was done. *)
Fixpoint orderly {U} (c : client U) (touched taken : bool) : Prop :=
  match c with
  | Return _ _ => True
  | GetName k => forall n, orderly (k n) touched taken
  | GetAttribute i k => 0 <= i /\ touched = false /\ forall a, orderly (k a) touched taken
  | AsBody k => taken = false /\ forall rv l, orderly (k rv l) touched true
  | Traverse cb _ k => taken = false /\ (forall u, orderly (cb u) false false) /\ forall rv u, orderly (k rv u) true true
  | TraverseNull _ k => forall rv u, orderly (k rv u) touched taken
  end.

(** No element has one inside with a longer name that begins with its own. *)
Fixpoint names_apart (t : xml) : bool := body_ok t && let 'Elem _ _ _ cs := t in forallb (fun c => names_apart c.1) cs.

Lemma names_apart_body t : names_apart t = true -> body_ok t = true.
Proof. destruct t. cbn [names_apart]. now intros [H _]%andb_true_iff. Qed.

Lemma visit_children_some {U} (visit : U -> xml -> status -> option (bool * U * bool * status)) cs :
  Forall (fun c => body_ok c.1 = true /\ forall u st, exists res, visit u c.1 st = Some res) cs -> forall u st, exists res, visit_children visit cs u st = Some res.
Proof.
  induction 1 as [| [c w] cs [Hb H] _ IH]; intros u st; cbn [visit_children]; [eauto |]. cbn [fst] in *.
  destruct (H u st) as ([[[keep u1] taken] st1] & ->). rewrite Hb. destruct keep; cbn [negb]; [| eauto]. destruct (negb st1.1 && negb taken); [apply IH |]. destruct (going st1); eauto.
Qed.

Lemma arun_some {U} maxd (c : client U) : forall t touched touched' taken depth st, names_apart t = true -> orderly c touched taken ->
  (touched' = true -> touched = true) -> exists res, arun maxd c t touched' taken depth st = Some res.
Proof.
  induction c as [keep u | k IH | i k IH | k IH | cb IHcb u k IH | u k IH]; intros t touched touched' taken depth st Hn Ho Ht; cbn [arun orderly] in *; eauto.
  - destruct Ho as (Hi & -> & Ho). rewrite (proj2 (Z.ltb_ge i 0)) by lia. destruct touched'; [discriminate (Ht eq_refl) |]. destruct (atts t !! Z.to_nat i); eapply IH; eauto.
  - destruct Ho as [-> Ho]. rewrite (names_apart_body t Hn). cbn [negb orb]. eapply IH; eauto.
  - destruct Ho as (-> & Hcb & Ho). destruct (maxd <=? depth); [eapply IH; eauto |].
    destruct (visit_children_some (fun u c st => arun maxd (cb u) c false false (depth + 1) st) (children t)) with (u := u) (st := st) as ([u1 st1] & ->); [| eapply IH; eauto].
    destruct t as [n a f cs]. cbn [names_apart children] in *. apply andb_true_iff in Hn as [_ Hn]. rewrite forallb_forall in Hn. apply Forall_forall. intros x Hx.
    apply list_elem_of_In, Hn in Hx. split; [now apply names_apart_body |]. intros u' st'. eapply IHcb; eauto.
Qed.

Lemma aparse_some {U} maxd (cb : callback U) t u : names_apart t = true -> orderly (cb u) false false -> exists rv u', aparse maxd cb t u = Some (rv, u').
Proof.
  intros Hn Ho. unfold aparse. destruct (arun_some maxd (cb u) t false false false 1 (false, AWS_OP_SUCCESS) Hn Ho ltac:(discriminate)) as ([[[keep u1] taken] st] & ->).
  rewrite (names_apart_body t Hn). destruct taken; eauto.
Qed.

(** ** The claims *)

Lemma depth_limit_levels (n : nat) maxd : (Z.of_nat n <? maxd) = (1 + Z.of_nat n <=? maxd).
Proof. destruct (Z.ltb_spec (Z.of_nat n) maxd), (Z.leb_spec (1 + Z.of_nat n) maxd); lia || reflexivity. Qed.


(** C27: On a document that is a preamble, the printed form of a well-formed tree and
    anything behind it, [aws_xml_parser_parse] returns what the callbacks see of the
    tree: their final state and the result are those of the abstract run, wherever
    that run is defined. It is defined for all callbacks that take each node at most
    once and ask for attributes only before they go into the node - whatever else
    they do: read names and attributes, take bodies as text, go into nodes with
    other callbacks, skip nodes, stop, go too deep - if no element has one inside
    whose longer name begins with its own. *)
Theorem xml_clients_refined U m base (cb : callback U) pre w t rest u options_max_depth :
  let text := print_document pre w t rest in
  let maxd := depth_limit options_max_depth in
  bytes_at m base (zlength text) = Some text -> zlength text <= SIZE_MAX / 2 -> is_NULL base = false ->
  forallb statement_ok pre = true -> text_ok w = true -> wf t = true ->
  (forall rv u', aparse maxd cb t u = Some (rv, u') ->
     exists p', aws_xml_parser_parse (aws_xml_parser_new (mk_cursor (zlength text) base) options_max_depth) (Some cb) u m = Ret (rv, u', p') m)
  /\ (orderly (cb u) false false -> names_apart t = true -> exists rv u', aparse maxd cb t u = Some (rv, u')).
Proof.
  intros text maxd Ht Hl Hb Hpre Hw Hwf. split; [| intros Ho Hn; now apply aparse_some].
  intros rv u' E. now apply (parse_ok m base text Ht Hl Hb cb pre w t rest).
Qed.

Lemma build_parsed m base leaf pre w t rest options_max_depth fuel :
  let text := print_document pre w t rest in
  bytes_at m base (zlength text) = Some text -> zlength text <= SIZE_MAX / 2 -> is_NULL base = false ->
  forallb statement_ok pre = true -> text_ok w = true -> wf t = true -> readable_tree leaf t = true ->
  (levels leaf t <= fuel)%nat -> Z.of_nat (levels leaf t) < depth_limit options_max_depth ->
  exists p', aws_xml_parser_parse (aws_xml_parser_new (mk_cursor (zlength text) base) options_max_depth) (Some (build leaf fuel)) [] m
    = Ret (AWS_OP_SUCCESS, [elements leaf t], p') m.
Proof.
  intros text Ht Hl Hb Hpre Hw Hwf Hr Hf Hd. apply (parse_ok m base text Ht Hl Hb _ pre w t rest); try assumption; [reflexivity |].
  pose proof (build_ok leaf (depth_limit options_max_depth) t fuel 1 ltac:(lia) [] Hwf Hr Hf) as H. rewrite <- depth_limit_levels, (proj2 (Z.ltb_lt _ _) Hd) in H.
  unfold aparse. now rewrite H.
Qed.

(** C28: Printing a well-formed tree, no deeper than the parser's limit, and parsing it
    with the callback that builds a tree - it takes the elements with a name in
    [leaf] as text, and goes into the others. When text is only in the elements of
    the first kind and elements are only in the others, the tree itself is given
    back. In general, if no element that is taken as text has one inside whose
    longer name begins with its own, what is given back is [elements leaf t]: every
    element that was gone into with its name, its attributes and its elements in
    order but without the text between them, which the parser hands to nobody, and
    every element that was taken with all that is inside as text. *)
Theorem xml_roundtrip m base leaf pre w t rest options_max_depth fuel :
  let text := print_document pre w t rest in
  let parse := aws_xml_parser_parse (aws_xml_parser_new (mk_cursor (zlength text) base) options_max_depth) (Some (build leaf fuel)) [] m in
  bytes_at m base (zlength text) = Some text -> zlength text <= SIZE_MAX / 2 -> is_NULL base = false ->
  forallb statement_ok pre = true -> text_ok w = true -> wf t = true ->
  (levels leaf t <= fuel)%nat -> Z.of_nat (levels leaf t) < depth_limit options_max_depth ->
  (data_tree leaf t = true -> exists p', parse = Ret (AWS_OP_SUCCESS, [t], p') m)
  /\ (readable_tree leaf t = true -> exists p', parse = Ret (AWS_OP_SUCCESS, [elements leaf t], p') m).
Proof.
  intros text parse Ht Hl Hb Hpre Hw Hwf Hf Hd. pose proof (build_parsed m base leaf pre w t rest options_max_depth fuel Ht Hl Hb Hpre Hw Hwf) as H.
  split; [| intros Hr; now apply H]. intros Hdata. specialize (H (data_tree_readable leaf t Hdata) Hf Hd). now rewrite (data_tree_elements leaf t Hdata) in H.
Qed.

(** A document whose elements are gone into to the limit on the depth or deeper
    is refused: parsing ends with the malformed input error, for every positive
    limit. *)
Theorem xml_depth_refused m base leaf pre w t rest options_max_depth fuel :
  let text := print_document pre w t rest in
  bytes_at m base (zlength text) = Some text -> zlength text <= SIZE_MAX / 2 -> is_NULL base = false ->
  forallb statement_ok pre = true -> text_ok w = true -> wf t = true -> readable_tree leaf t = true ->
  (levels leaf t <= fuel)%nat -> 1 <= depth_limit options_max_depth <= Z.of_nat (levels leaf t) ->
  exists u' p', aws_xml_parser_parse (aws_xml_parser_new (mk_cursor (zlength text) base) options_max_depth) (Some (build leaf fuel)) [] m
    = Ret (AWS_OP_ERR AWS_ERROR_MALFORMED_INPUT_STRING, u', p') m.
Proof.
  intros text Ht Hl Hb Hpre Hw Hwf Hr Hf Hd.
  pose proof (build_ok leaf (depth_limit options_max_depth) t fuel 1 ltac:(lia) [] Hwf Hr Hf) as H. rewrite <- depth_limit_levels, (proj2 (Z.ltb_ge _ _)) in H by lia.
  destruct H as [u' H]. exists u'. apply (parse_ok m base text Ht Hl Hb _ pre w t rest); try assumption; [reflexivity |].
  unfold aparse. now rewrite H.
Qed.

(** ** Witnesses *)

(** [<?x?>], a newline, [<a k=..><b>t</b><c><b></b></c></a>] and one byte behind. *)
Definition demo_pre : list statement := [Statement [] 63 [120; 63]].
Definition demo_tree : xml :=
  Elem [97] [([107], [118])] [] [(Elem [98] [] [116] [], []); (Elem [99] [] [] [(Elem [98] [] [] [], [])], [10])].
Definition demo_text : list Z := print_document demo_pre [10] demo_tree [0].
Definition demo_leaf (n : list Z) : bool := bool_decide (n = [98]).

(** Reads an attribute, then stops at the first element inside. *)
Definition demo_callback (u : Z) : client Z :=
  GetAttribute 0 (fun r => Traverse (fun u => GetName (fun n => Return false (u + zlength n))) (match r with Ok a => zlength a.2 | Err _ => 7 end)
    (fun _ u => Return true (u + 10))).


Lemma xml_clients_refined_witness :
  (exists p', aws_xml_parser_parse (aws_xml_parser_new (mk_cursor (zlength demo_text) (Static demo_text 0)) 5) (Some demo_callback) 0 demo_mem = Ret (AWS_OP_SUCCESS, 12, p') demo_mem)
  /\ exists rv u', aparse (depth_limit 5) demo_callback demo_tree 0 = Some (rv, u').
Proof.
  assert (orderly (demo_callback 0) false false) as Ho by (cbn; split; [lia |]; split; [reflexivity |]; auto).
  destruct (xml_clients_refined Z demo_mem (Static demo_text 0) demo_callback demo_pre [10] demo_tree [0] 0 5) as [H1 H2];
    [reflexivity | vm_compute; discriminate | reflexivity | reflexivity | reflexivity | reflexivity |].
  split; [apply H1; reflexivity | exact (H2 Ho eq_refl)].
Defined.

(** [<a k=..><b>t</b></a>] *)
Definition data_demo : xml := Elem [97] [([107], [118])] [] [(Elem [98] [] [116] [], [])].
Definition data_text : list Z := print_document demo_pre [10] data_demo [0].

Lemma xml_roundtrip_witness :
  exists p', aws_xml_parser_parse (aws_xml_parser_new (mk_cursor (zlength data_text) (Static data_text 0)) 0) (Some (build demo_leaf 2)) [] demo_mem
    = Ret (AWS_OP_SUCCESS, [data_demo], p') demo_mem.
Proof.
  refine (proj1 (xml_roundtrip demo_mem (Static data_text 0) demo_leaf demo_pre [10] data_demo [0] 0 2 _ _ _ _ _ _ _ _) _);
    solve [reflexivity | vm_compute; reflexivity | vm_compute; discriminate | vm_compute; lia].
Defined.

Lemma xml_depth_refused_witness :
  exists u' p', aws_xml_parser_parse (aws_xml_parser_new (mk_cursor (zlength demo_text) (Static demo_text 0)) 2) (Some (build demo_leaf 2)) [] demo_mem
    = Ret (AWS_OP_ERR AWS_ERROR_MALFORMED_INPUT_STRING, u', p') demo_mem.
Proof.
  refine (xml_depth_refused demo_mem (Static demo_text 0) demo_leaf demo_pre [10] demo_tree [0] 2 2 _ _ _ _ _ _ _ _ _);
    solve [reflexivity | vm_compute; reflexivity | vm_compute; discriminate | vm_compute; lia | split; vm_compute; discriminate].
Defined.

(** ** Where the parser departs from XML *)

Definition parse_text {U} (text : list Z) (cb : callback U) (u : U) : option (op_result * U) :=
  match aws_xml_parser_parse (aws_xml_parser_new (mk_cursor (zlength text) (Static text 0)) 0) (Some cb) u demo_mem with
  | Ret (rv, u, _) _ => Some (rv, u)
  | _ => None
  end.

(** [<a><ab></ab></a>], with [a] skipped, is refused: [<ab] counts as an opening
    of [a]. *)
Lemma longer_name_is_refused : parse_text [60; 97; 62; 60; 97; 98; 62; 60; 47; 97; 98; 62; 60; 47; 97; 62] (fun u => Return true u) tt = Some (malformed, tt).
Proof. vm_compute. reflexivity. Qed.

(** [<a>abcd], with the body of [a] taken: the callback gets the error, the parser
    reports success. *)
Lemma missing_closing_tag_is_accepted :
  parse_text [60; 97; 62; 97; 98; 99; 100] (fun _ => AsBody (fun rv _ => Return true rv)) AWS_OP_SUCCESS = Some (AWS_OP_SUCCESS, malformed).
Proof. vm_compute. reflexivity. Qed.
