(* ===== verification/Bus.v ===== *)
(** * The message bus: definitions

    [source/bus.c]. The table of slots is the hash table of [HashTable.v], with
    the address of a message as key; its values point to lists of listeners. The
    linked lists are lists of their nodes in order, each with its address, as
    [LinkedLists.v] justifies; an address is used once, so that a released one
    leads nowhere. Listeners and destructors of payloads are code of the user:
    calling one is an event.

    The first part is common to both buses and takes [notify], which calls a
    function of the user. In the synchronous bus such a function may call the bus
    again at once. In the asynchronous one such calls only add to the queues, and
    are steps of their own in [BusAsync.v]; each definition there is what one
    thread does while it holds the lock, or between two locks. Logging and the
    condition variable, which only says when to look at the queues, are left
    out. So are the block of slots of the table, [struct aws_bus] itself and the
    structure of the synchronous bus; every other block is accounted for. *)

From S2P Require Import Prelude HashTable.
Import HashTable.

Local Open Scope Z_scope.

Module Bus.

Definition AWS_BUS_ADDRESS_ALL : Z := 2 ^ 64 - 1.
Definition AWS_BUS_ADDRESS_CLOSE : Z := 0.

Inductive aws_bus_policy := AWS_BUS_ASYNC_RELIABLE | AWS_BUS_ASYNC_UNRELIABLE | AWS_BUS_SYNC_RELIABLE.

Record bus_listener := mk_listener { deliver : Z; user_data : Z }.

(** The nodes of a list, from the front. *)
Abbreviation listener_list := (list (positive * bus_listener)).

(** A listener or a destructor was called. *)
Inductive event :=
| Delivered (listener address payload user_data : Z)
| Destroyed (destructor payload : Z).

Record bus_slots := mk_slots {
  table : hash_table_state;
  listeners : gmap positive listener_list;
  next_address : positive;
  events : list event
}.

(** [Fault]: undefined behaviour. [Unfinished]: the fuel is used up. *)
Inductive outcome (A : Type) := Done (a : A) | Fault | Unfinished.
Arguments Done {A}.
Arguments Fault {A}.
Arguments Unfinished {A}.

Definition B (A : Type) : Type := bus_slots -> outcome (A * bus_slots).

#[export] Instance B_ret : MRet B := fun A a s => Done (a, s).
#[export] Instance B_bind : MBind B := fun A C f e s =>
  match e s with Done (a, s') => f a s' | Fault => Fault | Unfinished => Unfinished end.

Definition fault {A} : B A := fun _ => Fault.
Definition unfinished {A} : B A := fun _ => Unfinished.

Definition log (ev : event) : B unit := fun s => Done (tt, mk_slots (table s) (listeners s) (next_address s) (events s ++ [ev])).

Definition events_so_far : B (list event) := fun s => Done (events s, s).

Definition new_address : B positive := fun s => Done (next_address s, mk_slots (table s) (listeners s) (Pos.succ (next_address s)) (events s)).

Definition get_list (p : positive) : B listener_list := fun s => match listeners s !! p with Some l => Done (l, s) | None => Fault end.

Definition put_list (p : positive) (l : listener_list) : B unit := fun s => Done (tt, mk_slots (table s) (<[p := l]> (listeners s)) (next_address s) (events s)).

Definition release_list (p : positive) : B unit := fun s =>
  match listeners s !! p with
  | Some _ => Done (tt, mk_slots (table s) (delete p (listeners s)) (next_address s) (events s))
  | None => Fault
  end.

(** What a node is, and the node behind it; NULL is the end of the list. *)
Fixpoint listener_at (node : positive) (l : listener_list) : option (bus_listener * option positive) :=
  match l with
  | [] => None
  | (p, x) :: l => if decide (p = node) then Some (x, fst <$> head l) else listener_at node l
  end.

Definition list_node (list node : positive) : B (bus_listener * option positive) :=
  l ← get_list list;
  match listener_at node l with Some x => mret x | None => fault end.

(** ** Slots *)

Definition bus_find_listeners (address : Z) : B (option positive) := fun s =>
  match aws_hash_table_find (table s) address with
  | None => Unfinished
  | Some None => Done (None, s)
  | Some (Some elem) =>
      match value (element (slot_at (HashTable.slots (table s)) elem)) with
      | Zpos list => Done (Some list, s)
      | Z0 => Done (None, s)
      | Zneg _ => Fault
      end
  end.

(** What [aws_hash_table_put] returns is not looked at. *)
Definition put_slot (address : Z) (list : positive) : B unit := fun s =>
  match aws_hash_table_put (table s) address (Zpos list) with
  | Some (_, _, [], t) => Done (tt, mk_slots t (listeners s) (next_address s) (events s))
  | Some _ => Fault
  | None => Unfinished
  end.

Definition bus_find_or_create_listeners (address : Z) : B positive :=
  found ← bus_find_listeners address;
  match found with
  | Some list => mret list
  | None =>
      list ← new_address;
      _ ← put_list list [];
      _ ← put_slot address list;
      mret list
  end.

Section notify.
Context (fuel : nat) (notify : event -> B unit).

(** The loop; listeners may be added meanwhile. *)
Fixpoint deliver_loop (n : nat) (list : positive) (node : option positive) (address payload : Z) : B unit :=
  match node with
  | None => mret tt
  | Some node =>
      match n with
      | O => unfinished
      | S n =>
          '(listener, _) ← list_node list node;
          _ ← notify (Delivered (deliver listener) address payload (user_data listener));
          '(_, next) ← list_node list node;
          deliver_loop n list next address payload
      end
  end.

Definition s_bus_deliver_msg_to_slot (slot address payload : Z) : B unit :=
  found ← bus_find_listeners slot;
  match found with
  | None => mret tt
  | Some list =>
      l ← get_list list;
      deliver_loop fuel list (fst <$> head l) address payload
  end.

Definition s_bus_deliver_msg (address payload : Z) : B unit :=
  _ ← s_bus_deliver_msg_to_slot AWS_BUS_ADDRESS_ALL address payload;
  s_bus_deliver_msg_to_slot address address payload.

Definition s_bus_subscribe (address callback data : Z) : B op_result :=
  if address =? AWS_BUS_ADDRESS_CLOSE then mret (aws_raise_error AWS_ERROR_INVALID_ARGUMENT)
  else
    list ← bus_find_or_create_listeners address;
    node ← new_address;
    l ← get_list list;
    _ ← put_list list (l ++ [(node, mk_listener callback data)]);
    mret AWS_OP_SUCCESS.

(** The first listener with this function and data is unlinked and released. *)
Fixpoint remove_listener (callback data : Z) (l : listener_list) : listener_list :=
  match l with
  | [] => []
  | (p, x) :: l => if (deliver x =? callback) && (user_data x =? data) then l else (p, x) :: remove_listener callback data l
  end.

Definition s_bus_unsubscribe (address callback data : Z) : B unit :=
  if address =? AWS_BUS_ADDRESS_CLOSE then mret tt
  else
    found ← bus_find_listeners address;
    match found with
    | None => mret tt
    | Some list =>
        l ← get_list list;
        put_list list (remove_listener callback data l)
    end.

(** Should the listener add one meanwhile, the wrong node is unlinked and the
    next round goes through the released one. *)
Fixpoint destroy_loop (n : nat) (list : positive) : B unit :=
  l ← get_list list;
  match last l with
  | None => release_list list
  | Some (back, listener) =>
      match n with
      | O => unfinished
      | S n =>
          _ ← notify (Delivered (deliver listener) AWS_BUS_ADDRESS_CLOSE 0 (user_data listener));
          l ← get_list list;
          match last l with
          | Some (p, _) => if decide (p = back) then _ ← put_list list (removelast l); destroy_loop n list else fault
          | None => fault
          end
      end
  end.

Definition s_bus_destroy_listener_list (list : positive) : B unit := destroy_loop fuel list.

(** The calls that cleaning up the table makes. *)
Fixpoint destroy_lists (evs : list destroy_event) : B unit :=
  match evs with
  | [] => mret tt
  | DestroyKey _ :: _ => fault
  | DestroyValue v :: evs =>
      match v with
      | Zpos list => _ ← s_bus_destroy_listener_list list; destroy_lists evs
      | _ => fault
      end
  end.

Definition clean_up_slots : B unit := fun s => destroy_lists (fst (aws_hash_table_clean_up (Some (table s)))) s.

(** ** The synchronous bus *)

Definition s_bus_sync_clean_up : B unit := clean_up_slots.

Definition s_bus_sync_send (address payload : Z) (destructor : option Z) : B op_result :=
  _ ← s_bus_deliver_msg address payload;
  _ ← (match destructor with Some d => notify (Destroyed d payload) | None => mret tt end);
  mret AWS_OP_SUCCESS.

Definition s_bus_sync_subscribe (address callback data : Z) : B op_result := s_bus_subscribe address callback data.

Definition s_bus_sync_unsubscribe (address callback data : Z) : B unit := s_bus_unsubscribe address callback data.
End notify.

(** Without listeners; [None] when the table cannot be set up. *)
Definition init_slots (hash_ptr : Z -> Z) : option bus_slots :=
  match aws_hash_table_init 8 hash_ptr aws_ptr_eq false true with
  | Ok t => Some (mk_slots t ∅ 1 [])
  | Err _ => None
  end.

Definition s_bus_sync_init := init_slots.

(** A call of the bus. *)
Inductive call :=
| Subscribe (address callback data : Z)
| Unsubscribe (address callback data : Z)
| Send (address payload : Z) (destructor : option Z).

Definition sync_call (fuel : nat) (notify : event -> B unit) (c : call) : B op_result :=
  match c with
  | Subscribe a f d => s_bus_sync_subscribe a f d
  | Unsubscribe a f d => _ ← s_bus_sync_unsubscribe a f d; mret AWS_OP_SUCCESS
  | Send a x d => s_bus_sync_send fuel notify a x d
  end.

Fixpoint sync_calls (fuel : nat) (notify : event -> B unit) (cs : list call) : B (list op_result) :=
  match cs with
  | [] => mret []
  | c :: cs => r ← sync_call fuel notify c; rs ← sync_calls fuel notify cs; mret (r :: rs)
  end.

(** Functions of the user that call the bus: [react] says which calls, after what
    was called so far. [fuel] bounds how deep such calls are nested. *)
Fixpoint reacting (react : list event -> list call) (fuel : nat) (ev : event) : B unit :=
  match fuel with
  | O => unfinished
  | S fuel =>
      _ ← log ev;
      evs ← events_so_far;
      _ ← sync_calls fuel (reacting react fuel) (react evs);
      mret tt
  end.

(** ** The asynchronous bus *)

Record bus_message := mk_message { msg_at : positive; msg_address : Z; msg_payload : Z; msg_destructor : option Z }.

Record pending_listener := mk_pending { sub_address : Z; sub_listener : Z; sub_data : Z; sub_add : bool }.

(** Where the dispatch thread is in its loop; [drains] is [pending_drains]. *)
Inductive dispatch :=
| Waiting (drains : Z)
| Applying (pending_subs : list (positive * pending_listener)) (pending_msgs : list bus_message) (drains : Z)
| Delivering (delivered pending_msgs : list bus_message) (drains : Z)
| Testing (drains : Z)
| Exited.

(** [buffer]: the addresses of the messages in the buffer of the queue, which is
    the block [queue_buffer]; [allocated]: the messages outside of it. [impl_at] is
    the block of the structure itself; [heap] holds the blocks that are in use
    otherwise: those two and the subscriptions that wait, each with its address. *)
Record bus_async_impl := mk_async {
  async_slots : bus_slots;
  buffer : list positive;
  allocated : list positive;
  queue_free : list positive;
  queue_msgs : list bus_message;
  queue_subs : list (positive * pending_listener);
  running : bool;
  reliable : bool;
  thread : dispatch;
  impl_at : positive;
  queue_buffer : option positive;
  heap : gset positive
}.

Definition set_slots (a : bus_async_impl) (s : bus_slots) : bus_async_impl :=
  mk_async s (buffer a) (allocated a) (queue_free a) (queue_msgs a) (queue_subs a) (running a) (reliable a) (thread a) (impl_at a) (queue_buffer a) (heap a).
Definition set_memory (a : bus_async_impl) (m f : list positive) : bus_async_impl :=
  mk_async (async_slots a) (buffer a) m f (queue_msgs a) (queue_subs a) (running a) (reliable a) (thread a) (impl_at a) (queue_buffer a) (heap a).
Definition set_queues (a : bus_async_impl) (msgs : list bus_message) (subs : list (positive * pending_listener)) : bus_async_impl :=
  mk_async (async_slots a) (buffer a) (allocated a) (queue_free a) msgs subs (running a) (reliable a) (thread a) (impl_at a) (queue_buffer a) (heap a).
Definition set_running (a : bus_async_impl) (b : bool) : bus_async_impl :=
  mk_async (async_slots a) (buffer a) (allocated a) (queue_free a) (queue_msgs a) (queue_subs a) b (reliable a) (thread a) (impl_at a) (queue_buffer a) (heap a).
Definition set_thread (a : bus_async_impl) (t : dispatch) : bus_async_impl :=
  mk_async (async_slots a) (buffer a) (allocated a) (queue_free a) (queue_msgs a) (queue_subs a) (running a) (reliable a) t (impl_at a) (queue_buffer a) (heap a).
Definition set_heap (a : bus_async_impl) (h : gset positive) : bus_async_impl :=
  mk_async (async_slots a) (buffer a) (allocated a) (queue_free a) (queue_msgs a) (queue_subs a) (running a) (reliable a) (thread a) (impl_at a) (queue_buffer a) h.

(** Runs a computation on the slots. *)
Definition on_slots {A} (e : B A) (a : bus_async_impl) : outcome (A * bus_async_impl) :=
  match e (async_slots a) with Done (x, s) => Done (x, set_slots a s) | Fault => Fault | Unfinished => Unfinished end.

(** A new block, at an address that was not used before. *)
Definition calloc_block (a : bus_async_impl) : positive * bus_async_impl :=
  let s := async_slots a in
  let p := next_address s in
  (p, set_heap (set_slots a (mk_slots (table s) (listeners s) (Pos.succ p) (events s))) ({[p]} ∪ heap a)).

(** Only a block that is in use may be released. *)
Definition release_block (p : positive) (a : bus_async_impl) : outcome bus_async_impl :=
  if decide (p ∈ heap a) then Done (set_heap a (heap a ∖ {[p]})) else Fault.

(** [destructor] is NULL afterwards. *)
Definition s_bus_message_clean_up (msg : bus_message) : B bus_message :=
  _ ← (match msg_destructor msg with Some d => log (Destroyed d (msg_payload msg)) | None => mret tt end);
  mret (mk_message (msg_at msg) (msg_address msg) 0 None).

Definition s_bus_async_free_message (msg : bus_message) (a : bus_async_impl) : outcome bus_async_impl :=
  match on_slots (s_bus_message_clean_up msg) a with
  | Done (_, a) =>
      if decide (msg_at msg ∈ buffer a) then Done (set_memory a (allocated a) (queue_free a ++ [msg_at msg]))
      else if decide (msg_at msg ∈ allocated a) then Done (set_memory a (filter (fun p => p <> msg_at msg) (allocated a)) (queue_free a))
      else Fault
  | Fault => Fault
  | Unfinished => Unfinished
  end.

(** Taking a message from an empty queue is undefined behaviour. *)
Fixpoint alloc_loop (n : nat) (a : bus_async_impl) : outcome (positive * bus_async_impl) :=
  match last (queue_free a) with
  | Some p => Done (p, set_memory a (allocated a) (removelast (queue_free a)))
  | None =>
      if reliable a then
        match new_address (async_slots a) with
        | Done (p, s) => Done (p, set_memory (set_slots a s) (p :: allocated a) (queue_free a))
        | Fault => Fault
        | Unfinished => Unfinished
        end
      else
        match n, queue_msgs a with
        | _, [] => Fault
        | O, _ => Unfinished
        | S n, msg :: msgs =>
            match s_bus_async_free_message msg (set_queues a msgs (queue_subs a)) with
            | Done a => alloc_loop n a
            | Fault => Fault
            | Unfinished => Unfinished
            end
        end
  end.

Definition s_bus_async_alloc_message (a : bus_async_impl) : outcome (positive * bus_async_impl) := alloc_loop (length (queue_msgs a)) a.

Definition s_bus_async_send (a : bus_async_impl) (address payload : Z) (destructor : option Z) : outcome (op_result * bus_async_impl) :=
  if negb (running a) then Done (aws_raise_error AWS_ERROR_INVALID_STATE, a)
  else
    match s_bus_async_alloc_message a with
    | Done (msg, a) => Done (AWS_OP_SUCCESS, set_queues a (queue_msgs a ++ [mk_message msg address payload destructor]) (queue_subs a))
    | Fault => Fault
    | Unfinished => Unfinished
    end.

Definition s_bus_async_subscribe (a : bus_async_impl) (address listener data : Z) : op_result * bus_async_impl :=
  if address =? AWS_BUS_ADDRESS_CLOSE then (aws_raise_error AWS_ERROR_INVALID_ARGUMENT, a)
  else if negb (running a) then (aws_raise_error AWS_ERROR_INVALID_STATE, a)
  else
    let '(sub, a) := calloc_block a in
    (AWS_OP_SUCCESS, set_queues a (queue_msgs a) (queue_subs a ++ [(sub, mk_pending address listener data true)])).

Definition s_bus_async_unsubscribe (a : bus_async_impl) (address listener data : Z) : bus_async_impl :=
  if address =? AWS_BUS_ADDRESS_CLOSE then a
  else if negb (running a) then a
  else
    let '(unsub, a) := calloc_block a in
    set_queues a (queue_msgs a) (queue_subs a ++ [(unsub, mk_pending address listener data false)]).

Definition apply_listener (p : pending_listener) : B unit :=
  if sub_add p then r ← s_bus_subscribe (sub_address p) (sub_listener p) (sub_data p); mret tt
  else s_bus_unsubscribe (sub_address p) (sub_listener p) (sub_data p).

(** Each subscription is popped, applied and released. *)
Fixpoint s_bus_apply_listeners (pending_subs : list (positive * pending_listener)) (a : bus_async_impl) : outcome bus_async_impl :=
  match pending_subs with
  | [] => Done a
  | (listener, p) :: pending_subs =>
      match on_slots (apply_listener p) a with
      | Done (_, a) =>
          match release_block listener a with
          | Done a => s_bus_apply_listeners pending_subs a
          | Fault => Fault
          | Unfinished => Unfinished
          end
      | Fault => Fault
      | Unfinished => Unfinished
      end
  end.

Definition s_bus_async_should_wake_up (a : bus_async_impl) : bool :=
  negb (running a) || negb (bool_decide (queue_subs a = [])) || negb (bool_decide (queue_msgs a = [])).

(** One message: listeners in the two slots, then the destructor. *)
Definition deliver_message (fuel : nat) (msg : bus_message) : B bus_message :=
  _ ← s_bus_deliver_msg fuel log (msg_address msg) (msg_payload msg);
  s_bus_message_clean_up msg.

(** The messages go back to the free list. *)
Fixpoint free_messages (msgs : list bus_message) (a : bus_async_impl) : outcome bus_async_impl :=
  match msgs with
  | [] => Done a
  | msg :: msgs =>
      match s_bus_async_free_message msg a with
      | Done a => free_messages msgs a
      | Fault => Fault
      | Unfinished => Unfinished
      end
  end.

(** One step of [s_bus_async_deliver]; [None] while it waits, and at its end. *)
Definition dispatch_step (fuel : nat) (a : bus_async_impl) : option (outcome bus_async_impl) :=
  match thread a with
  | Waiting drains =>
      if s_bus_async_should_wake_up a
      then Some (Done (set_thread (set_queues a [] []) (Applying (queue_subs a) (queue_msgs a) drains)))
      else None
  | Applying pending_subs pending_msgs drains =>
      Some (match s_bus_apply_listeners pending_subs a with
            | Done a => Done (set_thread a (match pending_msgs with [] => Testing drains | _ => Delivering [] pending_msgs drains end))
            | Fault => Fault
            | Unfinished => Unfinished
            end)
  | Delivering delivered (msg :: pending_msgs) drains =>
      Some (match on_slots (deliver_message fuel msg) a with
            | Done (msg, a) => Done (set_thread a (Delivering (delivered ++ [msg]) pending_msgs drains))
            | Fault => Fault
            | Unfinished => Unfinished
            end)
  | Delivering delivered [] drains =>
      Some (match free_messages delivered a with
            | Done a => Done (set_thread a (Testing drains))
            | Fault => Fault
            | Unfinished => Unfinished
            end)
  | Testing drains =>
      Some (Done (set_thread a (if running a then Waiting drains
                                else if negb (drains =? 0) then Waiting (drains - 1)
                                else Exited)))
  | Exited => None
  end.

(** [s_bus_async_clean_up] up to waiting for the thread. *)
Definition begin_clean_up (a : bus_async_impl) : bus_async_impl := set_running a false.

Definition release_buffer (a : bus_async_impl) : outcome bus_async_impl :=
  match queue_buffer a with Some b => release_block b a | None => Done a end.

(** The rest, once the thread has ended; [None] when an assertion fails. The
    buffer, the table and the structure itself are released. *)
Definition finish_clean_up (fuel : nat) (a : bus_async_impl) : option (outcome bus_async_impl) :=
  match thread a, queue_msgs a, queue_subs a with
  | Exited, [], [] =>
      Some (match release_buffer a with
            | Done a =>
                match on_slots (clean_up_slots fuel log) a with
                | Done (_, a) => release_block (impl_at a) a
                | Fault => Fault
                | Unfinished => Unfinished
                end
            | Fault => Fault
            | Unfinished => Unfinished
            end)
  | _, _, _ => None
  end.

Definition sizeof_bus_message : Z := 40.

(** [msg_count] as an [int]: negative counts of huge buffers make no messages. The
    addresses are those of the messages in the buffer, of the structure and of the
    buffer. *)
Definition s_bus_async_init (hash_ptr : Z -> Z) (policy : aws_bus_policy) (buffer_size : Z) : option bus_async_impl :=
  match init_slots hash_ptr with
  | None => None
  | Some s =>
      let msg_count := u32 (buffer_size / sizeof_bus_message) in
      let n := if msg_count <? 2 ^ 31 then Z.to_nat msg_count else O in
      let msgs := map Pos.of_nat (seq 1 n) in
      let impl := Pos.of_nat (S n) in
      let queue := if buffer_size =? 0 then None else Some (Pos.succ impl) in
      Some (mk_async (mk_slots (table s) (listeners s) (Pos.succ (Pos.succ impl)) (events s)) msgs [] msgs [] [] true
              (match policy with AWS_BUS_ASYNC_RELIABLE => true | _ => false end) (Waiting 1)
              impl queue (list_to_set (impl :: option_list queue)))
  end.

(** ** Both *)

Inductive aws_bus := sync_bus (s : bus_slots) | async_bus (a : bus_async_impl).

Definition aws_bus_new (hash_ptr : Z -> Z) (policy : aws_bus_policy) (buffer_size : Z) : option aws_bus :=
  match policy with
  | AWS_BUS_ASYNC_RELIABLE | AWS_BUS_ASYNC_UNRELIABLE => async_bus <$> s_bus_async_init hash_ptr policy buffer_size
  | AWS_BUS_SYNC_RELIABLE => sync_bus <$> s_bus_sync_init hash_ptr
  end.

Definition aws_bus_subscribe (b : aws_bus) (address listener data : Z) : outcome (op_result * aws_bus) :=
  match b with
  | sync_bus s => match s_bus_sync_subscribe address listener data s with Done (r, s) => Done (r, sync_bus s) | Fault => Fault | Unfinished => Unfinished end
  | async_bus a => let '(r, a) := s_bus_async_subscribe a address listener data in Done (r, async_bus a)
  end.

Definition aws_bus_unsubscribe (b : aws_bus) (address listener data : Z) : outcome aws_bus :=
  match b with
  | sync_bus s => match s_bus_sync_unsubscribe address listener data s with Done (_, s) => Done (sync_bus s) | Fault => Fault | Unfinished => Unfinished end
  | async_bus a => Done (async_bus (s_bus_async_unsubscribe a address listener data))
  end.

Definition aws_bus_send (fuel : nat) (notify : event -> B unit) (b : aws_bus) (address payload : Z) (destructor : option Z) : outcome (op_result * aws_bus) :=
  match b with
  | sync_bus s => match s_bus_sync_send fuel notify address payload destructor s with Done (r, s) => Done (r, sync_bus s) | Fault => Fault | Unfinished => Unfinished end
  | async_bus a => match s_bus_async_send a address payload destructor with Done (r, a) => Done (r, async_bus a) | Fault => Fault | Unfinished => Unfinished end
  end.

(** For the asynchronous bus: [begin_clean_up], the steps of the thread up to its
    end, and then this. What is left of the bus is returned. *)
Definition aws_bus_destroy (fuel : nat) (notify : event -> B unit) (b : aws_bus) : option (outcome aws_bus) :=
  match b with
  | sync_bus s => Some (match s_bus_sync_clean_up fuel notify s with Done (_, s) => Done (sync_bus s) | Fault => Fault | Unfinished => Unfinished end)
  | async_bus a => match finish_clean_up fuel a with Some (Done a) => Some (Done (async_bus a)) | Some Fault => Some Fault | Some Unfinished => Some Unfinished | None => None end
  end.

End Bus.
