(* ===== verification/BusSync.v ===== *)
(** * The message bus: the slots and the synchronous bus

    The table of slots as a finite map from addresses to lists of listeners, and
    each operation on the slots as one on that map. *)

From S2P Require Import Prelude HashTable HashTableInv HashTableSpec HashTableHistory Bus.
Import HashTable Bus.

Local Open Scope Z_scope.

Lemma bind_B {A C} (e : B A) (f : A -> B C) s a s' : e s = Done (a, s') -> (e ≫= f) s = f a s'.
Proof. intros H. unfold mbind, B_bind. now rewrite H. Qed.

Ltac brun H := erewrite bind_B by (exact H); cbn beta iota.

(** Which list is in which slot. *)
Abbreviation slot_map := (gmap Z (positive * listener_list)).

Definition slot_element (x : Z * (positive * listener_list)) : aws_hash_element := mk_element x.1 (Zpos x.2.1).

Record slots_ok (s : bus_slots) (M : slot_map) : Prop := {
  so_table : table_ok (table s);
  so_callbacks : KeyCallbacks (hash_fn (table s)) (equals_fn (table s));
  so_eq : equals_fn (table s) = aws_ptr_eq;
  so_dk : destroy_key_fn (table s) = false;
  so_dv : destroy_value_fn (table s) = true;
  so_contents : contents (table s) ≡ₚ map slot_element (map_to_list M);
  so_lookup : forall a, lookup (table s) a = (fun x => slot_element (a, x)) <$> M !! a;
  so_lists : forall a p l, M !! a = Some (p, l) -> listeners s !! p = Some l;
  so_inj : forall a a' p l l', M !! a = Some (p, l) -> M !! a' = Some (p, l') -> a = a';
  so_next : forall a p l, M !! a = Some (p, l) -> (p < next_address s)%positive;
  so_nodes : forall a p l, M !! a = Some (p, l) -> NoDup (map fst l) /\ Forall (fun x => x.1 < next_address s)%positive l
}.

(** No list is lost. *)
Definition no_orphans (s : bus_slots) (M : slot_map) : Prop := forall p l, listeners s !! p = Some l -> exists a, M !! a = Some (p, l).

(** The listeners at an address. *)
Definition listeners_at (M : slot_map) (a : Z) : list bus_listener := from_option (fun x => map snd x.2) [] (M !! a).

Lemma listeners_at_insert M a p l b : listeners_at (<[a := (p, l)]> M) b = if b =? a then map snd l else listeners_at M b.
Proof.
  unfold listeners_at. destruct (Z.eqb_spec b a) as [-> | Hne]; [now rewrite lookup_insert_eq | now rewrite lookup_insert_ne by congruence].
Qed.

Lemma ptr_keys_eq (st : hash_table_state) a b : equals_fn st = aws_ptr_eq -> s_hash_keys_eq st a b = (a =? b).
Proof.
  intros E. unfold s_hash_keys_eq, s_safe_eq_check. rewrite E. unfold aws_ptr_eq. destruct (a =? b); [reflexivity |]. now destruct (_ || _).
Qed.

Lemma find_run s M a : slots_ok s M -> bus_find_listeners a s = Done (fst <$> M !! a, s).
Proof.
  intros H. pose proof (so_callbacks _ _ H). destruct (find_result (table s) a (so_table _ _ H)) as (r & E & El). rewrite (so_lookup _ _ H) in El.
  unfold bus_find_listeners. rewrite E. destruct r as [i |], (M !! a) as [[p l] |]; cbn in El |- *; try discriminate; [| reflexivity].
  injection El as El. now rewrite El.
Qed.

(** Changing what is not in the table. *)
Lemma slots_ok_same s s' M : slots_ok s M -> table s' = table s -> (next_address s <= next_address s')%positive ->
  (forall a p l, M !! a = Some (p, l) -> listeners s' !! p = listeners s !! p) -> slots_ok s' M.
Proof.
  intros [] Et Hn Hl. constructor; rewrite ?Et; auto.
  - intros a p l E. rewrite (Hl _ _ _ E). eauto.
  - intros a p l E. specialize (so_next0 _ _ _ E). lia.
  - intros a p l E. destruct (so_nodes0 _ _ _ E) as [H1 H2]. split; [exact H1 |]. eapply Forall_impl; [exact H2 |]. intros x Hx. cbv beta in *. lia.
Qed.

(** Changing one list. *)
Lemma put_list_ok s M a p l l' : slots_ok s M -> M !! a = Some (p, l) -> NoDup (map fst l') -> Forall (fun x => x.1 < next_address s)%positive l' ->
  exists s', put_list p l' s = Done (tt, s') /\ slots_ok s' (<[a := (p, l')]> M) /\ events s' = events s /\ table s' = table s
    /\ next_address s' = next_address s /\ (no_orphans s M -> no_orphans s' (<[a := (p, l')]> M)).
Proof.
  intros H E Hnd Hb. eexists. split; [reflexivity |]. pose proof (insert_delete_eq M a (p, l')) as Ed. destruct H. split; [constructor; cbn; auto | split; [reflexivity | split; [reflexivity | split; [reflexivity |]]]].
  - rewrite so_contents0. rewrite <- Ed. rewrite map_to_list_insert by apply lookup_delete_eq. rewrite <- (insert_id M a (p, l) E) at 1. rewrite <- insert_delete_eq.
    rewrite map_to_list_insert by apply lookup_delete_eq. reflexivity.
  - intros b. rewrite so_lookup0. destruct (decide (b = a)) as [-> | Hne]; [rewrite lookup_insert_eq, E; reflexivity | now rewrite lookup_insert_ne by congruence].
  - intros b q k Hb'. destruct (decide (b = a)) as [-> | Hne]; [rewrite lookup_insert_eq in Hb'; injection Hb' as <- <-; apply lookup_insert_eq |].
    rewrite lookup_insert_ne in Hb' by congruence. rewrite lookup_insert_ne; [eauto |]. intros ->. apply Hne. eauto.
  - intros b b' q k k' H1 H2. destruct (decide (b = a)) as [-> | Hb1], (decide (b' = a)) as [-> | Hb2]; rewrite ?lookup_insert_eq in *; rewrite ?lookup_insert_ne in * by congruence; auto.
    + injection H1 as <- <-. eauto.
    + injection H2 as <- <-. eauto.
    + eauto.
  - intros b q k Hb'. destruct (decide (b = a)) as [-> | Hne]; [rewrite lookup_insert_eq in Hb'; injection Hb' as <- <-; eauto | rewrite lookup_insert_ne in Hb' by congruence; eauto].
  - intros b q k Hb'. destruct (decide (b = a)) as [-> | Hne]; [rewrite lookup_insert_eq in Hb'; injection Hb' as <- <-; auto | rewrite lookup_insert_ne in Hb' by congruence; eauto].
  - intros Ho q k Hq. cbn in Hq. destruct (decide (q = p)) as [-> | Hne]; [rewrite lookup_insert_eq in Hq; injection Hq as <-; exists a; apply lookup_insert_eq |].
    rewrite lookup_insert_ne in Hq by congruence. destruct (Ho _ _ Hq) as [b Hb']. exists b. rewrite lookup_insert_ne; [exact Hb' |]. intros ->. rewrite E in Hb'. congruence.
Qed.

Definition few (s : bus_slots) : Prop := entry_count (table s) < 2 ^ 58.

Lemma few_not_full s M : slots_ok s M -> few s -> entry_count (table s) = max_load (table s) -> 2 ^ 59 <= size (table s) -> False.
Proof.
  intros H Hf E Hs. unfold few in Hf. rewrite E, (ok_max_load _ (so_table _ _ H)) in Hf. unfold max_load_of, max_load_factor_mantissa in Hf.
  assert (2 ^ 58 <= 8556839292003942 * size (table s) / 2 ^ 53); [apply Z.div_le_lower_bound; lia | lia].
Qed.

(** A new list in a free slot, unless the table cannot grow. *)
Lemma create_list_ok s M a : slots_ok s M -> M !! a = None ->
  exists s', (list ← new_address; _ ← put_list list []; _ ← put_slot a list; mret list) s = Done (next_address s, s') /\ events s' = events s
    /\ next_address s' = Pos.succ (next_address s) /\ listeners s' = <[next_address s := []]> (listeners s)
    /\ (slots_ok s' (<[a := (next_address s, [])]> M) /\ entry_count (table s') = entry_count (table s) + 1
        \/ ~ few s /\ slots_ok s' M).
Proof.
  intros H E. set (p := next_address s). set (s1 := mk_slots (table s) (<[p := []]> (listeners s)) (Pos.succ p) (events s)).
  assert (forall b q l, M !! b = Some (q, l) -> q <> p) as Hfresh by (intros b q l Hb ->; pose proof (so_next _ _ H _ _ _ Hb); unfold p in *; lia).
  assert (slots_ok s1 M) as H1.
  { apply (slots_ok_same s); cbn; [exact H | reflexivity | unfold p; lia |]. intros b q l Hb. apply lookup_insert_ne. intros <-. exact (Hfresh _ _ _ Hb eq_refl). }
  pose proof (so_callbacks _ _ H). destruct (put_spec (table s) a (Zpos p) (so_table _ _ H)) as (rv & wc & ev & st' & Ep & HP).
  assert (lookup (table s) a = None) as El by now rewrite (so_lookup _ _ H), E.
  assert (exists st', aws_hash_table_put (table s) a (Zpos p) = Some (rv, wc, [], st') /\ put_post (table s) a (Zpos p) rv wc [] st') as (t & Et & Hpost).
  { exists st'. assert (ev = []) as ->; [| now split]. destruct rv as [| e]; cbn in HP; [| tauto]. destruct HP as (_ & _ & _ & _ & _ & -> & _). now rewrite El. }
  exists (mk_slots t (<[p := []]> (listeners s)) (Pos.succ p) (events s)). split.
  { unfold new_address at 1. unfold mbind at 1, B_bind at 1. cbn beta iota. erewrite bind_B by reflexivity. cbn [table listeners next_address events].
    assert (put_slot a p s1 = Done (tt, mk_slots t (<[p := []]> (listeners s)) (Pos.succ p) (events s))) as Es by (unfold put_slot; cbn [table s1]; now rewrite Et).
    fold p. fold s1. brun Es. reflexivity. }
  split; [reflexivity |]. split; [reflexivity |]. split; [reflexivity |]. destruct rv as [| e]; cbn in Hpost.
  - left. destruct Hpost as (Hok & Hcb & Hlk & -> & Hc & _ & HC). rewrite El in *. rewrite bool_decide_eq_true_2 in Hc by reflexivity. cbn [option_list app] in HC.
    split; [| exact Hc]. destruct H. constructor; cbn; auto.
    + exact (same_callbacks_class _ _ Hcb so_callbacks0).
    + now rewrite (same_eq _ _ Hcb).
    + now rewrite (same_dk _ _ Hcb).
    + now rewrite (same_dv _ _ Hcb).
    + rewrite HC, map_to_list_insert by exact E. cbn. now rewrite so_contents0.
    + intros b. rewrite Hlk, ptr_keys_eq by assumption. destruct (Z.eqb_spec b a) as [-> | Hne]; [now rewrite lookup_insert_eq | rewrite lookup_insert_ne by congruence; apply so_lookup0].
    + intros b q l Hb. destruct (decide (b = a)) as [-> | Hne]; [rewrite lookup_insert_eq in Hb; injection Hb as <- <-; apply lookup_insert_eq |].
      rewrite lookup_insert_ne in Hb by congruence. rewrite lookup_insert_ne by (intros <-; exact (Hfresh _ _ _ Hb eq_refl)). eauto.
    + intros b b' q l l' Hb Hb'. destruct (decide (b = a)) as [-> | N1], (decide (b' = a)) as [-> | N2]; rewrite ?lookup_insert_eq in *; rewrite ?lookup_insert_ne in * by congruence; auto.
      * injection Hb as <- <-. now destruct (Hfresh _ _ _ Hb').
      * injection Hb' as <- <-. now destruct (Hfresh _ _ _ Hb).
      * eauto.
    + intros b q l Hb. destruct (decide (b = a)) as [-> | Hne]; [rewrite lookup_insert_eq in Hb; injection Hb as <- <-; lia | rewrite lookup_insert_ne in Hb by congruence; specialize (so_next0 _ _ _ Hb); unfold p in *; lia].
    + intros b q l Hb. destruct (decide (b = a)) as [-> | Hne]; [rewrite lookup_insert_eq in Hb; injection Hb as <- <-; repeat constructor |].
      rewrite lookup_insert_ne in Hb by congruence. destruct (so_nodes0 _ _ _ Hb) as [N1 N2]. split; [exact N1 |]. eapply Forall_impl; [exact N2 |]. intros x Hx. cbv beta in *. unfold p in *. lia.
  - right. destruct Hpost as (-> & _ & _ & _ & _ & Hs & Hc). split; [| exact H1]. intros Hf. exact (few_not_full _ _ H Hf Hc Hs).
Qed.

(** ** Subscribing *)

(** Lists only get longer. *)
Definition grows (M M' : slot_map) : Prop := forall a p l, M !! a = Some (p, l) -> exists k, M' !! a = Some (p, l ++ k).

Lemma grows_refl M : grows M M.
Proof. intros a p l E. exists []. now rewrite app_nil_r. Qed.

Lemma grows_trans M1 M2 M3 : grows M1 M2 -> grows M2 M3 -> grows M1 M3.
Proof. intros H1 H2 a p l E. destruct (H1 _ _ _ E) as [k E1]. destruct (H2 _ _ _ E1) as [k' E2]. exists (k ++ k'). now rewrite app_assoc. Qed.

(** The listeners after a subscription and after its end. *)
Definition add_at (L : Z -> list bus_listener) (a : Z) (x : bus_listener) (b : Z) : list bus_listener := if b =? a then L a ++ [x] else L b.

Fixpoint remove_first (f d : Z) (l : list bus_listener) : list bus_listener :=
  match l with
  | [] => []
  | x :: l => if (deliver x =? f) && (user_data x =? d) then l else x :: remove_first f d l
  end.

Definition remove_at (L : Z -> list bus_listener) (a f d : Z) (b : Z) : list bus_listener := if b =? a then remove_first f d (L a) else L b.

Lemma add_node s M a p l x : slots_ok s M -> M !! a = Some (p, l) ->
  let s1 := mk_slots (table s) (listeners s) (Pos.succ (next_address s)) (events s) in
  exists s', put_list p (l ++ [(next_address s, x)]) s1 = Done (tt, s') /\ slots_ok s' (<[a := (p, l ++ [(next_address s, x)])]> M) /\ events s' = events s
    /\ table s' = table s /\ next_address s' = Pos.succ (next_address s) /\ (no_orphans s M -> no_orphans s' (<[a := (p, l ++ [(next_address s, x)])]> M)).
Proof.
  intros H E s1. assert (slots_ok s1 M) as H1 by (apply (slots_ok_same s); cbn; auto; lia). destruct (so_nodes _ _ H _ _ _ E) as [Hnd Hb].
  apply (put_list_ok s1 M a p l); auto.
  - rewrite map_app. cbn [map fst]. apply NoDup_app. split; [exact Hnd |]. split; [| apply NoDup_singleton].
    intros q Hq Hq'. apply list_elem_of_singleton in Hq' as ->. apply list_elem_of_fmap in Hq as ([q y] & Eq & Hq). cbn in Eq. subst q.
    rewrite Forall_forall in Hb. specialize (Hb _ Hq). cbn in Hb. lia.
  - cbn [next_address s1]. apply Forall_app. split; [eapply Forall_impl; [exact Hb |]; intros y Hy; cbv beta in *; lia |]. repeat constructor. cbn. lia.
Qed.

Lemma insert_grows M a p l k : M !! a = Some (p, l) -> grows M (<[a := (p, l ++ k)]> M).
Proof.
  intros E b q l' Hb. destruct (decide (b = a)) as [-> | Hne].
  - rewrite E in Hb. injection Hb as <- <-. exists k. apply lookup_insert_eq.
  - exists []. rewrite lookup_insert_ne, app_nil_r by congruence. exact Hb.
Qed.

Lemma insert_fresh_grows M a x : M !! a = None -> grows M (<[a := x]> M).
Proof. intros E b q l Hb. exists []. rewrite lookup_insert_ne, app_nil_r by congruence. exact Hb. Qed.

(** What [s_bus_subscribe] leaves, in any table and in one with room. *)
Definition subscribed (s s' : bus_slots) (M M' : slot_map) (a : Z) (x : bus_listener) : Prop :=
  slots_ok s' M' /\ grows M M' /\ events s' = events s /\ (next_address s <= next_address s')%positive
  /\ (few s -> (forall b, listeners_at M' b = add_at (listeners_at M) a x b) /\ entry_count (table s') <= entry_count (table s) + 1
               /\ (no_orphans s M -> no_orphans s' M')).

Lemma subscribe_run s M a f d : slots_ok s M -> a <> AWS_BUS_ADDRESS_CLOSE ->
  exists s' M', s_bus_subscribe a f d s = Done (AWS_OP_SUCCESS, s') /\ subscribed s s' M M' a (mk_listener f d).
Proof.
  intros H Ha. unfold s_bus_subscribe. rewrite (proj2 (Z.eqb_neq _ _) Ha). unfold bus_find_or_create_listeners. destruct (M !! a) as [[p l] |] eqn:E.
  - assert ((found ← bus_find_listeners a; match found with Some list => mret list | None => list ← new_address; _ ← put_list list []; _ ← put_slot a list; mret list end) s
            = Done (p, s)) as Ef by (brun (find_run s M a H); now rewrite E).
    brun Ef. erewrite bind_B by reflexivity. set (s1 := mk_slots _ _ _ _).
    assert (get_list p s1 = Done (l, s1)) as El by (unfold get_list; cbn; now rewrite (so_lists _ _ H _ _ _ E)). brun El.
    destruct (add_node s M a p l (mk_listener f d) H E) as (s' & Es & H' & Hev & Ht & Hn & Ho). fold s1 in Es. brun Es. eexists _, _. split; [reflexivity |].
    split; [exact H' |]. split; [now apply insert_grows |]. split; [exact Hev |]. split; [rewrite Hn; lia |]. intros _. split; [| split; [rewrite Ht; lia | exact Ho]].
    intros b. rewrite listeners_at_insert. unfold add_at. destruct (b =? a); [| reflexivity]. rewrite map_app. unfold listeners_at. now rewrite E.
  - destruct (create_list_ok s M a H E) as (s0 & Ec & Hev & Hnext & Hlists & Hcases). set (p := next_address s) in *.
    assert ((found ← bus_find_listeners a; match found with Some list => mret list | None => list ← new_address; _ ← put_list list []; _ ← put_slot a list; mret list end) s
            = Done (p, s0)) as Ef by (brun (find_run s M a H); rewrite E; exact Ec).
    brun Ef. erewrite bind_B by reflexivity. set (s1 := mk_slots _ _ _ _).
    assert (get_list p s1 = Done ([], s1)) as El by (unfold get_list; cbn; now rewrite Hlists, lookup_insert_eq). brun El. destruct Hcases as [[H0 Hc] | [Hnf H0]].
    + destruct (add_node s0 _ a p [] (mk_listener f d) H0 (lookup_insert_eq _ _ _)) as (s' & Es & H' & Hev' & Ht & Hn & Ho). fold s1 in Es. brun Es.
      eexists _, _. split; [reflexivity |]. rewrite insert_insert_eq in *. split; [exact H' |]. split; [now apply insert_fresh_grows |]. split; [congruence |]. split; [rewrite Hn, Hnext; lia |].
      intros _. split; [| split; [rewrite Ht; lia |]].
      * intros b. rewrite listeners_at_insert. unfold add_at. destruct (b =? a); [| reflexivity]. unfold listeners_at. now rewrite E.
      * intros Hno. apply Ho. intros q k Hq. rewrite Hlists in Hq. destruct (decide (q = p)) as [-> | Hne]; [rewrite lookup_insert_eq in Hq; injection Hq as <-; exists a; apply lookup_insert_eq |].
        rewrite lookup_insert_ne in Hq by congruence. destruct (Hno _ _ Hq) as [b Hb]. exists b. rewrite lookup_insert_ne; [exact Hb | congruence].
    + erewrite bind_B by reflexivity. eexists _, M. split; [reflexivity |]. split; [| split; [apply grows_refl | split; [exact Hev | split; [cbn; rewrite Hnext; lia | contradiction]]]].
      apply (slots_ok_same s0); cbn; [exact H0 | reflexivity | lia |]. intros b q l Hb. apply lookup_insert_ne. intros <-. pose proof (so_next _ _ H _ _ _ Hb). unfold p in *. lia.
Qed.

Lemma remove_listener_map f d l : map snd (remove_listener f d l) = remove_first f d (map snd l).
Proof. induction l as [| [p x] l IH]; [reflexivity |]. cbn. destruct (_ && _); [reflexivity | cbn; now rewrite IH]. Qed.

Lemma remove_listener_sub f d l : remove_listener f d l `sublist_of` l.
Proof. induction l as [| [p x] l IH]; cbn; [constructor |]. destruct (_ && _); [now constructor | now constructor]. Qed.

Lemma sublist_map {A C} (g : A -> C) l k : l `sublist_of` k -> map g l `sublist_of` map g k.
Proof. induction 1; cbn; now constructor. Qed.

Lemma sublist_forall {A} (P : A -> Prop) l k : l `sublist_of` k -> Forall P k -> Forall P l.
Proof. induction 1; intros HF; [constructor | |]; apply Forall_cons in HF as [H1 H2]; [constructor |]; auto. Qed.

Lemma unsubscribe_run s M a f d : slots_ok s M -> a <> AWS_BUS_ADDRESS_CLOSE ->
  exists s' M', s_bus_unsubscribe a f d s = Done (tt, s') /\ slots_ok s' M' /\ events s' = events s /\ table s' = table s /\ next_address s' = next_address s
    /\ (forall b, listeners_at M' b = remove_at (listeners_at M) a f d b) /\ (no_orphans s M -> no_orphans s' M').
Proof.
  intros H Ha. unfold s_bus_unsubscribe. rewrite (proj2 (Z.eqb_neq _ _) Ha). brun (find_run s M a H). destruct (M !! a) as [[p l] |] eqn:E; cbn [fmap option_fmap option_map fst].
  - assert (get_list p s = Done (l, s)) as El by (unfold get_list; now rewrite (so_lists _ _ H _ _ _ E)). brun El. destruct (so_nodes _ _ H _ _ _ E) as [Hnd Hb].
    pose proof (remove_listener_sub f d l) as Hs. destruct (put_list_ok s M a p l (remove_listener f d l) H E) as (s' & Es & H' & Hev & Ht & Hn & Ho).
    + eapply sublist_NoDup; [exact Hnd | now apply sublist_map].
    + exact (sublist_forall _ _ _ Hs Hb).
    + exists s', (<[a := (p, remove_listener f d l)]> M). split; [exact Es |]. split; [exact H' |]. split; [exact Hev |]. split; [exact Ht |]. split; [exact Hn |]. split; [| exact Ho]. intros b. rewrite listeners_at_insert. unfold remove_at.
      destruct (b =? a); [| reflexivity]. rewrite remove_listener_map. unfold listeners_at. now rewrite E.
  - exists s, M. split; [reflexivity |]. do 4 (split; [auto |]). split; [| auto]. intros b. unfold remove_at. destruct (Z.eqb_spec b a) as [-> |]; [| reflexivity].
    unfold listeners_at. now rewrite E.
Qed.

(** ** Delivering to listeners that do not call the bus *)

Definition log_all (evs : list event) (s : bus_slots) : bus_slots := mk_slots (table s) (listeners s) (next_address s) (events s ++ evs).

Lemma log_all_ok evs s M : slots_ok s M -> slots_ok (log_all evs s) M.
Proof. intros H. apply (slots_ok_same s); cbn; auto; lia. Qed.

Lemma log_all_app e1 e2 s : log_all e2 (log_all e1 s) = log_all (e1 ++ e2) s.
Proof. unfold log_all. cbn. now rewrite <- app_assoc. Qed.

Lemma log_all_nil s : log_all [] s = s.
Proof. unfold log_all. rewrite app_nil_r. now destruct s. Qed.

Lemma listener_at_split pre p x post : NoDup (map fst (pre ++ (p, x) :: post)) -> listener_at p (pre ++ (p, x) :: post) = Some (x, fst <$> head post).
Proof.
  induction pre as [| [q y] pre IH]; cbn [app map fst]; intros Hnd; cbn [listener_at]; [now rewrite decide_True |].
  apply NoDup_cons in Hnd as [Hq Hnd]. rewrite decide_False; [now apply IH |]. intros ->. apply Hq. rewrite map_app. apply elem_of_app. right. now left.
Qed.

Lemma list_node_run s M a p l pre q x post : slots_ok s M -> M !! a = Some (p, l) -> l = pre ++ (q, x) :: post ->
  list_node p q s = Done ((x, fst <$> head post), s).
Proof.
  intros H E ->. unfold list_node. assert (get_list p s = Done (pre ++ (q, x) :: post, s)) as El by (unfold get_list; now rewrite (so_lists _ _ H _ _ _ E)). brun El.
  destruct (so_nodes _ _ H _ _ _ E) as [Hnd _]. now rewrite listener_at_split.
Qed.

Definition delivery (address payload : Z) (x : bus_listener) : event := Delivered (deliver x) address payload (user_data x).

Lemma deliver_loop_log M a p l address payload : M !! a = Some (p, l) -> forall post pre n s, slots_ok s M -> l = pre ++ post -> (length post <= n)%nat ->
  deliver_loop log n p (fst <$> head post) address payload s = Done (tt, log_all (map (delivery address payload) (map snd post)) s).
Proof.
  intros E. induction post as [| [q x] post IH]; intros pre n s H El Hn; cbn [head fmap option_fmap option_map fst map snd].
  - destruct n; cbn [deliver_loop]; now rewrite log_all_nil.
  - destruct n as [| n]; [cbn in Hn; lia |]. cbn [deliver_loop]. brun (list_node_run s M a p l pre q x post H E El).
    assert (log (delivery address payload x) s = Done (tt, log_all [delivery address payload x] s)) as Elog by reflexivity. unfold delivery at 1 in Elog. brun Elog.
    brun (list_node_run _ M a p l pre q x post (log_all_ok [delivery address payload x] _ _ H) E El).
    rewrite (IH (pre ++ [(q, x)])); [now rewrite log_all_app | now apply log_all_ok | now rewrite <- app_assoc | cbn in Hn; lia].
Qed.

Definition short_lists (n : nat) (M : slot_map) : Prop := forall a, (length (listeners_at M a) <= n)%nat.

Lemma deliver_slot_log fuel M slot address payload s : slots_ok s M -> short_lists fuel M ->
  s_bus_deliver_msg_to_slot fuel log slot address payload s = Done (tt, log_all (map (delivery address payload) (listeners_at M slot)) s).
Proof.
  intros H Hf. unfold s_bus_deliver_msg_to_slot. brun (find_run s M slot H). specialize (Hf slot). unfold listeners_at in *.
  destruct (M !! slot) as [[p l] |] eqn:E; cbn [fmap option_fmap option_map fst snd from_option] in *; [| now rewrite log_all_nil].
  assert (get_list p s = Done (l, s)) as El by (unfold get_list; now rewrite (so_lists _ _ H _ _ _ E)). brun El.
  rewrite length_map in Hf. exact (deliver_loop_log M slot p l address payload E l [] fuel s H eq_refl Hf).
Qed.

(** All that are called for a message. *)
Definition audience (L : Z -> list bus_listener) (address : Z) : list bus_listener := L AWS_BUS_ADDRESS_ALL ++ L address.

Lemma deliver_log fuel M address payload s : slots_ok s M -> short_lists fuel M ->
  s_bus_deliver_msg fuel log address payload s = Done (tt, log_all (map (delivery address payload) (audience (listeners_at M) address)) s).
Proof.
  intros H Hf. unfold s_bus_deliver_msg. brun (deliver_slot_log fuel M AWS_BUS_ADDRESS_ALL address payload s H Hf).
  rewrite (deliver_slot_log fuel M) by (try apply log_all_ok; assumption). unfold audience. now rewrite log_all_app, map_app.
Qed.

(** ** Cleaning up *)

Definition closing (x : bus_listener) : event := delivery AWS_BUS_ADDRESS_CLOSE 0 x.

Lemma destroy_loop_log p : forall l n s, listeners s !! p = Some l -> (length l <= n)%nat ->
  exists s', destroy_loop log n p s = Done (tt, s') /\ events s' = events s ++ map closing (rev (map snd l)) /\ listeners s' = delete p (listeners s).
Proof.
  induction l as [| [q x] l IH] using rev_ind; intros n s E Hn.
  - assert (get_list p s = Done ([], s)) as El by (unfold get_list; now rewrite E).
    eexists. split; [destruct n; cbn [destroy_loop]; brun El; cbn [last]; unfold release_list; rewrite E; reflexivity |]. cbn. now rewrite app_nil_r.
  - rewrite length_app in Hn. cbn in Hn. destruct n as [| n]; [lia |]. cbn [destroy_loop].
    assert (get_list p s = Done (l ++ [(q, x)], s)) as El by (unfold get_list; now rewrite E). brun El. rewrite last_snoc.
    assert (log (closing x) s = Done (tt, log_all [closing x] s)) as Elog by reflexivity. unfold closing, delivery at 1 in Elog. brun Elog.
    assert (get_list p (log_all [closing x] s) = Done (l ++ [(q, x)], log_all [closing x] s)) as El' by (unfold get_list; cbn; now rewrite E). unfold closing in El'. brun El'.
    rewrite last_snoc, decide_True by reflexivity. erewrite bind_B by reflexivity. rewrite removelast_last.
    destruct (IH n (mk_slots (table s) (<[p := l]> (listeners s)) (next_address s) (events s ++ [closing x]))) as (s' & E' & Ev & Els); [apply lookup_insert_eq | lia |].
    exists s'. split; [exact E' |]. split; [rewrite Ev; cbn; rewrite map_app, rev_app_distr; cbn; now rewrite <- app_assoc |].
    rewrite Els. cbn. apply delete_insert_eq.
Qed.

Definition closings (L : Z -> list bus_listener) (order : list Z) : list event := concat (map (fun a => map closing (rev (L a))) order).

Lemma destroy_lists_log fuel M xs : NoDup (map (fun x => x.2.1) xs) -> forall s,
  (forall x, x ∈ xs -> M !! x.1 = Some x.2 /\ listeners s !! x.2.1 = Some x.2.2) -> short_lists fuel M ->
  exists s', destroy_lists fuel log (map (fun x => DestroyValue (Zpos x.2.1)) xs) s = Done (tt, s')
    /\ events s' = events s ++ closings (listeners_at M) (map fst xs) /\ (forall p, listeners s' !! p = if decide (p ∈ map (fun x => x.2.1) xs) then None else listeners s !! p).
Proof.
  intros Hnd. induction xs as [| [a [p l]] xs IH]; intros s Hxs Hf.
  - exists s. split; [reflexivity |]. split; [cbn; now rewrite app_nil_r |]. intros p. reflexivity.
  - cbn [map fst snd] in Hnd. apply NoDup_cons in Hnd as [Hp Hnd]. destruct (Hxs (a, (p, l)) ltac:(left)) as [HM Hl]. cbn [fst snd] in HM, Hl.
    assert ((length l <= fuel)%nat) as Hlen by (specialize (Hf a); unfold listeners_at in Hf; rewrite HM in Hf; cbn in Hf; now rewrite length_map in Hf).
    destruct (destroy_loop_log p l fuel s Hl Hlen) as (s1 & E1 & Ev1 & El1). destruct (IH Hnd s1) as (s2 & E2 & Ev2 & El2); [| exact Hf |].
    + intros [b [q k]] Hx. destruct (Hxs (b, (q, k)) ltac:(now right)) as [HM' Hl']. split; [exact HM' |]. cbn [fst snd] in *. rewrite El1, lookup_delete_ne; [exact Hl' |].
      intros ->. apply Hp. apply list_elem_of_fmap. now exists (b, (q, k)).
    + exists s2. cbn [map destroy_lists fst snd]. unfold s_bus_destroy_listener_list. brun E1. split; [exact E2 |]. split.
      * rewrite Ev2, Ev1, <- app_assoc. unfold closings. cbn [map concat fst]. do 3 f_equal. unfold listeners_at. now rewrite HM.
      * intros q. rewrite El2. destruct (decide (q = p)) as [-> | Hne].
        -- rewrite decide_False by exact Hp. rewrite decide_True by left. rewrite El1. apply lookup_delete_eq.
        -- rewrite El1, lookup_delete_ne by congruence. destruct (decide (q ∈ map (fun x => x.2.1) xs)) as [Hq | Hq].
           ++ rewrite decide_True by (now right). reflexivity.
           ++ rewrite decide_False; [reflexivity |]. intros [Hx | Hx]%elem_of_cons; contradiction.
Qed.

Lemma clean_up_run fuel s M : slots_ok s M -> no_orphans s M -> short_lists fuel M ->
  exists s' order, clean_up_slots fuel log s = Done (tt, s') /\ events s' = events s ++ closings (listeners_at M) order
    /\ order ≡ₚ map fst (map_to_list M) /\ listeners s' = ∅.
Proof.
  intros H Ho Hf. destruct (clear_spec (table s) (so_table _ _ H)) as (_ & _ & _ & _ & _ & _ & Ec).
  destruct (Permutation_map_inv _ _ (so_contents _ _ H)) as (xs & Exs & HP).
  assert (fst (aws_hash_table_clean_up (Some (table s))) = map (fun x => DestroyValue (Zpos x.2.1)) xs) as Ev.
  { unfold aws_hash_table_clean_up. cbn [fst]. rewrite Ec, Exs, map_map. clear -H. induction xs as [| x xs IH]; [reflexivity |]. cbn [map concat]. rewrite IH.
    unfold remove_events. now rewrite (so_dk _ _ H), (so_dv _ _ H). }
  assert (forall x, x ∈ xs -> M !! x.1 = Some x.2 /\ listeners s !! x.2.1 = Some x.2.2) as Hxs.
  { intros [a [p l]] Hx. rewrite <- HP in Hx. apply elem_of_map_to_list in Hx. split; [exact Hx | exact (so_lists _ _ H _ _ _ Hx)]. }
  destruct (destroy_lists_log fuel M xs) with (s := s) as (s' & E & Hev & Hl); [| exact Hxs | exact Hf |].
  - rewrite <- HP. pose proof (NoDup_fst_map_to_list M) as Hnd. assert (forall x, x ∈ map_to_list M -> M !! x.1 = Some x.2) as Hin by (intros [a x]; apply elem_of_map_to_list).
    revert Hnd Hin. generalize (map_to_list M) as ys. induction ys as [| [a [p l]] ys IH]; intros Hnd Hin; [constructor |]. cbn [map fst snd] in *. apply NoDup_cons in Hnd as [Ha Hnd].
    apply NoDup_cons. split; [| apply IH; [exact Hnd | intros x Hx; apply Hin; now right]]. intros Hp. apply list_elem_of_fmap in Hp as ([b [q k]] & Eq & Hb). cbn in Eq. subst q.
    apply Ha. apply list_elem_of_fmap. exists (b, (p, k)). split; [| exact Hb]. cbn. apply (so_inj _ _ H a b p l k); [apply (Hin (a, (p, l))); left | apply (Hin (b, (p, k))); now right].
  - exists s', (map fst xs). split; [unfold clean_up_slots; now rewrite Ev |]. split; [exact Hev |]. split; [now rewrite <- HP |].
    apply map_eq. intros p. rewrite Hl, lookup_empty. destruct (decide (p ∈ map (fun x => x.2.1) xs)) as [| Hp]; [reflexivity |].
    destruct (listeners s !! p) as [l |] eqn:E'; [| reflexivity]. destruct (Ho _ _ E') as [a Ha]. destruct Hp. apply list_elem_of_fmap. exists (a, (p, l)). split; [reflexivity |].
    rewrite <- HP. now apply elem_of_map_to_list.
Qed.

(** ** A new table *)

Lemma init_slots_ok hash : (forall a, is_u64 (hash a)) -> exists s, init_slots hash = Some s /\ slots_ok s ∅ /\ no_orphans s ∅ /\ events s = [] /\ entry_count (table s) = 0 /\ listeners s = ∅ /\ next_address s = 1%positive.
Proof.
  intros Hh. unfold init_slots. destruct (init_spec 8 hash aws_ptr_eq false true ltac:(lia)) as [(e & _ & _ & H) | (t & k & E & Hok & _ & He & H1 & H2 & H3 & H4 & _)]; [lia |].
  rewrite E. eexists. split; [reflexivity |]. split; [| split; [intros p l Hp; cbn in Hp; now rewrite lookup_empty in Hp | split; [reflexivity | split; [| now split]]]].
  - constructor; cbn; auto; try (intros; rewrite lookup_empty in *; discriminate).
    + rewrite H1, H2. constructor; unfold aws_ptr_eq; intros; rewrite ?Z.eqb_eq in *; try congruence. apply Hh.
    + unfold contents. rewrite He. now rewrite map_to_list_empty.
    + intros a. rewrite lookup_empty. unfold HashTableInv.lookup. now rewrite He.
  - cbn. rewrite (ok_count _ Hok), He. reflexivity.
Qed.

(** ** The synchronous bus

    Any history of calls with listeners that do not call the bus, and the closing
    of the bus; then listeners that do call it. *)

(** ** Histories *)

(** The listeners at each address, in the order of subscription, and what has
    been called so far. *)
Definition history : Type := (Z -> list bus_listener) * list event.

Definition destruction (destructor : option Z) (payload : Z) : list event := match destructor with Some d => [Destroyed d payload] | None => [] end.

Definition history_step (h : history) (c : call) : op_result * history :=
  let '(L, evs) := h in
  match c with
  | Subscribe a f d => if a =? AWS_BUS_ADDRESS_CLOSE then (aws_raise_error AWS_ERROR_INVALID_ARGUMENT, h) else (AWS_OP_SUCCESS, (add_at L a (mk_listener f d), evs))
  | Unsubscribe a f d => (AWS_OP_SUCCESS, if a =? AWS_BUS_ADDRESS_CLOSE then h else (remove_at L a f d, evs))
  | Send a x d => (AWS_OP_SUCCESS, (L, evs ++ map (delivery a x) (audience L a) ++ destruction d x))
  end.

Fixpoint history_run (h : history) (cs : list call) : list op_result * history :=
  match cs with
  | [] => ([], h)
  | c :: cs => let '(r, h) := history_step h c in let '(rs, h) := history_run h cs in (r :: rs, h)
  end.

(** The bus after [n] calls has this history. *)
Record bus_at (s : bus_slots) (n : nat) (h : history) : Prop := {
  ba_map : exists M, slots_ok s M /\ no_orphans s M /\ (forall a, listeners_at M a = h.1 a) /\ short_lists n M;
  ba_count : entry_count (table s) <= Z.of_nat n;
  ba_events : events s = h.2
}.

Lemma remove_first_length f d l : (length (remove_first f d l) <= length l)%nat.
Proof. induction l as [| x l IH]; cbn; [lia |]. destruct (_ && _); cbn; lia. Qed.

Lemma deliver_history fuel s n (h : history) a x M : slots_ok s M -> (forall b, listeners_at M b = h.1 b) -> short_lists n M -> (n <= fuel)%nat ->
  s_bus_deliver_msg fuel log a x s = Done (tt, log_all (map (delivery a x) (audience h.1 a)) s).
Proof.
  intros H HL Hs Hf. rewrite (deliver_log fuel M a x s H) by (intros b; specialize (Hs b); lia). do 4 f_equal. unfold audience. now rewrite !HL.
Qed.

Lemma sync_call_run fuel s n (h : history) c : bus_at s n h -> (n <= fuel)%nat -> Z.of_nat n < 2 ^ 58 ->
  exists s', sync_call fuel log c s = Done ((history_step h c).1, s') /\ bus_at s' (S n) (history_step h c).2.
Proof.
  intros [(M & H & Ho & HL & Hs) Hc Hev] Hf Hn. destruct h as [L evs]. cbn [fst snd] in *. assert (short_lists (S n) M) as Hs' by (intros b; specialize (Hs b); lia).
  destruct c as [a f d | a f d | a x d]; cbn [sync_call history_step].
  - unfold s_bus_sync_subscribe. destruct (Z.eqb_spec a AWS_BUS_ADDRESS_CLOSE) as [-> | Ha].
    + exists s. split; [reflexivity |]. constructor; [now exists M | lia | exact Hev].
    + destruct (subscribe_run s M a f d H Ha) as (s' & M' & E & H' & _ & Hev' & _ & Hroom). destruct Hroom as (HL' & Hc' & Ho'); [unfold few; lia |].
      exists s'. split; [exact E |]. constructor; cbn [fst snd]; [| lia | congruence]. exists M'. split; [exact H' |]. split; [auto |]. split.
      * intros b. rewrite HL'. unfold add_at. now rewrite !HL.
      * intros b. rewrite HL'. unfold add_at. specialize (Hs b) as Hb. specialize (Hs a). destruct (b =? a); [rewrite length_app; cbn |]; lia.
  - unfold s_bus_sync_unsubscribe. destruct (Z.eqb_spec a AWS_BUS_ADDRESS_CLOSE) as [-> | Ha].
    + exists s. split; [reflexivity |]. constructor; [now exists M | lia | exact Hev].
    + destruct (unsubscribe_run s M a f d H Ha) as (s' & M' & E & H' & Hev' & Ht & _ & HL' & Ho'). exists s'. split; [brun E; reflexivity |].
      constructor; cbn [fst snd]; [| rewrite Ht; lia | congruence]. exists M'. split; [exact H' |]. split; [auto |]. split.
      * intros b. rewrite HL'. unfold remove_at. now rewrite !HL.
      * intros b. rewrite HL'. unfold remove_at. specialize (Hs b) as Hb. specialize (Hs a). destruct (b =? a); [pose proof (remove_first_length f d (listeners_at M a)) |]; lia.
  - unfold s_bus_sync_send. brun (deliver_history fuel s n (L, evs) a x M H HL Hs Hf). cbn [fst snd]. set (s1 := log_all _ s).
    assert ((match d with Some d => log (Destroyed d x) | None => mret tt end) s1 = Done (tt, log_all (destruction d x) s1)) as Ed
      by (destruct d; [reflexivity | cbn [destruction]; now rewrite log_all_nil]).
    brun Ed. exists (log_all (destruction d x) s1). split; [reflexivity |]. constructor; cbn [fst snd]; [| change (entry_count (table s) <= Z.of_nat (S n)); lia |].
    + exists M. split; [now apply log_all_ok, log_all_ok |]. now split.
    + unfold s1. cbn. now rewrite Hev, <- app_assoc.
Qed.

Lemma sync_calls_run fuel cs : forall s n h, bus_at s n h -> (n + length cs <= fuel)%nat -> Z.of_nat (n + length cs) < 2 ^ 58 ->
  exists s', sync_calls fuel log cs s = Done ((history_run h cs).1, s') /\ bus_at s' (n + length cs) (history_run h cs).2.
Proof.
  induction cs as [| c cs IH]; intros s n h H Hf Hn; cbn [sync_calls history_run length] in *.
  - exists s. rewrite Nat.add_0_r. now split.
  - destruct (sync_call_run fuel s n h c H ltac:(lia) ltac:(lia)) as (s1 & E1 & H1). destruct (history_step h c) as [r h1]. cbn [fst snd] in *.
    destruct (IH s1 (S n) h1 H1 ltac:(lia) ltac:(lia)) as (s2 & E2 & H2). destruct (history_run h1 cs) as [rs h2]. cbn [fst snd] in *.
    exists s2. split; [brun E1; brun E2; reflexivity |]. now rewrite Nat.add_succ_r.
Qed.

Lemma init_bus_at hash : (forall a, is_u64 (hash a)) -> exists s, init_slots hash = Some s /\ bus_at s 0 (fun _ => [], []).
Proof.
  intros Hh. destruct (init_slots_ok hash Hh) as (s & E & H & Ho & Hev & Hc & Hl). exists s. split; [exact E |]. constructor; cbn [fst snd]; [| lia | exact Hev].
  exists ∅. split; [exact H |]. split; [exact Ho |]. split; intros a; unfold listeners_at; rewrite lookup_empty; cbn; [reflexivity | lia].
Qed.

(** What closing the bus calls: every listener that is left, once, with the
    address [AWS_BUS_ADDRESS_CLOSE] and no payload, the last first at each
    address. *)
Lemma clean_up_history fuel s n h : bus_at s n h -> (n <= fuel)%nat ->
  exists s' order, clean_up_slots fuel log s = Done (tt, s') /\ events s' = h.2 ++ closings h.1 order
    /\ NoDup order /\ (forall a, h.1 a <> [] -> a ∈ order) /\ listeners s' = ∅.
Proof.
  intros [(M & H & Ho & HL & Hs) Hc Hev] Hf. destruct (clean_up_run fuel s M H Ho) as (s' & order & E & Ev & HP & Hl); [intros b; specialize (Hs b); lia |].
  exists s', order. split; [exact E |]. split; [| split; [| split; [| exact Hl]]].
  - rewrite Ev, Hev. f_equal. unfold closings. f_equal. apply map_ext. intros a. now rewrite HL.
  - rewrite HP. apply NoDup_fst_map_to_list.
  - intros a Ha. rewrite HP. rewrite <- HL in Ha. unfold listeners_at in Ha. destruct (M !! a) as [x |] eqn:E'; [| contradiction].
    apply list_elem_of_fmap. exists (a, x). split; [reflexivity | now apply elem_of_map_to_list].
Qed.

(** ** Listeners that call the bus *)

(** Calls no listener may make while a message is delivered. *)
Definition no_unsubscribe (c : call) : Prop := match c with Unsubscribe _ _ _ => False | _ => True end.

#[export] Instance no_unsubscribe_dec c : Decision (no_unsubscribe c).
Proof. destruct c; [left; exact I | right; intros [] | left; exact I]. Defined.

(** [e] does nothing undefined and only lengthens lists. *)
Definition safe {A} (e : B A) : Prop := forall s M, slots_ok s M ->
  match e s with
  | Done (_, s') => exists M', slots_ok s' M' /\ grows M M'
  | Fault => False
  | Unfinished => True
  end.

Lemma safe_ret {A} (a : A) : safe (mret a).
Proof. intros s M H. exists M. split; [exact H | apply grows_refl]. Qed.

Lemma safe_bind {A C} (e : B A) (f : A -> B C) : safe e -> (forall a, safe (f a)) -> safe (e ≫= f).
Proof.
  intros He Hf s M H. specialize (He s M H). unfold mbind, B_bind. destruct (e s) as [[a s1] | |]; [| contradiction | exact I].
  destruct He as (M1 & H1 & G1). specialize (Hf a s1 M1 H1). destruct (f a s1) as [[c s2] | |]; [| contradiction | exact I].
  destruct Hf as (M2 & H2 & G2). exists M2. split; [exact H2 | exact (grows_trans _ _ _ G1 G2)].
Qed.

Lemma safe_log ev : safe (log ev).
Proof. intros s M H. exists M. split; [apply (log_all_ok [ev]), H | apply grows_refl]. Qed.

Section reentrant.
Context (fuel : nat) (notify : event -> B unit).
Hypothesis Hnotify : forall ev, safe (notify ev).

Lemma deliver_loop_safe n : forall p a pre post address payload s M, slots_ok s M -> M !! a = Some (p, pre ++ post) ->
  match deliver_loop notify n p (fst <$> head post) address payload s with
  | Done (_, s') => exists M', slots_ok s' M' /\ grows M M'
  | Fault => False
  | Unfinished => True
  end.
Proof using Hnotify.
  induction n as [| n IH]; intros p a pre post address payload s M H E; destruct post as [| [q x] post]; cbn [head fmap option_fmap option_map fst deliver_loop];
    try (apply (safe_ret tt s M H)); [exact I |].
  brun (list_node_run s M a p _ pre q x post H E eq_refl). pose proof (Hnotify (Delivered (deliver x) address payload (user_data x)) s M H) as Hn.
  unfold mbind at 1, B_bind at 1. destruct (notify _ s) as [[u s1] | |]; [| contradiction | exact I]. destruct Hn as (M1 & H1 & G1). destruct (G1 _ _ _ E) as [k E1]. rewrite <- app_assoc in E1. cbn [app] in E1.
  brun (list_node_run s1 M1 a p _ pre q x (post ++ k) H1 E1 eq_refl). specialize (IH p a (pre ++ [(q, x)]) (post ++ k) address payload s1 M1 H1).
  rewrite <- app_assoc in IH. specialize (IH E1). destruct (deliver_loop _ _ _ _ _ _ _) as [[u' s2] | |]; [| contradiction | exact I].
  destruct IH as (M2 & H2 & G2). exists M2. split; [exact H2 | exact (grows_trans _ _ _ G1 G2)].
Qed.

Lemma deliver_slot_safe slot address payload : safe (s_bus_deliver_msg_to_slot fuel notify slot address payload).
Proof using Hnotify.
  intros s M H. unfold s_bus_deliver_msg_to_slot. brun (find_run s M slot H). destruct (M !! slot) as [[p l] |] eqn:E; cbn [fmap option_fmap option_map fst].
  - assert (get_list p s = Done (l, s)) as El by (unfold get_list; now rewrite (so_lists _ _ H _ _ _ E)). brun El. exact (deliver_loop_safe fuel p slot [] l address payload s M H E).
  - apply (safe_ret tt s M H).
Qed.

Lemma sync_call_safe c : no_unsubscribe c -> safe (sync_call fuel notify c).
Proof using Hnotify.
  destruct c as [a f d | a f d | a x d]; intros Hc; cbn [sync_call]; [| contradiction |].
  - unfold s_bus_sync_subscribe. destruct (decide (a = AWS_BUS_ADDRESS_CLOSE)) as [-> | Ha]; [apply (safe_ret (aws_raise_error AWS_ERROR_INVALID_ARGUMENT)) |].
    intros s M H. destruct (subscribe_run s M a f d H Ha) as (s' & M' & -> & H' & G & _). now exists M'.
  - unfold s_bus_sync_send, s_bus_deliver_msg. apply safe_bind; [apply safe_bind; intros; apply deliver_slot_safe |]. intros _.
    apply safe_bind; [destruct d; [apply Hnotify | apply safe_ret] | intros _; apply safe_ret].
Qed.

Lemma sync_calls_safe cs : Forall no_unsubscribe cs -> safe (sync_calls fuel notify cs).
Proof using Hnotify.
  induction 1 as [| c cs Hc _ IH]; cbn [sync_calls]; [apply safe_ret |]. apply safe_bind; [now apply sync_call_safe |]. intros r. apply safe_bind; [exact IH | intros rs; apply safe_ret].
Qed.
End reentrant.

Lemma reacting_safe react : (forall evs, Forall no_unsubscribe (react evs)) -> forall fuel ev, safe (reacting react fuel ev).
Proof.
  intros Hr. induction fuel as [| fuel IH]; intros ev; [intros s M H; exact I |]. cbn [reacting]. apply safe_bind; [apply safe_log |]. intros _.
  apply safe_bind; [intros s M H; exists M; split; [exact H | apply grows_refl] |]. intros evs.
  apply safe_bind; [apply sync_calls_safe; auto | intros _; apply safe_ret].
Qed.

Lemma outer_calls_safe fuel notify cs : (forall ev, safe (notify ev)) -> forall s M, slots_ok s M -> sync_calls fuel notify cs s <> Fault.
Proof.
  intros Hn. induction cs as [| c cs IH]; intros s M H; cbn [sync_calls]; [discriminate |].
  assert (match sync_call fuel notify c s with Done (_, s') => exists M', slots_ok s' M' | Fault => False | Unfinished => True end) as Hc.
  { destruct (decide (no_unsubscribe c)) as [Hc | Hc].
    - pose proof (sync_call_safe fuel notify Hn c Hc s M H) as Hs. destruct (sync_call _ _ _ _) as [[r s'] | |]; [| contradiction | exact I]. destruct Hs as (M' & H' & _). now exists M'.
    - destruct c as [| a f d |]; try (now destruct Hc). cbn [sync_call]. unfold s_bus_sync_unsubscribe. destruct (decide (a = AWS_BUS_ADDRESS_CLOSE)) as [-> | Ha]; [now exists M |].
      destruct (unsubscribe_run s M a f d H Ha) as (s' & M' & E & H' & _). brun E. now exists M'. }
  unfold mbind at 1, B_bind at 1. destruct (sync_call fuel notify c s) as [[r s1] | |]; [| contradiction | discriminate]. destruct Hc as [M1 H1]. specialize (IH s1 M1 H1).
  unfold mbind, B_bind. destruct (sync_calls fuel notify cs s1) as [[rs s2] | |]; [discriminate | contradiction | discriminate].
Qed.
