(* ===== verification/BusAsync.v ===== *)
(** * The message bus: the asynchronous one

    The threads that call the bus, the thread that closes it and the dispatch
    thread, in any interleaving. The ledger says what the calls amount to: the
    messages that were accepted, each with the number of subscriptions (and ends
    of subscriptions) accepted before it, and those subscriptions. *)

From stdpp Require Import sorting.
From S2P Require Import Prelude HashTable HashTableInv HashTableSpec HashTableHistory Bus BusSync.
Import HashTable Bus.

Local Open Scope Z_scope.

Inductive move := Call (c : call) | BeginCleanUp | Dispatch.

Definition map_outcome {A C} (f : A -> C) (o : outcome A) : outcome C := match o with Done a => Done (f a) | Fault => Fault | Unfinished => Unfinished end.

(** [None]: the dispatch thread waits or has ended. *)
Definition move_step (fuel : nat) (a : bus_async_impl) (mv : move) : option (outcome bus_async_impl) :=
  match mv with
  | Call (Subscribe x f d) => Some (Done (s_bus_async_subscribe a x f d).2)
  | Call (Unsubscribe x f d) => Some (Done (s_bus_async_unsubscribe a x f d))
  | Call (Send x p d) => Some (map_outcome snd (s_bus_async_send a x p d))
  | BeginCleanUp => Some (Done (begin_clean_up a))
  | Dispatch => dispatch_step fuel a
  end.

Inductive async_run (fuel : nat) (a : bus_async_impl) : list move -> bus_async_impl -> Prop :=
| run_none : async_run fuel a [] a
| run_move mvs a' mv a'' : async_run fuel a mvs a' -> move_step fuel a' mv = Some (Done a'') -> async_run fuel a (mvs ++ [mv]) a''.

(** ** The ledger *)

Definition parcel : Type := Z * Z * option Z.
Definition parcel_of (m : bus_message) : parcel := (msg_address m, msg_payload m, msg_destructor m).

Record ledger := mk_ledger { sent : list (nat * parcel); subs : list pending_listener; is_open : bool }.

Definition ledger_step (l : ledger) (mv : move) : ledger :=
  if negb (is_open l) then l
  else
    match mv with
    | Call (Send x p d) => mk_ledger (sent l ++ [(length (subs l), (x, p, d))]) (subs l) true
    | Call (Subscribe x f d) => if x =? AWS_BUS_ADDRESS_CLOSE then l else mk_ledger (sent l) (subs l ++ [mk_pending x f d true]) true
    | Call (Unsubscribe x f d) => if x =? AWS_BUS_ADDRESS_CLOSE then l else mk_ledger (sent l) (subs l ++ [mk_pending x f d false]) true
    | BeginCleanUp => mk_ledger (sent l) (subs l) false
    | Dispatch => l
    end.

Definition ledger_of (mvs : list move) : ledger := foldl ledger_step (mk_ledger [] [] true) mvs.

Definition after_sub (L : Z -> list bus_listener) (p : pending_listener) : Z -> list bus_listener :=
  if sub_add p then add_at L (sub_address p) (mk_listener (sub_listener p) (sub_data p)) else remove_at L (sub_address p) (sub_listener p) (sub_data p).

Definition after_subs (ps : list pending_listener) : Z -> list bus_listener := foldl after_sub (fun _ => []) ps.

(** What delivering a message calls once the first [n] subscriptions hold. *)
Definition block (ps : list pending_listener) (x : parcel) (n : nat) : list event :=
  map (delivery x.1.1 x.1.2) (audience (after_subs (take n ps)) x.1.1) ++ destruction x.2 x.1.2.

Definition blocks (ps : list pending_listener) (ds : list (nat * parcel)) (ns : list nat) : list event := concat (zip_with (fun d n => block ps d.2 n) ds ns).

(** ** The invariant *)

Definition thread_pending (t : dispatch) : list (positive * pending_listener) := match t with Applying ps _ _ => ps | _ => [] end.
Definition thread_subs (t : dispatch) : list pending_listener := map snd (thread_pending t).
Definition thread_msgs (t : dispatch) : list bus_message := match t with Applying _ ms _ => ms | Delivering _ ms _ => ms | _ => [] end.
Definition thread_done (t : dispatch) : list bus_message := match t with Delivering ds _ _ => ds | _ => [] end.
Definition thread_drains (t : dispatch) : Z := match t with Waiting d | Applying _ _ d | Delivering _ _ d | Testing d => d | Exited => 0 end.

(** In the last round nothing is added; after it nothing is left. *)
Definition drained (a : bus_async_impl) : Prop :=
  match thread a with
  | Waiting 0 => running a = false
  | Applying _ _ 0 | Delivering _ _ 0 | Testing 0 | Exited => running a = false /\ queue_msgs a = [] /\ queue_subs a = []
  | t => thread_drains t = 1
  end.

(** The memory of messages: free, in use, all of the buffer, all other. *)
Record pool_ok (free used buf alloc : list positive) (next : positive) : Prop := {
  po_all : free ++ used ≡ₚ buf ++ alloc;
  po_nodup : NoDup (buf ++ alloc);
  po_next : Forall (fun p => p < next)%positive (buf ++ alloc);
  po_free : Forall (fun p => p ∈ buf) free
}.

Definition used_by (a : bus_async_impl) : list positive := map msg_at (thread_done (thread a) ++ thread_msgs (thread a) ++ queue_msgs a).

(** The blocks in use, each one once. *)
Record heap_ok (blocks : list positive) (h : gset positive) (next : positive) : Prop := {
  ho_all : h = list_to_set blocks;
  ho_nodup : NoDup blocks;
  ho_next : Forall (fun p => p < next)%positive blocks
}.

(** The structure, the buffer and the subscriptions that wait. *)
Definition own_blocks (a : bus_async_impl) : list positive := impl_at a :: option_list (queue_buffer a).
Definition blocks_in_use (a : bus_async_impl) : list positive := own_blocks a ++ map fst (thread_pending (thread a)) ++ map fst (queue_subs a).

(** Every message has its own memory. *)
Record memory_ok (a : bus_async_impl) : Prop := {
  mm_pool : pool_ok (queue_free a) (used_by a) (buffer a) (allocated a) (next_address (async_slots a));
  mm_done : Forall (fun m => msg_destructor m = None) (thread_done (thread a))
}.

Record slots_at (s : bus_slots) (applied : list pending_listener) : Prop := {
  sa_map : exists M, slots_ok s M /\ no_orphans s M /\ (forall b, listeners_at M b = after_subs applied b) /\ short_lists (length applied) M;
  sa_count : entry_count (table s) <= Z.of_nat (length applied)
}.

Record async_ok (a : bus_async_impl) (l : ledger) (applied : list pending_listener) (ds : list (nat * parcel)) (ns : list nat) (pend que : list (nat * parcel)) : Prop := {
  ao_running : running a = is_open l;
  ao_subs : subs l = applied ++ thread_subs (thread a) ++ map snd (queue_subs a);
  ao_valid : Forall (fun p => sub_address p <> AWS_BUS_ADDRESS_CLOSE) (subs l);
  ao_sent : sent l = ds ++ pend ++ que;
  ao_pend : map snd pend = map parcel_of (thread_msgs (thread a));
  ao_que : map snd que = map parcel_of (queue_msgs a);
  ao_pend_after : Forall (fun x => x.1 <= length applied + length (thread_subs (thread a)))%nat pend;
  ao_que_after : Forall (fun x => x.1 <= length (subs l))%nat que;
  ao_ns : Forall2 (fun x n => x.1 <= n <= length applied)%nat ds ns;
  ao_sorted : StronglySorted le ns;
  ao_events : events (async_slots a) = blocks (subs l) ds ns;
  ao_slots : slots_at (async_slots a) applied;
  ao_memory : memory_ok a;
  ao_drained : drained a;
  ao_heap : heap_ok (blocks_in_use a) (heap a) (next_address (async_slots a))
}.

Lemma blocks_extend ps ps' ds ns : Forall2 (fun x n => x.1 <= n <= length ps)%nat ds ns -> blocks (ps ++ ps') ds ns = blocks ps ds ns.
Proof.
  intros H. unfold blocks. induction H as [| x n ds ns Hn _ IH]; [reflexivity |]. cbn [zip_with concat]. rewrite IH. f_equal. unfold block. now rewrite take_app_le by lia.
Qed.

Lemma blocks_snoc ps ds ns x n : length ds = length ns -> blocks ps (ds ++ [x]) (ns ++ [n]) = blocks ps ds ns ++ block ps x.2 n.
Proof. intros H. unfold blocks. rewrite zip_with_app by exact H. rewrite concat_app. cbn. now rewrite app_nil_r. Qed.

(** ** Subscriptions *)

Lemma after_subs_snoc ps p : after_subs (ps ++ [p]) = after_sub (after_subs ps) p.
Proof. unfold after_subs. now rewrite foldl_app. Qed.

Lemma heap_next blocks h n n' : heap_ok blocks h n -> (n <= n')%positive -> heap_ok blocks h n'.
Proof. intros [] Hn. constructor; auto. eapply Forall_impl; [eassumption |]. intros p Hp. cbv beta in *. lia. Qed.

Lemma heap_alloc blocks h n : heap_ok blocks h n -> heap_ok (blocks ++ [n]) ({[n]} ∪ h) (Pos.succ n).
Proof.
  intros [-> Hnd Hn]. rewrite Forall_forall in Hn. constructor.
  - set_solver.
  - apply NoDup_app. split; [exact Hnd |]. split; [| apply NoDup_singleton]. intros p Hp ->%list_elem_of_singleton. specialize (Hn _ Hp). lia.
  - apply Forall_app. split; [| constructor; [lia | constructor]]. apply Forall_forall. intros p Hp. specialize (Hn _ Hp). lia.
Qed.

Lemma heap_release l1 p l2 h n : heap_ok (l1 ++ p :: l2) h n -> p ∈ h /\ heap_ok (l1 ++ l2) (h ∖ {[p]}) n.
Proof.
  intros [-> Hnd Hn]. split; [set_solver |]. rewrite <- Permutation_middle in Hnd, Hn. apply NoDup_cons in Hnd as [Hp Hnd]. apply Forall_cons in Hn as [_ Hn].
  constructor; [| exact Hnd | exact Hn]. apply set_eq. intros q. rewrite elem_of_difference, !elem_of_list_to_set, !elem_of_app, elem_of_cons, elem_of_singleton.
  rewrite elem_of_app in Hp. destruct (decide (q = p)) as [-> |]; tauto.
Qed.

Lemma release_run l1 p l2 a n : heap_ok (l1 ++ p :: l2) (heap a) n -> release_block p a = Done (set_heap a (heap a ∖ {[p]})) /\ heap_ok (l1 ++ l2) (heap a ∖ {[p]}) n.
Proof. intros H. destruct (heap_release _ _ _ _ _ H) as [Hp H']. unfold release_block. now rewrite decide_True. Qed.

Lemma apply_one s applied p : slots_at s applied -> sub_address p <> AWS_BUS_ADDRESS_CLOSE -> Z.of_nat (length applied) < 2 ^ 58 ->
  exists s', apply_listener p s = Done (tt, s') /\ slots_at s' (applied ++ [p]) /\ events s' = events s /\ (next_address s <= next_address s')%positive.
Proof.
  intros [(M & H & Ho & HL & Hs) Hc] Ha Hn. unfold apply_listener. destruct (sub_add p) eqn:Eadd.
  - destruct (subscribe_run s M _ (sub_listener p) (sub_data p) H Ha) as (s1 & M1 & E1 & H1 & _ & Ev1 & N1 & Hroom). destruct Hroom as (HL1 & Hc1 & Ho1); [unfold few; lia |].
    exists s1. split; [brun E1; reflexivity |]. split; [| now split]. constructor; [| rewrite length_app; cbn; lia]. exists M1. split; [exact H1 |]. split; [auto |].
    rewrite after_subs_snoc. unfold after_sub. rewrite Eadd. split; intros b; rewrite HL1; unfold add_at; rewrite ?HL; [reflexivity |].
    pose proof (Hs b) as Hb. specialize (Hs (sub_address p)). rewrite HL in Hb, Hs. rewrite length_app. cbn. destruct (b =? _); [rewrite length_app; cbn |]; lia.
  - destruct (unsubscribe_run s M _ (sub_listener p) (sub_data p) H Ha) as (s1 & M1 & E1 & H1 & Ev1 & Ht & N1 & HL1 & Ho1).
    exists s1. split; [exact E1 |]. split; [| split; [exact Ev1 | rewrite N1; lia]]. constructor; [| rewrite Ht, length_app; cbn; lia]. exists M1. split; [exact H1 |]. split; [auto |].
    rewrite after_subs_snoc. unfold after_sub. rewrite Eadd. split; intros b; rewrite HL1; unfold remove_at; rewrite ?HL; [reflexivity |].
    pose proof (Hs b) as Hb. specialize (Hs (sub_address p)). rewrite HL in Hb, Hs. rewrite length_app. cbn.
    pose proof (remove_first_length (sub_listener p) (sub_data p) (after_subs applied (sub_address p))). destruct (b =? _); lia.
Qed.

(** The blocks between [own] and [rest] are released. *)
Lemma apply_run own rest ps : forall a applied, slots_at (async_slots a) applied -> Forall (fun p => sub_address p <> AWS_BUS_ADDRESS_CLOSE) (map snd ps) ->
  Z.of_nat (length applied + length ps) < 2 ^ 58 -> heap_ok (own ++ map fst ps ++ rest) (heap a) (next_address (async_slots a)) ->
  exists s' h', s_bus_apply_listeners ps a = Done (set_heap (set_slots a s') h') /\ slots_at s' (applied ++ map snd ps) /\ events s' = events (async_slots a)
    /\ (next_address (async_slots a) <= next_address s')%positive /\ heap_ok (own ++ rest) h' (next_address s').
Proof.
  induction ps as [| [q p] ps IH]; intros a applied H Hv Hn Hh; cbn [s_bus_apply_listeners length map fst snd app] in *.
  - exists (async_slots a), (heap a). rewrite app_nil_r. split; [now destruct a |]. split; [exact H |]. split; [reflexivity |]. split; [lia | exact Hh].
  - apply Forall_cons in Hv as [Ha Hv]. destruct (apply_one _ _ p H Ha ltac:(lia)) as (s1 & E1 & H1 & Ev1 & N1). unfold on_slots. rewrite E1.
    destruct (release_run own q (map fst ps ++ rest) (set_slots a s1) _ (heap_next _ _ _ _ Hh N1)) as [-> Hh1].
    destruct (IH (set_heap (set_slots a s1) (heap a ∖ {[q]})) (applied ++ [p]) H1 Hv) as (s2 & h2 & E2 & H2 & Ev2 & N2 & Hh2); [rewrite length_app; cbn; lia | exact Hh1 |].
    cbn [async_slots set_heap set_slots] in *. rewrite <- app_assoc in H2. exists s2, h2. split; [exact E2 |]. split; [exact H2 |]. split; [congruence |]. split; [lia | exact Hh2].
Qed.

Lemma slots_at_same s s' applied : slots_at s applied -> table s' = table s -> listeners s' = listeners s -> (next_address s <= next_address s')%positive -> slots_at s' applied.
Proof.
  intros [(M & H & Ho & HL & Hs) Hc] Et El Hn. constructor; [| now rewrite Et]. exists M. split; [| split; [| now split]].
  - apply (slots_ok_same s); auto. intros. now rewrite El.
  - intros p k. rewrite El. apply Ho.
Qed.

(** Delivering a message whose memory is at [msg]. *)
Lemma deliver_message_run fuel s applied ps msg : slots_at s applied -> (length applied <= fuel)%nat ->
  deliver_message fuel msg s = Done (mk_message (msg_at msg) (msg_address msg) 0 None, log_all (block (applied ++ ps) (parcel_of msg) (length applied)) s).
Proof.
  intros [(M & H & Ho & HL & Hs) Hc] Hf. unfold deliver_message. brun (deliver_log fuel M (msg_address msg) (msg_payload msg) s H ltac:(intros b; specialize (Hs b); lia)).
  unfold block, parcel_of. cbn [fst snd]. rewrite take_app_length. replace (audience (listeners_at M) (msg_address msg)) with (audience (after_subs applied) (msg_address msg)) by (unfold audience; now rewrite !HL).
  unfold s_bus_message_clean_up. destruct (msg_destructor msg); cbn [destruction]; [erewrite bind_B by reflexivity | erewrite bind_B by reflexivity; rewrite app_nil_r; reflexivity].
  unfold log_all. cbn. now rewrite <- app_assoc.
Qed.

(** ** The memory of messages *)

Lemma pool_next free used buf alloc n n' : pool_ok free used buf alloc n -> (n <= n')%positive -> pool_ok free used buf alloc n'.
Proof. intros [] Hn. constructor; auto. eapply Forall_impl; [eassumption |]. intros p Hp. cbv beta in *. lia. Qed.

Lemma pool_perm free used used' buf alloc n : pool_ok free used buf alloc n -> used' ≡ₚ used -> pool_ok free used' buf alloc n.
Proof. intros [] HP. constructor; auto. now rewrite HP. Qed.

Definition free_slots (a : bus_async_impl) (m : bus_message) : bus_slots := log_all (destruction (msg_destructor m) (msg_payload m)) (async_slots a).

Lemma message_clean_up_run m s : s_bus_message_clean_up m s = Done (mk_message (msg_at m) (msg_address m) 0 None, log_all (destruction (msg_destructor m) (msg_payload m)) s).
Proof. unfold s_bus_message_clean_up. destruct (msg_destructor m); cbn [destruction]; [reflexivity | now rewrite log_all_nil]. Qed.

Lemma filter_keep (q : positive) l : Forall (fun p => p <> q) l -> filter (fun p => p <> q) l = l.
Proof. induction 1 as [| p l Hp _ IH]; [reflexivity |]. rewrite filter_cons_True by exact Hp. now rewrite IH. Qed.

(** Giving the memory of a message back. *)
Lemma free_message_run a m used n : pool_ok (queue_free a) (msg_at m :: used) (buffer a) (allocated a) n ->
  exists alloc free, s_bus_async_free_message m a = Done (set_memory (set_slots a (free_slots a m)) alloc free)
    /\ pool_ok free used (buffer a) alloc n /\ (msg_at m ∈ buffer a -> alloc = allocated a /\ free = queue_free a ++ [msg_at m]).
Proof.
  intros [Hall Hnd Hn Hf]. unfold s_bus_async_free_message, on_slots. rewrite message_clean_up_run. cbn [buffer set_slots allocated queue_free].
  destruct (decide (msg_at m ∈ buffer a)) as [Hb | Hb].
  - eexists _, _. split; [reflexivity |]. split; [| intros _; now split]. constructor; auto.
    + rewrite <- Hall, <- app_assoc. reflexivity.
    + apply Forall_app. split; [exact Hf | now repeat constructor].
  - assert (msg_at m ∈ buffer a ++ allocated a) as Hin by (rewrite <- Hall; apply elem_of_app; right; left).
    apply elem_of_app in Hin as [Hin | Hin]; [contradiction |]. rewrite decide_True by exact Hin. eexists _, _. split; [reflexivity |]. split; [| contradiction].
    apply NoDup_app in Hnd as (N1 & N2 & N3). apply list_elem_of_split in Hin as (l1 & l2 & El).
    assert (filter (fun p => p <> msg_at m) (allocated a) = l1 ++ l2) as Efilter.
    { rewrite El in *. apply NoDup_app in N3 as (_ & D1 & D2). apply NoDup_cons in D2 as [D2 _].
      rewrite filter_app, filter_cons_False by (now intros []). f_equal; apply filter_keep; apply Forall_forall; intros p Hp ->; [apply (D1 _ Hp); left | contradiction]. }
    rewrite Efilter. assert (allocated a ≡ₚ msg_at m :: l1 ++ l2) as HP by (rewrite El; symmetry; apply Permutation_middle).
    constructor.
    + apply (Permutation_cons_inv (a := msg_at m)). rewrite Permutation_middle, Hall, HP. symmetry. apply Permutation_middle.
    + assert (NoDup (msg_at m :: l1 ++ l2)) as N3' by now rewrite <- HP. apply NoDup_cons in N3' as [_ N3']. apply NoDup_app. split; [exact N1 |]. split; [| exact N3'].
      intros p Hp Hp'. apply (N2 _ Hp). rewrite HP. now right.
    + rewrite HP in Hn. apply Forall_app in Hn as [H1 H2]. apply Forall_cons in H2 as [_ H2]. now apply Forall_app.
    + exact Hf.
Qed.

Lemma set_slots_same a : set_slots a (async_slots a) = a.
Proof. now destruct a. Qed.

Lemma free_messages_run ms : forall a used n, pool_ok (queue_free a) (map msg_at ms ++ used) (buffer a) (allocated a) n -> Forall (fun m => msg_destructor m = None) ms ->
  exists alloc free, free_messages ms a = Done (set_memory a alloc free) /\ pool_ok free used (buffer a) alloc n.
Proof.
  induction ms as [| m ms IH]; intros a used n H Hd; cbn [free_messages map app] in *.
  - exists (allocated a), (queue_free a). split; [now destruct a | exact H].
  - apply Forall_cons in Hd as [Hm Hd]. destruct (free_message_run a m _ n H) as (alloc & free & E & H1 & _). rewrite E. unfold free_slots. rewrite Hm. cbn [destruction]. rewrite log_all_nil, set_slots_same.
    destruct (IH (set_memory a alloc free) used n H1 Hd) as (alloc' & free' & E' & H2). exists alloc', free'. split; [exact E' | exact H2].
Qed.

Lemma last_removelast {A} (l : list A) x : last l = Some x -> l = removelast l ++ [x].
Proof. intros H. destruct l as [| y l _] using rev_ind; [discriminate |]. rewrite last_snoc in H. injection H as ->. now rewrite removelast_last. Qed.

(** Memory for one more message. *)
Lemma alloc_free_run k a p used n : pool_ok (queue_free a) used (buffer a) (allocated a) n -> last (queue_free a) = Some p ->
  alloc_loop k a = Done (p, set_memory a (allocated a) (removelast (queue_free a))) /\ pool_ok (removelast (queue_free a)) (p :: used) (buffer a) (allocated a) n.
Proof.
  intros [Hall Hnd Hn Hf] E. split; [destruct k; cbn [alloc_loop]; now rewrite E |]. apply last_removelast in E. constructor; auto.
  - rewrite <- Hall, E, removelast_last, <- app_assoc. reflexivity.
  - rewrite E in Hf. rewrite Forall_app in Hf. tauto.
Qed.

Lemma alloc_reliable_run a used : reliable a = true -> pool_ok (queue_free a) used (buffer a) (allocated a) (next_address (async_slots a)) ->
  exists p s alloc free, s_bus_async_alloc_message a = Done (p, set_memory (set_slots a s) alloc free) /\ table s = table (async_slots a) /\ listeners s = listeners (async_slots a)
    /\ events s = events (async_slots a) /\ (next_address (async_slots a) <= next_address s)%positive /\ pool_ok free (p :: used) (buffer a) alloc (next_address s).
Proof.
  intros Hr H. unfold s_bus_async_alloc_message. destruct (last (queue_free a)) as [p |] eqn:E.
  - destruct (alloc_free_run (length (queue_msgs a)) a p used _ H E) as [E' H']. exists p, (async_slots a), (allocated a), (removelast (queue_free a)).
    rewrite set_slots_same. do 5 (split; [auto; lia |]). exact H'.
  - assert (alloc_loop (length (queue_msgs a)) a = Done (next_address (async_slots a), set_memory (set_slots a (mk_slots (table (async_slots a)) (listeners (async_slots a)) (Pos.succ (next_address (async_slots a))) (events (async_slots a))))
      (next_address (async_slots a) :: allocated a) (queue_free a))) as E' by (destruct (length (queue_msgs a)); cbn [alloc_loop]; now rewrite E, Hr).
    eexists _, _, _, _. split; [exact E' |]. cbn. do 3 (split; [reflexivity |]). split; [lia |]. destruct H as [Hall Hnd Hn Hf]. constructor; auto.
    + rewrite <- Permutation_middle, Hall. apply Permutation_middle.
    + rewrite <- Permutation_middle. apply NoDup_cons. split; [| exact Hnd]. intros Hp. rewrite Forall_forall in Hn. specialize (Hn _ Hp). lia.
    + rewrite <- Permutation_middle. apply Forall_cons. split; [lia |]. eapply Forall_impl; [exact Hn |]. intros p Hp. cbv beta in *. lia.
Qed.

(** ** Steps keep the invariant *)

Lemma drained_running a : drained a -> running a = true -> thread_drains (thread a) = 1.
Proof. unfold drained. intros H Hr. destruct (thread a) as [d | ps ms d | dn ms d | d |]; cbn; try (destruct d as [| q | q]); intuition congruence. Qed.

Lemma drained_one a : thread_drains (thread a) = 1 -> drained a.
Proof. unfold drained. destruct (thread a); cbn; intros E; subst; [reflexivity .. | discriminate]. Qed.

Lemma ns_bound a l applied ds ns pend que : async_ok a l applied ds ns pend que -> Forall2 (fun x n => x.1 <= n <= length (subs l))%nat ds ns.
Proof.
  intros H. eapply Forall2_impl; [exact (ao_ns _ _ _ _ _ _ _ H) |]. intros x n Hx. cbv beta in *. rewrite (ao_subs _ _ _ _ _ _ _ H), length_app. lia.
Qed.

(** A subscription, or the end of one, is queued. *)
Lemma queue_sub_ok a l applied ds ns pend que p : async_ok a l applied ds ns pend que -> running a = true -> sub_address p <> AWS_BUS_ADDRESS_CLOSE ->
  let '(q, a1) := calloc_block a in
  async_ok (set_queues a1 (queue_msgs a1) (queue_subs a1 ++ [(q, p)])) (mk_ledger (sent l) (subs l ++ [p]) true) applied ds ns pend que.
Proof.
  intros H Hr Hp. pose proof (ns_bound _ _ _ _ _ _ _ H) as Hns. destruct H. unfold calloc_block. cbv zeta.
  constructor; cbn [running set_queues set_heap set_slots is_open subs sent thread queue_subs queue_msgs async_slots heap next_address events]; auto.
  - rewrite ao_subs0, map_app, <- !app_assoc. reflexivity.
  - apply Forall_app. split; [exact ao_valid0 | now constructor].
  - rewrite length_app. eapply Forall_impl; [exact ao_que_after0 |]. intros x Hx. cbv beta in *. lia.
  - now rewrite blocks_extend.
  - apply (slots_at_same (async_slots a)); auto; cbn; lia.
  - destruct ao_memory0 as [Hm Hd]. constructor; [| exact Hd]. cbn [async_slots next_address set_queues set_heap set_slots]. eapply pool_next; [exact Hm | lia].
  - apply drained_one. exact (drained_running _ ao_drained0 Hr).
  - unfold blocks_in_use. cbn [thread set_queues set_heap set_slots queue_subs]. rewrite map_app, !app_assoc. cbn [map fst]. apply heap_alloc. rewrite <- app_assoc. exact ao_heap0.
Qed.

(** A message is queued. *)
Lemma queue_msg_ok a l applied ds ns pend que p s alloc free x payload d : async_ok a l applied ds ns pend que -> running a = true ->
  table s = table (async_slots a) -> listeners s = listeners (async_slots a) -> events s = events (async_slots a) -> (next_address (async_slots a) <= next_address s)%positive ->
  pool_ok free (p :: used_by a) (buffer a) alloc (next_address s) ->
  async_ok (set_queues (set_memory (set_slots a s) alloc free) (queue_msgs a ++ [mk_message p x payload d]) (queue_subs a))
    (mk_ledger (sent l ++ [(length (subs l), (x, payload, d))]) (subs l) true) applied ds ns pend (que ++ [(length (subs l), (x, payload, d))]).
Proof.
  intros H Hr Et El Ev Hn Hpool. destruct H. constructor; cbn [running set_queues set_memory set_slots is_open subs sent thread queue_subs queue_msgs async_slots]; auto.
  - now rewrite ao_sent0, <- !app_assoc.
  - rewrite !map_app, ao_que0. reflexivity.
  - apply Forall_app. split; [exact ao_que_after0 | now repeat constructor].
  - now rewrite Ev.
  - now apply (slots_at_same (async_slots a)).
  - destruct ao_memory0. constructor; cbn [queue_free set_queues set_memory set_slots buffer allocated async_slots thread]; [| assumption].
    apply (pool_perm _ (p :: used_by a)); [exact Hpool |]. unfold used_by. cbn [thread set_queues set_memory set_slots queue_msgs]. rewrite !app_assoc, map_app. symmetry. apply Permutation_cons_append.
  - apply drained_one. exact (drained_running _ ao_drained0 Hr).
  - exact (heap_next _ _ _ _ ao_heap0 Hn).
Qed.

Definition step_kept (fuel : nat) (a : bus_async_impl) (l : ledger) (mv : move) : Prop :=
  forall o, move_step fuel a mv = Some o -> exists a' applied ds ns pend que, o = Done a' /\ reliable a' = true /\ buffer a' = buffer a /\ async_ok a' (ledger_step l mv) applied ds ns pend que.

Lemma call_kept fuel a l applied ds ns pend que c : reliable a = true -> async_ok a l applied ds ns pend que -> step_kept fuel a l (Call c).
Proof.
  intros Hrel H o Eo. pose proof (ao_running _ _ _ _ _ _ _ H) as Hrun. unfold ledger_step. rewrite <- Hrun. cbn [move_step] in Eo.
  destruct c as [x f d | x f d | x payload d].
  - injection Eo as <-. unfold s_bus_async_subscribe. destruct (running a) eqn:Er; cbn [negb]; destruct (Z.eqb_spec x AWS_BUS_ADDRESS_CLOSE) as [-> | Hx];
      cbn [snd]; try (exists a, applied, ds, ns, pend, que; tauto).
    eexists _, applied, ds, ns, pend, que. split; [reflexivity |]. split; [exact Hrel |]. split; [reflexivity |]. exact (queue_sub_ok _ _ _ _ _ _ _ (mk_pending x f d true) H Er Hx).
  - injection Eo as <-. unfold s_bus_async_unsubscribe. destruct (running a) eqn:Er; cbn [negb]; destruct (Z.eqb_spec x AWS_BUS_ADDRESS_CLOSE) as [-> | Hx];
      try (exists a, applied, ds, ns, pend, que; tauto).
    eexists _, applied, ds, ns, pend, que. split; [reflexivity |]. split; [exact Hrel |]. split; [reflexivity |]. exact (queue_sub_ok _ _ _ _ _ _ _ (mk_pending x f d false) H Er Hx).
  - injection Eo as <-. unfold s_bus_async_send. destruct (running a) eqn:Er; cbn [negb]; [| exists a, applied, ds, ns, pend, que; tauto].
    destruct (alloc_reliable_run a (used_by a) Hrel (mm_pool _ (ao_memory _ _ _ _ _ _ _ H))) as (p & s & alloc & free & E & Et & El & Ev & Hn & Hpool). rewrite E. cbn [map_outcome snd].
    eexists _, applied, ds, ns, pend, _. split; [reflexivity |]. split; [exact Hrel |]. split; [reflexivity |].
    exact (queue_msg_ok a l applied ds ns pend que p s alloc free x payload d H Er Et El Ev Hn Hpool).
Qed.

Lemma close_kept fuel a l applied ds ns pend que : reliable a = true -> async_ok a l applied ds ns pend que -> step_kept fuel a l BeginCleanUp.
Proof.
  intros Hrel H o Eo. injection Eo as <-. exists (begin_clean_up a), applied, ds, ns, pend, que. split; [reflexivity |]. split; [exact Hrel |]. split; [reflexivity |].
  pose proof (ao_running _ _ _ _ _ _ _ H) as Hrun. unfold ledger_step, begin_clean_up. rewrite <- Hrun. destruct (running a) eqn:Er; cbn [negb].
  - destruct H. constructor; cbn [running set_running is_open subs sent thread queue_subs queue_msgs async_slots]; auto.
    + destruct ao_memory0. now constructor.
    + apply drained_one. exact (drained_running _ ao_drained0 Er).
  - replace (set_running a false) with a; [exact H |]. unfold set_running. rewrite <- Er. now destruct a.
Qed.

(** The dispatch thread takes the queues over. *)
Lemma wake_ok a l applied ds ns pend que drains : async_ok a l applied ds ns pend que -> thread a = Waiting drains ->
  pend = [] /\ async_ok (set_thread (set_queues a [] []) (Applying (queue_subs a) (queue_msgs a) drains)) l applied ds ns que [].
Proof.
  intros H Et. assert (pend = []) as -> by (pose proof (ao_pend _ _ _ _ _ _ _ H) as E; rewrite Et in E; now apply map_eq_nil in E).
  split; [reflexivity |]. destruct H. rewrite Et in *. cbn [thread_subs thread_pending map length thread_msgs thread_done app] in *.
  constructor; cbn [running set_thread set_queues is_open subs sent thread queue_subs queue_msgs async_slots thread_subs thread_msgs app]; auto.
  - cbn. now rewrite app_nil_r.
  - cbn. now rewrite app_nil_r.
  - eapply Forall_impl; [exact ao_que_after0 |]. intros x Hx. cbv beta in *. rewrite ao_subs0, length_app in Hx. exact Hx.
  - destruct ao_memory0 as [Hp Hd]. unfold used_by in Hp. rewrite Et in Hp. cbn [thread_done thread_msgs app] in Hp. constructor; cbn; [| constructor]. unfold used_by. cbn. now rewrite app_nil_r.
  - unfold drained in *. rewrite Et in ao_drained0. cbn. destruct drains; auto.
  - unfold blocks_in_use in *. rewrite Et in ao_heap0. cbn in *. now rewrite app_nil_r.
Qed.

Lemma apply_ok a l applied ds ns pend que ps ms drains : async_ok a l applied ds ns pend que -> thread a = Applying ps ms drains -> Z.of_nat (length (subs l)) < 2 ^ 58 ->
  exists a1, s_bus_apply_listeners ps a = Done a1 /\ reliable a1 = reliable a /\ buffer a1 = buffer a
    /\ async_ok (set_thread a1 (match ms with [] => Testing drains | _ => Delivering [] ms drains end)) l (applied ++ map snd ps) ds ns pend que.
Proof.
  intros H Et Hn. destruct H. rewrite Et in *. cbn [thread_subs thread_msgs thread_done] in *.
  assert (Forall (fun p => sub_address p <> AWS_BUS_ADDRESS_CLOSE) (map snd ps)) as Hv by (rewrite ao_subs0 in ao_valid0; rewrite !Forall_app in ao_valid0; tauto).
  assert (heap_ok (own_blocks a ++ map fst ps ++ map fst (queue_subs a)) (heap a) (next_address (async_slots a))) as Hh by (unfold blocks_in_use in ao_heap0; now rewrite Et in ao_heap0).
  destruct (apply_run (own_blocks a) (map fst (queue_subs a)) ps a applied ao_slots0 Hv) as (s' & h' & E & Hs & Hev & Hnx & Hh'); [rewrite ao_subs0, !length_app in Hn; unfold thread_subs in Hn; cbn [thread_pending] in Hn; rewrite !length_map in Hn; lia | exact Hh |].
  exists (set_heap (set_slots a s') h'). rewrite E. split; [reflexivity |]. split; [reflexivity |]. split; [reflexivity |].
  set (t := match ms with [] => Testing drains | _ => Delivering [] ms drains end).
  assert (thread_pending t = [] /\ thread_msgs t = ms /\ thread_done t = [] /\ thread_drains t = drains) as (T1 & T2 & T3 & T4) by (unfold t; now destruct ms).
  constructor; cbn [running set_thread set_heap set_slots is_open subs sent thread queue_subs queue_msgs async_slots]; unfold thread_subs in *; rewrite ?T1, ?T2, ?T3; auto.
  - now rewrite ao_subs0, <- app_assoc.
  - eapply Forall_impl; [exact ao_pend_after0 |]. intros x Hx. cbv beta in *. cbn [thread_pending] in Hx. rewrite length_app. cbn. lia.
  - eapply Forall2_impl; [exact ao_ns0 |]. intros x n Hx. cbv beta in *. rewrite length_app. lia.
  - now rewrite Hev.
  - destruct ao_memory0 as [Hp Hd]. constructor; cbn [thread set_thread]; rewrite ?T3; [| constructor].
    unfold used_by in *. rewrite Et in Hp. cbn in Hp |- *. rewrite T2, T3. cbn. exact (pool_next _ _ _ _ _ _ Hp Hnx).
  - unfold drained in *. rewrite Et in ao_drained0. cbn [thread set_thread set_slots]. unfold t. destruct ms; cbn; destruct drains; auto.
  - unfold blocks_in_use. cbn [thread set_thread set_heap set_slots]. rewrite T1. exact Hh'.
Qed.

Lemma deliver_ok fuel a l applied ds ns pend que dn msg ms drains : async_ok a l applied ds ns pend que -> thread a = Delivering dn (msg :: ms) drains -> (length (subs l) <= fuel)%nat ->
  exists msg' a1 x, on_slots (deliver_message fuel msg) a = Done (msg', a1) /\ reliable a1 = reliable a /\ buffer a1 = buffer a /\ pend = x :: tail pend
    /\ async_ok (set_thread a1 (Delivering (dn ++ [msg']) ms drains)) l applied (ds ++ [x]) (ns ++ [length applied]) (tail pend) que.
Proof.
  intros H Et Hf. pose proof (ns_bound _ _ _ _ _ _ _ H) as Hns. destruct H. rewrite Et in *. cbn [thread_subs thread_pending map length thread_msgs thread_done app length] in *.
  destruct pend as [| x pend]; [discriminate |]. cbn [map] in ao_pend0. injection ao_pend0 as Ex Epend. cbn [tail].
  assert (length applied <= fuel)%nat as Hfa by (rewrite ao_subs0, length_app in Hf; lia). exists (mk_message (msg_at msg) (msg_address msg) 0 None). unfold on_slots.
  rewrite (deliver_message_run fuel (async_slots a) applied (map snd (queue_subs a)) msg ao_slots0 Hfa). eexists _, x. do 3 (split; [reflexivity |]). split; [reflexivity |].
  constructor; cbn [running set_thread set_slots is_open subs sent thread queue_subs queue_msgs async_slots thread_subs thread_msgs]; auto.
  - now rewrite ao_sent0, <- app_assoc.
  - apply Forall_cons in ao_pend_after0 as [_ ?]. assumption.
  - apply Forall2_app; [exact ao_ns0 |]. constructor; [| constructor]. apply Forall_cons in ao_pend_after0 as [? _]. lia.
  - clear -ao_sorted0 ao_ns0. revert ao_sorted0. induction ao_ns0 as [| y n ds ns Hn _ IH]; intros Hs; cbn [app]; [repeat constructor |].
    apply StronglySorted_inv in Hs as [Hs HF]. constructor; [auto |]. apply Forall_app. split; [exact HF |]. constructor; [lia | constructor].
  - cbn [events log_all]. rewrite ao_events0, blocks_snoc by exact (Forall2_length _ _ _ ao_ns0). rewrite Ex, ao_subs0. reflexivity.
  - apply (slots_at_same (async_slots a)); auto; cbn; lia.
  - destruct ao_memory0 as [Hp Hd]. rewrite Et in Hd. cbn [thread_done] in Hd. constructor; cbn [thread set_thread thread_done].
    + unfold used_by in *. rewrite Et in Hp. cbn [thread set_thread thread_done thread_msgs queue_msgs set_slots queue_free buffer allocated async_slots next_address log_all app] in *.
      rewrite !map_app in *. cbn [map] in Hp |- *. rewrite map_app in Hp. rewrite <- app_assoc. exact Hp.
    + apply Forall_app. split; [exact Hd | now repeat constructor].
  - unfold drained in *. rewrite Et in ao_drained0. cbn. destruct drains; auto.
  - unfold blocks_in_use in *. rewrite Et in ao_heap0. exact ao_heap0.
Qed.

Lemma free_step_ok a l applied ds ns pend que dn drains : async_ok a l applied ds ns pend que -> thread a = Delivering dn [] drains ->
  exists a1, free_messages dn a = Done a1 /\ reliable a1 = reliable a /\ buffer a1 = buffer a /\ async_ok (set_thread a1 (Testing drains)) l applied ds ns pend que.
Proof.
  intros H Et. destruct H. rewrite Et in *. cbn [thread_subs thread_pending map length thread_msgs thread_done app] in *. destruct ao_memory0 as [Hp Hd]. rewrite Et in Hd. unfold used_by in Hp. rewrite Et in Hp.
  cbn [thread_done thread_msgs app] in *. rewrite map_app in Hp.
  destruct (free_messages_run dn a _ _ Hp Hd) as (alloc & free & E & Hp'). eexists. split; [exact E |]. split; [reflexivity |]. split; [reflexivity |].
  constructor; cbn [running set_thread set_memory is_open subs sent thread queue_subs queue_msgs async_slots thread_subs thread_msgs]; auto.
  - constructor; [exact Hp' | constructor].
  - unfold drained in *. rewrite Et in ao_drained0. cbn. destruct drains; auto.
  - unfold blocks_in_use in *. rewrite Et in ao_heap0. exact ao_heap0.
Qed.

Lemma test_ok a l applied ds ns pend que drains : async_ok a l applied ds ns pend que -> thread a = Testing drains ->
  async_ok (set_thread a (if running a then Waiting drains else if negb (drains =? 0) then Waiting (drains - 1) else Exited)) l applied ds ns pend que.
Proof.
  intros H Et. set (t := if running a then _ else _). assert (thread_pending t = [] /\ thread_msgs t = [] /\ thread_done t = []) as (T1 & T2 & T3) by (unfold t; now destruct (running a); [| destruct (drains =? 0)]).
  pose proof (ao_drained _ _ _ _ _ _ _ H) as Hdr. destruct H. rewrite Et in *. cbn [thread_subs thread_pending map length thread_msgs thread_done app] in *.
  constructor; cbn [running set_thread is_open subs sent thread queue_subs queue_msgs async_slots]; unfold thread_subs in *; rewrite ?T1, ?T2, ?T3; auto.
  - destruct ao_memory0 as [Hp Hd]. unfold used_by in Hp. rewrite Et in Hp. constructor; cbn [thread set_thread]; rewrite ?T3; [| constructor]. unfold used_by. cbn [thread set_thread queue_msgs]. now rewrite T2, T3.
  - unfold drained in Hdr |- *. rewrite Et in Hdr. cbn [thread set_thread running queue_msgs queue_subs]. unfold t. destruct (running a) eqn:Er.
    + destruct drains; [destruct Hdr; congruence | exact Hdr | exact Hdr].
    + destruct drains as [| q | q]; [exact Hdr | |]; cbn [thread_drains] in Hdr; [injection Hdr as -> | discriminate]. reflexivity.
  - unfold blocks_in_use in *. rewrite Et in ao_heap0. cbn [thread set_thread queue_subs]. rewrite T1. exact ao_heap0.
Qed.

Lemma dispatch_kept fuel a l applied ds ns pend que : reliable a = true -> async_ok a l applied ds ns pend que -> (length (subs l) <= fuel)%nat -> Z.of_nat (length (subs l)) < 2 ^ 58 ->
  step_kept fuel a l Dispatch.
Proof.
  intros Hrel H Hf Hn o Eo. assert (ledger_step l Dispatch = l) as -> by (unfold ledger_step; now destruct (negb _)). cbn [move_step] in Eo. unfold dispatch_step in Eo.
  destruct (thread a) as [d | ps ms d | dn [| msg ms] d | d |] eqn:Et.
  - destruct (s_bus_async_should_wake_up a); [| discriminate]. injection Eo as <-. destruct (wake_ok _ _ _ _ _ _ _ d H Et) as [_ H'].
    eexists _, _, _, _, _, _. split; [reflexivity |]. split; [exact Hrel |]. split; [reflexivity | exact H'].
  - destruct (apply_ok _ _ _ _ _ _ _ ps ms d H Et Hn) as (a1 & E & R1 & B1 & H'). rewrite E in Eo. injection Eo as <-.
    eexists _, _, _, _, _, _. split; [reflexivity |]. split; [cbn; congruence |]. split; [exact B1 | exact H'].
  - destruct (free_step_ok _ _ _ _ _ _ _ dn d H Et) as (a1 & E & R1 & B1 & H'). rewrite E in Eo. injection Eo as <-.
    eexists _, _, _, _, _, _. split; [reflexivity |]. split; [cbn; congruence |]. split; [exact B1 | exact H'].
  - destruct (deliver_ok fuel _ _ _ _ _ _ _ dn msg ms d H Et Hf) as (msg' & a1 & x & E & R1 & B1 & _ & H'). rewrite E in Eo. injection Eo as <-.
    eexists _, _, _, _, _, _. split; [reflexivity |]. split; [cbn; congruence |]. split; [exact B1 | exact H'].
  - injection Eo as <-. eexists _, _, _, _, _, _. split; [reflexivity |]. split; [exact Hrel |]. split; [reflexivity | exact (test_ok _ _ _ _ _ _ _ d H Et)].
  - discriminate.
Qed.
