(* ===== verification/BusClaims.v ===== *)
(** * The message bus: what it promises

    The synchronous bus over a whole life; the asynchronous, reliable bus in any
    interleaving, while it runs and when it is closed; the unreliable bus at the
    limit of its buffer. *)

From stdpp Require Import sorting.
From S2P Require Import Prelude HashTable HashTableInv HashTableSpec HashTableHistory Bus BusSync BusAsync.
Import HashTable Bus.

Local Open Scope Z_scope.

(** ** Runs of the asynchronous bus *)

Lemma ledger_step_subs l mv : (length (subs (ledger_step l mv)) <= S (length (subs l)))%nat.
Proof.
  unfold ledger_step. destruct (negb (is_open l)); [lia |].
  destruct mv as [[x f d | x f d | x p d] | |]; cbn; try lia; destruct (x =? AWS_BUS_ADDRESS_CLOSE); cbn; rewrite ?length_app; cbn; lia.
Qed.

Lemma ledger_snoc mvs mv : ledger_of (mvs ++ [mv]) = ledger_step (ledger_of mvs) mv.
Proof. unfold ledger_of. now rewrite foldl_app. Qed.

Lemma ledger_subs mvs : (length (subs (ledger_of mvs)) <= length mvs)%nat.
Proof.
  induction mvs as [| mv mvs IH] using rev_ind; [cbn; lia |]. rewrite ledger_snoc, length_app. pose proof (ledger_step_subs (ledger_of mvs) mv). cbn. lia.
Qed.

Lemma async_init_ok hash size : (forall a, is_u64 (hash a)) ->
  exists a, s_bus_async_init hash AWS_BUS_ASYNC_RELIABLE size = Some a /\ reliable a = true /\ async_ok a (ledger_of []) [] [] [] [] [].
Proof.
  intros Hh. unfold s_bus_async_init. destruct (init_slots_ok hash Hh) as (s & E & H & Ho & Hev & Hc & Hl & Hnx). rewrite E. cbv zeta. match goal with |- context [seq 1 ?k] => set (n := k) end.
  eexists. split; [reflexivity |]. split; [reflexivity |].
  constructor; cbn [running ledger_of foldl is_open subs sent thread thread_subs thread_msgs queue_subs queue_msgs async_slots app length map]; try reflexivity; try constructor.
  - exact Hev.
  - exists ∅. split; [apply (slots_ok_same s); [exact H | reflexivity | rewrite Hnx; apply Pos.le_1_l | reflexivity] |]. split; [intros p l Hp; cbn in Hp; rewrite Hl in Hp; now rewrite lookup_empty in Hp |].
    split; intros b; unfold listeners_at; rewrite lookup_empty; cbn; [reflexivity | lia].
  - cbn. lia.
  - cbn. constructor; rewrite ?app_nil_r.
    + reflexivity.
    + apply NoDup_fmap_2_strong; [| apply NoDup_seq]. intros x y Hx Hy Exy. apply elem_of_seq in Hx, Hy. apply Nat2Pos.inj in Exy; lia.
    + apply Forall_forall. intros p Hp. apply list_elem_of_fmap in Hp as (k & -> & Hk). apply elem_of_seq in Hk. cbn. lia.
    + apply Forall_forall. auto.
  - constructor.
  - unfold blocks_in_use, own_blocks. cbn. now rewrite app_nil_r.
  - unfold blocks_in_use, own_blocks. cbn. rewrite app_nil_r. destruct (size =? 0); cbn; repeat constructor; set_solver by lia.
  - unfold blocks_in_use, own_blocks. cbn. rewrite app_nil_r. destruct (size =? 0); cbn; repeat constructor; lia.
Qed.

Lemma async_run_ok fuel a0 mvs a : reliable a0 = true -> async_ok a0 (ledger_of []) [] [] [] [] [] -> async_run fuel a0 mvs a -> (length mvs <= fuel)%nat -> Z.of_nat (length mvs) < 2 ^ 58 ->
  reliable a = true /\ exists applied ds ns pend que, async_ok a (ledger_of mvs) applied ds ns pend que.
Proof.
  intros Hr H0 Hrun. induction Hrun as [| mvs a' mv a'' Hrun IH Es]; intros Hf Hn; [split; [exact Hr | now exists [], [], [], [], []] |].
  rewrite length_app in Hf, Hn. cbn in Hf, Hn. destruct (IH ltac:(lia) ltac:(lia)) as (Hr' & applied & ds & ns & pend & que & H). pose proof (ledger_subs mvs).
  assert (step_kept fuel a' (ledger_of mvs) mv) as Hk.
  { destruct mv as [c | |]; [exact (call_kept fuel _ _ _ _ _ _ _ c Hr' H) | exact (close_kept fuel _ _ _ _ _ _ _ Hr' H) | exact (dispatch_kept fuel _ _ _ _ _ _ _ Hr' H ltac:(lia) ltac:(lia))]. }
  destruct (Hk _ Es) as (a1 & applied' & ds' & ns' & pend' & que' & E & Hr1 & _ & Hok1). injection E as <-. split; [exact Hr1 |]. rewrite ledger_snoc. now exists applied', ds', ns', pend', que'.
Qed.

(** ** The dispatch thread by itself *)

Fixpoint dispatch_run (fuel k : nat) (a : bus_async_impl) : option bus_async_impl :=
  match k with
  | O => Some a
  | S k => match dispatch_step fuel a with Some (Done a) => dispatch_run fuel k a | _ => None end
  end.

(** A bound on the steps that are left once the bus is closed. *)
Definition cost (a : bus_async_impl) : nat :=
  let again (d : Z) (n : nat) := if d =? 0 then O else n in
  match thread a with
  | Exited => 0
  | Testing d => 1 + again d (5 + length (queue_msgs a))
  | Delivering _ ms d => 2 + length ms + again d (5 + length (queue_msgs a))
  | Applying _ ms d => 3 + length ms + again d (5 + length (queue_msgs a))
  | Waiting d => 4 + length (queue_msgs a) + again d 5
  end%nat.

Lemma que_length a l applied ds ns pend que : async_ok a l applied ds ns pend que -> length (queue_msgs a) = length que.
Proof. intros H. pose proof (ao_que _ _ _ _ _ _ _ H) as E. apply (f_equal length) in E. rewrite !length_map in E. lia. Qed.

Lemma dispatch_progress fuel a l applied ds ns pend que : reliable a = true -> async_ok a l applied ds ns pend que -> (length (subs l) <= fuel)%nat -> Z.of_nat (length (subs l)) < 2 ^ 58 ->
  running a = false -> thread a <> Exited ->
  exists a' applied' ds' ns' pend' que', dispatch_step fuel a = Some (Done a') /\ reliable a' = true /\ buffer a' = buffer a /\ async_ok a' l applied' ds' ns' pend' que' /\ (cost a' < cost a)%nat.
Proof.
  intros Hrel H Hf Hn Hr Hx. pose proof (que_length _ _ _ _ _ _ _ H) as Hq. unfold dispatch_step. destruct (thread a) as [d | ps ms d | dn [| msg ms] d | d |] eqn:Et; [| | | | | contradiction].
  - unfold s_bus_async_should_wake_up. rewrite Hr. cbn [negb orb]. destruct (wake_ok _ _ _ _ _ _ _ d H Et) as [_ H'].
    eexists _, _, _, _, _, _. split; [reflexivity |]. split; [exact Hrel |]. split; [reflexivity |]. split; [exact H' |].
    unfold cost. rewrite Et. cbn [thread set_thread queue_msgs set_queues length]. destruct (d =? 0); lia.
  - destruct (apply_ok _ _ _ _ _ _ _ ps ms d H Et Hn) as (a1 & E & R1 & B1 & H'). rewrite E. pose proof (que_length _ _ _ _ _ _ _ H') as Hq'.
    eexists _, _, _, _, _, _. split; [reflexivity |]. split; [cbn; congruence |]. split; [exact B1 |]. split; [exact H' |]. cbn [queue_msgs set_thread] in Hq'.
    unfold cost. rewrite Et. cbn [thread set_thread queue_msgs]. rewrite Hq, Hq'. destruct ms; cbn [length]; destruct (d =? 0); lia.
  - destruct (free_step_ok _ _ _ _ _ _ _ dn d H Et) as (a1 & E & R1 & B1 & H'). rewrite E. pose proof (que_length _ _ _ _ _ _ _ H') as Hq'.
    eexists _, _, _, _, _, _. split; [reflexivity |]. split; [cbn; congruence |]. split; [exact B1 |]. split; [exact H' |]. cbn [queue_msgs set_thread] in Hq'.
    unfold cost. rewrite Et. cbn [thread set_thread queue_msgs]. rewrite Hq, Hq'. cbn [length]. destruct (d =? 0); lia.
  - destruct (deliver_ok fuel _ _ _ _ _ _ _ dn msg ms d H Et Hf) as (msg' & a1 & x & E & R1 & B1 & _ & H'). rewrite E. pose proof (que_length _ _ _ _ _ _ _ H') as Hq'.
    eexists _, _, _, _, _, _. split; [reflexivity |]. split; [cbn; congruence |]. split; [exact B1 |]. split; [exact H' |]. cbn [queue_msgs set_thread] in Hq'.
    unfold cost. rewrite Et. cbn [thread set_thread queue_msgs]. rewrite Hq, Hq'. cbn [length]. destruct (d =? 0); lia.
  - pose proof (test_ok _ _ _ _ _ _ _ d H Et) as H'. pose proof (ao_drained _ _ _ _ _ _ _ H) as Hdr. unfold drained in Hdr. rewrite Et in Hdr. rewrite Hr in *.
    eexists _, _, _, _, _, _. split; [reflexivity |]. split; [exact Hrel |]. split; [reflexivity |]. split; [exact H' |].
    unfold cost. rewrite Et. cbn [thread set_thread queue_msgs]. destruct d as [| q | q]; cbn [thread_drains] in Hdr; [change (0 =? 0) with true; cbn [negb]; lia | | discriminate]. injection Hdr as ->. change (if negb (1 =? 0) then Waiting (1 - 1) else Exited) with (Waiting 0). change (1 =? 0) with false. change (0 =? 0) with true. cbv iota. change (0 =? 0) with true. cbv iota. lia.
Qed.

Lemma dispatch_ends fuel l n : forall a applied ds ns pend que, (cost a <= n)%nat -> reliable a = true -> async_ok a l applied ds ns pend que ->
  (length (subs l) <= fuel)%nat -> Z.of_nat (length (subs l)) < 2 ^ 58 -> is_open l = false ->
  exists k a' applied' ds' ns' pend' que', (k <= n)%nat /\ dispatch_run fuel k a = Some a' /\ thread a' = Exited /\ buffer a' = buffer a /\ async_ok a' l applied' ds' ns' pend' que'.
Proof.
  induction n as [| n IH]; intros a applied ds ns pend que Hc Hrel H Hf Hn Ho; pose proof (ao_running _ _ _ _ _ _ _ H) as Hr; rewrite Ho in Hr.
  - exists O, a, applied, ds, ns, pend, que. split; [lia |]. split; [reflexivity |]. unfold cost in Hc. destruct (thread a); try lia. auto.
  - assert (thread a = Exited \/ thread a <> Exited) as [Et | Et] by (destruct (thread a); (left; reflexivity) || (right; discriminate)).
    + exists O, a, applied, ds, ns, pend, que. split; [lia |]. auto.
    + destruct (dispatch_progress fuel _ _ _ _ _ _ _ Hrel H Hf Hn Hr Et) as (a1 & p1 & d1 & n1 & e1 & q1 & E1 & R1 & B1 & H1 & C1).
      destruct (IH a1 _ _ _ _ _ ltac:(lia) R1 H1 Hf Hn Ho) as (k & a' & p' & d' & n' & e' & q' & Hk & Ek & Et' & B' & H').
      exists (S k), a', p', d', n', e', q'. split; [lia |]. split; [cbn [dispatch_run]; now rewrite E1 |]. split; [exact Et' |]. split; [congruence | exact H'].
Qed.

(** Once the thread has ended, all is delivered and all memory is free. *)
Lemma exited_all a l applied ds ns pend que : async_ok a l applied ds ns pend que -> thread a = Exited ->
  queue_msgs a = [] /\ queue_subs a = [] /\ applied = subs l /\ ds = sent l /\ allocated a = [] /\ queue_free a ≡ₚ buffer a.
Proof.
  intros H Et. destruct H. unfold drained in ao_drained. rewrite Et in *. destruct ao_drained as (_ & E1 & E2). rewrite E1, E2 in *. cbn [thread_subs thread_msgs map app] in *.
  apply map_eq_nil in ao_pend as ->. apply map_eq_nil in ao_que as ->. rewrite !app_nil_r in *. split; [reflexivity |]. split; [reflexivity |]. split; [congruence |]. split; [congruence |].
  destruct ao_memory as [[Hall Hnd _ Hf] _]. unfold used_by in Hall. rewrite Et, E1 in Hall. cbn in Hall. rewrite app_nil_r in Hall.
  assert (allocated a = []) as Ea; [| rewrite Ea, app_nil_r in Hall; now split].
  apply NoDup_app in Hnd as (_ & Hd & _). destruct (allocated a) as [| p al]; [reflexivity |]. exfalso.
  assert (p ∈ queue_free a) as Hp by (rewrite Hall; apply elem_of_app; right; left). rewrite Forall_forall in Hf. apply (Hd p (Hf _ Hp)). left.
Qed.

(** After the buffer and the structure, no block is left. *)
Lemma finish_ok fuel a l applied ds ns pend que : async_ok a l applied ds ns pend que -> thread a = Exited -> (length (subs l) <= fuel)%nat ->
  exists a' order, finish_clean_up fuel a = Some (Done a') /\ events (async_slots a') = blocks (subs l) (sent l) ns ++ closings (after_subs (subs l)) order
    /\ NoDup order /\ (forall b, after_subs (subs l) b <> [] -> b ∈ order) /\ listeners (async_slots a') = ∅ /\ heap a' = ∅.
Proof.
  intros H Et Hf. destruct (exited_all _ _ _ _ _ _ _ H Et) as (E1 & E2 & Ea & Ed & _). pose proof (ao_slots _ _ _ _ _ _ _ H) as Hs. pose proof (ao_events _ _ _ _ _ _ _ H) as Hev. subst applied ds.
  pose proof (ao_heap _ _ _ _ _ _ _ H) as Hh. unfold blocks_in_use, own_blocks in Hh. rewrite Et, E2 in Hh. cbn [thread_pending map app] in Hh. rewrite app_nil_r in Hh.
  unfold finish_clean_up. rewrite Et, E1, E2. destruct Hs as [(M & HM & Ho & HL & Hsh) Hc].
  destruct (clean_up_history fuel (async_slots a) (length (subs l)) (after_subs (subs l), blocks (subs l) (sent l) ns)) as (s & order & E & Ev & N1 & N2 & N3); [| exact Hf |].
  { constructor; cbn [fst snd]; [now exists M | exact Hc | exact Hev]. }
  assert (exists h, release_buffer a = Done (set_heap a h) /\ heap_ok [impl_at a] h (next_address (async_slots a))) as (h & -> & Hh').
  { unfold release_buffer. destruct (queue_buffer a) as [b |]; cbn [option_list] in Hh; [| exists (heap a); split; [now destruct a | exact Hh]].
    destruct (release_run [impl_at a] b [] a _ Hh) as [E' H']. eauto. }
  unfold on_slots. cbn [async_slots set_heap]. rewrite E. cbn [impl_at set_slots set_heap].
  destruct (release_run [] (impl_at a) [] (set_slots (set_heap a h) s) _ Hh') as [-> Hh2].
  eexists _, order. split; [reflexivity |]. cbn [async_slots set_heap set_slots heap]. do 4 (split; [assumption |]). exact (ho_all _ _ _ Hh2).
Qed.

(** ** The synchronous bus *)

(** C22: A synchronous bus, over any history of calls with listeners that do not call
    the bus: each call returns what the history says, a message goes to the
    listeners of all addresses and then to those of its address, each in the order
    of subscription, and its destructor is called once afterwards; subscribing to
    the closing address is refused. Closing calls every listener that is left
    exactly once and releases every list. *)
Theorem bus_sync_correct hash cs fuel :
  (forall a, is_u64 (hash a)) -> (length cs <= fuel)%nat -> Z.of_nat (length cs) < 2 ^ 58 ->
  let h := (history_run (fun _ => [], []) cs).2 in
  exists s0 s1 s2 order, s_bus_sync_init hash = Some s0
    /\ sync_calls fuel log cs s0 = Done ((history_run (fun _ => [], []) cs).1, s1) /\ events s1 = h.2
    /\ s_bus_sync_clean_up fuel log s1 = Done (tt, s2) /\ events s2 = h.2 ++ closings h.1 order
    /\ NoDup order /\ (forall a, h.1 a <> [] -> a ∈ order) /\ listeners s2 = ∅.
Proof.
  intros Hh Hf Hn h. destruct (init_bus_at hash Hh) as (s0 & E0 & H0). destruct (sync_calls_run fuel cs s0 0 _ H0 Hf Hn) as (s1 & E1 & H1).
  destruct (clean_up_history fuel s1 _ h H1 Hf) as (s2 & order & E2 & Ev2 & N1 & N2 & N3).
  exists s0, s1, s2, order. split; [exact E0 |]. split; [exact E1 |]. split; [exact (ba_events _ _ _ H1) |]. split; [exact E2 | auto].
Qed.

(** C23: Listeners and destructors of a synchronous bus may subscribe and send, to any
    depth and as often as they like, while they are called: nothing undefined
    happens, as long as they do not unsubscribe; the program itself may. *)
Theorem bus_sync_reentrant_safe hash react cs fuel s :
  (forall a, is_u64 (hash a)) -> (forall evs, Forall no_unsubscribe (react evs)) -> s_bus_sync_init hash = Some s ->
  sync_calls fuel (reacting react fuel) cs s <> Fault.
Proof.
  intros Hh Hr E. destruct (init_bus_at hash Hh) as (s0 & E0 & [(M & H & _) _ _]). unfold s_bus_sync_init in E. rewrite E0 in E. injection E as <-.
  apply (outer_calls_safe _ _ _ (reacting_safe react Hr fuel) s0 M H).
Qed.

(** ** The asynchronous bus *)

(** C20: An asynchronous, reliable bus, at any point of any interleaving of calls,
    closing and the dispatch thread: no call goes wrong. The accepted messages were
    delivered in the order in which they were sent, up to those still waiting; each
    one as a whole, once, its destructor after its listeners. The listeners of a
    message are those after some first subscriptions, at least the ones accepted
    before the message, and never fewer than for the message before. *)
Theorem bus_async_delivers hash buffer_size fuel mvs a0 a :
  (forall x, is_u64 (hash x)) -> s_bus_async_init hash AWS_BUS_ASYNC_RELIABLE buffer_size = Some a0 -> async_run fuel a0 mvs a ->
  (length mvs <= fuel)%nat -> Z.of_nat (length mvs) < 2 ^ 58 ->
  let l := ledger_of mvs in
  (exists delivered waiting ns, sent l = delivered ++ waiting /\ map snd waiting = map parcel_of (thread_msgs (thread a) ++ queue_msgs a)
     /\ events (async_slots a) = blocks (subs l) delivered ns
     /\ Forall2 (fun x n => x.1 <= n <= length (subs l))%nat delivered ns /\ StronglySorted le ns)
  /\ forall mv o, move_step fuel a mv = Some o -> exists a', o = Done a'.
Proof.
  intros Hh E0 Hrun Hf Hn l. destruct (async_init_ok hash buffer_size Hh) as (a1 & E1 & Hr & H0). rewrite E0 in E1. injection E1 as <-.
  destruct (async_run_ok fuel a0 mvs a Hr H0 Hrun Hf Hn) as (Hr' & applied & ds & ns & pend & que & H). pose proof (ledger_subs mvs) as Hl. fold l in H, Hl. split.
  - exists ds, (pend ++ que), ns. split; [exact (ao_sent _ _ _ _ _ _ _ H) |]. split; [rewrite !map_app, (ao_pend _ _ _ _ _ _ _ H), (ao_que _ _ _ _ _ _ _ H); reflexivity |].
    split; [exact (ao_events _ _ _ _ _ _ _ H) |]. split; [exact (ns_bound _ _ _ _ _ _ _ H) | exact (ao_sorted _ _ _ _ _ _ _ H)].
  - intros mv o Eo. assert (step_kept fuel a l mv) as Hk.
    { destruct mv as [c | |]; [exact (call_kept fuel _ _ _ _ _ _ _ c Hr' H) | exact (close_kept fuel _ _ _ _ _ _ _ Hr' H) | exact (dispatch_kept fuel _ _ _ _ _ _ _ Hr' H ltac:(lia) ltac:(lia))]. }
    destruct (Hk o Eo) as (a' & _ & _ & _ & _ & _ & -> & _). now exists a'.
Qed.


(** Sending on an unreliable bus uses no memory but the buffer. With a free
    message it is queued there. Without one the oldest message that waits is given
    up: its destructor is called, and its memory is used. When none waits either,
    because all are being delivered, the behaviour is undefined. *)
Theorem bus_unreliable_send a x payload d :
  reliable a = false -> running a = true -> pool_ok (queue_free a) (used_by a) (buffer a) (allocated a) (next_address (async_slots a)) -> allocated a = [] ->
  match last (queue_free a), queue_msgs a with
  | Some p, ms => exists a', s_bus_async_send a x payload d = Done (AWS_OP_SUCCESS, a') /\ queue_msgs a' = ms ++ [mk_message p x payload d]
      /\ queue_free a' ++ [p] = queue_free a /\ allocated a' = [] /\ async_slots a' = async_slots a
  | None, m :: ms => exists a', s_bus_async_send a x payload d = Done (AWS_OP_SUCCESS, a') /\ queue_msgs a' = ms ++ [mk_message (msg_at m) x payload d]
      /\ queue_free a' = [] /\ allocated a' = [] /\ async_slots a' = log_all (destruction (msg_destructor m) (msg_payload m)) (async_slots a)
  | None, [] => s_bus_async_send a x payload d = Fault
  end.
Proof.
  intros Hr Hrun Hp Ha. unfold s_bus_async_send, s_bus_async_alloc_message. rewrite Hrun. cbn [negb]. destruct (last (queue_free a)) as [p |] eqn:El.
  - destruct (alloc_free_run (length (queue_msgs a)) a p _ _ Hp El) as [-> _]. eexists. split; [reflexivity |]. split; [reflexivity |]. split; [| now split].
    cbn. symmetry. now apply last_removelast.
  - destruct (queue_msgs a) as [| m ms] eqn:Eq; cbn [length alloc_loop]; rewrite El, Hr, Eq; [reflexivity |].
    assert (queue_free a = []) as Ef by (destruct (queue_free a) as [| q fr] using rev_ind; [reflexivity | now rewrite last_snoc in El]).
    assert (msg_at m ∈ buffer a) as Hm.
    { pose proof (po_all _ _ _ _ _ Hp) as Hall. rewrite Ef, Ha, app_nil_r in Hall. rewrite <- Hall. unfold used_by. rewrite Eq, !map_app. cbn [app map]. apply elem_of_app. right. apply elem_of_app. right. left. }
    unfold s_bus_async_free_message, on_slots. rewrite message_clean_up_run. cbn [set_queues set_slots buffer allocated queue_free async_slots]. rewrite decide_True by exact Hm. rewrite Ef. cbn [app].
    set (a1 := set_memory _ _ _). assert (alloc_loop (length ms) a1 = Done (msg_at m, set_memory a1 (allocated a) [])) as -> by (destruct (length ms); reflexivity).
    eexists. split; [reflexivity |]. cbn. auto.
Qed.

(** ** Witnesses *)

Fixpoint play (fuel : nat) (a : bus_async_impl) (mvs : list move) : option bus_async_impl :=
  match mvs with
  | [] => Some a
  | mv :: mvs => match move_step fuel a mv with Some (Done a) => play fuel a mvs | _ => None end
  end.

Lemma play_run fuel a0 pre a mvs a' : async_run fuel a0 pre a -> play fuel a mvs = Some a' -> async_run fuel a0 (pre ++ mvs) a'.
Proof.
  revert pre a. induction mvs as [| mv mvs IH]; intros pre a H E; cbn [play] in E; [injection E as <-; now rewrite app_nil_r |].
  destruct (move_step fuel a mv) as [[a1 | |] |] eqn:Em; try discriminate. replace (pre ++ mv :: mvs) with ((pre ++ [mv]) ++ mvs) by now rewrite <- app_assoc.
  apply (IH _ a1); [exact (run_move _ _ _ _ _ _ H Em) | exact E].
Qed.

Definition demo_calls : list call := [Subscribe 5 1 2; Subscribe AWS_BUS_ADDRESS_ALL 3 4; Send 5 9 (Some 8); Unsubscribe 5 1 2; Send 5 9 None].

(** Two messages, one of them sent while the first is delivered. *)
Definition demo_moves : list move :=
  [Call (Subscribe 5 1 2); Call (Send 5 9 (Some 8)); Dispatch; Dispatch; Call (Send 5 7 None); Dispatch; Dispatch; Dispatch; BeginCleanUp; Call (Send 5 6 None)].

Lemma u64_hash x : is_u64 (u64 x).
Proof. apply u64_range. Qed.

Lemma bus_sync_correct_witness :
  exists s0 s1, s_bus_sync_init u64 = Some s0
    /\ sync_calls 5 log demo_calls s0 = Done (replicate 5 AWS_OP_SUCCESS, s1)
    /\ events s1 = [Delivered 3 5 9 4; Delivered 1 5 9 2; Destroyed 8 9; Delivered 3 5 9 4].
Proof.
  assert (length demo_calls <= 5)%nat as Hf by (vm_compute; lia). assert (Z.of_nat (length demo_calls) < 2 ^ 58) as Hn by (vm_compute; reflexivity).
  pose proof (bus_sync_correct u64 demo_calls 5 u64_hash Hf Hn) as H. cbv zeta in H.
  replace (history_run (fun _ => [], []) demo_calls).1 with (replicate 5 AWS_OP_SUCCESS) in H by (vm_compute; reflexivity).
  replace (history_run (fun _ => [], []) demo_calls).2.2 with [Delivered 3 5 9 4; Delivered 1 5 9 2; Destroyed 8 9; Delivered 3 5 9 4] in H by (vm_compute; reflexivity).
  destruct H as (s0 & s1 & _ & _ & E0 & E1 & Ev & _). exists s0, s1. split; [exact E0 |]. split; [exact E1 | exact Ev].
Defined.

(** Every message is answered by a subscription, some by another message. *)
Definition demo_reaction (evs : list event) : list call := match evs with [Delivered _ _ _ _] => [Subscribe 5 6 6; Send 5 1 None] | _ => [Subscribe 7 1 1] end.

Lemma some_of {A} (o : option A) : match o with Some _ => true | None => false end = true -> exists x, o = Some x.
Proof. destruct o as [x |]; [intros _; now exists x | discriminate]. Qed.

Lemma bus_sync_reentrant_safe_witness :
  exists s, s_bus_sync_init u64 = Some s /\ sync_calls 50 (reacting demo_reaction 50) demo_calls s <> Fault.
Proof.
  assert (exists s, s_bus_sync_init u64 = Some s) as [s E] by (apply some_of; vm_compute; reflexivity). exists s. split; [exact E |].
  apply (bus_sync_reentrant_safe u64 demo_reaction demo_calls 50 s u64_hash); [| exact E].
  intros evs. destruct evs as [| [] [|]]; repeat constructor.
Defined.

(** A bus of one message, after some moves. *)
Definition small_bus (policy : aws_bus_policy) (mvs : list move) : option bus_async_impl := a ← s_bus_async_init u64 policy 40; play 10 a mvs.

Lemma small_bus_run policy mvs a : small_bus policy mvs = Some a -> exists a0, s_bus_async_init u64 policy 40 = Some a0 /\ async_run 10 a0 mvs a.
Proof. intros (a0 & E0 & Ea)%bind_Some. exists a0. split; [exact E0 | exact (play_run 10 a0 [] a0 mvs a (run_none _ _) Ea)]. Qed.

Lemma demo_bus : exists a0 a, s_bus_async_init u64 AWS_BUS_ASYNC_RELIABLE 40 = Some a0 /\ async_run 10 a0 demo_moves a.
Proof.
  assert (exists a, small_bus AWS_BUS_ASYNC_RELIABLE demo_moves = Some a) as [a E] by (apply some_of; vm_compute; reflexivity).
  destruct (small_bus_run _ _ _ E) as (a0 & H). now exists a0, a.
Qed.

Lemma demo_moves_short : (length demo_moves <= 10)%nat /\ Z.of_nat (length demo_moves) < 2 ^ 58 /\ BeginCleanUp ∈ demo_moves.
Proof. split; [vm_compute; lia |]. split; [vm_compute; reflexivity |]. unfold demo_moves. rewrite !elem_of_cons. tauto. Qed.

Lemma bus_async_delivers_witness :
  exists a0 a, s_bus_async_init u64 AWS_BUS_ASYNC_RELIABLE 40 = Some a0 /\ async_run 10 a0 demo_moves a
    /\ exists delivered waiting ns, [(1%nat, (5, 9, Some 8)); (1%nat, (5, 7, None))] = delivered ++ waiting
         /\ events (async_slots a) = blocks [mk_pending 5 1 2 true] delivered ns.
Proof.
  destruct demo_bus as (a0 & a & E0 & Hrun), demo_moves_short as (Hf & Hn & _). exists a0, a. split; [exact E0 |]. split; [exact Hrun |].
  destruct (bus_async_delivers u64 40 10 demo_moves a0 a u64_hash E0 Hrun Hf Hn) as [(delivered & waiting & ns & E1 & _ & E2 & _) _].
  exists delivered, waiting, ns. split; [exact E1 | exact E2].
Defined.


(** An unreliable bus whose one message is in the queue. *)
Lemma full_bus : exists a, small_bus AWS_BUS_ASYNC_UNRELIABLE [Call (Send 5 9 (Some 8))] = Some a /\ reliable a = false /\ running a = true /\ buffer a = [1%positive]
  /\ allocated a = [] /\ queue_free a = [] /\ queue_msgs a = [mk_message 1 5 9 (Some 8)] /\ thread a = Waiting 1 /\ next_address (async_slots a) = 4%positive.
Proof.
  set (o := small_bus _ _). assert ((fun a => (reliable a, running a, buffer a, allocated a, queue_free a, queue_msgs a, thread a, next_address (async_slots a))) <$> o
    = Some (false, true, [1%positive], [], [], [mk_message 1 5 9 (Some 8)], Waiting 1, 4%positive)) as E by (vm_compute; reflexivity).
  destruct o as [a |]; [| discriminate]. cbn [fmap option_fmap option_map] in E. injection E as E1 E2 E3 E4 E5 E6 E7 E8. exists a. now auto 10.
Qed.

Lemma bus_unreliable_send_witness :
  exists a a', small_bus AWS_BUS_ASYNC_UNRELIABLE [Call (Send 5 9 (Some 8))] = Some a /\ s_bus_async_send a 5 7 None = Done (AWS_OP_SUCCESS, a')
    /\ queue_msgs a' = [mk_message 1 5 7 None] /\ async_slots a' = log_all [Destroyed 8 9] (async_slots a).
Proof.
  destruct full_bus as (a & E & Hr & Hrun & Hb & Ha & Hf & Hq & Ht & Hnx).
  assert (pool_ok (queue_free a) (used_by a) (buffer a) (allocated a) (next_address (async_slots a))) as Hp
    by (unfold used_by; rewrite Ht, Hq, Hf, Hb, Ha, Hnx; constructor; cbn; [reflexivity | apply NoDup_singleton | repeat constructor; lia | constructor]).
  pose proof (bus_unreliable_send a 5 7 None Hr Hrun Hp Ha) as H. rewrite Hf, Hq in H. destruct H as (a' & E1 & E2 & _ & _ & E3).
  exists a, a'. split; [exact E |]. split; [exact E1 |]. split; [exact E2 | exact E3].
Defined.

(** ** Where the bus surprises *)

(** What calls of a new synchronous bus return and what they call. *)
Definition new_bus_events (fuel : nat) (notify : event -> B unit) (cs : list call) : option (outcome (list op_result * list event)) :=
  s ← s_bus_sync_init u64;
  Some (match sync_calls fuel notify cs s with Done (rs, s) => Done (rs, events s) | Fault => Fault | Unfinished => Unfinished end).

(** A message to all addresses is delivered twice. *)
Lemma all_is_delivered_twice :
  new_bus_events 5 log [Subscribe AWS_BUS_ADDRESS_ALL 3 4; Send AWS_BUS_ADDRESS_ALL 9 None]
  = Some (Done ([AWS_OP_SUCCESS; AWS_OP_SUCCESS], [Delivered 3 AWS_BUS_ADDRESS_ALL 9 4; Delivered 3 AWS_BUS_ADDRESS_ALL 9 4])).
Proof. vm_compute. reflexivity. Qed.

(** A listener that ends its own subscription: the loop goes on through released
    memory. *)
Lemma unsubscribing_itself_faults : new_bus_events 5 (reacting (fun _ => [Unsubscribe 5 1 2]) 5) [Subscribe 5 1 2; Send 5 9 None] = Some Fault.
Proof. vm_compute. reflexivity. Qed.

(** An unreliable bus whose only message is being delivered: sending another one
    takes a message out of an empty queue. *)
Lemma busy_unreliable_bus_faults :
  (a ← small_bus AWS_BUS_ASYNC_UNRELIABLE [Call (Send 5 9 None); Dispatch]; match s_bus_async_send a 5 7 None with Fault => Some tt | _ => None end) = Some tt.
Proof. vm_compute. reflexivity. Qed.

(** Without a buffer, which the header says is the default of 4K, an unreliable bus
    cannot send at all. *)
Lemma unreliable_bus_without_buffer_faults :
  (a ← s_bus_async_init u64 AWS_BUS_ASYNC_UNRELIABLE 0; match s_bus_async_send a 5 7 None with Fault => Some tt | _ => None end) = Some tt.
Proof. vm_compute. reflexivity. Qed.
