(* ===== verification/Promise.v ===== *)
(** * Reference counts and promises: definitions

    [source/ref_count.c], [source/promise.c], and the loops of
    [source/condition_variable.c]. Objects, values and functions are numbers,
    0 is NULL.

    A promise is shared by threads. What a thread does while it holds the lock is
    one step, as is one atomic operation and one access without the lock; a call
    of several such steps leaves the thread at a [point] in between, and the other
    threads go on. Waiting on the condition variable is modelled with the wake-up
    it needs: a thread that waits goes on only after [notify_all], or by a spurious
    wake-up, or when its time is over. The caller's part is to make calls only
    while it holds a reference, and to hand references over. [pthread_mutex_lock]
    and [pthread_cond_wait] are taken to succeed. *)

From S2P Require Import Prelude.

Local Open Scope Z_scope.

Module RefCount.

Record aws_ref_count := mk_ref_count { ref_count : Z; object : Z; on_zero_fn : Z }.

Definition aws_ref_count_init (object on_zero_fn : Z) : aws_ref_count := mk_ref_count 1 object on_zero_fn.

(** An atomic addition; the object is returned. *)
Definition aws_ref_count_acquire (rc : aws_ref_count) : Z * aws_ref_count :=
  (object rc, mk_ref_count (u64 (ref_count rc + 1)) (object rc) (on_zero_fn rc)).

(** An atomic subtraction: the count left, whether [on_zero_fn] is called. *)
Definition aws_ref_count_release (rc : aws_ref_count) : Z * bool * aws_ref_count :=
  let old_value := ref_count rc in
  (u64 (old_value - 1), old_value =? 1, mk_ref_count (u64 (old_value - 1)) (object rc) (on_zero_fn rc)).

End RefCount.

Import RefCount.

Module Promise.

Record aws_promise := mk_promise { rc : aws_ref_count; complete : bool; error_code : Z; value : Z; dtor : Z }.

(** The object counted is the promise itself: its address, and the function that
    destroys it. *)
Definition aws_promise_new (address destroy : Z) : aws_promise := mk_promise (aws_ref_count_init address destroy) false 0 0 0.

Definition with_rc (p : aws_promise) (rc : aws_ref_count) : aws_promise := mk_promise rc (complete p) (error_code p) (value p) (dtor p).
Definition with_value (p : aws_promise) (v : Z) : aws_promise := mk_promise (rc p) (complete p) (error_code p) v (dtor p).
Definition with_dtor (p : aws_promise) (d : Z) : aws_promise := mk_promise (rc p) (complete p) (error_code p) (value p) d.

(** The calls of destructors of values: the function and the value. *)
Definition s_aws_promise_dtor (p : aws_promise) : list (Z * Z) :=
  if negb (value p =? 0) && negb (dtor p =? 0) then [(dtor p, value p)] else [].

Definition aws_promise_acquire (p : aws_promise) : aws_promise := with_rc p (snd (aws_ref_count_acquire (rc p))).

(** [None]: the promise was destroyed and released. *)
Definition aws_promise_release (p : aws_promise) : option aws_promise * list (Z * Z) :=
  let '(_, zero, rc') := aws_ref_count_release (rc p) in
  if zero then (None, s_aws_promise_dtor p) else (Some (with_rc p rc'), []).

Definition s_promise_completed (p : aws_promise) : bool := complete p.

Definition aws_promise_is_complete (p : aws_promise) : bool := complete p.

(** Up to the notification; [None]: a fatal assertion fails. *)
Definition aws_promise_complete (p : aws_promise) (v d : Z) : option aws_promise :=
  if complete p then None else Some (mk_promise (rc p) true (error_code p) v d).

Definition aws_promise_fail (p : aws_promise) (e : Z) : option aws_promise :=
  if e =? 0 then None else if complete p then None else Some (mk_promise (rc p) true e (value p) (dtor p)).

(** ** Threads *)

(** Inside which call a thread is, and what it knows. [woken] says whether the
    thread may go on from waiting. *)
Inductive point :=
| Ready
| Waiting (woken : bool)
| Waiting_for (woken : bool)
| Notifying
| Code_asked
| Value_asked
| Take_asked
| Take_read (v : Z)
| Take_cleared (v : Z).

Record thread := mk_thread { refs : nat; at_point : point }.

Record system := mk_system { promise : option aws_promise; threads : list thread; destroyed : list (Z * Z) }.

(** A call, or how the thread goes on in one. [Give] hands one reference to
    another thread. *)
Inductive action :=
| Acquire
| Release
| Give (to : nat)
| Wait
| Wait_for
| Is_complete
| Complete (v d : Z)
| Fail_with (e : Z)
| Error_code
| Value
| Take_value
| Go
| Spurious
| Time_out.

(** What a call returns at its end; [Nothing] also between two steps of a call. *)
Inductive answer :=
| Nothing
| Returned
| Flag (b : bool)
| Code (e : Z)
| Read (v : Z)
| Taken (v : Z).

(** [Aborted]: a fatal assertion. [Undefined]: the promise was used after it was
    released. *)
Inductive result :=
| Went (s : system) (r : answer)
| Aborted
| Undefined.

Definition wake (t : thread) : thread :=
  match at_point t with
  | Waiting _ => mk_thread (refs t) (Waiting true)
  | Waiting_for _ => mk_thread (refs t) (Waiting_for true)
  | _ => t
  end.

Definition aws_condition_variable_notify_all (ts : list thread) : list thread := map wake ts.

(** A step that concerns the promise and the thread only: where the thread is
    then, the promise, and what is returned. *)
Inductive local_result :=
| To (x : point) (p : aws_promise) (r : answer)
| Abort
| Cannot.

(** The start of a call. *)
Definition start (p : aws_promise) (a : action) : local_result :=
  match a with
  | Acquire => To Ready (aws_promise_acquire p) Returned
  | Wait => if s_promise_completed p then To Ready p Returned else To (Waiting false) p Nothing
  | Wait_for => if s_promise_completed p then To Ready p (Flag (complete p)) else To (Waiting_for false) p Nothing
  | Is_complete => To Ready p (Flag (aws_promise_is_complete p))
  | Complete v d => match aws_promise_complete p v d with Some p => To Notifying p Nothing | None => Abort end
  | Fail_with e => match aws_promise_fail p e with Some p => To Notifying p Nothing | None => Abort end
  | Error_code => if aws_promise_is_complete p then To Code_asked p Nothing else Abort
  | Value => if aws_promise_is_complete p then To Value_asked p Nothing else Abort
  | Take_value => if aws_promise_is_complete p then To Take_asked p Nothing else Abort
  | _ => Cannot
  end.

(** The rest of a call. *)
Definition continue (x : point) (p : aws_promise) (a : action) : local_result :=
  match x, a with
  | Waiting false, Spurious => To (Waiting true) p Nothing
  | Waiting true, Go => if s_promise_completed p then To Ready p Returned else To (Waiting false) p Nothing
  | Waiting_for false, Spurious => To (Waiting_for true) p Nothing
  | Waiting_for true, Go => if s_promise_completed p then To Ready p (Flag (complete p)) else To (Waiting_for false) p Nothing
  | Waiting_for _, Time_out => To Ready p (Flag (complete p))
  | Code_asked, Go => To Ready p (Code (error_code p))
  | Value_asked, Go => To Ready p (Read (value p))
  | Take_asked, Go => To (Take_read (value p)) p Nothing
  | Take_read v, Go => To (Take_cleared v) (with_value p 0) Nothing
  | Take_cleared v, Go => To Ready (with_dtor p 0) (Taken v)
  | _, _ => Cannot
  end.

(** What a step does to the count of references of its thread. *)
Definition refs_after (n : nat) (a : action) : nat := match a with Acquire => S n | _ => n end.

(** A step of the thread [i], which is [t] and holds a reference. *)
Definition step (s : system) (i : nat) (t : thread) (p : aws_promise) (a : action) : option result :=
  match at_point t, a with
  | Ready, Release =>
      let '(p', ds) := aws_promise_release p in
      Some (Went (mk_system p' (<[i := mk_thread (refs t - 1) Ready]> (threads s)) (destroyed s ++ ds)) Returned)
  | Ready, Give j =>
      match threads s !! j with
      | Some t' =>
          if decide (i = j) then None
          else Some (Went (mk_system (Some p) (<[j := mk_thread (S (refs t')) (at_point t')]> (<[i := mk_thread (refs t - 1) Ready]> (threads s))) (destroyed s)) Nothing)
      | None => None
      end
  | Notifying, Go => Some (Went (mk_system (Some p) (aws_condition_variable_notify_all (<[i := mk_thread (refs t) Ready]> (threads s))) (destroyed s)) Returned)
  | x, _ =>
      match (match x with Ready => start p a | _ => continue x p a end) with
      | To x p r => Some (Went (mk_system (Some p) (<[i := mk_thread (refs_after (refs t) a) x]> (threads s)) (destroyed s)) r)
      | Abort => Some Aborted
      | Cannot => None
      end
  end.

(** [None]: the thread cannot do this now. *)
Definition act (s : system) (i : nat) (a : action) : option result :=
  match threads s !! i with
  | None => None
  | Some t =>
      if decide (refs t = O) then None
      else match promise s with None => Some Undefined | Some p => step s i t p a end
  end.

(** A new promise: the first of the threads holds the one reference. *)
Definition new_system (address destroy : Z) (others : nat) : system :=
  mk_system (Some (aws_promise_new address destroy)) (mk_thread 1 Ready :: replicate others (mk_thread 0 Ready)) [].

End Promise.
