(* ===== verification/PromiseClaims.v ===== *)
(** * Promises: what they promise

    The invariant of all interleavings of threads that share a promise, and the
    theorems: no call goes wrong, the value is handed over or destroyed exactly
    once, and no thread waits for ever. *)

From S2P Require Import Prelude Promise.
Import RefCount Promise.

Local Open Scope Z_scope.

(** ** What a history of calls says *)

(** The value, its destructor and the error code with which the promise was
    completed; how many calls took the value, and what they returned; whether one
    of them began while another was not done. *)
Record told := mk_told { outcome : option (Z * Z * Z); takes : nat; taken : list Z; racing : bool }.

Definition note (g : told) (a : action) (r : answer) : told :=
  match a, r with
  | Complete v d, _ => mk_told (Some (v, d, 0)) (takes g) (taken g) (racing g)
  | Fail_with e, _ => mk_told (Some (0, 0, e)) (takes g) (taken g) (racing g)
  | Take_value, _ => mk_told (outcome g) (S (takes g)) (taken g) (racing g || negb (takes g =? length (taken g))%nat)
  | _, Taken v => mk_told (outcome g) (takes g) (taken g ++ [v]) (racing g)
  | _, _ => g
  end.

Definition told_of (tr : list (nat * action * answer)) : told := foldl (fun g x => note g x.1.2 x.2) (mk_told None 0 [] false) tr.

Definition told_value (g : told) : Z := (default (0, 0, 0) (outcome g)).1.1.
Definition told_dtor (g : told) : Z := (default (0, 0, 0) (outcome g)).1.2.
Definition told_code (g : told) : Z := (default (0, 0, 0) (outcome g)).2.

Definition is_told (g : told) : bool := match outcome g with Some _ => true | None => false end.

(** Any interleaving of the threads, with what each step returned. *)
Inductive run (address destroy : Z) (others : nat) : list (nat * action * answer) -> system -> Prop :=
| run_new : run address destroy others [] (new_system address destroy others)
| run_step tr s i a s' r : run address destroy others tr s -> act s i a = Some (Went s' r) -> run address destroy others (tr ++ [(i, a, r)]) s'.

(** ** Counting references *)

Definition total (ts : list thread) : nat := sum_list_with refs ts.

Lemma total_insert ts i t t' : ts !! i = Some t -> (total (<[i := t']> ts) + refs t = total ts + refs t')%nat.
Proof.
  unfold total. revert i. induction ts as [| u ts IH]; intros [| i] E; try discriminate; [cbn in *; injection E as ->; lia |]. pose proof (IH i E) as H.
  change (refs u + sum_list_with refs (<[i := t']> ts) + refs t = refs u + sum_list_with refs ts + refs t')%nat. lia.
Qed.

Lemma total_wake ts : total (map wake ts) = total ts.
Proof. unfold total. induction ts as [| [n []] ts IH]; cbn in *; auto. Qed.

Lemma total_lookup ts i t : ts !! i = Some t -> (refs t <= total ts)%nat.
Proof. intros E. pose proof (total_insert ts i t (mk_thread 0 Ready) E). cbn in *. lia. Qed.

(** ** Steps by kind *)

Definition local_of (x : point) (p : aws_promise) (a : action) : local_result := match x with Ready => start p a | _ => continue x p a end.

Inductive stepped (s : system) (i : nat) (t : thread) (p : aws_promise) : action -> system -> answer -> Prop :=
| by_local a x p' r :
    local_of (at_point t) p a = To x p' r ->
    stepped s i t p a (mk_system (Some p') (<[i := mk_thread (refs_after (refs t) a) x]> (threads s)) (destroyed s)) r
| by_release p' ds :
    at_point t = Ready -> aws_promise_release p = (p', ds) ->
    stepped s i t p Release (mk_system p' (<[i := mk_thread (refs t - 1) Ready]> (threads s)) (destroyed s ++ ds)) Returned
| by_give j t' :
    at_point t = Ready -> threads s !! j = Some t' -> i <> j ->
    stepped s i t p (Give j) (mk_system (Some p) (<[j := mk_thread (S (refs t')) (at_point t')]> (<[i := mk_thread (refs t - 1) Ready]> (threads s))) (destroyed s)) Nothing
| by_notify :
    at_point t = Notifying ->
    stepped s i t p Go (mk_system (Some p) (map wake (<[i := mk_thread (refs t) Ready]> (threads s))) (destroyed s)) Returned.

Lemma step_stepped s i t p a s' r : step s i t p a = Some (Went s' r) -> stepped s i t p a s' r.
Proof.
  assert (forall x, x = at_point t ->
    match local_of x p a with
    | To y p' r' => Some (Went (mk_system (Some p') (<[i := mk_thread (refs_after (refs t) a) y]> (threads s)) (destroyed s)) r')
    | Abort => Some Aborted
    | Cannot => None
    end = Some (Went s' r) -> stepped s i t p a s' r) as Hl.
  { intros x -> E. destruct (local_of _ p a) as [x p' r' | |] eqn:El; try discriminate. injection E as <- <-. now apply by_local. }
  unfold step. intros E. destruct (at_point t) eqn:Et; try (apply (Hl _ eq_refl); exact E).
  - destruct a; try (apply (Hl _ eq_refl); exact E).
    + destruct (aws_promise_release p) as [p' ds] eqn:Er. injection E as <- <-. now apply by_release.
    + destruct (threads s !! to) as [t' |] eqn:Ej; [| discriminate]. destruct (decide (i = to)); [discriminate |]. injection E as <- <-. now apply by_give.
  - destruct a; try (apply (Hl _ eq_refl); exact E). injection E as <- <-. now apply by_notify.
Qed.

Lemma act_stepped s i a s' r : act s i a = Some (Went s' r) ->
  exists t p, threads s !! i = Some t /\ refs t <> O /\ promise s = Some p /\ stepped s i t p a s' r.
Proof.
  unfold act. intros E. destruct (threads s !! i) as [t |] eqn:Et; [| discriminate]. destruct (decide (refs t = O)) as [| Hr]; [discriminate |].
  destruct (promise s) as [p |] eqn:Ep; [| discriminate]. exists t, p. split; [reflexivity |]. split; [exact Hr |]. split; [reflexivity | now apply step_stepped].
Qed.

(** ** What a step of one thread does to the promise *)

Ltac local_cases x a H :=
  destruct x as [| [] | [] | | | | | |], a; cbn in H; try discriminate;
  unfold s_promise_completed, aws_promise_is_complete, aws_promise_complete, aws_promise_fail in H;
  repeat match type of H with context [if ?b then _ else _] => destruct b eqn:? end; try discriminate; injection H as <- <- <-.

Definition promise_told (p : aws_promise) (g : told) : Prop := complete p = is_told g /\ error_code p = told_code g.

Definition taking (x : point) : bool := match x with Take_asked | Take_read _ | Take_cleared _ => true | _ => false end.

Lemma local_told x p a y p' r g : local_of x p a = To y p' r -> promise_told p g -> promise_told p' (note g a r).
Proof.
  intros H [E1 E2]. unfold promise_told, is_told, told_code in *. destruct g as [o n l rg]; cbn in *. local_cases x a H; cbn; try (split; assumption); destruct o as [[[] ] |]; cbn in *; try (split; congruence).
Qed.

Lemma local_rc x p a y p' r : local_of x p a = To y p' r -> rc p' = match a with Acquire => snd (aws_ref_count_acquire (rc p)) | _ => rc p end.
Proof. intros H. local_cases x a H; reflexivity. Qed.

Definition woken_point (x : point) : Prop := x <> Waiting false /\ x <> Waiting_for false.

Lemma local_woken x p a y p' r : local_of x p a = To y p' r -> x <> Notifying /\ (complete p' = true -> y = Notifying \/ complete p = true /\ (woken_point x -> woken_point y)).
Proof.
  intros H. local_cases x a H; unfold woken_point; (split; [discriminate |]); cbn; intros Hc; try (left; reflexivity); right; (split; [congruence |]); try (intros []; split; congruence); congruence.
Qed.

(** What a step means to who owns the value: nothing; the promise is completed; a
    call to take the value begins, reads it, clears it and is done. *)
Inductive effect (g : told) (p : aws_promise) : point -> point -> aws_promise -> told -> Prop :=
| no_effect x y p' g' : taking x = false -> taking y = false -> value p' = value p -> dtor p' = dtor p ->
    outcome g' = outcome g -> takes g' = takes g -> taken g' = taken g -> racing g' = racing g -> effect g p x y p' g'
| completes x y p' g' : taking x = false -> taking y = false -> is_told g = false -> is_told g' = true ->
    (value p = 0 -> dtor p = 0 -> value p' = told_value g' /\ dtor p' = told_dtor g') ->
    takes g' = takes g -> taken g' = taken g -> racing g' = racing g -> effect g p x y p' g'
| asks x : taking x = false -> is_told g = true ->
    effect g p x Take_asked p (mk_told (outcome g) (S (takes g)) (taken g) (racing g || negb (takes g =? length (taken g))%nat))
| reads : effect g p Take_asked (Take_read (value p)) p g
| clears v : effect g p (Take_read v) (Take_cleared v) (with_value p 0) g
| is_done v : effect g p (Take_cleared v) Ready (with_dtor p 0) (mk_told (outcome g) (takes g) (taken g ++ [v]) (racing g)).

Lemma local_effect x p a y p' r g : local_of x p a = To y p' r -> promise_told p g -> effect g p x y p' (note g a r).
Proof.
  intros H [E _]. local_cases x a H; try (now apply no_effect); try (apply asks; [reflexivity | congruence]); try apply reads; try apply clears; try apply is_done;
    apply completes; try reflexivity; try congruence; now auto.
Qed.

(** ** The invariant *)

Definition points (s : system) : list point := at_point <$> threads s.

Definition destruction (v d : Z) : list (Z * Z) := if negb (v =? 0) && negb (d =? 0) then [(d, v)] else [].

(** Who is taking the value, and what they have read. *)
Definition takers (pts : list point) : nat := sum_list_with (fun x => Nat.b2n (taking x)) pts.
Definition holds (pts : list point) (i : nat) (v : Z) : Prop := pts !! i = Some (Take_read v) \/ pts !! i = Some (Take_cleared v).

(** The value for the first, and NULL for the others. *)
Definition first_only (v : Z) (n : nat) : list Z := match n with O => [] | S n => v :: replicate n 0 end.

(** Nobody has cleared the value yet. *)
Record untouched (pts : list point) (p : aws_promise) (g : told) : Prop := {
  un_value : value p = told_value g;
  un_dtor : dtor p = told_dtor g;
  un_taken : taken g = [];
  un_held : forall i v, holds pts i v -> v = told_value g /\ pts !! i = Some (Take_read v)
}.

(** Somebody has. *)
Record cleared (pts : list point) (p : aws_promise) (g : told) : Prop := {
  cl_value : value p = 0;
  cl_first : told_value g ∈ taken g \/ exists i, holds pts i (told_value g)
}.

Record owned (pts : list point) (op : option aws_promise) (ds : list (Z * Z)) (g : told) : Prop := {
  ow_count : (takers pts + length (taken g) = takes g)%nat;
  ow_told : takes g <> O -> is_told g = true;
  ow_race : racing g = true -> (2 <= takes g)%nat;
  ow_taken : Forall (fun v => v = told_value g \/ v = 0) (taken g);
  ow_held : forall i v, holds pts i v -> v = told_value g \/ v = 0;
  ow_promise : match op with
               | Some p => untouched pts p g \/ cleared pts p g
               | None => takers pts = O /\ (takes g <> O -> told_value g ∈ taken g) /\ ds = (if (takes g =? 0)%nat then destruction (told_value g) (told_dtor g) else [])
               end;
  ow_serial : racing g = false -> (takers pts <= 1)%nat /\ taken g = first_only (told_value g) (length (taken g))
              /\ forall i v, holds pts i v -> v = match taken g with [] => told_value g | _ => 0 end
}.

Definition woken (pts : list point) (op : option aws_promise) : Prop :=
  match op with Some p => complete p = true -> Notifying ∈ pts \/ Forall woken_point pts | None => True end.

Record kept (k : nat) (s : system) (g : told) : Prop := {
  kp_calls : Forall (fun t => refs t = O -> at_point t = Ready) (threads s);
  kp_refs : match promise s with
            | Some p => ref_count (rc p) = Z.of_nat (total (threads s)) /\ (0 < total (threads s) <= S k)%nat
            | None => total (threads s) = O
            end;
  kp_told : match promise s with Some p => promise_told p g /\ destroyed s = [] | None => True end;
  kp_owned : owned (points s) (promise s) (destroyed s) g;
  kp_woken : woken (points s) (promise s)
}.

Lemma new_kept address destroy others : kept 0 (new_system address destroy others) (told_of []).
Proof.
  assert (total (replicate others (mk_thread 0 Ready)) = O) as Ht by (unfold total; induction others; cbn in *; auto).
  constructor; cbn.
  - constructor; [discriminate |]. apply Forall_replicate. auto.
  - change (sum_list_with refs (replicate others (mk_thread 0 Ready))) with (total (replicate others (mk_thread 0 Ready))). rewrite Ht. split; [reflexivity | lia].
  - repeat split.
  - unfold points. cbn. rewrite fmap_replicate. cbn. assert (forall i v, holds (Ready :: replicate others Ready) i v -> False) as Hno.
    { intros [| i] v [E | E]; cbn in E; try discriminate; apply lookup_replicate in E as [E _]; discriminate. }
    assert (takers (Ready :: replicate others Ready) = O) as Ht0 by (clear; unfold takers; cbn; induction others as [| k IH]; [reflexivity | exact IH]).
    constructor; cbn [told_of foldl takes taken racing is_told outcome]; rewrite ?Ht0.
    + reflexivity.
    + easy.
    + discriminate.
    + constructor.
    + intros i v H. now destruct (Hno i v H).
    + left. constructor; try reflexivity. intros i v H. now destruct (Hno i v H).
    + intros _. split; [lia |]. split; [reflexivity |]. intros i v H. now destruct (Hno i v H).
  - discriminate.
Qed.

Lemma told_same g g' : outcome g' = outcome g -> told_value g' = told_value g /\ told_dtor g' = told_dtor g /\ is_told g' = is_told g.
Proof. intros E. unfold told_value, told_dtor, is_told. now rewrite E. Qed.

Lemma takers_insert pts i x y : pts !! i = Some x -> (takers (<[i := y]> pts) + Nat.b2n (taking x) = takers pts + Nat.b2n (taking y))%nat.
Proof.
  unfold takers. revert i. induction pts as [| z pts IH]; intros [| i] E; try discriminate; [cbn in *; injection E as ->; lia |]. pose proof (IH i E) as H.
  change (sum_list_with ?f (<[S i := y]> (z :: pts))) with (f z + sum_list_with f (<[i := y]> pts))%nat. cbn [sum_list_with]. lia.
Qed.

Lemma takers_lookup pts i x : pts !! i = Some x -> taking x = true -> (1 <= takers pts)%nat.
Proof. intros E Hx. pose proof (takers_insert pts i x Ready E) as H. rewrite Hx in H. cbn in H. lia. Qed.

Lemma two_takers pts i j x y : pts !! i = Some x -> pts !! j = Some y -> i <> j -> taking x = true -> taking y = true -> (2 <= takers pts)%nat.
Proof.
  intros Ei Ej Hn Hx Hy. pose proof (takers_insert pts i x Ready Ei) as H. rewrite Hx in H. cbn in H.
  assert (<[i := Ready]> pts !! j = Some y) as Ej' by now rewrite list_lookup_insert_ne by auto. pose proof (takers_lookup _ _ _ Ej' Hy). lia.
Qed.

Lemma holds_taking pts i v : holds pts i v -> exists x, pts !! i = Some x /\ taking x = true.
Proof. intros [E | E]; eauto. Qed.

Lemma no_takers pts i v : takers pts = O -> ~ holds pts i v.
Proof. intros E H. destruct (holds_taking _ _ _ H) as (x & Hi & Hx). pose proof (takers_lookup _ _ _ Hi Hx). lia. Qed.

(** What is held after one thread moved. *)
Lemma held_insert pts i x y j v : pts !! i = Some x -> holds (<[i := y]> pts) j v -> (j = i /\ (y = Take_read v \/ y = Take_cleared v)) \/ (j <> i /\ holds pts j v).
Proof.
  intros Hi H. destruct (decide (j = i)) as [-> | Hn].
  - left. split; [reflexivity |]. unfold holds in H. rewrite list_lookup_insert_eq in H by exact (lookup_lt_Some _ _ _ Hi). intuition congruence.
  - right. split; [exact Hn |]. unfold holds in *. now rewrite !list_lookup_insert_ne in H by auto.
Qed.

Lemma holds_other pts i y j v : j <> i -> holds pts j v -> holds (<[i := y]> pts) j v.
Proof. intros Hn. unfold holds. now rewrite !list_lookup_insert_ne by auto. Qed.

(** A thread that is not taking becomes one that is not, or has only asked. *)
Lemma holds_idle pts i x y j v : pts !! i = Some x -> taking x = false -> taking y = false \/ y = Take_asked -> holds (<[i := y]> pts) j v <-> holds pts j v.
Proof.
  intros Hi Hx Hy. split; intros H.
  - destruct (held_insert _ _ _ _ _ _ Hi H) as [[_ [-> | ->]] | [_ H']]; [destruct Hy; discriminate .. | exact H'].
  - apply holds_other; [| exact H]. intros ->. destruct (holds_taking _ _ _ H) as (z & Hz & Ht). congruence.
Qed.

Lemma owned_same pts pts' p p' ds g g' : owned pts (Some p) ds g -> takers pts' = takers pts -> (forall i v, holds pts' i v <-> holds pts i v) ->
  (forall i v, pts !! i = Some (Take_read v) -> pts' !! i = Some (Take_read v)) -> value p' = value p -> dtor p' = dtor p ->
  outcome g' = outcome g -> takes g' = takes g -> taken g' = taken g -> racing g' = racing g -> owned pts' (Some p') ds g'.
Proof.
  intros [H1 H2 H3 H4 H5 H6 H7] Et Hh Hr Ev Ed Eo En El Er. destruct (told_same _ _ Eo) as (V & D & I). constructor; rewrite ?Et, ?En, ?El, ?Er, ?V, ?I; auto.
  - intros i v Hv. now apply Hh, H5 in Hv.
  - destruct H6 as [[U1 U2 U3 U4] | [C1 C2]]; [left | right]; constructor; rewrite ?V, ?D, ?Ev, ?Ed, ?El; auto.
    + intros i v Hv. apply Hh, U4 in Hv as [-> Hi]. auto.
    + destruct C2 as [C2 | [i C2]]; [auto | right; exists i; now apply Hh].
  - intros Hs. destruct (H7 Hs) as (S1 & S2 & S3). split; [exact S1 |]. split; [exact S2 |]. intros i v Hv. now apply Hh, S3 in Hv.
Qed.

Lemma owned_completes pts pts' p p' g g' : owned pts (Some p) [] g -> takers pts' = takers pts -> (forall i v, holds pts' i v <-> holds pts i v) ->
  is_told g = false -> is_told g' = true -> (value p = 0 -> dtor p = 0 -> value p' = told_value g' /\ dtor p' = told_dtor g') ->
  takes g' = takes g -> taken g' = taken g -> racing g' = racing g -> owned pts' (Some p') [] g'.
Proof.
  intros [H1 H2 H3 H4 H5 H6 H7] Et Hh Hg Hg' Hp En El Er. assert (takes g = O) as E0 by (destruct (takes g); [reflexivity | rewrite H2 in Hg; congruence]).
  assert (takers pts = O /\ taken g = []) as [T0 L0] by (rewrite E0 in H1; destruct (taken g); cbn in H1; [split; [lia | reflexivity] | lia]).
  assert (forall i v, ~ holds pts' i v) as Hno by (intros i v Hv; now apply Hh, no_takers in Hv).
  assert (told_value g = 0 /\ told_dtor g = 0) as [V0 D0] by (unfold is_told, told_value, told_dtor in *; destruct (outcome g); [discriminate | now split]).
  constructor; rewrite ?Et, ?En, ?El, ?Er, ?L0, ?T0; auto; try (intros i v Hv; now destruct (Hno i v Hv)).
  - left. destruct H6 as [[U1 U2 U3 U4] | [C1 C2]].
    + destruct Hp as [P1 P2]; [congruence | congruence |]. constructor; auto; [congruence |]. intros i v Hv. now destruct (Hno i v Hv).
    + rewrite L0 in C2. exfalso. destruct C2 as [C2 | [i C2]]; [now apply not_elem_of_nil in C2 | now apply no_takers in C2].
  - intros _. split; [lia |]. split; [reflexivity |]. intros i v Hv. now destruct (Hno i v Hv).
Qed.

Lemma owned_asks pts i x p g : owned pts (Some p) [] g -> pts !! i = Some x -> taking x = false -> is_told g = true ->
  owned (<[i := Take_asked]> pts) (Some p) [] (mk_told (outcome g) (S (takes g)) (taken g) (racing g || negb (takes g =? length (taken g))%nat)).
Proof.
  intros [H1 H2 H3 H4 H5 H6 H7] Hi Hx Hg. pose proof (takers_insert pts i x Take_asked Hi) as Ht. rewrite Hx in Ht. cbn in Ht.
  assert (forall j v, holds (<[i := Take_asked]> pts) j v <-> holds pts j v) as Hh by (intros; apply (holds_idle _ _ x); auto).
  set (g' := mk_told _ _ _ _). assert (told_value g' = told_value g /\ told_dtor g' = told_dtor g /\ is_told g' = is_told g) as (V & D & I) by now apply told_same.
  constructor; rewrite ?V, ?I; auto; cbn [takes taken racing g'].
  - lia.
  - intros Hr. apply orb_true_iff in Hr as [Hr | Hr]; [specialize (H3 Hr); lia |]. apply negb_true_iff, Nat.eqb_neq in Hr. lia.
  - intros j v Hv. now apply Hh, H5 in Hv.
  - destruct H6 as [[U1 U2 U3 U4] | [C1 C2]]; [left | right]; constructor; rewrite ?V, ?D; cbn [taken g']; auto.
    + intros j v Hv. apply Hh, U4 in Hv as [-> Hj]. split; [reflexivity |]. rewrite list_lookup_insert_ne; [exact Hj |]. intros ->. rewrite Hi in Hj. injection Hj as ->. discriminate.
    + destruct C2 as [C2 | [j C2]]; [auto | right; exists j; now apply Hh].
  - intros Hr. apply orb_false_iff in Hr as [Hr Hn]. apply negb_false_iff, Nat.eqb_eq in Hn. destruct (H7 Hr) as (S1 & S2 & S3). split; [lia |]. split; [exact S2 |].
    intros j v Hv. now apply Hh, S3 in Hv.
Qed.

Lemma owned_reads pts i p g : owned pts (Some p) [] g -> pts !! i = Some Take_asked -> owned (<[i := Take_read (value p)]> pts) (Some p) [] g.
Proof.
  intros [H1 H2 H3 H4 H5 H6 H7] Hi. pose proof (takers_insert pts i _ (Take_read (value p)) Hi) as Ht. cbn in Ht.
  assert (forall j v, holds (<[i := Take_read (value p)]> pts) j v -> (j = i /\ v = value p) \/ (j <> i /\ holds pts j v)) as Hh.
  { intros j v Hv. destruct (held_insert _ _ _ _ _ _ Hi Hv) as [[-> [E | E]] | Hv']; [left; split; congruence | discriminate | now right]. }
  assert (forall j v, holds pts j v -> j <> i) as Hne by (intros j v [E | E] ->; congruence).
  assert (value p = told_value g \/ value p = 0) as Hp by (destruct H6 as [[] | []]; auto).
  constructor; auto; [lia | intros j v Hv; destruct (Hh j v Hv) as [[_ ->] | [_ Hv']]; eauto | |].
  - destruct H6 as [[U1 U2 U3 U4] | [C1 C2]]; [left | right]; constructor; auto.
    + intros j v Hv. destruct (Hh j v Hv) as [[-> ->] | [Hn Hv']]; [split; [exact U1 | apply list_lookup_insert_eq; exact (lookup_lt_Some _ _ _ Hi)] |].
      destruct (U4 j v Hv') as [-> Hj]. split; [reflexivity |]. now rewrite list_lookup_insert_ne by auto.
    + destruct C2 as [C2 | [j C2]]; [auto | right]. exists j. apply holds_other; eauto.
  - intros Hr. destruct (H7 Hr) as (S1 & S2 & S3). split; [lia |]. split; [exact S2 |]. intros j v Hv. destruct (Hh j v Hv) as [[_ ->] | [_ Hv']]; [| now apply (S3 j)].
    destruct H6 as [[U1 U2 U3 U4] | [C1 C2]]; [now rewrite U3 |]. destruct C2 as [C2 | [k C2]]; [destruct (taken g); [now apply not_elem_of_nil in C2 | exact C1] |].
    destruct (holds_taking _ _ _ C2) as (z & Hz & Hzt). pose proof (two_takers pts i k _ _ Hi Hz ltac:(intros <-; now apply (Hne i (told_value g))) eq_refl Hzt). lia.
Qed.

Lemma owned_clears pts i p g v : owned pts (Some p) [] g -> pts !! i = Some (Take_read v) -> owned (<[i := Take_cleared v]> pts) (Some (with_value p 0)) [] g.
Proof.
  intros [H1 H2 H3 H4 H5 H6 H7] Hi. pose proof (takers_insert pts i _ (Take_cleared v) Hi) as Ht. cbn in Ht.
  assert (forall j w, holds (<[i := Take_cleared v]> pts) j w -> holds pts j w) as Hh.
  { intros j w Hw. destruct (held_insert _ _ _ _ _ _ Hi Hw) as [[-> [E | E]] | [_ Hw']]; [discriminate | injection E as <-; now left | exact Hw']. }
  assert (holds (<[i := Take_cleared v]> pts) i v) as Hiv by (right; apply list_lookup_insert_eq; exact (lookup_lt_Some _ _ _ Hi)).
  constructor; auto; [lia | intros j w Hw; now apply Hh, H5 in Hw | |].
  - right. constructor; [reflexivity |]. destruct H6 as [[U1 U2 U3 U4] | [C1 C2]].
    + right. exists i. destruct (U4 i v (or_introl Hi)) as [<- _]. exact Hiv.
    + destruct C2 as [C2 | [j C2]]; [auto | right]. exists j. destruct (decide (j = i)) as [-> | Hn]; [| now apply holds_other].
      destruct C2 as [E | E]; [| congruence]. assert (told_value g = v) as -> by congruence. exact Hiv.
  - intros Hr. destruct (H7 Hr) as (S1 & S2 & S3). split; [lia |]. split; [exact S2 |]. intros j w Hw. now apply Hh, S3 in Hw.
Qed.

Lemma first_only_snoc v n : first_only v n ++ [match n with O => v | S _ => 0 end] = first_only v (S n).
Proof. destruct n as [| n]; [reflexivity |]. cbn. f_equal. symmetry. apply replicate_S_end. Qed.

Lemma owned_done pts i p g v : owned pts (Some p) [] g -> pts !! i = Some (Take_cleared v) ->
  owned (<[i := Ready]> pts) (Some (with_dtor p 0)) [] (mk_told (outcome g) (takes g) (taken g ++ [v]) (racing g)).
Proof.
  intros [H1 H2 H3 H4 H5 H6 H7] Hi. pose proof (takers_insert pts i _ Ready Hi) as Ht. cbn in Ht.
  assert (forall j w, holds (<[i := Ready]> pts) j w -> j <> i /\ holds pts j w) as Hh.
  { intros j w Hw. destruct (held_insert _ _ _ _ _ _ Hi Hw) as [[_ [E | E]] | Hw']; [discriminate .. | exact Hw']. }
  set (g' := mk_told _ _ _ _). assert (told_value g' = told_value g /\ told_dtor g' = told_dtor g /\ is_told g' = is_told g) as (V & D & I) by now apply told_same.
  assert (holds pts i v) as Hiv by now right.
  constructor; rewrite ?V, ?I; auto; cbn [takes taken racing g'].
  - rewrite length_app. cbn. lia.
  - apply Forall_app. split; [exact H4 |]. constructor; [now apply (H5 i) | constructor].
  - intros j w Hw. apply Hh in Hw as [_ Hw]. now apply (H5 j).
  - right. destruct H6 as [[U1 U2 U3 U4] | [C1 C2]]; [destruct (U4 i v Hiv); congruence |]. constructor; rewrite ?V; [exact C1 |]. cbn [taken g'].
    destruct C2 as [C2 | [j C2]]; [left; apply elem_of_app; auto |]. destruct (decide (j = i)) as [-> | Hn]; [left | right; exists j; now apply holds_other].
    apply elem_of_app. right. destruct C2 as [E | E]; [congruence |]. assert (told_value g = v) as -> by congruence. now apply list_elem_of_singleton.
  - intros Hr. destruct (H7 Hr) as (S1 & S2 & S3). pose proof (takers_lookup _ _ _ Hi eq_refl). split; [lia |]. split.
    + rewrite length_app. cbn [length]. rewrite Nat.add_1_r, <- first_only_snoc. rewrite <- S2. f_equal. f_equal. rewrite (S3 i v Hiv). now destruct (taken g).
    + intros j w Hw. apply no_takers in Hw; [contradiction | lia].
Qed.

Lemma owned_local pts i x p a y p' r g : pts !! i = Some x -> local_of x p a = To y p' r -> promise_told p g -> owned pts (Some p) [] g ->
  owned (<[i := y]> pts) (Some p') [] (note g a r).
Proof.
  intros Hi H Ht Ho. pose proof (local_effect _ _ _ _ _ _ _ H Ht) as He. revert Ho Hi. generalize (note g a r) He. clear. intros g' He Ho Hi.
  assert (taking x = false -> taking y = false -> takers (<[i := y]> pts) = takers pts) as Htk by (intros Hx Hy; pose proof (takers_insert pts i x y Hi) as E; rewrite Hx, Hy in E; lia).
  destruct He as [x y p' g' Hx Hy | x y p' g' Hx Hy | x Hx Hg | | v | v].
  - apply (owned_same pts _ p p' [] g g'); auto; [intros; apply (holds_idle _ _ x); auto |]. intros j v Hj. rewrite list_lookup_insert_ne; [exact Hj |]. intros ->. rewrite Hi in Hj. injection Hj as ->. discriminate.
  - apply (owned_completes pts _ p p' g g'); auto. intros; apply (holds_idle _ _ x); auto.
  - exact (owned_asks pts i x p g Ho Hi Hx Hg).
  - exact (owned_reads pts i p g Ho Hi).
  - exact (owned_clears pts i p g v Ho Hi).
  - exact (owned_done pts i p g v Ho Hi).
Qed.

Lemma woken_local pts i x p a y p' r : pts !! i = Some x -> local_of x p a = To y p' r -> woken pts (Some p) -> woken (<[i := y]> pts) (Some p').
Proof.
  intros Hi H Hw Hc. destruct (local_woken _ _ _ _ _ _ H) as [Hx Hl]. pose proof (lookup_lt_Some _ _ _ Hi) as Hlt.
  destruct (Hl Hc) as [-> | [Hc' Hy]]; [left; apply list_elem_of_lookup; exists i; now apply list_lookup_insert_eq |].
  destruct (Hw Hc') as [Hn | Hall].
  - left. apply list_elem_of_lookup in Hn as [j Hj]. apply list_elem_of_lookup. exists j. rewrite list_lookup_insert_ne; [exact Hj |]. intros ->. congruence.
  - right. apply Forall_insert; [exact Hall |]. apply Hy. exact (proj1 (Forall_lookup _ _) Hall _ _ Hi).
Qed.

Lemma points_insert (ts : list thread) (i : nat) (t : thread) : at_point <$> <[i := t]> ts = <[i := at_point t]> (at_point <$> ts).
Proof. apply list_fmap_insert. Qed.

Lemma points_lookup (ts : list thread) (i : nat) t : ts !! i = Some t -> (at_point <$> ts) !! i = Some (at_point t).
Proof. intros E. now rewrite list_lookup_fmap, E. Qed.

Lemma points_kept (ts : list thread) (i : nat) t n : ts !! i = Some t -> at_point <$> <[i := mk_thread n (at_point t)]> ts = at_point <$> ts.
Proof. intros E. rewrite points_insert. cbn. apply list_insert_id. now apply points_lookup. Qed.

Lemma calls_insert (ts : list thread) (i : nat) n x : Forall (fun t => refs t = O -> at_point t = Ready) ts -> (n = O -> x = Ready) -> Forall (fun t => refs t = O -> at_point t = Ready) (<[i := mk_thread n x]> ts).
Proof. intros H Hx. now apply Forall_insert. Qed.

Lemma local_kept k s g i t p a x p' r : kept k s g -> (Z.of_nat k < 2 ^ 64 - 2) -> threads s !! i = Some t -> refs t <> O -> promise s = Some p -> local_of (at_point t) p a = To x p' r ->
  kept (S k) (mk_system (Some p') (<[i := mk_thread (refs_after (refs t) a) x]> (threads s)) (destroyed s)) (note g a r).
Proof.
  intros [H1 H2 H3 H4 H5] Hk Hi Hr Hp H. rewrite Hp in *. destruct H3 as [H3 Hd]. rewrite Hd in *. pose proof (points_lookup _ _ _ Hi) as Hpi.
  constructor; unfold points; cbn [promise threads destroyed]; rewrite ?points_insert; cbn [at_point].
  - apply calls_insert; [exact H1 |]. intros E. destruct a; cbn in E; congruence.
  - rewrite (local_rc _ _ _ _ _ _ H). pose proof (total_insert (threads s) i t (mk_thread (refs_after (refs t) a) x) Hi) as Ht. cbn [refs] in Ht.
    destruct a; cbn [refs_after] in *; cbn; try (split; [rewrite (proj1 H2); f_equal |]; lia).
    split; [| lia]. rewrite (proj1 H2). unfold u64. rewrite Z.mod_small; lia.
  - split; [exact (local_told _ _ _ _ _ _ _ H H3) | reflexivity].
  - exact (owned_local _ _ _ _ _ _ _ _ _ Hpi H H3 H4).
  - exact (woken_local _ _ _ _ _ _ _ _ Hpi H H5).
Qed.

(** With one thread taking the value, another one's reference is not the last. *)
Lemma two_refs (ts : list thread) (i j : nat) t t' : ts !! i = Some t -> ts !! j = Some t' -> i <> j -> (refs t + refs t' <= total ts)%nat.
Proof.
  intros Hi Hj Hn. pose proof (total_insert ts i t (mk_thread 0 Ready) Hi) as H. cbn in H.
  assert (<[i := mk_thread 0 Ready]> ts !! j = Some t') as Hj' by now rewrite list_lookup_insert_ne by auto. pose proof (total_lookup _ _ _ Hj'). lia.
Qed.

Lemma takers_none pts : (forall i x, pts !! i = Some x -> taking x = false) -> takers pts = O.
Proof.
  unfold takers. induction pts as [| x pts IH]; intros H; [reflexivity |]. cbn [sum_list_with]. rewrite (H O x eq_refl), IH; [reflexivity |]. intros i. exact (H (S i)).
Qed.

(** The last reference is gone, and nobody is taking the value. *)
Lemma owned_released pts p g : owned pts (Some p) [] g -> (forall i x, pts !! i = Some x -> taking x = false) -> owned pts None (s_aws_promise_dtor p) g.
Proof.
  intros [H1 H2 H3 H4 H5 H6 H7] Hno. pose proof (takers_none pts Hno) as T0. constructor; auto. split; [exact T0 |]. rewrite T0 in H1. cbn [Nat.add] in H1. destruct H6 as [[U1 U2 U3 U4] | [C1 C2]].
  - rewrite U3 in H1. cbn in H1. rewrite <- H1. split; [easy |]. cbn. unfold s_aws_promise_dtor, destruction. now rewrite U1, U2.
  - assert (told_value g ∈ taken g) as Hin by (destruct C2 as [C2 | [i C2]]; [exact C2 | now apply no_takers in C2]). split; [auto |].
    assert (takes g <> O) as Hn by (destruct (taken g); [now apply not_elem_of_nil in Hin | cbn in H1; lia]). rewrite (proj2 (Nat.eqb_neq _ _) Hn).
    unfold s_aws_promise_dtor. now rewrite C1.
Qed.

Lemma release_kept k s g i t p p' ds : kept k s g -> (Z.of_nat k < 2 ^ 64 - 2) -> threads s !! i = Some t -> refs t <> O -> promise s = Some p -> at_point t = Ready -> aws_promise_release p = (p', ds) ->
  kept (S k) (mk_system p' (<[i := mk_thread (refs t - 1) Ready]> (threads s)) (destroyed s ++ ds)) g.
Proof.
  intros [H1 H2 H3 H4 H5] Hk Hi Hr Hp Hx E. rewrite Hp in *. destruct H3 as [H3 Hd]. rewrite Hd in *. destruct H2 as [Hc Hb].
  pose proof (total_insert (threads s) i t (mk_thread (refs t - 1) Ready) Hi) as Ht. cbn [refs] in Ht.
  assert (at_point <$> <[i := mk_thread (refs t - 1) Ready]> (threads s) = points s) as Hpts by (rewrite <- Hx; now apply points_kept).
  unfold aws_promise_release, aws_ref_count_release in E. rewrite Hc in E. destruct (Z.eqb_spec (Z.of_nat (total (threads s))) 1) as [El | El]; injection E as <- <-.
  - constructor; unfold points; cbn [promise threads destroyed app]; rewrite ?Hpts; auto; [apply calls_insert; auto | lia | | exact I].
    apply owned_released; [exact H4 |]. intros j x Ej. unfold points in Ej. rewrite list_lookup_fmap in Ej. destruct (threads s !! j) as [t' |] eqn:Etj; [| discriminate]. injection Ej as <-.
    destruct (decide (i = j)) as [<- | Hne]; [assert (t' = t) as -> by congruence; now rewrite Hx |]. destruct (decide (refs t' = O)) as [Hz | Hz]; [now rewrite (proj1 (Forall_lookup _ _) H1 _ _ Etj Hz) |].
    pose proof (two_refs _ _ _ _ _ Hi Etj Hne). lia.
  - constructor; unfold points; cbn [promise threads destroyed app]; rewrite ?Hpts; auto; [apply calls_insert; auto | | ].
    + cbn. split; [| lia]. unfold u64. rewrite Z.mod_small; lia.
    + now apply (owned_same (points s) _ p _ [] g g).
Qed.

Lemma give_kept k s g i t p j t' : kept k s g -> threads s !! i = Some t -> refs t <> O -> promise s = Some p -> at_point t = Ready -> threads s !! j = Some t' -> i <> j ->
  kept (S k) (mk_system (Some p) (<[j := mk_thread (S (refs t')) (at_point t')]> (<[i := mk_thread (refs t - 1) Ready]> (threads s))) (destroyed s)) g.
Proof.
  intros [H1 H2 H3 H4 H5] Hi Hr Hp Hx Hj Hn. rewrite Hp in *. set (ts := <[i := mk_thread (refs t - 1) Ready]> (threads s)).
  assert (ts !! j = Some t') as Hj' by (unfold ts; now rewrite list_lookup_insert_ne by auto).
  pose proof (total_insert (threads s) i t (mk_thread (refs t - 1) Ready) Hi) as Ht. pose proof (total_insert ts j t' (mk_thread (S (refs t')) (at_point t')) Hj') as Ht'. fold ts in Ht. cbn [refs] in *.
  assert (at_point <$> <[j := mk_thread (S (refs t')) (at_point t')]> ts = points s) as Hpts by (rewrite points_kept by exact Hj'; unfold ts; rewrite <- Hx; now apply points_kept).
  constructor; unfold points; cbn [promise threads destroyed]; rewrite ?Hpts; auto.
  - apply calls_insert; [apply calls_insert; auto | discriminate].
  - destruct H2. split; [rewrite H; f_equal |]; lia.
Qed.

Definition wake_point (x : point) : point := match x with Waiting _ => Waiting true | Waiting_for _ => Waiting_for true | x => x end.

Lemma points_wake (ts : list thread) : at_point <$> map wake ts = map wake_point (at_point <$> ts).
Proof. change (fmap at_point (map wake ts)) with (map at_point (map wake ts)). change (at_point <$> ts) with (map at_point ts). rewrite !map_map. apply map_ext. now intros [n []]. Qed.

Lemma taking_wake x : taking (wake_point x) = taking x.
Proof. now destruct x. Qed.

Lemma takers_wake pts : takers (map wake_point pts) = takers pts.
Proof. unfold takers. induction pts as [| x pts IH]; [reflexivity |]. cbn [map sum_list_with]. rewrite taking_wake. now rewrite IH. Qed.

Lemma wake_lookup pts i x : taking x = true -> map wake_point pts !! i = Some x <-> pts !! i = Some x.
Proof.
  intros Hx. change (map wake_point pts) with (wake_point <$> pts). rewrite list_lookup_fmap. destruct (pts !! i) as [y |]; cbn; [| tauto].
  split; intros [= E]; subst; [destruct y; cbn in Hx; try discriminate; reflexivity | destruct x; try discriminate; reflexivity].
Qed.

Lemma owned_wake pts p ds g : owned pts (Some p) ds g -> owned (map wake_point pts) (Some p) ds g.
Proof.
  intros H. apply (owned_same pts _ p p ds g g H); auto; [apply takers_wake | |].
  - intros i v. unfold holds. now rewrite !wake_lookup by reflexivity.
  - intros i v E. now apply wake_lookup.
Qed.

Lemma notify_kept k s g i t p : kept k s g -> threads s !! i = Some t -> refs t <> O -> promise s = Some p -> at_point t = Notifying ->
  kept (S k) (mk_system (Some p) (map wake (<[i := mk_thread (refs t) Ready]> (threads s))) (destroyed s)) g.
Proof.
  intros [H1 H2 H3 H4 H5] Hi Hr Hp Hx. rewrite Hp in *. pose proof (points_lookup _ _ _ Hi) as Hpi. rewrite Hx in Hpi.
  pose proof (total_insert (threads s) i t (mk_thread (refs t) Ready) Hi) as Ht. cbn [refs] in Ht.
  constructor; unfold points; cbn [promise threads destroyed]; rewrite ?points_wake, ?points_insert; cbn [at_point].
  - apply Forall_map. apply (Forall_impl _ _ _ (calls_insert _ i (refs t) Ready H1 (fun _ => eq_refl))). intros [n []] Hz E; cbn in *; auto; specialize (Hz E); discriminate.
  - rewrite total_wake. destruct H2. split; [rewrite H; f_equal |]; lia.
  - exact H3.
  - apply owned_wake. apply (owned_same (points s) _ p p (destroyed s) g g H4); auto.
    + pose proof (takers_insert (points s) i _ Ready Hpi) as E. cbn in E. unfold points in *. lia.
    + intros j v. apply (holds_idle _ _ Notifying); auto.
    + intros j v E. rewrite list_lookup_insert_ne; [exact E |]. intros ->. unfold points in E. congruence.
  - intros _. right. apply Forall_map, Forall_true. intros []; split; discriminate.
Qed.

(** ** All interleavings *)

Lemma told_snoc tr i a r : told_of (tr ++ [(i, a, r)]) = note (told_of tr) a r.
Proof. unfold told_of. now rewrite foldl_app. Qed.

Lemma stepped_kept k s g i t p a s' r : kept k s g -> Z.of_nat k < 2 ^ 64 - 2 -> threads s !! i = Some t -> refs t <> O -> promise s = Some p -> stepped s i t p a s' r -> kept (S k) s' (note g a r).
Proof.
  intros H Hk Hi Hr Hp [a' x p' r' E | p' ds Hx E | j t' Hx Hj Hn | Hx].
  - exact (local_kept _ _ _ _ _ _ _ _ _ _ H Hk Hi Hr Hp E).
  - exact (release_kept _ _ _ _ _ _ _ _ H Hk Hi Hr Hp Hx E).
  - exact (give_kept _ _ _ _ _ _ _ _ H Hi Hr Hp Hx Hj Hn).
  - exact (notify_kept _ _ _ _ _ _ H Hi Hr Hp Hx).
Qed.

Lemma run_kept address destroy others tr s : run address destroy others tr s -> Z.of_nat (length tr) < 2 ^ 64 - 1 -> kept (length tr) s (told_of tr).
Proof.
  induction 1 as [| tr s i a s' r Hrun IH E]; intros Hl; [apply new_kept |]. rewrite length_app in *. cbn [length] in *.
  destruct (act_stepped _ _ _ _ _ E) as (t & p & Hi & Hr & Hp & Hs). rewrite told_snoc, Nat.add_1_r. apply (stepped_kept _ s _ i t p); [apply IH | | | | |]; auto; lia.
Qed.

(** Everybody who holds a reference finds the promise. *)
Lemma kept_alive k s g i t : kept k s g -> threads s !! i = Some t -> refs t <> O -> exists p, promise s = Some p.
Proof.
  intros H Hi Hr. pose proof (kp_refs _ _ _ H) as Hc. destruct (promise s) as [p |]; [now exists p |]. pose proof (total_lookup _ _ _ Hi). lia.
Qed.

(** What a step that goes well shows of the promise. *)
Definition answered (g : told) (x : point) (a : action) (r : answer) : Prop :=
  match a with
  | Complete _ _ => is_told g = false
  | Fail_with e => e <> 0 /\ is_told g = false
  | Error_code | Value | Take_value => is_told g = true
  | _ => True
  end /\
  match r with
  | Flag b => b = is_told g
  | Code e => e = told_code g
  | Read v => takes g = O -> v = told_value g
  | Taken v => takes g = 1%nat -> v = told_value g
  | Returned => match x, a with Waiting _, _ | Ready, Wait => is_told g = true | _, _ => True end
  | Nothing => True
  end.

(** When a fatal assertion stops the process. *)
Definition misused (g : told) (a : action) : Prop :=
  match a with
  | Complete _ _ => is_told g = true
  | Fail_with e => e = 0 \/ is_told g = true
  | Error_code | Value | Take_value => is_told g = false
  | _ => False
  end.

Lemma local_answered x p a y p' r g : local_of x p a = To y p' r -> promise_told p g -> (takes g = O -> value p = told_value g) -> (forall v, x = Take_cleared v -> takes g = 1%nat -> v = told_value g) -> answered g x a r.
Proof.
  intros H [E1 E2] Hv Ht. unfold answered. rewrite <- E1, <- E2. local_cases x a H; cbn; auto; try (split; [| exact I]; repeat split; auto; now apply Z.eqb_neq). all: split; [exact I | auto].
Qed.

Lemma owned_value pts p g : owned pts (Some p) [] g -> takes g = O -> value p = told_value g.
Proof.
  intros [H1 _ _ _ _ [[U1 _ _ _] | [_ C2]] _] E; [exact U1 |]. assert (takers pts = O /\ taken g = []) as [T0 L0] by (rewrite E in H1; destruct (taken g); cbn in H1; [split; [lia | reflexivity] | lia]).
  rewrite L0 in C2. destruct C2 as [C2 | [i C2]]; [now apply not_elem_of_nil in C2 | now apply no_takers in C2].
Qed.

Lemma owned_taken (pts : list point) op g i v : owned pts op [] g -> pts !! i = Some (Take_cleared v) -> takes g = 1%nat -> v = told_value g.
Proof.
  intros [H1 _ H3 _ _ _ H7] Hi E. pose proof (takers_lookup _ _ _ Hi eq_refl). assert (racing g = false) as Hr by (destruct (racing g); [specialize (H3 eq_refl); lia | reflexivity]).
  destruct (H7 Hr) as (_ & _ & S3). rewrite (S3 i v (or_intror Hi)). destruct (taken g); [reflexivity | cbn in H1; lia].
Qed.

Lemma stepped_answered k s g i t p a s' r : kept k s g -> threads s !! i = Some t -> promise s = Some p -> stepped s i t p a s' r -> answered g (at_point t) a r.
Proof.
  intros H Hi Hp Hs. pose proof (kp_told _ _ _ H) as Ht. pose proof (kp_owned _ _ _ H) as Ho. rewrite Hp in *. destruct Ht as [Ht Hd]. rewrite Hd in Ho. pose proof (points_lookup _ _ _ Hi) as Hpi. fold (points s) in Hpi.
  destruct Hs as [a' x p' r' E | p' ds Hx _ | j t' Hx _ _ | Hx]; try (rewrite Hx; now split).
  apply (local_answered _ _ _ _ _ _ _ E Ht); [now apply (owned_value (points s)) | intros v Ev; rewrite Ev in Hpi; now apply (owned_taken (points s) (Some p) g i)].
Qed.

Lemma act_aborts k s g i a : kept k s g -> act s i a = Some Aborted -> misused g a.
Proof.
  intros H. unfold act. destruct (threads s !! i) as [t |]; [| discriminate]. destruct (decide _); [discriminate |]. pose proof (kp_told _ _ _ H) as Ht. destruct (promise s) as [p |]; [| discriminate].
  destruct Ht as [[E _] _]. unfold misused. rewrite <- E. unfold step, aws_promise_release, start, aws_promise_is_complete, aws_promise_complete, aws_promise_fail, s_promise_completed.
  destruct (at_point t) as [| [] | [] | | | | | |], a; cbn; try discriminate; auto;
    repeat match goal with |- context [if ?b then _ else _] => destruct b eqn:? end; try discriminate; auto; try (destruct (threads s !! to); discriminate); try (intros _; left; now apply Z.eqb_eq).
Qed.


(** C25: The value of a promise has one owner. While the promise is there its
    destructor was not called. When the last reference is gone and nobody took the
    value, the destructor was called with it exactly once; when somebody took it,
    the destructor was never called, one of those calls returned the value, and each
    of them returned the value or NULL. Only calls that overlap, which take the
    value without the lock, can both get it: as long as none began while another was
    not done, the first of them returned the value and all later ones NULL. *)
Theorem promise_value_once address destroy others tr s :
  run address destroy others tr s -> Z.of_nat (length tr) < 2 ^ 64 - 1 ->
  let g := told_of tr in
  destroyed s = match promise s, takes g with None, O => destruction (told_value g) (told_dtor g) | _, _ => [] end
  /\ Forall (fun v => v = told_value g \/ v = 0) (taken g)
  /\ (promise s = None -> length (taken g) = takes g /\ (takes g <> O -> told_value g ∈ taken g))
  /\ (racing g = false -> taken g = first_only (told_value g) (length (taken g))).
Proof.
  intros Hrun Hl g. pose proof (run_kept _ _ _ _ _ Hrun Hl) as H. fold g in H. pose proof (kp_told _ _ _ H) as Ht. destruct (kp_owned _ _ _ H) as [H1 H2 H3 H4 H5 H6 H7].
  split; [| split; [exact H4 | split; [| intros Hr; apply H7, Hr]]].
  - destruct (promise s) as [p |]; [apply Ht |]. destruct H6 as (_ & _ & ->). now destruct (takes g).
  - intros E. rewrite E in H6. destruct H6 as (T0 & Hin & _). rewrite T0 in H1. split; [exact H1 | exact Hin].
Qed.

(** C26: No wake-up is lost: once a promise is completed, and the thread that did so has
    notified, which it can do next, every thread that waits can go on, and waiting
    without a limit returns with its next step. *)
Theorem promise_waiters_return address destroy others tr s :
  run address destroy others tr s -> Z.of_nat (length tr) < 2 ^ 64 - 1 -> is_told (told_of tr) = true ->
  exists s1, (s1 = s \/ exists j t, threads s !! j = Some t /\ at_point t = Notifying /\ act s j Go = Some (Went s1 Returned))
    /\ forall i t, threads s1 !! i = Some t ->
         match at_point t with
         | Waiting _ => exists s2, act s1 i Go = Some (Went s2 Returned)
         | Waiting_for _ => exists s2, act s1 i Go = Some (Went s2 (Flag true))
         | _ => True
         end.
Proof.
  intros Hrun Hl Hg. pose proof (run_kept _ _ _ _ _ Hrun Hl) as H.
  assert (forall k s1 g, kept k s1 g -> is_told g = true -> Forall woken_point (points s1) -> forall i t, threads s1 !! i = Some t ->
    match at_point t with Waiting _ => exists s2, act s1 i Go = Some (Went s2 Returned) | Waiting_for _ => exists s2, act s1 i Go = Some (Went s2 (Flag true)) | _ => True end) as Hback.
  { intros k s1 g H1 Hg1 Hw i t Hi. pose proof (points_lookup _ _ _ Hi) as Hpi. pose proof (proj1 (Forall_lookup _ _) Hw _ _ Hpi) as [W1 W2].
    pose proof (proj1 (Forall_lookup _ _) (kp_calls _ _ _ H1) _ _ Hi) as Hr. cbv beta in Hr. pose proof (kp_told _ _ _ H1) as Ht. unfold act. rewrite Hi.
    destruct (at_point t) as [| [] | [] | | | | | |] eqn:Ex; try exact I; try congruence; (destruct (decide (refs t = O)) as [E |]; [discriminate (Hr E) |]); destruct (kept_alive _ _ _ _ _ H1 Hi ltac:(auto)) as [p Hp]; rewrite Hp in *; destruct Ht as [[E _] _];
      rewrite Hg1 in E; unfold step, continue, s_promise_completed; rewrite Ex, E; eexists; reflexivity. }
  pose proof (kp_woken _ _ _ H) as Hw. pose proof (kp_told _ _ _ H) as Ht. destruct (promise s) as [p |] eqn:Hp.
  - destruct Ht as [[E _] _]. rewrite Hg in E. destruct (Hw E) as [Hn | Hall]; [| exists s; split; [now left | exact (Hback _ _ _ H Hg Hall)]].
    apply list_elem_of_lookup in Hn as [j Hj]. unfold points in Hj. rewrite list_lookup_fmap in Hj. destruct (threads s !! j) as [t |] eqn:Hi; [| discriminate]. injection Hj as Hx.
    assert (refs t <> O) as Hr by (intros Hz; rewrite (proj1 (Forall_lookup _ _) (kp_calls _ _ _ H) _ _ Hi Hz) in Hx; discriminate).
    eexists. split; [right; exists j, t; split; [exact Hi |]; split; [exact Hx |]; unfold act; rewrite Hi, Hp; destruct (decide _); [contradiction |]; unfold step; rewrite Hx; reflexivity |].
    apply (Hback _ _ _ (notify_kept _ _ _ _ _ _ H Hi Hr Hp Hx) Hg). unfold points. cbn [threads]. unfold aws_condition_variable_notify_all. rewrite points_wake. apply Forall_map, Forall_true. intros []; split; discriminate.
  - exists s. split; [now left |]. intros i t Hi. pose proof (kp_refs _ _ _ H) as Hc. rewrite Hp in Hc. pose proof (total_lookup _ _ _ Hi).
    pose proof (proj1 (Forall_lookup _ _) (kp_calls _ _ _ H) _ _ Hi) as Hr. cbv beta in Hr. rewrite Hr by lia. exact I.
Qed.

(** ** Witnesses *)

Fixpoint play (s : system) (acts : list (nat * action)) : option (list (nat * action * answer) * system) :=
  match acts with
  | [] => Some ([], s)
  | (i, a) :: acts =>
      match act s i a with
      | Some (Went s r) => '(tr, s) ← play s acts; Some ((i, a, r) :: tr, s)
      | _ => None
      end
  end.

Lemma acts_run address destroy others acts : forall tr s tr' s', run address destroy others tr s -> play s acts = Some (tr', s') -> run address destroy others (tr ++ tr') s'.
Proof.
  induction acts as [| [i a] acts IH]; intros tr s tr' s' H E; cbn [play] in E; [injection E as <- <-; now rewrite app_nil_r |].
  destruct (act s i a) as [[s1 r | |] |] eqn:Ea; try discriminate. apply bind_Some in E as ([tr1 s2] & E1 & E2). injection E2 as <- <-.
  replace (tr ++ (i, a, r) :: tr1) with ((tr ++ [(i, a, r)]) ++ tr1) by now rewrite <- app_assoc. apply (IH _ s1); [exact (run_step _ _ _ _ _ _ _ _ _ H Ea) | exact E1].
Qed.

(** A thread gets a reference, waits and takes the value, twice; the other
    completes. *)
Definition demo_acts : list (nat * action) :=
  [(0%nat, Acquire); (0%nat, Give 1); (1%nat, Wait); (0%nat, Complete 7 9); (0%nat, Go); (1%nat, Go)].

Definition demo_end : list (nat * action) :=
  [(0%nat, Release); (1%nat, Take_value); (1%nat, Go); (1%nat, Go); (1%nat, Go);
   (1%nat, Take_value); (1%nat, Go); (1%nat, Go); (1%nat, Go); (1%nat, Release)].

Definition demo_run (acts : list (nat * action)) : list (nat * action * answer) * system := default ([], new_system 1 2 1) (play (new_system 1 2 1) acts).

Lemma demo_is_run acts : match play (new_system 1 2 1) acts with Some _ => true | None => false end = true -> run 1 2 1 (demo_run acts).1 (demo_run acts).2.
Proof.
  unfold demo_run. destruct (play _ acts) as [[tr s] |] eqn:E; [| discriminate]. intros _. exact (acts_run 1 2 1 acts [] _ tr s (run_new _ _ _) E).
Qed.


Lemma promise_value_once_witness :
  exists s, run 1 2 1 (demo_run (demo_acts ++ demo_end)).1 s /\ promise s = None /\ destroyed s = [] /\ taken (told_of (demo_run (demo_acts ++ demo_end)).1) = [7; 0].
Proof.
  assert (run 1 2 1 (demo_run (demo_acts ++ demo_end)).1 (demo_run (demo_acts ++ demo_end)).2) as H by (apply demo_is_run; vm_compute; reflexivity).
  exists (demo_run (demo_acts ++ demo_end)).2. split; [exact H |]. split; [vm_compute; reflexivity |].
  assert (Z.of_nat (length (demo_run (demo_acts ++ demo_end)).1) < 2 ^ 64 - 1) as Hl by (vm_compute; reflexivity).
  destruct (promise_value_once 1 2 1 _ _ H Hl) as (Hd & _ & _ & Hv). split; [exact Hd | exact (Hv eq_refl)].
Defined.

Lemma promise_waiters_return_witness :
  let s := (demo_run (take 4 demo_acts)).2 in
  run 1 2 1 (demo_run (take 4 demo_acts)).1 s /\ at_point <$> threads s = [Notifying; Waiting false] /\ exists s1 s2 s3, (s1 = s \/ act s 0 Go = Some (Went s1 Returned)) /\ act s1 1 Go = Some (Went s2 s3).
Proof.
  cbv zeta. assert (run 1 2 1 (demo_run (take 4 demo_acts)).1 (demo_run (take 4 demo_acts)).2) as H by (apply demo_is_run; vm_compute; reflexivity).
  split; [exact H |]. split; [vm_compute; reflexivity |].
  assert (Z.of_nat (length (demo_run (take 4 demo_acts)).1) < 2 ^ 64 - 1) as Hl by (vm_compute; reflexivity).
  destruct (promise_waiters_return 1 2 1 _ _ H Hl eq_refl) as (s1 & [-> | ([| [|]] & t & Hj & Hx & E)] & Hw).
  - specialize (Hw 1%nat _ eq_refl). destruct Hw as [s2 E]. eexists _, s2, _. split; [left; reflexivity | exact E].
  - vm_compute in E. injection E as <-. specialize (Hw 1%nat _ eq_refl). destruct Hw as [s2 E2]. eexists _, s2, _. split; [right; vm_compute; reflexivity | exact E2].
  - vm_compute in Hj. injection Hj as <-. discriminate.
  - vm_compute in Hj. discriminate.
Defined.

(** Two threads that take the value at the same time both get it. *)
Lemma racing_takes_both_own :
  taken (told_of (demo_run (demo_acts ++ [(0%nat, Take_value); (1%nat, Take_value); (0%nat, Go); (1%nat, Go); (0%nat, Go); (1%nat, Go); (0%nat, Go); (1%nat, Go)])).1) = [7; 7].
Proof. vm_compute. reflexivity. Qed.
