(* ===== verification/CommandLine.v ===== *)
(** * The command line parser

    [source/command_line_parser.c]. A C string is the list of its bytes, without
    the terminator; [argv] is a list of them, and [argc] its length. The table of
    options goes up to an entry of zeros. [None]: memory beyond a string or the
    table is read. The global variables are a record; [aws_cli_opterr] and
    [aws_cli_optopt] are only ever reset and are left out. *)

From S2P Require Import Prelude Math ByteOrder Memory ByteBuf.
Import ByteBuf.

Local Open Scope Z_scope.

Module CommandLine.

Abbreviation c_string := (list Z).

Record aws_cli_option := mk_option { name : option c_string; has_arg : Z; val : Z }.

Record cli_state := mk_cli {
  aws_cli_optind : Z;
  aws_cli_on_arg : bool;
  aws_cli_optarg : option c_string;
  aws_cli_positional_arg : option c_string
}.

Definition aws_cli_reset_state : cli_state := mk_cli 1 false None None.

Definition is_last (o : aws_cli_option) : bool := (val o =? 0) && match name o with None => true | Some _ => false end.

(** The index of the first entry that matches, before the end of the table. *)
Fixpoint find_option (f : aws_cli_option -> bool) (index : nat) (longopts : list aws_cli_option) : option (option nat) :=
  match longopts with
  | [] => None
  | o :: longopts => if is_last o then Some None else if f o then Some (Some index) else find_option f (S index) longopts
  end.

(** [char] is signed. *)
Definition char_of (c : Z) : Z := if c <? 128 then c else c - 256.

Definition s_find_option_from_char (longopts : list aws_cli_option) (search_for : Z) : option (option nat) :=
  find_option (fun o => val o =? char_of search_for) 0 longopts.

Definition s_find_option_from_c_str (longopts : list aws_cli_option) (search_for : c_string) : option (option nat) :=
  find_option (fun o => match name o with Some n => bool_decide (search_for = n) | None => false end) 0 longopts.

(** [memchr] on the string and its terminator. *)
Fixpoint memchr (s : c_string) (c : Z) : option nat :=
  match s with
  | [] => if c =? 0 then Some O else None
  | x :: s => if x =? c then Some O else S <$> memchr s c
  end.

(** The byte at [i] of a string; [None] behind the terminator. *)
Definition byte_at (s : c_string) (i : nat) : option Z := (s ++ [0]) !! i.

(** An option was found, and [optind] is behind it. *)
Definition take_option (argv : list c_string) (optstring : c_string) (longopts : list aws_cli_option) (optind : Z) (index : nat) : option (Z * option nat * cli_state) :=
  o ← longopts !! index;
  match memchr optstring (u8 (val o)) with
  | None => Some (63, Some index, mk_cli optind false None None)
  | Some opt_value =>
      following ← byte_at optstring (S opt_value);
      if following =? 58 then
        if Z.of_nat (length argv) <=? optind then Some (63, Some index, mk_cli optind false None None)
        else
          arg ← argv !! Z.to_nat optind;
          Some (val o, Some index, mk_cli (optind + 1) false (Some arg) None)
      else Some (val o, Some index, mk_cli optind false None None)
  end.

(** What is returned, [longindex] if it was stored, the state. *)
Definition aws_cli_getopt_long (argv : list c_string) (optstring : c_string) (longopts : list aws_cli_option) (st : cli_state) : option (Z * option nat * cli_state) :=
  let '(mk_cli optind on_arg _ positional) := st in
  if Z.of_nat (length argv) <=? optind then Some (-1, None, mk_cli optind on_arg None positional)
  else
    word ← (if optind <? 0 then None else argv !! Z.to_nat optind);
    first_char ← byte_at word 0;
    second_char ← byte_at word 1;
    '(option, positional_arg_encountered, on_arg, positional) ← (
      if (first_char =? 45) && negb (second_char =? 45) then
        found ← s_find_option_from_char longopts second_char; Some (found, false, true, positional)
      else if (first_char =? 45) && (second_char =? 45) then
        found ← s_find_option_from_c_str longopts (drop 2 word); Some (found, false, true, positional)
      else if negb on_arg then Some (None, true, on_arg, Some word)
      else Some (None, false, false, None));
    match option with
    | Some index => take_option argv optstring longopts (optind + 1) index
    | None => Some (if (positional_arg_encountered : bool) then 2 else 63, None, mk_cli (optind + 1) on_arg None positional)
    end.

(** Subcommands: the entry of the table that is called, with the arguments from
    the command on. *)
Fixpoint find_command (arg_name : c_string) (i : nat) (dispatch_table : list c_string) : option nat :=
  match dispatch_table with
  | [] => None
  | cmd_name :: dispatch_table =>
      if bool_decide (map to_lower arg_name = map to_lower cmd_name) then Some i else find_command arg_name (S i) dispatch_table
  end.

Definition aws_cli_dispatch_on_subcommand (argv : list c_string) (dispatch_table : list c_string) : (nat * list c_string) + op_result :=
  match argv with
  | _ :: arg_name :: _ =>
      match find_command arg_name 0 dispatch_table with
      | Some i => inl (i, tail argv)
      | None => inr (aws_raise_error AWS_ERROR_UNIMPLEMENTED)
      end
  | _ => inr (aws_raise_error AWS_ERROR_INVALID_ARGUMENT)
  end.

End CommandLine.
Import CommandLine.

(** ** Searching *)

Lemma find_first f os i o l k : os !! i = Some o -> f o = true -> Forall (fun o => is_last o = false) os -> (forall j o', os !! j = Some o' -> f o' = true -> j = i) ->
  find_option f k (os ++ l) = Some (Some (k + i)%nat).
Proof.
  revert i k. induction os as [| x os IH]; intros i k Hi Hf Hl Hu; [discriminate |]. apply Forall_cons in Hl as [Hx Hl]. cbn [find_option app]. rewrite Hx.
  destruct i as [| i]; [injection Hi as ->; now rewrite Hf, Nat.add_0_r |]. destruct (f x) eqn:Ex; [discriminate (Hu O x eq_refl Ex) |].
  rewrite (IH i (S k) Hi Hf Hl); [f_equal; f_equal; lia |]. intros j o' Ej Eo. specialize (Hu (S j) o' Ej Eo). lia.
Qed.

Lemma find_total f os e l k : is_last e = true -> exists r, find_option f k (os ++ e :: l) = Some r /\ forall i, r = Some i -> (k <= i < k + length os)%nat.
Proof.
  intros He. revert k. induction os as [| x os IH]; intros k; cbn [find_option app length]; [rewrite He; exists None; now split |].
  destruct (is_last x); [exists None; now split |]. destruct (f x); [exists (Some k); split; [reflexivity |]; intros i [= <-]; lia |].
  destruct (IH (S k)) as (r & E & H). exists r. split; [exact E |]. intros i Ei. specialize (H i Ei). lia.
Qed.

(** A character is followed by a colon where it occurs first. *)
Fixpoint takes_argument (s : c_string) (c : Z) : bool :=
  match s with
  | [] => false
  | x :: s => if x =? c then hd 0 s =? 58 else takes_argument s c
  end.

Lemma memchr_takes s c : c ∈ s -> exists k b, memchr s c = Some k /\ byte_at s (S k) = Some b /\ (b =? 58) = takes_argument s c.
Proof.
  induction s as [| x s IH]; intros H; [now apply elem_of_nil in H |]. cbn. destruct (Z.eqb_spec x c) as [-> | Hn].
  - exists O, (hd 0 s). split; [reflexivity |]. split; [now destruct s | reflexivity].
  - apply elem_of_cons in H as [-> | H]; [contradiction |]. destruct (IH H) as (k & b & E1 & E2 & E3). exists (S k), b. rewrite E1. now split.
Qed.

Lemma memchr_none s c : c <> 0 -> c ∉ s -> memchr s c = None.
Proof.
  intros Hc. induction s as [| x s IH]; intros H; cbn; [now destruct (Z.eqb_spec c 0) |]. rewrite not_elem_of_cons in H. destruct H as [H1 H2]. destruct (Z.eqb_spec x c); [congruence |]. now rewrite IH.
Qed.

(** ** Command lines that mean something *)

(** A table whose options have characters and names of their own, all of them
    listed. *)
Record options_ok (os : list aws_cli_option) (optstring : c_string) : Prop := {
  oo_val : Forall (fun o => 0 < val o < 128 /\ val o <> 45 /\ val o ∈ optstring) os;
  oo_vals : forall i j o o', os !! i = Some o -> os !! j = Some o' -> val o = val o' -> i = j;
  oo_names : forall i j o o', os !! i = Some o -> os !! j = Some o' -> name o = name o' -> name o <> None -> i = j
}.

Inductive item :=
| Short (index : nat) (arg : option c_string)
| Long (index : nat) (arg : option c_string)
| Word (w : c_string).

Definition arg_words (arg : option c_string) : list c_string := match arg with Some a => [a] | None => [] end.

(** The words of an item, [-c], [--name] or a plain word, and what parsing it shows:
    what is returned, the index of the option, its argument, a plain word. *)
Section items.
Context (os : list aws_cli_option) (optstring : c_string).

Definition words_of (it : item) : list c_string :=
  match it with
  | Short i arg => match os !! i with Some o => [45; val o] :: arg_words arg | None => [] end
  | Long i arg => match os !! i ≫= name with Some n => ([45; 45] ++ n) :: arg_words arg | None => [] end
  | Word w => [w]
  end.

Definition shown (it : item) : Z * option nat * option c_string * option c_string :=
  match it with
  | Short i arg | Long i arg => (default 0 (val <$> os !! i), Some i, arg, None)
  | Word w => (2, None, None, Some w)
  end.

Definition fits (o : aws_cli_option) (arg : option c_string) : Prop := takes_argument optstring (val o) = match arg with Some _ => true | None => false end.

Definition item_ok (it : item) : Prop :=
  match it with
  | Short i arg => exists o, os !! i = Some o /\ fits o arg
  | Long i arg => exists o n, os !! i = Some o /\ name o = Some n /\ fits o arg
  | Word w => w <> [] /\ hd 0 w <> 45
  end.
End items.

Lemma options_not_last os optstring : options_ok os optstring -> Forall (fun o => is_last o = false) os.
Proof.
  intros [H _ _]. apply (Forall_impl _ _ _ H). intros o [[Ho _] _]. unfold is_last. destruct (Z.eqb_spec (val o) 0); [lia | reflexivity].
Qed.

(** The part of a call after an option of the table was found. *)
Lemma found_option os optstring i o : options_ok os optstring -> os !! i = Some o ->
  exists k b, memchr optstring (u8 (val o)) = Some k /\ byte_at optstring (S k) = Some b /\ (b =? 58) = takes_argument optstring (val o).
Proof.
  intros H Hi. destruct (proj1 (Forall_lookup _ _) (oo_val _ _ H) _ _ Hi) as (H1 & _ & H3). unfold u8. rewrite Z.mod_small by lia. now apply memchr_takes.
Qed.

Lemma next_word (pre : list c_string) w post : (pre ++ w :: post) !! Z.to_nat (Z.of_nat (length pre)) = Some w.
Proof. rewrite Nat2Z.id. now apply list_lookup_middle. Qed.

Lemma byte_at_0 c w : byte_at (c :: w) 0 = Some c.
Proof. reflexivity. Qed.

Lemma byte_at_1 c w : byte_at (c :: w) 1 = Some (hd 0 w).
Proof. now destruct w. Qed.

Lemma not_beyond (pre : list c_string) w post : (Z.of_nat (length (pre ++ w :: post)) <=? Z.of_nat (length pre)) = false.
Proof. apply Z.leb_gt. rewrite length_app. cbn. lia. Qed.

(** What a call does with a word that is an option of the table. *)
Lemma option_step os optstring e pre w arg post oa pa i o : options_ok os optstring -> os !! i = Some o -> fits optstring o arg -> hd 0 w = 45 ->
  (if hd 0 (tl w) =? 45 then s_find_option_from_c_str (os ++ [e]) (drop 2 w) else s_find_option_from_char (os ++ [e]) (hd 0 (tl w))) = Some (Some i) ->
  aws_cli_getopt_long (pre ++ (w :: arg_words arg) ++ post) optstring (os ++ [e]) (mk_cli (Z.of_nat (length pre)) false oa pa) =
    Some (val o, Some i, mk_cli (Z.of_nat (length (pre ++ w :: arg_words arg))) false arg None).
Proof.
  intros H Hi Hf Hw Hs. destruct w as [| c w]; [discriminate |]. cbn in Hw. subst c. destruct (found_option _ _ _ _ H Hi) as (k & b & E1 & E2 & E3). rewrite Hf in E3.
  assert ((os ++ [e]) !! i = Some o) as Hi' by now apply lookup_app_l_Some. unfold aws_cli_getopt_long. rewrite <- app_comm_cons, not_beyond. destruct (Z.ltb_spec (Z.of_nat (length pre)) 0); [lia |].
  rewrite next_word. cbn [mbind option_bind]. rewrite byte_at_0, byte_at_1. cbn [mbind option_bind tl hd] in *. change (45 =? 45) with true. cbn [andb negb].
  assert (forall found : option (option nat), found = Some (Some i) -> (found0 ← found; Some (found0, false, true, pa)) = Some (Some i, false, true, pa)) as Hfound by (now intros ? ->).
  destruct (hd 0 w =? 45); cbn [negb]; rewrite (Hfound _ Hs); cbn [mbind option_bind]; unfold take_option; rewrite Hi'; cbn [mbind option_bind]; rewrite E1, E2; cbn [mbind option_bind]; rewrite E3.
  all: destruct arg as [a |]; cbn [arg_words app length]; [| do 3 f_equal; rewrite length_app; cbn; lia].
  all: assert ((Z.of_nat (length (pre ++ (45 :: w) :: a :: post)) <=? Z.of_nat (length pre) + 1) = false) as -> by (apply Z.leb_gt; rewrite length_app; cbn; lia).
  all: assert ((pre ++ (45 :: w) :: a :: post) !! Z.to_nat (Z.of_nat (length pre) + 1) = Some a) as -> by
    (rewrite (app_assoc pre [45 :: w] (a :: post)) || replace (pre ++ (45 :: w) :: a :: post) with ((pre ++ [45 :: w]) ++ a :: post) by (now rewrite <- app_assoc);
     replace (Z.to_nat (Z.of_nat (length pre) + 1)) with (length (pre ++ [45 :: w])) by (rewrite length_app; cbn; lia); now apply list_lookup_middle).
  all: cbn [mbind option_bind]; do 3 f_equal; rewrite length_app; cbn; lia.
Qed.

Lemma item_step os optstring e pre it post oa pa : options_ok os optstring -> is_last e = true -> item_ok os optstring it ->
  aws_cli_getopt_long (pre ++ words_of os it ++ post) optstring (os ++ [e]) (mk_cli (Z.of_nat (length pre)) false oa pa) =
    Some ((shown os it).1.1.1, (shown os it).1.1.2, mk_cli (Z.of_nat (length (pre ++ words_of os it))) false (shown os it).1.2 (shown os it).2).
Proof.
  intros H He Hit. pose proof (options_not_last _ _ H) as Hl. destruct it as [i arg | i arg | w]; cbn [words_of shown item_ok fst snd] in *.
  - destruct Hit as (o & Hi & Hf). rewrite Hi. cbn [fmap option_fmap option_map default]. destruct (proj1 (Forall_lookup _ _) (oo_val _ _ H) _ _ Hi) as (Hv & Hn & _).
    apply option_step; auto. cbn [tl hd]. destruct (Z.eqb_spec (val o) 45); [contradiction |]. unfold s_find_option_from_char, char_of. destruct (Z.ltb_spec (val o) 128); [| lia].
    apply (find_first _ os i o); [exact Hi | apply Z.eqb_refl | exact Hl |]. intros j o' Hj E. apply Z.eqb_eq in E. exact (oo_vals _ _ H _ _ _ _ Hj Hi E).
  - destruct Hit as (o & n & Hi & Hn & Hf). rewrite Hi. cbn [mbind option_bind fmap option_fmap option_map default]. rewrite Hn.
    apply option_step; auto. change (s_find_option_from_c_str (os ++ [e]) n = Some (Some i)). unfold s_find_option_from_c_str.
    apply (find_first _ os i o); [exact Hi | rewrite Hn; now apply bool_decide_true | exact Hl |]. intros j o' Hj E. destruct (name o') as [n' |] eqn:En; [| discriminate]. apply bool_decide_eq_true in E as ->.
    apply (oo_names _ _ H _ _ _ _ Hj Hi); congruence.
  - destruct Hit as [Hw Hd]. destruct w as [| c w]; [contradiction |]. cbn [hd] in Hd. unfold aws_cli_getopt_long. cbn [app]. rewrite not_beyond. destruct (Z.ltb_spec (Z.of_nat (length pre)) 0); [lia |].
    rewrite next_word. cbn [mbind option_bind]. rewrite byte_at_0, byte_at_1. cbn [mbind option_bind]. destruct (Z.eqb_spec c 45); [contradiction |]. cbn [andb negb mbind option_bind].
    do 3 f_equal. rewrite length_app. cbn. lia.
Qed.

(** The loop of a program that parses its arguments: each call's result, up to -1;
    [None] also when there are more than [fuel]. *)
Fixpoint getopt_all (fuel : nat) (argv : list c_string) (optstring : c_string) (longopts : list aws_cli_option) (st : cli_state) : option (list (Z * option nat * option c_string * option c_string)) :=
  match fuel with
  | O => None
  | S fuel =>
      '(r, index, st) ← aws_cli_getopt_long argv optstring longopts st;
      if r =? -1 then Some []
      else rest ← getopt_all fuel argv optstring longopts st; Some ((r, index, aws_cli_optarg st, aws_cli_positional_arg st) :: rest)
  end.

Lemma getopt_items os optstring e items : options_ok os optstring -> is_last e = true -> Forall (item_ok os optstring) items -> forall pre oa pa,
  getopt_all (S (length items)) (pre ++ concat (map (words_of os) items)) optstring (os ++ [e]) (mk_cli (Z.of_nat (length pre)) false oa pa) = Some (map (shown os) items).
Proof.
  intros H He. induction 1 as [| it items Hit Hits IH]; intros pre oa pa; cbn [map concat length].
  - cbn [getopt_all]. unfold aws_cli_getopt_long. rewrite app_nil_r, Z.leb_refl. reflexivity.
  - remember (S (length items)) as n. cbn [getopt_all]. rewrite (item_step _ _ _ _ _ _ _ _ H He Hit). cbn [mbind option_bind aws_cli_optarg aws_cli_positional_arg].
    rewrite app_assoc, IH. cbn [mbind option_bind].
    assert (((shown os it).1.1.1 =? -1) = false) as ->.
    { apply Z.eqb_neq. pose proof (oo_val _ _ H) as Hv. destruct it as [i a | i a | w]; cbn in *; [destruct Hit as (o & Hi & _) | destruct Hit as (o & n' & Hi & _) | lia];
        rewrite Hi; cbn; destruct (proj1 (Forall_lookup _ _) Hv _ _ Hi); lia. }
    do 2 f_equal. now destruct (shown os it) as [[[] ] ].
Qed.

(** ** Any arguments *)

(** What a call at the word [w] comes to, by what it found. *)
Definition found_none (st : cli_state) (w : c_string) (r : Z) (st' : cli_state) : Prop :=
  aws_cli_optind st' = aws_cli_optind st + 1 /\ aws_cli_optarg st' = None
  /\ if hd 0 w =? 45 then r = 63 /\ aws_cli_on_arg st' = true /\ aws_cli_positional_arg st' = aws_cli_positional_arg st
     else if aws_cli_on_arg st then r = 63 /\ aws_cli_on_arg st' = false /\ aws_cli_positional_arg st' = None
     else r = 2 /\ aws_cli_on_arg st' = false /\ aws_cli_positional_arg st' = Some w.

Definition found_some (argv : list c_string) (optstring : c_string) (st : cli_state) (o : aws_cli_option) (r : Z) (st' : cli_state) : Prop :=
  let takes := takes_argument optstring (u8 (val o)) in
  aws_cli_on_arg st' = false /\ aws_cli_positional_arg st' = None
  /\ if negb (bool_decide (u8 (val o) ∈ optstring)) || takes && (Z.of_nat (length argv) <=? aws_cli_optind st + 1)
     then r = 63 /\ aws_cli_optarg st' = None /\ aws_cli_optind st' = aws_cli_optind st + 1
     else r = val o /\ aws_cli_optarg st' = (if takes then argv !! Z.to_nat (aws_cli_optind st + 1) else None)
          /\ aws_cli_optind st' = aws_cli_optind st + (if takes then 2 else 1).

Lemma take_option_found os e l argv optstring st i o : os !! i = Some o -> u8 (val o) <> 0 -> 0 <= aws_cli_optind st ->
  exists r st', take_option argv optstring (os ++ e :: l) (aws_cli_optind st + 1) i = Some (r, Some i, st') /\ found_some argv optstring st o r st'.
Proof.
  intros Eo Hnz Hi. unfold take_option. rewrite (lookup_app_l_Some _ _ _ _ Eo). cbn [mbind option_bind]. unfold found_some.
  destruct (decide (u8 (val o) ∈ optstring)) as [Hin | Hin].
  - rewrite bool_decide_true by exact Hin. destruct (memchr_takes _ _ Hin) as (k & b & E1 & E2 & E3). rewrite E1, E2. cbn [mbind option_bind negb orb]. rewrite E3.
    destruct (takes_argument optstring (u8 (val o))); cbn [andb]; [| eexists _, _; split; [reflexivity | cbn; auto]].
    destruct (Z.leb_spec (Z.of_nat (length argv)) (aws_cli_optind st + 1)); [eexists _, _; split; [reflexivity | cbn; auto] |].
    destruct (lookup_lt_is_Some_2 argv (Z.to_nat (aws_cli_optind st + 1))) as [a ->]; [lia |]. eexists _, _. split; [reflexivity |]. cbn. repeat split. lia.
  - rewrite (memchr_none _ _ Hnz Hin), bool_decide_false by exact Hin. eexists _, _. split; [reflexivity | cbn; auto].
Qed.

Lemma getopt_step os optstring e l argv st : is_last e = true -> Forall (fun o => u8 (val o) <> 0) os -> Forall (fun w => w <> []) argv ->
  0 <= aws_cli_optind st < Z.of_nat (length argv) ->
  exists w r index st', argv !! Z.to_nat (aws_cli_optind st) = Some w /\ aws_cli_getopt_long argv optstring (os ++ e :: l) st = Some (r, index, st')
    /\ match index with
       | None => found_none st w r st'
       | Some i => hd 0 w = 45 /\ exists o, os !! i = Some o /\ found_some argv optstring st o r st'
       end.
Proof.
  intros He Hv Hw Hi. destruct st as [ind on oa pa]. cbn [aws_cli_optind] in *. destruct (lookup_lt_is_Some_2 argv (Z.to_nat ind)) as [w Ew]; [lia |]. exists w. unfold aws_cli_getopt_long.
  destruct (Z.leb_spec (Z.of_nat (length argv)) ind); [lia |]. destruct (Z.ltb_spec ind 0); [lia |]. rewrite Ew. cbn [mbind option_bind].
  pose proof (proj1 (Forall_lookup _ _) Hw _ _ Ew) as Hne. destruct w as [| c w]; [contradiction |]. rewrite byte_at_0, byte_at_1. cbn [mbind option_bind].
  assert (forall f, exists found, find_option f 0 (os ++ e :: l) = Some found /\ forall i, found = Some i -> exists o, os !! i = Some o) as Hfind.
  { intros f. destruct (find_total f os e l 0 He) as (found & E & Hb). exists found. split; [exact E |]. intros i Ei. apply lookup_lt_is_Some_2. specialize (Hb i Ei). lia. }
  destruct (Z.eqb_spec c 45) as [-> | Ec]; cbn [andb].
  - assert (exists found, (if hd 0 w =? 45 then s_find_option_from_c_str (os ++ e :: l) (drop 2 (45 :: w)) else s_find_option_from_char (os ++ e :: l) (hd 0 w)) = Some found /\ forall i, found = Some i -> exists o, os !! i = Some o) as (found & E & Hf)
      by (destruct (hd 0 w =? 45); apply Hfind).
    destruct (hd 0 w =? 45); cbn [negb]; rewrite E; cbn [mbind option_bind].
    all: destruct found as [i |]; [| eexists _, _, _; split; [reflexivity |]; split; [reflexivity |]; now repeat split].
    all: destruct (Hf i eq_refl) as [o Eo]; destruct (take_option_found os e l argv optstring (mk_cli ind on oa pa) i o Eo) as (r & st' & E1 & E2); [exact (proj1 (Forall_lookup _ _) Hv _ _ Eo) | cbn; lia |].
    all: exists r, (Some i), st'; split; [reflexivity |]; split; [exact E1 |]; split; [reflexivity |]; now exists o.
  - assert ((hd 0 (c :: w) =? 45) = false) as Eh by now apply Z.eqb_neq.
    destruct on; cbn [negb mbind option_bind]; eexists _, _, _; (split; [reflexivity |]); (split; [reflexivity |]); unfold found_none; rewrite Eh; cbn; auto 6.
Qed.

(** How far a call gets. *)
Lemma getopt_advances (os : list aws_cli_option) optstring argv st w r (index : option nat) st' :
  match index with None => found_none st w r st' | Some i => hd 0 w = 45 /\ exists o, os !! i = Some o /\ found_some argv optstring st o r st' end ->
  aws_cli_optind st < Z.of_nat (length argv) -> aws_cli_optind st < aws_cli_optind st' <= Z.of_nat (length argv).
Proof.
  intros H Hi. destruct index as [i |]; [| destruct H as [H _]; lia]. destruct H as [_ (o & _ & _ & _ & H)]. cbv zeta in H.
  destruct (takes_argument optstring (u8 (val o))) eqn:Et; cbn [andb orb] in H.
  - destruct (Z.leb_spec (Z.of_nat (length argv)) (aws_cli_optind st + 1)); [rewrite orb_true_r in H; destruct H as (_ & _ & H); lia |]. rewrite orb_false_r in H. destruct (negb _); destruct H as (_ & _ & H); lia.
  - rewrite orb_false_r in H. destruct (negb _); destruct H as (_ & _ & H); lia.
Qed.

Lemma getopt_all_ends os optstring e l argv : is_last e = true -> Forall (fun o => u8 (val o) <> 0) os -> Forall (fun w => w <> []) argv ->
  forall fuel st, 0 <= aws_cli_optind st -> (length argv - Z.to_nat (aws_cli_optind st) < fuel)%nat -> exists rs, getopt_all fuel argv optstring (os ++ e :: l) st = Some rs.
Proof.
  intros He Hv Hw. induction fuel as [| fuel IH]; intros st Hi Hf; [lia |]. cbn [getopt_all]. destruct (Z.le_gt_cases (Z.of_nat (length argv)) (aws_cli_optind st)) as [Hb | Hb].
  - unfold aws_cli_getopt_long. destruct st as [ind on oa pa]. cbn [aws_cli_optind] in *. destruct (Z.leb_spec (Z.of_nat (length argv)) ind); [| lia]. now eexists.
  - destruct (getopt_step os optstring e l argv st He Hv Hw) as (w & r & index & st' & _ & E & H); [lia |]. pose proof (getopt_advances _ _ _ _ _ _ _ _ H Hb).
    rewrite E. cbn [mbind option_bind]. destruct (r =? -1); [now eexists |]. destruct (IH st') as [rs ->]; [lia | lia |]. now eexists.
Qed.

(** C30: Options printed as words are parsed back: a program that calls the parser until
    it returns -1 gets every option with its index in the table and its argument,
    and every plain word, in order, with one call each. *)
Theorem command_line_round_trip os optstring e program items :
  options_ok os optstring -> is_last e = true -> Forall (item_ok os optstring) items ->
  getopt_all (S (length items)) (program :: concat (map (words_of os) items)) optstring (os ++ [e]) aws_cli_reset_state = Some (map (shown os) items).
Proof. intros H He Hits. exact (getopt_items os optstring e items H He Hits [program] None None). Qed.

(** Parsing any arguments, none of them empty, with any table that has an end and
    whose values are not 0 as a byte: each call reads the strings and the table within
    their bounds; at the end it returns -1 and stays there; otherwise it moves on,
    and shows an option of the table with its argument, an option that is not
    listed or lacks its argument, an unknown option, a word behind an unknown
    option, or a plain word. The loop of a program ends. *)
Theorem getopt_correct os optstring e l argv st :
  is_last e = true -> Forall (fun o => u8 (val o) <> 0) os -> Forall (fun w => w <> []) argv -> 0 <= aws_cli_optind st ->
  (exists r index st', aws_cli_getopt_long argv optstring (os ++ e :: l) st = Some (r, index, st')
    /\ if Z.of_nat (length argv) <=? aws_cli_optind st
       then r = -1 /\ index = None /\ st' = mk_cli (aws_cli_optind st) (aws_cli_on_arg st) None (aws_cli_positional_arg st)
       else aws_cli_optind st < aws_cli_optind st' <= Z.of_nat (length argv)
         /\ exists w, argv !! Z.to_nat (aws_cli_optind st) = Some w
           /\ match index with
              | None => found_none st w r st'
              | Some i => hd 0 w = 45 /\ exists o, os !! i = Some o /\ found_some argv optstring st o r st'
              end)
  /\ exists rs, getopt_all (S (length argv)) argv optstring (os ++ e :: l) st = Some rs.
Proof.
  intros He Hv Hw Hi. split; [| apply getopt_all_ends; auto; lia]. destruct (Z.leb_spec (Z.of_nat (length argv)) (aws_cli_optind st)) as [Hb | Hb].
  - destruct st as [ind on oa pa]. cbn [aws_cli_optind] in *. unfold aws_cli_getopt_long. destruct (Z.leb_spec (Z.of_nat (length argv)) ind); [| lia]. eexists _, _, _. split; [reflexivity | now repeat split].
  - destruct (getopt_step os optstring e l argv st He Hv Hw) as (w & r & index & st' & Ew & E & H); [lia |]. exists r, index, st'. split; [exact E |]. split; [exact (getopt_advances _ _ _ _ _ _ _ _ H Hb) |]. exists w. now split.
Qed.

(** A subcommand is found up to the case of its letters. *)
Lemma find_command_correct arg_name table : forall i,
  match find_command arg_name i table with
  | Some k => exists j c, k = (i + j)%nat /\ table !! j = Some c /\ map to_lower arg_name = map to_lower c /\ Forall (fun c => map to_lower arg_name <> map to_lower c) (take j table)
  | None => Forall (fun c => map to_lower arg_name <> map to_lower c) table
  end.
Proof.
  induction table as [| c table IH]; intros i; cbn [find_command]; [constructor |]. destruct (decide (map to_lower arg_name = map to_lower c)) as [E | E].
  - rewrite bool_decide_true by exact E. exists O, c. split; [lia |]. split; [reflexivity |]. split; [exact E | constructor].
  - rewrite bool_decide_false by exact E. specialize (IH (S i)). destruct (find_command arg_name (S i) table) as [k |]; [| now constructor].
    destruct IH as (j & c' & -> & E1 & E2 & E3). exists (S j), c'. split; [lia |]. split; [exact E1 |]. split; [exact E2 | now constructor].
Qed.

(** ** Witnesses *)

(** [-a], [-b] or [--bee] with an argument. *)
Definition demo_options : list aws_cli_option := [mk_option None 0 97; mk_option (Some [98; 101; 101]) 1 98].
Definition demo_optstring : c_string := [97; 98; 58].
Definition options_end : aws_cli_option := mk_option None 0 0.

Lemma demo_options_ok : options_ok demo_options demo_optstring.
Proof.
  constructor.
  - repeat constructor; cbn; try lia; rewrite !elem_of_cons; auto.
  - intros [| [|]] [| [|]] o o' H1 H2; try discriminate; try reflexivity; injection H1 as <-; injection H2 as <-; discriminate.
  - intros [| [|]] [| [|]] o o' H1 H2; try discriminate; try reflexivity; injection H1 as <-; injection H2 as <-; discriminate.
Qed.

Lemma command_line_round_trip_witness :
  getopt_all 4 ([[112]; [45; 97]; [45; 45; 98; 101; 101]; [45; 97]; [120]]) demo_optstring (demo_options ++ [options_end]) aws_cli_reset_state
  = Some [(97, Some 0%nat, None, None); (98, Some 1%nat, Some [45; 97], None); (2, None, None, Some [120])].
Proof.
  apply (command_line_round_trip demo_options demo_optstring options_end [112] [Short 0 None; Long 1 (Some [45; 97]); Word [120]] demo_options_ok eq_refl).
  constructor; [eexists; split; reflexivity |]. constructor; [eexists _, _; split; [reflexivity | split; reflexivity] |]. constructor; [split; discriminate | constructor].
Defined.

Lemma getopt_correct_witness : exists rs, getopt_all 4 [[112]; [45; 122]; [120]] demo_optstring (demo_options ++ [options_end]) aws_cli_reset_state = Some rs.
Proof.
  apply (getopt_correct demo_options demo_optstring options_end [] [[112]; [45; 122]; [120]] aws_cli_reset_state).
  - reflexivity.
  - repeat constructor; discriminate.
  - repeat constructor; discriminate.
  - cbn. lia.
Defined.

(** ** Where the parser surprises *)

(** An empty argument: the byte behind its terminator is read. *)
Lemma empty_argument_reads_beyond : aws_cli_getopt_long [[112]; []] demo_optstring (demo_options ++ [options_end]) aws_cli_reset_state = None.
Proof. reflexivity. Qed.

(** An option whose value is 0, as for options that set a flag: its character is
    found at the end of [optstring], and the byte behind is read. *)
Lemma value_zero_reads_beyond : aws_cli_getopt_long [[112]; [45; 45; 102]] demo_optstring [mk_option (Some [102]) 0 0; options_end] aws_cli_reset_state = None.
Proof. reflexivity. Qed.

(** Setting [aws_cli_optind] to 1, as the header says, does not start afresh: after an
    unknown option at the end a plain word is taken for its argument. *)
Lemma optind_is_not_enough :
  (fun x => x.1.1) <$> aws_cli_getopt_long [[112]; [120]] demo_optstring (demo_options ++ [options_end]) aws_cli_reset_state = Some 2
  /\ (('(_, _, st) ← aws_cli_getopt_long [[112]; [45; 122]] demo_optstring (demo_options ++ [options_end]) aws_cli_reset_state;
       (fun x => x.1.1) <$> aws_cli_getopt_long [[112]; [120]] demo_optstring (demo_options ++ [options_end]) (mk_cli 1 (aws_cli_on_arg st) (aws_cli_optarg st) (aws_cli_positional_arg st))) = Some 63).
Proof. split; reflexivity. Qed.
