(* ===== verification/LogChannel.v ===== *)
(** * Log channels

    [source/log_channel.c]: the channels that write a line at once, and in a thread
    of its own. A line is a string of the program that is handed over; memory is
    the lines that are not destroyed yet, with their bytes, and an address is used
    once. The queue is the array list of [ArrayItems.v]. What a thread does while it
    holds the lock is one step, waiting needs a wake-up, and so does the writing of
    one line without the lock. The program does not send lines to a channel that is
    being cleaned up. *)

From S2P Require Import Prelude Math ArrayItems.

Local Open Scope Z_scope.

Module LogChannel.

Record log_world := mk_world { alive : gmap positive (list Z); written : list (list Z) }.

(** The function of the writer reads the line. *)
Definition write (line : positive) (w : log_world) : option log_world :=
  bytes ← alive w !! line; Some (mk_world (alive w) (written w ++ [bytes])).

Definition destroy_line (line : positive) (w : log_world) : option log_world :=
  _ ← alive w !! line; Some (mk_world (delete line (alive w)) (written w)).

Definition s_foreground_channel_send (line : positive) (w : log_world) : option (op_result * log_world) :=
  w ← write line w; w ← destroy_line line w; Some (AWS_OP_SUCCESS, w).

Record aws_log_background_channel := mk_background { pending_log_lines : alist positive; finished : bool }.

(** What pushing returns is not looked at. *)
Definition s_background_channel_send (impl : aws_log_background_channel) (line : positive) : aws_log_background_channel :=
  mk_background (snd (a_push_back (pending_log_lines impl) line)) (finished impl).

Definition s_background_wait (impl : aws_log_background_channel) : bool := finished impl || (0 <? a_len (pending_log_lines impl)).

(** Where the background thread is. *)
Inductive writer_point :=
| Testing
| Asleep (woken : bool)
| Writing (i line_count : Z)
| Stopped.

Record channel := mk_channel { impl : aws_log_background_channel; log_lines : alist positive; writer : writer_point; world : log_world; next_line : positive }.

(** Under the lock, once the thread has it. *)
Definition take_lines (c : channel) : channel :=
  if s_background_wait (impl c) then
    let line_count := a_len (pending_log_lines (impl c)) in
    if line_count =? 0 then mk_channel (impl c) (log_lines c) (if finished (impl c) then Stopped else Testing) (world c) (next_line c)
    else mk_channel (mk_background (log_lines c) (finished (impl c))) (pending_log_lines (impl c)) (Writing 0 line_count) (world c) (next_line c)
  else mk_channel (impl c) (log_lines c) (Asleep false) (world c) (next_line c).

(** A step of the thread: [None] while it sleeps and at its end, [Some None] when an
    assertion fails or a line is gone. *)
Definition s_background_thread_writer (c : channel) : option (option channel) :=
  match writer c with
  | Testing | Asleep true => Some (Some (take_lines c))
  | Asleep false | Stopped => None
  | Writing i line_count =>
      if i <? line_count then
        Some (match a_get_at (log_lines c) i with
              | Ok (Some line) =>
                  w ← write line (world c); w ← destroy_line line w;
                  Some (mk_channel (impl c) (log_lines c) (Writing (i + 1) line_count) w (next_line c))
              | _ => None
              end)
      else Some (Some (mk_channel (impl c) (a_clear (log_lines c)) Testing (world c) (next_line c)))
  end.

Definition wake_writer (p : writer_point) : writer_point := match p with Asleep _ => Asleep true | p => p end.

(** The program makes a line and sends it. *)
Definition send_line (bytes : list Z) (c : channel) : channel :=
  let line := next_line c in
  mk_channel (s_background_channel_send (impl c) line) (log_lines c) (wake_writer (writer c))
    (mk_world (<[line := bytes]> (alive (world c))) (written (world c))) (Pos.succ line).

(** [s_background_channel_clean_up] up to waiting for the thread. *)
Definition begin_channel_clean_up (c : channel) : channel :=
  mk_channel (mk_background (pending_log_lines (impl c)) true) (log_lines c) (wake_writer (writer c)) (world c) (next_line c).

(** A pointer takes 8 bytes. *)
Definition aws_log_channel_init_background : option channel :=
  match a_init_dynamic 10 8, a_init_dynamic 10 8 with
  | Ok pending, Ok lines => Some (mk_channel (mk_background pending false) lines Testing (mk_world ∅ []) 1)
  | _, _ => None
  end.

Inductive channel_move := Send_line (bytes : list Z) | Thread | Wake_up | Clean_up.

Definition channel_step (c : channel) (m : channel_move) : option (option channel) :=
  match m with
  | Send_line bytes => if finished (impl c) then None else Some (Some (send_line bytes c))
  | Thread => s_background_thread_writer c
  | Wake_up => match writer c with Asleep false => Some (Some (mk_channel (impl c) (log_lines c) (Asleep true) (world c) (next_line c))) | _ => None end
  | Clean_up => if finished (impl c) then None else Some (Some (begin_channel_clean_up c))
  end.

End LogChannel.
Import LogChannel.

(** ** The array lists of lines *)

Definition lines_are (l : alist positive) (ps : list positive) : Prop :=
  alist_ok l /\ a_dynamic l = true /\ a_item_size l = 8 /\ items l = map Some ps.

Lemma lines_length l ps : lines_are l ps -> a_len l = Z.of_nat (length ps).
Proof. intros (H & _ & _ & E). rewrite <- (zlength_items l H). unfold zlength. now rewrite E, length_map. Qed.

Lemma lines_push l ps p : lines_are l ps -> Z.of_nat (length ps) < 2 ^ 60 -> lines_are (snd (a_push_back l p)) (ps ++ [p]).
Proof.
  intros H Hn. pose proof (lines_length _ _ H) as El. destruct H as (H & Hd & Hi & E). pose proof (push_back_ok l p H) as Hs. unfold step_ok in Hs. cbn [list_error a_step list_step] in Hs.
  assert (grow_error l (a_len l) AWS_ERROR_LIST_EXCEEDS_MAX_SIZE = None) as Eg.
  { unfold grow_error. rewrite Hd, Hi, El. cbn [negb andb]. destruct (Z.ltb_spec SIZE_MAX ((Z.of_nat (length ps) + 1) * 8)); [unfold SIZE_MAX in *; lia | reflexivity]. }
  rewrite Eg in Hs. destruct Hs as (l' & -> & H1 & H2 & H3 & H4). cbn [snd]. split; [exact H1 |]. split; [congruence |]. split; [congruence |]. rewrite H2, E, map_app. reflexivity.
Qed.

Lemma lines_get l ps i p : lines_are l ps -> ps !! i = Some p -> a_get_at l (Z.of_nat i) = Ok (Some p).
Proof.
  intros H Hp. pose proof (lines_length _ _ H) as El. destruct H as (H & _ & _ & E). unfold a_get_at. pose proof (lookup_lt_Some _ _ _ Hp). rewrite El. destruct (Z.ltb_spec (Z.of_nat i) (Z.of_nat (length ps))); [| lia]. rewrite Nat2Z.id.
  assert (items l !! i = Some (Some p)) as Hx by (rewrite E; change (map Some ps) with (Some <$> ps); now rewrite list_lookup_fmap, Hp).
  unfold items in Hx. apply lookup_take_Some in Hx as [Hx _]. now rewrite Hx.
Qed.

Lemma lines_clear l ps : lines_are l ps -> lines_are (a_clear l) [].
Proof.
  intros (H & Hd & Hi & E). split; [unfold a_clear; apply ok_with_len; [exact H |]; pose proof (zlength_nonneg (a_slots l)); lia |]. now repeat split.
Qed.

Lemma lines_new : exists l, a_init_dynamic 10 8 = Ok l /\ lines_are l [].
Proof. eexists. split; [reflexivity |]. split; [constructor; [vm_compute; split; discriminate | reflexivity | vm_compute; discriminate] |]. now repeat split. Qed.

(** ** The invariant *)

(** The lines that wait: those the thread has taken and not written, and the queue. *)
Definition taken_lines (pt : writer_point) (ps : list positive) : list positive := match pt with Writing i _ => drop (Z.to_nat i) ps | _ => [] end.

Record channel_ok (c : channel) (sent : list (list Z)) (taken pending : list positive) : Prop := {
  co_pending : lines_are (pending_log_lines (impl c)) pending;
  co_taken : lines_are (log_lines c) taken;
  co_point : match writer c with
             | Writing i n => n = Z.of_nat (length taken) /\ 0 <= i <= n
             | Asleep false => taken = [] /\ pending = [] /\ finished (impl c) = false
             | Stopped => taken = [] /\ pending = [] /\ finished (impl c) = true
             | _ => taken = []
             end;
  co_waiting : exists bytes, Forall2 (fun p b => alive (world c) !! p = Some b) (taken_lines (writer c) taken ++ pending) bytes /\ sent = written (world c) ++ bytes;
  co_nodup : NoDup (taken_lines (writer c) taken ++ pending);
  co_alive : forall p, is_Some (alive (world c) !! p) -> p ∈ taken_lines (writer c) taken ++ pending;
  co_fresh : Forall (fun p => (p < next_line c)%positive) (taken_lines (writer c) taken ++ pending)
}.

Lemma alive_other (A A' : gmap positive (list Z)) (ps : list positive) (bytes : list (list Z)) :
  (forall p, p ∈ ps -> A' !! p = A !! p) -> Forall2 (fun p b => A !! p = Some b) ps bytes -> Forall2 (fun p b => A' !! p = Some b) ps bytes.
Proof.
  intros Hp H. induction H as [| p b ps bytes E H IH]; constructor; [rewrite Hp; [exact E | left] |]. apply IH. intros q Hq. apply Hp. now right.
Qed.

Lemma channel_init_ok : exists c, aws_log_channel_init_background = Some c /\ channel_ok c [] [] [].
Proof.
  destruct lines_new as (l & E & H). unfold aws_log_channel_init_background. rewrite E. eexists. split; [reflexivity |]. constructor; cbn; auto; [| constructor |]; [exists []; split; [constructor | reflexivity] |].
  intros p [b Hb]. now rewrite lookup_empty in Hb.
Qed.

Lemma wake_taken pt ps : taken_lines (wake_writer pt) ps = taken_lines pt ps.
Proof. now destruct pt. Qed.

Lemma waiting_length c sent taken pending : channel_ok c sent taken pending -> (length pending <= length sent)%nat.
Proof. intros H. destruct (co_waiting _ _ _ _ H) as (bytes & Hb & ->). apply Forall2_length in Hb. rewrite !length_app in *. lia. Qed.

Lemma send_kept c sent taken pending bytes : channel_ok c sent taken pending -> finished (impl c) = false -> Z.of_nat (length sent) < 2 ^ 60 ->
  channel_ok (send_line bytes c) (sent ++ [bytes]) taken (pending ++ [next_line c]).
Proof.
  intros H Hf Hn. pose proof (waiting_length _ _ _ _ H) as Hlen. destruct H as [H1 H2 H3 (bs & H4 & H5) H6 H7 H8]. set (p := next_line c) in *.
  assert (p ∉ taken_lines (writer c) taken ++ pending) as Hp by (intros Hin; rewrite Forall_forall in H8; specialize (H8 _ Hin); lia).
  constructor; unfold send_line, s_background_channel_send; cbn [impl pending_log_lines finished log_lines writer world alive written next_line]; rewrite ?wake_taken, ?app_assoc.
  - apply lines_push; [exact H1 | lia].
  - exact H2.
  - destruct (writer c) as [| [] | |]; cbn; auto; [apply H3 | destruct H3 as (_ & _ & H3); congruence].
  - exists (bs ++ [bytes]). split; [| now rewrite H5, app_assoc]. apply Forall2_app; [| constructor; [apply lookup_insert_eq | constructor]].
    apply (alive_other (alive (world c))); [| exact H4]. intros q Hq. rewrite lookup_insert_ne; [reflexivity |]. intros <-. exact (Hp Hq).
  - apply NoDup_app. split; [exact H6 |]. split; [intros q Hq Hq'; apply list_elem_of_singleton in Hq' as ->; exact (Hp Hq) | apply NoDup_singleton].
  - intros q Hq. rewrite elem_of_app. destruct (decide (q = p)) as [-> | Hne]; [right; left |]. left. apply H7. now rewrite lookup_insert_ne in Hq by auto.
  - apply Forall_app. split; [apply (Forall_impl _ _ _ H8); intros; lia | repeat constructor; lia].
Qed.

Lemma clean_up_kept c sent taken pending : channel_ok c sent taken pending -> finished (impl c) = false -> channel_ok (begin_channel_clean_up c) sent taken pending.
Proof.
  intros [H1 H2 H3 H4 H5 H6 H7] Hf. constructor; unfold begin_channel_clean_up; cbn [impl pending_log_lines finished log_lines writer world next_line]; rewrite ?wake_taken; auto.
  destruct (writer c) as [| [] | |]; cbn; auto; [apply H3 | destruct H3 as (_ & _ & H3); congruence].
Qed.

Lemma take_kept c sent taken pending : channel_ok c sent taken pending -> writer c = Testing \/ writer c = Asleep true ->
  exists taken' pending', channel_ok (take_lines c) sent taken' pending' /\ next_line (take_lines c) = next_line c.
Proof.
  intros [H1 H2 H3 H4 H5 H6 H7] Hw. assert (taken = []) as -> by (destruct Hw as [E | E]; rewrite E in H3; exact H3).
  assert (taken_lines (writer c) [] = []) as Et by (destruct Hw as [E | E]; now rewrite E). rewrite Et in *. cbn [app] in *.
  pose proof (lines_length _ _ H1) as El. unfold take_lines, s_background_wait. rewrite El. destruct (finished (impl c)) eqn:Ef; cbn [orb].
  - destruct pending as [| p ps]; cbn [length Z.of_nat Z.eqb Z.ltb Z.compare]; [exists [], []; split; [| reflexivity]; constructor; cbn [impl pending_log_lines finished log_lines writer world next_line taken_lines app]; now auto |].
    destruct (Z.eqb_spec (Z.of_nat (S (length ps))) 0); [lia |]. exists (p :: ps), []. split; [| reflexivity].
    constructor; cbn [impl pending_log_lines finished log_lines writer world next_line taken_lines]; rewrite ?app_nil_r; auto. cbn. lia.
  - destruct pending as [| p ps]; cbn [length Z.of_nat Z.eqb Z.ltb Z.compare]; [exists [], []; split; [| reflexivity]; constructor; cbn [impl pending_log_lines finished log_lines writer world next_line taken_lines app]; now auto |].
    destruct (Z.ltb_spec 0 (Z.of_nat (S (length ps)))); [| lia]. destruct (Z.eqb_spec (Z.of_nat (S (length ps))) 0); [lia |]. exists (p :: ps), []. split; [| reflexivity].
    constructor; cbn [impl pending_log_lines finished log_lines writer world next_line taken_lines]; rewrite ?app_nil_r; auto. cbn. lia.
Qed.

(** One line is written and destroyed. *)
Lemma write_kept c sent taken pending i n : channel_ok c sent taken pending -> writer c = Writing i n -> i < n ->
  exists c', s_background_thread_writer c = Some (Some c') /\ channel_ok c' sent taken pending /\ writer c' = Writing (i + 1) n /\ impl c' = impl c.
Proof.
  intros [H1 H2 H3 (bs & H4 & H5) H6 H7 H8] Hw Hi. rewrite Hw in *. destruct H3 as [-> H3]. destruct (lookup_lt_is_Some_2 taken (Z.to_nat i)) as [p Hp]; [lia |].
  unfold s_background_thread_writer. rewrite Hw. destruct (Z.ltb_spec i (Z.of_nat (length taken))); [| lia]. pose proof (lines_get _ _ _ _ H2 Hp) as Hg. rewrite Z2Nat.id in Hg by lia. rewrite Hg.
  cbn [taken_lines] in *. rewrite (drop_S _ _ _ Hp) in *. cbn [app] in *. apply Forall2_cons_inv_l in H4 as (b & bs' & E1 & H4 & ->). apply NoDup_cons in H6 as [Hnin H6]. apply Forall_cons in H8 as [_ H8].
  unfold write, destroy_line. rewrite E1. cbn [mbind option_bind alive]. rewrite E1. cbn [mbind option_bind]. eexists. split; [reflexivity |]. split; [| now split].
  constructor; cbn [impl pending_log_lines finished log_lines writer world alive written next_line taken_lines]; replace (Z.to_nat (i + 1)) with (S (Z.to_nat i)) by lia; auto; [lia | |].
  - exists bs'. split; [| rewrite H5; now rewrite <- app_assoc]. apply (alive_other (alive (world c))); [| exact H4]. intros q Hq. rewrite lookup_delete_ne; [reflexivity |]. intros <-. exact (Hnin Hq).
  - intros q Hq. destruct (decide (q = p)) as [-> | Hne]; [rewrite lookup_delete_eq in Hq; now destruct Hq |]. rewrite lookup_delete_ne in Hq by auto. specialize (H7 q Hq). apply elem_of_cons in H7 as [-> | H7]; [contradiction | exact H7].
Qed.

Lemma written_kept c sent taken pending i n : channel_ok c sent taken pending -> writer c = Writing i n -> n <= i ->
  exists c', s_background_thread_writer c = Some (Some c') /\ channel_ok c' sent [] pending /\ writer c' = Testing /\ impl c' = impl c.
Proof.
  intros [H1 H2 H3 H4 H6 H7 H8] Hw Hi. rewrite Hw in *. destruct H3 as [-> H3]. unfold s_background_thread_writer. rewrite Hw. destruct (Z.ltb_spec i (Z.of_nat (length taken))); [lia |].
  cbn [taken_lines] in *. rewrite drop_ge in * by lia. eexists. split; [reflexivity |]. split; [| now split]. constructor; cbn; auto. exact (lines_clear _ _ H2).
Qed.

Lemma thread_kept c sent taken pending o : channel_ok c sent taken pending -> s_background_thread_writer c = Some o -> exists c' taken' pending', o = Some c' /\ channel_ok c' sent taken' pending' /\ finished (impl c') = finished (impl c).
Proof.
  intros H E. destruct (writer c) as [| [] | i n |] eqn:Ew.
  - unfold s_background_thread_writer in E. rewrite Ew in E. injection E as <-. destruct (take_kept _ _ _ _ H (or_introl Ew)) as (t & p & H' & _). exists (take_lines c), t, p. split; [reflexivity |]. split; [exact H' |]. unfold take_lines. repeat (case_match; try reflexivity).
  - unfold s_background_thread_writer in E. rewrite Ew in E. injection E as <-. destruct (take_kept _ _ _ _ H (or_intror Ew)) as (t & p & H' & _). exists (take_lines c), t, p. split; [reflexivity |]. split; [exact H' |]. unfold take_lines. repeat (case_match; try reflexivity).
  - unfold s_background_thread_writer in E. rewrite Ew in E. discriminate.
  - destruct (Z.lt_ge_cases i n) as [Hi | Hi]; [destruct (write_kept _ _ _ _ _ _ H Ew Hi) as (c' & E' & H' & _ & Ei) | destruct (written_kept _ _ _ _ _ _ H Ew Hi) as (c' & E' & H' & _ & Ei)];
      rewrite E' in E; injection E as <-; eexists c', _, _; (split; [reflexivity |]); (split; [exact H' |]); now rewrite Ei.
  - unfold s_background_thread_writer in E. rewrite Ew in E. discriminate.
Qed.

(** ** All interleavings *)

Inductive channel_run (c0 : channel) : list channel_move -> channel -> Prop :=
| channel_new : channel_run c0 [] c0
| channel_moves mvs c m c' : channel_run c0 mvs c -> channel_step c m = Some (Some c') -> channel_run c0 (mvs ++ [m]) c'.

Definition sent_by (mvs : list channel_move) : list (list Z) := omap (fun m => match m with Send_line b => Some b | _ => None end) mvs.

Definition cleaned_up (mvs : list channel_move) : bool := existsb (fun m => match m with Clean_up => true | _ => false end) mvs.

Lemma sent_by_snoc mvs m : sent_by (mvs ++ [m]) = sent_by mvs ++ match m with Send_line b => [b] | _ => [] end.
Proof. unfold sent_by. rewrite omap_app. now destruct m. Qed.

Lemma sent_by_length mvs : (length (sent_by mvs) <= length mvs)%nat.
Proof. unfold sent_by. induction mvs as [| [] mvs IH]; cbn in *; lia. Qed.

Lemma step_keeps c sent taken pending m o : channel_ok c sent taken pending -> Z.of_nat (length sent) < 2 ^ 60 -> channel_step c m = Some o ->
  exists c' taken' pending', o = Some c' /\ channel_ok c' (sent ++ match m with Send_line b => [b] | _ => [] end) taken' pending'
    /\ finished (impl c') = finished (impl c) || match m with Clean_up => true | _ => false end.
Proof.
  intros H Hn E. destruct m as [bytes | | |]; cbn [channel_step] in E; rewrite ?app_nil_r, ?orb_false_r.
  - destruct (finished (impl c)) eqn:Ef; [discriminate |]. injection E as <-. eexists _, _, _. split; [reflexivity |]. split; [exact (send_kept _ _ _ _ _ H Ef Hn) | exact Ef].
  - exact (thread_kept _ _ _ _ _ H E).
  - destruct (writer c) as [| [] | |] eqn:Ew; try discriminate. injection E as <-. eexists _, taken, pending. split; [reflexivity |]. split; [| reflexivity].
    destruct H as [H1 H2 H3 H4 H5 H6 H7]. rewrite Ew in *. constructor; cbn [impl pending_log_lines finished log_lines writer world next_line taken_lines] in *; auto. apply H3.
  - destruct (finished (impl c)) eqn:Ef; [discriminate |]. injection E as <-. eexists _, _, _. split; [reflexivity |]. split; [exact (clean_up_kept _ _ _ _ H Ef) | reflexivity].
Qed.

Lemma run_keeps c0 mvs c : channel_ok c0 [] [] [] -> finished (impl c0) = false -> channel_run c0 mvs c -> Z.of_nat (length mvs) < 2 ^ 60 ->
  exists taken pending, channel_ok c (sent_by mvs) taken pending /\ finished (impl c) = cleaned_up mvs.
Proof.
  intros H0 Hf Hrun. induction Hrun as [| mvs c m c' Hrun IH E]; intros Hn; [now exists [], [] |]. rewrite length_app in Hn. cbn in Hn. destruct (IH ltac:(lia)) as (t & p & H & Hfin). pose proof (sent_by_length mvs).
  destruct (step_keeps _ _ _ _ m _ H ltac:(lia) E) as (c1 & t' & p' & [= <-] & H' & Ef). exists t', p'. rewrite sent_by_snoc. split; [exact H' |].
  rewrite Ef, Hfin. unfold cleaned_up. rewrite existsb_app. cbn. now rewrite orb_false_r.
Qed.

Fixpoint thread_run (k : nat) (c : channel) : option channel :=
  match k with
  | O => Some c
  | S k => match s_background_thread_writer c with Some (Some c) => thread_run k c | _ => None end
  end.

(** The steps that are left once the channel is being cleaned up. *)
Definition steps_left (c : channel) : nat :=
  let p := Z.to_nat (a_len (pending_log_lines (impl c))) in
  let rest := match p with O => 1 | _ => p + 3 end%nat in
  match writer c with
  | Testing | Asleep _ => rest
  | Writing i n => Z.to_nat (n - i) + 1 + rest
  | Stopped => O
  end.

Lemma thread_ends n : forall c sent taken pending, (steps_left c <= n)%nat -> channel_ok c sent taken pending -> finished (impl c) = true ->
  exists k c', (k <= n)%nat /\ thread_run k c = Some c' /\ writer c' = Stopped /\ channel_ok c' sent [] [].
Proof.
  induction n as [| n IH]; intros c sent taken pending Hn H Hf.
  - exists O, c. split; [lia |]. split; [reflexivity |]. unfold steps_left in Hn. pose proof (co_point _ _ _ _ H) as Hp.
    destruct (writer c) as [| [] | |] eqn:Ew; try (destruct (Z.to_nat (a_len (pending_log_lines (impl c)))); cbn in Hn; lia). destruct Hp as (-> & -> & _). now split.
  - pose proof (co_point _ _ _ _ H) as Hp. pose proof (lines_length _ _ (co_pending _ _ _ _ H)) as El.
    assert (forall c', s_background_thread_writer c = Some (Some c') -> (exists t p, channel_ok c' sent t p) -> finished (impl c') = true -> (steps_left c' < steps_left c)%nat ->
      exists k c'', (k <= S n)%nat /\ thread_run k c = Some c'' /\ writer c'' = Stopped /\ channel_ok c'' sent [] []) as Hgo.
    { intros c' E (t & p & H') Hf' Hs. destruct (IH c' _ _ _ ltac:(lia) H' Hf') as (k & c'' & Hk & E2 & E3 & E4). exists (S k), c''. split; [lia |]. split; [cbn [thread_run]; now rewrite E | now split]. }
    assert (forall c', take_lines c = c' -> s_background_thread_writer c = Some (Some (take_lines c)) -> writer c = Testing \/ writer c = Asleep true ->
      exists k c'', (k <= S n)%nat /\ thread_run k c = Some c'' /\ writer c'' = Stopped /\ channel_ok c'' sent [] []) as Htake.
    { intros c' <- E Hw. destruct (take_kept _ _ _ _ H Hw) as (t & p & H' & _). apply (Hgo _ E); [now exists t, p | unfold take_lines; repeat (case_match; try exact Hf) |].
      assert (steps_left c = match length pending with O => 1 | _ => length pending + 3 end)%nat as -> by (unfold steps_left; rewrite El, Nat2Z.id; destruct Hw as [-> | ->]; reflexivity).
      unfold take_lines, s_background_wait. rewrite Hf, El. cbn [orb]. destruct pending as [| q ps]; cbn [length]; [change (Z.of_nat 0 =? 0) with true; cbv iota; unfold steps_left; cbn [writer]; lia |]. destruct (Z.eqb_spec (Z.of_nat (S (length ps))) 0); [lia |].
      assert (taken = []) as -> by (destruct Hw as [Ew | Ew]; rewrite Ew in Hp; exact Hp). pose proof (lines_length _ _ (co_taken _ _ _ _ H)) as El'. unfold steps_left. cbn [impl writer pending_log_lines]. rewrite El'. change (Z.to_nat (Z.of_nat (length (@nil positive)))) with O. cbv iota. lia. }
    destruct (writer c) as [| [] | i m |] eqn:Ew.
    + apply (Htake _ eq_refl); [unfold s_background_thread_writer; now rewrite Ew | now left].
    + apply (Htake _ eq_refl); [unfold s_background_thread_writer; now rewrite Ew | now right].
    + destruct Hp as (_ & _ & Hp). congruence.
    + destruct (Z.lt_ge_cases i m) as [Hi | Hi]; [destruct (write_kept _ _ _ _ _ _ H Ew Hi) as (c' & E & H' & Ew' & Ei) | destruct (written_kept _ _ _ _ _ _ H Ew Hi) as (c' & E & H' & Ew' & Ei)];
        (apply (Hgo _ E); [eexists _, _; exact H' | rewrite Ei; exact Hf |]); unfold steps_left; rewrite Ew, Ew', Ei; lia.
    + exists O, c. split; [lia |]. split; [reflexivity |]. destruct Hp as (-> & -> & _). now split.
Qed.

(** A line sent to a foreground channel is written and destroyed at once. *)
Lemma foreground_send line bytes w : alive w !! line = Some bytes ->
  s_foreground_channel_send line w = Some (AWS_OP_SUCCESS, mk_world (delete line (alive w)) (written w ++ [bytes])).
Proof. intros E. unfold s_foreground_channel_send, write, destroy_line. rewrite E. cbn. now rewrite E. Qed.

(** C34: A background channel, in any interleaving of the threads that send lines, the
    writing thread and cleaning up: no step goes wrong; the lines written are the
    lines sent, in order, up to those that still wait, and the lines that are not
    destroyed are exactly the waiting ones. Once cleaning up has begun the thread
    ends within a bounded number of steps of its own, without another wake-up; then
    every line was written, once, and destroyed. *)
Theorem log_channel_delivers c0 mvs c :
  aws_log_channel_init_background = Some c0 -> channel_run c0 mvs c -> Z.of_nat (length mvs) < 2 ^ 60 ->
  (exists waiting ps, sent_by mvs = written (world c) ++ waiting /\ NoDup ps /\ Forall2 (fun p b => alive (world c) !! p = Some b) ps waiting /\ forall p, is_Some (alive (world c) !! p) -> p ∈ ps)
  /\ (forall m o, channel_step c m = Some o -> exists c', o = Some c')
  /\ (cleaned_up mvs = true -> exists k c', (k <= steps_left c)%nat /\ thread_run k c = Some c' /\ writer c' = Stopped /\ written (world c') = sent_by mvs /\ alive (world c') = ∅).
Proof.
  intros E0 Hrun Hn. destruct channel_init_ok as (c1 & E1 & H0). rewrite E0 in E1. injection E1 as <-. pose proof (sent_by_length mvs) as Hl.
  assert (finished (impl c0) = false) as Hf0 by (revert E0; unfold aws_log_channel_init_background; repeat (case_match; try discriminate); intros [= <-]; reflexivity).
  destruct (run_keeps _ _ _ H0 Hf0 Hrun Hn) as (t & p & H & Hf). split; [| split].
  - destruct (co_waiting _ _ _ _ H) as (bs & Hb & Es). exists bs, (taken_lines (writer c) t ++ p). split; [exact Es |]. split; [exact (co_nodup _ _ _ _ H) |]. split; [exact Hb | exact (co_alive _ _ _ _ H)].
  - intros m o E. destruct (step_keeps _ _ _ _ m o H ltac:(lia) E) as (c' & _ & _ & -> & _). now exists c'.
  - intros Hc. rewrite Hc in Hf. destruct (thread_ends (steps_left c) c _ _ _ ltac:(lia) H Hf) as (k & c' & Hk & E & Ew & H'). exists k, c'. split; [exact Hk |]. split; [exact E |]. split; [exact Ew |].
    destruct (co_waiting _ _ _ _ H') as (bs & Hb & Es). pose proof (co_alive _ _ _ _ H') as Ha. rewrite Ew in *. cbn in *. apply Forall2_nil_inv_l in Hb as ->. rewrite app_nil_r in Es. split; [easy |].
    apply map_eq. intros q. rewrite lookup_empty. destruct (alive (world c') !! q) as [b |] eqn:Eq; [| reflexivity]. exfalso. specialize (Ha q (ex_intro _ b Eq)). now apply elem_of_nil in Ha.
Qed.

(** ** Witnesses *)

Fixpoint play_moves (c : channel) (mvs : list channel_move) : option channel :=
  match mvs with
  | [] => Some c
  | m :: mvs => match channel_step c m with Some (Some c) => play_moves c mvs | _ => None end
  end.

Lemma play_moves_run c0 pre c mvs c' : channel_run c0 pre c -> play_moves c mvs = Some c' -> channel_run c0 (pre ++ mvs) c'.
Proof.
  revert pre c. induction mvs as [| m mvs IH]; intros pre c H E; cbn [play_moves] in E; [injection E as <-; now rewrite app_nil_r |].
  destruct (channel_step c m) as [[c1 |] |] eqn:Em; try discriminate. replace (pre ++ m :: mvs) with ((pre ++ [m]) ++ mvs) by now rewrite <- app_assoc. exact (IH _ c1 (channel_moves _ _ _ _ _ H Em) E).
Qed.

(** The thread falls asleep, is woken by a line, and another line comes while it
    writes. *)
Definition demo_channel_moves : list channel_move := [Thread; Send_line [1]; Thread; Send_line [2; 2]; Thread; Clean_up].

Lemma log_channel_delivers_witness :
  exists c0 c k c', aws_log_channel_init_background = Some c0 /\ channel_run c0 demo_channel_moves c /\ written (world c) = [[1]]
    /\ thread_run k c = Some c' /\ written (world c') = [[1]; [2; 2]] /\ alive (world c') = ∅.
Proof.
  destruct (aws_log_channel_init_background) as [c0 |] eqn:E0; [| discriminate].
  assert ((fun c => written (world c)) <$> (c0 ← aws_log_channel_init_background; play_moves c0 demo_channel_moves) = Some [[1]]) as Ep by (vm_compute; reflexivity).
  rewrite E0 in Ep. cbn [mbind option_bind] in Ep. destruct (play_moves c0 demo_channel_moves) as [c |] eqn:Ec; [| discriminate]. injection Ep as Ep.
  pose proof (play_moves_run _ [] _ _ _ (channel_new _) Ec) as Hrun. cbn [app] in Hrun.
  destruct (log_channel_delivers _ _ _ E0 Hrun) as (_ & _ & Hend); [vm_compute; reflexivity |]. destruct (Hend eq_refl) as (k & c' & _ & E1 & _ & E2 & E3).
  exists c0, c, k, c'. split; [reflexivity |]. split; [exact Hrun |]. split; [exact Ep |]. split; [exact E1 |]. split; [exact E2 | exact E3].
Defined.
