(* ===== verification/Registries.v ===== *)
(** * Error codes, log subjects and log levels

    [source/error.c], [error.inl], and the parts of [source/logging.c] that look
    names up. Both registries have a slot per library for 1024 consecutive codes.
    A text is the list of its bytes; [errno] values are named, since their numbers
    are the platform's. The release build is modelled, in which the order of the
    codes in a list is not looked at. *)

From S2P Require Import Prelude Math ByteOrder Memory ByteBuf.
Import ByteBuf.

Local Open Scope Z_scope.

Module Registries.

Definition AWS_ERROR_ENUM_STRIDE_BITS : Z := 10.
Definition AWS_ERROR_ENUM_STRIDE : Z := Z.shiftl 1 AWS_ERROR_ENUM_STRIDE_BITS.
Definition AWS_PACKAGE_SLOTS : Z := 16.
Definition SLOT_MASK : Z := AWS_ERROR_ENUM_STRIDE - 1.
Definition MAX_ERROR_CODE : Z := AWS_ERROR_ENUM_STRIDE * AWS_PACKAGE_SLOTS.

Abbreviation text := (list Z).

Record aws_error_info := mk_info { error_code : Z; literal_name : text; error_str : text; lib_name : text; formatted_name : text }.

Record aws_log_subject_info := mk_subject { subject_id : Z; subject_name : text; subject_description : text }.

(** ** Slots

    [ERROR_SLOTS] and [s_log_subject_slots]: [None] for NULL. *)
Section slots.
Context {E : Type}.
Abbreviation slots := (list (option (list E))).

Definition no_lists : slots := replicate (Z.to_nat AWS_PACKAGE_SLOTS) None.

(** The entry of a code that is in range; [None] reads outside an array. *)
Definition entry_at (s : slots) (code : Z) : option (option E) :=
  let slot_index := Z.shiftr code AWS_ERROR_ENUM_STRIDE_BITS in
  let index := Z.land code SLOT_MASK in
  slot ← zlookup s slot_index;
  match slot with
  | None => Some None
  | Some l => if zlength l <=? index then Some None else e ← zlookup l index; Some (Some e)
  end.

(** [None]: an assertion stops the process. *)
Definition set_slot (first_code : E -> Z) (s : slots) (l : list E) (x : option (list E)) : option slots :=
  match l with
  | [] => None
  | e :: _ =>
      let slot_index := Z.shiftr (first_code e) AWS_ERROR_ENUM_STRIDE_BITS in
      if (AWS_PACKAGE_SLOTS <=? slot_index) || (slot_index <? 0) then None else Some (<[Z.to_nat slot_index := x]> s)
  end.
End slots.

Abbreviation error_slots := (list (option (list aws_error_info))).
Abbreviation subject_slots := (list (option (list aws_log_subject_info))).

Definition get_error_by_code (s : error_slots) (err : Z) : option (option aws_error_info) :=
  if (MAX_ERROR_CODE <=? err) || (err <? 0) then Some None else entry_at s err.

Definition unknown_code : text := [85; 110; 107; 110; 111; 119; 110; 32; 69; 114; 114; 111; 114; 32; 67; 111; 100; 101].

Definition error_text (f : aws_error_info -> text) (s : error_slots) (err : Z) : option text :=
  info ← get_error_by_code s err; Some (match info with Some i => f i | None => unknown_code end).

Definition aws_error_str := error_text error_str.
Definition aws_error_name := error_text literal_name.
Definition aws_error_lib_name := error_text lib_name.
Definition aws_error_debug_str := error_text formatted_name.

Definition aws_register_error_info (s : error_slots) (l : list aws_error_info) : option error_slots := set_slot error_code s l (Some l).
Definition aws_unregister_error_info (s : error_slots) (l : list aws_error_info) : option error_slots := set_slot error_code s l None.

Definition S_MAX_LOG_SUBJECT : Z := u32 (AWS_ERROR_ENUM_STRIDE * AWS_PACKAGE_SLOTS - 1).

Definition s_get_log_subject_info_by_id (s : subject_slots) (subject : Z) : option (option aws_log_subject_info) :=
  if S_MAX_LOG_SUBJECT <? subject then Some None else entry_at s subject.

Definition aws_log_subject_name (s : subject_slots) (subject : Z) : option text :=
  info ← s_get_log_subject_info_by_id s subject; Some (match info with Some i => subject_name i | None => [85; 110; 107; 110; 111; 119; 110] end).

Definition aws_register_log_subject_info_list (s : subject_slots) (l : list aws_log_subject_info) : option subject_slots := set_slot subject_id s l (Some l).
Definition aws_unregister_log_subject_info_list (s : subject_slots) (l : list aws_log_subject_info) : option subject_slots := set_slot subject_id s l None.

(** ** The last error of a thread

    A handler with the argument it gets; what a handler does is the program's. *)
Record error_state := mk_error_state { tl_last_error : Z; tl_thread_handler : option Z * Z; s_global_handler : option Z * Z }.

Definition aws_last_error (st : error_state) : Z := tl_last_error st.

(** The handler that is called, with the code and its argument. *)
Definition aws_raise_error_private (st : error_state) (err : Z) : option (Z * Z * Z) * error_state :=
  let st := mk_error_state err (tl_thread_handler st) (s_global_handler st) in
  match tl_thread_handler st, s_global_handler st with
  | (Some h, ctx), _ => (Some (h, err, ctx), st)
  | _, (Some h, ctx) => (Some (h, err, ctx), st)
  | _, _ => (None, st)
  end.

Definition aws_reset_error (st : error_state) : error_state := mk_error_state 0 (tl_thread_handler st) (s_global_handler st).
Definition aws_restore_error (st : error_state) (err : Z) : error_state := mk_error_state err (tl_thread_handler st) (s_global_handler st).

(** The old handler is returned. *)
Definition aws_set_global_error_handler_fn (st : error_state) (handler : option Z) (ctx : Z) : option Z * error_state :=
  (fst (s_global_handler st), mk_error_state (tl_last_error st) (tl_thread_handler st) (handler, ctx)).
Definition aws_set_thread_local_error_handler_fn (st : error_state) (handler : option Z) (ctx : Z) : option Z * error_state :=
  (fst (tl_thread_handler st), mk_error_state (tl_last_error st) (handler, ctx) (s_global_handler st)).

Inductive errno := EINVAL | ESPIPE | EPERM | EACCES | EISDIR | ENAMETOOLONG | ENOENT | ENFILE | ENOMEM | ENOSPC | Other_errno.

Definition aws_translate_and_raise_io_error (error_no : errno) : op_result :=
  match error_no with
  | EINVAL => aws_raise_error AWS_ERROR_INVALID_ARGUMENT
  | ESPIPE => aws_raise_error AWS_ERROR_STREAM_UNSEEKABLE
  | EPERM | EACCES => aws_raise_error AWS_ERROR_NO_PERMISSION
  | EISDIR | ENAMETOOLONG | ENOENT => aws_raise_error AWS_ERROR_FILE_INVALID_PATH
  | ENFILE => aws_raise_error AWS_ERROR_MAX_FDS_EXCEEDED
  | ENOMEM => aws_raise_error AWS_ERROR_OOM
  | ENOSPC => aws_raise_error AWS_ERROR_NO_SPACE
  | Other_errno => aws_raise_error AWS_ERROR_SYS_CALL_FAILURE
  end.

(** ** Log levels *)

(** NONE, FATAL, ERROR, WARN, INFO, DEBUG, TRACE. *)
Definition s_log_level_strings : list text :=
  [[78; 79; 78; 69]; [70; 65; 84; 65; 76]; [69; 82; 82; 79; 82]; [87; 65; 82; 78]; [73; 78; 70; 79]; [68; 69; 66; 85; 71]; [84; 82; 65; 67; 69]].

Definition aws_log_level_to_string (log_level : Z) : option text := if log_level <? 7 then zlookup s_log_level_strings log_level else None.

Fixpoint find_level (i : Z) (names : list text) (level_string : text) : result Z :=
  match names with
  | [] => Err AWS_ERROR_INVALID_ARGUMENT
  | n :: names => if bool_decide (map to_lower level_string = map to_lower n) then Ok i else find_level (i + 1) names level_string
  end.

Definition aws_string_to_log_level (level_string : option text) : result Z :=
  match level_string with Some s => find_level 0 s_log_level_strings s | None => Err AWS_ERROR_INVALID_ARGUMENT end.

End Registries.
Import Registries.

(** ** Histories of registrations *)

Section histories.
Context {E : Type} (code : E -> Z).
Implicit Types (l : list E) (s : list (option (list E))).

Inductive slot_op := Register (l : list E) | Unregister (l : list E).

Definition slot_step (s : list (option (list E))) (op : slot_op) : option (list (option (list E))) :=
  match op with Register l => set_slot code s l (Some l) | Unregister l => set_slot code s l None end.

Fixpoint slot_steps (s : list (option (list E))) (ops : list slot_op) : option (list (option (list E))) :=
  match ops with [] => Some s | op :: ops => s ← slot_step s op; slot_steps s ops end.

(** A list of consecutive codes from the first one of a slot. *)
Definition list_ok (l : list E) (slot : Z) : Prop :=
  0 <= slot < 16 /\ l <> [] /\ (length l <= 1024)%nat /\ forall i e, l !! i = Some e -> code e = 1024 * slot + Z.of_nat i.

Definition op_list (op : slot_op) : list E := match op with Register l | Unregister l => l end.

Definition op_slot (op : slot_op) : Z := match op_list op with [] => 0 | e :: _ => code e / 1024 end.

(** What a slot holds after a history. *)
Definition registered (ops : list slot_op) (slot : Z) : option (list E) :=
  foldl (fun r op => if op_slot op =? slot then match op with Register l => Some l | Unregister _ => None end else r) None ops.

Definition find_code (l : list E) (c : Z) : option E := List.find (fun e => code e =? c) l.

Lemma find_code_lookup l slot c : list_ok l slot -> c / 1024 = slot -> find_code l c = l !! Z.to_nat (c mod 1024).
Proof.
  intros (Hs & _ & Hl & Hc) E'. pose proof (Z.div_mod c 1024 ltac:(lia)) as Hd. rewrite E' in Hd. pose proof (Z.mod_pos_bound c 1024 ltac:(lia)).
  assert (forall k l', (forall i e, l' !! i = Some e -> code e = 1024 * slot + k + Z.of_nat i) -> k <= c mod 1024 -> find_code l' c = l' !! Z.to_nat (c mod 1024 - k)) as H1.
  { intros k l'. revert k. induction l' as [| e l' IH]; intros k H' Hk; [reflexivity |]. unfold find_code. cbn [List.find]. pose proof (H' O e eq_refl) as He. cbn in He. destruct (Z.eqb_spec (code e) c) as [Ec | Ec].
    - assert (c mod 1024 - k = 0) as -> by lia. reflexivity.
    - change (find_code l' c = (e :: l') !! Z.to_nat (c mod 1024 - k)). rewrite (IH (k + 1)); [| intros i e' Hi; specialize (H' (S i) e' Hi); lia | lia].
      replace (Z.to_nat (c mod 1024 - k)) with (S (Z.to_nat (c mod 1024 - (k + 1)))) by lia. reflexivity. }
  rewrite (H1 0); [f_equal; lia | intros i e Hi; rewrite (Hc i e Hi); lia | lia].
Qed.

Lemma slot_step_ok s op slot : list_ok (op_list op) slot -> length s = 16%nat ->
  op_slot op = slot /\ slot_step s op = Some (<[Z.to_nat slot := match op with Register l => Some l | Unregister _ => None end]> s).
Proof.
  intros (Hs & Hn & _ & Hc) Hl. unfold op_slot. assert (forall l x, l = op_list op -> set_slot code s l x = Some (<[Z.to_nat slot := x]> s)) as Hset.
  { intros l x ->. unfold set_slot. destruct (op_list op) as [| e l]; [contradiction |]. pose proof (Hc O e eq_refl) as He. cbn in He. rewrite He.
    rewrite Z.shiftr_div_pow2 by (unfold AWS_ERROR_ENUM_STRIDE_BITS; lia). change (2 ^ AWS_ERROR_ENUM_STRIDE_BITS) with 1024. replace (1024 * slot + Z.of_nat 0) with (slot * 1024) by lia. rewrite Z.div_mul by lia.
    unfold AWS_PACKAGE_SLOTS. destruct (Z.leb_spec 16 slot), (Z.ltb_spec slot 0); try lia. reflexivity. }
  split.
  - destruct (op_list op) as [| e l]; [contradiction |]. rewrite (Hc O e eq_refl). replace (1024 * slot + Z.of_nat 0) with (slot * 1024) by lia. now rewrite Z.div_mul.
  - destruct op; now apply Hset.
Qed.

Lemma registered_snoc ops op slot : registered (ops ++ [op]) slot = if op_slot op =? slot then match op with Register l => Some l | Unregister _ => None end else registered ops slot.
Proof. unfold registered. now rewrite foldl_app. Qed.

Lemma slot_steps_snoc s ops op : slot_steps s (ops ++ [op]) = s ← slot_steps s ops; slot_step s op.
Proof. revert s. induction ops as [| o ops IH]; intros s; cbn; [now destruct (slot_step s op) |]. destruct (slot_step s o); cbn; [apply IH | reflexivity]. Qed.

Lemma slots_after ops : Forall (fun op => exists slot, list_ok (op_list op) slot) ops ->
  exists s, slot_steps no_lists ops = Some s /\ length s = 16%nat
    /\ forall slot, 0 <= slot < 16 -> zlookup s slot = Some (registered ops slot) /\ forall l, registered ops slot = Some l -> list_ok l slot.
Proof.
  induction ops as [| op ops IH] using rev_ind; intros H.
  - exists no_lists. split; [reflexivity |]. split; [reflexivity |]. intros slot Hs. split; [| discriminate]. unfold zlookup, no_lists. destruct (Z.leb_spec 0 slot); [| lia]. rewrite lookup_replicate_2; [reflexivity | unfold AWS_PACKAGE_SLOTS; lia].
  - apply Forall_app in H as [H Hop]. apply Forall_singleton in Hop as [k Hk]. destruct (IH H) as (s & Es & Hl & Hs). destruct (slot_step_ok s op k Hk Hl) as [Eo Est].
    eexists. split; [rewrite slot_steps_snoc, Es; cbn; exact Est |]. split; [now rewrite length_insert |]. intros slot Hslot. rewrite registered_snoc, Eo. destruct (Hs slot Hslot) as [H1 H2]. unfold zlookup in *. destruct (Z.leb_spec 0 slot); [| lia].
    destruct (Z.eqb_spec k slot) as [-> | Hne].
    + split; [apply list_lookup_insert_eq; lia |]. intros l El. destruct op; [injection El as <-; exact Hk | discriminate].
    + destruct Hk as [Hk _]. split; [| exact H2]. rewrite list_lookup_insert_ne; [exact H1 | lia].
Qed.

Lemma entry_after ops s c : slot_steps no_lists ops = Some s -> Forall (fun op => exists slot, list_ok (op_list op) slot) ops -> 0 <= c < 16384 ->
  entry_at s c = Some (registered ops (c / 1024) ≫= fun l => find_code l c).
Proof.
  intros Es H Hc. destruct (slots_after ops H) as (s' & Es' & _ & Hs). rewrite Es in Es'. injection Es' as <-.
  assert (0 <= c / 1024 < 16) as Hslot by (split; [apply Z.div_pos; lia | apply Z.div_lt_upper_bound; lia]). destruct (Hs _ Hslot) as [H1 H2]. unfold entry_at.
  rewrite Z.shiftr_div_pow2 by (unfold AWS_ERROR_ENUM_STRIDE_BITS; lia). change (2 ^ AWS_ERROR_ENUM_STRIDE_BITS) with 1024. rewrite H1. cbn [mbind option_bind].
  destruct (registered ops (c / 1024)) as [l |]; [| reflexivity]. cbn [mbind option_bind]. rewrite (find_code_lookup l _ c (H2 _ eq_refl) eq_refl).
  change SLOT_MASK with (Z.ones 10). rewrite Z.land_ones by lia. change (2 ^ 10) with 1024. pose proof (Z.mod_pos_bound c 1024 ltac:(lia)).
  unfold zlength, zlookup. destruct (Z.leb_spec (Z.of_nat (length l)) (c mod 1024)); [now rewrite lookup_ge_None_2 by lia |]. destruct (Z.leb_spec 0 (c mod 1024)); [| lia].
  destruct (lookup_lt_is_Some_2 l (Z.to_nat (c mod 1024))) as [e ->]; [lia | reflexivity].
Qed.
End histories.
Arguments slot_op E : clear implicits.

(** What any history of registrations of well-formed lists promises of error codes:
    it goes well; any [int] is looked up inside the arrays, and exactly the codes of
    the list that was last registered for their slot, and not unregistered, have an
    entry, their own. *)
Theorem error_lookup_correct (ops : list (slot_op aws_error_info)) err :
  Forall (fun op => exists slot, list_ok error_code (op_list op) slot) ops ->
  exists s, slot_steps error_code no_lists ops = Some s
    /\ get_error_by_code s err = Some (if (0 <=? err) && (err <? 16384) then registered error_code ops (err / 1024) ≫= fun l => find_code error_code l err else None).
Proof.
  intros H. destruct (slots_after error_code ops H) as (s & Es & _). exists s. split; [exact Es |]. unfold get_error_by_code. change MAX_ERROR_CODE with 16384.
  destruct (Z.leb_spec 16384 err), (Z.ltb_spec err 0), (Z.leb_spec 0 err), (Z.ltb_spec err 16384); cbn [orb andb]; try lia; try reflexivity. apply (entry_after error_code ops s err Es H). lia.
Qed.

(** The same of log subjects, which are unsigned. *)
Theorem subject_lookup_correct (ops : list (slot_op aws_log_subject_info)) subject :
  Forall (fun op => exists slot, list_ok subject_id (op_list op) slot) ops -> 0 <= subject ->
  exists s, slot_steps subject_id no_lists ops = Some s
    /\ s_get_log_subject_info_by_id s subject = Some (if subject <? 16384 then registered subject_id ops (subject / 1024) ≫= fun l => find_code subject_id l subject else None).
Proof.
  intros H Hs. destruct (slots_after subject_id ops H) as (s & Es & _). exists s. split; [exact Es |]. unfold s_get_log_subject_info_by_id. change S_MAX_LOG_SUBJECT with 16383.
  destruct (Z.ltb_spec 16383 subject), (Z.ltb_spec subject 16384); try lia; try reflexivity. apply (entry_after subject_id ops s subject Es H). lia.
Qed.

(** A level is found by its name, in any case. *)
Lemma log_level_round_trip l s : 0 <= l -> aws_log_level_to_string l = Some s -> forall s', map to_lower s' = map to_lower s -> aws_string_to_log_level (Some s') = Ok l.
Proof.
  intros Hl E s' Es. unfold aws_log_level_to_string in E. destruct (Z.ltb_spec l 7); [| discriminate]. unfold aws_string_to_log_level.
  assert (l = 0 \/ l = 1 \/ l = 2 \/ l = 3 \/ l = 4 \/ l = 5 \/ l = 6) as Hcases by lia.
  decompose [or] Hcases; subst l; injection E as <-; unfold s_log_level_strings; cbn [find_level]; rewrite Es; reflexivity.
Qed.
