(* ===== verification/Memtrace.v ===== *)
(** * The memory tracer

    [source/memtrace.c]: an allocator around another one that keeps, for each block
    that is in use, its size, and where it was allocated. The tables are those of
    [HashTable.v], from the address of a block to its [alloc_info], and from the hash
    of a stack to its frames; both kinds of blocks, and the one of the tracer itself,
    are memory of the tracer, whose addresses are used once. The slots that the two
    tables own are not counted as blocks. What the traced allocator returns, the time and the
    frames of the stack are arguments. A call is one step. *)

From S2P Require Import Prelude Math HashTable HashTableInv HashTableOps HashTableSpec HashTableHistory.
Import HashTable.

Local Open Scope Z_scope.

Module Memtrace.

Definition AWS_MEMTRACE_NONE : Z := 0.
Definition AWS_MEMTRACE_BYTES : Z := 1.
Definition AWS_MEMTRACE_STACKS : Z := 2.

Definition FRAMES_TO_SKIP : Z := 2.

Record alloc_info := mk_alloc { alloc_size : Z; alloc_time : Z; alloc_stack : Z }.

Record alloc_tracer := mk_tracer {
  level : Z;
  frames_per_stack : Z;
  allocated : Z;
  allocs : option hash_table_state;
  stacks : option hash_table_state;
  infos : gmap positive alloc_info;
  traces : gmap positive (list Z);
  next_block : positive;
  itself : gmap positive unit
}.

(** Where the tracer and its allocator are. *)
Definition tracer_at : positive := 1.

Definition with_allocated (t : alloc_tracer) (n : Z) : alloc_tracer := mk_tracer (level t) (frames_per_stack t) n (allocs t) (stacks t) (infos t) (traces t) (next_block t) (itself t).
Definition with_allocs (t : alloc_tracer) (st : hash_table_state) (live : gmap positive alloc_info) : alloc_tracer :=
  mk_tracer (level t) (frames_per_stack t) (allocated t) (Some st) (stacks t) live (traces t) (next_block t) (itself t).
Definition with_stacks (t : alloc_tracer) (st : hash_table_state) (ts : gmap positive (list Z)) (next : positive) : alloc_tracer :=
  mk_tracer (level t) (frames_per_stack t) (allocated t) (allocs t) (Some st) (infos t) ts next (itself t).

Section tracer.
Context (hash_ptr : Z -> Z).
(** [aws_hash_byte_cursor_ptr] of the frames, a function of their bytes. *)
Context (hash_frames : list Z -> Z).

Definition new_table : option hash_table_state :=
  match aws_hash_table_init 1024 hash_ptr aws_ptr_eq false true with Ok st => Some st | Err _ => None end.

(** [None]: a fatal assertion. *)
Definition s_alloc_tracer_init (backtrace_works : bool) (lvl frames : Z) : option alloc_tracer :=
  let lvl := if negb backtrace_works && (AWS_MEMTRACE_BYTES <? lvl) then AWS_MEMTRACE_BYTES else lvl in
  a ← (if AWS_MEMTRACE_BYTES <=? lvl then st ← new_table; Some (Some st) else Some None);
  s ← (if lvl =? AWS_MEMTRACE_STACKS then st ← new_table; Some (Some st) else Some None);
  let frames := if lvl =? AWS_MEMTRACE_STACKS then let n := (if 128 <? frames then 128 else frames) in if n =? 0 then 8 else n else 0 in
  Some (mk_tracer lvl frames 0 a s ∅ ∅ (Pos.succ tracer_at) {[tracer_at := tt]}).

Definition aws_mem_tracer_new (backtrace_works : bool) (lvl frames : Z) : option alloc_tracer := s_alloc_tracer_init backtrace_works lvl frames.

(** The hash of the stack, which is kept when it is new. With one frame only the
    number of bytes to copy wraps around: [None]. *)
Definition track_stack (frames : list Z) (t : alloc_tracer) : option (Z * alloc_tracer) :=
  if zlength frames =? 0 then Some (0, t)
  else
    let stack_id := hash_frames frames in
    st ← stacks t;
    match aws_hash_table_create st stack_id with
    | Some (Ok (Some item, was_created), st) =>
        if (was_created : bool) then
          if zlength frames <? FRAMES_TO_SKIP then None
          else
            let k := key (element (slot_at (slots st) item)) in
            Some (stack_id, with_stacks t (write_element st item k (Zpos (next_block t))) (<[next_block t := drop 2 frames]> (traces t)) (Pos.succ (next_block t)))
        else Some (stack_id, with_stacks t st (traces t) (next_block t))
    | _ => None
    end.

(** Releasing a block twice is undefined: [None]. *)
Definition release_block {A} (p : positive) (blocks : gmap positive A) : option (gmap positive A) :=
  _ ← blocks !! p; Some (delete p blocks).

Definition s_destroy_alloc (p : positive) (live : gmap positive alloc_info) : option (gmap positive alloc_info) := release_block p live.
Definition s_destroy_stacktrace (p : positive) (ts : gmap positive (list Z)) : option (gmap positive (list Z)) := release_block p ts.

(** The destructor calls of a table. *)
Fixpoint destroy_values {A} (destroy : positive -> gmap positive A -> option (gmap positive A)) (evs : list destroy_event) (blocks : gmap positive A) : option (gmap positive A) :=
  match evs with
  | [] => Some blocks
  | DestroyValue (Zpos p) :: evs => blocks ← destroy p blocks; destroy_values destroy evs blocks
  | _ :: _ => None
  end.

Definition s_alloc_tracer_track (frames : list Z) (now : Z) (ptr size : Z) (t : alloc_tracer) : option alloc_tracer :=
  if level t =? AWS_MEMTRACE_NONE then Some t
  else
    let t := with_allocated t (u64 (allocated t + size)) in
    let alloc := next_block t in
    let t := mk_tracer (level t) (frames_per_stack t) (allocated t) (allocs t) (stacks t) (<[alloc := mk_alloc size now 0]> (infos t)) (traces t) (Pos.succ alloc) (itself t) in
    '(stack_id, t) ← (if level t =? AWS_MEMTRACE_STACKS then track_stack (take (Z.to_nat FRAMES_TO_SKIP + Z.to_nat (frames_per_stack t)) frames) t else Some (0, t));
    let live := <[alloc := mk_alloc size now stack_id]> (infos t) in
    st ← allocs t;
    match aws_hash_table_put st ptr (Zpos alloc) with
    | Some (AWS_OP_SUCCESS, _, evs, st) => live ← destroy_values s_destroy_alloc evs live; Some (with_allocs t st live)
    | _ => None
    end.

Definition s_alloc_tracer_untrack (ptr : Z) (t : alloc_tracer) : option alloc_tracer :=
  if level t =? AWS_MEMTRACE_NONE then Some t
  else
    st ← allocs t;
    match aws_hash_table_find st ptr with
    | None => None
    | Some None => Some t
    | Some (Some item) =>
        match element (slot_at (slots st) item) with
        | mk_element k (Zpos p) =>
            if k =? ptr then
              info ← infos t !! p;
              live ← s_destroy_alloc p (infos t);
              st ← aws_hash_table_remove_element st item;
              Some (with_allocs (with_allocated t (u64 (allocated t - alloc_size info))) st live)
            else None
        | _ => None
        end
    end.

(** What the traced allocator returned is [ptr]. *)
Definition s_trace_mem_acquire (frames : list Z) (now : Z) (ptr size : Z) (t : alloc_tracer) : option alloc_tracer :=
  if negb (ptr =? 0) then s_alloc_tracer_track frames now ptr size t else Some t.

Definition s_trace_mem_calloc (frames : list Z) (now : Z) (ptr num size : Z) (t : alloc_tracer) : option alloc_tracer :=
  if negb (ptr =? 0) then s_alloc_tracer_track frames now ptr (u64 (num * size)) t else Some t.

Definition s_trace_mem_release (ptr : Z) (t : alloc_tracer) : option alloc_tracer := s_alloc_tracer_untrack ptr t.

(** [None] for [new_ptr]: the traced allocator failed. *)
Definition s_trace_mem_realloc (frames : list Z) (now : Z) (old_ptr : Z) (new_ptr : option Z) (new_size : Z) (t : alloc_tracer) : option alloc_tracer :=
  match new_ptr with
  | None => Some t
  | Some new_ptr => t ← s_alloc_tracer_untrack old_ptr t; s_alloc_tracer_track frames now new_ptr new_size t
  end.

Definition aws_mem_tracer_bytes (t : alloc_tracer) : Z := if level t =? AWS_MEMTRACE_NONE then 0 else allocated t.

Definition aws_mem_tracer_count (t : alloc_tracer) : Z :=
  if level t =? AWS_MEMTRACE_NONE then 0 else match allocs t with Some st => aws_hash_table_get_entry_count st | None => 0 end.

(** The memory of the tracer that is left. *)
Definition aws_mem_tracer_destroy (t : alloc_tracer) : option (gmap positive alloc_info * gmap positive (list Z) * gmap positive unit) :=
  '(live, ts) ← (if negb (level t =? AWS_MEMTRACE_NONE) then
    live ← destroy_values s_destroy_alloc (fst (aws_hash_table_clean_up (allocs t))) (infos t);
    ts ← destroy_values s_destroy_stacktrace (fst (aws_hash_table_clean_up (stacks t))) (traces t);
    Some (live, ts)
  else Some (infos t, traces t));
  own ← release_block tracer_at (itself t);
  Some (live, ts, own).
End tracer.

End Memtrace.
Import Memtrace.

(** ** Tables of blocks *)

Definition block_element (x : Z * positive) : aws_hash_element := mk_element x.1 (Zpos x.2).

(** A table by address whose values are blocks. *)
Record holds (st : hash_table_state) (M : gmap Z positive) : Prop := {
  hd_table : table_ok st;
  hd_callbacks : KeyCallbacks (hash_fn st) (equals_fn st);
  hd_eq : equals_fn st = aws_ptr_eq;
  hd_dk : destroy_key_fn st = false;
  hd_dv : destroy_value_fn st = true;
  hd_lookup : forall a, lookup st a = (fun p => block_element (a, p)) <$> M !! a;
  hd_contents : contents st ≡ₚ map block_element (map_to_list M)
}.

Lemma keys_eq_ptr (st : hash_table_state) a b : equals_fn st = aws_ptr_eq -> s_hash_keys_eq st a b = (a =? b).
Proof.
  intros E. unfold s_hash_keys_eq, s_safe_eq_check. rewrite E. unfold aws_ptr_eq. destruct (a =? b); [reflexivity |]. now destruct (_ || _).
Qed.

Lemma holds_count st M : holds st M -> entry_count st = Z.of_nat (base.size M).
Proof.
  intros H. rewrite (ok_count _ (hd_table _ _ H)). pose proof (Permutation_length (hd_contents _ _ H)) as Hl. unfold contents in Hl. rewrite !length_map, length_map_to_list in Hl. unfold zlength. lia.
Qed.

Lemma holds_new_size n hash : 0 <= n <= 2 ^ 58 -> (forall a, is_u64 (hash a)) -> exists st, aws_hash_table_init n hash aws_ptr_eq false true = Ok st /\ holds st ∅.
Proof.
  intros Hn Hh. destruct (init_spec n hash aws_ptr_eq false true ltac:(lia)) as [(e & _ & _ & H) | (t & k & E & Hok & _ & He & H1 & H2 & H3 & H4 & _)]; [lia |].
  exists t. split; [exact E |]. constructor; auto.
  - rewrite H1, H2. constructor; unfold aws_ptr_eq; intros; rewrite ?Z.eqb_eq in *; try congruence. apply Hh.
  - intros a. rewrite lookup_empty. unfold HashTableInv.lookup. now rewrite He.
  - unfold contents. rewrite He. now rewrite map_to_list_empty.
Qed.

Lemma holds_new hash : (forall a, is_u64 (hash a)) -> exists st, new_table hash = Some st /\ holds st ∅.
Proof. intros Hh. destruct (holds_new_size 1024 hash ltac:(lia) Hh) as (st & E & H). exists st. unfold new_table. now rewrite E. Qed.

Lemma holds_find st M a : holds st M -> exists r, aws_hash_table_find st a = Some r
  /\ match M !! a with None => r = None | Some p => exists i, r = Some i /\ element (slot_at (slots st) i) = mk_element a (Zpos p) end.
Proof.
  intros H. pose proof (hd_callbacks _ _ H). destruct (find_result st a (hd_table _ _ H)) as (r & E & El). rewrite (hd_lookup _ _ H) in El. exists r. split; [exact E |].
  destruct (M !! a) as [p |], r as [i |]; cbn in El; try discriminate; [| reflexivity]. injection El as El. now exists i.
Qed.

Lemma block_put st M a p : holds st M -> Z.of_nat (base.size M) < 2 ^ 58 ->
  exists st', aws_hash_table_put st a (Zpos p) = Some (AWS_OP_SUCCESS, bool_decide (M !! a = None), match M !! a with Some q => [DestroyValue (Zpos q)] | None => [] end, st')
    /\ holds st' (<[a := p]> M).
Proof.
  intros H Hn. pose proof (hd_callbacks _ _ H). destruct (put_spec st a (Zpos p) (hd_table _ _ H)) as (rv & wc & ev & st' & Ep & HP). rewrite <- (holds_count _ _ H) in Hn.
  destruct rv as [| e]; cbn in HP.
  - destruct HP as (Hok & Hcb & Hlk & -> & _ & -> & HC). exists st'. rewrite (hd_lookup _ _ H) in *. split.
    { rewrite Ep. destruct (M !! a) as [q |]; cbn [fmap option_fmap option_map overwrite_events]; [| reflexivity]. now rewrite (hd_dk _ _ H), (hd_dv _ _ H), andb_false_r. }
    destruct H. constructor; auto.
    + exact (same_callbacks_class _ _ Hcb hd_callbacks0).
    + now rewrite (same_eq _ _ Hcb).
    + now rewrite (same_dk _ _ Hcb).
    + now rewrite (same_dv _ _ Hcb).
    + intros b. rewrite Hlk, keys_eq_ptr by assumption. destruct (Z.eqb_spec b a) as [-> | Hne]; [now rewrite lookup_insert_eq | rewrite lookup_insert_ne by congruence; apply hd_lookup0].
    + rewrite <- insert_delete_eq, map_to_list_insert by apply lookup_delete_eq. cbn [map]. destruct (M !! a) as [q |] eqn:E; cbn [fmap option_fmap option_map option_list app] in HC.
      * rewrite hd_contents0 in HC. rewrite <- (insert_id M a q E) in HC at 1. rewrite <- insert_delete_eq, map_to_list_insert in HC by apply lookup_delete_eq. cbn [map] in HC.
        apply (Permutation_cons_inv (a := block_element (a, q))). rewrite HC. apply perm_swap.
      * rewrite (delete_id M a E). now rewrite HC, hd_contents0.
  - exfalso. destruct HP as (_ & _ & _ & _ & _ & Hs & Hc). rewrite Hc, (ok_max_load _ (hd_table _ _ H)) in Hn. unfold max_load_of, max_load_factor_mantissa in Hn.
    assert (2 ^ 58 <= 8556839292003942 * HashTable.size st / 2 ^ 53); [apply Z.div_le_lower_bound; lia | lia].
Qed.

Lemma holds_remove st M a p i : holds st M -> M !! a = Some p -> aws_hash_table_find st a = Some (Some i) ->
  exists st', aws_hash_table_remove_element st i = Some st' /\ holds st' (delete a M).
Proof.
  intros H Ea Ef. pose proof (hd_callbacks _ _ H). destruct (remove_spec st a true (hd_table _ _ H)) as (pv & wp & ev & st' & Er & HP).
  assert (aws_hash_table_remove_element st i = Some st') as E'.
  { unfold aws_hash_table_find in Ef. unfold aws_hash_table_remove in Er. destruct (s_find_entry st (s_hash_for st a) a) as [[[[] idx] pr] |]; try discriminate. injection Ef as ->.
    unfold aws_hash_table_remove_element. destruct (s_remove_entry st i) as [[st1 y] |]; [| discriminate]. now injection Er as _ _ _ <-. }
  exists st'. split; [exact E' |]. destruct HP as (Hok & Hcb & Hlk & HC & _). rewrite (hd_lookup _ _ H), Ea in HC. destruct H. constructor; auto.
  - exact (same_callbacks_class _ _ Hcb hd_callbacks0).
  - now rewrite (same_eq _ _ Hcb).
  - now rewrite (same_dk _ _ Hcb).
  - now rewrite (same_dv _ _ Hcb).
  - intros b. rewrite Hlk, keys_eq_ptr by assumption. destruct (Z.eqb_spec b a) as [-> | Hne]; [now rewrite lookup_delete_eq | rewrite lookup_delete_ne by congruence; apply hd_lookup0].
  - cbn [fmap option_fmap option_map option_list app] in HC. rewrite hd_contents0 in HC. rewrite <- (insert_id M a p Ea) in HC at 1. rewrite <- insert_delete_eq, map_to_list_insert in HC by apply lookup_delete_eq.
    cbn [map] in HC. exact (Permutation_cons_inv HC).
Qed.

Lemma holds_clean_up st M : holds st M -> exists ps, fst (aws_hash_table_clean_up (Some st)) = map (fun p => DestroyValue (Zpos p)) ps /\ ps ≡ₚ map snd (map_to_list M).
Proof.
  intros H. destruct (clear_spec st (hd_table _ _ H)) as (_ & _ & _ & _ & _ & _ & Ec). destruct (Permutation_map_inv _ _ (hd_contents _ _ H)) as (xs & Exs & HP).
  exists (map snd xs). split; [| now rewrite <- HP]. unfold aws_hash_table_clean_up. cbn [fst]. rewrite Ec, Exs, !map_map. clear -H. induction xs as [| x xs IH]; [reflexivity |]. cbn [map concat]. rewrite IH.
  unfold remove_events. now rewrite (hd_dk _ _ H), (hd_dv _ _ H).
Qed.

(** Creating an element and storing a block in it when it is new. *)
Lemma holds_create st M a p : holds st M -> Z.of_nat (base.size M) < 2 ^ 58 ->
  exists item was_created st', aws_hash_table_create st a = Some (Ok (Some item, was_created), st') /\ was_created = bool_decide (M !! a = None)
    /\ if was_created then
         let st1 := write_element st' item (key (element (slot_at (slots st') item))) (Zpos p) in
         holds st1 (<[a := p]> M) /\ element (slot_at (slots st1) item) = mk_element a (Zpos p)
       else holds st' M /\ exists q, M !! a = Some q /\ element (slot_at (slots st') item) = mk_element a (Zpos q).
Proof.
  intros H Hn. pose proof (hd_callbacks _ _ H). destruct (block_put st M a p H Hn) as (st1 & Ep & H1). destruct (ok_ring _ (hd_table _ _ H)) as [k Hring]. pose proof (hd_lookup _ _ H a) as El.
  destruct (M !! a) as [q |] eqn:Ea; cbn in El.
  - destruct (create_found k st a _ Hring (hd_table _ _ H) El) as (i & E & _ & _ & Ei & _). exists i, false, st. split; [exact E |]. split; [reflexivity |]. eauto.
  - destruct (create_fresh k st a Hring (hd_table _ _ H) El) as [(e & E & _) | (st' & i & E & k' & Hring' & Hi & Hat & _)].
    + unfold aws_hash_table_put in Ep. rewrite E in Ep. discriminate.
    + exists i, true, st'. split; [exact E |]. split; [reflexivity |]. unfold aws_hash_table_put in Ep. rewrite E in Ep. injection Ep as <-. rewrite Hat. split; [exact H1 |].
      pose proof (slot_at_lookup k' st' i Hring' Hi) as Hlk. unfold write_element, slot_at, slot_set. cbn [slots set_slots]. now rewrite list_lookup_insert_eq by (apply lookup_lt_Some in Hlk; exact Hlk).
Qed.

(** ** What is tracked *)

(** The blocks in use, with the memory of the tracer and the information on each. *)
Abbreviation live_map := (gmap Z (positive * alloc_info)).

Definition sizes (L : live_map) : gmap Z Z := (fun x => alloc_size x.2) <$> L.

Definition total (m : gmap Z Z) : Z := map_fold (fun _ n acc => n + acc) 0 m.

Lemma total_put (m : gmap Z Z) a n : m !! a = None -> total (<[a := n]> m) = n + total m.
Proof. intros E. unfold total. rewrite map_fold_insert_L; [reflexivity | intros; lia | exact E]. Qed.

Lemma total_delete (m : gmap Z Z) a n : m !! a = Some n -> total m = n + total (delete a m).
Proof. intros E. rewrite <- (insert_id m a n E) at 1. rewrite <- insert_delete_eq. apply total_put, lookup_delete_eq. Qed.

Record live_ok (a : option hash_table_state) (is_ : gmap positive alloc_info) (next : positive) (bytes : Z) (L : live_map) : Prop := {
  lv_table : exists st, a = Some st /\ holds st (fst <$> L);
  lv_infos : forall p i, is_ !! p = Some i <-> exists b, L !! b = Some (p, i);
  lv_inj : forall b c p i j, L !! b = Some (p, i) -> L !! c = Some (p, j) -> b = c;
  lv_next : forall b p i, L !! b = Some (p, i) -> (p < next)%positive;
  lv_bytes : bytes = u64 (total (sizes L))
}.

Record stacks_ok (lvl : Z) (s : option hash_table_state) (ts : gmap positive (list Z)) (next : positive) (K : gmap Z positive) : Prop := {
  sk_table : if lvl =? AWS_MEMTRACE_STACKS then exists st, s = Some st /\ holds st K else s = None /\ K = ∅;
  sk_traces : forall p, is_Some (ts !! p) <-> exists id, K !! id = Some p;
  sk_inj : forall b c p, K !! b = Some p -> K !! c = Some p -> b = c;
  sk_next : forall b p, K !! b = Some p -> (p < next)%positive
}.

(** The stacks of the live blocks are kept; when some calls have no stack
    ([loose]), their blocks have none. *)
Definition stacks_known (loose : bool) (lvl : Z) (L : live_map) (K : gmap Z positive) : Prop :=
  forall b p i, L !! b = Some (p, i) -> if lvl =? AWS_MEMTRACE_STACKS then is_Some (K !! alloc_stack i) \/ (loose = true /\ alloc_stack i = 0) else alloc_stack i = 0.

Definition tracer_ok (loose : bool) (t : alloc_tracer) (L : live_map) (K : gmap Z positive) : Prop :=
  live_ok (allocs t) (infos t) (next_block t) (allocated t) L /\ stacks_ok (level t) (stacks t) (traces t) (next_block t) K /\ 0 < level t /\ stacks_known loose (level t) L K.

(** The frames of a call: more than what is skipped, or none. *)
Definition frames_ok (loose : bool) (frames : list Z) : Prop := (2 <= length frames)%nat \/ (loose = true /\ frames = []).

Lemma known_delete loose lvl L K a : stacks_known loose lvl L K -> stacks_known loose lvl (delete a L) K.
Proof. intros H b p i E. destruct (decide (b = a)) as [-> | Hb]; [now rewrite lookup_delete_eq in E | rewrite lookup_delete_ne in E by congruence; exact (H b p i E)]. Qed.

Lemma known_insert loose lvl L K K' a p i : stacks_known loose lvl L K -> K ⊆ K' -> (if lvl =? AWS_MEMTRACE_STACKS then is_Some (K' !! alloc_stack i) \/ (loose = true /\ alloc_stack i = 0) else alloc_stack i = 0) ->
  stacks_known loose lvl (<[a := (p, i)]> L) K'.
Proof.
  intros H HK Hi b q j E. destruct (decide (b = a)) as [-> | Hb]; [rewrite lookup_insert_eq in E; injection E as <- <-; exact Hi |]. rewrite lookup_insert_ne in E by congruence. specialize (H b q j E).
  destruct (lvl =? AWS_MEMTRACE_STACKS); [| exact H]. destruct H as [[x Hx] | H]; [left; exists x; exact (lookup_weaken _ _ _ _ Hx HK) | now right].
Qed.

Lemma stacks_later lvl s ts next next' K : stacks_ok lvl s ts next K -> (next <= next')%positive -> stacks_ok lvl s ts next' K.
Proof. intros [H1 H2 H3 H4] Hn. constructor; auto. intros b p E. specialize (H4 b p E). lia. Qed.

Lemma size_fst (L : live_map) : base.size (fst <$> L : gmap Z positive) = base.size L.
Proof. apply map_size_fmap. Qed.

Lemma u64_add a b : u64 (u64 a + b) = u64 (a + b).
Proof. unfold u64. now rewrite Zplus_mod_idemp_l. Qed.

Lemma u64_sub a b : u64 (u64 a - b) = u64 (a - b).
Proof. unfold u64. now rewrite Zminus_mod_idemp_l. Qed.

(** What is kept about the blocks in use, and the frames that were first seen with
    each hash. *)
Record account := mk_account { live : gmap Z alloc_info; kept : gmap Z (list Z) }.

Definition stack_id (hash_frames : list Z -> Z) (frames : list Z) : Z := if zlength frames =? 0 then 0 else hash_frames frames.

Definition keep_stack (hash_frames : list Z -> Z) (frames : list Z) (kp : gmap Z (list Z)) : gmap Z (list Z) :=
  if zlength frames =? 0 then kp else match kp !! hash_frames frames with Some _ => kp | None => <[hash_frames frames := drop 2 frames]> kp end.

Definition kept_ok (K : gmap Z positive) (ts : gmap positive (list Z)) (kp : gmap Z (list Z)) : Prop := forall id, (K !! id ≫= fun p => ts !! p) = kp !! id.

Definition accounts (t : alloc_tracer) (L : live_map) (K : gmap Z positive) (a : account) : Prop := snd <$> L = live a /\ kept_ok K (traces t) (kept a).

(** A block is no longer tracked; one that was not is left alone. *)
Lemma untrack_ok loose t L K a : tracer_ok loose t L K -> exists t', s_alloc_tracer_untrack a t = Some t' /\ tracer_ok loose t' (delete a L) K /\ level t' = level t /\ frames_per_stack t' = frames_per_stack t /\ traces t' = traces t.
Proof.
  intros (HL & HS & Hlv & Hkn). destruct HL as [(st & Ea & Hh) Hi Hinj Hnx Hb]. unfold s_alloc_tracer_untrack. unfold AWS_MEMTRACE_NONE. destruct (Z.eqb_spec (level t) 0); [lia |]. rewrite Ea. cbn [mbind option_bind].
  destruct (holds_find st _ a Hh) as (r & Er & Hr). rewrite Er. rewrite lookup_fmap in Hr. destruct (L !! a) as [[p i] |] eqn:El; cbn in Hr.
  - destruct Hr as (k & -> & Ek). rewrite Ek. rewrite Z.eqb_refl. assert (infos t !! p = Some i) as Ep by (apply Hi; eauto). rewrite Ep. cbn [mbind option_bind]. unfold s_destroy_alloc, release_block. rewrite Ep. cbn [mbind option_bind].
    destruct (holds_remove st (fst <$> L) a p k Hh) as (st' & E' & Hh'); [now rewrite lookup_fmap, El | exact Er |]. rewrite E'. cbn [mbind option_bind]. eexists. split; [reflexivity |]. split; [split; [| split; [exact HS | split; [exact Hlv | now apply known_delete]]] | auto].
    constructor; cbn.
    + exists st'. split; [reflexivity |]. now rewrite fmap_delete.
    + intros q j. destruct (decide (q = p)) as [-> | Hq].
      * rewrite lookup_delete_eq. split; [discriminate |]. intros (b & Eb). destruct (decide (b = a)) as [-> | Hne]; [now rewrite lookup_delete_eq in Eb |]. rewrite lookup_delete_ne in Eb by congruence. now destruct (Hne (Hinj _ _ _ _ _ Eb El)).
      * rewrite lookup_delete_ne by congruence. rewrite Hi. split; intros (b & Eb); exists b; [rewrite lookup_delete_ne; [exact Eb |]; intros <-; congruence | destruct (decide (b = a)) as [-> | Hne]; [now rewrite lookup_delete_eq in Eb | now rewrite lookup_delete_ne in Eb by congruence]].
    + intros b c q x y E1 E2. destruct (decide (b = a)) as [-> | N1]; [now rewrite lookup_delete_eq in E1 |]. destruct (decide (c = a)) as [-> | N2]; [now rewrite lookup_delete_eq in E2 |]. rewrite lookup_delete_ne in E1, E2 by congruence. eauto.
    + intros b q x E1. destruct (decide (b = a)) as [-> | N1]; [now rewrite lookup_delete_eq in E1 |]. rewrite lookup_delete_ne in E1 by congruence. eauto.
    + rewrite Hb, u64_sub. unfold sizes in *. rewrite fmap_delete, (total_delete _ a (alloc_size i)) by now rewrite lookup_fmap, El. f_equal. lia.
  - rewrite Hr. exists t. rewrite (delete_id L a El). split; [reflexivity |]. split; [| auto]. split; [| now split]. constructor; eauto.
Qed.

(** A stack is kept once. *)
Lemma track_stack_ok loose hash_frames frames t K : stacks_ok (level t) (stacks t) (traces t) (next_block t) K -> level t = AWS_MEMTRACE_STACKS -> Z.of_nat (base.size K) < 2 ^ 58 -> frames_ok loose frames ->
  exists t' K', track_stack hash_frames frames t = Some (stack_id hash_frames frames, t') /\ stacks_ok (level t') (stacks t') (traces t') (next_block t') K' /\ (base.size K' <= S (base.size K))%nat
    /\ level t' = level t /\ allocs t' = allocs t /\ infos t' = infos t /\ allocated t' = allocated t /\ (next_block t <= next_block t')%positive /\ frames_per_stack t' = frames_per_stack t
    /\ K ⊆ K' /\ (is_Some (K' !! stack_id hash_frames frames) \/ (loose = true /\ stack_id hash_frames frames = 0))
    /\ forall kp, kept_ok K (traces t) kp -> kept_ok K' (traces t') (keep_stack hash_frames frames kp).
Proof.
  intros [H1 H2 H3 H4] Hl Hn Hf. unfold track_stack, stack_id, keep_stack, zlength, FRAMES_TO_SKIP. destruct (Z.eqb_spec (Z.of_nat (length frames)) 0) as [Hz | Hnz].
  { exists t, K. split; [reflexivity |]. split; [now constructor |]. assert (loose = true) by (destruct Hf as [Hf | [Hf _]]; [lia | exact Hf]). auto 14 with lia. }
  destruct Hf as [Hf | [_ ->]]; [| now cbn in Hnz].
  rewrite Hl in H1. cbn in H1. destruct H1 as (st & Es & Hh). rewrite Es. cbn [mbind option_bind]. set (id := hash_frames frames).
  destruct (holds_create st K id (next_block t) Hh Hn) as (item & wc & st' & Ec & Hw & Hh'). rewrite Ec. destruct wc; destruct Hh' as [Hh' _].
  - destruct (Z.ltb_spec (Z.of_nat (length frames)) 2); [lia |]. symmetry in Hw. apply bool_decide_eq_true in Hw. eexists _, _. split; [reflexivity |]. cbn. split; [| split; [rewrite map_size_insert_None by exact Hw; lia |]].
    2: { do 4 (split; [reflexivity |]). split; [lia |]. split; [reflexivity |]. split; [now apply insert_subseteq |].
      split; [left; exists (next_block t); apply lookup_insert_eq |]. intros kp Hkp b. pose proof (Hkp id) as Hid. rewrite Hw in Hid. cbn in Hid. rewrite <- Hid.
      destruct (decide (b = id)) as [-> | Hb]; [now rewrite !lookup_insert_eq; cbn; rewrite lookup_insert_eq |]. rewrite !lookup_insert_ne by congruence. rewrite <- Hkp.
      destruct (K !! b) as [p |] eqn:Eb; [| reflexivity]. cbn. apply lookup_insert_ne. intros <-. specialize (H4 _ _ Eb). lia. }
    constructor; cbn.
    + rewrite Hl. cbn. eauto.
    + intros p. destruct (decide (p = next_block t)) as [-> | Hp].
      * rewrite lookup_insert_eq. split; [intros _; exists id; apply lookup_insert_eq | eauto].
      * rewrite lookup_insert_ne by congruence. rewrite H2. split; intros (b & Eb).
        -- exists b. rewrite lookup_insert_ne; [exact Eb |]. intros <-. congruence.
        -- destruct (decide (b = id)) as [-> | Hb]; [rewrite lookup_insert_eq in Eb; congruence | rewrite lookup_insert_ne in Eb by congruence; eauto].
    + intros b c p E1 E2. destruct (decide (b = id)) as [-> | N1], (decide (c = id)) as [-> | N2]; rewrite ?lookup_insert_eq in *; rewrite ?lookup_insert_ne in * by congruence; auto.
      * injection E1 as <-. specialize (H4 _ _ E2). lia.
      * injection E2 as <-. specialize (H4 _ _ E1). lia.
      * eauto.
    + intros b p E1. destruct (decide (b = id)) as [-> | N1]; [rewrite lookup_insert_eq in E1; injection E1 as <-; lia | rewrite lookup_insert_ne in E1 by congruence; specialize (H4 _ _ E1); lia].
  - symmetry in Hw. apply bool_decide_eq_false, not_eq_None_Some in Hw. eexists _, K. split; [reflexivity |]. cbn. split.
    2: { split; [lia |]. do 4 (split; [reflexivity |]). split; [lia |]. split; [reflexivity |]. split; [reflexivity |]. split; [now left |]. intros kp Hkp. pose proof (Hkp id) as Hid. destruct Hw as [p Ep]. rewrite Ep in Hid. cbn in Hid.
      destruct (proj2 (H2 p) (ex_intro _ id Ep)) as [fs Efs]. rewrite Efs in Hid. now rewrite <- Hid. }
    constructor; cbn; auto. rewrite Hl. cbn. eauto.
Qed.

(** A new block, with its information. *)
Lemma track_live st (is_ : gmap positive alloc_info) p next bytes L a i : live_ok (Some st) is_ p bytes L -> L !! a = None -> (p < next)%positive -> Z.of_nat (base.size L) < 2 ^ 58 ->
  exists st', aws_hash_table_put st a (Zpos p) = Some (AWS_OP_SUCCESS, true, [], st') /\ live_ok (Some st') (<[p := i]> is_) next (u64 (bytes + alloc_size i)) (<[a := (p, i)]> L).
Proof.
  intros [(st0 & [= <-] & Hh) Hi Hinj Hnx Hb] Ea Hp Hn. destruct (block_put st _ a p Hh) as (st' & E & Hh'); [now rewrite size_fst |]. rewrite lookup_fmap, Ea in E. cbn in E. exists st'. split; [exact E |].
  assert (forall b q x, L !! b = Some (q, x) -> q <> p) as Hfresh by (intros b q x Eb ->; specialize (Hnx _ _ _ Eb); lia).
  constructor.
  - exists st'. split; [reflexivity |]. now rewrite fmap_insert.
  - intros q j. destruct (decide (q = p)) as [-> | Hq].
    + rewrite lookup_insert_eq. split; [intros [= <-]; exists a; apply lookup_insert_eq |]. intros (b & Eb). destruct (decide (b = a)) as [-> | Hne]; [rewrite lookup_insert_eq in Eb; congruence |]. rewrite lookup_insert_ne in Eb by congruence. now destruct (Hfresh _ _ _ Eb).
    + rewrite lookup_insert_ne by congruence. rewrite Hi. split; intros (b & Eb).
      * exists b. rewrite lookup_insert_ne; [exact Eb |]. intros <-. congruence.
      * destruct (decide (b = a)) as [-> | Hne]; [rewrite lookup_insert_eq in Eb; congruence | rewrite lookup_insert_ne in Eb by congruence; eauto].
  - intros b c q x y E1 E2. destruct (decide (b = a)) as [-> | N1], (decide (c = a)) as [-> | N2]; rewrite ?lookup_insert_eq in *; rewrite ?lookup_insert_ne in * by congruence; auto.
    + injection E1 as <- <-. now destruct (Hfresh _ _ _ E2).
    + injection E2 as <- <-. now destruct (Hfresh _ _ _ E1).
    + eauto.
  - intros b q x E1. destruct (decide (b = a)) as [-> | N1]; [rewrite lookup_insert_eq in E1; injection E1 as <- <-; exact Hp | rewrite lookup_insert_ne in E1 by congruence; specialize (Hnx _ _ _ E1); lia].
  - rewrite Hb, u64_add. unfold sizes. rewrite fmap_insert, total_put by now rewrite lookup_fmap, Ea. f_equal. cbn. lia.
Qed.

Lemma track_ok loose hash_frames frames now a n t L K : tracer_ok loose t L K -> L !! a = None -> Z.of_nat (base.size L) < 2 ^ 58 -> Z.of_nat (base.size K) < 2 ^ 58 -> frames_ok loose frames ->
  let fs := take (Z.to_nat FRAMES_TO_SKIP + Z.to_nat (frames_per_stack t)) frames in
  let i := mk_alloc n now (if level t =? AWS_MEMTRACE_STACKS then stack_id hash_frames fs else 0) in
  exists t' p K', s_alloc_tracer_track hash_frames frames now a n t = Some t' /\ tracer_ok loose t' (<[a := (p, i)]> L) K' /\ (base.size K' <= S (base.size K))%nat /\ level t' = level t /\ frames_per_stack t' = frames_per_stack t
    /\ forall kp, kept_ok K (traces t) kp -> kept_ok K' (traces t') (if level t =? AWS_MEMTRACE_STACKS then keep_stack hash_frames fs kp else kp).
Proof.
  intros (HL & HS & Hlv & Hkn) Ea HnL HnK Hf fs i. unfold s_alloc_tracer_track, AWS_MEMTRACE_NONE. destruct (Z.eqb_spec (level t) 0); [lia |]. cbn [level frames_per_stack allocated allocs stacks infos traces next_block with_allocated].
  set (p := next_block t). set (t1 := mk_tracer _ _ _ _ _ _ _ _ _).
  fold fs. assert (frames_ok loose fs) as Hfs by (destruct Hf as [Hf | [? ->]]; [left; unfold fs, FRAMES_TO_SKIP; rewrite length_take; lia | right; split; [assumption | apply take_nil]]).
  assert (exists t2 K', (if level t =? AWS_MEMTRACE_STACKS then track_stack hash_frames fs t1 else Some (0, t1)) = Some (alloc_stack i, t2)
    /\ stacks_ok (level t2) (stacks t2) (traces t2) (next_block t2) K' /\ (base.size K' <= S (base.size K))%nat
    /\ level t2 = level t /\ allocs t2 = allocs t /\ infos t2 = <[p := mk_alloc n now 0]> (infos t) /\ allocated t2 = u64 (allocated t + n) /\ (p < next_block t2)%positive
    /\ frames_per_stack t2 = frames_per_stack t /\ K ⊆ K' /\ (if level t =? AWS_MEMTRACE_STACKS then is_Some (K' !! alloc_stack i) \/ (loose = true /\ alloc_stack i = 0) else alloc_stack i = 0)
    /\ forall kp, kept_ok K (traces t) kp -> kept_ok K' (traces t2) (if level t =? AWS_MEMTRACE_STACKS then keep_stack hash_frames fs kp else kp)) as (t2 & K' & E & HS2 & Hk & E1 & E2 & E3 & E4 & E5 & E6 & E7 & E8 & E9).
  { assert (stacks_ok (level t1) (stacks t1) (traces t1) (next_block t1) K) as HS1 by (apply (stacks_later _ _ _ (next_block t)); [exact HS | cbn; lia]).
    destruct (Z.eqb_spec (level t) AWS_MEMTRACE_STACKS) as [El | El].
    - destruct (track_stack_ok loose hash_frames fs t1 K HS1 El HnK Hfs) as (t2 & K' & E & H1 & H2 & H3 & H4 & H5 & H6 & H7 & H8 & H9 & H10 & H11). exists t2, K'. unfold i. cbn [alloc_stack]. split; [exact E |]. cbn in *. unfold p in *. auto 14 with lia.
    - exists t1, K. unfold i. cbn [alloc_stack]. split; [reflexivity |]. split; [exact HS1 |]. cbn. unfold p. auto 14 with lia. }
  rewrite E. cbn [mbind option_bind]. pose proof HL as [(st & Es & _) _ _ _ _]. rewrite E2, Es. cbn [mbind option_bind]. rewrite Es in HL.
  destruct (track_live st (infos t) p (next_block t2) (allocated t) L a i HL Ea E5 HnL) as (st' & Ep & HL'). rewrite Ep. cbn [destroy_values mbind option_bind].
  eexists _, p, K'. split; [reflexivity |]. split; [| split; [exact Hk | split; [exact E1 | split; [exact E6 | exact E9]]]]. split; [| split; [exact HS2 | split; [cbn; lia |]]].
  2: { cbn [level with_allocs]. rewrite E1. now apply (known_insert loose _ L K). }
  cbn. rewrite E3, insert_insert_eq, E4. exact HL'.
Qed.

(** ** Histories *)

Inductive trace_op :=
| Trace_acquire (ptr size : Z)
| Trace_calloc (ptr num size : Z)
| Trace_release (ptr : Z)
| Trace_realloc (old_ptr : Z) (new_ptr : option Z) (new_size : Z).

(** A call: the frames of the stack and the time it sees. *)
Abbreviation trace_call := (list Z * Z * trace_op)%type.

Definition trace_step (hash_frames : list Z -> Z) (c : trace_call) (t : alloc_tracer) : option alloc_tracer :=
  let '(frames, now, op) := c in
  match op with
  | Trace_acquire p n => s_trace_mem_acquire hash_frames frames now p n t
  | Trace_calloc p k n => s_trace_mem_calloc hash_frames frames now p k n t
  | Trace_release p => s_trace_mem_release p t
  | Trace_realloc p q n => s_trace_mem_realloc hash_frames frames now p q n t
  end.

Fixpoint trace_steps (hash_frames : list Z -> Z) (cs : list trace_call) (t : alloc_tracer) : option alloc_tracer :=
  match cs with [] => Some t | c :: cs => t ← trace_step hash_frames c t; trace_steps hash_frames cs t end.

(** The sizes of the blocks in use. *)
Definition in_use_step (m : gmap Z Z) (op : trace_op) : gmap Z Z :=
  match op with
  | Trace_acquire p n => if p =? 0 then m else <[p := n]> m
  | Trace_calloc p k n => if p =? 0 then m else <[p := u64 (k * n)]> m
  | Trace_release p => delete p m
  | Trace_realloc p (Some q) n => <[q := n]> (delete p m)
  | Trace_realloc p None n => m
  end.

Definition in_use (cs : list trace_call) : gmap Z Z := foldl (fun m c => in_use_step m c.2) ∅ cs.

(** The traced allocator does not return a block that is in use; the program may
    release blocks that were never traced. *)
Definition gives (m : gmap Z Z) (op : trace_op) : Prop :=
  match op with
  | Trace_acquire p _ | Trace_calloc p _ _ => m !! p = None
  | Trace_release _ | Trace_realloc _ None _ => True
  | Trace_realloc p (Some q) _ => delete p m !! q = None
  end.

Fixpoint sound_calls (loose : bool) (m : gmap Z Z) (cs : list trace_call) : Prop :=
  match cs with
  | [] => True
  | (frames, _, op) :: cs => gives m op /\ frames_ok loose frames /\ sound_calls loose (in_use_step m op) cs
  end.

(** What the calls do to the account, at a level of tracing. *)
Section account.
Context (hash_frames : list Z -> Z) (lvl per_stack : Z).

Definition account_track (frames : list Z) (now p n : Z) (a : account) : account :=
  let fs := take (Z.to_nat FRAMES_TO_SKIP + Z.to_nat per_stack) frames in
  mk_account (<[p := mk_alloc n now (if lvl =? AWS_MEMTRACE_STACKS then stack_id hash_frames fs else 0)]> (live a))
    (if lvl =? AWS_MEMTRACE_STACKS then keep_stack hash_frames fs (kept a) else kept a).

Definition account_untrack (p : Z) (a : account) : account := mk_account (delete p (live a)) (kept a).

Definition account_step (a : account) (c : trace_call) : account :=
  let '(frames, now, op) := c in
  match op with
  | Trace_acquire p n => if p =? 0 then a else account_track frames now p n a
  | Trace_calloc p k n => if p =? 0 then a else account_track frames now p (u64 (k * n)) a
  | Trace_release p => account_untrack p a
  | Trace_realloc p (Some q) n => account_track frames now q n (account_untrack p a)
  | Trace_realloc p None n => a
  end.

Definition account_of (cs : list trace_call) : account := foldl account_step (mk_account ∅ ∅) cs.
End account.

Definition account_sizes (a : account) : gmap Z Z := alloc_size <$> live a.

Lemma account_step_sizes hash_frames lvl per a c : account_sizes (account_step hash_frames lvl per a c) = in_use_step (account_sizes a) c.2.
Proof. unfold account_sizes. destruct c as [[frames now] [p n | p k n | p | p [q |] n]]; cbn; try destruct (p =? 0); cbn; rewrite ?fmap_insert, ?fmap_delete; reflexivity. Qed.

Lemma account_of_sizes hash_frames lvl per cs : account_sizes (account_of hash_frames lvl per cs) = in_use cs.
Proof.
  unfold account_of, in_use. assert (account_sizes (mk_account ∅ ∅) = ∅) as H by apply fmap_empty. rewrite <- H. generalize (mk_account ∅ ∅). clear H.
  induction cs as [| c cs IH]; intros a; cbn [foldl]; [reflexivity |]. now rewrite IH, account_step_sizes.
Qed.

(** The tracer keeps the account [a]; [k] bounds its tables. *)
Definition represents (loose : bool) (lvl per_stack : Z) (t : alloc_tracer) (a : account) (k : nat) : Prop :=
  level t = lvl /\ frames_per_stack t = per_stack
  /\ exists L K, tracer_ok loose t L K /\ accounts t L K a /\ (base.size L <= k)%nat /\ (base.size K <= k)%nat.

Lemma live_none (L : live_map) (m : gmap Z alloc_info) p : snd <$> L = m -> m !! p = None -> L !! p = None.
Proof. intros <- E. rewrite lookup_fmap in E. now destruct (L !! p). Qed.

Lemma sizes_lookup_none a p : account_sizes a !! p = None -> live a !! p = None.
Proof. unfold account_sizes. rewrite lookup_fmap. now destruct (live a !! p). Qed.

Lemma delete_size (L : live_map) a : (base.size (delete a L) <= base.size L)%nat.
Proof. destruct (L !! a) as [x |] eqn:E; [rewrite map_size_delete_Some by (now exists x); lia | now rewrite delete_id]. Qed.

Lemma represents_untrack loose lvl per t a k p : represents loose lvl per t a k -> exists t', s_alloc_tracer_untrack p t = Some t' /\ represents loose lvl per t' (account_untrack p a) k.
Proof.
  intros (<- & <- & L & K & H & [Ha Hk] & H1 & H2). destruct (untrack_ok loose t L K p H) as (t' & E & H' & El & Ef & Et). exists t'. split; [exact E |]. split; [exact El |]. split; [exact Ef |].
  exists (delete p L), K. split; [exact H' |]. pose proof (delete_size L p). split; [| lia]. split; cbn; [now rewrite fmap_delete, Ha | now rewrite Et].
Qed.

Lemma represents_track loose hash_frames lvl per t a k frames now p n : represents loose lvl per t a k -> live a !! p = None -> Z.of_nat k < 2 ^ 58 -> frames_ok loose frames ->
  exists t', s_alloc_tracer_track hash_frames frames now p n t = Some t' /\ represents loose lvl per t' (account_track hash_frames lvl per frames now p n a) (S k).
Proof.
  intros (<- & <- & L & K & H & [Ha Hk] & H1 & H2) Ep Hb Hf. pose proof (live_none L _ p Ha Ep) as EL.
  destruct (track_ok loose hash_frames frames now p n t L K H EL ltac:(lia) ltac:(lia) Hf) as (t' & q & K' & E & H' & HK & El & Ef & Hkept). exists t'. split; [exact E |]. split; [exact El |]. split; [exact Ef |].
  eexists _, K'. split; [exact H' |]. split; [| rewrite map_size_insert_None by exact EL; lia]. split; [now cbn; rewrite fmap_insert, Ha | exact (Hkept _ Hk)].
Qed.

Lemma represents_more loose lvl per t a k : represents loose lvl per t a k -> represents loose lvl per t a (S k).
Proof. intros (H1 & H2 & L & K & H3 & H4 & H5 & H6). split; [exact H1 |]. split; [exact H2 |]. exists L, K. auto with lia. Qed.

(** A call does to the tracer what it does to the account. *)
Lemma trace_step_ok loose hash_frames lvl per t a k c : represents loose lvl per t a k -> gives (account_sizes a) c.2 -> frames_ok loose c.1.1 -> Z.of_nat k < 2 ^ 58 ->
  exists t', trace_step hash_frames c t = Some t' /\ represents loose lvl per t' (account_step hash_frames lvl per a c) (S k).
Proof.
  intros H Hg Hf Hk. destruct c as [[frames now] [p n | p m n | p | p [q |] n]]; cbn [trace_step account_step gives fst snd] in *.
  - unfold s_trace_mem_acquire. destruct (Z.eqb_spec p 0); cbn [negb]; [exists t; split; [reflexivity | now apply represents_more] |]. apply represents_track; auto using sizes_lookup_none.
  - unfold s_trace_mem_calloc. destruct (Z.eqb_spec p 0); cbn [negb]; [exists t; split; [reflexivity | now apply represents_more] |]. apply represents_track; auto using sizes_lookup_none.
  - destruct (represents_untrack _ _ _ t a k p H) as (t' & E & H'). exists t'. split; [exact E | now apply represents_more].
  - destruct (represents_untrack _ _ _ t a k p H) as (t1 & E & H'). unfold s_trace_mem_realloc. rewrite E. cbn [mbind option_bind]. apply represents_track; auto. apply sizes_lookup_none. unfold account_sizes. cbn. now rewrite fmap_delete.
  - exists t. split; [reflexivity | now apply represents_more].
Qed.

Lemma trace_steps_ok loose hash_frames lvl per cs : forall t a k, represents loose lvl per t a k -> sound_calls loose (account_sizes a) cs -> Z.of_nat (k + length cs) < 2 ^ 58 ->
  exists t', trace_steps hash_frames cs t = Some t' /\ represents loose lvl per t' (foldl (account_step hash_frames lvl per) a cs) (k + length cs).
Proof.
  induction cs as [| c cs IH]; intros t a k H Hs Hk; [exists t; cbn [length]; rewrite Nat.add_0_r; auto |]. cbn [sound_calls length] in *. destruct c as [[frames now] op] eqn:Ec. destruct Hs as (Hg & Hf & Hs).
  destruct (trace_step_ok loose hash_frames lvl per t a k c H) as (t1 & E1 & H1); [now rewrite Ec | now rewrite Ec | lia |]. rewrite <- Ec in *. cbn [trace_steps foldl]. rewrite E1. cbn [mbind option_bind].
  replace (k + S (length cs))%nat with (S k + length cs)%nat by lia. apply IH; [exact H1 | | lia]. rewrite account_step_sizes, Ec. exact Hs.
Qed.

Section destroy.
Context {A : Type} (destroy : positive -> gmap positive A -> option (gmap positive A)) (P : A -> Prop).
Hypothesis destroy_one : forall p m x, m !! p = Some x -> P x -> destroy p m = Some (delete p m).

Lemma destroy_all (m : gmap positive A) ps : NoDup ps -> (forall p, is_Some (m !! p) <-> p ∈ ps) -> map_Forall (fun _ x => P x) m ->
  destroy_values destroy (map (fun p => DestroyValue (Zpos p)) ps) m = Some ∅.
Proof using destroy_one.
  revert m. induction ps as [| p ps IH]; intros m Hnd Hm HP; cbn [map destroy_values].
  - f_equal. apply map_eq. intros q. rewrite lookup_empty. destruct (m !! q) as [x |] eqn:E; [| reflexivity]. pose proof (proj1 (Hm q) (ex_intro _ x E)) as Hq. now apply elem_of_nil in Hq.
  - apply NoDup_cons in Hnd as [Hp Hnd]. destruct (proj2 (Hm p) ltac:(left)) as [x Ex]. rewrite (destroy_one p m x Ex (HP p x Ex)). cbn [mbind option_bind]. apply IH; [exact Hnd | | now apply map_Forall_delete].
    intros q. destruct (decide (q = p)) as [-> | Hq]; [rewrite lookup_delete_eq; split; [now intros [] | contradiction] |]. rewrite lookup_delete_ne by congruence. rewrite Hm, elem_of_cons. split; [intros [|]; [congruence | assumption] | auto].
Qed.

(** The blocks of a table are all there is. *)
Lemma destroy_table st (M : gmap Z positive) (m : gmap positive A) : holds st M -> (forall p, is_Some (m !! p) <-> exists a, M !! a = Some p) -> (forall a b p, M !! a = Some p -> M !! b = Some p -> a = b) ->
  map_Forall (fun _ x => P x) m -> destroy_values destroy (fst (aws_hash_table_clean_up (Some st))) m = Some ∅.
Proof using destroy_one.
  intros H Hm Hinj HP'. destruct (holds_clean_up st M H) as (ps & -> & HP). apply destroy_all; [| | exact HP'].
  - rewrite HP. change (map snd (map_to_list M)) with (snd <$> map_to_list M). apply NoDup_fmap_2_strong; [| apply NoDup_map_to_list].
    intros [a p] [b q] Ha Hb E. cbn in E. subst q. apply elem_of_map_to_list in Ha, Hb. f_equal. exact (Hinj _ _ _ Ha Hb).
  - intros p. rewrite Hm, HP. change (map snd (map_to_list M)) with (snd <$> map_to_list M). rewrite list_elem_of_fmap. split.
    + intros (a & Ea). exists (a, p). split; [reflexivity | now apply elem_of_map_to_list].
    + intros ([a q] & -> & Ha). exists a. now apply elem_of_map_to_list.
Qed.
End destroy.

Lemma release_one {A} p (m : gmap positive A) x : m !! p = Some x -> True -> release_block p m = Some (delete p m).
Proof. intros E _. unfold release_block. now rewrite E. Qed.

(** ** What the tracer promises *)

(** How many frames the tracer keeps, and the level it traces at. *)
Definition init_level (works : bool) (lvl : Z) : Z := if negb works && (AWS_MEMTRACE_BYTES <? lvl) then AWS_MEMTRACE_BYTES else lvl.

Definition init_frames (works : bool) (lvl frames : Z) : Z :=
  if init_level works lvl =? AWS_MEMTRACE_STACKS then if frames =? 0 then 8 else Z.min frames 128 else 0.

Lemma tracer_init hash_ptr works lvl frames loose : (forall a, is_u64 (hash_ptr a)) -> 0 < lvl ->
  exists t, s_alloc_tracer_init hash_ptr works lvl frames = Some t /\ represents loose (init_level works lvl) (init_frames works lvl frames) t (mk_account ∅ ∅) 0.
Proof.
  intros Hh Hl. destruct (holds_new hash_ptr Hh) as (st & E & H). unfold s_alloc_tracer_init, init_frames. fold (init_level works lvl). set (l := init_level works lvl).
  assert (0 < l) as Hp by (unfold l, init_level, AWS_MEMTRACE_BYTES; destruct (_ && _); lia). clearbody l. unfold AWS_MEMTRACE_BYTES. destruct (Z.leb_spec 1 l); [| lia]. rewrite E. cbn [mbind option_bind].
  assert (exists s, (if l =? AWS_MEMTRACE_STACKS then Some (Some st) else Some None) = Some s /\ stacks_ok l s ∅ 2 ∅) as (s & -> & Hs).
  { exists (if l =? AWS_MEMTRACE_STACKS then Some st else None). split; [now destruct (_ =? _) |]. constructor.
    - destruct (l =? AWS_MEMTRACE_STACKS); eauto.
    - intros p. rewrite lookup_empty. split; [now intros [] | intros (a & Ea); now rewrite lookup_empty in Ea].
    - intros b c p Eb. now rewrite lookup_empty in Eb.
    - intros b p Eb. now rewrite lookup_empty in Eb. }
  cbn [mbind option_bind]. eexists. split; [reflexivity |]. split; [reflexivity |]. split.
  { cbn. destruct (l =? AWS_MEMTRACE_STACKS); [| reflexivity]. destruct (Z.ltb_spec 128 frames); [| destruct (Z.eqb_spec frames 0); lia]. change (128 =? 0) with false. destruct (Z.eqb_spec frames 0); lia. }
  exists ∅, ∅. split; [split; [| split; [exact Hs | split; [exact Hp |]]]; cbn | split; [split; [apply fmap_empty | intros id; cbn; now rewrite !lookup_empty] | split; apply Nat.le_refl]].
  - constructor; cbn.
    + exists st. split; [reflexivity |]. now rewrite fmap_empty.
    + intros p i. rewrite lookup_empty. split; [discriminate | intros (a & Ea); now rewrite lookup_empty in Ea].
    + intros b c p i j Eb. now rewrite lookup_empty in Eb.
    + intros b p i Eb. now rewrite lookup_empty in Eb.
    + unfold sizes. now rewrite fmap_empty.
  - intros b p i Eb. now rewrite lookup_empty in Eb.
Qed.

(** A history from the start. *)
Lemma traced_history hash_ptr hash_frames works lvl frames loose cs : (forall a, is_u64 (hash_ptr a)) -> 0 < lvl -> sound_calls loose ∅ cs -> Z.of_nat (length cs) < 2 ^ 58 ->
  exists t0 t, s_alloc_tracer_init hash_ptr works lvl frames = Some t0 /\ trace_steps hash_frames cs t0 = Some t
    /\ represents loose (init_level works lvl) (init_frames works lvl frames) t (account_of hash_frames (init_level works lvl) (init_frames works lvl frames) cs) (length cs).
Proof.
  intros Hh Hl Hs Hn. destruct (tracer_init hash_ptr works lvl frames loose Hh Hl) as (t0 & E0 & H0).
  destruct (trace_steps_ok loose hash_frames _ _ cs t0 _ 0%nat H0) as (t & E & H); [unfold account_sizes; cbn; now rewrite fmap_empty | exact Hn |]. exists t0, t. auto.
Qed.

Lemma represents_counts loose lvl per t a k : represents loose lvl per t a k ->
  aws_mem_tracer_count t = Z.of_nat (base.size (account_sizes a)) /\ allocated t = u64 (total (account_sizes a)).
Proof.
  intros (_ & _ & L & K & (HL & _ & Hlv & _) & [Hacc _] & _). destruct HL as [(st & Ea & Hst) _ _ _ Hb]. assert (sizes L = account_sizes a) as <-.
  { unfold account_sizes. rewrite <- Hacc. unfold sizes. now rewrite <- map_fmap_compose. }
  split; [| exact Hb]. unfold aws_mem_tracer_count, AWS_MEMTRACE_NONE. destruct (Z.eqb_spec (level t) 0); [lia |]. rewrite Ea. unfold aws_hash_table_get_entry_count. rewrite (holds_count _ _ Hst). f_equal. unfold sizes. now rewrite !map_size_fmap.
Qed.

(** No call touches the block of the tracer. *)
Lemma untrack_itself p t t' : s_alloc_tracer_untrack p t = Some t' -> itself t' = itself t.
Proof.
  unfold s_alloc_tracer_untrack. intros H. repeat (case_match || simplify_option_eq); try congruence; reflexivity.
Qed.

Lemma stack_itself hash_frames frames t id t' : track_stack hash_frames frames t = Some (id, t') -> itself t' = itself t.
Proof. unfold track_stack. intros H. repeat (case_match || simplify_option_eq); try congruence; reflexivity. Qed.

Lemma track_itself hash_frames frames now p n t t' : s_alloc_tracer_track hash_frames frames now p n t = Some t' -> itself t' = itself t.
Proof.
  unfold s_alloc_tracer_track. destruct (level t =? AWS_MEMTRACE_NONE); [now intros [= ->] |]. cbv zeta. set (t1 := mk_tracer _ _ _ _ _ _ _ _ _). intros ([id t2] & E & H)%bind_Some.
  assert (itself t2 = itself t1) as E2 by (destruct (_ =? _); [exact (stack_itself _ _ _ _ _ E) | congruence]). change (itself t1) with (itself t) in E2. rewrite <- E2.
  clear -H. repeat (case_match || simplify_option_eq); try congruence; reflexivity.
Qed.

Lemma steps_itself hash_frames cs : forall t t', trace_steps hash_frames cs t = Some t' -> itself t' = itself t.
Proof.
  induction cs as [| [[frames now] op] cs IH]; intros t t' H; cbn [trace_steps] in H; [congruence |]. apply bind_Some in H as (t1 & E & H). apply IH in H. rewrite H.
  destruct op as [p n | p k n | p | p q n]; cbn [trace_step] in E; unfold s_trace_mem_acquire, s_trace_mem_calloc, s_trace_mem_release, s_trace_mem_realloc in E.
  - destruct (negb _); [exact (track_itself _ _ _ _ _ _ _ E) | congruence].
  - destruct (negb _); [exact (track_itself _ _ _ _ _ _ _ E) | congruence].
  - exact (untrack_itself _ _ _ E).
  - destruct q as [q |]; [| congruence]. apply bind_Some in E as (t2 & E1 & E2). rewrite (track_itself _ _ _ _ _ _ _ E2). exact (untrack_itself _ _ _ E1).
Qed.

Lemma init_itself hash_ptr works lvl frames t : s_alloc_tracer_init hash_ptr works lvl frames = Some t -> itself t = {[tracer_at := tt]}.
Proof. unfold s_alloc_tracer_init. intros (a & _ & H)%bind_Some. apply bind_Some in H as (s & _ & H). now injection H as <-. Qed.

(** C36: Whatever the calls that go through the tracer, and whatever the traced
    allocator returns that is not in use, no assertion of the tracer fails (unless
    a stack is a single frame): [aws_mem_tracer_count] is the number of blocks in
    use, [aws_mem_tracer_bytes] the sum of their sizes, a block that was released or
    moved is no longer counted, a block of before the tracer changes nothing, and
    [aws_mem_tracer_destroy] releases every piece of the tracer's memory once: what
    it kept about blocks, the stacks, and the tracer itself, though the slots that
    its two tables own are not counted here. *)
Theorem memtrace_counts (hash_ptr : Z -> Z) (hash_frames : list Z -> Z) (works : bool) (lvl frames : Z) (loose : bool) (cs : list trace_call) :
  (forall a, is_u64 (hash_ptr a)) -> 0 < lvl -> sound_calls loose ∅ cs -> Z.of_nat (length cs) < 2 ^ 58 ->
  exists t0 t, aws_mem_tracer_new hash_ptr works lvl frames = Some t0 /\ trace_steps hash_frames cs t0 = Some t
    /\ aws_mem_tracer_count t = Z.of_nat (base.size (in_use cs)) /\ aws_mem_tracer_bytes t = u64 (total (in_use cs))
    /\ aws_mem_tracer_destroy t = Some (∅, ∅, ∅).
Proof.
  intros Hh Hl Hs Hn. destruct (traced_history hash_ptr hash_frames works lvl frames loose cs Hh Hl Hs Hn) as (t0 & t & E0 & E & Hr).
  destruct (represents_counts _ _ _ _ _ _ Hr) as [Ec Eb]. rewrite account_of_sizes in Ec, Eb. exists t0, t. split; [exact E0 |]. split; [exact E |]. split; [exact Ec |].
  assert (release_block tracer_at (itself t) = Some ∅) as Eitself.
  { rewrite (steps_itself _ _ _ _ E), (init_itself _ _ _ _ _ E0). unfold release_block. rewrite lookup_singleton_eq. cbn [mbind option_bind]. now rewrite delete_singleton_eq. }
  destruct Hr as (_ & _ & L & K & (HL & HS & Hlv & _) & _). destruct HL as [(st & Ea & Hst) Hi Hinj _ _]. destruct HS as [Hk Htr Hki _].
  unfold aws_mem_tracer_bytes, aws_mem_tracer_destroy, AWS_MEMTRACE_NONE. destruct (Z.eqb_spec (level t) 0); [lia |]. cbn [negb]. rewrite Ea. split; [exact Eb |].
  - change (@s_destroy_alloc) with (@release_block alloc_info). change (@s_destroy_stacktrace) with (@release_block (list Z)). rewrite (destroy_table _ (fun _ => True) release_one st (fst <$> L) (infos t) Hst).
    + cbn [mbind option_bind]. destruct (Z.eqb_spec (level t) AWS_MEMTRACE_STACKS).
      * destruct Hk as (sk & -> & Hsk). rewrite (destroy_table _ (fun _ => True) release_one sk K (traces t) Hsk Htr Hki); [| now intros ? ?]. cbn [mbind option_bind]. now rewrite Eitself.
      * destruct Hk as [-> ->]. cbn [aws_hash_table_clean_up fst destroy_values mbind option_bind]. rewrite Eitself. cbn [mbind option_bind]. do 3 f_equal. apply map_eq. intros p. rewrite lookup_empty. destruct (traces t !! p) eqn:Ep; [| reflexivity].
        destruct (proj1 (Htr p) ltac:(eauto)) as (a & Eq). now rewrite lookup_empty in Eq.
    + intros p. split.
      * intros [i Ep]. apply Hi in Ep as (a & Ep). exists a. now rewrite lookup_fmap, Ep.
      * intros (a & Ep). rewrite lookup_fmap in Ep. destruct (L !! a) as [[q i] |] eqn:El; [| discriminate]. injection Ep as <-. exists i. apply Hi. eauto.
    + intros a b p E1 E2. rewrite lookup_fmap in E1, E2. destruct (L !! a) as [[? i] |] eqn:E3, (L !! b) as [[? j] |] eqn:E4; try discriminate. injection E1 as ->. injection E2 as ->. exact (Hinj _ _ _ _ _ E3 E4).
    + now intros ? ?.
Qed.

(** Two blocks, one of which is moved; a block of before the tracer; an old block
    that is released. *)
Definition demo_calls : list trace_call :=
  [([1; 2; 3], 10, Trace_acquire 4096 100); ([1; 2; 4], 11, Trace_calloc 8192 3 7); ([1; 2; 3], 12, Trace_realloc 4096 (Some 12288) 200);
   ([1; 2; 3], 13, Trace_release 64); ([1; 2; 3], 14, Trace_acquire 4096 5); ([1; 2; 3], 15, Trace_release 8192)].

Lemma demo_calls_ok : sound_calls false ∅ demo_calls.
Proof. cbn. repeat split; try (vm_compute; reflexivity); left; cbn; lia. Qed.

Definition demo_hash_frames (frames : list Z) : Z := foldl (fun h f => u64 (31 * h + f)) 7 frames.

Lemma memtrace_counts_witness : exists t0 t, aws_mem_tracer_new u64 true 2 8 = Some t0 /\ trace_steps demo_hash_frames demo_calls t0 = Some t
  /\ aws_mem_tracer_count t = 2 /\ aws_mem_tracer_bytes t = 205 /\ aws_mem_tracer_destroy t = Some (∅, ∅, ∅).
Proof.
  assert (forall a, is_u64 (u64 a)) as Hu by (intros a; apply u64_range).
  destruct (memtrace_counts u64 demo_hash_frames true 2 8 false demo_calls Hu ltac:(lia) demo_calls_ok ltac:(cbn; lia)) as (t0 & t & E0 & E & E1 & E2 & E3).
  exists t0, t. split; [exact E0 |]. split; [exact E |]. split; [rewrite E1; vm_compute; reflexivity |]. split; [rewrite E2; vm_compute; reflexivity | exact E3].
Defined.

(** ** Where it goes wrong *)

(** A stack of one frame: the number of bytes to copy wraps around. *)
Example single_frame_wraps : (t ← s_alloc_tracer_init u64 true 2 8; s_trace_mem_acquire demo_hash_frames [7] 0 4096 10 t) = None.
Proof. vm_compute. reflexivity. Qed.

(** A block moves from 4096 to 8192; before the tracer is told, another thread is
    given 4096. What remains in use is 5 + 200 bytes in two blocks. *)
Example realloc_loses_a_block : (t ← s_alloc_tracer_init u64 true 1 8; t ← s_alloc_tracer_track demo_hash_frames [] 0 4096 100 t;
    t ← s_trace_mem_acquire demo_hash_frames [] 1 4096 5 t;
    t ← s_trace_mem_realloc demo_hash_frames [] 2 4096 (Some 8192) 200 t; Some (aws_mem_tracer_bytes t, aws_mem_tracer_count t)) = Some (300, 1).
Proof. vm_compute. reflexivity. Qed.
