(* ===== verification/MemtraceReport.v ===== *)
(** * The report of the memory tracer

    [aws_mem_tracer_dump] of [source/memtrace.c], composed of the hash tables of
    [HashTable.v], their iteration and the priority queues of [PriorityQueue.v].
    What it logs is a list of lines, by their contents; the banners are left out.
    The names of the frames are an argument. The queues hold pointers to records that
    do not change meanwhile: here the records. *)

From Stdlib Require Import Sorting.Sorted.
From S2P Require Import Prelude Math ArrayItems PriorityQueue PriorityQueueSpec PriorityQueueOps PriorityQueueClaims.
From S2P Require Import HashTable HashTableInv HashTableOps HashTableSpec HashTableHistory HashTableIter Memtrace.
Import PriorityQueue HashTable Memtrace.

Local Open Scope Z_scope.

Module MemtraceReport.

(** [trace] is NULL until the names of the frames are collected. *)
Record stack_metadata := mk_meta { trace : option (list Z); count : Z; meta_size : Z }.

(** The table from the hashes of stacks to their metadata, and its memory. *)
Record stack_infos := mk_infos { info_table : hash_table_state; metas : gmap positive stack_metadata; next_meta : positive }.

(** What a line of the log shows. *)
Inductive report_line :=
| Allocated (bytes allocations : Z)
| Leak (bytes : Z) (stacktrace : option (list Z))
| Stack_by_bytes (bytes allocations : Z) (stacktrace : list Z)
| Stack_by_count (allocations bytes : Z) (stacktrace : list Z).

(** The address in a value, not NULL. *)
Definition block_of (value : Z) : option positive := match value with Zpos p => Some p | _ => None end.

(** [aws_hash_table_foreach] with a callback that always continues; [None]: a failed
    assertion or undefined behaviour. *)
Definition each_element {C} (f : C -> aws_hash_element -> option C) (st : hash_table_state) (ctx : C) : option (hash_table_state * C) :=
  match aws_hash_table_foreach (fun ctx el => (AWS_COMMON_HASH_TABLE_ITER_CONTINUE, AWS_ERROR_SUCCESS, c ← ctx; f c el)) st (Some ctx) with
  | Some (_, st, Some ctx) => Some (st, ctx)
  | _ => None
  end.

(** A push, then [AWS_FATAL_ASSERT]. *)
Definition push_item {A} (compare : A -> A -> Z) (q : aws_priority_queue A) (x : A) : option (aws_priority_queue A) :=
  match aws_priority_queue_push compare q x with Some (AWS_OP_SUCCESS, q) => Some q | _ => None end.

Definition new_queue (A : Type) (count : Z) : option (aws_priority_queue A) :=
  match aws_priority_queue_init_dynamic count 8 ∅ with Ok q => Some q | Err _ => None end.

(** [while (aws_priority_queue_size(..))]: pop and log. *)
Fixpoint report_all {A} (compare : A -> A -> Z) (line : A -> option report_line) (fuel : nat) (q : aws_priority_queue A) : option (list report_line) :=
  if aws_priority_queue_size q =? 0 then Some []
  else
    match fuel with
    | O => None
    | S fuel =>
        match aws_priority_queue_pop compare q with
        | Some (Ok x, q) => l ← line x; ls ← report_all compare line fuel q; Some (l :: ls)
        | _ => None
        end
    end.

Definition s_alloc_compare (a b : alloc_info) : Z := Z.b2z (alloc_time b <? alloc_time a).
Definition s_stack_info_compare_size (a b : stack_metadata) : Z := Z.b2z (meta_size a <? meta_size b).
Definition s_stack_info_compare_count (a b : stack_metadata) : Z := Z.b2z (count a <? count b).

Section report.
Context (hash_ptr : Z -> Z).
(** The name of each frame, or NULL. *)
Context (aws_backtrace_symbols : list Z -> list (option (list Z))).

(** [aws_byte_buf_append] to the buffer of 4096 bytes, whose error is ignored. *)
Definition append_text (text from : list Z) : list Z := if 4096 - zlength text <? zlength from then text else text ++ from.

(** The names from the index [idx] on; the loop stops at a frame without a name. *)
Fixpoint symbols_loop (idx : Z) (symbols : list (option (list Z))) (stacktrace : list Z) : list Z :=
  match symbols with
  | [] => stacktrace
  | caller :: symbols =>
      let stacktrace := if 0 <? idx then append_text stacktrace [10] else stacktrace in
      match caller with
      | None | Some [] => stacktrace
      | Some cursor => symbols_loop (idx + 1) symbols (append_text stacktrace cursor)
      end
  end.

Definition s_collect_stack_trace (tracer : alloc_tracer) (ms : gmap positive stack_metadata) (item : aws_hash_element) : option (gmap positive stack_metadata) :=
  stack_info ← block_of (value item);
  m ← ms !! stack_info;
  all_stacks ← stacks tracer;
  match aws_hash_table_find all_stacks (key item) with
  | Some (Some stack_item) =>
      stack ← block_of (value (element (slot_at (slots all_stacks) stack_item)));
      stack_frames ← traces tracer !! stack;
      Some (<[stack_info := mk_meta (Some (symbols_loop 0 (aws_backtrace_symbols stack_frames) [])) (count m) (meta_size m)]> ms)
  | _ => None
  end.

Definition s_stack_info_destroy (p : positive) (ms : gmap positive stack_metadata) : option (gmap positive stack_metadata) :=
  m ← ms !! p; _ ← trace m; Some (delete p ms).

Definition s_collect_stack_stats (live : gmap positive alloc_info) (stack_info : stack_infos) (item : aws_hash_element) : option stack_infos :=
  p ← block_of (value item);
  alloc ← live !! p;
  match aws_hash_table_create (info_table stack_info) (alloc_stack alloc) with
  | Some (Ok (Some stack_item, was_created), st) =>
      let new := next_meta stack_info in
      let stack_info :=
        if was_created : bool then
          mk_infos (write_element st stack_item (key (element (slot_at (slots st) stack_item))) (Zpos new))
            (<[new := mk_meta None 0 0]> (metas stack_info)) (Pos.succ new)
        else mk_infos st (metas stack_info) new in
      stack ← block_of (value (element (slot_at (slots (info_table stack_info)) stack_item)));
      m ← metas stack_info !! stack;
      Some (mk_infos (info_table stack_info)
              (<[stack := mk_meta (trace m) (u64 (count m + 1)) (u64 (meta_size m + alloc_size alloc))]> (metas stack_info)) (next_meta stack_info))
  | _ => None
  end.

Definition s_insert_stacks (compare : stack_metadata -> stack_metadata -> Z) (ms : gmap positive stack_metadata) (pq : aws_priority_queue stack_metadata) (item : aws_hash_element) : option (aws_priority_queue stack_metadata) :=
  p ← block_of (value item); stack ← ms !! p; push_item compare pq stack.

Definition s_insert_allocs (live : gmap positive alloc_info) (allocs : aws_priority_queue alloc_info) (item : aws_hash_element) : option (aws_priority_queue alloc_info) :=
  p ← block_of (value item); alloc ← live !! p; push_item s_alloc_compare allocs alloc.

(** The line of a leak; the table is zeroed memory when there are no stacks. *)
Definition leak_line (stack_info : option (hash_table_state * gmap positive stack_metadata)) (alloc : alloc_info) : option report_line :=
  if negb (alloc_stack alloc =? 0) then
    '(st, ms) ← stack_info;
    match aws_hash_table_find st (alloc_stack alloc) with
    | Some (Some item) =>
        p ← block_of (value (element (slot_at (slots st) item)));
        stack ← ms !! p;
        text ← trace stack;
        Some (Leak (alloc_size alloc) (Some text))
    | _ => None
    end
  else Some (Leak (alloc_size alloc) None).

Definition size_line (stack : stack_metadata) : option report_line := text ← trace stack; Some (Stack_by_bytes (meta_size stack) (count stack) text).
Definition count_line (stack : stack_metadata) : option report_line := text ← trace stack; Some (Stack_by_count (count stack) (meta_size stack) text).

(** A queue of all stacks, logged until it is empty. *)
Definition report_stacks (compare : stack_metadata -> stack_metadata -> Z) (line : stack_metadata -> option report_line) (st : hash_table_state) (ms : gmap positive stack_metadata)
    : option (hash_table_state * list report_line) :=
  q ← new_queue stack_metadata (aws_hash_table_get_entry_count st);
  '(st, q) ← each_element (s_insert_stacks compare ms) st q;
  ls ← report_all compare line (Z.to_nat (aws_priority_queue_size q)) q;
  Some (st, ls).

(** The lines, and the memory of the metadata that is left. *)
Definition aws_mem_tracer_dump (tracer : alloc_tracer) : option (list report_line * gmap positive stack_metadata) :=
  if (level tracer =? AWS_MEMTRACE_NONE) || (allocated tracer =? 0) then Some ([], ∅)
  else
    ast ← allocs tracer;
    let num_allocs := aws_hash_table_get_entry_count ast in
    '(ast, stack_info) ←
      (if level tracer =? AWS_MEMTRACE_STACKS then
         st ← match aws_hash_table_init 64 hash_ptr aws_ptr_eq false true with Ok st => Some st | Err _ => None end;
         '(ast, si) ← each_element (s_collect_stack_stats (infos tracer)) ast (mk_infos st ∅ 1);
         '(st, ms) ← each_element (s_collect_stack_trace tracer) (info_table si) (metas si);
         Some (ast, Some (st, ms))
       else Some (ast, None));
    q ← new_queue alloc_info num_allocs;
    '(ast, q) ← each_element (s_insert_allocs (infos tracer)) ast q;
    leaks ← report_all s_alloc_compare (leak_line stack_info) (Z.to_nat (aws_priority_queue_size q)) q;
    let lines := Allocated (allocated tracer) num_allocs :: leaks in
    match stack_info with
    | None => Some (lines, ∅)
    | Some (st, ms) =>
        '(st, by_size) ← report_stacks s_stack_info_compare_size size_line st ms;
        '(st, by_count) ← report_stacks s_stack_info_compare_count count_line st ms;
        ms ← destroy_values s_stack_info_destroy (fst (aws_hash_table_clean_up (Some st))) ms;
        Some (lines ++ by_size ++ by_count, ms)
    end.
End report.

End MemtraceReport.
Import MemtraceReport.

(** ** Traversals *)

Fixpoint over_items {C} (f : C -> aws_hash_element -> option C) (els : list aws_hash_element) (ctx : C) : option C :=
  match els with [] => Some ctx | el :: els => c ← f ctx el; over_items f els c end.

Lemma over_items_fold {C} (f : C -> aws_hash_element -> option C) els : forall ctx, foldl (fun c el => c ← c; f c el) ctx els = (c ← ctx; over_items f els c).
Proof.
  induction els as [| el els IH]; intros ctx; cbn [foldl over_items]; [now destruct ctx | rewrite IH; now destruct ctx].
Qed.

Lemma each_element_over {C} (f : C -> aws_hash_element -> option C) st M ctx : holds st M -> each_element f st ctx = (c ← over_items f (contents st) ctx; Some (st, c)).
Proof.
  intros H. pose proof (hd_callbacks _ _ H). unfold each_element. rewrite (foreach_continues (fun c el => c ← c; f c el) st (Some ctx) (hd_table _ _ H)).
  rewrite over_items_fold. cbn [mbind option_bind]. unfold contents. now destruct (over_items _ _ _).
Qed.

(** ** The queues *)

Section queues.
Context {A : Type} (compare : A -> A -> Z).
Implicit Types q : aws_priority_queue A.

(** The storage of a queue that was created for pointers. *)
Definition pointers q : Prop := a_dynamic (container q) = true /\ a_item_size (container q) = 8.

Lemma s_swap_pointers q a b q' : s_swap q a b = Some q' -> pointers q -> pointers q'.
Proof.
  unfold s_swap, pointers. destruct (swap_shape (container q) a b) as [<- <-]. cbn [backpointers set_container container]. destruct (backpointers q) as [bps |]; [| intros [= <-]; auto].
  destruct (PriorityQueue.slot_at bps a) as [x |]; [| discriminate]. cbn [mbind option_bind]. destruct (PriorityQueue.slot_at bps b) as [y |]; [| discriminate]. cbn [mbind option_bind].
  destruct (set_index y a _) as [ns |]; [| discriminate]. cbn [mbind option_bind]. destruct (set_index x b ns); [| discriminate]. now intros [= <-].
Qed.

Lemma sift_up_pointers fuel : forall q i moved m q', sift_up_loop compare fuel q i moved = Some (m, q') -> pointers q -> pointers q'.
Proof.
  induction fuel as [| fuel IH]; intros q i moved m q' E H; [discriminate |]. cbn [sift_up_loop] in E. destruct (i =? 0); [now injection E as _ <- |].
  destruct (item_at (container q) (PARENT_OF i)) as [x |]; [| discriminate]. destruct (item_at (container q) i) as [y |]; [| discriminate]. cbn [mbind option_bind] in E.
  destruct (0 <? compare x y); [| now injection E as _ <-]. destruct (s_swap q i (PARENT_OF i)) as [q1 |] eqn:Es; [| discriminate]. cbn [mbind option_bind] in E. exact (IH _ _ _ _ _ E (s_swap_pointers _ _ _ _ Es H)).
Qed.

Lemma push_pointers q a q' : alist_ok (container q) -> aws_priority_queue_push compare q a = Some (AWS_OP_SUCCESS, q') -> pointers q -> pointers q'.
Proof.
  intros Ho E [Hd Hi]. pose proof (push_back_ok (container q) a Ho) as Hp. unfold ArrayItems.step_ok in Hp. cbn [a_step list_error] in Hp. unfold aws_priority_queue_push, aws_priority_queue_push_ref in E.
  destruct (grow_error _ _ _) as [e |]; [rewrite Hp in E; discriminate |]. destruct Hp as (c & Ec & _ & _ & E1 & E2). rewrite Ec in E. cbn [need_backpointers backpointers set_container] in E.
  assert (pointers (set_container q c)) as H by (split; cbn; congruence). unfold pointers in H. cbn [container set_container] in H.
  destruct (backpointers q) as [bps |]; cbn [set_index container backpointers nodes set_container set_backpointers mbind option_bind] in E.
  - destruct (a_set_at bps None (a_len c - 1)) as [[|e] b]; [| discriminate]. cbn [set_index container backpointers nodes set_container set_backpointers mbind option_bind] in E. destruct (s_sift_up compare _ _) as [[m q1] |] eqn:Es; [| discriminate]. injection E as <-. exact (sift_up_pointers _ _ _ _ _ _ Es H).
  - destruct (s_sift_up compare _ _) as [[m q1] |] eqn:Es; [| discriminate]. injection E as <-. exact (sift_up_pointers _ _ _ _ _ _ Es H).
Qed.

Hypothesis preorder : total_preorder compare.

(** A queue of these records. *)
Definition queue_has q (xs : list A) : Prop := pointers q /\ exists es, queue_of compare q es /\ map fst es ≡ₚ xs.

Lemma push_item_ok q xs x : queue_has q xs -> Z.of_nat (length xs) < 2 ^ 59 -> exists q', push_item compare q x = Some q' /\ queue_has q' (x :: xs).
Proof using preorder.
  intros (Hp & es & Hq & HP) Hn. assert (length es = length xs) as Hl by (rewrite <- HP; now rewrite length_map). pose proof (queue_push_ok compare q es x None preorder Hq ltac:(lia)) as H.
  assert (push_refused q None = None) as Er.
  { unfold push_refused, grow_error. destruct Hp as [-> ->]. destruct Hq as (Hr & _). rewrite (pr_len _ _ Hr). cbn [negb andb]. destruct (Z.ltb_spec SIZE_MAX ((Z.of_nat (length es) + 1) * 8)) as [Hbig | _]; [unfold SIZE_MAX in Hbig; lia | reflexivity]. }
  rewrite Er in H. destruct (H ltac:(discriminate)) as (q' & es' & E & Hq' & HP' & _). exists q'. unfold push_item, aws_priority_queue_push. rewrite E. split; [reflexivity |].
  split; [refine (push_pointers q x q' _ E Hp); exact (pr_ok _ _ (proj1 Hq)) |]. exists es'. split; [exact Hq' |]. rewrite HP'. cbn. now rewrite HP.
Qed.

Lemma new_queue_ok n : 0 <= n < 2 ^ 60 -> exists q, new_queue A n = Some q /\ queue_has q [].
Proof using.
  intros Hn. unfold new_queue, aws_priority_queue_init_dynamic, a_init_dynamic. rewrite mul_size_checked_spec by lia. destruct (Z.leb_spec (n * 8) SIZE_MAX) as [Hle | Hgt]; [| unfold SIZE_MAX in Hgt; lia].
  eexists. split; [reflexivity |]. split; [split; reflexivity |]. exists []. split; [| reflexivity]. split; [| split; [intros i Hi x y Hx; now rewrite lookup_nil in Hx | cbn; lia]].
  constructor; cbn; auto; [| intros i x nd E; now rewrite lookup_nil in E]. constructor; cbn; unfold a_size, zlength, SIZE_MAX in *; cbn; rewrite ?length_replicate; lia.
Qed.

Lemma drain_step fuel q out : drain compare (S fuel) q = Some out ->
  (a_len (container q) = 0 /\ out = [])
  \/ (a_len (container q) <> 0 /\ exists x q' out', aws_priority_queue_pop compare q = Some (Ok x, q') /\ drain compare fuel q' = Some out' /\ out = x :: out').
Proof using.
  intros E. cbn [drain] in E. unfold aws_priority_queue_pop in *. destruct (Z.eqb_spec (a_len (container q)) 0) as [H0 | H0]; [left; split; [exact H0 | congruence] | right; split; [exact H0 |]].
  destruct (s_remove_node compare q 0) as [[[x | e] q'] |] eqn:Er; [| | discriminate].
  - destruct (drain compare fuel q') as [out' |] eqn:Ed; [| discriminate]. injection E as <-. exists x, q', out'. auto.
  - exfalso. unfold s_remove_node in Er. destruct (a_get_at (container q) 0) as [[item |] | e'] eqn:Eg; [| discriminate |].
    + repeat (match type of Er with context [mbind _ ?m] => destruct m; [| discriminate] end; cbn [mbind option_bind] in Er). discriminate.
    + unfold a_get_at in Eg. destruct (0 <? a_len (container q)); [discriminate |]. injection Eg as <-. injection Er as <- _. discriminate.
Qed.

(** Logging a queue until it is empty shows the records in order. *)
Lemma report_drain (line : A -> option report_line) (f : A -> report_line) fuel : forall q out,
  drain compare (S fuel) q = Some out -> Forall (fun x => line x = Some (f x)) out -> report_all compare line fuel q = Some (map f out).
Proof using.
  induction fuel as [| fuel IH]; intros q out E HF; apply drain_step in E as [(H0 & ->) | (H0 & x & q' & out' & Ep & Ed & ->)]; unfold aws_priority_queue_size; cbn [report_all]; unfold aws_priority_queue_size.
  - now rewrite H0.
  - discriminate Ed.
  - now rewrite H0.
  - destruct (Z.eqb_spec (a_len (container q)) 0); [contradiction |]. rewrite Ep. apply Forall_cons in HF as [Ex HF]. rewrite Ex. cbn [mbind option_bind]. now rewrite (IH q' out' Ed HF).
Qed.

Lemma report_all_ok q xs (line : A -> option report_line) (f : A -> report_line) : queue_has q xs -> Forall (fun x => line x = Some (f x)) xs ->
  exists out, report_all compare line (Z.to_nat (aws_priority_queue_size q)) q = Some (map f out) /\ out ≡ₚ xs /\ StronglySorted (fun a b => compare a b <= 0) out.
Proof using preorder.
  intros (_ & es & Hq & HP) HF. destruct (drain_spec compare es q (length es) preorder Hq eq_refl) as (out & Ed & Ho & Hs). exists out.
  split; [| split; [now rewrite Ho | exact Hs]]. destruct Hq as (Hr & _). unfold aws_priority_queue_size. rewrite (pr_len _ _ Hr), Nat2Z.id. apply report_drain; [exact Ed |]. now rewrite Ho, HP.
Qed.

(** Putting the records of the elements of a table in a queue. *)
Lemma over_items_push (f : aws_priority_queue A -> aws_hash_element -> option (aws_priority_queue A)) (read : aws_hash_element -> A) els : forall q xs,
  (forall q el, el ∈ els -> f q el = push_item compare q (read el)) -> queue_has q xs -> Z.of_nat (length xs + length els) < 2 ^ 59 ->
  exists q', over_items f els q = Some q' /\ queue_has q' (rev (map read els) ++ xs).
Proof using preorder.
  induction els as [| el els IH]; intros q xs Hf Hq Hn; [exists q; auto |]. cbn [over_items length map rev] in *. rewrite (Hf q el ltac:(left)). destruct (push_item_ok q xs (read el) Hq ltac:(lia)) as (q1 & -> & H1). cbn [mbind option_bind].
  destruct (IH q1 (read el :: xs)) as (q' & E & H'); [intros q0 el0 H0; apply Hf; now right | exact H1 | cbn; lia |]. exists q'. split; [exact E |]. now rewrite <- app_assoc.
Qed.
End queues.

(** All records of a table in order. *)
Lemma table_queue {A} (compare : A -> A -> Z) (f : aws_priority_queue A -> aws_hash_element -> option (aws_priority_queue A)) (read : aws_hash_element -> A) st M :
  total_preorder compare -> holds st M -> Z.of_nat (base.size M) < 2 ^ 58 -> (forall q el, el ∈ contents st -> f q el = push_item compare q (read el)) ->
  exists q q', new_queue A (aws_hash_table_get_entry_count st) = Some q /\ each_element f st q = Some (st, q') /\ queue_has compare q' (rev (map read (contents st))).
Proof.
  intros Hpre H Hn Hf. unfold aws_hash_table_get_entry_count. rewrite (holds_count _ _ H). assert (0 <= Z.of_nat (base.size M) < 2 ^ 60) as Hr by lia. destruct (new_queue_ok compare _ Hr) as (q & Eq & Hq). exists q.
  assert (length (contents st) = base.size M) as Hl by (rewrite (hd_contents _ _ H), length_map; apply length_map_to_list).
  destruct (over_items_push compare Hpre f read (contents st) q [] Hf Hq) as (q' & E & H'); [cbn; lia |]. exists q'. split; [exact Eq |]. split; [| now rewrite app_nil_r in H']. now rewrite (each_element_over f st M q H), E.
Qed.

(** ** The tally *)

Definition with_stack (id : Z) (is_ : list alloc_info) : list alloc_info := filter (fun i => alloc_stack i = id) is_.
Definition bytes_of (is_ : list alloc_info) : Z := foldr (fun i n => alloc_size i + n) 0 is_.

(** The metadata of a stack, whose names are [names]. *)
Definition summary (is_ : list alloc_info) (names : Z -> option (list Z)) (id : Z) : stack_metadata :=
  mk_meta (names id) (u64 (zlength (with_stack id is_))) (u64 (bytes_of (with_stack id is_))).

Record tallied (st : hash_table_state) (ms : gmap positive stack_metadata) (T : gmap Z positive) (is_ : list alloc_info) (names : Z -> option (list Z)) : Prop := {
  tl_table : holds st T;
  tl_meta : forall id p, T !! id = Some p -> ms !! p = Some (summary is_ names id);
  tl_ids : forall id, is_Some (T !! id) <-> exists i, i ∈ is_ /\ alloc_stack i = id;
  tl_metas : forall p, is_Some (ms !! p) -> exists id, T !! id = Some p;
  tl_inj : forall id id' p, T !! id = Some p -> T !! id' = Some p -> id = id'
}.

Lemma with_stack_none id is_ : (forall i, i ∈ is_ -> alloc_stack i <> id) -> with_stack id is_ = [].
Proof. induction is_ as [| i is_ IH]; intros H; [reflexivity |]. unfold with_stack in *. rewrite filter_cons_False by (apply H; left). apply IH. intros j Hj. apply H. now right. Qed.

Lemma with_stack_snoc id is_ i : with_stack id (is_ ++ [i]) = with_stack id is_ ++ (if decide (alloc_stack i = id) then [i] else []).
Proof. unfold with_stack. rewrite filter_app. reflexivity. Qed.

Lemma bytes_of_app a b : bytes_of (a ++ b) = bytes_of a + bytes_of b.
Proof. induction a as [| i a IH]; cbn [bytes_of app foldr]; [reflexivity |]. unfold bytes_of in *. cbn [foldr]. lia. Qed.

Lemma summary_other is_ i id : alloc_stack i <> id -> summary (is_ ++ [i]) (fun _ => None) id = summary is_ (fun _ => None) id.
Proof. intros H. unfold summary. rewrite with_stack_snoc. destruct (decide (alloc_stack i = id)); [contradiction | now rewrite app_nil_r]. Qed.

Lemma summary_counted is_ i : let m := summary is_ (fun _ => None) (alloc_stack i) in
  mk_meta (trace m) (u64 (count m + 1)) (u64 (meta_size m + alloc_size i)) = summary (is_ ++ [i]) (fun _ => None) (alloc_stack i).
Proof.
  unfold summary. cbn [trace count meta_size]. rewrite with_stack_snoc, decide_True, bytes_of_app by reflexivity. unfold zlength. rewrite length_app, Nat2Z.inj_add. cbn [length bytes_of foldr].
  rewrite !u64_add. do 2 f_equal. lia.
Qed.

Lemma summary_new is_ id : with_stack id is_ = [] -> summary is_ (fun _ => None) id = mk_meta None 0 0.
Proof. intros H. unfold summary. now rewrite H. Qed.

(** Blocks are handed out in order. *)
Definition fresh_from (T : gmap Z positive) (next : positive) : Prop := forall id p, T !! id = Some p -> (p < next)%positive.

Lemma tallied_counted st ms T is_ i q next : (forall id p, <[alloc_stack i := q]> T !! id = Some p -> id <> alloc_stack i -> T !! id = Some p) ->
  holds st (<[alloc_stack i := q]> T) -> fresh_from (<[alloc_stack i := q]> T) next ->
  ms !! q = Some (summary is_ (fun _ => None) (alloc_stack i)) ->
  (forall id p, T !! id = Some p -> id <> alloc_stack i -> ms !! p = Some (summary is_ (fun _ => None) id) /\ p <> q) ->
  (forall id, is_Some (T !! id) \/ id = alloc_stack i <-> (exists j, j ∈ is_ /\ alloc_stack j = id) \/ id = alloc_stack i) ->
  (forall p, is_Some (ms !! p) -> p = q \/ exists id, id <> alloc_stack i /\ T !! id = Some p) ->
  (forall id id' p, T !! id = Some p -> T !! id' = Some p -> id = id') ->
  tallied st (<[q := summary (is_ ++ [i]) (fun _ => None) (alloc_stack i)]> ms) (<[alloc_stack i := q]> T) (is_ ++ [i]) (fun _ => None).
Proof.
  intros Hback Hst Hfresh Hq Hm Hids Hmetas Hinj. set (a := alloc_stack i) in *. constructor; [exact Hst | | | |].
  - intros id p E. destruct (decide (id = a)) as [-> | Hne]; [rewrite lookup_insert_eq in E; injection E as <-; apply lookup_insert_eq |].
    destruct (Hm id p (Hback id p E Hne) Hne) as [E' Hp]. rewrite lookup_insert_ne by congruence. rewrite summary_other by (fold a; congruence). exact E'.
  - intros id. transitivity (is_Some (T !! id) \/ id = a); [| rewrite Hids].
    + destruct (decide (id = a)) as [-> | Hne]; [rewrite lookup_insert_eq; split; eauto | rewrite lookup_insert_ne by congruence; split; [auto | intros [|]; [assumption | contradiction]]].
    + split; [intros [(j & Hj & <-) | ->]; [exists j; rewrite elem_of_app; auto | exists i; rewrite elem_of_app, list_elem_of_singleton; auto] |].
      intros (j & Hj & <-). rewrite elem_of_app, list_elem_of_singleton in Hj. destruct Hj as [Hj | ->]; [left; eauto | now right].
  - intros p Hp. destruct (decide (p = q)) as [-> | Hpq]; [exists a; apply lookup_insert_eq |]. rewrite lookup_insert_ne in Hp by congruence. destruct (Hmetas p Hp) as [-> | (id & Hne & E)]; [contradiction |]. exists id. now rewrite lookup_insert_ne.
  - intros id id' p E1 E2. destruct (decide (id = a)) as [-> | N1], (decide (id' = a)) as [-> | N2]; [reflexivity | | |].
    + rewrite lookup_insert_eq in E1. injection E1 as <-. now destruct (Hm id' _ (Hback id' _ E2 N2) N2).
    + rewrite lookup_insert_eq in E2. injection E2 as <-. now destruct (Hm id _ (Hback id _ E1 N1) N1).
    + exact (Hinj id id' p (Hback id p E1 N1) (Hback id' p E2 N2)).
Qed.

Lemma stats_step live st ms next T is_ item p i : tallied st ms T is_ (fun _ => None) -> fresh_from T next -> Z.of_nat (base.size T) < 2 ^ 58 -> block_of (value item) = Some p -> live !! p = Some i ->
  exists si T', s_collect_stack_stats live (mk_infos st ms next) item = Some si /\ tallied (info_table si) (metas si) T' (is_ ++ [i]) (fun _ => None) /\ fresh_from T' (next_meta si) /\ (base.size T' <= S (base.size T))%nat.
Proof.
  intros H Hfresh Hn Ep Ei. unfold s_collect_stack_stats. rewrite Ep. cbn [mbind option_bind]. rewrite Ei. cbn [mbind option_bind info_table metas next_meta]. destruct H as [Hst Hm Hids Hmetas Hinj]. set (a := alloc_stack i).
  destruct (holds_create st T a next Hst Hn) as (k & wc & st' & E & Hw & Hp). rewrite E. clear E. destruct wc.
  - symmetry in Hw. apply bool_decide_eq_true in Hw. destruct Hp as [Hst' Eel]. cbn [info_table metas next_meta]. rewrite Eel. cbn [value block_of mbind option_bind]. rewrite lookup_insert_eq. cbn [mbind option_bind].
    assert (with_stack a is_ = []) as Hnone by (apply with_stack_none; intros j Hj Ej; assert (is_Some (T !! a)) as [x Hx] by (apply Hids; eauto); congruence).
    pose proof (summary_new is_ a Hnone) as Hs. pose proof (summary_counted is_ i) as Hc. fold a in Hc. rewrite Hs in Hc. cbn [trace count meta_size] in Hc |- *. rewrite Hc.
    eexists _, (<[a := next]> T). split; [reflexivity |]. cbn [info_table metas next_meta]. assert (fresh_from (<[a := next]> T) (Pos.succ next)) as Hf'.
    { intros id q Eq. destruct (decide (id = a)) as [-> | Hne]; [rewrite lookup_insert_eq in Eq; injection Eq as <-; lia | rewrite lookup_insert_ne in Eq by congruence; specialize (Hfresh id q Eq); lia]. }
    split; [| split; [exact Hf' | rewrite map_size_insert_None by exact Hw; lia]]. apply (tallied_counted _ _ _ _ _ _ (Pos.succ next)); fold a; auto.
    + intros id q Eq Hne. now rewrite lookup_insert_ne in Eq by congruence.
    + rewrite lookup_insert_eq. now rewrite Hs.
    + intros id q Eq Hne. specialize (Hfresh id q Eq). rewrite lookup_insert_ne by lia. split; [exact (Hm id q Eq) | lia].
    + intros id. now rewrite Hids.
    + intros q Hq. destruct (decide (q = next)) as [-> | Hqn]; [now left | right]. rewrite lookup_insert_ne in Hq by congruence. destruct (Hmetas q Hq) as (id & Eid). exists id. split; [congruence | exact Eid].
  - destruct Hp as [Hst' (q & Eq & Eel)]. cbn [info_table metas next_meta]. rewrite Eel. cbn [value block_of mbind option_bind]. rewrite (Hm a q Eq). cbn [mbind option_bind]. pose proof (summary_counted is_ i) as Hc. cbv zeta in Hc. fold a in Hc. rewrite Hc.
    eexists _, T. split; [reflexivity |]. cbn [info_table metas next_meta]. split; [| split; [exact Hfresh | lia]]. rewrite <- (insert_id T a q Eq) at 1. apply (tallied_counted _ _ _ _ _ _ next); fold a; rewrite ?(insert_id T a q Eq); auto.
    + intros id x Ex Hne. split; [exact (Hm id x Ex) | intros ->; exact (Hne (Hinj _ _ _ Ex Eq))].
    + intros id. now rewrite Hids.
    + intros x Hx. destruct (Hmetas x Hx) as (id & Eid). destruct (decide (id = a)) as [-> | Hne]; [left; congruence | right; eauto].
Qed.

Lemma stats_all live (read : aws_hash_element -> alloc_info) els : forall st ms next T is_,
  tallied st ms T is_ (fun _ => None) -> fresh_from T next -> Z.of_nat (base.size T + length els) < 2 ^ 58 ->
  (forall el, el ∈ els -> exists p, block_of (value el) = Some p /\ live !! p = Some (read el)) ->
  exists si T', over_items (s_collect_stack_stats live) els (mk_infos st ms next) = Some si /\ tallied (info_table si) (metas si) T' (is_ ++ map read els) (fun _ => None)
    /\ (base.size T' <= base.size T + length els)%nat.
Proof.
  induction els as [| el els IH]; intros st ms next T is_ H Hf Hn Hr; [exists (mk_infos st ms next), T; cbn [map length]; rewrite app_nil_r; auto with lia |].
  destruct (Hr el ltac:(left)) as (p & Ep & Ei). cbn [length] in Hn. destruct (stats_step live st ms next T is_ el p _ H Hf ltac:(lia) Ep Ei) as ([st1 ms1 n1] & T1 & E & H1 & Hf1 & Hs1). cbn [info_table metas next_meta] in *.
  cbn [over_items]. rewrite E. cbn [mbind option_bind]. destruct (IH st1 ms1 n1 T1 _ H1 Hf1 ltac:(lia)) as (si & T' & E' & H' & Hs'); [intros x Hx; apply Hr; now right |].
  exists si, T'. split; [exact E' |]. split; [cbn [map]; now rewrite <- app_assoc in H' | cbn [length]; lia].
Qed.

(** ** The names of the frames *)

Lemma find_block st M id p : holds st M -> M !! id = Some p -> exists i, aws_hash_table_find st id = Some (Some i) /\ block_of (value (element (slot_at (slots st) i))) = Some p.
Proof. intros H E. destruct (holds_find st M id H) as (r & Er & Hr). rewrite E in Hr. destruct Hr as (i & -> & Ei). exists i. now rewrite Ei. Qed.

Lemma tallied_names st ms T is_ names names' : tallied st ms T is_ names -> (forall id, is_Some (T !! id) -> names id = names' id) -> tallied st ms T is_ names'.
Proof. intros [H1 H2 H3 H4 H5] E. constructor; auto. intros id p Ep. rewrite (H2 id p Ep). unfold summary. now rewrite E by eauto. Qed.

Lemma holds_items st M : holds st M -> exists xs, contents st = map block_element xs /\ xs ≡ₚ map_to_list M.
Proof. intros H. destruct (Permutation_map_inv _ _ (hd_contents _ _ H)) as (xs & E & HP). exists xs. split; [exact E | now symmetry]. Qed.

Section names.
Context (symbols : list Z -> list (option (list Z))) (tracer : alloc_tracer) (kp : gmap Z (list Z)).

Definition stack_text (kp : gmap Z (list Z)) (id : Z) : list Z := symbols_loop 0 (symbols (default [] (kp !! id))) [].

(** The tracer has the frames of the stack. *)
Definition kept_in (id : Z) : Prop := exists st i q fs, stacks tracer = Some st /\ aws_hash_table_find st id = Some (Some i) /\ block_of (value (element (slot_at (slots st) i))) = Some q
  /\ traces tracer !! q = Some fs /\ kp !! id = Some fs.

Lemma names_step st ms T is_ names id p : tallied st ms T is_ names -> T !! id = Some p -> kept_in id ->
  exists ms', s_collect_stack_trace symbols tracer ms (block_element (id, p)) = Some ms' /\ tallied st ms' T is_ (fun x => if decide (x = id) then Some (stack_text kp id) else names x).
Proof.
  intros [H1 H2 H3 H4 H5] Ep (sst & i & q & fs & Es & Ef & Eq & Efs & Ek). unfold s_collect_stack_trace. cbn [block_element value key fst snd block_of mbind option_bind].
  rewrite (H2 id p Ep). cbn [mbind option_bind]. rewrite Es. cbn [mbind option_bind]. rewrite Ef, Eq. cbn [mbind option_bind]. rewrite Efs. cbn [mbind option_bind]. eexists. split; [reflexivity |]. constructor; auto.
  - intros x y Ey. destruct (decide (x = id)) as [-> | Hx].
    + rewrite Ep in Ey. injection Ey as <-. rewrite lookup_insert_eq. unfold summary, stack_text. rewrite decide_True by reflexivity. now rewrite Ek.
    + rewrite lookup_insert_ne by (intros ->; exact (Hx (H5 _ _ _ Ey Ep))). rewrite (H2 x y Ey). unfold summary. now rewrite decide_False.
  - intros x Hx. destruct (decide (x = p)) as [-> | Hne]; [eauto |]. rewrite lookup_insert_ne in Hx by congruence. auto.
Qed.

Lemma names_all xs : forall st ms T is_ names, tallied st ms T is_ names -> (forall x, x ∈ xs -> T !! x.1 = Some x.2 /\ kept_in x.1) ->
  exists ms', over_items (s_collect_stack_trace symbols tracer) (map block_element xs) ms = Some ms'
    /\ tallied st ms' T is_ (fun id => if decide (id ∈ map fst xs) then Some (stack_text kp id) else names id).
Proof.
  induction xs as [| [id p] xs IH]; intros st ms T is_ names H Hx.
  - exists ms. split; [reflexivity |]. apply (tallied_names _ _ _ _ names); [exact H |]. intros id _. cbn [map]. destruct (decide (id ∈ [])) as [Hin | _]; [now apply elem_of_nil in Hin | reflexivity].
  - destruct (Hx (id, p) ltac:(left)) as [Ep Hk]. cbn [fst snd] in *. destruct (names_step st ms T is_ names id p H Ep Hk) as (ms1 & E1 & H1). cbn [map over_items]. rewrite E1. cbn [mbind option_bind].
    destruct (IH st ms1 T is_ _ H1) as (ms' & E' & H'); [intros x Hin; apply Hx; now right |]. exists ms'. split; [exact E' |]. apply (tallied_names _ _ _ _ _ _ H'). intros x _. cbn [map fst].
    destruct (decide (x ∈ id :: map fst xs)) as [Hin | Hin]; rewrite elem_of_cons in Hin; destruct (decide (x ∈ map fst xs)); try destruct (decide (x = id)) as [-> |]; tauto || reflexivity.
Qed.

(** The metadata of every stack. *)
Lemma names_of_stacks st ms T is_ : tallied st ms T is_ (fun _ => None) -> (forall id, is_Some (T !! id) -> kept_in id) ->
  exists ms', each_element (s_collect_stack_trace symbols tracer) st ms = Some (st, ms') /\ tallied st ms' T is_ (fun id => Some (stack_text kp id)).
Proof.
  intros H Hk. destruct (holds_items st T (tl_table _ _ _ _ _ H)) as (xs & Ec & HP). destruct (names_all xs st ms T is_ _ H) as (ms' & E & H').
  - intros [id p] Hx. rewrite HP in Hx. apply elem_of_map_to_list in Hx. split; [exact Hx | apply Hk; eauto].
  - exists ms'. rewrite (each_element_over _ _ _ _ (tl_table _ _ _ _ _ H)), Ec, E. split; [reflexivity |]. apply (tallied_names _ _ _ _ _ _ H'). intros id [p Ep].
    destruct (decide (id ∈ map fst xs)) as [_ | Hn]; [reflexivity |]. destruct Hn. rewrite list_elem_of_fmap. exists (id, p). split; [reflexivity |]. rewrite HP. now apply elem_of_map_to_list.
Qed.
End names.

(** ** Logging the stacks *)

Lemma rev_perm {A} (l l' : list A) : l ≡ₚ l' -> rev l ≡ₚ l'.
Proof. intros H. now rewrite <- Permutation_rev. Qed.

Section tables.
Context (st : hash_table_state) (ms : gmap positive stack_metadata) (T : gmap Z positive) (is_ : list alloc_info) (text : Z -> list Z).
Hypothesis H : tallied st ms T is_ (fun id => Some (text id)).

Definition all_summaries : list stack_metadata := map (summary is_ (fun id => Some (text id))) (map fst (map_to_list T)).

Lemma report_stacks_ok compare line (f : stack_metadata -> report_line) : total_preorder compare -> Z.of_nat (base.size T) < 2 ^ 58 -> (forall m, is_Some (trace m) -> line m = Some (f m)) ->
  exists out, report_stacks compare line st ms = Some (st, map f out) /\ out ≡ₚ all_summaries /\ StronglySorted (fun a b => compare a b <= 0) out.
Proof using H.
  intros Hpre Hn Hl. set (read el := default (mk_meta None 0 0) (p ← block_of (value el); ms !! p)). destruct (holds_items st T (tl_table _ _ _ _ _ H)) as (xs & Ec & HP).
  assert (forall x, x ∈ xs -> ms !! x.2 = Some (summary is_ (fun id => Some (text id)) x.1)) as Hm.
  { intros [id p] Hx. rewrite HP in Hx. apply elem_of_map_to_list in Hx. exact (tl_meta _ _ _ _ _ H id p Hx). }
  destruct (table_queue compare (s_insert_stacks compare ms) read st T Hpre (tl_table _ _ _ _ _ H) Hn) as (q & q' & E1 & E2 & Hq).
  { intros q el Hel. rewrite Ec, list_elem_of_fmap in Hel. destruct Hel as (x & -> & Hx). unfold s_insert_stacks, read. cbn [block_element value block_of mbind option_bind]. now rewrite (Hm x Hx). }
  assert (map read (contents st) ≡ₚ all_summaries) as Hread.
  { unfold all_summaries. rewrite Ec, !map_map, <- HP. clear - Hm. induction xs as [| x xs IH]; [constructor |]. cbn [map]. unfold read at 1. cbn [block_element value block_of mbind option_bind]. rewrite (Hm x ltac:(left)). cbn. constructor. apply IH. intros y Hy. apply Hm. now right. }
  destruct (report_all_ok compare Hpre q' _ line f Hq) as (out & Eo & Ho & Hs).
  - rewrite (rev_perm _ _ Hread). unfold all_summaries. rewrite !Forall_map. apply Forall_forall. intros x _. apply Hl. eexists. reflexivity.
  - exists out. unfold report_stacks. rewrite E1. cbn [mbind option_bind]. rewrite E2. cbn [mbind option_bind]. rewrite Eo. cbn [mbind option_bind]. split; [reflexivity |]. split; [| exact Hs]. now rewrite Ho, (rev_perm _ _ Hread).
Qed.

(** What a leak shows. *)
Definition leak_of (text : Z -> list Z) (i : alloc_info) : report_line := Leak (alloc_size i) (if alloc_stack i =? 0 then None else Some (text (alloc_stack i))).

Lemma leak_line_ok i : i ∈ is_ -> leak_line (Some (st, ms)) i = Some (leak_of text i).
Proof using H.
  intros Hi. unfold leak_line, leak_of. destruct (alloc_stack i =? 0); [reflexivity |]. cbn [negb mbind option_bind]. assert (is_Some (T !! alloc_stack i)) as [p Ep] by (apply (tl_ids _ _ _ _ _ H); eauto).
  destruct (find_block st T _ p (tl_table _ _ _ _ _ H) Ep) as (k & -> & ->). cbn [mbind option_bind]. now rewrite (tl_meta _ _ _ _ _ H _ _ Ep).
Qed.

(** The memory of the metadata is released. *)
Lemma metas_released : destroy_values s_stack_info_destroy (fst (aws_hash_table_clean_up (Some st))) ms = Some ∅.
Proof using H.
  apply (destroy_table s_stack_info_destroy (fun m => is_Some (trace m))) with (M := T).
  - intros p m x E [y Ey]. unfold s_stack_info_destroy. rewrite E. cbn [mbind option_bind]. now rewrite Ey.
  - exact (tl_table _ _ _ _ _ H).
  - intros p. split; [exact (tl_metas _ _ _ _ _ H p) |]. intros (id & E). rewrite (tl_meta _ _ _ _ _ H id p E). eauto.
  - exact (tl_inj _ _ _ _ _ H).
  - intros p m E. destruct (tl_metas _ _ _ _ _ H p ltac:(eauto)) as (id & Eid). rewrite (tl_meta _ _ _ _ _ H id p Eid) in E. injection E as <-. eexists. reflexivity.
Qed.
End tables.

(** ** The blocks *)

Lemma values_of_fmap {A B} (f : A -> B) (M : gmap Z A) : map snd (map_to_list (f <$> M)) ≡ₚ map (fun x => f x.2) (map_to_list M).
Proof. rewrite map_to_list_fmap. change (map snd (map (prod_map id f) (map_to_list M)) ≡ₚ map (fun x => f x.2) (map_to_list M)). now rewrite map_map. Qed.

Section blocks.
Context (live : gmap positive alloc_info) (L : gmap Z (positive * alloc_info)) (st : hash_table_state).
Hypothesis H : holds st (fst <$> L).
Hypothesis Hlive : forall p i, live !! p = Some i <-> exists b, L !! b = Some (p, i).

Definition read_info (el : aws_hash_element) : alloc_info := default (mk_alloc 0 0 0) (p ← block_of (value el); live !! p).

Lemma block_read el : el ∈ contents st -> exists p, block_of (value el) = Some p /\ live !! p = Some (read_info el).
Proof using H Hlive.
  rewrite (hd_contents _ _ H), list_elem_of_fmap. intros ([a p] & -> & Ha). apply elem_of_map_to_list in Ha. rewrite lookup_fmap in Ha. destruct (L !! a) as [[q i] |] eqn:E; [| discriminate]. injection Ha as ->.
  exists p. split; [reflexivity |]. unfold read_info. cbn [block_element value block_of snd mbind option_bind]. assert (live !! p = Some i) as -> by (apply Hlive; eauto). reflexivity.
Qed.

Lemma blocks_read : map read_info (contents st) ≡ₚ map snd (map_to_list (snd <$> L)).
Proof using H Hlive.
  rewrite (hd_contents _ _ H), map_map, values_of_fmap. rewrite map_to_list_fmap. change (map (fun x => read_info (block_element x)) (map (prod_map id fst) (map_to_list L)) ≡ₚ map (fun x => x.2.2) (map_to_list L)). rewrite map_map.
  assert (map (fun x => read_info (block_element (prod_map id fst x))) (map_to_list L) = map (fun x => x.2.2) (map_to_list L)) as ->; [| reflexivity].
  apply map_ext_in. intros [a [p i]] Hx. apply list_elem_of_In, elem_of_map_to_list in Hx. unfold read_info. cbn [prod_map block_element value block_of fst snd mbind option_bind].
  assert (live !! p = Some i) as -> by (apply Hlive; eauto). reflexivity.
Qed.
End blocks.

Lemma with_stack_perm id a b : a ≡ₚ b -> with_stack id a ≡ₚ with_stack id b.
Proof. intros HP. unfold with_stack. now apply filter_Permutation. Qed.

Lemma summary_perm a b names id : a ≡ₚ b -> summary a names id = summary b names id.
Proof.
  intros HP. apply (with_stack_perm id) in HP. unfold summary. f_equal; f_equal; [unfold zlength; now rewrite HP |].
  unfold bytes_of. induction HP; cbn [foldr]; lia.
Qed.

Definition size_of (m : stack_metadata) : report_line := Stack_by_bytes (meta_size m) (count m) (default [] (trace m)).
Definition count_of (m : stack_metadata) : report_line := Stack_by_count (count m) (meta_size m) (default [] (trace m)).

Lemma b2z_ltb x y : (Z.b2z (x <? y) <= 0 <-> y <= x) /\ (0 < Z.b2z (x <? y) <-> x < y).
Proof. destruct (Z.ltb_spec x y); cbn; lia. Qed.

(** The comparisons by a number. *)
Lemma key_preorder {A} (f : A -> Z) : total_preorder (fun a b => Z.b2z (f a <? f b)) /\ total_preorder (fun a b => Z.b2z (f b <? f a)).
Proof. split; split; intros *; rewrite ?(proj1 (b2z_ltb _ _)), ?(proj2 (b2z_ltb _ _)); lia. Qed.

Lemma size_line_ok m : is_Some (trace m) -> size_line m = Some (size_of m).
Proof. intros [x E]. unfold size_line, size_of. now rewrite E. Qed.

Lemma count_line_ok m : is_Some (trace m) -> count_line m = Some (count_of m).
Proof. intros [x E]. unfold count_line, count_of. now rewrite E. Qed.

Lemma sorted_weaken {A} (R R' : A -> A -> Prop) l : (forall a b, R a b -> R' a b) -> StronglySorted R l -> StronglySorted R' l.
Proof. intros HR. induction 1 as [| a l Hs IH Hf]; constructor; [exact IH |]. eapply Forall_impl; [exact Hf | auto]. Qed.

(** The stacks of the blocks, each once. *)
Definition stack_ids (blocks : list alloc_info) : list Z := elements (list_to_set (map alloc_stack blocks) : gset Z).

Lemma tallied_ids st ms T is_ names blocks : tallied st ms T is_ names -> is_ ≡ₚ blocks -> map fst (map_to_list T) ≡ₚ stack_ids blocks.
Proof.
  intros H HP. unfold stack_ids. apply NoDup_Permutation; [apply (NoDup_fst_map_to_list T) | apply NoDup_elements |].
  intros id. rewrite elem_of_elements, elem_of_list_to_set, !list_elem_of_fmap. transitivity (is_Some (T !! id)).
  - split; [intros ([a p] & -> & Ha); apply elem_of_map_to_list in Ha; cbn; eauto | intros [p E]; exists (id, p); split; [reflexivity | now apply elem_of_map_to_list]].
  - rewrite (tl_ids _ _ _ _ _ H). split; intros (i & Hi & Hj); exists i; [rewrite <- HP | rewrite HP]; auto.
Qed.

(** ** The report *)

(** The frames of the stacks of the blocks are there. *)
Lemma stacks_kept_in t L K kp id : tracer_ok false t L K -> level t = AWS_MEMTRACE_STACKS -> kept_ok K (traces t) kp -> (exists b p i, L !! b = Some (p, i) /\ alloc_stack i = id) -> kept_in t kp id.
Proof.
  intros (_ & HS & _ & Hkn) El Hk (b & p & i & Eb & <-). specialize (Hkn b p i Eb). rewrite El in Hkn. cbn in Hkn. destruct Hkn as [[q Eq] | [? _]]; [| discriminate].
  destruct HS as [Htab Htr _ _]. rewrite El in Htab. destruct Htab as (st & Es & Hst). destruct (find_block st K _ q Hst Eq) as (k & Ef & Ev). destruct (proj2 (Htr q) ltac:(eauto)) as [fs Efs].
  exists st, k, q, fs. pose proof (Hk (alloc_stack i)) as Ek. rewrite Eq in Ek. cbn in Ek. split; [exact Es |]. split; [exact Ef |]. split; [exact Ev |]. split; [exact Efs | congruence].
Qed.

(** The table of the metadata, filled in. *)
Lemma stack_infos_ok hash_ptr symbols t L K kp st : (forall a, is_u64 (hash_ptr a)) -> tracer_ok false t L K -> level t = AWS_MEMTRACE_STACKS -> kept_ok K (traces t) kp -> Z.of_nat (base.size L) < 2 ^ 57 ->
  holds st (fst <$> L) -> exists st0 si ms T, aws_hash_table_init 64 hash_ptr aws_ptr_eq false true = Ok st0 /\ each_element (s_collect_stack_stats (infos t)) st (mk_infos st0 ∅ 1) = Some (st, si)
    /\ each_element (s_collect_stack_trace symbols t) (info_table si) (metas si) = Some (info_table si, ms)
    /\ tallied (info_table si) ms T (map (read_info (infos t)) (contents st)) (fun id => Some (stack_text symbols kp id)) /\ Z.of_nat (base.size T) < 2 ^ 58.
Proof.
  intros Hh H El Hk Hn Hst. pose proof H as ([_ Hlive _ _ _] & _). destruct (holds_new_size 64 hash_ptr ltac:(lia) Hh) as (st0 & E0 & H0). exists st0.
  assert (length (contents st) = base.size L) as Hl by (rewrite (hd_contents _ _ Hst), length_map, length_map_to_list; apply size_fst).
  destruct (stats_all (infos t) (read_info (infos t)) (contents st) st0 ∅ 1 ∅ []) as (si & T & E1 & H1 & Hs1).
  - constructor; auto.
    + intros id p E. now rewrite lookup_empty in E.
    + intros id. rewrite lookup_empty. split; [now intros [] | intros (i & Hi & _); now apply elem_of_nil in Hi].
    + intros p. rewrite lookup_empty. now intros [].
    + intros id id' p E. now rewrite lookup_empty in E.
  - intros id p E. now rewrite lookup_empty in E.
  - rewrite map_size_empty, Hl. lia.
  - intros el Hel. exact (block_read (infos t) L st Hst Hlive el Hel).
  - rewrite map_size_empty, Hl in Hs1. cbn [app] in H1. destruct (names_of_stacks symbols t kp _ _ T _ H1) as (ms & E2 & H2).
    { intros id Hid. apply (tl_ids _ _ _ _ _ H1) in Hid as (i & Hi & <-). apply (stacks_kept_in t L K kp _ H El Hk). rewrite list_elem_of_fmap in Hi. destruct Hi as (el & -> & Hel).
      destruct (block_read (infos t) L st Hst Hlive el Hel) as (p & _ & Ei). apply Hlive in Ei as (b & Eb). eauto. }
    exists si, ms, T. split; [exact E0 |]. split; [now rewrite (each_element_over _ _ _ _ Hst), E1 |]. split; [exact E2 |]. split; [exact H2 | lia].
Qed.

(** What the report of an account shows. *)
Section shows.
Context (symbols : list Z -> list (option (list Z))) (a : account).

Definition blocks_of : list alloc_info := map snd (map_to_list (live a)).
Definition summaries_of : list stack_metadata := map (summary blocks_of (fun id => Some (stack_text symbols (kept a) id))) (stack_ids blocks_of).

Definition shows_stacks (by_size by_count : list stack_metadata) : Prop :=
  by_size ≡ₚ summaries_of /\ StronglySorted (fun x y => meta_size y <= meta_size x) by_size
  /\ by_count ≡ₚ summaries_of /\ StronglySorted (fun x y => count y <= count x) by_count.
End shows.

Lemma report_ok hash_ptr symbols t a k : (forall p, is_u64 (hash_ptr p)) -> represents false (level t) (frames_per_stack t) t a k -> Z.of_nat k < 2 ^ 57 -> allocated t <> 0 ->
  exists leaks by_size by_count,
    aws_mem_tracer_dump hash_ptr symbols t = Some (Allocated (allocated t) (aws_mem_tracer_count t) :: map (leak_of (stack_text symbols (kept a))) leaks ++ map size_of by_size ++ map count_of by_count, ∅)
    /\ leaks ≡ₚ blocks_of a /\ StronglySorted (fun x y => alloc_time x <= alloc_time y) leaks
    /\ if level t =? AWS_MEMTRACE_STACKS then shows_stacks symbols a by_size by_count else by_size = [] /\ by_count = [].
Proof.
  intros Hh (_ & _ & L & K & H & [Ha Hk] & HnL & HnK) Hn Hz. pose proof H as (HL & _ & Hlv & Hkn). destruct HL as [(ast & Ea & Hast) Hlive _ _ _].
  pose proof (blocks_read (infos t) L ast Hast Hlive) as Hblocks. rewrite Ha in Hblocks. fold (blocks_of a) in Hblocks. assert (Z.of_nat (base.size (fst <$> L : gmap Z positive)) < 2 ^ 58) as HnA by (rewrite size_fst; lia).
  destruct (table_queue s_alloc_compare (s_insert_allocs (infos t)) (read_info (infos t)) ast _ (proj2 (key_preorder alloc_time)) Hast HnA) as (q & q' & E1 & E2 & Hq).
  { intros q el Hel. destruct (block_read (infos t) L ast Hast Hlive el Hel) as (p & Ep & Ei). unfold s_insert_allocs. rewrite Ep. cbn [mbind option_bind]. now rewrite Ei. }
  unfold aws_mem_tracer_dump, aws_mem_tracer_count, AWS_MEMTRACE_NONE. destruct (Z.eqb_spec (level t) 0); [lia |]. destruct (Z.eqb_spec (allocated t) 0); [contradiction |]. cbn [orb]. rewrite Ea. cbn [mbind option_bind].
  destruct (Z.eqb_spec (level t) AWS_MEMTRACE_STACKS) as [El | El].
  - destruct (stack_infos_ok hash_ptr symbols t L K (kept a) ast Hh H El Hk ltac:(lia) Hast) as (st0 & si & ms & T & -> & E3 & E4 & HT & HnT). cbn [mbind option_bind]. rewrite E3. cbn [mbind option_bind]. rewrite E4. cbn [mbind option_bind]. rewrite E1. cbn [mbind option_bind]. rewrite E2. cbn [mbind option_bind].
    destruct (report_all_ok s_alloc_compare (proj2 (key_preorder alloc_time)) q' _ (leak_line (Some (info_table si, ms))) (leak_of (stack_text symbols (kept a))) Hq) as (leaks & E5 & Hp & Hs).
    { rewrite (rev_perm _ _ (reflexivity _)). apply Forall_forall. intros i Hi. exact (leak_line_ok _ _ _ _ _ HT i Hi). }
    rewrite E5. cbn [mbind option_bind].
    destruct (report_stacks_ok _ _ _ _ _ HT s_stack_info_compare_size size_line size_of (proj1 (key_preorder meta_size)) HnT size_line_ok) as (by_size & E6 & Hp6 & Hs6). rewrite E6. cbn [mbind option_bind].
    destruct (report_stacks_ok _ _ _ _ _ HT s_stack_info_compare_count count_line count_of (proj1 (key_preorder count)) HnT count_line_ok) as (by_count & E7 & Hp7 & Hs7). rewrite E7. cbn [mbind option_bind].
    rewrite (metas_released _ _ _ _ _ HT). cbn [mbind option_bind]. exists leaks, by_size, by_count. split; [reflexivity |]. split; [now rewrite Hp, (rev_perm _ _ Hblocks) |].
    split; [refine (sorted_weaken _ _ _ _ Hs); intros x y; apply (proj1 (b2z_ltb _ _)) |].
    assert (all_summaries T (map (read_info (infos t)) (contents ast)) (stack_text symbols (kept a)) ≡ₚ summaries_of symbols a) as Hsum.
    { unfold all_summaries, summaries_of. rewrite (tallied_ids _ _ _ _ _ _ HT Hblocks). apply Permutation_refl'. apply map_ext. intros id. now apply summary_perm. }
    split; [now rewrite Hp6 |]. split; [refine (sorted_weaken _ _ _ _ Hs6); intros x y; apply (proj1 (b2z_ltb _ _)) |]. split; [now rewrite Hp7 |]. refine (sorted_weaken _ _ _ _ Hs7). intros x y. apply (proj1 (b2z_ltb _ _)).
  - cbn [mbind option_bind]. rewrite E1. cbn [mbind option_bind]. rewrite E2. cbn [mbind option_bind].
    destruct (report_all_ok s_alloc_compare (proj2 (key_preorder alloc_time)) q' _ (leak_line None) (leak_of (stack_text symbols (kept a))) Hq) as (leaks & E5 & Hp & Hs).
    { rewrite (rev_perm _ _ (reflexivity _)). apply Forall_forall. intros i Hi. rewrite list_elem_of_fmap in Hi. destruct Hi as (el & -> & Hel). destruct (block_read (infos t) L ast Hast Hlive el Hel) as (p & _ & Ei).
      apply Hlive in Ei as (b & Eb). specialize (Hkn b p _ Eb). rewrite (proj2 (Z.eqb_neq _ _) El) in Hkn. unfold leak_line, leak_of. now rewrite Hkn. }
    rewrite E5. cbn [mbind option_bind]. exists leaks, [], []. cbn [map app]. rewrite app_nil_r. split; [reflexivity |]. split; [now rewrite Hp, (rev_perm _ _ Hblocks) |].
    split; [| auto]. refine (sorted_weaken _ _ _ _ Hs). intros x y. apply (proj1 (b2z_ltb _ _)).
Qed.

(** C35: Whatever was called before, as long as every call has a stack, dumping fails no
    assertion and releases all its metadata. It logs the bytes and the number of the
    blocks in use; every block in use once, in the order of their times, with the
    names of the frames that were first seen with its hash; and, when stacks are
    traced, every stack of a block in use once, with the number and the bytes of its
    blocks, by bytes and again by number, largest first. *)
Theorem memtrace_report_correct (hash_ptr : Z -> Z) (hash_frames : list Z -> Z) (symbols : list Z -> list (option (list Z))) (works : bool) (lvl frames : Z) (cs : list trace_call) :
  (forall p, is_u64 (hash_ptr p)) -> 0 < lvl -> sound_calls false ∅ cs -> Z.of_nat (length cs) < 2 ^ 57 -> u64 (total (in_use cs)) <> 0 ->
  let a := account_of hash_frames (init_level works lvl) (init_frames works lvl frames) cs in
  exists t0 t leaks by_size by_count, aws_mem_tracer_new hash_ptr works lvl frames = Some t0 /\ trace_steps hash_frames cs t0 = Some t
    /\ aws_mem_tracer_dump hash_ptr symbols t
       = Some (Allocated (u64 (total (in_use cs))) (Z.of_nat (base.size (in_use cs))) :: map (leak_of (stack_text symbols (kept a))) leaks ++ map size_of by_size ++ map count_of by_count, ∅)
    /\ leaks ≡ₚ blocks_of a /\ StronglySorted (fun x y => alloc_time x <= alloc_time y) leaks
    /\ if init_level works lvl =? AWS_MEMTRACE_STACKS then shows_stacks symbols a by_size by_count else by_size = [] /\ by_count = [].
Proof.
  intros Hh Hl Hs Hn Hz a. destruct (traced_history hash_ptr hash_frames works lvl frames false cs Hh Hl Hs ltac:(lia)) as (t0 & t & E0 & E & Hr). fold a in Hr.
  destruct (represents_counts _ _ _ _ _ _ Hr) as (Ec & Ea). rewrite <- (account_of_sizes hash_frames (init_level works lvl) (init_frames works lvl frames) cs) in *. fold a in Hz |- *.
  pose proof (proj1 Hr) as El. rewrite <- El in *. rewrite <- (proj1 (proj2 Hr)) in Hr.
  destruct (report_ok hash_ptr symbols t a (length cs) Hh Hr Hn) as (leaks & by_size & by_count & Ed & Hrest); [congruence |].
  exists t0, t, leaks, by_size, by_count. split; [exact E0 |]. split; [exact E |]. split; [rewrite Ed, Ec, Ea; reflexivity | exact Hrest].
Qed.

(** The name of a frame is its number. *)
Definition demo_symbols (fs : list Z) : list (option (list Z)) := map (fun f => Some [f]) fs.

Lemma memtrace_report_correct_witness : exists t0 t leaks by_size by_count, aws_mem_tracer_new u64 true 2 8 = Some t0 /\ trace_steps demo_hash_frames demo_calls t0 = Some t
  /\ aws_mem_tracer_dump u64 demo_symbols t = Some (Allocated 205 2 :: map (leak_of (stack_text demo_symbols (kept (account_of demo_hash_frames 2 8 demo_calls)))) leaks ++ map size_of by_size ++ map count_of by_count, ∅)
  /\ map alloc_size leaks ≡ₚ [200; 5] /\ StronglySorted (fun x y => alloc_time x <= alloc_time y) leaks.
Proof.
  assert (forall a, is_u64 (u64 a)) as Hu by (intros a; apply u64_range).
  destruct (memtrace_report_correct u64 demo_hash_frames demo_symbols true 2 8 demo_calls Hu ltac:(lia) demo_calls_ok ltac:(cbn; lia) ltac:(vm_compute; discriminate)) as (t0 & t & leaks & by_size & by_count & E0 & E & Ed & HP & Hs & _).
  exists t0, t, leaks, by_size, by_count. split; [exact E0 |]. split; [exact E |]. split; [rewrite Ed; do 3 f_equal; vm_compute; reflexivity |]. split; [| exact Hs]. rewrite HP. vm_compute. apply perm_swap || reflexivity.
Defined.

(** The stack of a block could not be captured: dumping fails an assertion. *)
Example dump_without_stack : (t ← s_alloc_tracer_init u64 true 2 8; t ← s_trace_mem_acquire demo_hash_frames [] 0 4096 10 t; Some (aws_mem_tracer_dump u64 demo_symbols t)) = Some None.
Proof. vm_compute. reflexivity. Qed.
