(* ===== verification/ThreadScheduler.v ===== *)
(** * The thread scheduler

    [source/thread_scheduler.c]: a task scheduler in a thread of its own, over
    [TaskScheduler.v] and [ref_count.c]. The two queues that the mutex protects and
    their copies on the stack of the thread are lists of tasks, which are in one of
    them at a time; a cancellation node is the task it names, and they are counted
    while they are allocated. What a thread does while it holds the mutex is one
    step, except that the thread of the scheduler holds it between testing whether to
    wake up and falling asleep: the end of the scheduler is announced without the
    mutex. The functions of the tasks do not use the inner scheduler; what they do
    with the thread scheduler are calls like those of any other thread. *)

From S2P Require Import Prelude ArrayItems PriorityQueue PriorityQueueSpec PriorityQueueOps PriorityQueueClaims.
From S2P Require Import LinkedList LinkedListSpec LinkedLists TaskScheduler TaskSchedulerSpec TaskSchedulerCalls TaskSchedulerRun TaskSchedulerClaims Promise.
Import LinkedList PriorityQueue TaskScheduler RefCount.

Local Open Scope Z_scope.

Module ThreadScheduler.

(** Where the thread of the scheduler is. *)
Inductive loop_point :=
| Loop_head
| Filled (list_cpy cancel_list_cpy : list positive)
| Testing (timeout : Z)
| Falling_asleep (timeout : Z)
| Sleeping (woken : bool) (timeout : Z)
| Returned.

Record aws_thread_scheduler := mk_thread_scheduler {
  references : aws_ref_count;
  scheduler : state;
  should_exit : bool;
  scheduling_queue : list positive;
  cancel_queue : list positive;
  cancellation_nodes : Z;
  thread : loop_point;
  released : bool
}.

Definition no_calls (_ : list event) (_ : positive) (_ : aws_task_status) : list action := [].

Definition with_queues (c : aws_thread_scheduler) (q cq : list positive) (nodes : Z) (p : loop_point) : aws_thread_scheduler :=
  mk_thread_scheduler (references c) (scheduler c) (should_exit c) q cq nodes p (released c).
Definition with_thread (c : aws_thread_scheduler) (p : loop_point) : aws_thread_scheduler :=
  with_queues c (scheduling_queue c) (cancel_queue c) (cancellation_nodes c) p.
Definition with_scheduler (c : aws_thread_scheduler) (s : state) (nodes : Z) (p : loop_point) : aws_thread_scheduler :=
  mk_thread_scheduler (references c) s (should_exit c) (scheduling_queue c) (cancel_queue c) nodes p (released c).
Definition with_references (c : aws_thread_scheduler) (rc : aws_ref_count) : aws_thread_scheduler :=
  mk_thread_scheduler rc (scheduler c) (should_exit c) (scheduling_queue c) (cancel_queue c) (cancellation_nodes c) (thread c) (released c).

(** [aws_condition_variable_notify_one], [_all]: one thread can wait. *)
Definition notify (p : loop_point) : loop_point := match p with Sleeping _ timeout => Sleeping true timeout | p => p end.

Section thread.
Context (sch : aws_task_scheduler).

(** [thread_ok], [launched]: what the thread library reports. [None]: NULL. *)
Definition aws_thread_scheduler_new (thread_ok launched : bool) : T (option aws_thread_scheduler) :=
  if negb thread_ok then mret None
  else
    rv ← aws_task_scheduler_init sch;
    match rv with
    | AWS_OP_ERR _ => mret None
    | AWS_OP_SUCCESS =>
        if negb launched then
          _ ← aws_task_scheduler_clean_up no_calls sch 2 0;
          mret None
        else fun s => Some (Some (mk_thread_scheduler (aws_ref_count_init 0 0) s false [] [] 0 Loop_head false), s)
    end.

(** The first loop of [s_thread_fn]. *)
Fixpoint schedule_tasks (list_cpy : list positive) : T unit :=
  match list_cpy with
  | [] => mret tt
  | task :: list_cpy =>
      k ← get_task task;
      _ ← (if negb (timestamp k =? 0) then aws_task_scheduler_schedule_future sch task (timestamp k) else aws_task_scheduler_schedule_now sch task);
      schedule_tasks list_cpy
  end.

(** The second one. *)
Fixpoint cancel_tasks (cancel_list_cpy : list positive) : T unit :=
  match cancel_list_cpy with
  | [] => mret tt
  | task_to_cancel :: cancel_list_cpy =>
      _ ← aws_task_scheduler_cancel_task no_calls task_to_cancel;
      cancel_tasks cancel_list_cpy
  end.

Definition s64 (x : Z) : Z := let y := u64 x in if y <? 2 ^ 63 then y else y - 2 ^ 64.

Definition timeout_of (next_scheduled_task current_time : Z) : Z :=
  if next_scheduled_task =? 2 ^ 64 - 1 then 30 * 1000000000 else s64 (next_scheduled_task - current_time).

(** From the copies to the time of the next task. *)
Definition run_tasks (list_cpy cancel_list_cpy : list positive) (current_time : Z) : T Z :=
  _ ← schedule_tasks list_cpy;
  _ ← cancel_tasks cancel_list_cpy;
  _ ← aws_task_scheduler_run_all no_calls sch 0 current_time;
  r ← aws_task_scheduler_has_tasks sch;
  mret (snd r).

Definition is_empty (l : list positive) : bool := match l with [] => true | _ => false end.

Definition s_thread_should_wake (current_time : Z) (c : aws_thread_scheduler) : option bool :=
  match aws_task_scheduler_has_tasks sch (scheduler c) with
  | Some ((_, next_scheduled_task), _) =>
      Some (should_exit c || negb (is_empty (scheduling_queue c)) || negb (is_empty (cancel_queue c)) || (next_scheduled_task <=? current_time))
  | None => None
  end.

(** A step of the thread, [current_time] being what the clock shows: [None] while it
    sleeps and at its end, [Some None] for undefined behaviour, such as cancelling a
    task whose node is in the queue of other threads. *)
Definition s_thread_fn (current_time : Z) (c : aws_thread_scheduler) : option (option aws_thread_scheduler) :=
  match thread c with
  | Loop_head =>
      Some (Some (if should_exit c then with_thread c Returned
                  else with_queues c [] [] (cancellation_nodes c) (Filled (scheduling_queue c) (cancel_queue c))))
  | Filled list_cpy cancel_list_cpy =>
      if existsb (fun t => bool_decide (t ∈ scheduling_queue c)) cancel_list_cpy then Some None
      else
        Some ('(next_scheduled_task, s) ← run_tasks list_cpy cancel_list_cpy current_time (scheduler c);
              let timeout := timeout_of next_scheduled_task current_time in
              Some (with_scheduler c s (cancellation_nodes c - zlength cancel_list_cpy) (if 0 <? timeout then Testing timeout else Loop_head)))
  | Testing timeout | Sleeping true timeout =>
      Some (wake ← s_thread_should_wake current_time c; Some (with_thread c (if wake : bool then Loop_head else Falling_asleep timeout)))
  | Falling_asleep timeout => Some (Some (with_thread c (Sleeping false timeout)))
  | Sleeping false _ | Returned => None
  end.

(** [None]: no such task. *)
Definition aws_thread_scheduler_schedule_future (task : positive) (time_to_run : Z) (c : aws_thread_scheduler) : option aws_thread_scheduler :=
  '(_, s) ← set_timestamp task time_to_run (scheduler c);
  let c := with_scheduler c s (cancellation_nodes c) (thread c) in
  Some (with_queues c (scheduling_queue c ++ [task]) (cancel_queue c) (cancellation_nodes c) (notify (thread c))).

Definition aws_thread_scheduler_schedule_now (task : positive) (c : aws_thread_scheduler) : option aws_thread_scheduler :=
  aws_thread_scheduler_schedule_future task 0 c.

(** The first node of the task is taken out. *)
Fixpoint remove_task (task : positive) (queue : list positive) : list positive :=
  match queue with
  | [] => []
  | potential_task :: queue => if decide (potential_task = task) then queue else potential_task :: remove_task task queue
  end.

Definition aws_thread_scheduler_cancel_task (task : positive) (c : aws_thread_scheduler) : aws_thread_scheduler :=
  with_queues c (remove_task task (scheduling_queue c)) (cancel_queue c ++ [task]) (cancellation_nodes c + 1) (notify (thread c)).

Definition aws_thread_scheduler_acquire (c : aws_thread_scheduler) : aws_thread_scheduler :=
  with_references c (snd (aws_ref_count_acquire (references c))).

(** [s_destroy_callback] up to joining the thread. *)
Definition begin_destroy (c : aws_thread_scheduler) : aws_thread_scheduler :=
  mk_thread_scheduler (references c) (scheduler c) true (scheduling_queue c) (cancel_queue c) (cancellation_nodes c) (notify (thread c)) (released c).

Definition aws_thread_scheduler_release (c : aws_thread_scheduler) : aws_thread_scheduler :=
  let '(_, zero, rc) := aws_ref_count_release (references c) in
  let c := with_references c rc in
  if zero then begin_destroy c else c.

(** The rest of it, when the thread has returned. *)
Definition finish_destroy (c : aws_thread_scheduler) : option aws_thread_scheduler :=
  '(_, s) ← aws_task_scheduler_clean_up no_calls sch 2 0 (scheduler c);
  Some (mk_thread_scheduler (references c) s (should_exit c) (scheduling_queue c) (cancel_queue c) (cancellation_nodes c) (thread c) true).

Inductive thread_move :=
| Schedule (task : positive) (time_to_run : Z)
| Cancel (task : positive)
| Acquire
| Release
| Run_thread (current_time : Z)
| Time_out
| Wake_up
| Finish_destroy.

(** The thread holds the mutex. *)
Definition locked (c : aws_thread_scheduler) : bool := match thread c with Falling_asleep _ => true | _ => false end.

(** [None]: the step is not possible now. *)
Definition thread_scheduler_step (c : aws_thread_scheduler) (m : thread_move) : option (option aws_thread_scheduler) :=
  if released c then None
  else
    match m with
    | Schedule t time => if locked c || (ref_count (references c) =? 0) then None else Some (aws_thread_scheduler_schedule_future t time c)
    | Cancel t => if locked c || (ref_count (references c) =? 0) then None else Some (Some (aws_thread_scheduler_cancel_task t c))
    | Acquire => if ref_count (references c) =? 0 then None else Some (Some (aws_thread_scheduler_acquire c))
    | Release => if ref_count (references c) =? 0 then None else Some (Some (aws_thread_scheduler_release c))
    | Run_thread now => s_thread_fn now c
    | Time_out => match thread c with Sleeping _ _ => Some (Some (with_thread c Loop_head)) | _ => None end
    | Wake_up => match thread c with Sleeping _ timeout => Some (Some (with_thread c (Sleeping true timeout))) | _ => None end
    | Finish_destroy => if should_exit c then match thread c with Returned => Some (finish_destroy c) | _ => None end else None
    end.
End thread.

End ThreadScheduler.
Import ThreadScheduler.

(** ** The inner scheduler between calls *)

Section inner.
Context (sch : aws_task_scheduler).

(** The tasks that wait, in any order. *)
Definition idle (s : state) (W : list positive) : Prop := exists asap listed queued, ready sch s asap listed queued /\ W ≡ₚ asap ++ listed ++ queued.

Lemma idle_perm s W W' : W ≡ₚ W' -> idle s W -> idle s W'.
Proof using. intros HP (a & l & q & H & HW). exists a, l, q. split; [exact H | now rewrite <- HP]. Qed.

Lemma idle_waits s W : idle s W -> forall t, waits (tasks s) t <-> t ∈ W.
Proof using.
  intros (a & l & q & H & HP) t. rewrite (co_waits _ _ _ (rd_core _ _ _ _ _ H) t), HP. cbn [all_elems map concat snd]. rewrite app_nil_r, <- app_assoc. reflexivity.
Qed.

Lemma idle_nodup s W : idle s W -> NoDup W.
Proof using.
  intros (a & l & q & H & HP). rewrite HP. pose proof (co_nodup _ _ _ (rd_core _ _ _ _ _ H)) as Hn. cbn [all_elems map concat snd] in Hn. now rewrite app_nil_r, <- app_assoc in Hn.
Qed.

(** A call from outside a run. *)
Lemma idle_perform a s a0 l q calls p' : ready sch s a0 l q -> plan_step no_calls a (idle_plan s a0 l q) = Some (calls, p') ->
  exists s' l' q', perform no_calls sch a s = Some (calls, s') /\ ready sch s' (asap p') l' q' /\ l' ++ q' ≡ₚ timed p' /\ tasks s' = known p' /\ ran s' = history p'.
Proof using.
  intros H Hs. destruct (perform_ok no_calls sch false s _ l q a calls p' (ready_represents sch s a0 l q H) Hs) as (s' & l' & q' & E & H'). exists s', l', q'. pose proof H' as [_ _ H1 H2 H3].
  split; [exact E |]. split; [| auto]. apply (ready_kept sch s a0 l q s' p' l' q' H H'); [exact (keeps_t _ _ _ E) |]. rewrite H2. exact (plan_step_known _ _ _ _ _ Hs).
Qed.

Lemma schedule_one s W t k : idle s W -> tasks s !! t = Some k -> scheduled k = false ->
  exists s', (if negb (timestamp k =? 0) then aws_task_scheduler_schedule_future sch t (timestamp k) else aws_task_scheduler_schedule_now sch t) s = Some (tt, s')
    /\ idle s' (t :: W) /\ tasks s' = <[t := mk_task (timestamp k) true]> (tasks s) /\ ran s' = ran s.
Proof using.
  intros (a & l & q & H & HW) Hk Hf. set (act := if negb (timestamp k =? 0) then Schedule_future t (timestamp k) else Schedule_now t).
  assert (exists p', plan_step no_calls act (idle_plan s a l q) = Some ([], p') /\ asap p' ++ timed p' ≡ₚ t :: a ++ l ++ q /\ known p' = <[t := mk_task (timestamp k) true]> (tasks s) /\ history p' = ran s) as (p' & Hs & HP & Hkn & Hh).
  { unfold act. destruct (Z.eqb_spec (timestamp k) 0) as [E0 | E0]; cbn [negb plan_step idle_plan known]; rewrite Hk; cbn [mbind option_bind]; rewrite Hf; eexists; (split; [reflexivity |]); cbn [asap timed known history]; rewrite ?E0.
    - split; [| auto]. rewrite <- app_assoc. symmetry. apply (Permutation_middle a (l ++ q) t).
    - split; [| auto]. symmetry. apply Permutation_middle. }
  destruct (idle_perform act s a l q [] p' H Hs) as (s' & l' & q' & E & H' & HP' & Et & Er). exists s'. split.
  - unfold act in E. destruct (negb (timestamp k =? 0)); cbn [perform] in E; unfold mbind, T_bind in E; match type of E with match ?x with _ => _ end = _ => destruct x as [[[] s1] |] end; try discriminate; now injection E as <-.
  - split; [| now rewrite Et, Er, Hkn, Hh]. exists (asap p'), l', q'. split; [exact H' |]. now rewrite HW, <- HP, HP'.
Qed.

Lemma cancel_one s W t k : idle s W -> tasks s !! t = Some k ->
  exists s', aws_task_scheduler_cancel_task no_calls t s = Some ([], s') /\ idle s' (without t W)
    /\ tasks s' = <[t := mk_task (timestamp k) false]> (tasks s) /\ ran s' = ran s ++ [(t, AWS_TASK_STATUS_CANCELED)].
Proof using.
  intros (a & l & q & H & HW) Hk. destruct (idle_perform (Cancel_task t) s a l q [] (mk_plan [] (without t a) (without t (l ++ q)) (<[t := mk_task (timestamp k) false]> (tasks s)) (ran s ++ [(t, AWS_TASK_STATUS_CANCELED)])) H) as (s' & l' & q' & E & H' & HP & Et & Er).
  - cbn [plan_step]. unfold plan_call. cbn [idle_plan known]. rewrite Hk. reflexivity.
  - exists s'. split; [exact E |]. split; [| auto]. exists (without t a), l', q'. split; [exact H' |]. rewrite HP. cbn [timed]. unfold without. rewrite <- filter_app. now apply filter_Permutation.
Qed.

(** The owner of a task that does not wait sets its time. *)
Lemma retime s W t k tm : idle s W -> tasks s !! t = Some k -> scheduled k = false ->
  exists s', set_timestamp t tm s = Some (tt, s') /\ idle s' W /\ tasks s' = <[t := mk_task tm false]> (tasks s) /\ ran s' = ran s.
Proof using.
  intros (a & l & q & H & HW) Hk Hf. eexists. split; [exact (set_timestamp_run s t k tm Hk) |]. rewrite Hf. unfold with_task. cbn [tasks ran]. split; [| auto]. exists a, l, q. split; [| exact HW].
  assert ((t ∉ l) /\ (t ∉ q)) as [Hl Hq].
  { assert (t ∉ all_elems [(asap_list sch, a); (timed_list sch, l)] ++ q) as Hn by (rewrite <- (co_waits _ _ _ (rd_core _ _ _ _ _ H) t); intros (k' & E & Ew); congruence).
    cbn [all_elems map concat snd] in Hn. rewrite !elem_of_app in Hn. tauto. }
  assert (forall u, u <> t -> time_of (<[t := mk_task tm false]> (tasks s)) u = time_of (tasks s) u) as Htm by (intros u; apply time_insert_ne).
  assert (dom (<[t := mk_task tm false]> (tasks s)) = dom (tasks s)) as Hd by (apply dom_insert_lookup_L; eauto).
  assert (forall u, is_Some (<[t := mk_task tm false]> (tasks s) !! u) -> is_Some (tasks s !! u)) as Hs by (intros u; rewrite <- !elem_of_dom, Hd; auto).
  destruct H as [[C1 C2 C3 C4 C5 C6 C7 C8] R2 R3 R4 R5 R6 R7 R8]. constructor; cbn [tasks node_links timed_queue]; auto.
  - constructor; cbn [tasks node_links timed_queue]; [exact C1 | | exact C3 | | auto | auto | auto | rewrite <- size_dom, Hd, size_dom; exact C8].
    + apply (queue_holds_times (tasks s)); [| exact C2]. intros u Hu. apply Htm. congruence.
    + intros u. rewrite <- C4. unfold waits. destruct (decide (u = t)) as [-> | Hu]; [rewrite lookup_insert_eq | now rewrite lookup_insert_ne by congruence]. split; intros (k' & E & Ew); [injection E as <-; discriminate | congruence].
  - apply (in_time_same (tasks s)); [| exact R2]. intros u Hu. apply Htm. congruence.
Qed.

(** Tasks whose functions call nothing: no calls are counted. *)
Lemma run_loop_quiet fuel calls status : forall s, run_loop no_calls sch fuel calls status s = run_loop no_calls sch fuel 0 status s.
Proof using.
  induction fuel as [| fuel IH]; intros s; [reflexivity |]. cbn [run_loop]. unfold mbind, T_bind. destruct (on_links _ s) as [[[|] s1] |]; try reflexivity.
  destruct (on_links _ s1) as [[t s2] |]; [| reflexivity]. unfold aws_task_run, mbind, T_bind, call_fn. destruct (set_scheduled t false s2) as [[[] s3] |]; [| reflexivity]. unfold no_calls at 1 3. destruct calls; cbn [perform_all]; apply IH.
Qed.

Lemma run_all_quiet calls now status s : s_run_all no_calls sch calls now status s = s_run_all no_calls sch 0 now status s.
Proof using.
  unfold s_run_all, mbind, T_bind. destruct (collect sch now s) as [[[] s1] |]; [| reflexivity]. destruct (tasks_now s1) as [[ts s2] |]; [| reflexivity]. apply run_loop_quiet.
Qed.

(** The plan of a run in which nothing is called. *)
Lemma quiet_runs status xs : forall p, running p = xs -> NoDup (xs ++ asap p ++ timed p) -> (forall t, t ∈ xs -> is_Some (known p !! t)) ->
  exists p', runs no_calls status p p' /\ history p' = history p ++ map (fun t => (t, status)) xs /\ asap p' = asap p /\ timed p' = timed p
    /\ forall t, timestamp <$> known p' !! t = timestamp <$> known p !! t.
Proof using.
  induction xs as [| x xs IH]; intros p Hr Hnd Hk; [exists p; split; [now apply runs_out |]; cbn; rewrite app_nil_r; auto |].
  cbn [app] in Hnd. apply NoDup_cons in Hnd as [Hx Hnd]. rewrite !not_elem_of_app in Hx. destruct Hx as (N1 & N2 & N3). destruct (Hk x ltac:(left)) as [k Ek].
  set (p1 := mk_plan xs (asap p) (timed p) (<[x := mk_task (timestamp k) false]> (known p)) (history p ++ [(x, status)])).
  destruct (IH p1 eq_refl Hnd) as (p' & H1 & H2 & H3 & H4 & H5).
  { intros t Ht. cbn. rewrite <- elem_of_dom, dom_insert_lookup_L by eauto. rewrite elem_of_dom. apply Hk. now right. }
  exists p'. split.
  - eapply runs_next; [exact Hr | | apply does_nothing | exact H1]. unfold plan_call. rewrite Ek. cbn [mbind option_bind]. unfold no_calls, p1. do 2 f_equal. rewrite Hr, (without_none x (asap p) N2), (without_none x (timed p) N3).
    unfold without at 1. rewrite filter_cons_False by tauto. f_equal. now apply filter_out.
  - rewrite H2, H3, H4. cbn [p1 history asap timed]. rewrite <- app_assoc. cbn [app map]. split; [reflexivity |]. split; [reflexivity |]. split; [reflexivity |].
    intros t. rewrite H5. cbn. destruct (decide (t = x)) as [-> | Hne]; [now rewrite lookup_insert_eq, Ek | now rewrite lookup_insert_ne by congruence].
Qed.

Lemma run_one s W now : idle s W -> exists due later s', due ++ later ≡ₚ W /\ (forall u, u ∈ later -> now < time_of (tasks s) u)
  /\ aws_task_scheduler_run_all no_calls sch 0 now s = Some (tt, s') /\ idle s' later
  /\ ran s' = ran s ++ map (fun t => (t, AWS_TASK_STATUS_RUN_READY)) due /\ forall t, timestamp <$> tasks s' !! t = timestamp <$> tasks s !! t.
Proof using.
  intros (a & l & q & H & HW). destruct (run_all_ok no_calls sch s a l q now AWS_TASK_STATUS_RUN_READY H) as (due & later & _ & HP & _ & Hl & Hnd & Hk & Hrun).
  destruct (quiet_runs AWS_TASK_STATUS_RUN_READY (a ++ due) (mk_plan (a ++ due) [] later (tasks s) (ran s)) eq_refl) as (p' & Hr & Hh & Ha & Ht & Hkn); [exact Hnd | intros t Hin; apply Hk, elem_of_app; now left |].
  destruct (Hrun p' Hr) as (n & s' & l' & q' & E & H' & HP' & Et & Er). cbn [asap timed history known] in Ha, Ht, Hh, Hkn. exists (a ++ due), later, s'.
  split; [now rewrite HW, <- HP, app_assoc |]. split; [exact Hl |]. split; [unfold aws_task_scheduler_run_all; rewrite <- (run_all_quiet n); apply E, Nat.le_refl |].
  rewrite Ha in H'. split; [exists [], l', q'; split; [exact H' |]; now rewrite <- Ht, <- HP' |]. rewrite Er, Et. auto.
Qed.

(** ** What the thread does with its copies *)

Definition times_fit (s : state) : Prop := forall t k, tasks s !! t = Some k -> 0 <= timestamp k < 2 ^ 64.

Lemma has_tasks_one s W : idle s W -> times_fit s -> exists b tm, aws_task_scheduler_has_tasks sch s = Some ((b, tm), s).
Proof using.
  intros (a & l & q & H & HW) Hf. destruct (has_tasks_ok sch s a l q H) as (b & tm & E & _); [| eauto].
  intros t Ht. destruct (ready_known sch s a l q t H Ht) as (k & Ek & <-). apply (Hf t k Ek).
Qed.

Lemma same_times_fit s s' : (forall t, timestamp <$> tasks s' !! t = timestamp <$> tasks s !! t) -> times_fit s -> times_fit s'.
Proof using. intros He Hf t k E. specialize (He t). rewrite E in He. cbn in He. destruct (tasks s !! t) as [k0 |] eqn:E0; [| discriminate]. cbn in He. injection He as ->. exact (Hf t k0 E0). Qed.

(** Of a task that does not wait. *)
Definition at_rest (s : state) (t : positive) : Prop := exists k, tasks s !! t = Some k /\ scheduled k = false.

Lemma schedule_all l : forall s W, idle s W -> NoDup l -> (forall t, t ∈ l -> at_rest s t) ->
  exists s', schedule_tasks sch l s = Some (tt, s') /\ idle s' (l ++ W) /\ ran s' = ran s /\ (forall t, timestamp <$> tasks s' !! t = timestamp <$> tasks s !! t)
    /\ forall t, t ∉ l -> tasks s' !! t = tasks s !! t.
Proof using.
  induction l as [| x l IH]; intros s W H Hnd Hl; [exists s; auto |]. apply NoDup_cons in Hnd as [Hx Hnd]. destruct (Hl x ltac:(left)) as (k & Ek & Hf).
  destruct (schedule_one s W x k H Ek Hf) as (s1 & E1 & H1 & T1 & R1). cbn [schedule_tasks]. erewrite bind_T by exact (get_task_run s x k Ek). erewrite bind_T by exact E1.
  destruct (IH s1 (x :: W) H1 Hnd) as (s' & E & H' & R' & T' & N').
  { intros t Ht. destruct (Hl t ltac:(now right)) as (kt & Et & Eft). exists kt. rewrite T1, lookup_insert_ne by congruence. auto. }
  exists s'. split; [exact E |]. split; [refine (idle_perm s' _ _ _ H'); symmetry; apply (Permutation_middle l W x) |]. split; [congruence |]. split.
  - intros t. rewrite T', T1. destruct (decide (t = x)) as [-> | Hne]; [now rewrite lookup_insert_eq, Ek | now rewrite lookup_insert_ne by congruence].
  - intros t Ht. rewrite not_elem_of_cons in Ht. destruct Ht as [Hne Ht]. rewrite N', T1 by exact Ht. now apply lookup_insert_ne.
Qed.

(** The tasks that are still there leave, those cancelled twice once. *)
Lemma cancel_all cs : forall s W, idle s W -> (forall t, t ∈ cs -> is_Some (tasks s !! t)) ->
  exists s' gone W', cancel_tasks cs s = Some (tt, s') /\ idle s' W' /\ W ≡ₚ gone ++ W' /\ (forall t, t ∈ gone -> t ∈ cs)
    /\ ran s' = ran s ++ map (fun t => (t, AWS_TASK_STATUS_CANCELED)) cs /\ (forall t, timestamp <$> tasks s' !! t = timestamp <$> tasks s !! t)
    /\ forall t, at_rest s t -> at_rest s' t.
Proof using.
  induction cs as [| x cs IH]; intros s W H Hc.
  - exists s, [], W. split; [reflexivity |]. split; [exact H |]. split; [reflexivity |]. split; [intros t Ht; now apply elem_of_nil in Ht |]. cbn [map]. rewrite app_nil_r. auto.
  - destruct (Hc x ltac:(left)) as [k Ek]. destruct (cancel_one s W x k H Ek) as (s1 & E1 & H1 & T1 & R1). cbn [cancel_tasks]. erewrite bind_T by exact E1.
    assert (forall t, timestamp <$> tasks s1 !! t = timestamp <$> tasks s !! t) as Ht1 by (intros t; rewrite T1; destruct (decide (t = x)) as [-> | Hne]; [now rewrite lookup_insert_eq, Ek | now rewrite lookup_insert_ne by congruence]).
    destruct (IH s1 (without x W) H1) as (s' & gone & W' & E & H' & HP & Hg & R' & T' & A').
    { intros t Ht. specialize (Ht1 t). destruct (Hc t ltac:(now right)) as [kt Et]. rewrite Et in Ht1. destruct (tasks s1 !! t); [eauto | discriminate]. }
    pose proof (idle_nodup s W H) as Hnd. assert (exists gx, W ≡ₚ gx ++ without x W /\ forall t, t ∈ gx -> t = x) as (gx & Hgx & Hin).
    { destruct (decide (x ∈ W)) as [Hx | Hx].
      - exists [x]. split; [| intros t Ht; now apply list_elem_of_singleton in Ht]. apply list_elem_of_split in Hx as (l1 & l2 & ->). unfold without. rewrite (filter_split x l1 l2 Hnd). symmetry. exact (Permutation_middle l1 l2 x).
      - exists []. split; [now rewrite (without_none x W Hx) | intros t Ht; now apply elem_of_nil in Ht]. }
    exists s', (gx ++ gone), W'. split; [exact E |]. split; [exact H' |]. split; [now rewrite <- app_assoc, <- HP |]. split; [intros t; rewrite elem_of_app, elem_of_cons; intros [Ht | Ht]; auto |].
    split; [rewrite R', R1, <- app_assoc; reflexivity |]. split; [intros t; rewrite T'; apply Ht1 |].
    intros t (kt & Et & Eft). apply A'. unfold at_rest. rewrite T1. destruct (decide (t = x)) as [-> | Hne]; [rewrite lookup_insert_eq; eauto | rewrite lookup_insert_ne by congruence; eauto].
Qed.

Lemma run_copies s W l cs now : idle s W -> times_fit s -> NoDup l -> (forall t, t ∈ l -> at_rest s t) -> (forall t, t ∈ cs -> is_Some (tasks s !! t)) ->
  exists s' tm gone due later, run_tasks sch l cs now s = Some (tm, s') /\ idle s' later /\ times_fit s' /\ l ++ W ≡ₚ gone ++ due ++ later /\ (forall t, t ∈ gone -> t ∈ cs)
    /\ ran s' = ran s ++ map (fun t => (t, AWS_TASK_STATUS_CANCELED)) cs ++ map (fun t => (t, AWS_TASK_STATUS_RUN_READY)) due
    /\ (forall t, is_Some (tasks s !! t) -> is_Some (tasks s' !! t)) /\ (forall u, u ∈ later -> now < time_of (tasks s') u)
    /\ forall t, t ∉ l -> at_rest s t -> at_rest s' t.
Proof using.
  intros H Hf Hnd Hl Hc. destruct (schedule_all l s W H Hnd Hl) as (s1 & E1 & H1 & R1 & T1 & N1).
  destruct (cancel_all cs s1 (l ++ W) H1) as (s2 & gone & W2 & E2 & H2 & HP2 & Hg & R2 & T2 & A2).
  { intros t Ht. specialize (T1 t). destruct (Hc t Ht) as [k Ek]. rewrite Ek in T1. destruct (tasks s1 !! t); [eauto | discriminate]. }
  destruct (run_one s2 W2 now H2) as (due & later & s3 & HP3 & Hlate & E3 & H3 & R3 & T3).
  assert (forall t, timestamp <$> tasks s3 !! t = timestamp <$> tasks s !! t) as Tall by (intros t; now rewrite T3, T2, T1). pose proof (same_times_fit s s3 Tall Hf) as Hf3.
  destruct (has_tasks_one s3 later H3 Hf3) as (b & tm & E4). exists s3, tm, gone, due, later. split.
  { unfold run_tasks. erewrite bind_T by exact E1. erewrite bind_T by exact E2. erewrite bind_T by exact E3. erewrite bind_T by exact E4. reflexivity. }
  split; [exact H3 |]. split; [exact Hf3 |]. split; [now rewrite HP2, HP3 |]. split; [exact Hg |]. split; [rewrite R3, R2, R1; now rewrite <- app_assoc |].
  split; [intros t [k Ek]; specialize (Tall t); rewrite Ek in Tall; destruct (tasks s3 !! t); [eauto | discriminate] |]. split.
  - intros u Hu. specialize (Hlate u Hu). specialize (T3 u). unfold time_of in *. destruct (tasks s3 !! u), (tasks s2 !! u); cbn in *; try discriminate; [injection T3 as ->; exact Hlate | exact Hlate].
  - intros t Ht Hr. pose proof (A2 t ltac:(unfold at_rest in *; rewrite N1 by exact Ht; exact Hr)) as (k2 & E & Ef).
    assert (~ waits (tasks s2) t) as Hw by (intros (k' & E' & Ew); congruence). rewrite (idle_waits s2 W2 H2) in Hw.
    specialize (T3 t). rewrite E in T3. cbn in T3. destruct (tasks s3 !! t) as [k3 |] eqn:Et3; [| discriminate]. exists k3. split; [exact Et3 |].
    destruct (scheduled k3) eqn:Es; [| reflexivity]. assert (t ∈ later) as Hin by (apply (idle_waits s3 later H3); exists k3; auto). destruct Hw. rewrite <- HP3, elem_of_app. now right.
Qed.
End inner.

(** ** What becomes of the tasks *)

Definition list_copy (c : aws_thread_scheduler) : list positive := match thread c with Filled l _ => l | _ => [] end.
Definition cancel_copy (c : aws_thread_scheduler) : list positive := match thread c with Filled _ cs => cs | _ => [] end.

(** The tasks that were called with a status, in order. *)
Definition called (status : aws_task_status) (h : list event) : list positive := map fst (filter (fun e => e.2 = status) h).

Lemma called_app status h h' : called status (h ++ h') = called status h ++ called status h'.
Proof. unfold called. now rewrite filter_app, map_app. Qed.

Lemma called_cons status status' t h : called status ((t, status') :: h) = (if decide (status' = status) then [t] else []) ++ called status h.
Proof. unfold called. rewrite filter_cons. cbn [snd]. now destruct (decide (status' = status)). Qed.

Lemma called_same status l : called status (map (fun t => (t, status)) l) = l.
Proof. induction l as [| t l IH]; [reflexivity |]. cbn [map]. rewrite called_cons, decide_True, IH by reflexivity. reflexivity. Qed.

Lemma called_other status status' l : status' <> status -> called status (map (fun t => (t, status')) l) = [].
Proof. intros H. induction l as [| t l IH]; [reflexivity |]. cbn [map]. now rewrite called_cons, decide_False, IH by exact H. Qed.

(** No thread sleeps while there is something in a queue. *)
Definition not_missed (c : aws_thread_scheduler) : Prop :=
  match thread c with Falling_asleep _ | Sleeping false _ => scheduling_queue c = [] /\ cancel_queue c = [] | _ => True end.

Section run.
Context (sch : aws_task_scheduler).

(** [sd], [cn], [wd]: the tasks scheduled, those cancelled, and those taken out before
    they ran; [W]: those that wait in the inner scheduler. *)
Record keeps_account (c : aws_thread_scheduler) (sd cn wd W : list positive) : Prop := {
  ka_idle : idle sch (scheduler c) W;
  ka_fit : times_fit (scheduler c);
  ka_nodup : NoDup (scheduling_queue c ++ list_copy c);
  ka_rest : forall t, t ∈ scheduling_queue c ++ list_copy c -> at_rest (scheduler c) t;
  ka_known : forall t, t ∈ cancel_copy c ++ cancel_queue c -> is_Some (tasks (scheduler c) !! t) /\ t ∉ scheduling_queue c;
  ka_scheduled : sd ≡ₚ called AWS_TASK_STATUS_RUN_READY (ran (scheduler c)) ++ wd ++ scheduling_queue c ++ list_copy c ++ W;
  ka_cancelled : cn = called AWS_TASK_STATUS_CANCELED (ran (scheduler c)) ++ cancel_copy c ++ cancel_queue c;
  ka_withdrawn : forall t, t ∈ wd -> t ∈ cn;
  ka_nodes : cancellation_nodes c = zlength (cancel_copy c ++ cancel_queue c);
  ka_awake : not_missed c;
  ka_refs : 0 <= ref_count (references c) < 2 ^ 64;
  ka_exit : should_exit c = true <-> ref_count (references c) = 0;
  ka_returned : thread c = Returned -> should_exit c = true;
  ka_alive : released c = false
}.

(** What the program may do: schedule a task that is not scheduled and has no
    cancellation on its way, cancel any task, hold references. *)
Definition allowed (c : aws_thread_scheduler) (m : thread_move) : Prop :=
  match m with
  | Schedule t time => at_rest (scheduler c) t /\ (t ∉ scheduling_queue c ++ list_copy c) /\ (t ∉ cancel_copy c ++ cancel_queue c) /\ is_u64 time
  | Cancel t => is_Some (tasks (scheduler c) !! t)
  | Acquire => ref_count (references c) < 2 ^ 64 - 1
  | Finish_destroy => False
  | _ => True
  end.

Definition scheduled_by (m : thread_move) : list positive := match m with Schedule t _ => [t] | _ => [] end.
Definition cancelled_by (m : thread_move) : list positive := match m with Cancel t => [t] | _ => [] end.

Lemma notify_copies p : match notify p with Filled l _ => l | _ => [] end = match p with Filled l _ => l | _ => [] end
  /\ match notify p with Filled _ cs => cs | _ => [] end = match p with Filled _ cs => cs | _ => [] end.
Proof using. now destruct p. Qed.

Lemma removed_perm t q : t ∈ q -> q ≡ₚ t :: remove_task t q.
Proof using.
  induction q as [| u q IH]; intros Hin; [now apply elem_of_nil in Hin |]. cbn [remove_task]. destruct (decide (u = t)) as [-> | Hu]; [reflexivity |].
  apply elem_of_cons in Hin as [-> | Hin]; [contradiction |]. rewrite (IH Hin) at 1. apply perm_swap.
Qed.

Lemma removed_none t q : t ∉ q -> remove_task t q = q.
Proof using. induction q as [| u q IH]; intros H; [reflexivity |]. apply not_elem_of_cons in H as [Hu H]. cbn [remove_task]. rewrite decide_False by congruence. now rewrite IH. Qed.

Lemma schedule_ok c sd cn wd W t time : keeps_account c sd cn wd W -> allowed c (Schedule t time) -> locked c = false -> ref_count (references c) <> 0 ->
  exists c', aws_thread_scheduler_schedule_future t time c = Some c' /\ keeps_account c' (sd ++ [t]) cn wd W.
Proof using.
  intros [H1 H2 H3 H4 H5 H6 H7 H8 H9 H10 H11 H12 H13 H14] (Hr & Hq & Hc & Ht) Hlock Href. destruct Hr as (k & Ek & Hf). unfold aws_thread_scheduler_schedule_future.
  destruct (retime sch (scheduler c) W t k time H1 Ek Hf) as (s' & E & H1' & T' & R'). rewrite E. cbn [mbind option_bind]. eexists. split; [reflexivity |].
  assert (forall u, at_rest (scheduler c) u -> at_rest s' u) as Hrest.
  { intros u (ku & Eu & Efu). unfold at_rest. rewrite T'. destruct (decide (u = t)) as [-> | Hu]; [rewrite lookup_insert_eq; eauto | rewrite lookup_insert_ne by congruence; eauto]. }
  unfold list_copy, cancel_copy in *. destruct (notify_copies (thread c)) as [N1 N2].
  constructor; unfold with_queues, with_scheduler, list_copy, cancel_copy; cbn [references scheduler should_exit scheduling_queue cancel_queue cancellation_nodes thread released]; rewrite ?N1, ?N2; auto.
  - intros u ku Eu. rewrite T' in Eu. destruct (decide (u = t)) as [-> | Hu]; [rewrite lookup_insert_eq in Eu; injection Eu as <-; exact Ht | rewrite lookup_insert_ne in Eu by congruence; exact (H2 u ku Eu)].
  - rewrite <- app_assoc. cbn [app]. rewrite <- Permutation_middle. constructor; auto.
  - intros u. rewrite <- app_assoc. cbn [app]. rewrite <- Permutation_middle, elem_of_cons. intros [-> | Hu]; apply Hrest; [exists k; auto | auto].
  - intros u Hu. destruct (H5 u Hu) as [[ku Eu] Hn]. split; [rewrite T', <- elem_of_dom, dom_insert_lookup_L, elem_of_dom by eauto; eauto |]. rewrite elem_of_app, list_elem_of_singleton. intros [? | ->]; auto.
  - rewrite R', H6. rewrite <- !app_assoc. do 3 apply Permutation_app_head. rewrite (app_assoc _ W [t]). apply Permutation_app_comm.
  - now rewrite R'.
  - unfold not_missed in *. cbn [thread]. unfold locked in Hlock. now destruct (thread c) as [| | | | [] |].
  - destruct (thread c) as [| | | | [] |]; cbn; try discriminate; auto.
Qed.

Lemma cancel_move_ok c sd cn wd W t : keeps_account c sd cn wd W -> is_Some (tasks (scheduler c) !! t) -> locked c = false -> exists wd', keeps_account (aws_thread_scheduler_cancel_task t c) sd (cn ++ [t]) wd' W.
Proof using.
  intros [H1 H2 H3 H4 H5 H6 H7 H8 H9 H10 H11 H12 H13 H14] Hk Hlock. destruct (notify_copies (thread c)) as [N1 N2]. pose proof H3 as H3'. apply NoDup_app in H3' as (Hnd & _ & _).
  assert (t ∉ remove_task t (scheduling_queue c)) as Hout.
  { destruct (decide (t ∈ scheduling_queue c)) as [Hin | Hin]; [| now rewrite removed_none]. rewrite (removed_perm t _ Hin) in Hnd. now apply NoDup_cons in Hnd as [? _]. }
  assert (exists gone, scheduling_queue c ≡ₚ gone ++ remove_task t (scheduling_queue c) /\ forall u, u ∈ gone -> u = t) as (gone & HP & Hg).
  { destruct (decide (t ∈ scheduling_queue c)) as [Hin | Hin]; [exists [t]; split; [exact (removed_perm t _ Hin) | intros u Hu; now apply list_elem_of_singleton in Hu] | exists []; split; [now rewrite removed_none | intros u Hu; now apply elem_of_nil in Hu]]. }
  assert (forall u, u ∈ remove_task t (scheduling_queue c) -> u ∈ scheduling_queue c) as Hsub by (intros u Hu; rewrite HP, elem_of_app; now right).
  exists (wd ++ gone). unfold aws_thread_scheduler_cancel_task, with_queues. unfold list_copy, cancel_copy in *.
  constructor; unfold list_copy, cancel_copy; cbn [references scheduler should_exit scheduling_queue cancel_queue cancellation_nodes thread released]; rewrite ?N1, ?N2; auto.
  - rewrite HP, <- app_assoc in H3. now apply NoDup_app in H3 as (_ & _ & H3).
  - intros u Hu. apply H4. rewrite elem_of_app in *. destruct Hu; auto.
  - intros u. rewrite app_assoc, elem_of_app, list_elem_of_singleton. intros [Hu | ->]; [| auto]. destruct (H5 u Hu) as [? Hn]. auto.
  - rewrite H6. apply Permutation_app_head. rewrite <- (app_assoc wd gone). apply Permutation_app_head. rewrite HP at 1. now rewrite <- app_assoc.
  - rewrite H7, <- !app_assoc. reflexivity.
  - intros u. rewrite !elem_of_app. intros [Hu | Hu]; [left; auto | right; apply list_elem_of_singleton; auto].
  - rewrite H9. unfold zlength. rewrite !length_app. cbn [length]. lia.
  - unfold not_missed in *. cbn [thread]. unfold locked in Hlock. now destruct (thread c) as [| | | | [] |].
  - destruct (thread c) as [| | | | [] |]; cbn; try discriminate; auto.
Qed.

(** The thread goes to another point of the loop without a change of anything else. *)
Lemma point_ok c sd cn wd W p : keeps_account c sd cn wd W -> list_copy c = [] -> cancel_copy c = [] -> (match p with Filled _ _ => False | Returned => should_exit c = true | _ => True end) ->
  not_missed (with_thread c p) -> keeps_account (with_thread c p) sd cn wd W.
Proof using.
  intros [H1 H2 H3 H4 H5 H6 H7 H8 H9 H10 H11 H12 H13 H14] L1 L2 Hp Hm. rewrite L1, L2 in *.
  assert (list_copy (with_thread c p) = [] /\ cancel_copy (with_thread c p) = []) as [E1 E2] by (unfold list_copy, cancel_copy; cbn [with_thread with_queues thread]; destruct p; [auto | contradiction | auto..]).
  constructor; rewrite ?E1, ?E2; auto. cbn [with_thread with_queues thread should_exit]. intros ->. exact Hp.
Qed.

Lemma head_ok c sd cn wd W : keeps_account c sd cn wd W -> thread c = Loop_head ->
  keeps_account (if should_exit c then with_thread c Returned else with_queues c [] [] (cancellation_nodes c) (Filled (scheduling_queue c) (cancel_queue c))) sd cn wd W.
Proof using.
  intros H Hp. assert (list_copy c = [] /\ cancel_copy c = []) as [L1 L2] by (unfold list_copy, cancel_copy; now rewrite Hp). destruct (should_exit c) eqn:Ex; [now apply point_ok |].
  destruct H as [H1 H2 H3 H4 H5 H6 H7 H8 H9 H10 H11 H12 H13 H14]. rewrite L1, L2 in *.
  constructor; unfold list_copy, cancel_copy, with_queues; cbn [references scheduler should_exit scheduling_queue cancel_queue cancellation_nodes thread released]; rewrite ?app_nil_r in *; auto; [| | discriminate].
  - intros t Ht. destruct (H5 t Ht) as [Hk _]. split; [exact Hk | apply not_elem_of_nil].
  - exact I.
Qed.

Lemma filled_ok c sd cn wd W l cs now : keeps_account c sd cn wd W -> thread c = Filled l cs ->
  exists c' wd' W', s_thread_fn sch now c = Some (Some c') /\ keeps_account c' sd cn wd' W' /\ list_copy c' = [] /\ cancel_copy c' = [] /\ (thread c' = Loop_head \/ exists timeout, thread c' = Testing timeout)
    /\ scheduling_queue c' = scheduling_queue c /\ cancel_queue c' = cancel_queue c /\ should_exit c' = should_exit c /\ forall u, u ∈ W' -> now < time_of (tasks (scheduler c')) u.
Proof using.
  intros [H1 H2 H3 H4 H5 H6 H7 H8 H9 H10 H11 H12 H13 H14] Hp. unfold list_copy, cancel_copy, s_thread_fn in *. rewrite Hp in *.
  assert (existsb (fun t => bool_decide (t ∈ scheduling_queue c)) cs = false) as ->.
  { apply not_true_is_false. rewrite existsb_exists. intros (t & Ht & Hb). apply bool_decide_eq_true in Hb. apply list_elem_of_In in Ht. destruct (H5 t) as [_ Hn]; [rewrite elem_of_app; now left | contradiction]. }
  pose proof H3 as H3'. apply NoDup_app in H3' as (Hq & Hdis & Hl).
  destruct (run_copies sch (scheduler c) W l cs now H1 H2 Hl) as (s' & tm & gone & due & later & E & I' & F' & HP & Hg & R' & K' & Late & Rest').
  { intros t Ht. apply H4. rewrite elem_of_app. now right. }
  { intros t Ht. apply H5. rewrite elem_of_app. now left. }
  rewrite E. cbn [mbind option_bind]. eexists _, (wd ++ gone), later. split; [reflexivity |]. set (p := if 0 <? _ then _ else _). set (c' := with_scheduler c s' _ p).
  assert (p = Loop_head \/ exists timeout, p = Testing timeout) as Hpp by (unfold p; destruct (0 <? _); eauto).
  assert (list_copy c' = [] /\ cancel_copy c' = []) as [E1 E2] by (unfold list_copy, cancel_copy; cbn [c' with_scheduler thread]; destruct Hpp as [-> | [? ->]]; auto).
  split; [| split; [exact E1 | split; [exact E2 | split; [exact Hpp | auto]]]].
  assert (called AWS_TASK_STATUS_RUN_READY (ran s') = called AWS_TASK_STATUS_RUN_READY (ran (scheduler c)) ++ due) as C1 by (rewrite R', !called_app, called_same, called_other by discriminate; reflexivity).
  assert (called AWS_TASK_STATUS_CANCELED (ran s') = called AWS_TASK_STATUS_CANCELED (ran (scheduler c)) ++ cs) as C2 by (rewrite R', !called_app, called_same, called_other by discriminate; now rewrite app_nil_r).
  constructor; rewrite ?E1, ?E2; cbn [c' with_scheduler references scheduler should_exit scheduling_queue cancel_queue cancellation_nodes thread released app]; rewrite ?app_nil_r; auto.
  - intros t Ht. apply Rest'; [exact (Hdis t Ht) | apply H4; rewrite elem_of_app; now left].
  - intros t Ht. destruct (H5 t) as [Hk Hn]; [rewrite elem_of_app; now right |]. auto.
  - rewrite H6, C1, <- !app_assoc. apply Permutation_app_head. rewrite HP, (Permutation_app_swap_app due wd). apply Permutation_app_head.
    rewrite (Permutation_app_swap_app (scheduling_queue c) gone), (Permutation_app_swap_app due gone). apply Permutation_app_head, Permutation_app_swap_app.
  - now rewrite H7, C2, <- !app_assoc.
  - intros t. rewrite elem_of_app. intros [Ht | Ht]; [auto |]. rewrite H7, !elem_of_app. right. left. auto.
  - rewrite H9. unfold zlength. rewrite length_app. lia.
  - unfold not_missed. cbn [thread]. now destruct Hpp as [-> | [? ->]].
  - destruct Hpp as [-> | [? ->]]; discriminate.
Qed.

Lemma testing_ok c sd cn wd W now timeout : keeps_account c sd cn wd W -> thread c = Testing timeout \/ thread c = Sleeping true timeout ->
  exists c', s_thread_fn sch now c = Some (Some c') /\ keeps_account c' sd cn wd W /\ scheduling_queue c' = scheduling_queue c /\ cancel_queue c' = cancel_queue c /\ should_exit c' = should_exit c
    /\ (thread c' = Loop_head \/ (thread c' = Falling_asleep timeout /\ should_exit c = false /\ scheduling_queue c = [] /\ cancel_queue c = [])).
Proof using.
  intros H Hp. assert (list_copy c = [] /\ cancel_copy c = []) as [L1 L2] by (unfold list_copy, cancel_copy; destruct Hp as [-> | ->]; auto).
  destruct (has_tasks_one sch (scheduler c) W (ka_idle _ _ _ _ _ H) (ka_fit _ _ _ _ _ H)) as (b & tm & E).
  assert (s_thread_fn sch now c = Some (wake ← s_thread_should_wake sch now c; Some (with_thread c (if wake : bool then Loop_head else Falling_asleep timeout)))) as -> by (unfold s_thread_fn; destruct Hp as [-> | ->]; reflexivity).
  unfold s_thread_should_wake. rewrite E. cbn [mbind option_bind]. set (w := _ || _). eexists. split; [reflexivity |]. destruct w eqn:Ew.
  - split; [now apply point_ok |]. cbn. auto.
  - unfold w in Ew. apply orb_false_iff in Ew as [Ew _]. apply orb_false_iff in Ew as [Ew W3]. apply orb_false_iff in Ew as [W1 W2].
    assert (scheduling_queue c = [] /\ cancel_queue c = []) as Hq by (destruct (scheduling_queue c), (cancel_queue c); cbn in W2, W3; try discriminate; auto).
    split; [now apply point_ok |]. cbn. tauto.
Qed.

Lemma release_move_ok c sd cn wd W : keeps_account c sd cn wd W -> ref_count (references c) <> 0 -> keeps_account (aws_thread_scheduler_release c) sd cn wd W.
Proof using.
  intros [H1 H2 H3 H4 H5 H6 H7 H8 H9 H10 H11 H12 H13 H14] Hr. destruct (notify_copies (thread c)) as [N1 N2]. assert (u64 (ref_count (references c) - 1) = ref_count (references c) - 1) as Eu by (apply u64_small; unfold is_u64; lia).
  unfold aws_thread_scheduler_release. cbn [aws_ref_count_release]. unfold list_copy, cancel_copy in *. destruct (Z.eqb_spec (ref_count (references c)) 1) as [E1 | E1].
  - constructor; unfold begin_destroy, with_references, list_copy, cancel_copy; cbn [references scheduler should_exit scheduling_queue cancel_queue cancellation_nodes thread released ref_count]; rewrite ?N1, ?N2, ?Eu; auto; [| lia | split; [lia | reflexivity]].
    unfold not_missed in *. cbn [thread scheduling_queue cancel_queue]. now destruct (thread c) as [| | | | [] |].
  - constructor; unfold with_references, list_copy, cancel_copy; cbn [references scheduler should_exit scheduling_queue cancel_queue cancellation_nodes thread released ref_count]; rewrite ?Eu; auto; [lia |].
    rewrite H12. split; lia.
Qed.

(** A move is possible, and the account goes on. *)
Lemma thread_step_ok c sd cn wd W m r : keeps_account c sd cn wd W -> allowed c m -> thread_scheduler_step sch c m = Some r ->
  exists c' wd' W', r = Some c' /\ keeps_account c' (sd ++ scheduled_by m) (cn ++ cancelled_by m) wd' W'.
Proof using.
  intros H Ha E. unfold thread_scheduler_step in E. rewrite (ka_alive _ _ _ _ _ H) in E. destruct m as [t time | t | | | now | | |]; cbn [scheduled_by cancelled_by]; rewrite ?app_nil_r.
  - destruct (locked c) eqn:El; [discriminate |]. destruct (Z.eqb_spec (ref_count (references c)) 0) as [| Hr]; [discriminate |]. cbn [orb] in E. injection E as <-. destruct (schedule_ok c sd cn wd W t time H Ha El Hr) as (c' & E & H'). eauto.
  - destruct (locked c) eqn:El; [discriminate |]. destruct (Z.eqb_spec (ref_count (references c)) 0) as [| Hr]; [discriminate |]. injection E as <-. destruct (cancel_move_ok c sd cn wd W t H Ha El) as (wd' & H'). eauto.
  - destruct (Z.eqb_spec (ref_count (references c)) 0) as [| Hr]; [discriminate |]. injection E as <-. eexists _, wd, W. split; [reflexivity |]. destruct H as [H1 H2 H3 H4 H5 H6 H7 H8 H9 H10 H11 H12 H13 H14].
    cbn [allowed] in Ha. assert (u64 (ref_count (references c) + 1) = ref_count (references c) + 1) as Eu by (apply u64_small; unfold is_u64; lia).
    constructor; unfold aws_thread_scheduler_acquire, with_references; cbn [aws_ref_count_acquire snd references scheduler should_exit scheduling_queue cancel_queue cancellation_nodes thread released ref_count]; rewrite ?Eu; auto; [lia |]. rewrite H12. split; lia.
  - destruct (Z.eqb_spec (ref_count (references c)) 0) as [| Hr]; [discriminate |]. injection E as <-. exists (aws_thread_scheduler_release c), wd, W. split; [reflexivity | now apply release_move_ok].
  - destruct (thread c) as [| l cs | timeout | timeout | [] timeout |] eqn:Ep.
    + unfold s_thread_fn in E. rewrite Ep in E. injection E as <-. eexists _, wd, W. split; [reflexivity | now apply head_ok].
    + destruct (filled_ok c sd cn wd W l cs now H Ep) as (c' & wd' & W' & E' & H' & _). rewrite E in E'. injection E' as ->. eauto.
    + destruct (testing_ok c sd cn wd W now timeout H (or_introl Ep)) as (c' & E' & H' & _). rewrite E in E'. injection E' as ->. eauto.
    + unfold s_thread_fn in E. rewrite Ep in E. injection E as <-. eexists _, wd, W. split; [reflexivity |]. apply point_ok; auto; unfold list_copy, cancel_copy; try now rewrite Ep. pose proof (ka_awake _ _ _ _ _ H) as Hm. unfold not_missed in *. now rewrite Ep in Hm.
    + destruct (testing_ok c sd cn wd W now timeout H (or_intror Ep)) as (c' & E' & H' & _). rewrite E in E'. injection E' as ->. eauto.
    + unfold s_thread_fn in E. rewrite Ep in E. discriminate.
    + unfold s_thread_fn in E. rewrite Ep in E. discriminate.
  - destruct (thread c) as [| | | | b timeout |] eqn:Ep; try discriminate. injection E as <-. eexists _, wd, W. split; [reflexivity |]. apply point_ok; auto; unfold list_copy, cancel_copy; now rewrite Ep.
  - destruct (thread c) as [| | | | b timeout |] eqn:Ep; try discriminate. injection E as <-. eexists _, wd, W. split; [reflexivity |]. apply point_ok; auto; unfold list_copy, cancel_copy; now rewrite Ep.
  - contradiction.
Qed.
End run.

Section life.
Context (sch : aws_task_scheduler).

Inductive thread_run (c0 : aws_thread_scheduler) : list thread_move -> aws_thread_scheduler -> Prop :=
| run_start : thread_run c0 [] c0
| run_move ms c m c' : thread_run c0 ms c -> allowed c m -> thread_scheduler_step sch c m = Some (Some c') -> thread_run c0 (ms ++ [m]) c'.

Lemma run_trans c0 ms c ms' c' : thread_run c0 ms c -> thread_run c ms' c' -> thread_run c0 (ms ++ ms') c'.
Proof using. intros H. induction 1 as [| ms' c1 m c2 H1 IH Ha E]; [now rewrite app_nil_r |]. rewrite app_assoc. exact (run_move _ _ _ _ _ IH Ha E). Qed.

Lemma run_one_move c m c' : allowed c m -> thread_scheduler_step sch c m = Some (Some c') -> thread_run c [m] c'.
Proof using. intros Ha E. change [m] with ([] ++ [m]). exact (run_move _ _ _ _ _ (run_start c) Ha E). Qed.

Definition scheduled_tasks (ms : list thread_move) : list positive := concat (map scheduled_by ms).
Definition cancelled_tasks (ms : list thread_move) : list positive := concat (map cancelled_by ms).

Lemma thread_run_keeps c0 ms c sd cn wd W : keeps_account sch c0 sd cn wd W -> thread_run c0 ms c -> exists wd' W', keeps_account sch c (sd ++ scheduled_tasks ms) (cn ++ cancelled_tasks ms) wd' W'.
Proof using.
  intros H. induction 1 as [| ms c m c' H1 (wd1 & W1 & IH) Ha E]; [exists wd, W; unfold scheduled_tasks, cancelled_tasks; cbn; now rewrite !app_nil_r |].
  destruct (thread_step_ok sch c _ _ wd1 W1 m _ IH Ha E) as (c2 & wd2 & W2 & [= <-] & H2). exists wd2, W2. unfold scheduled_tasks, cancelled_tasks in *. rewrite !map_app, !concat_app, !app_assoc. cbn [map concat]. now rewrite !app_nil_r.
Qed.

Lemma new_ok s : fresh sch s -> times_fit s -> ran s = [] -> exists c s', aws_thread_scheduler_new sch true true s = Some (Some c, s') /\ keeps_account sch c [] [] [] [].
Proof using.
  intros Hf Ht Hr. destruct (init_scheduler_ok sch s Hf) as (s' & E & H & Et & Er). unfold aws_thread_scheduler_new. cbn [negb]. eexists _, s'. split; [erewrite bind_T by exact E; reflexivity |].
  constructor; cbn; auto; try lia; try discriminate.
  - exists [], [], []. split; [exact H | reflexivity].
  - intros t k. rewrite Et. apply Ht.
  - constructor.
  - intros t Hin. now apply elem_of_nil in Hin.
  - intros t Hin. now apply elem_of_nil in Hin.
  - now rewrite Er, Hr.
  - now rewrite Er, Hr.
Qed.

(** ** The end *)

Lemma cancel_loop_quiet calls fuel : forall s, cancel_loop no_calls sch fuel calls s = cancel_loop no_calls sch fuel 0 s.
Proof using.
  induction fuel as [| fuel IH]; intros s; [reflexivity |]. cbn [cancel_loop]. unfold mbind, T_bind. destruct (aws_task_scheduler_has_tasks sch s) as [[[b tm] s1] |]; [| reflexivity]. destruct (negb _); [reflexivity |].
  rewrite (run_all_quiet sch calls). destruct (s_run_all _ _ 0 _ _ s1) as [[[] s2] |]; [apply IH | reflexivity].
Qed.

Lemma clean_up_quiet calls fuel s : aws_task_scheduler_clean_up no_calls sch fuel calls s = aws_task_scheduler_clean_up no_calls sch fuel 0 s.
Proof using.
  unfold aws_task_scheduler_clean_up, mbind, T_bind. destruct (aws_task_scheduler_is_valid sch s) as [[[] s1] |]; [| reflexivity | reflexivity]. rewrite cancel_loop_quiet. reflexivity.
Qed.

(** What still waits in the inner scheduler is cancelled; the queues are left. *)
Lemma finish_destroy_ok c sd cn wd W : keeps_account sch c sd cn wd W -> thread c = Returned -> aws_priority_queue_is_valid (timed_queue (scheduler c)) = true ->
  exists c' due, thread_scheduler_step sch c Finish_destroy = Some (Some c') /\ released c' = true /\ due ≡ₚ W
    /\ ran (scheduler c') = ran (scheduler c) ++ map (fun t => (t, AWS_TASK_STATUS_CANCELED)) due
    /\ scheduling_queue c' = scheduling_queue c /\ cancellation_nodes c' = cancellation_nodes c.
Proof using.
  intros H Hp Hv. destruct (ka_idle _ _ _ _ _ _ H) as (a & l & q & Hr & HW). destruct (scheduler_clean_ok no_calls sch (scheduler c) a l q Hr) as (due & n & s' & _ & HP & E & Er & _).
  - intros t Ht. destruct (ready_known sch _ a l q t Hr Ht) as (k & Ek & <-). apply (ka_fit _ _ _ _ _ _ H t k Ek).
  - reflexivity.
  - exact Hv.
  - eexists _, (a ++ due). unfold thread_scheduler_step, finish_destroy. rewrite (ka_alive _ _ _ _ _ _ H), (ka_returned _ _ _ _ _ _ H Hp), Hp. rewrite <- (clean_up_quiet n), (E 2%nat n) by lia. cbn [mbind option_bind].
    split; [reflexivity |]. cbn. split; [reflexivity |]. split; [now rewrite HP, HW |]. auto.
Qed.

(** ** Progress *)

Definition thread_moves (m : thread_move) : Prop := match m with Run_thread _ | Time_out => True | _ => False end.
Definition runs_only (m : thread_move) : Prop := match m with Run_thread _ => True | _ => False end.

(** The queues are empty, and what waits is not due. *)
Definition served (now : Z) (c : aws_thread_scheduler) : Prop :=
  scheduling_queue c = [] /\ cancel_queue c = [] /\ list_copy c = [] /\ cancel_copy c = [] /\ forall t, waits (tasks (scheduler c)) t -> now < time_of (tasks (scheduler c)) t.

Lemma run_thread_step c sd cn wd W now c' : keeps_account sch c sd cn wd W -> s_thread_fn sch now c = Some (Some c') -> thread_run c [Run_thread now] c'.
Proof using. intros H E. apply run_one_move; [exact I |]. unfold thread_scheduler_step. now rewrite (ka_alive _ _ _ _ _ _ H). Qed.

(** From the head of the loop: two steps. *)
Lemma head_serves c sd cn wd W now : keeps_account sch c sd cn wd W -> thread c = Loop_head -> should_exit c = false -> exists c', thread_run c [Run_thread now; Run_thread now] c' /\ served now c'.
Proof using.
  intros H Hp Hx. pose proof (head_ok sch c sd cn wd W H Hp) as H1. rewrite Hx in H1. set (c1 := with_queues c [] [] _ _) in H1.
  assert (s_thread_fn sch now c = Some (Some c1)) as E1 by (unfold s_thread_fn; now rewrite Hp, Hx).
  destruct (filled_ok sch c1 sd cn wd W (scheduling_queue c) (cancel_queue c) now H1 eq_refl) as (c2 & wd2 & W2 & E2 & H2 & L1 & L2 & _ & Q1 & Q2 & _ & Hw). exists c2. split.
  - change [Run_thread now; Run_thread now] with ([Run_thread now] ++ [Run_thread now]). exact (run_trans _ _ _ _ _ (run_thread_step c sd cn wd W now c1 H E1) (run_thread_step c1 sd cn wd W now c2 H1 E2)).
  - split; [exact Q1 |]. split; [exact Q2 |]. split; [exact L1 |]. split; [exact L2 |]. intros t Ht. apply Hw. now apply (idle_waits sch _ W2 (ka_idle _ _ _ _ _ _ H2)).
Qed.

(** To the head of the loop, while the thread has not returned: without a time-out
    unless it is about to sleep or asleep. *)
Definition to_head (now : Z) (c : aws_thread_scheduler) : Prop :=
  exists ms c' sd cn wd W, thread_run c ms c' /\ keeps_account sch c' sd cn wd W /\ thread c' = Loop_head /\ should_exit c' = should_exit c /\ (length ms <= 4)%nat /\ Forall thread_moves ms
    /\ (scheduling_queue c <> [] \/ cancel_queue c <> [] -> Forall runs_only ms).

Lemma sleeper_to_head now c sd cn wd W ms c1 : thread_run c ms c1 -> keeps_account sch c1 sd cn wd W -> (exists timeout, thread c1 = Falling_asleep timeout \/ thread c1 = Sleeping false timeout) -> should_exit c1 = should_exit c ->
  scheduling_queue c1 = scheduling_queue c -> cancel_queue c1 = cancel_queue c -> (length ms <= 2)%nat -> Forall thread_moves ms -> to_head now c.
Proof using.
  intros Hrun H (timeout & Hp) Hx Q1 Q2 Hl Hm. pose proof (ka_awake _ _ _ _ _ _ H) as Haw. assert (scheduling_queue c = [] /\ cancel_queue c = []) as [N1 N2] by (unfold not_missed in Haw; destruct Hp as [-> | ->] in Haw; rewrite <- Q1, <- Q2; exact Haw).
  assert (exists ms2 c2, thread_run c (ms ++ ms2) c2 /\ keeps_account sch c2 sd cn wd W /\ thread c2 = Sleeping false timeout /\ should_exit c2 = should_exit c /\ (length ms2 <= 1)%nat /\ Forall thread_moves ms2) as (ms2 & c2 & R2 & H2 & P2 & X2 & L2 & M2).
  { destruct Hp as [Hp | Hp].
    - exists [Run_thread now], (with_thread c1 (Sleeping false timeout)). split; [apply (run_trans _ _ c1); [exact Hrun |]; apply (run_thread_step c1 sd cn wd W); [exact H | unfold s_thread_fn; now rewrite Hp] |].
      split; [apply point_ok; [exact H | unfold list_copy; now rewrite Hp | unfold cancel_copy; now rewrite Hp | exact I | unfold not_missed in *; now rewrite Hp in Haw] |]. split; [reflexivity |]. split; [exact Hx |]. split; [apply Nat.le_refl | repeat constructor].
    - exists [], c1. rewrite app_nil_r. split; [exact Hrun |]. split; [exact H |]. split; [exact Hp |]. split; [exact Hx |]. split; [apply Nat.le_0_l | constructor]. }
  exists ((ms ++ ms2) ++ [Time_out]), (with_thread c2 Loop_head), sd, cn, wd, W. split; [apply (run_move _ _ c2); [exact R2 | exact I |]; unfold thread_scheduler_step; now rewrite (ka_alive _ _ _ _ _ _ H2), P2 |].
  split; [apply point_ok; [exact H2 | unfold list_copy; now rewrite P2 | unfold cancel_copy; now rewrite P2 | exact I | exact I] |]. split; [reflexivity |]. split; [exact X2 |]. split; [rewrite !length_app; cbn; lia |].
  split; [rewrite !Forall_app; repeat split; auto; repeat constructor |]. rewrite N1, N2. intros [? | ?]; contradiction.
Qed.

Lemma tester_to_head now c sd cn wd W ms c1 : thread_run c ms c1 -> keeps_account sch c1 sd cn wd W -> (exists timeout, thread c1 = Testing timeout \/ thread c1 = Sleeping true timeout) -> should_exit c1 = should_exit c ->
  scheduling_queue c1 = scheduling_queue c -> cancel_queue c1 = cancel_queue c -> (length ms <= 1)%nat -> Forall runs_only ms -> to_head now c.
Proof using.
  intros Hrun H (timeout & Hp) Hx Q1 Q2 Hl Hm. destruct (testing_ok sch c1 sd cn wd W now timeout H Hp) as (c2 & E & H2 & S1 & S2 & X2 & Hcase). pose proof (run_trans _ _ _ _ _ Hrun (run_thread_step c1 sd cn wd W now c2 H E)) as Hrun2.
  assert (Forall runs_only (ms ++ [Run_thread now])) as Hm2 by (apply Forall_app; split; [exact Hm | repeat constructor]). assert (Forall thread_moves (ms ++ [Run_thread now])) as Hm3 by (eapply Forall_impl; [exact Hm2 |]; now intros []).
  destruct Hcase as [P2 | (P2 & X3 & _)].
  - exists (ms ++ [Run_thread now]), c2, sd, cn, wd, W. split; [exact Hrun2 |]. split; [exact H2 |]. split; [exact P2 |]. split; [congruence |]. split; [rewrite length_app; cbn; lia |]. auto.
  - apply (sleeper_to_head now c sd cn wd W (ms ++ [Run_thread now]) c2 Hrun2 H2); [eauto | congruence | congruence | congruence | rewrite length_app; cbn; lia | exact Hm3].
Qed.

Lemma reaches_head now c sd cn wd W : keeps_account sch c sd cn wd W -> thread c <> Returned -> to_head now c.
Proof using.
  intros H Hr. destruct (thread c) as [| l cs | timeout | timeout | [] timeout |] eqn:Hp; [| | | | | | contradiction].
  - exists [], c, sd, cn, wd, W. split; [constructor |]. split; [exact H |]. split; [exact Hp |]. split; [reflexivity |]. split; [apply Nat.le_0_l |]. split; constructor.
  - destruct (filled_ok sch c sd cn wd W l cs now H Hp) as (c1 & wd1 & W1 & E & H1 & _ & _ & Hcase & S1 & S2 & X1 & _). pose proof (run_thread_step c sd cn wd W now c1 H E) as Hrun. destruct Hcase as [P1 | (timeout & P1)].
    + exists [Run_thread now], c1, sd, cn, wd1, W1. split; [exact Hrun |]. split; [exact H1 |]. split; [exact P1 |]. split; [exact X1 |]. split; [cbn; lia |]. split; [| intros _]; repeat constructor.
    + apply (tester_to_head now c sd cn wd1 W1 [Run_thread now] c1 Hrun H1); eauto; repeat constructor.
  - apply (tester_to_head now c sd cn wd W [] c (run_start c) H); eauto; apply Nat.le_0_l.
  - apply (sleeper_to_head now c sd cn wd W [] c (run_start c) H); eauto; apply Nat.le_0_l.
  - apply (tester_to_head now c sd cn wd W [] c (run_start c) H); eauto; apply Nat.le_0_l.
  - apply (sleeper_to_head now c sd cn wd W [] c (run_start c) H); eauto; apply Nat.le_0_l.
Qed.
End life.

(** ** Theorems *)

(** C11: In any interleaving of threads that schedule and cancel tasks while they hold
    references with the thread of the scheduler, no step is undefined, and every
    scheduled task is accounted for: it ran, was taken out by a cancellation, or
    waits, once for each time it was scheduled. Every cancellation calls its task with
    CANCELED once, in order, or is on its way, and its node is released then. When the
    last reference is gone and the thread has returned, what waits in the inner
    scheduler is cancelled; what is left in the scheduling queue is never called. *)
Theorem thread_scheduler_conserves sch s0 : fresh sch s0 -> times_fit s0 -> ran s0 = [] ->
  exists c0 s1, aws_thread_scheduler_new sch true true s0 = Some (Some c0, s1)
    /\ forall ms c, thread_run sch c0 ms c ->
       (forall m, allowed c m -> thread_scheduler_step sch c m <> Some None)
       /\ exists withdrawn waiting, (forall t, t ∈ waiting <-> waits (tasks (scheduler c)) t)
          /\ scheduled_tasks ms ≡ₚ called AWS_TASK_STATUS_RUN_READY (ran (scheduler c)) ++ withdrawn ++ scheduling_queue c ++ list_copy c ++ waiting
          /\ cancelled_tasks ms = called AWS_TASK_STATUS_CANCELED (ran (scheduler c)) ++ cancel_copy c ++ cancel_queue c
          /\ (forall t, t ∈ withdrawn -> t ∈ cancelled_tasks ms)
          /\ cancellation_nodes c = zlength (cancel_copy c ++ cancel_queue c)
          /\ (thread c = Returned -> aws_priority_queue_is_valid (timed_queue (scheduler c)) = true ->
              exists c' due, thread_scheduler_step sch c Finish_destroy = Some (Some c') /\ released c' = true /\ due ≡ₚ waiting
                /\ ran (scheduler c') = ran (scheduler c) ++ map (fun t => (t, AWS_TASK_STATUS_CANCELED)) due
                /\ scheduling_queue c' = scheduling_queue c /\ cancellation_nodes c' = cancellation_nodes c).
Proof.
  intros Hf Ht Hr. destruct (new_ok sch s0 Hf Ht Hr) as (c0 & s1 & E & H0). exists c0, s1. split; [exact E |]. intros ms c Hrun. destruct (thread_run_keeps sch c0 ms c [] [] [] [] H0 Hrun) as (wd & W & H). cbn [app] in H. split.
  - intros m Ha Hn. destruct (thread_step_ok sch c _ _ wd W m None H Ha Hn) as (c' & _ & _ & E' & _). discriminate.
  - exists wd, W. split; [intros t; symmetry; apply (idle_waits sch); exact (ka_idle _ _ _ _ _ _ H) |]. split; [exact (ka_scheduled _ _ _ _ _ _ H) |]. split; [exact (ka_cancelled _ _ _ _ _ _ H) |].
    split; [exact (ka_withdrawn _ _ _ _ _ _ H) |]. split; [exact (ka_nodes _ _ _ _ _ _ H) |]. intros Hp Hv. exact (finish_destroy_ok sch c _ _ wd W H Hp Hv).
Qed.

(** C12: The thread never gets stuck. From any state, whatever the clock shows, it takes
    it at most six steps of its own to have emptied both queues and called every task
    that is due; it needs no time-out when a queue was not empty, so that no wake-up
    by scheduling or cancelling is lost. Once the last reference is gone it returns,
    though a time-out may be needed. *)
Theorem thread_scheduler_progress sch s0 now : fresh sch s0 -> times_fit s0 -> ran s0 = [] ->
  exists c0 s1, aws_thread_scheduler_new sch true true s0 = Some (Some c0, s1)
    /\ forall ms c, thread_run sch c0 ms c ->
       (should_exit c = false -> exists ms' c', (length ms' <= 6)%nat /\ Forall thread_moves ms'
          /\ (scheduling_queue c <> [] \/ cancel_queue c <> [] -> Forall runs_only ms') /\ thread_run sch c ms' c' /\ served now c')
       /\ (should_exit c = true -> exists ms' c', (length ms' <= 5)%nat /\ Forall thread_moves ms' /\ thread_run sch c ms' c' /\ thread c' = Returned).
Proof.
  intros Hf Ht Hr. destruct (new_ok sch s0 Hf Ht Hr) as (c0 & s1 & E & H0). exists c0, s1. split; [exact E |]. intros ms c Hrun. destruct (thread_run_keeps sch c0 ms c [] [] [] [] H0 Hrun) as (wd & W & H). split; intros Hx.
  - destruct (reaches_head sch now c _ _ wd W H) as (ms1 & c1 & sd & cn & wd1 & W1 & R1 & H1 & P1 & X1 & L1 & M1 & Q1); [intros Hp; rewrite (ka_returned _ _ _ _ _ _ H Hp) in Hx; discriminate |].
    destruct (head_serves sch c1 sd cn wd1 W1 now H1 P1) as (c2 & R2 & S2); [congruence |]. exists (ms1 ++ [Run_thread now; Run_thread now]), c2. split; [rewrite length_app; cbn; lia |].
    split; [apply Forall_app; split; [exact M1 | repeat constructor] |]. split; [intros Hq; apply Forall_app; split; [exact (Q1 Hq) | repeat constructor] |]. split; [exact (run_trans sch _ _ _ _ _ R1 R2) | exact S2].
  - destruct (thread c) as [| | | | |] eqn:Hp; [.. | exists [], c; split; [apply Nat.le_0_l |]; split; [constructor |]; split; [constructor | exact Hp]];
      (destruct (reaches_head sch now c _ _ wd W H) as (ms1 & c1 & sd & cn & wd1 & W1 & R1 & H1 & P1 & X1 & L1 & M1 & _); [rewrite Hp; discriminate |]; rewrite Hx in X1;
       exists (ms1 ++ [Run_thread now]), (with_thread c1 Returned); split; [rewrite length_app; cbn; lia |]; split; [apply Forall_app; split; [exact M1 | repeat constructor] |]; split; [| reflexivity];
       apply (run_trans sch _ _ c1); [exact R1 |]; apply (run_thread_step sch c1 sd cn wd1 W1); [exact H1 | unfold s_thread_fn; now rewrite P1, X1]).
Qed.

(** ** Examples *)

(** Whether a move is allowed, and a run of allowed moves. *)
Definition at_rest_b (s : state) (t : positive) : bool := match tasks s !! t with Some k => negb (scheduled k) | None => false end.

Definition allowed_b (c : aws_thread_scheduler) (m : thread_move) : bool :=
  match m with
  | Schedule t time => at_rest_b (scheduler c) t && bool_decide (t ∉ scheduling_queue c ++ list_copy c) && bool_decide (t ∉ cancel_copy c ++ cancel_queue c) && (0 <=? time) && (time <? 2 ^ 64)
  | Cancel t => bool_decide (is_Some (tasks (scheduler c) !! t))
  | Acquire => ref_count (references c) <? 2 ^ 64 - 1
  | Finish_destroy => false
  | _ => true
  end.

Lemma allowed_b_sound c m : allowed_b c m = true -> allowed c m.
Proof.
  destruct m; cbn [allowed_b allowed]; rewrite ?andb_true_iff, ?bool_decide_eq_true, ?Z.leb_le, ?Z.ltb_lt; auto; [| discriminate].
  intros ((((H1 & H2) & H3) & H4) & H5). split; [| split; [exact H2 | split; [exact H3 | split; assumption]]]. unfold at_rest_b in H1. destruct (tasks (scheduler c) !! task) as [k |] eqn:E; [| discriminate]. exists k. split; [exact E | now destruct (scheduled k)].
Qed.

Fixpoint play_thread (sch : aws_task_scheduler) (c : aws_thread_scheduler) (ms : list thread_move) : option aws_thread_scheduler :=
  match ms with
  | [] => Some c
  | m :: ms => if allowed_b c m then match thread_scheduler_step sch c m with Some (Some c) => play_thread sch c ms | _ => None end else None
  end.

Lemma play_thread_run sch ms : forall c c', play_thread sch c ms = Some c' -> thread_run sch c ms c'.
Proof.
  induction ms as [| m ms IH]; intros c c' E; cbn [play_thread] in E; [injection E as <-; constructor |]. destruct (allowed_b c m) eqn:Ea; [| discriminate]. destruct (thread_scheduler_step sch c m) as [[c1 |] |] eqn:Es; try discriminate.
  change (m :: ms) with ([m] ++ ms). exact (run_trans sch _ _ _ _ _ (run_one_move sch c m c1 (allowed_b_sound c m Ea) Es) (IH c1 c' E)).
Qed.

(** One task runs; one for later is cancelled; the thread falls asleep, and the last
    reference is given up. *)
Definition demo_thread_moves : list thread_move :=
  [Schedule 10 0; Run_thread 1; Schedule 20 50; Run_thread 1; Run_thread 1; Run_thread 1; Run_thread 1; Cancel 20; Release; Run_thread 1; Run_thread 1].

Definition demo_thread (ms : list thread_move) : option aws_thread_scheduler :=
  match aws_thread_scheduler_new demo_scheduler true true demo_memory with Some (Some c, _) => play_thread demo_scheduler c ms | _ => None end.

Lemma demo_times_fit : times_fit demo_memory.
Proof. intros t k E. destruct (demo_tasks t ltac:(eauto)) as [-> | [-> | ->]]; vm_compute in E; injection E as <-; cbn; lia. Qed.

Lemma demo_thread_run c0 s1 ms c : aws_thread_scheduler_new demo_scheduler true true demo_memory = Some (Some c0, s1) -> demo_thread ms = Some c -> thread_run demo_scheduler c0 ms c.
Proof. intros E. unfold demo_thread. rewrite E. apply play_thread_run. Qed.

Definition has_returned (c : aws_thread_scheduler) : bool := match thread c with Returned => true | _ => false end.

Lemma thread_scheduler_conserves_witness :
  exists c c' due, demo_thread demo_thread_moves = Some c /\ thread_scheduler_step demo_scheduler c Finish_destroy = Some (Some c') /\ due ≡ₚ [20%positive]
    /\ ran (scheduler c') = (10%positive, AWS_TASK_STATUS_RUN_READY) :: map (fun t => (t, AWS_TASK_STATUS_CANCELED)) due /\ cancellation_nodes c' = 1.
Proof.
  destruct (thread_scheduler_conserves demo_scheduler demo_memory demo_fresh demo_times_fit eq_refl) as (c0 & s1 & E0 & H).
  assert ((fun c => (ran (scheduler c), scheduling_queue c, list_copy c, has_returned c, aws_priority_queue_is_valid (timed_queue (scheduler c)), cancellation_nodes c)) <$> demo_thread demo_thread_moves
    = Some ([(10%positive, AWS_TASK_STATUS_RUN_READY)], [], [], true, true, 1)) as Ev by (vm_compute; reflexivity).
  destruct (demo_thread demo_thread_moves) as [c |] eqn:Ec; [| discriminate]. cbn in Ev. injection Ev as Er Eq El Ep Evd En.
  destruct (H _ c (demo_thread_run c0 s1 _ c E0 Ec)) as (_ & wd & W & Hwait & Hsd & _ & _ & _ & Hend).
  assert (thread c = Returned) as Hp by (unfold has_returned in Ep; now destruct (thread c)). destruct (Hend Hp Evd) as (c' & due & Es & _ & HP & Er' & _ & En').
  exists c, c', due. split; [reflexivity |]. split; [exact Es |]. rewrite Er in Hsd, Er'. rewrite Eq, El in Hsd. split; [| split; [exact Er' | now rewrite En']].
  rewrite HP. assert (wd ++ W ≡ₚ [20%positive]) as HW by (apply (Permutation_cons_inv (a := 10%positive)); exact (symmetry Hsd)).
  assert (20%positive ∈ W) as Hin.
  { apply Hwait. assert ((fun c => from_option scheduled false (tasks (scheduler c) !! 20%positive)) <$> demo_thread demo_thread_moves = Some true) as Ew by (vm_compute; reflexivity).
    rewrite Ec in Ew. injection Ew as Ew. unfold waits. destruct (tasks (scheduler c) !! 20%positive) as [k |]; [eauto | discriminate]. }
  destruct wd as [| w wd]; [exact HW |]. apply Permutation_length in HW. cbn in HW. rewrite length_app in HW. destruct W; [now apply elem_of_nil in Hin | cbn in HW; lia].
Defined.

Lemma thread_scheduler_progress_witness :
  exists c ms' c', demo_thread (take 3 demo_thread_moves) = Some c /\ Forall runs_only ms' /\ thread_run demo_scheduler c ms' c' /\ served 60 c'.
Proof.
  destruct (thread_scheduler_progress demo_scheduler demo_memory 60 demo_fresh demo_times_fit eq_refl) as (c0 & s1 & E0 & H).
  assert ((fun c => (should_exit c, scheduling_queue c)) <$> demo_thread (take 3 demo_thread_moves) = Some (false, [20%positive])) as Ev by (vm_compute; reflexivity).
  destruct (demo_thread (take 3 demo_thread_moves)) as [c |] eqn:Ec; [| discriminate]. injection Ev as Ex Eq.
  destruct (H _ c (demo_thread_run c0 s1 _ c E0 Ec)) as (Hlive & _). destruct (Hlive Ex) as (ms' & c' & _ & _ & Hr & Hrun & Hs).
  exists c, ms', c'. split; [reflexivity |]. split; [apply Hr; left; rewrite Eq; discriminate |]. split; [exact Hrun | exact Hs].
Defined.

(** A task that is cancelled before the thread sees it, and one that is scheduled, just
    before the last reference is given up: neither is ever called, and the
    cancellation node stays allocated. *)
Example lost_at_the_end :
  (c ← demo_thread [Schedule 10 0; Cancel 10; Schedule 20 0; Release; Run_thread 1]; c ← mjoin (thread_scheduler_step demo_scheduler c Finish_destroy);
   Some (released c, ran (scheduler c), scheduling_queue c, cancel_queue c, cancellation_nodes c)) = Some (true, [], [20%positive], [10%positive], 1).
Proof. vm_compute. reflexivity. Qed.

(** The last reference is given up between the test and falling asleep: the thread
    sleeps until the time-out. *)
Example end_not_noticed :
  (c ← demo_thread [Run_thread 1; Run_thread 1; Run_thread 1; Release; Run_thread 1]; Some (should_exit c, thread c, thread_scheduler_step demo_scheduler c (Run_thread 2)))
  = Some (true, Sleeping false (30 * 1000000000), None).
Proof. vm_compute. reflexivity. Qed.

(** A task for a time more than 2^63 away: the thread does not wait at all. *)
Example far_future_spins :
  (c ← demo_thread [Schedule 10 (2 ^ 64 - 2); Run_thread 1; Run_thread 1]; Some (thread c)) = Some Loop_head.
Proof. vm_compute. reflexivity. Qed.
